(* ===== verification/_CoqProject ===== *)
-Q . S2P
Prelude.v
Ordered.v
Ids.v
Frame.v
Invite.v
Fingerprint.v
Messages.v
Fragment.v
FragmentWindow.v
FragmentFacts.v
FragmentRoundTrip.v
Reorder.v
Float64.v
Buckets.v
Limits.v
RoomPassword.v
Sfu.v
Egress.v
EgressVideo.v
EgressRun.v
Crypto.v
JsonFile.v
People.v
Verified.v
Trust.v
TrustFacts.v
TrustTheorems.v
TrustChanges.v
ClientState.v
Jitter.v
ShareClock.v
Pictures.v
JitterFacts.v
Database.v
DatabaseFacts.v
Floors.v
Servers.v
KeysState.v
Keys.v
KeysFacts.v
KeysTheorems.v
Engine.v
EngineTrack.v
EngineTheorems.v
EngineDelivery.v
Video.v
Codecs.v
VideoFacts.v
CodecsFacts.v
Share.v
ShareFacts.v
SessionState.v
Session.v
SessionFacts.v
SessionShown.v
SessionRoster.v
SessionRuns.v
SessionTheorems.v
Settings.v
Cues.v
Voice.v
VoiceFacts.v
VoiceTheorems.v
HubState.v
Keystore.v
Link.v
Account.v
Hub.v
Auth.v
HubLogic.v
HubFacts.v
HubSteps.v
HubEntry.v
AuthFacts.v
HubSessions.v
HubTheorems.v
Serving.v
ServingTheorems.v
HubRoles.v
HubKeys.v
