(* ===== verification/Prelude.v ===== *)
(** * throcc: verification library

    throcc is a self-hosted voice and screen-sharing server with its clients.  The server
    ([crates/throcc-server]) keeps accounts, rooms and sessions, and forwards end-to-end
    encrypted media between the members of a room; [crates/throcc-proto] holds the protocol
    both sides speak, [crates/throcc-crypto] the byte strings both sides sign, confirm, wrap
    and seal.  [crates/throcc-client-core] is the client without its windows: of it this
    library models the session and what its windows show, how media is cut, sealed, received
    and put back in order, the audio thread, shares from the captured picture to the shown
    one, how the members of a room agree on the keys that seal it, whose keys and servers a
    user trusts, and how an account, its keys and its control stream come to be.

    ** The parts

    A connection's datagrams go through the media forwarder ([sfu.rs]), which reads a table of
    routes and nothing else.  Everything else goes through the hub ([rooms.rs]): one lock
    guards the sessions, the rooms, the rate limits and the database ([database.rs]), and every
    handler ends by publishing the routes its state calls for.  Signing in and enrolling
    ([auth.rs]) come before a session and take the hub's lock in between; arrivals, concurrent
    connections and enrollment runs are limited per source address ([limits.rs]), guesses at
    a room's password per user and room ([room_password.rs]).  What the forwarder sends a
    receiver waits in that receiver's queues ([egress.rs]).

    A client's engine ([engine.rs]) cuts a unit into fragments and seals each into a datagram.
    On the other side a track decrypts the datagrams, drops repeated ones, reassembles the
    units ([fragment.rs]) and, for video, puts them in order ([reorder.rs]).  The keys come
    from the key manager ([keys.rs]), which wraps our secret of the room's epoch to the peers
    we trust and refuses epochs below the floor that every process shares ([floors.rs]).

    A client's session ([session.rs]) is one task: it takes the user's commands, the server's
    events and its own timers one at a time, keeps the room, the media and the people, calls
    the engine, the key manager and the audio thread, and shows its state to the windows
    ([state.rs]).  It reaches the server through the control link ([control.rs]), after
    [account.rs] has signed it in over a connection whose key was checked against the pin
    ([connection.rs]), with the keys of [keystore.rs].  The audio thread ([voice.rs],
    [audio.rs], [cues.rs]) belongs to the newest call.  A share is a capture stamped on its
    clock ([clock.rs]), encoded ([encode.rs]) by a thread of its own ([share.rs]); the other
    side decodes it ([decode.rs]) and holds its pictures back to its sound.

    - [Prelude]: machine integers on [Z], bytes and text, lemmas and tactics all files share.
    - [Ids]: [ids.rs], [permissions.rs], [limits.rs] of throcc-proto: ids, roles, permissions.
    - [Frame]: [frame.rs], [framing.rs], [transport.rs]: datagram headers, control frames.
    - [Invite]: [invite.rs].  [Fingerprint]: [fingerprint.rs].
    - [Messages]: [messages.rs]: every control message, the checks on names and passwords.
    - [Crypto]: [identity.rs], [pake.rs], [hpke.rs], [safety.rs], [media.rs] of throcc-crypto.
    - [Float64]: the arithmetic the limiters count in, as an interface ([Arith]) with its laws
      ([ArithLaws]), implemented by binary64 and by the exact rationals.
    - [Buckets]: [TokenBucket] and [Buckets] of throcc-server's [limits.rs], over [Arith].
    - [Limits]: the rest of [limits.rs]: source keys, the gate and its waiting tasks, arrivals,
      enrollment runs.  [RoomPassword]: [room_password.rs], [refusals.rs].
    - [Sfu]: [sfu.rs]: one turn of the ingress loop, keyframe requests.
    - [Egress]: [egress.rs]: one receiver's queues and the rounds that empty them.
      [EgressVideo], [EgressRun]: their invariants, caps and order.
    - [Database]: [database.rs], one definition per method.  [DatabaseFacts]: its guarantees.
    - [HubState]: the state and the helpers of [rooms.rs], and the monad its handlers run in.
      [Hub]: its handlers, one definition per method, up to [dispatch] and [hub_new].
    - [Auth]: [auth.rs].  A run is the operations between its awaits: [begin_run], [exchange],
      [complete_run], [drop_run].
    - [HubLogic], [HubFacts], [HubSteps], [HubEntry]: how computations on the hub are reasoned
      about, the hub's invariant, and that every handler keeps it.
    - [AuthFacts], [HubTheorems], [HubRoles], [HubKeys]: the theorems.
    - [Ordered]: what the client asks of ordered maps and sets.
    - [Fragment]: [fragment.rs]: cutting units, the replay window, the reassembler.
      [FragmentWindow], [FragmentFacts], [FragmentRoundTrip]: each against its reference.
    - [Reorder]: [reorder.rs].  [Floors]: [floors.rs].
    - [KeysState], [Keys]: [keys.rs]: the key manager, one definition per method.
      [KeysFacts], [KeysTheorems]: its invariants and the theorems over its runs.
    - [JsonFile]: [json_file.rs]: the files every process of an install shares.  [People]:
      [people.rs], [playback.rs], the playback of [state.rs].  [Servers]: [servers.rs],
      [known_servers.rs], [server_look.rs].
    - [Verified], [Trust]: [verified.rs], [trust.rs]: the verified keys, and a session's view
      of them.  [TrustFacts], [TrustTheorems], [TrustChanges]: runs of several
      sessions and processes over one file, and the theorems over them.
    - [Jitter]: [jitter.rs], the constants of [audio.rs].  [JitterFacts], [JitterTheorems].
    - [Engine]: [engine.rs]: the sealer, a receiving track, placements and events.
      [EngineTrack], [EngineTheorems], [EngineDelivery]: what a track delivers.
    - [ClientState]: [state.rs], the picture cache.  [SessionState], [Session]: [session.rs],
      [client.rs], [call.rs], [profile.rs]: a session, one definition per method, and its loop
      online and while reconnecting.  [SessionFacts]: what each method leaves alone.
      [SessionShown], [SessionRoster], [SessionRuns], [SessionTheorems]: what its runs show.
    - [Settings]: [settings.rs].  [Cues]: [cues.rs].  [Voice]: [audio.rs] and [voice.rs] of the
      media: the mic's chain, the mixer, the devices' rings, the worker and its calls.
      [VoiceFacts], [VoiceTheorems]: what its runs play and send.
    - [ShareClock]: [clock.rs], [audio_ring.rs].  [ShareRate]: the rates they keep.
    - [Pictures]: [frame.rs] of the video.  [Video], [Codecs]: [encode.rs], [decode.rs] over
      FFmpeg's answers.  [VideoFacts]: the planes.  [CodecsFacts]: sizes, and the loops end.
    - [Share]: [share.rs], [share_audio.rs], [video/mod.rs].  [ShareFacts]: what is shown.
    - [Keystore]: [keystore.rs], over the writes left before the process stops.
    - [Link]: [connection.rs], [control.rs]: one stream's tasks as steps.
    - [Account]: [account.rs]: signing in and enrolling.

    ** How the code is modelled

    A [u64] is a [Z]; where it may wrap, saturate or be cast, the definition says so.  A
    [HashMap] is a [gmap]; where the code's iteration order is not fixed by its types, the
    model goes through the keys in increasing order, which is the order of the [BTreeMap]s
    and [BTreeSet]s; keys of people go by their bytes.  Text is a list of Unicode scalar values.  An [Instant] is a number of
    nanoseconds (of milliseconds in the client's files), a Unix time a number of seconds.

    A handler of the hub is a computation [M E A] := [Hub -> (A + E) * Hub]: it may stop with
    a refusal and keeps what it did before.  What it reads from outside is an oracle, the class
    [Env]: the clocks, random bytes, whether a transaction fails, whether a connection's queue
    takes a message.  Each reading has its own number, so two readings never have to agree:
    theorems hold for every oracle.  What a handler sends is appended to [h_out].  Work that
    leaves the lock (hashing a password) ends one handler ([Pending]) and starts another
    ([resume]), with anything in between.  The client's components are functions on records of
    their state; the time, random bytes and a channel's answer are arguments.

    The server is a state machine ([HubTheorems.action], [act], [reachable]): a step is what
    one task does under the lock, in any order, with any oracle.

    A session is one too ([Session.session_step]): an input is a command, an event, a lost
    connection, an attempt at another or a timer.  What it reads of the engine, the windows,
    the processes' files and the clock is the oracle class [Outside] ([SessionState]), with a
    number for each reading; what it does to them is appended to [se_out].  The control
    link's tasks ([Link.link_step]), the audio worker's turn cut where the devices' threads
    may come in between ([VoiceFacts.worker_op]), and a receiver's turns ([ShareFacts]) are
    steps of their own.  The keystore runs against the number of writes that still succeed.
    A float of the audio is a binary32 of the Standard Library's [SpecFloat].

    A client's processes share JSON files under a lock: an update reads the file, changes what
    it holds and replaces it, so a file is a cell and an update one step ([JsonFile]).  The
    processes' copies of it are what each read last ([TrustFacts.World]).

    Parameters of the model, because their code is not in the repository: postcard
    ([Frame]), Ed25519, SPAKE2, HPKE, AES-GCM, HKDF, HMAC, SHA-2 ([Crypto]), Argon2
    ([RoomPassword]), serde_json with the derived codecs ([Json], [Format] of [JsonFile]), Opus
    ([Jitter], [OpusEncoder] of [Share], [VoipEncoder] of [Voice]), FFmpeg ([Ffmpeg] of
    [Codecs]), WebRTC's processing, the speech detector and the resamplers ([AudioProcessing],
    [SpeechDetector], [Resampler] of [Voice]), the platform's sines ([Libm] of [Cues]) and its
    screen capture, of which there is one per platform ([Capture] of [Share]).  A theorem that needs their documented behaviour has it as a hypothesis
    ([spake2_agrees], the round trip of AES-GCM, [no_forgeries]: what opens was sealed) and a
    witness with concrete functions.  SQLite is the finite maps of [Database]: a statement
    changes the rows it names, a transaction is all or nothing, and [AUTOINCREMENT] never
    gives an id twice.

    ** What is proved

    - The hub in every reachable state: sessions, rooms, tracks and caps agree
      ([the_hub_stays_well_formed]); the forwarding table sends every track to exactly the
      members who take part ([media_reaches_exactly_its_receivers]); epochs never go back and
      nobody enters without a new one ([epochs_follow_membership]); nobody enters a room but
      by right ([rooms_are_entered_by_right]).
    - Requests: who may change or remove accounts ([accounts_change_only_from_above]), what a
      publish of sender keys delivers ([sender_keys_reach_their_recipients_once]), that
      replaced connections are dead ([replaced_connections_are_dead]), when an encryption key
      re-keys a room ([another_key_raises_the_epoch]).
    - Enrolling: an invite's secret is tried at most three times in any interleaving
      ([invite_secrets_are_tried_at_most_thrice]), burned by its last run, spent by the one
      it enrolls, and honest clients get through ([honest_clients_complete_the_exchange]).
    - The database: consistency of the tables over all histories, media ids never reused, the
      invite tree as the closure of [invited_by].
    - Media, from end to end: what a track hands its consumer is what the sender sealed on it,
      each unit at most once and video in order ([a_track_delivers_what_was_sealed]); when the
      network is kind, all of it ([a_clean_run_delivers_everything]); no nonce is used twice
      ([no_nonce_is_used_twice]); waiting for a key or a missing unit is bounded.  The window,
      the reassembler and cutting have references of their own.
    - Sender keys: our secret leaves us only wrapped to peers whose key their trusted identity
      signed ([our_secret_reaches_only_the_trusted]); a receive key is the one its owner sent
      ([receive_keys_are_the_owners]); an epoch below the floor is never taken
      ([no_epoch_is_replayed]); old secrets go ([old_secrets_are_forgotten]).
    - Trust: the keys verified in the shared file are those users confirmed and did not take
      back, in any interleaving of processes ([verified_keys_are_those_confirmed]); a person
      shows as verified only for a key someone compared while it was presented
      ([only_compared_keys_show_as_verified]); a changed key stays warned of until the user
      answers ([a_changed_key_stays_warned_of], for a single process:
      [a_stale_process_hides_a_change] shows why).  The files behave as cells
      ([json_files_are_cells]).
    - Playout: every pull is filled and the buffer stays bounded ([every_pull_fills_its_output]);
      steady audio is played whole ([steady_audio_plays_whole]).
      [a_buffer_waits_behind_the_wrap] is a buffer that never starts.
    - A session: what its windows show is what it holds ([what_is_shown_is_what_is_held]); the
      roster is what the server said, as a fold over its welcomes and events
      ([the_roster_is_what_the_server_said]); the connection shown is the state of the
      reconnecting ([the_connection_shown_is_the_connection]); deafening and back restores the
      mic ([undeafening_restores_the_mic]); what is queued while reconnecting is what is still
      wanted ([the_queue_is_what_is_still_wanted]), though [replaying_the_queue_may_differ].
    - The audio thread: older calls neither change nor end a newer one
      ([the_newest_call_has_the_audio]); the mic is sent on its own track only, when it is open
      ([the_mic_is_heard_only_on_its_track]); what is played is in range, a cue plays once, a
      share not played is not said to be heard, playback stays just ahead.
    - Shares: audio is stamped when it was captured ([audio_is_stamped_when_it_was_captured]),
      pictures keep their rate and shape, survive the planes ([pictures_survive_the_planes]) and
      decode within their size ([a_share_decodes_within_its_size]); they are shown in order,
      within bounds, with their sound ([pictures_are_shown_in_order_and_held_within_bounds],
      [pictures_wait_for_their_sound]).
    - Keys and accounts: a keystore opened is safe wherever it stops
      ([opening_is_safe_wherever_it_stops]), its identity signs only for the pinned server and
      enrolling pins the one proved ([enrolling_pins_the_proved_server]); a reply reaches the
      request it answers ([replies_reach_their_own_request]), and nobody waits on a closed link
      ([nobody_waits_on_a_closed_link]).
    - A receiver's queues keep their budgets and send the oldest first
      ([egress_keeps_its_budgets], [egress_sends_the_oldest], [audio_is_served_in_turn]).
    - Limits: token buckets refine ones that are never forgotten and bound rates; the gate
      counts the passes held and loses no wakeup; runs and guesses are bounded in time.
    - Formats: headers, frames, invite codes, fingerprints and sealed datagrams round trip;
      nonces and signed byte strings determine their fields.

    The forwarder's use of the hub's table is by interface: [Sfu.ingress] is proved for every
    table, and [media_reaches_exactly_its_receivers] says which tables the hub publishes.

    ** Bounds and fuel

    [tree_query] has one unit of fuel per stored user and one more, which
    [invite_tree_is_the_closure] shows to be enough.  [mint_attempts] runs [MINT_ATTEMPTS]
    times, as its loop does.  [Egress]'s loops that drop units have one unit of fuel per unit
    queued, which [egress_keeps_its_budgets] shows to be enough, and [poll_rounds] of [Reorder]
    one per unit buffered ([reorder_waits_boundedly]).  [fragment_rest] takes at
    least a byte a round and has one unit of fuel per byte.  [pull_loop] of [Jitter] has one per
    sample of a pull and one more; [every_pull_fills_its_output] shows that more changes nothing.
    [push_media_with] of [Session] has two units of fuel, for a refused share that is pushed
    again without it ([push_media_twice]).  The loops that empty a codec have one unit per output FFmpeg holds, by
    [the_codec_loops_end]; a capture's [next_audio] one per frame it may cut, by
    [next_audio_ends].  All other recursion is structural.
    Connection ids are [u64] and wrap; the theorems about reachable states assume fewer than
    [2^64 - 1] sign-ins ([act_ok]).

    ** What is not modelled

    Log lines and the counts only they show; opening and migrating the database file; QUIC and
    TLS; the server's tasks and its files ([session.rs], [lib.rs], [main.rs], [files.rs],
    [tls.rs], [identity.rs]), which call the operations modelled; the control queue of
    [egress.rs], of which the hub sees only whether it accepts.  Of the client: the sound
    devices, the screen captures and the encoders' pictures in GPU memory, which are bindings
    of each platform; its file locks and paths; the user interface, which draws the state of
    [ClientState]; the command line; and the GUI framework vendored with it.  *)
From Stdlib Require Export ZArith Lia.
From stdpp Require Export base gmap sets list strings sorting numbers tactics.

#[global] Open Scope Z_scope.

(** ** Machine integers

    An unsigned integer of [w] bits is a [Z] in [0, 2^w). *)

Definition u8_max : Z := 255.
Definition u16_max : Z := 65535.
Definition u32_max : Z := 4294967295.
Definition u64_max : Z := 18446744073709551615.
Definition i64_max : Z := 9223372036854775807.

Definition is_u8 (z : Z) : Prop := 0 <= z <= u8_max.
Definition is_u32 (z : Z) : Prop := 0 <= z <= u32_max.
Definition is_u64 (z : Z) : Prop := 0 <= z <= u64_max.

(** [a.wrapping_add(b)], [a.wrapping_sub(b)] on [u32], [+] on [u64]. *)
Definition wrap32 (z : Z) : Z := z mod 4294967296.
Definition wrap64 (z : Z) : Z := z mod 18446744073709551616.

(** [a.checked_add(b)] on [u32]; [a.checked_sub(b)] and [a.saturating_sub(b)] on any width. *)
Definition checked_add32 (a b : Z) : option Z :=
  if a + b <=? u32_max then Some (a + b) else None.
Definition checked_sub (a b : Z) : option Z :=
  if b <=? a then Some (a - b) else None.
Definition sat_sub (a b : Z) : Z := Z.max 0 (a - b).

(** [x as i64] for an unsigned 64-bit [x]: two's complement. *)
Definition as_i64 (x : Z) : Z :=
  if x <=? i64_max then x else x - 18446744073709551616.

(** ** Bytes

    A byte is a [Z] in [0, 256); a Rust [Vec<u8>] or [[u8; N]] is a list of them. *)

Abbreviation byte := Z (only parsing).
Abbreviation bytes := (list Z) (only parsing).

(** [x.to_be_bytes()] of an integer of [n] bytes. *)
Fixpoint to_be_bytes (n : nat) (x : Z) : bytes :=
  match n with
  | O => []
  | S n' => (x / 256 ^ Z.of_nat n') mod 256 :: to_be_bytes n' x
  end.

(** [uN::from_be_bytes(bs)]. *)
Definition from_be_bytes (bs : bytes) : Z :=
  foldl (fun acc b => acc * 256 + b) 0 bs.

Lemma length_to_be_bytes n x : length (to_be_bytes n x) = n.
Proof. induction n; simpl; congruence. Qed.

Lemma to_be_bytes_u8 n x : Forall is_u8 (to_be_bytes n x).
Proof.
  induction n as [|n IH]; simpl; constructor; [|done].
  unfold is_u8, u8_max. pose proof (Z.mod_pos_bound (x / 256 ^ Z.of_nat n) 256). lia.
Qed.

Lemma foldl_be_acc bs acc :
  foldl (fun a b => a * 256 + b) acc bs = acc * 256 ^ Z.of_nat (length bs) + from_be_bytes bs.
Proof.
  unfold from_be_bytes. revert acc. induction bs as [|b bs IH]; intros acc; cbn [foldl length].
  - rewrite Z.pow_0_r. lia.
  - rewrite (IH (acc * 256 + b)), (IH (0 * 256 + b)).
    rewrite Nat2Z.inj_succ, Z.pow_succ_r by lia. ring.
Qed.

Lemma from_be_bytes_cons b bs :
  from_be_bytes (b :: bs) = b * 256 ^ Z.of_nat (length bs) + from_be_bytes bs.
Proof. unfold from_be_bytes at 1. cbn [foldl]. rewrite foldl_be_acc. lia. Qed.

Lemma from_be_bytes_bound bs :
  Forall is_u8 bs -> 0 <= from_be_bytes bs < 256 ^ Z.of_nat (length bs).
Proof.
  unfold is_u8, u8_max. induction 1 as [|b bs Hb _ IH].
  - unfold from_be_bytes. simpl. lia.
  - rewrite from_be_bytes_cons. cbn [length]. rewrite Nat2Z.inj_succ, Z.pow_succ_r by lia. nia.
Qed.

Lemma from_to_be_bytes_mod n x :
  from_be_bytes (to_be_bytes n x) = x mod 256 ^ Z.of_nat n.
Proof.
  induction n as [|n IH]; cbn [to_be_bytes].
  - rewrite Z.pow_0_r, Z.mod_1_r. done.
  - rewrite from_be_bytes_cons, length_to_be_bytes, IH.
    rewrite Nat2Z.inj_succ, Z.pow_succ_r, (Z.mul_comm 256) by lia.
    rewrite Z.rem_mul_r by (try apply Z.pow_nonzero; lia). lia.
Qed.

(** [uN::from_be_bytes(x.to_be_bytes()) == x]. *)
Lemma from_to_be_bytes n x :
  0 <= x < 256 ^ Z.of_nat n -> from_be_bytes (to_be_bytes n x) = x.
Proof. intros. rewrite from_to_be_bytes_mod. by apply Z.mod_small. Qed.

Lemma to_from_be_bytes bs :
  Forall is_u8 bs -> to_be_bytes (length bs) (from_be_bytes bs) = bs.
Proof.
  unfold is_u8, u8_max.
  assert (forall n k x, 0 <= k -> to_be_bytes n (k * 256 ^ Z.of_nat n + x) = to_be_bytes n x) as Hk.
  { induction n as [|n IHn]; intros k x Hk; [done|]. cbn [to_be_bytes]. f_equal.
    - rewrite Nat2Z.inj_succ, Z.pow_succ_r by lia.
      replace (k * (256 * 256 ^ Z.of_nat n) + x) with (x + (k * 256) * 256 ^ Z.of_nat n) by ring.
      rewrite Z.div_add by (apply Z.pow_nonzero; lia).
      by rewrite Z.mod_add by lia.
    - rewrite Nat2Z.inj_succ, Z.pow_succ_r by lia.
      replace (k * (256 * 256 ^ Z.of_nat n)) with ((k * 256) * 256 ^ Z.of_nat n) by ring.
      apply IHn. lia. }
  induction 1 as [|b bs Hb Hbs IH]; [done|].
  rewrite from_be_bytes_cons. cbn [length to_be_bytes].
  rewrite Hk by lia. rewrite IH. f_equal.
  pose proof (from_be_bytes_bound bs Hbs).
  rewrite Z.div_add_l, Z.div_small, Z.add_0_r by (try apply Z.pow_nonzero; lia).
  apply Z.mod_small. lia.
Qed.

Lemma to_be_bytes_inj n x y :
  0 <= x < 256 ^ Z.of_nat n -> 0 <= y < 256 ^ Z.of_nat n ->
  to_be_bytes n x = to_be_bytes n y -> x = y.
Proof. intros Hx Hy E. by rewrite <- (from_to_be_bytes n x), <- (from_to_be_bytes n y), E. Qed.

(** ** Text

    A Rust [char] is its Unicode scalar value and a [str] or [String] the list of its
    characters.  [str.len()] counts UTF-8 bytes; the code only takes it of ASCII text, where
    it is the number of characters. *)

Abbreviation char := Z (only parsing).
Abbreviation str := (list Z) (only parsing).

(** A literal. *)
Definition lit (s : string) : list Z :=
  map (fun a => Z.of_N (Ascii.N_of_ascii a)) (String.list_ascii_of_string s).

(** [char::is_ascii], [char::is_ascii_whitespace], [char::to_ascii_uppercase]. *)
Definition is_ascii (c : Z) : bool := c <? 128.
Definition is_ascii_whitespace (c : Z) : bool :=
  bool_decide (c ∈ [9; 10; 12; 13; 32]).
Definition to_ascii_uppercase (c : Z) : Z :=
  if (97 <=? c) && (c <=? 122) then c - 32 else c.

(** [char::is_whitespace] (White_Space) and [char::is_control] (general category Cc). *)
Definition is_whitespace (c : Z) : bool :=
  ((9 <=? c) && (c <=? 13)) || ((0x2000 <=? c) && (c <=? 0x200A)) ||
  bool_decide (c ∈ [0x20; 0x85; 0xA0; 0x1680; 0x2028; 0x2029; 0x202F; 0x205F; 0x3000]).
Definition is_control (c : Z) : bool :=
  ((0 <=? c) && (c <=? 31)) || ((127 <=? c) && (c <=? 159)).

(** [Iterator::collect::<Option<_>>]. *)
Fixpoint collect_option {A} (l : list (option A)) : option (list A) :=
  match l with
  | [] => Some []
  | None :: _ => None
  | Some a :: l => match collect_option l with Some as_ => Some (a :: as_) | None => None end
  end.

Lemma collect_option_fmap {A B} (f : A -> option B) l :
  (forall x, x ∈ l -> is_Some (f x)) ->
  exists l', collect_option (f <$> l) = Some l' /\ Forall2 (fun x y => f x = Some y) l l'.
Proof.
  induction l as [|x l IH]; intros H; [by exists []|].
  destruct (H x) as [y Hy]; [left|].
  destruct IH as (l' & E & HF); [intros; apply H; by right|].
  exists (y :: l'). csimpl. rewrite Hy, E. by repeat constructor.
Qed.

Lemma collect_option_Some {A B} (f : A -> option B) l l' :
  collect_option (f <$> l) = Some l' <-> Forall2 (fun x y => f x = Some y) l l'.
Proof.
  split.
  - revert l'. induction l as [|x l IH]; intros l'; csimpl.
    + intros [= <-]. constructor.
    + destruct (f x) eqn:E; [|done]. destruct (collect_option (f <$> l)) eqn:E2; [|done].
      intros [= <-]. constructor; auto.
  - induction 1 as [|x y l l' Hx _ IH]; csimpl; [done|]. by rewrite Hx, IH.
Qed.

Lemma last_cons (t : Z) ts d : List.last (t :: ts) d = List.last ts t.
Proof. revert t d. induction ts as [|u ts IH]; intros t d; [done|]. change (List.last (u :: ts) d = List.last (u :: ts) t). by rewrite !IH. Qed.

Lemma omap_Forall2 {A B} (f : A -> option B) l l' :
  Forall2 (fun x y => f x = Some y) l l' -> omap f l = l'.
Proof. induction 1 as [|x y l l' Hx _ IH]; csimpl; [done|]. by rewrite Hx, IH. Qed.

Lemma Forall2_fixed {A} (f : A -> option A) l :
  (forall x, x ∈ l -> f x = Some x) -> Forall2 (fun x y => f x = Some y) l l.
Proof.
  induction l as [|x l IH]; intros H; constructor; [apply H; left|].
  apply IH. intros. apply H. by right.
Qed.

(** ** Record fields

    [r <| p := v |>] is [r] with field [p] set to [v], [r <| p ::= f |>] with [f] applied to
    it.  An instance of [Setter] per field says how; [setter_of] makes it from the record's
    constructor applied to its fields. *)
Class Setter {R T : Type} (proj : R -> T) := update : (T -> T) -> R -> R.
#[global] Arguments update {R T} proj {Setter} f r : rename.

Ltac setter_of whole_record :=
  match goal with |- Setter ?proj =>
    intros f x;
    let whole := eval cbv beta delta [whole_record] in (whole_record x) in
    match eval pattern (proj x) in whole with ?g _ => let t := eval cbv beta in (g (f (proj x))) in exact t end
  end.

Declare Scope field_scope.
Notation "r <| p := v |>" := (update p (fun _ => v) r) (at level 1, left associativity, p at level 0, v at level 200) : field_scope.
Notation "r <| p ::= f |>" := (update p f r) (at level 1, left associativity, p at level 0, f at level 200) : field_scope.
#[global] Open Scope field_scope.
