(* ===== verification/Ordered.v ===== *)
(** * Ordered maps and sets

    What the code asks of a [BTreeMap] or [BTreeSet] beyond membership: its first and last
    keys, and the keys of a range.  The sets are [gset Z], the maps [gmap Z]. *)
From S2P Require Import Prelude.
Open Scope Z_scope.

(** The least and the greatest key of a set: [first] and [last]. *)
Definition least (s : gset Z) : option Z :=
  foldr (fun x acc => Some (from_option (Z.min x) x acc)) None (elements s).
Definition greatest (s : gset Z) : option Z :=
  foldr (fun x acc => Some (from_option (Z.max x) x acc)) None (elements s).

(** [range(lo..=hi).next()] and [range(lo..=hi).next_back()]. *)
Definition between (lo hi : Z) (s : gset Z) : gset Z := filter (fun x => lo <= x <= hi) s.
Definition first_in (lo hi : Z) (s : gset Z) : option Z := least (between lo hi s).
Definition last_in (lo hi : Z) (s : gset Z) : option Z := greatest (between lo hi s).
(** [range(..=hi).next_back()]. *)
Definition last_upto (hi : Z) (s : gset Z) : option Z := greatest (filter (fun x => x <= hi) s).

(** [split_off(&at)], the part it leaves with the caller. *)
Definition set_from (at_ : Z) (s : gset Z) : gset Z := filter (fun x => at_ <= x) s.
Definition map_from {A} (at_ : Z) (m : gmap Z A) : gmap Z A := filter (fun '(k, _) => at_ <= k) m.

(** [first_key_value] and [last_key_value]. *)
Definition first_key_value {A} (m : gmap Z A) : option (Z * A) :=
  k ← least (dom m); v ← m !! k; Some (k, v).
Definition last_key_value {A} (m : gmap Z A) : option (Z * A) :=
  k ← greatest (dom m); v ← m !! k; Some (k, v).

(** The integers [first..=last]. *)
Definition seqZ_incl (first last : Z) : list Z := seqZ first (last - first + 1).

(** A map's entries in the order of its keys, and [collect()] into a map: later entries win. *)
Definition key_le {A} (a b : Z * A) : Prop := a.1 <= b.1.
#[export] Instance key_le_dec {A} (a b : Z * A) : Decision (key_le a b) := Z_le_dec _ _.
Definition in_key_order {A} (m : gmap Z A) : list (Z * A) := merge_sort key_le (map_to_list m).

(** The order in which the standard library's [HashMap] is iterated: any order of its entries,
    fixed by nothing the program sees.  Code whose result depends on it takes it as a class. *)
Class HashOrder := {
  hash_order : forall {A}, gmap Z A -> list (Z * A);
  hash_order_all : forall A (m : gmap Z A), hash_order m ≡ₚ map_to_list m
}.
Definition collect_map {A} (l : list (Z * A)) : gmap Z A := foldl (fun m '(k, v) => <[k := v]> m) ∅ l.

(** The sum of a measure over a map. *)
Definition total {K A} `{Countable K} (f : A -> Z) (m : gmap K A) : Z := map_fold (fun _ x n => f x + n) 0 m.

(** ** Laws *)

Lemma least_spec s : match least s with
  | Some x => x ∈ s /\ forall y, y ∈ s -> x <= y
  | None => s = ∅
  end.
Proof.
  unfold least. assert (forall l, match foldr (fun x acc => Some (from_option (Z.min x) x acc)) None l with
    | Some x => x ∈ l /\ forall y, y ∈ l -> x <= y | None => l = [] end) as H.
  { induction l as [|x l IH]; cbn [foldr]; [done|]. destruct (foldr _ None l) as [m|]; cbn.
    - destruct IH as [Hm Hle]. split.
      + destruct (Z.min_spec x m) as [[_ ->]|[_ ->]]; [left|by right].
      + intros y [->|Hy]%elem_of_cons; [lia|]. specialize (Hle y Hy). lia.
    - subst l. split; [left|]. intros y ->%list_elem_of_singleton. lia. }
  specialize (H (elements s)). destruct (foldr _ None _) as [x|].
  - setoid_rewrite elem_of_elements in H. done.
  - by apply elements_empty_iff, leibniz_equiv in H.
Qed.

Lemma greatest_spec s : match greatest s with
  | Some x => x ∈ s /\ forall y, y ∈ s -> y <= x
  | None => s = ∅
  end.
Proof.
  unfold greatest. assert (forall l, match foldr (fun x acc => Some (from_option (Z.max x) x acc)) None l with
    | Some x => x ∈ l /\ forall y, y ∈ l -> y <= x | None => l = [] end) as H.
  { induction l as [|x l IH]; cbn [foldr]; [done|]. destruct (foldr _ None l) as [m|]; cbn.
    - destruct IH as [Hm Hle]. split.
      + destruct (Z.max_spec x m) as [[_ ->]|[_ ->]]; [by right|left].
      + intros y [->|Hy]%elem_of_cons; [lia|]. specialize (Hle y Hy). lia.
    - subst l. split; [left|]. intros y ->%list_elem_of_singleton. lia. }
  specialize (H (elements s)). destruct (foldr _ None _) as [x|].
  - setoid_rewrite elem_of_elements in H. done.
  - by apply elements_empty_iff, leibniz_equiv in H.
Qed.

Lemma least_Some s x : least s = Some x <-> x ∈ s /\ forall y, y ∈ s -> x <= y.
Proof.
  pose proof (least_spec s) as H. destruct (least s) as [z|].
  - split; [by intros [= ->]|]. intros [Hx Hle]. destruct H as [Hz Hz']. f_equal. specialize (Hle z Hz). specialize (Hz' x Hx). lia.
  - subst s. split; [done|]. intros [? _]. set_solver.
Qed.
Lemma least_None s : least s = None <-> s = ∅.
Proof. pose proof (least_spec s) as H. destruct (least s) as [z|]; [|done]. split; [done|]. intros ->. set_solver. Qed.
Lemma greatest_Some s x : greatest s = Some x <-> x ∈ s /\ forall y, y ∈ s -> y <= x.
Proof.
  pose proof (greatest_spec s) as H. destruct (greatest s) as [z|].
  - split; [by intros [= ->]|]. intros [Hx Hle]. destruct H as [Hz Hz']. f_equal. specialize (Hle z Hz). specialize (Hz' x Hx). lia.
  - subst s. split; [done|]. intros [? _]. set_solver.
Qed.
Lemma greatest_None s : greatest s = None <-> s = ∅.
Proof. pose proof (greatest_spec s) as H. destruct (greatest s) as [z|]; [|done]. split; [done|]. intros ->. set_solver. Qed.

Lemma elem_of_between lo hi s x : x ∈ between lo hi s <-> lo <= x <= hi /\ x ∈ s.
Proof. unfold between, set_from. by rewrite elem_of_filter. Qed.
Lemma elem_of_set_from at_ s x : x ∈ set_from at_ s <-> at_ <= x /\ x ∈ s.
Proof. unfold between, set_from. by rewrite elem_of_filter. Qed.

Lemma first_in_Some lo hi s x :
  first_in lo hi s = Some x <-> lo <= x <= hi /\ x ∈ s /\ forall y, y ∈ s -> lo <= y <= hi -> x <= y.
Proof.
  unfold first_in. rewrite least_Some. setoid_rewrite elem_of_between. naive_solver.
Qed.
Lemma first_in_None lo hi s : first_in lo hi s = None <-> forall y, y ∈ s -> ~ lo <= y <= hi.
Proof.
  unfold first_in. rewrite least_None. split.
  - intros H y Hy Hr. assert (y ∈ between lo hi s) by (by rewrite elem_of_between). set_solver.
  - intros H. apply set_eq. intros y. rewrite elem_of_between. set_solver.
Qed.
Lemma last_in_Some lo hi s x :
  last_in lo hi s = Some x <-> lo <= x <= hi /\ x ∈ s /\ forall y, y ∈ s -> lo <= y <= hi -> y <= x.
Proof.
  unfold last_in. rewrite greatest_Some. setoid_rewrite elem_of_between. naive_solver.
Qed.
Lemma last_in_None lo hi s : last_in lo hi s = None <-> forall y, y ∈ s -> ~ lo <= y <= hi.
Proof.
  unfold last_in. rewrite greatest_None. split.
  - intros H y Hy Hr. assert (y ∈ between lo hi s) by (by rewrite elem_of_between). set_solver.
  - intros H. apply set_eq. intros y. rewrite elem_of_between. set_solver.
Qed.
Lemma last_upto_Some hi s x :
  last_upto hi s = Some x <-> x <= hi /\ x ∈ s /\ forall y, y ∈ s -> y <= hi -> y <= x.
Proof. unfold last_upto. rewrite greatest_Some. setoid_rewrite elem_of_filter. naive_solver. Qed.
Lemma last_upto_None hi s : last_upto hi s = None <-> forall y, y ∈ s -> hi < y.
Proof.
  unfold last_upto. rewrite greatest_None. split.
  - intros H y Hy. destruct (Z.le_gt_cases y hi); [|done]. assert (y ∈ filter (fun x => x <= hi) s) by (by apply elem_of_filter). set_solver.
  - intros H. apply set_eq. intros y. rewrite elem_of_filter. split; [|set_solver]. intros [? Hy%H]. lia.
Qed.

Lemma lookup_map_from {A} at_ (m : gmap Z A) k v : map_from at_ m !! k = Some v <-> at_ <= k /\ m !! k = Some v.
Proof. unfold map_from. rewrite map_lookup_filter_Some. naive_solver. Qed.
Lemma dom_map_from {A} at_ (m : gmap Z A) : dom (map_from at_ m) = set_from at_ (dom m).
Proof.
  apply set_eq. intros k. rewrite elem_of_set_from, !elem_of_dom. unfold is_Some. setoid_rewrite lookup_map_from. naive_solver.
Qed.

Lemma first_key_value_Some {A} (m : gmap Z A) k v :
  first_key_value m = Some (k, v) <-> m !! k = Some v /\ forall j, is_Some (m !! j) -> k <= j.
Proof.
  unfold first_key_value. pose proof (least_spec (dom m)) as H. destruct (least (dom m)) as [x|]; cbn.
  - destruct H as [Hx Hle]. apply elem_of_dom in Hx as Hx'. destruct Hx' as [w Hw]. rewrite Hw. cbn. setoid_rewrite elem_of_dom in Hle. split.
    + intros [= -> ->]. done.
    + intros [Hk Hmin]. assert (x = k) as ->; [|congruence]. specialize (Hle k ltac:(by eexists)). specialize (Hmin x ltac:(by eexists)). lia.
  - apply dom_empty_inv_L in H. subst m. split; [done|]. intros [Hk _]. by rewrite lookup_empty in Hk.
Qed.
Lemma first_key_value_None {A} (m : gmap Z A) : first_key_value m = None <-> m = ∅.
Proof.
  unfold first_key_value. pose proof (least_spec (dom m)) as H. destruct (least (dom m)) as [x|]; cbn.
  - destruct H as [Hx _]. apply elem_of_dom in Hx as [w Hw]. rewrite Hw. split; [done|]. intros ->. by rewrite lookup_empty in Hw.
  - by apply dom_empty_inv_L in H.
Qed.
Lemma last_key_value_Some {A} (m : gmap Z A) k v :
  last_key_value m = Some (k, v) <-> m !! k = Some v /\ forall j, is_Some (m !! j) -> j <= k.
Proof.
  unfold last_key_value. pose proof (greatest_spec (dom m)) as H. destruct (greatest (dom m)) as [x|]; cbn.
  - destruct H as [Hx Hle]. apply elem_of_dom in Hx as Hx'. destruct Hx' as [w Hw]. rewrite Hw. cbn. setoid_rewrite elem_of_dom in Hle. split.
    + intros [= -> ->]. done.
    + intros [Hk Hmin]. assert (x = k) as ->; [|congruence]. specialize (Hle k ltac:(by eexists)). specialize (Hmin x ltac:(by eexists)). lia.
  - apply dom_empty_inv_L in H. subst m. split; [done|]. intros [Hk _]. by rewrite lookup_empty in Hk.
Qed.
Lemma last_key_value_None {A} (m : gmap Z A) : last_key_value m = None <-> m = ∅.
Proof.
  unfold last_key_value. pose proof (greatest_spec (dom m)) as H. destruct (greatest (dom m)) as [x|]; cbn.
  - destruct H as [Hx _]. apply elem_of_dom in Hx as [w Hw]. rewrite Hw. split; [done|]. intros ->. by rewrite lookup_empty in Hw.
  - by apply dom_empty_inv_L in H.
Qed.

Lemma elem_of_seqZ_incl first last x : x ∈ seqZ_incl first last <-> first <= x <= last.
Proof. unfold seqZ_incl. rewrite elem_of_seqZ. lia. Qed.

Lemma elem_of_in_key_order {A} (m : gmap Z A) k v : (k, v) ∈ in_key_order m <-> m !! k = Some v.
Proof. unfold in_key_order. rewrite merge_sort_Permutation. apply elem_of_map_to_list. Qed.

Lemma in_key_order_keys {A} (m : gmap Z A) : NoDup (in_key_order m).*1.
Proof. unfold in_key_order. rewrite merge_sort_Permutation. apply NoDup_fst_map_to_list. Qed.
Lemma elem_of_hash_order {order : HashOrder} {A} (m : gmap Z A) k v : (k, v) ∈ hash_order m <-> m !! k = Some v.
Proof. rewrite hash_order_all. apply elem_of_map_to_list. Qed.
Lemma hash_order_empty {order : HashOrder} {A} : hash_order (∅ : gmap Z A) = [].
Proof. apply Permutation_nil_r. by rewrite hash_order_all, map_to_list_empty. Qed.
Lemma hash_order_keys {order : HashOrder} {A} (m : gmap Z A) : NoDup (hash_order m).*1.
Proof. rewrite hash_order_all. apply NoDup_fst_map_to_list. Qed.

Lemma collect_map_acc {A} (l : list (Z * A)) (m : gmap Z A) k v :
  foldl (fun m '(k, v) => <[k := v]> m) m l !! k = Some v -> (k, v) ∈ l \/ m !! k = Some v.
Proof.
  revert m. induction l as [|[k' v'] l IH]; intros m; cbn [foldl]; [by right|]. intros H. destruct (IH _ H) as [?|Hi]; [left; set_solver|].
  apply lookup_insert_Some in Hi as [[-> ->]|[_ ?]]; [left; set_solver|by right].
Qed.
Lemma collect_map_Some {A} (l : list (Z * A)) k v : collect_map l !! k = Some v -> (k, v) ∈ l.
Proof. intros [?|H]%collect_map_acc; [done|]. by rewrite lookup_empty in H. Qed.
Lemma collect_map_is_Some {A} (l : list (Z * A)) k : is_Some (collect_map l !! k) <-> k ∈ l.*1.
Proof.
  unfold collect_map. assert (forall m : gmap Z A, is_Some (foldl (fun m '(k, v) => <[k := v]> m) m l !! k) <-> k ∈ l.*1 \/ is_Some (m !! k)) as H.
  { induction l as [|[k' v'] l IH]; intros m; cbn [foldl]; [set_solver|]. rewrite IH, lookup_insert_is_Some, fmap_cons, elem_of_cons. cbn [fst].
    destruct (decide (k' = k)) as [->|]; naive_solver. }
  rewrite H, lookup_empty. split; [intros [?|[? ?]]|]; (done || by left).
Qed.

Lemma total_empty {K A} `{Countable K} (f : A -> Z) : total f (∅ : gmap K A) = 0.
Proof. done. Qed.
Lemma total_insert {K A} `{Countable K} (f : A -> Z) (m : gmap K A) k x : m !! k = None -> total f (<[k := x]> m) = f x + total f m.
Proof. intros Hk. unfold total. rewrite map_fold_insert_L; [done| |done]. intros; lia. Qed.
Lemma total_delete {K A} `{Countable K} (f : A -> Z) (m : gmap K A) k x : m !! k = Some x -> total f (delete k m) = total f m - f x.
Proof. intros Hk. unfold total. rewrite (map_fold_delete_L _ _ k x m); [lia| |done]. intros; lia. Qed.
Lemma total_replace {K A} `{Countable K} (f : A -> Z) (m : gmap K A) k x y : m !! k = Some x -> total f (<[k := y]> m) = total f m - f x + f y.
Proof. intros Hk. rewrite <- insert_delete_eq, total_insert by apply lookup_delete_eq. rewrite (total_delete f m k x) by done. lia. Qed.
Lemma total_pos {K A} `{Countable K} (f : A -> Z) (m : gmap K A) : (forall x, 0 <= f x) -> 0 <= total f m.
Proof. intros Hf. induction m as [|k x m Hk IH] using map_ind; [done|]. rewrite total_insert by done. specialize (Hf x). lia. Qed.
Lemma total_in {K A} `{Countable K} (f : A -> Z) (m : gmap K A) k x : (forall x, 0 <= f x) -> m !! k = Some x -> f x <= total f m.
Proof. intros Hf Hk. pose proof (total_delete f m k x Hk). pose proof (total_pos f (delete k m) Hf). lia. Qed.
