(* ===== verification/Ids.v ===== *)
(** * Ids, roles, permissions and shared limits

    [crates/throcc-proto/src/{ids,permissions,limits}.rs].  The id newtypes ([UserId],
    [RoomId], [MediaId], [Epoch]) are abbreviations of [Z]; their widths ([u64], [u64],
    [u32], [u32]) are stated where a component's invariant needs them. *)
From S2P Require Import Prelude.

Abbreviation UserId := Z (only parsing).
Abbreviation RoomId := Z (only parsing).
Abbreviation MediaId := Z (only parsing).
Abbreviation Epoch := Z (only parsing).
(** [ids::Hash], the 32 bytes of a SHA-256 digest. *)
Abbreviation Hash := bytes (only parsing).

(** ** Roles *)

(* @src/crates/throcc-proto/src/ids.rs 37-43 Role *)
Inductive Role := User | Manager | Admin.

#[export] Instance Role_eq_dec : EqDecision Role.
Proof. solve_decision. Defined.

(* @src/crates/throcc-proto/src/ids.rs 46-48 Role::rank *)
Definition rank (r : Role) : Z :=
  match r with User => 0 | Manager => 1 | Admin => 2 end.

(* @src/crates/throcc-proto/src/ids.rs 50-57 Role::from_rank *)
Definition from_rank (rank : Z) : option Role :=
  match rank with
  | 0 => Some User
  | 1 => Some Manager
  | 2 => Some Admin
  | _ => None
  end.

(** The derived order on [Role] is the order of the discriminants. *)
Definition role_ge (a b : Role) : bool := rank b <=? rank a.
Definition role_lt (a b : Role) : bool := rank a <? rank b.

(** ** Shared limits ([limits.rs]) *)

(* @src/crates/throcc-proto/src/limits.rs 4-5 MAX_ROOM_MEMBERS *)
Definition MAX_ROOM_MEMBERS : Z := 30.
(* @src/crates/throcc-proto/src/limits.rs 6-7 MAX_ROOM_SHARES *)
Definition MAX_ROOM_SHARES : Z := 5.
(* @src/crates/throcc-proto/src/limits.rs 8-10 MAX_WATCHED *)
Definition MAX_WATCHED : Z := 2 * MAX_ROOM_SHARES.
(* @src/crates/throcc-proto/src/limits.rs 11-12 MAX_ROOMS *)
Definition MAX_ROOMS : Z := 50.
(* @src/crates/throcc-proto/src/limits.rs 13-15 MAX_ONLINE *)
Definition MAX_ONLINE : Z := 250.
(* @src/crates/throcc-proto/src/limits.rs 16-17 ADMIN_HEADROOM *)
Definition ADMIN_HEADROOM : Z := 10.
(* @src/crates/throcc-proto/src/limits.rs 18-20 MAX_SIGNED_IN *)
Definition MAX_SIGNED_IN : Z := MAX_ONLINE + ADMIN_HEADROOM.

(** ** Permissions ([permissions.rs]) *)

(* @src/crates/throcc-proto/src/permissions.rs 5-5 DAILY_INVITES *)
Definition DAILY_INVITES : Z := 3.

(* @src/crates/throcc-proto/src/permissions.rs 7-9 can_manage_rooms *)
Definition can_manage_rooms (actor : Role) : bool := role_ge actor Manager.

(* @src/crates/throcc-proto/src/permissions.rs 11-13 can_list_users *)
Definition can_list_users (actor : Role) : bool := bool_decide (actor = Admin).

(* @src/crates/throcc-proto/src/permissions.rs 15-17 can_edit_server *)
Definition can_edit_server (actor : Role) : bool := bool_decide (actor = Admin).

(* @src/crates/throcc-proto/src/permissions.rs 19-22 invite_cap *)
Definition invite_cap (actor : Role) : option Z :=
  if bool_decide (actor <> Admin) then Some DAILY_INVITES else None.

(* @src/crates/throcc-proto/src/permissions.rs 24-27 can_set_role *)
Definition can_set_role (actor target new : Role) : bool :=
  bool_decide (actor = Admin) && role_lt target actor && role_lt new actor.

(* @src/crates/throcc-proto/src/permissions.rs 29-32 can_kick_from_room *)
Definition can_kick_from_room (actor target : Role) : bool :=
  role_ge actor Manager && role_lt target actor.

(* @src/crates/throcc-proto/src/permissions.rs 34-37 can_remove *)
Definition can_remove (actor target : Role) : bool :=
  bool_decide (actor = Admin) && role_lt target actor.

(** ** Lemmas *)

Lemma from_rank_rank r : from_rank (rank r) = Some r.
Proof. by destruct r. Qed.

Lemma rank_from_rank z r : from_rank z = Some r -> rank r = z.
Proof.
  unfold from_rank.
  repeat case_match; intros; simplify_eq; done.
Qed.

Lemma can_kick_lt actor target :
  can_kick_from_room actor target = true -> rank target < rank actor.
Proof. by destruct actor, target. Qed.

Lemma can_remove_spec actor target :
  can_remove actor target = true <-> actor = Admin /\ target <> Admin.
Proof. by destruct actor, target; vm_compute; intuition congruence. Qed.

Lemma can_manage_rooms_spec actor : can_manage_rooms actor = true <-> actor <> User.
Proof. by destruct actor; vm_compute; intuition congruence. Qed.

(** No permission reaches up or across the ranks.  Kicking, removing and role changes
    apply only to strictly lower ranks (and only to strictly lower new ranks), removing
    and role changes need an admin, and every permission is monotone in the actor's
    role. *)
Theorem permissions_go_down_the_ranks :
  (forall actor target, can_kick_from_room actor target = true ->
      rank target < rank actor /\ can_manage_rooms actor = true) /\
  (forall actor target, can_remove actor target = true <-> actor = Admin /\ target <> Admin) /\
  (forall actor target new, can_set_role actor target new = true <->
      actor = Admin /\ target <> Admin /\ new <> Admin) /\
  (forall lo hi target, rank lo <= rank hi ->
      (can_manage_rooms lo = true -> can_manage_rooms hi = true) /\
      (can_list_users lo = true -> can_list_users hi = true) /\
      (can_edit_server lo = true -> can_edit_server hi = true) /\
      (can_kick_from_room lo target = true -> can_kick_from_room hi target = true) /\
      (can_remove lo target = true -> can_remove hi target = true) /\
      (invite_cap lo = None -> invite_cap hi = None)).
Proof.
  split_and!; intros;
    repeat match goal with r : Role |- _ => destruct r end;
    vm_compute in *; intuition congruence.
Qed.
