(* ===== verification/Frame.v ===== *)
(** * Media datagram headers, control frames and transport checks

    [crates/throcc-proto/src/{frame,framing,transport}.rs].  A datagram is a byte list; the
    header is fixed width and big endian.  [postcard], the serializer behind [encode] and
    [decode], is a parameter of the [Framing] section. *)
From S2P Require Import Prelude Ids.

(** ** The media datagram header ([frame.rs]) *)

(* @src/crates/throcc-proto/src/frame.rs 3-5 DATAGRAM_PAYLOAD_FLOOR *)
Definition DATAGRAM_PAYLOAD_FLOOR : Z := 1162.
(* @src/crates/throcc-proto/src/frame.rs 6-6 HEADER_BYTES *)
Definition HEADER_BYTES : nat := 13.
(* @src/crates/throcc-proto/src/frame.rs 7-7 NONCE_BYTES *)
Definition NONCE_BYTES : nat := 12.
(* @src/crates/throcc-proto/src/frame.rs 8-8 TAG_BYTES *)
Definition TAG_BYTES : nat := 16.
(* @src/crates/throcc-proto/src/frame.rs 9-10 BODY_BYTES *)
Definition BODY_BYTES : Z := DATAGRAM_PAYLOAD_FLOOR - Z.of_nat HEADER_BYTES - Z.of_nat TAG_BYTES.
(* @src/crates/throcc-proto/src/frame.rs 11-12 TIMESTAMP_BYTES *)
Definition TIMESTAMP_BYTES : nat := 4.

Module Flags.
(* @src/crates/throcc-proto/src/frame.rs 22-22 Flags::KEYFRAME *)
Definition KEYFRAME : Z := 1.
(* @src/crates/throcc-proto/src/frame.rs 23-23 Flags::FIRST *)
Definition FIRST : Z := Z.shiftl 1 1.
(* @src/crates/throcc-proto/src/frame.rs 24-24 Flags::LAST *)
Definition LAST : Z := Z.shiftl 1 2.
(* @src/crates/throcc-proto/src/frame.rs 25-25 Flags::DEFINED *)
Definition DEFINED : Z := 7.

(* @src/crates/throcc-proto/src/frame.rs 27-29 Flags::contains *)
Definition contains (self other : Z) : bool := Z.land self other =? other.

(** [a & !b] on [u8] is [Z.ldiff a b]. *)
(* @src/crates/throcc-proto/src/frame.rs 31-37 Flags::with *)
Definition with_flag (self other : Z) (on : bool) : Z :=
  if on then Z.lor self other else Z.ldiff self other.

(* @src/crates/throcc-proto/src/frame.rs 39-41 Flags::has_reserved *)
Definition has_reserved (self : Z) : bool := negb (Z.ldiff self DEFINED =? 0).
End Flags.

(* @src/crates/throcc-proto/src/frame.rs 52-59 Header *)
Record Header := mkHeader {
  hdr_media_id : MediaId;
  hdr_epoch : Epoch;
  hdr_seq : Z;
  hdr_flags : Z
}.

#[export] Instance Header_eq_dec : EqDecision Header.
Proof. solve_decision. Defined.

(* @src/crates/throcc-proto/src/frame.rs 61-67 HeaderError *)
Inductive HeaderError := HeaderShort | ReservedFlags.

(* @src/crates/throcc-proto/src/frame.rs 70-77 Header::encode *)
Definition header_encode (h : Header) : bytes :=
  to_be_bytes 4 (hdr_media_id h) ++ to_be_bytes 4 (hdr_epoch h) ++ to_be_bytes 4 (hdr_seq h) ++ [hdr_flags h].

(* @src/crates/throcc-proto/src/frame.rs 79-90 Header::parse *)
Definition header_parse (datagram : bytes) : Header + HeaderError :=
  if (length datagram <? HEADER_BYTES)%nat then inr HeaderShort
  else
    let bytes := take HEADER_BYTES datagram in
    let word i := from_be_bytes (take 4 (drop i bytes)) in
    inl (mkHeader (word 0%nat) (word 4%nat) (word 8%nat) (nth 12 bytes 0)).

(* @src/crates/throcc-proto/src/frame.rs 92-99 Header::parse_strict *)
Definition header_parse_strict (datagram : bytes) : Header + HeaderError :=
  match header_parse datagram with
  | inr e => inr e
  | inl header => if Flags.has_reserved (hdr_flags header) then inr ReservedFlags else inl header
  end.

(* @src/crates/throcc-proto/src/frame.rs 101-105 Header::nonce *)
Definition header_nonce (h : Header) : bytes := take NONCE_BYTES (header_encode h).

(* @src/crates/throcc-proto/src/frame.rs 108-111 timestamp_before *)
Definition timestamp_before (a b : Z) : bool :=
  negb (a =? b) && (wrap32 (b - a) <? Z.shiftl 1 31).

(** The fields of a header at their widths. *)
Definition header_wf (h : Header) : Prop :=
  is_u32 (hdr_media_id h) /\ is_u32 (hdr_epoch h) /\ is_u32 (hdr_seq h) /\ is_u8 (hdr_flags h).

(** ** Transport checks ([transport.rs]) *)

(* @src/crates/throcc-proto/src/transport.rs 14-20 DatagramError *)
Inductive DatagramError := Unsupported | TooSmall (size : Z).

(* @src/crates/throcc-proto/src/transport.rs 22-29 check_datagrams *)
Definition check_datagrams (max_datagram_size : option Z) : unit + DatagramError :=
  match max_datagram_size with
  | None => inr Unsupported
  | Some size => if size <? DATAGRAM_PAYLOAD_FLOOR then inr (TooSmall size) else inl tt
  end.

Module close.
(* @src/crates/throcc-proto/src/transport.rs 33-33 close::NORMAL *)
Definition NORMAL : Z := 0.
(* @src/crates/throcc-proto/src/transport.rs 34-34 close::DATAGRAMS_REQUIRED *)
Definition DATAGRAMS_REQUIRED : Z := 1.
(* @src/crates/throcc-proto/src/transport.rs 35-35 close::PROTOCOL_ERROR *)
Definition PROTOCOL_ERROR : Z := 2.
(* @src/crates/throcc-proto/src/transport.rs 36-36 close::AUTH_FAILED *)
Definition AUTH_FAILED : Z := 3.
(* @src/crates/throcc-proto/src/transport.rs 37-37 close::REMOVED *)
Definition REMOVED : Z := 4.
(* @src/crates/throcc-proto/src/transport.rs 38-38 close::SERVER_BUSY *)
Definition SERVER_BUSY : Z := 5.
End close.

(** ** Control frames ([framing.rs]) *)

(* @src/crates/throcc-proto/src/framing.rs 4-4 MAX_FRAME_BYTES *)
Definition MAX_FRAME_BYTES : Z := Z.shiftl 1 20.
(* @src/crates/throcc-proto/src/framing.rs 5-5 LEN_BYTES *)
Definition LEN_BYTES : nat := 4.

(* @src/crates/throcc-proto/src/framing.rs 7-15 FrameError *)
Inductive FrameError := TooLarge (len : Z) | Malformed | Trailing (n : Z).

(* @src/crates/throcc-proto/src/framing.rs 30-37 body_len *)
Definition body_len (header : bytes) : Z + FrameError :=
  let len := from_be_bytes header in
  if MAX_FRAME_BYTES <? len then inr (TooLarge len) else inl len.

(** [rest.split_at_checked(len)]. *)
Definition split_at_checked (rest : bytes) (len : Z) : option (bytes * bytes) :=
  if len <=? Z.of_nat (length rest)
  then Some (take (Z.to_nat len) rest, drop (Z.to_nat len) rest) else None.

(* @src/crates/throcc-proto/src/framing.rs 49-57 split *)
Definition split (buf : bytes) : option (bytes * bytes) + FrameError :=
  if (length buf <? LEN_BYTES)%nat then inl None
  else
    match body_len (take LEN_BYTES buf) with
    | inr e => inr e
    | inl len => inl (split_at_checked (drop LEN_BYTES buf) len)
    end.

Section Framing.
(** [postcard::to_extend] (the bytes it appends, or its error) and
    [postcard::take_from_bytes] (the message and the bytes it leaves, or its error). *)
Context {T : Type} (to_postcard : T -> option bytes) (take_from_bytes : bytes -> option (T * bytes)).

(** [out.len() - LEN_BYTES] is the length of what postcard appended after the zeroed
    length field, which is then overwritten. *)
(* @src/crates/throcc-proto/src/framing.rs 17-28 encode *)
Definition encode (message : T) : bytes + FrameError :=
  match to_postcard message with
  | None => inr Malformed
  | Some body =>
      let len := Z.of_nat (length body) in
      if MAX_FRAME_BYTES <? len then inr (TooLarge len)
      else inl (to_be_bytes LEN_BYTES (len mod 2 ^ 32) ++ body)
  end.

(* @src/crates/throcc-proto/src/framing.rs 39-45 decode *)
Definition decode (body : bytes) : T + FrameError :=
  match take_from_bytes body with
  | None => inr Malformed
  | Some (message, rest) =>
      match rest with [] => inl message | _ => inr (Trailing (Z.of_nat (length rest))) end
  end.
End Framing.

(** ** Lemmas on headers *)

Lemma length_header_encode h : length (header_encode h) = HEADER_BYTES.
Proof. unfold header_encode. by rewrite !length_app, !length_to_be_bytes. Qed.

Lemma header_encode_u8 h : is_u8 (hdr_flags h) -> Forall is_u8 (header_encode h).
Proof.
  intros. unfold header_encode.
  repeat apply Forall_app_2; auto using to_be_bytes_u8.
Qed.

Lemma u32_bytes x : is_u32 x -> 0 <= x < 256 ^ Z.of_nat 4.
Proof. unfold is_u32, u32_max. simpl. lia. Qed.

Lemma header_parse_app d rest :
  length d = HEADER_BYTES -> header_parse (d ++ rest) = header_parse d.
Proof.
  intros Hd. unfold header_parse.
  rewrite length_app, Hd. rewrite !take_app_le by lia.
  rewrite (proj2 (Nat.ltb_ge _ _)) by lia. by rewrite Nat.ltb_irrefl.
Qed.

Lemma header_parse_encode h : header_wf h -> header_parse (header_encode h) = inl h.
Proof.
  destruct h as [m e s f]. intros (Hm & He & Hs & _). cbn [hdr_media_id hdr_epoch hdr_seq] in Hm, He, Hs.
  unfold header_parse. rewrite length_header_encode, Nat.ltb_irrefl.
  rewrite (take_ge (header_encode _)) by (by rewrite length_header_encode).
  unfold header_encode; cbn [hdr_media_id hdr_epoch hdr_seq hdr_flags].
  do 2 f_equal.
  - rewrite drop_0, take_app_length' by (by rewrite length_to_be_bytes).
    by apply from_to_be_bytes, u32_bytes.
  - rewrite drop_app_length' by (by rewrite length_to_be_bytes).
    rewrite take_app_length' by (by rewrite length_to_be_bytes).
    by apply from_to_be_bytes, u32_bytes.
  - rewrite (app_assoc (to_be_bytes 4 m)).
    rewrite drop_app_length' by (by rewrite length_app, !length_to_be_bytes).
    rewrite take_app_length' by (by rewrite length_to_be_bytes).
    by apply from_to_be_bytes, u32_bytes.
Qed.

Lemma header_encode_parse d h :
  Forall is_u8 d -> header_parse d = inl h -> header_wf h /\ header_encode h = take HEADER_BYTES d.
Proof.
  unfold header_parse. destruct (Nat.ltb_spec (length d) HEADER_BYTES) as [|Hlen]; [done|].
  intros Hd [= <-].
  assert (Hd' : Forall is_u8 (take HEADER_BYTES d)) by by apply Forall_take.
  assert (Hl : length (take HEADER_BYTES d) = HEADER_BYTES) by (rewrite length_take; lia).
  revert Hd' Hl. generalize (take HEADER_BYTES d) as l. clear d Hd Hlen.
  intros l Hl Hlen. unfold HEADER_BYTES in Hlen.
  do 13 (destruct l as [|? l]; [done|]). destruct l; [|done].
  cbn [drop take nth].
  repeat match goal with H : Forall _ (_ :: _) |- _ => apply Forall_cons_1 in H as [? H] end.
  assert (forall a b c d, is_u8 a -> is_u8 b -> is_u8 c -> is_u8 d ->
            is_u32 (from_be_bytes [a;b;c;d]) /\
            to_be_bytes 4 (from_be_bytes [a;b;c;d]) = [a;b;c;d]) as Hw.
  { intros a b c d Ha Hb Hc Hd.
    assert (Forall is_u8 [a;b;c;d]) as HF by (by repeat apply Forall_cons_2; try apply Forall_nil_2).
    split; [|by apply (to_from_be_bytes [a;b;c;d])].
    pose proof (from_be_bytes_bound _ HF) as Hb'. simpl length in Hb'.
    unfold is_u32, u32_max. lia. }
  split; [unfold header_wf; cbn [hdr_media_id hdr_epoch hdr_seq hdr_flags]; split_and!; try done; apply Hw; done|].
  unfold header_encode. cbn [hdr_media_id hdr_epoch hdr_seq hdr_flags].
  rewrite (fun a b c d Ha Hb Hc Hd => proj2 (Hw a b c d Ha Hb Hc Hd)) by done.
  rewrite !(fun a b c d Ha Hb Hc Hd => proj2 (Hw a b c d Ha Hb Hc Hd)) by done. done.
Qed.

(** Headers round-trip both ways.  Any header at its widths is read back from its
    encoding, whatever follows it, by the server's parse, and by the client's exactly when
    no reserved flag bit is set; and every datagram that parses starts with the encoding of
    the header read from it. *)
Theorem header_round_trips :
  (forall h rest, header_wf h ->
     header_parse (header_encode h ++ rest) = inl h /\
     header_parse_strict (header_encode h ++ rest)
       = if Flags.has_reserved (hdr_flags h) then inr ReservedFlags else inl h) /\
  (forall d h, Forall is_u8 d -> header_parse d = inl h ->
     header_wf h /\ exists rest, d = header_encode h ++ rest) /\
  (forall d, header_parse d = inr HeaderShort <-> (length d < HEADER_BYTES)%nat).
Proof.
  split_and!.
  - intros h rest Hwf. unfold header_parse_strict.
    rewrite header_parse_app, header_parse_encode; auto using length_header_encode.
  - intros d h Hd Hp. destruct (header_encode_parse d h Hd Hp) as [Hwf ->].
    split; [done|]. exists (drop HEADER_BYTES d). by rewrite take_drop.
  - intros d. unfold header_parse. destruct (Nat.ltb_spec (length d) HEADER_BYTES); naive_solver lia.
Qed.

Lemma header_nonce_eq h :
  header_nonce h = to_be_bytes 4 (hdr_media_id h) ++ to_be_bytes 4 (hdr_epoch h) ++ to_be_bytes 4 (hdr_seq h).
Proof.
  unfold header_nonce, header_encode. rewrite !app_assoc.
  apply take_app_length'. by rewrite !length_app, !length_to_be_bytes.
Qed.

Lemma header_nonce_inj h1 h2 : header_wf h1 -> header_wf h2 -> header_nonce h1 = header_nonce h2 ->
  hdr_media_id h1 = hdr_media_id h2 /\ hdr_epoch h1 = hdr_epoch h2 /\ hdr_seq h1 = hdr_seq h2.
Proof.
  rewrite !header_nonce_eq. intros (? & ? & ? & _) (? & ? & ? & _).
  intros [E1 [E2 E3]%app_inj_1]%app_inj_1; [|by rewrite !length_to_be_bytes..].
  split_and!; eapply (to_be_bytes_inj 4); eauto using u32_bytes.
Qed.

(** AEAD nonces never repeat across (track, epoch, seq).  Under one key, two headers
    share the 12-byte nonce only if they agree on media id, epoch and sequence number. *)
Theorem header_nonce_injective h1 h2 (Hwf1 : header_wf h1) (Hwf2 : header_wf h2) :
  length (header_nonce h1) = NONCE_BYTES /\
  (header_nonce h1 = header_nonce h2 ->
   hdr_media_id h1 = hdr_media_id h2 /\ hdr_epoch h1 = hdr_epoch h2 /\ hdr_seq h1 = hdr_seq h2).
Proof.
  split; [by rewrite header_nonce_eq, !length_app, !length_to_be_bytes|by apply header_nonce_inj].
Qed.

Definition example_header : Header := mkHeader 7 3 9 (Z.lor Flags.FIRST Flags.LAST).

Lemma example_header_wf : header_wf example_header.
Proof. vm_compute. split_and!; discriminate. Qed.

Lemma header_nonce_injective_witness :
  length (header_nonce example_header) = NONCE_BYTES /\
  (header_nonce example_header = header_nonce example_header ->
   hdr_media_id example_header = 7 /\ hdr_epoch example_header = 3 /\ hdr_seq example_header = 9).
Proof.
  destruct (header_nonce_injective example_header example_header example_header_wf example_header_wf)
    as [H1 H2].
  split; [exact H1 | vm_compute; auto].
Defined.

Lemma wrap32_bound x : 0 <= wrap32 x <= u32_max.
Proof. unfold wrap32, u32_max. pose proof (Z.mod_pos_bound x 4294967296). lia. Qed.

Lemma wrap32_sub a b : is_u32 a -> is_u32 b ->
  wrap32 (b - a) = if a <=? b then b - a else b - a + 4294967296.
Proof.
  unfold is_u32, u32_max, wrap32. intros. destruct (Z.leb_spec a b).
  - rewrite Z.mod_small; lia.
  - rewrite <- (Z.mod_add _ 1), Z.mod_small; lia.
Qed.

Lemma timestamp_before_spec a b : is_u32 a -> is_u32 b ->
  timestamp_before a b = true <-> exists d, 0 < d < 2147483648 /\ b = wrap32 (a + d).
Proof.
  intros Ha Hb. unfold timestamp_before. rewrite wrap32_sub by done.
  change (Z.shiftl 1 31) with 2147483648.
  unfold is_u32, u32_max, wrap32 in *.
  rewrite andb_true_iff, negb_true_iff, Z.eqb_neq, Z.ltb_lt. split.
  - intros [Hne Hlt]. destruct (Z.leb_spec a b).
    + exists (b - a). rewrite Z.mod_small by lia. lia.
    + exists (b - a + 4294967296). split; [lia|].
      replace (a + (b - a + 4294967296)) with (b + 1 * 4294967296) by lia.
      rewrite Z.mod_add, Z.mod_small; lia.
  - intros (d & Hd & ->).
    destruct (Z.le_gt_cases 4294967296 (a + d)).
    + assert ((a + d) mod 4294967296 = a + d - 4294967296) as ->.
      { rewrite <- (Z.mod_add _ (-1)), Z.mod_small by lia. lia. }
      destruct (Z.leb_spec a (a + d - 4294967296)); lia.
    + rewrite Z.mod_small by lia. destruct (Z.leb_spec a (a + d)); lia.
Qed.

(** [timestamp_before] is RFC 1982 serial-number comparison on [u32]: [a] is before [b]
    exactly when [b] is [a] advanced by less than half the range, across the wrap; it is
    irreflexive and asymmetric, and two timestamps neither of which is before the other are
    equal or exactly half the range apart. *)
Theorem timestamp_before_is_serial_order a b (Ha : is_u32 a) (Hb : is_u32 b) :
  (timestamp_before a b = true <-> exists d, 0 < d < 2147483648 /\ b = wrap32 (a + d)) /\
  timestamp_before a a = false /\
  (timestamp_before a b = true -> timestamp_before b a = false) /\
  (timestamp_before a b = false -> timestamp_before b a = false ->
     a = b \/ wrap32 (b - a) = 2147483648).
Proof.
  split; [by apply timestamp_before_spec|].
  unfold timestamp_before. rewrite !wrap32_sub by done. change (Z.shiftl 1 31) with 2147483648.
  unfold is_u32, u32_max in *.
  destruct (Z.eqb_spec a a), (Z.eqb_spec a b), (Z.eqb_spec b a), (Z.leb_spec a b), (Z.leb_spec b a);
    simpl; rewrite ?Z.ltb_lt, ?Z.ltb_ge; split_and!; intros; first [done | lia | auto].
Qed.

Lemma timestamp_before_is_serial_order_witness :
  timestamp_before 4294967290 5 = true /\ timestamp_before 5 4294967290 = false.
Proof.
  assert (is_u32 4294967290 /\ is_u32 5) as [Ha Hb] by (unfold is_u32, u32_max; lia).
  destruct (timestamp_before_is_serial_order 4294967290 5 Ha Hb) as (_ & _ & H & _).
  split; [reflexivity | apply H; reflexivity].
Defined.

(** ** Lemmas on control frames *)

Lemma body_len_be n :
  0 <= n <= MAX_FRAME_BYTES -> body_len (to_be_bytes LEN_BYTES (n mod 2 ^ 32)) = inl n.
Proof.
  change MAX_FRAME_BYTES with 1048576. intros Hn. unfold body_len.
  change MAX_FRAME_BYTES with 1048576.
  change (2 ^ 32) with 4294967296.
  rewrite Z.mod_small by lia. rewrite from_to_be_bytes
    by (change (256 ^ Z.of_nat LEN_BYTES) with 4294967296; lia).
  destruct (Z.ltb_spec 1048576 n); [lia | done].
Qed.

Lemma split_frame n body rest :
  Z.of_nat (length body) = n -> n <= MAX_FRAME_BYTES ->
  split (to_be_bytes LEN_BYTES (n mod 2 ^ 32) ++ body ++ rest) = inl (Some (body, rest)).
Proof.
  intros Hn Hmax. unfold split.
  rewrite length_app, length_to_be_bytes, (proj2 (Nat.ltb_ge _ _)) by lia.
  rewrite take_app_length', drop_app_length' by (by rewrite length_to_be_bytes).
  rewrite body_len_be by lia. unfold split_at_checked.
  rewrite length_app, (proj2 (Z.leb_le _ _)) by lia.
  rewrite <- Hn, Nat2Z.id, take_app_length, drop_app_length. done.
Qed.

Lemma split_short n p :
  n <= MAX_FRAME_BYTES -> 0 <= n -> (length p < LEN_BYTES + Z.to_nat n)%nat ->
  p `prefix_of` to_be_bytes LEN_BYTES (n mod 2 ^ 32) ++ drop LEN_BYTES p ->
  split p = inl None.
Proof.
  intros Hmax Hn Hlen [k Hk]. unfold split.
  destruct (Nat.ltb_spec (length p) LEN_BYTES) as [|Hge]; [done|].
  assert (take LEN_BYTES p = to_be_bytes LEN_BYTES (n mod 2 ^ 32)) as ->.
  { apply (f_equal (take LEN_BYTES)) in Hk.
    rewrite take_app_length', take_app_le in Hk by (rewrite ?length_to_be_bytes; lia). done. }
  rewrite body_len_be by lia. unfold split_at_checked.
  rewrite length_drop, (proj2 (Z.leb_gt _ _)) by lia. done.
Qed.

Lemma split_some buf body rest :
  Forall is_u8 buf -> split buf = inl (Some (body, rest)) ->
  Z.of_nat (length body) <= MAX_FRAME_BYTES /\
  buf = to_be_bytes LEN_BYTES (Z.of_nat (length body)) ++ body ++ rest.
Proof.
  intros Hb. unfold split, body_len, split_at_checked.
  destruct (Nat.ltb_spec (length buf) LEN_BYTES) as [|Hge]; [done|].
  assert (length (take LEN_BYTES buf) = LEN_BYTES) as Hl by (rewrite length_take; lia).
  pose proof (from_be_bytes_bound (take LEN_BYTES buf) (Forall_take _ _ _ Hb)) as Hlo.
  pose proof (to_from_be_bytes (take LEN_BYTES buf) (Forall_take _ _ _ Hb)) as Heq.
  rewrite Hl in Heq.
  set (n := from_be_bytes (take LEN_BYTES buf)) in *.
  destruct (Z.ltb_spec MAX_FRAME_BYTES n); [done|].
  destruct (Z.leb_spec n (Z.of_nat (length (drop LEN_BYTES buf)))); [|done].
  intros [= <- <-].
  rewrite length_take, Nat.min_l by lia.
  split; [lia|]. rewrite Z2Nat.id, Heq, take_drop, take_drop by lia. done.
Qed.

Section FramingTheorems.
Context {T : Type} (to_postcard : T -> option bytes) (take_from_bytes : bytes -> option (T * bytes)).
(** postcard is self-delimiting: it reads back the message it wrote and leaves the rest. *)
Hypothesis postcard_round_trip : forall m body rest,
  to_postcard m = Some body -> take_from_bytes (body ++ rest) = Some (m, rest).

Lemma encode_inl m out :
  encode to_postcard m = inl out ->
  exists body, to_postcard m = Some body /\ Z.of_nat (length body) <= MAX_FRAME_BYTES /\
    out = to_be_bytes LEN_BYTES (Z.of_nat (length body) mod 2 ^ 32) ++ body.
Proof.
  unfold encode. destruct (to_postcard m) as [body|]; [|done].
  destruct (Z.ltb_spec MAX_FRAME_BYTES (Z.of_nat (length body))); [done|].
  intros [= <-]. eauto.
Qed.

(** Control frames survive a byte stream.  A frame that [encode] produced is split
    off whatever follows it and decodes to its message; every strict prefix of it reads as
    "incomplete" and nothing else; and any frame [split] ever hands out has a body within
    the 1 MiB cap and is exactly the bytes its length prefix announced. *)
Theorem frames_survive_the_stream m out (Henc : encode to_postcard m = inl out) :
  (forall rest, exists body,
     split (out ++ rest) = inl (Some (body, rest)) /\
     decode take_from_bytes body = inl m) /\
  (forall p, p `prefix_of` out -> p <> out -> split p = inl None) /\
  (forall buf body rest, Forall is_u8 buf -> split buf = inl (Some (body, rest)) ->
     Z.of_nat (length body) <= MAX_FRAME_BYTES /\
     buf = to_be_bytes LEN_BYTES (Z.of_nat (length body)) ++ body ++ rest).
Proof.
  destruct (encode_inl m out Henc) as (body & Hb & Hmax & ->). split_and!.
  - intros rest. exists body. rewrite <- app_assoc, split_frame by done.
    split; [done|]. unfold decode.
    pose proof (postcard_round_trip m body [] Hb) as E. rewrite app_nil_r in E. by rewrite E.
  - intros p [k Hk] Hne.
    assert (length k <> 0)%nat as Hk0.
    { intros ->%length_zero_iff_nil. by rewrite app_nil_r in Hk. }
    pose proof (f_equal length Hk) as Hlen.
    rewrite !length_app, length_to_be_bytes in Hlen.
    apply (split_short (Z.of_nat (length body))); [lia|lia|lia|].
    destruct (Nat.le_gt_cases LEN_BYTES (length p)).
    + exists []. rewrite app_nil_r. rewrite <- (take_drop LEN_BYTES p) at 2. f_equal.
      apply (f_equal (take LEN_BYTES)) in Hk.
      rewrite take_app_length', take_app_le in Hk by (rewrite ?length_to_be_bytes; lia).
      done.
    + rewrite drop_ge, app_nil_r by lia.
      exists (take (LEN_BYTES - length p) k).
      apply (f_equal (take LEN_BYTES)) in Hk.
      rewrite take_app_length', take_app, (take_ge p) in Hk by (rewrite ?length_to_be_bytes; lia).
      done.
  - apply split_some.
Qed.
End FramingTheorems.

(** A one-byte message and its serializer. *)
Definition example_postcard (m : Z) : option bytes := Some [m].
Definition example_take (bs : bytes) : option (Z * bytes) :=
  match bs with [] => None | b :: rest => Some (b, rest) end.

Lemma example_postcard_round_trip m body rest :
  example_postcard m = Some body -> example_take (body ++ rest) = Some (m, rest).
Proof. by intros [= <-]. Qed.

Lemma frames_survive_the_stream_witness :
  encode example_postcard 42 = inl [0; 0; 0; 1; 42] /\
  split [0; 0; 0; 1] = inl None.
Proof.
  split; [reflexivity|].
  destruct (frames_survive_the_stream example_postcard example_take
              example_postcard_round_trip 42 [0; 0; 0; 1; 42] eq_refl) as (_ & H & _).
  apply H; [exists [42]; reflexivity | discriminate].
Defined.
