(* ===== verification/Invite.v ===== *)
(** * Invite codes

    [crates/throcc-proto/src/invite.rs]: a public lookup id and a secret in Crockford
    base32, their parsing, printing and the live formatting of a code field. *)
From S2P Require Import Prelude.

(* @src/crates/throcc-proto/src/invite.rs 4-4 ALPHABET *)
Definition ALPHABET : bytes := lit "0123456789ABCDEFGHJKMNPQRSTVWXYZ".
(* @src/crates/throcc-proto/src/invite.rs 5-5 ID_CHARS *)
Definition ID_CHARS : nat := 3.
(* @src/crates/throcc-proto/src/invite.rs 6-6 SECRET_CHARS *)
Definition SECRET_CHARS : nat := 5.

(* @src/crates/throcc-proto/src/invite.rs 8-13 InviteCode *)
Record InviteCode := mkInviteCode { code_id : str; code_secret : str }.

#[export] Instance InviteCode_eq_dec : EqDecision InviteCode.
Proof. solve_decision. Defined.

(* @src/crates/throcc-proto/src/invite.rs 15-17 BadInviteCode *)
Inductive BadInviteCode := mkBadInviteCode.

(* @src/crates/throcc-proto/src/invite.rs 20-33 InviteCode::from_random *)
Definition from_random (bs : bytes) : InviteCode :=
  let encode (bs : bytes) := map (fun b => nth (Z.to_nat (Z.land b 31)) ALPHABET 0) bs in
  mkInviteCode (encode (take ID_CHARS bs)) (encode (drop ID_CHARS bs)).

(* @src/crates/throcc-proto/src/invite.rs 84-91 normalize_char *)
Definition normalize_char (c : char) : option char :=
  let c := to_ascii_uppercase c in
  if c =? 79 (* 'O' *) then Some 48 (* '0' *)
  else if (c =? 73) || (c =? 76) (* 'I' | 'L' *) then Some 49 (* '1' *)
  else if is_ascii c && bool_decide (c ∈ ALPHABET) then Some c
  else None.

(** ['-']. *)
Definition dash : char := 45.

(* @src/crates/throcc-proto/src/invite.rs 39-54 InviteCode::from_str *)
Definition from_str (input : str) : InviteCode + BadInviteCode :=
  match collect_option (normalize_char <$>
          filter (fun c => Is_true (negb (c =? dash) && negb (is_ascii_whitespace c))) input) with
  | None => inr mkBadInviteCode
  | Some chars =>
      if negb (length chars =? ID_CHARS + SECRET_CHARS)%nat then inr mkBadInviteCode
      else inl (mkInviteCode (take ID_CHARS chars) (drop ID_CHARS chars))
  end.

(* @src/crates/throcc-proto/src/invite.rs 57-61 Display for InviteCode *)
Definition display (c : InviteCode) : str := code_id c ++ [dash] ++ code_secret c.

(* @src/crates/throcc-proto/src/invite.rs 63-67 Debug for InviteCode *)
Definition debug (c : InviteCode) : str := lit "InviteCode(" ++ code_id c ++ lit "-*****)".

(* @src/crates/throcc-proto/src/invite.rs 79-82 normalize *)
Definition normalize (input : str) : str := omap normalize_char input.

(* @src/crates/throcc-proto/src/invite.rs 69-77 format_partial *)
Definition format_partial (input : str) : str :=
  let chars := take (ID_CHARS + SECRET_CHARS) (normalize input) in
  if (ID_CHARS <? length chars)%nat
  then take ID_CHARS chars ++ [dash] ++ drop ID_CHARS chars
  else chars.

(** A well-formed code: both parts at their length, over the alphabet. *)
Definition code_wf (c : InviteCode) : Prop :=
  length (code_id c) = ID_CHARS /\ length (code_secret c) = SECRET_CHARS /\
  Forall (.∈ ALPHABET) (code_id c ++ code_secret c).

(** ** Lemmas *)

Lemma alphabet_fixed c :
  c ∈ ALPHABET ->
  normalize_char c = Some c /\ c <> dash /\ is_ascii_whitespace c = false.
Proof.
  assert (forallb (fun c => bool_decide (normalize_char c = Some c) && negb (c =? dash)
                            && negb (is_ascii_whitespace c)) ALPHABET = true) as H
    by (vm_compute; reflexivity).
  rewrite forallb_forall in H.
  intros [[E%bool_decide_eq_true Hd]%andb_true_iff Hw]%list_elem_of_In%H%andb_true_iff.
  rewrite negb_true_iff in Hd, Hw. rewrite Z.eqb_neq in Hd. done.
Qed.

Lemma normalize_char_alphabet c d : normalize_char c = Some d -> d ∈ ALPHABET.
Proof.
  unfold normalize_char. intros H. repeat case_match; simplify_eq.
  - by apply (bool_decide_unpack (48 ∈ ALPHABET)).
  - by apply (bool_decide_unpack (49 ∈ ALPHABET)).
  - by match goal with H : _ && bool_decide _ = true |- _ => 
      apply andb_true_iff in H as [_ ?%bool_decide_eq_true] end.
Qed.

Lemma normalize_char_dash : normalize_char dash = None.
Proof. reflexivity. Qed.

Lemma normalize_char_whitespace c : is_ascii_whitespace c = true -> normalize_char c = None.
Proof.
  unfold is_ascii_whitespace. rewrite bool_decide_eq_true, !elem_of_cons, elem_of_nil.
  intros [-> | [-> | [-> | [-> | [-> | []]]]]]; reflexivity.
Qed.

(** The characters [from_str] keeps before normalizing. *)
Abbreviation kept := (fun c => Is_true (negb (c =? dash) && negb (is_ascii_whitespace c))).

Lemma alphabet_kept l : Forall (.∈ ALPHABET) l -> filter kept l = l.
Proof.
  induction 1 as [|c l Hc _ IH]; [done|].
  destruct (alphabet_fixed c Hc) as (_ & Hd & Hw).
  rewrite filter_cons_True, IH; [done|]. by rewrite (proj2 (Z.eqb_neq _ _) Hd), Hw.
Qed.

Lemma alphabet_collect l :
  Forall (.∈ ALPHABET) l -> collect_option (normalize_char <$> l) = Some l.
Proof.
  intros H. apply collect_option_Some, Forall2_fixed.
  intros x Hx. by apply alphabet_fixed, (proj1 (list.Forall_forall _ _) H).
Qed.

Lemma normalize_alphabet l : Forall (.∈ ALPHABET) l -> normalize l = l.
Proof.
  intros H. apply omap_Forall2, Forall2_fixed.
  intros x Hx. by apply alphabet_fixed, (proj1 (list.Forall_forall _ _) H).
Qed.

Lemma normalize_in_alphabet s : Forall (.∈ ALPHABET) (normalize s).
Proof.
  apply list.Forall_forall. intros d (c & _ & Hc)%list_elem_of_omap.
  eauto using normalize_char_alphabet.
Qed.

Lemma normalize_filter s : normalize (filter kept s) = normalize s.
Proof.
  induction s as [|c s IH]; [done|]. unfold normalize in *.
  destruct (decide (kept c)) as [Hk|Hk].
  - rewrite filter_cons_True by done. csimpl. by rewrite IH.
  - rewrite filter_cons_False by done. csimpl.
    assert (normalize_char c = None) as ->; [|done].
    rewrite Is_true_true, not_true_iff_false, andb_false_iff, !negb_false_iff in Hk.
    destruct Hk as [->%Z.eqb_eq|?]; auto using normalize_char_whitespace.
Qed.

Lemma parse_display c : code_wf c -> from_str (display c) = inl c.
Proof.
  destruct c as [i s]. intros (Hi & Hs & Ha). unfold from_str, display in *; cbn [code_id code_secret] in *.
  apply Forall_app in Ha as [Hai Has].
  rewrite !list.filter_app, (alphabet_kept i), (alphabet_kept s) by done.
  change (filter kept [dash]) with (@nil Z). rewrite app_nil_l.
  rewrite alphabet_collect by by apply Forall_app_2.
  rewrite length_app, Hi, Hs, Nat.eqb_refl. cbn [negb].
  rewrite take_app_length', drop_app_length' by done. done.
Qed.

Lemma from_str_inl s c :
  from_str s = inl c -> code_wf c /\ normalize s = code_id c ++ code_secret c.
Proof.
  unfold from_str. destruct (collect_option _) as [l|] eqn:E; [|done].
  destruct (Nat.eqb_spec (length l) (ID_CHARS + SECRET_CHARS)) as [Hl|]; [|done].
  intros [= <-]. apply collect_option_Some in E.
  apply omap_Forall2 in E. fold (normalize (filter kept s)) in E.
  rewrite normalize_filter in E. unfold code_wf; cbn [code_id code_secret].
  rewrite take_drop, length_take, length_drop, Hl, <- E.
  split_and!; try done. apply normalize_in_alphabet.
Qed.

Lemma from_random_wf bs :
  length bs = (ID_CHARS + SECRET_CHARS)%nat -> code_wf (from_random bs).
Proof.
  intros Hl. unfold code_wf, from_random; cbn [code_id code_secret].
  rewrite !length_map, length_take, length_drop, Hl. split_and!; [done..|].
  rewrite <- map_app, take_drop.
  apply list.Forall_forall. intros x (b & <- & _)%list_elem_of_In%in_map_iff.
  assert (Z.to_nat (Z.land b 31) < length ALPHABET)%nat as Hlt.
  { change (length ALPHABET) with 32%nat. change 31 with (Z.ones 5).
    rewrite Z.land_ones by lia. pose proof (Z.mod_pos_bound b (2 ^ 5)). lia. }
  by apply list_elem_of_In, nth_In.
Qed.

(** Invite codes survive being typed.  Every code minted from 8 random bytes parses
    back from its printed form; whatever text is accepted yields a well-formed code that
    prints and parses back to itself and is what the live code field shows for that text;
    and formatting the field's own output changes nothing. *)
Theorem invite_codes_round_trip :
  (forall bs, length bs = (ID_CHARS + SECRET_CHARS)%nat ->
     from_str (display (from_random bs)) = inl (from_random bs)) /\
  (forall s c, from_str s = inl c ->
     code_wf c /\ from_str (display c) = inl c /\ format_partial s = display c) /\
  (forall s, format_partial (format_partial s) = format_partial s).
Proof.
  split_and!.
  - intros. by apply parse_display, from_random_wf.
  - intros s c Hs. destruct (from_str_inl s c Hs) as [Hwf Hn].
    split_and!; [done|by apply parse_display|].
    destruct Hwf as (Hi & Hsec & _). unfold format_partial.
    rewrite Hn, take_ge, length_app, Hi, Hsec by (rewrite length_app; lia). simpl.
    by rewrite take_app_length', drop_app_length'.
  - intros s. assert (normalize (format_partial s)
                      = take (ID_CHARS + SECRET_CHARS) (normalize s)) as E.
    { unfold format_partial. set (l := take _ (normalize s)).
      assert (Forall (.∈ ALPHABET) l) as Hl by apply Forall_take, normalize_in_alphabet.
      case_match; [|by apply normalize_alphabet].
      unfold normalize. rewrite omap_app, omap_app.
      fold (normalize (take ID_CHARS l)) (normalize (drop ID_CHARS l)).
      rewrite (normalize_alphabet (take _ _)), (normalize_alphabet (drop _ _))
        by auto using Forall_take, Forall_drop.
      change (omap normalize_char [dash]) with (@nil Z). rewrite app_nil_l.
      apply take_drop. }
    unfold format_partial at 1. rewrite E, take_take, Nat.min_id. done.
Qed.
