(* ===== verification/Fingerprint.v ===== *)
(** * Server fingerprints and digests as text

    [crates/throcc-proto/src/fingerprint.rs] and the [Display] of [ids::Hash].  A
    fingerprint is its 32 bytes; SHA-256 is a parameter. *)
From S2P Require Import Prelude.

(** [{b:02x}]: two lowercase hex digits. *)
Definition hex_char (d : Z) : char := if d <? 10 then 48 + d else 87 + d.
Definition hex2 (b : byte) : str := [hex_char (b / 16); hex_char (b mod 16)].

(* @src/crates/throcc-proto/src/ids.rs 30-35 Display for Hash *)
Definition hash_display (h : bytes) : str := concat (map hex2 h).

(* @src/crates/throcc-proto/src/ids.rs 25-27 Hash::of *)
Definition hash_of (sha256 : bytes -> bytes) (bs : bytes) : bytes := sha256 bs.

(* @src/crates/throcc-proto/src/fingerprint.rs 11-13 Fingerprint::of_spki *)
Definition of_spki (sha256 : bytes -> bytes) (spki_der : bytes) : bytes := sha256 spki_der.

(* @src/crates/throcc-proto/src/fingerprint.rs 15-19 Fingerprint::short *)
Definition short (fp : bytes) : str :=
  match fp with
  | a :: b :: c :: d :: _ => hex2 a ++ hex2 b ++ [32] ++ hex2 c ++ hex2 d
  | _ => []
  end.

(** [as_chunks::<2>().0]: the whole pairs. *)
Fixpoint as_chunks2 (l : list Z) : list (Z * Z) :=
  match l with a :: b :: l => (a, b) :: as_chunks2 l | _ => [] end.

(* @src/crates/throcc-proto/src/fingerprint.rs 22-32 Display for Fingerprint *)
Definition fingerprint_display (fp : bytes) : str :=
  concat (imap (fun i '(high, low) => (if (0 <? i)%nat then [32] else []) ++ hex2 high ++ hex2 low)
    (as_chunks2 fp)).

(** [char::to_digit(16)]. *)
Definition to_digit16 (c : char) : option Z :=
  if (48 <=? c) && (c <=? 57) then Some (c - 48)
  else if (97 <=? c) && (c <=? 102) then Some (c - 87)
  else if (65 <=? c) && (c <=? 70) then Some (c - 55)
  else None.

(* @src/crates/throcc-proto/src/fingerprint.rs 40-42 ParseFingerprintError *)
Inductive ParseFingerprintError := mkParseFingerprintError.

(** [high << 4 | low] on [u8]. *)
(* @src/crates/throcc-proto/src/fingerprint.rs 44-63 FromStr for Fingerprint *)
Definition fingerprint_from_str (s : str) : bytes + ParseFingerprintError :=
  match collect_option (to_digit16 <$> filter (fun c => Is_true (negb (is_ascii_whitespace c))) s) with
  | None => inr mkParseFingerprintError
  | Some digits =>
      if negb (length digits =? 64)%nat then inr mkParseFingerprintError
      else inl (map (fun '(high, low) => Z.lor (Z.shiftl high 4 mod 256) low) (as_chunks2 digits))
  end.

Definition fingerprint_wf (fp : bytes) : Prop := length fp = 32%nat /\ Forall is_u8 fp.

(** ** Lemmas *)

Abbreviation not_space := (fun c => Is_true (negb (is_ascii_whitespace c))).

Definition is_nibble (d : Z) : Prop := 0 <= d < 16.

Lemma nibble_ind (P : Z -> Prop) :
  Forall P [0;1;2;3;4;5;6;7;8;9;10;11;12;13;14;15] -> forall d, is_nibble d -> P d.
Proof.
  intros H d Hd. apply (proj1 (list.Forall_forall _ _) H).
  unfold is_nibble in Hd.
  assert (d = 0 \/ d = 1 \/ d = 2 \/ d = 3 \/ d = 4 \/ d = 5 \/ d = 6 \/ d = 7 \/ d = 8 \/ d = 9
    \/ d = 10 \/ d = 11 \/ d = 12 \/ d = 13 \/ d = 14 \/ d = 15) as Hc by lia.
  rewrite !elem_of_cons. tauto.
Qed.

Lemma hex_char_spec d :
  is_nibble d -> to_digit16 (hex_char d) = Some d /\ is_ascii_whitespace (hex_char d) = false.
Proof.
  revert d. apply nibble_ind.
  repeat apply Forall_cons_2; try apply Forall_nil_2; split; reflexivity.
Qed.

Lemma hex_not_space d : is_nibble d -> Is_true (negb (is_ascii_whitespace (hex_char d))).
Proof. intros [_ H]%hex_char_spec. by rewrite H. Qed.

Lemma to_digit16_nibble c d : to_digit16 c = Some d -> is_nibble d.
Proof.
  unfold to_digit16, is_nibble. intros H.
  repeat case_match; simplify_eq; rewrite ?andb_true_iff, ?Z.leb_le in *; lia.
Qed.

Lemma to_digit16_upper c : to_digit16 (to_ascii_uppercase c) = to_digit16 c.
Proof.
  unfold to_digit16, to_ascii_uppercase.
  repeat case_match; try done;
    rewrite ?andb_true_iff, ?andb_false_iff, ?Z.leb_le, ?Z.leb_gt in *; first [f_equal; lia | lia].
Qed.

Lemma is_ascii_whitespace_upper c :
  is_ascii_whitespace (to_ascii_uppercase c) = is_ascii_whitespace c.
Proof.
  unfold is_ascii_whitespace, to_ascii_uppercase. apply bool_decide_ext.
  destruct (Z.leb_spec 97 c), (Z.leb_spec c 122); cbn [andb]; try done.
  rewrite !elem_of_cons, !elem_of_nil. split; intros; exfalso; lia.
Qed.

Lemma u8_nibbles b : is_u8 b -> is_nibble (b / 16) /\ is_nibble (b mod 16).
Proof.
  unfold is_u8, u8_max, is_nibble. intros. split.
  - split; [apply Z.div_pos; lia | apply Z.div_lt_upper_bound; lia].
  - apply Z.mod_pos_bound. lia.
Qed.

Lemma join_nibbles h l :
  is_nibble h -> is_nibble l -> Z.lor (Z.shiftl h 4 mod 256) l = h * 16 + l.
Proof.
  intros Hh Hl. revert l Hl. revert h Hh.
  refine (nibble_ind (fun h => forall l, is_nibble l -> Z.lor (Z.shiftl h 4 mod 256) l = h * 16 + l) _).
  repeat apply Forall_cons_2; try apply Forall_nil_2; refine (nibble_ind _ _);
    repeat apply Forall_cons_2; try apply Forall_nil_2; reflexivity.
Qed.

(** The digits a parse keeps of two printed bytes. *)
Lemma filter_hex2 b rest : is_u8 b ->
  filter not_space (hex2 b ++ rest) = hex2 b ++ filter not_space rest.
Proof.
  intros [H1 H2]%u8_nibbles. rewrite list.filter_app. f_equal. unfold hex2.
  by rewrite !filter_cons_True by auto using hex_not_space.
Qed.

Lemma filter_display_group i h l rest : is_u8 h -> is_u8 l ->
  filter not_space (((if (0 <? i)%nat then [32] else []) ++ hex2 h ++ hex2 l) ++ rest)
  = hex2 h ++ hex2 l ++ filter not_space rest.
Proof.
  intros Hh Hl. rewrite <- !app_assoc. rewrite list.filter_app.
  assert (filter not_space (if (0 <? i)%nat then [32] else []) = []) as -> by by case_match.
  by rewrite app_nil_l, filter_hex2, filter_hex2.
Qed.

Lemma collect_hex2 b rest : is_u8 b ->
  collect_option (to_digit16 <$> hex2 b ++ rest) =
    match collect_option (to_digit16 <$> rest) with
    | Some ds => Some ((b / 16) :: (b mod 16) :: ds) | None => None end.
Proof.
  intros [H1 H2]%u8_nibbles. unfold hex2. csimpl.
  rewrite (proj1 (hex_char_spec _ H1)), (proj1 (hex_char_spec _ H2)).
  by destruct (collect_option _).
Qed.

(** The nibbles of a byte list, most significant first. *)
Definition nibbles (l : bytes) : list Z := concat (map (fun b => [b / 16; b mod 16]) l).

Lemma parse_groups (f : nat -> nat) l :
  Forall (fun '(h, l) => is_u8 h /\ is_u8 l) l ->
  collect_option (to_digit16 <$> filter not_space
    (concat (imap (fun i '(high, low) => (if (0 <? f i)%nat then [32] else []) ++ hex2 high ++ hex2 low) l)))
  = Some (nibbles (concat (map (fun '(h, l) => [h; l]) l))).
Proof.
  revert f. induction l as [|[h l] rest IH]; intros f Hl; [done|].
  apply Forall_cons_1 in Hl as [[Hh Hl] Hrest]. cbn [imap concat].
  rewrite filter_display_group by done.
  rewrite collect_hex2 by done. rewrite collect_hex2 by done.
  pose proof (IH (f ∘ S) Hrest) as E. unfold compose in *. by rewrite E.
Qed.

Lemma length_nibbles l : length (nibbles l) = (2 * length l)%nat.
Proof. unfold nibbles. induction l; simpl in *; lia. Qed.

Lemma join_chunks_nibbles l : Forall is_u8 l ->
  map (fun '(high, low) => Z.lor (Z.shiftl high 4 mod 256) low) (as_chunks2 (nibbles l)) = l.
Proof.
  induction 1 as [|b l Hb _ IH]; [done|].
  change (nibbles (b :: l)) with (b / 16 :: b mod 16 :: nibbles l). cbn [as_chunks2 map].
  destruct (u8_nibbles b Hb). rewrite join_nibbles, IH by done. f_equal.
  pose proof (Z.div_mod b 16). lia.
Qed.

Lemma as_chunks2_join l : Nat.Even (length l) -> concat (map (fun '(h, l) => [h; l]) (as_chunks2 l)) = l.
Proof.
  remember (length l) as n eqn:Hn. revert l Hn. induction (lt_wf n) as [n _ IH].
  intros [|a [|b l]] Hn He; [done| |]; simpl in Hn; subst.
  - destruct He. lia.
  - cbn. do 2 f_equal. apply (IH (length l)); [lia|done|]. destruct He as [k ?]. exists (k - 1)%nat. lia.
Qed.

Lemma as_chunks2_Forall (P : Z -> Prop) l : Forall P l -> Forall (fun '(h, l) => P h /\ P l) (as_chunks2 l).
Proof.
  remember (length l) as n eqn:Hn. revert l Hn. induction (lt_wf n) as [n _ IH].
  intros [|a [|b l]] Hn HF; [constructor..|].
  apply Forall_cons_1 in HF as [? [? ?]%Forall_cons_1]. simpl in *. subst.
  constructor; [done|]. by apply (IH (length l)); [lia|..].
Qed.

Lemma length_as_chunks2 l n : length l = (2 * n)%nat -> length (as_chunks2 l) = n.
Proof.
  revert l. induction n as [|n IH]; intros [|a [|b l]] Hl; simpl in *; try lia.
  f_equal. apply IH. lia.
Qed.

Lemma fingerprint_parse_display fp :
  fingerprint_wf fp -> fingerprint_from_str (fingerprint_display fp) = inl fp.
Proof.
  intros [Hl Hu]. unfold fingerprint_from_str, fingerprint_display.
  rewrite (parse_groups (fun i => i)) by by apply as_chunks2_Forall.
  rewrite as_chunks2_join by (rewrite Hl; by exists 16%nat).
  rewrite length_nibbles, Hl, join_chunks_nibbles by done. done.
Qed.

Lemma fingerprint_from_str_wf s fp : fingerprint_from_str s = inl fp -> fingerprint_wf fp.
Proof.
  unfold fingerprint_from_str. destruct (collect_option _) as [ds|] eqn:E; [|done].
  destruct (Nat.eqb_spec (length ds) 64) as [Hl|]; [|done]. intros [= <-].
  split; [by rewrite length_map, (length_as_chunks2 ds 32)|].
  apply collect_option_Some in E.
  assert (Forall is_nibble ds) as Hn.
  { clear Hl. induction E as [|c d l ds Hc _ IH]; constructor; eauto using to_digit16_nibble. }
  apply as_chunks2_Forall in Hn.
  induction Hn as [|[h l] rest [Hh Hlo] _ IH]; simpl; constructor; [|done].
  rewrite join_nibbles by done. unfold is_nibble, is_u8, u8_max in *. lia.
Qed.

(** Fingerprints survive being read out.  Every fingerprint parses back from the text
    the server prints, in upper or lower case; any text accepted denotes exactly 32 bytes
    and the same fingerprint as its canonical printing; and the short form shown next to a
    server is the first nine characters of that text. *)
Theorem fingerprints_round_trip :
  (forall fp, fingerprint_wf fp ->
     fingerprint_from_str (fingerprint_display fp) = inl fp /\
     short fp = take 9 (fingerprint_display fp)) /\
  (forall s, fingerprint_from_str (to_ascii_uppercase <$> s) = fingerprint_from_str s) /\
  (forall s fp, fingerprint_from_str s = inl fp ->
     fingerprint_wf fp /\ fingerprint_from_str (fingerprint_display fp) = inl fp).
Proof.
  split_and!.
  - intros fp Hfp. split; [by apply fingerprint_parse_display|].
    destruct Hfp as [Hl _]. do 4 (destruct fp as [|? fp]; [done|]). done.
  - intros s. unfold fingerprint_from_str.
    assert (to_digit16 <$> filter not_space (to_ascii_uppercase <$> s)
            = to_digit16 <$> filter not_space s) as ->; [|done].
    induction s as [|c s IH]; [done|]. csimpl.
    destruct (is_ascii_whitespace c) eqn:Hw.
    + rewrite !filter_cons_False; [done|rewrite Hw; tauto|rewrite is_ascii_whitespace_upper, Hw; tauto].
    + rewrite !filter_cons_True by (by rewrite ?is_ascii_whitespace_upper, Hw). csimpl.
      by rewrite IH, to_digit16_upper.
  - intros s fp Hs. pose proof (fingerprint_from_str_wf s fp Hs).
    split; [done | by apply fingerprint_parse_display].
Qed.
