(* ===== verification/Messages.v ===== *)
(** * Protocol messages and the checks on names and passwords

    [crates/throcc-proto/src/messages.rs].  Enums keep their constructors (prefixed where
    two enums share one), structs become records.  Serialization itself is serde's. *)
From S2P Require Import Prelude Ids.

(* @src/crates/throcc-proto/src/messages.rs 5-5 PROTOCOL *)
Definition PROTOCOL : Z := 1.
(* @src/crates/throcc-proto/src/messages.rs 6-6 MAX_AVATAR_BYTES *)
Definition MAX_AVATAR_BYTES : Z := 64 * 1024.
(* @src/crates/throcc-proto/src/messages.rs 7-7 MAX_NAME_CHARS *)
Definition MAX_NAME_CHARS : Z := 32.
(* @src/crates/throcc-proto/src/messages.rs 8-8 MAX_PASSWORD_CHARS *)
Definition MAX_PASSWORD_CHARS : Z := 128.

(** ** Names and passwords *)

(** [str::trim]. *)
Fixpoint trim_start (s : str) : str :=
  match s with
  | [] => []
  | c :: s' => if is_whitespace c then trim_start s' else s
  end.
Definition trim_end (s : str) : str := rev (trim_start (rev s)).
Definition trim (s : str) : str := trim_end (trim_start s).

Definition in_range (lo c hi : Z) : bool := (lo <=? c) && (c <=? hi).

(* @src/crates/throcc-proto/src/messages.rs 26-38 hides_text *)
Definition hides_text (c : char) : bool :=
  is_control c ||
  bool_decide (c ∈ [0x00AD; 0x034F; 0x061C; 0x115F; 0x1160; 0x17B4; 0x17B5; 0x180E; 0x200B]) ||
  in_range 0x200E c 0x200F ||
  in_range 0x2028 c 0x202E ||
  in_range 0x2060 c 0x206F ||
  bool_decide (c ∈ [0x3164; 0xFEFF; 0xFFA0]) ||
  in_range 0xFFF9 c 0xFFFB.

(* @src/crates/throcc-proto/src/messages.rs 40-49 blank *)
Definition blank (c : char) : bool :=
  bool_decide (c ∈ [0x200C; 0x200D; 0x2800]) ||
  in_range 0xFE00 c 0xFE0F ||
  in_range 0xE0000 c 0xE007F ||
  in_range 0xE0100 c 0xE01EF.

(* @src/crates/throcc-proto/src/messages.rs 21-24 shows_something *)
Definition shows_something (name : str) : bool :=
  existsb (fun c => negb (blank c) && negb (is_whitespace c)) name.

(* @src/crates/throcc-proto/src/messages.rs 10-19 valid_name *)
Definition valid_name (name : str) : option str :=
  let name := trim name in
  let chars := Z.of_nat (length name) in
  if in_range 1 chars MAX_NAME_CHARS && shows_something name && negb (existsb hides_text name)
  then Some name else None.

(* @src/crates/throcc-proto/src/messages.rs 51-53 valid_password *)
Definition valid_password (password : str) : bool :=
  in_range 1 (Z.of_nat (length password)) MAX_PASSWORD_CHARS.

Abbreviation PublicKey := bytes (only parsing).
Abbreviation Signature := bytes (only parsing).

(** ** Rooms, users and media *)

(* @src/crates/throcc-proto/src/messages.rs 360-367 Codec *)
Inductive Codec := Av1 | Hevc | H264 | Vp9.
#[export] Instance Codec_eq_dec : EqDecision Codec.
Proof. solve_decision. Defined.

(* @src/crates/throcc-proto/src/messages.rs 350-358 ShareConfig *)
Record ShareConfig := mkShareConfig {
  sc_audio : bool; sc_kbps : Z; sc_codec : Codec; sc_width : Z; sc_height : Z; sc_fps : Z
}.
#[export] Instance ShareConfig_eq_dec : EqDecision ShareConfig.
Proof. solve_decision. Defined.

(* @src/crates/throcc-proto/src/messages.rs 343-348 MediaState *)
Record MediaState := mkMediaState { ms_mic : bool; ms_deafened : bool; ms_share : option ShareConfig }.
#[export] Instance MediaState_eq_dec : EqDecision MediaState.
Proof. solve_decision. Defined.

Definition MediaState_default : MediaState := mkMediaState false false None.

(* @src/crates/throcc-proto/src/messages.rs 369-373 Recovery *)
Inductive Recovery := Refresh | Idr.
#[export] Instance Recovery_eq_dec : EqDecision Recovery.
Proof. solve_decision. Defined.

(* @src/crates/throcc-proto/src/messages.rs 375-379 ShareTracks *)
Record ShareTracks := mkShareTracks { st_video : MediaId; st_audio : MediaId }.
#[export] Instance ShareTracks_eq_dec : EqDecision ShareTracks.
Proof. solve_decision. Defined.

(* @src/crates/throcc-proto/src/messages.rs 381-386 Tracks *)
Record Tracks := mkTracks { tr_mic : MediaId; tr_shares : list ShareTracks }.
#[export] Instance Tracks_eq_dec : EqDecision Tracks.
Proof. solve_decision. Defined.

(* @src/crates/throcc-proto/src/messages.rs 388-398 Presence *)
Record Presence := mkPresence {
  pr_user : UserId; pr_name : str; pr_avatar : option Hash; pr_room : option RoomId;
  pr_mic : bool; pr_deafened : bool; pr_sharing : bool; pr_role : Role
}.
#[export] Instance Presence_eq_dec : EqDecision Presence.
Proof. solve_decision. Defined.

(* @src/crates/throcc-proto/src/messages.rs 409-417 SignedEncryptionKey *)
Record SignedEncryptionKey := mkSignedEncryptionKey {
  ek_key : PublicKey; ek_not_after : Z; ek_sig : Signature
}.
#[export] Instance SignedEncryptionKey_eq_dec : EqDecision SignedEncryptionKey.
Proof. solve_decision. Defined.

(* @src/crates/throcc-proto/src/messages.rs 400-407 Peer *)
Record Peer := mkPeer {
  pe_user : UserId; pe_tracks : Tracks; pe_share : option ShareConfig;
  pe_identity_key : PublicKey; pe_encryption_key : SignedEncryptionKey
}.
#[export] Instance Peer_eq_dec : EqDecision Peer.
Proof. solve_decision. Defined.

(* @src/crates/throcc-proto/src/messages.rs 419-424 TrackStats *)
Record TrackStats := mkTrackStats { ts_media_id : MediaId; ts_forwarded : Z; ts_dropped_units : Z }.
#[export] Instance TrackStats_eq_dec : EqDecision TrackStats.
Proof. solve_decision. Defined.

(* @src/crates/throcc-proto/src/messages.rs 299-305 Room *)
Record Room := mkRoom { rm_id : RoomId; rm_name : str; rm_locked : bool }.
#[export] Instance Room_eq_dec : EqDecision Room.
Proof. solve_decision. Defined.

(** [messages::User]; the constructor of [Role] has its name. *)
(* @src/crates/throcc-proto/src/messages.rs 307-315 User *)
Record UserEntry := mkUserEntry {
  ue_id : UserId; ue_name : str; ue_role : Role; ue_invited_by : option UserId;
  ue_identity_key : PublicKey; ue_created_at : Z
}.
#[export] Instance UserEntry_eq_dec : EqDecision UserEntry.
Proof. solve_decision. Defined.

(* @src/crates/throcc-proto/src/messages.rs 336-341 Audience *)
Record Audience := mkAudience { au_video : MediaId; au_receivers : list UserId }.
#[export] Instance Audience_eq_dec : EqDecision Audience.
Proof. solve_decision. Defined.

(* @src/crates/throcc-proto/src/messages.rs 326-334 Audiences *)
Record Audiences := mkAudiences { as_seq : Z; as_shares : list Audience }.
#[export] Instance Audiences_eq_dec : EqDecision Audiences.
Proof. solve_decision. Defined.

Definition Audiences_default : Audiences := mkAudiences 0 [].

(* @src/crates/throcc-proto/src/messages.rs 317-324 Placement *)
Record Placement := mkPlacement {
  pl_room : option RoomId; pl_epoch : Epoch; pl_tracks : option Tracks;
  pl_peers : list Peer; pl_audiences : Audiences
}.
#[export] Instance Placement_eq_dec : EqDecision Placement.
Proof. solve_decision. Defined.

(* @src/crates/throcc-proto/src/messages.rs 116-121 UserProfile *)
Record UserProfile := mkUserProfile { up_name : str; up_avatar : option Hash }.
(* @src/crates/throcc-proto/src/messages.rs 123-128 ServerProfile *)
Record ServerProfile := mkServerProfile { sp_name : option str; sp_avatar : option Hash }.
#[export] Instance UserProfile_eq_dec : EqDecision UserProfile.
Proof. solve_decision. Defined.
#[export] Instance ServerProfile_eq_dec : EqDecision ServerProfile.
Proof. solve_decision. Defined.

Definition ServerProfile_default : ServerProfile := mkServerProfile None None.

(* @src/crates/throcc-proto/src/messages.rs 105-114 Welcome *)
Record Welcome := mkWelcome {
  we_me : UserId; we_role : Role; we_rooms : list Room; we_presence : list Presence;
  we_placement : Placement; we_server : ServerProfile; we_profile : UserProfile
}.

(** ** Signing in *)

(* @src/crates/throcc-proto/src/messages.rs 58-62 ServerHello *)
Record ServerHello := mkServerHello { sh_nonce : bytes; sh_protocol : Z }.

(* @src/crates/throcc-proto/src/messages.rs 64-81 ClientHello *)
Inductive ClientHello :=
| HelloAuth (pubkey : PublicKey) (client_nonce : bytes) (want_room : option RoomId) (signature : Signature)
| HelloEnroll (code_id : str) (pubkey : PublicKey) (client_nonce pake_a : bytes) (name : str).

(* @src/crates/throcc-proto/src/messages.rs 83-87 PakeReply *)
Record PakeReply := mkPakeReply { pk_b : bytes; pk_confirm_b : bytes }.

(* @src/crates/throcc-proto/src/messages.rs 92-97 PakeFinish *)
Record PakeFinish := mkPakeFinish { pf_confirm_a : bytes; pf_signature : Signature }.

(* @src/crates/throcc-proto/src/messages.rs 130-148 AuthError *)
Inductive AuthError :=
| UnknownKey | BadSignature | BadInvite | ProtocolMismatch | Banned | RateLimitedAuth | ServerFull | BadName.
#[export] Instance AuthError_eq_dec : EqDecision AuthError.
Proof. solve_decision. Defined.

(* @src/crates/throcc-proto/src/messages.rs 89-90 PakeStep *)
Definition PakeStep : Type := PakeReply + AuthError.

(* @src/crates/throcc-proto/src/messages.rs 99-103 AuthResult *)
Inductive AuthResult := AuthOk (w : Welcome) | AuthErr (e : AuthError).

(** ** Requests, responses and events *)

(* @src/crates/throcc-proto/src/messages.rs 161-219 Request *)
Inductive Request :=
| JoinRoom (room : RoomId) (password : option str)
| LeaveRoom
| SetProfile (name : str) (avatar : option Hash)
| UploadAvatar (bs : bytes)
| FetchAvatar (hash : Hash)
| SetEncryptionKey (key : SignedEncryptionKey)
| SetMedia (media : MediaState)
| SetWatched (ids : list MediaId)
| RequestKeyframe (media_id : MediaId) (kind : Recovery)
| PublishSenderKey (epoch : Epoch) (wrapped : list (UserId * bytes))
| CreateRoom (name : str) (password : option str)
| RenameRoom (room : RoomId) (name : str)
| DeleteRoom (room : RoomId)
| SetRoomPassword (room : RoomId) (password : option str)
| CreateInvite
| ListUsers
| SetRole (user : UserId) (role : Role)
| RemoveUser (user : UserId) (cascade : bool)
| SetServerName (name : option str)
| SetServerAvatar (avatar : option Hash)
| KickFromRoom (user : UserId) (room : RoomId).

(* @src/crates/throcc-proto/src/messages.rs 150-153 ClientMessage *)
Inductive ClientMessage := ClientRequest (id : Z) (request : Request).

(* @src/crates/throcc-proto/src/messages.rs 232-244 ErrorCode *)
Inductive ErrorCode :=
| Forbidden | NotFound | RateLimited | Invalid | FrameTooLarge | StaleEpoch | Internal | WrongPassword | Full.
#[export] Instance ErrorCode_eq_dec : EqDecision ErrorCode.
Proof. solve_decision. Defined.

(* @src/crates/throcc-proto/src/messages.rs 221-230 Response *)
Inductive Response :=
| RespOk
| RespErr (code : ErrorCode) (message : str)
| RespPlacement (p : Placement)
| RespInvite (code : str) (expires : Z)
| RespUsers (users : list UserEntry)
| RespAvatarHash (hash : Hash)
| RespAvatar (bs : bytes).

(* @src/crates/throcc-proto/src/messages.rs 246-297 Event *)
Inductive Event :=
| PresenceChanged (p : Presence)
| PresenceEnded (user : UserId)
| RoomCreated (room : Room)
| RoomRenamed (room : RoomId) (name : str)
| RoomDeleted (room : RoomId)
| RoomLockChanged (room : RoomId) (locked : bool)
| PeersChanged (room : RoomId) (epoch : Epoch) (peers : list Peer)
| SenderKeyPublished (from : UserId) (epoch : Epoch) (wrapped : bytes)
| KeyframeRequested (media_id : MediaId) (kind : Recovery)
| ReceiveStats (tracks : list TrackStats)
| UserAdded (user : UserEntry)
| RoleChanged (user : UserId) (role : Role)
| UserRemoved (user : UserId)
| InviteSpent (code_id : str)
| RemovedFromServer (reason : str)
| ServerProfileChanged (profile : ServerProfile)
| KickedFromRoom (by_ : UserId) (room : RoomId)
| AudiencesChanged (a : Audiences).
#[export] Instance Event_eq_dec : EqDecision Event.
Proof. solve_decision. Defined.

(* @src/crates/throcc-proto/src/messages.rs 155-159 ServerMessage *)
Inductive ServerMessage := SmResponse (id : Z) (response : Response) | SmEvent (e : Event).

(** ** Lemmas on names *)

Lemma in_range_spec lo c hi : in_range lo c hi = true <-> lo <= c <= hi.
Proof. unfold in_range. by rewrite andb_true_iff, !Z.leb_le. Qed.

(** [l] does not start with white space. *)
Definition starts_visible (l : str) : Prop :=
  match l with [] => True | c :: _ => is_whitespace c = false end.

Lemma trim_start_visible l : starts_visible (trim_start l).
Proof. induction l as [|c l IH]; simpl; [done|]. by case_match. Qed.

Lemma trim_start_fixed l : starts_visible l -> trim_start l = l.
Proof. destruct l as [|c l]; simpl; [done|]. by intros ->. Qed.

Lemma trim_start_suffix l : exists p, l = p ++ trim_start l /\ Forall (fun c => is_whitespace c = true) p.
Proof.
  induction l as [|c l (p & E & Hp)]; simpl; [by exists []|].
  destruct (is_whitespace c) eqn:Hc; [|by exists []].
  exists (c :: p). simpl. by rewrite <- E; repeat constructor.
Qed.

Lemma trim_end_prefix l : exists q, l = trim_end l ++ q /\ Forall (fun c => is_whitespace c = true) q.
Proof.
  destruct (trim_start_suffix (rev l)) as (p & E & Hp).
  exists (rev p). unfold trim_end. split.
  - rewrite <- rev_app_distr, <- E. by rewrite rev_involutive.
  - by apply Forall_rev.
Qed.

Lemma trim_end_starts l : starts_visible l -> starts_visible (trim_end l).
Proof.
  destruct (trim_end_prefix l) as (q & E & _). rewrite E at 1.
  by destruct (trim_end l).
Qed.

Lemma trim_trim l : trim (trim l) = trim l.
Proof.
  unfold trim. set (m := trim_start l).
  rewrite trim_start_fixed by apply trim_end_starts, trim_start_visible.
  unfold trim_end. by rewrite rev_involutive, trim_start_fixed by apply trim_start_visible.
Qed.

(** What [trim] removes: white space around the name, and nothing else. *)
Lemma trim_spec l : exists p q, l = p ++ trim l ++ q /\
  Forall (fun c => is_whitespace c = true) (p ++ q).
Proof.
  destruct (trim_start_suffix l) as (p & E1 & Hp).
  destruct (trim_end_prefix (trim_start l)) as (q & E2 & Hq).
  exists p, q. unfold trim. rewrite <- E2, <- E1. split; [done|]. by apply Forall_app_2.
Qed.

Lemma existsb_exists_stdpp {A} (f : A -> bool) l : existsb f l = true <-> exists x, x ∈ l /\ f x = true.
Proof. rewrite existsb_exists. by setoid_rewrite list_elem_of_In. Qed.

Lemma valid_name_Some n m :
  valid_name n = Some m <->
  m = trim n /\ 1 <= Z.of_nat (length m) <= MAX_NAME_CHARS /\
  (exists c, c ∈ m /\ blank c = false /\ is_whitespace c = false) /\
  (forall c, c ∈ m -> hides_text c = false).
Proof.
  unfold valid_name, shows_something. split.
  - case_match eqn:E; [|done]. intros [= <-].
    rewrite !andb_true_iff, negb_true_iff, in_range_spec, existsb_exists_stdpp in E.
    destruct E as [[Hr (c & Hc & Hv)] Hh]. split_and!; try lia; [done| |].
    + exists c. rewrite andb_true_iff, !negb_true_iff in Hv. naive_solver.
    + intros d Hd. apply not_true_iff_false. intros Hd'.
      apply not_true_iff_false in Hh. apply Hh, existsb_exists_stdpp. eauto.
  - intros (-> & Hr & (c & Hc & Hb & Hw) & Hh).
    rewrite (proj2 (in_range_spec _ _ _)), (proj2 (existsb_exists_stdpp _ _)) by
      (try exists c; rewrite ?Hb, ?Hw; done).
    assert (existsb hides_text (trim n) = false) as ->; [|done].
    apply not_true_iff_false. intros (d & Hd & E)%existsb_exists_stdpp.
    by rewrite Hh in E.
Qed.

(** Names shown to others are clean.  A name is accepted exactly as its trimmed text,
    when that has 1 to 32 characters, at least one of them visible and none of them hiding
    or reordering text; accepting is idempotent, so a client checking a name the server
    already accepted keeps it unchanged; and trimming only ever removes white space around
    it. *)
Theorem valid_name_keeps_names_clean :
  (forall n m, valid_name n = Some m <->
     m = trim n /\ 1 <= Z.of_nat (length m) <= MAX_NAME_CHARS /\
     (exists c, c ∈ m /\ blank c = false /\ is_whitespace c = false) /\
     (forall c, c ∈ m -> hides_text c = false)) /\
  (forall n m, valid_name n = Some m -> valid_name m = Some m) /\
  (forall n, exists p q, n = p ++ trim n ++ q /\
     Forall (fun c => is_whitespace c = true) (p ++ q)).
Proof.
  split_and!; [apply valid_name_Some| |apply trim_spec].
  intros n m (-> & H)%valid_name_Some. apply valid_name_Some. by rewrite trim_trim.
Qed.
