(* ===== verification/Fragment.v ===== *)
(** * Fragments, the replay window and reassembly (throcc-client-core, media/fragment.rs)

    Cutting an access unit into datagrams, dropping repeated datagrams of a track, and
    rebuilding units from fragments that arrive in any order.  A [seq] is a [u32]. *)
From S2P Require Import Prelude Ordered Ids Frame.
Open Scope Z_scope.

(** ** Cutting *)

(* @src/crates/throcc-client-core/src/media/fragment.rs 6-13 Fragment *)
Record Fragment := mkFragment { fr_flags : Z; fr_timestamp : option bytes; fr_body : bytes }.

(** The two parts, which are sealed one after the other. *)
(* @src/crates/throcc-client-core/src/media/fragment.rs 16-21 Fragment::plaintext_parts *)
Definition plaintext_parts (f : Fragment) : list bytes := [default [] (fr_timestamp f); fr_body f].

Definition BODY : nat := Z.to_nat BODY_BYTES.

(** The loop over what follows the first fragment; each round takes at least a byte. *)
(* @src/crates/throcc-client-core/src/media/fragment.rs 33-42! fragment *)
Fixpoint fragment_rest (fuel : nat) (unit : bytes) (base : Z) (at_ : nat) : list Fragment :=
  match fuel with
  | O => []
  | S fuel =>
      if (at_ <? length unit)%nat then
        let end_ := ((at_ + BODY) `min` length unit)%nat in
        mkFragment base None (take (end_ - at_) (drop at_ unit)) :: fragment_rest fuel unit base end_
      else []
  end.

(** [fragments.last_mut()] with [LAST] set. *)
Fixpoint mark_last (l : list Fragment) : list Fragment :=
  match l with
  | [] => []
  | [f] => [mkFragment (Z.lor (fr_flags f) Flags.LAST) (fr_timestamp f) (fr_body f)]
  | f :: l => f :: mark_last l
  end.

(* @src/crates/throcc-client-core/src/media/fragment.rs 24-47 fragment *)
Definition fragment (unit : bytes) (timestamp : Z) (keyframe : bool) : list Fragment :=
  let base := Flags.with_flag 0 Flags.KEYFRAME keyframe in
  let first_len := (length unit `min` (BODY - TIMESTAMP_BYTES))%nat in
  mark_last (mkFragment (Z.lor base Flags.FIRST) (Some (to_be_bytes 4 timestamp)) (take first_len unit)
             :: fragment_rest (length unit) unit base first_len).

(** ** The replay window *)

(* @src/crates/throcc-client-core/src/media/fragment.rs 49-49 WINDOW_BITS *)
Definition WINDOW_BITS : Z := 2048.
Definition WORDS : nat := 32.

(* @src/crates/throcc-client-core/src/media/fragment.rs 51-56 Seen *)
Inductive Seen := SeenNew | SeenDuplicate | SeenTooOld.
#[export] Instance Seen_eq_dec : EqDecision Seen.
Proof. solve_decision. Defined.

(** [rw_bits] are [WORDS] words of 64 bits. *)
(* @src/crates/throcc-client-core/src/media/fragment.rs 58-67 ReplayWindow *)
Record ReplayWindow := mkWindow {
  rw_highest : option Z; rw_bits : list Z; rw_first : Z; rw_received : Z; rw_skipped_by_restarts : Z
}.
Definition window_default : ReplayWindow := mkWindow None (replicate WORDS 0) 0 0 0.

Definition word (bits : list Z) (i : nat) : Z := default 0 (bits !! i).

(* @src/crates/throcc-client-core/src/media/fragment.rs 128-130 ReplayWindow::get *)
Definition window_get (bits : list Z) (behind : Z) : bool :=
  Z.land (Z.shiftr (word bits (Z.to_nat (behind / 64))) (behind mod 64)) 1 =? 1.

(* @src/crates/throcc-client-core/src/media/fragment.rs 132-134 ReplayWindow::set *)
Definition window_set (bits : list Z) (behind : Z) : list Z :=
  alter (fun w => Z.lor w (Z.shiftl 1 (behind mod 64))) (Z.to_nat (behind / 64)) bits.

(** What the loop of [shift] stores at [i], from the words the array then has. *)
Definition shifted_word (bits : list Z) (words : nat) (b : Z) (i : nat) : Z :=
  let lo := if (words <=? i)%nat then word bits (i - words) else 0 in
  let carry := if (words + 1 <=? i)%nat && (0 <? b) then Z.shiftr (word bits (i - (words + 1))) (64 - b) else 0 in
  Z.lor (wrap64 (Z.shiftl lo b)) carry.

(** The array is overwritten in place, from its last word. *)
(* @src/crates/throcc-client-core/src/media/fragment.rs 136-152 ReplayWindow::shift *)
Definition window_shift (bits : list Z) (by_ : Z) : list Z :=
  if WINDOW_BITS <=? by_ then replicate WORDS 0 else
  let words := Z.to_nat (by_ / 64) in
  let b := by_ mod 64 in
  foldl (fun bits i => <[i := shifted_word bits words b i]> bits) bits (rev (seq 0 (length bits))).

(* @src/crates/throcc-client-core/src/media/fragment.rs 79-91 ReplayWindow::peek *)
Definition window_peek (w : ReplayWindow) (seq : Z) : Seen :=
  match (highest ← rw_highest w; checked_sub highest seq) with
  | None => SeenNew
  | Some behind =>
      if WINDOW_BITS <=? behind then SeenTooOld
      else if window_get (rw_bits w) behind then SeenDuplicate
      else SeenNew
  end.

(* @src/crates/throcc-client-core/src/media/fragment.rs 93-114 ReplayWindow::record *)
Definition window_record (w : ReplayWindow) (seq : Z) : ReplayWindow :=
  let w :=
    match rw_highest w with
    | Some highest =>
        if seq <=? highest
        then mkWindow (rw_highest w) (window_set (rw_bits w) (highest - seq)) (Z.min (rw_first w) seq) (rw_received w)
               (rw_skipped_by_restarts w)
        else
          let skipped := if WINDOW_BITS <=? seq - highest
                         then wrap64 (rw_skipped_by_restarts w + (seq - highest - 1))
                         else rw_skipped_by_restarts w in
          mkWindow (Some seq) (window_set (window_shift (rw_bits w) (seq - highest)) 0) (rw_first w) (rw_received w) skipped
    | None => mkWindow (Some seq) (window_set (rw_bits w) 0) seq (rw_received w) (rw_skipped_by_restarts w)
    end in
  mkWindow (rw_highest w) (rw_bits w) (rw_first w) (wrap64 (rw_received w + 1)) (rw_skipped_by_restarts w).

(* @src/crates/throcc-client-core/src/media/fragment.rs 70-77 ReplayWindow::check *)
Definition window_check (w : ReplayWindow) (seq : Z) : Seen * ReplayWindow :=
  let seen := window_peek w seq in
  (seen, match seen with SeenNew => window_record w seq | _ => w end).

(* @src/crates/throcc-client-core/src/media/fragment.rs 120-126 ReplayWindow::lost *)
Definition window_lost (w : ReplayWindow) : Z :=
  match rw_highest w with
  | None => 0
  | Some h => sat_sub (h - rw_first w + 1) (wrap64 (rw_received w + rw_skipped_by_restarts w))
  end.

(** ** Reassembly *)

(* @src/crates/throcc-client-core/src/media/fragment.rs 155-163 Unit *)
Record Unit := mkUnit { un_first_seq : Z; un_last_seq : Z; un_timestamp : Z; un_flags : Z; un_data : bytes }.
#[export] Instance Unit_eq_dec : EqDecision Unit.
Proof. solve_decision. Defined.

(* @src/crates/throcc-client-core/src/media/fragment.rs 165-166 MAX_VIDEO_UNIT_FRAGMENTS *)
Definition MAX_VIDEO_UNIT_FRAGMENTS : Z := 4096.
(* @src/crates/throcc-client-core/src/media/fragment.rs 167-168 MAX_AUDIO_UNIT_FRAGMENTS *)
Definition MAX_AUDIO_UNIT_FRAGMENTS : Z := 4.
(* @src/crates/throcc-client-core/src/media/fragment.rs 169-171 MAX_BUFFERED *)
Definition MAX_BUFFERED : Z := 4096.
(* @src/crates/throcc-client-core/src/media/fragment.rs 172-172 BUFFERED_UNITS *)
Definition BUFFERED_UNITS : Z := 64.

(* @src/crates/throcc-client-core/src/media/fragment.rs 174-177 max_unit_bytes *)
Definition max_unit_bytes (max_fragments : Z) : Z := max_fragments * BODY_BYTES - Z.of_nat TIMESTAMP_BYTES.

(* @src/crates/throcc-client-core/src/media/fragment.rs 179-193 Reassembler *)
Record Reassembler := mkReassembler {
  ra_max_fragments : Z; ra_max_buffered : Z;
  ra_fragments : gmap Z (Z * bytes); ra_firsts : gset Z; ra_lasts : gset Z;
  ra_spans : gmap Z Z
}.
Definition with_fragments (f : gmap Z (Z * bytes)) (r : Reassembler) : Reassembler :=
  mkReassembler (ra_max_fragments r) (ra_max_buffered r) f (ra_firsts r) (ra_lasts r) (ra_spans r).
Definition with_flags (firsts lasts : gset Z) (r : Reassembler) : Reassembler :=
  mkReassembler (ra_max_fragments r) (ra_max_buffered r) (ra_fragments r) firsts lasts (ra_spans r).
Definition with_spans (s : gmap Z Z) (r : Reassembler) : Reassembler :=
  mkReassembler (ra_max_fragments r) (ra_max_buffered r) (ra_fragments r) (ra_firsts r) (ra_lasts r) s.

(** [usize] is 64 bits. *)
(* @src/crates/throcc-client-core/src/media/fragment.rs 196-205 Reassembler::new *)
Definition reassembler_new (max_fragments : Z) : Reassembler :=
  let m := Z.max max_fragments 1 in
  mkReassembler (Z.min m u32_max) (Z.min MAX_BUFFERED (Z.min (m * BUFFERED_UNITS) u64_max)) ∅ ∅ ∅ ∅.

(* @src/crates/throcc-client-core/src/media/fragment.rs 281-285 Reassembler::span_of *)
Definition span_of (r : Reassembler) (seq : Z) : option (Z * Z) :=
  lo ← last_upto seq (dom (ra_spans r));
  hi ← ra_spans r !! lo;
  if seq <=? hi then Some (lo, hi) else None.

(* @src/crates/throcc-client-core/src/media/fragment.rs 287-302 Reassembler::unlink *)
Definition unlink (first last : Z) (r : Reassembler) : Reassembler :=
  let r := match span_of r first with
           | None => r
           | Some (lo, hi) =>
               let s := delete lo (ra_spans r) in
               let s := if lo <? first then <[lo := first - 1]> s else s in
               let s := if last <? hi then <[last + 1 := hi]> s else s in
               with_spans s r
           end in
  with_flags (foldl (fun s seq => s ∖ {[seq]}) (ra_firsts r) (seqZ_incl first last))
             (foldl (fun s seq => s ∖ {[seq]}) (ra_lasts r) (seqZ_incl first last)) r.

(* @src/crates/throcc-client-core/src/media/fragment.rs 313-318 Reassembler::drop_run *)
Definition drop_run (first last : Z) (r : Reassembler) : Reassembler :=
  let r := unlink first last r in
  with_fragments (foldl (fun m seq => delete seq m) (ra_fragments r) (seqZ_incl first last)) r.

(* @src/crates/throcc-client-core/src/media/fragment.rs 304-311 Reassembler::drop_unfinishable *)
Definition drop_unfinishable (lo hi : Z) (r : Reassembler) : Reassembler :=
  let after_last := match last_in lo hi (ra_lasts r) with Some l => l + 1 | None => lo end in
  if ra_max_fragments r - 1 <=? hi - after_last
  then drop_run after_last (hi - (ra_max_fragments r - 1)) r
  else r.

(** The unit of a run of fragments; [None] when the first is too short for a timestamp. *)
(* @src/crates/throcc-client-core/src/media/fragment.rs 325-339! Reassembler::take_unit *)
Definition unit_of (first last : Z) (run : list (Z * bytes)) : option Unit :=
  match run with
  | [] => None
  | (flags, head) :: rest =>
      if (length head <? TIMESTAMP_BYTES)%nat then None else
      Some (mkUnit first last (from_be_bytes (take TIMESTAMP_BYTES head)) (Z.lor flags Flags.LAST)
              (drop TIMESTAMP_BYTES head ++ concat rest.*2))
  end.

(* @src/crates/throcc-client-core/src/media/fragment.rs 320-340 Reassembler::take_unit *)
Definition take_unit (first last : Z) (r : Reassembler) : option Unit * Reassembler :=
  let r := unlink first last r in
  let run := omap (fun seq => ra_fragments r !! seq) (seqZ_incl first last) in
  (unit_of first last run,
   with_fragments (foldl (fun m seq => delete seq m) (ra_fragments r) (seqZ_incl first last)) r).

(* @src/crates/throcc-client-core/src/media/fragment.rs 268-279 Reassembler::join_spans *)
Definition join_spans (seq : Z) (r : Reassembler) : Reassembler :=
  let lo := match (before ← checked_sub seq 1; span_of r before) with Some (lo, _) => lo | None => seq end in
  let after := after ← checked_add32 seq 1; hi ← ra_spans r !! after; Some (after, hi) in
  let hi := from_option snd seq after in
  let s := match after with Some (after, _) => delete after (ra_spans r) | None => ra_spans r end in
  with_spans (<[lo := hi]> s) r.

(* @src/crates/throcc-client-core/src/media/fragment.rs 248-266 Reassembler::insert *)
Definition ra_insert (seq flags : Z) (plaintext : bytes) (r : Reassembler) : Reassembler :=
  let known := bool_decide (is_Some (ra_fragments r !! seq)) in
  let r := with_fragments (<[seq := (flags, plaintext)]> (ra_fragments r)) r in
  let r := if known then r else join_spans seq r in
  let mark (flag : Z) (s : gset Z) := if Flags.contains flags flag then {[seq]} ∪ s else s ∖ {[seq]} in
  with_flags (mark Flags.FIRST (ra_firsts r)) (mark Flags.LAST (ra_lasts r)) r.

(* @src/crates/throcc-client-core/src/media/fragment.rs 207-234 Reassembler::push *)
Definition ra_push (seq flags : Z) (plaintext : bytes) (r : Reassembler) : option Unit * Reassembler :=
  let r :=
    if (ra_max_buffered r <=? Z.of_nat (size (ra_fragments r))) && negb (bool_decide (is_Some (ra_fragments r !! seq)))
    then match least (dom (ra_fragments r)) with Some oldest => drop_run oldest oldest r | None => r end
    else r in
  let r := ra_insert seq flags plaintext r in
  match span_of r seq with
  | None => (None, r)
  | Some (lo, hi) =>
      match first_in seq hi (ra_lasts r) with
      | None => (None, drop_unfinishable lo hi r)
      | Some last =>
          match last_in lo seq (ra_firsts r) with
          | Some first =>
              if last - first <? ra_max_fragments r then take_unit first last r
              else (None, drop_run first last r)
          | None =>
              if ra_max_fragments r - 1 <=? last - lo then (None, drop_run lo last r)
              else (None, r)
          end
      end
  end.

(** A span that straddles [seq] keeps its part from [seq] on. *)
(* @src/crates/throcc-client-core/src/media/fragment.rs 236-246 Reassembler::forget_before *)
Definition forget_before (seq : Z) (r : Reassembler) : Reassembler :=
  let r := with_fragments (map_from seq (ra_fragments r)) r in
  let r := with_flags (set_from seq (ra_firsts r)) (set_from seq (ra_lasts r)) r in
  let straddling := '(lo, hi) ← span_of r seq; if lo <? seq then Some (lo, hi) else None in
  let s := map_from seq (ra_spans r) in
  with_spans (match straddling with Some (_, hi) => <[seq := hi]> s | None => s end) r.
