(* ===== verification/FragmentWindow.v ===== *)
(** * The replay window remembers what it saw

    The window's 32 words against the set of every [seq] accepted: the in-place shift, the
    bits, the verdicts and the counts. *)
From S2P Require Import Prelude Ordered Ids Frame Fragment.
Open Scope Z_scope.

(** ** Bits *)

(** The bit [i] positions behind the highest [seq]. *)
Definition bit (bits : list Z) (i : Z) : bool := Z.testbit (word bits (Z.to_nat (i / 64))) (i mod 64).

Definition words_ok (bits : list Z) : Prop := length bits = WORDS /\ Forall is_u64 bits.

Lemma window_get_bit bits i : 0 <= i -> window_get bits i = bit bits i.
Proof.
  intros Hi. unfold window_get, bit. set (w := word bits _). pose proof (Z.mod_pos_bound i 64 ltac:(lia)).
  change 1 with (Z.ones 1) at 1. rewrite Z.land_ones, Z.pow_1_r by lia. rewrite <- Z.bit0_mod, Z.shiftr_spec, Z.add_0_l by lia.
  by destruct (Z.testbit w (i mod 64)).
Qed.

Lemma word_ok bits i : words_ok bits -> is_u64 (word bits i).
Proof.
  intros [_ H]. unfold word. destruct (bits !! i) as [w|] eqn:E; cbn; [|unfold is_u64, u64_max; lia].
  by apply (Forall_lookup_1 _ _ _ _ H E).
Qed.

Lemma u64_high w i : is_u64 w -> 64 <= i -> Z.testbit w i = false.
Proof.
  intros [H0 H] Hi. unfold u64_max in H. destruct (Z.eq_dec w 0) as [->|]; [apply Z.testbit_0_l|].
  apply Z.bits_above_log2; [done|]. apply Z.log2_lt_pow2; [lia|].
  assert (2 ^ 64 <= 2 ^ i) by (apply Z.pow_le_mono_r; lia). lia.
Qed.

Lemma u64_of_bits w : 0 <= w -> (forall i, 64 <= i -> Z.testbit w i = false) -> is_u64 w.
Proof.
  intros H0 H. unfold is_u64, u64_max. split; [done|]. assert (w = w mod 2 ^ 64) as ->.
  - apply Z.bits_inj'. intros i Hi. destruct (Z.lt_ge_cases i 64).
    + by rewrite Z.mod_pow2_bits_low.
    + rewrite Z.mod_pow2_bits_high by lia. by apply H.
  - pose proof (Z.mod_pos_bound w (2 ^ 64)). lia.
Qed.

Lemma is_u64_lor a b : is_u64 a -> is_u64 b -> is_u64 (Z.lor a b).
Proof.
  intros Ha Hb. apply u64_of_bits; [apply Z.lor_nonneg; unfold is_u64 in *; lia|]. intros i Hi.
  rewrite Z.lor_spec, !u64_high by done. done.
Qed.

Lemma is_u64_one i : 0 <= i < 64 -> is_u64 (Z.shiftl 1 i).
Proof.
  intros Hi. rewrite Z.shiftl_1_l. unfold is_u64, u64_max. assert (2 ^ i <= 2 ^ 63) by (apply Z.pow_le_mono_r; lia).
  assert (0 < 2 ^ i) by (apply Z.pow_pos_nonneg; lia). lia.
Qed.

Lemma bit_index i : 0 <= i < WINDOW_BITS -> (Z.to_nat (i / 64) < WORDS)%nat /\ 0 <= i mod 64 < 64.
Proof.
  unfold WINDOW_BITS, WORDS. intros Hi. pose proof (Z.mod_pos_bound i 64 ltac:(lia)).
  assert (0 <= i / 64 < 32) by (split; [apply Z.div_pos; lia|apply Z.div_lt_upper_bound; lia]). lia.
Qed.

(** ** Setting and shifting *)

Lemma window_set_ok bits j : words_ok bits -> 0 <= j < WINDOW_BITS -> words_ok (window_set bits j).
Proof.
  intros [Hl Hw] Hj. destruct (bit_index j Hj) as [_ Hm]. unfold window_set. split; [by rewrite length_alter|].
  apply Forall_alter; [done|]. intros w _ Hw'. by apply is_u64_lor, is_u64_one.
Qed.

Lemma bit_set bits j i : words_ok bits -> 0 <= j < WINDOW_BITS -> 0 <= i < WINDOW_BITS ->
  bit (window_set bits j) i = (i =? j) || bit bits i.
Proof.
  intros [Hl _] Hj Hi. destruct (bit_index j Hj) as [Hjn Hjm], (bit_index i Hi) as [Hin Him]. unfold bit, window_set, word.
  destruct (decide (Z.to_nat (i / 64) = Z.to_nat (j / 64))) as [E|E].
  - rewrite E, list_lookup_alter_eq. destruct (lookup_lt_is_Some_2 bits (Z.to_nat (j / 64))) as [w Hw]; [lia|]. rewrite Hw. cbn.
    rewrite Z.lor_spec, Z.shiftl_1_l, Z.pow2_bits_eqb, orb_comm by lia. f_equal.
    assert (i / 64 = j / 64). { apply Z2Nat.inj; [apply Z.div_pos; lia..|done]. }
    pose proof (Z.div_mod i 64). pose proof (Z.div_mod j 64). destruct (Z.eqb_spec (j mod 64) (i mod 64)), (Z.eqb_spec i j); lia || done.
  - rewrite list_lookup_alter_ne by done. replace (i =? j) with false; [done|]. symmetry. apply Z.eqb_neq. congruence.
Qed.

Lemma shifted_word_same bits bits' words b i :
  (forall k, (k <= i)%nat -> word bits k = word bits' k) -> shifted_word bits words b i = shifted_word bits' words b i.
Proof. intros H. unfold shifted_word. by rewrite !H by lia. Qed.

(** The in-place loop computes what a fresh array would hold. *)
Lemma shift_in_place orig words b n bits : length bits = length orig -> (n <= length orig)%nat ->
  (forall k, (k < n)%nat -> word bits k = word orig k) ->
  let bits' := foldl (fun bits i => <[i := shifted_word bits words b i]> bits) bits (rev (seq 0 n)) in
  length bits' = length orig /\
  forall k, word bits' k = if (k <? n)%nat then shifted_word orig words b k else word bits k.
Proof.
  revert bits. induction n as [|n IH]; intros bits Hl Hn Hsame; [done|].
  rewrite seq_S, rev_app_distr. cbn [app rev Nat.add foldl].
  assert (shifted_word bits words b n = shifted_word orig words b n) as ->.
  { apply shifted_word_same. intros k ?. apply Hsame. lia. }
  set (bits1 := <[n := _]> bits). destruct (IH bits1) as [Hl' Hw]; [unfold bits1; by rewrite length_insert|lia| |].
  { intros k ?. unfold word, bits1. rewrite list_lookup_insert_ne by lia. apply Hsame. lia. }
  split; [done|]. intros k. rewrite Hw. destruct (Nat.ltb_spec k n), (Nat.ltb_spec k (S n)); try lia; try done.
  - assert (k = n) as -> by lia. unfold bits1, word. by rewrite list_lookup_insert_eq by lia.
  - unfold bits1, word. by rewrite list_lookup_insert_ne by lia.
Qed.

Lemma shifted_word_bit bits words b i j : words_ok bits -> 0 <= b < 64 -> 0 <= j < 64 ->
  Z.testbit (shifted_word bits words b i) j =
    if b <=? j then (words <=? i)%nat && Z.testbit (word bits (i - words)) (j - b)
    else (words + 1 <=? i)%nat && Z.testbit (word bits (i - (words + 1))) (j + 64 - b).
Proof.
  intros Hok Hb Hj. unfold shifted_word. rewrite Z.lor_spec. unfold wrap64. change 18446744073709551616 with (2 ^ 64).
  rewrite Z.mod_pow2_bits_low, Z.shiftl_spec by lia.
  assert (forall c : bool, Z.testbit (if c && (0 <? b) then Z.shiftr (word bits (i - (words + 1))) (64 - b) else 0) j =
    c && (j <? b) && Z.testbit (word bits (i - (words + 1))) (j + 64 - b)) as ->.
  { intros []; cbn [andb]; [|apply Z.testbit_0_l]. destruct (Z.ltb_spec 0 b).
    - rewrite Z.shiftr_spec by lia. replace (j + (64 - b)) with (j + 64 - b) by lia. destruct (Z.ltb_spec j b); [done|].
      apply u64_high; [by apply word_ok|lia].
    - destruct (Z.ltb_spec j b); [lia|]. by rewrite Z.testbit_0_l. }
  destruct (Z.leb_spec b j).
  - destruct (Z.ltb_spec j b); [lia|]. rewrite andb_false_r, orb_false_r. destruct (words <=? i)%nat; [done|apply Z.testbit_0_l].
  - destruct (Z.ltb_spec j b); [|lia]. rewrite andb_true_r, (Z.testbit_neg_r _ (j - b)) by lia. done.
Qed.

Lemma shifted_word_ok bits words b i : words_ok bits -> 0 <= b < 64 -> is_u64 (shifted_word bits words b i).
Proof.
  intros Hok Hb. unfold shifted_word. apply is_u64_lor.
  - unfold wrap64, is_u64, u64_max. match goal with |- context [?x mod _] => pose proof (Z.mod_pos_bound x 18446744073709551616) end. lia.
  - destruct (_ && _) eqn:E; [|unfold is_u64, u64_max; lia]. apply andb_true_iff in E as [_ ?]. pose proof (word_ok bits (i - (words + 1)) Hok).
    apply u64_of_bits; [apply Z.shiftr_nonneg; unfold is_u64 in *; lia|]. intros k ?. rewrite Z.shiftr_spec by lia. apply u64_high; [done|lia].
Qed.

Lemma shift_ok bits by_ : words_ok bits -> 0 < by_ -> words_ok (window_shift bits by_).
Proof.
  intros Hok Hby. unfold window_shift. destruct (Z.leb_spec WINDOW_BITS by_).
  { split; [by rewrite length_replicate|]. apply Forall_replicate. unfold is_u64, u64_max. lia. }
  pose proof (Z.mod_pos_bound by_ 64 ltac:(lia)).
  destruct (shift_in_place bits (Z.to_nat (by_ / 64)) (by_ mod 64) (length bits) bits) as [Hl Hw]; [done|lia|done|].
  set (bits' := foldl _ _ _) in *. split; [rewrite Hl; apply Hok|]. apply Forall_lookup_2. intros k w Hk.
  assert (w = word bits' k) as -> by (unfold word; by rewrite Hk). apply lookup_lt_Some in Hk. rewrite Hl in Hk. rewrite Hw.
  destruct (Nat.ltb_spec k (length bits)); [|lia]. by apply shifted_word_ok.
Qed.

(** Shifting moves every bit back by [by_]. *)
Lemma bit_shift bits by_ i : words_ok bits -> 0 < by_ -> 0 <= i < WINDOW_BITS ->
  bit (window_shift bits by_) i = (by_ <=? i) && bit bits (i - by_).
Proof.
  intros Hok Hby Hi. destruct (bit_index i Hi) as [Hin Him]. unfold window_shift. destruct (Z.leb_spec WINDOW_BITS by_).
  { destruct (Z.leb_spec by_ i); [lia|]. unfold bit, word. rewrite lookup_replicate_2 by done. apply Z.testbit_0_l. }
  pose proof (Z.mod_pos_bound by_ 64 ltac:(lia)) as Hb.
  destruct (shift_in_place bits (Z.to_nat (by_ / 64)) (by_ mod 64) (length bits) bits) as [_ Hw]; [done|lia|done|].
  unfold bit at 1. rewrite Hw. destruct Hok as [Hl Hu]. rewrite Hl. replace (_ <? WORDS)%nat with true by (symmetry; by apply Nat.ltb_lt).
  rewrite shifted_word_bit by done. pose proof (Z.div_mod i 64 ltac:(lia)) as Ei. pose proof (Z.div_mod by_ 64 ltac:(lia)) as Eb.
  assert (0 <= by_ / 64) by (apply Z.div_pos; lia). assert (0 <= i / 64) by (apply Z.div_pos; lia).
  unfold bit. destruct (Z.leb_spec (by_ mod 64) (i mod 64)).
  - destruct (Nat.leb_spec (Z.to_nat (by_ / 64)) (Z.to_nat (i / 64))); destruct (Z.leb_spec by_ i); try lia; cbn [andb]; try done.
    assert ((i - by_) / 64 = i / 64 - by_ / 64 /\ (i - by_) mod 64 = i mod 64 - by_ mod 64) as [-> ->].
    { split; symmetry; [eapply Z.div_unique_pos|eapply Z.mod_unique_pos]; [|instantiate (1 := i mod 64 - by_ mod 64); lia| |instantiate (1 := i / 64 - by_ / 64); lia]; lia. }
    by rewrite Z2Nat.inj_sub.
  - destruct (Nat.leb_spec (Z.to_nat (by_ / 64) + 1) (Z.to_nat (i / 64))); destruct (Z.leb_spec by_ i); try lia; cbn [andb]; try done.
    assert ((i - by_) / 64 = i / 64 - by_ / 64 - 1 /\ (i - by_) mod 64 = i mod 64 + 64 - by_ mod 64) as [-> ->].
    { split; symmetry; [eapply Z.div_unique_pos|eapply Z.mod_unique_pos]; [|instantiate (1 := i mod 64 + 64 - by_ mod 64); lia| |instantiate (1 := i / 64 - by_ / 64 - 1); lia]; lia. }
    f_equal. f_equal. lia.
Qed.

(** ** The window and what it saw *)

Record window_ok (w : ReplayWindow) (acc : gset Z) : Prop := {
  wo_words : words_ok (rw_bits w);
  wo_seqs : forall s, s ∈ acc -> is_u32 s;
  wo_received : rw_received w = Z.of_nat (size acc);
  wo_skipped : 0 <= rw_skipped_by_restarts w;
  wo_seen : match rw_highest w with
            | None => acc = ∅ /\ (forall i, 0 <= i < WINDOW_BITS -> bit (rw_bits w) i = false) /\ rw_skipped_by_restarts w = 0
            | Some h => greatest acc = Some h /\ least acc = Some (rw_first w) /\
                (forall i, 0 <= i < WINDOW_BITS -> bit (rw_bits w) i = bool_decide (h - i ∈ acc)) /\
                rw_skipped_by_restarts w <= h - rw_first w
            end
}.

Lemma window_ok_default : window_ok window_default ∅.
Proof.
  split; cbn; try done; [split; [done|]; repeat constructor; unfold u64_max; lia|]. split; [done|]. split; [|done].
  intros i Hi. change (bit (replicate WORDS 0) i = false). unfold bit, word. rewrite (lookup_replicate_2 WORDS) by (by apply bit_index). apply Z.testbit_0_l.
Qed.

(** The verdict, from the set alone. *)
Definition spec_seen (acc : gset Z) (seq : Z) : Seen :=
  match greatest acc with
  | None => SeenNew
  | Some h =>
      if h <? seq then SeenNew
      else if WINDOW_BITS <=? h - seq then SeenTooOld
      else if bool_decide (seq ∈ acc) then SeenDuplicate
      else SeenNew
  end.

Lemma peek_spec w acc seq : window_ok w acc -> window_peek w seq = spec_seen acc seq.
Proof.
  intros [_ _ _ _ H]. unfold window_peek, spec_seen. destruct (rw_highest w) as [h|]; cbn.
  2:{ destruct H as [-> _]. by rewrite (proj2 (greatest_None ∅)). }
  destruct H as (-> & _ & Hbits & _). unfold checked_sub. destruct (Z.leb_spec seq h), (Z.ltb_spec h seq); try lia; [|done].
  destruct (Z.leb_spec WINDOW_BITS (h - seq)); [done|]. rewrite window_get_bit, Hbits by lia.
  replace (h - (h - seq)) with seq by lia. by case_bool_decide.
Qed.

(** [u32]s are few. *)
Lemma size_u32 (acc : gset Z) : (forall s, s ∈ acc -> is_u32 s) -> Z.of_nat (size acc) <= u32_max + 1.
Proof.
  intros H. assert (size acc <= size (list_to_set (seqZ 0 (u32_max + 1)) : gset Z))%nat as Hle.
  { apply subseteq_size. intros s Hs%H. apply elem_of_list_to_set, elem_of_seqZ. unfold is_u32 in Hs. lia. }
  rewrite size_list_to_set, length_seqZ in Hle by apply NoDup_seqZ. unfold u32_max in *. lia.
Qed.

Lemma greatest_insert (acc : gset Z) s :
  greatest ({[s]} ∪ acc) = Some (from_option (Z.max s) s (greatest acc)).
Proof.
  apply greatest_Some. pose proof (greatest_spec acc) as H. destruct (greatest acc) as [h|]; cbn.
  - destruct H as [Hh Hle]. split; [destruct (Z.max_spec s h) as [[_ ->]|[_ ->]]; set_solver|].
    intros y [->%elem_of_singleton|Hy%Hle]%elem_of_union; lia.
  - subst acc. split; [set_solver|]. intros y. rewrite elem_of_union, elem_of_singleton. intros [->|?]; [lia|set_solver].
Qed.
Lemma least_insert (acc : gset Z) s :
  least ({[s]} ∪ acc) = Some (from_option (Z.min s) s (least acc)).
Proof.
  apply least_Some. pose proof (least_spec acc) as H. destruct (least acc) as [h|]; cbn.
  - destruct H as [Hh Hle]. split; [destruct (Z.min_spec s h) as [[_ ->]|[_ ->]]; set_solver|].
    intros y [->%elem_of_singleton|Hy%Hle]%elem_of_union; lia.
  - subst acc. split; [set_solver|]. intros y. rewrite elem_of_union, elem_of_singleton. intros [->|?]; [lia|set_solver].
Qed.

Lemma record_ok w acc seq : window_ok w acc -> is_u32 seq -> spec_seen acc seq = SeenNew ->
  (seq ∉ acc) /\ window_ok (window_record w seq) ({[seq]} ∪ acc).
Proof.
  intros [Hw Hseqs Hrec Hsk Hseen] Hs Hnew.
  assert (seq ∉ acc) as Hnot.
  { intros Hin. unfold spec_seen in Hnew. pose proof (greatest_spec acc) as Hg. destruct (greatest acc) as [h|]; [|subst acc; set_solver].
    destruct Hg as [_ Hle]. specialize (Hle seq Hin). destruct (Z.ltb_spec h seq); [lia|]. destruct (_ <=? _); [done|].
    by rewrite bool_decide_true in Hnew. }
  split; [done|].
  assert (forall s, s ∈ {[seq]} ∪ acc -> is_u32 s) as Hseqs' by (intros s [->%elem_of_singleton|?]%elem_of_union; auto).
  assert (Z.of_nat (size ({[seq]} ∪ acc)) = Z.of_nat (size acc) + 1) as Hsize by (rewrite size_union, size_singleton by set_solver; lia).
  pose proof (size_u32 _ Hseqs') as Hfew. unfold u32_max in Hfew.
  assert (wrap64 (Z.of_nat (size acc) + 1) = Z.of_nat (size ({[seq]} ∪ acc))) as Hcount.
  { rewrite Hsize. unfold wrap64. apply Z.mod_small. lia. }
  unfold window_record. destruct (rw_highest w) as [h|] eqn:Eh.
  - destruct Hseen as (Hg & Hl & Hbits & Hle). pose proof (proj1 (greatest_Some _ _) Hg) as [Hh Hmax]. pose proof (Hseqs h Hh) as Hhu.
    pose proof (proj1 (least_Some _ _) Hl) as [Hf Hmin]. pose proof (Hmin h Hh) as Hfh. pose proof (Hseqs _ Hf) as Hfu.
    destruct (Z.leb_spec seq h) as [Hsh|Hsh].
    + assert (h - seq < WINDOW_BITS) as Hin.
      { unfold spec_seen in Hnew. rewrite Hg in Hnew. destruct (Z.ltb_spec h seq); [lia|]. by destruct (Z.leb_spec WINDOW_BITS (h - seq)). }
      split; cbn; [apply window_set_ok; [done|lia]|done|by rewrite Hrec|done|]. rewrite greatest_insert, least_insert, Hg, Hl. cbn. split; [f_equal; lia|].
      split; [f_equal; lia|]. split; [|lia]. intros i Hi. rewrite bit_set, Hbits by (done || lia).
      destruct (Z.eqb_spec i (h - seq)) as [->|Hne]; cbn; [rewrite bool_decide_true; [done|]; set_solver by lia|].
      apply bool_decide_ext. assert (h - i <> seq) by lia. set_solver.
    + assert (0 < seq - h) as Hby by lia. unfold is_u32, u32_max in *.
      split; cbn; [apply window_set_ok; [by apply shift_ok|unfold WINDOW_BITS; lia]|done|by rewrite Hrec|..].
      { destruct (_ <=? _); [|done]. unfold wrap64. apply Z.mod_pos_bound. lia. }
      rewrite greatest_insert, least_insert, Hg, Hl. cbn. split; [f_equal; lia|]. split; [f_equal; lia|]. split.
      * intros i Hi. rewrite bit_set, bit_shift by (done || (by apply shift_ok) || (unfold WINDOW_BITS; lia)).
        destruct (Z.eqb_spec i 0) as [->|Hne]; cbn; [rewrite bool_decide_true; [done|set_solver by lia]|].
        destruct (Z.leb_spec (seq - h) i); cbn.
        -- rewrite Hbits by lia. replace (h - (i - (seq - h))) with (seq - i) by lia. apply bool_decide_ext. assert (seq - i <> seq) by lia. set_solver.
        -- symmetry. apply bool_decide_eq_false. intros [?%elem_of_singleton|Hi'%Hmax]%elem_of_union; lia.
      * destruct (Z.leb_spec WINDOW_BITS (seq - h)); [|lia]. unfold wrap64. rewrite Z.mod_small; lia.
  - destruct Hseen as (-> & Hbits & Hz). rewrite union_empty_r_L in *. cbn.
    split; cbn; [apply window_set_ok; [done|unfold WINDOW_BITS; lia]|done|by rewrite Hrec|done|].
    split; [apply greatest_Some; set_solver by lia|]. split; [apply least_Some; set_solver by lia|]. split; [|lia].
    intros i Hi. rewrite bit_set, Hbits by (done || (unfold WINDOW_BITS; lia)). rewrite orb_false_r.
    destruct (Z.eqb_spec i 0) as [->|]; symmetry; [rewrite bool_decide_true; [done|]; set_solver by lia|].
    apply bool_decide_eq_false. rewrite elem_of_singleton. lia.
Qed.

(** ** A stream of datagrams *)

Fixpoint checks (w : ReplayWindow) (seqs : list Z) : list Seen * ReplayWindow :=
  match seqs with
  | [] => ([], w)
  | seq :: seqs =>
      let '(seen, w) := window_check w seq in
      let '(l, w) := checks w seqs in (seen :: l, w)
  end.

(** The reference: every accepted [seq] is kept. *)
Fixpoint spec_checks (acc : gset Z) (seqs : list Z) : list Seen * gset Z :=
  match seqs with
  | [] => ([], acc)
  | seq :: seqs =>
      let seen := spec_seen acc seq in
      let '(l, acc) := spec_checks (if decide (seen = SeenNew) then {[seq]} ∪ acc else acc) seqs in (seen :: l, acc)
  end.

(** The datagrams that pass. *)
Definition passed (seqs : list Z) (seen : list Seen) : list Z := omap (fun '(seq, s) => if decide (s = SeenNew) then Some seq else None) (zip seqs seen).

(** The [seq]s between the first and the highest of [acc] that are not in it. *)
Definition missing (acc : gset Z) : Z :=
  match least acc, greatest acc with Some first, Some last => last - first + 1 - Z.of_nat (size acc) | _, _ => 0 end.

Lemma lost_spec w acc : window_ok w acc -> window_lost w = Z.max 0 (missing acc - rw_skipped_by_restarts w).
Proof.
  intros [_ Hseqs Hrec Hsk Hseen]. unfold window_lost, missing, sat_sub. destruct (rw_highest w) as [h|].
  - destruct Hseen as (Hg & Hl & _ & Hle). rewrite Hg, Hl, Hrec. apply greatest_Some in Hg as [Hh _]. apply least_Some in Hl as [Hf _].
    pose proof (Hseqs _ Hh) as [??]. pose proof (Hseqs _ Hf) as [??]. pose proof (size_u32 _ Hseqs).
    unfold wrap64. rewrite Z.mod_small; unfold u32_max in *; lia.
  - destruct Hseen as (-> & _ & Hz). rewrite (proj2 (least_None ∅)) by done. lia.
Qed.

Lemma checks_spec seqs w acc : window_ok w acc -> Forall is_u32 seqs ->
  let '(seen, w') := checks w seqs in
  let '(seen', acc') := spec_checks acc seqs in
  seen = seen' /\ window_ok w' acc' /\ NoDup (passed seqs seen) /\
  (forall s, s ∈ passed seqs seen -> s ∉ acc) /\ acc' = acc ∪ list_to_set (passed seqs seen).
Proof.
  revert w acc. induction seqs as [|seq seqs IH]; intros w acc Hok Hseqs; cbn [checks spec_checks].
  { split; [done|]. split; [done|]. split; [constructor|]. split; [set_solver|]. cbn. set_solver. }
  apply Forall_cons_1 in Hseqs as [Hs Hseqs]. unfold window_check. rewrite (peek_spec w acc) by done.
  destruct (decide (spec_seen acc seq = SeenNew)) as [Hnew|Hold].
  - rewrite Hnew. destruct (record_ok w acc seq Hok Hs Hnew) as [Hnot Hok']. specialize (IH _ _ Hok' Hseqs).
    destruct (checks _ seqs) as [l w'], (spec_checks _ seqs) as [l' acc']. destruct IH as (-> & Hok'' & Hnd & Hdis & ->).
    split; [done|]. split; [done|]. unfold passed in *. cbn. split; [|split; [|set_solver]].
    + apply list.NoDup_cons. split; [|done]. intros H%Hdis. set_solver.
    + intros s [->|H%Hdis]%elem_of_cons; set_solver.
  - specialize (IH w acc Hok Hseqs). destruct (spec_seen acc seq) eqn:E; [done|..];
      destruct (checks w seqs) as [l w'], (spec_checks acc seqs) as [l' acc']; destruct IH as (-> & Hok' & Hnd & Hdis & Hacc);
      unfold passed in *; cbn; done.
Qed.

(** C14: For every stream of datagrams, the window of 2048 bits answers exactly as if it kept
    every [seq] it accepted: it refuses a [seq] only as older than the window or as one it
    accepted before, and accepts none twice.  It counts what it accepted, and as lost at most
    what is missing between the first and the highest, all of it unless the stream jumped
    forward by a whole window. *)
Theorem the_window_remembers_all_it_saw (seqs : list Z) :
  Forall is_u32 seqs ->
  let '(seen, w) := checks window_default seqs in
  let '(seen', acc) := spec_checks ∅ seqs in
  seen = seen' /\ NoDup (passed seqs seen) /\ acc = list_to_set (passed seqs seen) /\
  rw_received w = Z.of_nat (size acc) /\
  0 <= window_lost w <= missing acc /\ (rw_skipped_by_restarts w = 0 -> window_lost w = missing acc).
Proof.
  intros Hseqs. pose proof (checks_spec seqs window_default ∅ window_ok_default Hseqs) as H.
  destruct (checks _ seqs) as [seen w], (spec_checks _ seqs) as [seen' acc]. destruct H as (-> & Hok & Hnd & _ & ->).
  rewrite union_empty_l_L in *. split; [done|]. split; [done|]. split; [done|]. split; [apply (wo_received _ _ Hok)|].
  rewrite (lost_spec _ _ Hok). pose proof (wo_skipped _ _ Hok).
  assert (0 <= missing (list_to_set (passed seqs seen'))) as Hm; [|lia].
  clear. set (acc := list_to_set _). unfold missing. pose proof (least_spec acc) as Hl. pose proof (greatest_spec acc) as Hg.
  destruct (least acc) as [f|], (greatest acc) as [g|]; try lia. destruct Hl as [Hf Hle], Hg as [Hg Hge].
  assert (size acc <= size (list_to_set (seqZ f (g - f + 1)) : gset Z))%nat as Hs.
  { apply subseteq_size. intros s Hs. apply elem_of_list_to_set, elem_of_seqZ. specialize (Hle s Hs). specialize (Hge s Hs). lia. }
  rewrite size_list_to_set, length_seqZ in Hs by apply NoDup_seqZ. specialize (Hle g Hg). lia.
Qed.

(** Late, repeated and too old datagrams, and one after a jump. *)
Lemma the_window_remembers_all_it_saw_witness :
  let seqs := [5; 9; 7; 9; 7; 2060; 9; 100; 3] in
  checks window_default seqs = (fst (spec_checks ∅ seqs), snd (checks window_default seqs)) /\
  passed seqs (fst (checks window_default seqs)) = [5; 9; 7; 2060; 100] /\
  rw_received (snd (checks window_default seqs)) = 5.
Proof.
  intros seqs. assert (Forall is_u32 seqs) as Hseqs by (repeat constructor; unfold u32_max; lia).
  pose proof (the_window_remembers_all_it_saw seqs Hseqs) as H. split; [|split; vm_compute; reflexivity].
  destruct (checks window_default seqs) as [seen w], (spec_checks ∅ seqs) as [seen' acc]. cbn [fst snd]. by destruct H as [-> _].
Defined.
