(* ===== verification/FragmentFacts.v ===== *)
(** * The reassembler against a rescan of its buffer

    The reassembler keeps the flags and the maximal runs of what it buffers in sets of their
    own, so that a push costs a logarithm.  Here every push is shown to do what a rescan of
    the buffered fragments alone would do. *)
From S2P Require Import Prelude Ordered Ids Frame Fragment.
Open Scope Z_scope.

(** ** Runs *)

(** The maximal runs of consecutive members of [B]. *)
Record is_run (B : gset Z) (lo hi : Z) : Prop := {
  run_le : lo <= hi;
  run_in : forall s, lo <= s <= hi -> s ∈ B;
  run_lo : lo - 1 ∉ B;
  run_hi : hi + 1 ∉ B
}.

Lemma run_lo_unique B lo hi lo' hi' s :
  is_run B lo hi -> is_run B lo' hi' -> lo <= s <= hi -> lo' <= s <= hi' -> lo = lo' /\ hi = hi'.
Proof.
  intros [_ Hin Hlo Hhi] [_ Hin' Hlo' Hhi'] Hs Hs'. split.
  - destruct (Z.lt_trichotomy lo lo') as [Hlt|[?|Hlt]]; [|done|]; exfalso.
    + apply Hlo', Hin. lia.
    + apply Hlo, Hin'. lia.
  - destruct (Z.lt_trichotomy hi hi') as [Hlt|[?|Hlt]]; [|done|]; exfalso.
    + apply Hhi, Hin'. lia.
    + apply Hhi', Hin. lia.
Qed.

(** The ends of the run a member is in, found step by step. *)
Fixpoint scan_down (fuel : nat) (B : gset Z) (s : Z) : Z :=
  match fuel with
  | O => s
  | S fuel => if decide (s - 1 ∈ B) then scan_down fuel B (s - 1) else s
  end.
Fixpoint scan_up (fuel : nat) (B : gset Z) (s : Z) : Z :=
  match fuel with
  | O => s
  | S fuel => if decide (s + 1 ∈ B) then scan_up fuel B (s + 1) else s
  end.
Definition run_of (B : gset Z) (s : Z) : Z * Z := (scan_down (size B) B s, scan_up (size B) B s).

Lemma segment_size (B : gset Z) lo hi : (forall s, lo <= s <= hi -> s ∈ B) -> hi - lo + 1 <= Z.of_nat (size B).
Proof.
  intros H. assert (size (list_to_set (seqZ_incl lo hi) : gset Z) <= size B)%nat as Hle.
  { apply subseteq_size. intros s Hs%elem_of_list_to_set%elem_of_seqZ_incl. by apply H. }
  unfold seqZ_incl in Hle. rewrite size_list_to_set, length_seqZ in Hle by apply NoDup_seqZ. lia.
Qed.

Lemma scan_down_spec B top fuel s : s <= top -> (forall x, s <= x <= top -> x ∈ B) -> Z.of_nat (size B) <= Z.of_nat fuel + (top - s) ->
  scan_down fuel B s <= s /\ (forall x, scan_down fuel B s <= x <= top -> x ∈ B) /\ scan_down fuel B s - 1 ∉ B.
Proof.
  revert s. induction fuel as [|fuel IH]; intros s Hs Hin Hf; cbn [scan_down].
  { split; [lia|]. split; [done|]. intros H. assert (top - (s - 1) + 1 <= Z.of_nat (size B)); [|lia].
    apply segment_size. intros x Hx. destruct (Z.eq_dec x (s - 1)) as [->|]; [done|]. apply Hin. lia. }
  case_decide as H; [|split; [lia|done]]. destruct (IH (s - 1)) as (? & ? & ?); [lia| |lia|split; [lia|done]].
  intros x Hx. destruct (Z.eq_dec x (s - 1)) as [->|]; [done|]. apply Hin. lia.
Qed.

Lemma scan_up_spec B bottom fuel s : bottom <= s -> (forall x, bottom <= x <= s -> x ∈ B) -> Z.of_nat (size B) <= Z.of_nat fuel + (s - bottom) ->
  s <= scan_up fuel B s /\ (forall x, bottom <= x <= scan_up fuel B s -> x ∈ B) /\ scan_up fuel B s + 1 ∉ B.
Proof.
  revert s. induction fuel as [|fuel IH]; intros s Hs Hin Hf; cbn [scan_up].
  { split; [lia|]. split; [done|]. intros H. assert (s + 1 - bottom + 1 <= Z.of_nat (size B)); [|lia].
    apply segment_size. intros x Hx. destruct (Z.eq_dec x (s + 1)) as [->|]; [done|]. apply Hin. lia. }
  case_decide as H; [|split; [lia|done]]. destruct (IH (s + 1)) as (? & ? & ?); [lia| |lia|split; [lia|done]].
  intros x Hx. destruct (Z.eq_dec x (s + 1)) as [->|]; [done|]. apply Hin. lia.
Qed.

Lemma run_of_spec B s : s ∈ B -> is_run B (fst (run_of B s)) (snd (run_of B s)) /\ fst (run_of B s) <= s <= snd (run_of B s).
Proof.
  intros Hs. unfold run_of. cbn [fst snd]. assert (forall x, s <= x <= s -> x ∈ B) as H1 by (intros x ?; by assert (x = s) as -> by lia).
  destruct (scan_down_spec B s (size B) s) as (Hd & Hdi & Hdn); [lia|done|lia|].
  destruct (scan_up_spec B s (size B) s) as (Hu & Hui & Hun); [lia|done|lia|].
  split; [|lia]. split; [lia| |done|done]. intros x Hx. destruct (Z.le_gt_cases x s); [apply Hdi|apply Hui]; lia.
Qed.

(** ** The spans are the runs *)

Definition spans_ok (spans : gmap Z Z) (B : gset Z) : Prop := forall lo hi, spans !! lo = Some hi <-> is_run B lo hi.

Lemma span_of_spec r B seq : spans_ok (ra_spans r) B ->
  match span_of r seq with
  | Some (lo, hi) => is_run B lo hi /\ lo <= seq <= hi
  | None => seq ∉ B
  end.
Proof.
  intros Hok. unfold span_of. destruct (last_upto seq (dom (ra_spans r))) as [lo|] eqn:E; cbn.
  - apply last_upto_Some in E as (Hle & Hdom & Hmax). apply elem_of_dom in Hdom as [hi Hhi]. rewrite Hhi. cbn. apply Hok in Hhi as Hrun.
    destruct (Z.leb_spec seq hi); [done|]. intros Hin. destruct (run_of_spec B seq Hin) as [Hr Hbetween]. set (lo' := fst _) in *.
    assert (lo' <= lo) as Hle'. { apply Hmax; [|lia]. apply elem_of_dom. eexists. by apply Hok. }
    destruct (run_lo_unique _ _ _ _ _ lo Hrun Hr); [pose proof (run_le _ _ _ Hrun); lia|lia|]. lia.
  - rewrite last_upto_None in E. intros Hin. destruct (run_of_spec B seq Hin) as [Hr Hbetween].
    assert (seq < fst (run_of B seq)); [|lia]. apply E, elem_of_dom. eexists. by apply Hok.
Qed.

(** The span of a member is its run. *)
Lemma span_of_run r B seq : spans_ok (ra_spans r) B -> seq ∈ B -> span_of r seq = Some (run_of B seq).
Proof.
  intros Hok Hin. pose proof (span_of_spec r B seq Hok) as H. destruct (span_of r seq) as [[lo hi]|]; [|done].
  destruct (run_of_spec B seq Hin) as [Hr Hb]. destruct H as [Hrun Hb']. destruct (run_lo_unique _ _ _ _ _ seq Hrun Hr); [done..|].
  destruct (run_of B seq). cbn in *. by subst.
Qed.

Lemma span_of_none r B seq : spans_ok (ra_spans r) B -> seq ∉ B -> span_of r seq = None.
Proof.
  intros Hok Hin. pose proof (span_of_spec r B seq Hok) as H. destruct (span_of r seq) as [[lo hi]|]; [|done].
  destruct H as [[_ H _ _] Hb]. by specialize (H seq Hb).
Qed.

Lemma join_spans_ok r B seq : spans_ok (ra_spans r) B -> (forall s, s ∈ B -> is_u32 s) -> is_u32 seq -> seq ∉ B ->
  spans_ok (ra_spans (join_spans seq r)) ({[seq]} ∪ B).
Proof.
  intros Hok Hu Hseq Hnot. unfold join_spans. unfold is_u32 in *.
  set (lo := match _ with Some (lo, _) => lo | None => seq end).
  assert (lo <= seq /\ (forall s, lo <= s < seq -> s ∈ B) /\ lo - 1 ∉ B) as (Hlo1 & Hlo2 & Hlo3).
  { unfold lo. unfold checked_sub. destruct (Z.leb_spec 1 seq); cbn.
    - pose proof (span_of_spec r B (seq - 1) Hok) as Hspan. destruct (span_of r (seq - 1)) as [[l h]|]; [|split; [lia|]; split; [lia|done]].
      destruct Hspan as [[? Hin ? Hhi] ?]. assert (h = seq - 1). { destruct (Z.le_gt_cases seq h); [|lia]. exfalso. apply Hnot, Hin. lia. }
      split; [lia|]. split; [|done]. intros s ?. apply Hin. lia.
    - split; [lia|]. split; [lia|]. intros ?%Hu. lia. }
  clearbody lo. set (after := after ← checked_add32 seq 1; hi ← ra_spans r !! after; Some (after, hi)).
  set (hi := from_option snd seq after).
  assert (match after with Some (a, h) => a = seq + 1 /\ h = hi /\ is_run B a h | None => (seq + 1 ∉ B) /\ hi = seq end) as Ha.
  { unfold hi, after, checked_add32. destruct (Z.leb_spec (seq + 1) u32_max); cbn.
    - destruct (ra_spans r !! (seq + 1)) as [h|] eqn:E; cbn; [by apply Hok in E|]. split; [|done]. intros Hin.
      destruct (run_of_spec B _ Hin) as [Hr Hb]. assert (fst (run_of B (seq + 1)) = seq + 1) as Ef.
      { destruct (Z.eq_dec (fst (run_of B (seq + 1))) (seq + 1)); [done|]. exfalso. apply Hnot, Hr. lia. }
      rewrite Ef in Hr. apply Hok in Hr. congruence.
    - split; [|done]. intros ?%Hu. lia. }
  clearbody hi. clearbody after.
  assert (is_run ({[seq]} ∪ B) lo hi) as Hnew.
  { destruct after as [[a h]|].
    - destruct Ha as (-> & -> & [? Hin ? ?]). split; [lia| |set_solver by lia|set_solver by lia].
      intros s ?. destruct (Z.lt_trichotomy s seq) as [?|[->|?]]; [|set_solver|]; apply elem_of_union_r; [apply Hlo2|apply Hin]; lia.
    - destruct Ha as [Ha ->]. split; [lia| |set_solver by lia|set_solver by lia].
      intros s ?. destruct (Z.eq_dec s seq) as [->|?]; [set_solver|]. apply elem_of_union_r, Hlo2. lia. }
  assert (lo <= seq <= hi) as Hin by (split; [lia|]; destruct after as [[a h]|]; [destruct Ha as (-> & -> & [])|]; lia).
  change (ra_spans (with_spans ?s r)) with s. set (spans := match after with Some (a, _) => delete a (ra_spans r) | None => ra_spans r end).
  assert (forall l h, spans !! l = Some h <-> l <> seq + 1 /\ is_run B l h) as Hs.
  { intros l h. unfold spans. destruct after as [[a h']|].
    - destruct Ha as (-> & _). rewrite lookup_delete_Some, (Hok l h). naive_solver.
    - rewrite (Hok l h). split; [|by intros []]. intros Hr. split; [|done]. intros ->. destruct Ha as [Ha _]. apply Ha, Hr. pose proof (run_le _ _ _ Hr). lia. }
  intros l h. destruct (Z.eq_dec l lo) as [->|Hne].
  - change (ra_spans _) with (<[lo := hi]> spans). rewrite lookup_insert_eq. split; [by intros [= <-]|]. intros Hr. f_equal. pose proof (run_le _ _ _ Hr).
    by apply (run_lo_unique _ _ _ _ _ lo Hnew Hr); lia.
  - change (ra_spans _) with (<[lo := hi]> spans). rewrite lookup_insert_ne, Hs by done. split.
    + intros [Hl Hr]. destruct Hr as [H1 H2 H3 H4]. assert (h + 1 <> seq).
      { intros <-. apply Hne. assert (lo <= h). { destruct (Z.le_gt_cases lo h); [done|]. exfalso. apply Hlo3. replace (lo - 1) with h by lia. apply H2. lia. }
        destruct (Z.lt_trichotomy l lo) as [?|[?|?]]; [|done|]; exfalso; [apply Hlo3, H2; lia|apply H3, Hlo2; lia]. }
      split; [done| |set_solver by lia|set_solver by lia]. intros s Hs'. specialize (H2 s Hs'). set_solver.
    + intros Hr. assert (~ l <= seq <= h) as Hout.
      { intros ?. apply Hne. by destruct (run_lo_unique _ _ _ _ _ seq Hr Hnew). }
      destruct Hr as [H1 H2 H3 H4]. split; [intros ->; set_solver by lia|]. split; [done| |set_solver|set_solver].
      intros s Hs'. specialize (H2 s Hs'). assert (s <> seq) by lia. set_solver.
Qed.

(** Removing a stretch of one run leaves its two ends. *)
Definition without (first last : Z) (B : gset Z) : gset Z := filter (fun s => ~ first <= s <= last) B.
Lemma elem_of_without first last B s : s ∈ without first last B <-> ~ first <= s <= last /\ s ∈ B.
Proof. unfold without. by rewrite elem_of_filter. Qed.

Lemma not_without first last B s : s ∉ without first last B <-> first <= s <= last \/ s ∉ B.
Proof. rewrite elem_of_without. destruct (decide (first <= s <= last)); tauto. Qed.

(** A run of what is left that misses the run cut into was a run before, and the other way. *)
Lemma run_elsewhere B lo hi first last l h : is_run B lo hi -> lo <= first -> last <= hi -> ~ (l <= hi /\ lo <= h) ->
  is_run (without first last B) l h <-> is_run B l h.
Proof.
  intros Hrun Hf Hl Hout. assert (forall s, ~ lo <= s <= hi -> s ∈ without first last B <-> s ∈ B) as Hsame.
  { intros s ?. rewrite elem_of_without. intuition lia. }
  split; intros [H1 H2 H3 H4].
  - split; [done|intros s Hs; specialize (H2 s Hs); by apply elem_of_without in H2 as []|..].
    + rewrite not_without in H3. destruct H3 as [?|?]; [|done]. exfalso. assert (l = hi + 1) as -> by lia.
      specialize (H2 (hi + 1)). apply (run_hi _ _ _ Hrun). assert (hi + 1 ∈ without first last B) as Hx by (apply H2; lia). by apply elem_of_without in Hx as [].
    + rewrite not_without in H4. destruct H4 as [?|?]; [|done]. exfalso. assert (h = lo - 1) as -> by lia.
      specialize (H2 (lo - 1)). apply (run_lo _ _ _ Hrun). assert (lo - 1 ∈ without first last B) as Hx by (apply H2; lia). by apply elem_of_without in Hx as [].
  - split; [done|intros s Hs; apply Hsame; [lia|by apply H2]|..]; rewrite not_without; by right.
Qed.

(** The runs of what is left. *)
Lemma runs_without B lo hi first last : is_run B lo hi -> lo <= first -> first <= last -> last <= hi -> forall l h,
  is_run (without first last B) l h <->
    (l = lo /\ h = first - 1 /\ lo < first) \/ (l = last + 1 /\ h = hi /\ last < hi) \/
    (~ (l <= hi /\ lo <= h) /\ is_run B l h).
Proof.
  intros Hrun Hf Hfl Hl l h. pose proof Hrun as [R1 R2 R3 R4].
  assert (lo < first -> is_run (without first last B) lo (first - 1)) as Hleft.
  { intros ?. split; [lia|intros s ?; apply elem_of_without; split; [lia|apply R2; lia]|..]; rewrite not_without; [by right|left; lia]. }
  assert (last < hi -> is_run (without first last B) (last + 1) hi) as Hright.
  { intros ?. split; [lia|intros s ?; apply elem_of_without; split; [lia|apply R2; lia]|..]; rewrite not_without; [left; lia|by right]. }
  destruct (decide (l <= hi /\ lo <= h)) as [Hov|Hout].
  - split.
    + intros Hlh. pose proof (run_le _ _ _ Hlh). assert (exists s, l <= s <= h /\ lo <= s <= hi) as (s & Hs & Hs') by (exists (Z.max l lo); lia).
      pose proof (run_in _ _ _ Hlh s Hs) as Hin. apply elem_of_without in Hin as [Hcut _].
      destruct (Z.le_gt_cases first s).
      * right. left. destruct (run_lo_unique _ _ _ _ _ s Hlh (Hright ltac:(lia))); lia.
      * left. destruct (run_lo_unique _ _ _ _ _ s Hlh (Hleft ltac:(lia))); lia.
    + intros [(-> & -> & ?)|[(-> & -> & ?)|[? _]]]; [by apply Hleft|by apply Hright|done].
  - rewrite (run_elsewhere B lo hi first last l h) by done. split; [by right; right|].
    intros [(-> & -> & ?)|[(-> & -> & ?)|[_ ?]]]; [exfalso; lia..|done].
Qed.

Lemma elem_of_foldl_delete (s : gset Z) l x : x ∈ foldl (fun s seq => s ∖ {[seq]}) s l <-> x ∈ s /\ x ∉ l.
Proof. revert s. induction l as [|y l IH]; intros s; cbn [foldl]; [set_solver|]. rewrite IH. set_solver. Qed.

Lemma lookup_foldl_delete {A} (m : gmap Z A) l x : foldl (fun m seq => delete seq m) m l !! x = if decide (x ∈ l) then None else m !! x.
Proof.
  revert m. induction l as [|y l IH]; intros m; cbn [foldl]; [case_decide; [set_solver|done]|]. rewrite IH.
  destruct (decide (x ∈ l)), (decide (x ∈ y :: l)); try set_solver.
  - rewrite lookup_delete_None. left. set_solver.
  - apply lookup_delete_ne. set_solver.
Qed.

Lemma unlink_spans_ok r B first last lo hi : spans_ok (ra_spans r) B -> is_run B lo hi -> lo <= first -> first <= last -> last <= hi ->
  spans_ok (ra_spans (unlink first last r)) (without first last B).
Proof.
  intros Hok Hrun Hf Hfl Hl. unfold unlink.
  assert (span_of r first = Some (lo, hi)) as ->.
  { pose proof (span_of_spec r B first Hok) as H. destruct (span_of r first) as [[l h]|].
    - destruct H as [Hr Hb]. by destruct (run_lo_unique _ _ _ _ _ first Hr Hrun) as [-> ->]; [done|lia|].
    - exfalso. apply H, Hrun. lia. }
  intros l h. rewrite (runs_without B lo hi) by done. cbn [ra_spans with_flags with_spans].
  assert (forall s : gmap Z Z, (if last <? hi then <[last + 1 := hi]> s else s) !! l = Some h <->
    (l = last + 1 /\ h = hi /\ last < hi) \/ (~ (l = last + 1 /\ last < hi) /\ s !! l = Some h)) as Hins.
  { intros s. destruct (Z.ltb_spec last hi); [rewrite lookup_insert_Some|]; intuition (lia || congruence). }
  assert (forall s : gmap Z Z, (if lo <? first then <[lo := first - 1]> s else s) !! l = Some h <->
    (l = lo /\ h = first - 1 /\ lo < first) \/ (~ (l = lo /\ lo < first) /\ s !! l = Some h)) as Hins'.
  { intros s. destruct (Z.ltb_spec lo first); [rewrite lookup_insert_Some|]; intuition (lia || congruence). }
  rewrite Hins, Hins', lookup_delete_Some, (Hok l h). split.
  - intros [?|(Hn & [?|(_ & Hne & Hr)])]; [by right; left|by left|]. right. right. split; [|done]. intros [? ?].
    pose proof (run_le _ _ _ Hr). destruct (run_lo_unique _ _ _ _ _ (Z.max l lo) Hr Hrun); lia.
  - intros [?|[?|[Hout Hr]]]; [right; split; [lia|by left]|by left|]. pose proof (run_le _ _ _ Hr). pose proof (run_le _ _ _ Hrun).
    right. split; [intros [-> ?]; lia|]. right. split; [lia|]. split; [intros ->; lia|done].
Qed.

(** ** The reassembler's sets *)

Definition flagged (m : gmap Z (Z * bytes)) (flag s : Z) : Prop :=
  exists f b, m !! s = Some (f, b) /\ Flags.contains f flag = true.

Record ra_ok (r : Reassembler) : Prop := {
  ra_keys : forall s, s ∈ dom (ra_fragments r) -> is_u32 s;
  ra_first_set : forall s, s ∈ ra_firsts r <-> flagged (ra_fragments r) Flags.FIRST s;
  ra_last_set : forall s, s ∈ ra_lasts r <-> flagged (ra_fragments r) Flags.LAST s;
  ra_runs : spans_ok (ra_spans r) (dom (ra_fragments r));
  ra_limits : 1 <= ra_max_fragments r /\ 1 <= ra_max_buffered r;
  ra_bounded : Z.of_nat (size (ra_fragments r)) <= ra_max_buffered r
}.

(** What is buffered without [first..=last]. *)
Definition cut (first last : Z) (m : gmap Z (Z * bytes)) : gmap Z (Z * bytes) := filter (fun '(s, _) => ~ first <= s <= last) m.

Lemma lookup_cut first last m s : cut first last m !! s = if decide (first <= s <= last) then None else m !! s.
Proof.
  unfold cut. destruct (decide _) as [H|H].
  - apply map_lookup_filter_None. right. by intros v _ [].
  - destruct (m !! s) as [v|] eqn:E; [apply map_lookup_filter_Some; by split|apply map_lookup_filter_None; by left].
Qed.
Lemma dom_cut first last m : dom (cut first last m) = without first last (dom m).
Proof.
  apply set_eq. intros s. rewrite elem_of_without, !elem_of_dom, lookup_cut. destruct (decide _); [|tauto].
  split; [by intros [? ?]|tauto].
Qed.
Lemma cut_deletes first last m : foldl (fun m seq => delete seq m) m (seqZ_incl first last) = cut first last m.
Proof.
  apply map_eq. intros s. rewrite lookup_foldl_delete, lookup_cut.
  destruct (decide (s ∈ seqZ_incl first last)) as [H|H], (decide (first <= s <= last)); rewrite elem_of_seqZ_incl in H; done.
Qed.
Lemma flagged_cut first last m flag s : flagged (cut first last m) flag s <-> ~ first <= s <= last /\ flagged m flag s.
Proof.
  unfold flagged. rewrite lookup_cut. destruct (decide _) as [H|H]; [|tauto].
  split; [intros (? & ? & ? & _); done|tauto].
Qed.
Lemma size_cut first last m : (size (cut first last m) <= size m)%nat.
Proof. rewrite <- !size_dom, dom_cut. apply subseteq_size. intros s. rewrite elem_of_without. tauto. Qed.

Lemma unlink_fields first last r : ra_max_fragments (unlink first last r) = ra_max_fragments r /\
  ra_max_buffered (unlink first last r) = ra_max_buffered r /\ ra_fragments (unlink first last r) = ra_fragments r.
Proof. unfold unlink. by destruct (span_of r first) as [[lo hi]|]. Qed.

(** Cutting a stretch of a run out of everything. *)
Lemma cut_ok r first last lo hi : ra_ok r -> is_run (dom (ra_fragments r)) lo hi -> lo <= first -> first <= last -> last <= hi ->
  ra_ok (with_fragments (foldl (fun m seq => delete seq m) (ra_fragments (unlink first last r)) (seqZ_incl first last)) (unlink first last r)) /\
  ra_fragments (with_fragments (foldl (fun m seq => delete seq m) (ra_fragments (unlink first last r)) (seqZ_incl first last)) (unlink first last r))
    = cut first last (ra_fragments r).
Proof.
  intros [Hk Hf Hl Hs Hm Hb] Hrun H1 H2 H3. destruct (unlink_fields first last r) as (E1 & E2 & E3).
  pose proof (unlink_spans_ok r _ _ _ _ _ Hs Hrun H1 H2 H3) as Hspans. rewrite E3, cut_deletes. split; [|done].
  split; unfold with_fragments; cbn [ra_max_fragments ra_max_buffered ra_fragments ra_firsts ra_lasts ra_spans]; rewrite ?E1, ?E2.
  - intros s. rewrite dom_cut, elem_of_without. intros []. by apply Hk.
  - intros s. rewrite flagged_cut, <- Hf. unfold unlink. destruct (span_of r first) as [[? ?]|]; cbn;
      rewrite elem_of_foldl_delete, elem_of_seqZ_incl; tauto.
  - intros s. rewrite flagged_cut, <- Hl. unfold unlink. destruct (span_of r first) as [[? ?]|]; cbn;
      rewrite elem_of_foldl_delete, elem_of_seqZ_incl; tauto.
  - by rewrite dom_cut.
  - done.
  - pose proof (size_cut first last (ra_fragments r)). lia.
Qed.

Lemma drop_run_ok r first last lo hi : ra_ok r -> is_run (dom (ra_fragments r)) lo hi -> lo <= first -> first <= last -> last <= hi ->
  ra_ok (drop_run first last r) /\ ra_fragments (drop_run first last r) = cut first last (ra_fragments r).
Proof. apply cut_ok. Qed.

(** ** The reference *)

(** The buffered fragments that carry [flag], looked up anew. *)
Definition marked (m : gmap Z (Z * bytes)) (flag : Z) : gset Z := dom (filter (fun '(_, (f, _)) => Flags.contains f flag = true) m).

Definition naive_evict (max_buffered seq : Z) (m : gmap Z (Z * bytes)) : gmap Z (Z * bytes) :=
  if (max_buffered <=? Z.of_nat (size m)) && negb (bool_decide (is_Some (m !! seq)))
  then match least (dom m) with Some oldest => cut oldest oldest m | None => m end
  else m.

(** What follows once [seq] is buffered: the run around it is scanned, and the flags in it. *)
Definition naive_settle (max_fragments seq : Z) (m : gmap Z (Z * bytes)) : option Unit * gmap Z (Z * bytes) :=
  let '(lo, hi) := run_of (dom m) seq in
  match first_in seq hi (marked m Flags.LAST), last_in lo seq (marked m Flags.FIRST) with
  | Some last, Some first =>
      (if last - first <? max_fragments then unit_of first last (omap (fun s => m !! s) (seqZ_incl first last)) else None, cut first last m)
  | Some last, None => (None, if max_fragments - 1 <=? last - lo then cut lo last m else m)
  | None, _ =>
      let after_last := match last_in lo hi (marked m Flags.LAST) with Some l => l + 1 | None => lo end in
      (None, if max_fragments - 1 <=? hi - after_last then cut after_last (hi - (max_fragments - 1)) m else m)
  end.

Definition naive_push (max_fragments max_buffered seq flags : Z) (plaintext : bytes) (m : gmap Z (Z * bytes))
  : option Unit * gmap Z (Z * bytes) :=
  naive_settle max_fragments seq (<[seq := (flags, plaintext)]> (naive_evict max_buffered seq m)).

Lemma elem_of_marked m flag s : s ∈ marked m flag <-> flagged m flag s.
Proof.
  unfold marked, flagged. rewrite elem_of_dom. unfold is_Some. setoid_rewrite map_lookup_filter_Some. split.
  - intros ([f b] & H & Hf). by exists f, b.
  - intros (f & b & H & Hf). by exists (f, b).
Qed.

Lemma flagged_dom m flag s : flagged m flag s -> s ∈ dom m.
Proof. intros (f & b & H & _). apply elem_of_dom. by eexists. Qed.

Lemma ra_firsts_marked r : ra_ok r -> ra_firsts r = marked (ra_fragments r) Flags.FIRST.
Proof. intros Hok. apply set_eq. intros s. rewrite elem_of_marked. apply (ra_first_set _ Hok). Qed.
Lemma ra_lasts_marked r : ra_ok r -> ra_lasts r = marked (ra_fragments r) Flags.LAST.
Proof. intros Hok. apply set_eq. intros s. rewrite elem_of_marked. apply (ra_last_set _ Hok). Qed.

Lemma flagged_insert m flag seq flags b s : flagged (<[seq := (flags, b)]> m) flag s <->
  (s = seq /\ Flags.contains flags flag = true) \/ (s <> seq /\ flagged m flag s).
Proof.
  unfold flagged. destruct (decide (s = seq)) as [->|Hne].
  - rewrite lookup_insert_eq. split; [intros (? & ? & [= -> ->] & ?); by left|]. intros [[_ ?]|[]]; [|done]. by eexists _, _.
  - rewrite lookup_insert_ne by done. split; [by right|]. intros [[]|[_ ?]]; done.
Qed.

(** What [ra_push] does before and after the insertion. *)
Definition ra_evict (seq : Z) (r : Reassembler) : Reassembler :=
  if (ra_max_buffered r <=? Z.of_nat (size (ra_fragments r))) && negb (bool_decide (is_Some (ra_fragments r !! seq)))
  then match least (dom (ra_fragments r)) with Some oldest => drop_run oldest oldest r | None => r end else r.
Definition ra_settle (seq : Z) (r : Reassembler) : option Unit * Reassembler :=
    match span_of r seq with
    | None => (None, r)
    | Some (lo, hi) =>
        match first_in seq hi (ra_lasts r) with
        | None => (None, drop_unfinishable lo hi r)
        | Some last =>
            match last_in lo seq (ra_firsts r) with
            | Some first => if last - first <? ra_max_fragments r then take_unit first last r else (None, drop_run first last r)
            | None => if ra_max_fragments r - 1 <=? last - lo then (None, drop_run lo last r) else (None, r)
            end
        end
    end.
Lemma ra_push_steps seq flags plaintext r : ra_push seq flags plaintext r = ra_settle seq (ra_insert seq flags plaintext (ra_evict seq r)).
Proof. done. Qed.

(** Evicting and inserting keep the sets. *)
Lemma evict_ok r seq : ra_ok r ->
  let r' := ra_evict seq r in
  ra_ok r' /\ ra_fragments r' = naive_evict (ra_max_buffered r) seq (ra_fragments r) /\
  ra_max_fragments r' = ra_max_fragments r /\ ra_max_buffered r' = ra_max_buffered r /\
  (is_Some (ra_fragments r' !! seq) \/ Z.of_nat (size (ra_fragments r')) < ra_max_buffered r).
Proof.
  intros Hok. unfold ra_evict, naive_evict. pose proof (ra_limits _ Hok) as [_ Hb]. pose proof (ra_bounded _ Hok).
  destruct (Z.leb_spec (ra_max_buffered r) (Z.of_nat (size (ra_fragments r)))); cbn [andb].
  2: { cbv zeta. do 4 (split; [done|]). by right. }
  case_bool_decide as Hin; cbn [negb]; [cbv zeta; do 4 (split; [done|]); by left|].
  destruct (least (dom (ra_fragments r))) as [o|] eqn:E.
  2:{ apply least_None, dom_empty_inv_L in E. rewrite E, map_size_empty in *. lia. }
  apply least_Some in E as [Ho Hmin]. destruct (run_of_spec _ _ Ho) as [Hrun Hbt].
  destruct (drop_run_ok r o o _ _ Hok Hrun) as [Hok' Hf]; [lia..|]. cbv zeta. split; [done|]. split; [done|].
  unfold drop_run, with_fragments. cbn. destruct (unlink_fields o o r) as (E1 & E2 & E3). split; [done|]. split; [done|]. right.
  change (Z.of_nat (size (ra_fragments (drop_run o o r))) < ra_max_buffered r). rewrite Hf.
  assert (size (cut o o (ra_fragments r)) < size (ra_fragments r))%nat; [|lia]. rewrite <- !size_dom. apply subset_size.
  rewrite dom_cut. split; [intros s; rewrite elem_of_without; tauto|]. intros Hsub. specialize (Hsub o Ho). apply elem_of_without in Hsub. lia.
Qed.

Lemma insert_ok r seq flags b : ra_ok r -> is_u32 seq ->
  (is_Some (ra_fragments r !! seq) \/ Z.of_nat (size (ra_fragments r)) < ra_max_buffered r) ->
  let r' := ra_insert seq flags b r in
  ra_ok r' /\ ra_fragments r' = <[seq := (flags, b)]> (ra_fragments r) /\
  ra_max_fragments r' = ra_max_fragments r /\ ra_max_buffered r' = ra_max_buffered r.
Proof.
  intros [Hk Hf Hl Hs Hm Hb] Hseq Hroom. unfold ra_insert.
  set (r0 := with_fragments _ r). set (r1 := if bool_decide _ then r0 else join_spans seq r0).
  assert (ra_fragments r1 = <[seq := (flags, b)]> (ra_fragments r) /\ ra_firsts r1 = ra_firsts r /\ ra_lasts r1 = ra_lasts r /\
    ra_max_fragments r1 = ra_max_fragments r /\ ra_max_buffered r1 = ra_max_buffered r) as (E1 & E2 & E3 & E4 & E5) by (unfold r1; by case_bool_decide).
  assert (spans_ok (ra_spans r1) (dom (<[seq := (flags, b)]> (ra_fragments r)))) as Hspans.
  { rewrite dom_insert_L. unfold r1. case_bool_decide as Hin.
    - apply elem_of_dom in Hin. by replace ({[seq]} ∪ dom (ra_fragments r)) with (dom (ra_fragments r)) by set_solver.
    - apply join_spans_ok; [done|done|done|]. by rewrite elem_of_dom. }
  assert (Z.of_nat (size (<[seq := (flags, b)]> (ra_fragments r))) <= ra_max_buffered r) as Hsize.
  { destruct (ra_fragments r !! seq) as [v|] eqn:Hv; [rewrite map_size_insert_Some by (by eexists); lia|].
    rewrite map_size_insert_None by done. destruct Hroom as [[? ?]|?]; [done|lia]. }
  cbv zeta. split; [|done]. split; cbn; rewrite ?E1, ?E2, ?E3, ?E4, ?E5; try done.
  - intros s. rewrite dom_insert_L. intros [->%elem_of_singleton|?]%elem_of_union; auto.
  - intros s. rewrite flagged_insert, <- Hf. destruct (Flags.contains _ _); rewrite ?elem_of_union, ?elem_of_difference, elem_of_singleton;
      destruct (decide (s = seq)); naive_solver.
  - intros s. rewrite flagged_insert, <- Hl. destruct (Flags.contains _ _); rewrite ?elem_of_union, ?elem_of_difference, elem_of_singleton;
      destruct (decide (s = seq)); naive_solver.
Qed.

Lemma limits_kept r first last : ra_max_fragments (drop_run first last r) = ra_max_fragments r /\ ra_max_buffered (drop_run first last r) = ra_max_buffered r.
Proof. destruct (unlink_fields first last r) as (E1 & E2 & _). done. Qed.

Lemma take_unit_drops first last r :
  take_unit first last r = (unit_of first last (omap (fun s => ra_fragments r !! s) (seqZ_incl first last)), drop_run first last r).
Proof. destruct (unlink_fields first last r) as (_ & _ & E). unfold take_unit, drop_run. by rewrite E. Qed.

(** After the insertion, the maintained sets decide what the scan decides. *)
Lemma settle_ok r seq : ra_ok r -> seq ∈ dom (ra_fragments r) ->
  let '(u, r') := ra_settle seq r in
  naive_settle (ra_max_fragments r) seq (ra_fragments r) = (u, ra_fragments r') /\ ra_ok r' /\
  ra_max_fragments r' = ra_max_fragments r /\ ra_max_buffered r' = ra_max_buffered r.
Proof.
  intros Hok Hin. pose proof (ra_limits _ Hok) as [Hmax _]. unfold ra_settle, naive_settle. rewrite (span_of_run r _ seq (ra_runs _ Hok) Hin).
  destruct (run_of_spec _ _ Hin) as [Hrun Hb]. destruct (run_of (dom (ra_fragments r)) seq) as [lo hi]. cbn [fst snd] in *.
  rewrite (ra_firsts_marked r Hok), (ra_lasts_marked r Hok).
  destruct (first_in seq hi _) as [last|] eqn:Elast.
  - apply first_in_Some in Elast as (Hl & _ & _). destruct (last_in lo seq _) as [first|] eqn:Efirst.
    + apply last_in_Some in Efirst as (Hf & _ & _). destruct (drop_run_ok r first last lo hi Hok Hrun) as [Hok' E]; [lia..|].
      destruct (last - first <? ra_max_fragments r); [|rewrite E; split; [done|]; split; [done|apply limits_kept]].
      rewrite take_unit_drops, E. split; [done|]. split; [done|apply limits_kept].
    + destruct (drop_run_ok r lo last lo hi Hok Hrun) as [Hok' E]; [lia..|].
      destruct (ra_max_fragments r - 1 <=? last - lo); [|done]. rewrite E. split; [done|]. split; [done|apply limits_kept].
  - unfold drop_unfinishable. rewrite (ra_lasts_marked r Hok).
    assert (lo <= match last_in lo hi (marked (ra_fragments r) Flags.LAST) with Some l => l + 1 | None => lo end <= hi) as Ha.
    { destruct (last_in lo hi _) as [l|] eqn:E; [|lia]. apply last_in_Some in E as (Hl & Hm & _). rewrite first_in_None in Elast.
      specialize (Elast l Hm). lia. }
    set (after_last := match last_in lo hi _ with Some l => l + 1 | None => lo end) in *.
    destruct (Z.leb_spec (ra_max_fragments r - 1) (hi - after_last)); [|done].
    destruct (drop_run_ok r after_last (hi - (ra_max_fragments r - 1)) lo hi Hok Hrun) as [Hok' E]; [lia..|].
    rewrite E. split; [done|]. split; [done|apply limits_kept].
Qed.

Lemma push_ok r seq flags plaintext : ra_ok r -> is_u32 seq ->
  let '(u, r') := ra_push seq flags plaintext r in
  naive_push (ra_max_fragments r) (ra_max_buffered r) seq flags plaintext (ra_fragments r) = (u, ra_fragments r') /\ ra_ok r' /\
  ra_max_fragments r' = ra_max_fragments r /\ ra_max_buffered r' = ra_max_buffered r.
Proof.
  intros Hok Hseq. rewrite ra_push_steps. unfold naive_push. pose proof (evict_ok r seq Hok) as He. cbv zeta in He.
  destruct He as (Hok0 & <- & Em & Eb & Hroom).
  rewrite <- Eb in Hroom. pose proof (insert_ok _ seq flags plaintext Hok0 Hseq Hroom) as Hi. cbv zeta in Hi.
  assert (seq ∈ dom (ra_fragments (ra_insert seq flags plaintext (ra_evict seq r)))) as Hin.
  { destruct Hi as (_ & -> & _). rewrite dom_insert_L. set_solver. }
  destruct Hi as (Hok1 & <- & Em1 & Eb1). pose proof (settle_ok _ seq Hok1 Hin) as Hs.
  destruct (ra_settle _ _) as [u r']. destruct Hs as (Hn & Hok' & Em2 & Eb2).
  rewrite Em1, Em in Hn, Em2. rewrite Eb1, Eb in Eb2. done.
Qed.

(** Forgetting keeps the runs from a point on, and cuts the one it falls in. *)
Lemma runs_from B at_ l h : is_run (set_from at_ B) l h <->
  (at_ <= l /\ is_run B l h) \/ (l = at_ /\ exists lo, lo < at_ <= h /\ is_run B lo h).
Proof.
  split.
  - intros Hrun. pose proof (run_le _ _ _ Hrun) as Hle. assert (l ∈ B /\ at_ <= l) as [HlB Hl].
    { pose proof (run_in _ _ _ Hrun l ltac:(lia)) as H%elem_of_set_from. tauto. }
    destruct (run_of_spec B l HlB) as [Hr Hb]. destruct (run_of B l) as [lo hi]. cbn [fst snd] in *.
    assert (h = hi) as <-.
    { destruct Hr as [_ Hin _ Hhi], Hrun as [_ Hin' _ Hhi']. destruct (Z.lt_trichotomy h hi) as [?|[?|?]]; [exfalso|done|exfalso].
      - apply Hhi', elem_of_set_from. split; [lia|]. apply Hin. lia.
      - apply Hhi. assert (hi + 1 ∈ set_from at_ B) as Hx by (apply Hin'; lia). by apply elem_of_set_from in Hx as []. }
    destruct (Z.eq_dec lo l) as [->|Hne]; [by left|]. right. assert (l = at_) as ->; [|split; [done|]; exists lo; split; [lia|done]].
    destruct (Z.eq_dec l at_); [done|]. exfalso. apply (run_lo _ _ _ Hrun), elem_of_set_from. split; [lia|]. apply Hr. lia.
  - intros [[Hl [H1 H2 H3 H4]]|[-> (lo & Hlo & [H1 H2 H3 H4])]].
    + split; [done|intros s ?; apply elem_of_set_from; split; [lia|by apply H2]|..]; rewrite elem_of_set_from; tauto.
    + split; [lia|intros s ?; apply elem_of_set_from; split; [lia|apply H2; lia]|..]; rewrite elem_of_set_from; [lia|tauto].
Qed.

Lemma forget_spans_ok r B seq : spans_ok (ra_spans r) B -> spans_ok (ra_spans (forget_before seq r)) (set_from seq B).
Proof.
  intros Hok l h. rewrite runs_from. unfold forget_before. cbn [ra_spans with_spans with_flags with_fragments].
  set (r' := with_flags _ _ _). pose proof (span_of_spec r' B seq Hok) as Hspan.
  assert (map_from seq (ra_spans r) !! l = Some h <-> seq <= l /\ is_run B l h) as Hmap by (rewrite lookup_map_from; by rewrite <- (Hok l h)).
  assert (forall lo h, lo < seq <= h -> is_run B lo h -> span_of r' seq = Some (lo, h)) as Hstr.
  { intros lo h' ? Hr. destruct (span_of r' seq) as [[lo' hi']|].
    - destruct Hspan as [Hr' ?]. destruct (run_lo_unique _ _ _ _ _ seq Hr Hr') as [-> ->]; [lia..|done].
    - exfalso. apply Hspan, Hr. lia. }
  destruct (span_of r' seq) as [[lo hi]|] eqn:E; cbn.
  - destruct Hspan as [Hr Hb]. destruct (Z.ltb_spec lo seq) as [Hlt|Hge]; cbn.
    + rewrite lookup_insert_Some, Hmap. split.
      * intros [[<- <-]|[? ?]]; [right; split; [done|]; exists lo; split; [lia|done]|by left].
      * intros [[Hl Hlr]|[-> (lo' & Hlo & Hr')]].
        -- right. split; [|done]. intros <-. destruct (run_lo_unique _ _ _ _ _ seq Hr Hlr); [lia|pose proof (run_le _ _ _ Hlr); lia|lia].
        -- left. split; [done|]. destruct (run_lo_unique _ _ _ _ _ seq Hr Hr'); lia.
    + rewrite Hmap. split; [by left|]. intros [?|[-> (lo' & Hlo & Hr')]]; [done|].
      destruct (run_lo_unique _ _ _ _ _ seq Hr Hr'); lia.
  - rewrite Hmap. split; [by left|]. intros [?|[-> (lo' & Hlo & Hr')]]; [done|]. by specialize (Hstr lo' h Hlo Hr').
Qed.

Lemma forget_ok r seq : ra_ok r -> ra_ok (forget_before seq r) /\
  ra_fragments (forget_before seq r) = map_from seq (ra_fragments r) /\
  ra_max_fragments (forget_before seq r) = ra_max_fragments r /\ ra_max_buffered (forget_before seq r) = ra_max_buffered r.
Proof.
  intros Hok. split; [|done]. pose proof (forget_spans_ok r _ seq (ra_runs _ Hok)) as Hs. destruct Hok as [Hk Hf Hl _ Hm Hb].
  assert (forall flag s, flagged (map_from seq (ra_fragments r)) flag s <-> seq <= s /\ flagged (ra_fragments r) flag s) as Hfl.
  { intros flag s. unfold flagged. setoid_rewrite lookup_map_from. naive_solver. }
  split; [..|done|]; unfold forget_before; cbn [ra_fragments ra_firsts ra_lasts ra_max_buffered with_spans with_flags with_fragments].
  - intros s. rewrite dom_map_from, elem_of_set_from. intros [_ ?]. by apply Hk.
  - intros s. by rewrite Hfl, elem_of_set_from, Hf.
  - intros s. by rewrite Hfl, elem_of_set_from, Hl.
  - by rewrite dom_map_from.
  - rewrite <- size_dom, dom_map_from. assert (size (set_from seq (dom (ra_fragments r))) <= size (dom (ra_fragments r)))%nat as H.
    { apply subseteq_size. intros s. rewrite elem_of_set_from. tauto. }
    rewrite size_dom in H. etransitivity; [|exact Hb]. lia.
Qed.

(** ** Runs of the reassembler *)

Inductive RaEvent := RaPushed (seq flags : Z) (plaintext : bytes) | RaForgot (seq : Z).

Definition ra_step (e : RaEvent) (r : Reassembler) : option Unit * Reassembler :=
  match e with
  | RaPushed seq flags plaintext => ra_push seq flags plaintext r
  | RaForgot seq => (None, forget_before seq r)
  end.
Definition naive_step (max_fragments max_buffered : Z) (e : RaEvent) (m : gmap Z (Z * bytes)) : option Unit * gmap Z (Z * bytes) :=
  match e with
  | RaPushed seq flags plaintext => naive_push max_fragments max_buffered seq flags plaintext m
  | RaForgot seq => (None, map_from seq m)
  end.
Definition event_ok (e : RaEvent) : Prop := match e with RaPushed seq _ _ => is_u32 seq | RaForgot _ => True end.

(** What the events give back, and what is left. *)
Fixpoint outputs {S E} (step : E -> S -> option Unit * S) (es : list E) (s : S) : list (option Unit) * S :=
  match es with
  | [] => ([], s)
  | e :: es => let '(u, s) := step e s in let '(us, s) := outputs step es s in (u :: us, s)
  end.

Lemma step_ok e r : ra_ok r -> event_ok e ->
  let '(u, r') := ra_step e r in
  naive_step (ra_max_fragments r) (ra_max_buffered r) e (ra_fragments r) = (u, ra_fragments r') /\ ra_ok r' /\
  ra_max_fragments r' = ra_max_fragments r /\ ra_max_buffered r' = ra_max_buffered r.
Proof.
  intros Hok He. destruct e as [seq flags plaintext|seq]; cbn [ra_step naive_step event_ok] in *; [by apply push_ok|].
  by destruct (forget_ok r seq Hok) as (? & -> & -> & ->).
Qed.

Lemma outputs_ok es r : ra_ok r -> Forall event_ok es ->
  outputs (naive_step (ra_max_fragments r) (ra_max_buffered r)) es (ra_fragments r)
    = (fst (outputs ra_step es r), ra_fragments (snd (outputs ra_step es r))) /\
  ra_ok (snd (outputs ra_step es r)) /\ ra_max_buffered (snd (outputs ra_step es r)) = ra_max_buffered r.
Proof.
  revert r. induction es as [|e es IH]; intros r Hok Hes; [done|]. apply Forall_cons_1 in Hes as [He Hes]. cbn [outputs].
  pose proof (step_ok e r Hok He) as Hs. destruct (ra_step e r) as [u r']. destruct Hs as (-> & Hok' & Em & Eb).
  specialize (IH r' Hok' Hes). rewrite Em, Eb in IH. destruct (outputs ra_step es r') as [us r'']. destruct IH as (-> & ? & ?). done.
Qed.

Lemma new_ok max_fragments : ra_ok (reassembler_new max_fragments).
Proof.
  assert (forall flag s, ~ flagged ∅ flag s) as Hno by (intros flag s (? & ? & H & _); by rewrite lookup_empty in H).
  split; unfold reassembler_new; cbn [ra_fragments ra_firsts ra_lasts ra_spans ra_max_fragments ra_max_buffered].
  - set_solver.
  - intros s. split; [set_solver|by intros ?%Hno].
  - intros s. split; [set_solver|by intros ?%Hno].
  - intros lo hi. rewrite lookup_empty. split; [done|]. intros [Hle Hin _ _]. specialize (Hin lo). set_solver by lia.
  - unfold MAX_BUFFERED, BUFFERED_UNITS, u32_max, u64_max. lia.
  - rewrite map_size_empty. unfold MAX_BUFFERED, BUFFERED_UNITS, u64_max. lia.
Qed.

(** C13: The sets and spans the reassembler maintains decide nothing a rescan of the buffered
    fragments would not: over every sequence of pushes and [forget_before]s it gives back the
    units, and keeps the fragments, of the reference that stores nothing but the fragments
    and scans the run around each one, and it never holds more than its bound, 4096 at most. *)
Theorem the_reassembler_is_a_rescan (max_fragments : Z) (es : list RaEvent) :
  Forall event_ok es ->
  let r := reassembler_new max_fragments in
  let '(units, r') := outputs ra_step es r in
  outputs (naive_step (ra_max_fragments r) (ra_max_buffered r)) es ∅ = (units, ra_fragments r') /\
  Z.of_nat (size (ra_fragments r')) <= ra_max_buffered r /\ ra_max_buffered r <= MAX_BUFFERED.
Proof.
  intros Hes r. destruct (outputs_ok es r (new_ok max_fragments) Hes) as (H & Hok & Eb).
  destruct (outputs ra_step es r) as [units r']. split; [exact H|]. cbn [fst snd] in *. rewrite <- Eb at 1. split; [apply (ra_bounded _ Hok)|].
  unfold r, reassembler_new. cbn [ra_max_buffered]. lia.
Qed.

(** A unit in the wrong order, one cut by a forgotten fragment, and one over the limit. *)
Definition witness_events : list RaEvent :=
  [RaPushed 2 Flags.LAST [7]; RaPushed 0 Flags.FIRST [0; 0; 0; 1; 5]; RaPushed 1 0 [6];
   RaPushed 4 Flags.FIRST [0; 0; 0; 2]; RaForgot 5; RaPushed 5 Flags.LAST [];
   RaPushed 8 Flags.FIRST [0; 0; 0; 3]; RaPushed 9 0 []; RaPushed 10 0 []; RaPushed 11 Flags.LAST []].
Lemma the_reassembler_is_a_rescan_witness :
  fst (outputs ra_step witness_events (reassembler_new 3))
    = [None; None; Some (mkUnit 0 2 1 6 [5; 6; 7]); None; None; None; None; None; None; None] /\
  fst (outputs (naive_step 3 192) witness_events ∅) = fst (outputs ra_step witness_events (reassembler_new 3)).
Proof.
  assert (Forall event_ok witness_events) as Hes by (repeat constructor; cbn; unfold u32_max; lia).
  split; [vm_compute; reflexivity|]. pose proof (the_reassembler_is_a_rescan 3 witness_events Hes) as H. cbv zeta in H.
  change (ra_max_fragments (reassembler_new 3)) with 3 in H. change (ra_max_buffered (reassembler_new 3)) with 192 in H.
  destruct (outputs ra_step witness_events (reassembler_new 3)) as [units r']. destruct H as [H _]. by rewrite H.
Defined.
