(* ===== verification/FragmentRoundTrip.v ===== *)
(** * Cutting and reassembling are inverse, whatever the order of arrival

    Units cut by [fragment], numbered one after the other and delivered in any order come
    out of a fresh reassembler whole, each once.  The proof goes through the rescanning
    reference of [FragmentFacts]. *)
From S2P Require Import Prelude Ordered Ids Frame Fragment FragmentFacts.
Open Scope Z_scope.

(** ** What [fragment] makes of a unit *)

Lemma BODY_pos : (TIMESTAMP_BYTES < BODY)%nat.
Proof. unfold BODY. vm_compute. lia. Qed.

Lemma fragment_rest_spec unit base fuel at_ : (length unit <= at_ + fuel)%nat ->
  let l := fragment_rest fuel unit base at_ in
  concat (fr_body <$> l) = drop at_ unit /\
  Forall (fun f => fr_flags f = base /\ fr_timestamp f = None /\ (0 < length (fr_body f) <= BODY)%nat) l /\
  (length l * BODY < (length unit - at_) + BODY)%nat.
Proof.
  pose proof BODY_pos as HB. revert at_. induction fuel as [|fuel IH]; intros at_ Hf; cbn [fragment_rest].
  { split; [by rewrite drop_ge by lia|]. split; [constructor|cbn; lia]. }
  destruct (Nat.ltb_spec at_ (length unit)) as [Hlt|Hge].
  2:{ split; [by rewrite drop_ge by lia|]. split; [constructor|cbn; lia]. }
  destruct (IH ((at_ + BODY) `min` length unit)%nat ltac:(lia)) as (Hc & Hall & Hn). cbv zeta. split; [|split].
  - rewrite fmap_cons. cbn [concat fr_body]. rewrite Hc. set (e := (_ `min` _)%nat) in *.
    rewrite <- (take_drop (e - at_) (drop at_ unit)) at 2. f_equal. rewrite drop_drop. f_equal. lia.
  - constructor; [|exact Hall]. cbn [fr_flags fr_timestamp fr_body]. split; [done|]. split; [done|]. rewrite length_take, length_drop. lia.
  - cbn [length]. rewrite Nat.mul_succ_l. set (k := length (fragment_rest _ _ _ _)) in *. clearbody k. destruct k; nia.
Qed.

Lemma mark_last_snoc l f : mark_last (l ++ [f]) = l ++ [mkFragment (Z.lor (fr_flags f) Flags.LAST) (fr_timestamp f) (fr_body f)].
Proof. induction l as [|g l IH]; [done|]. cbn [app mark_last]. rewrite IH. by destruct l. Qed.

(** The flags of the fragments of a unit, by their place. *)
Definition flags_at (base : Z) (n i : nat) : Z :=
  Z.lor (if decide (i = 0%nat) then Z.lor base Flags.FIRST else base) (if decide (S i = n) then Flags.LAST else 0).

Lemma mark_last_fields l : fr_body <$> mark_last l = fr_body <$> l /\ fr_timestamp <$> mark_last l = fr_timestamp <$> l.
Proof.
  destruct l as [|f l _] using rev_ind; [done|]. rewrite mark_last_snoc, !fmap_app. done.
Qed.
Lemma mark_last_length l : length (mark_last l) = length l.
Proof. rewrite <- (length_fmap fr_body (mark_last l)), <- (length_fmap fr_body l). by destruct (mark_last_fields l) as [-> _]. Qed.
Lemma mark_last_flags l i f : mark_last l !! i = Some f -> exists g, l !! i = Some g /\
  fr_flags f = Z.lor (fr_flags g) (if decide (S i = length l) then Flags.LAST else 0).
Proof.
  destruct l as [|g l _] using rev_ind; [done|]. rewrite mark_last_snoc, length_app, Nat.add_1_r. intros [Hi|[Hlen Hi]]%lookup_app_Some.
  - exists f. split; [apply lookup_app_Some; by left|]. apply lookup_lt_Some in Hi. rewrite decide_False by lia. by rewrite Z.lor_0_r.
  - apply list_lookup_singleton_Some in Hi as [Hi <-]. exists g. assert (i = length l) as -> by lia.
    split; [apply lookup_app_Some; right; by rewrite Nat.sub_diag|]. by rewrite decide_True.
Qed.

Lemma fragment_spec unit timestamp keyframe :
  let fs := fragment unit timestamp keyframe in
  concat (fr_body <$> fs) = unit /\
  (exists rest, fr_timestamp <$> fs = Some (to_be_bytes 4 timestamp) :: rest /\ Forall (eq None) rest) /\
  Forall (fun f => (length (concat (plaintext_parts f)) <= BODY)%nat) fs /\
  (length fs * BODY < length unit + TIMESTAMP_BYTES + BODY)%nat /\
  (forall i f, fs !! i = Some f -> fr_flags f = flags_at (Flags.with_flag 0 Flags.KEYFRAME keyframe) (length fs) i).
Proof.
  pose proof BODY_pos as HB. unfold fragment. set (base := Flags.with_flag _ _ _). set (n := (_ `min` _)%nat).
  destruct (fragment_rest_spec unit base (length unit) n) as (Hc & Hall & Hn); [lia|].
  set (rest := fragment_rest _ _ _ _) in *. set (l := _ :: rest). cbv zeta. destruct (mark_last_fields l) as [Eb Et].
  rewrite mark_last_length, Eb, Et. split_and!.
  - cbn. rewrite Hc. apply take_drop.
  - exists (fr_timestamp <$> rest). split; [done|]. apply Forall_fmap. eapply Forall_impl; [|exact Hall]; intros f (_ & Ef & _); cbn; by rewrite Ef.
  - assert (Forall (fun f => (length (default [] (fr_timestamp f) ++ fr_body f) <= BODY)%nat) l) as Hl.
    { constructor; [cbn [fr_timestamp fr_body]; change (default [] (Some ?x)) with x; rewrite length_app, length_take, length_to_be_bytes; unfold TIMESTAMP_BYTES in *; lia|]. eapply Forall_impl; [|exact Hall]. intros f (_ & -> & ?). cbn. lia. }
    apply Forall_lookup. intros i f Hi. unfold plaintext_parts. cbn [concat]. rewrite app_nil_r.
    assert ((fr_body <$> l) !! i = Some (fr_body f)) as Hb by (rewrite <- Eb, list_lookup_fmap, Hi; done).
    assert ((fr_timestamp <$> l) !! i = Some (fr_timestamp f)) as Ht by (rewrite <- Et, list_lookup_fmap, Hi; done).
    rewrite list_lookup_fmap in Hb. rewrite list_lookup_fmap in Ht. destruct (l !! i) as [g|] eqn:Hg; [|done]. injection Hb as <-. injection Ht as <-.
    exact (proj1 (Forall_lookup _ _) Hl i g Hg).
  - unfold l. cbn [length]. rewrite Nat.mul_succ_l. clear - Hn HB. set (k := length rest) in *. clearbody k. unfold n, TIMESTAMP_BYTES in *. destruct k; nia.
  - intros i f Hi. apply mark_last_flags in Hi as (g & Hg & ->). unfold flags_at. f_equal. destruct i as [|i]; cbn in Hg; [by injection Hg as <-|].
    cbn [decide]. rewrite decide_False by done. by destruct (proj1 (Forall_lookup _ _) Hall i g Hg).
Qed.

(** ** Pushing laid out fragments, in any order *)

(** [L] are the ends of the units the fragments [F] make up. *)
Record laid_out (F : gmap Z (Z * bytes)) (L : list (Z * Z)) (max : Z) : Prop := {
  lo_unit : forall a b, (a, b) ∈ L -> a <= b /\ b - a < max;
  lo_in : forall a b s, (a, b) ∈ L -> a <= s <= b -> s ∈ dom F;
  lo_cover : forall s, s ∈ dom F -> exists a b, (a, b) ∈ L /\ a <= s <= b;
  lo_disjoint : forall a b a' b' s, (a, b) ∈ L -> (a', b') ∈ L -> a <= s <= b -> a' <= s <= b' -> a = a' /\ b = b';
  lo_first : forall s, flagged F Flags.FIRST s <-> exists b, (s, b) ∈ L;
  lo_last : forall s, flagged F Flags.LAST s <-> exists a, (a, s) ∈ L;
  lo_nodup : NoDup L
}.

Section pushing.
Context (F : gmap Z (Z * bytes)) (L : list (Z * Z)) (max max_buffered : Z).
Context (HF : laid_out F L max) (Hroom : Z.of_nat (size F) <= max_buffered).

Definition complete (P : gset Z) (ab : Z * Z) : Prop := (list_to_set (seqZ_incl ab.1 ab.2) : gset Z) ⊆ P.
Definition unit_at (ab : Z * Z) : option Unit := unit_of ab.1 ab.2 (omap (fun s => F !! s) (seqZ_incl ab.1 ab.2)).

(** Of the fragments [P] that arrived, those of incomplete units are held. *)
Definition held (P : gset Z) (m : gmap Z (Z * bytes)) : Prop := forall s v,
  m !! s = Some v <-> F !! s = Some v /\ s ∈ P /\ forall ab, ab ∈ L -> ab.1 <= s <= ab.2 -> ~ complete P ab.

Lemma complete_spec P a b : complete P (a, b) <-> forall s, a <= s <= b -> s ∈ P.
Proof. unfold complete. cbn [fst snd]. setoid_rewrite elem_of_subseteq. setoid_rewrite elem_of_list_to_set. by setoid_rewrite elem_of_seqZ_incl. Qed.

Lemma held_arrived P m s : held P m -> s ∈ dom m -> s ∈ P /\ s ∈ dom F.
Proof. intros Hm [v Hv]%elem_of_dom. apply Hm in Hv as (? & ? & _). split; [done|]. apply elem_of_dom. by eexists. Qed.

Lemma nothing_evicted P m s v : held P m -> F !! s = Some v -> s ∉ P -> naive_evict max_buffered s m = m.
Proof.
  intros Hm Hs Hnot. unfold naive_evict. rewrite (proj2 (Z.leb_gt _ _)); [done|].
  assert (size (dom m) < size (dom F))%nat as H; [|rewrite !size_dom in H; lia].
  apply subset_size. split; [intros x Hx; by apply (held_arrived P m x)|]. intros Hsub.
  assert (s ∈ dom m) as H by (apply Hsub, elem_of_dom; by eexists). by apply (held_arrived P m s) in H as [].
Qed.

Context (P : gset Z) (m : gmap Z (Z * bytes)) (s a b : Z) (v : Z * bytes).
Context (Hm : held P m) (Hs : F !! s = Some v) (Hnot : s ∉ P) (Hab : (a, b) ∈ L) (Hin : a <= s <= b).

Lemma unit_of_other x ab : ab ∈ L -> ab.1 <= x <= ab.2 -> ~ a <= x <= b -> (complete ({[s]} ∪ P) ab <-> complete P ab).
Proof.
  destruct ab as [a' b']. cbn [fst snd]. intros Hab' Hx Hout. rewrite !complete_spec. split; [|set_solver]. intros H y Hy. specialize (H y Hy).
  apply elem_of_union in H as [->%elem_of_singleton|?]; [|done]. destruct (lo_disjoint _ _ _ HF a b a' b' s) as [-> ->]; done.
Qed.

(** What is buffered after the insertion: of the unit, all that arrived. *)
Lemma inserted_in x : a <= x <= b -> x ∈ dom (<[s := v]> m) <-> x ∈ {[s]} ∪ P.
Proof.
  intros Hx. rewrite dom_insert_L, !elem_of_union. split; [intros [?|Hxm]; [by left|right; by apply (held_arrived P m x) in Hxm as []]|].
  intros [?|HxP]; [by left|right]. assert (x ∈ dom F) as [w Hw]%elem_of_dom by (by apply (lo_in _ _ _ HF a b)).
  apply elem_of_dom. exists w. apply Hm. split; [done|]. split; [done|]. intros [a' b'] Hab' Hx'. cbn [fst snd] in Hx'.
  destruct (lo_disjoint _ _ _ HF a b a' b' x) as [<- <-]; [done..|]. rewrite complete_spec. intros Hc. by apply Hnot, Hc.
Qed.
Lemma inserted_sub x w : <[s := v]> m !! x = Some w -> F !! x = Some w.
Proof. intros [[-> ->]|[_ H%Hm]]%lookup_insert_Some; [done|tauto]. Qed.
Lemma inserted_flagged flag x : flagged (<[s := v]> m) flag x <-> x ∈ dom (<[s := v]> m) /\ flagged F flag x.
Proof.
  unfold flagged. split.
  - intros (f & d & H & ?). split; [apply elem_of_dom; by eexists|]. exists f, d. split; [by apply inserted_sub|done].
  - intros ([w Hw]%elem_of_dom & f & d & H & ?). exists f, d. split; [|done]. rewrite Hw. apply inserted_sub in Hw. congruence.
Qed.

Lemma held_incomplete : ~ complete ({[s]} ∪ P) (a, b) -> held ({[s]} ∪ P) (<[s := v]> m).
Proof.
  intros Hc x w. split.
  - intros Hx. pose proof (inserted_sub x w Hx). split; [done|]. split.
    + apply lookup_insert_Some in Hx as [[-> _]|[_ Hx%Hm]]; set_solver.
    + intros [a' b'] Hab' Hx'. cbn [fst snd] in Hx'. destruct (decide (a <= x <= b)) as [Hxab|Hout].
      * by destruct (lo_disjoint _ _ _ HF a b a' b' x) as [<- <-].
      * rewrite (unit_of_other x (a', b')) by done. apply lookup_insert_Some in Hx as [[-> _]|[_ Hx%Hm]]; [done|]. by apply Hx.
  - intros (Hx & HxP & Hno). destruct (decide (x = s)) as [->|Hne]; [rewrite lookup_insert_eq; congruence|]. rewrite lookup_insert_ne by done.
    apply Hm. split; [done|]. split; [set_solver|]. intros ab Hab' Hx' Hc'. apply (Hno ab Hab' Hx'). destruct ab as [a' b'].
    rewrite complete_spec in *. set_solver.
Qed.

Lemma held_complete : complete ({[s]} ∪ P) (a, b) -> held ({[s]} ∪ P) (cut a b (<[s := v]> m)).
Proof.
  intros Hc x w. rewrite lookup_cut. destruct (decide (a <= x <= b)) as [Hx|Hout].
  - split; [done|]. intros (_ & _ & Hno). by destruct (Hno (a, b)).
  - rewrite lookup_insert_ne by (intros <-; done). rewrite (Hm x w). split; intros (? & HxP & Hno).
    + split; [done|]. split; [set_solver|]. intros ab ? ?. rewrite (unit_of_other x) by done. by apply Hno.
    + split; [done|]. split; [apply elem_of_union in HxP as [->%elem_of_singleton|?]; done|]. intros ab ? ?. rewrite <- (unit_of_other x) by done. by apply Hno.
Qed.

(** The marks of the unit, once they arrived, are the ends the run around [s] shows. *)
Lemma last_marks lo hi y : lo <= s <= hi -> is_run (dom (<[s := v]> m)) lo hi -> y ∈ marked (<[s := v]> m) Flags.LAST -> s <= y <= b -> y = b.
Proof.
  intros Hb Hr Hy Hsy. apply elem_of_marked, inserted_flagged in Hy as [_ [a' Ha']%(lo_last _ _ _ HF)]. pose proof (lo_unit _ _ _ HF _ _ Ha').
  destruct (lo_disjoint _ _ _ HF a b a' y y); [done|done|lia|lia|done].
Qed.
Lemma first_marks y : y ∈ marked (<[s := v]> m) Flags.FIRST -> a <= y <= s -> y = a.
Proof.
  intros Hy Hsy. apply elem_of_marked, inserted_flagged in Hy as [_ [b' Hb']%(lo_first _ _ _ HF)]. pose proof (lo_unit _ _ _ HF _ _ Hb').
  destruct (lo_disjoint _ _ _ HF a b y b' y); [done|done|lia|lia|done].
Qed.
Lemma last_marked a' y : (a', y) ∈ L -> y ∈ dom (<[s := v]> m) -> y ∈ marked (<[s := v]> m) Flags.LAST.
Proof. intros HL Hy. apply elem_of_marked, inserted_flagged. split; [done|]. apply (lo_last _ _ _ HF). by exists a'. Qed.
Lemma first_marked : a ∈ dom (<[s := v]> m) -> a ∈ marked (<[s := v]> m) Flags.FIRST.
Proof. intros Hy. apply elem_of_marked, inserted_flagged. split; [done|]. apply (lo_first _ _ _ HF). by exists b. Qed.

Lemma settle_complete : complete ({[s]} ∪ P) (a, b) ->
  naive_settle max s (<[s := v]> m) = (unit_at (a, b), cut a b (<[s := v]> m)).
Proof.
  intros Hc. rewrite complete_spec in Hc. pose proof (lo_unit _ _ _ HF _ _ Hab) as [_ Hmax].
  assert (forall x, a <= x <= b -> x ∈ dom (<[s := v]> m)) as Hd by (intros x Hx; by apply inserted_in, Hc).
  unfold naive_settle. destruct (run_of_spec (dom (<[s := v]> m)) s) as [Hr Hb]; [by apply Hd|].
  destruct (run_of _ s) as [lo hi]. cbn [fst snd] in *.
  assert (lo <= a) by (destruct (Z.le_gt_cases lo a); [done|]; exfalso; apply (run_lo _ _ _ Hr), Hd; lia).
  assert (b <= hi) by (destruct (Z.le_gt_cases b hi); [done|]; exfalso; apply (run_hi _ _ _ Hr), Hd; lia).
  assert (first_in s hi (marked (<[s := v]> m) Flags.LAST) = Some b) as ->.
  { apply first_in_Some. split; [lia|]. split; [apply (last_marked a); [done|apply Hd; lia]|]. intros y Hy ?.
    destruct (Z.le_gt_cases b y); [done|]. rewrite (last_marks lo hi y); [done|done|done|done|lia]. }
  assert (last_in lo s (marked (<[s := v]> m) Flags.FIRST) = Some a) as ->.
  { apply last_in_Some. split; [lia|]. split; [apply first_marked, Hd; lia|]. intros y Hy ?.
    destruct (Z.le_gt_cases y a); [done|]. rewrite (first_marks y); [done|done|lia]. }
  rewrite (proj2 (Z.ltb_lt _ _)) by done. f_equal. unfold unit_at. cbn [fst snd]. f_equal. apply list_omap_ext, Forall_Forall2_diag, Forall_lookup.
  intros i x Hx%list_elem_of_lookup_2%elem_of_seqZ_incl. specialize (Hd x Hx). apply elem_of_dom in Hd as [w Hw]. rewrite Hw. symmetry. by apply inserted_sub.
Qed.

Lemma settle_incomplete : ~ complete ({[s]} ∪ P) (a, b) -> naive_settle max s (<[s := v]> m) = (None, <[s := v]> m).
Proof.
  intros Hc. rewrite complete_spec in Hc. pose proof (lo_unit _ _ _ HF _ _ Hab) as [_ Hmax].
  unfold naive_settle. destruct (run_of_spec (dom (<[s := v]> m)) s) as [Hr Hb]; [rewrite dom_insert_L; set_solver|].
  destruct (run_of _ s) as [lo hi]. cbn [fst snd] in *.
  assert (~ (lo <= a /\ b <= hi)) as Hpart by (intros [? ?]; apply Hc; intros x Hx; apply inserted_in; [done|]; apply Hr; lia).
  destruct (first_in s hi _) as [last|] eqn:Elast.
  - apply first_in_Some in Elast as (Hl & Hlm & Hmin). assert (last <= b) as Hlb.
    { destruct (Z.le_gt_cases b hi); [|lia]. apply Hmin; [|lia]. apply (last_marked a); [done|]. apply Hr. lia. }
    assert (last = b) as -> by (apply (last_marks lo hi); [done|done|done|lia]).
    destruct (last_in lo s _) as [first|] eqn:Efirst.
    + apply last_in_Some in Efirst as (Hf & Hfm & _). assert (first = a); [apply first_marks; [done|lia]|lia].
    + rewrite (proj2 (Z.leb_gt _ _)) by lia. done.
  - rewrite first_in_None in Elast. assert (hi < b) as Hhb.
    { destruct (Z.le_gt_cases b hi); [|done]. exfalso. apply (Elast b); [|lia]. apply (last_marked a); [done|]. apply Hr. lia. }
    assert (forall l, lo <= a - 1 -> l = last_in lo hi (marked (<[s := v]> m) Flags.LAST) -> exists x, l = Some x /\ a - 1 <= x) as Hbefore.
    { intros l Hlo ->. assert (a - 1 ∈ dom (<[s := v]> m)) as Hd by (apply Hr; lia).
      assert (a - 1 ∈ dom F) as (a' & b' & HL & Hx)%(lo_cover _ _ _ HF).
      { apply elem_of_dom in Hd as [w Hw%inserted_sub]. apply elem_of_dom. by exists w. }
      assert (b' = a - 1) as ->.
      { destruct (Z.le_gt_cases a b'); [|lia]. destruct (lo_disjoint _ _ _ HF a b a' b' a); [done|done|lia|lia|lia]. }
      apply (last_marked a') in Hd; [|done]. destruct (last_in lo hi _) as [l|] eqn:E.
      - exists l. split; [done|]. apply last_in_Some in E as (_ & _ & Hmaxl). apply Hmaxl; [done|lia].
      - rewrite last_in_None in E. destruct (E _ Hd). lia. }
    destruct (last_in lo hi _) as [l|] eqn:E.
    + assert (a <= l + 1); [|rewrite (proj2 (Z.leb_gt _ _)) by lia; done].
      destruct (Z.le_gt_cases lo (a - 1)) as [Hlo|]; [destruct (Hbefore _ Hlo eq_refl) as (x & [= <-] & ?); lia|].
      apply last_in_Some in E. lia.
    + assert (a <= lo); [|rewrite (proj2 (Z.leb_gt _ _)) by lia; done].
      destruct (Z.le_gt_cases lo (a - 1)) as [Hlo|]; [by destruct (Hbefore _ Hlo eq_refl) as (x & ? & ?)|lia].
Qed.

#[local] Instance complete_dec Q ab : Decision (complete Q ab).
Proof. unfold complete. apply _. Defined.

Lemma push_held :
  let c := complete ({[s]} ∪ P) (a, b) in
  exists m', naive_push max max_buffered s v.1 v.2 m = (if decide c then unit_at (a, b) else None, m') /\ held ({[s]} ∪ P) m'.
Proof.
  unfold naive_push. rewrite (nothing_evicted P m s v) by done. replace (v.1, v.2) with v by (by destruct v). cbv zeta.
  destruct (decide _) as [Hc|Hc].
  - eexists. split; [by apply settle_complete|by apply held_complete].
  - eexists. split; [by apply settle_incomplete|by apply held_incomplete].
Qed.
End pushing.

#[export] Existing Instance complete_dec.

Definition event_of (p : Z * (Z * bytes)) : RaEvent := RaPushed p.1 p.2.1 p.2.2.
(** The units of [L] that [Q] completes and [P] does not. *)
Definition completed (L : list (Z * Z)) (P Q : gset Z) : list (Z * Z) := filter (fun ab => complete Q ab /\ ~ complete P ab) L.

Lemma completed_step F L max P Q s a b : laid_out F L max -> (a, b) ∈ L -> a <= s <= b -> s ∉ P -> {[s]} ∪ P ⊆ Q ->
  completed L P Q ≡ₚ (if decide (complete ({[s]} ∪ P) (a, b)) then [(a, b)] else []) ++ completed L ({[s]} ∪ P) Q.
Proof.
  intros HF Hab Hin Hnot HQ. pose proof (lo_nodup _ _ _ HF) as Hnd. unfold completed. apply NoDup_Permutation.
  - by apply list.NoDup_filter.
  - apply list.NoDup_app. split; [destruct (decide _); repeat constructor; set_solver|]. split; [|by apply list.NoDup_filter].
    intros ab. destruct (decide _) as [Hc|]; [|set_solver]. intros ->%list_elem_of_singleton. rewrite list_elem_of_filter. tauto.
  - intros [a' b']. rewrite elem_of_app, !list_elem_of_filter, !complete_spec. split.
    + intros [[Hc Hno] HL]. destruct (decide (complete ({[s]} ∪ P) (a', b'))) as [Hc'|Hc'].
      * left. rewrite complete_spec in Hc'. assert (a' <= s <= b') as Hs.
        { destruct (decide (a' <= s <= b')); [done|]. exfalso. apply Hno. intros x Hx. specialize (Hc' x Hx).
          apply elem_of_union in Hc' as [->%elem_of_singleton|?]; done. }
        destruct (lo_disjoint _ _ _ HF a b a' b' s) as [<- <-]; [done..|]. rewrite decide_True by (by apply complete_spec). set_solver.
      * right. done.
    + intros [H|[[Hc Hno] HL]].
      * destruct (decide _) as [Hc|]; [|set_solver]. apply list_elem_of_singleton in H as [= -> ->]. rewrite complete_spec in Hc.
        split; [|done]. split; [set_solver|]. intros H. by apply Hnot, H.
      * rewrite complete_spec in Hno. split; [|done]. split; [done|]. intros H. apply Hno. set_solver.
Qed.

Lemma pushes_emit F L max max_buffered es P m :
  laid_out F L max -> Z.of_nat (size F) <= max_buffered -> held F L P m ->
  (forall p, p ∈ es -> F !! p.1 = Some p.2 /\ p.1 ∉ P) -> NoDup es.*1 ->
  omap id (fst (outputs (naive_step max max_buffered) (event_of <$> es) m))
    ≡ₚ omap (unit_at F) (completed L P (list_to_set es.*1 ∪ P)) /\
  held F L (list_to_set es.*1 ∪ P) (snd (outputs (naive_step max max_buffered) (event_of <$> es) m)).
Proof.
  intros HF Hroom. revert P m. induction es as [|[s v] es IH]; intros P m Hm Hes Hnd.
  { cbn. rewrite union_empty_l_L. split; [|done]. destruct (completed L P P) as [|ab l] eqn:E; [done|]. exfalso.
    assert (ab ∈ completed L P P) as Hx by (rewrite E; set_solver).
    unfold completed in Hx. apply list_elem_of_filter in Hx as [[H1 H2] _]. by apply H2. }
  apply list.NoDup_cons in Hnd as [Hs Hnd]. destruct (Hes (s, v)) as [Hv Hnot]; [set_solver|]. cbn [fst snd] in *.
  destruct (lo_cover _ _ _ HF s) as (a & b & Hab & Hin); [apply elem_of_dom; by eexists|].
  destruct (push_held F L max max_buffered HF Hroom P m s a b v) as (m' & Hpush & Hm'); [done..|]. cbv zeta in Hpush, Hm'.
  cbn [fmap list_fmap outputs]. change (naive_step max max_buffered (event_of (s, v)) m) with (naive_push max max_buffered s v.1 v.2 m). rewrite Hpush.
  specialize (IH _ _ Hm'). destruct (outputs _ (event_of <$> es) m') as [us m''] eqn:E. cbn [fst] in *.
  assert (list_to_set ((s, v).1 :: es.*1) ∪ P = list_to_set es.*1 ∪ ({[s]} ∪ P)) as EQ by set_solver.
  cbn [fst] in EQ. change (((s, v) :: es).*1) with (s :: es.*1). rewrite EQ.
  destruct IH as [IH IHm]; [|done|].
  { intros p Hp. destruct (Hes p) as [? ?]; [set_solver|]. split; [done|]. apply not_elem_of_union. split; [|done].
    intros Hps%elem_of_singleton. apply Hs, list_elem_of_fmap. by exists p. }
  split; [|by destruct (decide _)]. rewrite (completed_step F L max P _ s a b) by (done || set_solver).
  rewrite omap_app. destruct (decide (complete _ _)) as [Hc|Hc]; cbn; [|done]. destruct (unit_at F (a, b)); cbn; by rewrite IH.
Qed.

(** ** The layout of cut units *)

Abbreviation piece := (Z * bytes)%type (only parsing).

(** A unit's datagrams carry [FIRST] and [LAST] at its ends only. *)
Definition whole (ps : list piece) : Prop := ps <> [] /\ forall i p, ps !! i = Some p ->
  (Flags.contains p.1 Flags.FIRST = true <-> i = 0%nat) /\ (Flags.contains p.1 Flags.LAST = true <-> S i = length ps).

Fixpoint spread (base : Z) (pss : list (list piece)) : list (Z * Z) :=
  match pss with
  | [] => []
  | ps :: pss => (base, base + Z.of_nat (length ps) - 1) :: spread (base + Z.of_nat (length ps)) pss
  end.

Definition laid (base : Z) (pss : list (list piece)) : gmap Z piece := map_seqZ base (concat pss).

Lemma lookup_laid base pss s v : laid base pss !! s = Some v <-> base <= s /\ concat pss !! Z.to_nat (s - base) = Some v.
Proof. apply lookup_map_seqZ_Some. Qed.

Lemma laid_cons base ps pss s : let mid := base + Z.of_nat (length ps) in
  laid base (ps :: pss) !! s = if s <? mid then (map_seqZ base ps : gmap Z piece) !! s else laid mid pss !! s.
Proof.
  cbv zeta. unfold laid. cbn [concat]. rewrite map_seqZ_app. destruct (Z.ltb_spec s (base + Z.of_nat (length ps))).
  - rewrite lookup_union_l; [done|]. apply lookup_map_seqZ_None. by left.
  - rewrite lookup_union_r; [done|]. apply lookup_map_seqZ_None. by right.
Qed.

Lemma laid_head base ps s v : (map_seqZ base ps : gmap Z piece) !! s = Some v -> base <= s < base + Z.of_nat (length ps) /\ ps !! Z.to_nat (s - base) = Some v.
Proof. intros [? H]%lookup_map_seqZ_Some. split; [|done]. apply lookup_lt_Some in H. lia. Qed.

Lemma laid_ge base pss s : s ∈ dom (laid base pss) -> base <= s.
Proof. intros [v Hv]%elem_of_dom. by apply lookup_laid in Hv as []. Qed.

Lemma spread_ge base pss a b : Forall whole pss -> (a, b) ∈ spread base pss -> base <= a <= b.
Proof.
  intros H. revert base. induction H as [|ps pss [Hne _] _ IH]; intros base; cbn [spread]; [set_solver|].
  assert (0 < length ps)%nat by (destruct ps; [done|cbn; lia]).
  intros [[= -> ->]|Hin]%elem_of_cons; [lia|]. apply IH in Hin. lia.
Qed.

Lemma dom_head base ps pss s : s ∈ dom (laid base (ps :: pss)) <->
  base <= s < base + Z.of_nat (length ps) \/ s ∈ dom (laid (base + Z.of_nat (length ps)) pss).
Proof.
  rewrite !elem_of_dom, laid_cons. destruct (Z.ltb_spec s (base + Z.of_nat (length ps))) as [Hlt|Hge].
  - split; [intros [v []%laid_head]; by left|]. intros [Hs|Hd%elem_of_dom%laid_ge]; [|lia].
    destruct (lookup_lt_is_Some_2 ps (Z.to_nat (s - base))) as [v Hv]; [lia|]. exists v. apply lookup_map_seqZ_Some. split; [lia|done].
  - split; [by right|]. intros [?|?]; [lia|done].
Qed.

Lemma flagged_head base ps pss flag s : flagged (laid base (ps :: pss)) flag s <->
  (exists p, base <= s /\ ps !! Z.to_nat (s - base) = Some p /\ Flags.contains p.1 flag = true) \/
  flagged (laid (base + Z.of_nat (length ps)) pss) flag s.
Proof.
  unfold flagged. setoid_rewrite laid_cons. destruct (Z.ltb_spec s (base + Z.of_nat (length ps))) as [Hlt|Hge].
  - split.
    + intros (f & d & []%laid_head & ?). left. exists (f, d). split; [lia|done].
    + intros [([f d] & ? & ? & ?)|(f & d & Hl%elem_of_dom_2%laid_ge & _)]; [|lia].
      exists f, d. split; [|done]. by apply lookup_map_seqZ_Some.
  - split; [by right|]. intros [(p & ? & Hp%lookup_lt_Some & _)|?]; [lia|done].
Qed.

Lemma spread_laid base pss max : Forall whole pss -> Forall (fun ps => Z.of_nat (length ps) <= max) pss -> laid_out (laid base pss) (spread base pss) max.
Proof.
  intros Hw Hlen. revert base. induction Hw as [|ps pss Hwh Hw IH]; intros base.
  { assert (forall flag s, ~ flagged (laid base []) flag s) as Hno by (intros flag s (? & ? & []%lookup_laid & _); done).
    split; cbn [spread]; try set_solver; [..|constructor]. }
  apply Forall_cons_1 in Hlen as [Hl Hlen]. destruct (IH Hlen (base + Z.of_nat (length ps))) as [I1 I2 I3 I4 I5 I6 I7].
  pose proof (fun a b => spread_ge (base + Z.of_nat (length ps)) pss a b Hw) as Hge. cbn [spread]. destruct Hwh as [Hne Hfl].
  assert (0 < length ps)%nat by (destruct ps; [done|cbn; lia]). split.
  - intros a b [[= -> ->]|Hin]%elem_of_cons; [lia|by apply I1].
  - intros a b s [[= -> ->]|Hin]%elem_of_cons Hs; apply dom_head; [left; lia|right; by apply (I2 a b)].
  - intros s [Hs|(a & b & ? & ?)%I3]%dom_head; [|exists a, b; set_solver]. eexists _, _. split; [by apply elem_of_cons; left|lia].
  - intros a b a' b' s [[= -> ->]|Hin]%elem_of_cons [[= -> ->]|Hin']%elem_of_cons Hs Hs'; [done|..|by apply (I4 a b a' b' s)].
    + specialize (Hge _ _ Hin'). lia.
    + specialize (Hge _ _ Hin). lia.
  - intros s. rewrite flagged_head, I5. setoid_rewrite elem_of_cons. split.
    + intros [(p & Hs & Hp & Hf)|[b Hb]]; [|eexists; by right]. apply (Hfl _ _ Hp) in Hf. eexists. left. f_equal. lia.
    + intros [b [[= -> ->]|Hb]]; [left|right; by eexists]. destruct (lookup_lt_is_Some_2 ps 0) as [p Hp]; [done|].
      exists p. rewrite Z.sub_diag. split; [done|]. split; [done|]. by apply (Hfl _ _ Hp).
  - intros s. rewrite flagged_head, I6. setoid_rewrite elem_of_cons. split.
    + intros [(p & Hs & Hp & Hf)|[a Ha]]; [|eexists; by right]. apply (Hfl _ _ Hp) in Hf. eexists. left. f_equal. lia.
    + intros [a [[= -> ->]|Ha]]; [left|right; by eexists]. destruct (lookup_lt_is_Some_2 ps (length ps - 1)) as [p Hp]; [lia|].
      exists p. replace (Z.to_nat (base + Z.of_nat (length ps) - 1 - base)) with (length ps - 1)%nat by lia.
      split; [lia|]. split; [done|]. apply (Hfl _ _ Hp). lia.
  - apply list.NoDup_cons. split; [|done]. intros Hin. specialize (Hge _ _ Hin). lia.
Qed.

Lemma run_of_pieces (F : gmap Z piece) a ps : (forall i p, ps !! i = Some p -> F !! (a + Z.of_nat i) = Some p) ->
  omap (fun s => F !! s) (seqZ_incl a (a + Z.of_nat (length ps) - 1)) = ps.
Proof.
  unfold seqZ_incl. replace (a + Z.of_nat (length ps) - 1 - a + 1) with (Z.of_nat (length ps)) by lia.
  revert a. induction ps as [|p ps IH]; intros a H; [done|]. rewrite seqZ_cons by (cbn; lia). cbn [omap list_omap].
  specialize (H 0%nat p eq_refl) as H0. rewrite Z.add_0_r in H0. rewrite H0. f_equal. cbn [length].
  replace (Z.pred (Z.of_nat (S (length ps)))) with (Z.of_nat (length ps)) by lia. apply IH. intros i q Hq.
  specialize (H (S i) q Hq). by replace (Z.succ a + Z.of_nat i) with (a + Z.of_nat (S i)) by lia.
Qed.

(** ** Units sent and received *)

(** What [send_unit] is given. *)
Record Sent := mkSent { sent_unit : bytes; sent_timestamp : Z; sent_keyframe : bool }.
Definition sent_fragments (s : Sent) : list Fragment := fragment (sent_unit s) (sent_timestamp s) (sent_keyframe s).
Definition sent_pieces (s : Sent) : list piece := (fun f => (fr_flags f, concat (plaintext_parts f))) <$> sent_fragments s.

(** The datagrams of the units, numbered from [base], and the units a receiver should have. *)
Definition datagrams (base : Z) (ss : list Sent) : list RaEvent :=
  event_of <$> zip (seqZ base (Z.of_nat (length (concat (sent_pieces <$> ss))))) (concat (sent_pieces <$> ss)).
Fixpoint units_of (base : Z) (ss : list Sent) : list Unit :=
  match ss with
  | [] => []
  | s :: ss =>
      let next := base + Z.of_nat (length (sent_fragments s)) in
      mkUnit base (next - 1) (sent_timestamp s)
        (Z.lor (Z.lor (Flags.with_flag 0 Flags.KEYFRAME (sent_keyframe s)) Flags.FIRST) Flags.LAST) (sent_unit s)
      :: units_of next ss
  end.

(** A unit the sender lets through: its timestamp a [u32], its size within the receiver's limit. *)
Definition sendable (max_fragments : Z) (s : Sent) : Prop :=
  is_u32 (sent_timestamp s) /\ Z.of_nat (length (sent_unit s)) <= max_unit_bytes max_fragments.

Lemma pieces_length s : length (sent_pieces s) = length (sent_fragments s).
Proof. apply length_fmap. Qed.

Lemma pieces_whole s : whole (sent_pieces s).
Proof.
  destruct (fragment_spec (sent_unit s) (sent_timestamp s) (sent_keyframe s)) as (_ & (rest & Ht & _) & _ & _ & Hfl).
  unfold sent_pieces, sent_fragments. set (fs := fragment _ _ _) in *. split; [by destruct fs|].
  intros i p. rewrite list_lookup_fmap, length_fmap. destruct (fs !! i) as [f|] eqn:Hf; [|done]. intros [= <-]. cbn [fst].
  rewrite (Hfl _ _ Hf). unfold flags_at.
  destruct (sent_keyframe s), (decide (i = 0%nat)), (decide (S i = length fs)); split; split; (done || (intros; exfalso; done)).
Qed.

Lemma sendable_length max_fragments s : sendable max_fragments s -> Z.of_nat (length (sent_fragments s)) <= max_fragments.
Proof.
  intros [_ Hlen]. destruct (fragment_spec (sent_unit s) (sent_timestamp s) (sent_keyframe s)) as (_ & _ & _ & Hn & _).
  unfold sent_fragments. set (fs := fragment _ _ _) in *. unfold max_unit_bytes, TIMESTAMP_BYTES in *.
  assert (BODY_BYTES = Z.of_nat BODY) as EB by (vm_compute; done). rewrite EB in Hlen. pose proof BODY_pos. nia.
Qed.

(** The unit rebuilt from all its pieces. *)
Lemma unit_of_pieces s a b : is_u32 (sent_timestamp s) -> unit_of a b (sent_pieces s) = Some (mkUnit a b (sent_timestamp s)
  (Z.lor (Z.lor (Flags.with_flag 0 Flags.KEYFRAME (sent_keyframe s)) Flags.FIRST) Flags.LAST) (sent_unit s)).
Proof.
  intros Hts. destruct (fragment_spec (sent_unit s) (sent_timestamp s) (sent_keyframe s)) as (Hc & (rest & Ht & Hnone) & _ & _ & Hfl).
  assert (length (to_be_bytes 4 (sent_timestamp s)) = TIMESTAMP_BYTES) as Hl by apply length_to_be_bytes.
  assert (from_be_bytes (to_be_bytes 4 (sent_timestamp s)) = sent_timestamp s) as Hb.
  { rewrite from_to_be_bytes_mod, Z.mod_small; [done|]. by apply u32_bytes. }
  generalize dependent (to_be_bytes 4 (sent_timestamp s)). intros head Ht Hl Hb.
  unfold sent_pieces, sent_fragments. destruct (fragment _ _ _) as [|f fs]; [done|]. cbn [fmap list_fmap unit_of].
  rewrite fmap_cons in Ht. injection Ht as Hf Hfs. unfold plaintext_parts. rewrite Hf.
  change (default [] (Some ?x)) with x. cbn [concat]. rewrite app_nil_r.
  rewrite length_app, Hl. rewrite (proj2 (Nat.ltb_ge _ _)) by lia. rewrite take_app_length', drop_app_length' by done.
  rewrite Hb. f_equal. f_equal.
  - rewrite (Hfl 0%nat f eq_refl). unfold flags_at. rewrite decide_True by done. by destruct (decide _), (sent_keyframe s).
  - rewrite <- Hc. rewrite fmap_cons. cbn [concat]. f_equal. f_equal. clear - Hfs Hnone. subst rest. induction fs as [|g fs IH]; [done|].
    rewrite !fmap_cons in *. apply Forall_cons_1 in Hnone as [Hg Hnone]. rewrite <- Hg, IH by done. cbn. by rewrite app_nil_r.
Qed.

Lemma spread_units (F : gmap Z piece) base ss : Forall (fun s => is_u32 (sent_timestamp s)) ss ->
  (forall i p, concat (sent_pieces <$> ss) !! i = Some p -> F !! (base + Z.of_nat i) = Some p) ->
  omap (unit_at F) (spread base (sent_pieces <$> ss)) = units_of base ss.
Proof.
  intros Hts. revert base. induction Hts as [|s ss Hs _ IH]; intros base HF; [done|]. rewrite fmap_cons in *. cbn [spread omap list_omap units_of concat] in *.
  unfold unit_at at 1. cbn [fst snd]. rewrite (run_of_pieces F base (sent_pieces s)), unit_of_pieces, pieces_length; [|done|].
  - f_equal. apply IH. intros i p Hp. specialize (HF (length (sent_pieces s) + i)%nat p). rewrite pieces_length in HF.
    replace (base + Z.of_nat (length (sent_fragments s)) + Z.of_nat i) with (base + Z.of_nat (length (sent_fragments s) + i)) by lia.
    apply HF. by rewrite <- pieces_length, lookup_app_r, Nat.add_comm, Nat.add_sub by lia.
  - intros i p Hp. apply HF. by apply lookup_app_l_Some.
Qed.

Lemma fst_zip_seqZ {A} base (l : list A) : (zip (seqZ base (Z.of_nat (length l))) l).*1 = seqZ base (Z.of_nat (length l)).
Proof. apply fst_zip. rewrite length_seqZ. lia. Qed.

Lemma zip_seqZ_lookup {A} base (l : list A) p : p ∈ zip (seqZ base (Z.of_nat (length l))) l -> base <= p.1 < base + Z.of_nat (length l) /\
  l !! Z.to_nat (p.1 - base) = Some p.2.
Proof.
  destruct p as [s v]. cbn [fst snd]. intros (i & Hi)%list_elem_of_lookup_1. apply lookup_zip_Some in Hi as [Hs Hl]. apply lookup_seqZ in Hs as [-> Hi].
  split; [lia|]. by replace (Z.to_nat (base + Z.of_nat i - base)) with i by lia.
Qed.

(** Every laid out piece arrived: nothing is held, every unit complete. *)
Lemma all_arrived F L max m : laid_out F L max -> held F L (dom F) m -> m = ∅ /\ completed L ∅ (dom F) = L.
Proof.
  intros HF Hm. assert (forall ab, ab ∈ L -> complete (dom F) ab) as Hc.
  { intros [a b] Hab. apply complete_spec. intros s Hs. by apply (lo_in _ _ _ HF a b). }
  split.
  - apply map_eq. intros s. rewrite lookup_empty. destruct (m !! s) as [v|] eqn:E; [|done]. exfalso. apply Hm in E as (Hs & _ & Hno).
    destruct (lo_cover _ _ _ HF s) as (a & b & Hab & Hin); [apply elem_of_dom; by eexists|]. by apply (Hno _ Hab Hin), Hc.
  - unfold completed. assert (forall ab, ab ∈ L -> complete (dom F) ab /\ ~ complete ∅ ab) as Hall.
    { intros [a b] Hab. split; [by apply Hc|]. rewrite complete_spec. intros H. destruct (lo_unit _ _ _ HF _ _ Hab). specialize (H a). set_solver by lia. }
    clear - Hall. induction L as [|ab L IH]; [done|]. rewrite filter_cons_True by (apply Hall; set_solver). f_equal. apply IH. set_solver.
Qed.

(** C23: Cutting and reassembling are inverse, whatever the order of arrival: the datagrams of
    any units within the receiver's size limit, numbered one after the other, no more of them
    than its buffer takes, and delivered in any order, make a fresh reassembler give back
    every unit sent, byte for byte with its timestamp and flags, each exactly once, and leave
    it empty; and no datagram's payload exceeds its body. *)
Theorem cutting_and_reassembling_are_inverse (max_fragments base : Z) (ss : list Sent) (es : list RaEvent) :
  es ≡ₚ datagrams base ss -> Forall (sendable max_fragments) ss -> 1 <= max_fragments <= u32_max ->
  0 <= base -> base + Z.of_nat (length es) <= u32_max + 1 ->
  Z.of_nat (length es) <= ra_max_buffered (reassembler_new max_fragments) ->
  let '(us, r) := outputs ra_step es (reassembler_new max_fragments) in
  omap id us ≡ₚ units_of base ss /\ ra_fragments r = ∅ /\
  (forall seq flags plaintext, RaPushed seq flags plaintext ∈ es -> (length plaintext <= BODY)%nat).
Proof.
  intros Hperm Hss Hmax Hbase Hend Hroom. set (r0 := reassembler_new max_fragments) in *.
  set (pss := sent_pieces <$> ss). set (l := zip (seqZ base (Z.of_nat (length (concat pss)))) (concat pss)).
  assert (exists l', es = event_of <$> l' /\ l' ≡ₚ l) as (l' & -> & Hl').
  { destruct (Permutation_map_inv _ _ Hperm) as (l' & -> & ?). by exists l'. }
  assert (length (event_of <$> l') = length (concat pss)) as Elen.
  { rewrite length_fmap, Hl'. unfold l. rewrite length_zip, length_seqZ. lia. }
  rewrite Elen in *.
  assert (laid_out (laid base pss) (spread base pss) (ra_max_fragments r0)) as HF.
  { apply spread_laid; apply Forall_fmap; [apply Forall_true; apply pieces_whole|]. eapply Forall_impl; [|exact Hss].
    intros s Hs%sendable_length. change (Z.of_nat (length (sent_pieces s)) <= ra_max_fragments r0). rewrite pieces_length. unfold r0, reassembler_new, u32_max in *. cbn [ra_max_fragments]. lia. }
  assert (list_to_set l'.*1 = dom (laid base pss)) as Edom.
  { apply set_eq. intros s. rewrite elem_of_list_to_set, Hl'. unfold l. rewrite fst_zip_seqZ, elem_of_seqZ, elem_of_dom.
    split; [intros Hs; destruct (lookup_lt_is_Some_2 (concat pss) (Z.to_nat (s - base))) as [v Hv]; [lia|]; exists v; apply lookup_laid; split; [lia|done]|].
    intros [v [? Hv%lookup_lt_Some]%lookup_laid]. lia. }
  assert (forall p, p ∈ l' -> base <= p.1 < base + Z.of_nat (length (concat pss)) /\ laid base pss !! p.1 = Some p.2) as Hp.
  { intros p Hp. rewrite Hl' in Hp. apply zip_seqZ_lookup in Hp as [? ?]. split; [done|]. apply lookup_laid. split; [lia|done]. }
  destruct (outputs_ok (event_of <$> l') r0 (new_ok _)) as (Hn & _ & _).
  { apply Forall_fmap, Forall_lookup. intros i p Hi%list_elem_of_lookup_2. apply Hp in Hi as [? _]. cbn. unfold is_u32. lia. }
  destruct (pushes_emit (laid base pss) (spread base pss) (ra_max_fragments r0) (ra_max_buffered r0) l' ∅ ∅) as [Hu Hm].
  - done.
  - unfold laid. rewrite <- size_dom. enough (size (dom (laid base pss)) = length (concat pss)) as E by (unfold laid in E; lia).
    rewrite <- Edom, size_list_to_set; [|rewrite Hl'; unfold l; rewrite fst_zip_seqZ; apply NoDup_seqZ].
    rewrite length_fmap. by rewrite length_fmap in Elen.
  - intros s v. rewrite lookup_empty. set_solver.
  - intros p Hin. split; [by apply Hp|set_solver].
  - rewrite Hl'. unfold l. rewrite fst_zip_seqZ. apply NoDup_seqZ.
  - rewrite union_empty_r_L, Edom in Hu, Hm. change (ra_fragments r0) with (∅ : gmap Z piece) in Hn. rewrite Hn in Hu, Hm.
    destruct (outputs ra_step _ r0) as [us r]. cbn [fst snd] in *. destruct (all_arrived _ _ _ _ HF Hm) as [? EL]. rewrite EL in Hu.
    split; [|split; [done|]].
    + rewrite Hu. unfold pss. rewrite spread_units; [done| |].
      * eapply Forall_impl; [|exact Hss]. by intros s [].
      * intros i p Hi. apply lookup_laid. split; [lia|]. by replace (Z.to_nat (base + Z.of_nat i - base)) with i by lia.
    + intros seq flags plaintext [p [[= -> -> ->] Hin]]%list_elem_of_fmap. apply Hp in Hin as [_ [_ Hin]%lookup_laid].
      apply list_elem_of_lookup_2, list_elem_of_In, in_concat in Hin as (ps & (s & -> & _)%list_elem_of_In%list_elem_of_fmap & Hin).
      apply list_elem_of_In, list_elem_of_fmap in Hin as (f & Ef & Hf). rewrite Ef. cbn.
      destruct (fragment_spec (sent_unit s) (sent_timestamp s) (sent_keyframe s)) as (_ & _ & Hb & _).
      apply list_elem_of_lookup in Hf as [i Hf]. exact (proj1 (Forall_lookup _ _) Hb i f Hf).
Qed.

(** A keyframe of three datagrams and a small unit after it, delivered backwards. *)
Definition example_units : list Sent := [mkSent (replicate 2500 7) 90 true; mkSent [1; 2] 3090 false].
Lemma cutting_and_reassembling_are_inverse_witness :
  length (datagrams 10 example_units) = 4%nat /\
  omap id (fst (outputs ra_step (rev (datagrams 10 example_units)) (reassembler_new 8))) ≡ₚ units_of 10 example_units.
Proof.
  split; [vm_compute; reflexivity|].
  pose proof (cutting_and_reassembling_are_inverse 8 10 example_units (rev (datagrams 10 example_units))) as H.
  destruct (outputs ra_step _ _) as [us r]. apply H.
  - symmetry. apply Permutation_rev.
  - repeat constructor; apply Z.leb_le; vm_compute; reflexivity.
  - by vm_compute.
  - done.
  - apply Z.leb_le. vm_compute. reflexivity.
  - apply Z.leb_le. vm_compute. reflexivity.
Defined.
