(* ===== verification/Reorder.v ===== *)
(** * Units in order (throcc-client-core, media/reorder.rs)

    Emits the units of a video track in [seq] order, and waits a bounded time for one that
    is missing.  An [Instant] is a number of milliseconds. *)
From S2P Require Import Prelude Ordered Ids Frame Fragment.
Open Scope Z_scope.

(* @src/crates/throcc-client-core/src/media/reorder.rs 6-6 REORDER_WINDOW *)
Definition REORDER_WINDOW : Z := 50.
(* @src/crates/throcc-client-core/src/media/reorder.rs 7-7 MAX_WAITING *)
Definition MAX_WAITING : Z := 256.

(* @src/crates/throcc-client-core/src/media/reorder.rs 9-18 Output *)
Inductive Output := OutUnit (u : Unit) | Abandoned (from : Z) | Late.

(* @src/crates/throcc-client-core/src/media/reorder.rs 20-26 Reorder *)
Record Reorder := mkReorder { ro_next : option Z; ro_waiting : gmap Z Unit; ro_gap_since : option Z }.
Definition reorder_default : Reorder := mkReorder None ∅ None.

(** The [while let] loop; every round but the last takes a waiting unit out. *)
(* @src/crates/throcc-client-core/src/media/reorder.rs 50-64! Reorder::poll *)
Fixpoint poll_rounds (fuel : nat) (now : Z) (r : Reorder) : list Output * Reorder :=
  match fuel with
  | O => ([], r)
  | S fuel =>
      match first_key_value (ro_waiting r) with
      | None => ([], r)
      | Some (first, unit) =>
          let next := default first (ro_next r) in
          let since := default now (ro_gap_since r) in
          if (next <? first) && (now <? since + REORDER_WINDOW)
          then ([], mkReorder (ro_next r) (ro_waiting r) (Some since))
          else
            let '(out, r) := poll_rounds fuel now
                               (mkReorder (checked_add32 (un_last_seq unit) 1) (delete first (ro_waiting r)) None) in
            ((if next <? first then [Abandoned next] else []) ++ OutUnit unit :: out, r)
      end
  end.

(* @src/crates/throcc-client-core/src/media/reorder.rs 47-66 Reorder::poll *)
Definition reorder_poll (now : Z) (r : Reorder) : list Output * Reorder := poll_rounds (S (size (ro_waiting r))) now r.

(* @src/crates/throcc-client-core/src/media/reorder.rs 42-45 Reorder::deadline *)
Definition reorder_deadline (r : Reorder) : option Z := (fun since => since + REORDER_WINDOW) <$> ro_gap_since r.

(** [waiting.pop_first()]. *)
Definition drop_first {A} (m : gmap Z A) : gmap Z A := match first_key_value m with Some (k, _) => delete k m | None => m end.

(* @src/crates/throcc-client-core/src/media/reorder.rs 29-40 Reorder::push *)
Definition reorder_push (unit : Unit) (now : Z) (r : Reorder) : list Output * Reorder :=
  let late := match ro_next r with Some next => un_last_seq unit <? next | None => false end in
  if late then ([Late], r) else
  let next := match ro_next r with None => Some (un_first_seq unit) | some => some end in
  let waiting := if MAX_WAITING <=? Z.of_nat (size (ro_waiting r)) then drop_first (ro_waiting r) else ro_waiting r in
  reorder_poll now (mkReorder next (<[un_first_seq unit := unit]> waiting) (ro_gap_since r)).

(** ** The loop ends, and leaves nothing to do *)

(** No unit waits, or one waits behind a gap whose time has not run out. *)
Definition settled (now : Z) (r : Reorder) : Prop :=
  match first_key_value (ro_waiting r) with
  | None => True
  | Some (first, _) => exists next since, ro_next r = Some next /\ next < first /\ ro_gap_since r = Some since /\ now < since + REORDER_WINDOW
  end.

Lemma size_delete_first {A} (m : gmap Z A) k v : first_key_value m = Some (k, v) -> size m = S (size (delete k m)).
Proof. intros [Hk _]%first_key_value_Some. rewrite map_size_delete_Some by (by eexists). assert (size m <> 0%nat); [|lia]. intros E%map_size_empty_inv. subst m. by rewrite lookup_empty in Hk. Qed.

(** More rounds than units change nothing: the loop has ended. *)
Lemma poll_rounds_end fuel now r : (size (ro_waiting r) < fuel)%nat ->
  poll_rounds fuel now r = reorder_poll now r /\ settled now (snd (poll_rounds fuel now r)).
Proof.
  unfold reorder_poll. revert r. induction fuel as [|fuel IH]; intros r Hf; [lia|]. cbn [poll_rounds]. unfold settled.
  destruct (first_key_value (ro_waiting r)) as [[first u]|] eqn:E; [|by cbn [snd]; rewrite E].
  destruct (ro_next r) as [next|] eqn:En; cbn [default from_option id].
  - destruct (Z.ltb_spec next first) as [Hlt|Hge]; cbn [andb].
    + destruct (Z.ltb_spec now (default now (ro_gap_since r) + REORDER_WINDOW)) as [Hw|Hw].
      * cbn [snd ro_waiting]. rewrite E. split; [done|]. by eexists _, _.
      * apply size_delete_first in E as Es. set (r' := mkReorder _ _ _). destruct (IH r') as [Ea Hs]; [cbn; lia|].
        destruct (IH r') as [_ _]; [cbn; lia|]. rewrite Es. change (S (size (delete first (ro_waiting r)))) with (S (size (ro_waiting r'))).
        rewrite <- Ea. split; [done|]. by destruct (poll_rounds fuel now r').
    + apply size_delete_first in E as Es. set (r' := mkReorder _ _ _). destruct (IH r') as [Ea Hs]; [cbn; lia|].
      rewrite Es. change (S (size (delete first (ro_waiting r)))) with (S (size (ro_waiting r'))).
      rewrite <- Ea. split; [done|]. by destruct (poll_rounds fuel now r').
  - rewrite Z.ltb_irrefl. cbn [andb]. apply size_delete_first in E as Es. set (r' := mkReorder _ _ _). destruct (IH r') as [Ea Hs]; [cbn; lia|].
    rewrite Es. change (S (size (delete first (ro_waiting r)))) with (S (size (ro_waiting r'))).
    rewrite <- Ea. split; [done|]. by destruct (poll_rounds fuel now r').
Qed.

(** ** Order *)

(** Two units of different datagrams. *)
Definition apart (u v : Unit) : Prop := un_last_seq u < un_first_seq v \/ un_last_seq v < un_first_seq u.
Definition unit_ok (u : Unit) : Prop := 0 <= un_first_seq u <= un_last_seq u /\ un_last_seq u < u32_max.
Definition precedes (u v : Unit) : Prop := un_last_seq u < un_first_seq v.

Lemma apart_sym u v : apart u v -> apart v u.
Proof. unfold apart. tauto. Qed.

Definition units_in (out : list Output) : list Unit := omap (fun o => match o with OutUnit u => Some u | _ => None end) out.

(** What was emitted so far, what waits, and what is still to come. *)
Record ro_ok (emitted future : list Unit) (r : Reorder) : Prop := {
  ro_sorted : StronglySorted precedes emitted;
  ro_keys : forall k w, ro_waiting r !! k = Some w -> un_first_seq w = k /\ unit_ok w;
  ro_apart : forall k w k' w', ro_waiting r !! k = Some w -> ro_waiting r !! k' = Some w' -> k <> k' -> apart w w';
  ro_future : forall k w u, ro_waiting r !! k = Some w -> u ∈ future -> apart w u;
  ro_ahead : forall n, ro_next r = Some n ->
    (forall e, e ∈ emitted -> un_last_seq e < n) /\ (forall k w, ro_waiting r !! k = Some w -> n <= k) /\
    (forall u, u ∈ future -> n <= un_last_seq u -> n <= un_first_seq u);
  ro_fresh : ro_next r = None -> ro_waiting r = ∅ /\ emitted = [];
  ro_past : forall u, u ∈ emitted -> unit_ok u
}.

Lemma sorted_snoc l u : StronglySorted precedes l -> (forall e, e ∈ l -> precedes e u) -> StronglySorted precedes (l ++ [u]).
Proof.
  induction l as [|e l IH]; intros Hs Hall; [repeat constructor|]. apply StronglySorted_inv in Hs as [Hs He]. cbn [app]. constructor.
  - apply IH; [done|]. intros x Hx. apply Hall. set_solver.
  - apply Forall_app. split; [done|]. repeat constructor. apply Hall. set_solver.
Qed.

(** Emitting the first waiting unit. *)
Lemma emit_ok emitted future r first u gap : ro_ok emitted future r -> first_key_value (ro_waiting r) = Some (first, u) ->
  ro_ok (emitted ++ [u]) future (mkReorder (checked_add32 (un_last_seq u) 1) (delete first (ro_waiting r)) gap).
Proof.
  intros [Hs Hk Ha Hf Hn Hfr Hp] [Hu Hmin]%first_key_value_Some. destruct (Hk _ _ Hu) as [Ek [Hu1 Hu2]].
  assert (checked_add32 (un_last_seq u) 1 = Some (un_last_seq u + 1)) as -> by (unfold checked_add32; by rewrite (proj2 (Z.leb_le _ _)) by lia).
  destruct (ro_next r) as [n|] eqn:En; [|destruct (Hfr eq_refl) as [E _]; by rewrite E, lookup_empty in Hu].
  destruct (Hn n eq_refl) as (Hn1 & Hn2 & Hn3). assert (n <= first) by (by apply (Hn2 _ u)).
  assert (forall k w, ro_waiting r !! k = Some w -> k <> first -> un_last_seq u < k) as Hafter.
  { intros k w Hw Hne. destruct (Hk _ _ Hw) as [Ew [Hw1 _]]. assert (first <= k) by (apply Hmin; by eexists).
    destruct (Ha _ _ _ _ Hu Hw (not_eq_sym Hne)); lia. }
  split; cbn [ro_waiting ro_next].
  - apply sorted_snoc; [done|]. intros e He. unfold precedes. specialize (Hn1 e He). lia.
  - intros k w [_ Hw]%lookup_delete_Some. by apply Hk.
  - intros k w k' w' [_ Hw]%lookup_delete_Some [_ Hw']%lookup_delete_Some. by apply Ha.
  - intros k w v [_ Hw]%lookup_delete_Some. by apply (Hf k).
  - intros m Em; injection Em as <-. split; [|split].
    + intros e [He|He%list_elem_of_singleton]%elem_of_app; [|subst e; lia]. specialize (Hn1 e He). lia.
    + intros k w [Hne Hw]%lookup_delete_Some. specialize (Hafter k w Hw (not_eq_sym Hne)). lia.
    + intros v Hv Hle. destruct (Hf _ _ _ Hu Hv); lia.
  - done.
  - intros v [Hv|Hv%list_elem_of_singleton]%elem_of_app; [by apply Hp|by subst v].
Qed.

Lemma gap_change emitted future r gap : ro_ok emitted future r -> ro_ok emitted future (mkReorder (ro_next r) (ro_waiting r) gap).
Proof. by intros []. Qed.

Lemma poll_order fuel now emitted future r : ro_ok emitted future r ->
  let '(out, r') := poll_rounds fuel now r in
  ro_ok (emitted ++ units_in out) future r' /\ (forall u, u ∈ units_in out -> exists k, ro_waiting r !! k = Some u) /\
  (forall k u, ro_waiting r' !! k = Some u -> ro_waiting r !! k = Some u).
Proof.
  revert emitted r. induction fuel as [|fuel IH]; intros emitted r Hok; cbn [poll_rounds].
  { rewrite app_nil_r. split; [done|]. split; [set_solver|done]. }
  destruct (first_key_value (ro_waiting r)) as [[first u]|] eqn:E; [|rewrite app_nil_r; split; [done|]; split; [set_solver|done]].
  destruct (_ && _).
  { rewrite app_nil_r. split; [by apply gap_change|]. split; [set_solver|done]. }
  set (r1 := mkReorder _ (delete _ _) _). specialize (IH (emitted ++ [u]) r1 (emit_ok _ _ _ _ _ _ Hok E)).
  change (ro_waiting r1) with (delete first (ro_waiting r)) in IH.
  destruct (poll_rounds fuel now r1) as [out r'].
  assert (units_in ((if default first (ro_next r) <? first then [Abandoned (default first (ro_next r))] else []) ++ OutUnit u :: out) = u :: units_in out) as Eu
    by (by destruct (_ <? _)).
  apply first_key_value_Some in E as [Hu _]. rewrite Eu. rewrite <- app_assoc in IH. destruct IH as (? & Hin & Hsub). split; [done|]. split.
  - intros v [->|Hv%Hin]%elem_of_cons; [by exists first|]. destruct Hv as [k [_ Hv]%lookup_delete_Some]. by exists k.
  - intros k v Hv%Hsub. by apply lookup_delete_Some in Hv as [].
Qed.

(** ** Runs of the queue *)

Inductive RoEvent := RoPushed (u : Unit) (now : Z) | RoPolled (now : Z).
Definition ro_step (e : RoEvent) (r : Reorder) : list Output * Reorder :=
  match e with RoPushed u now => reorder_push u now r | RoPolled now => reorder_poll now r end.
Fixpoint ro_run (es : list RoEvent) (r : Reorder) : list Output * Reorder :=
  match es with
  | [] => ([], r)
  | e :: es => let '(out, r) := ro_step e r in let '(out', r) := ro_run es r in (out ++ out', r)
  end.
Definition pushed_units (es : list RoEvent) : list Unit := omap (fun e => match e with RoPushed u _ => Some u | _ => None end) es.

Lemma drop_first_sub {A} (m : gmap Z A) k v : drop_first m !! k = Some v -> m !! k = Some v.
Proof. unfold drop_first. destruct (first_key_value m) as [[j w]|]; [|done]. by intros [_ ?]%lookup_delete_Some. Qed.

Lemma insert_waiting_ok emitted u future r waiting : ro_ok emitted (u :: future) r -> unit_ok u -> Forall (apart u) future ->
  (forall k w, waiting !! k = Some w -> ro_waiting r !! k = Some w) ->
  (match ro_next r with Some next => un_last_seq u <? next | None => false end) = false ->
  ro_ok emitted future (mkReorder (match ro_next r with None => Some (un_first_seq u) | some => some end)
                                  (<[un_first_seq u := u]> waiting) (ro_gap_since r)).
Proof.
  intros [Hs Hk Ha Hf Hn Hfr Hp] Hu Hall Hsub Hlate.
  assert (forall v, v ∈ future -> apart u v) as Huf by (intros v [i Hv]%list_elem_of_lookup; exact (proj1 (Forall_lookup _ _) Hall i v Hv)).
  split; cbn [ro_waiting ro_next]; try done.
  - intros k w [[<- <-]|[_ Hw%Hsub]]%lookup_insert_Some; [done|by apply Hk].
  - intros k w k' w' [[<- <-]|[? Hw%Hsub]]%lookup_insert_Some [[<- <-]|[? Hw'%Hsub]]%lookup_insert_Some Hne; [done|..|by apply (Ha k w k' w')].
    + apply apart_sym, (Hf k' w'); [done|set_solver].
    + apply (Hf k w); [done|set_solver].
  - intros k w v [[<- <-]|[? Hw%Hsub]]%lookup_insert_Some Hv; [by apply Huf|]. apply (Hf k w); [done|set_solver].
  - destruct (ro_next r) as [n|] eqn:En.
    + intros m Em; injection Em as <-. destruct (Hn n eq_refl) as (H1 & H2 & H3). apply Z.ltb_ge in Hlate. split; [done|]. split.
      * intros k w [[<- <-]|[_ Hw%Hsub]]%lookup_insert_Some; [apply H3; [set_solver|done]|by apply (H2 k w)].
      * intros v Hv. apply H3. set_solver.
    + intros m Em; injection Em as <-. destruct (Hfr eq_refl) as [E ->]. split; [set_solver|]. split.
      * intros k w [[<- <-]|[_ Hw%Hsub]]%lookup_insert_Some; [lia|]. by rewrite E, lookup_empty in Hw.
      * intros v Hv Hle. destruct (Huf v Hv); unfold unit_ok in *; lia.
  - by destruct (ro_next r).
Qed.

Lemma run_order es emitted r : ro_ok emitted (pushed_units es) r -> Forall unit_ok (pushed_units es) -> ForallOrdPairs apart (pushed_units es) ->
  StronglySorted precedes (emitted ++ units_in (fst (ro_run es r))) /\
  (forall u, u ∈ units_in (fst (ro_run es r)) -> u ∈ pushed_units es \/ exists k, ro_waiting r !! k = Some u).
Proof.
  revert emitted r. induction es as [|e es IH]; intros emitted r Hok Hu Hd.
  { cbn. rewrite app_nil_r. split; [apply (ro_sorted _ _ _ Hok)|set_solver]. }
  assert (forall r1 future P, ro_ok emitted future r1 -> future = pushed_units es ->
    Forall unit_ok (pushed_units es) -> ForallOrdPairs apart (pushed_units es) ->
    (forall k w, ro_waiting r1 !! k = Some w -> P w \/ exists k, ro_waiting r !! k = Some w) ->
    let '(out, r2) := reorder_poll (match e with RoPushed _ now | RoPolled now => now end) r1 in
    StronglySorted precedes (emitted ++ units_in (out ++ fst (ro_run es r2))) /\
    (forall u, u ∈ units_in (out ++ fst (ro_run es r2)) -> P u \/ u ∈ pushed_units es \/ exists k, ro_waiting r !! k = Some u)) as Hpoll.
  { intros r1 future P Hok1 -> Hu1 Hd1 Hw1. pose proof (poll_order (S (size (ro_waiting r1))) (match e with RoPushed _ now | RoPolled now => now end) emitted _ r1 Hok1) as Hp.
    unfold reorder_poll. destruct (poll_rounds _ _ r1) as [out r2]. destruct Hp as (Hok2 & Hin & Hsub).
    destruct (IH _ r2 Hok2 Hu1 Hd1) as [Hs He]. unfold units_in in *. rewrite omap_app, app_assoc. split; [done|].
    intros u [Hx|Hx]%elem_of_app.
    - destruct (Hin _ Hx) as [k Hk]. destruct (Hw1 _ _ Hk); [by left|by right; right].
    - destruct (He _ Hx) as [?|[k Hk%Hsub]]; [by right; left|]. destruct (Hw1 _ _ Hk); [by left|by right; right]. }
  destruct e as [u now|now]; cbn [ro_run ro_step pushed_units omap list_omap] in *.
  - apply Forall_cons_1 in Hu as [Hu Hus]. inversion Hd as [|? ? Hd1 Hd2]; subst. unfold reorder_push.
    destruct (match ro_next r with Some next => un_last_seq u <? next | None => false end) eqn:El.
    + assert (ro_ok emitted (pushed_units es) r) as Hok'.
      { destruct Hok as [H1 H2 H3 H4 H5 H6 H7]. split; try done; [intros k w v Hw Hv; apply (H4 k w v); [done|set_solver]|].
        intros n Hn. destruct (H5 n Hn) as (? & ? & H53). split; [done|]. split; [done|]. intros v Hv. apply H53. set_solver. }
      destruct (IH _ r Hok' Hus Hd2) as [Hs He]. destruct (ro_run es r) as [out' r']. cbn. split; [done|].
      intros v Hv. destruct (He v Hv); [left; set_solver|by right].
    + set (r1 := mkReorder _ _ _). specialize (Hpoll r1 _ (fun v => v = u) ltac:(apply (insert_waiting_ok emitted u); [done|done|done| |done]; 
        intros k w; destruct (_ <=? _); [apply drop_first_sub|done]) eq_refl Hus Hd2).
      cbv beta in Hpoll. destruct (reorder_poll now r1) as [out r2]. destruct Hpoll as [Hs He].
      { intros k w Hw. unfold r1 in Hw. cbn [ro_waiting] in Hw. apply lookup_insert_Some in Hw as [[_ <-]|[_ Hw]]; [by left|]. right. exists k. destruct (_ <=? _); [by apply drop_first_sub in Hw|done]. }
      destruct (ro_run es r2) as [out' r']. split; [done|]. intros v [->|[?|?]]%He; [left; set_solver|left; set_solver|by right].
  - specialize (Hpoll r _ (fun _ => False) Hok eq_refl Hu Hd). destruct (reorder_poll now r) as [out r2]. destruct Hpoll as [Hs He].
    { intros k w Hw. right. by exists k. }
    destruct (ro_run es r2) as [out' r']. split; [done|]. intros v [[]|[?|?]]%He; [by left|by right].
Qed.

(** The queue emits units in order: of units of different datagrams, pushed in any order
    at any times and with polls between them, the units emitted, which are all among those
    pushed, follow each other strictly, so no datagram is played twice and none after a later
    one.  (The last [seq] of all is never sent, see [Sealer].) *)
Theorem reorder_emits_in_order (es : list RoEvent) :
  Forall unit_ok (pushed_units es) -> ForallOrdPairs apart (pushed_units es) ->
  let emitted := units_in (fst (ro_run es reorder_default)) in
  StronglySorted precedes emitted /\ (forall u, u ∈ emitted -> u ∈ pushed_units es).
Proof.
  intros Hu Hd. assert (ro_ok [] (pushed_units es) reorder_default) as Hok.
  { split; cbn; try done; [constructor|..]; intros; try (by rewrite lookup_empty in *); set_solver. }
  destruct (run_order es [] _ Hok Hu Hd) as [Hs Hin]. split; [done|]. intros u [?|[k Hk]]%Hin; [done|]. cbn in Hk. by rewrite lookup_empty in Hk.
Qed.

Lemma reorder_emits_in_order_witness :
  let u first last := mkUnit first last first 6 [] in
  let es := [RoPushed (u 3 4) 0; RoPushed (u 9 9) 10; RoPushed (u 5 7) 20; RoPolled 70; RoPushed (u 8 8) 80; RoPushed (u 10 12) 90] in
  fst (ro_run es reorder_default) = [OutUnit (u 3 4); OutUnit (u 5 7); Abandoned 8; OutUnit (u 9 9); Late; OutUnit (u 10 12)] /\
  StronglySorted precedes (units_in (fst (ro_run es reorder_default))).
Proof.
  intros u es. split; [vm_compute; reflexivity|]. apply (reorder_emits_in_order es).
  - repeat constructor; cbn; unfold u32_max; lia.
  - repeat constructor; unfold apart; cbn; lia.
Defined.

(** ** Waiting *)

(** A wait is running exactly when a unit waits, and it started in the past. *)
Definition gap_ok (now : Z) (r : Reorder) : Prop :=
  match ro_gap_since r with None => ro_waiting r = ∅ | Some since => since <= now /\ ro_waiting r <> ∅ end.

Lemma poll_gap fuel now r : (size (ro_waiting r) < fuel)%nat -> (forall since, ro_gap_since r = Some since -> since <= now) ->
  (ro_waiting r = ∅ -> ro_gap_since r = None) ->
  let '(out, r') := poll_rounds fuel now r in
  match ro_gap_since r' with
  | None => ro_waiting r' = ∅
  | Some since => since <= now < since + REORDER_WINDOW /\ ro_waiting r' <> ∅
  end /\ (size (ro_waiting r') <= size (ro_waiting r))%nat.
Proof.
  revert r. induction fuel as [|fuel IH]; intros r Hf Hg He; [lia|]. cbn [poll_rounds].
  destruct (first_key_value (ro_waiting r)) as [[first u]|] eqn:E.
  2:{ apply first_key_value_None in E. rewrite (He E). done. }
  destruct (_ && _) eqn:Eb.
  - apply andb_prop in Eb as [_ Hw%Z.ltb_lt]. cbn. split; [|done]. split.
    + destruct (ro_gap_since r) as [s|] eqn:Es; cbn in *; [specialize (Hg s eq_refl)|unfold REORDER_WINDOW]; lia.
    + intros Em. rewrite Em in E. by rewrite (proj2 (first_key_value_None (∅ : gmap Z Unit))) in E.
  - apply size_delete_first in E. set (r1 := mkReorder _ (delete _ _) _). specialize (IH r1). cbn in IH.
    specialize (IH ltac:(lia) ltac:(done) ltac:(done)). destruct (poll_rounds fuel now r1) as [out r']. split; [tauto|lia].
Qed.

Definition event_time (e : RoEvent) : Z := match e with RoPushed _ now | RoPolled now => now end.

Lemma step_gap e t r : gap_ok t r -> t <= event_time e -> gap_ok (event_time e) (snd (ro_step e r)).
Proof.
  intros Hg Ht. assert (forall r, (forall since, ro_gap_since r = Some since -> since <= event_time e) -> (ro_waiting r = ∅ -> ro_gap_since r = None) ->
    gap_ok (event_time e) (snd (reorder_poll (event_time e) r))) as Hpoll.
  { intros r0 H1 H2. unfold reorder_poll. pose proof (poll_gap (S (size (ro_waiting r0))) (event_time e) r0 ltac:(lia) H1 H2) as H.
    destruct (poll_rounds _ _ r0) as [out r']. destruct H as [H _]. unfold gap_ok. cbn. destruct (ro_gap_since r'); [|done]. split; [lia|tauto]. }
  assert (forall since, ro_gap_since r = Some since -> since <= event_time e) as Hsince.
  { unfold gap_ok in Hg. destruct (ro_gap_since r); [|done]. intros since [= <-]. lia. }
  destruct e as [u now|now]; cbn [ro_step event_time] in *.
  - unfold reorder_push. destruct (match ro_next r with Some _ => _ | None => _ end); cbn [snd].
    + unfold gap_ok in *. destruct (ro_gap_since r); [|done]. split; [lia|tauto].
    + apply Hpoll; cbn; [done|]. intros Em. exfalso. by apply insert_non_empty in Em.
  - apply Hpoll; [done|]. unfold gap_ok in Hg. destruct (ro_gap_since r); [|done]. intros. tauto.
Qed.

Fixpoint last_time (t : Z) (es : list RoEvent) : Z := match es with [] => t | e :: es => last_time (event_time e) es end.
Lemma run_gap es t r : gap_ok t r -> StronglySorted Z.le (t :: (event_time <$> es)) -> gap_ok (last_time t es) (snd (ro_run es r)).
Proof.
  revert t r. induction es as [|e es IH]; intros t r Hg Hs; [done|]. rewrite fmap_cons in Hs. apply StronglySorted_inv in Hs as [Hs Ht].
  apply Forall_cons_1 in Ht as [Ht _]. pose proof (step_gap e t r Hg Ht) as Hg'. cbn [ro_run last_time].
  destruct (ro_step e r) as [out r']. specialize (IH _ r' Hg' Hs). by destruct (ro_run es r').
Qed.

(** No unit waits for ever, and none is held up by a gap for longer than [REORDER_WINDOW]:
    after any run whose clock does not go back, a poll ends after at most as many rounds as
    units wait, emits something if its deadline has come, and then either nothing waits and
    no deadline is set, or the next deadline is ahead, within [REORDER_WINDOW]. *)
Theorem reorder_waits_boundedly (es : list RoEvent) (now : Z) :
  StronglySorted Z.le (0 :: (event_time <$> es)) -> last_time 0 es <= now ->
  let r := snd (ro_run es reorder_default) in
  let '(out, r') := reorder_poll now r in
  (forall fuel, (size (ro_waiting r) < fuel)%nat -> poll_rounds fuel now r = (out, r')) /\
  (forall at_, reorder_deadline r = Some at_ -> at_ <= now -> units_in out <> []) /\
  match reorder_deadline r' with
  | None => ro_waiting r' = ∅
  | Some at_ => now < at_ <= now + REORDER_WINDOW /\ ro_waiting r' <> ∅
  end.
Proof.
  intros Hs Hnow r. assert (gap_ok (last_time 0 es) r) as Hg by (by apply run_gap). destruct (reorder_poll now r) as [out r'] eqn:E.
  split; [intros fuel Hf; rewrite <- E; by apply poll_rounds_end|]. split.
  - intros at_ Hat Hle. unfold reorder_deadline in Hat. unfold gap_ok in Hg. destruct (ro_gap_since r) as [since|] eqn:Es; [|done].
    injection Hat as <-. destruct Hg as [_ Hne]. unfold reorder_poll in E. cbn [poll_rounds] in E. rewrite Es in E. cbn [default from_option id] in E.
    destruct (first_key_value (ro_waiting r)) as [[first u]|] eqn:Ef; [|by apply first_key_value_None in Ef].
    rewrite (proj2 (Z.ltb_ge now _)), andb_false_r in E by lia. destruct (poll_rounds _ _ _) as [o r2].
    injection E as <- _. by destruct (_ <? _).
  - unfold reorder_poll in E. pose proof (poll_gap (S (size (ro_waiting r))) now r ltac:(lia)) as Hp. rewrite E in Hp.
    unfold gap_ok in Hg. unfold reorder_deadline. destruct Hp as [Hp _].
    + intros since Hsince. rewrite Hsince in Hg. lia.
    + intros Hem. destruct (ro_gap_since r); [tauto|done].
    + destruct (ro_gap_since r') as [since|]; cbn; [|done]. split; [lia|tauto].
Qed.

Lemma reorder_waits_boundedly_witness :
  let u first last := mkUnit first last first 6 [] in
  let es := [RoPushed (u 3 4) 0; RoPushed (u 9 9) 10; RoPushed (u 12 12) 30] in
  reorder_deadline (snd (ro_run es reorder_default)) = Some 60 /\
  fst (reorder_poll 60 (snd (ro_run es reorder_default))) = [Abandoned 5; OutUnit (u 9 9)] /\
  units_in (fst (reorder_poll 60 (snd (ro_run es reorder_default)))) <> [].
Proof.
  intros u es. assert (reorder_deadline (snd (ro_run es reorder_default)) = Some 60) as Hd by (vm_compute; reflexivity).
  split; [done|]. split; [vm_compute; reflexivity|].
  pose proof (reorder_waits_boundedly es 60 ltac:(unfold es; cbn; repeat constructor; lia) ltac:(cbn; lia)) as H. cbv zeta in H.
  destruct (reorder_poll 60 _) as [out r']. cbn [fst]. destruct H as (_ & H & _). apply (H 60 Hd). lia.
Defined.
