(* ===== verification/Float64.v ===== *)
(** * Arithmetic of the rate limiters

    The limiters count in [f64].  [Arith] is the interface they use, [f64] implements it
    with the Standard Library's executable IEEE 754 binary64 ([SpecFloat], round to nearest
    even), and [Qc] with exact rationals, for the statements that hold up to rounding.
    [ArithLaws] are the laws both satisfy. *)
From Stdlib Require Import SpecFloat QArith Qcanon.
From S2P Require Import Prelude.
Open Scope Z_scope.

Class Arith (F : Type) := {
  a_add : F -> F -> F;
  a_sub : F -> F -> F;
  a_mul : F -> F -> F;
  a_div : F -> F -> F;
  (** [f64::min], [<=], a conversion of an unsigned integer, [Duration::as_secs_f64]. *)
  a_min : F -> F -> F;
  a_leb : F -> F -> bool;
  a_of_Z : Z -> F;
  a_secs : Z -> F;
  (** A rate is finite and not negative, a capacity finite and positive. *)
  a_rate_ok : F -> bool;
  a_cap_ok : F -> bool
}.

Class ArithLaws (F : Type) `{!Arith F} := {
  law_idle c x r cap : a_rate_ok r = true ->
    a_leb c (a_min (a_add x (a_mul (a_secs 0) r)) cap) = a_leb c (a_min x cap);
  law_min_min x cap : a_min (a_min x cap) cap = a_min x cap;
  law_full x cap : a_cap_ok cap = true -> a_leb cap (a_min x cap) = true -> a_min x cap = cap;
  law_min_le x cap : a_cap_ok cap = true -> a_leb (a_min x cap) cap = true
}.

(** Without rounding, refilling twice is refilling once for the whole time, and a full
    bucket stays full. *)
Class ExactLaws (F : Type) `{!Arith F} := {
  exact_laws :: ArithLaws F;
  law_split x r cap a b : a_rate_ok r = true -> a_cap_ok cap = true -> 0 <= a -> 0 <= b ->
    a_min (a_add (a_min (a_add x (a_mul (a_secs a) r)) cap) (a_mul (a_secs b) r)) cap
    = a_min (a_add x (a_mul (a_secs (a + b)) r)) cap;
  law_stays_full r cap a : a_rate_ok r = true -> a_cap_ok cap = true -> 0 <= a ->
    a_min (a_add cap (a_mul (a_secs a) r)) cap = cap
}.

(** ** binary64 *)

Abbreviation f64 := spec_float.

#[export] Instance spec_float_eq_dec : EqDecision spec_float.
Proof. solve_decision. Defined.

Definition f64_of_Z (z : Z) : f64 := binary_normalize 53 1024 z 0 false.
Definition f64_add : f64 -> f64 -> f64 := SFadd 53 1024.
Definition f64_sub : f64 -> f64 -> f64 := SFsub 53 1024.
Definition f64_mul : f64 -> f64 -> f64 := SFmul 53 1024.
Definition f64_div : f64 -> f64 -> f64 := SFdiv 53 1024.

(** [f64::min]: the other operand when one is NaN. *)
Definition f64_min (x y : f64) : f64 :=
  match x, y with
  | S754_nan, _ => y
  | _, S754_nan => x
  | _, _ => if SFleb x y then x else y
  end.

(** [Duration::as_secs_f64] of a duration in nanoseconds: [secs as f64 + nanos as f64 / 1e9]. *)
Definition f64_secs (ns : Z) : f64 :=
  f64_add (f64_of_Z (ns / 1000000000)) (f64_div (f64_of_Z (ns mod 1000000000)) (f64_of_Z 1000000000)).

Definition f64_rate_ok (x : f64) : bool :=
  match x with S754_zero false | S754_finite false _ _ => true | _ => false end.
Definition f64_cap_ok (x : f64) : bool :=
  match x with S754_finite false _ _ => true | _ => false end.

#[export] Instance f64_arith : Arith f64 := {|
  a_add := f64_add; a_sub := f64_sub; a_mul := f64_mul; a_div := f64_div;
  a_min := f64_min; a_leb := SFleb; a_of_Z := f64_of_Z; a_secs := f64_secs;
  a_rate_ok := f64_rate_ok; a_cap_ok := f64_cap_ok
|}.

Lemma f64_leb_zero_r c s : SFleb c (S754_zero s) = SFleb c (S754_zero false).
Proof. by destruct c as [[]| | |[]], s. Qed.

Lemma f64_secs_0 : f64_secs 0 = S754_zero false.
Proof. reflexivity. Qed.

(** Adding [+0] changes nothing but the sign of a zero. *)
Lemma f64_add_zero x :
  f64_add x (S754_zero false) = x \/ x = S754_zero true /\ f64_add x (S754_zero false) = S754_zero false.
Proof. destruct x as [[]|[]| |]; cbn; auto. Qed.

Lemma f64_mul_zero r : f64_rate_ok r = true -> f64_mul (S754_zero false) r = S754_zero false.
Proof. by destruct r as [[]|[]| |[]]. Qed.

Lemma SFleb_refl x : x <> S754_nan -> SFleb x x = true.
Proof.
  destruct x as [[]|[]| |[] m e]; try done; intros _; unfold SFleb, SFcompare;
    by rewrite Z.compare_refl, Pos.compare_cont_refl.
Qed.

Lemma f64_min_min x cap : f64_min (f64_min x cap) cap = f64_min x cap.
Proof.
  destruct (decide (x = S754_nan)) as [->|Hx]; [|destruct (decide (cap = S754_nan)) as [->|Hc]].
  - simpl. destruct (decide (cap = S754_nan)) as [->|]; [done|].
    unfold f64_min. rewrite SFleb_refl by done. by destruct cap.
  - by destruct x.
  - assert (forall y, y <> S754_nan -> f64_min y cap = if SFleb y cap then y else cap) as E.
    { intros y Hy. unfold f64_min. destruct y, cap; done. }
    rewrite (E x) by done. destruct (SFleb x cap) eqn:Hle; rewrite E by done.
    + by rewrite Hle.
    + by rewrite SFleb_refl.
Qed.

(** [x <= y <= x] between finite positive floats means they are the same float. *)
Lemma SFleb_antisym_pos x m e :
  SFleb x (S754_finite false m e) = true -> SFleb (S754_finite false m e) x = true ->
  x = S754_finite false m e.
Proof.
  destruct x as [[]|[]| |[] m' e']; try done; unfold SFleb, SFcompare.
  rewrite (Z.compare_antisym e' e).
  destruct (Z.compare_spec e' e) as [->| |]; cbn; try done.
  change (Pos.compare_cont Eq m' m) with (m' ?= m)%positive.
  change (Pos.compare_cont Eq m m') with (m ?= m')%positive.
  rewrite (Pos.compare_antisym m' m). destruct (Pos.compare_spec m' m); cbn; by subst.
Qed.

Lemma f64_full x cap :
  f64_cap_ok cap = true -> SFleb cap (f64_min x cap) = true -> f64_min x cap = cap.
Proof.
  destruct cap as [| | |[] m e]; try done. intros _.
  destruct (decide (x = S754_nan)) as [->|Hx]; [done|].
  assert (f64_min x (S754_finite false m e)
          = if SFleb x (S754_finite false m e) then x else S754_finite false m e) as ->
    by by destruct x.
  case_match eqn:Hle; [|done]. intros. by apply SFleb_antisym_pos.
Qed.

Lemma f64_min_le x cap : f64_cap_ok cap = true -> SFleb (f64_min x cap) cap = true.
Proof.
  intros Hc. assert (cap <> S754_nan) by by destruct cap.
  destruct (decide (x = S754_nan)) as [->|Hx]; [by apply SFleb_refl|].
  assert (f64_min x cap = if SFleb x cap then x else cap) as -> by by destruct x, cap.
  case_match eqn:Hle; [done | by apply SFleb_refl].
Qed.

#[export] Instance f64_laws : ArithLaws f64.
Proof.
  split; cbn [a_add a_sub a_mul a_min a_leb a_of_Z a_secs a_rate_ok a_cap_ok f64_arith].
  - intros c x r cap Hr. rewrite f64_secs_0, f64_mul_zero by done.
    destruct (f64_add_zero x) as [->|[-> ->]]; [done|].
    assert (forall s, SFleb c (f64_min (S754_zero s) cap)
      = if f64_rate_ok cap || SFleb (S754_zero false) cap || bool_decide (cap = S754_nan)
        then SFleb c (S754_zero false) else SFleb c cap) as E; [|by rewrite !E].
    intros s. destruct cap as [[]|[]| |[]]; cbn; try apply f64_leb_zero_r;
      destruct s; try apply f64_leb_zero_r; done.
  - apply f64_min_min.
  - apply f64_full.
  - apply f64_min_le.
Qed.

(** ** Exact rationals

    [Qc] is a decidable ordered field with Leibniz equality: the limiters without rounding. *)

Definition Qc_of_Z (z : Z) : Qc := Q2Qc (inject_Z z).
Definition Qc_leb (x y : Qc) : bool := Qle_bool x y.
Definition Qc_min (x y : Qc) : Qc := if Qc_leb x y then x else y.
Definition Qc_secs (ns : Z) : Qc := Qcdiv (Qc_of_Z ns) (Qc_of_Z 1000000000).

#[export] Instance Qc_arith : Arith Qc := {|
  a_add := Qcplus; a_sub := Qcminus; a_mul := Qcmult; a_div := Qcdiv;
  a_min := Qc_min; a_leb := Qc_leb; a_of_Z := Qc_of_Z; a_secs := Qc_secs;
  a_rate_ok r := Qc_leb 0%Qc r; a_cap_ok c := Qc_leb 0%Qc c && negb (Qc_leb c 0%Qc)
|}.

Lemma Qc_leb_spec x y : Qc_leb x y = true <-> (x <= y)%Qc.
Proof. apply Qle_bool_iff. Qed.

Lemma Qc_leb_false x y : Qc_leb x y = false -> (y < x)%Qc.
Proof.
  intros H. apply Qcnot_le_lt. rewrite <- Qc_leb_spec. by rewrite H.
Qed.

Lemma Qc_min_spec x y : ((x <= y)%Qc /\ Qc_min x y = x) \/ ((y < x)%Qc /\ Qc_min x y = y).
Proof.
  unfold Qc_min. destruct (Qc_leb x y) eqn:H; [left|right]; split; try done.
  - by apply Qc_leb_spec.
  - by apply Qc_leb_false.
Qed.

Lemma Qc_min_le_l x y : (Qc_min x y <= x)%Qc.
Proof. destruct (Qc_min_spec x y) as [[? ->]|[? ->]]; [apply Qcle_refl | by apply Qclt_le_weak]. Qed.

Lemma Qc_min_le_r x y : (Qc_min x y <= y)%Qc.
Proof. destruct (Qc_min_spec x y) as [[? ->]|[? ->]]; [done | apply Qcle_refl]. Qed.

Lemma Qc_min_glb x y z : (z <= x)%Qc -> (z <= y)%Qc -> (z <= Qc_min x y)%Qc.
Proof. by destruct (Qc_min_spec x y) as [[? ->]|[? ->]]. Qed.

Lemma Qc_min_id x y : (x <= y)%Qc -> Qc_min x y = x.
Proof. intros H. unfold Qc_min. apply Qc_leb_spec in H. by rewrite H. Qed.

Lemma Qc_of_Z_add a b : Qc_of_Z (a + b) = (Qc_of_Z a + Qc_of_Z b)%Qc.
Proof. unfold Qc_of_Z. apply Qc_is_canon. simpl. rewrite !Qred_correct. by rewrite inject_Z_plus. Qed.

Lemma Qc_of_Z_mono a b : a <= b -> (Qc_of_Z a <= Qc_of_Z b)%Qc.
Proof. intros H. unfold Qcle, Qc_of_Z. simpl. rewrite !Qred_correct. by rewrite <- Zle_Qle. Qed.

Lemma Qc_secs_add a b : Qc_secs (a + b) = (Qc_secs a + Qc_secs b)%Qc.
Proof. unfold Qc_secs. rewrite Qc_of_Z_add. unfold Qcdiv. ring. Qed.

Lemma Qc_secs_0 : Qc_secs 0 = 0%Qc.
Proof. by apply Qc_is_canon. Qed.

Lemma Qc_secs_nonneg a : 0 <= a -> (0 <= Qc_secs a)%Qc.
Proof.
  intros H. unfold Qc_secs, Qcdiv.
  replace 0%Qc with (0 * / Qc_of_Z 1000000000)%Qc by ring.
  apply Qcmult_le_compat_r; [|done]. by apply (Qc_of_Z_mono 0).
Qed.

#[export] Instance Qc_laws : ArithLaws Qc.
Proof.
  split; cbn [a_add a_sub a_mul a_min a_leb a_of_Z a_secs a_rate_ok a_cap_ok Qc_arith].
  - intros c x r cap _. rewrite Qc_secs_0. do 3 f_equal. ring.
  - intros x cap. apply Qc_min_id, Qc_min_le_r.
  - intros x cap _ H. apply Qcle_antisym; [apply Qc_min_le_r | by apply Qc_leb_spec].
  - intros x cap _. apply Qc_leb_spec, Qc_min_le_r.
Qed.

Lemma Qc_refill_nonneg r a : Qc_leb 0%Qc r = true -> 0 <= a -> (0 <= Qc_secs a * r)%Qc.
Proof.
  intros Hr%Qc_leb_spec Ha. replace 0%Qc with (0 * r)%Qc by ring.
  apply Qcmult_le_compat_r; [by apply Qc_secs_nonneg | done].
Qed.

#[export] Instance Qc_exact : ExactLaws Qc.
Proof.
  split; [apply _| |]; cbn [a_add a_sub a_mul a_min a_leb a_of_Z a_secs a_rate_ok a_cap_ok Qc_arith].
  - intros x r cap a b Hr _ Ha Hb. rewrite Qc_secs_add.
    pose proof (Qc_refill_nonneg r a Hr Ha). pose proof (Qc_refill_nonneg r b Hr Hb).
    replace (x + (Qc_secs a + Qc_secs b) * r)%Qc with (x + Qc_secs a * r + Qc_secs b * r)%Qc by ring.
    destruct (Qc_min_spec (x + Qc_secs a * r) cap) as [[? ->]|[Hlt ->]]; [done|].
    assert (forall y, (cap <= y)%Qc -> Qc_min y cap = cap) as Hmin.
    { intros y Hy. apply Qcle_antisym; [apply Qc_min_le_r | by apply Qc_min_glb; [|apply Qcle_refl]]. }
    rewrite !Hmin; [done| |].
    + replace cap with (cap + 0)%Qc at 1 by ring. apply Qcplus_le_compat; [by apply Qclt_le_weak|done].
    + replace cap with (cap + 0)%Qc at 1 by ring. apply Qcplus_le_compat; [apply Qcle_refl|done].
  - intros r cap a Hr _ Ha. pose proof (Qc_refill_nonneg r a Hr Ha).
    apply Qcle_antisym; [apply Qc_min_le_r | apply Qc_min_glb; [|apply Qcle_refl]].
    replace cap with (cap + 0)%Qc at 1 by ring. apply Qcplus_le_compat; [apply Qcle_refl|done].
Qed.
