(* ===== verification/Buckets.v ===== *)
(** * Token buckets (throcc-server, limits.rs)

    [TokenBucket] and [Buckets], the maps of them that forget full ones.  An [Instant] is a
    number of nanoseconds.  The number type is a parameter: the server computes in [f64]. *)
From S2P Require Import Prelude Float64.
From Stdlib Require Import QArith Qcanon.
Open Scope Z_scope.

Definition second : Z := 1000000000.

(** [a.saturating_duration_since(b)]. *)
Definition since (a b : Z) : Z := sat_sub a b.

(** ** One bucket *)

Section TokenBucket.
Context {F : Type} `{!Arith F}.

(* @src/crates/throcc-server/src/limits.rs 25-31 TokenBucket *)
Record TokenBucket := {
  tb_capacity : F;
  tb_per_second : F;
  tb_tokens : F;
  tb_updated : Z
}.

(* @src/crates/throcc-server/src/limits.rs 34-41 TokenBucket::full *)
Definition tb_full (capacity per_second : F) (now : Z) : TokenBucket :=
  {| tb_capacity := capacity; tb_per_second := per_second; tb_tokens := capacity; tb_updated := now |}.

(* @src/crates/throcc-server/src/limits.rs 63-67 TokenBucket::refill *)
Definition tb_refill (b : TokenBucket) (now : Z) : TokenBucket :=
  let elapsed := a_secs (since now (tb_updated b)) in
  {| tb_capacity := tb_capacity b; tb_per_second := tb_per_second b;
     tb_tokens := a_min (a_add (tb_tokens b) (a_mul elapsed (tb_per_second b))) (tb_capacity b);
     tb_updated := now |}.

(* @src/crates/throcc-server/src/limits.rs 52-56 TokenBucket::holds *)
Definition tb_holds (b : TokenBucket) (cost : F) (now : Z) : bool * TokenBucket :=
  let b := tb_refill b now in (a_leb cost (tb_tokens b), b).

(* @src/crates/throcc-server/src/limits.rs 43-50 TokenBucket::take *)
Definition tb_take (b : TokenBucket) (cost : F) (now : Z) : bool * TokenBucket :=
  let '(held, b) := tb_holds b cost now in
  if held then
    (true, {| tb_capacity := tb_capacity b; tb_per_second := tb_per_second b;
              tb_tokens := a_sub (tb_tokens b) cost; tb_updated := tb_updated b |})
  else (false, b).

(* @src/crates/throcc-server/src/limits.rs 58-61 TokenBucket::is_full *)
Definition tb_is_full (b : TokenBucket) (now : Z) : bool * TokenBucket :=
  let b := tb_refill b now in (a_leb (tb_capacity b) (tb_tokens b), b).

(** What the bucket holds at [now]. *)
Definition level (b : TokenBucket) (now : Z) : F := tb_tokens (tb_refill b now).

Definition bucket_ok (b : TokenBucket) : Prop :=
  a_rate_ok (tb_per_second b) = true /\ a_cap_ok (tb_capacity b) = true.

End TokenBucket.

Arguments TokenBucket F : clear implicits.

(** Refilling again at the same instant changes no answer. *)
Lemma held_again {F} `{!Arith F} `{!ArithLaws F} (b : TokenBucket F) c now :
  a_rate_ok (tb_per_second b) = true ->
  a_leb c (tb_tokens (tb_refill (tb_refill b now) now)) = a_leb c (tb_tokens (tb_refill b now)).
Proof.
  intros Hr. change (tb_tokens (tb_refill (tb_refill b now) now)) with
    (a_min (a_add (tb_tokens (tb_refill b now)) (a_mul (a_secs (since now now)) (tb_per_second b)))
       (tb_capacity b)).
  unfold since, sat_sub. rewrite Z.sub_diag, Z.max_id, law_idle by done.
  f_equal. apply law_min_min.
Qed.

(** ** Buckets by key *)

Section Buckets.
Context {F : Type} `{!Arith F} {K : Type} `{Countable K}.

(* @src/crates/throcc-server/src/limits.rs 70-76 Buckets *)
Record Buckets := {
  bs_capacity : F;
  bs_per_second : F;
  bs_buckets : gmap K (TokenBucket F);
  bs_next_sweep : option Z
}.

(* @src/crates/throcc-server/src/limits.rs 19-20 BUCKET_SWEEP *)
Definition BUCKET_SWEEP : Z := 1 * second.

(* @src/crates/throcc-server/src/limits.rs 79-86 Buckets::new *)
Definition buckets_new (capacity per_second : F) : Buckets :=
  {| bs_capacity := capacity; bs_per_second := per_second; bs_buckets := ∅; bs_next_sweep := None |}.

(** [retain]: [is_full] refills what it keeps. *)
Definition buckets_sweep (now : Z) (m : gmap K (TokenBucket F)) : gmap K (TokenBucket F) :=
  omap (fun b => let '(f, b) := tb_is_full b now in if f then None else Some b) m.

(** The sweep at the start of [bucket]. *)
Definition swept (bs : Buckets) (now : Z) : Buckets :=
  if match bs_next_sweep bs with None => true | Some t => t <=? now end
  then {| bs_capacity := bs_capacity bs; bs_per_second := bs_per_second bs;
          bs_buckets := buckets_sweep now (bs_buckets bs);
          bs_next_sweep := Some (now + BUCKET_SWEEP) |}
  else bs.

(** The map after the sweep and the bucket of [key] in it. *)
(* @src/crates/throcc-server/src/limits.rs 97-106 Buckets::bucket *)
Definition buckets_bucket (bs : Buckets) (key : K) (now : Z) : Buckets * TokenBucket F :=
  let bs := swept bs now in
  (bs, default (tb_full (bs_capacity bs) (bs_per_second bs) now) (bs_buckets bs !! key)).

Definition buckets_put (bs : Buckets) (key : K) (b : TokenBucket F) : Buckets :=
  {| bs_capacity := bs_capacity bs; bs_per_second := bs_per_second bs;
     bs_buckets := <[key := b]> (bs_buckets bs); bs_next_sweep := bs_next_sweep bs |}.

(* @src/crates/throcc-server/src/limits.rs 88-90 Buckets::take *)
Definition buckets_take (bs : Buckets) (key : K) (cost : F) (now : Z) : bool * Buckets :=
  let '(bs, b) := buckets_bucket bs key now in
  let '(ok, b) := tb_take b cost now in (ok, buckets_put bs key b).

(* @src/crates/throcc-server/src/limits.rs 92-95 Buckets::holds *)
Definition buckets_holds (bs : Buckets) (key : K) (cost : F) (now : Z) : bool * Buckets :=
  let '(bs, b) := buckets_bucket bs key now in
  let '(ok, b) := tb_holds b cost now in (ok, buckets_put bs key b).

(** ** Specification: one bucket per key, never forgotten *)

Inductive bucket_op := Take (key : K) (cost : F) | Holds (key : K) (cost : F).

Definition run_op (bs : Buckets) (op : bucket_op) (now : Z) : bool * Buckets :=
  match op with
  | Take k c => buckets_take bs k c now
  | Holds k c => buckets_holds bs k c now
  end.

Definition spec_op (r : K -> TokenBucket F) (op : bucket_op) (now : Z)
  : bool * (K -> TokenBucket F) :=
  let '(k, (ok, b)) := match op with
    | Take k c => (k, tb_take (r k) c now)
    | Holds k c => (k, tb_holds (r k) c now)
    end in
  (ok, fun k' => if decide (k' = k) then b else r k').

(** The answers to a sequence of timed operations. *)
Fixpoint run_ops (bs : Buckets) (ops : list (bucket_op * Z)) : list bool :=
  match ops with
  | [] => []
  | (op, now) :: ops => let '(ok, bs) := run_op bs op now in ok :: run_ops bs ops
  end.

Fixpoint spec_ops (r : K -> TokenBucket F) (ops : list (bucket_op * Z)) : list bool :=
  match ops with
  | [] => []
  | (op, now) :: ops => let '(ok, r) := spec_op r op now in ok :: spec_ops r ops
  end.

End Buckets.

Arguments Buckets F K {_ _}.
Arguments bucket_op F K : clear implicits.

(** ** Forgetting full buckets changes nothing *)

Section Refinement.
Context {F : Type} `{!Arith F} `{!ExactLaws F} {K : Type} `{Countable K}.
Implicit Types (b : TokenBucket F) (bs : Buckets F K) (r : K -> TokenBucket F).

Definition shaped (cap rate : F) (now : Z) b : Prop :=
  tb_capacity b = cap /\ tb_per_second b = rate /\ tb_updated b <= now.

Lemma refill_shaped cap rate now b :
  shaped cap rate now b -> shaped cap rate now (tb_refill b now).
Proof. intros (?&?&?). repeat split; cbn; try done. Qed.

Lemma refill_ext b1 b2 cap rate now :
  shaped cap rate now b1 -> shaped cap rate now b2 -> level b1 now = level b2 now ->
  tb_refill b1 now = tb_refill b2 now.
Proof.
  intros (Hc1&Hr1&_) (Hc2&Hr2&_) E. unfold level in E. unfold tb_refill in *. cbn in E.
  rewrite E. by rewrite Hc1, Hr1, Hc2, Hr2.
Qed.

Lemma level_refill b t1 t2 :
  bucket_ok b -> tb_updated b <= t1 <= t2 -> level (tb_refill b t1) t2 = level b t2.
Proof.
  intros [Hr Hc] Ht. unfold level, tb_refill, since, sat_sub. cbn.
  rewrite law_split by (done || lia). do 4 f_equal. lia.
Qed.

Lemma level_full cap rate t1 t2 :
  a_rate_ok rate = true -> a_cap_ok cap = true -> level (tb_full cap rate t1) t2 = cap.
Proof. intros. unfold level. cbn. apply law_stays_full; try done. unfold since, sat_sub. lia. Qed.

#[local] Arguments level : simpl never.

(** The maps agree with the specification on what every key's bucket will hold. *)
Record sim bs r (now : Z) : Prop := {
  sim_rate : a_rate_ok (bs_per_second bs) = true;
  sim_cap : a_cap_ok (bs_capacity bs) = true;
  sim_impl k b : bs_buckets bs !! k = Some b -> shaped (bs_capacity bs) (bs_per_second bs) now b;
  sim_spec k : shaped (bs_capacity bs) (bs_per_second bs) now (r k);
  sim_level k t : now <= t ->
    level (default (tb_full (bs_capacity bs) (bs_per_second bs) now) (bs_buckets bs !! k)) t
    = level (r k) t
}.

Lemma sim_default bs r now k :
  sim bs r now ->
  shaped (bs_capacity bs) (bs_per_second bs) now
    (default (tb_full (bs_capacity bs) (bs_per_second bs) now) (bs_buckets bs !! k)).
Proof.
  intros S. destruct (bs_buckets bs !! k) as [b|] eqn:E; cbn.
  - by eapply sim_impl.
  - repeat split; cbn; lia.
Qed.

Lemma sim_later bs r now now' : sim bs r now -> now <= now' -> sim bs r now'.
Proof.
  intros S Hle. assert (forall b cap rate, shaped cap rate now b -> shaped cap rate now' b) as Hmono.
  { intros b cap rate (?&?&?). repeat split; try done; lia. }
  split; try apply S.
  - intros k b Hb. eapply Hmono, sim_impl; done.
  - intros k. eapply Hmono, sim_spec; done.
  - intros k t Ht. rewrite <- (sim_level _ _ _ S) by lia.
    destruct (bs_buckets bs !! k); [done|]. cbn. by rewrite !level_full by apply S.
Qed.

Lemma shaped_ok bs r now b :
  sim bs r now -> shaped (bs_capacity bs) (bs_per_second bs) now b -> bucket_ok b.
Proof. intros S (Hc&Hr&_). split; [rewrite Hr | rewrite Hc]; apply S. Qed.

Lemma sim_sweep bs r now :
  sim bs r now ->
  sim {| bs_capacity := bs_capacity bs; bs_per_second := bs_per_second bs;
         bs_buckets := buckets_sweep now (bs_buckets bs); bs_next_sweep := Some (now + BUCKET_SWEEP) |} r now.
Proof.
  intros S. split; cbn; try apply S.
  - intros k b. unfold buckets_sweep. rewrite lookup_omap.
    destruct (bs_buckets bs !! k) as [b'|] eqn:Hb; cbn; [|done].
    destruct (a_leb _ _); [done|]. intros [= <-]. by eapply refill_shaped, sim_impl.
  - intros k t Ht. rewrite <- (sim_level _ _ _ S) by done. unfold buckets_sweep. rewrite lookup_omap.
    destruct (bs_buckets bs !! k) as [b|] eqn:Hb; cbn; [|done].
    pose proof (sim_impl _ _ _ S _ _ Hb) as Hs. destruct Hs as (Hc & Hr & Hu).
    assert (bucket_ok b) as Hok by by eapply shaped_ok.
    destruct (a_leb (tb_capacity b) _) eqn:Hf; cbn; [|apply level_refill; [done|lia]].
    rewrite level_full by apply S. rewrite <- (level_refill b now t) by (done || lia).
    apply law_full in Hf; [|apply Hok].
    replace (tb_refill b now) with (tb_full (tb_capacity b) (tb_per_second b) now).
    { rewrite level_full by apply Hok. done. }
    unfold tb_refill, tb_full. f_equal. by rewrite Hf.
Qed.

Lemma sim_bucket bs r key now bs' b :
  sim bs r now -> buckets_bucket bs key now = (bs', b) ->
  sim bs' r now /\ b = default (tb_full (bs_capacity bs') (bs_per_second bs') now) (bs_buckets bs' !! key).
Proof.
  unfold buckets_bucket. intros S [= <- <-]. split; [|done]. unfold swept.
  destruct (bs_next_sweep bs) as [t|]; [destruct (t <=? now)|]; try done; by apply sim_sweep.
Qed.

(** Storing equal buckets on both sides keeps the simulation. *)
Lemma sim_put bs r now key b :
  sim bs r now -> shaped (bs_capacity bs) (bs_per_second bs) now b ->
  sim (buckets_put bs key b) (fun k => if decide (k = key) then b else r k) now.
Proof.
  intros S Hb. split; cbn; try apply S.
  - intros k b'. rewrite lookup_insert_Some. intros [[_ <-]|[_ Hk]]; [done | by eapply sim_impl].
  - intros k. case_decide; [done | by apply S].
  - intros k t Ht. case_decide as Hk; [subst; by rewrite lookup_insert_eq|].
    rewrite lookup_insert_ne by done. by apply S.
Qed.

Lemma sim_op bs r op now ok bs' :
  sim bs r now -> run_op bs op now = (ok, bs') ->
  exists r', spec_op r op now = (ok, r') /\ sim bs' r' now.
Proof.
  intros S. destruct op as [k c|k c]; cbn -[buckets_bucket tb_take tb_holds];
    unfold buckets_take, buckets_holds;
    destruct (buckets_bucket bs k now) as [bs1 b] eqn:Hb;
    destruct (sim_bucket _ _ _ _ _ _ S Hb) as [S1 E];
    assert (tb_refill b now = tb_refill (r k) now) as Er
      by (subst b; eapply refill_ext;
          [by eapply sim_default | by eapply sim_spec | by eapply sim_level]);
    assert (shaped (bs_capacity bs1) (bs_per_second bs1) now (tb_refill (r k) now)) as Hsh
      by (apply refill_shaped, S1).
  - unfold tb_take, tb_holds. rewrite Er. destruct (a_leb c _).
    + intros [= <- <-]. eexists. split; [done|]. apply sim_put; [done|].
      destruct Hsh as (?&?&?). by repeat split.
    + intros [= <- <-]. eexists. split; [done|]. by apply sim_put.
  - unfold tb_holds. rewrite Er. intros [= <- <-]. eexists. split; [done|]. by apply sim_put.
Qed.

(** Operations at times that do not go back, from [now] on. *)
Fixpoint in_order {A} (now : Z) (ops : list (A * Z)) : Prop :=
  match ops with [] => True | (_, t) :: ops => now <= t /\ in_order t ops end.

Lemma sim_ops ops bs r now :
  sim bs r now -> in_order now ops -> run_ops bs ops = spec_ops r ops.
Proof.
  revert bs r now. induction ops as [|[op t] ops IH]; intros bs r now S; [done|].
  intros [Hle Ho]. cbn. destruct (run_op bs op t) as [ok bs'] eqn:E.
  destruct (sim_op bs r op t ok bs') as (r' & -> & S'); [by eapply sim_later | done|].
  f_equal. by eapply IH.
Qed.

Lemma sim_new cap rate now :
  a_rate_ok rate = true -> a_cap_ok cap = true -> sim (buckets_new cap rate) (fun _ : K => tb_full cap rate now) now.
Proof.
  intros. split; cbn; try done.
Qed.

(** A bucket map answers like one bucket per key that is never forgotten, whatever the
    operations: the sweep that drops full buckets, and when it runs, cannot be observed. *)
Theorem forgetting_full_buckets_is_invisible (cap rate : F) (start : Z) (ops : list (bucket_op F K * Z)) :
  a_rate_ok rate = true -> a_cap_ok cap = true -> in_order start ops ->
  run_ops (buckets_new cap rate) ops = spec_ops (fun _ => tb_full cap rate start) ops.
Proof. intros. eapply sim_ops; [by apply sim_new | done]. Qed.

End Refinement.

Lemma forgetting_full_buckets_is_invisible_witness :
  run_ops (K := Z) (F := Qc) (buckets_new 1%Qc 1%Qc)
    [(Take 7 1%Qc, 0); (Take 7 1%Qc, 0); (Take 8 1%Qc, second); (Take 7 1%Qc, second)]
  = [true; false; true; true] /\
  run_ops (K := Z) (F := Qc) (buckets_new 1%Qc 1%Qc)
    [(Take 7 1%Qc, 0); (Take 7 1%Qc, 0); (Take 8 1%Qc, second); (Take 7 1%Qc, second)]
  = spec_ops (fun _ => tb_full 1%Qc 1%Qc 0)
    [(Take 7 1%Qc, 0); (Take 7 1%Qc, 0); (Take 8 1%Qc, second); (Take 7 1%Qc, second)].
Proof.
  split; [by vm_compute|]. apply forgetting_full_buckets_is_invisible; [by vm_compute..|].
  cbn. unfold second. lia.
Defined.

(** ** The rate a key is granted *)

Section Rate.
Context {K : Type} `{Countable K}.
Open Scope Qc_scope.

(** What [k] was granted by operations answered [oks]. *)
Fixpoint granted (k : K) (ops : list (bucket_op Qc K * Z)) (oks : list bool) : Qc :=
  match ops, oks with
  | (Take k' c, _) :: ops, true :: oks => if decide (k' = k) then c + granted k ops oks else granted k ops oks
  | _ :: ops, _ :: oks => granted k ops oks
  | _, _ => 0
  end.

Fixpoint spec_after (r : K -> TokenBucket Qc) (ops : list (bucket_op Qc K * Z)) : K -> TokenBucket Qc :=
  match ops with [] => r | (op, now) :: ops => spec_after (snd (spec_op r op now)) ops end.

Lemma length_spec_ops (r : K -> TokenBucket Qc) ops : length (spec_ops r ops) = length ops.
Proof.
  revert r. induction ops as [|[op t] ops IH]; intros r; [done|]. cbn.
  destruct (spec_op r op t). cbn. by rewrite IH.
Qed.

Lemma spec_ops_app (r : K -> TokenBucket Qc) pre ops :
  spec_ops r (pre ++ ops) = spec_ops r pre ++ spec_ops (spec_after r pre) ops.
Proof.
  revert r. induction pre as [|[op t] pre IH]; intros r; [done|]. cbn.
  destruct (spec_op r op t) as [ok r']. cbn. by rewrite IH.
Qed.

Lemma in_order_app {A} now (pre ops : list (A * Z)) :
  in_order now (pre ++ ops) -> in_order now pre.
Proof. revert now. induction pre as [|[a t] pre IH]; intros now; cbn; [done|]. intros []. eauto. Qed.

Context (cap rate : Qc).
Hypothesis (Hrate : Qc_leb 0 rate = true) (Hcap : a_cap_ok cap = true).

(** A bucket of the specification at [now]: never below zero, never over its capacity. *)
Definition live (now : Z) (b : TokenBucket Qc) : Prop :=
  shaped cap rate now b /\ 0 <= tb_tokens b.

Lemma cap_nonneg : 0 <= cap.
Proof. cbn in Hcap. apply andb_prop in Hcap as [?%Qc_leb_spec _]. done. Qed.

Lemma refill_live b now t :
  live now b -> (now <= t)%Z ->
  live t (tb_refill b t) /\ level b t <= cap /\ level b t <= level b now + Qc_secs (t - now) * rate.
Proof.
  intros [(Hc & Hr & Hu) Hb] Ht.
  pose proof (Qc_refill_nonneg rate (since t (tb_updated b)) Hrate) as Hnn.
  unfold live, shaped, tb_refill, level in *. cbn -[Qc_secs] in *. rewrite Hc, Hr.
  assert (0 <= tb_tokens b + Qc_secs (since t (tb_updated b)) * rate) as Hpos.
  { replace 0 with (0 + 0) by ring. apply Qcplus_le_compat; [done|].
    apply Hnn. unfold since, sat_sub. lia. }
  repeat split; try lia.
  - apply Qc_min_glb; [done | apply cap_nonneg].
  - apply Qc_min_le_r.
  - pose proof (law_split (F := Qc) (tb_tokens b) rate cap (since now (tb_updated b)) (t - now)) as E.
    cbn -[Qc_secs] in E.
    replace (since t (tb_updated b)) with (since now (tb_updated b) + (t - now))%Z
      by (unfold since, sat_sub; lia).
    rewrite <- E; [apply Qc_min_le_l | done | done | | ]; unfold since, sat_sub; lia.
Qed.

Lemma live_later b now t : live now b -> (now <= t)%Z -> live t b.
Proof. intros [(?&?&?) ?] ?. repeat split; try done. lia. Qed.

Lemma level_now b now : tb_updated b = now -> level b now <= tb_tokens b.
Proof.
  intros <-. unfold level, tb_refill, since, sat_sub. rewrite Z.sub_diag. cbn -[Qc_secs].
  rewrite Z.max_id, Qc_secs_0. eapply Qcle_trans; [apply Qc_min_le_l|].
  replace (tb_tokens b + 0 * tb_per_second b) with (tb_tokens b) by ring. apply Qcle_refl.
Qed.

(** One operation: what it grants [k] comes out of [k]'s level. *)
Lemma spec_op_live (r : K -> TokenBucket Qc) op t now k ok r' :
  (forall k, live now (r k)) -> (now <= t)%Z -> spec_op r op t = (ok, r') ->
  (forall k, live t (r' k)) /\
  granted k [(op, t)] [ok] + level (r' k) t <= level (r k) t.
Proof.
  intros Hl Ht E.
  assert (forall k, level (tb_refill (r k) t) t <= level (r k) t) as Hlv
    by (intros k'; by apply (level_now (tb_refill (r k') t))).
  unfold spec_op in E. destruct op as [k' c|k' c]; [unfold tb_take in E|]; unfold tb_holds in E.
  - destruct (a_leb c _) eqn:Hc; simplify_eq; split.
    + intros k''. case_decide; [|by eapply live_later]. subst k''.
      destruct (refill_live (r k') now t) as [[(?&?&?) Hp] _]; [done..|].
      repeat split; try done. cbn. apply Qc_leb_spec in Hc.
      by apply Qcle_minus_iff in Hc.
    + simpl. repeat case_decide; simplify_eq; try done.
      * rewrite Qcplus_0_r. set (b := {| tb_capacity := _ |}).
        pose proof (level_now b t eq_refl) as Hb. cbn in Hb.
        eapply Qcle_trans; [apply Qcplus_le_compat; [apply Qcle_refl | exact Hb]|].
        set (x := level (r k') t). change (Qc_min _ _) with x.
        replace (c + (x - c)) with x by ring. apply Qcle_refl.
      * rewrite Qcplus_0_l. apply Qcle_refl.
    + intros k''. case_decide; [|by eapply live_later]. subst k''. by eapply refill_live.
    + simpl. rewrite Qcplus_0_l. case_decide; [subst; done | apply Qcle_refl].
  - simplify_eq. split.
    + intros k''. case_decide; [|by eapply live_later]. subst k''. by eapply refill_live.
    + simpl. rewrite Qcplus_0_l. case_decide; [subst; done | apply Qcle_refl].
Qed.

Lemma granted_cons k op t ops ok oks :
  granted k ((op, t) :: ops) (ok :: oks) = granted k [(op, t)] [ok] + granted k ops oks.
Proof. destruct op, ok; cbn; try case_decide; cbn; ring. Qed.

(** From [now] to [e] a key is granted at most its level and what refills meanwhile. *)
Lemma spec_granted ops (r : K -> TokenBucket Qc) now e k :
  (forall k, live now (r k)) -> in_order now ops -> Forall (fun o => (o.2 <= e)%Z) ops -> (now <= e)%Z ->
  granted k ops (spec_ops r ops) <= level (r k) now + Qc_secs (e - now) * rate.
Proof.
  revert r now. induction ops as [|[op t] ops IH]; intros r now Hl Ho He Hne.
  - cbn -[Qc_secs]. destruct (refill_live (r k) now now) as [[_ Hp] _]; [done|lia|].
    replace 0 with (0 + 0) by ring. apply Qcplus_le_compat; [done|].
    apply Qc_refill_nonneg; [done|lia].
  - destruct Ho as [Ht Ho]. apply Forall_cons_1 in He as [Hte He]. cbn in Hte.
    simpl spec_ops. destruct (spec_op r op t) as [ok r'] eqn:E. rewrite granted_cons.
    destruct (spec_op_live r op t now k ok r') as [Hl' Hg]; [done..|].
    destruct (refill_live (r k) now t) as (_ & _ & Hlt); [done..|].
    specialize (IH r' t Hl' Ho He Hte).
    eapply Qcle_trans; [apply Qcplus_le_compat; [apply Qcle_refl | exact IH]|].
    rewrite Qcplus_assoc.
    replace (e - now)%Z with ((t - now) + (e - t))%Z by lia.
    rewrite Qc_secs_add.
    replace (level (r k) now + (Qc_secs (t - now) + Qc_secs (e - t)) * rate)
      with (level (r k) now + Qc_secs (t - now) * rate + Qc_secs (e - t) * rate) by ring.
    apply Qcplus_le_compat; [|apply Qcle_refl]. by eapply Qcle_trans.
Qed.

Lemma spec_after_live ops (r : K -> TokenBucket Qc) now s :
  (forall k, live now (r k)) -> in_order now ops -> Forall (fun o => (o.2 <= s)%Z) ops -> (now <= s)%Z ->
  forall k, live s (spec_after r ops k).
Proof.
  revert r now. induction ops as [|[op t] ops IH]; intros r now Hl Ho Hs Hns k; cbn.
  - by eapply live_later.
  - destruct Ho as [Ht Ho]. apply Forall_cons_1 in Hs as [Hts Hs].
    destruct (spec_op r op t) as [ok r'] eqn:E.
    destruct (spec_op_live r op t now k ok r') as [Hl' _]; [done..|]. by eapply IH.
Qed.

End Rate.

(** In any span of time, and whatever happens to other keys, a key is granted at most
    the capacity and what the rate refills in that span (in exact arithmetic). *)
Theorem grants_are_rate_bounded {K : Type} `{Countable K} (cap rate : Qc) (start s e : Z)
    (before during : list (bucket_op Qc K * Z)) (k : K) :
  Qc_leb 0%Qc rate = true -> a_cap_ok cap = true ->
  in_order start before -> Forall (fun o => o.2 <= s) before -> start <= s ->
  in_order s during -> Forall (fun o => o.2 <= e) during -> s <= e ->
  (granted k during (drop (length before) (run_ops (buckets_new cap rate) (before ++ during)))
   <= cap + Qc_secs (e - s) * rate)%Qc.
Proof.
  intros Hr Hc Hb Hbs Hss Hd Hde Hse.
  assert (in_order start (before ++ during)) as Hall.
  { clear -Hb Hbs Hd Hss. revert start Hb Hss. induction before as [|[op t] l IH]; intros n Hb Hn; cbn in *.
    - destruct during as [|[op t] during]; [done|]. destruct Hd. split; [lia|done].
    - destruct Hb. apply Forall_cons_1 in Hbs as []. split; [done|]. by apply IH. }
  rewrite (sim_ops _ _ (fun _ => tb_full cap rate start) start) by (by apply sim_new || done).
  rewrite spec_ops_app, drop_app_length' by (by rewrite length_spec_ops).
  assert (forall k, live cap rate s (spec_after (fun _ : K => tb_full cap rate start) before k)) as Hl.
  { eapply spec_after_live; [done..| |done|done|done]. intros k'.
    repeat split; cbn; try lia. by apply cap_nonneg. }
  eapply Qcle_trans; [by eapply spec_granted|].
  apply Qcplus_le_compat; [|apply Qcle_refl].
  edestruct refill_live as (_ & Hle & _); [done | done | apply Hl | reflexivity | done].
Qed.

Lemma grants_are_rate_bounded_witness :
  let before := [(Take 7 1%Qc, 0)] in
  let during := [(Take 7 1%Qc, 5); (Take 7 1%Qc, second)] in
  Qcle (granted 7 during (drop 1 (run_ops (buckets_new 1%Qc 1%Qc) (before ++ during))))
    (1 + Qc_secs (second - 0) * 1)%Qc.
Proof.
  intros before during. subst before during. apply (grants_are_rate_bounded 1%Qc 1%Qc 0 0 second [(Take 7 1%Qc, 0)]);
    [by vm_compute | by vm_compute | | | done | | | unfold second; lia];
    cbn; unfold second; repeat split; repeat apply Forall_cons_2; try apply Forall_nil_2; cbn; lia.
Defined.
