(* ===== verification/Limits.v ===== *)
(** * Limits per source address (throcc-server, limits.rs)

    [SourceKey] and the network and region around it; [Gate], the concurrent holders per
    source, per network and in total, with the tasks that wait for a place as a step
    relation; [ArrivalLimiter]; [SourceLimiter], the sliding window of enrollment runs. *)
From S2P Require Import Prelude Float64 Buckets.
Open Scope Z_scope.

(** ** Source keys *)

(** [std::net::IpAddr]: the address as an integer of 32 or 128 bits. *)
Inductive IpAddr := IpV4 (v4 : Z) | IpV6 (v6 : Z).

(** [Ipv6Addr::to_ipv4_mapped]: [::ffff:a.b.c.d]. *)
Definition to_ipv4_mapped (v6 : Z) : option Z :=
  if v6 / 2 ^ 32 =? 0xffff then Some (v6 mod 2 ^ 32) else None.

(* @src/crates/throcc-server/src/limits.rs 202-207 SourceKey *)
Inductive SourceKey := V4 (v4 : Z) | V6 (prefix : Z).

#[export] Instance SourceKey_eq_dec : EqDecision SourceKey.
Proof. solve_decision. Defined.
#[export] Instance SourceKey_countable : Countable SourceKey.
Proof.
  refine (inj_countable' (fun k => match k with V4 a => inl a | V6 a => inr a end)
    (fun s => match s with inl a => V4 a | inr a => V6 a end) _). by intros [].
Defined.

(* @src/crates/throcc-server/src/limits.rs 210-218 SourceKey::of *)
Definition source_of (ip : IpAddr) : SourceKey :=
  match ip with
  | IpV4 v4 => V4 v4
  | IpV6 v6 => match to_ipv4_mapped v6 with
               | Some v4 => V4 v4
               | None => V6 (Z.shiftr v6 64)
               end
  end.

(* @src/crates/throcc-server/src/limits.rs 220-226 SourceKey::network *)
Definition network (k : SourceKey) : SourceKey :=
  match k with V4 v4 => V4 (Z.ldiff v4 0xff) | V6 prefix => V6 (Z.ldiff prefix 0xffff) end.

(* @src/crates/throcc-server/src/limits.rs 228-234 SourceKey::region *)
Definition region (k : SourceKey) : SourceKey :=
  match k with V4 v4 => V4 (Z.ldiff v4 0xffff) | V6 prefix => V6 (Z.ldiff prefix 0xffffffff) end.

(** ** Gate *)

(* @src/crates/throcc-server/src/limits.rs 109-115 Caps *)
Record Caps := { per_source : Z; per_network : Z; total : Z }.

(* @src/crates/throcc-server/src/limits.rs 117-122 Counts *)
Record Counts := {
  cn_total : Z;
  cn_sources : gmap SourceKey Z;
  cn_networks : gmap SourceKey Z
}.

Definition no_counts : Counts := {| cn_total := 0; cn_sources := ∅; cn_networks := ∅ |}.

(** [*m.entry(k).or_default() += 1]. *)
Definition increment (m : gmap SourceKey Z) (k : SourceKey) : gmap SourceKey Z :=
  <[k := default 0 (m !! k) + 1]> m.

(** The pass is the source it was admitted for. *)
(* @src/crates/throcc-server/src/limits.rs 140-157 Gate::try_enter *)
Definition try_enter (caps : Caps) (counts : Counts) (source : SourceKey) : option (SourceKey * Counts) :=
  let net := network source in
  if (total caps <=? cn_total counts)
     || (per_source caps <=? default 0 (cn_sources counts !! source))
     || (per_network caps <=? default 0 (cn_networks counts !! net))
  then None
  else Some (source, {| cn_total := cn_total counts + 1;
                        cn_sources := increment (cn_sources counts) source;
                        cn_networks := increment (cn_networks counts) net |}).

(* @src/crates/throcc-server/src/limits.rs 181-188 decrement *)
Definition decrement (counts : gmap SourceKey Z) (key : SourceKey) : gmap SourceKey Z :=
  match counts !! key with
  | Some count => if count - 1 =? 0 then delete key counts else <[key := count - 1]> counts
  | None => counts
  end.

(** The counts after a pass is dropped; the waiting tasks are woken then. *)
(* @src/crates/throcc-server/src/limits.rs 171-178 Gate::leave *)
Definition leave (counts : Counts) (source : SourceKey) : Counts :=
  {| cn_total := cn_total counts - 1;
     cn_sources := decrement (cn_sources counts) source;
     cn_networks := decrement (cn_networks counts) (network source) |}.

(** *** Tasks at the gate

    [Gate::enter] enables its notification, tries, and waits for the notification when
    refused; [leave] updates the counts under the lock and notifies after releasing it.
    Every step below is one of these atomic actions of one task. *)

(* @src/crates/throcc-server/src/limits.rs 159-169 Gate::enter *)
Inductive task :=
  | Arriving (source : SourceKey)
  (** Its notification is enabled: whether a [notify_waiters] has reached it. *)
  | Enabled (source : SourceKey) (woken : bool)
  (** Refused, awaiting the notification. *)
  | Waiting (source : SourceKey) (woken : bool)
  | Inside (pass : SourceKey)
  (** Dropped its pass, about to notify. *)
  | Leaving
  | Gone.

Definition wake (t : task) : task :=
  match t with Enabled s _ => Enabled s true | Waiting s _ => Waiting s true | t => t end.

Record gate_state := { gt_counts : Counts; gt_tasks : list task }.

Inductive gate_step (caps : Caps) : gate_state -> gate_state -> Prop :=
  | step_arrive c ts s :
      gate_step caps {| gt_counts := c; gt_tasks := ts |} {| gt_counts := c; gt_tasks := Arriving s :: ts |}
  | step_enable c ts i s : ts !! i = Some (Arriving s) ->
      gate_step caps {| gt_counts := c; gt_tasks := ts |} {| gt_counts := c; gt_tasks := <[i := Enabled s false]> ts |}
  | step_enter c ts i s w p c' : ts !! i = Some (Enabled s w) -> try_enter caps c s = Some (p, c') ->
      gate_step caps {| gt_counts := c; gt_tasks := ts |} {| gt_counts := c'; gt_tasks := <[i := Inside p]> ts |}
  | step_refused c ts i s w : ts !! i = Some (Enabled s w) -> try_enter caps c s = None ->
      gate_step caps {| gt_counts := c; gt_tasks := ts |} {| gt_counts := c; gt_tasks := <[i := Waiting s w]> ts |}
  | step_woken c ts i s : ts !! i = Some (Waiting s true) ->
      gate_step caps {| gt_counts := c; gt_tasks := ts |} {| gt_counts := c; gt_tasks := <[i := Arriving s]> ts |}
  | step_leave c ts i p : ts !! i = Some (Inside p) ->
      gate_step caps {| gt_counts := c; gt_tasks := ts |} {| gt_counts := leave c p; gt_tasks := <[i := Leaving]> ts |}
  | step_notify c ts i : ts !! i = Some Leaving ->
      gate_step caps {| gt_counts := c; gt_tasks := ts |} {| gt_counts := c; gt_tasks := <[i := Gone]> (wake <$> ts) |}
  (** A task that is dropped before it is inside. *)
  | step_cancel c ts i t : ts !! i = Some t ->
      match t with Arriving _ | Enabled _ _ | Waiting _ _ => True | _ => False end ->
      gate_step caps {| gt_counts := c; gt_tasks := ts |} {| gt_counts := c; gt_tasks := <[i := Gone]> ts |}.

Definition gate_init : gate_state := {| gt_counts := no_counts; gt_tasks := [] |}.

Definition gate_reachable (caps : Caps) : gate_state -> Prop := rtc (gate_step caps) gate_init.

(** The passes held. *)
Definition inside (ts : list task) : list SourceKey :=
  omap (fun t => match t with Inside p => Some p | _ => None end) ts.

(** How many of [ps] are in [k]'s group: the source itself, or its network. *)
Definition members (group : SourceKey -> SourceKey) (k : SourceKey) (ps : list SourceKey) : Z :=
  Z.of_nat (length (filter (fun p => group p = k) ps)).

(** ** Arrivals *)

Section Arrivals.
Context {F : Type} `{!Arith F}.

(* @src/crates/throcc-server/src/limits.rs 237-243 ArrivalLimiter *)
Record ArrivalLimiter := {
  al_sources : Buckets F SourceKey;
  al_networks : Buckets F SourceKey
}.

(* @src/crates/throcc-server/src/limits.rs 15-15 SOURCE_ARRIVALS *)
Definition SOURCE_ARRIVALS : F := a_of_Z 32.
(* @src/crates/throcc-server/src/limits.rs 16-16 SOURCE_ARRIVALS_PER_SECOND *)
Definition SOURCE_ARRIVALS_PER_SECOND : F := a_of_Z 1.
(* @src/crates/throcc-server/src/limits.rs 17-17 NETWORK_ARRIVALS *)
Definition NETWORK_ARRIVALS : F := a_of_Z 64.
(* @src/crates/throcc-server/src/limits.rs 18-18 NETWORK_ARRIVALS_PER_SECOND *)
Definition NETWORK_ARRIVALS_PER_SECOND : F := a_of_Z 2.

(* @src/crates/throcc-server/src/limits.rs 245-252 Default for ArrivalLimiter *)
Definition arrival_default : ArrivalLimiter :=
  {| al_sources := buckets_new SOURCE_ARRIVALS SOURCE_ARRIVALS_PER_SECOND;
     al_networks := buckets_new NETWORK_ARRIVALS NETWORK_ARRIVALS_PER_SECOND |}.

(* @src/crates/throcc-server/src/limits.rs 255-263 ArrivalLimiter::admit *)
Definition arrival_admit (a : ArrivalLimiter) (source : SourceKey) (now : Z) : bool * ArrivalLimiter :=
  let net := network source in
  let one := a_of_Z 1 in
  let '(hs, sources) := buckets_holds (al_sources a) source one now in
  let '(hn, networks) := if hs then buckets_holds (al_networks a) net one now
                         else (false, al_networks a) in
  if negb (hs && hn) then (false, {| al_sources := sources; al_networks := networks |})
  else
    let '(ts, sources) := buckets_take sources source one now in
    let '(tn, networks) := if ts then buckets_take networks net one now else (false, networks) in
    (ts && tn, {| al_sources := sources; al_networks := networks |}).

End Arrivals.

Arguments ArrivalLimiter F : clear implicits.

(** ** Enrollment runs *)

(* @src/crates/throcc-server/src/limits.rs 11-11 SOURCE_RUNS *)
Definition SOURCE_RUNS : Z := 10.
(* @src/crates/throcc-server/src/limits.rs 12-12 NETWORK_RUNS *)
Definition NETWORK_RUNS : Z := 30.
(* @src/crates/throcc-server/src/limits.rs 13-13 REGION_RUNS *)
Definition REGION_RUNS : Z := 100.
(* @src/crates/throcc-server/src/limits.rs 14-14 SOURCE_WINDOW *)
Definition SOURCE_WINDOW : Z := 10 * 60 * second.
(* @src/crates/throcc-server/src/limits.rs 21-23 RUN_SWEEP *)
Definition RUN_SWEEP : Z := 60 * second.

(** The start times of a key's runs, oldest first. *)
Abbreviation RunWindow := (gmap SourceKey (list Z)) (only parsing).

(* @src/crates/throcc-server/src/limits.rs 336-343 expire *)
Fixpoint expire (times : list Z) (now : Z) : list Z :=
  match times with
  | t :: rest => if SOURCE_WINDOW <? since now t then expire rest now else times
  | [] => []
  end.

(* @src/crates/throcc-server/src/limits.rs 310-315 RunWindow::expire_all *)
Definition expire_all (w : gmap SourceKey (list Z)) (now : Z) : gmap SourceKey (list Z) :=
  omap (fun times => match expire times now with [] => None | times => Some times end) w.

(* @src/crates/throcc-server/src/limits.rs 317-323 RunWindow::count *)
Definition run_count (w : gmap SourceKey (list Z)) (key : SourceKey) (now : Z)
  : Z * gmap SourceKey (list Z) :=
  match w !! key with
  | None => (0, w)
  | Some times => let times := expire times now in (Z.of_nat (length times), <[key := times]> w)
  end.

(* @src/crates/throcc-server/src/limits.rs 325-327 RunWindow::record *)
Definition record (w : gmap SourceKey (list Z)) (key : SourceKey) (now : Z) : gmap SourceKey (list Z) :=
  <[key := default [] (w !! key) ++ [now]]> w.

(** [pop_back] of nothing does nothing. *)
(* @src/crates/throcc-server/src/limits.rs 329-333 RunWindow::forgive *)
Definition run_forgive (w : gmap SourceKey (list Z)) (key : SourceKey) : gmap SourceKey (list Z) :=
  match w !! key with
  | Some times => <[key := take (length times - 1)%nat times]> w
  | None => w
  end.

(* @src/crates/throcc-server/src/limits.rs 266-274 SourceLimiter *)
Record SourceLimiter := {
  sl_sources : gmap SourceKey (list Z);
  sl_networks : gmap SourceKey (list Z);
  sl_regions : gmap SourceKey (list Z);
  sl_next_sweep : option Z
}.

Definition limiter_default : SourceLimiter :=
  {| sl_sources := ∅; sl_networks := ∅; sl_regions := ∅; sl_next_sweep := None |}.

(** The sweep at the start of [begin]. *)
Definition limiter_sweep (l : SourceLimiter) (now : Z) : SourceLimiter :=
  if match sl_next_sweep l with None => true | Some t => t <=? now end
  then {| sl_sources := expire_all (sl_sources l) now;
          sl_networks := expire_all (sl_networks l) now;
          sl_regions := expire_all (sl_regions l) now;
          sl_next_sweep := Some (now + RUN_SWEEP) |}
  else l.

(* @src/crates/throcc-server/src/limits.rs 277-297 SourceLimiter::begin *)
Definition begin (l : SourceLimiter) (source : SourceKey) (now : Z) : bool * SourceLimiter :=
  let l := limiter_sweep l now in
  let net := network source in
  let reg := region source in
  let with_ sources networks regions :=
    {| sl_sources := sources; sl_networks := networks; sl_regions := regions;
       sl_next_sweep := sl_next_sweep l |} in
  let '(n, sources) := run_count (sl_sources l) source now in
  if SOURCE_RUNS <=? n then (false, with_ sources (sl_networks l) (sl_regions l)) else
  let '(n, networks) := run_count (sl_networks l) net now in
  if NETWORK_RUNS <=? n then (false, with_ sources networks (sl_regions l)) else
  let '(n, regions) := run_count (sl_regions l) reg now in
  if REGION_RUNS <=? n then (false, with_ sources networks regions) else
  (true, with_ (record sources source now) (record networks net now) (record regions reg now)).

(* @src/crates/throcc-server/src/limits.rs 299-303 SourceLimiter::forgive *)
Definition forgive (l : SourceLimiter) (source : SourceKey) : SourceLimiter :=
  {| sl_sources := run_forgive (sl_sources l) source;
     sl_networks := run_forgive (sl_networks l) (network source);
     sl_regions := run_forgive (sl_regions l) (region source);
     sl_next_sweep := sl_next_sweep l |}.

(** ** Theorems: the gate *)

Section GateTheorems.
Implicit Types (ts : list task) (ps : list SourceKey).

Lemma members_app g k ps ps' : members g k (ps ++ ps') = members g k ps + members g k ps'.
Proof. unfold members. rewrite list.filter_app, length_app. lia. Qed.

Lemma members_nil g k : members g k [] = 0.
Proof. done. Qed.

Lemma members_one g k p : members g k [p] = if decide (g p = k) then 1 else 0.
Proof. unfold members. rewrite filter_cons. by case_decide. Qed.

Lemma inside_insert g k ts i t t' :
  ts !! i = Some t ->
  members g k (inside (<[i:=t']> ts))
  = members g k (inside ts) - members g k (inside [t]) + members g k (inside [t']) /\
  Z.of_nat (length (inside (<[i:=t']> ts)))
  = Z.of_nat (length (inside ts)) - Z.of_nat (length (inside [t])) + Z.of_nat (length (inside [t'])).
Proof.
  intros Ht. pose proof (lookup_lt_Some _ _ _ Ht).
  rewrite <- (take_drop_middle ts i t Ht) at 2 4. rewrite insert_take_drop by done.
  change (t' :: ?l) with ([t'] ++ l). change (t :: ?l) with ([t] ++ l).
  unfold inside. rewrite !omap_app, !members_app, !length_app. lia.
Qed.

Lemma inside_wake ts : inside (wake <$> ts) = inside ts.
Proof. induction ts as [|t ts IH]; [done|]. unfold inside in *. destruct t; csimpl; by rewrite IH. Qed.

(** The map holds exactly the positive counts. *)
Definition represents (m : gmap SourceKey Z) (n : SourceKey -> Z) : Prop :=
  forall k, m !! k = if decide (n k = 0) then None else Some (n k).

Lemma represents_default m n k : represents m n -> default 0 (m !! k) = n k.
Proof. intros H. rewrite H. by case_decide. Qed.

Lemma represents_ext m n n' : represents m n -> (forall k, n k = n' k) -> represents m n'.
Proof. intros H E k. by rewrite <- E. Qed.

Lemma represents_increment m n k :
  represents m n -> 0 <= n k -> represents (increment m k) (fun k' => n k' + if decide (k = k') then 1 else 0).
Proof.
  intros H Hk k'. unfold increment. rewrite represents_default with (n := n) by done.
  destruct (decide (k = k')) as [->|Hne].
  - rewrite lookup_insert_eq. case_decide; [lia|done].
  - rewrite lookup_insert_ne, H by done. by rewrite Z.add_0_r.
Qed.

Lemma represents_decrement m n k :
  represents m n -> 0 < n k -> represents (decrement m k) (fun k' => n k' - if decide (k = k') then 1 else 0).
Proof.
  intros H Hk k'. unfold decrement. rewrite (H k). case_decide; [lia|].
  destruct (n k - 1 =? 0) eqn:E; (destruct (decide (k = k')) as [->|Hne]).
  - rewrite lookup_delete_eq. case_decide; [done|lia].
  - rewrite lookup_delete_ne, H by done. by rewrite Z.sub_0_r.
  - rewrite lookup_insert_eq. case_decide; [lia|done].
  - rewrite lookup_insert_ne, H by done. by rewrite Z.sub_0_r.
Qed.

#[local] Arguments inside : simpl never.
#[local] Arguments members : simpl never.

Ltac inside_one :=
  repeat match goal with
  | |- context [inside [?t]] => let v := eval cbv in (inside [t]) in change (inside [t]) with v
  end; rewrite ?members_one, ?members_nil; cbn [length].

Record gate_ok (caps : Caps) (st : gate_state) : Prop := {
  ok_total : cn_total (gt_counts st) = Z.of_nat (length (inside (gt_tasks st)));
  ok_sources : represents (cn_sources (gt_counts st)) (fun k => members id k (inside (gt_tasks st)));
  ok_networks : represents (cn_networks (gt_counts st)) (fun k => members network k (inside (gt_tasks st)));
  ok_caps k : 0 <= total caps -> 0 <= per_source caps -> 0 <= per_network caps ->
    cn_total (gt_counts st) <= total caps /\
    members id k (inside (gt_tasks st)) <= per_source caps /\
    members network k (inside (gt_tasks st)) <= per_network caps;
  ok_waiting i s : gt_tasks st !! i = Some (Waiting s false) ->
    try_enter caps (gt_counts st) s = None \/ Leaving ∈ gt_tasks st
}.

Lemma increment_le m k k' : default 0 (m !! k') <= default 0 (increment m k !! k').
Proof.
  unfold increment. destruct (decide (k = k')) as [->|]; [rewrite lookup_insert_eq | by rewrite lookup_insert_ne].
  cbn. lia.
Qed.

Lemma try_enter_None caps c s :
  try_enter caps c s = None <->
  total caps <= cn_total c \/ per_source caps <= default 0 (cn_sources c !! s) \/
  per_network caps <= default 0 (cn_networks c !! network s).
Proof. unfold try_enter. case_match eqn:E; rewrite ?orb_true_iff, ?orb_false_iff in E; (split; [|done]) || (split; [done|]); lia. Qed.

Lemma try_enter_Some caps c s p c' :
  try_enter caps c s = Some (p, c') ->
  p = s /\ cn_total c < total caps /\ default 0 (cn_sources c !! s) < per_source caps /\
  default 0 (cn_networks c !! network s) < per_network caps /\
  c' = {| cn_total := cn_total c + 1; cn_sources := increment (cn_sources c) s;
          cn_networks := increment (cn_networks c) (network s) |}.
Proof.
  unfold try_enter. case_match eqn:E; [done|]. rewrite !orb_false_iff in E. intros [= <- <-].
  repeat split; lia.
Qed.

Lemma refused_stays_refused caps c s p c' s' :
  try_enter caps c s = Some (p, c') -> try_enter caps c s' = None -> try_enter caps c' s' = None.
Proof.
  intros (_ & _ & _ & _ & ->)%try_enter_Some. rewrite !try_enter_None. cbn.
  pose proof (increment_le (cn_sources c) s s').
  pose proof (increment_le (cn_networks c) (network s) (network s')). lia.
Qed.

(** Replacing a task that is neither inside nor leaving. *)
Lemma gate_ok_outside caps c ts i t t' :
  gate_ok caps {| gt_counts := c; gt_tasks := ts |} -> ts !! i = Some t ->
  match t, t' with
  | (Inside _ | Leaving), _ | _, (Inside _ | Leaving) => False
  | _, Waiting s false => try_enter caps c s = None
  | _, _ => True
  end ->
  gate_ok caps {| gt_counts := c; gt_tasks := <[i := t']> ts |}.
Proof.
  intros [Ht Hs Hn Hc Hw] Hi Hm. cbn in *.
  assert (inside [t] = [] /\ inside [t'] = []) as [E E'] by (destruct t, t'; try done).
  assert (forall g k, members g k (inside (<[i:=t']> ts)) = members g k (inside ts)) as Em.
  { intros g k. destruct (inside_insert g k ts i t t' Hi) as [-> _]. rewrite E, E'. lia. }
  split; cbn.
  - destruct (inside_insert id (V4 0) ts i t t' Hi) as [_ ->]. rewrite E, E', Ht. cbn. lia.
  - eapply represents_ext; [done|]. by intros k.
  - eapply represents_ext; [done|]. by intros k.
  - intros k. rewrite !Em. apply Hc.
  - intros j s Hj. destruct (decide (i = j)) as [<-|Hne].
    + rewrite list_lookup_insert_eq in Hj by (by eapply lookup_lt_Some).
      simplify_eq. left. by destruct t.
    + rewrite list_lookup_insert_ne in Hj by done. destruct (Hw j s Hj) as [?|Hl]; [by left|right].
      apply list_elem_of_lookup_1 in Hl as [j' Hj']. apply (list_elem_of_lookup_2 _ j').
      rewrite list_lookup_insert_ne; [done|]. intros ->. rewrite Hi in Hj'. by simplify_eq.
Qed.

Lemma gate_ok_enter caps c ts i s w p c' :
  gate_ok caps {| gt_counts := c; gt_tasks := ts |} -> ts !! i = Some (Enabled s w) ->
  try_enter caps c s = Some (p, c') ->
  gate_ok caps {| gt_counts := c'; gt_tasks := <[i := Inside p]> ts |}.
Proof.
  intros [Ht Hs Hn Hc Hw] Hi He. cbn in *.
  pose proof (try_enter_Some _ _ _ _ _ He) as (-> & Ht' & Hs' & Hn' & E).
  assert (forall g k, members g k (inside (<[i:=Inside s]> ts))
    = members g k (inside ts) + if decide (g s = k) then 1 else 0) as Em.
  { intros g k. destruct (inside_insert g k ts i _ (Inside s) Hi) as [-> _].
    inside_one. lia. }
  rewrite (represents_default _ _ _ Hs) in Hs'. rewrite (represents_default _ _ _ Hn) in Hn'.
  split; cbn.
  - destruct (inside_insert id (V4 0) ts i _ (Inside s) Hi) as [_ ->]. rewrite E. inside_one. cbn. lia.
  - rewrite E. cbn. eapply represents_ext; [apply represents_increment; [done|unfold members; lia]|].
    intros k. by rewrite Em.
  - rewrite E. cbn. eapply represents_ext; [apply represents_increment; [done|unfold members; lia]|].
    intros k. by rewrite Em.
  - intros k ???. rewrite !Em, E. cbn. destruct (Hc k) as (?&?&?); [done..|].
    change (id s) with s.
    destruct (decide (network s = k)) as [En|], (decide (s = k)) as [Es|];
      rewrite ?En, ?Es in *; lia.
  - intros j s' Hj. destruct (decide (i = j)) as [<-|Hne].
    + rewrite list_lookup_insert_eq in Hj by (by eapply lookup_lt_Some). done.
    + rewrite list_lookup_insert_ne in Hj by done.
      destruct (Hw j s' Hj) as [?|Hl]; [left; by eapply refused_stays_refused|right].
      apply list_elem_of_lookup_1 in Hl as [j' Hj']. apply (list_elem_of_lookup_2 _ j').
      rewrite list_lookup_insert_ne; [done|]. intros ->. by rewrite Hi in Hj'.
Qed.

Lemma members_inside g ts i p : ts !! i = Some (Inside p) -> 0 < members g (g p) (inside ts).
Proof.
  intros Hi. unfold members.
  destruct (filter (fun q => g q = g p) (inside ts)) eqn:E; [|cbn; lia].
  assert (p ∈ filter (fun q => g q = g p) (inside ts)) as Hp; [|by rewrite E in Hp; set_solver].
  apply list_elem_of_filter. split; [done|]. apply list_elem_of_omap.
  exists (Inside p). split; [by eapply list_elem_of_lookup_2 | done].
Qed.

Lemma gate_ok_leave caps c ts i p :
  gate_ok caps {| gt_counts := c; gt_tasks := ts |} -> ts !! i = Some (Inside p) ->
  gate_ok caps {| gt_counts := leave c p; gt_tasks := <[i := Leaving]> ts |}.
Proof.
  intros [Ht Hs Hn Hc Hw] Hi. cbn in *.
  assert (forall g k, members g k (inside (<[i:=Leaving]> ts))
    = members g k (inside ts) - if decide (g p = k) then 1 else 0) as Em.
  { intros g k. destruct (inside_insert g k ts i _ Leaving Hi) as [-> _].
    inside_one. lia. }
  split; cbn.
  - destruct (inside_insert id (V4 0) ts i _ Leaving Hi) as [_ ->]. inside_one. lia.
  - eapply represents_ext; [apply represents_decrement; [done | by eapply (members_inside id)]|].
    intros k. by rewrite Em.
  - eapply represents_ext; [apply represents_decrement; [done | by eapply members_inside]|].
    intros k. by rewrite Em.
  - intros k ???. rewrite !Em. destruct (Hc k) as (?&?&?); [done..|]. repeat case_decide; lia.
  - intros j s _. right. eapply (list_elem_of_lookup_2 _ i).
    apply list_lookup_insert_eq. by eapply lookup_lt_Some.
Qed.

Lemma gate_ok_notify caps c ts i :
  gate_ok caps {| gt_counts := c; gt_tasks := ts |} -> ts !! i = Some Leaving ->
  gate_ok caps {| gt_counts := c; gt_tasks := <[i := Gone]> (wake <$> ts) |}.
Proof.
  intros [Ht Hs Hn Hc Hw] Hi. cbn in *.
  assert ((wake <$> ts) !! i = Some Leaving) as Hi' by (by rewrite list_lookup_fmap, Hi).
  assert (forall g k, members g k (inside (<[i:=Gone]> (wake <$> ts))) = members g k (inside ts)) as Em.
  { intros g k. destruct (inside_insert g k _ i _ Gone Hi') as [-> _]. rewrite inside_wake. inside_one. lia. }
  split; cbn.
  - destruct (inside_insert id (V4 0) _ i _ Gone Hi') as [_ ->]. rewrite inside_wake. inside_one. lia.
  - eapply represents_ext; [done|]. by intros k.
  - eapply represents_ext; [done|]. by intros k.
  - intros k. rewrite !Em. apply Hc.
  - intros j s Hj. exfalso. apply list_lookup_insert_Some in Hj as [(_ & ? & _)|[_ Hj]]; [done|].
    rewrite list_lookup_fmap in Hj. by destruct (ts !! j) as [[]|].
Qed.

Lemma gate_ok_step caps st st' : gate_ok caps st -> gate_step caps st st' -> gate_ok caps st'.
Proof.
  intros Hok Hstep. inversion Hstep as [c ts s|c ts i s Hi|c ts i s w p c' Hi He|c ts i s w Hi He
    |c ts i s Hi|c ts i p Hi|c ts i Hi|c ts i t Hi Hm]; subst.
  - destruct Hok as [Ht Hs Hn Hc Hw]. split; cbn in *; try done.
    intros [|j] s' Hj; [done|]. cbn in Hj. destruct (Hw j s' Hj); [by left | right; by right].
  - by eapply gate_ok_outside.
  - by eapply gate_ok_enter.
  - eapply gate_ok_outside; [done..|]. by destruct w.
  - by eapply gate_ok_outside.
  - by eapply gate_ok_leave.
  - by eapply gate_ok_notify.
  - eapply gate_ok_outside; [done..|]. by destruct t.
Qed.

Lemma gate_reachable_ok caps st : gate_reachable caps st -> gate_ok caps st.
Proof.
  assert (gate_ok caps gate_init) as Hi.
  { split; cbn; try done. }
  unfold gate_reachable. intros Hr. revert Hi. induction Hr; [done|]. eauto using gate_ok_step.
Qed.

(** However tasks arrive, enter, leave, wait and are cancelled, the gate's counts are
    exactly the passes held, and no source, network or the total is ever over its cap. *)
Theorem gate_counts_the_passes_held (caps : Caps) (st : gate_state) (k : SourceKey) :
  0 <= total caps -> 0 <= per_source caps -> 0 <= per_network caps -> gate_reachable caps st ->
  let held := inside (gt_tasks st) in
  cn_total (gt_counts st) = Z.of_nat (length held) /\
  default 0 (cn_sources (gt_counts st) !! k) = members id k held /\
  default 0 (cn_networks (gt_counts st) !! k) = members network k held /\
  Z.of_nat (length held) <= total caps /\
  members id k held <= per_source caps /\ members network k held <= per_network caps /\
  (held = [] -> gt_counts st = no_counts).
Proof.
  intros H1 H2 H3 Hr held. apply gate_reachable_ok in Hr as [Ht Hs Hn Hc _].
  destruct (Hc k H1 H2 H3) as (?&?&?). subst held.
  rewrite (represents_default _ _ _ Hs), (represents_default _ _ _ Hn). repeat split; try lia.
  intros E. destruct st as [[n ms mn] ts]. cbn in *. unfold no_counts. rewrite E in *. f_equal; [by rewrite Ht | |];
    apply map_eq; intros k'; [by rewrite Hs | by rewrite Hn].
Qed.

(** C39: no wakeup is lost: once every task that dropped its pass has notified, a task that
    still waits without having been notified is one the caps refuse. *)
Theorem gate_loses_no_wakeup (caps : Caps) (st : gate_state) (i : nat) (source : SourceKey) :
  gate_reachable caps st -> Leaving ∉ gt_tasks st ->
  gt_tasks st !! i = Some (Waiting source false) ->
  try_enter caps (gt_counts st) source = None.
Proof. intros Hr Hl Hw. apply gate_reachable_ok in Hr. by destruct (ok_waiting _ _ Hr i source Hw). Qed.

End GateTheorems.

Lemma gate_counts_the_passes_held_witness :
  let caps := {| per_source := 1; per_network := 1; total := 2 |} in
  let st := {| gt_counts := {| cn_total := 1; cn_sources := {[V4 7 := 1]}; cn_networks := {[V4 0 := 1]} |};
               gt_tasks := [Inside (V4 7)] |} in
  gate_reachable caps st /\ default 0 (cn_sources (gt_counts st) !! V4 7) = members id (V4 7) [V4 7].
Proof.
  intros caps st. assert (gate_reachable caps st) as Hr.
  { eapply rtc_l; [apply step_arrive with (s := V4 7)|].
    eapply rtc_l; [by eapply step_enable with (i := 0%nat)|].
    eapply rtc_l; [by eapply step_enter with (i := 0%nat)|]. apply rtc_refl. }
  split; [done|].
  by apply (gate_counts_the_passes_held caps st (V4 7)).
Defined.

Lemma gate_loses_no_wakeup_witness :
  let caps := {| per_source := 1; per_network := 1; total := 2 |} in
  try_enter caps {| cn_total := 1; cn_sources := {[V4 7 := 1]}; cn_networks := {[V4 0 := 1]} |} (V4 7) = None.
Proof.
  intros caps.
  apply (gate_loses_no_wakeup caps
    {| gt_counts := {| cn_total := 1; cn_sources := {[V4 7 := 1]}; cn_networks := {[V4 0 := 1]} |};
       gt_tasks := [Waiting (V4 7) false; Inside (V4 7)] |} 0).
  - eapply rtc_l; [apply step_arrive with (s := V4 7)|].
    eapply rtc_l; [by eapply step_enable with (i := 0%nat)|].
    eapply rtc_l; [by eapply step_enter with (i := 0%nat)|].
    eapply rtc_l; [apply step_arrive with (s := V4 7)|].
    eapply rtc_l; [by eapply step_enable with (i := 0%nat)|].
    eapply rtc_l; [by eapply step_refused with (i := 0%nat)|]. apply rtc_refl.
  - cbn. by rewrite !elem_of_cons, elem_of_nil; intros [?|[?|?]].
  - done.
Defined.

(** ** Theorems: arrivals *)

Section ArrivalTheorems.

(** Every bucket has its map's rate, and both maps have a rate. *)
Definition metered {K : Type} `{Countable K} (bs : Buckets f64 K) : Prop :=
  a_rate_ok (bs_per_second bs) = true /\
  forall k b, bs_buckets bs !! k = Some b -> tb_per_second b = bs_per_second bs.

Lemma metered_bucket {K} `{Countable K} (bs : Buckets f64 K) k now bs' b :
  metered bs -> buckets_bucket bs k now = (bs', b) ->
  metered bs' /\ tb_per_second b = bs_per_second bs' /\ a_rate_ok (tb_per_second b) = true /\
  exists t, bs_next_sweep bs' = Some t /\ (now <? t) = true.
Proof.
  intros [Hr Hb] E. unfold buckets_bucket in E. injection E as <- <-.
  set (bs' := swept bs now).
  assert (metered bs' /\ exists t, bs_next_sweep bs' = Some t /\ (now <? t) = true) as [[Hr' Hb'] Ht].
  { subst bs'. unfold swept. destruct (bs_next_sweep bs) as [t|] eqn:En; [destruct (t <=? now) eqn:Et|]; cbn.
    2: split; [done|]; exists t; split; [done|lia].
    all: split; [|exists (now + BUCKET_SWEEP); split; [done | unfold BUCKET_SWEEP, second; lia]].
    all: split; [done|]; intros k' b'; cbn; unfold buckets_sweep; rewrite lookup_omap_Some;
      intros (b0 & Hs & Hk); cbn in Hs; case_match; [done|]; simplify_eq; cbn; by eapply Hb. }
  destruct (bs_buckets bs' !! k) as [b|] eqn:Ek; cbn.
  - rewrite (Hb' _ _ Ek). done.
  - done.
Qed.

(** A bucket that holds a cost still holds it at the same instant. *)
Lemma take_after_holds {K} `{Countable K} (bs : Buckets f64 K) k c now bs' :
  metered bs -> buckets_holds bs k c now = (true, bs') ->
  metered bs' /\ exists bs'', buckets_take bs' k c now = (true, bs'') /\ metered bs''.
Proof.
  intros Hm. unfold buckets_holds. destruct (buckets_bucket bs k now) as [bs1 b] eqn:E.
  destruct (metered_bucket _ _ _ _ _ Hm E) as (Hm1 & Hrb & Hr & t & Ht & Hlt).
  unfold tb_holds. intros [Hc <-]%pair_eq.
  assert (metered (buckets_put bs1 k (tb_refill b now))) as Hm2.
  { destruct Hm1 as [? Hb1]. split; [done|]. intros k' b'. cbn.
    rewrite lookup_insert_Some. intros [[_ <-]|[_ ?]]; [done | by eapply Hb1]. }
  split; [done|]. unfold buckets_take, buckets_bucket, swept. cbn [bs_next_sweep buckets_put]. rewrite Ht.
  replace (t <=? now) with false by lia. cbn [buckets_put bs_buckets bs_capacity bs_per_second].
  rewrite lookup_insert_eq. cbn [default from_option]. unfold id, tb_take, tb_holds.
  rewrite held_again, Hc by done.
  eexists. split; [done|]. destruct Hm2 as [? Hb2]. split; [done|]. intros k' b'. cbn.
  rewrite lookup_insert_Some. intros [[_ <-]|[? Hk]]; [done|].
  rewrite lookup_insert_ne in Hk by done. by apply Hm1 in Hk.
Qed.

Lemma metered_holds {K} `{Countable K} (bs : Buckets f64 K) k c now :
  metered bs -> metered (buckets_holds bs k c now).2.
Proof.
  intros Hm. unfold buckets_holds. destruct (buckets_bucket bs k now) as [bs1 b] eqn:E.
  destruct (metered_bucket _ _ _ _ _ Hm E) as ([? Hb1] & Hrb & _). split; [done|]. intros k' b'. cbn.
  rewrite lookup_insert_Some. intros [[_ <-]|[_ ?]]; [done | by eapply Hb1].
Qed.

(** [arrival_admit] in two cases. *)
Lemma admit_cases (a : ArrivalLimiter f64) source now :
  metered (al_sources a) -> metered (al_networks a) ->
  let hs := buckets_holds (al_sources a) source (a_of_Z 1) now in
  let hn := buckets_holds (al_networks a) (network source) (a_of_Z 1) now in
  (arrival_admit a source now =
    if hs.1 && hn.1
    then (true, {| al_sources := (buckets_take hs.2 source (a_of_Z 1) now).2;
                   al_networks := (buckets_take hn.2 (network source) (a_of_Z 1) now).2 |})
    else (false, {| al_sources := hs.2; al_networks := if hs.1 then hn.2 else al_networks a |})) /\
  metered (al_sources (arrival_admit a source now).2) /\ metered (al_networks (arrival_admit a source now).2).
Proof.
  intros Hs Hn hs hn. unfold arrival_admit. change (buckets_holds (al_sources a) _ _ _) with hs.
  pose proof (metered_holds (al_sources a) source (a_of_Z 1) now Hs) as Hs'. fold hs in Hs'.
  pose proof (metered_holds (al_networks a) (network source) (a_of_Z 1) now Hn) as Hn'. fold hn in Hn'.
  change (buckets_holds (al_networks a) _ _ _) with hn.
  destruct hs as [[] sources] eqn:Ehs; [|done]. destruct hn as [[] networks] eqn:Ehn; [|done].
  destruct (take_after_holds _ _ _ _ _ Hs Ehs) as (_ & s' & E1 & Hs'').
  destruct (take_after_holds _ _ _ _ _ Hn Ehn) as (_ & n' & E2 & Hn'').
  cbn [fst snd andb negb]. rewrite E1, E2. done.
Qed.

(** The limiter after a history of arrivals. *)
Definition after_arrivals (past : list (SourceKey * Z)) : ArrivalLimiter f64 :=
  foldl (fun a '(s, now) => (arrival_admit a s now).2) arrival_default past.

Lemma after_arrivals_metered past :
  metered (al_sources (after_arrivals past)) /\ metered (al_networks (after_arrivals past)).
Proof.
  unfold after_arrivals. induction past as [|[s now] past [IHs IHn]] using rev_ind; [by split|].
  rewrite foldl_app. cbn [foldl]. by apply admit_cases.
Qed.

(** After any history of arrivals, a connection is admitted exactly when its source and
    its network both hold a token; then both are charged, and otherwise neither: the takes
    that follow the checks cannot fail, in [f64] as the server computes. *)
Theorem admit_charges_both_or_neither (past : list (SourceKey * Z)) (source : SourceKey) (now : Z) :
  let a := after_arrivals past in
  let hs := buckets_holds (al_sources a) source (a_of_Z 1) now in
  let hn := buckets_holds (al_networks a) (network source) (a_of_Z 1) now in
  let ts := buckets_take hs.2 source (a_of_Z 1) now in
  let tn := buckets_take hn.2 (network source) (a_of_Z 1) now in
  arrival_admit a source now =
    (if hs.1 && hn.1 then (true, {| al_sources := ts.2; al_networks := tn.2 |})
     else (false, {| al_sources := hs.2; al_networks := if hs.1 then hn.2 else al_networks a |})) /\
  (hs.1 = true -> hn.1 = true -> ts.1 = true /\ tn.1 = true).
Proof.
  destruct (after_arrivals_metered past) as [Hs Hn]. intros a hs hn ts tn.
  split; [by apply admit_cases|]. intros H1 H2.
  destruct hs as [b sources] eqn:Ehs, hn as [b' networks] eqn:Ehn.
  cbn [fst] in H1, H2. subst b b'.
  destruct (take_after_holds _ _ _ _ _ Hs Ehs) as (_ & s' & E1 & _).
  destruct (take_after_holds _ _ _ _ _ Hn Ehn) as (_ & n' & E2 & _).
  subst ts tn. cbn [fst snd]. by rewrite E1, E2.
Qed.

End ArrivalTheorems.

(** ** Theorems: enrollment runs *)

Inductive run_event := Begin (source : SourceKey) (now : Z) | Forgive (source : SourceKey).

(** The limiter with the history of runs admitted and of runs forgiven. *)
Record run_history := {
  rh_limiter : SourceLimiter;
  rh_admitted : list (SourceKey * Z);
  rh_forgiven : list SourceKey
}.

Definition run_step (h : run_history) (ev : run_event) : run_history :=
  match ev with
  | Begin s now =>
      let '(ok, l) := begin (rh_limiter h) s now in
      {| rh_limiter := l;
         rh_admitted := if ok then (s, now) :: rh_admitted h else rh_admitted h;
         rh_forgiven := rh_forgiven h |}
  | Forgive s =>
      {| rh_limiter := forgive (rh_limiter h) s; rh_admitted := rh_admitted h;
         rh_forgiven := s :: rh_forgiven h |}
  end.

Definition run_after (evs : list run_event) : run_history :=
  foldl run_step {| rh_limiter := limiter_default; rh_admitted := []; rh_forgiven := [] |} evs.

(** The runs begin at times that do not go back, the last no later than [now]. *)
Fixpoint runs_in_order (evs : list run_event) (start now : Z) : Prop :=
  match evs with
  | [] => start <= now
  | Begin _ t :: evs => start <= t /\ runs_in_order evs t now
  | Forgive _ :: evs => runs_in_order evs start now
  end.

(** Runs of [k]'s group admitted at [cut] or later. *)
Definition runs_since (group : SourceKey -> SourceKey) (k : SourceKey) (cut : Z) (runs : list (SourceKey * Z)) : Z :=
  Z.of_nat (length (filter (fun r => group r.1 = k /\ cut <= r.2) runs)).

Section RunTheorems.
Implicit Types (w : gmap SourceKey (list Z)).

Definition at_least (cut : Z) (times : list Z) : Z := Z.of_nat (length (filter (fun t => cut <= t) times)).

Lemma at_least_app c l l' : at_least c (l ++ l') = at_least c l + at_least c l'.
Proof. unfold at_least. rewrite list.filter_app, length_app. lia. Qed.

Lemma at_least_cons c t l : at_least c (t :: l) = (if decide (c <= t) then 1 else 0) + at_least c l.
Proof. unfold at_least. rewrite filter_cons. case_decide; cbn [length]; lia. Qed.

Lemma at_least_length c l : at_least c l <= Z.of_nat (length l).
Proof. unfold at_least. pose proof (length_filter (fun t => c <= t) l). lia. Qed.

Lemma at_least_expire c now l : now - SOURCE_WINDOW <= c -> at_least c (expire l now) = at_least c l.
Proof.
  intros Hc. induction l as [|t l IH]; [done|]. cbn [expire].
  destruct (SOURCE_WINDOW <? since now t) eqn:E; [|done].
  rewrite IH, at_least_cons. case_decide; [|done].
  unfold since, sat_sub, SOURCE_WINDOW, second in *. lia.
Qed.

Lemma at_least_pop c l : at_least c l - 1 <= at_least c (take (length l - 1) l).
Proof.
  destruct l as [|t l _] using rev_ind; [done|].
  rewrite length_app, at_least_app. cbn [length]. rewrite Nat.add_sub, take_app_length.
  rewrite at_least_cons. case_decide; unfold at_least; cbn; lia.
Qed.

(** What the map still says of [k] since [cut]. *)
Definition recorded w k cut : Z := at_least cut (default [] (w !! k)).

Lemma recorded_expire_all w k c now : now - SOURCE_WINDOW <= c -> recorded (expire_all w now) k c = recorded w k c.
Proof.
  intros Hc. unfold recorded, expire_all. rewrite lookup_omap. destruct (w !! k) as [l|]; [|done]. cbn.
  rewrite <- (at_least_expire c now l) by done. by destruct (expire l now).
Qed.

Lemma run_count_spec w key now n w' :
  run_count w key now = (n, w') ->
  (forall k c, now - SOURCE_WINDOW <= c -> recorded w' k c = recorded w k c) /\
  (forall c, now - SOURCE_WINDOW <= c -> recorded w key c <= n).
Proof.
  unfold run_count, recorded. destruct (w !! key) as [l|] eqn:E; intros [= <- <-]; split; try done.
  - intros k c Hc. destruct (decide (key = k)) as [->|].
    + rewrite lookup_insert_eq, E. cbn. by apply at_least_expire.
    + by rewrite lookup_insert_ne.
  - intros c Hc. cbn. rewrite <- (at_least_expire c now) by done. apply at_least_length.
Qed.

Lemma recorded_record w key now k c :
  recorded (record w key now) k c = recorded w k c + if decide (key = k /\ c <= now) then 1 else 0.
Proof.
  unfold recorded, record. destruct (decide (key = k)) as [->|].
  - rewrite lookup_insert_eq. cbn. rewrite at_least_app, at_least_cons.
    repeat case_decide; try tauto; unfold at_least; cbn; lia.
  - rewrite lookup_insert_ne by done. rewrite decide_False by tauto. lia.
Qed.

Lemma recorded_forgive w key k c :
  recorded w k c - (if decide (key = k) then 1 else 0) <= recorded (run_forgive w key) k c.
Proof.
  unfold recorded, run_forgive. destruct (w !! key) as [l|] eqn:E; [|case_decide; lia].
  destruct (decide (key = k)) as [->|].
  - rewrite lookup_insert_eq, E. apply at_least_pop.
  - rewrite lookup_insert_ne by done. lia.
Qed.

(** One window bounds its group's runs by [limit], forgiven ones apart. *)
Definition window_ok w (group : SourceKey -> SourceKey) (limit now : Z)
    (admitted : list (SourceKey * Z)) (forgiven : list SourceKey) : Prop :=
  forall k c, now - SOURCE_WINDOW <= c ->
    runs_since group k c admitted <= recorded w k c + members group k forgiven /\
    runs_since group k c admitted <= limit + members group k forgiven.

Lemma window_same w w' g n now now' a f :
  window_ok w g n now a f -> now <= now' ->
  (forall k c, now' - SOURCE_WINDOW <= c -> recorded w' k c = recorded w k c) ->
  window_ok w' g n now' a f.
Proof. intros Hw Hle E k c Hc. rewrite E by done. apply Hw. lia. Qed.

Lemma runs_since_cons g k c s t a :
  runs_since g k c ((s, t) :: a) = (if decide (g s = k /\ c <= t) then 1 else 0) + runs_since g k c a.
Proof.
  unfold runs_since. rewrite filter_cons. cbn [fst snd]. repeat case_decide; try tauto; cbn [length]; lia.
Qed.

Lemma members_cons g k s f : members g k (s :: f) = (if decide (g s = k) then 1 else 0) + members g k f.
Proof. change (s :: f) with ([s] ++ f). by rewrite members_app, members_one. Qed.

Lemma window_record w g n now a f s :
  window_ok w g n now a f ->
  (forall c, now - SOURCE_WINDOW <= c -> recorded w (g s) c < n) ->
  window_ok (record w (g s) now) g n now ((s, now) :: a) f.
Proof.
  intros Hw Hn k c Hc. destruct (Hw k c Hc). rewrite recorded_record, runs_since_cons.
  case_decide as Hd; [|lia]. destruct Hd as [<- _]. pose proof (Hn c Hc). lia.
Qed.

Lemma window_forgive w g n now a f s :
  window_ok w g n now a f -> window_ok (run_forgive w (g s)) g n now a (s :: f).
Proof.
  intros Hw k c Hc. destruct (Hw k c Hc). pose proof (recorded_forgive w (g s) k c).
  rewrite members_cons. case_decide; lia.
Qed.

Definition limiter_ok (l : SourceLimiter) (now : Z) a f : Prop :=
  window_ok (sl_sources l) id SOURCE_RUNS now a f /\
  window_ok (sl_networks l) network NETWORK_RUNS now a f /\
  window_ok (sl_regions l) region REGION_RUNS now a f.

Lemma limiter_sweep_ok l now now' a f :
  limiter_ok l now a f -> now <= now' -> limiter_ok (limiter_sweep l now') now' a f.
Proof.
  intros (H1 & H2 & H3) Hle. unfold limiter_sweep. case_match;
    (split; [|split]); (eapply window_same; [done | done |]); intros; cbn;
    rewrite ?recorded_expire_all by done; done.
Qed.

Lemma begin_ok l s now now' a f ok l' :
  limiter_ok l now a f -> now <= now' -> begin l s now' = (ok, l') ->
  limiter_ok l' now' (if ok then (s, now') :: a else a) f.
Proof.
  intros Hl Hle. destruct (limiter_sweep_ok _ _ now' _ _ Hl Hle) as (H1 & H2 & H3). unfold begin.
  destruct (run_count _ s now') as [n1 w1] eqn:E1. destruct (run_count_spec _ _ _ _ _ E1) as [S1 N1].
  pose proof (window_same _ w1 _ _ _ now' _ _ H1 (Z.le_refl _) S1) as H1'.
  case_match eqn:L1; [intros [= <- <-]; by split|].
  destruct (run_count _ (network s) now') as [n2 w2] eqn:E2. destruct (run_count_spec _ _ _ _ _ E2) as [S2 N2].
  pose proof (window_same _ w2 _ _ _ now' _ _ H2 (Z.le_refl _) S2) as H2'.
  case_match eqn:L2; [intros [= <- <-]; by split|].
  destruct (run_count _ (region s) now') as [n3 w3] eqn:E3. destruct (run_count_spec _ _ _ _ _ E3) as [S3 N3].
  pose proof (window_same _ w3 _ _ _ now' _ _ H3 (Z.le_refl _) S3) as H3'.
  case_match eqn:L3; intros [= <- <-]; [by split|].
  split; [|split]; cbn; [apply (window_record _ id)| apply window_record | apply window_record]; try done;
    intros c Hc; rewrite ?S1, ?S2, ?S3 by done;
    [specialize (N1 c Hc) | specialize (N2 c Hc) | specialize (N3 c Hc)]; unfold id; lia.
Qed.

Lemma run_events_ok evs h start now :
  limiter_ok (rh_limiter h) start (rh_admitted h) (rh_forgiven h) -> runs_in_order evs start now ->
  let h' := foldl run_step h evs in
  limiter_ok (rh_limiter h') now (rh_admitted h') (rh_forgiven h').
Proof.
  revert h start. induction evs as [|[s t|s] evs IH]; intros h start Hl Ho; cbn [foldl].
  - destruct Hl as (?&?&?). split; [|split]; eapply window_same; done.
  - destruct Ho as [Hle Ho]. eapply IH; [|done]. cbn.
    destruct (begin (rh_limiter h) s t) as [ok l'] eqn:E. cbn. by eapply begin_ok.
  - eapply IH; [|done]. cbn. destruct Hl as (?&?&?).
    split; [|split]; cbn; [apply (window_forgive _ id)|apply window_forgive|apply window_forgive]; done.
Qed.

End RunTheorems.

(** At any time, at most 10 runs of a source, 30 of a network and 100 of a region that
    were not forgiven were admitted in the last ten minutes. *)
Theorem runs_are_window_bounded (evs : list run_event) (start now : Z) (s : SourceKey) :
  runs_in_order evs start now ->
  let h := run_after evs in
  let cut := now - SOURCE_WINDOW in
  runs_since id s cut (rh_admitted h) <= SOURCE_RUNS + members id s (rh_forgiven h) /\
  runs_since network (network s) cut (rh_admitted h) <= NETWORK_RUNS + members network (network s) (rh_forgiven h) /\
  runs_since region (region s) cut (rh_admitted h) <= REGION_RUNS + members region (region s) (rh_forgiven h).
Proof.
  intros Ho h cut. destruct (run_events_ok evs {| rh_limiter := limiter_default; rh_admitted := []; rh_forgiven := [] |}
    start now) as (H1 & H2 & H3); [|done|].
  - split; [|split]; intros k c _; by split.
  - split; [|split]; [apply H1 | apply H2 | apply H3]; done.
Qed.

Lemma runs_are_window_bounded_witness :
  let evs := repeat (Begin (V4 7) second) 12 ++ [Forgive (V4 7); Begin (V4 7) second] in
  length (rh_admitted (run_after evs)) = 11%nat /\
  runs_since id (V4 7) (second - SOURCE_WINDOW) (rh_admitted (run_after evs))
    <= SOURCE_RUNS + members id (V4 7) (rh_forgiven (run_after evs)).
Proof.
  intros evs. split; [by vm_compute|].
  apply (runs_are_window_bounded evs 0 second (V4 7)). subst evs. cbn. unfold second. lia.
Defined.
