(* ===== verification/RoomPassword.v ===== *)
(** * Room passwords (throcc-server, room_password.rs, refusals.rs)

    The backoff that wrong guesses at a room's password run into, per user and room, and the
    allowance of a room.  Argon2id, its salts and PHC strings are parameters. *)
From S2P Require Import Prelude Float64 Buckets Ids Messages.
Open Scope Z_scope.

Section Hashing.
(** [Argon2::hash_password_with_salt] and [verify_password], and the salt drawn. *)
Context (hash_password_with_salt : str -> bytes -> option str) (verify_password : str -> str -> bool).

(* @src/crates/throcc-server/src/room_password.rs 24-31 hash *)
Definition hash (salt : bytes) (password : str) : option str := hash_password_with_salt password salt.

(* @src/crates/throcc-server/src/room_password.rs 33-37 matches *)
Definition matches (password h : str) : bool := verify_password password h.
End Hashing.

(* @src/crates/throcc-server/src/room_password.rs 11-12 FREE_FAILURES *)
Definition FREE_FAILURES : Z := 5.
(* @src/crates/throcc-server/src/room_password.rs 13-14 FIRST_WAIT *)
Definition FIRST_WAIT : Z := 10 * second.
(* @src/crates/throcc-server/src/room_password.rs 15-15 LONGEST_WAIT *)
Definition LONGEST_WAIT : Z := 60 * 60 * second.
(* @src/crates/throcc-server/src/room_password.rs 16-17 FAILURE_MEMORY *)
Definition FAILURE_MEMORY : Z := 24 * 60 * 60 * second.
(* @src/crates/throcc-server/src/room_password.rs 18-18 FAILURE_SWEEP *)
Definition FAILURE_SWEEP : Z := 60 * second.

(* @src/crates/throcc-server/src/room_password.rs 39-46 Wait *)
Inductive Wait := WaitUser (left : Z) | WaitRoom.

(* @src/crates/throcc-server/src/room_password.rs 48-52 Failures *)
Record Failures := { fl_count : Z; fl_last : Z }.

(** [saturating_mul] stays far below the longest [Duration]. *)
(* @src/crates/throcc-server/src/room_password.rs 55-61 Failures::next_try *)
Definition next_try (f : Failures) : Z :=
  match checked_sub (fl_count f) FREE_FAILURES with
  | None => fl_last f
  | Some extra =>
      let wait := FIRST_WAIT * Z.shiftl 1 (Z.min extra 16) in
      fl_last f + Z.min wait LONGEST_WAIT
  end.

Section Guesses.
Context {F : Type} `{!Arith F}.

(* @src/crates/throcc-server/src/room_password.rs 19-21 ROOM_FAILURES *)
Definition ROOM_FAILURES : F := a_of_Z 100.
(* @src/crates/throcc-server/src/room_password.rs 22-22 ROOM_FAILURES_PER_SECOND *)
Definition ROOM_FAILURES_PER_SECOND : F := a_div ROOM_FAILURES (a_of_Z 3600).

(* @src/crates/throcc-server/src/room_password.rs 64-70 Guesses *)
Record Guesses := {
  gs_users : gmap (UserId * RoomId) Failures;
  gs_rooms : Buckets F Z;
  gs_next_sweep : option Z
}.

(* @src/crates/throcc-server/src/room_password.rs 72-80 Default for Guesses *)
Definition guesses_default : Guesses :=
  {| gs_users := ∅; gs_rooms := buckets_new ROOM_FAILURES ROOM_FAILURES_PER_SECOND; gs_next_sweep := None |}.

(** [None] is [Ok(())]. *)
(* @src/crates/throcc-server/src/room_password.rs 83-95 Guesses::check *)
Definition guesses_check (g : Guesses) (user : UserId) (room : RoomId) (now : Z) : option Wait * Guesses :=
  match gs_users g !! (user, room) with
  | None => (None, g)
  | Some failures =>
      let next := next_try failures in
      if now <? next then (Some (WaitUser (next - now)), g)
      else
        let '(held, rooms) := buckets_holds (gs_rooms g) room (a_of_Z 1) now in
        let g := {| gs_users := gs_users g; gs_rooms := rooms; gs_next_sweep := gs_next_sweep g |} in
        if held then (None, g) else (Some WaitRoom, g)
  end.

(** [retain] of the failures of the last day. *)
Definition guesses_sweep (g : Guesses) (now : Z) : Guesses :=
  if match gs_next_sweep g with None => true | Some t => t <=? now end
  then {| gs_users := filter (fun '(_, f) => since now (fl_last f) < FAILURE_MEMORY) (gs_users g);
          gs_rooms := gs_rooms g; gs_next_sweep := Some (now + FAILURE_SWEEP) |}
  else g.

(** The user's wrong guesses at the room so far, and whether the allowance is used up. *)
(* @src/crates/throcc-server/src/room_password.rs 97-113 Guesses::failed *)
Definition guesses_failed (g : Guesses) (user : UserId) (room : RoomId) (now : Z) : Z * bool * Guesses :=
  let g := guesses_sweep g now in
  let '(taken, rooms) := buckets_take (gs_rooms g) room (a_of_Z 1) now in
  let failures := default {| fl_count := 0; fl_last := now |} (gs_users g !! (user, room)) in
  let count := wrap32 (fl_count failures + 1) in
  (count, negb taken,
   {| gs_users := <[(user, room) := {| fl_count := count; fl_last := now |}]> (gs_users g);
      gs_rooms := rooms; gs_next_sweep := gs_next_sweep g |}).

(* @src/crates/throcc-server/src/room_password.rs 115-117 Guesses::succeeded *)
Definition guesses_succeeded (g : Guesses) (user : UserId) (room : RoomId) : Guesses :=
  {| gs_users := delete (user, room) (gs_users g); gs_rooms := gs_rooms g; gs_next_sweep := gs_next_sweep g |}.

End Guesses.

Arguments Guesses F : clear implicits.

(** ** Refusal counts *)

(** [&'static str] reasons are strings; [report] returns the lines it logs. *)
(* @src/crates/throcc-server/src/refusals.rs 19-21 RefusalLog::count *)
Definition refusal_count (log : gmap string Z) (reason : string) : gmap string Z :=
  <[reason := wrap64 (default 0 (log !! reason) + 1)]> log.

(* @src/crates/throcc-server/src/refusals.rs 23-33 RefusalLog::report *)
Definition refusal_report (log : gmap string Z) : list (string * Z) * gmap string Z :=
  (map_to_list log, ∅).

(** ** Theorems *)

(** A guess that was answered as wrong. *)
Record attempt := { at_user : UserId; at_room : RoomId; at_time : Z }.

(** A guess passes the check as it is asked, then waits for Argon2 outside the hub's lock, and
    is answered when the lock is taken again.  A connection's requests are carried out one at
    a time and a user has one current connection, so they have one guess underway at most; one
    whose connection was replaced meanwhile is neither counted nor told whether it was right. *)
Inductive guess_op :=
| Guess (user : UserId) (room : RoomId) (now : Z)
| Answer (user : UserId) (room : RoomId) (correct : bool) (now : Z)
| Replaced (user : UserId).
(** The guesses counted, those underway, and those answered as wrong, latest first. *)
Record Guessing (F : Type) := mkGuessing { gg_guesses : Guesses F; gg_underway : gmap UserId RoomId; gg_wrong : list attempt }.
Arguments mkGuessing {F}. Arguments gg_guesses {F}. Arguments gg_underway {F}. Arguments gg_wrong {F}.
(* @src/crates/throcc-server/src/rooms.rs 686-737! Hub::join, Hub::finish_join *)
Definition guess_step {F} `{!Arith F} (s : Guessing F) (op : guess_op) : Guessing F :=
  match op with
  | Guess user room now =>
      match gg_underway s !! user with
      | Some _ => s
      | None =>
          let '(wait, g) := guesses_check (gg_guesses s) user room now in
          mkGuessing g (match wait with None => <[user := room]> (gg_underway s) | Some _ => gg_underway s end) (gg_wrong s)
      end
  | Answer user room correct now =>
      if decide (gg_underway s !! user = Some room) then
        if correct then mkGuessing (guesses_succeeded (gg_guesses s) user room) (delete user (gg_underway s)) (gg_wrong s)
        else mkGuessing (guesses_failed (gg_guesses s) user room now).2 (delete user (gg_underway s)) ({| at_user := user; at_room := room; at_time := now |} :: gg_wrong s)
      else s
  | Replaced user => mkGuessing (gg_guesses s) (delete user (gg_underway s)) (gg_wrong s)
  end.
Definition guess_run {F} `{!Arith F} (ops : list guess_op) : Guessing F := foldl guess_step (mkGuessing guesses_default ∅ []) ops.

Definition op_time (before : Z) (op : guess_op) : Z := match op with Guess _ _ now | Answer _ _ _ now => now | Replaced _ => before end.
Fixpoint ops_in_order (start : Z) (ops : list guess_op) : Prop :=
  match ops with [] => True | op :: ops => start <= op_time start op /\ ops_in_order (op_time start op) ops end.

(** The wrong guesses of [user] at [room] in [since, since + 24h). *)
Definition wrong_in_day (user : UserId) (room : RoomId) (from : Z) (l : list attempt) : list attempt :=
  filter (fun a => at_user a = user /\ at_room a = room /\ from <= at_time a < from + FAILURE_MEMORY) l.

Section Theorems.

(** The wait after [n] wrong guesses. *)
Definition backoff (n : Z) : Z := next_try {| fl_count := n; fl_last := 0 |}.

Lemma next_try_backoff n t : next_try {| fl_count := n; fl_last := t |} = t + backoff n.
Proof. unfold backoff, next_try. cbn. case_match; lia. Qed.

Lemma backoff_mono m n : 0 <= m <= n -> backoff m <= backoff n.
Proof.
  intros H. unfold backoff, next_try, checked_sub, FREE_FAILURES. cbn [fl_count fl_last].
  assert (forall k, 0 <= k -> 1 <= Z.shiftl 1 (Z.min k 16)) as Hp.
  { intros k Hk. rewrite Z.shiftl_mul_pow2 by lia. pose proof (Z.pow_pos_nonneg 2 (Z.min k 16)). lia. }
  destruct (5 <=? m) eqn:Em, (5 <=? n) eqn:En; try lia.
  - assert (Z.shiftl 1 (Z.min (m - 5) 16) <= Z.shiftl 1 (Z.min (n - 5) 16)); [|unfold FIRST_WAIT, second; lia].
    rewrite !Z.shiftl_mul_pow2 by lia. apply Z.mul_le_mono_nonneg_l; [lia|].
    apply Z.pow_le_mono_r; lia.
  - pose proof (Hp (n - 5)). unfold FIRST_WAIT, LONGEST_WAIT, second. lia.
Qed.

(** The time [n] wrong guesses in a row take. *)
Fixpoint time_of (n : nat) : Z :=
  match n with O | S O => 0 | S (S _ as m) => time_of m + backoff (Z.of_nat m) end.

Lemma time_of_S n : (0 < n)%nat -> time_of (S n) = time_of n + backoff (Z.of_nat n).
Proof. by destruct n; [lia|]. Qed.

Lemma time_of_le m n : (m <= n)%nat -> time_of m <= time_of n.
Proof.
  intros H. induction H as [|n H IH]; [lia|]. destruct n as [|n]; [by destruct m; [|lia]|].
  rewrite time_of_S by lia. pose proof (backoff_mono 0 (Z.of_nat (S n))).
  change (backoff 0) with 0 in *. lia.
Qed.

Context {F : Type} `{!Arith F} (user : UserId) (room : RoomId) (from : Z).
Implicit Types (g : Guesses F) (wrong : list attempt).

(** The entry of [user] at [room] after [k] attempts, the last at [now]. *)
Record guesses_ok g wrong (now k : Z) : Prop := {
  gk_entry f : gs_users g !! (user, room) = Some f -> 0 <= fl_count f <= k;
  gk_last a d : wrong_in_day user room from wrong = a :: d ->
    from + time_of (S (length d)) <= at_time a < from + FAILURE_MEMORY /\ at_time a <= now /\
    (now < from + FAILURE_MEMORY -> exists f, gs_users g !! (user, room) = Some f /\
      fl_last f = at_time a /\ Z.of_nat (S (length d)) <= fl_count f)
}.

Lemma guesses_check_users g u r now w g' :
  guesses_check g u r now = (w, g') ->
  gs_users g' = gs_users g /\
  (w = None -> forall f, gs_users g !! (u, r) = Some f -> next_try f <= now).
Proof.
  unfold guesses_check. destruct (gs_users g !! (u, r)) as [f|] eqn:E.
  - case_match eqn:Hn; [by intros [= <- <-]|].
    destruct (buckets_holds _ _ _ _) as [[] rooms]; intros [= <- <-]; split; try done.
    intros _ f' [= <-]. lia.
  - by intros [= <- <-].
Qed.

Lemma sweep_keeps g now f p :
  gs_users g !! p = Some f -> now < fl_last f + FAILURE_MEMORY ->
  gs_users (guesses_sweep g now) !! p = Some f.
Proof.
  intros Hf Hn. unfold guesses_sweep. case_match; [|done]. cbn.
  rewrite map_lookup_filter_Some. split; [done|]. unfold since, sat_sub, FAILURE_MEMORY, second in *. lia.
Qed.

Lemma sweep_entry g now f p : gs_users (guesses_sweep g now) !! p = Some f -> gs_users g !! p = Some f.
Proof. unfold guesses_sweep. case_match; [|done]. cbn. by intros [? _]%map_lookup_filter_Some. Qed.

Lemma guesses_failed_users g u r now :
  gs_users (guesses_failed g u r now).2 =
  <[(u, r) := {| fl_count := wrap32 (default 0 (fl_count <$> gs_users (guesses_sweep g now) !! (u, r)) + 1);
                 fl_last := now |}]> (gs_users (guesses_sweep g now)).
Proof.
  unfold guesses_failed. destruct (buckets_take _ _ _ _). cbn. by destruct (_ !! _).
Qed.

Lemma wrong_in_day_cons a wrong :
  wrong_in_day user room from (a :: wrong) =
  if decide (at_user a = user /\ at_room a = room /\ from <= at_time a < from + FAILURE_MEMORY)
  then a :: wrong_in_day user room from wrong else wrong_in_day user room from wrong.
Proof. unfold wrong_in_day. by rewrite filter_cons. Qed.

Lemma guesses_ok_later g wrong now k now' k' :
  guesses_ok g wrong now k -> now <= now' -> k <= k' -> guesses_ok g wrong now' k'.
Proof.
  intros [He Hl] Hn Hk. split.
  - intros f Hf. specialize (He f Hf). lia.
  - intros a d Hd. destruct (Hl a d Hd) as (? & ? & Hf). split; [done|]. split; [lia|]. intros. apply Hf. lia.
Qed.

(** A wrong guess by someone else, or at another room. *)
Lemma guesses_ok_other g wrong u r now k :
  guesses_ok g wrong now k -> (u, r) <> (user, room) ->
  guesses_ok (guesses_failed g u r now).2 wrong now k.
Proof.
  intros [He Hl] Hne. split.
  - intros f. rewrite guesses_failed_users, lookup_insert_ne by done. intros Hf%sweep_entry. eauto.
  - intros a d Hd. destruct (Hl a d Hd) as (Ht & Hle & Hf). split; [done|]. split; [done|]. intros Hn.
    destruct (Hf Hn) as (f & Hf1 & Hf2 & Hf3). exists f. split; [|done].
    rewrite guesses_failed_users, lookup_insert_ne by done. apply sweep_keeps; [done|].
    assert (0 <= time_of (S (length d))) by (apply (time_of_le 0); lia). lia.
Qed.

(** A wrong guess of [user] at [room] that passed the check. *)
Lemma guesses_ok_wrong g wrong a now k :
  guesses_ok g wrong now k -> at_user a = user -> at_room a = room -> at_time a = now ->
  (forall f, gs_users g !! (user, room) = Some f -> next_try f <= now) -> 0 <= k < u32_max ->
  guesses_ok (guesses_failed g user room now).2 (a :: wrong) now (k + 1).
Proof.
  intros [He Hl] Hu Hr Ht Hok Hk.
  set (n := default 0 (fl_count <$> gs_users (guesses_sweep g now) !! (user, room))).
  assert (0 <= n <= k) as Hn.
  { subst n. destruct (gs_users (guesses_sweep g now) !! (user, room)) as [f|] eqn:E; [|cbn; lia].
    apply sweep_entry in E. by apply He. }
  assert (wrap32 (n + 1) = n + 1) as Hwrap by (unfold wrap32, u32_max in *; apply Z.mod_small; lia).
  split.
  - intros f. rewrite guesses_failed_users, lookup_insert_eq. fold n. intros [= <-]. cbn. lia.
  - intros a' d'. rewrite wrong_in_day_cons. case_decide as Hd.
    + intros [= <- <-]. rewrite guesses_failed_users, lookup_insert_eq. fold n.
      destruct (wrong_in_day user room from wrong) as [|a0 d] eqn:Ed.
      * cbn [length time_of]. split; [lia|]. split; [lia|]. intros _. eexists. split; [done|]. cbn. lia.
      * destruct (Hl a0 d eq_refl) as (Ht0 & _ & Hf). destruct (Hf ltac:(lia)) as (f & Hf1 & Hf2 & Hf3).
        pose proof (Hok f Hf1) as Hnx. destruct f as [c l]. cbn in Hf2, Hf3. subst l.
        rewrite next_try_backoff in Hnx. cbn [length]. rewrite time_of_S by lia.
        assert (0 <= time_of (S (length d))) by (apply (time_of_le 0); lia).
        assert (n = c) as Hc.
        { subst n. rewrite (sweep_keeps _ _ _ _ Hf1); [done|]. cbn. lia. }
        pose proof (backoff_mono (Z.of_nat (S (length d))) c ltac:(lia)).
        split; [lia|]. split; [lia|]. intros _. eexists. split; [done|]. cbn. lia.
    + intros Hd'. destruct (Hl a' d' Hd') as (Ht' & Hle & _). split; [done|]. split; [done|].
      assert (0 <= time_of (S (length d'))) by (apply (time_of_le 0); lia).
      intros. exfalso. apply Hd.
      split; [done|]. split; [done|]. lia.
Qed.

(** With a guess underway, it passed the check. *)
Definition underway_ok (s : Guessing F) (now : Z) : Prop :=
  gg_underway s !! user = Some room -> forall f, gs_users (gg_guesses s) !! (user, room) = Some f -> next_try f <= now.
Lemma guess_step_ok (s : Guessing F) op now k :
  guesses_ok (gg_guesses s) (gg_wrong s) now k -> underway_ok s now -> now <= op_time now op -> 0 <= k < u32_max ->
  (forall correct t, op = Answer user room correct t -> correct = false) ->
  let s' := guess_step s op in guesses_ok (gg_guesses s') (gg_wrong s') (op_time now op) (k + 1) /\ underway_ok s' (op_time now op).
Proof.
  intros Hok Hu Hle Hk Hright. cbv zeta.
  assert (guesses_ok (gg_guesses s) (gg_wrong s) (op_time now op) (k + 1)) as Hlater by (eapply guesses_ok_later; [exact Hok|lia..]).
  assert (underway_ok s (op_time now op)) as Hulater by (intros H1 f Hf; specialize (Hu H1 f Hf); lia).
  destruct op as [u r t|u r correct t|u]; cbn [guess_step op_time] in *.
  - destruct (gg_underway s !! u) as [r0|] eqn:Ew; [by split|]. destruct (guesses_check _ u r t) as [w g'] eqn:E.
    destruct (guesses_check_users _ _ _ _ _ _ E) as [Eu Hnext]. split.
    + destruct Hlater as [He Hl]. split; cbn; by rewrite Eu.
    + intros Hw f Hf. cbn in Hw, Hf. rewrite Eu in Hf. destruct w; [by apply Hulater|]. rewrite lookup_insert in Hw. case_decide; [|by apply Hulater].
      subst u. injection Hw as ->. by apply Hnext.
  - destruct (decide (gg_underway s !! u = Some r)) as [Ew|]; [|by split].
    destruct (decide ((u, r) = (user, room))) as [[= -> ->]|Hne].
    + rewrite (Hright correct t eq_refl). cbn. split; [|intros Hw; cbn in Hw; by rewrite lookup_delete_eq in Hw].
      apply guesses_ok_wrong; try done; [eapply guesses_ok_later; [exact Hok|lia..]|]. by apply Hulater.
    + assert (underway_ok (mkGuessing (gg_guesses s) (delete u (gg_underway s)) []) t) as Hdel.
      { intros Hw. cbn in Hw. apply lookup_delete_Some in Hw as [_ Hw]. by apply Hulater. }
      destruct correct; cbn.
      * split; [|intros Hw f; cbn; rewrite lookup_delete_ne by done; by apply Hdel]. destruct Hlater as [He Hl]. split.
        -- intros f. cbn. rewrite lookup_delete_ne by done. apply He.
        -- intros a' d Hd. cbn. rewrite lookup_delete_ne by done. by apply Hl.
      * split.
        -- destruct (guesses_ok_other _ _ u r t (k + 1) Hlater Hne) as [He Hl].
           split; [done|]. intros a' d. rewrite wrong_in_day_cons. rewrite decide_False by (cbn; intros (-> & -> & _); by apply Hne). apply Hl.
        -- intros Hw f. cbn. rewrite guesses_failed_users, lookup_insert_ne by done. intros Hf%sweep_entry. by apply Hdel.
  - split; [exact Hlater|]. intros Hw f Hf. cbn in Hw. apply lookup_delete_Some in Hw as [_ Hw]. by apply Hulater.
Qed.

Lemma guess_run_ok ops (s : Guessing F) now k :
  guesses_ok (gg_guesses s) (gg_wrong s) now k -> underway_ok s now -> ops_in_order now ops -> 0 <= k -> k + Z.of_nat (length ops) <= u32_max ->
  (forall correct t, Answer user room correct t ∈ ops -> correct = false) ->
  exists now' k', let s' := foldl guess_step s ops in guesses_ok (gg_guesses s') (gg_wrong s') now' k'.
Proof.
  revert s now k. induction ops as [|op ops IH]; intros s now k Hok Hu Ho Hk Hn Hr; [by exists now, k|].
  destruct Ho as [Hle Ho]. cbn [length] in Hn. cbn [foldl].
  destruct (guess_step_ok s op now k Hok Hu Hle ltac:(lia)) as [Hok' Hu']; [intros correct t ->; apply (Hr correct t); by left|].
  apply (IH _ (op_time now op) (k + 1)); [done..|lia|lia|]. intros correct t Hin. apply (Hr correct t). by right.
Qed.

End Theorems.

(** C40: without the password a user learns of at most 36 guesses at a room in any 24 hours
    that they are wrong, whatever everyone else does and however guesses overlap: the backoff
    doubles from ten seconds to an hour and the sweep never forgets it early. *)
Theorem wrong_guesses_are_rationed {F : Type} `{!Arith F} (ops : list guess_op) (user : UserId) (room : RoomId) (start from : Z) :
  ops_in_order start ops -> Z.of_nat (length ops) <= u32_max ->
  (forall correct t, Answer user room correct t ∈ ops -> correct = false) ->
  (length (wrong_in_day user room from (gg_wrong (guess_run (F := F) ops))) <= 36)%nat.
Proof.
  intros Ho Hn Hr.
  destruct (guess_run_ok user room from ops (mkGuessing (guesses_default (F := F)) ∅ []) start 0) as (now & k & _ & Hl);
    [by split|done|done|lia|lia|done|].
  fold (guess_run (F := F) ops) in Hl. destruct (wrong_in_day _ _ _ _) as [|a d]; [cbn; lia|].
  destruct (Hl a d eq_refl) as [[Hlo Hhi] _]. cbn [length].
  destruct (decide (S (length d) <= 36)%nat) as [|Hgt]; [done|]. exfalso.
  pose proof (time_of_le 37 (S (length d)) ltac:(lia)) as Hle.
  assert (FAILURE_MEMORY <= time_of 37) by (by vm_compute). lia.
Qed.

(** Five guesses are free; the sixth at once is refused, later ones wait for their backoff,
    and one whose connection is replaced is not counted. *)
Lemma wrong_guesses_are_rationed_witness :
  let try t := [Guess 7 1 t; Answer 7 1 false t] in
  let ops := mjoin [try 0; try 0; try 0; try 0; try 0; try second; [Guess 7 1 (10 * second); Replaced 7]; try (11 * second); [Guess 7 1 (40 * second)]] in
  length (gg_wrong (guess_run (F := f64) ops)) = 6%nat /\ gg_underway (guess_run (F := f64) ops) = {[7 := 1]} /\
  (length (wrong_in_day 7 1 0 (gg_wrong (guess_run (F := f64) ops))) <= 36)%nat.
Proof.
  intros try ops. split; [by vm_compute|]. split; [by vm_compute|].
  apply (wrong_guesses_are_rationed ops 7 1 0 0).
  - subst ops. cbn. unfold second. lia.
  - subst ops. cbn. unfold u32_max. lia.
  - subst ops try. intros correct t Ha. cbn in Ha. repeat (apply elem_of_cons in Ha as [Ha|Ha]; [by simplify_eq|]). by apply elem_of_nil in Ha.
Defined.
