(* ===== verification/Sfu.v ===== *)
(** * The media forwarder (throcc-server, sfu.rs)

    The forwarding table, the ingress of one connection's datagrams with its allowances, and
    the merging of keyframe requests.  A subscriber is an [H], the handle of its egress. *)
From S2P Require Import Prelude Float64 Buckets Ids Frame Messages.
Open Scope Z_scope.

(** Warnings the code logs. *)
Inductive warning :=
  | DroppedDatagrams (conn_id dropped : Z)
  | SentTooFast (conn_id : Z).

(* @src/crates/throcc-server/src/egress.rs 36-40 TrackKind *)
Inductive TrackKind := AudioTrack | VideoTrack.
#[export] Instance TrackKind_eq_dec : EqDecision TrackKind.
Proof. solve_decision. Defined.

(* @src/crates/throcc-server/src/egress.rs 42-46 Packet *)
Record Packet := { pk_kind : TrackKind; pk_header : Header; pk_bytes : bytes }.

(** ** Keyframe requests *)

(* @src/crates/throcc-server/src/sfu.rs 16-17 KEYFRAME_INTERVAL *)
Definition KEYFRAME_INTERVAL : Z := 1 * second.

(* @src/crates/throcc-server/src/sfu.rs 196-200 Pending *)
Record Pending := { pd_last_sent : option Z; pd_wanted : option Recovery }.

Definition Pending_default : Pending := {| pd_last_sent := None; pd_wanted := None |}.

(** [Ord] of [Option<Recovery>]: [None < Some(Refresh) < Some(Idr)]. *)
Definition recovery_max (a b : option Recovery) : option Recovery :=
  match a, b with
  | None, x | x, None => x
  | Some Idr, Some _ | Some _, Some Idr => Some Idr
  | Some Refresh, Some Refresh => Some Refresh
  end.

(* @src/crates/throcc-server/src/sfu.rs 229-239 KeyframeAggregator::take_if_due *)
Definition take_if_due (p : Pending) (now : Z) : option Recovery * Pending :=
  let due := match pd_last_sent p with None => true | Some t => KEYFRAME_INTERVAL <=? since now t end in
  if negb due then (None, p)
  else match pd_wanted p with
       | None => (None, p)
       | Some kind => (Some kind, {| pd_last_sent := Some now; pd_wanted := None |})
       end.

(* @src/crates/throcc-server/src/sfu.rs 202-207 KeyframeAggregator *)
Record KeyframeAggregator := { ka_tracks : gmap MediaId Pending }.

(* @src/crates/throcc-server/src/sfu.rs 210-215 KeyframeAggregator::request *)
Definition keyframe_request (k : KeyframeAggregator) (media_id : MediaId) (kind : Recovery) (now : Z)
  : option Recovery * KeyframeAggregator :=
  let pending := default Pending_default (ka_tracks k !! media_id) in
  let pending := {| pd_last_sent := pd_last_sent pending;
                    pd_wanted := recovery_max (pd_wanted pending) (Some kind) |} in
  let '(r, pending) := take_if_due pending now in
  (r, {| ka_tracks := <[media_id := pending]> (ka_tracks k) |}).

(** The order is that of the map: the code's [HashMap] has no order of its own either. *)
(* @src/crates/throcc-server/src/sfu.rs 217-223 KeyframeAggregator::due *)
Definition keyframe_due (k : KeyframeAggregator) (now : Z) : list (MediaId * Recovery) * KeyframeAggregator :=
  (omap (fun '(m, p) => r ← (take_if_due p now).1; Some (m, r)) (map_to_list (ka_tracks k)),
   {| ka_tracks := (fun p => (take_if_due p now).2) <$> ka_tracks k |}).

(* @src/crates/throcc-server/src/sfu.rs 225-227 KeyframeAggregator::forget *)
Definition keyframe_forget (k : KeyframeAggregator) (media_id : MediaId) : KeyframeAggregator :=
  {| ka_tracks := delete media_id (ka_tracks k) |}.

(** ** Policed datagrams *)

(* @src/crates/throcc-server/src/sfu.rs 33-34 DROP_REPORT_INTERVAL *)
Definition DROP_REPORT_INTERVAL : Z := 60 * second.

(* @src/crates/throcc-server/src/sfu.rs 161-166 DropReport *)
Record DropReport := { dr_unreported : Z; dr_next_report : Z }.

(* @src/crates/throcc-server/src/sfu.rs 169-174 DropReport::new *)
Definition drop_report_new (now : Z) : DropReport := {| dr_unreported := 0; dr_next_report := now |}.

(* @src/crates/throcc-server/src/sfu.rs 184-193 DropReport::finish *)
Definition drop_finish (d : DropReport) (conn_id : Z) : list warning * DropReport :=
  if 0 <? dr_unreported d
  then ([DroppedDatagrams conn_id (dr_unreported d)],
        {| dr_unreported := 0; dr_next_report := dr_next_report d |})
  else ([], d).

(* @src/crates/throcc-server/src/sfu.rs 176-182 DropReport::count *)
Definition drop_count (d : DropReport) (conn_id now : Z) : list warning * DropReport :=
  let d := {| dr_unreported := wrap64 (dr_unreported d + 1); dr_next_report := dr_next_report d |} in
  if dr_next_report d <=? now
  then let '(w, d) := drop_finish d conn_id in
       (w, {| dr_unreported := dr_unreported d; dr_next_report := now + DROP_REPORT_INTERVAL |})
  else ([], d).

(** ** Allowances *)

Section Allowances.
Context {F : Type} `{!Arith F}.

(* @src/crates/throcc-server/src/sfu.rs 18-19 MAX_INGRESS_BYTES_PER_SECOND *)
Definition MAX_INGRESS_BYTES_PER_SECOND : F := a_div (a_of_Z 25000000) (a_of_Z 8).
(* @src/crates/throcc-server/src/sfu.rs 20-20 INGRESS_BURST_BYTES *)
Definition INGRESS_BURST_BYTES : F := MAX_INGRESS_BYTES_PER_SECOND.
(* @src/crates/throcc-server/src/sfu.rs 21-23 MAX_INGRESS_PACKETS_PER_SECOND *)
Definition MAX_INGRESS_PACKETS_PER_SECOND : F := a_of_Z 6000.
(* @src/crates/throcc-server/src/sfu.rs 24-24 INGRESS_BURST_PACKETS *)
Definition INGRESS_BURST_PACKETS : F := a_mul (a_of_Z 2) MAX_INGRESS_PACKETS_PER_SECOND.
(* @src/crates/throcc-server/src/sfu.rs 25-29 AUDIO_PACKETS_PER_SECOND *)
Definition AUDIO_PACKETS_PER_SECOND : F := a_of_Z 150.
(* @src/crates/throcc-server/src/sfu.rs 30-30 AUDIO_BURST_PACKETS *)
Definition AUDIO_BURST_PACKETS : F := a_of_Z 2500.
(* @src/crates/throcc-server/src/sfu.rs 31-31 AUDIO_BYTES_PER_SECOND *)
Definition AUDIO_BYTES_PER_SECOND : F := a_mul (a_of_Z 80) (a_of_Z 1024).
(* @src/crates/throcc-server/src/sfu.rs 32-32 AUDIO_BURST_BYTES *)
Definition AUDIO_BURST_BYTES : F := a_mul (a_of_Z 256) (a_of_Z 1024).
(* @src/crates/throcc-server/src/sfu.rs 35-36 ALLOWANCE_SWEEP *)
Definition ALLOWANCE_SWEEP : Z := 10 * second.

(* @src/crates/throcc-server/src/sfu.rs 112-116 AudioAllowance *)
Record AudioAllowance := { aa_packets : TokenBucket F; aa_bytes : TokenBucket F }.

(* @src/crates/throcc-server/src/sfu.rs 119-124 AudioAllowance::full *)
Definition allowance_full (now : Z) : AudioAllowance :=
  {| aa_packets := tb_full AUDIO_BURST_PACKETS AUDIO_PACKETS_PER_SECOND now;
     aa_bytes := tb_full AUDIO_BURST_BYTES AUDIO_BYTES_PER_SECOND now |}.

(** Both operators short-circuit: a bucket not asked is not refilled. *)
(* @src/crates/throcc-server/src/sfu.rs 126-133 AudioAllowance::admit *)
Definition allowance_admit (a : AudioAllowance) (len now : Z) : bool * AudioAllowance :=
  let len := a_of_Z len in
  let '(hp, packets) := tb_holds (aa_packets a) (a_of_Z 1) now in
  let '(hb, bytes_) := if hp then tb_holds (aa_bytes a) len now else (false, aa_bytes a) in
  if negb (hp && hb) then (false, {| aa_packets := packets; aa_bytes := bytes_ |})
  else
    let '(tp, packets) := tb_take packets (a_of_Z 1) now in
    let '(tb, bytes_) := if tp then tb_take bytes_ len now else (false, bytes_) in
    (tp && tb, {| aa_packets := packets; aa_bytes := bytes_ |}).

(* @src/crates/throcc-server/src/sfu.rs 135-137 AudioAllowance::is_full *)
Definition allowance_is_full (a : AudioAllowance) (now : Z) : bool * AudioAllowance :=
  let '(fp, packets) := tb_is_full (aa_packets a) now in
  let '(fb, bytes_) := if fp then tb_is_full (aa_bytes a) now else (false, aa_bytes a) in
  (fp && fb, {| aa_packets := packets; aa_bytes := bytes_ |}).

(* @src/crates/throcc-server/src/sfu.rs 140-146 AudioPolicer *)
Record AudioPolicer := { ap_tracks : gmap MediaId AudioAllowance; ap_next_sweep : option Z }.

Definition AudioPolicer_default : AudioPolicer := {| ap_tracks := ∅; ap_next_sweep := None |}.

Definition policer_swept (p : AudioPolicer) (now : Z) : AudioPolicer :=
  if match ap_next_sweep p with None => true | Some t => t <=? now end
  then {| ap_tracks := omap (fun a => let '(f, a) := allowance_is_full a now in
                                      if f then None else Some a) (ap_tracks p);
          ap_next_sweep := Some (now + ALLOWANCE_SWEEP) |}
  else p.

(* @src/crates/throcc-server/src/sfu.rs 149-158 AudioPolicer::admit *)
Definition policer_admit (p : AudioPolicer) (media_id : MediaId) (len now : Z) : bool * AudioPolicer :=
  let p := policer_swept p now in
  let '(ok, a) := allowance_admit (default (allowance_full now) (ap_tracks p !! media_id)) len now in
  (ok, {| ap_tracks := <[media_id := a]> (ap_tracks p); ap_next_sweep := ap_next_sweep p |}).

(** ** Ingress *)

Context {H : Type}.

(* @src/crates/throcc-server/src/sfu.rs 38-42 Route *)
Record Route := { rt_owner : Z; rt_kind : TrackKind; rt_subscribers : list H }.

Abbreviation ForwardingTable := (gmap MediaId Route) (only parsing).

(** The locals of [Sfu::ingress]. *)
Record ingress_state := {
  ig_bytes : TokenBucket F;
  ig_packets : TokenBucket F;
  ig_audio : AudioPolicer;
  ig_policed : DropReport
}.

Definition ingress_start (start : Z) : ingress_state :=
  {| ig_bytes := tb_full INGRESS_BURST_BYTES MAX_INGRESS_BYTES_PER_SECOND start;
     ig_packets := tb_full INGRESS_BURST_PACKETS MAX_INGRESS_PACKETS_PER_SECOND start;
     ig_audio := AudioPolicer_default;
     ig_policed := drop_report_new start |}.

(** What one turn of the loop does: close the connection and leave the loop, or offer
    packets to subscribers (none when the datagram is dropped). *)
Record ingress_output := {
  io_close : bool;
  io_warnings : list warning;
  io_offered : list (H * Packet)
}.

Definition nothing : ingress_output := {| io_close := false; io_warnings := []; io_offered := [] |}.
Definition warned (w : list warning) : ingress_output := {| io_close := false; io_warnings := w; io_offered := [] |}.

(** One datagram, read at [now] with [table] loaded. *)
(* @src/crates/throcc-server/src/sfu.rs 57-109 Sfu::ingress *)
Definition ingress (s : ingress_state) (conn_id : Z) (table : gmap MediaId Route) (datagram : bytes) (now : Z)
  : ingress_output * ingress_state :=
  let len := Z.of_nat (length datagram) in
  let '(ok, bytes_) := tb_take (ig_bytes s) (a_of_Z len) now in
  let s := {| ig_bytes := bytes_; ig_packets := ig_packets s; ig_audio := ig_audio s; ig_policed := ig_policed s |} in
  if negb ok then
    let '(w, policed) := drop_finish (ig_policed s) conn_id in
    ({| io_close := true; io_warnings := SentTooFast conn_id :: w; io_offered := [] |},
     {| ig_bytes := ig_bytes s; ig_packets := ig_packets s; ig_audio := ig_audio s; ig_policed := policed |})
  else
  let '(ok, packets) := tb_take (ig_packets s) (a_of_Z 1) now in
  let s := {| ig_bytes := ig_bytes s; ig_packets := packets; ig_audio := ig_audio s; ig_policed := ig_policed s |} in
  if negb ok then
    let '(w, policed) := drop_count (ig_policed s) conn_id now in
    (warned w, {| ig_bytes := ig_bytes s; ig_packets := ig_packets s; ig_audio := ig_audio s; ig_policed := policed |})
  else
  match header_parse datagram with
  | inr _ => (nothing, s)
  | inl header =>
  match table !! hdr_media_id header with
  | None => (nothing, s)
  | Some route =>
  if negb (rt_owner route =? conn_id) then (nothing, s) else
  let '(ok, audio) := if decide (rt_kind route = AudioTrack)
                      then policer_admit (ig_audio s) (hdr_media_id header) len now
                      else (true, ig_audio s) in
  let s := {| ig_bytes := ig_bytes s; ig_packets := ig_packets s; ig_audio := audio; ig_policed := ig_policed s |} in
  if negb ok then
    let '(w, policed) := drop_count (ig_policed s) conn_id now in
    (warned w, {| ig_bytes := ig_bytes s; ig_packets := ig_packets s; ig_audio := ig_audio s; ig_policed := policed |})
  else
  ({| io_close := false; io_warnings := [];
      io_offered := (fun h => (h, {| pk_kind := rt_kind route; pk_header := header; pk_bytes := datagram |}))
                    <$> rt_subscribers route |}, s)
  end end.

End Allowances.

Arguments AudioAllowance F : clear implicits.
Arguments AudioPolicer F : clear implicits.
Arguments Route H : clear implicits.
Arguments ingress_state F : clear implicits.
Arguments ingress_output H : clear implicits.

(** ** Theorems: forwarding *)

(** A datagram reaches only the subscribers of a track its sender owns, every one of
    them once, byte for byte and with the header it carries; and an owner's video is held
    back by nothing but the connection's own allowances. *)
Theorem ingress_forwards_only_owned_tracks {F H : Type} `{!Arith F} (s : ingress_state F) (conn_id : Z)
    (table : gmap MediaId (Route H)) (datagram : bytes) (now : Z) :
  let out := (ingress s conn_id table datagram now).1 in
  let sent route header h := (h, {| pk_kind := rt_kind route; pk_header := header; pk_bytes := datagram |}) in
  (io_offered out = [] \/
   exists header route, header_parse datagram = inl header /\
     table !! hdr_media_id header = Some route /\ rt_owner route = conn_id /\ io_close out = false /\
     io_offered out = sent route header <$> rt_subscribers route) /\
  (forall header route, header_parse datagram = inl header ->
     table !! hdr_media_id header = Some route -> rt_owner route = conn_id -> rt_kind route = VideoTrack ->
     (tb_take (ig_bytes s) (a_of_Z (Z.of_nat (length datagram))) now).1 = true ->
     (tb_take (ig_packets s) (a_of_Z 1) now).1 = true ->
     io_offered out = sent route header <$> rt_subscribers route).
Proof.
  intros out sent. subst out sent. unfold ingress.
  destruct (tb_take (ig_bytes s) _ _) as [[] b]; [|destruct (drop_finish _ _); cbn; by split; [left|]].
  cbn [negb ig_packets].
  destruct (tb_take (ig_packets s) _ _) as [[] p]; [|destruct (drop_count _ _ _); cbn; by split; [left|]].
  cbn [negb]. destruct (header_parse datagram) as [header|]; [|cbn; by split; [left|]].
  destruct (table !! hdr_media_id header) as [route|] eqn:Hr; [|cbn; split; [by left|]; intros; simplify_eq].
  destruct (rt_owner route =? conn_id) eqn:Ho; cbn [negb];
    [|cbn; split; [by left|]; intros; simplify_eq; lia].
  case_decide as Hk.
  - destruct (policer_admit _ _ _ _) as [[] a]; cbn [negb].
    + split; [right; exists header, route; repeat split; try done; lia|]. intros; simplify_eq. congruence.
    + destruct (drop_count _ _ _). cbn. split; [by left|]. intros; simplify_eq. congruence.
  - split; [right; exists header, route; repeat split; try done; lia|]. intros; by simplify_eq.
Qed.

(** ** Theorems: keyframe requests *)

Inductive keyframe_event :=
  | KRequest (media_id : MediaId) (kind : Recovery) (now : Z)
  | KDue (now : Z)
  | KForget (media_id : MediaId).

(** What happened to one track since it was last forgotten, latest first. *)
Inductive keyframe_entry := Requested (kind : Recovery) | Forwarded (kind : Recovery) (now : Z).

(** The kinds forwarded for [m] among [sent]. *)
Definition forwarded_for (m : MediaId) (sent : list (MediaId * Recovery)) : list Recovery :=
  omap (fun '(m', k) => if decide (m' = m) then Some k else None) sent.

Definition keyframe_step (m : MediaId) (s : KeyframeAggregator * list keyframe_entry) (ev : keyframe_event)
  : KeyframeAggregator * list keyframe_entry :=
  let '(k, log) := s in
  match ev with
  | KRequest m' kind now =>
      let '(r, k) := keyframe_request k m' kind now in
      (k, if decide (m' = m)
          then ((fun kind => Forwarded kind now) <$> option_list r) ++ Requested kind :: log else log)
  | KDue now =>
      let '(sent, k) := keyframe_due k now in
      (k, ((fun kind => Forwarded kind now) <$> forwarded_for m sent) ++ log)
  | KForget m' => (keyframe_forget k m', if decide (m' = m) then [] else log)
  end.

Definition keyframe_log (m : MediaId) (evs : list keyframe_event) : KeyframeAggregator * list keyframe_entry :=
  foldl (keyframe_step m) ({| ka_tracks := ∅ |}, []) evs.

(** The strongest request since the last one forwarded, and when that was. *)
Fixpoint outstanding (log : list keyframe_entry) : option Recovery :=
  match log with
  | Requested k :: log => recovery_max (outstanding log) (Some k)
  | _ => None
  end.

Fixpoint last_forwarded (log : list keyframe_entry) : option Z :=
  match log with
  | Requested _ :: log => last_forwarded log
  | Forwarded _ t :: _ => Some t
  | [] => None
  end.

(** Each one forwarded is the strongest outstanding, an interval after the one before. *)
Fixpoint log_ok (log : list keyframe_entry) : Prop :=
  match log with
  | [] => True
  | Requested _ :: log => log_ok log
  | Forwarded k t :: log =>
      outstanding log = Some k /\ (forall t0, last_forwarded log = Some t0 -> t0 + KEYFRAME_INTERVAL <= t) /\
      log_ok log
  end.

Section KeyframeTheorems.
Context (m : MediaId).

Definition track_of (log : list keyframe_entry) : Pending :=
  {| pd_last_sent := last_forwarded log; pd_wanted := outstanding log |}.

(** The track's state is a function of its log. *)
Definition keyframe_ok (s : KeyframeAggregator * list keyframe_entry) : Prop :=
  default Pending_default (ka_tracks s.1 !! m) = track_of s.2 /\ log_ok s.2.

Lemma take_if_due_log log now r p :
  take_if_due (track_of log) now = (r, p) -> log_ok log ->
  let log' := ((fun kind => Forwarded kind now) <$> option_list r) ++ log in
  p = track_of log' /\ log_ok log'.
Proof.
  unfold take_if_due. cbn [pd_last_sent pd_wanted track_of]. intros E Hl.
  assert (r = None /\ p = track_of log \/
          exists k, r = Some k /\ outstanding log = Some k /\ p = {| pd_last_sent := Some now; pd_wanted := None |} /\
            (forall t0, last_forwarded log = Some t0 -> t0 + KEYFRAME_INTERVAL <= now)) as [[-> ->]|Hs]; [|done|].
  - case_match eqn:Hd; [left; by simplify_eq|].
    destruct (outstanding log) as [k|] eqn:Ho; [right|left]; simplify_eq; [|done].
    exists k. repeat split; try done. intros t0 Ht. rewrite Ht in Hd.
    unfold since, sat_sub, KEYFRAME_INTERVAL, second in *. lia.
  - destruct Hs as (k & -> & Ho & -> & Ht). done.
Qed.

(** The entries of one key among those of a map. *)
Lemma forwarded_for_map (f : MediaId -> Pending -> option Recovery) (tracks : gmap MediaId Pending) :
  forwarded_for m (omap (fun '(m', p) => r ← f m' p; Some (m', r)) (map_to_list tracks))
  = option_list (tracks !! m ≫= f m).
Proof.
  induction tracks as [|m' p tracks Hn IH] using map_ind; [by rewrite map_to_list_empty|].
  assert (forall l l', l ≡ₚ l' ->
    forwarded_for m (omap (fun '(m', p) => r ← f m' p; Some (m', r)) l)
    ≡ₚ forwarded_for m (omap (fun '(m', p) => r ← f m' p; Some (m', r)) l')) as Hp.
  { intros l l' Hl. unfold forwarded_for. by rewrite Hl. }
  specialize (Hp _ _ (map_to_list_insert tracks m' p Hn)). revert Hp. csimpl.
  destruct (decide (m' = m)) as [->|Hne].
  - rewrite lookup_insert_eq. rewrite Hn in IH. cbn in IH. cbn [mbind option_bind].
    destruct (f m p) as [r|]; csimpl; [|rewrite IH; by intros ->%Permutation_nil_r].
    rewrite decide_True by done. rewrite IH. by intros ->%Permutation_singleton_r.
  - rewrite lookup_insert_ne by done.
    destruct (f m' p) as [r|]; csimpl; rewrite ?decide_False by done; rewrite IH;
      (destruct (tracks !! m ≫= f m); cbn; [by intros ->%Permutation_singleton_r | by intros ->%Permutation_nil_r]).
Qed.

Lemma keyframe_step_ok s ev : keyframe_ok s -> keyframe_ok (keyframe_step m s ev).
Proof.
  destruct s as [k log]. intros [Hs Hl]. cbn in Hs, Hl. destruct ev as [m' kind now|now|m']; cbn.
  - unfold keyframe_request. destruct (decide (m' = m)) as [->|Hne].
    + rewrite Hs. cbn [pd_last_sent pd_wanted track_of].
      change {| pd_last_sent := last_forwarded log; pd_wanted := recovery_max (outstanding log) (Some kind) |}
        with (track_of (Requested kind :: log)).
      destruct (take_if_due _ now) as [r p] eqn:E.
      destruct (take_if_due_log _ _ _ _ E Hl) as [-> ?]. split; [|done]. cbn. by rewrite lookup_insert_eq.
    + destruct (take_if_due _ now) as [r p]. split; [|done]. cbn. by rewrite lookup_insert_ne.
  - rewrite (forwarded_for_map (fun _ p => (take_if_due p now).1)).
    unfold keyframe_ok. cbn. rewrite lookup_fmap.
    destruct (ka_tracks k !! m) as [p|]; cbn in *; [|by rewrite Hs].
    subst p. destruct (take_if_due (track_of log) now) as [r p] eqn:E.
    destruct (take_if_due_log _ _ _ _ E Hl) as [-> ?]. done.
  - unfold keyframe_ok. cbn. destruct (decide (m' = m)) as [->|Hne]; cbn.
    + by rewrite lookup_delete_eq.
    + by rewrite lookup_delete_ne.
Qed.

Lemma keyframe_log_ok evs : keyframe_ok (keyframe_log m evs).
Proof.
  unfold keyframe_log. induction evs as [|ev evs IH] using rev_ind; [done|].
  rewrite foldl_app. by apply keyframe_step_ok.
Qed.

End KeyframeTheorems.

(** Whatever the requests, a track's keyframe requests are forwarded at least a second
    apart, each the strongest asked for since the last, and once [due] has run none older
    than a second is outstanding. *)
Theorem keyframes_are_merged (m : MediaId) (evs : list keyframe_event) (now : Z) :
  let log := (keyframe_log m (evs ++ [KDue now])).2 in
  log_ok log /\
  (is_Some (outstanding log) -> exists t, last_forwarded log = Some t /\ now < t + KEYFRAME_INTERVAL).
Proof.
  destruct (keyframe_log_ok m (evs ++ [KDue now])) as [_ Hl]. split; [done|]. clear Hl.
  destruct (keyframe_log_ok m evs) as [Hs Hl].
  unfold keyframe_log in *. rewrite foldl_app. destruct (foldl _ _ evs) as [k log]. cbn in *.
  rewrite (forwarded_for_map m (fun _ p => (take_if_due p now).1)).
  destruct (ka_tracks k !! m) as [p|]; cbn in *.
  - subst p. unfold take_if_due. cbn. destruct (last_forwarded log) as [t|] eqn:Et; cbn.
    + destruct (KEYFRAME_INTERVAL <=? since now t) eqn:Ed; cbn.
      * destruct (outstanding log) eqn:Eo; cbn; [by intros []|]. rewrite Eo. by intros [].
      * intros _. exists t. split; [done|]. unfold since, sat_sub, KEYFRAME_INTERVAL, second in *. lia.
    + destruct (outstanding log) eqn:Eo; cbn; [by intros []|]. rewrite Eo. by intros [].
  - injection Hs as <- <-. by intros [].
Qed.

Lemma keyframes_are_merged_witness :
  let evs := [KRequest 7 Refresh 0; KRequest 7 Refresh 5; KRequest 7 Idr 6; KDue second] in
  (keyframe_log 7 (evs ++ [KDue (second + 1)])).2
    = [Forwarded Idr second; Requested Idr; Requested Refresh; Forwarded Refresh 0; Requested Refresh] /\
  log_ok (keyframe_log 7 (evs ++ [KDue (second + 1)])).2.
Proof. intros evs. split; [by vm_compute|]. by apply keyframes_are_merged. Defined.
