(* ===== verification/Egress.v ===== *)
(** * One receiver's queues (throcc-server, egress.rs)

    What ingress offers a receiver waits here until its connection takes it: audio in a queue
    per track, served in turn, video in whole access units within a budget.  A [usize] or
    [u64] counter is a [Z]; the invariant below keeps every difference exact. *)
From S2P Require Import Prelude Ordered Ids Frame Messages Float64 Buckets Sfu.
Open Scope Z_scope.

(* @src/crates/throcc-server/src/egress.rs 16-17 VIDEO_BUDGET *)
Definition VIDEO_BUDGET : Z := 150 * second / 1000.
(* @src/crates/throcc-server/src/egress.rs 19-19 INBOX *)
Definition INBOX : Z := 8192.
(** [5 * (25_000_000.0 / 8.0) * 0.15] in binary64, see [max_queued_video_bytes_is]. *)
(* @src/crates/throcc-server/src/egress.rs 20-23 MAX_QUEUED_VIDEO_BYTES *)
Definition MAX_QUEUED_VIDEO_BYTES : Z := 2343750.
(* @src/crates/throcc-server/src/egress.rs 24-27 MAX_QUEUED_AUDIO *)
Definition MAX_QUEUED_AUDIO : Z := 2 * 50 * (MAX_ROOM_MEMBERS - 1 + MAX_ROOM_SHARES).
(* @src/crates/throcc-server/src/egress.rs 28-29 MAX_UNIT_FRAGMENTS *)
Definition MAX_UNIT_FRAGMENTS : Z := 4096.
(* @src/crates/throcc-server/src/egress.rs 30-31 UNIT_IDLE *)
Definition UNIT_IDLE : Z := 1 * second.
(* @src/crates/throcc-server/src/egress.rs 32-32 IDLE_CHECK *)
Definition IDLE_CHECK : Z := 100 * second / 1000.
(* @src/crates/throcc-server/src/egress.rs 33-34 HISTORY *)
Definition HISTORY : Z := 32.

Lemma max_queued_video_bytes_is :
  let product : f64 := a_mul (a_mul (a_of_Z MAX_ROOM_SHARES) MAX_INGRESS_BYTES_PER_SECOND) (a_secs VIDEO_BUDGET) in
  a_leb product (a_of_Z MAX_QUEUED_VIDEO_BYTES) && a_leb (a_of_Z MAX_QUEUED_VIDEO_BYTES) product = true.
Proof. vm_compute. reflexivity. Qed.

(** ** The inbox *)

(* @src/crates/throcc-server/src/egress.rs 70-77 Lost *)
Record Lost := mkLost { lo_kind : TrackKind; lo_media_id : MediaId; lo_seq : Z; lo_first : bool }.

(* @src/crates/throcc-server/src/egress.rs 79-84 InboxDrops *)
Record InboxDrops := mkDrops { dr_lost : list Lost; dr_overflow : gmap Z Z }.

(* @src/crates/throcc-server/src/egress.rs 87-93 InboxDrops::record *)
Definition drops_record (lost : Lost) (d : InboxDrops) : InboxDrops :=
  if Z.of_nat (length (dr_lost d)) <? INBOX then mkDrops (dr_lost d ++ [lost]) (dr_overflow d)
  else mkDrops (dr_lost d) (<[lo_media_id lost := wrap32 (default 0 (dr_overflow d !! lo_media_id lost) + 1)]> (dr_overflow d)).

(** [accepted] tells whether the channel takes the packet. *)
(* @src/crates/throcc-server/src/egress.rs 57-67 EgressHandle::offer *)
Definition offer (accepted : bool) (packet : Packet) (inbox : list Packet) (d : InboxDrops) : list Packet * InboxDrops :=
  if accepted then (inbox ++ [packet], d)
  else (inbox, drops_record (mkLost (pk_kind packet) (hdr_media_id (pk_header packet)) (hdr_seq (pk_header packet))
                               (Flags.contains (hdr_flags (pk_header packet)) Flags.FIRST)) d).

(** ** Audio *)

(* @src/crates/throcc-server/src/egress.rs 145-154 AudioQueues *)
Record AudioQueues := mkAudio { au_tracks : gmap Z (list bytes); au_turns : list MediaId; au_len : Z }.
Definition audio_default : AudioQueues := mkAudio ∅ [] 0.

(** [max_by_key] on a [HashMap]: a longest queue, the last in the map's order. *)
Definition longest (m : gmap Z (list bytes)) : option (MediaId * list bytes) :=
  foldl (fun best e => match best with
    | Some b => if (length b.2 <=? length e.2)%nat then Some e else best
    | None => Some e end) None (map_to_list m).

(* @src/crates/throcc-server/src/egress.rs 173-182 AudioQueues::evict_from_longest *)
Definition evict_from_longest (a : AudioQueues) : option MediaId * AudioQueues :=
  match longest (au_tracks a) with
  | None => (None, a)
  | Some (media_id, queue) =>
      match tail queue with
      | [] => (Some media_id, mkAudio (delete media_id (au_tracks a)) (filter (fun id => id <> media_id) (au_turns a)) (au_len a - 1))
      | queue => (Some media_id, mkAudio (<[media_id := queue]> (au_tracks a)) (au_turns a) (au_len a - 1))
      end
  end.

(* @src/crates/throcc-server/src/egress.rs 157-171 AudioQueues::push *)
Definition audio_push (media_id : MediaId) (packet : bytes) (a : AudioQueues) : option MediaId * AudioQueues :=
  let '(evicted, a) := if MAX_QUEUED_AUDIO <=? au_len a then evict_from_longest a else (None, a) in
  let queue := default [] (au_tracks a !! media_id) in
  let turns := match queue with [] => au_turns a ++ [media_id] | _ => au_turns a end in
  (evicted, mkAudio (<[media_id := queue ++ [packet]]> (au_tracks a)) turns (au_len a + 1)).

(** The early returns of [?] keep what was changed before them. *)
(* @src/crates/throcc-server/src/egress.rs 184-195 AudioQueues::pop *)
Definition audio_pop (a : AudioQueues) : option (MediaId * bytes) * AudioQueues :=
  match au_turns a with
  | [] => (None, a)
  | media_id :: turns =>
      match au_tracks a !! media_id with
      | None | Some [] => (None, mkAudio (au_tracks a) turns (au_len a))
      | Some [packet] => (Some (media_id, packet), mkAudio (delete media_id (au_tracks a)) turns (au_len a - 1))
      | Some (packet :: queue) => (Some (media_id, packet), mkAudio (<[media_id := queue]> (au_tracks a)) (turns ++ [media_id]) (au_len a - 1))
      end
  end.

(** ** Video *)

(* @src/crates/throcc-server/src/egress.rs 96-102 Fate *)
Inductive Fate := FateQueued (id : Z) | FateSent | FateDropped.
#[export] Instance Fate_eq_dec : EqDecision Fate.
Proof. solve_decision. Defined.

(* @src/crates/throcc-server/src/egress.rs 104-119 VideoUnit *)
Record VideoUnit := mkVideo {
  vu_id : Z; vu_media_id : MediaId; vu_packets : list bytes; vu_received : Z; vu_arrived : Z; vu_last_fragment : Z;
  vu_started : bool; vu_complete : bool; vu_stray : bool; vu_first_seq : Z; vu_copy : bool
}.

(** [VideoUnit::new] with the fields its callers set. *)
(* @src/crates/throcc-server/src/egress.rs 122-136 VideoUnit::new *)
Definition video_new (id : Z) (media_id : MediaId) (first_seq : Z) (packet : bytes) (now : Z) (complete stray copy : bool) : VideoUnit :=
  mkVideo id media_id [packet] 1 now now false complete stray first_seq copy.
Definition set_packets (p : list bytes) (u : VideoUnit) : VideoUnit :=
  mkVideo (vu_id u) (vu_media_id u) p (vu_received u) (vu_arrived u) (vu_last_fragment u) (vu_started u) (vu_complete u) (vu_stray u) (vu_first_seq u) (vu_copy u).
Definition set_started (u : VideoUnit) : VideoUnit :=
  mkVideo (vu_id u) (vu_media_id u) (vu_packets u) (vu_received u) (vu_arrived u) (vu_last_fragment u) true (vu_complete u) (vu_stray u) (vu_first_seq u) (vu_copy u).
Definition clear_copy (u : VideoUnit) : VideoUnit :=
  mkVideo (vu_id u) (vu_media_id u) (vu_packets u) (vu_received u) (vu_arrived u) (vu_last_fragment u) (vu_started u) (vu_complete u) (vu_stray u) (vu_first_seq u) false.
Definition add_fragment (packet : bytes) (last : bool) (now : Z) (u : VideoUnit) : VideoUnit :=
  mkVideo (vu_id u) (vu_media_id u) (vu_packets u ++ [packet]) (vu_received u + 1) (vu_arrived u) now (vu_started u) (vu_complete u || last) (vu_stray u)
    (vu_first_seq u) (vu_copy u).
Definition packet_bytes (ps : list bytes) : Z := foldr (fun p n => Z.of_nat (length p) + n) 0 ps.
Definition unit_bytes (u : VideoUnit) : Z := packet_bytes (vu_packets u).

(* @src/crates/throcc-server/src/egress.rs 139-143 Counters *)
Record Counters := mkCounters { ct_forwarded : Z; ct_dropped_units : Z }.
Definition counters_default : Counters := mkCounters 0 0.

(* @src/crates/throcc-server/src/egress.rs 198-223 Queues *)
Record Queues := mkQueues {
  q_audio : AudioQueues; q_started : gmap Z VideoUnit; q_waiting : gmap Z VideoUnit; q_sending : gset Z; q_strays : list Z;
  q_copies : gmap (Z * Z) (gset Z); q_next_idle_check : option Z; q_history : gmap Z (gmap Z Fate); q_active_tracks : gset Z;
  q_next_id : Z; q_stats : gmap Z Counters; q_video_bytes : Z
}.
Definition queues_default : Queues := mkQueues audio_default ∅ ∅ ∅ [] ∅ None ∅ ∅ 0 ∅ 0.

Definition put_audio (x : AudioQueues) (q : Queues) : Queues :=
  mkQueues x (q_started q) (q_waiting q) (q_sending q) (q_strays q) (q_copies q) (q_next_idle_check q) (q_history q) (q_active_tracks q) (q_next_id q) (q_stats q) (q_video_bytes q).
Definition put_started (x : gmap Z VideoUnit) (q : Queues) : Queues :=
  mkQueues (q_audio q) x (q_waiting q) (q_sending q) (q_strays q) (q_copies q) (q_next_idle_check q) (q_history q) (q_active_tracks q) (q_next_id q) (q_stats q) (q_video_bytes q).
Definition put_waiting (x : gmap Z VideoUnit) (q : Queues) : Queues :=
  mkQueues (q_audio q) (q_started q) x (q_sending q) (q_strays q) (q_copies q) (q_next_idle_check q) (q_history q) (q_active_tracks q) (q_next_id q) (q_stats q) (q_video_bytes q).
Definition put_sending (x : gset Z) (q : Queues) : Queues :=
  mkQueues (q_audio q) (q_started q) (q_waiting q) x (q_strays q) (q_copies q) (q_next_idle_check q) (q_history q) (q_active_tracks q) (q_next_id q) (q_stats q) (q_video_bytes q).
Definition put_strays (x : list Z) (q : Queues) : Queues :=
  mkQueues (q_audio q) (q_started q) (q_waiting q) (q_sending q) x (q_copies q) (q_next_idle_check q) (q_history q) (q_active_tracks q) (q_next_id q) (q_stats q) (q_video_bytes q).
Definition put_copies (x : gmap (Z * Z) (gset Z)) (q : Queues) : Queues :=
  mkQueues (q_audio q) (q_started q) (q_waiting q) (q_sending q) (q_strays q) x (q_next_idle_check q) (q_history q) (q_active_tracks q) (q_next_id q) (q_stats q) (q_video_bytes q).
Definition put_next_idle_check (x : option Z) (q : Queues) : Queues :=
  mkQueues (q_audio q) (q_started q) (q_waiting q) (q_sending q) (q_strays q) (q_copies q) x (q_history q) (q_active_tracks q) (q_next_id q) (q_stats q) (q_video_bytes q).
Definition put_history (x : gmap Z (gmap Z Fate)) (q : Queues) : Queues :=
  mkQueues (q_audio q) (q_started q) (q_waiting q) (q_sending q) (q_strays q) (q_copies q) (q_next_idle_check q) x (q_active_tracks q) (q_next_id q) (q_stats q) (q_video_bytes q).
Definition put_active_tracks (x : gset Z) (q : Queues) : Queues :=
  mkQueues (q_audio q) (q_started q) (q_waiting q) (q_sending q) (q_strays q) (q_copies q) (q_next_idle_check q) (q_history q) x (q_next_id q) (q_stats q) (q_video_bytes q).
Definition put_next_id (x : Z) (q : Queues) : Queues :=
  mkQueues (q_audio q) (q_started q) (q_waiting q) (q_sending q) (q_strays q) (q_copies q) (q_next_idle_check q) (q_history q) (q_active_tracks q) x (q_stats q) (q_video_bytes q).
Definition put_stats (x : gmap Z Counters) (q : Queues) : Queues :=
  mkQueues (q_audio q) (q_started q) (q_waiting q) (q_sending q) (q_strays q) (q_copies q) (q_next_idle_check q) (q_history q) (q_active_tracks q) (q_next_id q) x (q_video_bytes q).
Definition put_video_bytes (x : Z) (q : Queues) : Queues :=
  mkQueues (q_audio q) (q_started q) (q_waiting q) (q_sending q) (q_strays q) (q_copies q) (q_next_idle_check q) (q_history q) (q_active_tracks q) (q_next_id q) (q_stats q) x.

(** [history.range(..=seq).next_back()]. *)
Definition last_fate (seq : Z) (h : gmap Z Fate) : option (Z * Fate) := s ← last_upto seq (dom h); f ← h !! s; Some (s, f).

(** Each round takes one entry out; one too many at most are there. *)
(* @src/crates/throcc-server/src/egress.rs 532-538 remember *)
Definition remember (first_seq : Z) (fate : Fate) (h : gmap Z Fate) : gmap Z Fate :=
  let h := <[first_seq := fate]> h in
  let drop_one h := if HISTORY <? Z.of_nat (size h) then match least (dom h) with Some s => delete s h | None => h end else h in
  Nat.iter (size h) drop_one h.

Definition count (f : Counters -> Counters) (media_id : MediaId) (q : Queues) : Queues :=
  put_stats (<[media_id := f (default counters_default (q_stats q !! media_id))]> (q_stats q)) q.
Definition forwarded_one (c : Counters) : Counters := mkCounters (wrap32 (ct_forwarded c + 1)) (ct_dropped_units c).

(* @src/crates/throcc-server/src/egress.rs 482-484 Queues::count_drop *)
Definition count_drop (media_id : MediaId) (q : Queues) : Queues :=
  count (fun c => mkCounters (ct_forwarded c) (wrap32 (ct_dropped_units c + 1))) media_id q.

(* @src/crates/throcc-server/src/egress.rs 476-480 Queues::new_id *)
Definition new_id (q : Queues) : Z * Queues := (q_next_id q, put_next_id (q_next_id q + 1) q).

(* @src/crates/throcc-server/src/egress.rs 465-470 Queues::unit_mut *)
Definition unit_mut (id : Z) (q : Queues) : option VideoUnit :=
  match q_started q !! id with Some u => Some u | None => q_waiting q !! id end.
(** Writing through what [unit_mut] returned. *)
Definition put_unit (u : VideoUnit) (id : Z) (q : Queues) : Queues :=
  match q_started q !! id with
  | Some _ => put_started (<[id := u]> (q_started q)) q
  | None => put_waiting (<[id := u]> (q_waiting q)) q
  end.

(* @src/crates/throcc-server/src/egress.rs 472-474 Queues::units *)
Definition units (q : Queues) : list VideoUnit := (in_key_order (q_started q)).*2 ++ (in_key_order (q_waiting q)).*2.

(* @src/crates/throcc-server/src/egress.rs 304-310 Queues::queue_unit *)
Definition queue_unit (u : VideoUnit) (q : Queues) : Queues :=
  let q := put_video_bytes (q_video_bytes q + unit_bytes u) q in
  let q := if vu_stray u then put_strays (q_strays q ++ [vu_id u]) q else q in
  put_waiting (<[vu_id u := u]> (q_waiting q)) q.

Definition settle_fate (id : Z) (fate : Fate) (u : VideoUnit) (history : gmap Z (gmap Z Fate)) : gmap Z (gmap Z Fate) :=
  match history !! vu_media_id u with
  | Some h => match h !! vu_first_seq u with
              | Some f => if decide (f = FateQueued id) then <[vu_media_id u := <[vu_first_seq u := fate]> h]> history else history
              | None => history
              end
  | None => history
  end.
Definition forget_copy (id : Z) (u : VideoUnit) (copies : gmap (Z * Z) (gset Z)) : gmap (Z * Z) (gset Z) :=
  let key := (vu_media_id u, vu_first_seq u) in
  match copies !! key with
  | Some ids => let ids := ids ∖ {[id]} in if decide (ids = ∅) then delete key copies else <[key := ids]> copies
  | None => copies
  end.

(* @src/crates/throcc-server/src/egress.rs 427-454 Queues::finish *)
Definition finish (id : Z) (fate : Fate) (q : Queues) : Queues :=
  match unit_mut id q with
  | None => q
  | Some u =>
      let q := match q_started q !! id with
               | Some _ => put_started (delete id (q_started q)) q
               | None => put_waiting (delete id (q_waiting q)) q
               end in
      let q := put_video_bytes (q_video_bytes q - unit_bytes u) q in
      let q := put_sending (q_sending q ∖ {[id]}) q in
      let q := if vu_stray u then q else put_copies (forget_copy id u (q_copies q)) q in
      put_history (settle_fate id fate u (q_history q)) q
  end.

(* @src/crates/throcc-server/src/egress.rs 399-416 Queues::drop_unit *)
Definition drop_unit (id : Z) (q : Queues) : Queues :=
  match unit_mut id q with
  | None => q
  | Some u =>
      let uncounted := vu_stray u || vu_copy u in
      let q := finish id FateDropped q in
      let twin := ids ← q_copies q !! (vu_media_id u, vu_first_seq u); least ids in
      match (t ← twin; tu ← unit_mut t q; Some (t, tu)) with
      | Some (t, tu) => put_unit (clear_copy tu) t q
      | None => if uncounted then q else count_drop (vu_media_id u) q
      end
  end.

(* @src/crates/throcc-server/src/egress.rs 237-302 Queues::push_video *)
Definition push_video (packet : Packet) (now : Z) (q : Queues) : Queues :=
  let media_id := hdr_media_id (pk_header packet) in
  let seq := hdr_seq (pk_header packet) in
  let last := Flags.contains (hdr_flags (pk_header packet)) Flags.LAST in
  let q := put_active_tracks ({[media_id]} ∪ q_active_tracks q) q in
  if Flags.contains (hdr_flags (pk_header packet)) Flags.FIRST then
    let '(id, q) := new_id q in
    let history := default ∅ (q_history q !! media_id) in
    let '(copy, q) := match history !! seq with
                      | Some FateDropped => (false, count (fun c => mkCounters (ct_forwarded c) (sat_sub (ct_dropped_units c) 1)) media_id q)
                      | seen => (bool_decide (is_Some seen), q)
                      end in
    let q := put_history (<[media_id := remember seq (FateQueued id) history]> (q_history q)) q in
    let q := put_copies (<[(media_id, seq) := {[id]} ∪ default ∅ (q_copies q !! (media_id, seq))]> (q_copies q)) q in
    queue_unit (video_new id media_id seq (pk_bytes packet) now last false copy) q
  else
    match snd <$> (h ← q_history q !! media_id; last_fate seq h) with
    | Some (FateQueued id) =>
        match unit_mut id q with
        | None => q
        | Some u =>
            if MAX_UNIT_FRAGMENTS <=? vu_received u then drop_unit id q else
            let q := put_unit (add_fragment (pk_bytes packet) last now u) id q in
            let q := if vu_started u then put_sending ({[id]} ∪ q_sending q) q else q in
            put_video_bytes (q_video_bytes q + Z.of_nat (length (pk_bytes packet))) q
        end
    | Some FateSent =>
        let '(id, q) := new_id q in
        queue_unit (video_new id media_id seq (pk_bytes packet) now true true false) q
    | Some FateDropped | None => q
    end.

(* @src/crates/throcc-server/src/egress.rs 226-235 Queues::push *)
Definition queues_push (packet : Packet) (now : Z) (q : Queues) : Queues :=
  match pk_kind packet with
  | AudioTrack =>
      let '(evicted, a) := audio_push (hdr_media_id (pk_header packet)) (pk_bytes packet) (q_audio q) in
      let q := put_audio a q in
      match evicted with Some media_id => count_drop media_id q | None => q end
  | VideoTrack => push_video packet now q
  end.

(* @src/crates/throcc-server/src/egress.rs 312-350 Queues::lose *)
Definition lose (l : Lost) (q : Queues) : Queues :=
  match lo_kind l with
  | AudioTrack => count_drop (lo_media_id l) q
  | VideoTrack =>
      let media_id := lo_media_id l in
      let q := put_active_tracks ({[media_id]} ∪ q_active_tracks q) q in
      let history := default ∅ (q_history q !! media_id) in
      let q := put_history (<[media_id := history]> (q_history q)) q in
      let note seq q := count_drop media_id (put_history (<[media_id := remember seq FateDropped history]> (q_history q)) q) in
      if lo_first l then (if bool_decide (is_Some (history !! lo_seq l)) then q else note (lo_seq l) q)
      else match last_fate (lo_seq l) history with
           | Some (_, FateQueued id) => drop_unit id q
           | Some (first_seq, FateSent) => note first_seq q
           | Some (_, FateDropped) => q
           | None => note (lo_seq l) q
           end
  end.

(** The first stray still waiting, and the strays from it on. *)
Fixpoint skip_gone (strays : list Z) (waiting : gmap Z VideoUnit) : list Z :=
  match strays with
  | [] => []
  | id :: rest => if decide (is_Some (waiting !! id)) then strays else skip_gone rest waiting
  end.

(* @src/crates/throcc-server/src/egress.rs 389-397 Queues::unstarted_victim *)
Definition unstarted_victim (q : Queues) : option Z * Queues :=
  let strays := skip_gone (q_strays q) (q_waiting q) in
  let q := put_strays strays q in
  (match strays with id :: _ => Some id | [] => least (dom (q_waiting q)) end, q).

(* @src/crates/throcc-server/src/egress.rs 418-425 Queues::over_budget *)
Definition over_budget (now : Z) (q : Queues) : bool :=
  match first_key_value (q_waiting q) with Some (_, u) => VIDEO_BUDGET <? since now (vu_arrived u) | None => false end.

(* @src/crates/throcc-server/src/egress.rs 372-387 Queues::give_up_idle_units *)
Definition give_up_idle_units (now : Z) (q : Queues) : Queues :=
  if match q_next_idle_check q with Some t => now <? t | None => false end then q else
  let q := put_next_idle_check (Some (now + IDLE_CHECK)) q in
  let idle := filter (fun u => vu_packets u = [] /\ UNIT_IDLE < since now (vu_last_fragment u)) (in_key_order (q_started q)).*2 in
  foldl (fun q u => finish (vu_id u) FateSent q) q idle.

(** The loops of [enforce_budget]; every round drops a unit. *)
(* @src/crates/throcc-server/src/egress.rs 357-362! Queues::enforce_budget *)
Fixpoint drop_over_budget (fuel : nat) (now : Z) (q : Queues) : Queues :=
  match fuel with
  | O => q
  | S fuel =>
      if over_budget now q then
        match unstarted_victim q with
        | (Some victim, q) => drop_over_budget fuel now (drop_unit victim q)
        | (None, q) => q
        end
      else q
  end.
(* @src/crates/throcc-server/src/egress.rs 363-369! Queues::enforce_budget *)
Fixpoint drop_over_bytes (fuel : nat) (q : Queues) : Queues :=
  match fuel with
  | O => q
  | S fuel =>
      if MAX_QUEUED_VIDEO_BYTES <? q_video_bytes q then
        let oldest := least (dom (q_started q)) in
        let '(victim, q) := unstarted_victim q in
        match match victim with Some v => Some v | None => oldest end with
        | Some victim => drop_over_bytes fuel (drop_unit victim q)
        | None => q
        end
      else q
  end.

(* @src/crates/throcc-server/src/egress.rs 352-370 Queues::enforce_budget *)
Definition enforce_budget (now : Z) (q : Queues) : Queues :=
  let q := give_up_idle_units now q in
  let q := drop_over_budget (S (size (q_waiting q))) now q in
  drop_over_bytes (S (size (q_waiting q) + size (q_started q))) q.

(* @src/crates/throcc-server/src/egress.rs 456-463 Queues::forget_quiet_tracks *)
Definition forget_quiet_tracks (q : Queues) : Queues :=
  let queued := vu_media_id <$> units q in
  put_active_tracks ∅ (put_history (filter (fun '(id, _) => id ∈ q_active_tracks q \/ id ∈ queued) (q_history q)) q).

Definition drop_upto (id : Z) (strays : list Z) : list Z :=
  (fix go l := match l with s :: rest => if s <=? id then go rest else l | [] => [] end) strays.

(** The unit to send from: the oldest with packets, or the first that waits, which starts. *)
(* @src/crates/throcc-server/src/egress.rs 491-505! Queues::pop *)
Definition serve (q : Queues) : option (Z * Queues) :=
  match least (q_sending q) with
  | Some id => Some (id, q)
  | None =>
      '(id, u) ← first_key_value (q_waiting q);
      let q := put_waiting (delete id (q_waiting q)) q in
      let q := put_strays (drop_upto id (q_strays q)) q in
      let q := if negb (vu_stray u) && negb (vu_copy u) then count forwarded_one (vu_media_id u) q else q in
      Some (id, put_started (<[id := set_started u]> (q_started q)) q)
  end.

(* @src/crates/throcc-server/src/egress.rs 486-518 Queues::pop *)
Definition queues_pop (q : Queues) : option bytes * Queues :=
  match audio_pop (q_audio q) with
  | (Some (media_id, packet), a) => (Some packet, count forwarded_one media_id (put_audio a q))
  | (None, a) =>
      let q := put_audio a q in
      match serve q with
      | None => (None, q)
      | Some (id, q) =>
          match q_started q !! id with
          | None => (None, q)
          | Some u =>
              match vu_packets u with
              | [] => (None, q)
              | packet :: rest =>
                  let q := put_started (<[id := set_packets rest u]> (q_started q)) q in
                  let q := put_video_bytes (q_video_bytes q - Z.of_nat (length packet)) q in
                  match rest with
                  | _ :: _ => (Some packet, put_sending ({[id]} ∪ q_sending q) q)
                  | [] =>
                      let q := put_sending (q_sending q ∖ {[id]}) q in
                      (Some packet, if vu_complete u then finish id FateSent q else q)
                  end
              end
          end
      end
  end.

(* @src/crates/throcc-server/src/egress.rs 520-529 Queues::take_stats *)
Definition take_stats (q : Queues) : list TrackStats * Queues :=
  ((fun '(media_id, c) => mkTrackStats media_id (ct_forwarded c) (ct_dropped_units c)) <$> in_key_order (q_stats q), put_stats ∅ q).

(** ** One round of the task *)

(** What the inbox lost goes around what it took: lost first fragments before, the rest after. *)
(* @src/crates/throcc-server/src/egress.rs 561-573! spawn *)
Definition drain (lost : list Lost) (overflow : gmap Z Z) (packets : list (Packet * Z)) (q : Queues) : Queues :=
  let q := foldl (fun q l => lose l q) q (filter (fun l => lo_first l = true) lost) in
  let q := foldl (fun q '(packet, now) => queues_push packet now q) q packets in
  let q := foldl (fun q l => lose l q) q (filter (fun l => lo_first l = false) lost) in
  foldl (fun q '(media_id, n) => count (fun c => mkCounters (ct_forwarded c) (wrap32 (ct_dropped_units c + n))) media_id q) q (in_key_order overflow).

(** [report] tells whether the statistics are due, and then whether the control queue has room. *)
(* @src/crates/throcc-server/src/egress.rs 574-588! spawn *)
Definition egress_round (lost : list Lost) (overflow : gmap Z Z) (packets : list (Packet * Z)) (now : Z) (report : option bool) (q : Queues)
  : option bytes * list TrackStats * Queues :=
  let q := enforce_budget now (drain lost overflow packets q) in
  let '(tracks, q) := match report with
                      | None => ([], q)
                      | Some room => let q := forget_quiet_tracks q in if room then take_stats q else ([], q)
                      end in
  let '(packet, q) := queues_pop q in
  (packet, tracks, q).

(** ** One receiver's queues: invariants and caps *)

(** ** Audio *)

Definition queue_len (ps : list bytes) : Z := Z.of_nat (length ps).

Record audio_ok (a : AudioQueues) : Prop := {
  ao_turns : NoDup (au_turns a);
  ao_served : forall m, m ∈ au_turns a <-> is_Some (au_tracks a !! m);
  ao_full : forall m ps, au_tracks a !! m = Some ps -> ps <> [];
  ao_len : au_len a = total queue_len (au_tracks a);
  ao_cap : au_len a <= MAX_QUEUED_AUDIO
}.

Lemma queue_len_pos ps : 0 <= queue_len ps.
Proof. unfold queue_len. lia. Qed.

Lemma longest_spec (m : gmap Z (list bytes)) : match longest m with
  | Some (t, ps) => m !! t = Some ps /\ forall t' ps', m !! t' = Some ps' -> (length ps' <= length ps)%nat
  | None => m = ∅ end.
Proof.
  unfold longest. set (step := fun _ _ => _).
  assert (forall l best, match foldl step best l with
    | Some b => (best = Some b \/ b ∈ l) /\ (forall e, e ∈ l -> (length e.2 <= length b.2)%nat) /\ (forall e, best = Some e -> (length e.2 <= length b.2)%nat)
    | None => best = None /\ l = [] end) as H.
  { induction l as [|e l IH]; intros best; cbn [foldl]; [destruct best; [split; [by left|split; [set_solver|by intros e [= <-]]]|done]|].
    specialize (IH (step best e)). destruct (foldl step (step best e) l) as [b|].
    - destruct IH as (Hin & Hall & Hb). assert ((length e.2 <= length b.2)%nat /\ (forall e', best = Some e' -> (length e'.2 <= length b.2)%nat)) as [He Hbest].
      { unfold step in Hb. destruct best as [b0|]; [|by split; [apply Hb|]]. destruct (Nat.leb_spec (length b0.2) (length e.2)).
        - specialize (Hb e eq_refl). split; [done|]. intros e' [= <-]. lia.
        - specialize (Hb b0 eq_refl). split; [lia|]. by intros e' [= <-]. }
      split; [|split; [|done]].
      + unfold step in Hin. destruct Hin as [Hin|?]; [|right; set_solver]. destruct best as [b0|]; [destruct (_ <=? _)%nat|]; simplify_eq; (by left) || (right; set_solver).
      + intros e' [->|?]%elem_of_cons; [done|by apply Hall].
    - destruct IH as [IH _]. unfold step in IH. destruct best as [b0|]; [by destruct (_ <=? _)%nat|done]. }
  specialize (H (map_to_list m) None). destruct (foldl _ _ _) as [[t ps]|].
  - destruct H as ([?|Hin%elem_of_map_to_list] & Hall & _); [done|]. split; [done|]. intros t' ps' Ht'. apply (Hall (t', ps')). by apply elem_of_map_to_list.
  - destruct H as [_ H]. by apply map_to_list_empty_iff.
Qed.

(** The queue of a track, empty when it has none. *)
Definition queued (t : MediaId) (a : AudioQueues) : list bytes := default [] (au_tracks a !! t).

Lemma audio_evict_ok (a : AudioQueues) : audio_ok a -> 0 < au_len a ->
  exists t ps, longest (au_tracks a) = Some (t, ps) /\ fst (evict_from_longest a) = Some t /\
    let a' := snd (evict_from_longest a) in
    audio_ok a' /\ au_len a' = au_len a - 1 /\ (forall t', queued t' a' = if decide (t' = t) then tail ps else queued t' a) /\
    (forall t' ps', au_tracks a !! t' = Some ps' -> (length ps' <= length ps)%nat) /\ au_tracks a !! t = Some ps.
Proof.
  intros [Ht Hs Hf Hl Hc] Hpos. pose proof (longest_spec (au_tracks a)) as Hlong. unfold evict_from_longest. destruct (longest (au_tracks a)) as [[t ps]|].
  2:{ rewrite Hlong, total_empty in Hl. lia. }
  destruct Hlong as [Hps Hmax]. exists t, ps. split; [done|]. pose proof (Hf _ _ Hps) as Hne. destruct ps as [|p ps]; [done|]. cbn [tail].
  destruct ps as [|p2 ps]; (split; [done|]); cbn [snd].
  - split; [|split; [done|split; [|done]]].
    + split; cbn [au_turns au_tracks au_len].
      * by apply list.NoDup_filter.
      * intros m. rewrite list_elem_of_filter, Hs, lookup_delete_is_Some. naive_solver.
      * intros m ps [_ Hm]%lookup_delete_Some. by apply (Hf m).
      * rewrite (total_delete _ _ t [p]) by done. unfold queue_len at 2. cbn. lia.
      * lia.
    + intros t'. unfold queued. cbn [au_tracks]. destruct (decide (t' = t)) as [->|]; [by rewrite lookup_delete_eq|by rewrite lookup_delete_ne].
  - split; [|split; [done|split; [|done]]].
    + split; cbn [au_turns au_tracks au_len]; [done| | | |lia].
      * intros m. rewrite Hs, lookup_insert_is_Some. destruct (decide (t = m)) as [->|]; [|naive_solver]. rewrite Hps. naive_solver.
      * intros m ps' [[<- <-]|[_ Hm]]%lookup_insert_Some; [done|by apply (Hf m)].
      * rewrite (total_replace _ _ t (p :: p2 :: ps)) by done. unfold queue_len at 2 3. cbn [length]. lia.
    + intros t'. unfold queued. cbn [au_tracks]. destruct (decide (t' = t)) as [->|]; [by rewrite lookup_insert_eq|by rewrite lookup_insert_ne].
Qed.

Lemma audio_push_ok t p (a : AudioQueues) : audio_ok a ->
  let '(evicted, a') := audio_push t p a in
  audio_ok a' /\
  (forall t', queued t' a' = (if decide (evicted = Some t') then tail (queued t' a) else queued t' a) ++ (if decide (t' = t) then [p] else [])) /\
  (forall e, evicted = Some e -> au_len a = MAX_QUEUED_AUDIO /\ forall t', (length (queued t' a) <= length (queued e a))%nat) /\
  (evicted = None -> exists new, au_turns a' = au_turns a ++ new).
Proof.
  intros Hok. unfold audio_push.
  set (ea := if MAX_QUEUED_AUDIO <=? au_len a then evict_from_longest a else (None, a)).
  assert (audio_ok ea.2 /\ au_len ea.2 < MAX_QUEUED_AUDIO /\
    (forall t', queued t' ea.2 = if decide (ea.1 = Some t') then tail (queued t' a) else queued t' a) /\
    (forall e, ea.1 = Some e -> au_len a = MAX_QUEUED_AUDIO /\ forall t', (length (queued t' a) <= length (queued e a))%nat) /\
    (ea.1 = None -> ea.2 = a)) as (Hok1 & Hlen & Hq & He & Hnone).
  { unfold ea. pose proof (ao_cap _ Hok). destruct (Z.leb_spec MAX_QUEUED_AUDIO (au_len a)) as [Hfull|Hroom]; [|split_and!; done].
    destruct (audio_evict_ok a Hok) as (e & ps & _ & E1 & Hok1 & Hl & Hq & Hmax & Hps); [unfold MAX_QUEUED_AUDIO, MAX_ROOM_MEMBERS, MAX_ROOM_SHARES in Hfull; lia|]. cbv zeta in *.
    split; [done|]. split; [lia|]. rewrite E1. split; [|split; [|done]].
    - intros t'. rewrite Hq. unfold queued. destruct (decide (t' = e)) as [->|]; [rewrite decide_True by done; by rewrite Hps|by rewrite decide_False by congruence].
    - intros e' [= <-]. split; [lia|]. intros t'. unfold queued. rewrite Hps. cbn. destruct (au_tracks a !! t') as [ps'|] eqn:E; cbn; [by apply (Hmax t')|lia]. }
  destruct ea as [evicted a1]. cbn [fst snd] in *. fold (queued t a1). destruct Hok1 as [Ht Hs Hf Hl Hc].
  assert (audio_ok (mkAudio (<[t := queued t a1 ++ [p]]> (au_tracks a1)) (match queued t a1 with [] => au_turns a1 ++ [t] | _ :: _ => au_turns a1 end) (au_len a1 + 1))) as Hok'.
  { assert (t ∈ au_turns a1 <-> queued t a1 <> []) as Hin.
    { rewrite Hs. unfold queued. destruct (au_tracks a1 !! t) as [ps|] eqn:E; cbn; [split; [intros _; by apply (Hf t)|by eexists]|]. split; [by intros []|done]. }
    split; cbn [au_turns au_tracks au_len].
    - destruct (queued t a1) as [|p0 ps]; [|done]. apply list.NoDup_app. split; [done|]. split; [|repeat constructor; set_solver].
      intros m Hm ->%list_elem_of_singleton. by apply Hin in Hm.
    - intros m. rewrite lookup_insert_is_Some. destruct (queued t a1) as [|p0 ps]; rewrite ?elem_of_app, ?list_elem_of_singleton, Hs; [destruct (decide (t = m)); naive_solver|].
      split; [destruct (decide (t = m)); naive_solver|]. intros [<-|[_ ?]]; [by apply Hs, Hin|done].
    - intros m ps' [[<- <-]|[_ Hm]]%lookup_insert_Some; [by destruct (queued t a1)|by apply (Hf m)].
    - unfold queued. destruct (au_tracks a1 !! t) as [ps|] eqn:E; cbn.
      + rewrite (total_replace _ _ t ps) by done. unfold queue_len at 2 3. rewrite length_app. cbn. lia.
      + rewrite total_insert by done. unfold queue_len at 1. cbn. lia.
    - lia. }
  split; [done|]. split; [|split; [done|]].
  - intros t'. rewrite <- Hq. unfold queued at 1. cbn [au_tracks]. destruct (decide (t' = t)) as [->|]; [by rewrite lookup_insert_eq|].
    rewrite lookup_insert_ne by done. by rewrite app_nil_r.
  - intros ->. rewrite (Hnone eq_refl). cbn [au_turns]. destruct (queued t a); [by exists [t]|exists []; by rewrite app_nil_r].
Qed.

Lemma audio_pop_ok (a : AudioQueues) : audio_ok a ->
  match audio_pop a with
  | (Some (t, p), a') => audio_ok a' /\ au_turns a !! 0%nat = Some t /\ queued t a = p :: queued t a' /\ (forall t', t' <> t -> queued t' a' = queued t' a) /\
      (exists back, au_turns a' = tail (au_turns a) ++ back)
  | (None, a') => a' = a /\ au_turns a = [] /\ au_tracks a = ∅
  end.
Proof.
  intros [Ht Hs Hf Hl Hc]. unfold audio_pop. destruct (au_turns a) as [|t turns] eqn:E.
  { split; [done|]. split; [done|]. apply map_empty. intros m. destruct (au_tracks a !! m) eqn:Em; [|done]. exfalso.
    assert (m ∈ []) as H by (apply Hs; by eexists). set_solver. }
  destruct (au_tracks a !! t) as [ps|] eqn:Eps; [|exfalso; assert (is_Some (au_tracks a !! t)) as [? ?] by (apply Hs; set_solver); congruence].
  pose proof (Hf _ _ Eps) as Hne. apply list.NoDup_cons in Ht as [Hnot Ht]. destruct ps as [|p ps]; [done|]. destruct ps as [|p2 ps].
  - split; [|split; [done|split; [unfold queued; cbn [au_tracks]; by rewrite Eps, lookup_delete_eq|split]]].
    + split; cbn [au_turns au_tracks au_len]; [done| | | |lia].
      * intros m. rewrite lookup_delete_is_Some, <- Hs, elem_of_cons. naive_solver.
      * intros m ps [_ Hm]%lookup_delete_Some. by apply (Hf m).
      * rewrite (total_delete _ _ t [p]) by done. unfold queue_len at 2. cbn. lia.
    + intros t' Hne'. unfold queued. cbn [au_tracks]. by rewrite lookup_delete_ne.
    + exists []. cbn. by rewrite app_nil_r.
  - split; [|split; [done|split; [unfold queued; cbn [au_tracks]; by rewrite Eps, lookup_insert_eq|split]]].
    + split; cbn [au_turns au_tracks au_len].
      * apply list.NoDup_app. split; [done|]. split; [|repeat constructor; set_solver]. by intros m Hm ->%list_elem_of_singleton.
      * intros m. rewrite lookup_insert_is_Some, elem_of_app, list_elem_of_singleton. setoid_rewrite elem_of_cons in Hs. rewrite <- Hs. destruct (decide (t = m)); naive_solver.
      * intros m ps' [[<- <-]|[_ Hm]]%lookup_insert_Some; [done|by apply (Hf m)].
      * rewrite (total_replace _ _ t (p :: p2 :: ps)) by done. unfold queue_len at 2 3. cbn [length]. lia.
      * lia.
    + intros t' Hne'. unfold queued. cbn [au_tracks]. by rewrite lookup_insert_ne.
    + by exists [t].
Qed.

(** ** Runs of the audio queues *)

Inductive AudioEvent := AuPushed (t : MediaId) (p : bytes) | AuPopped.
(** What was popped and which tracks lost a packet. *)
Fixpoint audio_run (es : list AudioEvent) (a : AudioQueues) : list (MediaId * bytes) * list MediaId * AudioQueues :=
  match es with
  | [] => ([], [], a)
  | AuPushed t p :: es =>
      let '(evicted, a) := audio_push t p a in
      let '(popped, losses, a) := audio_run es a in (popped, option_list evicted ++ losses, a)
  | AuPopped :: es =>
      let '(packet, a) := audio_pop a in
      let '(popped, losses, a) := audio_run es a in (option_list packet ++ popped, losses, a)
  end.
Definition of_track (t : MediaId) (l : list (MediaId * bytes)) : list bytes := omap (fun '(t', p) => if decide (t' = t) then Some p else None) l.
Definition pushed_on (t : MediaId) (es : list AudioEvent) : list bytes :=
  omap (fun e => match e with AuPushed t' p => if decide (t' = t) then Some p else None | AuPopped => None end) es.

Lemma of_track_app t l l' : of_track t (l ++ l') = of_track t l ++ of_track t l'.
Proof. apply omap_app. Qed.

Lemma audio_run_ok es (a : AudioQueues) t : audio_ok a ->
  let '(popped, losses, a') := audio_run es a in
  audio_ok a' /\ of_track t popped ++ queued t a' `sublist_of` queued t a ++ pushed_on t es /\
  (t ∉ losses -> of_track t popped ++ queued t a' = queued t a ++ pushed_on t es).
Proof.
  revert a. induction es as [|[t0 p|] es IH]; intros a Hok; cbn [audio_run].
  - cbn. rewrite app_nil_r. done.
  - pose proof (audio_push_ok t0 p a Hok) as Hp. destruct (audio_push t0 p a) as [evicted a1]. destruct Hp as (Hok1 & Hq & _ & _).
    specialize (IH a1 Hok1). destruct (audio_run es a1) as [[popped losses] a']. destruct IH as (Hok' & Hsub & Heq).
    assert (pushed_on t (AuPushed t0 p :: es) = (if decide (t = t0) then [p] else []) ++ pushed_on t es) as Ep.
    { unfold pushed_on. cbn. destruct (decide (t0 = t)), (decide (t = t0)); done. }
    rewrite Ep, app_assoc. rewrite Hq in Hsub, Heq. split; [done|]. split.
    + etransitivity; [exact Hsub|]. apply sublist_app; [|done]. apply sublist_app; [|done]. destruct (decide _); [|done].
      destruct (queued t a); [done|]. by apply sublist_cons.
    + rewrite not_elem_of_app. intros [He Hl]. rewrite Heq by done. f_equal. f_equal. rewrite decide_False; [done|]. intros ->. apply He. set_solver.
  - pose proof (audio_pop_ok a Hok) as Hp. destruct (audio_pop a) as [[[t0 p]|] a1].
    + destruct Hp as (Hok1 & _ & Hq & Hother & _). specialize (IH a1 Hok1). destruct (audio_run es a1) as [[popped losses] a'].
      destruct IH as (Hok' & Hsub & Heq). split; [done|]. change (pushed_on t (AuPopped :: es)) with (pushed_on t es).
      change (option_list (Some (t0, p)) ++ popped) with ([(t0, p)] ++ popped). rewrite of_track_app.
      destruct (decide (t0 = t)) as [<-|Hne].
      * assert (of_track t0 [(t0, p)] = [p]) as -> by (unfold of_track; cbn; by rewrite decide_True). rewrite Hq. cbn [app]. split; [by apply sublist_skip|]. intros Hl. by rewrite Heq.
      * assert (of_track t [(t0, p)] = []) as -> by (unfold of_track; cbn; by rewrite decide_False). cbn [app]. rewrite <- (Hother t) by done. done.
    + destruct Hp as (-> & _ & _). specialize (IH a Hok). by destruct (audio_run es a) as [[popped losses] a'].
Qed.

Lemma audio_default_ok : audio_ok audio_default.
Proof.
  split; cbn; [constructor| | |done|unfold MAX_QUEUED_AUDIO, MAX_ROOM_MEMBERS, MAX_ROOM_SHARES; lia].
  - intros m. rewrite lookup_empty. split; [set_solver|by intros []].
  - intros m ps. by rewrite lookup_empty.
Qed.

Lemma turn_comes i (a : AudioQueues) t : audio_ok a -> au_turns a !! i = Some t ->
  exists p rest, queued t a = p :: rest /\ fst (audio_pop (Nat.iter i (fun a => snd (audio_pop a)) a)) = Some (t, p).
Proof.
  revert a. induction i as [|i IH]; intros a Hok Ht; pose proof (audio_pop_ok a Hok) as Hp.
  - destruct (audio_pop a) as [[[t0 p]|] a1] eqn:Epop; [|destruct Hp as (_ & E & _); by rewrite E in Ht].
    destruct Hp as (_ & Ht0 & Hq & _). rewrite Ht in Ht0. injection Ht0 as <-. exists p, (queued t a1). split; [done|]. cbn. by rewrite Epop.
  - destruct (audio_pop a) as [[[t0 p]|] a1] eqn:Epop; [|destruct Hp as (_ & E & _); by rewrite E in Ht].
    destruct Hp as (Hok1 & Ht0 & _ & Hother & (back & Eb)).
    assert (t <> t0) as Hne. { intros ->. pose proof (NoDup_lookup _ _ _ _ (ao_turns _ Hok) Ht0 Ht). done. }
    assert (au_turns a1 !! i = Some t) as Ht1. { rewrite Eb. apply lookup_app_l_Some. destruct (au_turns a); [done|]. exact Ht. }
    destruct (IH a1 Hok1 Ht1) as (p' & rest & Hq & Hpop). exists p', rest. rewrite Nat.iter_succ_r. cbn beta. rewrite Epop. cbn [snd].
    split; [|done]. by rewrite <- Hother.
Qed.

(** Audio is queued fairly.  After any pushes and pops, the receiver's audio holds at
    most [MAX_QUEUED_AUDIO] packets; what a track's receiver got and what still waits is what
    was pushed on the track, in order, less the oldest packets the track itself lost, and all
    of it if it lost none; a push makes a track lose one only at the cap, and only a track
    with a longest queue; and a track at place [i] of the turns is served by the [i+1]th pop. *)
Theorem audio_is_served_in_turn (es : list AudioEvent) (t : MediaId) :
  let '(popped, losses, a) := audio_run es audio_default in
  au_len a = total queue_len (au_tracks a) /\ au_len a <= MAX_QUEUED_AUDIO /\
  of_track t popped ++ queued t a `sublist_of` pushed_on t es /\
  (t ∉ losses -> of_track t popped ++ queued t a = pushed_on t es) /\
  (forall t' p e, fst (audio_push t' p a) = Some e -> au_len a = MAX_QUEUED_AUDIO /\ (length (queued t a) <= length (queued e a))%nat) /\
  (forall i, au_turns a !! i = Some t -> exists p rest, queued t a = p :: rest /\ fst (audio_pop (Nat.iter i (fun a => snd (audio_pop a)) a)) = Some (t, p)).
Proof.
  pose proof (audio_run_ok es audio_default t audio_default_ok) as H. destruct (audio_run es audio_default) as [[popped losses] a]. destruct H as (Hok & Hsub & Heq).
  change (queued t audio_default) with (@nil bytes) in Hsub, Heq. cbn [app] in Hsub, Heq.
  split; [apply (ao_len _ Hok)|]. split; [apply (ao_cap _ Hok)|]. split; [done|]. split; [done|]. split; [|intros i; by apply turn_comes].
  intros t' p e He. pose proof (audio_push_ok t' p a Hok) as Hp. destruct (audio_push t' p a) as [evicted a']. cbn in He. destruct Hp as (_ & _ & Hev & _).
  destruct (Hev e He) as [? Hl]. split; [done|]. apply Hl.
Qed.
