(* ===== verification/EgressVideo.v ===== *)
(** * One receiver's queues: video *)
From S2P Require Import Prelude Ordered Ids Frame Messages Buckets Sfu Egress.
Open Scope Z_scope.

(** ** The invariant *)

(** [u] is queued as a unit of its own, found by its track and first [seq]. *)
Definition whole_unit (m s : Z) (u : VideoUnit) : Prop := vu_stray u = false /\ vu_media_id u = m /\ vu_first_seq u = s.

(** [clock] is the latest time an operation was given. *)
Record video_ok (clock : Z) (q : Queues) : Prop := {
  vo_started : forall i u, q_started q !! i = Some u -> vu_id u = i /\ i < q_next_id q /\ vu_started u = true;
  vo_waiting : forall i u, q_waiting q !! i = Some u ->
    vu_id u = i /\ i < q_next_id q /\ vu_started u = false /\ vu_packets u <> [] /\ vu_arrived u <= clock;
  vo_order : forall i u j v, q_started q !! i = Some u -> q_waiting q !! j = Some v -> i < j;
  vo_arrival : forall i u j v, q_waiting q !! i = Some u -> q_waiting q !! j = Some v -> i < j -> vu_arrived u <= vu_arrived v;
  vo_sending : forall i, i ∈ q_sending q <-> exists u, q_started q !! i = Some u /\ vu_packets u <> [];
  vo_bytes : q_video_bytes q = total unit_bytes (q_started q) + total unit_bytes (q_waiting q);
  vo_strays : forall i u, q_waiting q !! i = Some u -> vu_stray u = true <-> i ∈ q_strays q;
  vo_stray_ids : forall i, i ∈ q_strays q -> i < q_next_id q;
  vo_copies : forall m s i, (exists ids, q_copies q !! (m, s) = Some ids /\ i ∈ ids) <-> exists u, unit_mut i q = Some u /\ whole_unit m s u;
  vo_history : forall m h s i, q_history q !! m = Some h -> h !! s = Some (FateQueued i) -> exists u, unit_mut i q = Some u /\ whole_unit m s u;
  vo_remembered : forall m h, q_history q !! m = Some h -> Z.of_nat (size h) <= HISTORY
}.

Lemma unit_bytes_pos u : 0 <= unit_bytes u.
Proof. unfold unit_bytes, packet_bytes. induction (vu_packets u); cbn; lia. Qed.

Lemma packet_bytes_app ps qs : packet_bytes (ps ++ qs) = packet_bytes ps + packet_bytes qs.
Proof. unfold packet_bytes. induction ps; cbn; lia. Qed.

Lemma unit_started i u q : q_started q !! i = Some u -> unit_mut i q = Some u.
Proof. intros H. unfold unit_mut. by rewrite H. Qed.
Lemma not_started clock i u q : video_ok clock q -> q_waiting q !! i = Some u -> q_started q !! i = None.
Proof. intros Hok Hw. destruct (q_started q !! i) as [v|] eqn:E; [|done]. pose proof (vo_order _ _ Hok _ _ _ _ E Hw). lia. Qed.
Lemma not_waiting clock i u q : video_ok clock q -> q_started q !! i = Some u -> q_waiting q !! i = None.
Proof. intros Hok Hs. destruct (q_waiting q !! i) as [v|] eqn:E; [|done]. pose proof (vo_order _ _ Hok _ _ _ _ Hs E). lia. Qed.
Lemma unit_waiting clock i u q : video_ok clock q -> q_waiting q !! i = Some u -> unit_mut i q = Some u.
Proof. intros Hok H. unfold unit_mut. by rewrite (not_started clock i u). Qed.
Lemma unit_cases i u q : unit_mut i q = Some u -> q_started q !! i = Some u \/ (q_started q !! i = None /\ q_waiting q !! i = Some u).
Proof. unfold unit_mut. destruct (q_started q !! i); [left; congruence|by right]. Qed.
Lemma unit_id clock i u q : video_ok clock q -> unit_mut i q = Some u -> vu_id u = i /\ i < q_next_id q.
Proof. intros Hok [H|[_ H]]%unit_cases; [apply (vo_started _ _ Hok) in H|apply (vo_waiting _ _ Hok) in H]; tauto. Qed.

Lemma video_later clock now q : video_ok clock q -> clock <= now -> video_ok now q.
Proof. intros [] Hle. split; try done. intros i u H. destruct (vo_waiting0 i u H) as (?&?&?&?&?). split_and!; (done || lia). Qed.

(** Only statistics, or what video does not depend on. *)
Definition same_video (q q' : Queues) : Prop :=
  q_started q' = q_started q /\ q_waiting q' = q_waiting q /\ q_sending q' = q_sending q /\ q_strays q' = q_strays q /\ q_copies q' = q_copies q /\
  q_history q' = q_history q /\ q_next_id q' = q_next_id q /\ q_video_bytes q' = q_video_bytes q.
Lemma same_video_ok clock q q' : same_video q q' -> video_ok clock q -> video_ok clock q'.
Proof.
  intros (E1 & E2 & E3 & E4 & E5 & E6 & E7 & E8) []. split; rewrite ?E1, ?E2, ?E3, ?E4, ?E5, ?E6, ?E7, ?E8; try done; unfold unit_mut in *; rewrite E1, E2; done.
Qed.
Lemma same_video_trans a b c : same_video a b -> same_video b c -> same_video a c.
Proof. unfold same_video. intros (?&?&?&?&?&?&?&?) (?&?&?&?&?&?&?&?). split_and!; congruence. Qed.

(** ** Leaving the queue *)

Lemma finish_fields clock id fate u q : video_ok clock q -> unit_mut id q = Some u ->
  let q' := finish id fate q in
  q_started q' = delete id (q_started q) /\ q_waiting q' = delete id (q_waiting q) /\ q_sending q' = q_sending q ∖ {[id]} /\
  q_video_bytes q' = q_video_bytes q - unit_bytes u /\ q_strays q' = q_strays q /\ q_next_id q' = q_next_id q /\
  q_copies q' = (if vu_stray u then q_copies q else forget_copy id u (q_copies q)) /\ q_history q' = settle_fate id fate u (q_history q) /\
  q_audio q' = q_audio q /\ q_next_idle_check q' = q_next_idle_check q /\ q_active_tracks q' = q_active_tracks q /\ q_stats q' = q_stats q.
Proof.
  intros Hok Hu. unfold finish. rewrite Hu. apply unit_cases in Hu as [Hs|[Hn Hw]].
  - rewrite Hs. rewrite (delete_id (q_waiting q) id) by (by eapply not_waiting). by destruct (vu_stray u).
  - rewrite Hn. rewrite (delete_id (q_started q) id) by done. by destruct (vu_stray u).
Qed.

Lemma unit_after_finish clock id fate u q i : video_ok clock q -> unit_mut id q = Some u ->
  unit_mut i (finish id fate q) = if decide (i = id) then None else unit_mut i q.
Proof.
  intros Hok Hu. destruct (finish_fields clock id fate u q Hok Hu) as (E1 & E2 & _). unfold unit_mut. rewrite E1, E2.
  destruct (decide (i = id)) as [->|]; [by rewrite !lookup_delete_eq|by rewrite !lookup_delete_ne].
Qed.

Lemma forget_copy_spec (id : Z) (u : VideoUnit) (copies : gmap (Z * Z) (gset Z)) (k : Z * Z) (i : Z) :
  (exists ids : gset Z, forget_copy id u copies !! k = Some ids /\ i ∈ ids) <->
  (exists ids, copies !! k = Some ids /\ i ∈ ids) /\ ~ (k = (vu_media_id u, vu_first_seq u) /\ i = id).
Proof.
  unfold forget_copy. destruct (copies !! (vu_media_id u, vu_first_seq u)) as [ids|] eqn:E.
  - destruct (decide (ids ∖ {[id]} = ∅)) as [Hemp|Hne].
    + setoid_rewrite lookup_delete_Some. split.
      * intros (ids' & [? ?] & ?). split; [by exists ids'|]. naive_solver.
      * intros [(ids' & Hk & Hi) Hno]. exists ids'. split; [|done]. split; [|done]. intros <-. rewrite E in Hk. injection Hk as <-.
        apply Hno. split; [done|]. destruct (decide (i = id)); [done|]. assert (i ∈ ids ∖ {[id]}) by set_solver. set_solver.
    + setoid_rewrite lookup_insert_Some. split.
      * intros (ids' & [[<- <-]|[? ?]] & Hi); [split; [exists ids; set_solver|set_solver]|split; [by exists ids'|naive_solver]].
      * intros [(ids' & Hk & Hi) Hno]. destruct (decide ((vu_media_id u, vu_first_seq u) = k)) as [<-|Hk'].
        -- rewrite E in Hk. injection Hk as <-. exists (ids ∖ {[id]}). split; [by left|]. set_solver.
        -- exists ids'. split; [by right|done].
  - split; [|tauto]. intros (ids & Hk & Hi). split; [by exists ids|]. intros [-> _]. congruence.
Qed.

(** No fate of [id] stays after its unit settles. *)
Lemma settle_fate_spec id fate u (history : gmap Z (gmap Z Fate)) m h s i : (forall j, fate <> FateQueued j) ->
  settle_fate id fate u history !! m = Some h -> h !! s = Some (FateQueued i) ->
  exists h0, history !! m = Some h0 /\ h0 !! s = Some (FateQueued i) /\ ~ (i = id /\ m = vu_media_id u /\ s = vu_first_seq u).
Proof.
  intros Hfate. unfold settle_fate. destruct (history !! vu_media_id u) as [hu|] eqn:Eh.
  2:{ intros Hm Hs. exists h. split_and!; [done|done|]. intros (_ & -> & _). congruence. }
  destruct (hu !! vu_first_seq u) as [f|] eqn:Ef.
  2:{ intros Hm Hs. exists h. split_and!; [done|done|]. intros (_ & -> & ->). congruence. }
  destruct (decide (f = FateQueued id)) as [->|Hne].
  - intros [[<- <-]|[Hm Hh]]%lookup_insert_Some.
    + intros [[<- E]|[Hs Hl]]%lookup_insert_Some; [by destruct (Hfate i)|]. exists hu. split_and!; [done|done|]. naive_solver.
    + intros Hs. exists h. split_and!; [done|done|]. naive_solver.
  - intros Hm Hs. exists h. split_and!; [done|done|]. intros (-> & -> & ->). congruence.
Qed.

Lemma settle_fate_size id fate u (history : gmap Z (gmap Z Fate)) m h : settle_fate id fate u history !! m = Some h ->
  exists h0, history !! m = Some h0 /\ size h = size h0.
Proof.
  unfold settle_fate. destruct (history !! vu_media_id u) as [hu|] eqn:Eh; [|by exists h].
  destruct (hu !! vu_first_seq u) as [f|] eqn:Ef; [|by exists h]. destruct (decide _); [|by exists h].
  intros [[<- <-]|[? ?]]%lookup_insert_Some; [|by exists h]. exists hu. split; [done|]. by rewrite map_size_insert_Some by (by eexists).
Qed.

Lemma finish_ok clock id fate q : video_ok clock q -> (forall j, fate <> FateQueued j) -> video_ok clock (finish id fate q).
Proof.
  intros Hok Hfate. destruct (unit_mut id q) as [u|] eqn:Hu; [|unfold finish; by rewrite Hu].
  destruct (finish_fields clock id fate u q Hok Hu) as (E1 & E2 & E3 & E4 & E5 & E6 & E7 & E8 & _).
  pose proof (fun i => unit_after_finish clock id fate u q i Hok Hu) as EU. pose proof (unit_cases _ _ _ Hu) as Hcase.
  set (q' := finish id fate q) in *. clearbody q'. pose proof Hok as []. split; rewrite ?E1, ?E2, ?E3, ?E4, ?E5, ?E6.
  - intros i v [_ H]%lookup_delete_Some. by apply vo_started0.
  - intros i v [_ H]%lookup_delete_Some. by apply vo_waiting0.
  - intros i v j w [_ H]%lookup_delete_Some [_ H']%lookup_delete_Some. by apply (vo_order0 i v j w).
  - intros i v j w [_ H]%lookup_delete_Some [_ H']%lookup_delete_Some. by apply (vo_arrival0 i v j w).
  - intros i. rewrite elem_of_difference, vo_sending0, elem_of_singleton. setoid_rewrite lookup_delete_Some. naive_solver.
  - destruct Hcase as [Hs|[Hn Hw]].
    + rewrite (total_delete _ _ id u) by done. rewrite (delete_id (q_waiting q)) by (by eapply not_waiting). lia.
    + rewrite (total_delete _ (q_waiting q) id u) by done. rewrite (delete_id (q_started q)) by done. lia.
  - intros i v [_ H]%lookup_delete_Some. by apply vo_strays0.
  - done.
  - intros m s i. rewrite E7. assert ((exists v, unit_mut i q' = Some v /\ whole_unit m s v) <-> (exists v, unit_mut i q = Some v /\ whole_unit m s v) /\ i <> id) as Hiff.
    { rewrite EU. destruct (decide (i = id)); naive_solver. }
    rewrite Hiff, <- vo_copies0. destruct (vu_stray u) eqn:Est.
    + split; [|tauto]. intros H. split; [done|]. intros ->. apply vo_copies0 in H as (v & Hv & [Hst _]). congruence.
    + rewrite forget_copy_spec. split; intros [H Hno]; (split; [done|]).
      * intros ->. apply vo_copies0 in H as (v & Hv & (_ & <- & <-)). assert (v = u) as -> by congruence. by apply Hno.
      * naive_solver.
  - intros m h s i Hm Hs. rewrite E8 in Hm. destruct (settle_fate_spec id fate u _ m h s i Hfate Hm Hs) as (h0 & Hm0 & Hs0 & Hno).
    destruct (vo_history0 m h0 s i Hm0 Hs0) as (v & Hv & Hw). rewrite EU. destruct (decide (i = id)) as [->|]; [|by exists v].
    exfalso. assert (v = u) as -> by congruence. destruct Hw as (_ & <- & <-). by apply Hno.
  - intros m h Hm. rewrite E8 in Hm. apply settle_fate_size in Hm as (h0 & Hm0 & ->). by apply (vo_remembered0 m).
Qed.

(** ** Changing a unit in place *)

Definition alike (u u' : VideoUnit) : Prop := vu_id u' = vu_id u /\ vu_media_id u' = vu_media_id u /\ vu_first_seq u' = vu_first_seq u /\
  vu_stray u' = vu_stray u /\ vu_started u' = vu_started u /\ vu_arrived u' = vu_arrived u.

Lemma modify_ok clock id u u' q q' : video_ok clock q -> unit_mut id q = Some u -> alike u u' -> (vu_started u = false -> vu_packets u' <> []) ->
  q_started q' = q_started (put_unit u' id q) -> q_waiting q' = q_waiting (put_unit u' id q) ->
  (forall i, i ∈ q_sending q' <-> if decide (i = id) then vu_started u = true /\ vu_packets u' <> [] else i ∈ q_sending q) ->
  q_video_bytes q' = q_video_bytes q - unit_bytes u + unit_bytes u' -> q_strays q' = q_strays q -> q_next_id q' = q_next_id q ->
  q_copies q' = q_copies q -> q_history q' = q_history q -> video_ok clock q'.
Proof.
  intros Hok Hu (A1 & A2 & A3 & A4 & A5 & A6) Hne Est Ewt Hsend Hbytes E5 E6 E7 E8. pose proof Hok as [].
  assert (forall i, unit_mut i q' = if decide (i = id) then Some u' else unit_mut i q) as EU.
  { intros i. unfold unit_mut in *. rewrite Est, Ewt. unfold put_unit. destruct (q_started q !! id) eqn:Es; cbn [q_started q_waiting put_started put_waiting].
    - destruct (decide (i = id)) as [->|]; [by rewrite lookup_insert_eq|by rewrite lookup_insert_ne].
    - destruct (decide (i = id)) as [->|]; [by rewrite Es, lookup_insert_eq|by rewrite lookup_insert_ne]. }
  assert (forall m s, whole_unit m s u <-> whole_unit m s u') as Hwh by (intros m s; unfold whole_unit; by rewrite A2, A3, A4).
  assert ((q_started q !! id = Some u /\ q_started q' = <[id := u']> (q_started q) /\ q_waiting q' = q_waiting q /\ vu_started u = true) \/
          (q_started q !! id = None /\ q_waiting q !! id = Some u /\ q_started q' = q_started q /\ q_waiting q' = <[id := u']> (q_waiting q) /\ vu_started u = false)) as Hcase.
  { unfold put_unit in Est, Ewt. destruct (unit_cases _ _ _ Hu) as [Hs|[Hn Hw]].
    - left. rewrite Hs in Est, Ewt. pose proof (vo_started0 _ _ Hs) as (_ & _ & ?). split_and!; done.
    - right. rewrite Hn in Est, Ewt. pose proof (vo_waiting0 _ _ Hw) as (_ & _ & ? & _). split_and!; done. }
  split; rewrite ?E5, ?E6.
  - destruct Hcase as [(Hs & -> & _ & _)|(_ & _ & -> & _)]; [|done]. intros i v [[<- <-]|[_ H]]%lookup_insert_Some; [|by apply vo_started0].
    rewrite A1, A5. by apply vo_started0.
  - destruct Hcase as [(_ & _ & -> & _)|(_ & Hw & _ & -> & Hst)]; [done|]. intros i v [[<- <-]|[_ H]]%lookup_insert_Some; [|by apply vo_waiting0].
    destruct (vo_waiting0 _ _ Hw) as (? & ? & ? & ? & ?). rewrite A1, A5, A6. split_and!; try done. by apply Hne.
  - intros i v j w. destruct Hcase as [(Hs & -> & -> & _)|(_ & Hw & -> & -> & _)].
    + intros [[<- <-]|[_ H]]%lookup_insert_Some; [by apply (vo_order0 id u)|by apply (vo_order0 i v)].
    + intros H [[<- <-]|[_ H']]%lookup_insert_Some; [by apply (vo_order0 i v id u)|by apply (vo_order0 i v j w)].
  - intros i v j w. destruct Hcase as [(_ & _ & -> & _)|(_ & Hw & _ & -> & _)]; [apply vo_arrival0|].
    intros [[<- <-]|[? H]]%lookup_insert_Some [[<- <-]|[? H']]%lookup_insert_Some Hlt; [lia|rewrite A6; by apply (vo_arrival0 id u j w)|rewrite A6; by apply (vo_arrival0 i v id u)|by apply (vo_arrival0 i v j w)].
  - intros i. rewrite Hsend. destruct Hcase as [(Hs & -> & _ & Hst)|(Hn & _ & -> & _ & Hst)]; destruct (decide (i = id)) as [->|Hi].
    + rewrite lookup_insert_eq. naive_solver.
    + rewrite lookup_insert_ne by done. apply vo_sending0.
    + rewrite Hst, Hn. naive_solver.
    + apply vo_sending0.
  - rewrite Hbytes, vo_bytes0. destruct Hcase as [(Hs & -> & -> & _)|(_ & Hw & -> & -> & _)]; rewrite (total_replace _ _ id u) by done; lia.
  - intros i v. destruct Hcase as [(_ & _ & -> & _)|(_ & Hw & _ & -> & _)]; [apply vo_strays0|].
    intros [[<- <-]|[? H]]%lookup_insert_Some; [rewrite A4; by apply vo_strays0|by apply vo_strays0].
  - done.
  - intros m s i. rewrite E7, vo_copies0, EU. destruct (decide (i = id)) as [->|]; [|done]. rewrite Hu. pose proof (Hwh m s). naive_solver.
  - intros m h s i. rewrite E8. intros Hm Hs. destruct (vo_history0 m h s i Hm Hs) as (v & Hv & Hw). rewrite EU.
    destruct (decide (i = id)) as [->|]; [|by exists v]. exists u'. split; [done|]. apply Hwh. congruence.
  - by rewrite E8.
Qed.

Lemma count_same f m q : same_video q (count f m q).
Proof. by split_and!. Qed.

Lemma clear_copy_ok clock id u q : video_ok clock q -> unit_mut id q = Some u -> video_ok clock (put_unit (clear_copy u) id q).
Proof.
  intros Hok Hu. assert (forall A (f : Queues -> A), (forall x, f (put_started x q) = f q) -> (forall x, f (put_waiting x q) = f q) -> f (put_unit (clear_copy u) id q) = f q) as Hf.
  { intros A f H1 H2. unfold put_unit. destruct (q_started q !! id); [apply H1|apply H2]. }
  eapply (modify_ok clock id u (clear_copy u) q); try done; try (by apply Hf).
  - intros Hst. apply unit_cases in Hu as [Hs|[_ Hw]]; [apply (vo_started _ _ Hok) in Hs as (_ & _ & ?); congruence|]. by apply (vo_waiting _ _ Hok) in Hw as (_ & _ & _ & ? & _).
  - intros i. rewrite (Hf _ q_sending) by done. destruct (decide (i = id)) as [->|]; [|done]. rewrite (vo_sending _ _ Hok). cbn. split.
    + intros (v & Hv & Hp). assert (v = u) as -> by (apply unit_started in Hv; congruence). split; [|done]. by apply (vo_started _ _ Hok) in Hv as (_ & _ & ?).
    + intros [Hst Hp]. exists u. split; [|done]. apply unit_cases in Hu as [?|[_ Hw]]; [done|]. apply (vo_waiting _ _ Hok) in Hw as (_ & _ & ? & _). congruence.
  - rewrite (Hf _ q_video_bytes) by done. change (unit_bytes (clear_copy u)) with (unit_bytes u). lia.
Qed.

Lemma drop_unit_ok clock id q : video_ok clock q -> video_ok clock (drop_unit id q) /\ forall i, unit_mut i (drop_unit id q) = None <-> i = id \/ unit_mut i q = None.
Proof.
  intros Hok. unfold drop_unit. destruct (unit_mut id q) as [u|] eqn:Hu; [|split; [done|]; naive_solver].
  pose proof (finish_ok clock id FateDropped q Hok ltac:(done)) as Hok1. pose proof (fun i => unit_after_finish clock id FateDropped u q i Hok Hu) as EU.
  set (q1 := finish id FateDropped q) in *. clearbody q1.
  assert (forall i, unit_mut i q1 = None <-> i = id \/ unit_mut i q = None) as Hgone by (intros i; rewrite EU; destruct (decide (i = id)); naive_solver).
  destruct (t ← _; tu ← unit_mut t q1; Some (t, tu)) as [[t tu]|] eqn:Et.
  - apply bind_Some in Et as (t' & _ & (tu' & Htu & [= -> ->])%bind_Some). split; [by apply clear_copy_ok|].
    intros i. rewrite <- Hgone. unfold put_unit, unit_mut in *. destruct (q_started q1 !! t) eqn:Es; cbn [q_started q_waiting put_started put_waiting].
    + destruct (decide (i = t)) as [->|]; [rewrite lookup_insert_eq, Es; done|by rewrite lookup_insert_ne].
    + destruct (decide (i = t)) as [->|]; [rewrite lookup_insert_eq, Es, Htu; done|by rewrite lookup_insert_ne].
  - destruct (vu_stray u || vu_copy u); [done|]. split; [|exact Hgone]. eapply same_video_ok; [|exact Hok1]. by apply count_same.
Qed.

(** ** Arriving *)

Lemma remember_spec s f h : (forall x g, remember s f h !! x = Some g -> (x = s /\ g = f) \/ (x <> s /\ h !! x = Some g)) /\ Z.of_nat (size (remember s f h)) <= HISTORY.
Proof.
  unfold remember. set (h1 := <[s := f]> h). set (drop_one := fun h => if HISTORY <? Z.of_nat (size h) then _ else h).
  assert (forall n, (forall x g, Nat.iter n drop_one h1 !! x = Some g -> h1 !! x = Some g) /\ Z.of_nat (size (Nat.iter n drop_one h1)) <= Z.max HISTORY (Z.of_nat (size h1) - Z.of_nat n)) as H.
  { induction n as [|n [IH1 IH2]]; [change (Nat.iter 0 drop_one h1) with h1; split; [done|lia]|]. rewrite Nat.iter_succ. set (hn := Nat.iter n drop_one h1) in *. unfold drop_one.
    destruct (Z.ltb_spec HISTORY (Z.of_nat (size hn))) as [Hbig|]; [|split; [done|lia]]. destruct (least (dom hn)) as [k|] eqn:El.
    - split; [intros x g [_ Hx]%lookup_delete_Some; by apply IH1|]. apply least_Some in El as [[v Hk]%elem_of_dom _].
      rewrite map_size_delete_Some by (by eexists). unfold HISTORY in *. lia.
    - apply least_None, dom_empty_inv_L in El. rewrite El, map_size_empty in Hbig. unfold HISTORY in Hbig. lia. }
  destruct (H (size h1)) as [H1 H2]. split; [|unfold HISTORY in *; lia]. intros x g [[<- <-]|[? ?]]%H1%lookup_insert_Some; [by left|by right].
Qed.

Lemma queue_new_ok clock now u q q' : video_ok clock q -> clock <= now -> vu_id u = q_next_id q -> vu_started u = false -> vu_packets u <> [] -> vu_arrived u = now ->
  q_started q' = q_started q -> q_waiting q' = <[q_next_id q := u]> (q_waiting q) -> q_next_id q' = q_next_id q + 1 -> q_sending q' = q_sending q ->
  q_video_bytes q' = q_video_bytes q + unit_bytes u -> q_strays q' = (if vu_stray u then q_strays q ++ [q_next_id q] else q_strays q) ->
  (forall m s i, (exists ids, q_copies q' !! (m, s) = Some ids /\ i ∈ ids) <->
     (exists ids, q_copies q !! (m, s) = Some ids /\ i ∈ ids) \/ (i = q_next_id q /\ whole_unit m s u)) ->
  (forall m h s i, q_history q' !! m = Some h -> h !! s = Some (FateQueued i) ->
     (exists h0, q_history q !! m = Some h0 /\ h0 !! s = Some (FateQueued i)) \/ (i = q_next_id q /\ whole_unit m s u)) ->
  (forall m h, q_history q' !! m = Some h -> Z.of_nat (size h) <= HISTORY) -> video_ok now q'.
Proof.
  intros Hok Hle Hid Hst Hne Harr E1 E2 E3 E4 E5 E6 Hcop Hhist Hsize. pose proof Hok as [].
  assert (q_started q !! q_next_id q = None) as Hns. { destruct (q_started q !! q_next_id q) eqn:E; [|done]. apply vo_started0 in E as (_ & ? & _). lia. }
  assert (q_waiting q !! q_next_id q = None) as Hnw. { destruct (q_waiting q !! q_next_id q) eqn:E; [|done]. apply vo_waiting0 in E as (_ & ? & _). lia. }
  assert (forall i, unit_mut i q' = if decide (i = q_next_id q) then Some u else unit_mut i q) as EU.
  { intros i. unfold unit_mut. rewrite E1, E2. destruct (decide (i = q_next_id q)) as [->|]; [by rewrite Hns, lookup_insert_eq|by rewrite lookup_insert_ne]. }
  assert (unit_mut (q_next_id q) q = None) as Hnu by (unfold unit_mut; by rewrite Hns).
  split; rewrite ?E1, ?E2, ?E3, ?E4.
  - intros i v H. destruct (vo_started0 i v H) as (? & ? & ?). split_and!; (done || lia).
  - intros i v [[<- <-]|[_ H]]%lookup_insert_Some; [split_and!; (done || lia)|]. destruct (vo_waiting0 i v H) as (? & ? & ? & ? & ?). split_and!; (done || lia).
  - intros i v j w Hi [[<- <-]|[_ H]]%lookup_insert_Some; [by apply vo_started0 in Hi as (_ & ? & _)|by apply (vo_order0 i v j w)].
  - intros i v j w [[<- <-]|[_ H]]%lookup_insert_Some [[<- <-]|[_ H']]%lookup_insert_Some Hlt; [lia| | |by apply (vo_arrival0 i v j w)].
    + apply vo_waiting0 in H' as (_ & ? & _). lia.
    + apply vo_waiting0 in H as (_ & _ & _ & _ & ?). lia.
  - done.
  - rewrite E5, vo_bytes0, total_insert by done. lia.
  - intros i v. rewrite E6. intros [[<- <-]|[Hi H]]%lookup_insert_Some.
    + destruct (vu_stray u); [split; [intros _; set_solver|done]|]. split; [done|]. intros Hx%vo_stray_ids0. lia.
    + rewrite (vo_strays0 i v H). destruct (vu_stray u); [|done]. rewrite elem_of_app, list_elem_of_singleton. naive_solver.
  - intros i. rewrite E6. destruct (vu_stray u); [rewrite elem_of_app, list_elem_of_singleton; intros [H%vo_stray_ids0|H]; lia|intros H%vo_stray_ids0; lia].
  - intros m s i. rewrite Hcop, vo_copies0, EU. destruct (decide (i = q_next_id q)) as [->|]; [rewrite Hnu|]; naive_solver.
  - intros m h s i Hm Hs. rewrite EU. destruct (Hhist m h s i Hm Hs) as [(h0 & Hm0 & Hs0)|[-> Hw]]; [|rewrite decide_True by done; by exists u].
    destruct (vo_history0 m h0 s i Hm0 Hs0) as (v & Hv & Hw). destruct (decide (i = q_next_id q)) as [->|]; [congruence|]. by exists v.
  - done.
Qed.

(** Remembering a fate that is no queued unit. *)
Lemma history_ok clock q q' m s f : video_ok clock q -> (forall j, f <> FateQueued j) ->
  q_history q' = <[m := remember s f (default ∅ (q_history q !! m))]> (q_history q) ->
  q_started q' = q_started q -> q_waiting q' = q_waiting q -> q_sending q' = q_sending q -> q_strays q' = q_strays q -> q_copies q' = q_copies q ->
  q_next_id q' = q_next_id q -> q_video_bytes q' = q_video_bytes q -> video_ok clock q'.
Proof.
  intros [] Hf Eh E1 E2 E3 E4 E5 E6 E7. destruct (remember_spec s f (default ∅ (q_history q !! m))) as [Hr Hsize].
  assert (forall i, unit_mut i q' = unit_mut i q) as EU by (intros; unfold unit_mut; by rewrite E1, E2).
  split; rewrite ?E1, ?E2, ?E3, ?E4, ?E5, ?E6, ?E7; try done.
  - intros m' s' i. rewrite EU. apply vo_copies0.
  - intros m' h s' i. rewrite Eh, EU. intros [[<- <-]|[_ Hm]]%lookup_insert_Some Hs; [|by apply (vo_history0 m' h)].
    destruct (Hr _ _ Hs) as [[_ E]|[_ Hs0]]; [by destruct (Hf i)|]. destruct (q_history q !! m) as [h0|] eqn:E0; cbn in Hs0; [by apply (vo_history0 m h0)|].
    by rewrite lookup_empty in Hs0.
  - intros m' h. rewrite Eh. intros [[<- <-]|[_ Hm]]%lookup_insert_Some; [done|by apply (vo_remembered0 m')].
Qed.

Lemma push_video_ok clock now packet q : video_ok clock q -> clock <= now -> video_ok now (push_video packet now q).
Proof.
  intros Hok Hle. unfold push_video. set (m := hdr_media_id _). set (s := hdr_seq _). set (last := Flags.contains _ Flags.LAST).
  set (q1 := put_active_tracks _ q). assert (same_video q q1) as Hs1 by (by split_and!). assert (video_ok clock q1) as Hok1 by (by eapply same_video_ok).
  clearbody q1. destruct (Flags.contains _ Flags.FIRST).
  - cbn [new_id]. set (q2 := put_next_id _ q1).
    destruct (match default ∅ (q_history q2 !! m) !! s with Some FateDropped => _ | _ => _ end) as [copy q3] eqn:Ec.
    assert (same_video q2 q3) as Hs3.
    { destruct (default ∅ (q_history q2 !! m) !! s) as [[| |]|]; injection Ec as _ <-; (apply count_same || by split_and!). }
    destruct Hs3 as (E1 & E2 & E3 & E4 & E5 & E6 & E7 & E8). clear Ec.
    change (q_history q2) with (q_history q1) in *. destruct (remember_spec s (FateQueued (q_next_id q1)) (default ∅ (q_history q1 !! m))) as [Hr Hsize].
    eapply (queue_new_ok clock now (video_new (q_next_id q1) m s (pk_bytes packet) now last false copy) q1); try done;
      unfold queue_unit; cbn [vu_stray video_new put_waiting put_video_bytes put_copies put_history q_started q_waiting q_next_id q_sending q_video_bytes q_strays q_copies q_history].
    + by rewrite E2.
    + by rewrite E8.
    + intros m' s' i. rewrite E5. setoid_rewrite lookup_insert_Some. unfold whole_unit. cbn. split.
      * intros (ids & [[[= <- <-] <-]|[Hne H]] & Hi); [|left; by exists ids]. apply elem_of_union in Hi as [->%elem_of_singleton|Hi]; [by right|].
        left. change (q_copies q2) with (q_copies q1) in Hi. destruct (q_copies q1 !! (m, s)) as [ids|] eqn:Eq; cbn in Hi; [by exists ids|set_solver].
      * change (q_copies q2) with (q_copies q1). intros [(ids & H & Hi)|(-> & _ & <- & <-)].
        -- destruct (decide ((m, s) = (m', s'))) as [[= <- <-]|Hne]; [|exists ids; split; [by right|done]]. eexists. split; [by left|]. rewrite H. cbn. set_solver.
        -- eexists. split; [by left|]. set_solver.
    + intros m' h s' i. rewrite E6. intros [[<- <-]|[_ Hm]]%lookup_insert_Some Hs; [|left; by exists h].
      destruct (Hr _ _ Hs) as [[-> [= ->]]|[_ Hs0]]; [by right|]. left. change (q_history q2) with (q_history q1). destruct (q_history q1 !! m) as [h0|]; cbn in Hs0; [by exists h0|by rewrite lookup_empty in Hs0].
    + intros m' h. rewrite E6. intros [[<- <-]|[_ Hm]]%lookup_insert_Some; [done|]. by apply (vo_remembered _ _ Hok1 m').
  - destruct (snd <$> _) as [[id| |]|]; [|..|by eapply video_later|by eapply video_later].
    + destruct (unit_mut id q1) as [u|] eqn:Hu; [|by eapply video_later]. destruct (_ <=? _); [eapply video_later; [by apply drop_unit_ok|done]|].
      eapply video_later; [|exact Hle].
      assert (forall A (f : Queues -> A) x, (forall x q, f (put_started x q) = f q) -> (forall x q, f (put_waiting x q) = f q) ->
        (forall x q, f (put_sending x q) = f q) -> (forall x q, f (put_video_bytes x q) = f q) ->
        f (put_video_bytes x (if vu_started u then put_sending ({[id]} ∪ q_sending (put_unit (add_fragment (pk_bytes packet) last now u) id q1)) (put_unit (add_fragment (pk_bytes packet) last now u) id q1)
                              else put_unit (add_fragment (pk_bytes packet) last now u) id q1)) = f q1) as Hf.
      { intros A f x H1 H2 H3 H4. rewrite H4. destruct (vu_started u); rewrite ?H3; unfold put_unit; (destruct (q_started q1 !! id); [apply H1|apply H2]). }
      eapply (modify_ok clock id u (add_fragment (pk_bytes packet) last now u) q1); try done; try (by apply Hf).
      * intros _. cbn. by destruct (vu_packets u).
      * destruct (vu_started u); done.
      * destruct (vu_started u); done.
      * intros i. destruct (vu_started u) eqn:Est; cbn [q_sending put_video_bytes put_sending].
        -- assert (q_sending (put_unit (add_fragment (pk_bytes packet) last now u) id q1) = q_sending q1) as -> by (unfold put_unit; by destruct (q_started q1 !! id)).
           rewrite elem_of_union, elem_of_singleton. destruct (decide (i = id)) as [->|]; [|naive_solver]. split; [intros _; split; [done|]; cbn; by destruct (vu_packets u)|by left].
        -- assert (q_sending (put_unit (add_fragment (pk_bytes packet) last now u) id q1) = q_sending q1) as -> by (unfold put_unit; by destruct (q_started q1 !! id)).
           destruct (decide (i = id)) as [->|]; [|done]. rewrite (vo_sending _ _ Hok1). split; [|by intros []]. intros (v & Hv & _).
           apply unit_started in Hv as Hv'. apply (vo_started _ _ Hok1) in Hv as (_ & _ & ?). congruence.
      * unfold unit_bytes, add_fragment. cbn [vu_packets q_video_bytes put_video_bytes]. rewrite packet_bytes_app. cbn.
        destruct (vu_started u); cbn; unfold put_unit; (destruct (q_started q1 !! id); cbn; lia).
    + cbn [new_id]. eapply (queue_new_ok clock now (video_new (q_next_id q1) m s (pk_bytes packet) now true true false) q1); try done.
      * intros m' s' i. cbn. split; [by left|]. intros [?|(_ & [? _])]; done.
      * intros m' h s' i Hm Hs. left. by exists h.
      * intros m' h Hm. by apply (vo_remembered _ _ Hok1 m').
Qed.

Lemma lose_ok clock l q : video_ok clock q -> video_ok clock (lose l q).
Proof.
  intros Hok. unfold lose. destruct (lo_kind l); [by eapply same_video_ok; [apply count_same|]|].
  set (m := lo_media_id l). set (q1 := put_history _ _).
  assert (video_ok clock q1 /\ default ∅ (q_history q1 !! m) = default ∅ (q_history q !! m)) as [Hok1 Eh].
  { split; [|unfold q1; cbn; by rewrite lookup_insert_eq]. destruct Hok. split; try done.
    - cbn. intros m' h s i [[<- <-]|[_ Hm]]%lookup_insert_Some Hs; [|by apply (vo_history0 m' h)].
      destruct (q_history q !! m) as [h0|] eqn:E0; cbn in Hs; [by apply (vo_history0 m h0)|by rewrite lookup_empty in Hs].
    - cbn. intros m' h [[<- <-]|[_ Hm]]%lookup_insert_Some; [|by apply (vo_remembered0 m')].
      destruct (q_history q !! m) as [h0|] eqn:E0; cbn; [by apply (vo_remembered0 m)|]. rewrite map_size_empty. unfold HISTORY. lia. }
  cbn [q_history put_active_tracks] in *. change (default ∅ (q_history (put_active_tracks ({[m]} ∪ q_active_tracks q) q) !! m)) with (default ∅ (q_history q !! m)).
  set (history := default ∅ (q_history q !! m)) in *.
  assert (forall s, video_ok clock (count_drop m (put_history (<[m := remember s FateDropped history]> (q_history q1)) q1))) as Hnote.
  { intros s. eapply same_video_ok; [apply count_same|]. eapply (history_ok clock q1 _ m s FateDropped); try done. by rewrite Eh. }
  destruct (lo_first l).
  - destruct (bool_decide _); [done|apply Hnote].
  - destruct (last_fate _ _) as [[fs [id| |]]|]; [by apply drop_unit_ok|apply Hnote|done|apply Hnote].
Qed.

(** ** The budget *)

Lemma give_up_ok clock now q : video_ok clock q -> video_ok clock (give_up_idle_units now q).
Proof.
  intros Hok. unfold give_up_idle_units. destruct (match q_next_idle_check q with Some t => now <? t | None => false end); [done|].
  assert (video_ok clock (put_next_idle_check (Some (now + IDLE_CHECK)) q)) as Hok1 by (eapply same_video_ok; [|exact Hok]; by split_and!).
  cbn [q_started put_next_idle_check]. set (l := filter _ _). clearbody l. revert Hok1. generalize (put_next_idle_check (Some (now + IDLE_CHECK)) q).
  induction l as [|u l IH]; intros q1 Hok1; [done|]. cbn [foldl]. apply IH. by apply finish_ok.
Qed.

Lemma skip_gone_spec strays waiting : match skip_gone strays waiting with
  | id :: _ => id ∈ strays /\ is_Some (waiting !! id) | [] => True end /\
  (forall i, i ∈ skip_gone strays waiting -> i ∈ strays) /\ (forall i, i ∈ strays -> is_Some (waiting !! i) -> i ∈ skip_gone strays waiting).
Proof.
  induction strays as [|s l IH]; cbn [skip_gone]; [done|]. destruct (decide _) as [Hs|Hs]; [split; [split; [set_solver|done]|done]|].
  destruct IH as (H1 & H2 & H3). split; [destruct (skip_gone l waiting); [done|]; split; [set_solver|tauto]|]. split; [set_solver|].
  intros i [->|Hi]%elem_of_cons Hw; [done|]. by apply H3.
Qed.

Lemma victim_ok clock q : video_ok clock q ->
  let '(victim, q') := unstarted_victim q in
  video_ok clock q' /\ q_waiting q' = q_waiting q /\ q_started q' = q_started q /\ q_video_bytes q' = q_video_bytes q /\
  match victim with Some id => is_Some (q_waiting q !! id) | None => q_waiting q = ∅ end.
Proof.
  intros Hok. unfold unstarted_victim. destruct (skip_gone_spec (q_strays q) (q_waiting q)) as (H1 & H2 & H3).
  set (strays := skip_gone _ _) in *. clearbody strays. split; [|split; [done|split; [done|split; [done|]]]].
  - destruct Hok. split; try done; cbn.
    + intros i u Hu. rewrite (vo_strays0 i u Hu). split; [intros ?; apply H3; [done|by eexists]|apply H2].
    + intros i Hi%H2. by apply vo_stray_ids0.
  - destruct strays as [|s l]; [|tauto]. cbn [q_waiting put_strays]. destruct (least (dom (q_waiting q))) as [i|] eqn:E.
    + apply least_Some in E as [Hi%elem_of_dom _]. done.
    + by apply least_None, dom_empty_inv_L in E.
Qed.

(** The units of a queue; a drop takes one. *)
Definition unit_ids (q : Queues) : gset Z := dom (q_started q) ∪ dom (q_waiting q).
Lemma unit_ids_spec i q : i ∈ unit_ids q <-> unit_mut i q <> None.
Proof.
  unfold unit_ids, unit_mut. rewrite elem_of_union, !elem_of_dom. destruct (q_started q !! i) as [u|].
  - split; [done|]. intros _. left. by eexists.
  - destruct (q_waiting q !! i) as [u|]; split; try done; [intros _; right; by eexists|by intros [[]|[]]].
Qed.
Lemma drop_ids clock id q : video_ok clock q -> unit_mut id q <> None -> unit_ids (drop_unit id q) = unit_ids q ∖ {[id]} /\ (size (unit_ids (drop_unit id q)) < size (unit_ids q))%nat.
Proof.
  intros Hok Hu. destruct (drop_unit_ok clock id q Hok) as [_ Hd]. assert (unit_ids (drop_unit id q) = unit_ids q ∖ {[id]}) as E.
  { apply set_eq. intros i. rewrite elem_of_difference, !unit_ids_spec, elem_of_singleton, Hd. tauto. }
  split; [done|]. rewrite E. apply subset_size. apply unit_ids_spec in Hu. set_solver.
Qed.

Lemma unit_ids_size clock q : video_ok clock q -> size (unit_ids q) = (size (q_waiting q) + size (q_started q))%nat.
Proof.
  intros Hok. unfold unit_ids. rewrite size_union, !size_dom; [lia|]. intros i [u Hu]%elem_of_dom [v Hv]%elem_of_dom. pose proof (vo_order _ _ Hok _ _ _ _ Hu Hv). lia.
Qed.

(** Dropping a waiting unit leaves the started ones. *)
Lemma drop_waiting clock id q : video_ok clock q -> is_Some (q_waiting q !! id) ->
  dom (q_started (drop_unit id q)) = dom (q_started q) /\ dom (q_waiting (drop_unit id q)) = dom (q_waiting q) ∖ {[id]}.
Proof.
  intros Hok [u Hu]. pose proof (unit_waiting _ _ _ _ Hok Hu) as Hmut. unfold drop_unit. rewrite Hmut.
  destruct (finish_fields clock id FateDropped u q Hok Hmut) as (E1 & E2 & _). set (q1 := finish id FateDropped q) in *. clearbody q1.
  assert (dom (q_started q1) = dom (q_started q) /\ dom (q_waiting q1) = dom (q_waiting q) ∖ {[id]}) as H.
  { rewrite E1, E2, !dom_delete_L. split; [|done]. apply (not_started _ _ _ _ Hok), not_elem_of_dom in Hu. set_solver. }
  destruct (t ← _; tu ← unit_mut t q1; Some (t, tu)) as [[t tu]|] eqn:Et.
  - apply bind_Some in Et as (t' & _ & (tu' & Htu & [= -> ->])%bind_Some). unfold put_unit. destruct (unit_cases _ _ _ Htu) as [Hs|[Hs Hw]]; rewrite Hs;
      cbn [q_started q_waiting put_started put_waiting]; rewrite dom_insert_lookup_L by (by eexists); done.
  - by destruct (_ || _).
Qed.

Lemma drop_over_budget_ok fuel clock now q : video_ok clock q -> (size (q_waiting q) < fuel)%nat ->
  video_ok clock (drop_over_budget fuel now q) /\ over_budget now (drop_over_budget fuel now q) = false /\
  dom (q_started (drop_over_budget fuel now q)) = dom (q_started q).
Proof.
  revert q. induction fuel as [|fuel IH]; intros q Hok Hf; [lia|]. cbn [drop_over_budget]. destruct (over_budget now q) eqn:Eo; [|done].
  pose proof (victim_ok clock q Hok) as Hv. destruct (unstarted_victim q) as [[id|] q1].
  - destruct Hv as (Hok1 & E1 & E2 & _ & Hid). rewrite <- E1 in Hid. destruct (drop_unit_ok clock id q1 Hok1) as [Hok2 _].
    destruct (drop_waiting clock id q1 Hok1 Hid) as [D1 D2]. destruct (IH _ Hok2) as (? & ? & D3).
    + rewrite <- size_dom, D2. assert (size (dom (q_waiting q1) ∖ {[id]}) < size (dom (q_waiting q1)))%nat as Hlt
        by (apply subset_size; apply elem_of_dom in Hid; set_solver).
      rewrite (size_dom (q_waiting q1)), E1 in Hlt. rewrite E1. lia.
    + split; [done|]. split; [done|]. by rewrite D3, D1, E2.
  - destruct Hv as (_ & _ & _ & _ & Hemp). unfold over_budget in Eo. rewrite Hemp in Eo. by rewrite (proj2 (first_key_value_None (∅ : gmap Z VideoUnit))) in Eo.
Qed.

Lemma over_budget_monotone clock now q q' : video_ok clock q -> video_ok clock q' ->
  (forall i u, q_waiting q' !! i = Some u -> exists v, q_waiting q !! i = Some v /\ vu_arrived v = vu_arrived u) ->
  over_budget now q = false -> over_budget now q' = false.
Proof.
  intros Hok Hok' Hsub. unfold over_budget. destruct (first_key_value (q_waiting q')) as [[i u]|] eqn:E'; [|done].
  apply first_key_value_Some in E' as [Hu _]. destruct (Hsub i u Hu) as (v & Hv & Ea). destruct (first_key_value (q_waiting q)) as [[j w]|] eqn:E.
  - apply first_key_value_Some in E as [Hw Hmin]. assert (j <= i) as Hji by (apply Hmin; by eexists). intros Hb%Z.ltb_ge. apply Z.ltb_ge.
    assert (vu_arrived w <= vu_arrived u) as Hle. { rewrite <- Ea. destruct (Z.eq_dec j i) as [->|]; [by rewrite Hw in Hv; injection Hv as ->|]. apply (vo_arrival _ _ Hok j w i v); [done|done|lia]. }
    unfold since, sat_sub in *. lia.
  - apply first_key_value_None in E. rewrite E in Hv. by rewrite lookup_empty in Hv.
Qed.
