(* ===== verification/EgressRun.v ===== *)
(** * One receiver's queues: runs

    The task's rounds over the queues: the budgets hold after every round, and what leaves is
    the oldest there is. *)
From S2P Require Import Prelude Ordered Ids Frame Messages Buckets Sfu Egress EgressVideo.
Open Scope Z_scope.

(** ** The byte cap *)

(** A drop leaves the waiting units it does not take when they arrived. *)
Definition arrivals_kept (q q' : Queues) : Prop :=
  forall i u, q_waiting q' !! i = Some u -> exists v, q_waiting q !! i = Some v /\ vu_arrived v = vu_arrived u.

Lemma put_unit_arrivals clock id u q : video_ok clock q -> unit_mut id q = Some u -> arrivals_kept q (put_unit (clear_copy u) id q).
Proof.
  intros Hok Hu i v. unfold put_unit. destruct (unit_cases _ _ _ Hu) as [Hs|[Hs Hw]]; rewrite Hs; cbn [q_waiting put_started put_waiting]; [by exists v|].
  intros [[<- <-]|[_ H]]%lookup_insert_Some; [by exists u|by exists v].
Qed.

Lemma drop_arrivals clock id q : video_ok clock q -> arrivals_kept q (drop_unit id q).
Proof.
  intros Hok. unfold drop_unit. destruct (unit_mut id q) as [u|] eqn:Hu; [|intros i v; by exists v].
  pose proof (finish_ok clock id FateDropped q Hok ltac:(done)) as Hok1. destruct (finish_fields clock id FateDropped u q Hok Hu) as (_ & E2 & _).
  assert (arrivals_kept q (finish id FateDropped q)) as H1. { intros i v. rewrite E2. intros [_ H]%lookup_delete_Some. by exists v. }
  set (q1 := finish id FateDropped q) in *. clearbody q1. destruct (t ← _; tu ← unit_mut t q1; Some (t, tu)) as [[t tu]|] eqn:Et.
  - apply bind_Some in Et as (t' & _ & (tu' & Htu & [= -> ->])%bind_Some). intros i v Hv.
    destruct (put_unit_arrivals clock t tu q1 Hok1 Htu i v Hv) as (w & Hw & <-). by apply H1.
  - destruct (_ || _); done.
Qed.

Lemma drop_over_bytes_ok fuel clock now q : video_ok clock q -> (size (unit_ids q) < fuel)%nat -> over_budget now q = false ->
  video_ok clock (drop_over_bytes fuel q) /\ q_video_bytes (drop_over_bytes fuel q) <= MAX_QUEUED_VIDEO_BYTES /\
  over_budget now (drop_over_bytes fuel q) = false.
Proof.
  revert q. induction fuel as [|fuel IH]; intros q Hok Hf Ho; [lia|]. cbn [drop_over_bytes].
  destruct (Z.ltb_spec MAX_QUEUED_VIDEO_BYTES (q_video_bytes q)) as [Hbig|]; [|done].
  pose proof (victim_ok clock q Hok) as Hv. destruct (unstarted_victim q) as [victim q1]. destruct Hv as (Hok1 & E1 & E2 & E3 & Hid).
  assert (unit_ids q1 = unit_ids q) as EU by (unfold unit_ids; by rewrite E1, E2).
  assert (over_budget now q1 = false) as Ho1 by (unfold over_budget in *; by rewrite E1).
  assert (forall v, unit_mut v q1 <> None ->
    video_ok clock (drop_over_bytes fuel (drop_unit v q1)) /\ q_video_bytes (drop_over_bytes fuel (drop_unit v q1)) <= MAX_QUEUED_VIDEO_BYTES /\
    over_budget now (drop_over_bytes fuel (drop_unit v q1)) = false) as Hdrop.
  { intros v Hv. destruct (drop_unit_ok clock v q1 Hok1) as [Hok2 _]. destruct (drop_ids clock v q1 Hok1 Hv) as [_ Hlt]. rewrite EU in Hlt.
    apply IH; [done|lia|]. apply (over_budget_monotone clock now q1); try done. by apply (drop_arrivals clock). }
  destruct victim as [v|].
  - apply Hdrop. destruct Hid as [u Hu]. rewrite <- E1 in Hu. by rewrite (unit_waiting clock v u).
  - destruct (least (dom (q_started q))) as [v|] eqn:El.
    + apply Hdrop. apply least_Some in El as [[u Hu]%elem_of_dom _]. rewrite <- E2 in Hu. by rewrite (unit_started v u).
    + exfalso. apply least_None, dom_empty_inv_L in El. pose proof (vo_bytes _ _ Hok) as Hb. rewrite Hid, El, !total_empty in Hb.
      unfold MAX_QUEUED_VIDEO_BYTES in Hbig. lia.
Qed.

Lemma enforce_budget_ok clock now q : video_ok clock q ->
  video_ok clock (enforce_budget now q) /\ q_video_bytes (enforce_budget now q) <= MAX_QUEUED_VIDEO_BYTES /\
  forall i u, q_waiting (enforce_budget now q) !! i = Some u -> since now (vu_arrived u) <= VIDEO_BUDGET.
Proof.
  intros Hok. unfold enforce_budget. pose proof (give_up_ok clock now q Hok) as Hok1. set (q1 := give_up_idle_units now q) in *. clearbody q1.
  destruct (drop_over_budget_ok (S (size (q_waiting q1))) clock now q1 Hok1 ltac:(lia)) as (Hok2 & Ho2 & _).
  set (q2 := drop_over_budget _ now q1) in *. clearbody q2.
  destruct (drop_over_bytes_ok (S (size (q_waiting q2) + size (q_started q2))) clock now q2 Hok2 ltac:(rewrite (unit_ids_size clock) by done; lia) Ho2) as (Hok3 & Hb & Ho3).
  set (q3 := drop_over_bytes _ q2) in *. clearbody q3. split; [done|]. split; [done|]. intros i u Hu. unfold over_budget in Ho3.
  destruct (first_key_value (q_waiting q3)) as [[j w]|] eqn:E.
  - apply first_key_value_Some in E as [Hw Hmin]. assert (j <= i) as Hji by (apply Hmin; by eexists). apply Z.ltb_ge in Ho3.
    assert (vu_arrived w <= vu_arrived u) as Hle. { destruct (Z.eq_dec j i) as [->|]; [by rewrite Hw in Hu; injection Hu as ->|]. apply (vo_arrival _ _ Hok3 j w i u); [done|done|lia]. }
    unfold since, sat_sub in *. lia.
  - apply first_key_value_None in E. rewrite E in Hu. by rewrite lookup_empty in Hu.
Qed.

(** ** Serving *)

Lemma drop_upto_spec id strays i : id < i -> i ∈ drop_upto id strays <-> i ∈ strays.
Proof.
  intros Hlt. induction strays as [|s l IH]; [done|]. cbn. destruct (Z.leb_spec s id); [|done].
  rewrite IH, elem_of_cons. naive_solver lia.
Qed.
Lemma drop_upto_incl id strays i : i ∈ drop_upto id strays -> i ∈ strays.
Proof. induction strays as [|s l IH]; [done|]. cbn. destruct (s <=? id); [|done]. intros ?%IH. by apply elem_of_cons; right. Qed.

(** The unit served next: the least with packets. *)
Definition next_unit (q : Queues) (id : Z) (u : VideoUnit) : Prop :=
  unit_mut id q = Some u /\ vu_packets u <> [] /\ forall j v, unit_mut j q = Some v -> vu_packets v <> [] -> id <= j.

Lemma unit_start_ok clock id u q q' : video_ok clock q -> q_waiting q !! id = Some u -> (forall j, is_Some (q_waiting q !! j) -> id <= j) -> q_sending q = ∅ ->
  q_started q' = <[id := set_started u]> (q_started q) -> q_waiting q' = delete id (q_waiting q) -> q_strays q' = drop_upto id (q_strays q) -> q_sending q' = {[id]} ->
  q_copies q' = q_copies q -> q_history q' = q_history q -> q_next_id q' = q_next_id q -> q_video_bytes q' = q_video_bytes q -> video_ok clock q'.
Proof.
  intros Hok Hu Hmin Hemp E1 E2 E3 E4 E5 E6 E7 E8. pose proof Hok as []. pose proof (not_started _ _ _ _ Hok Hu) as Hn.
  assert (forall i, unit_mut i q' = if decide (i = id) then Some (set_started u) else unit_mut i q) as EU.
  { intros i. unfold unit_mut. rewrite E1, E2. destruct (decide (i = id)) as [->|]; [by rewrite lookup_insert_eq|by rewrite lookup_insert_ne, lookup_delete_ne]. }
  assert (unit_mut id q = Some u) as Hmut by (by apply (unit_waiting clock)).
  pose proof (vo_waiting _ _ Hu) as (Hid & Hlt & Hst & Hp & Harr).
  split; rewrite ?E3, ?E4, ?E7, ?E8.
  - intros i v. rewrite E1. intros [[<- <-]|[_ H]]%lookup_insert_Some; [done|by apply vo_started].
  - intros i v. rewrite E2. intros [_ H]%lookup_delete_Some. by apply vo_waiting.
  - intros i v j w. rewrite E1, E2. intros [[<- <-]|[_ H]]%lookup_insert_Some [Hne H']%lookup_delete_Some; [|by apply (vo_order i v j w)].
    pose proof (Hmin j ltac:(by eexists)). lia.
  - intros i v j w. rewrite E2. intros [_ H]%lookup_delete_Some [_ H']%lookup_delete_Some. by apply (vo_arrival i v j w).
  - intros i. rewrite elem_of_singleton, E1. split; [intros ->; exists (set_started u); by rewrite lookup_insert_eq|].
    intros (v & [[<- <-]|[_ H]]%lookup_insert_Some & Hv); [done|]. assert (i ∈ q_sending q) by (apply vo_sending; by eexists). set_solver.
  - rewrite vo_bytes, E1, E2, total_insert, (total_delete _ (q_waiting q) id u) by done. change (unit_bytes (set_started u)) with (unit_bytes u). lia.
  - intros i v. rewrite E2. intros [Hne H]%lookup_delete_Some. rewrite (vo_strays i v H). symmetry. apply drop_upto_spec.
    pose proof (Hmin i ltac:(by eexists)). lia.
  - intros i ?%drop_upto_incl. by apply vo_stray_ids.
  - intros m s i. rewrite E5, vo_copies, EU. destruct (decide (i = id)) as [->|]; [|done]. rewrite Hmut. split; intros (v & [= <-] & H); by eexists.
  - intros m h s i Hm Hs. rewrite E6 in Hm. destruct (vo_history m h s i Hm Hs) as (v & Hv & Hw). rewrite EU. destruct (decide (i = id)) as [->|]; [|by exists v].
    exists (set_started u). split; [done|]. by assert (v = u) as -> by congruence.
  - by rewrite E6.
Qed.

Lemma serve_ok clock q : video_ok clock q ->
  match serve q with
  | Some (id, q') => exists u u', next_unit q id u /\ vu_packets u' = vu_packets u /\ q_started q' !! id = Some u' /\
      video_ok clock (put_sending ({[id]} ∪ q_sending q') q') /\ q_audio q' = q_audio q
  | None => forall j v, unit_mut j q = Some v -> vu_packets v = []
  end.
Proof.
  intros Hok. unfold serve. destruct (least (q_sending q)) as [id|] eqn:El.
  - apply least_Some in El as [Hid Hmin]. destruct (proj1 (vo_sending _ _ Hok id) Hid) as (u & Hu & Hp). exists u, u. unfold next_unit. split_and!; try done.
    + by apply unit_started.
    + intros j v Hv Hne. destruct (unit_cases _ _ _ Hv) as [Hs|[_ Hw]]; [apply Hmin, (vo_sending _ _ Hok); by eexists|].
      pose proof (vo_order _ _ Hok _ _ _ _ Hu Hw). lia.
    + eapply same_video_ok; [|exact Hok]. split_and!; try done. cbn. set_solver.
  - apply least_None in El. assert (forall j v, q_started q !! j = Some v -> vu_packets v = []) as Hquiet.
    { intros j v Hv. destruct (vu_packets v) eqn:Ep; [done|]. assert (j ∈ q_sending q) as Hin by (apply (vo_sending _ _ Hok); exists v; by rewrite Ep). set_solver. }
    destruct (first_key_value (q_waiting q)) as [[id u]|] eqn:Ef; cbn [mbind option_bind].
    + apply first_key_value_Some in Ef as [Hu Hmin]. exists u, (set_started u).
      pose proof (vo_waiting _ _ Hok _ _ Hu) as (_ & _ & _ & Hp & _). unfold next_unit. split_and!; try done.
      * by apply (unit_waiting clock).
      * intros j v Hv Hne. destruct (unit_cases _ _ _ Hv) as [Hs|[_ Hw]]; [by destruct (Hne (Hquiet j v Hs))|]. apply Hmin. by eexists.
      * cbn. by rewrite lookup_insert_eq.
      * eapply (unit_start_ok clock id u q); try done; destruct (_ && _); try done; cbn; rewrite El; set_solver.
      * by destruct (_ && _).
    + apply first_key_value_None in Ef. intros j v Hv. destruct (unit_cases _ _ _ Hv) as [Hs|[_ Hw]]; [by apply (Hquiet j)|]. rewrite Ef in Hw. by rewrite lookup_empty in Hw.
Qed.

(** Taking the first packet of a started unit. *)
Lemma sent_ok clock id u p rest q : video_ok clock (put_sending ({[id]} ∪ q_sending q) q) -> q_started q !! id = Some u -> vu_packets u = p :: rest ->
  let q' := put_video_bytes (q_video_bytes q - Z.of_nat (length p)) (put_started (<[id := set_packets rest u]> (q_started q)) q) in
  video_ok clock (put_sending (match rest with [] => q_sending q ∖ {[id]} | _ => {[id]} ∪ q_sending q end) q').
Proof.
  intros Hok Hu Hp. cbn zeta. eapply (modify_ok clock id u (set_packets rest u) _ _ Hok); try done.
  - by apply unit_started.
  - intros Hst. by apply (vo_started _ _ Hok) in Hu as (_ & _ & ?); congruence.
  - cbn. unfold put_unit. cbn. by rewrite Hu.
  - cbn. unfold put_unit. cbn. by rewrite Hu.
  - intros i. cbn. pose proof (vo_started _ _ Hok _ _ Hu) as (_ & _ & ->). destruct rest; destruct (decide (i = id)); set_solver.
  - cbn. unfold unit_bytes, set_packets. rewrite Hp. cbn. lia.
Qed.

Lemma finish_audio id fate q : q_audio (finish id fate q) = q_audio q.
Proof. unfold finish. destruct (unit_mut id q) as [u|]; [|done]. destruct (q_started q !! id), (vu_stray u); done. Qed.

Lemma same_video_unit q q' i : same_video q q' -> unit_mut i q' = unit_mut i q.
Proof. intros (E1 & E2 & _). unfold unit_mut. by rewrite E1, E2. Qed.

(** What is popped, and that the queues stay sound. *)
Lemma queues_pop_ok clock q : video_ok clock q -> audio_ok (q_audio q) ->
  let '(popped, q') := queues_pop q in
  video_ok clock q' /\ audio_ok (q_audio q') /\
  match fst (audio_pop (q_audio q)) with
  | Some (_, packet) => popped = Some packet
  | None => match popped with
            | Some packet => exists id u rest, next_unit q id u /\ vu_packets u = packet :: rest
            | None => forall j v, unit_mut j q = Some v -> vu_packets v = []
            end
  end.
Proof.
  intros Hok Ha. unfold queues_pop. pose proof (audio_pop_ok (q_audio q) Ha) as Hap. destruct (audio_pop (q_audio q)) as [[[m p]|] a].
  { destruct Hap as (Ha' & _). split; [|done]. eapply same_video_ok; [|exact Hok]. by split_and!. }
  destruct Hap as (-> & _ & _). assert (same_video q (put_audio (q_audio q) q)) as Hsame by (by split_and!).
  pose proof (same_video_ok _ _ _ Hsame Hok) as Hok1. pose proof (fun i => same_video_unit _ _ i Hsame) as EU.
  assert (q_audio (put_audio (q_audio q) q) = q_audio q) as Eau by done.
  set (q1 := put_audio (q_audio q) q) in *. clearbody q1. clear Hsame. pose proof (serve_ok clock q1 Hok1) as Hs.
  destruct (serve q1) as [[id q2]|].
  2:{ split; [done|]. rewrite Eau. split; [done|]. intros j v. rewrite <- EU. apply Hs. }
  destruct Hs as (u & u' & (Hu & Hp & Hmin) & Ep & Hu' & Hok2 & Ea). rewrite Hu', Ep. destruct (vu_packets u) as [|p rest] eqn:Epk; [done|].
  assert (exists i u0 rest0, next_unit q i u0 /\ vu_packets u0 = p :: rest0) as Hnext.
  { exists id, u, rest. split; [|done]. unfold next_unit. setoid_rewrite <- EU. split; [done|]. rewrite Epk. done. }
  pose proof (sent_ok clock id u' p rest q2 Hok2 Hu' Ep) as Hsent.
  destruct rest as [|p2 rest].
  - destruct (vu_complete u').
    + split; [|split; [|done]]; [by apply finish_ok|]. rewrite finish_audio. cbn. rewrite Ea, Eau. done.
    + split; [done|split; [|done]]. cbn. rewrite Ea, Eau. done.
  - split; [done|split; [|done]]. cbn. rewrite Ea, Eau. done.
Qed.

(** ** Rounds *)

Definition queues_ok (clock : Z) (q : Queues) : Prop := video_ok clock q /\ audio_ok (q_audio q).

Lemma drop_unit_audio id q : q_audio (drop_unit id q) = q_audio q.
Proof.
  unfold drop_unit. destruct (unit_mut id q) as [u|]; [|done]. rewrite <- (finish_audio id FateDropped q). set (q1 := finish id FateDropped q). clearbody q1.
  destruct (t ← _; tu ← unit_mut t q1; Some (t, tu)) as [[t tu]|]; [unfold put_unit; by destruct (q_started q1 !! t)|]. by destruct (_ || _).
Qed.
Lemma push_video_audio p now q : q_audio (push_video p now q) = q_audio q.
Proof.
  unfold push_video. cbn [q_history put_active_tracks]. destruct (Flags.contains _ Flags.FIRST).
  - cbn. by destruct (default ∅ _ !! _) as [[| |]|].
  - destruct (snd <$> _) as [[id| |]|]; try done. destruct (unit_mut id _) as [u|]; [|done]. destruct (_ <=? _); [by rewrite drop_unit_audio|].
    unfold put_unit. cbn [q_started put_active_tracks]. destruct (q_started q !! id), (vu_started u); done.
Qed.
Lemma lose_audio l q : q_audio (lose l q) = q_audio q.
Proof.
  unfold lose. destruct (lo_kind l); [done|]. destruct (lo_first l); [by destruct (bool_decide _)|].
  destruct (last_fate _ _) as [[? [| |]]|]; [by rewrite drop_unit_audio|done..].
Qed.

Lemma lose_sound clock l q : queues_ok clock q -> queues_ok clock (lose l q).
Proof. intros [Hv Ha]. split; [by apply lose_ok|by rewrite lose_audio]. Qed.
Lemma push_video_sound clock p now q : queues_ok clock q -> clock <= now -> queues_ok now (queues_push p now q).
Proof.
  intros [Hv Ha] Hle. unfold queues_push. destruct (pk_kind p).
  - pose proof (audio_push_ok (hdr_media_id (pk_header p)) (pk_bytes p) (q_audio q) Ha) as Hp. destruct (audio_push _ _ _) as [evicted a].
    destruct Hp as (Ha' & _). assert (video_ok now (put_audio a q)) as Hv'. { eapply video_later; [|exact Hle]. eapply same_video_ok; [|exact Hv]. by split_and!. }
    destruct evicted; [|done]. split; [|done]. eapply same_video_ok; [apply count_same|done].
  - split; [by eapply push_video_ok|by rewrite push_video_audio].
Qed.

Fixpoint in_time (clock : Z) (ts : list Z) : bool :=
  match ts with [] => true | t :: ts => (clock <=? t) && in_time t ts end.
Lemma in_time_app clock ts us : in_time clock (ts ++ us) = in_time clock ts && in_time (List.last ts clock) us.
Proof. revert clock. induction ts as [|t ts IH]; intros clock; [done|]. cbn [in_time app]. by rewrite IH, andb_assoc, last_cons. Qed.

Lemma drain_sound clock lost overflow packets q : queues_ok clock q -> in_time clock packets.*2 = true ->
  queues_ok (List.last packets.*2 clock) (drain lost overflow packets q).
Proof.
  intros Hq Ht. unfold drain.
  assert (forall c l q, queues_ok c q -> queues_ok c (foldl (fun q l => lose l q) q l)) as Hlose.
  { intros c l. induction l as [|x l IH]; intros q1 H; [done|]. apply IH. by apply lose_sound. }
  set (q1 := foldl _ q (filter _ lost)). pose proof (Hlose clock _ _ Hq : queues_ok clock q1) as H1. clearbody q1.
  assert (queues_ok (List.last packets.*2 clock) (foldl (fun q '(packet, now) => queues_push packet now q) q1 packets)) as H2.
  { clear Hq Hlose. revert clock q1 Ht H1. induction packets as [|[p t] ps IH]; intros clock q1 Ht H1; [done|]. cbn in Ht. apply andb_true_iff in Ht as [Hle%Z.leb_le Ht].
    cbn [foldl fmap list_fmap snd]. specialize (IH t (queues_push p t q1) Ht ltac:(by eapply push_video_sound)).
    by rewrite last_cons. }
  set (q2 := foldl _ q1 packets) in *. clearbody q2. set (q3 := foldl _ q2 (filter _ lost)). pose proof (Hlose _ _ _ H2 : queues_ok _ q3) as H3. clearbody q3.
  revert H3. generalize (in_key_order overflow). clear. intros l. revert q3. induction l as [|[m n] l IH]; intros q3 H3; [done|]. apply IH.
  destruct H3. split; [|done]. eapply same_video_ok; [apply count_same|done].
Qed.

Lemma enforce_audio now q : q_audio (enforce_budget now q) = q_audio q.
Proof.
  unfold enforce_budget. assert (q_audio (give_up_idle_units now q) = q_audio q) as <-.
  { unfold give_up_idle_units. destruct (match q_next_idle_check q with Some t => now <? t | None => false end); [done|].
    set (l := filter _ _). clearbody l. change (q_audio q) with (q_audio (put_next_idle_check (Some (now + IDLE_CHECK)) q)). generalize (put_next_idle_check (Some (now + IDLE_CHECK)) q).
    induction l as [|u l IH]; intros q1; [done|]. cbn [foldl]. by rewrite IH, finish_audio. }
  set (q1 := give_up_idle_units now q). clearbody q1.
  assert (forall fuel q, q_audio (drop_over_budget fuel now q) = q_audio q) as E1.
  { induction fuel as [|fuel IH]; intros q2; [done|]. cbn [drop_over_budget]. destruct (over_budget now q2); [|done]. unfold unstarted_victim.
    destruct (match skip_gone _ _ with id :: _ => Some id | [] => _ end); [|done]. by rewrite IH, drop_unit_audio. }
  assert (forall fuel q, q_audio (drop_over_bytes fuel q) = q_audio q) as E2.
  { induction fuel as [|fuel IH]; intros q2; [done|]. cbn [drop_over_bytes]. destruct (_ <? _); [|done]. unfold unstarted_victim.
    destruct (match match skip_gone _ _ with id :: _ => Some id | [] => _ end with Some v => Some v | None => _ end); [|done]. by rewrite IH, drop_unit_audio. }
  by rewrite E2, E1.
Qed.

Lemma forget_quiet_ok clock q : video_ok clock q -> video_ok clock (forget_quiet_tracks q).
Proof.
  intros []. split; try done.
  - cbn. intros m h s i [Hm _]%map_lookup_filter_Some. by apply (vo_history m h).
  - cbn. intros m h [Hm _]%map_lookup_filter_Some. by apply (vo_remembered m).
Qed.

(** The state a round serves from. *)
Definition before_pop (lost : list Lost) (overflow : gmap Z Z) (packets : list (Packet * Z)) (now : Z) (report : option bool) (q : Queues) : Queues :=
  let q := enforce_budget now (drain lost overflow packets q) in
  match report with None => q | Some room => let q := forget_quiet_tracks q in if room then snd (take_stats q) else q end.

Definition within_budget (now : Z) (q : Queues) : Prop :=
  q_video_bytes q = total unit_bytes (q_started q) + total unit_bytes (q_waiting q) /\ q_video_bytes q <= MAX_QUEUED_VIDEO_BYTES /\
  au_len (q_audio q) <= MAX_QUEUED_AUDIO /\ (forall i u, q_waiting q !! i = Some u -> since now (vu_arrived u) <= VIDEO_BUDGET) /\
  (forall m h, q_history q !! m = Some h -> Z.of_nat (size h) <= HISTORY).

Lemma before_pop_ok lost overflow packets now report clock q : queues_ok clock q -> in_time clock (packets.*2 ++ [now]) = true ->
  let q1 := before_pop lost overflow packets now report q in queues_ok now q1 /\ within_budget now q1.
Proof.
  unfold before_pop. intros Hq Ht. rewrite in_time_app in Ht. apply andb_true_iff in Ht as [Ht Hnow]. cbn in Hnow. rewrite andb_true_r in Hnow. apply Z.leb_le in Hnow.
  destruct (drain_sound clock lost overflow packets q Hq Ht) as [Hv Ha]. apply (video_later _ now) in Hv; [|done].
  set (q0 := drain _ _ _ _) in *. clearbody q0. destruct (enforce_budget_ok now now q0 Hv) as (Hv1 & Hb & Hold). rewrite <- (enforce_audio now) in Ha.
  set (q1 := enforce_budget now q0) in *. clearbody q1. assert (video_ok now (forget_quiet_tracks q1)) as Hv2 by (by apply forget_quiet_ok).
  cbn zeta. set (q2 := match report with None => q1 | Some room => if room then snd (take_stats (forget_quiet_tracks q1)) else forget_quiet_tracks q1 end).
  assert (video_ok now q2 /\ q_audio q2 = q_audio q1 /\ q_waiting q2 = q_waiting q1 /\ q_video_bytes q2 = q_video_bytes q1) as (Hv3 & E1 & E2 & E3).
  { unfold q2. destruct report as [[]|]; [|by split_and!..]. split; [|done]. apply (same_video_ok now (forget_quiet_tracks q1)); [by split_and!|done]. }
  clearbody q2. split; [split; [done|]; by rewrite E1|]. unfold within_budget. split; [apply (vo_bytes _ _ Hv3)|]. rewrite E1, E2, E3.
  split; [done|]. split; [apply (ao_cap _ Ha)|]. split; [done|]. apply (vo_remembered _ _ Hv3).
Qed.

Lemma egress_round_pops lost overflow packets now report q :
  fst (fst (egress_round lost overflow packets now report q)) = fst (queues_pop (before_pop lost overflow packets now report q)) /\
  snd (egress_round lost overflow packets now report q) = snd (queues_pop (before_pop lost overflow packets now report q)).
Proof.
  unfold egress_round, before_pop. set (q1 := enforce_budget _ _). clearbody q1. destruct report as [[]|]; cbn [snd take_stats fst].
  - by destruct (queues_pop (put_stats ∅ (forget_quiet_tracks q1))).
  - by destruct (queues_pop (forget_quiet_tracks q1)).
  - by destruct (queues_pop q1).
Qed.

(** What the task does with the queues: a round, or the one packet it woke up for. *)
Inductive EgressOp :=
| OpRound (lost : list Lost) (overflow : gmap Z Z) (packets : list (Packet * Z)) (now : Z) (report : option bool)
| OpWoken (packet : Packet) (now : Z).

Definition op_times (op : EgressOp) : list Z :=
  match op with OpRound _ _ packets now _ => packets.*2 ++ [now] | OpWoken _ now => [now] end.
Definition run_times (ops : list EgressOp) : list Z := ops ≫= op_times.

(* @src/crates/throcc-server/src/egress.rs 544-602! spawn *)
Definition egress_op (op : EgressOp) (q : Queues) : Queues :=
  match op with
  | OpRound lost overflow packets now report => snd (egress_round lost overflow packets now report q)
  | OpWoken packet now => queues_push packet now q
  end.
Definition egress_run (ops : list EgressOp) : Queues := foldl (fun q op => egress_op op q) queues_default ops.

Lemma queues_default_ok : queues_ok 0 queues_default.
Proof.
  split; [|apply audio_default_ok]. assert (forall A i (x : A), (∅ : gmap Z A) !! i = Some x -> False) as Hno by (intros A i x; by rewrite lookup_empty).
  split; cbn; try done; try (intros; exfalso; by eapply Hno).
  - intros i. split; [set_solver|]. by intros (u & H%Hno & _).
  - set_solver.
  - intros m s i. split; [intros (ids & H & _); by rewrite lookup_empty in H|]. intros (u & H & _). unfold unit_mut in H. cbn in H. by rewrite !lookup_empty in H.
Qed.

Lemma egress_op_ok op clock q : queues_ok clock q -> in_time clock (op_times op) = true -> queues_ok (List.last (op_times op) clock) (egress_op op q).
Proof.
  intros Hq Ht. destruct op as [lost overflow packets now report|packet now]; cbn [op_times egress_op] in *.
  - destruct (before_pop_ok lost overflow packets now report clock q Hq Ht) as [[Hv Ha] _].
    destruct (egress_round_pops lost overflow packets now report q) as [_ ->]. rewrite List.last_last.
    pose proof (queues_pop_ok now _ Hv Ha) as Hp. destruct (queues_pop _) as [popped q']. destruct Hp as (? & ? & _). done.
  - cbn in Ht. rewrite andb_true_r in Ht. apply Z.leb_le in Ht. cbn. by eapply push_video_sound.
Qed.

Lemma egress_run_ok ops : in_time 0 (run_times ops) = true -> queues_ok (List.last (run_times ops) 0) (egress_run ops).
Proof.
  unfold egress_run. pose proof queues_default_ok as H0. revert H0. generalize queues_default. generalize 0 at 1 2 3.
  induction ops as [|op ops IH]; intros clock q Hq Ht; [done|]. cbn [foldl]. unfold run_times in *. cbn [mbind list_bind] in *.
  rewrite in_time_app in Ht. apply andb_true_iff in Ht as [Ht1 Ht2]. pose proof (IH _ _ (egress_op_ok op clock q Hq Ht1) Ht2) as H.
  replace (List.last (op_times op ++ (ops ≫= op_times)) clock) with (List.last (ops ≫= op_times) (List.last (op_times op) clock)); [done|].
  clear. generalize (ops ≫= op_times) (op_times op). intros us ts. revert clock. induction ts as [|t ts IH]; intros clock; [done|]. cbn [app]. by rewrite !last_cons.
Qed.

(** C10: The queues of a receiver stay within their budgets.  After any run of the egress task
    whose clock does not go back, a round serves from queues where the bytes of video counted
    are the bytes queued, at most [MAX_QUEUED_VIDEO_BYTES]; no unit still unstarted came more
    than [VIDEO_BUDGET] ago; the audio is within its cap; and no track's history is longer
    than [HISTORY].  The loops that drop units have ended for it. *)
Theorem egress_keeps_its_budgets (ops : list EgressOp) (lost : list Lost) (overflow : gmap Z Z) (packets : list (Packet * Z)) (now : Z) (report : option bool)
  (Htime : in_time 0 (run_times (ops ++ [OpRound lost overflow packets now report])) = true) :
  within_budget now (before_pop lost overflow packets now report (egress_run ops)).
Proof.
  unfold run_times in Htime. rewrite bind_app, in_time_app in Htime. apply andb_true_iff in Htime as [Ht1 Ht2]. cbn [mbind list_bind op_times] in Ht2.
  rewrite app_nil_r in Ht2. by destruct (before_pop_ok lost overflow packets now report _ _ (egress_run_ok ops Ht1) Ht2) as [_ ?].
Qed.

(** C24: A round sends the oldest there is.  After any such run, a round sends audio if any
    waits; otherwise it sends the first packet of the queued unit that was queued first among
    those with packets; and it sends nothing only if no unit has any. *)
Theorem egress_sends_the_oldest (ops : list EgressOp) (lost : list Lost) (overflow : gmap Z Z) (packets : list (Packet * Z)) (now : Z) (report : option bool)
  (Htime : in_time 0 (run_times (ops ++ [OpRound lost overflow packets now report])) = true) :
  let q := before_pop lost overflow packets now report (egress_run ops) in
  match fst (audio_pop (q_audio q)), fst (fst (egress_round lost overflow packets now report (egress_run ops))) with
  | Some (_, audio), sent => sent = Some audio
  | None, Some sent => exists id u rest, next_unit q id u /\ vu_packets u = sent :: rest
  | None, None => au_tracks (q_audio q) = ∅ /\ forall id u, unit_mut id q = Some u -> vu_packets u = []
  end.
Proof.
  unfold run_times in Htime. rewrite bind_app, in_time_app in Htime. apply andb_true_iff in Htime as [Ht1 Ht2]. cbn [mbind list_bind op_times] in Ht2.
  rewrite app_nil_r in Ht2. destruct (before_pop_ok lost overflow packets now report _ _ (egress_run_ok ops Ht1) Ht2) as [[Hv Ha] _].
  destruct (egress_round_pops lost overflow packets now report (egress_run ops)) as [-> _]. cbn zeta.
  pose proof (queues_pop_ok now _ Hv Ha) as Hp. pose proof (audio_pop_ok _ Ha) as Hap. set (q := before_pop _ _ _ _ _ _) in *. clearbody q.
  destruct (queues_pop q) as [popped q']. destruct Hp as (_ & _ & Hp). destruct (audio_pop (q_audio q)) as [[[m a]|] a']; cbn [fst] in *; [done|].
  destruct popped; [done|]. destruct Hap as (_ & _ & ->). done.
Qed.

Definition toy_packet (seq : Z) (flags : Z) (len : nat) : Packet := {| pk_kind := VideoTrack; pk_header := mkHeader 1 0 seq flags; pk_bytes := replicate len 7 |}.
Definition toy_ops : list EgressOp :=
  [OpRound [] ∅ [(toy_packet 0 Flags.FIRST 10, 1); (toy_packet 1 Flags.LAST 20, 2); (toy_packet 2 Flags.FIRST 30, 3)] 4 None; OpWoken (toy_packet 3 Flags.LAST 40) 5].

Lemma egress_keeps_its_budgets_witness :
  within_budget 6 (before_pop [mkLost VideoTrack 1 7 true] ∅ [(toy_packet 4 Flags.FIRST 5, 6)] 6 None (egress_run toy_ops)) /\
  q_video_bytes (before_pop [mkLost VideoTrack 1 7 true] ∅ [(toy_packet 4 Flags.FIRST 5, 6)] 6 None (egress_run toy_ops)) = 95.
Proof. split; [apply (egress_keeps_its_budgets toy_ops); reflexivity|vm_compute; reflexivity]. Defined.

Lemma egress_sends_the_oldest_witness :
  exists id u rest, next_unit (before_pop [] ∅ [] 6 None (egress_run toy_ops)) id u /\ vu_packets u = replicate 20 7 :: rest.
Proof.
  assert (in_time 0 (run_times (toy_ops ++ [OpRound [] ∅ [] 6 None])) = true) as H by reflexivity.
  apply (egress_sends_the_oldest toy_ops [] ∅ [] 6 None) in H.
  assert (fst (audio_pop (q_audio (before_pop [] ∅ [] 6 None (egress_run toy_ops)))) = None) as E1 by (vm_compute; reflexivity).
  assert (fst (fst (egress_round [] ∅ [] 6 None (egress_run toy_ops))) = Some (replicate 20 7)) as E2 by (vm_compute; reflexivity).
  cbn zeta in H. rewrite E1, E2 in H. exact H.
Defined.
