(* ===== verification/Crypto.v ===== *)
(** * What is signed, wrapped and sealed (throcc-crypto)

    [identity.rs], [pake.rs], [hpke.rs], [safety.rs] and [media.rs]: the byte strings that
    bind signatures, confirmations, wrapped keys and media to their context, and the
    operations around the primitives.  Ed25519, SPAKE2, HKDF, HMAC, HPKE, SHA-2 and AES-GCM
    are parameters. *)
From S2P Require Import Prelude Ids Frame Messages.
Open Scope Z_scope.

(** ** Signed messages (identity.rs) *)

(* @src/crates/throcc-crypto/src/identity.rs 46-59 auth_message *)
Definition auth_message (server_nonce client_nonce exporter : bytes) : bytes :=
  concat [lit "throcc/auth/1"; server_nonce; client_nonce; exporter].

(* @src/crates/throcc-crypto/src/identity.rs 61-77 encryption_key_message *)
Definition encryption_key_message (server : bytes) (user : UserId) (not_after : Z) (encryption_key : PublicKey)
  : bytes :=
  concat [lit "throcc/enc-key/1"; server; to_be_bytes 8 user; to_be_bytes 8 not_after; encryption_key].

Section Signatures.
(** [VerifyingKey::from_bytes] accepts a key; [verify_strict]. *)
Context (valid_key : bytes -> bool) (verify_strict : bytes -> bytes -> bytes -> bool).

(** True is [Ok(())]. *)
(* @src/crates/throcc-crypto/src/identity.rs 36-44 verify *)
Definition verify (public message signature : bytes) : bool :=
  valid_key public && verify_strict public message signature.
End Signatures.

(** ** Enrollment (pake.rs) *)

(* @src/crates/throcc-crypto/src/pake.rs 15-25 Transcript *)
Record Transcript := mkTranscript {
  tp_server_nonce : bytes; tp_client_nonce : bytes; tp_code_id : bytes; tp_pubkey : bytes;
  tp_spki_hash : bytes; tp_exporter : bytes; tp_pake_a : bytes; tp_pake_b : bytes
}.

(** [part.len() as u32], big-endian, then the part. *)
Definition with_length (part : bytes) : bytes := to_be_bytes 4 (wrap32 (Z.of_nat (length part))) ++ part.

Definition transcript_parts (t : Transcript) : list bytes :=
  [tp_server_nonce t; tp_client_nonce t; tp_code_id t; tp_pubkey t; tp_spki_hash t; tp_exporter t;
   tp_pake_a t; tp_pake_b t].

(* @src/crates/throcc-crypto/src/pake.rs 28-44 Transcript::to_bytes *)
Definition transcript_bytes (t : Transcript) : bytes :=
  lit "throcc/enroll/1" ++ concat (with_length <$> transcript_parts t).

Section Pake.
(** SPAKE2: a side's state, starting it from the password and both identities (drawing its
    message from [coin]), and finishing it with the other side's message. *)
Context {State : Type} (start_a start_b : bytes -> bytes -> bytes -> bytes -> State * bytes)
  (spake2_finish : State -> bytes -> option bytes).
(** HKDF-SHA256 extract with a salt and expand, HMAC-SHA256, SHA-256. *)
Context (sha256 : bytes -> bytes) (hkdf : bytes -> bytes -> bytes -> bytes) (hmac : bytes -> bytes -> bytes).

(* @src/crates/throcc-crypto/src/pake.rs 7-13 PakeError *)
Inductive PakeError := PakeMalformed | Confirmation.

(* @src/crates/throcc-crypto/src/pake.rs 117-124 spake2_start *)
Definition spake2_start (side : bytes -> bytes -> bytes -> bytes -> State * bytes) (coin code_id secret : bytes)
  : State * bytes :=
  let identity role := role ++ code_id in
  side coin secret (identity (lit "throcc/client/")) (identity (lit "throcc/server/")).

(* @src/crates/throcc-crypto/src/pake.rs 126-129 ConfirmKeys *)
Record ConfirmKeys := { ck_a : bytes; ck_b : bytes }.

(* @src/crates/throcc-crypto/src/pake.rs 132-144 ConfirmKeys::derive *)
Definition confirm_keys (pake_key transcript : bytes) : ConfirmKeys :=
  let salt := sha256 transcript in
  {| ck_a := hkdf salt pake_key (lit "throcc/confirm-a"); ck_b := hkdf salt pake_key (lit "throcc/confirm-b") |}.

(* @src/crates/throcc-crypto/src/pake.rs 153-158 mac *)
Definition mac (key transcript : bytes) : bytes := hmac key transcript.

(* @src/crates/throcc-crypto/src/pake.rs 160-164 verify *)
Definition verify_mac (key transcript tag : bytes) : bool := bool_decide (hmac key transcript = tag).

(* @src/crates/throcc-crypto/src/pake.rs 53-57 ClientPake::start *)
Definition client_start (coin code_id secret : bytes) : State * bytes := spake2_start start_a coin code_id secret.

(** [confirm_a], once the server's [confirm_b] matches. *)
(* @src/crates/throcc-crypto/src/pake.rs 59-74 ClientPake::finish *)
Definition client_finish (state : State) (t : Transcript) (confirm_b : bytes) : bytes + PakeError :=
  match spake2_finish state (tp_pake_b t) with
  | None => inr PakeMalformed
  | Some key =>
      let transcript := transcript_bytes t in
      let keys := confirm_keys key transcript in
      if verify_mac (ck_b keys) transcript confirm_b then inl (mac (ck_a keys) transcript)
      else inr Confirmation
  end.

(* @src/crates/throcc-crypto/src/pake.rs 77-81 ServerPake *)
Record ServerPake := { sv_key : bytes; sv_pake_b : bytes }.

(* @src/crates/throcc-crypto/src/pake.rs 84-88 ServerPake::respond *)
Definition server_respond (coin code_id secret pake_a : bytes) : ServerPake + PakeError :=
  let '(state, pake_b) := spake2_start start_b coin code_id secret in
  match spake2_finish state pake_a with
  | None => inr PakeMalformed
  | Some key => inl {| sv_key := key; sv_pake_b := pake_b |}
  end.

(* @src/crates/throcc-crypto/src/pake.rs 102-107 ServerConfirm *)
Record ServerConfirm := { sf_confirm_b : bytes; sf_key_a : bytes; sf_transcript : bytes }.

(* @src/crates/throcc-crypto/src/pake.rs 90-99 ServerPake::confirm *)
Definition server_confirm (s : ServerPake) (t : Transcript) : ServerConfirm :=
  let transcript := transcript_bytes t in
  let keys := confirm_keys (sv_key s) transcript in
  {| sf_confirm_b := mac (ck_b keys) transcript; sf_key_a := ck_a keys; sf_transcript := transcript |}.

(* @src/crates/throcc-crypto/src/pake.rs 110-112 ServerConfirm::check_confirm_a *)
Definition check_confirm_a (c : ServerConfirm) (confirm_a : bytes) : bool :=
  verify_mac (sf_key_a c) (sf_transcript c) confirm_a.
End Pake.

(** ** Wrapped sender keys (hpke.rs) *)

(* @src/crates/throcc-crypto/src/hpke.rs 61-68 WrapContext *)
Record WrapContext := mkWrapContext {
  wc_server : bytes; wc_room : RoomId; wc_epoch : Epoch; wc_from : UserId; wc_to : UserId
}.

(* @src/crates/throcc-crypto/src/hpke.rs 71-79 WrapContext::info *)
Definition wrap_info (c : WrapContext) : bytes :=
  lit "throcc/sender-key/1" ++ wc_server c ++ to_be_bytes 8 (wc_room c) ++ to_be_bytes 4 (wc_epoch c) ++
  to_be_bytes 8 (wc_from c) ++ to_be_bytes 8 (wc_to c).

(* @src/crates/throcc-crypto/src/hpke.rs 14-14 ENCAPPED_BYTES *)
Definition ENCAPPED_BYTES : nat := 32.

(* @src/crates/throcc-crypto/src/hpke.rs 16-24 HpkeError *)
Inductive HpkeError := BadKey | OpenFailed | SealFailed.

Section Hpke.
(** Whether bytes are a public key or an encapsulated key; the single-shot operations in auth
    mode, given the private keys that stand for the sender and the recipient. *)
Context {Private : Type} (is_public is_encapped : bytes -> bool)
  (seal_auth : Private -> bytes -> bytes -> bytes -> option (bytes * bytes))
  (open_auth : Private -> bytes -> bytes -> bytes -> bytes -> option bytes).

(* @src/crates/throcc-crypto/src/hpke.rs 82-102 wrap *)
Definition wrap (sender : Private) (recipient : bytes) (context : WrapContext) (secret : bytes) : bytes + HpkeError :=
  if negb (is_public recipient) then inr BadKey else
  match seal_auth sender recipient (wrap_info context) secret with
  | None => inr SealFailed
  | Some (encapped, ciphertext) => inl (encapped ++ ciphertext)
  end.

(* @src/crates/throcc-crypto/src/hpke.rs 104-132 unwrap *)
Definition unwrap (recipient : Private) (sender : bytes) (context : WrapContext) (wrapped : bytes) : bytes + HpkeError :=
  if negb (is_public sender) then inr BadKey else
  if (length wrapped <? ENCAPPED_BYTES)%nat then inr OpenFailed else
  let encapped := take ENCAPPED_BYTES wrapped in
  let ciphertext := drop ENCAPPED_BYTES wrapped in
  if negb (is_encapped encapped) then inr OpenFailed else
  match open_auth recipient sender encapped (wrap_info context) ciphertext with
  | None => inr OpenFailed
  | Some plaintext => if (length plaintext =? 32)%nat then inl plaintext else inr OpenFailed
  end.
End Hpke.

(** ** Safety numbers (safety.rs) *)

Section Safety.
Context (sha512 : bytes -> bytes).

(* @src/crates/throcc-crypto/src/safety.rs 4-4 ITERATIONS *)
Definition ITERATIONS : Z := 5200.
(* @src/crates/throcc-crypto/src/safety.rs 5-5 VERSION *)
Definition VERSION : bytes := [0; 0].

(** [{:05}] of a number below 100000. *)
Definition digits5 (v : Z) : str :=
  [48 + v / 10000; 48 + v / 1000 mod 10; 48 + v / 100 mod 10; 48 + v / 10 mod 10; 48 + v mod 10].

(** [chunks(5)] of the first 30 bytes. *)
Definition chunk (hash : bytes) (i : nat) : bytes := take 5 (drop (5 * i) (take 30 hash)).

(* @src/crates/throcc-crypto/src/safety.rs 15-34 half *)
Definition half (key : PublicKey) : str :=
  let hash := sha512 (VERSION ++ key ++ key) in
  let hash := Nat.iter (Z.to_nat ITERATIONS) (fun hash => sha512 (hash ++ key)) hash in
  concat ((fun i => digits5 (wrap64 (from_be_bytes (chunk hash i)) mod 100000)) <$> seq 0 6).

(** [String]'s order: lexicographic. *)
Fixpoint str_leb (a b : str) : bool :=
  match a, b with
  | [], _ => true
  | _ :: _, [] => false
  | x :: a, y :: b => (x <? y) || ((x =? y) && str_leb a b)
  end.

(* @src/crates/throcc-crypto/src/safety.rs 7-13 safety_number *)
Definition safety_number (a b : PublicKey) : str :=
  let a := half a in
  let b := half b in
  if str_leb a b then a ++ b else b ++ a.
End Safety.

(** ** Media (media.rs) *)

(* @src/crates/throcc-crypto/src/media.rs 9-21 MediaError *)
Inductive MediaError := BadHeader (e : HeaderError) | TooLong (len : Z) | SealError | Short | AuthFailed.

Section Media.
(** HKDF-SHA256 without a salt to 16 bytes and the key schedule; AES-128-GCM detached. *)
Context {Key : Type} (hkdf16 : bytes -> bytes -> Key)
  (encrypt : Key -> bytes -> bytes -> bytes -> option (bytes * bytes))
  (decrypt : Key -> bytes -> bytes -> bytes -> bytes -> option bytes).

(* @src/crates/throcc-crypto/src/media.rs 27-36 TrackKey::derive *)
Definition track_key (sender_secret : bytes) (media_id : MediaId) : Key :=
  hkdf16 sender_secret (lit "throcc/media/1" ++ to_be_bytes 4 media_id).

(** The datagram left in [out]. *)
(* @src/crates/throcc-crypto/src/media.rs 38-66 TrackKey::seal *)
Definition seal (key : Key) (header : Header) (parts : list bytes) : bytes + MediaError :=
  let len := Z.of_nat (length (concat parts)) in
  if BODY_BYTES <? len then inr (TooLong len) else
  let header_bytes := header_encode header in
  match encrypt key (header_nonce header) header_bytes (concat parts) with
  | None => inr SealError
  | Some (ciphertext, tag) => inl (header_bytes ++ ciphertext ++ tag)
  end.

(* @src/crates/throcc-crypto/src/media.rs 68-83 TrackKey::open *)
Definition open (key : Key) (datagram : bytes) : (Header * bytes) + MediaError :=
  match header_parse_strict datagram with
  | inr e => inr (BadHeader e)
  | inl header =>
      if (length datagram <? HEADER_BYTES + TAG_BYTES)%nat then inr Short else
      let tag_at := (length datagram - TAG_BYTES)%nat in
      let sealed := take tag_at datagram in
      let tag := drop tag_at datagram in
      match decrypt key (header_nonce header) (take HEADER_BYTES sealed) (drop HEADER_BYTES sealed) tag with
      | None => inr AuthFailed
      | Some body => inl (header, body)
      end
  end.
End Media.

(** ** Theorems: byte strings bind their context *)

(** The widths of what goes into them. *)
Definition key32 (b : bytes) : Prop := length b = 32%nat.

Definition transcript_wf (t : Transcript) : Prop :=
  Forall (fun part => Z.of_nat (length part) <= u32_max) (transcript_parts t).

Definition wrap_wf (c : WrapContext) : Prop :=
  key32 (wc_server c) /\ is_u64 (wc_room c) /\ is_u32 (wc_epoch c) /\ is_u64 (wc_from c) /\ is_u64 (wc_to c).

Lemma u64_bytes_inj x y : is_u64 x -> is_u64 y -> to_be_bytes 8 x = to_be_bytes 8 y -> x = y.
Proof. unfold is_u64, u64_max. intros. apply (to_be_bytes_inj 8); [lia..|done]. Qed.

Lemma u32_bytes_inj x y : is_u32 x -> is_u32 y -> to_be_bytes 4 x = to_be_bytes 4 y -> x = y.
Proof. unfold is_u32, u32_max. intros. apply (to_be_bytes_inj 4); [lia..|done]. Qed.

(** Equal strings with parts of equal length have equal parts. *)
Ltac split_app H :=
  repeat match type of H with
  | _ ++ _ = _ ++ _ => let E := fresh "E" in
      apply app_inj_1 in H as [E H]; [|rewrite ?length_to_be_bytes; congruence]
  end.

Lemma auth_message_inj s c e s' c' e' :
  key32 s -> key32 c -> key32 s' -> key32 c' ->
  auth_message s c e = auth_message s' c' e' -> s = s' /\ c = c' /\ e = e'.
Proof.
  unfold key32, auth_message. cbn [concat]. rewrite !app_nil_r. intros Hs Hc Hs' Hc' H. split_app H. done.
Qed.

Lemma encryption_key_message_inj s u n k s' u' n' k' :
  key32 s -> key32 s' -> is_u64 u -> is_u64 u' -> is_u64 n -> is_u64 n' ->
  encryption_key_message s u n k = encryption_key_message s' u' n' k' ->
  s = s' /\ u = u' /\ n = n' /\ k = k'.
Proof.
  unfold key32, encryption_key_message. cbn [concat]. rewrite !app_nil_r. intros Hs Hs' Hu Hu' Hn Hn' H.
  split_app H. split_and!; eauto using u64_bytes_inj.
Qed.

Lemma wrap_info_inj c c' : wrap_wf c -> wrap_wf c' -> wrap_info c = wrap_info c' -> c = c'.
Proof.
  destruct c as [s r e f t], c' as [s' r' e' f' t']. unfold wrap_wf, key32, wrap_info.
  cbn [wc_server wc_room wc_epoch wc_from wc_to].
  intros (Hs & Hr & He & Hf & Ht) (Hs' & Hr' & He' & Hf' & Ht') H.
  apply (app_inj_1 (lit "throcc/sender-key/1") (lit "throcc/sender-key/1")) in H as [_ H]; [|done].
  split_app H. f_equal; eauto using u64_bytes_inj, u32_bytes_inj.
Qed.

Lemma with_length_inj p q a b :
  Z.of_nat (length p) <= u32_max -> Z.of_nat (length q) <= u32_max ->
  with_length p ++ a = with_length q ++ b -> p = q /\ a = b.
Proof.
  unfold with_length. rewrite <- !app_assoc. intros Hp Hq H.
  apply app_inj_1 in H as [El H]; [|by rewrite !length_to_be_bytes].
  apply (to_be_bytes_inj 4) in El; [|unfold wrap32; apply Z.mod_pos_bound; lia..].
  unfold wrap32, u32_max in *. rewrite !Z.mod_small in El by lia.
  by apply app_inj_1; [lia|].
Qed.

Lemma transcript_inj t t' :
  transcript_wf t -> transcript_wf t' -> transcript_bytes t = transcript_bytes t' -> t = t'.
Proof.
  intros Ht Ht' H. apply app_inj_1 in H as [_ H]; [|done].
  assert (forall l l', length l = length l' ->
    Forall (fun part => Z.of_nat (length part) <= u32_max) l ->
    Forall (fun part => Z.of_nat (length part) <= u32_max) l' ->
    concat (with_length <$> l) = concat (with_length <$> l') -> l = l') as Hl.
  { induction l as [|p l IH]; intros [|q l'] Hlen Hp Hq E; try done.
    apply Forall_cons_1 in Hp as [Hp1 Hp2]. apply Forall_cons_1 in Hq as [Hq1 Hq2].
    csimpl in E. apply with_length_inj in E as [-> E]; [|done..]. f_equal. apply IH; try done. by injection Hlen. }
  apply Hl in H; [|done..]. destruct t, t'. cbn in H. by injection H as -> -> -> -> -> -> -> ->.
Qed.

(** Two strings that differ at a position are different. *)
Lemma lookup_differs {A} (l l' : list A) i x y : l !! i = Some x -> l' !! i = Some y -> x <> y -> l <> l'.
Proof. congruence. Qed.

(** A signature, a key confirmation or a wrapped key made for one purpose and context
    fits no other: the four byte strings determine every field they were built from, and no
    string of one kind equals one of another. *)
Theorem signed_bytes_bind_their_context :
  (forall s c e s' c' e', key32 s -> key32 c -> key32 s' -> key32 c' ->
     auth_message s c e = auth_message s' c' e' -> s = s' /\ c = c' /\ e = e') /\
  (forall s u n k s' u' n' k', key32 s -> key32 s' -> is_u64 u -> is_u64 u' -> is_u64 n -> is_u64 n' ->
     encryption_key_message s u n k = encryption_key_message s' u' n' k' ->
     s = s' /\ u = u' /\ n = n' /\ k = k') /\
  (forall t t', transcript_wf t -> transcript_wf t' -> transcript_bytes t = transcript_bytes t' -> t = t') /\
  (forall c c', wrap_wf c -> wrap_wf c' -> wrap_info c = wrap_info c' -> c = c') /\
  (forall s c e s' u n k t w, NoDup
     [auth_message s c e; encryption_key_message s' u n k; transcript_bytes t; wrap_info w]).
Proof.
  split; [apply auth_message_inj|]. split; [apply encryption_key_message_inj|].
  split; [apply transcript_inj|]. split; [apply wrap_info_inj|].
  intros s c e s' u n k t w.
  assert (auth_message s c e <> encryption_key_message s' u n k) by by apply (lookup_differs _ _ 7 97 101).
  assert (auth_message s c e <> transcript_bytes t) by by apply (lookup_differs _ _ 7 97 101).
  assert (auth_message s c e <> wrap_info w) by by apply (lookup_differs _ _ 7 97 115).
  assert (encryption_key_message s' u n k <> transcript_bytes t) by by apply (lookup_differs _ _ 9 99 114).
  assert (encryption_key_message s' u n k <> wrap_info w) by by apply (lookup_differs _ _ 7 101 115).
  assert (transcript_bytes t <> wrap_info w) by by apply (lookup_differs _ _ 7 101 115).
  repeat (apply list.NoDup_cons; split; [rewrite ?elem_of_cons, elem_of_nil; intuition congruence|]).
  apply list.NoDup_nil. done.
Qed.

(** ** Theorems: media *)

Section MediaTheorems.
Context {Key : Type} (encrypt : Key -> bytes -> bytes -> bytes -> option (bytes * bytes))
  (decrypt : Key -> bytes -> bytes -> bytes -> bytes -> option bytes).

(** AES-128-GCM: the ciphertext has the plaintext's length, the tag has 16 bytes, and
    decryption under the same key, nonce and associated data undoes encryption. *)
Hypothesis (Hgcm : forall key nonce aad p c t,
  encrypt key nonce aad p = Some (c, t) ->
  length c = length p /\ length t = TAG_BYTES /\ decrypt key nonce aad c t = Some p).

Lemma sealed_opens (key : Key) (header : Header) (parts : list bytes) (datagram : bytes) :
  header_wf header -> Flags.has_reserved (hdr_flags header) = false ->
  seal encrypt key header parts = inl datagram ->
  Z.of_nat (length datagram) <= DATAGRAM_PAYLOAD_FLOOR /\
  take HEADER_BYTES datagram = header_encode header /\ header_parse_strict datagram = inl header /\
  open decrypt key datagram = inl (header, concat parts).
Proof.
  intros Hh Hr. unfold seal. case_match eqn:Hlen; [done|].
  destruct (encrypt _ _ _ _) as [[c t]|] eqn:E; [|done]. intros Hin. apply (inj inl) in Hin. subst datagram.
  destruct (Hgcm _ _ _ _ _ _ E) as (Hc & Ht & Hd). pose proof (length_header_encode header) as Hl.
  assert (header_parse_strict (header_encode header ++ c ++ t) = inl header) as Hp.
  { unfold header_parse_strict. rewrite header_parse_app by done. rewrite header_parse_encode by done. by rewrite Hr. }
  split; [|split; [|split; [done|]]].
  - rewrite !length_app, Hl, Hc, Ht. unfold BODY_BYTES, DATAGRAM_PAYLOAD_FLOOR in *. lia.
  - by rewrite take_app_length'.
  - unfold open. rewrite Hp. rewrite !length_app, Hl, Ht.
    replace (_ <? _)%nat with false by (symmetry; apply Nat.ltb_ge; lia).
    replace (HEADER_BYTES + (length c + TAG_BYTES) - TAG_BYTES)%nat with (length (header_encode header ++ c))
      by (rewrite length_app; lia).
    rewrite (app_assoc (header_encode header)), take_app_length, drop_app_length.
    rewrite take_app_length', drop_app_length' by done. by rewrite Hd.
Qed.

(** A sealed datagram is its header in the clear, then ciphertext and tag, and fits the
    payload every path carries; opening it with the same key returns the header and exactly
    the parts sealed, joined.  What [open] accepts was authenticated with the whole header as
    associated data and its first 12 bytes as nonce. *)
Theorem media_datagrams_open (key : Key) (header : Header) (parts : list bytes) (datagram : bytes) :
  header_wf header -> Flags.has_reserved (hdr_flags header) = false ->
  seal encrypt key header parts = inl datagram ->
  Z.of_nat (length datagram) <= DATAGRAM_PAYLOAD_FLOOR /\
  take HEADER_BYTES datagram = header_encode header /\
  open decrypt key datagram = inl (header, concat parts) /\
  (forall d h body, open decrypt key d = inl (h, body) ->
     exists aad c t, d = aad ++ c ++ t /\ length aad = HEADER_BYTES /\ length t = TAG_BYTES /\
       header_parse_strict aad = inl h /\ decrypt key (header_nonce h) aad c t = Some body).
Proof.
  intros Hh Hr Hs. destruct (sealed_opens key header parts datagram Hh Hr Hs) as (H1 & H2 & _ & H3).
  split; [done|]. split; [done|]. split; [done|].
  intros d h body. unfold open. destruct (header_parse_strict d) as [h'|] eqn:Ehd; [|done].
    destruct (length d <? HEADER_BYTES + TAG_BYTES)%nat eqn:Hsz; [done|]. apply Nat.ltb_ge in Hsz.
    intros Ho. destruct (decrypt _ _ (take _ _) _ _) as [p|] eqn:Edec in Ho; [|done]. simplify_eq.
    set (tag_at := (length d - TAG_BYTES)%nat) in *.
    exists (take HEADER_BYTES (take tag_at d)), (drop HEADER_BYTES (take tag_at d)), (drop tag_at d).
    assert (d = take HEADER_BYTES (take tag_at d) ++ drop HEADER_BYTES (take tag_at d) ++ drop tag_at d) as Ed
      by (by rewrite app_assoc, !take_drop).
    split; [done|]. split; [rewrite !length_take; unfold HEADER_BYTES, TAG_BYTES in *; lia|].
    split; [rewrite length_drop; unfold TAG_BYTES in *; lia|]. split; [|done].
    unfold header_parse_strict in *. rewrite Ed in Ehd at 1. rewrite header_parse_app in Ehd; [done|].
    rewrite !length_take. unfold HEADER_BYTES, TAG_BYTES in *. lia.
Qed.

End MediaTheorems.

(** A cipher that hides nothing, with a tag that depends on all it is given. *)
Definition example_encrypt (key : Z) (nonce aad p : bytes) : option (bytes * bytes) :=
  Some (p, to_be_bytes TAG_BYTES (key + from_be_bytes nonce + from_be_bytes aad + foldr Z.add 0 p)).
Definition example_decrypt (key : Z) (nonce aad c t : bytes) : option bytes :=
  if bool_decide (t = to_be_bytes TAG_BYTES (key + from_be_bytes nonce + from_be_bytes aad + foldr Z.add 0 c))
  then Some c else None.

Lemma example_gcm key nonce aad p c t :
  example_encrypt key nonce aad p = Some (c, t) ->
  length c = length p /\ length t = TAG_BYTES /\ example_decrypt key nonce aad c t = Some p.
Proof.
  intros [= <- <-]. split; [done|]. split; [done|]. unfold example_decrypt. by rewrite bool_decide_true.
Qed.

Lemma media_datagrams_open_witness :
  let h := mkHeader 7 1 9 (Z.lor Flags.FIRST Flags.LAST) in
  exists d, seal example_encrypt 3 h [[1; 2]; [3]] = inl d /\ open example_decrypt 3 d = inl (h, [1; 2; 3]).
Proof.
  intros h. destruct (seal example_encrypt 3 h [[1; 2]; [3]]) as [d|] eqn:E; [|by vm_compute in E].
  exists d. split; [done|].
  apply (media_datagrams_open example_encrypt example_decrypt example_gcm 3 h [[1; 2]; [3]] d).
  - repeat split; vm_compute; congruence.
  - done.
  - exact E.
Defined.

(** ** Theorems: safety numbers *)

Lemma str_leb_total a b : str_leb a b = true \/ str_leb b a = true.
Proof.
  revert b. induction a as [|x a IH]; intros [|y b]; cbn; auto.
  destruct (Z.lt_trichotomy x y) as [?|[->|?]].
  - left. by replace (x <? y) with true by lia.
  - rewrite Z.ltb_irrefl, Z.eqb_refl. cbn. apply IH.
  - right. by replace (y <? x) with true by lia.
Qed.

Lemma str_leb_antisym a b : str_leb a b = true -> str_leb b a = true -> a = b.
Proof.
  revert b. induction a as [|x a IH]; intros [|y b]; cbn; try done.
  rewrite !orb_true_iff, !andb_true_iff. intros [?|[? Ha]] [?|[? Hb]]; try lia.
  f_equal; [lia | by apply IH].
Qed.

Lemma length_half sha512 key : length (half sha512 key) = 30%nat.
Proof. done. Qed.

Lemma digits5_digits v : 0 <= v < 100000 -> Forall (fun c => 48 <= c <= 57) (digits5 v).
Proof.
  intros Hv. unfold digits5.
  pose proof (Z.mod_pos_bound (v / 1000) 10). pose proof (Z.mod_pos_bound (v / 100) 10).
  pose proof (Z.mod_pos_bound (v / 10) 10). pose proof (Z.mod_pos_bound v 10).
  assert (0 <= v / 10000 <= 9).
  { split; [apply Z.div_pos; lia|]. apply Z.lt_succ_r, Z.div_lt_upper_bound; lia. }
  repeat apply Forall_cons_2; try apply Forall_nil_2; lia.
Qed.

(** Both sides of a conversation see the same safety number, of sixty decimal digits. *)
Theorem safety_numbers_agree (sha512 : bytes -> bytes) (a b : PublicKey) :
  safety_number sha512 a b = safety_number sha512 b a /\
  length (safety_number sha512 a b) = 60%nat /\
  Forall (fun c => 48 <= c <= 57) (safety_number sha512 a b).
Proof.
  assert (forall key, Forall (fun c => 48 <= c <= 57) (half sha512 key)) as Hd.
  { intros key. unfold half. cbn [concat fmap list_fmap seq].
    repeat (apply Forall_app_2; [apply digits5_digits, Z.mod_pos_bound; lia|]). apply Forall_nil_2. }
  unfold safety_number. set (x := half sha512 a). set (y := half sha512 b).
  assert (length x = 30%nat /\ length y = 30%nat) as [Hx Hy] by (split; apply length_half).
  assert (Forall (fun c => 48 <= c <= 57) x /\ Forall (fun c => 48 <= c <= 57) y) as [Fx Fy]
    by (split; apply Hd).
  clearbody x y. split.
  - destruct (str_leb x y) eqn:E1, (str_leb y x) eqn:E2; try done.
    + by rewrite (str_leb_antisym x y).
    + destruct (str_leb_total x y); congruence.
  - destruct (str_leb x y); rewrite length_app, Hx, Hy; (split; [done | by apply Forall_app_2]).
Qed.
