(* ===== verification/JsonFile.v ===== *)
(** * JSON files several processes share (throcc-client-core, json_file.rs)

    A file holds one JSON object: its version and its contents.  [serde_json] and the derived
    [Serialize] and [Deserialize] are the classes [Json] and [Format]; what the file system
    answers is an argument. *)
From S2P Require Import Prelude.
Open Scope Z_scope.

(** [serde_json]: values, objects, numbers, reading and writing bytes. *)
Class Json (Value : Type) := {
  from_slice : bytes -> option Value;
  to_vec_pretty : Value -> bytes;
  as_object : Value -> option (gmap str Value);
  of_object : gmap str Value -> Value;
  as_u64 : Value -> option Z;
  of_u64 : Z -> Value
}.

Class JsonLaws (Value : Type) `{!Json Value} := {
  law_slice v : from_slice (to_vec_pretty v) = Some v;
  law_object o : as_object (of_object o) = Some o;
  law_u64 n : is_u64 n -> as_u64 (of_u64 n) = Some n
}.

(* @src/crates/throcc-client-core/src/json_file.rs 11-12 Migration *)
Definition Migration (Value : Type) : Type := gmap str Value -> gmap str Value.

(** [fmt_to] and [fmt_from] are the fields serde writes and what it reads from them. *)
(* @src/crates/throcc-client-core/src/json_file.rs 16-22! Format *)
Class Format (Value T : Type) := {
  MIGRATIONS : list (Migration Value);
  fmt_default : T;
  fmt_to : T -> gmap str Value;
  fmt_from : gmap str Value -> option T
}.

Definition the_version : str := lit "version".

Class FormatLaws (Value T : Type) `{!Format Value T} := {
  law_contents t : fmt_from (fmt_to t) = Some t;
  law_no_version t : fmt_to t !! the_version = None;
  law_few : Z.of_nat (length MIGRATIONS) < u64_max
}.

(** What went wrong; [anyhow] keeps it as text. *)
Inductive JsonError := Unopened | NotJson | NotAnObject | NoVersion | NewerVersion (version current : Z) | BadContents | Unwritten.

Section File.
Context {Value : Type} `{!Json Value} {T : Type} `{!Format Value T}.

(* @src/crates/throcc-client-core/src/json_file.rs 19-21 version *)
Definition version : Z := Z.of_nat (length MIGRATIONS) + 1.

(** The closure [read]. *)
(* @src/crates/throcc-client-core/src/json_file.rs 30-46! load *)
Definition read_json (contents : bytes) : T + JsonError :=
  match from_slice contents with
  | None => inr NotJson
  | Some value =>
      match as_object value with
      | None => inr NotAnObject
      | Some object =>
          match v ← object !! the_version; n ← as_u64 v; if 1 <=? n then Some n else None with
          | None => inr NoVersion
          | Some stored =>
              if version <? stored then inr (NewerVersion stored version) else
              let object := foldl (fun o migrate => migrate o) (delete the_version object) (drop (Z.to_nat (stored - 1)) MIGRATIONS) in
              match fmt_from object with Some t => inl t | None => inr BadContents end
          end
      end
  end.

(** [readable] tells whether the file could be read; [None] is no file. *)
(* @src/crates/throcc-client-core/src/json_file.rs 24-48 load *)
Definition json_load (readable : bool) (file : option bytes) : T + JsonError :=
  if negb readable then inr Unopened else
  match file with None => inl fmt_default | Some contents => read_json contents end.

(* @src/crates/throcc-client-core/src/json_file.rs 70-75 Versioned *)
Definition versioned (t : T) : gmap str Value := <[the_version := of_u64 version]> (fmt_to t).

(** Answers of the file system: whether the directory is there and the lock is taken, the
    file can be read, and it could be replaced. *)
Record FileAnswers := mkAnswers { fa_locked : bool; fa_readable : bool; fa_replaced : bool }.

(** The result is [Ok(())], with what the closure was given and made, or the error. *)
(* @src/crates/throcc-client-core/src/json_file.rs 50-68 update *)
Definition json_update (io : FileAnswers) (change : T -> T) (file : option bytes) : (T + JsonError) * option bytes :=
  if negb (fa_locked io) then (inr Unopened, file) else
  match json_load (fa_readable io) file with
  | inr e => (inr e, file)
  | inl contents =>
      let contents := change contents in
      if fa_replaced io then (inl contents, Some (to_vec_pretty (of_object (versioned contents)))) else (inr Unwritten, file)
  end.
End File.
Arguments FileAnswers : clear implicits.

#[global] Arguments json_load : simpl never.
#[global] Arguments versioned : simpl never.
#[global] Arguments the_version : simpl never.

(** ** The file as a cell *)

(** What holds a [T] or cannot be read: [People::update] and [Servers::update] are
    [cell_update] of theirs, by [json_files_are_cells]. *)
Definition cell_update {T} (written : bool) (change : T -> T) (cell : option T) : bool * option T :=
  match cell with
  | Some t => if written then (true, Some (change t)) else (false, cell)
  | None => (false, cell)
  end.

Section Laws.
Context {Value : Type} `{!Json Value, !JsonLaws Value} {T : Type} `{!Format Value T, !FormatLaws Value T}.

Definition holds (file : option bytes) : option T := match json_load true file with inl t => Some t | inr _ => None end.

Lemma written_loads (t : T) : json_load true (Some (to_vec_pretty (of_object (versioned t)))) = inl t.
Proof.
  unfold json_load, read_json. cbn [negb]. rewrite law_slice, law_object. unfold versioned at 1. rewrite lookup_insert_eq. cbn.
  assert (is_u64 version) as Hv by (unfold version, is_u64; pose proof (law_few (Value := Value) (T := T)); unfold u64_max in *; lia).
  rewrite law_u64 by done. cbn. destruct (Z.leb_spec 1 version) as [_|H]; [|unfold version in H; lia].
  rewrite Z.ltb_irrefl. rewrite drop_ge by (unfold version; lia). cbn [foldl]. unfold versioned.
  rewrite delete_insert_id by apply law_no_version. by rewrite law_contents.
Qed.

Lemma update_cell io (change : T -> T) file :
  let '(r, file') := json_update io change file in
  (match r with inl _ => true | inr _ => false end, holds file') =
    cell_update (fa_locked io && fa_readable io && fa_replaced io) change (holds file) /\
  match r with inl t => holds file' = Some t | inr _ => file' = file end.
Proof.
  destruct io as [locked readable replaced]. unfold json_update, cell_update, holds. cbn [fa_locked fa_readable fa_replaced].
  destruct locked; cbn; [|by destruct (json_load true file)].
  destruct readable; [|change (json_load false file) with (@inr T _ Unopened); cbn; by destruct (json_load true file)].
  destruct (json_load true file) as [t|e] eqn:E; [|by rewrite E]. destruct replaced; [|by rewrite E]. cbn. by rewrite written_loads.
Qed.

(** What the file holds once any number of writers had their turn. *)
Definition update_all (turns : list (FileAnswers * (T -> T))) (file : option bytes) : option bytes :=
  foldl (fun file '(io, change) => (json_update io change file).2) file turns.

(** A file that processes share behaves as one value: each update applies its change to what
    the file holds, whoever wrote that, or fails and leaves the file as it was; so no writer
    undoes another's change.  A file that is not there holds the default, one of an older
    version what its migrations make of it, and one of a newer version is never overwritten. *)
Theorem json_files_are_cells :
  (forall turns file t, holds file = Some t ->
     holds (update_all turns file) =
       Some (foldl (fun t '(io, change) => if fa_locked io && fa_readable io && fa_replaced io then change t else t) t turns)) /\
  (forall turns file, holds file = None -> update_all turns file = file) /\
  holds None = Some fmt_default /\
  (forall o n, is_u64 n -> 1 <= n ->
     let file := Some (to_vec_pretty (of_object (<[the_version := of_u64 n]> o))) in
     if version <? n then json_load true file = inr (NewerVersion n version)
     else holds file = fmt_from (foldl (fun o migrate => migrate o) (delete the_version o) (drop (Z.to_nat (n - 1)) MIGRATIONS))).
Proof.
  split; [|split; [|split]].
  - intros turns. induction turns as [|[io change] turns IH]; intros file t H; [done|]. cbn [foldl update_all]. apply IH.
    pose proof (update_cell io change file) as Hu. destruct (json_update io change file) as [r file']. destruct Hu as [Hu _].
    rewrite H in Hu. cbn in Hu.
    destruct (_ && _); injection Hu; intros; cbn; congruence.
  - intros turns. induction turns as [|[io change] turns IH]; intros file H; [done|]. cbn [foldl update_all].
    pose proof (update_cell io change file) as Hu. destruct (json_update io change file) as [r file']. destruct Hu as [Hu Hf].
    rewrite H in Hu. cbn in Hu. cbn [snd]. destruct r; [done|]. subst. by apply IH.
  - done.
  - intros o n Hn H1. cbv zeta. unfold holds, json_load, read_json. cbn [negb]. rewrite law_slice, law_object, lookup_insert_eq. cbn.
    rewrite law_u64 by done. cbn. rewrite (proj2 (Z.leb_le 1 n)) by done. destruct (version <? n); [done|].
    rewrite delete_insert_eq. by destruct (fmt_from _).
Qed.
End Laws.

(** A JSON of numbers and objects, and a file of one number that an older version kept under
    another name. *)
Module Example.
#[warnings="-automation"]
Inductive value := Num (n : Z) | Obj (fields : list (list Z * value)).

Fixpoint to_tree (v : value) : gen_tree (Z + list Z) :=
  match v with
  | Num n => GenLeaf (inl n)
  | Obj fields => GenNode 0 ((fun '(k, v) => GenNode 1 [GenLeaf (inr k); to_tree v]) <$> fields)
  end.
Fixpoint of_tree (t : gen_tree (Z + list Z)) : value :=
  match t with
  | GenLeaf (inl n) => Num n
  | GenNode _ l => Obj ((fun t => match t with GenNode _ [GenLeaf (inr k); t] => (k, of_tree t) | _ => ([], Num 0) end) <$> l)
  | GenLeaf _ => Num 0
  end.

Lemma of_to_tree : forall v, of_tree (to_tree v) = v.
Proof.
  fix IH 1. intros [n|fields]; [done|]. cbn. f_equal. induction fields as [|[k v] fields IHf]; [done|]. cbn. by rewrite IH, IHf.
Qed.

Definition keys_of (v : value) : option (gmap str value) := match v with Obj l => Some (list_to_map l) | Num _ => None end.

#[export] Instance json : Json value := {|
  from_slice bs := match bs with [Z.pos p] => of_tree <$> decode p | _ => None end;
  to_vec_pretty v := [Z.pos (encode (to_tree v))];
  as_object := keys_of;
  of_object o := Obj (map_to_list o);
  as_u64 v := match v with Num n => Some n | Obj _ => None end;
  of_u64 := Num
|}.
#[export] Instance json_laws : JsonLaws value.
Proof.
  split; cbn.
  - intros v. rewrite decode_encode. cbn. by rewrite of_to_tree.
  - intros o. by rewrite list_to_map_to_list.
  - done.
Qed.

Definition renamed : Migration value := fun o => match o !! lit "n" with Some v => <[lit "count" := v]> (delete (lit "n") o) | None => o end.
#[export] Instance counter : Format value Z := {|
  MIGRATIONS := [renamed];
  fmt_default := 0;
  fmt_to n := {[lit "count" := Num n]};
  fmt_from o := v ← o !! lit "count"; as_u64 v
|}.
#[export] Instance counter_laws : FormatLaws value Z.
Proof. split; [done|done|by vm_compute]. Qed.
End Example.
Import Example.

(** An old file is migrated, two writers add to it, one that cannot replace it does not, and
    nothing is written over a newer file. *)
Lemma json_files_are_cells_witness :
  let all := mkAnswers true true true in
  let old := Some (to_vec_pretty (of_object (<[the_version := of_u64 1]> {[lit "n" := Example.Num 40]}))) in
  let newer := Some (to_vec_pretty (of_object (<[the_version := of_u64 3]> (∅ : gmap str Example.value)))) in
  holds (T := Z) old = Some 40 /\
  holds (T := Z) (update_all [(all, fun n => n + 1); (mkAnswers true true false, fun n => n + 100); (all, fun n => n + 1)] old) = Some 42 /\
  update_all [(all, fun n : Z => n + 1)] newer = newer.
Proof.
  intros all old newer. destruct (json_files_are_cells (Value := Example.value) (T := Z)) as (Hall & Hnone & _ & Hold).
  pose proof (Hold {[lit "n" := Example.Num 40]} 1 ltac:(unfold is_u64, u64_max; lia) ltac:(lia)) as E. cbv zeta in E. change (version (Value := Example.value) (T := Z) <? 1) with false in E.
  pose proof (Hold ∅ 3 ltac:(unfold is_u64, u64_max; lia) ltac:(lia)) as H. cbv zeta in H. fold newer in H. change (version (Value := Example.value) (T := Z) <? 3) with true in H.
  assert (holds (T := Z) old = Some 40) as E40 by (etransitivity; [exact E|vm_compute; reflexivity]). clearbody old.
  split; [exact E40|]. split; [rewrite (Hall _ old 40 E40); reflexivity|].
  apply Hnone. unfold holds. by rewrite H.
Defined.
