(* ===== verification/People.v ===== *)
(** * What this computer keeps per person (throcc-client-core, people.rs, playback.rs)

    Records by identity key, in one JSON file for every server: who was verified, where each
    verified key was seen, and how loud each person plays.  The file is a cell of [JsonFile]:
    [None] when it cannot be read. *)
From Stdlib Require Import SpecFloat.
From S2P Require Import Prelude Float64 Ids Messages Crypto JsonFile.
Open Scope Z_scope.

(** A set of byte strings in the order of a [BTreeSet]. *)
Definition bytes_le (a b : bytes) : Prop := str_leb a b = true.
#[export] Instance bytes_le_dec : RelDecision bytes_le.
Proof. intros a b. unfold bytes_le. apply _. Defined.
Definition in_byte_order (ks : gset bytes) : list bytes := merge_sort bytes_le (elements ks).

Lemma elem_of_in_byte_order ks k : k ∈ in_byte_order ks <-> k ∈ ks.
Proof. unfold in_byte_order. by rewrite merge_sort_Permutation, elem_of_elements. Qed.

(** ** Sound levels: [f32] is the Standard Library's binary32 *)

Abbreviation f32 := spec_float (only parsing).
Definition f32_of_Z (z : Z) : f32 := binary_normalize 24 128 z 0 false.
Definition f32_clamp (x low high : f32) : f32 :=
  let x := if SFltb x low then low else x in if SFltb high x then high else x.

(* @src/crates/throcc-client-core/src/state.rs 154-159 Sound *)
Inductive Sound := Voice | Share.
(* @src/crates/throcc-client-core/src/state.rs 162-162 Sound::ALL *)
Definition all_sounds : list Sound := [Voice; Share].

(* @src/crates/throcc-client-core/src/state.rs 191-197 SoundLevel *)
Record SoundLevel := mkLevel { sl_volume : f32; sl_muted : bool }.
(* @src/crates/throcc-client-core/src/state.rs 165-170 Playback *)
Record Playback := mkPlayback { pb_voice : SoundLevel; pb_share : SoundLevel }.

#[export] Instance sound_eq_dec : EqDecision Sound.
Proof. solve_decision. Defined.
#[export] Instance level_eq_dec : EqDecision SoundLevel.
Proof. solve_decision. Defined.
#[export] Instance playback_eq_dec : EqDecision Playback.
Proof. solve_decision. Defined.

(* @src/crates/throcc-client-core/src/state.rs 188-189 MAX_VOLUME *)
Definition MAX_VOLUME : f32 := f32_of_Z 4.
(* @src/crates/throcc-client-core/src/state.rs 200-205 SoundLevel::default *)
Definition level_default : SoundLevel := mkLevel (f32_of_Z 1) false.
Definition playback_default : Playback := mkPlayback level_default level_default.
(* @src/crates/throcc-client-core/src/state.rs 209-212 SoundLevel::gain *)
Definition gain (l : SoundLevel) : f32 := if sl_muted l then f32_of_Z 0 else sl_volume l.
(* @src/crates/throcc-client-core/src/state.rs 173-178 Playback::get *)
Definition playback_get (p : Playback) (s : Sound) : SoundLevel := match s with Voice => pb_voice p | Share => pb_share p end.
(* @src/crates/throcc-client-core/src/state.rs 180-185 Playback::get_mut *)
Definition playback_set (p : Playback) (s : Sound) (l : SoundLevel) : Playback :=
  match s with Voice => mkPlayback l (pb_share p) | Share => mkPlayback (pb_voice p) l end.

(** The derived [==]: that of [f32] on volumes. *)
Definition level_eqb (a b : SoundLevel) : bool := SFeqb (sl_volume a) (sl_volume b) && Bool.eqb (sl_muted a) (sl_muted b).
Definition playback_eqb (a b : Playback) : bool := level_eqb (pb_voice a) (pb_voice b) && level_eqb (pb_share a) (pb_share b).

(** ** The records *)

(* @src/crates/throcc-client-core/src/verified.rs 54-58 SeenAs *)
Record SeenAs := mkSeenAs { sa_server : bytes; sa_user : UserId }.
#[export] Instance seen_as_eq_dec : EqDecision SeenAs.
Proof. solve_decision. Defined.
#[export] Program Instance seen_as_countable : Countable SeenAs :=
  inj_countable' (fun s => (sa_server s, sa_user s)) (fun '(s, u) => mkSeenAs s u) _.
Next Obligation. by intros []. Qed.

(* @src/crates/throcc-client-core/src/verified.rs 46-52 VerifiedEntry *)
Record VerifiedEntry := mkEntry { ve_name : str; ve_seen : gset SeenAs }.
(* @src/crates/throcc-client-core/src/verified.rs 60-66 KeyChange *)
Record KeyChange := mkChange { kc_at : SeenAs; kc_now : PublicKey }.
(* @src/crates/throcc-client-core/src/verified.rs 36-44 VerifiedRecords *)
Record VerifiedRecords := mkRecords { vr_verified : gmap bytes VerifiedEntry; vr_changed : list KeyChange }.
Definition records_default : VerifiedRecords := mkRecords ∅ [].

(* @src/crates/throcc-client-core/src/people.rs 14-21 People *)
Record People := mkPeople { pp_verified : VerifiedRecords; pp_playback : gmap bytes Playback }.
Definition people_default : People := mkPeople records_default ∅.
Definition on_verified (f : VerifiedRecords -> VerifiedRecords) (p : People) : People := mkPeople (f (pp_verified p)) (pp_playback p).
Definition on_playback (f : gmap bytes Playback -> gmap bytes Playback) (p : People) : People := mkPeople (pp_verified p) (f (pp_playback p)).

(** ** Saved playback *)

(* @src/crates/throcc-client-core/src/playback.rs 12-19 SavedPlayback *)
Record SavedPlayback := mkSaved { sp_people : gmap bytes Playback; sp_unsaved : gset bytes }.
(* @src/crates/throcc-client-core/src/playback.rs 22-28 SavedPlayback::empty *)
Definition saved_empty : SavedPlayback := mkSaved ∅ ∅.

Definition clamped (p : Playback) : Playback :=
  foldl (fun p s => let l := playback_get p s in playback_set p s (mkLevel (f32_clamp (sl_volume l) (f32_of_Z 0) MAX_VOLUME) (sl_muted l))) p all_sounds.
(* @src/crates/throcc-client-core/src/playback.rs 30-44 SavedPlayback::load *)
Definition saved_load (file : option People) : option SavedPlayback :=
  (fun people => mkSaved (clamped <$> pp_playback people) ∅) <$> file.
(* @src/crates/throcc-client-core/src/playback.rs 46-48 SavedPlayback::person *)
Definition saved_person (key : PublicKey) (s : SavedPlayback) : Playback := default playback_default (sp_people s !! key).
(* @src/crates/throcc-client-core/src/playback.rs 50-59 SavedPlayback::set *)
Definition saved_set (key : PublicKey) (sound : Sound) (level : SoundLevel) (s : SavedPlayback) : SavedPlayback :=
  let person := playback_set (saved_person key s) sound level in
  mkSaved (if playback_eqb person playback_default then delete key (sp_people s) else <[key := person]> (sp_people s)) ({[key]} ∪ sp_unsaved s).

Definition write_unsaved (s : SavedPlayback) (kept : gmap bytes Playback) : gmap bytes Playback :=
  foldl (fun kept key => match sp_people s !! key with Some person => <[key := person]> kept | None => delete key kept end) kept (elements (sp_unsaved s)).
(* @src/crates/throcc-client-core/src/playback.rs 61-77 SavedPlayback::save *)
Definition saved_save (written : bool) (s : SavedPlayback) (file : option People) : bool * SavedPlayback * option People :=
  if decide (sp_unsaved s = ∅) then (true, s, file) else
  let '(ok, file) := cell_update written (on_playback (write_unsaved s)) file in
  (ok, if ok then mkSaved (sp_people s) ∅ else s, file).

Lemma lookup_write_unsaved s kept key :
  write_unsaved s kept !! key = if decide (key ∈ sp_unsaved s) then sp_people s !! key else kept !! key.
Proof.
  unfold write_unsaved. rewrite (decide_ext _ (key ∈ elements (sp_unsaved s))) by (by rewrite elem_of_elements).
  generalize (elements (sp_unsaved s)). intros l. revert kept. induction l as [|k l IH]; intros kept; cbn [foldl].
  - by rewrite decide_False by apply not_elem_of_nil.
  - rewrite IH. destruct (decide (key ∈ l)) as [H|H]; [by rewrite decide_True by (by right)|].
    destruct (decide (key = k)) as [->|Hne].
    + rewrite decide_True by left. destruct (sp_people s !! k) eqn:E; by rewrite ?lookup_insert_eq, ?lookup_delete_eq.
    + rewrite decide_False by (by intros [?|?]%elem_of_cons). destruct (sp_people s !! k); by rewrite ?lookup_insert_ne, ?lookup_delete_ne.
Qed.
