(* ===== verification/Verified.v ===== *)
(** * Verified identity keys (throcc-client-core, verified.rs)

    The keys the user verified, where each was seen, and the changes noted against them.
    Every process of an install holds a copy and changes the file it shares with the others:
    the file is a cell of [People], [written] tells whether it can be written. *)
From S2P Require Import Prelude Ids Messages Crypto JsonFile People.
Open Scope Z_scope.

(* @src/crates/throcc-client-core/src/verified.rs 16-19 MAX_SEEN *)
Definition MAX_SEEN : nat := 256.

(** ** The records *)

(* @src/crates/throcc-client-core/src/verified.rs 79-86 VerifiedRecords::forget_seen *)
Definition forget_seen (seen : SeenAs) (except : option PublicKey) (r : VerifiedRecords) : VerifiedRecords :=
  mkRecords (map_imap (fun key e => Some (if decide (Some key = except) then e else mkEntry (ve_name e) (ve_seen e ∖ {[seen]}))) (vr_verified r))
    (vr_changed r).

(* @src/crates/throcc-client-core/src/verified.rs 69-77 VerifiedRecords::see *)
Definition see (key : PublicKey) (seen : SeenAs) (r : VerifiedRecords) : VerifiedRecords :=
  let r := forget_seen seen (Some key) r in
  match vr_verified r !! key with
  | Some e =>
      if (size (ve_seen e) <? MAX_SEEN)%nat
      then mkRecords (<[key := mkEntry (ve_name e) ({[seen]} ∪ ve_seen e)]> (vr_verified r)) (vr_changed r)
      else r
  | None => r
  end.

(* @src/crates/throcc-client-core/src/verified.rs 88-90 VerifiedRecords::changed_at *)
Definition records_changed_at (at_ : SeenAs) (r : VerifiedRecords) : option PublicKey :=
  kc_now <$> List.find (fun c => bool_decide (kc_at c = at_)) (vr_changed r).

Definition retain_changed (keep : KeyChange -> Prop) `{forall c, Decision (keep c)} (r : VerifiedRecords) : VerifiedRecords :=
  mkRecords (vr_verified r) (filter keep (vr_changed r)).
(* @src/crates/throcc-client-core/src/verified.rs 92-94 VerifiedRecords::forget_change *)
Definition forget_change (at_ : SeenAs) (r : VerifiedRecords) : VerifiedRecords := retain_changed (fun c => kc_at c <> at_) r.

(** ** The keys as one process holds them *)

(** [vk_kept] tells whether [dir] names a directory. *)
(* @src/crates/throcc-client-core/src/verified.rs 21-34 VerifiedKeys *)
Record VerifiedKeys := mkVerified { vk_kept : bool; vk_records : VerifiedRecords; vk_shown_since : gmap SeenAs PublicKey }.

(* @src/crates/throcc-client-core/src/verified.rs 108-114 VerifiedKeys::new *)
Definition verified_new (kept : bool) (records : VerifiedRecords) : VerifiedKeys := mkVerified kept records ∅.
(* @src/crates/throcc-client-core/src/verified.rs 98-102 VerifiedKeys::empty *)
Definition verified_empty : VerifiedKeys := verified_new true records_default.
(* @src/crates/throcc-client-core/src/verified.rs 104-106 VerifiedKeys::load *)
Definition verified_load (file : option People) : option VerifiedKeys := (fun people => verified_new true (pp_verified people)) <$> file.

(* @src/crates/throcc-client-core/src/verified.rs 116-118 VerifiedKeys::is_verified *)
Definition is_verified (key : PublicKey) (v : VerifiedKeys) : bool := bool_decide (is_Some (vr_verified (vk_records v) !! key)).

(** The first verified key, in the order of the keys, with the pair among those it was seen as. *)
Definition seen_under (at_ : SeenAs) (r : VerifiedRecords) : option PublicKey :=
  List.find (fun key => match vr_verified r !! key with Some e => bool_decide (at_ ∈ ve_seen e) | None => false end) (in_byte_order (dom (vr_verified r))).
(* @src/crates/throcc-client-core/src/verified.rs 120-128 VerifiedKeys::verified_at *)
Definition verified_at (server : bytes) (user : UserId) (v : VerifiedKeys) : option PublicKey := seen_under (mkSeenAs server user) (vk_records v).

(* @src/crates/throcc-client-core/src/verified.rs 130-137 VerifiedKeys::changed_at *)
Definition changed_at (server : bytes) (user : UserId) (v : VerifiedKeys) : option PublicKey :=
  let at_ := mkSeenAs server user in
  written ← records_changed_at at_ (vk_records v); Some (default written (vk_shown_since v !! at_)).

(** The keys shown since, written with the next change. *)
(* @src/crates/throcc-client-core/src/verified.rs 236-242! VerifiedKeys::change *)
Definition catch_up (shown_since : gmap SeenAs PublicKey) (r : VerifiedRecords) : VerifiedRecords :=
  mkRecords (vr_verified r) ((fun c => match shown_since !! kc_at c with Some key => mkChange (kc_at c) key | None => c end) <$> vr_changed r).

(* @src/crates/throcc-client-core/src/verified.rs 233-258 VerifiedKeys::change *)
Definition verified_change (written : bool) (change : VerifiedRecords -> VerifiedRecords) (v : VerifiedKeys) (file : option People)
  : bool * VerifiedKeys * option People :=
  let apply r := change (catch_up (vk_shown_since v) r) in
  if vk_kept v then
    let '(ok, file) := cell_update written (on_verified apply) file in
    if ok then (true, verified_new (vk_kept v) (default records_default (pp_verified <$> file)), file) else (false, v, file)
  else (true, verified_new (vk_kept v) (apply (vk_records v)), file).

(* @src/crates/throcc-client-core/src/verified.rs 139-165 VerifiedKeys::presented *)
Definition verified_presented (written : bool) (server : bytes) (user : UserId) (key : PublicKey) (v : VerifiedKeys) (file : option People)
  : bool * VerifiedKeys * option People :=
  let at_ := mkSeenAs server user in
  let expected := verified_at server user v in
  if is_verified key v then
    if decide (expected = Some key) then (true, v, file)
    else verified_change written (fun r => forget_change at_ (see key at_ r)) v file
  else match expected with
  | None => (true, v, file)
  | Some _ =>
      match records_changed_at at_ (vk_records v) with
      | Some _ => (true, mkVerified (vk_kept v) (vk_records v) (<[at_ := key]> (vk_shown_since v)), file)
      | None => verified_change written (fun r => let r := forget_change at_ r in mkRecords (vr_verified r) (vr_changed r ++ [mkChange at_ key])) v file
      end
  end.

(** The entry of a key, made if there is none, under the name given. *)
Definition name_entry (key : PublicKey) (name : str) (r : VerifiedRecords) : VerifiedRecords :=
  mkRecords (<[key := mkEntry name (default ∅ (ve_seen <$> vr_verified r !! key))]> (vr_verified r)) (vr_changed r).
(* @src/crates/throcc-client-core/src/verified.rs 167-182 VerifiedKeys::verify *)
Definition verified_verify (written : bool) (server : bytes) (user : UserId) (key : PublicKey) (name : str) (v : VerifiedKeys) (file : option People)
  : bool * VerifiedKeys * option People :=
  let at_ := mkSeenAs server user in
  verified_change written (fun r => retain_changed (fun c => kc_now c <> key) (forget_change at_ (see key at_ (name_entry key name r)))) v file.

Definition drop_verified (key : PublicKey) (r : VerifiedRecords) : VerifiedRecords :=
  match vr_verified r !! key with
  | Some e => retain_changed (fun c => kc_at c ∉ ve_seen e) (mkRecords (delete key (vr_verified r)) (vr_changed r))
  | None => r
  end.
(* @src/crates/throcc-client-core/src/verified.rs 184-191 VerifiedKeys::unverify *)
Definition verified_unverify (written : bool) (key : PublicKey) (v : VerifiedKeys) (file : option People) : bool * VerifiedKeys * option People :=
  verified_change written (drop_verified key) v file.

(* @src/crates/throcc-client-core/src/verified.rs 193-211 VerifiedKeys::dismiss_change *)
Definition verified_dismiss (written : bool) (server : bytes) (user : UserId) (presented : option PublicKey) (v : VerifiedKeys) (file : option People)
  : bool * VerifiedKeys * option People :=
  let at_ := mkSeenAs server user in
  let watched := key ← presented; if is_verified key v then Some key else None in
  let v := mkVerified (vk_kept v) (vk_records v) (delete at_ (vk_shown_since v)) in
  verified_change written (fun r =>
    let r := forget_change at_ (forget_seen at_ None r) in
    match watched with Some key => see key at_ r | None => r end) v file.

(* @src/crates/throcc-client-core/src/state.rs 234-242 VerifiedIdentity *)
Record VerifiedIdentity := mkIdentity { vi_key : bytes; vi_name : str; vi_servers : list bytes }.
(* @src/crates/throcc-client-core/src/verified.rs 213-231 VerifiedKeys::list *)
Definition verified_list (v : VerifiedKeys) : list VerifiedIdentity :=
  omap (fun key => (fun e => mkIdentity key (ve_name e) (in_byte_order (set_map sa_server (ve_seen e)))) <$> vr_verified (vk_records v) !! key)
    (in_byte_order (dom (vr_verified (vk_records v)))).

(* @src/crates/throcc-client-core/src/verified.rs 275-278 VerifiedStore::in_memory *)
Definition store_in_memory : VerifiedKeys := verified_new false records_default.
(* @src/crates/throcc-client-core/src/verified.rs 280-297 VerifiedStore::reload *)
Definition store_reload (v : VerifiedKeys) (file : option People) : bool * VerifiedKeys :=
  if negb (vk_kept v) then (true, v) else
  match verified_load file with Some loaded => (true, loaded) | None => (false, verified_empty) end.
