(* ===== verification/Trust.v ===== *)
(** * Who is verified on one server (throcc-client-core, trust.rs)

    A session's view of the keys of [Verified]: only a key presented this session counts.
    The sessions of a process share one store, which an operation takes and gives back. *)
From S2P Require Import Prelude Ids Messages JsonFile People Verified.
Open Scope Z_scope.

(* @src/crates/throcc-client-core/src/trust.rs 13-22 Trust *)
Record Trust := mkTrust { tr_server : bytes; tr_presented : gmap Z PublicKey }.

(* @src/crates/throcc-client-core/src/trust.rs 25-31 Trust::new *)
Definition trust_new (server : bytes) : Trust := mkTrust server ∅.
(* @src/crates/throcc-client-core/src/trust.rs 33-36 Trust::forget_presented *)
Definition forget_presented (t : Trust) : Trust := mkTrust (tr_server t) ∅.

(** One turn of the loop over the new keys; [written] tells whether the file can be written
    as it is the key's turn. *)
(* @src/crates/throcc-client-core/src/trust.rs 58-63! Trust::note *)
Definition note_one (written : UserId -> PublicKey -> bool) (w : Trust * VerifiedKeys * option People) (peer : UserId * PublicKey)
  : Trust * VerifiedKeys * option People :=
  let '(t, v, file) := w in
  let '(user, key) := peer in
  let '(_, v, file) := verified_presented (written user key) (tr_server t) user key v file in
  (mkTrust (tr_server t) (<[user := key]> (tr_presented t)), v, file).

(* @src/crates/throcc-client-core/src/trust.rs 38-64 Trust::note *)
Definition trust_note (written : UserId -> PublicKey -> bool) (peers : list (UserId * PublicKey)) (t : Trust) (v : VerifiedKeys) (file : option People)
  : bool * (Trust * VerifiedKeys * option People) :=
  let new := filter (fun p => tr_presented t !! p.1 <> Some p.2) peers in
  match new with
  | [] => (false, (t, v, file))
  | _ =>
      let t := if MAX_SIGNED_IN <? Z.of_nat (size (tr_presented t)) + Z.of_nat (length new)
        then mkTrust (tr_server t) (filter (fun p => p.1 ∈ peers.*1 \/ is_Some (changed_at (tr_server t) p.1 v)) (tr_presented t))
        else t in
      (true, foldl (note_one written) (t, v, file) new)
  end.

(* @src/crates/throcc-client-core/src/trust.rs 66-72 Trust::of *)
Definition trust_of (user : UserId) (t : Trust) (v : VerifiedKeys) : bool * option PublicKey :=
  match tr_presented t !! user with Some key => (is_verified key v, Some key) | None => (false, None) end.

(* @src/crates/throcc-client-core/src/state.rs 223-232 KeyWarning *)
Record KeyWarning := mkWarning { kw_user : UserId; kw_verified : bytes; kw_now : bytes }.
(* @src/crates/throcc-client-core/src/trust.rs 74-84 Trust::warning *)
Definition trust_warning (user : UserId) (t : Trust) (v : VerifiedKeys) : option KeyWarning :=
  now ← changed_at (tr_server t) user v; before ← verified_at (tr_server t) user v; Some (mkWarning user before now).

(** [Ok(answer)] or the error of the file. *)
(* @src/crates/throcc-client-core/src/trust.rs 86-105 Trust::set_verified *)
Definition trust_set_verified (written : bool) (user : UserId) (key : PublicKey) (verified : bool) (name : str) (t : Trust) (v : VerifiedKeys) (file : option People)
  : option bool * VerifiedKeys * option People :=
  if decide (tr_presented t !! user = Some key) then
    let '(ok, v, file) := if verified then verified_verify written (tr_server t) user key name v file else verified_unverify written key v file in
    (if ok : bool then Some true else None, v, file)
  else (Some false, v, file).

(* @src/crates/throcc-client-core/src/trust.rs 107-120 Trust::dismiss_change *)
Definition trust_dismiss (written : bool) (user : UserId) (shown : option PublicKey) (t : Trust) (v : VerifiedKeys) (file : option People)
  : option bool * VerifiedKeys * option People :=
  let presented := tr_presented t !! user in
  if decide (presented = shown) then
    let '(ok, v, file) := verified_dismiss written (tr_server t) user presented v file in
    (if ok : bool then Some true else None, v, file)
  else (Some false, v, file).
