(* ===== verification/TrustFacts.v ===== *)
(** * What the verified keys guarantee

    The records' invariant and how each change acts on it; then several processes that share
    one file, as a run of steps. *)
From S2P Require Import Prelude Ordered Ids Messages Crypto JsonFile People Verified Trust.
Open Scope Z_scope.

(** ** The records *)

(** [key] is verified and was seen as [at_]. *)
Definition seen_as_key (r : VerifiedRecords) (at_ : SeenAs) (key : PublicKey) : Prop := exists e, vr_verified r !! key = Some e /\ at_ ∈ ve_seen e.

(** A pair was seen under one verified key at most, and has one change at most; a key has no
    more pairs than the limit. *)
Record records_wf (r : VerifiedRecords) : Prop := {
  rw_one : forall at_ k1 k2, seen_as_key r at_ k1 -> seen_as_key r at_ k2 -> k1 = k2;
  rw_changed : NoDup (kc_at <$> vr_changed r);
  rw_few : forall k e, vr_verified r !! k = Some e -> (size (ve_seen e) <= MAX_SEEN)%nat
}.

Lemma seen_under_spec r at_ key : records_wf r -> seen_under at_ r = Some key <-> seen_as_key r at_ key.
Proof.
  intros Hwf. unfold seen_under. split.
  - intros [_ H]%List.find_some. unfold seen_as_key. destruct (vr_verified r !! key) as [e|]; [|done]. apply bool_decide_eq_true in H. eauto.
  - intros Hs. destruct (List.find _ _) as [key'|] eqn:E.
    + apply List.find_some in E as [_ H]. destruct (vr_verified r !! key') as [e|] eqn:Ek; [|done]. apply bool_decide_eq_true in H.
      f_equal. apply (rw_one r Hwf at_); [exists e|]; done.
    + exfalso. destruct Hs as (e & Ek & Hin). assert (In key (in_byte_order (dom (vr_verified r)))) as Hk.
      { apply list_elem_of_In, elem_of_in_byte_order, elem_of_dom. eauto. }
      pose proof (List.find_none _ _ E key Hk) as H. cbn in H. rewrite Ek in H. by apply bool_decide_eq_false in H.
Qed.

Lemma changed_spec r at_ key : records_wf r -> records_changed_at at_ r = Some key <-> mkChange at_ key ∈ vr_changed r.
Proof.
  intros [_ Hnd _]. unfold records_changed_at. revert Hnd. induction (vr_changed r) as [|[a x] l IH]; cbn; intros Hnd.
  - split; [done|]. by intros ?%not_elem_of_nil.
  - apply list.NoDup_cons in Hnd as [Ha Hnd]. rewrite elem_of_cons. case_bool_decide as E; cbn.
    + subst. split; [intros [= ->]; by left|]. intros [[= ->]|H]; [done|]. exfalso. apply Ha. apply list_elem_of_fmap. by exists (mkChange at_ key).
    + rewrite IH by done. split; [by right|]. intros [[= -> ->]|?]; done.
Qed.

Lemma lookup_forget_seen s except r k :
  vr_verified (forget_seen s except r) !! k = (fun e => if decide (Some k = except) then e else mkEntry (ve_name e) (ve_seen e ∖ {[s]})) <$> vr_verified r !! k.
Proof. cbn. rewrite map_lookup_imap. by destruct (vr_verified r !! k). Qed.

Lemma seen_forget s except r at_ k : seen_as_key (forget_seen s except r) at_ k <-> seen_as_key r at_ k /\ (at_ = s -> Some k = except).
Proof.
  unfold seen_as_key. rewrite lookup_forget_seen. destruct (vr_verified r !! k) as [e|]; cbn; [|naive_solver].
  destruct (decide (Some k = except)); split.
  - intros (e' & [= <-] & ?). eauto.
  - intros [(e' & [= <-] & ?) _]. eauto.
  - intros (e' & [= <-] & [??]%elem_of_difference). split; [eauto|]. set_solver.
  - intros [(e' & [= <-] & ?) Hn]. eexists. split; [done|]. cbn. set_solver.
Qed.

Lemma see_fields key s r : dom (vr_verified (see key s r)) = dom (vr_verified r) /\ vr_changed (see key s r) = vr_changed r.
Proof.
  assert (dom (vr_verified (forget_seen s (Some key) r)) = dom (vr_verified r)) as E.
  { apply set_eq. intros k. rewrite !elem_of_dom, lookup_forget_seen. by rewrite fmap_is_Some. }
  unfold see. destruct (vr_verified (forget_seen s (Some key) r) !! key) as [e|] eqn:Ek; [|by rewrite E].
  destruct (_ <? _)%nat; [|by rewrite E]. cbn [vr_verified vr_changed]. split; [|done].
  rewrite <- E. apply set_eq. intros k. rewrite dom_insert_L. assert (key ∈ dom (vr_verified (forget_seen s (Some key) r))) by (apply elem_of_dom; eauto).
  set_solver.
Qed.

Lemma seen_see key s r at_ k : at_ <> s -> seen_as_key (see key s r) at_ k <-> seen_as_key r at_ k.
Proof.
  intros Hne. unfold see. assert (seen_as_key (forget_seen s (Some key) r) at_ k <-> seen_as_key r at_ k) as E by (rewrite seen_forget; tauto).
  destruct (vr_verified (forget_seen s (Some key) r) !! key) as [e|] eqn:Ek; [|done]. destruct (_ <? _)%nat; [|done].
  rewrite <- E. unfold seen_as_key. cbn [vr_verified]. destruct (decide (k = key)) as [->|Hk].
  - rewrite lookup_insert_eq, Ek. split; intros (e' & [= <-] & H); (eexists; split; [done|]); cbn in *; set_solver.
  - by rewrite lookup_insert_ne.
Qed.
Lemma seen_see_same key s r k : seen_as_key (see key s r) s k -> k = key.
Proof.
  unfold see. assert (seen_as_key (forget_seen s (Some key) r) s k -> k = key) as E by (rewrite seen_forget; naive_solver).
  destruct (vr_verified (forget_seen s (Some key) r) !! key) as [e|] eqn:Ek; [|done]. destruct (_ <? _)%nat; [|done].
  destruct (decide (k = key)) as [->|Hk]; [done|]. unfold seen_as_key in *. cbn [vr_verified]. by rewrite lookup_insert_ne.
Qed.

(** What changes no pair of a key keeps the invariant if it keeps the changes apart. *)
Lemma wf_seen_same r r' : records_wf r -> vr_verified r' = vr_verified r -> NoDup (kc_at <$> vr_changed r') -> records_wf r'.
Proof. intros [H1 H2 H3] E Hn. split; [|done|]; unfold seen_as_key; rewrite E; done. Qed.

Lemma wf_retain keep `{forall c, Decision (keep c)} r : records_wf r -> records_wf (retain_changed keep r).
Proof.
  intros Hwf. apply (wf_seen_same r); [done..|]. cbn. pose proof (rw_changed r Hwf) as Hnd.
  eapply sublist_NoDup; [exact Hnd|]. apply fmap_sublist, sublist_filter.
Qed.
Lemma wf_forget_change at_ r : records_wf r -> records_wf (forget_change at_ r).
Proof. apply wf_retain. Qed.
Lemma wf_catch_up since r : records_wf r -> records_wf (catch_up since r).
Proof.
  intros Hwf. apply (wf_seen_same r); [done..|]. pose proof (rw_changed r Hwf) as Hnd. cbn.
  replace (kc_at <$> _) with (kc_at <$> vr_changed r); [done|]. rewrite <- list_fmap_compose. apply list_fmap_ext. intros i c _. cbn.
  by destruct (since !! kc_at c).
Qed.
Lemma wf_forget_seen s except r : records_wf r -> records_wf (forget_seen s except r).
Proof.
  intros [H1 H2 H3]. split; [|done|].
  - intros at_ k1 k2 [? _]%seen_forget [? _]%seen_forget. eauto.
  - intros k e. rewrite lookup_forget_seen. intros (e' & Hk & ->)%fmap_Some. specialize (H3 _ _ Hk). destruct (decide _); [done|]. cbn.
    etransitivity; [|exact H3]. apply subseteq_size. set_solver.
Qed.
Lemma wf_see key s r : records_wf r -> records_wf (see key s r).
Proof.
  intros Hwf. split.
  - intros at_ k1 k2. destruct (decide (at_ = s)) as [->|Hne].
    + intros ->%seen_see_same ->%seen_see_same. done.
    + rewrite !seen_see by done. apply (rw_one r Hwf).
  - rewrite (proj2 (see_fields key s r)). apply Hwf.
  - pose proof (rw_few _ (wf_forget_seen s (Some key) r Hwf)) as H. intros k e. unfold see.
    destruct (vr_verified (forget_seen s (Some key) r) !! key) as [e0|] eqn:Ek; [|apply H].
    destruct (Nat.ltb_spec (size (ve_seen e0)) MAX_SEEN) as [Hlt|]; [|apply H]. cbn [vr_verified].
    intros [[<- <-]|[_ ?]]%lookup_insert_Some; [|by apply (H k)]. cbn [ve_seen].
    rewrite size_union_alt, size_singleton. assert (size (ve_seen e0 ∖ {[s]}) <= size (ve_seen e0))%nat by (apply subseteq_size; set_solver). lia.
Qed.
Lemma wf_name_entry key name r : records_wf r -> records_wf (name_entry key name r).
Proof.
  intros Hwf. assert (forall at_ k, seen_as_key (name_entry key name r) at_ k -> seen_as_key r at_ k) as Hs.
  { intros at_ k (e & He & Hin). cbn [name_entry vr_verified] in He. apply lookup_insert_Some in He as [[<- <-]|[_ ?]]; [|by exists e]. cbn in Hin. destruct (vr_verified r !! key) as [e|] eqn:E; cbn in Hin; [by exists e|set_solver]. }
  split; [|apply Hwf|].
  - intros at_ k1 k2 ?%Hs ?%Hs. by apply (rw_one r Hwf at_).
  - intros k e He. cbn [name_entry vr_verified] in He. apply lookup_insert_Some in He as [[<- <-]|[_ ?]]; [|by apply (rw_few r Hwf k)]. cbn. destruct (vr_verified r !! key) as [e|] eqn:E; cbn; [by apply (rw_few r Hwf key)|].
    rewrite size_empty. lia.
Qed.
Lemma wf_push at_ key r : records_wf r -> records_wf (mkRecords (vr_verified (forget_change at_ r)) (vr_changed (forget_change at_ r) ++ [mkChange at_ key])).
Proof.
  intros Hwf. apply (wf_seen_same r); [done..|]. cbn [vr_changed]. rewrite fmap_app, list.NoDup_app. split; [apply (rw_changed _ (wf_forget_change at_ r Hwf))|].
  split; [|cbn; apply NoDup_singleton]. intros a (c & -> & [Hc _]%list_elem_of_filter)%list_elem_of_fmap. cbn. by intros ?%list_elem_of_singleton.
Qed.
Lemma wf_drop key r : records_wf r -> records_wf (drop_verified key r).
Proof.
  intros Hwf. unfold drop_verified. destruct (vr_verified r !! key) as [e|]; [|done]. apply wf_retain.
  assert (forall k e', delete key (vr_verified r) !! k = Some e' -> vr_verified r !! k = Some e') as Hd by (by intros k e' [_ ?]%lookup_delete_Some).
  split; [|apply Hwf|].
  - intros at_ k1 k2 (e1 & ?%Hd & ?) (e2 & ?%Hd & ?). apply (rw_one r Hwf at_); [exists e1|exists e2]; done.
  - intros k e' ?%Hd. by apply (rw_few r Hwf k).
Qed.
Create HintDb records.
Create Rewrite HintDb records.
#[export] Hint Resolve wf_retain wf_forget_change wf_catch_up wf_forget_seen wf_see wf_name_entry wf_push wf_drop : records.

(** The keys that each change of the records leaves verified. *)
Lemma dom_see key s r : dom (vr_verified (see key s r)) = dom (vr_verified r).
Proof. apply see_fields. Qed.
Lemma dom_forget_seen s except r : dom (vr_verified (forget_seen s except r)) = dom (vr_verified r).
Proof. apply set_eq. intros k. rewrite !elem_of_dom, lookup_forget_seen. by rewrite fmap_is_Some. Qed.
Lemma dom_name_entry key name r : dom (vr_verified (name_entry key name r)) = {[key]} ∪ dom (vr_verified r).
Proof. apply dom_insert_L. Qed.
Lemma dom_drop key r : dom (vr_verified (drop_verified key r)) = dom (vr_verified r) ∖ {[key]}.
Proof.
  unfold drop_verified. destruct (vr_verified r !! key) as [e|] eqn:E; [apply dom_delete_L|].
  apply not_elem_of_dom in E. set_solver.
Qed.
#[export] Hint Rewrite dom_see dom_forget_seen dom_name_entry dom_drop : records.

(** ** Processes that share the file *)

(** The file and whether it can be read, the store of each process, and its sessions. *)
Record World := mkWorld { w_file : People; w_readable : bool; w_stores : gmap nat VerifiedKeys; w_sessions : gmap nat (nat * Trust) }.
Definition w_cell (w : World) : option People := if w_readable w then Some (w_file w) else None.

(** What process [p] or session [i] does.  The keys a note is given are the peers of a room,
    by user.  [TStart] is the start of a process, with a directory or in memory only, and
    [TAccess] makes the file readable or not. *)
Inductive TrustStep :=
| TStart (p : nat) (kept : bool) | TReload (p : nat) | TOpen (i p : nat) (server : bytes) | TForget (i : nat)
| TNote (i : nat) (peers : gmap Z PublicKey) (written : UserId -> PublicKey -> bool)
| TSet (i : nat) (user : UserId) (key : PublicKey) (verified : bool) (name : str) (written : bool)
| TDismiss (i : nat) (user : UserId) (shown : option PublicKey) (written : bool)
| TUnverify (p : nat) (key : PublicKey) (written : bool)
| TAccess (readable : bool).

(** Puts back what an operation of process [p] left of its store and of the file. *)
Definition put_store (p : nat) (v : VerifiedKeys) (file : option People) (w : World) : World :=
  mkWorld (default (w_file w) file) (w_readable w) (<[p := v]> (w_stores w)) (w_sessions w).
Definition put_trust (i p : nat) (t : Trust) (w : World) : World :=
  mkWorld (w_file w) (w_readable w) (w_stores w) (<[i := (p, t)]> (w_sessions w)).

Definition on_session (i : nat) (f : nat -> Trust -> VerifiedKeys -> World) (w : World) : World :=
  match w_sessions w !! i with
  | Some (p, t) => match w_stores w !! p with Some v => f p t v | None => w end
  | None => w
  end.

Definition trust_step (w : World) (s : TrustStep) : World :=
  match s with
  | TStart p kept =>
      let v := if kept then default verified_empty (verified_load (w_cell w)) else store_in_memory in
      mkWorld (w_file w) (w_readable w) (<[p := v]> (w_stores w)) (filter (fun x => x.2.1 <> p) (w_sessions w))
  | TReload p =>
      match w_stores w !! p with Some v => put_store p (store_reload v (w_cell w)).2 (w_cell w) w | None => w end
  | TOpen i p server => put_trust i p (trust_new server) w
  | TForget i => on_session i (fun p t _ => put_trust i p (forget_presented t) w) w
  | TNote i peers written => on_session i (fun p t v =>
      let '(_, (t, v, file)) := trust_note written (in_key_order peers) t v (w_cell w) in put_trust i p t (put_store p v file w)) w
  | TSet i user key verified name written => on_session i (fun p t v =>
      let '(_, v, file) := trust_set_verified written user key verified name t v (w_cell w) in put_store p v file w) w
  | TDismiss i user shown written => on_session i (fun p t v =>
      let '(_, v, file) := trust_dismiss written user shown t v (w_cell w) in put_store p v file w) w
  | TUnverify p key written =>
      match w_stores w !! p with Some v => let '(_, v, file) := verified_unverify written key v (w_cell w) in put_store p v file w | None => w end
  | TAccess readable => mkWorld (w_file w) readable (w_stores w) (w_sessions w)
  end.

Definition trust_run (ss : list TrustStep) (w : World) : World := foldl trust_step w ss.

Lemma trust_run_app ss s w : trust_run (ss ++ [s]) w = trust_step (trust_run ss w) s.
Proof. unfold trust_run. by rewrite foldl_app. Qed.

(** *** What a step may do to records *)

Definition seen_change (at_ : SeenAs) (key : PublicKey) (r : VerifiedRecords) : VerifiedRecords := forget_change at_ (see key at_ r).
Definition push_change (at_ : SeenAs) (key : PublicKey) (r : VerifiedRecords) : VerifiedRecords :=
  mkRecords (vr_verified (forget_change at_ r)) (vr_changed (forget_change at_ r) ++ [mkChange at_ key]).
Definition verify_change (at_ : SeenAs) (key : PublicKey) (name : str) (r : VerifiedRecords) : VerifiedRecords :=
  retain_changed (fun c => kc_now c <> key) (forget_change at_ (see key at_ (name_entry key name r))).
Definition dismiss_change (at_ : SeenAs) (watched : option PublicKey) (r : VerifiedRecords) : VerifiedRecords :=
  let r := forget_change at_ (forget_seen at_ None r) in match watched with Some key => see key at_ r | None => r end.

(** The store and the file after an operation that changes records by [f], or by nothing. *)
Inductive acts (f : VerifiedRecords -> VerifiedRecords) (v : VerifiedKeys) (file : option People) : bool -> VerifiedKeys -> option People -> Prop :=
| acts_not ok v' : vk_kept v' = vk_kept v -> vk_records v' = vk_records v -> acts f v file ok v' file
| acts_file p : vk_kept v = true -> file = Some p ->
    let r := f (catch_up (vk_shown_since v) (pp_verified p)) in acts f v file true (verified_new true r) (Some (on_verified (fun _ => r) p))
| acts_memory : vk_kept v = false -> acts f v file true (verified_new false (f (catch_up (vk_shown_since v) (vk_records v)))) file.

Lemma change_acts written f v file : let '(ok, v', file') := verified_change written f v file in
  acts f v file ok v' file' /\ (vk_kept v = true -> ok = written && bool_decide (is_Some file) /\ (ok = false -> v' = v /\ file' = file)).
Proof.
  unfold verified_change, cell_update. destruct (vk_kept v) eqn:Ek.
  - destruct file as [p|], written; cbn; (split; [|intros _; split; done]).
    + by apply (acts_file f v _ p).
    + by apply acts_not.
    + by apply acts_not.
    + by apply acts_not.
  - split; [by apply acts_memory|done].
Qed.

Lemma presented_acts written server user key v file : let '(ok, v', file') := verified_presented written server user key v file in
  exists f, (f = seen_change (mkSeenAs server user) key \/ f = push_change (mkSeenAs server user) key) /\ acts f v file ok v' file'.
Proof.
  unfold verified_presented. assert (forall ok v', vk_kept v' = vk_kept v -> vk_records v' = vk_records v ->
    exists f, (f = seen_change (mkSeenAs server user) key \/ f = push_change (mkSeenAs server user) key) /\ acts f v file ok v' file) as Hn
    by (intros ok v' H1 H2; eexists; split; [by left|by apply acts_not]).
  destruct (is_verified key v); [destruct (decide _); [by apply Hn|]|destruct (verified_at server user v); [|by apply Hn]].
  - pose proof (change_acts written (seen_change (mkSeenAs server user) key) v file) as H. unfold seen_change in H at 1.
    destruct (verified_change _ _ _ _) as [[ok v'] file']. eexists. split; [by left|apply H].
  - destruct (records_changed_at _ _); [by apply Hn|].
    pose proof (change_acts written (push_change (mkSeenAs server user) key) v file) as H. unfold push_change in H at 1.
    destruct (verified_change _ _ _ _) as [[ok v'] file']. eexists. split; [by right|apply H].
Qed.

(** What holds of every copy of the records, and of the file. *)
Definition both (P : VerifiedRecords -> Prop) (v : VerifiedKeys) (file : option People) : Prop :=
  P (vk_records v) /\ forall p, file = Some p -> P (pp_verified p).

Lemma acts_both P f v file ok v' file' : (forall since r, P r -> P (catch_up since r)) -> (forall r, P r -> P (f r)) ->
  acts f v file ok v' file' -> both P v file -> both P v' file' /\ vk_kept v' = vk_kept v /\ (is_Some file' <-> is_Some file).
Proof.
  intros Hc Hf Ha [Hv Hp]. destruct Ha as [ok v' Ek Er|p Ek Ef r|Ek]; (split; [split|split]); try done.
  - by rewrite Er.
  - apply Hf, Hc. by apply Hp.
  - intros p' [= <-]. apply Hf, Hc. by apply Hp.
  - cbn. by apply Hf, Hc.
Qed.

Lemma note_both P written l : (forall since r, P r -> P (catch_up since r)) ->
  forall t v file, (forall user key, (user, key) ∈ l -> forall r, P r -> P (seen_change (mkSeenAs (tr_server t) user) key r) /\ P (push_change (mkSeenAs (tr_server t) user) key r)) ->
  both P v file ->
  let '(t', v', file') := foldl (note_one written) (t, v, file) l in both P v' file' /\ vk_kept v' = vk_kept v /\ (is_Some file' <-> is_Some file).
Proof.
  intros Hc. induction l as [|[user key] l IH]; intros t v file Hf Hb; [done|]. cbn [foldl note_one].
  pose proof (presented_acts (written user key) (tr_server t) user key v file) as Ha. destruct (verified_presented _ _ _ _ _ _) as [[ok v'] file'].
  destruct Ha as (f & Hf' & Ha). destruct (acts_both P f v file ok v' file' Hc) as (Hb' & Ek & Es); [|done|done|].
  { intros r Hr. destruct (Hf user key ltac:(left) r Hr). by destruct Hf' as [-> | ->]. }
  specialize (IH (mkTrust (tr_server t) (<[user:=key]> (tr_presented t))) v' file').
  specialize (IH ltac:(intros; apply Hf; [by right|done]) Hb'). destruct (foldl _ _ l) as [[t2 v2] file2]. destruct IH as (? & ? & ?). split; [done|]. split; [congruence|]. by etransitivity.
Qed.

(** *** What a note leaves presented *)

Lemma notes_presented written l t v file : NoDup l.*1 -> let '(t', _, _) := foldl (note_one written) (t, v, file) l in
  tr_server t' = tr_server t /\ forall user, tr_presented t' !! user = match (list_to_map l : gmap Z PublicKey) !! user with Some k => Some k | None => tr_presented t !! user end.
Proof.
  revert t v file. induction l as [|[u k] l IH]; intros t v file Hnd; [done|]. cbn [fmap list_fmap] in Hnd. apply list.NoDup_cons in Hnd as [Hu Hnd]. cbn [foldl note_one].
  destruct (verified_presented _ _ _ _ _ _) as [[ok v'] file']. specialize (IH (mkTrust (tr_server t) (<[u:=k]> (tr_presented t))) v' file' Hnd).
  destruct (foldl _ _ l) as [[t2 v2] file2]. destruct IH as [Es Ep]. split; [done|]. intros user. rewrite Ep. cbn. rewrite !lookup_insert.
  cbn [fst] in Hu. apply not_elem_of_list_to_map_1 in Hu. case_decide as E; [subst; cbn in Hu; by rewrite Hu|done].
Qed.

Lemma note_presents written (peers : gmap Z PublicKey) t v file : let '(_, (t', _, _)) := trust_note written (in_key_order peers) t v file in
  tr_server t' = tr_server t /\ forall user key, tr_presented t' !! user = Some key ->
    peers !! user = Some key \/ tr_presented t !! user = Some key /\ peers !! user = None.
Proof.
  unfold trust_note. set (new := filter _ (in_key_order peers)).
  assert (forall user k, (list_to_map new : gmap Z PublicKey) !! user = Some k -> peers !! user = Some k) as Hin.
  { intros user k H%elem_of_list_to_map_2. apply list_elem_of_filter in H as [_ H]. by apply elem_of_in_key_order. }
  assert (NoDup new.*1) as Hnd.
  { pose proof (in_key_order_keys peers) as H. eapply sublist_NoDup; [exact H|]. apply fmap_sublist, sublist_filter. }
  assert (forall user k key, peers !! user = Some k -> tr_presented t !! user = Some key -> k = key \/ (list_to_map new : gmap Z PublicKey) !! user = Some k) as Hnew.
  { intros user k key Hk Ht. destruct (decide (k = key)) as [->|Hne]; [by left|right]. apply elem_of_list_to_map_1; [done|].
    apply list_elem_of_filter. split; [cbn; congruence|]. by apply elem_of_in_key_order. }
  assert (forall t0 v0 file0, tr_server t0 = tr_server t -> (forall user key, tr_presented t0 !! user = Some key -> tr_presented t !! user = Some key) ->
    let '(t', _, _) := foldl (note_one written) (t0, v0, file0) new in tr_server t' = tr_server t /\
    forall user key, tr_presented t' !! user = Some key -> peers !! user = Some key \/ tr_presented t !! user = Some key /\ peers !! user = None) as Hgo.
  { intros t0 v0 file0 Es Ht0. pose proof (notes_presented written new t0 v0 file0 Hnd) as H. destruct (foldl _ _ new) as [[t' v'] file'].
    destruct H as [Es' Ep]. split; [congruence|]. intros user key H. rewrite Ep in H.
    destruct (_ !! user) as [k|] eqn:El; [injection H as ->; left; by apply Hin|]. apply Ht0 in H.
    destruct (peers !! user) as [k|] eqn:Ek; [|by right]. destruct (Hnew _ _ _ Ek H) as [->|?]; [by left|congruence]. }
  destruct new as [|n new'] eqn:En; [specialize (Hgo t v file eq_refl ltac:(done)); cbn in Hgo; exact Hgo|].
  rewrite <- En in *. destruct (_ <? _).
  - specialize (Hgo (mkTrust (tr_server t) (filter (fun p => p.1 ∈ (in_key_order peers).*1 \/ is_Some (changed_at (tr_server t) p.1 v)) (tr_presented t))) v file eq_refl).
    apply Hgo. by intros user key [? _]%map_lookup_filter_Some.
  - by apply Hgo.
Qed.

(** ** A changed key stays warned of

    One process, its store in step with the file: what each operation does to one pair of a
    server and a user that shows another key than the verified one. *)

Section At.
Context (at_ : SeenAs) (K : PublicKey).

(** Closures that keep the pair's key and its change. *)
Definition keeps_pair (f : VerifiedRecords -> VerifiedRecords) (r : VerifiedRecords) : Prop :=
  records_wf (f r) /\ (seen_as_key r at_ K -> seen_as_key (f r) at_ K) /\ records_changed_at at_ (f r) = records_changed_at at_ r.

Lemma changed_same r r' : records_wf r -> records_wf r' ->
  (forall key, mkChange at_ key ∈ vr_changed r' <-> mkChange at_ key ∈ vr_changed r) -> records_changed_at at_ r' = records_changed_at at_ r.
Proof. intros H H' E. apply option_eq. intros key. by rewrite !changed_spec. Qed.

Lemma seen_change_keeps at' key r : records_wf r -> at' <> at_ -> keeps_pair (seen_change at' key) r.
Proof.
  intros Hwf Hne. assert (records_wf (seen_change at' key r)) as Hwf' by (unfold seen_change; auto with records). split; [done|]. split.
  - intros Hs. change (seen_as_key (see key at' r) at_ K). by apply seen_see.
  - apply changed_same; [done..|]. intros x. unfold seen_change, forget_change, retain_changed. cbn [vr_changed].
    rewrite list_elem_of_filter, (proj2 (see_fields key at' r)). cbn. naive_solver.
Qed.
Lemma push_change_keeps at' key r : records_wf r -> at' <> at_ -> keeps_pair (push_change at' key) r.
Proof.
  intros Hwf Hne. assert (records_wf (push_change at' key r)) as Hwf' by (unfold push_change; auto with records). split; [done|]. split; [done|].
  apply changed_same; [done..|]. intros x. cbn. rewrite elem_of_app, list_elem_of_filter, list_elem_of_singleton. cbn. naive_solver.
Qed.
Lemma verify_change_keeps at' key name r : records_wf r -> at' <> at_ -> records_changed_at at_ r <> Some key -> keeps_pair (verify_change at' key name) r.
Proof.
  intros Hwf Hne Hk. assert (records_wf (verify_change at' key name r)) as Hwf' by (unfold verify_change; auto with records). split; [done|]. split.
  - intros (e & Ee & Hin). change (seen_as_key (see key at' (name_entry key name r)) at_ K). apply seen_see; [done|].
    destruct (decide (K = key)) as [->|HK]; [eexists; split; [apply lookup_insert_eq|]; by rewrite Ee|]. exists e. split; [|done]. cbn. by rewrite lookup_insert_ne.
  - apply changed_same; [done..|]. intros x. unfold verify_change, forget_change, retain_changed. cbn [vr_changed].
    rewrite !list_elem_of_filter, (proj2 (see_fields _ _ _)). cbn. split; [tauto|]. intros H. split_and!; [|done..]. intros ->. by apply Hk, changed_spec.
Qed.
Lemma drop_keeps key r : records_wf r -> key <> K -> seen_as_key r at_ K -> keeps_pair (drop_verified key) r.
Proof.
  intros Hwf Hk Hs. assert (records_wf (drop_verified key r)) as Hwf' by auto with records. split; [done|]. revert Hwf'. unfold drop_verified.
  destruct (vr_verified r !! key) as [e|] eqn:E; [|done]. intros Hwf'. split.
  - intros (e' & Ee & Hin). exists e'. split; [|done]. cbn. by rewrite lookup_delete_ne.
  - apply changed_same; [done..|]. intros x. cbn. rewrite list_elem_of_filter. cbn. split; [tauto|]. intros H. split; [|done].
    intros Hin. apply Hk. apply (rw_one r Hwf at_); [exists e|]; done.
Qed.
Lemma dismiss_keeps at' watched r : records_wf r -> at' <> at_ -> keeps_pair (dismiss_change at' watched) r.
Proof.
  intros Hwf Hne. set (r1 := forget_change at' (forget_seen at' None r)). assert (records_wf r1) as Hwf1 by (unfold r1; auto with records).
  assert (keeps_pair (fun _ => r1) r) as (_ & H1 & H2).
  { split; [done|]. split.
    - intros Hs. change (seen_as_key (forget_seen at' None r) at_ K). apply seen_forget. split; [done|congruence].
    - apply changed_same; [done..|]. intros x. cbn. rewrite list_elem_of_filter. cbn. naive_solver. }
  unfold dismiss_change. fold r1. destruct watched as [key|]; [|done]. unfold keeps_pair. split; [auto with records|]. split.
  - intros Hs. apply seen_see; [done|auto].
  - rewrite <- H2. apply changed_same; [done|auto with records|]. intros x. by rewrite (proj2 (see_fields _ _ _)).
Qed.

(** The store is in step with the file, the pair was seen under [K], and shows [now] since. *)
Record standing (now : option PublicKey) (v : VerifiedKeys) (file : option People) : Prop := {
  st_kept : vk_kept v = true;
  st_same : forall p, file = Some p -> pp_verified p = vk_records v;
  st_wf : records_wf (vk_records v);
  st_seen : seen_as_key (vk_records v) at_ K;
  st_now : changed_at (sa_server at_) (sa_user at_) v = now
}.

Lemma at_eta : mkSeenAs (sa_server at_) (sa_user at_) = at_.
Proof. by destruct at_. Qed.

Lemma caught_up v now : records_wf (vk_records v) -> changed_at (sa_server at_) (sa_user at_) v = now ->
  records_changed_at at_ (catch_up (vk_shown_since v) (vk_records v)) = now.
Proof.
  intros Hwf <-. unfold changed_at. rewrite at_eta. apply option_eq. intros key. rewrite changed_spec by auto with records. cbn.
  rewrite list_elem_of_fmap. split.
  - intros (c & Ec & Hc). assert (kc_at c = at_) as Ea by (destruct (vk_shown_since v !! kc_at c); [by injection Ec|by subst c]).
    assert (records_changed_at at_ (vk_records v) = Some (kc_now c)) as Er by (apply changed_spec; [done|]; subst; by destruct c).
    rewrite Er. cbn. rewrite Ea in Ec. destruct (vk_shown_since v !! at_); [by injection Ec as ->|]. by subst c.
  - destruct (records_changed_at at_ (vk_records v)) as [x|] eqn:Er; [|done]. cbn. intros [= <-]. apply changed_spec in Er; [|done].
    exists (mkChange at_ x). split; [|done]. cbn. by destruct (vk_shown_since v !! at_).
Qed.

Lemma change_standing now written f v file : standing now v file ->
  (forall r, records_wf r -> seen_as_key r at_ K -> records_changed_at at_ r = now -> keeps_pair f r) ->
  let '(_, v', file') := verified_change written f v file in standing now v' file'.
Proof.
  intros Hst Hf. unfold verified_change, cell_update. rewrite (st_kept _ _ _ Hst). destruct file as [p|]; [|done]. destruct written; [|done]. cbn.
  pose proof (st_same _ _ _ Hst p eq_refl) as Ep. rewrite Ep. set (r := catch_up (vk_shown_since v) (vk_records v)).
  assert (records_changed_at at_ r = now) as En by (apply caught_up; apply Hst).
  assert (seen_as_key r at_ K) as Hs by apply (st_seen _ _ _ Hst).
  destruct (Hf r ltac:(apply wf_catch_up, Hst) Hs En) as (Hwf & Hs' & Ec). constructor; cbn.
  - done.
  - intros ? [= <-]. cbn. by rewrite Ep.
  - done.
  - by apply Hs'.
  - unfold changed_at. rewrite at_eta. cbn. rewrite Ec, En, lookup_empty. by destruct now.
Qed.

Lemma standing_verified now v file : standing now v file -> verified_at (sa_server at_) (sa_user at_) v = Some K.
Proof. intros H. unfold verified_at. rewrite at_eta. apply seen_under_spec; apply H. Qed.

(** *** Keys presented *)

Lemma presented_dom written server user key v file : vk_kept v = true -> (forall p, file = Some p -> pp_verified p = vk_records v) ->
  let '(_, v', file') := verified_presented written server user key v file in forall k, is_verified k v' = is_verified k v.
Proof.
  intros Hk Hs. pose proof (presented_acts written server user key v file) as H. destruct (verified_presented _ _ _ _ _ _) as [[ok v'] file'].
  destruct H as (f & Hf & Ha). intros k. unfold is_verified. apply bool_decide_ext. rewrite <- !elem_of_dom.
  destruct Ha as [ok v' _ ->|p _ Ep r|Ek]; [done| |congruence]. cbn. unfold r. rewrite (Hs p Ep). destruct Hf as [-> | ->]; [|done].
  unfold seen_change. cbn [forget_change retain_changed vr_verified]. by rewrite dom_see.
Qed.

(** The first other key shown makes a change, if it can be written. *)
Lemma push_standing user server key p v : standing None v (Some p) -> mkSeenAs server user = at_ ->
  let '(_, v', file') := verified_change true (push_change at_ key) v (Some p) in standing (Some key) v' file'.
Proof.
  intros Hst E. unfold verified_change. rewrite (st_kept _ _ _ Hst). cbn. rewrite (st_same _ _ _ Hst p eq_refl).
  set (r := catch_up (vk_shown_since v) (vk_records v)). assert (records_wf (push_change at_ key r)) as Hwf.
  { unfold push_change. apply wf_push, wf_catch_up, Hst. }
  constructor; cbn [vk_kept vk_records verified_new]; [done|intros ? [= <-]; cbn; by rewrite (st_same _ _ _ Hst p eq_refl)|done|exact (st_seen _ _ _ Hst)|].
  unfold changed_at. rewrite at_eta. cbn [vk_records verified_new vk_shown_since]. rewrite lookup_empty.
  replace (records_changed_at at_ (push_change at_ key r)) with (Some key); [done|]. symmetry. apply changed_spec; [done|].
  cbn. apply elem_of_app. right. by left.
Qed.

(** A key may be shown for the pair if it is [K], or one not verified, of which the first
    must be written. *)
Definition showable (now : option PublicKey) (written : bool) (key : PublicKey) (v : VerifiedKeys) (file : option People) : Prop :=
  key = K \/ is_verified key v = false /\ (now <> None \/ written = true /\ is_Some file).

Lemma presented_standing now written user server key v file : standing now v file ->
  (mkSeenAs server user = at_ -> showable now written key v file) ->
  let '(_, v', file') := verified_presented written server user key v file in
  standing (if decide (mkSeenAs server user = at_ /\ key <> K) then Some key else now) v' file'.
Proof.
  intros Hst Hkey. set (at' := mkSeenAs server user) in *. unfold verified_presented. fold at'. destruct (decide (at' = at_)) as [E|Hne].
  - assert (verified_at server user v = Some K) as Ev by (rewrite <- (standing_verified _ _ _ Hst), <- E; done). rewrite Ev.
    assert (is_verified K v = true) as HK by (apply bool_decide_eq_true; destruct (st_seen _ _ _ Hst) as (e & -> & _); eauto).
    destruct (Hkey E) as [->|[Hu Hn]].
    + rewrite HK. rewrite (decide_False (P := at' = at_ /\ K <> K)) by tauto. by rewrite decide_True.
    + rewrite Hu, decide_True by (split; [done|]; intros ->; congruence).
      pose proof (st_now _ _ _ Hst) as En. unfold changed_at in En. rewrite at_eta in En. rewrite E.
      destruct (records_changed_at at_ (vk_records v)) as [x|] eqn:Ec; cbn in En.
      * destruct Hst as [H1 H2 H3 H4 _]. constructor; cbn; try done. unfold changed_at. rewrite at_eta. cbn. by rewrite Ec, lookup_insert_eq.
      * subst now. destruct Hn as [?|[-> [p ->]]]; [done|]. by apply (push_standing user server key p v).
  - rewrite (decide_False (P := at' = at_ /\ key <> K)) by tauto. destruct (is_verified key v).
    + destruct (decide _); [done|]. apply change_standing; [done|]. intros r ???. by apply (seen_change_keeps at' key).
    + destruct (verified_at server user v); [|done]. destruct (records_changed_at at' (vk_records v)).
      * destruct Hst as [H1 H2 H3 H4 <-]. constructor; cbn; try done. unfold changed_at. rewrite at_eta. cbn. by rewrite lookup_insert_ne.
      * apply change_standing; [done|]. intros r ???. by apply (push_change_keeps at' key).
Qed.

(** What the pair shows after the keys of [l], presented on a server's sessions. *)
Definition shown_then (server : bytes) (l : list (UserId * PublicKey)) (now : option PublicKey) : option PublicKey :=
  if decide (server = sa_server at_) then
    match (list_to_map l : gmap Z PublicKey) !! sa_user at_ with Some key => if decide (key = K) then now else Some key | None => now end
  else now.

Lemma notes_standing written l : NoDup l.*1 -> forall now t v file, standing now v file ->
  (tr_server t = sa_server at_ -> forall key, (sa_user at_, key) ∈ l -> showable now (written (sa_user at_) key) key v file) ->
  let '(_, v', file') := foldl (note_one written) (t, v, file) l in standing (shown_then (tr_server t) l now) v' file'.
Proof.
  induction l as [|[u k] l IH]; intros Hnd now t v file Hst Hl.
  - unfold shown_then. cbn. by destruct (decide _).
  - cbn [fmap list_fmap] in Hnd. apply list.NoDup_cons in Hnd as [Hu Hnd]. cbn [foldl note_one fst] in *.
    assert (mkSeenAs (tr_server t) u = at_ -> showable now (written u k) k v file) as Hk.
    { intros E. rewrite <- E in Hl. apply Hl; [done|]. cbn. by left. }
    pose proof (presented_standing now (written u k) u (tr_server t) k v file Hst Hk) as H.
    pose proof (presented_dom (written u k) (tr_server t) u k v file (st_kept _ _ _ Hst) (st_same _ _ _ Hst)) as Hd.
    pose proof (presented_acts (written u k) (tr_server t) u k v file) as Ha.
    destruct (verified_presented _ _ _ _ _ _) as [[ok v'] file']. destruct Ha as (f & _ & Ha).
    assert (is_Some file' <-> is_Some file) as Hs by (apply (acts_both (fun _ => True) f v file ok v' file'); done).
    set (now' := if decide (mkSeenAs (tr_server t) u = at_ /\ k <> K) then Some k else now) in *.
    specialize (IH Hnd now' (mkTrust (tr_server t) (<[u:=k]> (tr_presented t))) v' file' H). cbn [tr_server] in IH.
    specialize (IH ltac:(intros E key Hin; specialize (Hl E key ltac:(by right)); destruct Hl as [?|[? Hl]]; [by left|right]; rewrite Hd; split; [done|];
      destruct Hl as [?|[??]]; [left; unfold now'; by destruct (decide _)|right; by rewrite Hs])).
    destruct (foldl _ _ l) as [[t2 v2] file2]. revert IH. unfold shown_then, now'. cbn [list_to_map fold_right].
    destruct (decide (tr_server t = sa_server at_)) as [E|Hne].
    + cbn. rewrite lookup_insert. destruct (decide (u = sa_user at_)) as [Eu|Hneu].
      * rewrite <- Eu. apply not_elem_of_list_to_map_1 in Hu. rewrite Hu. rewrite (decide_ext (mkSeenAs (tr_server t) u = at_ /\ k <> K) (k <> K)).
        -- by destruct (decide (k = K)), (decide (k <> K)).
        -- rewrite E, Eu, at_eta. tauto.
      * rewrite decide_False; [done|]. intros [<- _]. done.
    + rewrite decide_False; [done|]. intros [<- _]. done.
Qed.

(** The file under the cell stays in step with the store. *)
Definition in_step (kept_ : People) (v : VerifiedKeys) (file : option People) : Prop :=
  vk_kept v = true /\ pp_verified kept_ = vk_records v /\ (file = None \/ file = Some kept_).

Lemma acts_synced f v file ok v' file' kept_ : in_step kept_ v file -> acts f v file ok v' file' ->
  in_step (default kept_ file') v' file' /\ (file = None -> file' = None) /\ (is_Some file -> is_Some file').
Proof.
  intros (Hk & Hs & Hf) Ha. unfold in_step. destruct Ha as [ok v' Ek Er|p _ Ef r|Ek].
  - rewrite Er, Ek. destruct Hf as [-> | ->]; cbn; auto.
  - subst. cbn. split_and!; auto. done.
  - congruence.
Qed.
Lemma notes_synced written l : forall t v file kept_, in_step kept_ v file ->
  let '(_, v', file') := foldl (note_one written) (t, v, file) l in
  in_step (default kept_ file') v' file' /\ (file = None -> file' = None) /\ (is_Some file -> is_Some file').
Proof.
  induction l as [|[u k] l IH]; intros t v file kept_ Hs; [destruct Hs as (? & ? & [-> | ->]); cbn; unfold in_step; auto|]. cbn [foldl note_one].
  pose proof (presented_acts (written u k) (tr_server t) u k v file) as Ha. destruct (verified_presented _ _ _ _ _ _) as [[ok v'] file'].
  destruct Ha as (f & _ & Ha). destruct (acts_synced _ _ _ _ _ _ kept_ Hs Ha) as (Hs' & Hn & Hi).
  specialize (IH (mkTrust (tr_server t) (<[u:=k]> (tr_presented t))) v' file' (default kept_ file') Hs').
  destruct (foldl _ _ l) as [[t2 v2] file2]. destruct IH as (Hs2 & Hn2 & Hi2). split; [|by auto].
  destruct file2 as [p2|]; [done|]. cbn in *. destruct file' as [p'|]; [by destruct Hi2 as [? ?]|done].
Qed.
End At.
