(* ===== verification/TrustTheorems.v ===== *)
(** * Verified keys: theorems over every run of the processes of an install *)
From S2P Require Import Prelude Ordered Ids Messages Crypto JsonFile People Verified Trust TrustFacts.
Open Scope Z_scope.

(** ** What holds of every copy of the records *)

Definition everywhere (P : VerifiedRecords -> Prop) (w : World) : Prop :=
  P (pp_verified (w_file w)) /\ forall p v, w_stores w !! p = Some v -> P (vk_records v).

(** The changes a step may make. *)
Definition step_does (w : World) (s : TrustStep) (f : VerifiedRecords -> VerifiedRecords) : Prop :=
  match s with
  | TNote i peers _ => exists p t user key, w_sessions w !! i = Some (p, t) /\ peers !! user = Some key /\
      (f = seen_change (mkSeenAs (tr_server t) user) key \/ f = push_change (mkSeenAs (tr_server t) user) key)
  | TSet i user key verified name _ => exists p t, w_sessions w !! i = Some (p, t) /\ tr_presented t !! user = Some key /\
      f = if verified then verify_change (mkSeenAs (tr_server t) user) key name else drop_verified key
  | TDismiss i user _ _ => exists p t watched, w_sessions w !! i = Some (p, t) /\ f = dismiss_change (mkSeenAs (tr_server t) user) watched
  | TUnverify _ key _ => f = drop_verified key
  | _ => False
  end.

Lemma both_cell P w v : everywhere P w -> P (vk_records v) -> both P v (w_cell w).
Proof. intros [Hf _] Hv. split; [done|]. unfold w_cell. intros p. by destruct (w_readable w); intros [= <-]. Qed.
Lemma put_everywhere P p v file w : everywhere P w -> both P v file -> everywhere P (put_store p v file w).
Proof.
  intros [Hf Hs] [Hv Hp]. split; cbn.
  - destruct file as [q|]; cbn; [by apply Hp|done].
  - intros q v'. rewrite lookup_insert. case_decide; [by intros [= <-]|apply Hs].
Qed.

(** Each operation of one store, as a change of records. *)
Lemma set_acts written user key verified name t v file : let '(_, v', file') := trust_set_verified written user key verified name t v file in
  (tr_presented t !! user = Some key /\ exists ok, acts (if verified then verify_change (mkSeenAs (tr_server t) user) key name else drop_verified key) v file ok v' file') \/
  (v' = v /\ file' = file).
Proof.
  unfold trust_set_verified. destruct (decide _) as [E|]; [|by right]. destruct verified.
  - pose proof (change_acts written (verify_change (mkSeenAs (tr_server t) user) key name) v file) as H. unfold verified_verify. unfold verify_change in H at 1.
    destruct (verified_change _ _ _ _) as [[ok v'] file']. left. split; [done|]. exists ok. apply H.
  - pose proof (change_acts written (drop_verified key) v file) as H. unfold verified_unverify.
    destruct (verified_change _ _ _ _) as [[ok v'] file']. left. split; [done|]. exists ok. apply H.
Qed.
Lemma dismiss_acts written user shown t v file : let '(_, v', file') := trust_dismiss written user shown t v file in
  (exists ok watched v1, vk_kept v1 = vk_kept v /\ vk_records v1 = vk_records v /\
     (forall a, a <> mkSeenAs (tr_server t) user -> vk_shown_since v1 !! a = vk_shown_since v !! a) /\
     (ok, v', file') = verified_change written (dismiss_change (mkSeenAs (tr_server t) user) watched) v1 file) \/ (v' = v /\ file' = file).
Proof.
  unfold trust_dismiss. destruct (decide _) as [E|]; [|by right]. unfold verified_dismiss, dismiss_change.
  set (watched := _ ← _; _). set (v1 := mkVerified _ _ _).
  destruct (verified_change _ _ _ _) as [[ok v'] file'] eqn:Ec. left. exists ok, watched, v1. split_and!; [done..| |].
  - intros a Ha. cbn. by rewrite lookup_delete_ne.
  - rewrite <- Ec. done.
Qed.

Lemma everywhere_step P w s : P records_default -> (forall since r, P r -> P (catch_up since r)) -> (forall f r, step_does w s f -> P r -> P (f r)) ->
  everywhere P w -> everywhere P (trust_step w s).
Proof.
  intros H0 Hc Hd Hw. pose proof Hw as [Hf Hs].
  assert (forall i g, (forall p t v, w_sessions w !! i = Some (p, t) -> w_stores w !! p = Some v -> everywhere P (g p t v)) -> everywhere P (on_session i g w)) as Hon.
  { intros i g Hg. unfold on_session. destruct (w_sessions w !! i) as [[p t]|] eqn:Ei; [|done]. destruct (w_stores w !! p) as [v|] eqn:Ep; [|done]. by apply Hg. }
  destruct s as [p kept|p|i p server|i|i peers written|i user key verified name written|i user shown written|p key written|readable]; cbn [trust_step].
  - split; [done|]. cbn. intros q v. rewrite lookup_insert. case_decide; [|apply Hs]. intros [= <-]. destruct kept; [|done]. unfold w_cell.
    destruct (w_readable w); cbn; done.
  - destruct (w_stores w !! p) as [v|] eqn:Ep; [|done]. apply put_everywhere; [done|]. apply both_cell; [done|]. unfold store_reload, verified_load, w_cell.
    destruct (negb _); [by apply (Hs p)|]. destruct (w_readable w); done.
  - by destruct (w_stores w !! p).
  - apply Hon. done.
  - apply Hon. intros p t v Ei Ep. unfold trust_note. set (new := filter _ _).
    assert (forall t0, tr_server t0 = tr_server t -> let '(t', v', file') := foldl (note_one written) (t0, v, w_cell w) new in
      everywhere P (put_trust i p t' (put_store p v' file' w))) as Hgo.
    { intros t0 Et. pose proof (note_both P written new Hc t0 v (w_cell w)) as Hb. destruct (foldl _ _ new) as [[t' v'] file'].
      apply put_everywhere; [done|]. apply Hb; [|apply both_cell; [done|by apply (Hs p)]].
      intros user key Hin r Hr. apply list_elem_of_filter in Hin as [_ Hin%elem_of_in_key_order]. rewrite Et.
      split; (apply Hd; [|done]); exists p, t, user, key; auto. }
    clearbody new. destruct new as [|n new']; [exact (Hgo t eq_refl)|]. destruct (_ <? _).
    + specialize (Hgo (mkTrust (tr_server t) (filter (fun x => x.1 ∈ (in_key_order peers).*1 \/ is_Some (changed_at (tr_server t) x.1 v)) (tr_presented t))) eq_refl).
      by destruct (foldl _ _ _) as [[t' v'] file'].
    + specialize (Hgo t eq_refl). by destruct (foldl _ _ _) as [[t' v'] file'].
  - apply Hon. intros p t v Ei Ep. pose proof (set_acts written user key verified name t v (w_cell w)) as H.
    destruct (trust_set_verified _ _ _ _ _ _ _ _) as [[r v'] file']. apply put_everywhere; [done|]. pose proof (both_cell P w v Hw (Hs _ _ Ep)) as Hb.
    destruct H as [(Et & ok & Ha)|[-> ->]]; [|done]. apply (acts_both P _ _ _ _ _ _ Hc) in Ha; [apply Ha|intros r0; apply Hd; by exists p, t|done].
  - apply Hon. intros p t v Ei Ep. pose proof (dismiss_acts written user shown t v (w_cell w)) as H.
    destruct (trust_dismiss _ _ _ _ _ _) as [[r v'] file']. apply put_everywhere; [done|]. pose proof (both_cell P w v Hw (Hs _ _ Ep)) as Hb.
    destruct H as [(ok & watched & v1 & Ek & Er & _ & E)|[-> ->]]; [|done].
    pose proof (change_acts written (dismiss_change (mkSeenAs (tr_server t) user) watched) v1 (w_cell w)) as Ha. rewrite <- E in Ha. destruct Ha as [Ha _].
    apply (acts_both P _ _ _ _ _ _ Hc) in Ha; [apply Ha|intros r0; apply Hd; by exists p, t, watched|]. destruct Hb as [Hv Hp]. split; [by rewrite Er|done].
  - destruct (w_stores w !! p) as [v|] eqn:Ep; [|done]. unfold verified_unverify.
    pose proof (change_acts written (drop_verified key) v (w_cell w)) as Ha. destruct (verified_change _ _ _ _) as [[ok v'] file']. destruct Ha as [Ha _].
    apply put_everywhere; [done|]. apply (acts_both P _ _ _ _ _ _ Hc) in Ha; [apply Ha|intros r0; by apply Hd|]. apply both_cell; [done|by apply (Hs p)].
  - done.
Qed.

Lemma step_does_wf w s f r : step_does w s f -> records_wf r -> records_wf (f r).
Proof.
  intros Hd Hr. destruct s; cbn in Hd; try done.
  - destruct Hd as (p & t & user & key & _ & _ & [-> | ->]); unfold seen_change, push_change; auto with records.
  - destruct Hd as (p & t & _ & _ & ->). destruct verified; unfold verify_change; auto with records.
  - destruct Hd as (p & t & watched & _ & ->). unfold dismiss_change. destruct watched; auto with records.
  - subst. auto with records.
Qed.
Lemma records_default_wf : records_wf records_default.
Proof. split; [|constructor|]; [intros at_ k1 k2 (e & He & _)|intros k e He]; cbn in He; by rewrite lookup_empty in He. Qed.

(** ** The file's keys are those its users confirmed *)

Definition file_keys (file : option People) : gset bytes := match file with Some p => dom (vr_verified (pp_verified p)) | None => ∅ end.
Definition verified_keys (w : World) : gset bytes := dom (vr_verified (pp_verified (w_file w))).

(** The key a step verifies, or takes off the verified ones, in the file: the session's user
    presents that very key, and the file can be read and written. *)
Definition confirms (w : World) (s : TrustStep) : option (PublicKey * bool) :=
  match s with
  | TSet i user key verified _ written =>
      '(p, t) ← w_sessions w !! i; v ← w_stores w !! p;
      if vk_kept v && written && w_readable w && bool_decide (tr_presented t !! user = Some key) then Some (key, verified) else None
  | TUnverify p key written => v ← w_stores w !! p; if vk_kept v && written && w_readable w then Some (key, false) else None
  | _ => None
  end.
Definition confirmed (c : option (PublicKey * bool)) (keys : gset bytes) : gset bytes :=
  match c with Some (key, true) => {[key]} ∪ keys | Some (key, false) => keys ∖ {[key]} | None => keys end.
Fixpoint confirmed_by (w : World) (ss : list TrustStep) (keys : gset bytes) : gset bytes :=
  match ss with [] => keys | s :: ss => confirmed_by (trust_step w s) ss (confirmed (confirms w s) keys) end.

Lemma acts_same_keys f v file ok v' file' : (forall r, dom (vr_verified (f r)) = dom (vr_verified r)) -> acts f v file ok v' file' ->
  file_keys file' = file_keys file /\ (is_Some file' <-> is_Some file).
Proof. intros Hf Ha. destruct Ha as [| p _ -> r|]; [done| |done]. cbn. unfold r. by rewrite Hf. Qed.

Lemma change_keys written f g v file : (forall r, dom (vr_verified (f r)) = g (dom (vr_verified r))) ->
  let '(_, _, file') := verified_change written f v file in
  file_keys file' = (if vk_kept v && written && bool_decide (is_Some file) then g (file_keys file) else file_keys file) /\ (is_Some file' <-> is_Some file).
Proof.
  intros Hf. unfold verified_change, cell_update. destruct (vk_kept v); [|done]. destruct file as [p|], written; cbn; try done.
  by rewrite Hf.
Qed.

Lemma put_keys p v file w : (is_Some file <-> is_Some (w_cell w)) ->
  verified_keys (put_store p v file w) = if w_readable w then file_keys file else verified_keys w.
Proof.
  unfold w_cell, verified_keys. intros Hi. destruct file as [q|]; cbn.
  - destruct (w_readable w); [done|]. by destruct (proj1 Hi ltac:(eauto)).
  - destruct (w_readable w); [|done]. by destruct (proj2 Hi ltac:(eauto)).
Qed.
Lemma cell_keys w : file_keys (w_cell w) = if w_readable w then verified_keys w else ∅.
Proof. unfold w_cell. by destruct (w_readable w). Qed.

Lemma notes_keys written l : forall t v file, let '(_, _, file') := foldl (note_one written) (t, v, file) l in
  file_keys file' = file_keys file /\ (is_Some file' <-> is_Some file).
Proof.
  induction l as [|[u k] l IH]; intros t v file; [done|]. cbn [foldl note_one].
  pose proof (presented_acts (written u k) (tr_server t) u k v file) as Ha. destruct (verified_presented _ _ _ _ _ _) as [[ok v'] file'].
  destruct Ha as (f & Hf & Ha). apply acts_same_keys in Ha as [E Hi]; [|intros r; destruct Hf as [-> | ->]; cbn; [apply dom_see|done]].
  specialize (IH (mkTrust (tr_server t) (<[u:=k]> (tr_presented t))) v' file'). destruct (foldl _ _ l) as [[t2 v2] file2].
  rewrite <- E, <- Hi. exact IH.
Qed.

Lemma dom_dismiss at_ watched r : dom (vr_verified (dismiss_change at_ watched r)) = dom (vr_verified r).
Proof. unfold dismiss_change. destruct watched; rewrite ?dom_see; apply dom_forget_seen. Qed.
Lemma dom_verify at_ key name r : dom (vr_verified (verify_change at_ key name r)) = {[key]} ∪ dom (vr_verified r).
Proof. unfold verify_change. cbn. rewrite dom_see. apply dom_name_entry. Qed.

Lemma confirm_step w s : verified_keys (trust_step w s) = confirmed (confirms w s) (verified_keys w).
Proof.
  destruct s as [p kept|p|i p server|i|i peers written|i user key verified name written|i user shown written|p key written|readable]; cbn [trust_step confirms].
  - done.
  - destruct (w_stores w !! p); [|done]. rewrite put_keys by done. rewrite cell_keys. cbn. by destruct (w_readable w).
  - by destruct (w_stores w !! p).
  - unfold on_session. destruct (w_sessions w !! i) as [[p t]|]; [|done]. by destruct (w_stores w !! p).
  - unfold on_session. destruct (w_sessions w !! i) as [[p t]|]; [|done]. destruct (w_stores w !! p) as [v|]; [|done].
    assert (let '(_, (t', v', file')) := trust_note written (in_key_order peers) t v (w_cell w) in
      file_keys file' = file_keys (w_cell w) /\ (is_Some file' <-> is_Some (w_cell w))) as H.
    { unfold trust_note. destruct (filter _ _) as [|n l]; [done|]. pose proof (notes_keys written (n :: l)) as H. destruct (_ <? _).
      - match goal with |- context [foldl _ (?t0, v, w_cell w) _] => specialize (H t0 v (w_cell w)) end. by destruct (foldl _ _ _) as [[t' v'] file'].
      - specialize (H t v (w_cell w)). by destruct (foldl _ _ _) as [[t' v'] file']. }
    destruct (trust_note _ _ _ _ _) as [b [[t' v'] file']]. destruct H as [E Hi].
    change (verified_keys (put_store p v' file' w) = verified_keys w). rewrite put_keys by done. rewrite E, cell_keys. by destruct (w_readable w).
  - unfold on_session. destruct (w_sessions w !! i) as [[p t]|]; [|done]. cbn. destruct (w_stores w !! p) as [v|]; [|done]. cbn. unfold trust_set_verified.
    destruct (decide (tr_presented t !! user = Some key)) as [Et|Et].
    + rewrite bool_decide_eq_true_2, andb_true_r by done. destruct verified.
      * pose proof (change_keys written (verify_change (mkSeenAs (tr_server t) user) key name) (union {[key]}) v (w_cell w) (dom_verify _ _ _)) as H.
        unfold verified_verify. unfold verify_change in H at 1. destruct (verified_change _ _ _ _) as [[ok v'] file']. destruct H as [E Hi].
        rewrite put_keys, E, cell_keys by done. unfold w_cell. by destruct (vk_kept v), written, (w_readable w).
      * pose proof (change_keys written (drop_verified key) (fun ks => ks ∖ {[key]}) v (w_cell w) (dom_drop _)) as H.
        unfold verified_unverify. destruct (verified_change _ _ _ _) as [[ok v'] file']. destruct H as [E Hi].
        rewrite put_keys, E, cell_keys by done. unfold w_cell. by destruct (vk_kept v), written, (w_readable w).
    + rewrite bool_decide_eq_false_2, andb_false_r by done. rewrite put_keys, cell_keys by done. cbn. by destruct (w_readable w).
  - unfold on_session. destruct (w_sessions w !! i) as [[p t]|]; [|done]. cbn. destruct (w_stores w !! p) as [v|]; [|done].
    pose proof (dismiss_acts written user shown t v (w_cell w)) as H. destruct (trust_dismiss _ _ _ _ _ _) as [[r v'] file'].
    destruct H as [(ok & watched & v1 & Ek & Er & _ & E)|[-> ->]].
    + pose proof (change_acts written (dismiss_change (mkSeenAs (tr_server t) user) watched) v1 (w_cell w)) as Ha. rewrite <- E in Ha. destruct Ha as [Ha _].
      apply acts_same_keys in Ha as [E' Hi]; [|apply dom_dismiss]. rewrite put_keys, E', cell_keys by done. by destruct (w_readable w).
    + rewrite put_keys, cell_keys by done. by destruct (w_readable w).
  - destruct (w_stores w !! p) as [v|]; [|done]. cbn.
    pose proof (change_keys written (drop_verified key) (fun ks => ks ∖ {[key]}) v (w_cell w) (dom_drop _)) as H.
    unfold verified_unverify. destruct (verified_change _ _ _ _) as [[ok v'] file']. destruct H as [E Hi].
    rewrite put_keys, E, cell_keys by done. unfold w_cell. by destruct (vk_kept v), written, (w_readable w).
  - done.
Qed.

(** C34: However the processes of an install interleave, note keys, dismiss changes, restart,
    fail to read or to write, the keys verified in their file are exactly those users last
    verified rather than took back: each update applies to what the others wrote, so none is
    lost, and nothing a server shows verifies a key. *)
Theorem verified_keys_are_those_confirmed (w : World) (ss : list TrustStep) :
  verified_keys (trust_run ss w) = confirmed_by w ss (verified_keys w).
Proof.
  revert w. induction ss as [|s ss IH]; intros w; [done|]. cbn [confirmed_by]. rewrite <- confirm_step. apply IH.
Qed.

(** ** Who is shown as verified *)

(** [user] showed [key] last on session [i] since its connection was made. *)
Definition keeps_showing (i : nat) (user : UserId) (key : PublicKey) (s : TrustStep) : Prop :=
  match s with
  | TForget j | TOpen j _ _ => j <> i
  | TNote j peers _ => j = i -> forall k, peers !! user = Some k -> k = key
  | _ => True
  end.
Definition shown_last (ss : list TrustStep) (i : nat) (user : UserId) (key : PublicKey) : Prop :=
  exists pre peers written post, ss = pre ++ TNote i peers written :: post /\ peers !! user = Some key /\ Forall (keeps_showing i user key) post.

Lemma shown_last_snoc ss s i user key : shown_last ss i user key -> keeps_showing i user key s -> shown_last (ss ++ [s]) i user key.
Proof.
  intros (pre & peers & written & post & -> & Hp & Hf) Hs. exists pre, peers, written, (post ++ [s]).
  split; [by rewrite <- app_assoc|]. split; [done|]. apply Forall_app_2; [done|by constructor].
Qed.

(** What sessions hold as presented was shown last, on a process that was started. *)
Definition presents (w : World) (ss : list TrustStep) : Prop :=
  forall i p t user key, w_sessions w !! i = Some (p, t) -> tr_presented t !! user = Some key -> is_Some (w_stores w !! p) /\ shown_last ss i user key.

Lemma presents_step w ss s : presents w ss -> presents (trust_step w s) (ss ++ [s]).
Proof.
  intros Hp.
  assert (forall w', w_sessions w' = w_sessions w -> (forall p, is_Some (w_stores w !! p) -> is_Some (w_stores w' !! p)) ->
    (forall i user key, keeps_showing i user key s) -> presents w' (ss ++ [s])) as Hsame.
  { intros w' E Es Hs i p t user key Hi Hk. rewrite E in Hi. destruct (Hp _ _ _ _ _ Hi Hk). split; [auto|]. by apply shown_last_snoc. }
  assert (forall p v file q, is_Some (w_stores w !! q) -> is_Some (w_stores (put_store p v file w) !! q)) as Hput.
  { intros p v file q Hq. cbn. rewrite lookup_insert. by case_decide. }
  assert (forall i f, (forall p t v, w_stores w !! p = Some v -> exists v' file, f p t v = put_store p v' file w) ->
    (forall i user key, keeps_showing i user key s) -> presents (on_session i f w) (ss ++ [s])) as Hon.
  { intros i f Hf Hs. unfold on_session. destruct (w_sessions w !! i) as [[p t]|]; [|by apply Hsame]. destruct (w_stores w !! p) as [v|] eqn:Ep; [|by apply Hsame].
    destruct (Hf p t v Ep) as (v' & file & ->). by apply Hsame; [|apply Hput|]. }
  destruct s as [q kept|q|j q server|j|j peers written|j u k verified name written|j u shown written|q k written|readable]; cbn [trust_step].
  - intros i p t user key [Hi _]%map_lookup_filter_Some Hk. destruct (Hp _ _ _ _ _ Hi Hk). cbn. rewrite lookup_insert. split; [by case_decide|]. by apply shown_last_snoc.
  - destruct (w_stores w !! q); by apply Hsame; [|try apply Hput|].
  - intros i p t user key Hi Hk. cbn in Hi. apply lookup_insert_Some in Hi as [[<- [= <- <-]]|[Hne Hi]]; [cbn in Hk; by rewrite lookup_empty in Hk|].
    destruct (Hp _ _ _ _ _ Hi Hk). split; [done|]. by apply shown_last_snoc.
  - intros i p t user key Hi Hk. unfold on_session in Hi. assert (is_Some (w_stores w !! p) /\ shown_last ss i user key /\ i <> j) as (? & ? & ?).
    + destruct (w_sessions w !! j) as [[pj tj]|] eqn:Ej; [destruct (w_stores w !! pj) eqn:Ep|].
      * cbn in Hi. apply lookup_insert_Some in Hi as [[<- [= <- <-]]|[Hne Hi]]; [cbn in Hk; by rewrite lookup_empty in Hk|].
        destruct (Hp _ _ _ _ _ Hi Hk). split_and!; congruence || done.
      * destruct (Hp _ _ _ _ _ Hi Hk) as [Hs ?]. split_and!; [done..|]. intros <-. rewrite Ej in Hi. injection Hi as <- <-. rewrite Ep in Hs. by destruct Hs.
      * destruct (Hp _ _ _ _ _ Hi Hk). split_and!; [done..|]. congruence.
    + unfold on_session. split; [destruct (w_sessions w !! j) as [[??]|]; [destruct (w_stores w !! _)|]; done|]. apply shown_last_snoc; [done|]. cbn. congruence.
  - intros i p t user key Hi Hk. unfold on_session in *.
    destruct (w_sessions w !! j) as [[pj tj]|] eqn:Ej; [destruct (w_stores w !! pj) as [v|] eqn:Ep|].
    + pose proof (note_presents written peers tj v (w_cell w)) as H. destruct (trust_note _ _ _ _ _) as [b [[t' v'] file']]. destruct H as [_ Hn].
      cbn in Hi. apply lookup_insert_Some in Hi as [[<- [= <- <-]]|[Hne Hi]].
      * split; [cbn; rewrite lookup_insert_eq; done|]. destruct (Hn _ _ Hk) as [Hin|[Hk' Hnone]].
        -- exists ss, peers, written, []. by split_and!.
        -- apply shown_last_snoc; [by apply (Hp _ _ _ _ _ Ej)|]. cbn. intros _ k Hk2. congruence.
      * destruct (Hp _ _ _ _ _ Hi Hk). split; [cbn; rewrite lookup_insert; by case_decide|]. apply shown_last_snoc; [done|]. cbn. congruence.
    + destruct (Hp _ _ _ _ _ Hi Hk) as [Hs ?]. split; [done|]. apply shown_last_snoc; [done|]. cbn. intros <-. rewrite Ej in Hi. injection Hi as <- <-. rewrite Ep in Hs. by destruct Hs.
    + destruct (Hp _ _ _ _ _ Hi Hk) as [Hs ?]. split; [done|]. apply shown_last_snoc; [done|]. cbn. intros <-. congruence.
  - apply Hon; [|done]. intros p t v Ep. destruct (trust_set_verified _ _ _ _ _ _ _ _) as [[r v'] file']. by exists v', file'.
  - apply Hon; [|done]. intros p t v Ep. destruct (trust_dismiss _ _ _ _ _ _) as [[r v'] file']. by exists v', file'.
  - destruct (w_stores w !! q) as [v|]; [|by apply Hsame]. destruct (verified_unverify _ _ _ _) as [[r v'] file']. by apply Hsame; [|apply Hput|].
  - by apply Hsame.
Qed.

(** A key was verified in the file from the start, or a user verified it while the person
    whose safety number they compared showed that very key. *)
Definition was_compared (kept : People) (ss : list TrustStep) (key : PublicKey) : Prop :=
  key ∈ dom (vr_verified (pp_verified kept)) \/
  exists pre i user name written post, ss = pre ++ TSet i user key true name written :: post /\ shown_last pre i user key.

Lemma was_compared_snoc kept ss s key : was_compared kept ss key -> was_compared kept (ss ++ [s]) key.
Proof.
  intros [H|(pre & i & user & name & written & post & -> & H)]; [by left|right].
  exists pre, i, user, name, written, (post ++ [s]). split; [by rewrite <- app_assoc|done].
Qed.

Definition installed (kept : People) (readable : bool) : World := mkWorld kept readable ∅ ∅.

Lemma run_compared kept readable ss : let w := trust_run ss (installed kept readable) in
  presents w ss /\ everywhere (fun r => forall key, key ∈ dom (vr_verified r) -> was_compared kept ss key) w.
Proof.
  cbv zeta. induction ss as [|s ss [Hp He]] using rev_ind.
  - split; [intros i p t user key Hi; cbn in Hi; by rewrite lookup_empty in Hi|]. split; cbn; [by left|]. intros p v. by rewrite lookup_empty.
  - rewrite trust_run_app. set (w := trust_run ss _) in *. split; [by apply presents_step|].
    assert (everywhere (fun r => forall key, key ∈ dom (vr_verified r) -> was_compared kept (ss ++ [s]) key) w) as He'.
    { destruct He as [Hf Hs]. split; [|intros p v Hv]; intros key Hk; apply was_compared_snoc; [by apply Hf|by apply (Hs p v)]. }
    apply everywhere_step; [cbn; set_solver|done| |done]. intros f r Hd Hr key Hk.
    destruct s as [| | | |i peers written|i user k verified name written|i user shown written|p k written|]; cbn in Hd; try done.
    + destruct Hd as (p & t & user & k & _ & _ & [-> | ->]); apply Hr; [|done]. unfold seen_change in Hk. cbn in Hk. by rewrite dom_see in Hk.
    + destruct Hd as (p & t & Hi & Ht & ->). destruct verified.
      * rewrite dom_verify in Hk. apply elem_of_union in Hk as [->%elem_of_singleton|Hk]; [|by apply Hr].
        right. exists ss, i, user, name, written, []. split; [done|]. by apply (Hp i p t).
      * rewrite dom_drop in Hk. apply Hr. set_solver.
    + destruct Hd as (p & t & watched & _ & ->). rewrite dom_dismiss in Hk. by apply Hr.
    + subst. rewrite dom_drop in Hk. apply Hr. set_solver.
Qed.

(** Whatever the processes of an install do, and whatever servers show them, a session
    shows a person as verified only for the key that person showed it last since its
    connection was made, and only if that key was in the file from the start or a user
    verified it while the person whose number they compared showed that very key. *)
Theorem only_compared_keys_show_as_verified (kept : People) (readable : bool) (ss : list TrustStep) (i p : nat) (t : Trust) (v : VerifiedKeys) (user : UserId) (key : PublicKey)
  (Hi : w_sessions (trust_run ss (installed kept readable)) !! i = Some (p, t)) (Hp : w_stores (trust_run ss (installed kept readable)) !! p = Some v)
  (Hof : trust_of user t v = (true, Some key)) :
  shown_last ss i user key /\ was_compared kept ss key.
Proof.
  destruct (run_compared kept readable ss) as [Hpr He]. unfold trust_of in Hof. destruct (tr_presented t !! user) as [k|] eqn:Ek; [|done].
  injection Hof as Hv ->. split; [by apply (Hpr i p t)|]. apply bool_decide_eq_true in Hv. apply (proj2 He p v Hp). by apply elem_of_dom.
Qed.

Definition example_key (n : Z) : bytes := replicate 32 n.

(** Verified on one session, shown verified on another server's once presented there. *)
Lemma only_compared_keys_show_as_verified_witness :
  let yes := fun _ _ => true in
  let ss := [TStart 0 true; TOpen 0 0 (example_key 1); TNote 0 {[4 := example_key 4]} yes; TSet 0 4 (example_key 4) true (lit "Mara") true;
             TOpen 1 0 (example_key 2); TNote 1 {[9 := example_key 4]} yes] in
  let w := trust_run ss (installed people_default true) in
  exists t v, w_sessions w !! 1%nat = Some (0%nat, t) /\ w_stores w !! 0%nat = Some v /\ trust_of 9 t v = (true, Some (example_key 4)) /\
    shown_last ss 1 9 (example_key 4) /\ was_compared people_default ss (example_key 4).
Proof.
  intros yes ss w. eexists _, _. do 3 (split; [vm_compute; reflexivity|]).
  eapply (only_compared_keys_show_as_verified people_default true ss 1 0); vm_compute; reflexivity.
Defined.
