(* ===== verification/TrustChanges.v ===== *)
(** * A changed key stays warned of, until it is answered

    One process and its sessions, from its start: after a verified key was replaced, no
    showing of keys, no restart and no failing write ends the warning; only an answer does. *)
From S2P Require Import Prelude Ordered Ids Messages Crypto JsonFile People Verified Trust TrustFacts TrustTheorems.
Open Scope Z_scope.

(** The process 0 is started again without its directory, or its file cannot be read as it
    starts or reloads; or another process is started. *)
Definition loses (w : World) (s : TrustStep) : Prop :=
  match s with
  | TStart p kept => p <> 0%nat \/ kept = false \/ w_readable w = false
  | TReload _ => w_readable w = false
  | _ => False
  end.

(** The only process, its store in step with the file. *)
Definition alone (w : World) (v : VerifiedKeys) : Prop :=
  w_stores w = {[0%nat := v]} /\ vk_kept v = true /\ pp_verified (w_file w) = vk_records v /\ records_wf (vk_records v).

(** The warning's pair and key, and what it shows now. *)
Definition warned (at_ : SeenAs) (K now : PublicKey) (w : World) : Prop :=
  exists v, alone w v /\ verified_at (sa_server at_) (sa_user at_) v = Some K /\ changed_at (sa_server at_) (sa_user at_) v = Some now.

(** What the user answers a warning with, or what takes the pair over to another verified key. *)
Definition answers (at_ : SeenAs) (K : PublicKey) (w : World) (s : TrustStep) : Prop :=
  loses w s \/
  match s with
  | TNote i peers _ => exists p t v key, w_sessions w !! i = Some (p, t) /\ w_stores w !! p = Some v /\ tr_server t = sa_server at_ /\
      peers !! sa_user at_ = Some key /\ key <> K /\ is_verified key v = true
  | TSet i user key true _ _ => exists p t, w_sessions w !! i = Some (p, t) /\ (mkSeenAs (tr_server t) user = at_ \/ warned at_ K key w)
  | TSet _ _ key false _ _ | TUnverify _ key _ => key = K
  | TDismiss i user _ _ => exists p t, w_sessions w !! i = Some (p, t) /\ mkSeenAs (tr_server t) user = at_
  | _ => False
  end.
Fixpoint unanswered (at_ : SeenAs) (K : PublicKey) (w : World) (ss : list TrustStep) : Prop :=
  match ss with [] => True | s :: ss => ~ answers at_ K w s /\ unanswered at_ K (trust_step w s) ss end.
Fixpoint keeps_up (w : World) (ss : list TrustStep) : Prop :=
  match ss with [] => True | s :: ss => ~ loses w s /\ keeps_up (trust_step w s) ss end.

Section At.
Context (at_ : SeenAs) (K : PublicKey).

Definition stands (now : option PublicKey) (w : World) : Prop := exists v, alone w v /\ standing at_ K now v (Some (w_file w)).

Lemma standing_cell now v w : standing at_ K now v (Some (w_file w)) -> standing at_ K now v (w_cell w).
Proof. intros [H1 H2 H3 H4 H5]. constructor; try done. unfold w_cell. intros p. destruct (w_readable w); intros [= <-]. by apply H2. Qed.
Lemma alone_in_step w v : alone w v -> in_step (w_file w) v (w_cell w).
Proof. intros (_ & Hk & Hs & _). split_and!; [done..|]. unfold w_cell. destruct (w_readable w); auto. Qed.

Lemma put_alone w v v' file : alone w v -> in_step (default (w_file w) file) v' file -> records_wf (vk_records v') -> alone (put_store 0 v' file w) v'.
Proof. intros (Hst & _ & _ & _) (Hk & Hs & _) Hwf. split_and!; [cbn; by rewrite Hst, insert_singleton_eq|done..]. Qed.
Lemma put_stands now w v v' file : alone w v -> in_step (default (w_file w) file) v' file -> standing at_ K now v' file -> stands now (put_store 0 v' file w).
Proof.
  intros Ha Hs Hst. exists v'. split; [apply (put_alone w v); [done..|apply Hst]|]. destruct Hst as [H1 _ H3 H4 H5].
  constructor; try done. intros p [= <-]. apply Hs.
Qed.

Lemma stands_warned now w : stands (Some now) w <-> warned at_ K now w.
Proof.
  split.
  - intros (v & Ha & Hst). exists v. split; [done|]. split; [by apply (standing_verified at_ K (Some now) v (Some (w_file w)))|apply Hst].
  - intros (v & Ha & Hv & Hn). exists v. split; [done|]. destruct Ha as (_ & Hk & Hs & Hwf). constructor; [done| |done| |done].
    + by intros p [= <-].
    + unfold verified_at in Hv. rewrite at_eta in Hv. by apply seen_under_spec.
Qed.

(** An operation of the one store that changes records by [f]. *)
Lemma act_stands now w v written f : alone w v -> standing at_ K now v (Some (w_file w)) ->
  (forall r, records_wf r -> seen_as_key r at_ K -> records_changed_at at_ r = now -> keeps_pair at_ K f r) ->
  let '(_, v', file') := verified_change written f v (w_cell w) in stands now (put_store 0 v' file' w).
Proof.
  intros Ha Hst Hf. pose proof (change_standing at_ K now written f v (w_cell w) (standing_cell _ _ _ Hst) Hf) as H.
  pose proof (change_acts written f v (w_cell w)) as Hacts. destruct (verified_change _ _ _ _) as [[ok v'] file'].
  apply (put_stands now w v); [done| |done]. by apply (acts_synced f v (w_cell w) ok v' file' (w_file w) (alone_in_step _ _ Ha)), Hacts.
Qed.

Lemma put_same now w v : alone w v -> standing at_ K now v (Some (w_file w)) -> stands now (put_store 0 v (w_cell w) w).
Proof.
  intros Ha Hst. apply (put_stands now w v); [done| |by apply standing_cell]. pose proof (alone_in_step w v Ha) as H.
  unfold w_cell in *. by destruct (w_readable w).
Qed.

Lemma note_stands now w v t written (peers : gmap Z PublicKey) i : alone w v -> standing at_ K now v (Some (w_file w)) ->
  (tr_server t = sa_server at_ -> forall key, peers !! sa_user at_ = Some key -> tr_presented t !! sa_user at_ <> Some key ->
     showable K now (written (sa_user at_) key) key v (w_cell w)) ->
  let '(_, (t', v', file')) := trust_note written (in_key_order peers) t v (w_cell w) in
  stands (if decide (tr_server t = sa_server at_) then
            match peers !! sa_user at_ with
            | Some key => if decide (key = K \/ tr_presented t !! sa_user at_ = Some key) then now else Some key
            | None => now
            end
          else now) (put_trust i 0 t' (put_store 0 v' file' w)).
Proof.
  intros Ha Hst Hsh. unfold trust_note. set (new := filter _ (in_key_order peers)).
  assert (NoDup new.*1) as Hnd.
  { pose proof (in_key_order_keys peers) as H. eapply sublist_NoDup; [exact H|]. apply fmap_sublist, sublist_filter. }
  assert (forall user key, (list_to_map new : gmap Z PublicKey) !! user = Some key <-> peers !! user = Some key /\ tr_presented t !! user <> Some key) as Hnew.
  { intros user key. rewrite <- elem_of_list_to_map by done. unfold new. rewrite list_elem_of_filter, elem_of_in_key_order. cbn. tauto. }
  set (final := if decide (tr_server t = sa_server at_) then _ else now).
  assert (final = shown_then at_ K (tr_server t) new now) as Efinal.
  { unfold final, shown_then. destruct (decide (tr_server t = sa_server at_)); [|done].
    destruct (list_to_map new !! sa_user at_) as [key|] eqn:E.
    - apply Hnew in E as [-> Hne]. destruct (decide (key = K)), (decide (_ \/ _)); tauto.
    - destruct (peers !! sa_user at_) as [key|] eqn:Ep; [|done]. destruct (decide (key = K \/ tr_presented t !! sa_user at_ = Some key)) as [|Hn]; [done|].
      assert (list_to_map new !! sa_user at_ = Some key) by (apply Hnew; tauto). congruence. }
  assert (forall t0, tr_server t0 = tr_server t -> let '(t', v', file') := foldl (note_one written) (t0, v, w_cell w) new in
    stands final (put_trust i 0 t' (put_store 0 v' file' w))) as Hgo.
  { intros t0 Et. pose proof (notes_standing at_ K written new Hnd now t0 v (w_cell w) (standing_cell _ _ _ Hst)) as H. rewrite Et, <- Efinal in H.
    pose proof (notes_synced written new t0 v (w_cell w) (w_file w) (alone_in_step _ _ Ha)) as Hs. destruct (foldl _ _ new) as [[t' v'] file'].
    change (stands final (put_store 0 v' file' w)). apply (put_stands final w v); [done|apply Hs|]. apply H.
    intros E key Hin. apply elem_of_list_to_map in Hin; [|done]. apply Hnew in Hin as [? ?]. by apply Hsh. }
  clearbody final. destruct new as [|n new'] eqn:En; [exact (Hgo t eq_refl)|]. destruct (_ <? _).
  - match goal with |- context [foldl _ (?t0, v, w_cell w) _] => specialize (Hgo t0 eq_refl) end. by destruct (foldl _ _ _) as [[t' v'] file'].
  - specialize (Hgo t eq_refl). by destruct (foldl _ _ _) as [[t' v'] file'].
Qed.

Lemma on_alone w v i f (Q : World -> Prop) : alone w v -> Q w -> (forall t, w_sessions w !! i = Some (0%nat, t) -> Q (f 0%nat t v)) -> Q (on_session i f w).
Proof.
  intros (Hst & _) Hw Hf. unfold on_session. destruct (w_sessions w !! i) as [[p t]|] eqn:Ei; [|done]. rewrite Hst, lookup_singleton.
  case_decide as E; [|done]. subst. by apply Hf.
Qed.
Lemma alone_store w v p (g : VerifiedKeys -> World) (Q : World -> Prop) : alone w v -> Q w -> (p = 0%nat -> Q (g v)) ->
  Q (match w_stores w !! p with Some v => g v | None => w end).
Proof. intros (Hst & _) Hw Hg. rewrite Hst, lookup_singleton. case_decide as E; [by apply Hg|done]. Qed.

(** What is written of a change as the process starts or reloads. *)
Lemma reloaded_stands now w v : alone w v -> standing at_ K (Some now) v (Some (w_file w)) ->
  exists now', standing at_ K (Some now') (verified_new true (pp_verified (w_file w))) (Some (w_file w)).
Proof.
  intros (_ & Hk & Hs & Hwf) [H1 H2 H3 H4 H5]. unfold changed_at in H5. rewrite at_eta in H5.
  destruct (records_changed_at at_ (vk_records v)) as [x|] eqn:Ex; [|done]. exists x. rewrite Hs.
  constructor; cbn; [done|by intros p [= <-]|done|done|]. unfold changed_at. rewrite at_eta. cbn. by rewrite Ex, lookup_empty.
Qed.

Lemma warning_step now w s : stands (Some now) w -> ~ answers at_ K w s -> exists now', stands (Some now') (trust_step w s).
Proof.
  intros Hw Hno. pose proof Hw as (v & Ha & Hst). assert (exists now', stands (Some now') w) as Hsame by eauto.
  assert (~ loses w s) as Hl by (unfold answers in Hno; tauto).
  destruct s as [p kept|p|i p server|i|i peers written|i user key verified name written|i user shown written|p key written|readable]; cbn [trust_step].
  - cbn in Hl. assert (p = 0%nat /\ kept = true /\ w_readable w = true) as (-> & -> & Hr).
    { destruct kept, (w_readable w); destruct (decide (p = 0%nat)); tauto. }
    destruct (reloaded_stands now w v Ha Hst) as [now' Hst']. exists now', (verified_new true (pp_verified (w_file w))).
    unfold w_cell. rewrite Hr. cbn. split; [|done]. destruct Ha as (Es & _ & Hs & Hwf). split_and!; cbn; [by rewrite Es, insert_singleton_eq|done..|by rewrite Hs].
  - apply (alone_store w v); [done..|]. intros ->. cbn in Hl. unfold w_cell. destruct (w_readable w) eqn:Hr; [|done].
    destruct (reloaded_stands now w v Ha Hst) as [now' Hst']. exists now'. unfold store_reload. destruct Ha as (Es & Hk & Hs & Hwf). rewrite Hk. cbn.
    exists (verified_new true (pp_verified (w_file w))). split; [|done]. split_and!; cbn; [by rewrite Es, insert_singleton_eq|done..|by rewrite Hs].
  - done.
  - apply (on_alone w v); [done..|]. intros t _. done.
  - apply (on_alone w v); [done..|]. intros t Hi. pose proof (note_stands (Some now) w v t written peers i Ha Hst) as H.
    destruct (trust_note _ _ _ _ _) as [b [[t' v'] file']]. eassert _ as Hp; [|specialize (H Hp)].
    { intros Et key Hk _. unfold showable. destruct (decide (key = K)) as [|Hne]; [by left|right]. split; [|by left].
      apply not_true_is_false. intros Hv. apply Hno. right. exists 0%nat, t, v, key. destruct Ha as (Es & _). rewrite Es, lookup_singleton_eq. by split_and!. }
    destruct (decide (tr_server t = sa_server at_)); [|eauto]. destruct (peers !! sa_user at_) as [key|]; [|eauto]. destruct (decide _); eauto.
  - apply (on_alone w v); [done..|]. intros t Hi. unfold trust_set_verified. exists now. destruct (decide _) as [Et|]; [|by apply put_same].
    destruct verified; [unfold verified_verify|unfold verified_unverify].
    + pose proof (act_stands (Some now) w v written (verify_change (mkSeenAs (tr_server t) user) key name) Ha Hst) as H. unfold verify_change in H at 2.
      destruct (verified_change _ _ _ _) as [[ok v'] file']. apply H. intros r Hwf Hs Hc. apply verify_change_keeps; [done| |].
      * intros E. apply Hno. right. exists 0%nat, t. auto.
      * rewrite Hc. intros [= ->]. apply Hno. right. exists 0%nat, t. split; [done|]. right. by apply stands_warned.
    + pose proof (act_stands (Some now) w v written (drop_verified key) Ha Hst) as H. destruct (verified_change _ _ _ _) as [[ok v'] file']. apply H.
      intros r Hwf Hs Hc. apply drop_keeps; [done| |done]. intros ->. apply Hno. by right.
  - apply (on_alone w v); [done..|]. intros t Hi. pose proof (dismiss_acts written user shown t v (w_cell w)) as H. exists now.
    destruct (trust_dismiss _ _ _ _ _ _) as [[r v'] file']. destruct H as [(ok & watched & v1 & Ek & Er & Esh & E)|[-> ->]]; [|by apply put_same].
    assert (mkSeenAs (tr_server t) user <> at_) as Hne by (intros E'; apply Hno; right; by exists 0%nat, t).
    set (w1 := mkWorld (w_file w) (w_readable w) {[0%nat := v1]} (w_sessions w)).
    assert (alone w1 v1) as Ha1 by (destruct Ha as (? & ? & ? & ?); split_and!; cbn; congruence).
    assert (standing at_ K (Some now) v1 (Some (w_file w1))) as Hst1.
    { destruct Hst as [H1 H2 H3 H4 H5]. constructor; rewrite ?Er, ?Ek; try done. unfold changed_at in *. rewrite at_eta in *. rewrite Er, Esh; congruence. }
    pose proof (act_stands (Some now) w1 v1 written (dismiss_change (mkSeenAs (tr_server t) user) watched) Ha1 Hst1) as H.
    change (w_cell w1) with (w_cell w) in H. rewrite <- E in H. unfold put_store in *. cbn in H. destruct Ha as (Es & _). rewrite Es, insert_singleton_eq.
    rewrite insert_singleton_eq in H. apply H. intros r0 Hwf _ _. by apply dismiss_keeps.
  - apply (alone_store w v); [done..|]. intros ->. exists now. unfold verified_unverify.
    pose proof (act_stands (Some now) w v written (drop_verified key) Ha Hst) as H. destruct (verified_change _ _ _ _) as [[ok v'] file']. apply H.
    intros r Hwf Hs Hc. apply drop_keeps; [done| |done]. intros ->. apply Hno. by right.
  - exists now, v. done.
Qed.

Lemma warning_run ss now w : stands (Some now) w -> unanswered at_ K w ss -> exists now', stands (Some now') (trust_run ss w).
Proof.
  revert now w. induction ss as [|s ss IH]; intros now w Hw Hu; [by exists now|]. destruct Hu as [Hno Hu].
  destruct (warning_step now w s Hw Hno) as [now' Hw']. by apply (IH now').
Qed.
End At.

(** ** From the start of the process *)

Lemma alone_everywhere w v : alone w v -> everywhere records_wf w.
Proof.
  intros (Es & _ & Hs & Hwf). split; [by rewrite Hs|]. intros p v'. rewrite Es, lookup_singleton. case_decide; [by intros [= <-]|done].
Qed.

Lemma alone_step w v s : alone w v -> ~ loses w s -> exists v', alone (trust_step w s) v'.
Proof.
  intros Ha Hl.
  assert (forall v', w_stores (trust_step w s) = {[0%nat := v']} -> vk_kept v' = true -> pp_verified (w_file (trust_step w s)) = vk_records v' -> exists v', alone (trust_step w s) v') as Hgo.
  { intros v' Es Hk Hs. exists v'. split_and!; [done..|]. assert (everywhere records_wf (trust_step w s)) as [_ He].
    { apply everywhere_step; [apply records_default_wf|by apply wf_catch_up|by intros; eapply step_does_wf|by apply (alone_everywhere w v)]. }
    apply (He 0%nat). by rewrite Es, lookup_singleton_eq. }
  assert (forall v' file, in_step (default (w_file w) file) v' file -> w_stores (trust_step w s) = w_stores (put_store 0 v' file w) ->
    w_file (trust_step w s) = w_file (put_store 0 v' file w) -> exists v', alone (trust_step w s) v') as Hput.
  { intros v' file (Hk & Hs & _) Es Ef. apply (Hgo v'); [|done|by rewrite Ef]. rewrite Es. cbn. destruct Ha as (-> & _). by rewrite insert_singleton_eq. }
  pose proof (alone_in_step w v Ha) as Hin.
  assert (in_step (default (w_file w) (w_cell w)) v (w_cell w)) as Hsame by (unfold w_cell in *; by destruct (w_readable w)).
  pose proof Ha as (Es & Hk & Hs & Hwf). revert Hgo Hput. 
  assert (forall i f (Q : World -> Prop), Q w -> (forall t, w_sessions w !! i = Some (0%nat, t) -> Q (f 0%nat t v)) -> Q (on_session i f w)) as Hon by (intros; by apply (on_alone w v)).
  destruct s as [p kept|p|i p server|i|i peers written|i user key verified name written|i user shown written|p key written|readable]; cbn [trust_step]; intros Hgo Hput.
  - cbn in Hl. assert (p = 0%nat /\ kept = true /\ w_readable w = true) as (-> & -> & Hr).
    { destruct kept, (w_readable w); destruct (decide (p = 0%nat)); tauto. }
    apply (Hgo (verified_new true (pp_verified (w_file w)))); [|done..]. cbn. unfold w_cell. by rewrite Hr, Es, insert_singleton_eq.
  - revert Hgo Hput. rewrite Es, lookup_singleton. case_decide as E; [|eauto]. subst p. intros _ Hput. cbn in Hl.
    apply (Hput (store_reload v (w_cell w)).2 (w_cell w)); [|done..]. unfold store_reload, w_cell in *. rewrite Hk. destruct (w_readable w); [|done]. cbn. unfold in_step. auto.
  - eauto.
  - apply Hon; eauto.
  - revert Hgo Hput. apply Hon; [eauto|]. intros t Hi _ _. unfold trust_note. set (new := filter _ _).
    assert (forall t0, exists v', alone (let '(t', v', file') := foldl (note_one written) (t0, v, w_cell w) new in put_trust i 0 t' (put_store 0 v' file' w)) v') as H.
    { intros t0. pose proof (notes_synced written new t0 v (w_cell w) (w_file w) Hin) as H.
      pose proof (note_both records_wf written new) as Hb. specialize (Hb ltac:(by intros; apply wf_catch_up) t0 v (w_cell w)).
      destruct (foldl _ _ new) as [[t' v'] file']. exists v'. destruct H as ((Hk' & Hs' & _) & _). split_and!; [cbn; by rewrite Es, insert_singleton_eq|done..|].
      apply Hb; [intros; unfold seen_change, push_change; split; auto with records|]. apply both_cell; [by apply (alone_everywhere w v)|done]. }
    clearbody new. destruct new as [|n new']; [apply (H t)|]. destruct (_ <? _).
    + match goal with |- context [foldl _ (?t0, v, w_cell w) _] => specialize (H t0) end. by destruct (foldl _ _ _) as [[t' v'] file'].
    + specialize (H t). by destruct (foldl _ _ _) as [[t' v'] file'].
  - revert Hgo Hput. apply Hon; [eauto|]. intros t Hi Hgo Hput. pose proof (set_acts written user key verified name t v (w_cell w)) as H.
    destruct (trust_set_verified _ _ _ _ _ _ _ _) as [[r v'] file']. apply (Hput v' file'); [|done..]. destruct H as [(_ & ok & H)|[-> ->]]; [|done].
    by apply (acts_synced _ _ _ _ _ _ _ Hin) in H as [? _].
  - revert Hgo Hput. apply Hon; [eauto|]. intros t Hi Hgo Hput. pose proof (dismiss_acts written user shown t v (w_cell w)) as H.
    destruct (trust_dismiss _ _ _ _ _ _) as [[r v'] file']. apply (Hput v' file'); [|done..]. destruct H as [(ok & watched & v1 & Ek & Er & _ & E)|[-> ->]]; [|done].
    pose proof (change_acts written (dismiss_change (mkSeenAs (tr_server t) user) watched) v1 (w_cell w)) as H. rewrite <- E in H. destruct H as [H _].
    apply (acts_synced _ _ _ _ _ _ (w_file w)) in H as [? _]; [done|]. destruct Hin as (? & ? & ?). split_and!; congruence || done.
  - revert Hgo Hput. rewrite Es, lookup_singleton. case_decide as E; [|eauto]. subst p. intros _ Hput. unfold verified_unverify in *.
    pose proof (change_acts written (drop_verified key) v (w_cell w)) as H. destruct (verified_change _ _ _ _) as [[ok v'] file']. apply (Hput v' file'); [|done..].
    destruct H as [H _]. by apply (acts_synced _ _ _ _ _ _ _ Hin) in H as [? _].
  - apply (Hgo v); done.
Qed.

(** The first process, started where [kept] is in the file. *)
Definition started (kept : People) : World := trust_step (installed kept true) (TStart 0 true).

Lemma started_alone kept before : records_wf (pp_verified kept) -> keeps_up (started kept) before -> exists v, alone (trust_run before (started kept)) v.
Proof.
  intros Hwf. assert (exists v, alone (started kept) v) as H.
  { exists (verified_new true (pp_verified kept)). split_and!; done. }
  revert H. generalize (started kept). induction before as [|s before IH]; intros w Hw Hup; [done|]. destruct Hup as [Hl Hup].
  destruct Hw as [v Ha]. apply IH; [|done]. by apply (alone_step w v).
Qed.

(** C35: In one process whose file can be read whenever it starts or reloads: once a server
    shows another, unverified key where a verified one was seen, and that is written, it is
    warned of, and no later run of the process ends the warning by itself: not the verified
    key shown again, other unverified keys, restarts, reconnects, failing writes or what other
    people show.  What may end it is an answer of the user (they verify the pair or the key
    shown, take the verified key back or dismiss it), or another verified key shown there. *)
Theorem a_changed_key_stays_warned_of (kept : People) (before after : list TrustStep) (i : nat) (t : Trust) (v : VerifiedKeys) (user : UserId) (K X : PublicKey)
  (peers : gmap Z PublicKey) (written : UserId -> PublicKey -> bool)
  (Hkept : records_wf (pp_verified kept)) (Hup : keeps_up (started kept) before)
  (Hi : w_sessions (trust_run before (started kept)) !! i = Some (0%nat, t)) (Hv : w_stores (trust_run before (started kept)) !! 0%nat = Some v)
  (HK : verified_at (tr_server t) user v = Some K) (HX : peers !! user = Some X) (Hu : is_verified X v = false) (Hnew : tr_presented t !! user <> Some X)
  (Hr : w_readable (trust_run before (started kept)) = true) (Hw : written user X = true) :
  let w := trust_step (trust_run before (started kept)) (TNote i peers written) in
  (exists v', w_stores w !! 0%nat = Some v' /\ trust_warning user t v' = Some (mkWarning user K X)) /\
  (unanswered (mkSeenAs (tr_server t) user) K w after ->
   exists v' now, w_stores (trust_run after w) !! 0%nat = Some v' /\ trust_warning user t v' = Some (mkWarning user K now)).
Proof.
  set (w0 := trust_run before (started kept)) in *. set (at_ := mkSeenAs (tr_server t) user). intros w.
  destruct (started_alone kept before Hkept Hup) as [v0 Ha]. fold w0 in Ha. assert (v0 = v) as ->.
  { destruct Ha as (Es & _). rewrite Es, lookup_singleton_eq in Hv. by injection Hv. }
  assert (forall now w', stands at_ K (Some now) w' -> exists v', w_stores w' !! 0%nat = Some v' /\ trust_warning user t v' = Some (mkWarning user K now)) as Hwarn.
  { intros now w' (v' & (Es & _) & Hst). exists v'. split; [by rewrite Es, lookup_singleton_eq|]. unfold trust_warning.
    rewrite (st_now _ _ _ _ _ Hst : changed_at (tr_server t) user v' = _), (standing_verified _ _ _ _ _ Hst : verified_at (tr_server t) user v' = _). done. }
  assert (K <> X) as Hne.
  { intros <-. destruct Ha as (_ & _ & _ & Hwf). unfold verified_at in HK. apply seen_under_spec in HK as (e & He & _); [|done].
    apply bool_decide_eq_false in Hu. apply Hu. eauto. }
  assert (stands at_ K (Some X) w) as Hstands.
  { pose proof (note_stands at_ K (changed_at (tr_server t) user v) w0 v t written peers i Ha) as H. unfold w, trust_step, on_session. rewrite Hi, Hv.
    destruct (trust_note _ _ _ _ _) as [b [[t' v'] file']]. cbn in H. rewrite decide_True, HX, decide_False in H by (done || tauto || naive_solver). apply H.
    - destruct Ha as (_ & Hk & Hs & Hwf). constructor; [done| |done| |done]; [by intros p [= <-]|]. by apply seen_under_spec.
    - intros _ key [= <-] _. right. split; [done|]. right. split; [done|]. unfold w_cell. rewrite Hr. eauto. }
  split; [by apply Hwarn|]. intros Hun. destruct (warning_run at_ K after X w Hstands Hun) as [now Hnow].
  destruct (Hwarn now _ Hnow) as (v' & ? & ?). by exists v', now.
Qed.

(** Mara is verified; the server swaps her key, shows the right one again, the client
    restarts and sees yet another: she is warned of all along. *)
Lemma a_changed_key_stays_warned_of_witness :
  let yes := fun _ _ => true in
  let before := [TOpen 0 0 [1]; TNote 0 {[7 := [4]]} yes; TSet 0 7 [4] true (lit "Mara") true] in
  let after := [TNote 0 {[7 := [4]]} yes; TForget 0; TAccess false; TAccess true; TStart 0 true; TOpen 1 0 [1]; TNote 1 {[7 := [10]]} yes] in
  let w := trust_step (trust_run before (started people_default)) (TNote 0 {[7 := [9]]} yes) in
  exists v' now, w_stores (trust_run after w) !! 0%nat = Some v' /\ trust_warning 7 (trust_new [1]) v' = Some (mkWarning 7 [4] now).
Proof.
  intros yes before after w.
  set (t := mkTrust [1] {[7 := [4]]}). set (v := mkVerified true (mkRecords {[ [4] := mkEntry (lit "Mara") {[mkSeenAs [1] 7]} ]} []) ∅).
  apply (a_changed_key_stays_warned_of people_default before after 0 t v 7 [4] [9] {[7 := [9]]} yes); try (vm_compute; reflexivity).
  - apply records_default_wf.
  - cbn. tauto.
  - vm_compute. congruence.
  - cbn [unanswered after]. split_and!; [|intros [[]|[]]|intros [[]|[]]|intros [[]|[]]| |intros [[]|[]]| |done].
    + intros [[]|(p & t' & v' & key & _ & _ & _ & Hp & Hne & _)]. vm_compute in Hp. congruence.
    + intros [[?|[?|Hr]]|[]]; [done..|]. vm_compute in Hr. done.
    + intros [[]|(p & t' & v' & key & Hi & Hv & _ & Hp & _ & Hver)]. vm_compute in Hp, Hi, Hv.
      injection Hi as <- <-. injection Hv as <-. injection Hp as <-. vm_compute in Hver. done.
Defined.

(** With two processes one of which loaded the file before the pair was seen, a server can end
    the warning by showing the verified key again: the stale process takes it as news and
    forgets the change in the file, and the first process follows as it reads the file again. *)
Lemma a_stale_process_hides_a_change :
  let yes := fun _ _ => true in
  let swapped := trust_run [TStart 0 true; TOpen 0 0 [2]; TNote 0 {[3 := [4]]} yes; TSet 0 3 [4] true (lit "Mara") true; TStart 1 true;
                            TOpen 1 0 [1]; TNote 1 {[7 := [4]]} yes; TNote 1 {[7 := [9]]} yes] (installed people_default true) in
  let shown_again := trust_run [TOpen 2 1 [1]; TNote 2 {[7 := [4]]} yes; TReload 0] swapped in
  (trust_warning 7 (trust_new [1]) <$> w_stores swapped !! 0%nat) = Some (Some (mkWarning 7 [4] [9])) /\
  (trust_warning 7 (trust_new [1]) <$> w_stores shown_again !! 0%nat) = Some None.
Proof. split; vm_compute; reflexivity. Qed.
