(* ===== verification/ClientState.v ===== *)
(** * What a client shows (throcc-client-core, state.rs)

    The state a client's windows draw, the names in it, the choices for a share, and the cache
    of profile pictures next to it (session.rs, [Shared]). *)
From Stdlib Require Import SpecFloat.
From stdpp Require Import pretty.
From S2P Require Import Prelude Float64 Ids Messages JsonFile People Verified Trust.
Open Scope Z_scope.

(** ** The parts of the state *)

(* @src/crates/throcc-client-core/src/state.rs 74-81 ServerView *)
Record ServerView := mkServerView { sv_address : str; sv_fingerprint : bytes; sv_name : option str; sv_avatar : option Hash }.
(* @src/crates/throcc-client-core/src/state.rs 84-87 ServerView::title *)
Definition title (s : ServerView) : str := default (sv_address s) (sv_name s).

(* @src/crates/throcc-client-core/src/state.rs 90-100 ConnectionStatus *)
Inductive ConnectionStatus := Disconnected | Connected | Reconnecting (attempt : Z) (reason : str) | Failed (reason : str).

(* @src/crates/throcc-client-core/src/state.rs 102-108 RoomView *)
Record RoomView := mkRoomView { rv_id : RoomId; rv_name : str; rv_locked : bool }.

(* @src/crates/throcc-client-core/src/state.rs 120-124 shown_name *)
Definition shown_name (name : str) : option str := valid_name name.
(* @src/crates/throcc-client-core/src/state.rs 126-128 person_name *)
Definition person_name (user : UserId) (name : str) : str := default (lit "User " ++ lit (pretty user)) (shown_name name).
(* @src/crates/throcc-client-core/src/state.rs 130-132 room_name *)
Definition room_name (room : RoomId) (name : str) : str := default (lit "Room " ++ lit (pretty room)) (shown_name name).

(* @src/crates/throcc-client-core/src/state.rs 111-117 RoomView::from *)
Definition room_view (room : Room) : RoomView := mkRoomView (rm_id room) (room_name (rm_id room) (rm_name room)) (rm_locked room).

(* @src/crates/throcc-client-core/src/state.rs 134-152 Person *)
Record Person := mkPerson {
  pn_name : str; pn_avatar : option Hash; pn_room : option RoomId; pn_mic : bool; pn_deafened : bool;
  pn_sharing : option ShareConfig; pn_audience : Z; pn_speaking : bool; pn_playback : Playback;
  pn_verified : bool; pn_identity_key : option PublicKey; pn_role : Role
}.
Definition set_sharing (sharing : option ShareConfig) (audience : Z) (p : Person) : Person :=
  mkPerson (pn_name p) (pn_avatar p) (pn_room p) (pn_mic p) (pn_deafened p) sharing audience (pn_speaking p) (pn_playback p) (pn_verified p) (pn_identity_key p) (pn_role p).
Definition set_speaking (speaking : bool) (p : Person) : Person :=
  mkPerson (pn_name p) (pn_avatar p) (pn_room p) (pn_mic p) (pn_deafened p) (pn_sharing p) (pn_audience p) speaking (pn_playback p) (pn_verified p) (pn_identity_key p) (pn_role p).
Definition set_playback (playback : Playback) (p : Person) : Person :=
  mkPerson (pn_name p) (pn_avatar p) (pn_room p) (pn_mic p) (pn_deafened p) (pn_sharing p) (pn_audience p) (pn_speaking p) playback (pn_verified p) (pn_identity_key p) (pn_role p).
Definition set_trust (trust : bool * option PublicKey) (p : Person) : Person :=
  mkPerson (pn_name p) (pn_avatar p) (pn_room p) (pn_mic p) (pn_deafened p) (pn_sharing p) (pn_audience p) (pn_speaking p) (pn_playback p) trust.1 trust.2 (pn_role p).

(* @src/crates/throcc-client-core/src/state.rs 215-221 CurrentRoom *)
Record CurrentRoom := mkCurrent { cr_room : RoomId; cr_sharing : option ShareConfig; cr_watching : list UserId }.

(* @src/crates/throcc-client-core/src/state.rs 261-269 TrackHealth *)
Record TrackHealth := mkTrackHealth { th_label : str; th_detail : str; th_set_kbps : option Z; th_arriving_kbps : option Z; th_loss : option f32 }.
(* @src/crates/throcc-client-core/src/state.rs 271-280 SentTrack *)
Record SentTrack := mkSentTrack { sk_label : str; sk_detail : str; sk_set_kbps : Z; sk_leaving_kbps : Z; sk_dropped : option Z }.
(* @src/crates/throcc-client-core/src/state.rs 244-259 Health *)
Record Health := mkHealth {
  hl_rtt_ms : f32; hl_download_kbps : Z; hl_upload_kbps : Z; hl_upload_loss : f32; hl_download_loss : f32;
  hl_dropped_for_you : Z; hl_slow_shares : gset UserId; hl_receiving : list TrackHealth; hl_sending : list SentTrack
}.
Definition zero32 : f32 := S754_zero false.
Definition health_default : Health := mkHealth zero32 0 0 zero32 zero32 0 ∅ [] [].

(* @src/crates/throcc-client-core/src/state.rs 14-29 State *)
Record State := mkState {
  vw_server : option ServerView; vw_connection : ConnectionStatus; vw_me : option UserId; vw_role : option Role;
  vw_rooms : list RoomView; vw_people : gmap UserId Person; vw_current : option CurrentRoom;
  vw_mic : bool; vw_deafened : bool; vw_key_warnings : list KeyWarning; vw_health : Health
}.
Definition state_default : State := mkState None Disconnected None None [] ∅ None false false [] health_default.

(** One field changed. *)
Definition on_server (f : option ServerView -> option ServerView) (s : State) : State :=
  mkState (f (vw_server s)) (vw_connection s) (vw_me s) (vw_role s) (vw_rooms s) (vw_people s) (vw_current s) (vw_mic s) (vw_deafened s) (vw_key_warnings s) (vw_health s).
Definition set_connection (c : ConnectionStatus) (s : State) : State :=
  mkState (vw_server s) c (vw_me s) (vw_role s) (vw_rooms s) (vw_people s) (vw_current s) (vw_mic s) (vw_deafened s) (vw_key_warnings s) (vw_health s).
Definition set_identity (me : option UserId) (role : option Role) (s : State) : State :=
  mkState (vw_server s) (vw_connection s) me role (vw_rooms s) (vw_people s) (vw_current s) (vw_mic s) (vw_deafened s) (vw_key_warnings s) (vw_health s).
Definition on_rooms (f : list RoomView -> list RoomView) (s : State) : State :=
  mkState (vw_server s) (vw_connection s) (vw_me s) (vw_role s) (f (vw_rooms s)) (vw_people s) (vw_current s) (vw_mic s) (vw_deafened s) (vw_key_warnings s) (vw_health s).
Definition on_people (f : gmap UserId Person -> gmap UserId Person) (s : State) : State :=
  mkState (vw_server s) (vw_connection s) (vw_me s) (vw_role s) (vw_rooms s) (f (vw_people s)) (vw_current s) (vw_mic s) (vw_deafened s) (vw_key_warnings s) (vw_health s).
Definition on_current (f : option CurrentRoom -> option CurrentRoom) (s : State) : State :=
  mkState (vw_server s) (vw_connection s) (vw_me s) (vw_role s) (vw_rooms s) (vw_people s) (f (vw_current s)) (vw_mic s) (vw_deafened s) (vw_key_warnings s) (vw_health s).
Definition set_switches (mic deafened : bool) (s : State) : State :=
  mkState (vw_server s) (vw_connection s) (vw_me s) (vw_role s) (vw_rooms s) (vw_people s) (vw_current s) mic deafened (vw_key_warnings s) (vw_health s).
Definition set_warnings (w : list KeyWarning) (s : State) : State :=
  mkState (vw_server s) (vw_connection s) (vw_me s) (vw_role s) (vw_rooms s) (vw_people s) (vw_current s) (vw_mic s) (vw_deafened s) w (vw_health s).
Definition set_health (h : Health) (s : State) : State :=
  mkState (vw_server s) (vw_connection s) (vw_me s) (vw_role s) (vw_rooms s) (vw_people s) (vw_current s) (vw_mic s) (vw_deafened s) (vw_key_warnings s) h.

(** ** Reading and changing it *)

(* @src/crates/throcc-client-core/src/state.rs 32-34 State::person *)
Definition person_of (user : UserId) (s : State) : option Person := vw_people s !! user.
(* @src/crates/throcc-client-core/src/state.rs 36-40 State::occupants *)
Definition occupants (room : RoomId) (s : State) : gmap UserId Person := filter (fun p => pn_room p.2 = Some room) (vw_people s).
(* @src/crates/throcc-client-core/src/state.rs 42-44 State::room *)
Definition room_of (room : RoomId) (s : State) : option RoomView := List.find (fun r => bool_decide (rv_id r = room)) (vw_rooms s).
(** The first room of that id changed. *)
(* @src/crates/throcc-client-core/src/state.rs 46-48 State::room_mut *)
Fixpoint room_mut (room : RoomId) (f : RoomView -> RoomView) (rooms : list RoomView) : list RoomView :=
  match rooms with
  | [] => []
  | r :: rooms => if decide (rv_id r = room) then f r :: rooms else r :: room_mut room f rooms
  end.

(* @src/crates/throcc-client-core/src/state.rs 50-55 State::avatars_in_use *)
Definition avatars_in_use (s : State) : gset Hash :=
  list_to_set (option_list (server ← vw_server s; sv_avatar server) ++ omap (fun p => pn_avatar p.2) (map_to_list (vw_people s))).

(* @src/crates/throcc-client-core/src/state.rs 57-64 State::add_room *)
Definition add_room (room : RoomView) (s : State) : State :=
  on_rooms (fun rooms =>
    match room_of (rv_id room) s with
    | Some _ => room_mut (rv_id room) (fun _ => room) rooms
    | None => if Z.of_nat (length rooms) <? MAX_ROOMS then rooms ++ [room] else rooms
    end) s.

(* @src/crates/throcc-client-core/src/state.rs 66-71 State::add_person *)
Definition add_person (user : UserId) (person : Person) (s : State) : State :=
  if (Z.of_nat (size (vw_people s)) <? MAX_SIGNED_IN) || bool_decide (is_Some (vw_people s !! user))
  then on_people (<[user := person]>) s else s.

(** ** The derived [==]

    It is that of the values but on [f32]. *)

Definition person_eqb (a b : Person) : bool :=
  bool_decide (pn_name a = pn_name b) && bool_decide (pn_avatar a = pn_avatar b) && bool_decide (pn_room a = pn_room b) &&
  Bool.eqb (pn_mic a) (pn_mic b) && Bool.eqb (pn_deafened a) (pn_deafened b) && bool_decide (pn_sharing a = pn_sharing b) &&
  (pn_audience a =? pn_audience b) && Bool.eqb (pn_speaking a) (pn_speaking b) && playback_eqb (pn_playback a) (pn_playback b) &&
  Bool.eqb (pn_verified a) (pn_verified b) && bool_decide (pn_identity_key a = pn_identity_key b) && bool_decide (pn_role a = pn_role b).
Definition people_eqb (a b : gmap UserId Person) : bool :=
  bool_decide (dom a = dom b) && forallb (fun p => match b !! p.1 with Some q => person_eqb p.2 q | None => false end) (map_to_list a).

#[export] Instance server_view_eq_dec : EqDecision ServerView.
Proof. solve_decision. Defined.
#[export] Instance connection_eq_dec : EqDecision ConnectionStatus.
Proof. solve_decision. Defined.
#[export] Instance room_view_eq_dec : EqDecision RoomView.
Proof. solve_decision. Defined.
#[export] Instance current_eq_dec : EqDecision CurrentRoom.
Proof. solve_decision. Defined.
#[export] Instance warning_eq_dec : EqDecision KeyWarning.
Proof. solve_decision. Defined.
#[export] Instance sent_track_eq_dec : EqDecision SentTrack.
Proof. solve_decision. Defined.

Definition track_health_eqb (a b : TrackHealth) : bool :=
  bool_decide (th_label a = th_label b) && bool_decide (th_detail a = th_detail b) && bool_decide (th_set_kbps a = th_set_kbps b) &&
  bool_decide (th_arriving_kbps a = th_arriving_kbps b) &&
  match th_loss a, th_loss b with Some a, Some b => SFeqb a b | None, None => true | _, _ => false end.
Fixpoint all_eqb {A} (eqb : A -> A -> bool) (a b : list A) : bool :=
  match a, b with [], [] => true | x :: a, y :: b => eqb x y && all_eqb eqb a b | _, _ => false end.
Definition health_eqb (a b : Health) : bool :=
  SFeqb (hl_rtt_ms a) (hl_rtt_ms b) && (hl_download_kbps a =? hl_download_kbps b) && (hl_upload_kbps a =? hl_upload_kbps b) &&
  SFeqb (hl_upload_loss a) (hl_upload_loss b) && SFeqb (hl_download_loss a) (hl_download_loss b) &&
  (hl_dropped_for_you a =? hl_dropped_for_you b) && bool_decide (hl_slow_shares a = hl_slow_shares b) &&
  all_eqb track_health_eqb (hl_receiving a) (hl_receiving b) && bool_decide (hl_sending a = hl_sending b).
Definition state_eqb (a b : State) : bool :=
  bool_decide (vw_server a = vw_server b) && bool_decide (vw_connection a = vw_connection b) && bool_decide (vw_me a = vw_me b) &&
  bool_decide (vw_role a = vw_role b) && bool_decide (vw_rooms a = vw_rooms b) && people_eqb (vw_people a) (vw_people b) &&
  bool_decide (vw_current a = vw_current b) && Bool.eqb (vw_mic a) (vw_mic b) && Bool.eqb (vw_deafened a) (vw_deafened b) &&
  bool_decide (vw_key_warnings a = vw_key_warnings b) && health_eqb (vw_health a) (vw_health b).

(** ** What to share *)

(* @src/crates/throcc-client-core/src/state.rs 9-9 MIC_KBPS *)
Definition MIC_KBPS : Z := 64.
(* @src/crates/throcc-client-core/src/media/share_audio.rs 9-10 KBPS *)
Definition SHARE_AUDIO_KBPS : Z := 128.
(* @src/crates/throcc-client-core/src/state.rs 11-11 VOICE_DETAIL *)
Definition VOICE_DETAIL : str := lit "Opus voice, mono".
(* @src/crates/throcc-client-core/src/state.rs 12-12 SHARE_AUDIO_DETAIL *)
Definition SHARE_AUDIO_DETAIL : str := lit "Opus music, stereo".

(* @src/crates/throcc-client-core/src/state.rs 282-288 Resolution *)
Inductive Resolution := P720 | P1080 | P1440.
(* @src/crates/throcc-client-core/src/state.rs 291-291 Resolution::ALL *)
Definition all_resolutions : list Resolution := [P720; P1080; P1440].
(* @src/crates/throcc-client-core/src/state.rs 293-299 Resolution::height *)
Definition height (r : Resolution) : Z := match r with P720 => 720 | P1080 => 1080 | P1440 => 1440 end.
(* @src/crates/throcc-client-core/src/state.rs 301-307 Resolution::label *)
Definition resolution_label (r : Resolution) : str := match r with P720 => lit "720p" | P1080 => lit "1080p" | P1440 => lit "1440p" end.

(* @src/crates/throcc-client-core/src/state.rs 310-310 FRAME_RATES *)
Definition FRAME_RATES : list Z := [15; 30; 60].
(* @src/crates/throcc-client-core/src/state.rs 312-315 BITRATES *)
Definition BITRATES : list Z := [1000; 1500; 2000; 3000; 4000; 5000; 6000; 8000; 10000; 12000; 15000].

(** [ch_fps] is a [u8], [ch_kbps] a [u32]. *)
(* @src/crates/throcc-client-core/src/state.rs 317-323 ShareChoice *)
Record ShareChoice := mkChoice { ch_resolution : Resolution; ch_fps : Z; ch_kbps : Z }.
(* @src/crates/throcc-client-core/src/state.rs 326-332 ShareChoice::default *)
Definition choice_default : ShareChoice := mkChoice P1080 60 6000.

(* @src/crates/throcc-client-core/src/state.rs 336-350 ShareChoice::max_kbps *)
Definition max_kbps (c : ShareChoice) : Z :=
  match ch_resolution c with
  | P720 => if ch_fps c <=? 15 then 2000 else if ch_fps c <=? 30 then 4000 else 6000
  | P1080 => if ch_fps c <=? 15 then 4000 else if ch_fps c <=? 30 then 6000 else 10000
  | P1440 => if ch_fps c <=? 15 then 5000 else if ch_fps c <=? 30 then 10000 else 15000
  end.
(* @src/crates/throcc-client-core/src/state.rs 352-356 ShareChoice::bitrates *)
Definition bitrates (c : ShareChoice) : list Z := List.filter (fun k => k <=? max_kbps c) BITRATES.
(* @src/crates/throcc-client-core/src/state.rs 366-371 ShareChoice::clamped *)
Definition choice_clamped (c : ShareChoice) : ShareChoice := mkChoice (ch_resolution c) (ch_fps c) (Z.min (ch_kbps c) (max_kbps c)).
(* @src/crates/throcc-client-core/src/state.rs 358-360 ShareChoice::with_resolution *)
Definition with_resolution (r : Resolution) (c : ShareChoice) : ShareChoice := choice_clamped (mkChoice r (ch_fps c) (ch_kbps c)).
(* @src/crates/throcc-client-core/src/state.rs 362-364 ShareChoice::with_fps *)
Definition with_fps (fps : Z) (c : ShareChoice) : ShareChoice := choice_clamped (mkChoice (ch_resolution c) fps (ch_kbps c)).
(* @src/crates/throcc-client-core/src/state.rs 373-384 ShareChoice::config *)
Definition choice_config (codec : Codec) (audio : bool) (c : ShareChoice) : ShareConfig :=
  let h := height (ch_resolution c) in mkShareConfig audio (ch_kbps c) codec (h / 9 * 16) h (ch_fps c).

(* @src/crates/throcc-client-core/src/state.rs 387-394 codec_name *)
Definition codec_name (c : Codec) : str := match c with Av1 => lit "AV1" | Hevc => lit "HEVC" | H264 => lit "H.264" | Vp9 => lit "VP9" end.
(* @src/crates/throcc-client-core/src/state.rs 396-404 share_label *)
Definition share_label (c : ShareConfig) : str := lit (pretty (sc_height c)) ++ lit "p" ++ lit (pretty (sc_fps c)) ++ lit " " ++ codec_name (sc_codec c).
(** [dot] and [times] are the characters U+00B7 and U+00D7. *)
Definition dot : str := [32; 183; 32].
Definition times : str := [215].
(* @src/crates/throcc-client-core/src/state.rs 406-415 share_detail *)
Definition share_detail (c : ShareConfig) (engine : str) : str :=
  codec_name (sc_codec c) ++ dot ++ lit (pretty (sc_width c)) ++ times ++ lit (pretty (sc_height c)) ++ dot ++ lit (pretty (sc_fps c)) ++ lit " fps" ++ dot ++ engine.

(** ** The cache of profile pictures *)

(* @src/crates/throcc-client-core/src/session.rs 69-75 AvatarSlot *)
Inductive AvatarSlot := Fetching | Ready (bs : bytes) | Missing.
#[export] Instance slot_eq_dec : EqDecision AvatarSlot.
Proof. solve_decision. Defined.
(* @src/crates/throcc-client-core/src/session.rs 56-57 AVATARS_KEPT *)
Definition AVATARS_KEPT : Z := 256.

(* @src/crates/throcc-client-core/src/session.rs 89-101 Shared::avatar *)
Definition shared_avatar (hash : Hash) (avatars : gmap bytes AvatarSlot) : option bytes * bool * gmap bytes AvatarSlot :=
  match avatars !! hash with
  | Some (Ready bs) => (Some bs, false, avatars)
  | Some _ => (None, false, avatars)
  | None => (None, true, <[hash := Fetching]> avatars)
  end.
(* @src/crates/throcc-client-core/src/session.rs 103-105 Shared::forget_avatar *)
Definition forget_avatar (hash : Hash) (avatars : gmap bytes AvatarSlot) : gmap bytes AvatarSlot := delete hash avatars.
(** The cache after, and whether the picture is announced as ready. *)
(* @src/crates/throcc-client-core/src/session.rs 107-120 Shared::set_avatar *)
Definition set_avatar (state : State) (hash : Hash) (slot : AvatarSlot) (avatars : gmap bytes AvatarSlot) : bool * gmap bytes AvatarSlot :=
  let avatars := if AVATARS_KEPT <=? Z.of_nat (size avatars)
    then filter (fun p => p.2 = Fetching \/ p.1 ∈ avatars_in_use state) avatars else avatars in
  (match slot with Ready _ => true | _ => false end, <[hash := slot]> avatars).

(** ** Names made of ids *)

Definition digit (c : char) : Prop := 48 <= c <= 57.
Lemma pretty_digit m : (m < 10)%N -> digit (Z.of_N (Ascii.N_of_ascii (pretty_N_char m))).
Proof.
  intros Hm. unfold digit. assert (exists n, (n < 10)%nat /\ m = N.of_nat n) as (n & Hn & ->) by (exists (N.to_nat m); lia).
  do 10 (destruct n as [|n]; [by vm_compute|]). lia.
Qed.
Lemma pretty_go_digits k x s : (x < 10 ^ N.of_nat k)%N -> exists ds, (length ds <= k)%nat /\ Forall digit ds /\ lit (pretty_N_go x s) = ds ++ lit s.
Proof.
  revert x s. induction k as [|k IH]; intros x s Hx.
  - exists []. assert (x = 0%N) as -> by (cbn in Hx; lia). by rewrite pretty_N_go_0.
  - destruct (decide (x = 0%N)) as [->|Hne]; [exists []; rewrite pretty_N_go_0; split_and!; [cbn; lia|constructor|done]|].
    rewrite pretty_N_go_step by lia. destruct (IH (x `div` 10)%N (String (pretty_N_char (x `mod` 10)) s)) as (ds & Hl & Hd & E).
    { apply N.Div0.div_lt_upper_bound. rewrite Nat2N.inj_succ, N.pow_succ_r' in Hx. lia. }
    exists (ds ++ [Z.of_N (Ascii.N_of_ascii (pretty_N_char (x `mod` 10)))]). rewrite E, length_app, <- app_assoc. split_and!; [cbn; lia| |done].
    apply Forall_app_2; [done|]. constructor; [|done]. by apply pretty_digit, N.mod_lt.
Qed.
Lemma pretty_digits id : is_u64 id -> let ds := lit (pretty id) in (1 <= length ds <= 20)%nat /\ Forall digit ds.
Proof.
  intros Hid ds. subst ds. unfold is_u64, u64_max in Hid. destruct id as [|p|p]; [split; [vm_compute; lia|by repeat constructor]| |lia].
  change (pretty (Z.pos p)) with (pretty_N_go (N.pos p) ""). destruct (pretty_go_digits 20 (N.pos p) "") as (ds & Hl & Hd & E).
  { replace (10 ^ N.of_nat 20)%N with 100000000000000000000%N by (vm_compute; reflexivity). lia. }
  rewrite app_nil_r in E. rewrite E. split; [|done]. split; [|done]. destruct ds; [|cbn; lia]. exfalso.
  assert (forall x s, (0 < x)%N -> pretty_N_go x s <> ""%string) as Hne.
  { induction x as [x IH] using (well_founded_induction N.lt_wf_0). intros s Hx. rewrite pretty_N_go_step by done.
    destruct (decide (x `div` 10 = 0)%N) as [->|]; [by rewrite pretty_N_go_0|]. apply IH; [by apply N.div_lt|by apply N.neq_0_lt_0]. }
  specialize (Hne (N.pos p) ""%string ltac:(lia)). by destruct (pretty_N_go (N.pos p) "").
Qed.

Lemma digit_shown c : digit c -> blank c = false /\ is_whitespace c = false /\ hides_text c = false.
Proof.
  unfold digit. intros Hc. assert (exists n, (n < 10)%nat /\ c = 48 + Z.of_nat n) as (n & Hn & ->) by (exists (Z.to_nat (c - 48)); lia).
  do 10 (destruct n as [|n]; [by vm_compute|]). lia.
Qed.
(** A fixed start and a number is a name the checks let through. *)
Lemma numbered_name start id : is_u64 id -> (1 <= length start <= 12)%nat -> starts_visible start -> Forall (fun c => hides_text c = false) start ->
  valid_name (start ++ lit (pretty id)) = Some (start ++ lit (pretty id)).
Proof.
  intros Hid Hl Hs Hh. destruct (pretty_digits id Hid) as [Hd1 Hd2]. set (ds := lit (pretty id)) in *. clearbody ds.
  assert (forall c, c ∈ ds -> blank c = false /\ is_whitespace c = false /\ hides_text c = false) as Hc by (intros c Hc; apply digit_shown; by apply (proj1 (list.Forall_forall _ _) Hd2)).
  destruct ds as [|d ds] using rev_ind; [cbn in Hd1; lia|]. clear IHds. apply valid_name_Some.
  assert (trim (start ++ ds ++ [d]) = start ++ ds ++ [d]) as ->.
  { unfold trim. rewrite trim_start_fixed by (destruct start; [cbn in Hl; lia|done]). unfold trim_end. rewrite app_assoc, rev_app_distr. cbn [rev app].
    rewrite trim_start_fixed by (cbn; apply Hc; set_solver). cbn [rev]. by rewrite rev_involutive. }
  split_and!; [done|rewrite length_app; lia|rewrite length_app; unfold MAX_NAME_CHARS; lia| |].
  - exists d. split; [set_solver|]. split; apply Hc; set_solver.
  - intros c [Hin|Hin]%elem_of_app; [by apply (proj1 (list.Forall_forall _ _) Hh)|by apply Hc].
Qed.

(** What is shown of a person or room passes the checks on names. *)
Lemma person_name_clean user raw : is_u64 user -> valid_name (person_name user raw) = Some (person_name user raw).
Proof.
  intros Hid. unfold person_name, shown_name. destruct (valid_name raw) as [m|] eqn:E; cbn.
  - apply valid_name_Some in E as (-> & E). apply valid_name_Some. by rewrite trim_trim.
  - apply (numbered_name (lit "User ")); [done|cbn; lia|done|repeat constructor].
Qed.
Lemma room_name_clean room raw : is_u64 room -> valid_name (room_name room raw) = Some (room_name room raw).
Proof.
  intros Hid. unfold room_name, shown_name. destruct (valid_name raw) as [m|] eqn:E; cbn.
  - apply valid_name_Some in E as (-> & E). apply valid_name_Some. by rewrite trim_trim.
  - apply (numbered_name (lit "Room ")); [done|cbn; lia|done|repeat constructor].
Qed.
