(* ===== verification/Jitter.v ===== *)
(** * The audio jitter buffer (throcc-client-core, media/jitter.rs)

    One remote Opus track: 20 ms packets by media timestamp, played in order 10 ms at a time,
    with a delay that follows the measured jitter.  The decoder (ropus) is a parameter: what
    it makes of the frame buffer it is given, and whether it succeeded.  A timestamp is a
    [u32]; an arrival is a count of samples. *)
From Stdlib Require Import SpecFloat.
From S2P Require Import Prelude Ordered Frame Float64 People.
Open Scope Z_scope.

(* @src/crates/throcc-client-core/src/media/audio.rs 17-18 SAMPLE_RATE *)
Definition SAMPLE_RATE : Z := 48000.
(* @src/crates/throcc-client-core/src/media/audio.rs 19-20 FRAME *)
Definition FRAME : Z := SAMPLE_RATE / 50.
(* @src/crates/throcc-client-core/src/media/audio.rs 21-22 PULL *)
Definition PULL : Z := SAMPLE_RATE / 100.
(* @src/crates/throcc-client-core/src/media/jitter.rs 7-7 MIN_TARGET *)
Definition MIN_TARGET : Z := FRAME.
(* @src/crates/throcc-client-core/src/media/jitter.rs 8-8 MAX_TARGET *)
Definition MAX_TARGET : Z := 10 * FRAME.
(* @src/crates/throcc-client-core/src/media/jitter.rs 9-10 MAX_CONCEALED *)
Definition MAX_CONCEALED : Z := 3.
(* @src/crates/throcc-client-core/src/media/jitter.rs 11-11 MAX_PACKETS *)
Definition MAX_PACKETS : Z := 64.
(* @src/crates/throcc-client-core/src/media/jitter.rs 12-15 ACCELERATE_EVERY *)
Definition ACCELERATE_EVERY : Z := 20.
(* @src/crates/throcc-client-core/src/media/jitter.rs 16-17 SPARE *)
Definition SPARE : Z := 2 * FRAME.

Inductive DecodeMode := Normal | Fec.

(* @src/crates/throcc-client-core/src/media/jitter.rs 19-32 JitterStats *)
Record JitterStats := mkStats { st_normal : Z; st_fec : Z; st_concealed : Z; st_late : Z; st_overflow : Z; st_accelerated : Z; st_rebuffered : Z; st_stretched : Z; st_realigned : Z }.
Definition stats_default : JitterStats := mkStats 0 0 0 0 0 0 0 0 0.
(** One more of a count. *)
Definition count_normal (s : JitterStats) : JitterStats := mkStats (st_normal s + 1) (st_fec s) (st_concealed s) (st_late s) (st_overflow s) (st_accelerated s) (st_rebuffered s) (st_stretched s) (st_realigned s).
Definition count_fec (s : JitterStats) : JitterStats := mkStats (st_normal s) (st_fec s + 1) (st_concealed s) (st_late s) (st_overflow s) (st_accelerated s) (st_rebuffered s) (st_stretched s) (st_realigned s).
Definition count_concealed (s : JitterStats) : JitterStats := mkStats (st_normal s) (st_fec s) (st_concealed s + 1) (st_late s) (st_overflow s) (st_accelerated s) (st_rebuffered s) (st_stretched s) (st_realigned s).
Definition count_late (s : JitterStats) : JitterStats := mkStats (st_normal s) (st_fec s) (st_concealed s) (st_late s + 1) (st_overflow s) (st_accelerated s) (st_rebuffered s) (st_stretched s) (st_realigned s).
Definition count_overflow (s : JitterStats) : JitterStats := mkStats (st_normal s) (st_fec s) (st_concealed s) (st_late s) (st_overflow s + 1) (st_accelerated s) (st_rebuffered s) (st_stretched s) (st_realigned s).
Definition count_accelerated (s : JitterStats) : JitterStats := mkStats (st_normal s) (st_fec s) (st_concealed s) (st_late s) (st_overflow s) (st_accelerated s + 1) (st_rebuffered s) (st_stretched s) (st_realigned s).
Definition count_rebuffered (s : JitterStats) : JitterStats := mkStats (st_normal s) (st_fec s) (st_concealed s) (st_late s) (st_overflow s) (st_accelerated s) (st_rebuffered s + 1) (st_stretched s) (st_realigned s).
Definition count_stretched (s : JitterStats) : JitterStats := mkStats (st_normal s) (st_fec s) (st_concealed s) (st_late s) (st_overflow s) (st_accelerated s) (st_rebuffered s) (st_stretched s + 1) (st_realigned s).
Definition count_realigned (s : JitterStats) : JitterStats := mkStats (st_normal s) (st_fec s) (st_concealed s) (st_late s) (st_overflow s) (st_accelerated s) (st_rebuffered s) (st_stretched s) (st_realigned s + 1).

(** [x as u32]: towards zero, saturating, 0 for NaN. *)
Definition f64_to_u32 (x : f64) : Z :=
  match x with
  | S754_nan | S754_zero _ | S754_infinity true | S754_finite true _ _ => 0
  | S754_infinity false => u32_max
  | S754_finite false m e => Z.min u32_max (if 0 <=? e then Z.pos m * 2 ^ e else Z.pos m / 2 ^ (- e))
  end.

Section Jitter.
Context {Decoder : Type}.

(* @src/crates/throcc-client-core/src/media/jitter.rs 34-56 JitterBuffer *)
Record JitterBuffer := mkJitter {
  jb_decoder : Decoder;
  jb_packets : gmap Z bytes;
  jb_next_ts : option Z;
  jb_playing : bool;
  jb_channels : Z;
  jb_frame : list f32;
  jb_frame_ts : Z;
  jb_frame_pos : Z;
  jb_concealed : Z;
  jb_jitter : f64;
  jb_last_transit : option Z;
  jb_pulls : Z;
  jb_lowest : Z;
  jb_stats : JitterStats
}.
Definition put_decoder (x : Decoder) (b : JitterBuffer) : JitterBuffer := mkJitter x (jb_packets b) (jb_next_ts b) (jb_playing b) (jb_channels b) (jb_frame b) (jb_frame_ts b) (jb_frame_pos b) (jb_concealed b) (jb_jitter b) (jb_last_transit b) (jb_pulls b) (jb_lowest b) (jb_stats b).
Definition put_packets (x : gmap Z bytes) (b : JitterBuffer) : JitterBuffer := mkJitter (jb_decoder b) x (jb_next_ts b) (jb_playing b) (jb_channels b) (jb_frame b) (jb_frame_ts b) (jb_frame_pos b) (jb_concealed b) (jb_jitter b) (jb_last_transit b) (jb_pulls b) (jb_lowest b) (jb_stats b).
Definition put_next_ts (x : option Z) (b : JitterBuffer) : JitterBuffer := mkJitter (jb_decoder b) (jb_packets b) x (jb_playing b) (jb_channels b) (jb_frame b) (jb_frame_ts b) (jb_frame_pos b) (jb_concealed b) (jb_jitter b) (jb_last_transit b) (jb_pulls b) (jb_lowest b) (jb_stats b).
Definition put_playing (x : bool) (b : JitterBuffer) : JitterBuffer := mkJitter (jb_decoder b) (jb_packets b) (jb_next_ts b) x (jb_channels b) (jb_frame b) (jb_frame_ts b) (jb_frame_pos b) (jb_concealed b) (jb_jitter b) (jb_last_transit b) (jb_pulls b) (jb_lowest b) (jb_stats b).
Definition put_channels (x : Z) (b : JitterBuffer) : JitterBuffer := mkJitter (jb_decoder b) (jb_packets b) (jb_next_ts b) (jb_playing b) x (jb_frame b) (jb_frame_ts b) (jb_frame_pos b) (jb_concealed b) (jb_jitter b) (jb_last_transit b) (jb_pulls b) (jb_lowest b) (jb_stats b).
Definition put_frame (x : list f32) (b : JitterBuffer) : JitterBuffer := mkJitter (jb_decoder b) (jb_packets b) (jb_next_ts b) (jb_playing b) (jb_channels b) x (jb_frame_ts b) (jb_frame_pos b) (jb_concealed b) (jb_jitter b) (jb_last_transit b) (jb_pulls b) (jb_lowest b) (jb_stats b).
Definition put_frame_ts (x : Z) (b : JitterBuffer) : JitterBuffer := mkJitter (jb_decoder b) (jb_packets b) (jb_next_ts b) (jb_playing b) (jb_channels b) (jb_frame b) x (jb_frame_pos b) (jb_concealed b) (jb_jitter b) (jb_last_transit b) (jb_pulls b) (jb_lowest b) (jb_stats b).
Definition put_frame_pos (x : Z) (b : JitterBuffer) : JitterBuffer := mkJitter (jb_decoder b) (jb_packets b) (jb_next_ts b) (jb_playing b) (jb_channels b) (jb_frame b) (jb_frame_ts b) x (jb_concealed b) (jb_jitter b) (jb_last_transit b) (jb_pulls b) (jb_lowest b) (jb_stats b).
Definition put_concealed (x : Z) (b : JitterBuffer) : JitterBuffer := mkJitter (jb_decoder b) (jb_packets b) (jb_next_ts b) (jb_playing b) (jb_channels b) (jb_frame b) (jb_frame_ts b) (jb_frame_pos b) x (jb_jitter b) (jb_last_transit b) (jb_pulls b) (jb_lowest b) (jb_stats b).
Definition put_jitter (x : f64) (b : JitterBuffer) : JitterBuffer := mkJitter (jb_decoder b) (jb_packets b) (jb_next_ts b) (jb_playing b) (jb_channels b) (jb_frame b) (jb_frame_ts b) (jb_frame_pos b) (jb_concealed b) x (jb_last_transit b) (jb_pulls b) (jb_lowest b) (jb_stats b).
Definition put_last_transit (x : option Z) (b : JitterBuffer) : JitterBuffer := mkJitter (jb_decoder b) (jb_packets b) (jb_next_ts b) (jb_playing b) (jb_channels b) (jb_frame b) (jb_frame_ts b) (jb_frame_pos b) (jb_concealed b) (jb_jitter b) x (jb_pulls b) (jb_lowest b) (jb_stats b).
Definition put_pulls (x : Z) (b : JitterBuffer) : JitterBuffer := mkJitter (jb_decoder b) (jb_packets b) (jb_next_ts b) (jb_playing b) (jb_channels b) (jb_frame b) (jb_frame_ts b) (jb_frame_pos b) (jb_concealed b) (jb_jitter b) (jb_last_transit b) x (jb_lowest b) (jb_stats b).
Definition put_lowest (x : Z) (b : JitterBuffer) : JitterBuffer := mkJitter (jb_decoder b) (jb_packets b) (jb_next_ts b) (jb_playing b) (jb_channels b) (jb_frame b) (jb_frame_ts b) (jb_frame_pos b) (jb_concealed b) (jb_jitter b) (jb_last_transit b) (jb_pulls b) x (jb_stats b).
Definition put_stats (x : JitterStats) (b : JitterBuffer) : JitterBuffer := mkJitter (jb_decoder b) (jb_packets b) (jb_next_ts b) (jb_playing b) (jb_channels b) (jb_frame b) (jb_frame_ts b) (jb_frame_pos b) (jb_concealed b) (jb_jitter b) (jb_last_transit b) (jb_pulls b) (jb_lowest b) x.

Definition zero : f32 := S754_zero false.
Definition silence (n : Z) : list f32 := replicate (Z.to_nat n) zero.

(** [decoder] is a fresh one. *)
(* @src/crates/throcc-client-core/src/media/jitter.rs 59-77 JitterBuffer::new *)
Definition jitter_new (decoder : Decoder) (channels : Z) : JitterBuffer :=
  mkJitter decoder ∅ None false channels (silence (FRAME * channels)) 0 FRAME 0 (S754_zero false) None 0 u32_max stats_default.

(** [a - b] on [i64], wrapping. *)
Definition sub_i64 (a b : Z) : Z := as_i64 (wrap64 (a - b)).

(** The estimate of the jitter, one sixteenth of the way to the newest difference. *)
(* @src/crates/throcc-client-core/src/media/jitter.rs 83-89! JitterBuffer::insert *)
Definition measure (transit : Z) (b : JitterBuffer) : f64 :=
  match jb_last_transit b with
  | Some last =>
      let d := f64_of_Z (Z.abs (sub_i64 transit last)) in
      if SFltb d (f64_mul (f64_of_Z MAX_TARGET) (f64_of_Z 4))
      then f64_add (jb_jitter b) (f64_div (f64_sub d (jb_jitter b)) (f64_of_Z 16)) else jb_jitter b
  | None => jb_jitter b
  end.

(* @src/crates/throcc-client-core/src/media/jitter.rs 79-111 JitterBuffer::insert *)
Definition jitter_insert (timestamp : Z) (payload : bytes) (arrival : Z) (b : JitterBuffer) : JitterBuffer :=
  let transit := sub_i64 (as_i64 arrival) timestamp in
  let b := put_last_transit (Some transit) (put_jitter (measure transit b) b) in
  if jb_playing b && match jb_next_ts b with Some next => timestamp_before timestamp next | None => false end
  then put_stats (count_late (jb_stats b)) b
  else
    let b := if negb (jb_playing b) && match jb_next_ts b with
                | Some next => bool_decide (jb_packets b = ∅) || timestamp_before timestamp next
                | None => true
                end
             then put_next_ts (Some timestamp) b else b in
    let b := if MAX_PACKETS <=? Z.of_nat (size (jb_packets b))
             then put_stats (count_overflow (jb_stats b)) (put_packets (from_option (fun first => delete first (jb_packets b)) (jb_packets b) (least (dom (jb_packets b)))) b)
             else b in
    put_packets (<[timestamp := payload]> (jb_packets b)) b.

(* @src/crates/throcc-client-core/src/media/jitter.rs 113-117 JitterBuffer::target *)
Definition jitter_target (b : JitterBuffer) : Z :=
  let target := f64_add (f64_of_Z MIN_TARGET) (f64_mul (f64_of_Z 3) (jb_jitter b)) in
  Z.max MIN_TARGET (Z.min MAX_TARGET (f64_to_u32 target)).

(* @src/crates/throcc-client-core/src/media/jitter.rs 125-138 JitterBuffer::buffered *)
Definition jitter_buffered (b : JitterBuffer) : Z :=
  let undecoded := match jb_next_ts b, greatest (dom (jb_packets b)) with
    | Some next, Some last => if timestamp_before last next then 0 else wrap32 (last - next) + FRAME
    | _, _ => 0
    end in
  undecoded + (if jb_playing b then FRAME - jb_frame_pos b else 0).

(* @src/crates/throcc-client-core/src/media/jitter.rs 140-144 JitterBuffer::playout_timestamp *)
Definition playout_timestamp (b : JitterBuffer) : option Z :=
  if jb_playing b then Some (wrap32 (jb_frame_ts b + jb_frame_pos b)) else None.

(* @src/crates/throcc-client-core/src/media/jitter.rs 225-230 JitterBuffer::first_packet_within_target *)
Definition first_packet_within_target (next : Z) (b : JitterBuffer) : bool :=
  match least (dom (jb_packets b)) with Some first => wrap32 (first - next) <=? jitter_target b | None => false end.

(** The decoder on a packet and the frame buffer: whether it succeeded, and the buffer after. *)
Context (decode_float : Decoder -> bytes -> list f32 -> DecodeMode -> bool * list f32 * Decoder).

(* @src/crates/throcc-client-core/src/media/jitter.rs 253-258 decode *)
Definition decode (packet : bytes) (mode : DecodeMode) (b : JitterBuffer) : JitterBuffer :=
  let '(ok, frame, decoder) := decode_float (jb_decoder b) packet (jb_frame b) mode in
  put_frame (if ok : bool then frame else replicate (length (jb_frame b)) zero) (put_decoder decoder b).

(** Playout goes on at [following]. *)
Definition play_frame (next following : Z) (b : JitterBuffer) : JitterBuffer :=
  let b := put_next_ts (Some following) (put_frame_pos 0 (put_frame_ts next b)) in
  put_packets (filter (fun p => timestamp_before p.1 following = false) (jb_packets b)) b.

(** Where the next frame is, when its packet is not there and the first is off the grid. *)
(* @src/crates/throcc-client-core/src/media/jitter.rs 179-185! JitterBuffer::decode_next *)
Definition realign (next : Z) (b : JitterBuffer) : Z * JitterBuffer :=
  match jb_packets b !! next, least (dom (jb_packets b)) with
  | None, Some first => if wrap32 (first - next) mod FRAME =? 0 then (next, b) else (first, put_stats (count_realigned (jb_stats b)) b)
  | _, _ => (next, b)
  end.

(* @src/crates/throcc-client-core/src/media/jitter.rs 186-223! JitterBuffer::decode_next *)
Definition decode_at (next : Z) (b : JitterBuffer) : bool * JitterBuffer :=
  let following := wrap32 (next + FRAME) in
  match jb_packets b !! next, jb_packets b !! following with
  | Some packet, _ =>
      let b := decode packet Normal (put_packets (delete next (jb_packets b)) b) in
      (true, play_frame next following (put_stats (count_normal (jb_stats b)) (put_concealed 0 b)))
  | None, Some packet =>
      let b := decode packet Fec b in
      (true, play_frame next following (put_stats (count_fec (jb_stats b)) (put_concealed 0 b)))
  | None, None =>
      if bool_decide (jb_packets b = ∅) && (jb_concealed b <? MAX_CONCEALED) then
        let b := decode [] Normal b in
        let b := put_stats (count_stretched (jb_stats b)) (put_concealed (jb_concealed b + 1) b) in
        (true, put_frame_pos 0 (put_frame_ts (wrap32 (next - FRAME)) b))
      else if (jb_concealed b <? MAX_CONCEALED) || first_packet_within_target next b then
        let b := decode [] Normal b in
        (true, play_frame next following (put_stats (count_concealed (jb_stats b)) (put_concealed (jb_concealed b + 1) b)))
      else
        (false, put_stats (count_rebuffered (jb_stats b)) (put_next_ts (least (dom (jb_packets b))) (put_playing false b)))
  end.

(* @src/crates/throcc-client-core/src/media/jitter.rs 174-223 JitterBuffer::decode_next *)
Definition decode_next (b : JitterBuffer) : bool * JitterBuffer :=
  match jb_next_ts b with
  | None => (false, b)
  | Some next => let '(next, b) := realign next b in decode_at next b
  end.

(* @src/crates/throcc-client-core/src/media/jitter.rs 232-250 JitterBuffer::accelerate *)
Definition accelerate (b : JitterBuffer) : JitterBuffer :=
  let b := put_pulls (jb_pulls b + 1) b in
  let b := put_lowest (Z.min (jb_lowest b) (jitter_buffered b)) b in
  if jb_pulls b <? ACCELERATE_EVERY then b else
  let lowest := jb_lowest b in
  let b := put_pulls 0 (put_lowest u32_max b) in
  if lowest <=? SPARE then b else
  match jb_next_ts b with
  | Some next =>
      match jb_packets b !! next with
      | Some _ => put_stats (count_accelerated (jb_stats b)) (put_next_ts (Some (wrap32 (next + FRAME))) (put_packets (delete next (jb_packets b)) b))
      | None => b
      end
  | None => b
  end.

(** [frame[frame_pos * channels..(frame_pos + n) * channels]]. *)
Definition frame_slice (n : Z) (b : JitterBuffer) : list f32 :=
  take (Z.to_nat (n * jb_channels b)) (drop (Z.to_nat (jb_frame_pos b * jb_channels b)) (jb_frame b)).

(** The loop of [pull], with what it put into [out]; every turn takes a sample at least. *)
(* @src/crates/throcc-client-core/src/media/jitter.rs 158-170! JitterBuffer::pull *)
Fixpoint pull_loop (fuel : nat) (filled : Z) (b : JitterBuffer) : list f32 * JitterBuffer :=
  match fuel with
  | O => ([], b)
  | S fuel =>
      if filled <? PULL then
        let '(decoded, b) := if jb_frame_pos b =? FRAME then decode_next b else (true, b) in
        if decoded then
          let n := Z.min (PULL - filled) (FRAME - jb_frame_pos b) in
          let '(out, b') := pull_loop fuel (filled + n) (put_frame_pos (jb_frame_pos b + n) b) in (frame_slice n b ++ out, b')
        else (silence ((PULL - filled) * jb_channels b), b)
      else ([], accelerate b)
  end.

(** The samples [out] holds after. *)
(* @src/crates/throcc-client-core/src/media/jitter.rs 146-172 JitterBuffer::pull *)
Definition jitter_pull (b : JitterBuffer) : list f32 * JitterBuffer :=
  let go b := pull_loop (S (Z.to_nat PULL)) 0 b in
  if jb_playing b then go b
  else if (jitter_target b <=? jitter_buffered b) && bool_decide (is_Some (jb_next_ts b)) then go (put_frame_pos FRAME (put_playing true b))
  else (silence (PULL * jb_channels b), b).
End Jitter.
Arguments JitterBuffer : clear implicits.
