(* ===== verification/ShareClock.v ===== *)
(** * The clock and the rings of a screen capture (throcc-client-core, media/capture/clock.rs and audio_ring.rs)

    A capture stamps pictures on the 90 kHz clock and cuts its audio into frames of 20 ms on
    the 48 kHz grid, both counted from the first time it stamped.  A captured time is an [i64]
    of the source's clock.  A sum of [i64] ticks leaves the range only after some hundred
    thousand years of capture, so of their widths only the casts are written out. *)
From Stdlib Require Import SpecFloat.
From S2P Require Import Prelude Float64 Frame People Jitter.
Open Scope Z_scope.

(* @src/crates/throcc-proto/src/frame.rs 14-14 VIDEO_CLOCK_HZ *)
Definition VIDEO_CLOCK_HZ : Z := 90000.
(* @src/crates/throcc-client-core/src/media/share_audio.rs 15-16 STEREO_FRAME *)
Definition STEREO_FRAME : Z := FRAME * 2.
(* @src/crates/throcc-client-core/src/media/capture/clock.rs 8-9 SLIP *)
Definition SLIP : Z := FRAME / 2.

(** [x as i32] of a [u32]. *)
Definition as_i32 (x : Z) : Z := if x <? 2147483648 then x else x - 4294967296.

(** ** The zero of both media *)

(* @src/crates/throcc-client-core/src/media/capture/clock.rs 110-114 ShareZero *)
Record ShareZero := mkZero { sz_source_hz : Z; sz_zero : option Z }.
(** [i128] division is towards zero. *)
(* @src/crates/throcc-client-core/src/media/capture/clock.rs 124-128 ShareZero::ticks *)
Definition zero_ticks (at_ rate : Z) (z : ShareZero) : Z * ShareZero :=
  let zero := default at_ (sz_zero z) in
  (as_i64 (wrap64 (Z.quot ((at_ - zero) * rate) (sz_source_hz z))), mkZero (sz_source_hz z) (Some zero)).

(** ** Cutting audio into frames *)

(* @src/crates/throcc-client-core/src/media/capture/clock.rs 131-138 AudioChunker *)
Record AudioChunker := mkChunker { ch_pending : list f32; ch_at : option Z }.
Definition chunker_default : AudioChunker := mkChunker [] None.

(* @src/crates/throcc-client-core/src/media/capture/clock.rs 141-143 AudioChunker::needs_more *)
Definition needs_more (c : AudioChunker) : bool := Z.of_nat (length (ch_pending c)) <? STEREO_FRAME.
(* @src/crates/throcc-client-core/src/media/capture/clock.rs 145-169 AudioChunker::push *)
Definition chunker_push (ticks : Z) (samples : list f32) (c : AudioChunker) : AudioChunker :=
  match ch_at c with
  | None => mkChunker (ch_pending c ++ samples) (Some ticks)
  | Some at_ =>
      let expected := at_ + Z.of_nat (length (ch_pending c)) / 2 in
      if Z.abs (ticks - expected) <=? SLIP then mkChunker (ch_pending c ++ samples) (Some at_) else
      let grid := at_ + (ticks - at_) / FRAME * FRAME in
      if at_ <=? grid then mkChunker (silence (2 * (ticks - grid)) ++ samples) (Some grid)
      else mkChunker (drop (Z.to_nat (2 * (at_ - ticks))) samples) (Some at_)
  end.
(* @src/crates/throcc-client-core/src/media/capture/clock.rs 171-187 AudioChunker::take *)
Definition chunker_take (c : AudioChunker) : option (Z * list f32) * AudioChunker :=
  if needs_more c then (None, c) else
  match ch_at c with
  | None => (None, c)
  | Some at_ =>
      let n := Z.to_nat STEREO_FRAME in
      let c' := mkChunker (drop n (ch_pending c)) (Some (at_ + FRAME)) in
      if at_ <? 0 then (None, c') else (Some (wrap32 at_, take n (ch_pending c)), c')
  end.

(** ** Both media *)

(* @src/crates/throcc-client-core/src/media/capture/clock.rs 11-19 ShareClock *)
Record ShareClock := mkClock { sc_zero : ShareZero; sc_chunker : AudioChunker; sc_last_frame : option Z }.
(* @src/crates/throcc-client-core/src/media/capture/clock.rs 22-29 ShareClock::new *)
Definition clock_new (source_hz : Z) : ShareClock := mkClock (mkZero source_hz None) chunker_default None.
(* @src/crates/throcc-client-core/src/media/capture/clock.rs 31-41 ShareClock::video *)
Definition clock_video (at_ : Z) (c : ShareClock) : option Z * ShareClock :=
  let '(ticks, zero) := zero_ticks at_ VIDEO_CLOCK_HZ (sc_zero c) in
  if ticks <? 0 then (None, mkClock zero (sc_chunker c) (sc_last_frame c)) else
  let ticks := match sc_last_frame c with Some last => Z.max ticks (last + 1) | None => ticks end in
  (Some (wrap32 ticks), mkClock zero (sc_chunker c) (Some ticks)).
(* @src/crates/throcc-client-core/src/media/capture/clock.rs 43-47 ShareClock::push_audio *)
Definition clock_push_audio (at_ : Z) (samples : list f32) (c : ShareClock) : ShareClock :=
  let '(ticks, zero) := zero_ticks at_ SAMPLE_RATE (sc_zero c) in
  mkClock zero (chunker_push ticks samples (sc_chunker c)) (sc_last_frame c).

(** The pull adds the oldest buffer [captured]; the timestamp and the frame, or [None] when
    there is no buffer left.  [fuel] bounds the turns of the loop. *)
(* @src/crates/throcc-client-core/src/media/capture/clock.rs 49-65 ShareClock::next_audio *)
Fixpoint next_audio (fuel : nat) (captured : list (Z * list f32)) (c : ShareClock) : option (Z * list f32) * list (Z * list f32) * ShareClock :=
  match fuel with
  | O => (None, captured, c)
  | S fuel =>
      if needs_more (sc_chunker c) then
        match captured with
        | [] => (None, [], c)
        | (at_, samples) :: captured => next_audio fuel captured (clock_push_audio at_ samples c)
        end
      else
        let '(frame, chunker) := chunker_take (sc_chunker c) in
        let c := mkClock (sc_zero c) chunker (sc_last_frame c) in
        match frame with Some _ => (frame, captured, c) | None => next_audio fuel captured c end
  end.

(** ** Limiting the frame rate *)

(* @src/crates/throcc-client-core/src/media/capture/clock.rs 68-74 FrameLimiter *)
Record FrameLimiter := mkLimiter { fl_interval : Z; fl_next : option Z }.
(* @src/crates/throcc-client-core/src/media/capture/clock.rs 78-83 FrameLimiter::new *)
Definition limiter_new (fps : Z) : FrameLimiter := mkLimiter (VIDEO_CLOCK_HZ / Z.max fps 1) None.
(* @src/crates/throcc-client-core/src/media/capture/clock.rs 85-107 FrameLimiter::admits *)
Definition admits (timestamp : Z) (l : FrameLimiter) : bool * FrameLimiter :=
  let interval := fl_interval l in
  let afresh := wrap32 (timestamp + interval) in
  match fl_next l with
  | None => (true, mkLimiter interval (Some afresh))
  | Some next =>
      let early := as_i32 (wrap32 (next - timestamp)) in
      if 2 * interval <? early then (true, mkLimiter interval (Some afresh))
      else if interval / 4 <? early then (false, l)
      else if - interval <? early then (true, mkLimiter interval (Some (wrap32 (next + interval))))
      else (true, mkLimiter interval (Some afresh))
  end.

(** ** The ring between the capture and the share thread *)

(* @src/crates/throcc-client-core/src/media/capture/audio_ring.rs 6-7 SAMPLE_RING *)
Definition SAMPLE_RING : Z := SAMPLE_RATE * 2.
(* @src/crates/throcc-client-core/src/media/capture/audio_ring.rs 8-9 BUFFER_RING *)
Definition BUFFER_RING : Z := 64.
(** Both ends see the same two rings, oldest first. *)
(* @src/crates/throcc-client-core/src/media/capture/audio_ring.rs 14-36! audio_ring, Captured, AudioProducer *)
Record AudioRing := mkRing { ar_buffers : list (Z * Z); ar_samples : list f32 }.
Definition ring_new : AudioRing := mkRing [] [].
(* @src/crates/throcc-client-core/src/media/capture/audio_ring.rs 39-58 AudioProducer::push *)
Definition ring_push (at_ frames : Z) (samples : list f32) (r : AudioRing) : bool * AudioRing :=
  if frames =? 0 then (true, r) else
  let room := SAMPLE_RING - Z.of_nat (length (ar_samples r)) in
  if (frames * 2 <=? room) && negb (BUFFER_RING <=? Z.of_nat (length (ar_buffers r))) then
    let n := Z.to_nat (frames * 2) in
    (true, mkRing (ar_buffers r ++ [(at_, frames)]) (ar_samples r ++ take n (samples ++ silence (frames * 2))))
  else (false, r).
(** The consumer gets the buffer's time and all of its samples. *)
(* @src/crates/throcc-client-core/src/media/capture/audio_ring.rs 70-79 AudioConsumer::pop *)
Definition ring_pop (r : AudioRing) : option (Z * list f32) * AudioRing :=
  match ar_buffers r with
  | [] => (None, r)
  | (at_, frames) :: buffers =>
      let n := Z.to_nat (frames * 2) in
      if Z.of_nat (length (ar_samples r)) <? frames * 2 then (None, mkRing buffers (ar_samples r))
      else (Some (at_, take n (ar_samples r)), mkRing buffers (drop n (ar_samples r)))
  end.

Example clock_stamps : let '(a, c) := clock_video 0 (clock_new 90000) in let '(b, c) := clock_video 0 c in let '(d, c) := clock_video 4 c in
  (a, b, d, (clock_video (2 ^ 32) c).1) = (Some 0, Some 1, Some 4, Some 0).
Proof. by vm_compute. Qed.

(** ** What a capture's clock promises

    Audio is stamped within half a frame of when it was captured, on one grid, and no share
    lets more pictures through than its rate, nor fewer than a steady source has. *)

(** ** Audio *)

(** What happens to a chunker: a buffer stamped [ticks], or a frame taken if there is one. *)
Inductive ChunkOp := Push (ticks : Z) (samples : list f32) | Take.
Definition chunk_step (o : ChunkOp) (acc : list (Z * list f32) * AudioChunker) : list (Z * list f32) * AudioChunker :=
  let '(out, c) := acc in
  match o with
  | Push ticks samples => (out, chunker_push ticks samples c)
  | Take => let '(frame, c) := chunker_take c in (out ++ option_list frame, c)
  end.
Definition chunk_run (ops : list ChunkOp) (c : AudioChunker) : list (Z * list f32) * AudioChunker := foldl (fun acc o => chunk_step o acc) ([], c) ops.

(** [x] was captured at tick [t]: it is a sample of that frame of a buffer pushed. *)
Definition captured_at (ops : list ChunkOp) (t : Z) (x : f32) : Prop :=
  exists ticks samples j, Push ticks samples ∈ ops /\ samples !! j = Some x /\ t = ticks + Z.of_nat j / 2.
(** The sample [k] after tick [from] is silence or was captured within half a frame of its tick. *)
Definition in_time (ops : list ChunkOp) (from : Z) (k : nat) (x : f32) : Prop :=
  x = zero \/ exists t, captured_at ops t x /\ Z.abs (t - (from + Z.of_nat k / 2)) <= SLIP.
Definition all_in_time (ops : list ChunkOp) (from : Z) (samples : list f32) : Prop := forall k x, samples !! k = Some x -> in_time ops from k x.
(** Whole frames of left and right. *)
Definition whole (o : ChunkOp) : Prop := match o with Push _ samples => Nat.even (length samples) = true | Take => True end.

Definition first_ticks (ops : list ChunkOp) : Z := default 0 (head (omap (fun o => match o with Push ticks _ => Some ticks | Take => None end) ops)).
Definition on_grid (ops : list ChunkOp) (at_ : Z) : Prop := (at_ - first_ticks ops) mod FRAME = 0.

Lemma in_time_more ops ops' from k x : in_time ops from k x -> in_time (ops ++ ops') from k x.
Proof. intros [->|(t & (ticks & samples & j & H1 & H2 & H3) & Ht)]; [by left|right]. exists t. split; [|done]. exists ticks, samples, j. split; [set_solver|done]. Qed.
Lemma all_in_time_more ops ops' from l : all_in_time ops from l -> all_in_time (ops ++ ops') from l.
Proof. intros H k x Hk. by apply in_time_more, H. Qed.

Lemma even_half n : Nat.even n = true -> Z.of_nat n = 2 * (Z.of_nat n / 2).
Proof. intros H. apply Nat.even_spec in H as [m ->]. rewrite Nat2Z.inj_mul. change (Z.of_nat 2) with 2. rewrite Z.mul_comm, Z.div_mul by lia. lia. Qed.
Lemma half_add n k : Nat.even n = true -> Z.of_nat (n + k) / 2 = Z.of_nat n / 2 + Z.of_nat k / 2.
Proof. intros H. pose proof (even_half n H). rewrite Nat2Z.inj_add. replace (Z.of_nat n + Z.of_nat k) with (Z.of_nat k + (Z.of_nat n / 2) * 2) by lia. rewrite Z.div_add by lia. lia. Qed.

(** Samples put after [n] others that start at [from], off by at most half a frame. *)
Lemma held_in_time_app ops from l ticks samples : Nat.even (length l) = true -> Push ticks samples ∈ ops -> Z.abs (ticks - (from + Z.of_nat (length l) / 2)) <= SLIP ->
  all_in_time ops from l -> all_in_time ops from (l ++ samples).
Proof.
  intros He Hin Hs Hl k x Hk. apply lookup_app_Some in Hk as [Hk|[Hge Hk]]; [by apply Hl|]. right. exists (ticks + Z.of_nat (k - length l) / 2).
  split; [by exists ticks, samples, (k - length l)%nat|]. replace k with (length l + (k - length l))%nat at 2 by lia. rewrite half_add by done. lia.
Qed.
Lemma in_time_drop ops from n l : Nat.even n = true -> all_in_time ops from l -> all_in_time ops (from + Z.of_nat n / 2) (drop n l).
Proof.
  intros He Hl k x Hk. rewrite lookup_drop in Hk. destruct (Hl _ _ Hk) as [->|(t & Hc & Ht)]; [by left|right]. exists t. split; [done|]. rewrite half_add in Ht by done. lia.
Qed.
Lemma in_time_silence ops from n : all_in_time ops from (silence n).
Proof. intros k x Hk. left. unfold silence in Hk. by apply lookup_replicate in Hk as [-> _]. Qed.

(** The chunker after some operations, the frames it gave out and where they start. *)
Record chunked (ops : list ChunkOp) (ats : list Z) (out : list (Z * list f32)) (c : AudioChunker) : Prop := {
  ck_even : Nat.even (length (ch_pending c)) = true;
  ck_none : ch_at c = None -> ch_pending c = [] /\ ats = [] /\ (forall o, o ∈ ops -> o = Take);
  ck_at : forall at_, ch_at c = Some at_ -> on_grid ops at_ /\ Forall (fun a => a + FRAME <= at_) ats /\ all_in_time ops at_ (ch_pending c) /\ (exists o, o ∈ ops /\ o <> Take);
  ck_ats : StronglySorted (fun a b => a + FRAME <= b) ats;
  ck_grid : Forall (fun a => 0 <= a /\ on_grid ops a) ats;
  ck_stamps : out.*1 = wrap32 <$> ats;
  ck_frames : Forall2 (fun a f => Z.of_nat (length f) = STEREO_FRAME /\ all_in_time ops a f) ats out.*2
}.

Lemma first_ticks_more ops ops' : (exists o, o ∈ ops /\ o <> Take) -> first_ticks (ops ++ ops') = first_ticks ops.
Proof.
  intros (o & Hin & Hne). unfold first_ticks. rewrite omap_app. destruct (omap _ ops) as [|t l] eqn:E; [|done]. exfalso.
  destruct o as [ticks samples|]; [|done]. assert (ticks ∈ omap (fun o => match o with Push ticks _ => Some ticks | Take => None end) ops) as H by (apply list_elem_of_omap; by exists (Push ticks samples)).
  rewrite E in H. by apply not_elem_of_nil in H.
Qed.

Lemma frame_ticks : FRAME = 960. Proof. done. Qed.
Lemma on_grid_step ops at_ n : on_grid ops at_ -> on_grid ops (at_ + n * FRAME).
Proof. unfold on_grid. intros H. replace (at_ + n * FRAME - first_ticks ops) with (at_ - first_ticks ops + n * FRAME) by lia. by rewrite Z.mod_add by done. Qed.
Lemma on_grid_more ops ops' a : (exists o, o ∈ ops /\ o <> Take) -> on_grid ops a -> on_grid (ops ++ ops') a.
Proof. intros H. unfold on_grid. by rewrite first_ticks_more. Qed.
Lemma even_double n : Nat.even (Z.to_nat (2 * n)) = true.
Proof. apply Nat.even_spec. exists (Z.to_nat n). lia. Qed.
Lemma silence_length n : length (silence n) = Z.to_nat n. Proof. apply length_replicate. Qed.
Lemma sorted_times_snoc ats at_ : StronglySorted (fun a b => a + FRAME <= b) ats -> Forall (fun a => a + FRAME <= at_) ats -> StronglySorted (fun a b => a + FRAME <= b) (ats ++ [at_]).
Proof.
  induction 1 as [|a ats Hs IH Ha]; intros Hf; [by repeat constructor|]. inversion_clear Hf as [|? ? H1 H2]. cbn. constructor; [by apply IH|].
  apply Forall_app_2; [done|]. by constructor.
Qed.

(** Time goes on: nothing said of earlier operations changes. *)
Lemma chunked_more ops o ats out c c' at_ :
  chunked ops ats out c -> ch_at c' = Some at_ -> Nat.even (length (ch_pending c')) = true ->
  on_grid (ops ++ [o]) at_ -> Forall (fun a => a + FRAME <= at_) ats -> all_in_time (ops ++ [o]) at_ (ch_pending c') -> (exists o', o' ∈ ops ++ [o] /\ o' <> Take) ->
  ats = [] \/ (exists o', o' ∈ ops /\ o' <> Take) -> chunked (ops ++ [o]) ats out c'.
Proof.
  intros [H1 H2 H3 H4 H5 H6 H7] Hat He Hg Hf Ht Ho Hats. split; [done|by rewrite Hat| |done| |done|].
  - intros a. rewrite Hat. by intros [= <-].
  - destruct Hats as [->|Hats]; [constructor|]. eapply list.Forall_impl; [exact H5|]. intros a [? ?]. split; [done|by apply on_grid_more].
  - eapply list.Forall2_impl; [exact H7|]. intros a f [? ?]. split; [done|by apply all_in_time_more].
Qed.
Lemma chunked_push ops ats out c ticks samples : chunked ops ats out c -> Nat.even (length samples) = true ->
  chunked (ops ++ [Push ticks samples]) ats out (chunker_push ticks samples c).
Proof.
  intros H Hs. pose proof H as [He Hn Ha _ _ _ _]. assert (Push ticks samples ∈ ops ++ [Push ticks samples]) as Hin by set_solver.
  assert (exists o', o' ∈ ops ++ [Push ticks samples] /\ o' <> Take) as Ho by (by exists (Push ticks samples)).
  unfold chunker_push. destruct (ch_at c) as [at_|] eqn:Eat.
  - destruct (Ha at_ eq_refl) as (Hg & Hf & Ht & Hfirst). assert (on_grid (ops ++ [Push ticks samples]) at_) as Hg' by by apply on_grid_more.
    destruct (Z.leb_spec (Z.abs (ticks - (at_ + Z.of_nat (length (ch_pending c)) / 2))) SLIP).
    { eapply (chunked_more _ _ _ _ _ _ at_); cbn; try done; [by rewrite length_app, Nat.even_add, He, Hs| |by right].
      eapply held_in_time_app; [done|exact Hin|done|by apply all_in_time_more]. }
    set (grid := at_ + _). destruct (Z.leb_spec at_ grid) as [Hle|Hlt].
    + assert (0 <= ticks - grid) by (unfold grid; pose proof (Z.mod_pos_bound (ticks - at_) FRAME ltac:(done)); pose proof (Z.div_mod (ticks - at_) FRAME ltac:(done)); lia).
      eapply (chunked_more _ _ _ _ _ _ grid); cbn; try done; [|by apply on_grid_step| | |by right].
      * by rewrite length_app, silence_length, Nat.even_add, even_double, Hs.
      * eapply list.Forall_impl; [exact Hf|]. cbn. lia.
      * eapply held_in_time_app; [by rewrite silence_length; apply even_double|exact Hin| |apply in_time_silence]. rewrite silence_length.
        replace (Z.of_nat (Z.to_nat (2 * (ticks - grid)))) with ((ticks - grid) * 2) by lia. rewrite Z.div_mul by lia. by replace (ticks - (grid + (ticks - grid))) with 0 by lia.
    + assert (ticks < at_) by (unfold grid in Hlt; pose proof (Z.mod_pos_bound (ticks - at_) FRAME ltac:(done)); pose proof (Z.div_mod (ticks - at_) FRAME ltac:(done));
        rewrite frame_ticks in *; lia).
      eapply (chunked_more _ _ _ _ _ _ at_); cbn; try done; [|  |by right].
      * rewrite length_drop. destruct (le_lt_dec (length samples) (Z.to_nat (2 * (at_ - ticks)))) as [?|?]; [by replace (_ - _)%nat with 0%nat by lia|].
        by rewrite Nat.even_sub, Hs, even_double by lia.
      * intros k x Hk. rewrite lookup_drop in Hk. right. exists (at_ + Z.of_nat k / 2). split; [|by rewrite Z.sub_diag].
        exists ticks, samples, (Z.to_nat (2 * (at_ - ticks)) + k)%nat. split; [exact Hin|]. split; [done|]. rewrite half_add by apply even_double.
        replace (Z.of_nat (Z.to_nat (2 * (at_ - ticks)))) with ((at_ - ticks) * 2) by lia. rewrite Z.div_mul by lia. lia.
  - destruct (Hn eq_refl) as (Hp & -> & Hops). rewrite Hp. eapply (chunked_more _ _ _ _ _ _ ticks); cbn; try done; [| |by left].
    + unfold on_grid, first_ticks. rewrite omap_app. replace (omap _ ops) with (@nil Z); [cbn; by rewrite Z.sub_diag|]. clear -Hops.
      induction ops as [|o ops IH]; [done|]. rewrite (Hops o) by left. cbn. apply IH. intros o' ?. apply Hops. by right.
    + eapply (held_in_time_app _ _ []); [done|exact Hin| |by intros k x Hk]. change (Z.of_nat (length []) / 2) with 0. by replace (ticks - (ticks + 0)) with 0 by lia.
Qed.
Lemma chunked_same ops ats out c : chunked ops ats out c -> chunked (ops ++ [Take]) ats out c.
Proof.
  intros H. destruct (ch_at c) as [at_|] eqn:E.
  - pose proof H as [He _ Ha _ _ _ _]. destruct (Ha at_ E) as (Hg & Hf & Ht & Hfirst). eapply chunked_more; try done; [by apply on_grid_more|by apply all_in_time_more| |by right].
    destruct Hfirst as (o & ? & ?). exists o. split; [set_solver|done].
  - pose proof H as [He Hn _ H4 H5 H6 H7]. destruct (Hn E) as (Hp & -> & Hops). split; try done; [|by intros; rewrite E in *|by inversion H7].
    intros _. split; [done|]. split; [done|]. intros o. rewrite elem_of_app, list_elem_of_singleton. intros [?| ->]; [by apply Hops|done].
Qed.
Lemma chunked_take ops ats out c : chunked ops ats out c ->
  let '(frame, c') := chunker_take c in exists ats', chunked (ops ++ [Take]) ats' (out ++ option_list frame) c'.
Proof.
  intros H. unfold chunker_take, needs_more. destruct (Z.ltb_spec (Z.of_nat (length (ch_pending c))) STEREO_FRAME) as [?|Hlen].
  { exists ats. rewrite app_nil_r. by apply chunked_same. }
  apply chunked_same in H. destruct (ch_at c) as [at_|] eqn:E; [|exists ats; by rewrite app_nil_r].
  pose proof H as [He _ Ha H4 H5 H6 H7]. destruct (Ha at_ E) as (Hg & Hf & Ht & Hfirst). clear Ha. set (n := Z.to_nat STEREO_FRAME).
  assert (all_in_time (ops ++ [Take]) (at_ + FRAME) (drop n (ch_pending c))) as Hd by (apply (in_time_drop _ _ n) in Ht; [exact Ht|done]).
  assert (Nat.even (length (drop n (ch_pending c))) = true) as Hed by (rewrite length_drop, Nat.even_sub, He by (unfold n; lia); done).
  assert (on_grid (ops ++ [Take]) (at_ + FRAME)) as Hg1 by (replace FRAME with (1 * FRAME) by lia; by apply on_grid_step).
  destruct (Z.ltb_spec at_ 0).
  - exists ats. rewrite app_nil_r. split; cbn; try done. intros a [= <-]. split_and!; try done. eapply list.Forall_impl; [exact Hf|]. cbn. rewrite frame_ticks. lia.
  - exists (ats ++ [at_]). split; cbn; try done.
    + intros a [= <-]. split_and!; try done. apply Forall_app_2; [|by constructor]. eapply list.Forall_impl; [exact Hf|]. cbn. rewrite frame_ticks. lia.
    + by apply sorted_times_snoc.
    + apply Forall_app_2; [done|]. by constructor.
    + rewrite !fmap_app, H6. done.
    + rewrite fmap_app. apply Forall2_app; [done|]. constructor; [|constructor]. cbn. split; [rewrite length_take; assert (0 <= STEREO_FRAME) by done; unfold n in *; lia|].
      intros k x Hk. apply lookup_take_Some in Hk as [Hk _]. by apply Ht.
Qed.

Lemma chunked_run ops : Forall whole ops -> exists ats, chunked ops ats (chunk_run ops chunker_default).1 (chunk_run ops chunker_default).2.
Proof.
  unfold chunk_run. induction ops as [|o ops IH] using rev_ind; intros Hw.
  - exists []. split; cbn; [done|intros _; split_and!; try done; by intros o ?%not_elem_of_nil|done|constructor|constructor|done|constructor].
  - apply Forall_app in Hw as [Hw Ho]. inversion_clear Ho as [|? ? Ho' _]. destruct (IH Hw) as [ats H]. rewrite foldl_snoc.
    destruct (foldl _ _ ops) as [out c]. cbn [fst snd] in H. destruct o as [ticks samples|]; cbn [chunk_step].
    + exists ats. by apply chunked_push.
    + pose proof (chunked_take ops ats out c H) as Ht. by destruct (chunker_take c) as [frame c'].
Qed.

(** C31: over any buffers pushed and frames taken, in any order and with any times, every frame
    taken is 20 ms of stereo, its stamp is that of a tick at or after the zero and of the grid
    that starts at the first buffer, each at least a frame after the last, and each of its
    samples is silence or was captured within half a frame of the tick it is stamped with. *)
Theorem audio_is_stamped_when_it_was_captured (ops : list ChunkOp) : Forall whole ops ->
  let out := (chunk_run ops chunker_default).1 in
  exists ats, out.*1 = wrap32 <$> ats /\ StronglySorted (fun a b => a + FRAME <= b) ats /\ Forall (fun a => 0 <= a /\ on_grid ops a) ats /\
    Forall2 (fun a f => Z.of_nat (length f) = STEREO_FRAME /\ all_in_time ops a f) ats out.*2.
Proof. intros Hw out. destruct (chunked_run ops Hw) as [ats [_ _ _ ? ? ? ?]]. by exists ats. Qed.
Definition ten_ms : list f32 := replicate 960 (f32_of_Z 1).
Lemma audio_is_stamped_when_it_was_captured_witness :
  let ops := [Push (-300) ten_ms; Push 200 ten_ms; Take; Push 660 ten_ms; Push 1140 ten_ms; Take; Push 10000 ten_ms; Push 10480 ten_ms; Take] in
  let out := (chunk_run ops chunker_default).1 in
  out.*1 = [660; 9300] /\ exists ats, out.*1 = wrap32 <$> ats /\ StronglySorted (fun a b => a + FRAME <= b) ats /\ Forall (fun a => 0 <= a /\ on_grid ops a) ats /\
    Forall2 (fun a f => Z.of_nat (length f) = STEREO_FRAME /\ all_in_time ops a f) ats out.*2.
Proof. split; [by vm_compute|]. apply audio_is_stamped_when_it_was_captured. by repeat constructor. Defined.

(** ** A capture's audio is drained, and its pictures keep the share's rate

    [ShareClock::next_audio] ends, with a frame or with nothing left to cut; pictures get
    stamps that only move forward, and the limiter neither lets more through than the rate nor
    takes any from a source that keeps it. *)

(** ** The loop over captured buffers ends *)

Definition weight (captured : list (Z * list f32)) (c : AudioChunker) : nat :=
  (length (ch_pending c) + sum_list_with (fun b => length b.2 + Z.to_nat STEREO_FRAME) captured)%nat.
(** Turns that are enough: each buffer is pushed once, each frame before the zero cut once. *)
Definition enough (captured : list (Z * list f32)) (c : AudioChunker) : nat := S (weight captured c).
Definition has_time (c : AudioChunker) : Prop := ch_at c = None -> ch_pending c = [].

Lemma push_weight ticks samples c : (length (ch_pending (chunker_push ticks samples c)) < length (ch_pending c) + length samples + Z.to_nat STEREO_FRAME)%nat.
Proof.
  assert (0 < STEREO_FRAME) by done. unfold chunker_push. destruct (ch_at c) as [at_|]; cbn; [|rewrite length_app; lia].
  case_match; cbn; [rewrite length_app; lia|]. set (grid := at_ + _). case_match; cbn.
  - rewrite length_app, silence_length. assert (ticks - grid < FRAME).
    { unfold grid. pose proof (Z.mod_pos_bound (ticks - at_) FRAME ltac:(done)). pose proof (Z.div_mod (ticks - at_) FRAME ltac:(done)). lia. }
    change STEREO_FRAME with 1920 in *. rewrite frame_ticks in *. clearbody grid. lia.
  - rewrite length_drop. lia.
Qed.
Lemma push_has_time ticks samples c : has_time (chunker_push ticks samples c).
Proof. unfold chunker_push, has_time. repeat case_match; done. Qed.
Lemma take_weight c : needs_more c = false -> has_time c -> (length (ch_pending (chunker_take c).2) < length (ch_pending c))%nat /\ has_time (chunker_take c).2.
Proof.
  intros Hn Ht. unfold chunker_take. rewrite Hn. unfold needs_more in Hn. apply Z.ltb_ge in Hn. assert (0 < STEREO_FRAME) by done.
  destruct (ch_at c) as [at_|] eqn:E; [|rewrite (Ht E) in Hn; cbn in Hn; lia]. case_match; cbn; rewrite length_drop; (split; [lia|done]).
Qed.

(** What a drain does to the chunker is a run of it over the buffers taken. *)
Definition is_push (o : ChunkOp) : bool := match o with Push _ _ => true | Take => false end.
Lemma push_audio_chunker at_ samples c : exists ticks, sc_chunker (clock_push_audio at_ samples c) = chunker_push ticks samples (sc_chunker c).
Proof. unfold clock_push_audio. destruct (zero_ticks _ _ _) as [ticks zero]. by exists ticks. Qed.

(** Asking a capture's clock for audio ends: after at most one turn per buffer waiting and
    per sample held it gives a frame, or has taken every buffer and holds less than a frame,
    and more turns change nothing; what it does is to push the buffers in the order they were
    captured and take frames until one is at or after the zero. *)
Theorem next_audio_ends captured (c : ShareClock) (more : nat) : has_time (sc_chunker c) ->
  let '(frame, rest, c') := next_audio (enough captured (sc_chunker c) + more) captured c in
  next_audio (enough captured (sc_chunker c)) captured c = (frame, rest, c') /\ has_time (sc_chunker c') /\
  (frame = None -> rest = [] /\ needs_more (sc_chunker c') = true) /\
  exists taken ops, captured = taken ++ rest /\ omap (fun o => match o with Push _ samples => Some samples | Take => None end) ops = taken.*2 /\
    foldl (fun acc o => chunk_step o acc) ([], sc_chunker c) ops = (option_list frame, sc_chunker c').
Proof.
  assert (forall n captured c more, has_time (sc_chunker c) -> (weight captured (sc_chunker c) < n)%nat ->
    let '(frame, rest, c') := next_audio (n + more) captured c in
    next_audio n captured c = (frame, rest, c') /\ has_time (sc_chunker c') /\
    (frame = None -> rest = [] /\ needs_more (sc_chunker c') = true) /\
    exists taken ops, captured = taken ++ rest /\ omap (fun o => match o with Push _ samples => Some samples | Take => None end) ops = taken.*2 /\
      foldl (fun acc o => chunk_step o acc) ([], sc_chunker c) ops = (option_list frame, sc_chunker c')) as Hall.
  { clear. induction n as [|n IH]; intros captured c more Ht Hw; [lia|]. cbn [Nat.add next_audio]. destruct (needs_more (sc_chunker c)) eqn:En.
    - destruct captured as [|[at_ samples] captured]; [split_and!; [done..|by exists [], []]|].
      destruct (push_audio_chunker at_ samples c) as [ticks Et]. set (c1 := clock_push_audio at_ samples c) in *.
      assert (has_time (sc_chunker c1)) as Ht1 by (rewrite Et; apply push_has_time).
      assert (weight captured (sc_chunker c1) < n)%nat as Hw1 by (rewrite Et; unfold weight in *; cbn in Hw; pose proof (push_weight ticks samples (sc_chunker c)); lia).
      specialize (IH captured c1 more Ht1 Hw1). destruct (next_audio (n + more) captured c1) as [[frame rest] c']. destruct IH as (E & Ht' & Hf & taken & ops & Hc & Ho & Hr).
      split_and!; [done..|]. exists ((at_, samples) :: taken), (Push ticks samples :: ops). split_and!; [by rewrite Hc|by cbn; rewrite Ho|]. cbn. by rewrite <- Et.
    - pose proof (take_weight _ En Ht) as [Hlt Ht1]. destruct (chunker_take (sc_chunker c)) as [[[stamp frame]|] chunker] eqn:Etake; cbn [snd] in *.
      + split_and!; [done..|]. exists [], [Take]. split_and!; [done..|]. cbn. by rewrite Etake.
      + set (c1 := mkClock _ chunker _). assert (weight captured (sc_chunker c1) < n)%nat as Hw1 by (unfold weight in *; cbn; lia).
        specialize (IH captured c1 more Ht1 Hw1). destruct (next_audio (n + more) captured c1) as [[frame rest] c']. destruct IH as (E & Ht' & Hf & taken & ops & Hc & Ho & Hr).
        split_and!; [done..|]. exists taken, (Take :: ops). split_and!; [done..|]. cbn. rewrite Etake. exact Hr. }
  intros Ht. apply Hall; [done|]. unfold enough. lia.
Qed.
Lemma next_audio_ends_witness : has_time chunker_default /\
  let captured := [(100, ten_ms); (580, ten_ms)] in
  let '(frame, rest, c') := next_audio (enough captured chunker_default + 5) captured (clock_new 48000) in
  (next_audio (enough captured chunker_default) captured (clock_new 48000) = (frame, rest, c') /\ has_time (sc_chunker c') /\
  (frame = None -> rest = [] /\ needs_more (sc_chunker c') = true) /\
  exists taken ops, captured = taken ++ rest /\ omap (fun o => match o with Push _ samples => Some samples | Take => None end) ops = taken.*2 /\
    foldl (fun acc o => chunk_step o acc) ([], sc_chunker (clock_new 48000)) ops = (option_list frame, sc_chunker c')) /\
  frame ≫= (fun f => Some f.1) = Some 0.
Proof.
  split; [done|]. cbn zeta. pose proof (next_audio_ends [(100, ten_ms); (580, ten_ms)] (clock_new 48000) 5 ltac:(done)) as H.
  assert ((fun r : option (Z * list f32) * list (Z * list f32) * ShareClock => r.1.1 ≫= (fun f => Some f.1))
    (next_audio (enough [(100, ten_ms); (580, ten_ms)] chunker_default + 5) [(100, ten_ms); (580, ten_ms)] (clock_new 48000)) = Some 0) as Hs by (by vm_compute).
  change (sc_chunker (clock_new 48000)) with chunker_default in *. destruct (next_audio _ _ _) as [[frame rest] c']. split; [exact H|exact Hs].
Defined.

(** ** Stamps of pictures *)

(** The stamps of pictures taken at [times], and the clock after. *)
Definition video_run (times : list Z) (c : ShareClock) : list Z * ShareClock :=
  foldl (fun '(out, c) at_ => let '(stamp, c) := clock_video at_ c in (out ++ option_list stamp, c)) ([], c) times.

Lemma video_stamps times c : exists ticks, (video_run times c).1 = wrap32 <$> ticks /\ StronglySorted Z.lt ticks /\ Forall (fun t => 0 <= t) ticks /\
  Forall (fun t => match sc_last_frame c with Some last => last < t | None => True end) ticks /\
  (forall last, sc_last_frame (video_run times c).2 = Some last -> Forall (fun t => t <= last) ticks /\ (match sc_last_frame c with Some last0 => last0 <= last | None => True end)) /\
  (sc_last_frame (video_run times c).2 = None -> ticks = [] /\ sc_last_frame c = None).
Proof.
  unfold video_run. induction times as [|at_ times IH] using rev_ind.
  - exists []. split_and!; try by constructor. cbn. intros last ->. split; [constructor|lia].
  - rewrite foldl_snoc. destruct (foldl _ _ times) as [out c1]. cbn [fst snd] in IH. destruct IH as (ticks & -> & Hs & Hp & Hl & Hlast & Hnone).
    unfold clock_video. destruct (zero_ticks _ _ _) as [t zero]. destruct (Z.ltb_spec t 0); cbn [fst snd].
    { exists ticks. rewrite app_nil_r. by split_and!. }
    set (t' := match sc_last_frame c1 with Some last => _ | None => t end). exists (ticks ++ [t']).
    assert (0 <= t' /\ Forall (fun u => u < t') ticks /\ match sc_last_frame c with Some last0 => last0 < t' | None => True end) as (Ht0 & Hlt & Hc).
    { unfold t'. destruct (sc_last_frame c1) as [last|] eqn:E1.
      - destruct (Hlast last eq_refl) as [Hle Hc]. split_and!; [lia| |destruct (sc_last_frame c); [lia|done]]. eapply list.Forall_impl; [exact Hle|]. cbn. lia.
      - destruct (Hnone eq_refl) as [-> ->]. split_and!; [lia|constructor|done]. }
    clearbody t'. split_and!.
    + by rewrite fmap_app.
    + clear -Hs Hlt. induction Hs as [|a l Hs IH Ha]; [by repeat constructor|]. inversion_clear Hlt. cbn. constructor; [by apply IH|]. apply Forall_app_2; [done|by constructor].
    + apply Forall_app_2; [done|by constructor].
    + apply Forall_app_2; [done|by constructor].
    + cbn. intros ? [= <-]. split; [|destruct (sc_last_frame c); [lia|done]]. apply Forall_app_2; [eapply list.Forall_impl; [exact Hlt|]; cbn; lia|constructor; [done|constructor]].
    + done.
Qed.

(** ** The limiter *)

(** The stamps let through, by their ticks, and the limiter after. *)
Definition limit_run (ticks : list Z) (l : FrameLimiter) : list Z * FrameLimiter :=
  foldl (fun '(out, l) t => let '(keep, l) := admits (wrap32 t) l in (if keep : bool then out ++ [t] else out, l)) ([], l) ticks.

(** [n] is the next tick scheduled, [a] the last one let through. *)
Definition scheduled (l : FrameLimiter) (a n : Z) : Prop := fl_next l = Some (wrap32 n) /\ a <= n <= a + fl_interval l + fl_interval l / 4.

Lemma as_i32_near x : exists m, as_i32 (wrap32 x) = x + m * 4294967296 /\ - 2147483648 <= as_i32 (wrap32 x) < 2147483648.
Proof.
  unfold as_i32, wrap32. pose proof (Z.mod_pos_bound x 4294967296 ltac:(done)). pose proof (Z.div_mod x 4294967296 ltac:(done)).
  destruct (Z.ltb_spec (x mod 4294967296) 2147483648); [exists (- (x / 4294967296))|exists (- (x / 4294967296) - 1)]; lia.
Qed.
Lemma wrap32_diff n t : wrap32 (wrap32 n - wrap32 t) = wrap32 (n - t).
Proof. unfold wrap32. by rewrite Zminus_mod_idemp_l, Zminus_mod_idemp_r. Qed.
Lemma wrap32_plus n i : wrap32 (wrap32 n + i) = wrap32 (n + i).
Proof. unfold wrap32. by rewrite Zplus_mod_idemp_l. Qed.
Lemma wrap32_shift n m : wrap32 (n + m * 4294967296) = wrap32 n.
Proof. unfold wrap32. by rewrite Z.mod_add. Qed.

(** One stamp, no earlier than the last: what it takes to be let through, and when it is. *)
Lemma admits_scheduled l a n t : scheduled l a n -> 0 <= fl_interval l <= VIDEO_CLOCK_HZ -> a <= t ->
  let i := fl_interval l in
  match admits (wrap32 t) l with
  | (true, l') => fl_interval l' = i /\ n - i / 4 <= t /\ exists n', scheduled l' t n' /\ n + i <= n' /\ (n' = t + i \/ n' = n + i \/ n + 4294967296 <= t + 2 * i)
  | (false, l') => l' = l /\ (t < n - i / 4 \/ n + 4294967296 <= t + 2 * i)
  end.
Proof.
  cbn zeta. intros [Hn Ha] Hi Ht. unfold admits. rewrite Hn, wrap32_diff, !wrap32_plus. set (i := fl_interval l) in *. unfold VIDEO_CLOCK_HZ in Hi.
  assert (0 <= i / 4 <= i) as Hq by (split; [by apply Z.div_pos; lia|apply Z.div_le_upper_bound; lia]).
  destruct (as_i32_near (n - t)) as (m & E & Hr). rewrite E in *. clear E. set (early := n - t + m * 4294967296) in *. assert (0 <= m) as Hm by (unfold early in *; lia).
  assert (n + m * 4294967296 = t + early) as Ee by (unfold early; lia).
  destruct (Z.ltb_spec (2 * i) early).
  - assert (1 <= m) by (unfold early in *; lia). cbn. split; [done|]. split; [unfold early in *; lia|]. exists (t + i). split; [split; cbn; [done|fold i; lia]|]. split; [unfold early in *; lia|by left].
  - destruct (Z.ltb_spec (i / 4) early).
    { split; [done|]. destruct (decide (m = 0)) as [->|]; [left; lia|right; lia]. }
    destruct (Z.ltb_spec (- i) early); cbn; (split; [done|]); (split; [lia|]).
    + exists (t + early + i). split; [split; cbn; [rewrite <- Ee; rewrite <- (wrap32_shift (n + i) m); do 2 f_equal; lia|fold i; lia]|]. split; [lia|]. right. destruct (decide (m = 0)) as [->|]; [left; lia|right; lia].
    + exists (t + i). split; [split; cbn; [done|fold i; lia]|]. split; [lia|by left].
Qed.

(** [k] pictures after another, at least that many intervals less a quarter have passed. *)
Definition spaced (i : Z) (kept : list Z) : Prop :=
  forall j k a b, kept !! j = Some a -> kept !! k = Some b -> (j < k)%nat -> (Z.of_nat (k - j) - 1) * i - i / 4 <= b - a.
(** The limiter is ahead of everything it let through. *)
Definition ahead (l : FrameLimiter) (kept : list Z) : Prop :=
  match list.last kept with
  | None => fl_next l = None
  | Some a => exists n, scheduled l a n /\ forall j b, kept !! j = Some b -> b + (Z.of_nat (length kept - j) - 1) * fl_interval l <= n
  end.

Lemma interval_bound fps : 0 <= VIDEO_CLOCK_HZ / Z.max fps 1 <= VIDEO_CLOCK_HZ.
Proof. split; [apply Z.div_pos; [done|lia]|apply Z.div_le_upper_bound; unfold VIDEO_CLOCK_HZ; lia]. Qed.
Lemma limit_step l kept t : 0 <= fl_interval l <= VIDEO_CLOCK_HZ -> ahead l kept -> spaced (fl_interval l) kept -> Forall (fun a => a <= t) kept ->
  let '(keep, l') := admits (wrap32 t) l in
  let kept' := if keep : bool then kept ++ [t] else kept in
  fl_interval l' = fl_interval l /\ ahead l' kept' /\ spaced (fl_interval l) kept'.
Proof.
  intros Hi Ha Hs Hle. set (i := fl_interval l) in *. assert (0 <= i / 4) by (apply Z.div_pos; lia). unfold ahead in Ha. destruct (list.last kept) as [a|] eqn:El.
  - destruct Ha as (n & Hn & Hj). assert (a <= t) as Hat by (apply (proj1 (list.Forall_forall _ _) Hle); by apply last_Some_elem_of).
    pose proof (admits_scheduled l a n t Hn Hi Hat) as H1. cbn zeta in H1. fold i in H1. destruct (admits (wrap32 t) l) as [[] l'].
    + destruct H1 as (Hi' & Ht & n' & Hn' & Hni & _). split; [done|]. split.
      * unfold ahead. rewrite last_snoc. exists n'. split; [done|]. rewrite Hi'. intros j b Hb. rewrite length_app. cbn. apply lookup_app_Some in Hb as [Hb|[Hge Hb]].
        -- specialize (Hj j b Hb). apply lookup_lt_Some in Hb. fold i in Hj. replace (Z.of_nat (length kept + 1 - j) - 1) with (Z.of_nat (length kept - j) - 1 + 1) by lia. lia.
        -- apply list_lookup_singleton_Some in Hb as [Hj0 <-]. replace (Z.of_nat (length kept + 1 - j) - 1) with 0 by lia. destruct Hn' as [_ Hn']. lia.
      * intros j k b c Hb Hc Hjk. apply lookup_app_Some in Hc as [Hc|[Hge Hc]].
        -- apply lookup_app_Some in Hb as [Hb|[Hge Hb]]; [by eapply Hs|]. apply lookup_lt_Some in Hc. lia.
        -- apply list_lookup_singleton_Some in Hc as [Hk0 <-]. assert (k = length kept) as -> by lia. rewrite lookup_app_l in Hb by lia.
           specialize (Hj j b Hb). fold i in Hj. lia.
    + destruct H1 as [-> _]. split; [done|]. split; [|done]. unfold ahead. rewrite El. by exists n.
  - apply last_None in El. subst kept. unfold admits. rewrite Ha. cbn [app]. split; [done|]. split.
    + exists (t + i). cbn. split; [split; cbn; [by rewrite wrap32_plus|fold i; lia]|]. intros [|j] b; cbn; [|done]. intros [= <-]. fold i. lia.
    + intros [|j] [|k] b c; cbn; [lia|done..].
Qed.
Lemma sublist_sorted l l' : l `sublist_of` l' -> StronglySorted Z.lt l' -> StronglySorted Z.lt l.
Proof.
  induction 1 as [|x l l' Hsub IH|x l l' Hsub IH]; [done| |]; intros [Hs Hx]%StronglySorted_inv; [|by apply IH]. constructor; [by apply IH|].
  apply list.Forall_forall. intros y Hy. apply (proj1 (list.Forall_forall _ _) Hx). by eapply elem_of_sublist.
Qed.
Lemma limit_ahead l ticks : 0 <= fl_interval l <= VIDEO_CLOCK_HZ -> fl_next l = None -> StronglySorted Z.lt ticks ->
  let '(kept, l') := limit_run ticks l in fl_interval l' = fl_interval l /\ ahead l' kept /\ spaced (fl_interval l) kept /\ kept `sublist_of` ticks.
Proof.
  intros Hi Hn Hs. unfold limit_run. induction ticks as [|t ticks IH] using rev_ind; [cbn; by repeat split|]. apply StronglySorted_app in Hs as (Hlt & Hs & _).
  rewrite foldl_snoc. specialize (IH Hs). destruct (foldl _ _ ticks) as [kept l']. destruct IH as (Ei & Ha & Hsp & Hsub).
  rewrite <- Ei in Hi, Hsp. assert (Forall (fun a => a <= t) kept) as Hle.
  { apply list.Forall_forall. intros a Hin. assert (a ∈ ticks) by (by eapply elem_of_sublist). specialize (Hlt a t ltac:(done) ltac:(set_solver)). lia. }
  pose proof (limit_step l' kept t Hi Ha Hsp Hle) as H. destruct (admits (wrap32 t) l') as [keep l'']. destruct H as (Ei' & Ha' & Hs').
  rewrite Ei', Ei in *. split_and!; [done..|]. destruct keep; [by apply sublist_app|by apply sublist_inserts_r].
Qed.

(** The pictures a share sends: stamped by its capture's clock, then limited to its rate. *)
Definition sent_pictures (hz fps : Z) (times : list Z) : list Z :=
  (foldl (fun '(out, l) stamp => let '(keep, l) := admits stamp l in (if keep : bool then out ++ [stamp] else out, l)) ([], limiter_new fps) (video_run times (clock_new hz)).1).1.
Lemma limit_stamps ticks l out0 : foldl (fun '(out, l) stamp => let '(keep, l) := admits stamp l in (if keep : bool then out ++ [stamp] else out, l)) (wrap32 <$> out0, l) (wrap32 <$> ticks) =
  (fun r : list Z * FrameLimiter => (wrap32 <$> r.1, r.2)) (foldl (fun '(out, l) t => let '(keep, l) := admits (wrap32 t) l in (if keep : bool then out ++ [t] else out, l)) (out0, l) ticks).
Proof.
  revert out0 l. induction ticks as [|t ticks IH]; intros out0 l; [done|]. cbn [fmap list_fmap foldl]. destruct (admits (wrap32 t) l) as [[] l']; [|apply IH].
  rewrite <- IH. by rewrite fmap_app.
Qed.

(** Whatever the times a capture reports, the pictures a share sends are stamped in order,
    each later than the last, and keep its rate over every span of them: from one to the
    [k]th after it at least [k - 1] intervals of the rate pass, less a quarter of one. *)
Theorem pictures_keep_the_rate (hz fps : Z) (times : list Z) :
  exists ticks, sent_pictures hz fps times = wrap32 <$> ticks /\ StronglySorted Z.lt ticks /\ spaced (VIDEO_CLOCK_HZ / Z.max fps 1) ticks.
Proof.
  unfold sent_pictures. destruct (video_stamps times (clock_new hz)) as (ticks & -> & Hs & _).
  pose proof (limit_ahead (limiter_new fps) ticks (interval_bound fps) eq_refl Hs) as H. rewrite (limit_stamps ticks _ []). unfold limit_run in H.
  destruct (foldl _ _ ticks) as [kept l]. destruct H as (_ & _ & Hsp & Hsub). exists kept. split; [done|]. split; [|done].
  by eapply sublist_sorted.
Qed.

(** A source on schedule: pictures due at least [i] ticks apart, each a quarter of [i] late at
    most, and no pause that comes near the stamps' range. *)
Inductive steady (i : Z) : Z -> Z -> list Z -> Prop :=
| steady_done due last : steady i due last []
| steady_next due last due' t ticks : due <= due' -> due' <= t <= due' + i / 4 -> last <= t < last + 4294967296 - 2 * i -> steady i (due' + i) t ticks -> steady i due last (t :: ticks).

Lemma steady_kept i due a n l ticks : fl_interval l = i -> 0 <= i <= VIDEO_CLOCK_HZ -> scheduled l a n -> n <= due + i / 4 -> steady i due a ticks ->
  forall out, (foldl (fun '(out, l) t => let '(keep, l) := admits (wrap32 t) l in (if keep : bool then out ++ [t] else out, l)) (out, l) ticks).1 = out ++ ticks.
Proof.
  intros Hl Hi Hn Hd Hs. revert l n Hl Hn Hd. induction Hs as [due a|due a due' t ticks Hdue Ht Hgap Hs IH]; intros l n Hl Hn Hd out; [by rewrite app_nil_r|].
  cbn [foldl]. pose proof (admits_scheduled l a n t Hn ltac:(by rewrite Hl) ltac:(lia)) as H. cbn zeta in H. rewrite Hl in H. destruct Hn as [_ Hn]. rewrite Hl in Hn.
  destruct (admits (wrap32 t) l) as [[] l'].
  - destruct H as (Hi' & _ & n' & Hn' & _ & Hup). rewrite (IH l' n' Hi' Hn'); [by rewrite <- app_assoc|]. lia.
  - exfalso. destruct H as [_ [?|?]]; lia.
Qed.

(** A source that keeps the share's rate, each picture late by no more than a quarter of
    an interval, loses none of them, wherever the 32-bit stamps wrap. *)
Theorem a_steady_source_loses_nothing (fps : Z) (t : Z) (ticks : list Z) :
  let i := VIDEO_CLOCK_HZ / Z.max fps 1 in
  steady i t t (t :: ticks) -> (limit_run (t :: ticks) (limiter_new fps)).1 = t :: ticks.
Proof.
  intros i Hs. inversion_clear Hs as [|? ? due' ? ? Hdue Ht _ Hs']. unfold limit_run. cbn [foldl limiter_new admits fl_next fl_interval]. fold i.
  assert (0 <= i <= VIDEO_CLOCK_HZ) as Hi by apply interval_bound. assert (0 <= i / 4) by (apply Z.div_pos; lia).
  apply (steady_kept i (due' + i) t (t + i) _ ticks) with (out := [t]); [done|done| |lia|done]. split; cbn; [by rewrite wrap32_plus|lia].
Qed.
Lemma a_steady_source_loses_nothing_witness :
  let ticks := [4294966000; 4294967800; 4294969000; 4294970500] in
  steady (VIDEO_CLOCK_HZ / Z.max 60 1) 4294966000 4294966000 ticks /\ (limit_run ticks (limiter_new 60)).1 = ticks.
Proof.
  cbn zeta. change (VIDEO_CLOCK_HZ / Z.max 60 1) with 1500.
  assert (steady 1500 4294966000 4294966000 [4294966000; 4294967800; 4294969000; 4294970500]) as H.
  { apply (steady_next _ _ _ 4294966000); [lia|change (1500 / 4) with 375; lia|lia|]. apply (steady_next _ _ _ 4294967500); [lia|change (1500 / 4) with 375; lia|lia|].
    apply (steady_next _ _ _ 4294969000); [lia|change (1500 / 4) with 375; lia|lia|]. apply (steady_next _ _ _ 4294970500); [lia|change (1500 / 4) with 375; lia|lia|]. constructor. }
  split; [exact H|]. exact (a_steady_source_loses_nothing 60 4294966000 _ H).
Defined.

(** ** The ring *)

(** The ring as the queue of whole buffers in it, oldest first. *)
Definition ring_holds (q : list (Z * list f32)) (r : AudioRing) : Prop :=
  ar_buffers r = (fun b => (b.1, Z.of_nat (length b.2) / 2)) <$> q /\ ar_samples r = mjoin q.*2 /\ Forall (fun b => Nat.even (length b.2) = true) q /\
  Z.of_nat (length (ar_samples r)) <= SAMPLE_RING /\ Z.of_nat (length (ar_buffers r)) <= BUFFER_RING.
(** A captured buffer of [frames] frames: cut, or padded with silence. *)
Definition whole_buffer (frames : Z) (samples : list f32) : list f32 := take (Z.to_nat (frames * 2)) (samples ++ silence (frames * 2)).

Lemma whole_buffer_length frames samples : 0 <= frames -> length (whole_buffer frames samples) = Z.to_nat (frames * 2).
Proof. intros H. unfold whole_buffer. rewrite length_take, length_app, silence_length. lia. Qed.
Lemma buffer_even (n : nat) : Nat.even n = true -> Z.to_nat (Z.of_nat n / 2 * 2) = n.
Proof. intros H. pose proof (even_half n H). lia. Qed.

(** The ring between a capture's thread and the share's is a queue of whole buffers: a push
    adds the buffer at the end, cut or padded to its frames, or is refused and changes nothing,
    which it is exactly when a second of samples or 64 buffers would be exceeded; a pop gives
    the oldest buffer with its time and all of its samples, and nothing only when none waits. *)
Theorem the_ring_is_a_queue_of_buffers (q : list (Z * list f32)) (r : AudioRing) : ring_holds q r ->
  (forall at_ frames samples, 0 < frames ->
    let '(kept, r') := ring_push at_ frames samples r in
    kept = (Z.of_nat (length (ar_samples r)) + frames * 2 <=? SAMPLE_RING) && (Z.of_nat (length q) <? BUFFER_RING) /\
    if kept then ring_holds (q ++ [(at_, whole_buffer frames samples)]) r' else r' = r) /\
  (let '(b, r') := ring_pop r in b = head q /\ ring_holds (tail q) r').
Proof.
  intros (Hb & Hs & He & Hls & Hlb). split.
  - intros at_ frames samples Hf. unfold ring_push. destruct (Z.eqb_spec frames 0); [lia|]. assert (length (ar_buffers r) = length q) as Eq by (by rewrite Hb, length_fmap). rewrite Eq.
    replace (frames * 2 <=? SAMPLE_RING - Z.of_nat (length (ar_samples r))) with (Z.of_nat (length (ar_samples r)) + frames * 2 <=? SAMPLE_RING)
      by (destruct (Z.leb_spec (Z.of_nat (length (ar_samples r)) + frames * 2) SAMPLE_RING); symmetry; [apply Z.leb_le|apply Z.leb_gt]; lia).
    rewrite <- Z.ltb_antisym. destruct (_ && _) eqn:E; [|done]. split; [done|]. apply andb_true_iff in E as [E1%Z.leb_le E2%Z.ltb_lt]. fold (whole_buffer frames samples).
    assert (length (whole_buffer frames samples) = Z.to_nat (frames * 2)) as El by (apply whole_buffer_length; lia). split_and!.
    + rewrite fmap_app, Hb. cbn. rewrite El. do 4 f_equal. rewrite Z2Nat.id by lia. by rewrite Z.div_mul.
    + cbn. by rewrite fmap_app, join_app, Hs; cbn; rewrite app_nil_r.
    + apply Forall_app_2; [done|]. constructor; [|constructor]. cbn. rewrite El, Z.mul_comm. apply even_double.
    + cbn. rewrite length_app, El. lia.
    + cbn. rewrite length_app, Eq. cbn. lia.
  - unfold ring_pop. destruct q as [|[at_ l] q]; cbn in Hb; rewrite Hb; cbn; [split; [done|by split_and!]|].
    inversion_clear He as [|? ? Hel Heq]. cbn in Hel, Hs. rewrite (buffer_even _ Hel), Hs. pose proof (even_half _ Hel). rewrite length_app.
    rewrite (proj2 (Z.ltb_ge _ _)) by lia. rewrite take_app_length, drop_app_length. split; [done|]. rewrite Hs, length_app in Hls. rewrite Hb in Hlb. cbn in Hlb.
    split_and!; cbn; try done; [lia|]. rewrite length_fmap in *. lia.
Qed.
Lemma the_ring_is_a_queue_of_buffers_witness : ring_holds [] ring_new /\
  (forall at_ frames samples, 0 < frames -> let '(kept, r') := ring_push at_ frames samples ring_new in
    kept = (Z.of_nat (length (ar_samples ring_new)) + frames * 2 <=? SAMPLE_RING) && (Z.of_nat (length (@nil (Z * list f32))) <? BUFFER_RING) /\
    if kept then ring_holds ([] ++ [(at_, whole_buffer frames samples)]) r' else r' = ring_new) /\
  (let '(b, r') := ring_pop ring_new in b = head (@nil (Z * list f32)) /\ ring_holds (tail []) r').
Proof.
  assert (ring_holds [] ring_new) as H by (split_and!; try done; constructor). split; [exact H|]. exact (the_ring_is_a_queue_of_buffers [] ring_new H).
Defined.
