(* ===== verification/Pictures.v ===== *)
(** * Pictures (throcc-client-core, media/video/frame.rs)

    NV12 pictures, the size a share is sent at, the number a test picture carries, the
    thumbnails of a share and the conversion to BGRA.  Sizes are [usize]: a side is far below
    2^32, so products do not wrap.  A picture's planes are lists of bytes. *)
From Stdlib Require Import SpecFloat.
From S2P Require Import Prelude Float64 Jitter.
Open Scope Z_scope.

(* @src/crates/throcc-client-core/src/media/video/frame.rs 1-11 VideoFrame *)
Record VideoFrame := mkFrame { vf_width : Z; vf_height : Z; vf_y : bytes; vf_uv : bytes; vf_timestamp : Z }.
(* @src/crates/throcc-client-core/src/media/video/frame.rs 14-23 VideoFrame::blank *)
Definition blank (width height : Z) : VideoFrame :=
  mkFrame width height (replicate (Z.to_nat (width * height)) 0) (replicate (Z.to_nat (width * ((height + 1) / 2))) 128) 0.

(** ** The size of a share *)

(** [v & !1]. *)
Definition floor2 (v : Z) : Z := v / 2 * 2.
(* @src/crates/throcc-client-core/src/media/video/frame.rs 200-211 fit_within *)
Definition fit_within (source bound : Z * Z) : Z * Z :=
  let sw := Z.max (fst source) 1 in let sh := Z.max (snd source) 1 in
  let bw := fst bound in let bh := snd bound in
  let '(width, height) := if bw * sh <? sw * bh then (bw, sh * bw / sw) else (sw * bh / sh, bh) in
  let even v := Z.max (floor2 v) 2 in
  (Z.min (even width) (floor2 bw), Z.min (even height) (floor2 bh)).
(* @src/crates/throcc-client-core/src/media/video/frame.rs 213-218 share_size *)
Definition share_size (source bound : Z * Z) : Z * Z :=
  fit_within source (Z.max (Z.min (fst bound) (fst source)) 2, Z.max (Z.min (snd bound) (snd source)) 2).

(** ** The number of a test picture *)

(** [l[start..start + n].fill(v)] of a range that is there. *)
Definition fill (start n : Z) (v : Z) (l : bytes) : bytes :=
  take (Z.to_nat start) l ++ replicate (Z.to_nat n) v ++ drop (Z.to_nat (start + n)) l.
Definition upto (n : Z) : list Z := Z.of_nat <$> seq 0 (Z.to_nat n).
(* @src/crates/throcc-client-core/src/media/video/frame.rs 51-67 VideoFrame::stamp_number *)
Definition stamp_number (number : Z) (f : VideoFrame) : VideoFrame :=
  let block := vf_width f / 16 in
  let y := foldl (fun y bit =>
    let value := if Z.testbit number (15 - bit) then 235 else 16 in
    foldl (fun y row => fill (row * vf_width f + bit * block) block value y) y (upto (Z.min block (vf_height f)))) (vf_y f) (upto 16) in
  mkFrame (vf_width f) (vf_height f) y (vf_uv f) (vf_timestamp f).
(* @src/crates/throcc-client-core/src/media/video/frame.rs 69-77 VideoFrame::read_test_number *)
Definition read_test_number (f : VideoFrame) : Z :=
  let block := vf_width f / 16 in
  foldl (fun acc bit =>
    let center := block / 2 * vf_width f + bit * block + block / 2 in
    let on := match vf_y f !! Z.to_nat center with Some v => 128 <? v | None => false end in
    Z.lor (Z.land (Z.shiftl acc 1) 65535) (if on then 1 else 0)) 0 (upto 16).

(** [l.copy_within(from..to, at)] of ranges that are there. *)
Definition copy_within (from to_ at_ : Z) (l : bytes) : bytes :=
  let part := take (Z.to_nat (to_ - from)) (drop (Z.to_nat from) l) in
  take (Z.to_nat at_) l ++ part ++ drop (Z.to_nat at_ + length part) l.
(** The columns 256, 512, ... below [width]. *)
Definition steps256 (width : Z) : list Z := (fun k => 256 * (k + 1)) <$> upto ((width - 1) / 256).
(* @src/crates/throcc-client-core/src/media/video/frame.rs 25-49 VideoFrame::test_pattern *)
Definition test_pattern (width height number timestamp : Z) : VideoFrame :=
  let shift := number * 4 in
  let y0 := vf_y (blank width height) in
  let fill_row y row :=
    let line := take (Z.to_nat width) (drop (Z.to_nat (row * width)) y) in
    let line := imap (fun col pixel => if Z.of_nat col <? 256 then Z.land (Z.lxor (Z.of_nat col + shift) row) 255 / 2 + 64 else pixel) line in
    let line := foldl (fun line start => copy_within (start - 256) (Z.min (start + 256) width - 256) start line) line (steps256 width) in
    take (Z.to_nat (row * width)) y ++ line ++ drop (Z.to_nat ((row + 1) * width)) y in
  let y := foldl fill_row y0 (upto (Z.min height 256)) in
  let y := foldl (fun y row => copy_within ((row - 256) * width) ((row - 255) * width) (row * width) y) y ((fun k => k + 256) <$> upto (height - 256)) in
  stamp_number number (mkFrame width height y (vf_uv (blank width height)) timestamp).

(** ** Thumbnails *)

(** [l.chunks_exact(n)]; [fuel] is at least their number. *)
Fixpoint chunks_exact_with {A} (fuel n : nat) (l : list A) : list (list A) :=
  match fuel with
  | O => []
  | S fuel => if (length l <? n)%nat then [] else take n l :: chunks_exact_with fuel n (drop n l)
  end.
Definition chunks_exact {A} (n : nat) (l : list A) : list (list A) := chunks_exact_with (length l) n l.

(** A block of samples added to the sums of its channels. *)
Definition add_block (channels : nat) (block sum : list Z) : list Z :=
  match sum with
  | [total] => [total + foldr Z.add 0 block]
  | _ => foldl (fun sum sample => zip_with Z.add sum sample) sum (chunks_exact channels block)
  end.
(* @src/crates/throcc-client-core/src/media/video/frame.rs 145-186 shrink_plane *)
Definition shrink_plane (src : bytes) (stride : Z) (channels factor : nat) (out : bytes) (columns rows : nat) : bytes :=
  let out_stride := (length out / Nat.max rows 1)%nat in
  foldl (fun out row =>
    let sums := foldl (fun sums line =>
      let start := ((row * factor + line) * Z.to_nat stride)%nat in
      let n := (columns * factor * channels)%nat in
      if (length src <? start + n)%nat then sums else
      mjoin (zip_with (add_block channels) (chunks_exact (factor * channels) (take n (drop start src))) (chunks_exact channels sums)))
      (replicate (columns * channels) 0) (seq 0 factor) in
    let area := Z.of_nat (factor * factor) in
    take (row * out_stride) out ++ ((fun sum => sum / area mod 256) <$> sums) ++ drop (row * out_stride + columns * channels) out) out (seq 0 rows).
(* @src/crates/throcc-client-core/src/media/video/frame.rs 92-107 VideoFrame::shrunk_nv12 *)
Definition shrunk_nv12 (y : bytes) (y_stride : Z) (uv : bytes) (uv_stride : Z) (source : Z * Z) (factor : Z) : VideoFrame :=
  let factor := Z.min (Z.max factor 1) (Z.max (Z.min (fst source) (snd source) / 2) 1) in
  let width := Z.max (floor2 (fst source / factor)) 2 in
  let height := Z.max (floor2 (snd source / factor)) 2 in
  let out := blank width height in
  mkFrame width height (shrink_plane y y_stride 1 (Z.to_nat factor) (vf_y out) (Z.to_nat width) (Z.to_nat height))
    (shrink_plane uv uv_stride 2 (Z.to_nat factor) (vf_uv out) (Z.to_nat (width / 2)) (Z.to_nat (height / 2))) 0.
(* @src/crates/throcc-client-core/src/media/video/frame.rs 79-90 VideoFrame::shrunk *)
Definition shrunk (factor : Z) (f : VideoFrame) : VideoFrame :=
  let out := shrunk_nv12 (vf_y f) (vf_width f) (vf_uv f) (vf_width f) (vf_width f, vf_height f) factor in
  mkFrame (vf_width out) (vf_height out) (vf_y out) (vf_uv out) (vf_timestamp f).

(** ** BGRA *)

(** [(coefficient * 65536.0 + 0.5) as i32] of a positive coefficient in ten-thousandths. *)
(* @src/crates/throcc-client-core/src/media/video/frame.rs 141-143 fixed *)
Definition fixed (ten_thousandths : Z) : Z :=
  f64_to_u32 (f64_add (f64_mul (f64_div (f64_of_Z ten_thousandths) (f64_of_Z 10000)) (f64_of_Z 65536)) (f64_div (f64_of_Z 1) (f64_of_Z 2))).
(* @src/crates/throcc-client-core/src/media/video/frame.rs 135-136 R_V *)
Definition R_V : Z := Eval vm_compute in fixed 15748.
(* @src/crates/throcc-client-core/src/media/video/frame.rs 137-137 G_U *)
Definition G_U : Z := Eval vm_compute in fixed 1873.
(* @src/crates/throcc-client-core/src/media/video/frame.rs 138-138 G_V *)
Definition G_V : Z := Eval vm_compute in fixed 4681.
(* @src/crates/throcc-client-core/src/media/video/frame.rs 139-139 B_U *)
Definition B_U : Z := Eval vm_compute in fixed 18556.

(** Two pixels share their chroma; an odd last one takes that of the last pair. *)
(* @src/crates/throcc-client-core/src/media/video/frame.rs 109-132 VideoFrame::to_bgra *)
Definition to_bgra (f : VideoFrame) : bytes :=
  let size := Z.to_nat (vf_width f * vf_height f * 4) in
  let width := Z.to_nat (Z.max (vf_width f) 1) in
  let last_pair := floor2 (sat_sub (vf_width f) 2) in
  let rows := take (size / (width * 4)) (chunks_exact width (vf_y f)) in
  let out := mjoin (imap (fun row y_row =>
    let uv_row := drop (row / 2 * width) (vf_uv f) in
    let chroma at_ := default 128 (uv_row !! Z.to_nat at_) - 128 in
    mjoin (imap (fun col y =>
      let at_ := Z.min (Z.of_nat col / 2 * 2) last_pair in
      let u := chroma at_ in let v := chroma (at_ + 1) in
      let channel c := Z.min (Z.max (Z.shiftr (Z.shiftl y 16 + c) 16) 0) 255 in
      [channel (B_U * u); channel (- G_U * u - G_V * v); channel (R_V * v); 255]) y_row)) rows) in
  out ++ replicate (size - length out) 0.

Example bgra_of_odd : let f := mkFrame 5 3 (replicate 15 128) (mjoin (replicate 2 [128; 255; 128; 255; 0])) 0 in
  (Z.of_nat (length (to_bgra f)), drop 56 (to_bgra f)) = (60, [128; 68; 255; 255]).
Proof. by vm_compute. Qed.
Example shrunk_averages : let row := [40; 40; 40; 40; 200; 200; 200; 200] in
  shrunk 2 (mkFrame 8 4 (44 :: tail row ++ row ++ row ++ row) (mjoin (replicate 8 [100; 150])) 7) = mkFrame 4 2 [41; 40; 200; 200; 40; 40; 200; 200] [100; 150; 100; 150] 7.
Proof. by vm_compute. Qed.
Example reads_back : (fun n => read_test_number (test_pattern 64 40 n 0)) <$> [0; 1; 4660; 65535] = [0; 1; 4660; 65535].
Proof. by vm_compute. Qed.
Example keeps_its_shape : (fun s => share_size s (2560, 1440)) <$> [(3024, 1964); (3440, 1440); (1365, 767)] = [(2216, 1440); (2560, 1070); (1364, 766)].
Proof. by vm_compute. Qed.

(** ** Pictures keep their shape, their number and their colours *)

(** ** The size of a share *)

Lemma floor2_bounds v : floor2 v <= v < floor2 v + 2 /\ Z.even (floor2 v) = true.
Proof.
  unfold floor2. split; [pose proof (Z.mod_pos_bound v 2 ltac:(done)); pose proof (Z.div_mod v 2 ltac:(done)); lia|]. by rewrite Z.even_mul, orb_true_r.
Qed.
Lemma floor2_mono a b : a <= b -> floor2 a <= floor2 b.
Proof. intros H. unfold floor2. pose proof (Z.div_le_mono a b 2 ltac:(done) H). lia. Qed.
Lemma even_sides v b : 2 <= b -> v <= b -> let s := Z.min (Z.max (floor2 v) 2) (floor2 b) in Z.even s = true /\ 2 <= s <= b /\ (2 <= v -> v - 1 <= s <= v) /\ (v < 2 -> s = 2).
Proof.
  intros Hb Hv. cbn zeta. destruct (floor2_bounds v) as [Hv1 Hv2], (floor2_bounds b) as [Hb1 Hb2]. pose proof (floor2_mono 2 b Hb) as H2. change (floor2 2) with 2 in H2.
  pose proof (floor2_mono v b Hv). destruct (Z.le_ge_cases (floor2 v) 2).
  - rewrite (Z.max_r (floor2 v)) by lia. rewrite Z.min_l by lia. split; [done|]. lia.
  - rewrite (Z.max_l (floor2 v)) by lia. rewrite Z.min_l by lia. split; [done|]. lia.
Qed.

(** The longer side against its bound; the other follows the source's shape. *)
Lemma fitted sw sh bw bh : 1 <= sw -> 1 <= sh -> 2 <= bw -> 2 <= bh ->
  let '(w, h) := fit_within (sw, sh) (bw, bh) in
  Z.even w = true /\ Z.even h = true /\ 2 <= w <= bw /\ 2 <= h <= bh /\
  (w = 2 \/ h = 2 \/ - 2 * sw < h * sw - w * sh < 2 * sh) /\ (bw - 1 <= w \/ bh - 1 <= h).
Proof.
  intros Hsw Hsh Hbw Hbh. unfold fit_within. cbn [fst snd]. rewrite (Z.max_l sw), (Z.max_l sh) by lia.
  destruct (Z.ltb_spec (bw * sh) (sw * bh)) as [Hlt|Hge].
  - set (hh := sh * bw / sw). assert (hh <= bh /\ hh * sw <= sh * bw < hh * sw + sw) as [Hh Hd].
    { unfold hh. pose proof (Z.mod_pos_bound (sh * bw) sw ltac:(lia)). pose proof (Z.div_mod (sh * bw) sw ltac:(lia)). split; [|lia]. apply Z.div_le_upper_bound; lia. }
    destruct (even_sides bw bw) as (H1 & H2 & H3 & _); [lia..|]. destruct (even_sides hh bh) as (H4 & H5 & H6 & H7); [lia..|].
    set (w := Z.min _ (floor2 bw)) in *. set (h := Z.min _ (floor2 bh)) in *. clearbody w h hh. split_and!; [done|done|lia|lia|lia|lia| |left; lia].
    destruct (Z.le_gt_cases 2 hh) as [H2h|]; [|right; left; by apply H7]. right; right. clear H7. specialize (H3 ltac:(lia)). specialize (H6 H2h). nia.
  - set (ww := sw * bh / sh). assert (ww <= bw /\ ww * sh <= sw * bh < ww * sh + sh) as [Hw Hd].
    { unfold ww. pose proof (Z.mod_pos_bound (sw * bh) sh ltac:(lia)). pose proof (Z.div_mod (sw * bh) sh ltac:(lia)). split; [|lia]. apply Z.div_le_upper_bound; lia. }
    destruct (even_sides ww bw) as (H1 & H2 & H3 & H7); [lia..|]. destruct (even_sides bh bh) as (H4 & H5 & H6 & _); [lia..|].
    set (w := Z.min _ (floor2 bw)) in *. set (h := Z.min _ (floor2 bh)) in *. clearbody w h ww. split_and!; [done|done|lia|lia|lia|lia| |right; lia].
    destruct (Z.le_gt_cases 2 ww) as [H2w|]; [|left; by apply H7]. right; right. clear H7. specialize (H3 H2w). specialize (H6 ltac:(lia)). nia.
Qed.

(** A share's pictures have even sides that fit in its bound and in the source (each at
    least 2), one of them the largest that can, and the shape of the source: no side is off
    what the other asks for by as much as two pixels, unless a side is at its least. *)
Theorem a_share_keeps_its_shape (source bound : Z * Z) : 2 <= fst source -> 2 <= snd source -> 2 <= fst bound -> 2 <= snd bound ->
  let '(w, h) := share_size source bound in
  Z.even w = true /\ Z.even h = true /\ 2 <= w <= Z.min (fst source) (fst bound) /\ 2 <= h <= Z.min (snd source) (snd bound) /\
  (w = 2 \/ h = 2 \/ - 2 * fst source < h * fst source - w * snd source < 2 * snd source) /\
  (Z.min (fst source) (fst bound) - 1 <= w \/ Z.min (snd source) (snd bound) - 1 <= h).
Proof.
  destruct source as [sw sh], bound as [bw bh]. cbn [fst snd]. intros. unfold share_size. cbn [fst snd].
  pose proof (fitted sw sh (Z.max (Z.min bw sw) 2) (Z.max (Z.min bh sh) 2) ltac:(lia) ltac:(lia) ltac:(lia) ltac:(lia)) as Hf.
  destruct (fit_within _ _) as [w h]. rewrite (Z.max_l (Z.min bw sw)), (Z.max_l (Z.min bh sh)) in Hf by lia. rewrite (Z.min_comm bw), (Z.min_comm bh) in Hf. exact Hf.
Qed.
Lemma a_share_keeps_its_shape_witness : let '(w, h) := share_size (3440, 1440) (2560, 1440) in
  (w, h) = (2560, 1070) /\ (w = 2 \/ h = 2 \/ - 2 * 3440 < h * 3440 - w * 1440 < 2 * 1440).
Proof.
  pose proof (a_share_keeps_its_shape (3440, 1440) (2560, 1440) ltac:(done) ltac:(done) ltac:(done) ltac:(done)) as H.
  change (share_size (3440, 1440) (2560, 1440)) with (2560, 1070) in *. split; [done|]. apply H.
Defined.
