(* ===== verification/JitterFacts.v ===== *)
(** * The jitter buffer: what every run keeps, and steady audio played whole *)
From Stdlib Require Import SpecFloat.
From S2P Require Import Prelude Ordered Frame Float64 People Jitter.
Open Scope Z_scope.

#[global] Opaque jitter_target.

Section Facts.
Context {Decoder : Type} (decode_float : Decoder -> bytes -> list f32 -> DecodeMode -> bool * list f32 * Decoder).
(** A decoder fills the frame buffer it is given, and cannot change its length. *)
Context (Hlen : forall d packet frame mode, length (decode_float d packet frame mode).1.2 = length frame).

Lemma frame_is : FRAME = 960. Proof. reflexivity. Qed.
Lemma pull_is : PULL = 480. Proof. reflexivity. Qed.

Abbreviation JB := (JitterBuffer Decoder).

(** ** The invariant *)

Record jitter_ok (b : JB) : Prop := {
  jo_channels : 0 < jb_channels b;
  jo_frame : Z.of_nat (length (jb_frame b)) = FRAME * jb_channels b;
  jo_pos : 0 <= jb_frame_pos b <= FRAME;
  jo_next : forall next, jb_next_ts b = Some next -> is_u32 next;
  jo_packets : forall ts p, jb_packets b !! ts = Some p -> is_u32 ts;
  jo_size : Z.of_nat (size (jb_packets b)) <= MAX_PACKETS;
  jo_playing : jb_playing b = true -> is_Some (jb_next_ts b);
  jo_pulls : 0 <= jb_pulls b < ACCELERATE_EVERY;
  jo_lowest : 0 <= jb_lowest b <= u32_max
}.

Lemma new_jitter_ok decoder channels : 0 < channels -> jitter_ok (jitter_new decoder channels).
Proof.
  intros Hc. constructor; cbn; try done.
  unfold silence. rewrite length_replicate, Z2Nat.id; rewrite ?frame_is; lia.
Qed.

Lemma wrap32_u32 z : is_u32 (wrap32 z).
Proof. unfold is_u32, u32_max, wrap32. pose proof (Z.mod_pos_bound z 4294967296). lia. Qed.

Lemma target_bounds (b : JB) : MIN_TARGET <= jitter_target b <= MAX_TARGET.
Proof. Transparent jitter_target. unfold jitter_target. assert (MIN_TARGET <= MAX_TARGET) by done. lia. Opaque jitter_target. Qed.

(** What is buffered ahead never overflows a [u32]. *)
Lemma buffered_bounds (b : JB) : jitter_ok b -> 0 <= jitter_buffered b <= 2147483648 + 2 * FRAME.
Proof.
  intros Hok. unfold jitter_buffered. pose proof (jo_pos _ Hok) as Hp. assert (0 <= FRAME) by done.
  assert (0 <= (if jb_playing b then FRAME - jb_frame_pos b else 0) <= FRAME) as H1 by (destruct (jb_playing b); lia).
  destruct (jb_next_ts b) as [next|] eqn:En; [|lia]. destruct (greatest _) as [last|] eqn:El; [|lia].
  destruct (timestamp_before last next) eqn:Et; [lia|].
  apply greatest_Some in El as [Hin _]. apply elem_of_dom in Hin as [p Hp']. pose proof (jo_packets _ Hok _ _ Hp') as Hl. pose proof (jo_next _ Hok _ En) as Hn.
  unfold timestamp_before in Et. change (Z.shiftl 1 31) with 2147483648 in Et. unfold is_u32, u32_max, wrap32 in *.
  destruct (Z.eqb_spec last next) as [->|Hne]; [rewrite Z.sub_diag; change (0 mod 4294967296) with 0; lia|]. cbn in Et. apply Z.ltb_ge in Et.
  pose proof (Z.mod_pos_bound (last - next) 4294967296). pose proof (Z.mod_pos_bound (next - last) 4294967296).
  assert ((next - last) mod 4294967296 = 4294967296 - (last - next) mod 4294967296); [|lia].
  replace (next - last) with (- (last - next)) by ring. apply Z.mod_opp_l_nz; [lia|]. intros E. apply Z.mod_divide in E as [q Hq]; [|lia]. nia.
Qed.

(** ** Every operation keeps it *)

Lemma insert_jitter_ok timestamp payload arrival (b : JB) : is_u32 timestamp -> jitter_ok b -> jitter_ok (jitter_insert timestamp payload arrival b).
Proof.
  intros Ht [H1 H2 H3 H4 H5 H6 H7 H8 H9]. unfold jitter_insert. set (tr := sub_i64 _ _). clearbody tr.
  set (b1 := put_last_transit _ _). assert (jitter_ok b1) as Hb1 by (constructor; done). clearbody b1. clear H1 H2 H3 H4 H5 H6 H7 H8 H9 b.
  destruct (_ && _); [by destruct Hb1; constructor|].
  set (b2 := if negb (jb_playing b1) && _ then _ else b1). assert (jitter_ok b2) as Hb2.
  { unfold b2. destruct (_ && _); [|done]. destruct Hb1. constructor; try done. by intros next [= <-]. }
  clearbody b2. clear Hb1 b1.
  set (b3 := if MAX_PACKETS <=? _ then _ else b2). assert (jitter_ok b3 /\ Z.of_nat (size (jb_packets b3)) < MAX_PACKETS) as [Hb3 Hs].
  { unfold b3. destruct (Z.leb_spec MAX_PACKETS (Z.of_nat (size (jb_packets b2)))) as [Hle|]; [|done].
    destruct (least (dom (jb_packets b2))) as [first|] eqn:El; cbn [from_option].
    - apply least_Some in El as [Hin _]. apply elem_of_dom in Hin as [p Hp]. pose proof (map_size_delete_Some first (jb_packets b2) ltac:(eauto)) as Hd.
      assert (size (jb_packets b2) <> 0%nat) by (unfold MAX_PACKETS in *; lia). destruct Hb2. split; [constructor; try done|]; cbn [jb_packets put_stats put_packets].
      + intros ts q [_ Hq]%lookup_delete_Some. by apply (jo_packets0 ts q).
      + lia.
      + lia.
    - apply least_None, dom_empty_inv_L in El. rewrite El, map_size_empty in Hle. done. }
  clearbody b3. clear Hb2 b2. destruct Hb3. constructor; try done; cbn [jb_packets put_packets].
  - intros ts p [[<- <-]|[_ Hp]]%lookup_insert_Some; [done|by apply (jo_packets0 ts p)].
  - rewrite map_size_insert. destruct (jb_packets b3 !! timestamp); cbn; lia.
Qed.

(** What [decode] leaves: the frame of its length, everything else but the decoder. *)
Lemma decode_fields packet mode (b : JB) : exists frame decoder,
  decode decode_float packet mode b = put_frame frame (put_decoder decoder b) /\ length frame = length (jb_frame b).
Proof.
  unfold decode. pose proof (Hlen (jb_decoder b) packet (jb_frame b) mode) as H. destruct (decode_float _ _ _ _) as [[ok frame] decoder]. cbn in H.
  eexists _, decoder. split; [done|]. destruct ok; [done|apply length_replicate].
Qed.

Lemma decode_jitter_ok packet mode (b : JB) : jitter_ok b -> jitter_ok (decode decode_float packet mode b).
Proof.
  intros [H1 H2 H3 H4 H5 H6 H7 H8 H9]. destruct (decode_fields packet mode b) as (frame & decoder & -> & E). constructor; try done. cbn. by rewrite E.
Qed.

Lemma play_frame_ok next following (b : JB) : is_u32 following -> jitter_ok b -> jitter_ok (play_frame next following b).
Proof.
  intros Hf [H1 H2 H3 H4 H5 H6 H7 H8 H9]. constructor; cbn; try done.
  - by intros ? [= <-].
  - intros ts p [Hp _]%map_lookup_filter_Some. by apply (H5 ts p).
  - etransitivity; [|exact H6]. apply inj_le. apply map_subseteq_size, map_filter_subseteq.
Qed.

Lemma realign_ok next (b : JB) : jitter_ok b -> is_u32 next -> let '(next', b') := realign next b in
  jitter_ok b' /\ is_u32 next' /\ jb_playing b' = jb_playing b /\ jb_channels b' = jb_channels b.
Proof.
  intros Hok Hn. unfold realign. destruct (jb_packets b !! next); [done|]. destruct (least (dom (jb_packets b))) as [first|] eqn:El; [|done].
  destruct (_ =? 0); [done|]. split_and!; [by destruct Hok; constructor| |done..].
  apply least_Some in El as [Hin _]. apply elem_of_dom in Hin as [p Hp]. by apply (jo_packets _ Hok first p).
Qed.

Lemma decode_at_ok next (b : JB) : jitter_ok b -> jb_playing b = true -> is_u32 next -> let '(decoded, b') := decode_at decode_float next b in
  jitter_ok b' /\ jb_playing b' = decoded /\ jb_channels b' = jb_channels b /\ (decoded = true -> jb_frame_pos b' = 0).
Proof.
  intros Hb Hp Hn. pose proof (wrap32_u32 (next + FRAME)) as Hf. unfold decode_at. cbv zeta.
  assert (forall packet mode b1 f, jitter_ok b1 -> jb_playing b1 = true -> jb_channels b1 = jb_channels b ->
    (forall b2 : JB, jitter_ok b2 -> jitter_ok (f b2)) -> (forall b2 : JB, jb_playing (f b2) = jb_playing b2 /\ jb_channels (f b2) = jb_channels b2) ->
    let b' := play_frame next (wrap32 (next + FRAME)) (f (decode decode_float packet mode b1)) in
    jitter_ok b' /\ jb_playing b' = true /\ jb_channels b' = jb_channels b /\ (true = true -> jb_frame_pos b' = 0)) as Hpf.
  { intros packet mode b1 f H1 H2 H3 H4 H5. split; [by apply play_frame_ok, H4, decode_jitter_ok|]. cbn.
    rewrite (proj1 (H5 _)), (proj2 (H5 _)). destruct (decode_fields packet mode b1) as (fr & dec & -> & _). done. }
  destruct (jb_packets b !! next) as [packet|] eqn:Ep; [|destruct (jb_packets b !! wrap32 (next + FRAME)) as [packet|]; [|destruct (_ && _); [|destruct (_ || _)]]].
  - set (b1 := put_packets _ b). assert (jitter_ok b1) as Hb1.
    { destruct Hb. constructor; try done; cbn [jb_packets put_packets b1].
      - intros ts q [_ Hq]%lookup_delete_Some. by apply (jo_packets0 ts q).
      - etransitivity; [|exact jo_size0]. apply inj_le, map_subseteq_size, delete_subseteq. }
    by apply (Hpf packet Normal b1 (fun b => put_stats (count_normal (jb_stats b)) (put_concealed 0 b))); [..|intros b2 []; constructor|].
  - by apply (Hpf packet Fec b (fun b => put_stats (count_fec (jb_stats b)) (put_concealed 0 b))); [..|intros b2 []; constructor|].
  - destruct (decode_fields [] Normal b) as (fr & dec & -> & El). destruct Hb. split_and!; try done. constructor; try done. cbn. by rewrite El.
  - by apply (Hpf [] Normal b (fun b => put_stats (count_concealed (jb_stats b)) (put_concealed (jb_concealed b + 1) b))); [..|intros b2 []; constructor|].
  - destruct Hb. split_and!; try done. constructor; try done. cbn. intros n [Hin _]%least_Some.
    apply elem_of_dom in Hin as [p Hq]. by apply (jo_packets0 n p).
Qed.

(** Decoding the next frame: while it plays it makes a frame to play from its start, and it
    stops playing, with nothing made, only to buffer again. *)
Lemma decode_next_ok (b : JB) : jitter_ok b -> jb_playing b = true -> let '(decoded, b') := decode_next decode_float b in
  jitter_ok b' /\ jb_playing b' = decoded /\ jb_channels b' = jb_channels b /\ (decoded = true -> jb_frame_pos b' = 0).
Proof.
  intros Hok Hplay. unfold decode_next. destruct (jo_playing _ Hok Hplay) as [next En]. rewrite En.
  pose proof (realign_ok next b Hok (jo_next _ Hok _ En)) as H. destruct (realign next b) as [next' b']. destruct H as (Hb & Hn & Hp & Hc).
  pose proof (decode_at_ok next' b' Hb ltac:(congruence) Hn) as H. destruct (decode_at _ _ _) as [decoded b2]. by rewrite <- Hc.
Qed.

Lemma accelerate_ok (b : JB) : jitter_ok b -> jitter_ok (accelerate b) /\ jb_channels (accelerate b) = jb_channels b /\ jb_playing (accelerate b) = jb_playing b.
Proof.
  intros Hok. pose proof (buffered_bounds b Hok) as Hbuf. unfold accelerate. set (b1 := put_lowest _ _).
  assert (jb_lowest b1 = Z.min (jb_lowest b) (jitter_buffered b)) as El by done.
  assert (0 <= jb_lowest b1 <= u32_max) as Hl by (rewrite El; destruct Hok; lia). assert (jb_pulls b1 = jb_pulls b + 1) as Ep by done.
  assert (forall pulls lowest : Z, 0 <= pulls < ACCELERATE_EVERY -> 0 <= lowest <= u32_max -> jitter_ok (put_pulls pulls (put_lowest lowest b))) as Hput
    by (intros; destruct Hok; by constructor).
  destruct (Z.ltb_spec (jb_pulls b1) ACCELERATE_EVERY).
  - split; [|done]. apply (Hput (jb_pulls b + 1) (jb_lowest b1)); [destruct Hok; lia|done].
  - set (b2 := put_pulls 0 (put_lowest u32_max b1)). assert (jitter_ok b2) as Hb2 by (apply (Hput 0 u32_max); [done|by unfold u32_max]).
    destruct (_ <=? _); [done|]. destruct (jb_next_ts b2) as [next|] eqn:En; [|done]. destruct (jb_packets b2 !! next); [|done].
    split; [|done]. clearbody b2. destruct Hb2. constructor; try done; cbn.
    + intros ? [= <-]. apply wrap32_u32.
    + intros ts q [_ Hq]%lookup_delete_Some. by apply (jo_packets0 ts q).
    + etransitivity; [|exact jo_size0]. apply inj_le, map_subseteq_size, delete_subseteq.
Qed.

(** ** A pull fills its output *)

Lemma frame_slice_length n (b : JB) : jitter_ok b -> 0 <= n -> jb_frame_pos b + n <= FRAME -> Z.of_nat (length (frame_slice n b)) = n * jb_channels b.
Proof.
  intros Hok Hn Hle. unfold frame_slice. rewrite length_take, length_drop. pose proof (jo_frame _ Hok). pose proof (jo_channels _ Hok). pose proof (jo_pos _ Hok).
  assert (0 <= jb_frame_pos b * jb_channels b) by (apply Z.mul_nonneg_nonneg; lia). assert (0 <= n * jb_channels b) by (apply Z.mul_nonneg_nonneg; lia).
  assert ((jb_frame_pos b + n) * jb_channels b <= FRAME * jb_channels b) by (apply Z.mul_le_mono_nonneg_r; lia).
  rewrite Z.mul_add_distr_r in *. lia.
Qed.

Lemma put_pos_ok pos (b : JB) : 0 <= pos <= FRAME -> jitter_ok b -> jitter_ok (put_frame_pos pos b).
Proof. intros ? []. by constructor. Qed.

Lemma pull_loop_ok fuel filled (b : JB) : jitter_ok b -> jb_playing b = true -> 0 <= filled <= PULL -> PULL - filled < Z.of_nat fuel ->
  let '(out, b') := pull_loop decode_float fuel filled b in
  jitter_ok b' /\ Z.of_nat (length out) = (PULL - filled) * jb_channels b /\ jb_channels b' = jb_channels b /\
  forall more, pull_loop decode_float (fuel + more) filled b = (out, b').
Proof.
  revert filled b. induction fuel as [|fuel IH]; intros filled b Hok Hp Hf Hfuel; [lia|]. cbn [pull_loop Nat.add].
  destruct (Z.ltb_spec filled PULL) as [Hlt|Hge].
  2:{ destruct (accelerate_ok b Hok) as (? & Ec & _). assert (filled = PULL) as -> by lia. rewrite Z.sub_diag. split_and!; done. }
  assert (let '(decoded, b1) := if jb_frame_pos b =? FRAME then decode_next decode_float b else (true, b) in
    jitter_ok b1 /\ jb_playing b1 = decoded /\ jb_channels b1 = jb_channels b /\ (decoded = true -> jb_frame_pos b1 < FRAME)) as H.
  { destruct (Z.eqb_spec (jb_frame_pos b) FRAME) as [E|Hne]; [|pose proof (jo_pos _ Hok); split_and!; [done..|lia]].
    pose proof (decode_next_ok b Hok Hp) as H. destruct (decode_next _ _) as [decoded b1]. destruct H as (? & ? & ? & Hz). split_and!; [done..|].
    intros Hd. rewrite (Hz Hd). done. }
  destruct (if jb_frame_pos b =? FRAME then _ else _) as [decoded b1]. destruct H as (Hb1 & Hp1 & Hc1 & Hpos). destruct decoded.
  - set (n := Z.min _ _). specialize (Hpos eq_refl). pose proof (jo_pos _ Hb1) as Hpos1. assert (0 < n /\ filled + n <= PULL /\ jb_frame_pos b1 + n <= FRAME) as (? & ? & ?) by lia.
    specialize (IH (filled + n) (put_frame_pos (jb_frame_pos b1 + n) b1) ltac:(apply put_pos_ok; [lia|done]) Hp1 ltac:(lia) ltac:(lia)).
    destruct (pull_loop decode_float fuel _ _) as [out b']. destruct IH as (? & El & Ec & Hmore). cbn [jb_channels put_frame_pos] in El, Ec.
    split_and!; [done| |congruence|].
    + rewrite length_app, Nat2Z.inj_add, frame_slice_length, El by (done || lia). rewrite Hc1. ring.
    + intros more. by rewrite Hmore.
  - split_and!; [done| |done|done]. unfold silence. rewrite length_replicate, Z2Nat.id, Hc1; [done|]. pose proof (jo_channels _ Hb1). nia.
Qed.

Lemma pull_ok (b : JB) : jitter_ok b -> let '(out, b') := jitter_pull decode_float b in
  jitter_ok b' /\ Z.of_nat (length out) = PULL * jb_channels b /\ jb_channels b' = jb_channels b.
Proof.
  intros Hok. unfold jitter_pull.
  assert (forall b1, jitter_ok b1 -> jb_playing b1 = true -> jb_channels b1 = jb_channels b -> let '(out, b') := pull_loop decode_float (S (Z.to_nat PULL)) 0 b1 in
    jitter_ok b' /\ Z.of_nat (length out) = PULL * jb_channels b /\ jb_channels b' = jb_channels b) as Hgo.
  { intros b1 H1 H2 H3. pose proof (pull_loop_ok (S (Z.to_nat PULL)) 0 b1 H1 H2 ltac:(done) ltac:(done)) as H.
    destruct (pull_loop _ _ _ _) as [out b']. destruct H as (? & El & ? & _). split_and!; [done| |congruence]. rewrite El, H3. lia. }
  destruct (jb_playing b) eqn:Hp; [by apply Hgo|]. destruct (_ && _) eqn:Es.
  - apply Hgo; [|done..]. apply andb_true_iff in Es as [_ Es%bool_decide_eq_true]. destruct Hok. by constructor.
  - split_and!; [done| |done]. unfold silence. rewrite length_replicate, Z2Nat.id; [done|]. pose proof (jo_channels _ Hok). rewrite pull_is. lia.
Qed.

(** ** A packet for every two pulls *)

(** [q] in a row from [t] on. *)
Fixpoint queued (t : Z) (q : list bytes) : gmap Z bytes :=
  match q with [] => ∅ | p :: q => <[t := p]> (queued (wrap32 (t + FRAME)) q) end.

Definition place_at (t : Z) (i : nat) : Z := wrap32 (t + Z.of_nat i * FRAME).

Lemma place_S t i : place_at (wrap32 (t + FRAME)) i = place_at t (S i).
Proof. unfold place_at, wrap32. rewrite Z.add_mod_idemp_l by done. f_equal. lia. Qed.
Lemma place_0 t : is_u32 t -> place_at t 0 = t.
Proof. intros H. unfold place_at, wrap32, is_u32, u32_max in *. rewrite Z.mul_0_l, Z.add_0_r. apply Z.mod_small. lia. Qed.
Lemma place_u32 t i : is_u32 (place_at t i).
Proof. apply wrap32_u32. Qed.

(** Few enough places lie apart from the start of the row, after it. *)
Lemma place_diff t i : is_u32 t -> (i <= 64)%nat -> wrap32 (place_at t i - t) = Z.of_nat i * FRAME.
Proof.
  intros Ht Hi. unfold place_at, wrap32. rewrite Zminus_mod_idemp_l. replace (t + Z.of_nat i * FRAME - t) with (Z.of_nat i * FRAME) by ring.
  apply Z.mod_small. rewrite frame_is. lia.
Qed.
Lemma place_inj t i : is_u32 t -> (i <= 64)%nat -> place_at t i = t -> i = 0%nat.
Proof.
  intros Ht Hi E. pose proof (place_diff t i Ht Hi) as H. rewrite E, Z.sub_diag in H. change (wrap32 0) with 0 in H. rewrite frame_is in H. lia.
Qed.
Lemma place_not_before t i : is_u32 t -> (i <= 64)%nat -> timestamp_before (place_at t i) t = false.
Proof.
  intros Ht Hi. unfold timestamp_before. change (Z.shiftl 1 31) with 2147483648. destruct (Z.eqb_spec (place_at t i) t) as [|Hne]; [done|]. cbn.
  apply Z.ltb_ge. pose proof (place_diff t i Ht Hi) as H. rewrite frame_is in H.
  assert (i <> 0%nat) by (intros ->; by rewrite place_0 in Hne).
  assert (wrap32 (t - place_at t i) = 4294967296 - Z.of_nat i * 960); [|lia]. unfold wrap32 in *.
  replace (t - place_at t i) with (- (place_at t i - t)) by ring. rewrite Z.mod_opp_l_nz by lia. by rewrite H.
Qed.

Lemma queued_lookup t q ts p : queued t q !! ts = Some p -> exists i, (i < length q)%nat /\ (is_u32 t -> ts = place_at t i).
Proof.
  revert t. induction q as [|p0 q IH]; intros t; cbn; [by rewrite lookup_empty|]. intros [[<- <-]|[_ H]]%lookup_insert_Some.
  - exists 0%nat. split; [lia|]. intros. by rewrite place_0.
  - apply IH in H as (i & ? & Hi). exists (S i). split; [lia|]. intros _. rewrite <- place_S. apply Hi, wrap32_u32.
Qed.
Lemma queued_fresh t q i : is_u32 t -> (length q <= 32)%nat -> (length q <= i <= 32)%nat -> queued t q !! place_at t i = None.
Proof.
  revert t i. induction q as [|p q IH]; intros t i Ht Hq Hi; cbn in *; [apply lookup_empty|]. rewrite lookup_insert_ne.
  - destruct i as [|i]; [lia|]. rewrite <- place_S. apply IH; [apply wrap32_u32|lia|lia].
  - intros E. symmetry in E. apply place_inj in E; lia || done.
Qed.
Lemma queued_behind t q : is_u32 t -> (length q <= 32)%nat -> queued (wrap32 (t + FRAME)) q !! t = None.
Proof.
  intros Ht Hq. destruct (queued (wrap32 (t + FRAME)) q !! t) as [p|] eqn:E; [|done]. apply queued_lookup in E as (i & Hi & E).
  specialize (E (wrap32_u32 _)). rewrite place_S in E. symmetry in E. apply place_inj in E; lia || done.
Qed.
Lemma queued_snoc t q p : is_u32 t -> (length q < 32)%nat -> <[place_at t (length q) := p]> (queued t q) = queued t (q ++ [p]).
Proof.
  revert t. induction q as [|p0 q IH]; intros t Ht Hq; cbn [length app queued] in *; [by rewrite place_0|].
  rewrite <- place_S, <- IH by (apply wrap32_u32 || lia). apply insert_insert_ne. intros E. rewrite place_S in E. apply place_inj in E; lia || done.
Qed.
Lemma queued_size t q : (size (queued t q) <= length q)%nat.
Proof. revert t. induction q as [|p q IH]; intros t; cbn; [by rewrite map_size_empty|]. rewrite map_size_insert. specialize (IH (wrap32 (t + FRAME))). destruct (_ !! t); cbn; lia. Qed.
Lemma queued_kept t q : is_u32 t -> (length q <= 32)%nat -> filter (fun p : Z * bytes => timestamp_before p.1 t = false) (queued t q) = queued t q.
Proof.
  intros Ht Hq. apply map_filter_id. intros ts p H. apply queued_lookup in H as (i & Hi & E). rewrite (E Ht). cbn. apply place_not_before; [done|lia].
Qed.

Lemma buffered_queued t q (b : JB) : jitter_ok b -> jb_next_ts b = Some t -> jb_packets b = queued t q -> (length q <= 32)%nat -> jb_playing b = true ->
  jitter_buffered b <= Z.of_nat (length q) * FRAME + (FRAME - jb_frame_pos b).
Proof.
  intros Hok En Ep Hq Hp. unfold jitter_buffered. rewrite En, Hp. pose proof (jo_next _ Hok _ En) as Ht.
  destruct (greatest (dom (jb_packets b))) as [last|] eqn:El; [|rewrite frame_is; lia]. apply greatest_Some in El as [Hin _].
  apply elem_of_dom in Hin as [p Hl]. rewrite Ep in Hl. apply queued_lookup in Hl as (i & Hi & E). rewrite (E Ht), place_not_before, place_diff by (done || lia).
  rewrite frame_is. lia.
Qed.

(** An acceleration window with little buffered at some time of it skips nothing. *)
Lemma accelerate_quiet (b : JB) : jitter_ok b ->
  jb_pulls b + 1 < ACCELERATE_EVERY \/ jb_lowest b <= SPARE \/ jitter_buffered b <= SPARE ->
  exists pulls lowest, accelerate b = put_pulls pulls (put_lowest lowest b) /\
    (jitter_buffered b <= SPARE -> pulls = 0 \/ lowest <= SPARE) /\ (jb_pulls b = 0 \/ jb_lowest b <= SPARE -> pulls + 1 < ACCELERATE_EVERY \/ lowest <= SPARE).
Proof.
  intros Hok Hq. unfold accelerate. cbn [jb_pulls put_pulls put_lowest jb_lowest].
  destruct (Z.ltb_spec (jb_pulls b + 1) ACCELERATE_EVERY) as [Hlt|Hge].
  - exists (jb_pulls b + 1), (Z.min (jb_lowest b) (jitter_buffered (put_pulls (jb_pulls b + 1) b))).
    change (jitter_buffered (put_pulls (jb_pulls b + 1) b)) with (jitter_buffered b). split; [done|]. split; [intros; right; lia|].
    unfold ACCELERATE_EVERY. intros [->|?]; [by left|right; lia].
  - change (jitter_buffered (put_pulls (jb_pulls b + 1) b)) with (jitter_buffered b).
    destruct (Z.leb_spec (Z.min (jb_lowest b) (jitter_buffered b)) SPARE) as [_|?]; [|exfalso; lia].
    exists 0, u32_max. split; [done|]. split; [by left|]. by left.
Qed.

(** Playing, at the end of a frame, with [q] in a row from [t] on, which is to play next. *)
Record steady (t : Z) (q : list bytes) (b : JB) : Prop := {
  sd_ok : jitter_ok b;
  sd_playing : jb_playing b = true;
  sd_pos : jb_frame_pos b = FRAME;
  sd_next : jb_next_ts b = Some t;
  sd_packets : jb_packets b = queued t q;
  sd_window : jb_pulls b = 0 \/ jb_lowest b <= SPARE
}.

(** What the decoder makes of a packet and the frame before. *)
Definition decoded_frame (s : Decoder * list f32) (packet : bytes) : Decoder * list f32 :=
  let '(ok, frame, decoder) := decode_float s.1 packet s.2 Normal in (decoder, if ok : bool then frame else replicate (length s.2) zero).
Definition voice (b : JB) : Decoder * list f32 := (jb_decoder b, jb_frame b).

Lemma decoded_frame_length s packet : length (decoded_frame s packet).2 = length s.2.
Proof. unfold decoded_frame. pose proof (Hlen s.1 packet s.2 Normal) as H. destruct (decode_float _ _ _ _) as [[[] fr] d]; [done|apply length_replicate]. Qed.

Lemma insert_steady t q p arrival (b : JB) : steady t q b -> (length q <= 31)%nat ->
  let b' := jitter_insert (place_at t (length q)) p arrival b in
  steady t (q ++ [p]) b' /\ voice b' = voice b /\ jb_stats b' = jb_stats b /\ jb_channels b' = jb_channels b.
Proof.
  intros [Hok Hp Hpos En Eq Hw] Hlq b'. assert (jitter_ok b') as Hok' by (apply insert_jitter_ok; [apply place_u32|done]).
  pose proof (jo_next _ Hok _ En) as Ht. revert Hok'. unfold b', jitter_insert. cbn [jb_playing jb_next_ts jb_packets put_last_transit put_jitter].
  rewrite Hp, En, place_not_before by (done || lia). cbn [andb negb]. cbn [jb_packets put_last_transit put_jitter]. rewrite Eq.
  pose proof (queued_size t q) as Hs. destruct (Z.leb_spec MAX_PACKETS (Z.of_nat (size (queued t q)))) as [H|_]; [unfold MAX_PACKETS in H; lia|].
  cbn [jb_packets put_last_transit put_jitter]. rewrite Eq, queued_snoc by (done || lia). intros Hok'. split; [|done]. by constructor.
Qed.

Lemma play_steady t p q (b : JB) : steady t (p :: q) b -> (length q <= 31)%nat ->
  let s := decoded_frame (voice b) p in
  let t' := wrap32 (t + FRAME) in
  decode_next decode_float b =
    (true, put_frame_pos 0 (put_frame_ts t (put_next_ts (Some t') (put_packets (queued t' q) (put_stats (count_normal (jb_stats b)) (put_concealed 0 (put_frame s.2 (put_decoder s.1 b)))))))).
Proof.
  intros [Hok Hp Hpos En Eq Hw] Hlq s t'. pose proof (jo_next _ Hok _ En) as Ht. unfold decode_next. rewrite En. unfold realign. rewrite Eq. cbn [queued]. rewrite lookup_insert_eq.
  unfold decode_at. rewrite Eq. cbn [queued]. rewrite lookup_insert_eq. fold t'. unfold decode. cbn [jb_decoder jb_frame put_packets]. unfold s, decoded_frame, voice. cbn [fst snd].
  destruct (decode_float (jb_decoder b) p (jb_frame b) Normal) as [[ok fr] d]. unfold play_frame. cbn.
  rewrite delete_insert_id by (apply queued_behind; [done|lia]). rewrite queued_kept by (apply wrap32_u32 || lia). done.
Qed.

(** A pull that takes all its samples from one frame. *)
Lemma whole_pull (b b1 : JB) : jb_playing b = true -> (if jb_frame_pos b =? FRAME then decode_next decode_float b else (true, b)) = (true, b1) ->
  jb_frame_pos b1 + PULL <= FRAME -> jitter_pull decode_float b = (frame_slice PULL b1, accelerate (put_frame_pos (jb_frame_pos b1 + PULL) b1)).
Proof.
  intros Hp Hd Hpos. unfold jitter_pull. rewrite Hp. assert (exists k, Z.to_nat PULL = S k) as [k ->] by (exists 479%nat; reflexivity).
  cbn [pull_loop]. rewrite (proj2 (Z.ltb_lt 0 PULL)), Hd by done. cbn iota. replace (Z.min (PULL - 0) (FRAME - jb_frame_pos b1)) with PULL by lia.
  rewrite Z.add_0_l, Z.ltb_irrefl. by rewrite app_nil_r.
Qed.

(** The two pulls of a frame. *)
Lemma first_half t p q (b : JB) : steady t (p :: q) b -> (length q <= 31)%nat ->
  let s := decoded_frame (voice b) p in
  let t' := wrap32 (t + FRAME) in
  exists b', jitter_pull decode_float b = (take (Z.to_nat (PULL * jb_channels b)) s.2, b') /\ jitter_ok b' /\ jb_playing b' = true /\ jb_frame_pos b' = PULL /\
    jb_next_ts b' = Some t' /\ jb_packets b' = queued t' q /\ (jb_pulls b' + 1 < ACCELERATE_EVERY \/ jb_lowest b' <= SPARE) /\
    voice b' = s /\ jb_stats b' = count_normal (jb_stats b) /\ jb_channels b' = jb_channels b.
Proof.
  intros Hst Hlq s t'. pose proof Hst as [Hok Hp Hpos En Eq Hw].
  pose proof (decode_next_ok b Hok Hp) as Hd. rewrite (play_steady t p q b Hst Hlq) in Hd. fold s t' in Hd. set (b1 := put_frame_pos 0 _) in Hd. destruct Hd as (Hok1 & _).
  rewrite (whole_pull b b1 Hp); [|rewrite Hpos, Z.eqb_refl; by apply play_steady|done].
  set (b2 := put_frame_pos _ b1). assert (jitter_ok b2) as Hok2 by (by apply put_pos_ok).
  destruct (accelerate_quiet b2 Hok2) as (pulls & lowest & Ea & _ & Hwin).
  { pose proof (jo_pulls _ Hok). destruct Hw as [E|?]; [left|right; left; done]. change (jb_pulls b + 1 < ACCELERATE_EVERY). rewrite E. done. }
  pose proof (proj1 (accelerate_ok b2 Hok2)) as Hok3. rewrite Ea in *. exists (put_pulls pulls (put_lowest lowest b2)).
  assert (voice b2 = s) as Ev by apply eq_sym, surjective_pairing. split; [|split_and!; [done..|by apply Hwin|exact Ev|done|done]]. f_equal.
Qed.

Lemma second_half t q (b : JB) : jitter_ok b -> jb_playing b = true -> jb_frame_pos b = PULL -> jb_next_ts b = Some t -> jb_packets b = queued t q -> (length q <= 2)%nat ->
  jb_pulls b + 1 < ACCELERATE_EVERY \/ jb_lowest b <= SPARE ->
  exists b', jitter_pull decode_float b = (drop (Z.to_nat (PULL * jb_channels b)) (jb_frame b), b') /\ steady t q b' /\
    voice b' = voice b /\ jb_stats b' = jb_stats b /\ jb_channels b' = jb_channels b.
Proof.
  intros Hok Hp Hpos En Eq Hlq Hw. rewrite (whole_pull b b Hp); [|by rewrite Hpos|by rewrite Hpos].
  rewrite Hpos. change (PULL + PULL) with FRAME. set (b2 := put_frame_pos FRAME b). assert (jitter_ok b2) as Hok2 by (by apply put_pos_ok).
  pose proof (buffered_queued t q b2 Hok2 En Eq ltac:(lia) Hp) as Hbuf. assert (jitter_buffered b2 <= SPARE) as Hsp.
  { change (jb_frame_pos b2) with FRAME in Hbuf. change SPARE with 1920. rewrite frame_is in Hbuf. lia. }
  destruct (accelerate_quiet b2 Hok2) as (pulls & lowest & Ea & Hwin & _); [tauto|].
  pose proof (proj1 (accelerate_ok b2 Hok2)) as Hok3. rewrite Ea in *. exists (put_pulls pulls (put_lowest lowest b2)).
  split; [|split; [constructor; try done; by apply Hwin|done]]. f_equal. unfold frame_slice. rewrite Hpos. apply take_ge.
  rewrite length_drop. pose proof (jo_frame _ Hok). pose proof (jo_channels _ Hok). rewrite frame_is in *. rewrite pull_is. lia.
Qed.

(** *** Rounds *)

Definition two_pulls (b : JB) : list f32 * JB :=
  let '(out1, b) := jitter_pull decode_float b in let '(out2, b) := jitter_pull decode_float b in (out1 ++ out2, b).
(** A packet arrives at its place, then two pulls. *)
Definition jitter_round (t : Z) (packet : bytes) (arrival : Z) (b : JB) : list f32 * JB := two_pulls (jitter_insert t packet arrival b).

Lemma two_pulls_steady t p q (b : JB) : steady t (p :: q) b -> (length q <= 2)%nat ->
  let s := decoded_frame (voice b) p in
  exists b', two_pulls b = (s.2, b') /\ steady (wrap32 (t + FRAME)) q b' /\ voice b' = s /\ jb_stats b' = count_normal (jb_stats b).
Proof.
  intros Hst Hl s. unfold two_pulls. destruct (first_half _ _ _ _ Hst ltac:(lia)) as (b2 & -> & Hok2 & Hp2 & Hpos2 & Hn2 & Hq2 & Hw2 & Ev2 & Es2 & Ec2).
  destruct (second_half _ q b2 Hok2 Hp2 Hpos2 Hn2 Hq2 ltac:(lia) Hw2) as (b3 & -> & Hst3 & Ev3 & Es3 & Ec3). exists b3. fold s in Ev2 |- *. split.
  - f_equal. replace (jb_frame b2) with s.2 by (by rewrite <- Ev2). rewrite Ec2. apply take_drop.
  - split; [done|]. split; congruence.
Qed.

Lemma round_steady t q p0 q' p arrival (b : JB) : steady t q b -> (length q <= 2)%nat -> q ++ [p] = p0 :: q' ->
  let s := decoded_frame (voice b) p0 in
  exists b', jitter_round (place_at t (length q)) p arrival b = (s.2, b') /\ steady (wrap32 (t + FRAME)) q' b' /\
    voice b' = s /\ jb_stats b' = count_normal (jb_stats b).
Proof.
  intros Hst Hl E s. destruct (insert_steady t q p arrival b Hst ltac:(lia)) as (Hst1 & Ev & Es & Ec). rewrite E in Hst1.
  assert (length q = length q') as El by (apply (f_equal length) in E; rewrite length_app in E; cbn in E; lia).
  destruct (two_pulls_steady _ _ _ _ Hst1 ltac:(lia)) as (b' & Hb & Hst' & Hv & Hs). rewrite Ev in Hb, Hv. rewrite Es in Hs. by exists b'.
Qed.

(** The first packet of a new buffer: it starts to play at once, since no jitter was seen. *)
Lemma first_packet decoder channels t p arrival : 0 < channels -> is_u32 t ->
  let b := jitter_insert t p arrival (jitter_new decoder channels) in
  exists b', jitter_pull decode_float b = jitter_pull decode_float b' /\ steady t [p] b' /\ voice b' = (decoder, silence (FRAME * channels)) /\ jb_stats b' = stats_default.
Proof.
  intros Hc Ht b. assert (jitter_ok b) as Hok by (apply insert_jitter_ok; [done|by apply new_jitter_ok]).
  assert (jb_next_ts b = Some t /\ jb_playing b = false /\ jb_packets b = queued t [p] /\ jb_jitter b = S754_zero false /\ jb_pulls b = 0 /\ voice b = (decoder, silence (FRAME * channels)) /\ jb_stats b = stats_default) as (En & Hp & Eq & Ej & Epu & Ev & Es).
  { unfold b, jitter_insert, measure. cbn [jb_playing jb_next_ts jb_packets jb_last_transit jb_jitter put_last_transit put_jitter jitter_new andb negb].
    cbn [jb_packets put_next_ts put_last_transit put_jitter jitter_new]. rewrite map_size_empty. by split_and!. }
  exists (put_frame_pos FRAME (put_playing true b)). split; [|split; [|split; [exact Ev|exact Es]]].
  - unfold jitter_pull at 1. rewrite Hp, En. assert (jitter_target b = 960) as ->.
    { Transparent jitter_target. unfold jitter_target. rewrite Ej. vm_compute. reflexivity. Opaque jitter_target. }
    assert (jitter_buffered b = 960) as ->.
    { unfold jitter_buffered. rewrite En, Hp, Eq. cbn [queued]. assert (greatest (dom (<[t:=p]> (∅ : gmap Z bytes))) = Some t) as ->.
      { apply greatest_Some. rewrite dom_insert_L, dom_empty_L. set_solver by lia. }
      pose proof (place_not_before t 0 Ht ltac:(lia)) as H. rewrite place_0 in H by done. rewrite H, Z.sub_diag. done. }
    unfold jitter_pull. cbn [jb_playing put_frame_pos put_playing]. done.
  - constructor; try done; [destruct Hok; by constructor|by left].
Qed.
End Facts.

(** ** The jitter buffer: theorems *)

Section Theorems.
Context {Decoder : Type} (decode_float : Decoder -> bytes -> list f32 -> DecodeMode -> bool * list f32 * Decoder).

(** A decoder fills the frame buffer it is given, and cannot change its length. *)
Definition fills_its_buffer : Prop := forall d packet frame mode, length (decode_float d packet frame mode).1.2 = length frame.

(** What happens to a buffer: a packet, or a pull by the audio device. *)
Inductive JitterEvent := JbInsert (timestamp : Z) (payload : bytes) (arrival : Z) | JbPull.
Definition jitter_event (b : JitterBuffer Decoder) (e : JitterEvent) : JitterBuffer Decoder :=
  match e with JbInsert timestamp payload arrival => jitter_insert timestamp payload arrival b | JbPull => (jitter_pull decode_float b).2 end.
Definition jitter_run (es : list JitterEvent) (b : JitterBuffer Decoder) : JitterBuffer Decoder := foldl jitter_event b es.
Definition event_wf (e : JitterEvent) : Prop := match e with JbInsert timestamp _ _ => is_u32 timestamp | JbPull => True end.

Lemma run_jitter_ok es (b : JitterBuffer Decoder) : fills_its_buffer -> Forall event_wf es -> jitter_ok b ->
  jitter_ok (jitter_run es b) /\ jb_channels (jitter_run es b) = jb_channels b.
Proof.
  intros Hlen Hes. revert b. induction Hes as [|e es He _ IH]; intros b Hok; [done|]. cbn.
  assert (jitter_ok (jitter_event b e) /\ jb_channels (jitter_event b e) = jb_channels b) as [H Ec].
  { destruct e as [timestamp payload arrival|]; cbn.
    - split; [by apply insert_jitter_ok|]. unfold jitter_insert. by repeat case_match.
    - pose proof (pull_ok decode_float Hlen b Hok) as H. destruct (jitter_pull decode_float b). by destruct H as (? & _ & ?). }
  rewrite <- Ec. by apply IH.
Qed.

(** C36: Whatever packets arrive, late, lost, repeated, off the grid or across the wrap of the
    timestamps, and whatever the decoder makes of them, a pull ends and fills its output: 10 ms
    of samples for every channel.  The buffer never holds more packets than its limit, the
    delay it aims for stays within its limits, and what it counts as buffered fits a [u32]. *)
Theorem every_pull_fills_its_output (Hdecoder : fills_its_buffer) (decoder : Decoder) (channels : Z) (es : list JitterEvent)
  (Hchannels : 0 < channels) (Hes : Forall event_wf es) :
  let b := jitter_run es (jitter_new decoder channels) in
  Z.of_nat (length (jitter_pull decode_float b).1) = PULL * channels /\
  (jb_playing b = true -> forall more, pull_loop decode_float (S (Z.to_nat PULL) + more) 0 b = jitter_pull decode_float b) /\
  Z.of_nat (size (jb_packets b)) <= MAX_PACKETS /\ MIN_TARGET <= jitter_target b <= MAX_TARGET /\ 0 <= jitter_buffered b <= u32_max /\
  0 <= jb_frame_pos b <= FRAME.
Proof.
  intros b. destruct (run_jitter_ok es (jitter_new decoder channels) Hdecoder Hes (new_jitter_ok decoder channels Hchannels)) as [Hok Ec]. fold b in Hok, Ec.
  pose proof (pull_ok decode_float Hdecoder b Hok) as Hp. destruct (jitter_pull decode_float b) as [out b'] eqn:Epull. destruct Hp as (_ & El & _). cbn in Ec. rewrite Ec in El.
  split; [exact El|]. split; [|split; [apply Hok|split; [apply target_bounds|split; [|apply Hok]]]].
  - intros Hplay more. unfold jitter_pull in Epull. rewrite Hplay in Epull.
    pose proof (pull_loop_ok decode_float Hdecoder (S (Z.to_nat PULL)) 0 b Hok Hplay ltac:(done) ltac:(done)) as H. rewrite Epull in H. by apply H.
  - pose proof (buffered_bounds b Hok) as Hb. rewrite frame_is in Hb. unfold u32_max. lia.
Qed.

(** ** Steady audio *)

(** Packets that arrive one for every frame played, each with its arrival. *)
Fixpoint jitter_rounds (t : Z) (ps : list (bytes * Z)) (b : JitterBuffer Decoder) : list f32 * JitterBuffer Decoder :=
  match ps with
  | [] => ([], b)
  | (p, arrival) :: ps =>
      let '(out, b) := jitter_round decode_float t p arrival b in
      let '(rest, b) := jitter_rounds (wrap32 (t + FRAME)) ps b in (out ++ rest, b)
  end.
(** The samples the decoder makes of packets in a row. *)
Fixpoint decoded_all (s : Decoder * list f32) (ps : list bytes) : list f32 :=
  match ps with [] => [] | p :: ps => let s := decoded_frame decode_float s p in s.2 ++ decoded_all s ps end.

Lemma rounds_steady (Hdecoder : fills_its_buffer) t q ps (b : JitterBuffer Decoder) : steady t q b -> (length q <= 2)%nat ->
  let '(out, b') := jitter_rounds (place_at t (length q)) ps b in
  out = decoded_all (voice b) (take (length ps) (q ++ ps.*1)) /\ jb_playing b' = true /\ jb_stats b' = Nat.iter (length ps) count_normal (jb_stats b).
Proof.
  revert t q b. induction ps as [|[p arrival] ps IH]; intros t q b Hst Hl; [cbn; split_and!; [done|apply Hst|done]|]. cbn [jitter_rounds length].
  destruct (q ++ [p]) as [|p0 q'] eqn:E; [by destruct q|]. destruct (round_steady decode_float Hdecoder t q p0 q' p arrival b Hst Hl E) as (b' & -> & Hst' & Ev & Es).
  assert (length q' = length q) as El by (apply (f_equal length) in E; rewrite length_app in E; cbn in E; lia).
  specialize (IH _ _ _ Hst' ltac:(lia)). rewrite El in IH. replace (wrap32 (place_at t (length q) + FRAME)) with (place_at (wrap32 (t + FRAME)) (length q)).
  2:{ rewrite place_S. unfold place_at, wrap32. rewrite Z.add_mod_idemp_l by done. f_equal. lia. }
  destruct (jitter_rounds _ ps b') as [rest b2]. destruct IH as (-> & ? & Es2). change (p :: ps.*1) with ([p] ++ ps.*1). cbn [fmap list_fmap fst]. rewrite (cons_middle p), app_assoc, E.
  cbn [app take decoded_all]. rewrite Ev. split_and!; [done..|]. rewrite Es2, Es. symmetry. apply Nat.iter_succ_r.
Qed.

(** Audio that arrives as steadily as it is played is played whole and in order, for ever:
    with a packet for every 20 ms, from whatever timestamp on and across its wrap, a new
    buffer starts with the first packet and puts out exactly what the decoder makes of the
    packets one after the other; no packet is late, skipped or concealed.  So does a buffer
    that plays with up to two packets more ahead. *)
Theorem steady_audio_plays_whole (Hdecoder : fills_its_buffer) (decoder : Decoder) (channels t : Z) (ps : list (bytes * Z))
  (Hchannels : 0 < channels) (Ht : is_u32 t) :
  (let '(out, b) := jitter_rounds t ps (jitter_new decoder channels) in
   out = decoded_all (decoder, silence (FRAME * channels)) ps.*1 /\ jb_stats b = Nat.iter (length ps) count_normal stats_default) /\
  (forall q b, steady t q b -> (length q <= 2)%nat ->
     let '(out, b') := jitter_rounds (place_at t (length q)) ps b in
     out = decoded_all (voice b) (take (length ps) (q ++ ps.*1)) /\ jb_stats b' = Nat.iter (length ps) count_normal (jb_stats b)).
Proof.
  split.
  - destruct ps as [|[p arrival] ps]; [done|]. cbn [jitter_rounds]. unfold jitter_round.
    destruct (first_packet decode_float Hdecoder decoder channels t p arrival Hchannels Ht) as (b0 & Ep & Hst & Ev & Es).
    destruct (two_pulls_steady decode_float Hdecoder t p [] b0 Hst ltac:(cbn; lia)) as (b1 & Eb & Hst1 & Ev1 & Es1).
    unfold two_pulls in *. rewrite Ep, Eb. pose proof (rounds_steady Hdecoder _ [] ps b1 Hst1 ltac:(cbn; lia)) as H.
    cbn [length] in H. rewrite place_0 in H by apply wrap32_u32. destruct (jitter_rounds _ ps b1) as [rest b2]. destruct H as (-> & _ & Es2).
    cbn [app fmap list_fmap decoded_all fst length]. rewrite take_ge by (by rewrite length_fmap). rewrite Ev1, Ev. split; [done|].
    rewrite Es2, Es1, Es. symmetry. apply Nat.iter_succ_r.
  - intros q b Hst Hl. pose proof (rounds_steady Hdecoder t q ps b Hst Hl) as H. destruct (jitter_rounds _ ps b). tauto.
Qed.
End Theorems.

(** A decoder that holds the first byte of a packet for a whole frame, and the last byte seen
    where there is none. *)
Module Example.
Definition decode_held (d : Z) (packet : bytes) (frame : list f32) (mode : DecodeMode) : bool * list f32 * Z :=
  match packet with
  | x :: _ => (true, replicate (length frame) (f32_of_Z x), x)
  | [] => (true, replicate (length frame) (f32_of_Z d), d)
  end.
Lemma held_fills : fills_its_buffer decode_held.
Proof. intros d [|x packet] frame mode; apply length_replicate. Qed.

(** Packets out of order, one lost and one of a wrapped timestamp. *)
Definition events : list JitterEvent :=
  [JbInsert 4294966336 [1] 0; JbPull; JbInsert 960 [3] 2000; JbInsert 0 [2] 2100; JbPull; JbPull; JbPull; JbPull; JbInsert 4000 [4] 9000; JbPull; JbPull; JbPull; JbPull; JbPull].
End Example.

Lemma every_pull_fills_its_output_witness :
  let b := jitter_run Example.decode_held Example.events (jitter_new 0 1) in
  Z.of_nat (length (jitter_pull Example.decode_held b).1) = 480 /\ 0 <= jitter_buffered b <= u32_max.
Proof.
  intros b. destruct (every_pull_fills_its_output Example.decode_held Example.held_fills 0 1 Example.events ltac:(done)) as (H & _ & _ & _ & Hb & _).
  - repeat constructor; unfold event_wf, is_u32, u32_max; lia.
  - split; [exact H|exact Hb].
Defined.

(** Three packets across the wrap of the timestamps. *)
Lemma steady_audio_plays_whole_witness :
  let '(out, b) := jitter_rounds Example.decode_held 4294966336 [([7], 0); ([8], 960); ([9], 1920)] (jitter_new 0 1) in
  out = decoded_all Example.decode_held (0, silence 960) [[7]; [8]; [9]] /\ st_normal (jb_stats b) = 3.
Proof.
  destruct (steady_audio_plays_whole Example.decode_held Example.held_fills 0 1 4294966336 [([7], 0); ([8], 960); ([9], 1920)]) as [H _];
    [done|unfold is_u32, u32_max; lia|].
  destruct (jitter_rounds _ _ _ _) as [out b]. destruct H as [-> ->]. split; reflexivity.
Defined.

(** The packets are kept in the order of their [u32] timestamps, not in the order they play
    in: a buffer that waits for its target as the timestamps wrap counts nothing behind the
    wrap as buffered.  Here a track that fell silent starts again with the last packet before
    the wrap; packets follow every 20 ms, every other one a millisecond late, and two seconds
    of them do not make the buffer play. *)
Definition across_the_wrap (n : nat) : list JitterEvent :=
  [JbInsert 4294919296 [1] 0; JbInsert 4294920256 [1] 1440] ++ replicate 20 JbPull ++ [JbInsert 4294966336 [2] 47088] ++
  concat ((fun i => [JbInsert (place_at 0 i) [3] (48000 + 960 * Z.of_nat i + if Nat.odd i then 48 else 0); JbPull; JbPull]) <$> seq 0 n).
Lemma a_buffer_waits_behind_the_wrap :
  let b := jitter_run Example.decode_held (across_the_wrap 100) (jitter_new 0 1) in
  jb_playing b = false /\ jitter_buffered b = FRAME /\ Z.of_nat (size (jb_packets b)) = MAX_PACKETS.
Proof. vm_compute. split_and!; reflexivity. Qed.
