(* ===== verification/Database.v ===== *)
(** * The database (throcc-server, database.rs)

    The tables as finite maps, one definition per method.  A method is one or more SQLite
    transactions; each of them may fail as a whole, as an oracle says, and then changes
    nothing.  Stored integers are [i64]; the [u64]s of the code are cast on the way. *)
From S2P Require Import Prelude Ids Messages.
Open Scope Z_scope.

(** ** Rows *)

(* @src/crates/throcc-server/src/database.rs 80-85 RoomRow *)
Record RoomRow := mkRoomRow {
  rr_id : RoomId; rr_name : str; rr_epoch : Epoch; rr_password_hash : option str
}.

(* @src/crates/throcc-server/src/database.rs 87-97 UserRow *)
Record UserRow := mkUserRow {
  ur_id : UserId; ur_pubkey : PublicKey; ur_encryption_key : option SignedEncryptionKey;
  ur_name : str; ur_avatar : option Hash; ur_role : Role; ur_invited_by : option UserId;
  ur_created_at : Z
}.
#[export] Instance UserRow_eq_dec : EqDecision UserRow.
Proof. solve_decision. Defined.

(* @src/crates/throcc-server/src/database.rs 100-109 UserRow::to_user *)
Definition to_user (r : UserRow) : UserEntry :=
  {| ue_id := ur_id r; ue_name := ur_name r; ue_role := ur_role r; ue_invited_by := ur_invited_by r;
     ue_identity_key := ur_pubkey r; ue_created_at := ur_created_at r |}.

(* @src/crates/throcc-server/src/database.rs 112-119 InviteRow *)
Record InviteRow := mkInviteRow {
  ir_code_id : str; ir_secret : str; ir_minted_by : option UserId; ir_expires_at : Z; ir_failures : Z
}.
#[export] Instance InviteRow_eq_dec : EqDecision InviteRow.
Proof. solve_decision. Defined.

(* @src/crates/throcc-server/src/database.rs 121-129 Enrolled *)
Inductive Enrolled := Added (row : UserRow) | Promoted (row : UserRow) | Returning (row : UserRow).

(* @src/crates/throcc-server/src/database.rs 132-136 Enrolled::into_row *)
Definition into_row (e : Enrolled) : UserRow :=
  match e with Added row | Promoted row | Returning row => row end.

(** ** Tables *)

(* @src/crates/throcc-server/src/database.rs 12-25 SCHEMA_V1 *)
Record user_rec := mkUserRec {
  u_pubkey : bytes;
  u_enc_key : option bytes; u_enc_sig : option bytes; u_enc_not_after : option Z;
  u_name : str; u_avatar : option bytes; u_role : Z; u_invited_by : option Z;
  u_created_at : Z; u_last_seen : Z
}.
(* @src/crates/throcc-server/src/database.rs 26-31! SCHEMA_V1 *)
Record room_rec := mkRoomRec { r_name : str; r_epoch : Z; r_password_hash : option str }.
(* @src/crates/throcc-server/src/database.rs 32-38! SCHEMA_V1 *)
Record invite_rec := mkInviteRec {
  i_secret : str; i_minted_by : option Z; i_expires_at : Z; i_failures : Z
}.
(* @src/crates/throcc-server/src/database.rs 39-39! SCHEMA_V1 *)
Record blob_rec := mkBlobRec { b_bytes : bytes; b_uploaded_at : Z }.
(* @src/crates/throcc-server/src/database.rs 41-41! SCHEMA_V1 *)
Record profile_rec := mkProfileRec { p_name : option str; p_avatar : option bytes }.

(** [user_seq] and [room_seq] are the rows of [sqlite_sequence], the largest ids ever given;
    [media_counter] is the only row [counters] has. *)
(* @src/crates/throcc-server/src/database.rs 139-141 Database *)
Record Database := mkDb {
  users : gmap Z user_rec; user_seq : Z;
  rooms : gmap Z room_rec; room_seq : Z;
  invites : gmap (list Z) invite_rec;
  blobs : gmap (list Z) blob_rec;
  media_counter : option Z;
  profile : option profile_rec
}.

Definition empty_database : Database := mkDb ∅ 0 ∅ 0 ∅ ∅ None None.

Definition set_users (f : gmap Z user_rec -> gmap Z user_rec) (d : Database) : Database :=
  mkDb (f (users d)) (user_seq d) (rooms d) (room_seq d) (invites d) (blobs d) (media_counter d) (profile d).
Definition set_rooms (f : gmap Z room_rec -> gmap Z room_rec) (d : Database) : Database :=
  mkDb (users d) (user_seq d) (f (rooms d)) (room_seq d) (invites d) (blobs d) (media_counter d) (profile d).
Definition set_invites (f : gmap (list Z) invite_rec -> gmap (list Z) invite_rec) (d : Database) : Database :=
  mkDb (users d) (user_seq d) (rooms d) (room_seq d) (f (invites d)) (blobs d) (media_counter d) (profile d).
Definition set_blobs (f : gmap (list Z) blob_rec -> gmap (list Z) blob_rec) (d : Database) : Database :=
  mkDb (users d) (user_seq d) (rooms d) (room_seq d) (invites d) (f (blobs d)) (media_counter d) (profile d).
Definition set_media_counter (c : option Z) (d : Database) : Database :=
  mkDb (users d) (user_seq d) (rooms d) (room_seq d) (invites d) (blobs d) c (profile d).
Definition set_profile_row (p : option profile_rec) (d : Database) : Database :=
  mkDb (users d) (user_seq d) (rooms d) (room_seq d) (invites d) (blobs d) (media_counter d) p.

(** A new row with [AUTOINCREMENT]: the id after the largest ever given, if there is one. *)
(* @src/crates/throcc-server/src/database.rs 305-309! Database::enroll *)
Definition insert_user (u : user_rec) (d : Database) : option (Z * Database) :=
  let id := user_seq d + 1 in
  if id <=? i64_max
  then Some (id, mkDb (<[id := u]> (users d)) id (rooms d) (room_seq d) (invites d) (blobs d) (media_counter d) (profile d))
  else None.
(* @src/crates/throcc-server/src/database.rs 407-413! Database::create_room *)
Definition insert_room (r : room_rec) (d : Database) : option (Z * Database) :=
  let id := room_seq d + 1 in
  if id <=? i64_max
  then Some (id, mkDb (users d) (user_seq d) (<[id := r]> (rooms d)) id (invites d) (blobs d) (media_counter d) (profile d))
  else None.

(** The keys of a table in [ORDER BY id]. *)
Definition ids {A} (m : gmap Z A) : list Z := merge_sort Z.le ((map_to_list m).*1).

(** ** Columns *)

(** [id as u64] of a stored [i64]. *)
Definition as_u64 (z : Z) : Z := wrap64 z.

(* @src/crates/throcc-server/src/database.rs 661-663 hash_column *)
Definition hash_column (b : option bytes) : option Hash :=
  b ← b; if (length b =? 32)%nat then Some b else None.

(** [None] is a row that cannot be read. *)
(* @src/crates/throcc-server/src/database.rs 619-644 user_row *)
Definition user_row (id : Z) (u : user_rec) : option UserRow :=
  let encryption_key :=
    match u_enc_key u, u_enc_sig u, u_enc_not_after u with
    | Some key, Some sig, Some not_after =>
        if ((length key =? 32) && (length sig =? 64))%nat
        then Some (mkSignedEncryptionKey key (as_u64 not_after) sig) else None
    | _, _, _ => None
    end in
  if (length (u_pubkey u) =? 32)%nat
  then Some {| ur_id := as_u64 id; ur_pubkey := u_pubkey u; ur_encryption_key := encryption_key;
               ur_name := u_name u; ur_avatar := hash_column (u_avatar u);
               ur_role := default User (from_rank (u_role u));
               ur_invited_by := as_u64 <$> u_invited_by u; ur_created_at := as_u64 (u_created_at u) |}
  else None.

(** ** Statements *)

Inductive DbError := DbFailed.

Definition DbM (A : Type) : Type := Database -> nat -> (A + DbError) * Database * nat.

#[export] Instance DbM_ret : MRet DbM := fun A a d n => (inl a, d, n).
#[export] Instance DbM_bind : MBind DbM := fun A B k m d n =>
  match m d n with
  | (inl a, d, n) => k a d n
  | (inr e, d, n) => (inr e, d, n)
  end.

Section Statements.
(** Whether the [n]-th transaction fails (a full disk, a locked file, ...). *)
Context (fault : nat -> bool).

(** A transaction: [None] is an error of SQLite's own, which rolls it back. *)
Definition transaction {A} (f : Database -> option (A * Database)) : DbM A := fun d n =>
  if fault n then (inr DbFailed, d, S n)
  else match f d with Some (a, d') => (inl a, d', S n) | None => (inr DbFailed, d, S n) end.

Definition query {A} (f : Database -> option A) : DbM A := transaction (fun d => a ← f d; Some (a, d)).
Definition execute (f : Database -> Database) : DbM unit := transaction (fun d => Some ((), f d)).

(* @src/crates/throcc-server/src/database.rs 646-655 next_media_id *)
Definition next_media_id (d : Database) : Z := default 1 (media_counter d).

(* @src/crates/throcc-server/src/database.rs 199-215 Database::allocate_media_ids *)
Definition allocate_media_ids (count : Z) : DbM (option MediaId) :=
  transaction (fun d =>
    let first := next_media_id d in
    let next := first + count in
    if u32_max <? next - 1 then Some (None, d)
    else Some (Some (wrap32 first), set_media_counter (Some next) d)).

(* @src/crates/throcc-server/src/database.rs 217-223 Database::admin_count *)
Definition admin_count : DbM Z :=
  query (fun d => Some (Z.of_nat (size (filter (fun '(_, u) => u_role u = rank Admin) (users d))))).

(** The row with [pubkey], which is [UNIQUE]. *)
(* @src/crates/throcc-server/src/database.rs 284-290! Database::enroll *)
Definition find_pubkey (d : Database) (pubkey : PublicKey) : option Z :=
  head (filter (fun id => u_pubkey <$> users d !! id = Some pubkey) (ids (users d))).

(* @src/crates/throcc-server/src/database.rs 225-234 Database::user_by_pubkey *)
Definition user_by_pubkey (pubkey : PublicKey) : DbM (option UserRow) :=
  query (fun d => match find_pubkey d pubkey with
                  | Some id => u ← users d !! id; Some <$> user_row id u
                  | None => Some None
                  end).

(* @src/crates/throcc-server/src/database.rs 236-245 Database::user *)
Definition user (id : UserId) : DbM (option UserRow) :=
  query (fun d => match users d !! as_i64 id with
                  | Some u => Some <$> user_row (as_i64 id) u
                  | None => Some None
                  end).

(* @src/crates/throcc-server/src/database.rs 247-251 Database::users *)
Definition all_users : DbM (list UserRow) :=
  query (fun d => collect_option ((fun id => u ← users d !! id; user_row id u) <$> ids (users d))).

Inductive enrolled_kind := KAdded | KPromoted | KReturning.

(** The transaction of [enroll]: the user's id and what happened to them. *)
(* @src/crates/throcc-server/src/database.rs 265-312! Database::enroll *)
Definition enroll_tx (pubkey : PublicKey) (code_id name : str) (now : Z) (d : Database)
  : option (option (Z * enrolled_kind) * Database) :=
  match invites d !! code_id with
  | None => Some (None, d)
  | Some i =>
      if negb (as_i64 now <? i_expires_at i) then Some (None, d) else
      let minted_by := i_minted_by i in
      let d := set_invites (delete code_id) d in
      let role := match minted_by with None => Admin | Some _ => User end in
      match find_pubkey d pubkey with
      | Some id =>
          u ← users d !! id;
          if u_role u <? rank role
          then Some (Some (id, KPromoted),
                     set_users <[id := mkUserRec (u_pubkey u) (u_enc_key u) (u_enc_sig u) (u_enc_not_after u)
                                         (u_name u) (u_avatar u) (rank role) (u_invited_by u)
                                         (u_created_at u) (u_last_seen u)]> d)
          else Some (Some (id, KReturning), d)
      | None =>
          '(id, d) ← insert_user (mkUserRec pubkey None None None name None (rank role) minted_by
                                    (as_i64 now) (as_i64 now)) d;
          Some (Some (id, KAdded), d)
      end
  end.

(** The row is read back after the commit. *)
(* @src/crates/throcc-server/src/database.rs 253-314 Database::enroll *)
Definition enroll (pubkey : PublicKey) (code_id name : str) (now : Z) : DbM (option Enrolled) :=
  r ← transaction (enroll_tx pubkey code_id name now);
  match r with
  | None => mret None
  | Some (id, kind) =>
      row ← user (as_u64 id);
      mret ((match kind with KAdded => Added | KPromoted => Promoted | KReturning => Returning end) <$> row)
  end.

(** [UPDATE users SET ... WHERE id = ?]. *)
Definition update_user (id : UserId) (f : user_rec -> user_rec) (d : Database) : Database :=
  set_users (alter f (as_i64 id)) d.

(* @src/crates/throcc-server/src/database.rs 316-331 Database::set_encryption_key *)
Definition set_encryption_key (id : UserId) (k : SignedEncryptionKey) : DbM unit :=
  execute (update_user id (fun u =>
    mkUserRec (u_pubkey u) (Some (ek_key k)) (Some (ek_sig k)) (Some (as_i64 (ek_not_after k)))
      (u_name u) (u_avatar u) (u_role u) (u_invited_by u) (u_created_at u) (u_last_seen u))).

(* @src/crates/throcc-server/src/database.rs 333-339 Database::set_profile *)
Definition set_profile (id : UserId) (name : str) (avatar : option Hash) : DbM unit :=
  execute (update_user id (fun u =>
    mkUserRec (u_pubkey u) (u_enc_key u) (u_enc_sig u) (u_enc_not_after u)
      name avatar (u_role u) (u_invited_by u) (u_created_at u) (u_last_seen u))).

(* @src/crates/throcc-server/src/database.rs 341-347 Database::set_role *)
Definition set_role (id : UserId) (role : Role) : DbM unit :=
  execute (update_user id (fun u =>
    mkUserRec (u_pubkey u) (u_enc_key u) (u_enc_sig u) (u_enc_not_after u)
      (u_name u) (u_avatar u) (rank role) (u_invited_by u) (u_created_at u) (u_last_seen u))).

(* @src/crates/throcc-server/src/database.rs 349-356 Database::mark_seen *)
Definition mark_seen (id : UserId) (now : Z) : DbM unit :=
  execute (update_user id (fun u =>
    mkUserRec (u_pubkey u) (u_enc_key u) (u_enc_sig u) (u_enc_not_after u)
      (u_name u) (u_avatar u) (u_role u) (u_invited_by u) (u_created_at u) (as_i64 now))).

(* @src/crates/throcc-server/src/database.rs 358-367 Database::unseen_since *)
Definition unseen_since (before : Z) : DbM (list UserId) :=
  query (fun d => Some (as_u64 <$>
    ids (filter (fun '(_, u) => u_last_seen u < as_i64 before) (users d)))).

(** The recursive query: rows leave the queue in the order they entered it, and a user
    already found is not added again. *)
Definition invitees (d : Database) (id : Z) : list Z :=
  ids (filter (fun '(_, u) => u_invited_by u = Some id) (users d)).

(* @src/crates/throcc-server/src/database.rs 370-380! Database::invite_tree *)
Fixpoint tree_query (fuel : nat) (d : Database) (queue found : list Z) : list Z :=
  match fuel, queue with
  | S fuel, id :: queue =>
      let new := filter (fun c => c ∉ found) (invitees d id) in
      tree_query fuel d (queue ++ new) (found ++ new)
  | _, _ => found
  end.

(** Every user enters the queue at most once. *)
(* @src/crates/throcc-server/src/database.rs 369-380 Database::invite_tree *)
Definition invite_tree (id : UserId) : DbM (list UserId) :=
  query (fun d => Some (as_u64 <$> tree_query (S (size (users d))) d [as_i64 id] [as_i64 id])).

(* @src/crates/throcc-server/src/database.rs 669-677 remove_one *)
Definition remove_one (id : Z) (d : Database) : Database :=
  let d := set_users (fmap (fun u =>
    if decide (u_invited_by u = Some id)
    then mkUserRec (u_pubkey u) (u_enc_key u) (u_enc_sig u) (u_enc_not_after u)
           (u_name u) (u_avatar u) (u_role u) None (u_created_at u) (u_last_seen u)
    else u)) d in
  let d := set_invites (filter (fun '(_, i) => i_minted_by i <> Some id)) d in
  set_users (delete id) d.

(* @src/crates/throcc-server/src/database.rs 382-390 Database::remove_users *)
Definition remove_users (l : list UserId) : DbM unit :=
  execute (fun d => foldl (fun d id => remove_one (as_i64 id) d) d l).

(* @src/crates/throcc-server/src/database.rs 392-405 Database::rooms *)
Definition all_rooms : DbM (list RoomRow) :=
  query (fun d => collect_option ((fun id =>
    r ← rooms d !! id;
    Some (mkRoomRow (as_u64 id) (r_name r) (wrap32 (r_epoch r)) (r_password_hash r))) <$> ids (rooms d))).

(* @src/crates/throcc-server/src/database.rs 407-413 Database::create_room *)
Definition create_room (name : str) (password_hash : option str) : DbM RoomId :=
  transaction (fun d => '(id, d) ← insert_room (mkRoomRec name 0 password_hash) d; Some (as_u64 id, d)).

(* @src/crates/throcc-server/src/database.rs 415-421 Database::rename_room *)
Definition rename_room (room : RoomId) (name : str) : DbM unit :=
  execute (set_rooms (alter (fun r => mkRoomRec name (r_epoch r) (r_password_hash r)) (as_i64 room))).

(* @src/crates/throcc-server/src/database.rs 423-429 Database::set_room_password_hash *)
Definition set_room_password_hash (room : RoomId) (hash : option str) : DbM unit :=
  execute (set_rooms (alter (fun r => mkRoomRec (r_name r) (r_epoch r) hash) (as_i64 room))).

(* @src/crates/throcc-server/src/database.rs 431-435 Database::delete_room *)
Definition delete_room (room : RoomId) : DbM unit := execute (set_rooms (delete (as_i64 room))).

(* @src/crates/throcc-server/src/database.rs 437-448 Database::set_epochs *)
Definition set_epochs (epochs : list (RoomId * Epoch)) : DbM unit :=
  execute (fun d => foldl (fun d '(room, epoch) =>
    set_rooms (alter (fun r => mkRoomRec (r_name r) epoch (r_password_hash r)) (as_i64 room)) d) d epochs).

(* @src/crates/throcc-server/src/database.rs 450-461 Database::insert_invite *)
Definition insert_invite (i : InviteRow) : DbM bool :=
  transaction (fun d =>
    match invites d !! ir_code_id i with
    | Some _ => Some (false, d)
    | None => Some (true, set_invites <[ir_code_id i :=
        mkInviteRec (ir_secret i) (as_i64 <$> ir_minted_by i) (as_i64 (ir_expires_at i)) (ir_failures i)]> d)
    end).

(* @src/crates/throcc-server/src/database.rs 463-480 Database::invite *)
Definition invite (code_id : str) : DbM (option InviteRow) :=
  query (fun d => Some ((fun i =>
    mkInviteRow code_id (i_secret i) (as_u64 <$> i_minted_by i) (as_u64 (i_expires_at i)) (i_failures i))
    <$> invites d !! code_id)).

(* @src/crates/throcc-server/src/database.rs 482-488 Database::consume_invite_try *)
Definition consume_invite_try (code_id : str) : DbM unit :=
  execute (set_invites (alter (fun i =>
    mkInviteRec (i_secret i) (i_minted_by i) (i_expires_at i) (i_failures i + 1)) code_id)).

(* @src/crates/throcc-server/src/database.rs 490-494 Database::delete_invite *)
Definition delete_invite (code_id : str) : DbM unit := execute (set_invites (delete code_id)).

(* @src/crates/throcc-server/src/database.rs 496-502 Database::delete_spent_invites *)
Definition delete_spent_invites (tries : Z) : DbM unit :=
  execute (set_invites (filter (fun '(_, i) => i_failures i < tries))).

(* @src/crates/throcc-server/src/database.rs 504-508 Database::purge_expired_invites *)
Definition purge_expired_invites (now : Z) : DbM unit :=
  execute (set_invites (filter (fun '(_, i) => as_i64 now < i_expires_at i))).

(** Two queries, each its own transaction. *)
(* @src/crates/throcc-server/src/database.rs 510-523 Database::invites_used *)
Definition invites_used (id : UserId) (now since : Z) : DbM Z :=
  live ← query (fun d => Some (Z.of_nat (size (filter (fun '(_, i) =>
    i_minted_by i = Some (as_i64 id) /\ as_i64 now < i_expires_at i) (invites d)))));
  enrolled ← query (fun d => Some (Z.of_nat (size (filter (fun '(_, u) =>
    u_invited_by u = Some (as_i64 id) /\ as_i64 since < u_created_at u) (users d)))));
  mret (wrap32 (live + enrolled)).

(* @src/crates/throcc-server/src/database.rs 525-532 Database::put_blob *)
Definition put_blob (hash : Hash) (bs : bytes) (now : Z) : DbM unit :=
  execute (set_blobs (fun m => <[hash := mkBlobRec (default bs (b_bytes <$> m !! hash)) (as_i64 now)]> m)).

(** A picture some user or the server profile shows. *)
Definition blob_used (d : Database) (hash : bytes) : Prop :=
  (exists id u, users d !! id = Some u /\ u_avatar u = Some hash) \/
  (exists p, profile d = Some p /\ p_avatar p = Some hash).

(* @src/crates/throcc-server/src/database.rs 538-539! Database::delete_unused_blobs *)
Definition used_hashes (d : Database) : list bytes :=
  omap u_avatar (map_to_list (users d)).*2 ++ option_list (profile d ≫= p_avatar).

(* @src/crates/throcc-server/src/database.rs 534-542 Database::delete_unused_blobs *)
Definition delete_unused_blobs (uploaded_before : Z) : DbM Z :=
  transaction (fun d =>
    let unused h b := b_uploaded_at b < as_i64 uploaded_before /\ h ∉ used_hashes d in
    Some (Z.of_nat (size (filter (fun '(h, b) => unused h b) (blobs d))),
          set_blobs (filter (fun '(h, b) => ~ unused h b)) d)).

(* @src/crates/throcc-server/src/database.rs 544-564 Database::server_profile *)
Definition server_profile : DbM ServerProfile :=
  query (fun d => Some match profile d with
                       | None => ServerProfile_default
                       | Some p => {| sp_name := p_name p; sp_avatar := hash_column (p_avatar p) |}
                       end).

(* @src/crates/throcc-server/src/database.rs 566-573 Database::set_server_name *)
Definition set_server_name (name : option str) : DbM unit :=
  execute (fun d => set_profile_row (Some (mkProfileRec name (profile d ≫= p_avatar))) d).

(* @src/crates/throcc-server/src/database.rs 575-582 Database::set_server_avatar *)
Definition set_server_avatar (avatar : option Hash) : DbM unit :=
  execute (fun d => set_profile_row (Some (mkProfileRec (profile d ≫= p_name) avatar)) d).

(* @src/crates/throcc-server/src/database.rs 584-594 Database::has_blob *)
Definition has_blob (hash : Hash) : DbM bool := query (fun d => Some (bool_decide (is_Some (blobs d !! hash)))).

(* @src/crates/throcc-server/src/database.rs 596-605 Database::blob *)
Definition blob (hash : Hash) : DbM (option bytes) := query (fun d => Some (b_bytes <$> blobs d !! hash)).

End Statements.
