(* ===== verification/DatabaseFacts.v ===== *)
(** * The database's guarantees

    What every sequence of database calls keeps true: the tables refer only to rows that
    exist, keys are unique, ids and media ids are never handed out twice; what [enroll]
    does in each of its cases; and that [invite_tree] is the closure of [invited_by]. *)
From S2P Require Import Prelude Ids Messages Database.
Open Scope Z_scope.

(** ** Well-formed tables *)

(** Every stored picture is one of [blobs]. *)
Definition has_picture (d : Database) (avatar : option bytes) : Prop :=
  forall h, avatar = Some h -> is_Some (blobs d !! h).

Record user_ok (d : Database) (id : Z) (u : user_rec) : Prop := {
  uo_id : 1 <= id <= user_seq d;
  uo_pubkey : length (u_pubkey u) = 32%nat;
  uo_role : is_Some (from_rank (u_role u));
  uo_invited_by p : u_invited_by u = Some p -> is_Some (users d !! p);
  uo_avatar : has_picture d (u_avatar u)
}.

Record db_wf (d : Database) : Prop := {
  wf_users id u : users d !! id = Some u -> user_ok d id u;
  wf_unique id id' u u' : users d !! id = Some u -> users d !! id' = Some u' -> u_pubkey u = u_pubkey u' -> id = id';
  wf_user_seq : 0 <= user_seq d <= i64_max;
  wf_rooms id r : rooms d !! id = Some r -> 1 <= id <= room_seq d /\ is_u32 (r_epoch r);
  wf_room_seq : 0 <= room_seq d <= i64_max;
  wf_minted code i p : invites d !! code = Some i -> i_minted_by i = Some p -> is_Some (users d !! p);
  wf_profile p : profile d = Some p -> has_picture d (p_avatar p);
  wf_media : 1 <= next_media_id d <= u32_max + 1
}.

Lemma empty_wf : db_wf empty_database.
Proof. split; cbn; try done; unfold next_media_id, u32_max, i64_max; cbn; lia. Qed.

(** ** Calls *)

(** The methods that write. *)
Inductive call :=
  | CAllocateMediaIds (count : Z)
  | CEnroll (pubkey : bytes) (code_id name : str) (now : Z)
  | CSetEncryptionKey (id : UserId) (k : SignedEncryptionKey)
  | CSetProfile (id : UserId) (name : str) (avatar : option Hash)
  | CSetRole (id : UserId) (role : Role)
  | CMarkSeen (id : UserId) (now : Z)
  | CRemoveUsers (l : list UserId)
  | CCreateRoom (name : str) (password_hash : option str)
  | CRenameRoom (room : RoomId) (name : str)
  | CSetRoomPasswordHash (room : RoomId) (hash : option str)
  | CDeleteRoom (room : RoomId)
  | CSetEpochs (epochs : list (RoomId * Epoch))
  | CInsertInvite (i : InviteRow)
  | CConsumeInviteTry (code_id : str)
  | CDeleteInvite (code_id : str)
  | CDeleteSpentInvites (tries : Z)
  | CPurgeExpiredInvites (now : Z)
  | CPutBlob (hash : Hash) (bs : bytes) (now : Z)
  | CDeleteUnusedBlobs (uploaded_before : Z)
  | CSetServerName (name : option str)
  | CSetServerAvatar (avatar : option Hash).

(** What the caller checked: the minter of an invite exists, pictures are uploaded, epochs
    and counts are [u32]. *)
Definition call_ok (d : Database) (c : call) : Prop :=
  match c with
  | CAllocateMediaIds count => 0 < count <= u32_max
  | CEnroll pubkey _ _ _ => length pubkey = 32%nat
  | CSetProfile _ _ avatar | CSetServerAvatar avatar => has_picture d avatar
  | CSetEpochs epochs => Forall (fun '(_, e) => is_u32 e) epochs
  | CInsertInvite i => forall p, ir_minted_by i = Some p -> is_Some (users d !! as_i64 p)
  | _ => True
  end.

Section Calls.
Context (fault : nat -> bool).

Definition after {A} (m : DbM A) (d : Database) (n : nat) : Database * nat := let '(_, d, n) := m d n in (d, n).

Definition run_call (c : call) (d : Database) (n : nat) : Database * nat :=
  match c with
  | CAllocateMediaIds count => after (allocate_media_ids fault count) d n
  | CEnroll pubkey code_id name now => after (enroll fault pubkey code_id name now) d n
  | CSetEncryptionKey id k => after (set_encryption_key fault id k) d n
  | CSetProfile id name avatar => after (set_profile fault id name avatar) d n
  | CSetRole id role => after (set_role fault id role) d n
  | CMarkSeen id now => after (mark_seen fault id now) d n
  | CRemoveUsers l => after (remove_users fault l) d n
  | CCreateRoom name password_hash => after (create_room fault name password_hash) d n
  | CRenameRoom room name => after (rename_room fault room name) d n
  | CSetRoomPasswordHash room hash => after (set_room_password_hash fault room hash) d n
  | CDeleteRoom room => after (delete_room fault room) d n
  | CSetEpochs epochs => after (set_epochs fault epochs) d n
  | CInsertInvite i => after (insert_invite fault i) d n
  | CConsumeInviteTry code_id => after (consume_invite_try fault code_id) d n
  | CDeleteInvite code_id => after (delete_invite fault code_id) d n
  | CDeleteSpentInvites tries => after (delete_spent_invites fault tries) d n
  | CPurgeExpiredInvites now => after (purge_expired_invites fault now) d n
  | CPutBlob hash bs now => after (put_blob fault hash bs now) d n
  | CDeleteUnusedBlobs uploaded_before => after (delete_unused_blobs fault uploaded_before) d n
  | CSetServerName name => after (set_server_name fault name) d n
  | CSetServerAvatar avatar => after (set_server_avatar fault avatar) d n
  end.

(** ** Lemmas on the statements *)

Lemma transaction_after {A} (f : Database -> option (A * Database)) d n :
  (after (transaction fault f) d n).1 = d \/
  exists a d', f d = Some (a, d') /\ (after (transaction fault f) d n).1 = d'.
Proof.
  unfold after, transaction. destruct (fault n); [by left|].
  destruct (f d) as [[a d']|]; [right; by exists a, d' | by left].
Qed.

Lemma execute_after f d n :
  (after (execute fault f) d n).1 = d \/ (after (execute fault f) d n).1 = f d.
Proof.
  unfold execute. destruct (transaction_after (fun d => Some ((), f d)) d n) as [?|(a & d' & [= _ <-] & ?)]; auto.
Qed.

(** A change of one user that keeps what the tables rely on. *)
Lemma wf_alter_user id f d :
  db_wf d ->
  (forall u, u_pubkey (f u) = u_pubkey u /\ u_invited_by (f u) = u_invited_by u) ->
  (forall u, is_Some (from_rank (u_role u)) -> is_Some (from_rank (u_role (f u)))) ->
  (forall u, has_picture d (u_avatar u) -> has_picture d (u_avatar (f u))) ->
  db_wf (set_users (alter f id) d).
Proof.
  intros W Hf Hr Ha.
  assert (forall p, is_Some (users d !! p) -> is_Some (alter f id (users d) !! p)) as Hdom.
  { intros p. by rewrite lookup_alter_is_Some. }
  assert (forall k u, alter f id (users d) !! k = Some u ->
    exists u0, users d !! k = Some u0 /\ (u = u0 \/ u = f u0)) as Hl.
  { intros k u. rewrite lookup_alter_Some. intros [(_ & u0 & ? & ->)|[_ ?]]; eauto. }
  assert (forall k u, alter f id (users d) !! k = Some u ->
    exists u0, users d !! k = Some u0 /\ u_pubkey u = u_pubkey u0) as Hpk.
  { intros k u (u0 & ? & [-> | ->])%Hl; exists u0; split; try done. apply Hf. }
  destruct W as [Wu Wn Ws Wr Wrs Wm Wp Wmd]. split; cbn; try done.
  - intros k u (u0 & H0 & [-> | ->])%Hl; destruct (Wu k u0 H0), (Hf u0) as [E1 E2];
      split; cbn; rewrite ?E1, ?E2; try done; eauto.
  - intros k k' u u' (u0 & H0 & E0)%Hpk (u1 & H1 & E1)%Hpk E. apply (Wn k k' u0 u1); try done. congruence.
  - intros code i p Hi Hp. eauto.
Qed.

Lemma wf_set_invites f d :
  db_wf d ->
  (forall code i, f (invites d) !! code = Some i ->
    exists code' i', invites d !! code' = Some i' /\ i_minted_by i = i_minted_by i' \/
    forall p, i_minted_by i = Some p -> is_Some (users d !! p)) ->
  db_wf (set_invites f d).
Proof.
  intros [Wu Wn Ws Wr Wrs Wm Wp Wmd] Hf. split; cbn; try done.
  - intros id u Hu. destruct (Wu id u Hu). by split.
  - intros code i p Hi Hp. destruct (Hf code i Hi) as (code' & i' & [[Hi' E]|Hx]); [|by apply Hx].
    eapply Wm; [done|]. congruence.
Qed.

Lemma wf_filter_invites (P : list Z * invite_rec -> Prop) `{forall x, Decision (P x)} d :
  db_wf d -> db_wf (set_invites (filter P) d).
Proof.
  intros W. apply wf_set_invites; [done|]. intros code i Hi.
  apply map_lookup_filter_Some in Hi as [Hi _]. exists code, i. by left.
Qed.

Lemma wf_delete_invite code d : db_wf d -> db_wf (set_invites (delete code) d).
Proof.
  intros W. apply wf_set_invites; [done|]. intros code' i Hi.
  apply lookup_delete_Some in Hi as [_ Hi]. exists code', i. by left.
Qed.

Lemma wf_set_rooms f d :
  db_wf d -> (forall id r, f (rooms d) !! id = Some r ->
    exists r0, rooms d !! id = Some r0 /\ (is_u32 (r_epoch r0) -> is_u32 (r_epoch r))) ->
  db_wf (set_rooms f d).
Proof.
  intros [Wu Wn Ws Wr Wrs Wm Wp Wmd] Hf. split; cbn; try done.
  - intros id u Hu. destruct (Wu id u Hu). by split.
  - intros id r Hr. destruct (Hf id r Hr) as (r0 & H0 & He). destruct (Wr id r0 H0). auto.
Qed.

Lemma wf_alter_room f id d :
  db_wf d -> (forall r, is_u32 (r_epoch r) -> is_u32 (r_epoch (f r))) -> db_wf (set_rooms (alter f id) d).
Proof.
  intros W Hf. apply wf_set_rooms; [done|]. intros k r.
  rewrite lookup_alter_Some. intros [(_ & r0 & ? & ->)|[_ ?]]; eauto.
Qed.

Lemma wf_set_epochs epochs d :
  db_wf d -> Forall (fun '(_, e) => is_u32 e) epochs ->
  db_wf (foldl (fun d '(room, epoch) =>
    set_rooms (alter (fun r => mkRoomRec (r_name r) epoch (r_password_hash r)) (as_i64 room)) d) d epochs).
Proof.
  intros W He. revert d W. induction He as [|[room e] epochs He _ IH]; intros d W; [done|].
  cbn. apply IH. by apply wf_alter_room.
Qed.

Lemma wf_set_blobs f d :
  db_wf d -> (forall id u h, users d !! id = Some u -> u_avatar u = Some h -> is_Some (f (blobs d) !! h)) ->
  (forall p h, profile d = Some p -> p_avatar p = Some h -> is_Some (f (blobs d) !! h)) ->
  db_wf (set_blobs f d).
Proof.
  intros [Wu Wn Ws Wr Wrs Wm Wp Wmd] Hu Hp. split; cbn; try done.
  - intros id u H0. destruct (Wu id u H0). split; try done. intros h. by apply Hu with (id := id).
  - intros p H0 h. by apply Hp.
Qed.

Lemma wf_set_profile p d : db_wf d -> has_picture d (p_avatar p) -> db_wf (set_profile_row (Some p) d).
Proof.
  intros [Wu Wn Ws Wr Wrs Wm Wp Wmd] Hp. split; cbn; try done.
  - intros id u Hu. destruct (Wu id u Hu). by split.
  - by intros p' [= <-].
Qed.

Lemma wf_set_media c d : db_wf d -> 1 <= c <= u32_max + 1 -> db_wf (set_media_counter (Some c) d).
Proof.
  intros [Wu Wn Ws Wr Wrs Wm Wp Wmd] Hc. split; cbn; try done.
  intros id u Hu. destruct (Wu id u Hu). by split.
Qed.

Lemma wf_insert_room r d id d' : db_wf d -> is_u32 (r_epoch r) -> insert_room r d = Some (id, d') -> db_wf d'.
Proof.
  intros [Wu Wn Ws Wr Wrs Wm Wp Wmd] Hr. unfold insert_room. case_match eqn:Hle; [|done]. intros [= <- <-].
  split; cbn; try done; [|intros k r'|lia].
  - intros id u Hu. destruct (Wu id u Hu). by split.
  - rewrite lookup_insert_Some. intros [[<- <-]|[_ Hk]]; [split; [lia|done]|].
    destruct (Wr k r' Hk). split; [lia|done].
Qed.

Lemma find_pubkey_Some d pubkey id :
  find_pubkey d pubkey = Some id -> u_pubkey <$> users d !! id = Some pubkey.
Proof.
  unfold find_pubkey. intros H.
  assert (id ∈ filter (fun id => u_pubkey <$> users d !! id = Some pubkey) (ids (users d))) as Hin.
  { destruct (filter _ _); [done|]. cbn in H. simplify_eq. left. }
  by apply list_elem_of_filter in Hin as [? _].
Qed.

Lemma elem_of_ids {A} (m : gmap Z A) id : id ∈ ids m <-> is_Some (m !! id).
Proof.
  unfold ids. rewrite merge_sort_Permutation. rewrite list_elem_of_fmap. split.
  - intros ([k x] & -> & Hx%elem_of_map_to_list). by exists x.
  - intros [x Hx]. exists (id, x). by rewrite elem_of_map_to_list.
Qed.

Lemma find_pubkey_None d pubkey id u :
  find_pubkey d pubkey = None -> users d !! id = Some u -> u_pubkey u <> pubkey.
Proof.
  unfold find_pubkey. intros H Hu E.
  assert (id ∈ filter (fun id => u_pubkey <$> users d !! id = Some pubkey) (ids (users d))) as Hin.
  { apply list_elem_of_filter. rewrite Hu. cbn. rewrite E. split; [done|]. apply elem_of_ids. by exists u. }
  destruct (filter _ _); [by apply elem_of_nil in Hin|done].
Qed.

Lemma wf_insert_user u d id d' :
  db_wf d -> length (u_pubkey u) = 32%nat -> is_Some (from_rank (u_role u)) -> find_pubkey d (u_pubkey u) = None ->
  (forall p, u_invited_by u = Some p -> is_Some (users d !! p)) -> u_avatar u = None ->
  insert_user u d = Some (id, d') -> db_wf d'.
Proof.
  intros [Wu Wn Ws Wr Wrs Wm Wp Wmd] Hpk Hro Hnew Hinv Hav. unfold insert_user.
  case_match eqn:Hle; [|done]. intros [= <- <-].
  assert (forall p, is_Some (users d !! p) -> is_Some (<[user_seq d + 1:=u]> (users d) !! p)) as Hdom.
  { intros p. rewrite lookup_insert_is_Some'. auto. }
  split; cbn; try done; [| |lia|].
  - intros k u'. rewrite lookup_insert_Some. intros [[<- <-]|[_ Hk]].
    + split; cbn; try done; [lia| |by rewrite Hav]. eauto.
    + destruct (Wu k u' Hk). split; cbn; try done; [lia|]. eauto.
  - intros k k' u1 u2. rewrite !lookup_insert_Some.
    intros [[<- <-]|[_ H1]] [[<- <-]|[_ H2]] E; try done.
    + by destruct (find_pubkey_None _ _ _ _ Hnew H2).
    + by destruct (find_pubkey_None _ _ _ _ Hnew H1).
    + by eapply Wn.
  - intros code i p Hi Hp. eauto.
Qed.

Lemma alter_as_insert {A} (f : A -> A) k (m : gmap Z A) x : m !! k = Some x -> alter f k m = <[k := f x]> m.
Proof.
  intros Hx. apply map_eq. intros k'. destruct (decide (k = k')) as [<-|].
  - by rewrite lookup_alter_eq, lookup_insert_eq, Hx.
  - by rewrite lookup_alter_ne, lookup_insert_ne.
Qed.

Lemma enroll_tx_wf pubkey code_id name now d r d' :
  db_wf d -> length pubkey = 32%nat -> enroll_tx pubkey code_id name now d = Some (r, d') -> db_wf d'.
Proof.
  intros W Hpk. unfold enroll_tx.
  destruct (invites d !! code_id) as [i|] eqn:Hi; [|by intros [= <- <-]].
  case_match; [by intros [= <- <-]|].
  assert (db_wf (set_invites (delete code_id) d)) as W' by by apply wf_delete_invite.
  destruct (find_pubkey _ pubkey) as [id|] eqn:Hf.
  - destruct (users _ !! id) as [u|] eqn:Hu; cbn; [|done]. case_match; intros [= <- <-]; [|done].
    pose proof (wf_alter_user id (fun u => mkUserRec (u_pubkey u) (u_enc_key u) (u_enc_sig u) (u_enc_not_after u)
      (u_name u) (u_avatar u) (rank (match i_minted_by i with Some _ => User | None => Admin end))
      (u_invited_by u) (u_created_at u) (u_last_seen u)) _ W') as Hup.
    unfold set_users in Hup. cbn in Hup. cbn in Hu. rewrite (alter_as_insert _ _ _ _ Hu) in Hup.
    destruct (i_minted_by i); by apply Hup.
  - destruct (insert_user _ _) as [[id d1]|] eqn:E; cbn; [|done]. intros [= <- <-].
    eapply wf_insert_user; [exact W'| | | | | |exact E]; cbn; try done.
    + by destruct (i_minted_by i).
    + intros p Hp. by eapply (wf_minted d W).
Qed.

(** What is left of the tables without user [id]. *)
Lemma remove_one_lookup id d k u :
  users (remove_one id d) !! k = Some u ->
  k <> id /\ exists u0, users d !! k = Some u0 /\ u_pubkey u = u_pubkey u0 /\ u_role u = u_role u0 /\
    u_avatar u = u_avatar u0 /\ u_invited_by u <> Some id /\
    forall p, u_invited_by u = Some p -> u_invited_by u0 = Some p.
Proof.
  cbn. rewrite lookup_delete_Some, lookup_fmap_Some. intros [Hne (u0 & <- & H0)]. split; [done|].
  exists u0. case_decide; cbn; repeat split; try done; congruence.
Qed.

Lemma remove_one_other id d k : k <> id -> is_Some (users d !! k) -> is_Some (users (remove_one id d) !! k).
Proof.
  intros Hne Hk. cbn. rewrite lookup_delete_ne by done. by rewrite lookup_fmap, fmap_is_Some.
Qed.

Lemma remove_one_wf id d : db_wf d -> db_wf (remove_one id d).
Proof.
  intros [Wu Wn Ws Wr Wrs Wm Wp Wmd]. split; try done.
  - intros k u (Hk & u0 & H0 & Epk & Ero & Eav & Hne & Hinv)%remove_one_lookup.
    destruct (Wu k u0 H0). split; cbn; try done; rewrite ?Epk, ?Ero, ?Eav; try done.
    intros p Hp. apply remove_one_other; [congruence|]. eauto.
  - intros k k' u u' (_ & u0 & H0 & E0 & _)%remove_one_lookup (_ & u1 & H1 & E1 & _)%remove_one_lookup E.
    eapply Wn; [done..|]. congruence.
  - intros code i p Hi Hp. apply map_lookup_filter_Some in Hi as [Hi Hne].
    apply remove_one_other; [congruence|]. eauto.
Qed.

Lemma remove_users_wf l d : db_wf d -> db_wf (foldl (fun d id => remove_one (as_i64 id) d) d l).
Proof. revert d. induction l as [|id l IH]; intros d W; [done|]. apply IH. by apply remove_one_wf. Qed.

Lemma elem_of_used_hashes d h : h ∈ used_hashes d <-> blob_used d h.
Proof.
  assert (forall o : option bytes, h ∈ option_list o <-> o = Some h) as Ho.
  { intros [x|]; cbn; rewrite ?list_elem_of_singleton, ?elem_of_nil; split; congruence || done. }
  unfold used_hashes, blob_used. rewrite elem_of_app, list_elem_of_omap, Ho. split.
  - intros [(u & Hu & Ha)|Hp].
    + apply list_elem_of_fmap in Hu as ([id u'] & -> & Hu%elem_of_map_to_list). left. eauto.
    + apply bind_Some in Hp as (p & ? & ?). right. eauto.
  - intros [(id & u & Hu & Ha)|(p & Hp & Ha)].
    + left. exists u. split; [|done]. apply list_elem_of_fmap. exists (id, u).
      split; [done|]. by apply elem_of_map_to_list.
    + right. by rewrite Hp.
Qed.

Lemma gc_wf before d :
  db_wf d -> db_wf (set_blobs (filter (fun '(h, b) => ~ (b_uploaded_at b < before /\ h ∉ used_hashes d))) d).
Proof.
  intros W.
  assert (forall h, blob_used d h -> is_Some (blobs d !! h) ->
    is_Some (filter (fun '(h, b) => ~ (b_uploaded_at b < before /\ h ∉ used_hashes d)) (blobs d) !! h)) as Hk.
  { intros h Hu [b Hb]. exists b. apply map_lookup_filter_Some. split; [done|].
    intros [_ Hn]. by apply Hn, elem_of_used_hashes. }
  apply wf_set_blobs; [done| |].
  - intros id u h Hu Ha. apply Hk; [left; eauto|]. by eapply (wf_users d W id u Hu).
  - intros p h Hp Ha. apply Hk; [right; eauto|]. by eapply (wf_profile d W p).
Qed.

(** A statement that keeps the tables well formed, run as a transaction. *)
Lemma execute_wf f d n : db_wf d -> (db_wf d -> db_wf (f d)) -> db_wf (after (execute fault f) d n).1.
Proof. intros W Hf. destruct (execute_after f d n) as [-> | ->]; auto. Qed.

Lemma after_bind_query {A B} (m : DbM A) (k : A -> DbM B) d n :
  (forall a d' n', (after (k a) d' n').1 = d') -> (after (m ≫= k) d n).1 = (after m d n).1.
Proof.
  intros Hk. unfold after, mbind, DbM_bind. destruct (m d n) as [[[a|e] d'] n']; [|done].
  specialize (Hk a d' n'). unfold after in Hk. by destruct (k a d' n') as [[? ?] ?].
Qed.

Lemma user_after id d n : (after (user fault id) d n).1 = d.
Proof.
  unfold user, query. destruct (transaction_after (fun d => a ← match users d !! as_i64 id with
    | Some u => Some <$> user_row (as_i64 id) u | None => Some None end; Some (a, d)) d n) as [?|(a & d' & H & E)]; [done|].
  apply bind_Some in H as (? & _ & [= _ <-]). done.
Qed.

Lemma enroll_after pubkey code_id name now d n :
  (after (enroll fault pubkey code_id name now) d n).1
  = (after (transaction fault (enroll_tx pubkey code_id name now)) d n).1.
Proof.
  apply after_bind_query. intros [[id kind]|] d' n'; [|done].
  rewrite after_bind_query; [apply user_after|]. done.
Qed.

Lemma run_call_wf c d n : db_wf d -> call_ok d c -> db_wf (run_call c d n).1.
Proof.
  intros W Hc. destruct c; cbn -[execute transaction]; cbn in Hc;
    try (apply execute_wf; [done|]; intros _).
  - unfold allocate_media_ids. destruct (transaction_after (fun d => if u32_max <? next_media_id d + count - 1 then Some (None, d)
      else Some (Some (wrap32 (next_media_id d)), set_media_counter (Some (next_media_id d + count)) d)) d n)
      as [->|(a & d' & H & ->)]; [done|].
    cbv beta in H. case_match; simplify_eq; [done|]. apply wf_set_media; [done|]. pose proof (wf_media d W). lia.
  - rewrite enroll_after. destruct (transaction_after (enroll_tx pubkey code_id name now) d n)
      as [->|(a & d' & H & ->)]; [done|]. by eapply enroll_tx_wf.
  - by apply wf_alter_user.
  - by apply wf_alter_user.
  - apply wf_alter_user; try done. intros u _. cbn. rewrite from_rank_rank. done.
  - by apply wf_alter_user.
  - by apply remove_users_wf.
  - unfold create_room.
    destruct (transaction_after (fun d => '(id, d) ← insert_room (mkRoomRec name 0 password_hash) d; Some (as_u64 id, d)) d n)
      as [->|(a & d' & H & ->)]; [done|]. apply bind_Some in H as ([id d1] & H & [= _ <-]).
    eapply wf_insert_room; [done| |done]. by vm_compute.
  - by apply wf_alter_room.
  - by apply wf_alter_room.
  - apply wf_set_rooms; [done|]. intros id r [_ Hr]%lookup_delete_Some. eauto.
  - by apply wf_set_epochs.
  - unfold insert_invite. destruct (transaction_after (fun d => match invites d !! ir_code_id i with
      | Some _ => Some (false, d)
      | None => Some (true, set_invites <[ir_code_id i := mkInviteRec (ir_secret i) (as_i64 <$> ir_minted_by i)
          (as_i64 (ir_expires_at i)) (ir_failures i)]> d) end) d n) as [->|(a & d' & H & ->)]; [done|].
    cbv beta in H. case_match; simplify_eq; [done|]. apply wf_set_invites; [done|]. intros code i'.
    rewrite lookup_insert_Some. intros [[_ <-]|[_ Hi]]; [|exists code, i'; by left].
    exists code, (mkInviteRec [] None 0 0). right. cbn. intros p (p' & Hp & ->)%fmap_Some. by apply Hc.
  - apply wf_set_invites; [done|]. intros code i.
    rewrite lookup_alter_Some. intros [(_ & i0 & Hi & ->)|[_ Hi]]; [exists code, i0|exists code, i]; by left.
  - by apply wf_delete_invite.
  - by apply wf_filter_invites.
  - by apply wf_filter_invites.
  - apply wf_set_blobs; [done| |].
    + intros id u h Hu Ha. apply lookup_insert_is_Some'. right. by eapply (wf_users d W id u Hu).
    + intros p h Hp Ha. apply lookup_insert_is_Some'. right. by eapply (wf_profile d W p).
  - unfold delete_unused_blobs.
    match goal with |- db_wf (after (transaction fault ?f) d n).1 =>
      destruct (transaction_after f d n) as [->|(a & d' & H & ->)]; [done|] end.
    injection H as _ <-. by apply gc_wf.
  - apply wf_set_profile; [done|]. intros h Hh. cbn in Hh. apply bind_Some in Hh as (p & Hp & Ha).
    by eapply (wf_profile d W p).
  - by apply wf_set_profile.
Qed.

(** A history of calls, each checked by its caller, with transactions failing as they like. *)
Inductive history : Database -> nat -> list call -> Database -> Prop :=
  | history_nil d n : history d n [] d
  | history_cons d n c cs d' : call_ok d c ->
      history (run_call c d n).1 (run_call c d n).2 cs d' -> history d n (c :: cs) d'.

(** C38: whatever methods run, each meeting what its caller checks ([call_ok]: the minter of
    an invite is stored, a picture set is stored, a key has 32 bytes, epochs and counts of
    media ids are [u32]), and whichever transactions fail, every [invited_by] and every
    invite's minter is a stored user, every avatar shown is a stored picture, keys are unique,
    and ids stay below the sequence they come from: removing users, pictures and invites
    leaves nothing that names them, and no call but those of [call_ok] needs a check. *)
Theorem tables_stay_consistent (cs : list call) (d : Database) :
  history empty_database 0 cs d -> db_wf d.
Proof.
  assert (forall d n, db_wf d -> forall d', history d n cs d' -> db_wf d') as H; [|eauto using empty_wf].
  intros d0 n W d' Hh. revert W. induction Hh; [done|]. intros W. apply IHHh. by apply run_call_wf.
Qed.

Definition call_checks (d : Database) (c : call) : bool :=
  match c with
  | CAllocateMediaIds count => (0 <? count) && (count <=? u32_max)
  | CEnroll pubkey _ _ _ => (length pubkey =? 32)%nat
  | CSetProfile _ _ avatar | CSetServerAvatar avatar => from_option (fun h => bool_decide (is_Some (blobs d !! h))) true avatar
  | CSetEpochs epochs => forallb (fun '(_, e) => (0 <=? e) && (e <=? u32_max)) epochs
  | CInsertInvite i => from_option (fun p => bool_decide (is_Some (users d !! as_i64 p))) true (ir_minted_by i)
  | _ => true
  end.
Lemma call_checks_ok d c : call_checks d c = true -> call_ok d c.
Proof.
  destruct c; cbn; try done.
  - lia.
  - apply Nat.eqb_eq.
  - intros H h ->. by apply bool_decide_eq_true in H.
  - intros H. apply list.Forall_forall. intros [r e] Hin. rewrite forallb_forall in H. specialize (H (r, e) ltac:(by apply list_elem_of_In)). cbn in H. unfold is_u32. lia.
  - intros H p E. rewrite E in H. by apply bool_decide_eq_true in H.
  - intros H h ->. by apply bool_decide_eq_true in H.
Qed.
Fixpoint calls_check (cs : list call) (d : Database) (n : nat) : bool :=
  match cs with [] => true | c :: cs => call_checks d c && calls_check cs (run_call c d n).1 (run_call c d n).2 end.
Lemma checked_history cs d n : calls_check cs d n = true -> history d n cs (foldl (fun dn c => run_call c dn.1 dn.2) (d, n) cs).1.
Proof.
  revert d n. induction cs as [|c cs IH]; intros d n; [intros _; apply history_nil|].
  intros [Hc H]%andb_true_iff. eapply history_cons; [by apply call_checks_ok|].
  apply IH in H. cbn [foldl fst snd]. by rewrite <- surjective_pairing in H.
Qed.
End Calls.

(** An admin enrolls, sets a picture and invites a second user, who invites a third; the
    second is removed with the invites they minted, and pictures nobody shows are deleted.
    Setting the second's role
    and the server's picture fails. *)
Definition some_calls : list call :=
  [CInsertInvite (mkInviteRow [1] [2] None 1000 0); CEnroll (repeat 7 32) [1] (lit "Ada") 10; CPutBlob [9] [1; 2] 11; CPutBlob [8] [3] 12;
   CSetProfile 1 (lit "Ada") (Some [9]); CInsertInvite (mkInviteRow [3] [4] (Some 1) 1000 0); CEnroll (repeat 8 32) [3] (lit "Bo") 20;
   CSetRole 2 Manager; CInsertInvite (mkInviteRow [5] [6] (Some 2) 1000 0); CSetServerAvatar (Some [8]); CCreateRoom (lit "Den") None;
   CSetEpochs [(1, 5)]; CAllocateMediaIds 3; CRemoveUsers [2]; CSetServerAvatar None; CDeleteUnusedBlobs 100].
Definition two_fail (n : nat) : bool := bool_decide (n = 9%nat) || bool_decide (n = 11%nat).
Definition after_calls : Database := (foldl (fun dn c => run_call two_fail c dn.1 dn.2) (empty_database, 0%nat) some_calls).1.
Lemma tables_stay_consistent_witness :
  (dom (users after_calls), dom (invites after_calls), dom (blobs after_calls)) = ({[1]}, ∅, {[ [9] ]}) /\ db_wf after_calls.
Proof.
  split; [vm_compute; reflexivity|]. apply (tables_stay_consistent two_fail some_calls).
  apply checked_history. vm_compute. reflexivity.
Defined.

(** ** Media ids *)

Section MediaIds.
Context (fault : nat -> bool).

Lemma remove_users_media l d :
  media_counter (foldl (fun d id => remove_one (as_i64 id) d) d l) = media_counter d.
Proof. revert d. induction l as [|id l IH]; intros d; [done|]. cbn. by rewrite IH. Qed.

Lemma set_epochs_media epochs d :
  media_counter (foldl (fun d '(room, epoch) =>
    set_rooms (alter (fun r => mkRoomRec (r_name r) epoch (r_password_hash r)) (as_i64 room)) d) d epochs)
  = media_counter d.
Proof. revert d. induction epochs as [|[room e] epochs IH]; intros d; [done|]. cbn. by rewrite IH. Qed.

Lemma enroll_tx_media pubkey code_id name now d r d' :
  enroll_tx pubkey code_id name now d = Some (r, d') -> media_counter d' = media_counter d.
Proof.
  unfold enroll_tx. destruct (invites d !! code_id); [|by intros [= _ <-]].
  case_match; [by intros [= _ <-]|].
  destruct (find_pubkey _ _) as [id|].
  - destruct (users _ !! id); cbn; [|done]. case_match; by intros [= _ <-].
  - unfold insert_user. case_match; cbn; [|done]. by intros [= _ <-].
Qed.

Lemma run_call_media c d n :
  next_media_id d <= next_media_id (run_call fault c d n).1 \/
  exists count, c = CAllocateMediaIds count /\ count <= 0.
Proof.
  assert (forall f, media_counter (f d) = media_counter d ->
    next_media_id d <= next_media_id (after (execute fault f) d n).1) as He.
  { intros f Hf. unfold next_media_id. destruct (execute_after fault f d n) as [-> | ->]; [|rewrite Hf]; lia. }
  assert (forall A (f : Database -> option (A * Database)),
    (forall a d', f d = Some (a, d') -> next_media_id d <= next_media_id d') ->
    next_media_id d <= next_media_id (after (transaction fault f) d n).1) as Ht.
  { intros A f Hf. destruct (transaction_after fault f d n) as [->|(a & d' & H & ->)]; [lia|eauto]. }
  assert (forall d', media_counter d' = media_counter d -> next_media_id d <= next_media_id d') as Hs.
  { intros d' E. unfold next_media_id. rewrite E. lia. }
  destruct c; cbn -[execute transaction]; try (left; apply He; reflexivity).
  - destruct (decide (count <= 0)) as [|Hc]; [right; by exists count|left]. apply Ht. intros a d'.
    cbv zeta beta. case_match; intros [= _ <-]; [lia|]. unfold next_media_id. cbn. lia.
  - left. rewrite enroll_after. apply Ht. intros a d' H. by apply Hs, (enroll_tx_media _ _ _ _ _ _ _ H).
  - left. apply He, remove_users_media.
  - left. apply Ht. intros a d' H. apply bind_Some in H as ([id d1] & H & [= _ <-]). apply Hs.
    unfold insert_room in H. by case_match; simplify_eq.
  - left. apply He, set_epochs_media.
  - left. apply Ht. intros a d'. destruct (invites d !! ir_code_id i); intros [= _ <-]; by apply Hs.
  - left. apply Ht. intros a d' [= _ <-]. by apply Hs.
Qed.

Lemma history_media cs d n d' : history fault d n cs d' -> next_media_id d <= next_media_id d'.
Proof.
  induction 1 as [|d n c cs d' Hc _ IH]; [lia|].
  destruct (run_call_media c d n) as [?|(count & -> & Hle)]; [lia|]. cbn in Hc. lia.
Qed.

Lemma allocate_Some count d n first d' n' :
  db_wf d -> 0 < count -> allocate_media_ids fault count d n = (inl (Some first), d', n') ->
  first = next_media_id d /\ next_media_id d' = first + count /\ first + count <= u32_max + 1.
Proof.
  intros W Hc. unfold allocate_media_ids, transaction. destruct (fault n); [done|]. cbn.
  destruct (u32_max <? next_media_id d + count - 1) eqn:Hle; [done|]. intros [= <- <- <-]. pose proof (wf_media d W).
  assert (wrap32 (next_media_id d) = next_media_id d) as -> by
    (unfold wrap32; apply Z.mod_small; unfold u32_max in *; lia).
  split; [done|]. split; [done|lia].
Qed.

(** Media ids are never handed out twice: whatever the server does in between,
    whichever transactions fail, a later allocation starts after an earlier one, and all of
    them are [u32]. *)
Theorem media_ids_are_never_reused (count count' : Z) (d d1 d2 d3 : Database) (n n1 n2 n3 : nat)
    (first first' : MediaId) (cs : list call) :
  db_wf d -> 0 < count -> 0 < count' ->
  allocate_media_ids fault count d n = (inl (Some first), d1, n1) ->
  history fault d1 n1 cs d2 ->
  allocate_media_ids fault count' d2 n2 = (inl (Some first'), d3, n3) ->
  1 <= first /\ first + count <= first' /\ first' + count' - 1 <= u32_max.
Proof.
  intros W Hc Hc' H1 Hh H2. destruct (allocate_Some _ _ _ _ _ _ W Hc H1) as (E1 & N1 & L1).
  pose proof (history_media _ _ _ _ Hh). pose proof (wf_media d W).
  assert (db_wf d1) as W1.
  { pose proof (run_call_wf fault (CAllocateMediaIds count) d n W) as Hw. unfold run_call, after in Hw.
    rewrite H1 in Hw. apply Hw. cbn. lia. }
  assert (db_wf d2) as W2.
  { clear -Hh W1. induction Hh; [done|]. apply IHHh. by apply run_call_wf. }
  destruct (allocate_Some _ _ _ _ _ _ W2 Hc' H2) as (E2 & N2 & L2). lia.
Qed.

End MediaIds.

Lemma media_ids_are_never_reused_witness :
  let f := fun _ : nat => false in
  let d1 := set_media_counter (Some 4) empty_database in
  allocate_media_ids f 3 empty_database 0%nat = (inl (Some 1), d1, 1%nat) /\
  1 <= 1 /\ 1 + 3 <= 4 /\ 4 + 3 - 1 <= u32_max.
Proof.
  intros f d1. split; [done|].
  apply (media_ids_are_never_reused f 3 3 empty_database d1 d1 (set_media_counter (Some 7) d1) 0 1 1 2 1 4 []);
    [apply empty_wf | done | done | done | apply history_nil | done].
Defined.

(** ** Trees of invitations *)

Section Tree.
Context (d : Database) (root : Z).

Definition invited (a b : Z) : Prop := exists u, users d !! b = Some u /\ u_invited_by u = Some a.

Lemma elem_of_invitees a b : b ∈ invitees d a <-> invited a b.
Proof.
  unfold invitees, invited. rewrite elem_of_ids. split.
  - intros [u [Hu Hi]%map_lookup_filter_Some]. eauto.
  - intros (u & Hu & Hi). exists u. by apply map_lookup_filter_Some.
Qed.

Lemma length_ids {A} (m : gmap Z A) : length (ids m) = size m.
Proof. unfold ids. by rewrite merge_sort_Permutation, length_fmap, length_map_to_list. Qed.
Lemma NoDup_ids {A} (m : gmap Z A) : NoDup (ids m).
Proof. unfold ids. rewrite merge_sort_Permutation. apply NoDup_fst_map_to_list. Qed.

(** Users found, those before [queue] already expanded. *)
Record tree_ok (expanded queue : list Z) : Prop := {
  tr_nodup : NoDup (expanded ++ queue);
  tr_known x : x ∈ expanded ++ queue -> x = root \/ is_Some (users d !! x);
  tr_reached x : x ∈ expanded ++ queue -> rtc invited root x;
  tr_closed x c : x ∈ expanded -> invited x c -> c ∈ expanded ++ queue
}.

Lemma tree_ok_size expanded queue : tree_ok expanded queue -> (length (expanded ++ queue) <= S (size (users d)))%nat.
Proof.
  intros T. assert (expanded ++ queue ⊆ root :: ids (users d)) as Hsub.
  { intros x Hx. destruct (tr_known _ _ T x Hx) as [->|Hs]; [left|right]. by apply elem_of_ids. }
  apply NoDup_submseteq in Hsub; [|apply T].
  apply submseteq_length in Hsub. cbn in Hsub. unfold ids in Hsub.
  rewrite merge_sort_Permutation in Hsub. rewrite length_fmap, length_map_to_list in Hsub. done.
Qed.

Lemma tree_ok_step id expanded queue :
  tree_ok expanded (id :: queue) ->
  tree_ok (expanded ++ [id]) (queue ++ filter (fun c => c ∉ expanded ++ id :: queue) (invitees d id)).
Proof.
  intros [Hn Hk Hr Hc]. set (new := filter _ _).
  assert ((expanded ++ [id]) ++ queue ++ new = (expanded ++ id :: queue) ++ new) as E
    by (by rewrite <- !app_assoc).
  assert (forall x, x ∈ new -> ~ (x ∈ expanded ++ id :: queue) /\ invited id x) as Hnew.
  { intros x [? ?]%list_elem_of_filter. rewrite <- elem_of_invitees. done. }
  split; rewrite ?E.
  - apply list.NoDup_app. split; [done|]. split.
    + intros x Hx Hx'. by destruct (Hnew x Hx').
    + apply list.NoDup_filter. unfold invitees. apply NoDup_ids.
  - intros x [Hx|Hx]%elem_of_app; [by apply Hk|]. right. destruct (Hnew x Hx) as [_ (u & Hu & _)]. by exists u.
  - intros x [Hx|Hx]%elem_of_app; [by apply Hr|]. destruct (Hnew x Hx) as [_ Hi].
    eapply rtc_r; [|done]. apply Hr. set_solver.
  - intros x c Hx Hi. rewrite elem_of_app. destruct (decide (c ∈ expanded ++ id :: queue)) as [|Hnot]; [by left|].
    apply elem_of_app in Hx as [Hx|Hx]; [left; by eapply Hc|].
    apply list_elem_of_singleton in Hx as ->. right. apply list_elem_of_filter. split; [done|].
    by apply elem_of_invitees.
Qed.

Lemma tree_query_ok fuel expanded queue :
  tree_ok expanded queue -> (S (size (users d)) <= fuel + length expanded)%nat ->
  exists all, tree_query fuel d queue (expanded ++ queue) = all /\ tree_ok all [] /\ expanded ++ queue ⊆ all.
Proof.
  revert expanded queue. induction fuel as [|fuel IH]; intros expanded queue T Hf.
  - exists (expanded ++ queue). split; [done|]. split; [|done].
    pose proof (tree_ok_size _ _ T) as Hs. rewrite length_app in Hs.
    destruct queue; cbn in Hs; [by rewrite app_nil_r|lia].
  - destruct queue as [|id queue]; cbn [tree_query].
    + exists expanded. rewrite app_nil_r. done.
    + pose proof (tree_ok_step _ _ _ T) as T'. set (new := filter _ _) in *.
      destruct (IH _ _ T') as (all & E & Ha & Hsub); [rewrite length_app; cbn; lia|].
      exists all. rewrite <- E. split; [f_equal; by rewrite <- !app_assoc|]. split; [by rewrite E|].
      rewrite E. etrans; [|done]. intros x. rewrite !elem_of_app, elem_of_cons, list_elem_of_singleton. tauto.
Qed.

Lemma tree_query_closure :
  let l := tree_query (S (size (users d))) d [root] [root] in
  NoDup l /\ forall x, x ∈ l <-> rtc invited root x.
Proof.
  destruct (tree_query_ok (S (size (users d))) [] [root]) as (all & E & T & Hsub).
  - split; cbn.
    + apply NoDup_singleton.
    + intros x ->%list_elem_of_singleton. by left.
    + intros x ->%list_elem_of_singleton. apply rtc_refl.
    + intros x c Hx. by apply elem_of_nil in Hx.
  - cbn. lia.
  - cbn in E. cbn. rewrite E. destruct T as [Hn _ Hr Hc]. rewrite app_nil_r in *.
    split; [done|]. intros x. split; [apply Hr|].
    intros H. assert (root ∈ all) as Hroot by (apply Hsub; by left).
    clear -H Hroot Hc. induction H; [done|]. apply IHrtc. by eapply Hc.
Qed.

End Tree.

(** [invite_tree] returns, once each, exactly the user and everyone reached through
    [invited_by] from them; the fuel of the query is never exhausted. *)
Theorem invite_tree_is_the_closure (fault : nat -> bool) (id : UserId) (d : Database) (n : nat) (l : list UserId) :
  db_wf d -> 0 <= id <= i64_max ->
  (invite_tree fault id d n).1.1 = inl l ->
  NoDup l /\ forall x, x ∈ l <-> rtc (invited d) id x.
Proof.
  intros W Hid. unfold invite_tree, query, transaction. destruct (fault n); [done|].
  destruct (tree_query_closure d (as_i64 id)) as [Hn Hx].
  remember (S (size (users d))) as fuel. cbn. intros [= <-].
  assert (as_i64 id = id) as Ei by (unfold as_i64; by replace (id <=? i64_max) with true by lia).
  rewrite Ei in *.
  assert (forall x, rtc (invited d) id x -> 0 <= x <= i64_max) as Hb.
  { intros x Hr. apply rtc_inv_r in Hr as [<-|(y & _ & u & Hu & _)]; [done|].
    destruct (wf_users d W x u Hu). pose proof (wf_user_seq d W). lia. }
  assert (as_u64 <$> tree_query fuel d [id] [id] = tree_query fuel d [id] [id]) as ->.
  { rewrite <- (list_fmap_id (tree_query _ _ _ _)) at 2. apply list_fmap_ext. intros i x Hi.
    apply list_elem_of_lookup_2, Hx, Hb in Hi. unfold Datatypes.id, as_u64, wrap64, i64_max in *. apply Z.mod_small. lia. }
  done.
Qed.

Definition example_user (by_ : option Z) (key : Z) : user_rec :=
  mkUserRec (repeat key 32) None None None (lit "Ann") None 0 by_ 0 0.

Definition example_tree : Database :=
  mkDb (<[1 := example_user None 1]> (<[2 := example_user (Some 1) 2]> (<[3 := example_user (Some 2) 3]>
    (<[4 := example_user None 4]> ∅)))) 4 ∅ 0 ∅ ∅ None None.

Lemma example_tree_users id u :
  users example_tree !! id = Some u ->
  (id = 1 /\ u = example_user None 1) \/ (id = 2 /\ u = example_user (Some 1) 2) \/
  (id = 3 /\ u = example_user (Some 2) 3) \/ (id = 4 /\ u = example_user None 4).
Proof.
  unfold example_tree. cbn [users]. rewrite !lookup_insert_Some, lookup_empty. naive_solver.
Qed.

Lemma example_tree_wf : db_wf example_tree.
Proof.
  split; try done.
  - intros id u Hu. split; destruct (example_tree_users id u Hu) as [[-> ->]|[[-> ->]|[[-> ->]|[-> ->]]]];
      try done; try (by eexists); cbn; try lia; intros p [= <-]; by eexists.
  - intros id id' u u' H1 H2.
    destruct (example_tree_users id u H1) as [[-> ->]|[[-> ->]|[[-> ->]|[-> ->]]]],
      (example_tree_users id' u' H2) as [[-> ->]|[[-> ->]|[[-> ->]|[-> ->]]]]; done.
Qed.

Lemma invite_tree_is_the_closure_witness :
  (invite_tree (fun _ => false) 1 example_tree 0%nat).1.1 = inl [1; 2; 3] /\
  (3 ∈ [1; 2; 3] <-> rtc (invited example_tree) 1 3).
Proof.
  assert ((invite_tree (fun _ => false) 1 example_tree 0%nat).1.1 = inl [1; 2; 3]) as E by (by vm_compute).
  split; [exact E|].
  apply (invite_tree_is_the_closure (fun _ => false) 1 example_tree 0 [1; 2; 3] example_tree_wf); [|exact E].
  unfold i64_max. lia.
Defined.

(** ** Enrollment *)

(** The role an invite enrolls: one without a minter is the server's own. *)
Definition enrolls (i : invite_rec) : Role := match i_minted_by i with None => Admin | Some _ => User end.

(** What [enroll] did, from the tables before and after. *)
Definition enroll_effect (pubkey : PublicKey) (name : str) (now : Z) (d d' : Database) (i : invite_rec)
    (id : Z) (kind : enrolled_kind) : Prop :=
  match kind with
  | KAdded => find_pubkey d pubkey = None /\ id = user_seq d + 1 /\ user_seq d' = id /\
      users d' = <[id := mkUserRec pubkey None None None name None (rank (enrolls i)) (i_minted_by i) now now]> (users d)
  | KPromoted => i_minted_by i = None /\ user_seq d' = user_seq d /\
      exists u, users d !! id = Some u /\ u_pubkey u = pubkey /\ u_role u < rank Admin /\
        users d' = <[id := mkUserRec (u_pubkey u) (u_enc_key u) (u_enc_sig u) (u_enc_not_after u) (u_name u)
          (u_avatar u) (rank Admin) (u_invited_by u) (u_created_at u) (u_last_seen u)]> (users d)
  | KReturning => user_seq d' = user_seq d /\ users d' = users d /\
      exists u, users d !! id = Some u /\ u_pubkey u = pubkey /\ rank (enrolls i) <= u_role u
  end.

Lemma enroll_tx_cases pubkey code_id name now d r d' :
  db_wf d -> 0 <= now <= i64_max -> enroll_tx pubkey code_id name now d = Some (r, d') ->
  match r with
  | None => d' = d /\ forall i, invites d !! code_id = Some i -> i_expires_at i <= now
  | Some (id, kind) => exists i, invites d !! code_id = Some i /\ now < i_expires_at i /\
      invites d' = delete code_id (invites d) /\ enroll_effect pubkey name now d d' i id kind
  end.
Proof.
  intros W Hnow. unfold enroll_tx.
  assert (as_i64 now = now) as -> by (unfold as_i64; by replace (now <=? i64_max) with true by lia).
  destruct (invites d !! code_id) as [i|] eqn:Hi; [|intros [= <- <-]; split; congruence].
  destruct (now <? i_expires_at i) eqn:Hx; cbn [negb].
  2: { intros [= <- <-]. split; [done|]. intros i' [= <-]. lia. }
  fold (enrolls i). destruct (find_pubkey _ pubkey) as [id|] eqn:Hf.
  - pose proof (find_pubkey_Some _ _ _ Hf) as Hu. cbn in Hu. cbn [set_invites users].
    destruct (users d !! id) as [u|] eqn:Eu; [|done]. cbn in Hu. injection Hu as Hpk. cbn [mbind option_bind].
    destruct (u_role u <? rank (enrolls i)) eqn:Hr; intros [= <- <-]; exists i; repeat split; try done; try lia.
    + unfold enrolls in Hr. destruct (i_minted_by i) as [m|] eqn:Em; [|done].
      destruct (wf_users d W id u Eu) as [_ _ [ro Hro] _ _]. apply rank_from_rank in Hro.
      change (rank User) with 0 in Hr. destruct ro; unfold rank in Hro; lia.
    + exists u. unfold enrolls in *. destruct (i_minted_by i) as [m|] eqn:Em.
      * destruct (wf_users d W id u Eu) as [_ _ [ro Hro] _ _]. apply rank_from_rank in Hro.
        change (rank User) with 0 in Hr. destruct ro; unfold rank in Hro; lia.
      * repeat split; try done. lia.
    + exists u. repeat split; try done. lia.
  - unfold insert_user. cbn [user_seq set_invites]. case_match; cbn; [|done]. intros [= <- <-].
    exists i. repeat split; try done; lia.
Qed.

(** What reading a row back gives. *)
Lemma user_result fault id d n r d' n' :
  user fault id d n = (r, d', n') ->
  d' = d /\ (r = inr DbFailed \/
    exists row, r = inl row /\ (match users d !! as_i64 id with
      | Some u => Some <$> user_row (as_i64 id) u | None => Some None end) = Some row).
Proof.
  unfold user, query, transaction. destruct (fault n); [intros [= <- <- <-]; auto|].
  destruct (users d !! as_i64 id) as [u|]; cbn; [|intros [= <- <- <-]; eauto].
  destruct (user_row (as_i64 id) u) as [row|]; cbn; intros [= <- <- <-]; eauto.
Qed.

Lemma ids_round_trip id : 1 <= id <= i64_max -> as_i64 (as_u64 id) = id /\ as_u64 id = id.
Proof.
  intros H. assert (as_u64 id = id) as E.
  { unfold as_u64, wrap64. apply Z.mod_small. unfold i64_max in *. lia. }
  split; [|done]. rewrite E. unfold as_i64. by replace (id <=? i64_max) with true by lia.
Qed.

(** An invite enrolls once and only while it is live.  [enroll] answers [None] exactly
    when it changed nothing because the invite is gone or expired; otherwise the invite is
    gone, and the user is a new one with the invite's role and minter and an id never used
    before, an existing one the server's own invite promoted to admin and otherwise left as
    they were, or an existing one left untouched.  After an error either nothing changed or
    the enrollment is stored. *)
Theorem enroll_spends_its_invite (fault : nat -> bool) (pubkey : PublicKey) (code_id name : str) (now : Z)
    (d d' : Database) (n n' : nat) (r : option Enrolled + DbError) :
  db_wf d -> length pubkey = 32%nat -> 0 <= now <= i64_max ->
  enroll fault pubkey code_id name now d n = (r, d', n') ->
  match r with
  | inl None => d' = d /\ forall i, invites d !! code_id = Some i -> i_expires_at i <= now
  | inl (Some e) =>
      exists i id kind u, invites d !! code_id = Some i /\ now < i_expires_at i /\
        invites d' = delete code_id (invites d) /\ enroll_effect pubkey name now d d' i id kind /\
        users d' !! id = Some u /\ u_pubkey u = pubkey /\ user_row id u = Some (into_row e) /\
        e = match kind with KAdded => Added | KPromoted => Promoted | KReturning => Returning end (into_row e)
  | inr _ => d' = d \/ exists i id kind, invites d !! code_id = Some i /\ now < i_expires_at i /\
        invites d' = delete code_id (invites d) /\ enroll_effect pubkey name now d d' i id kind
  end.
Proof.
  intros W Hpk Hnow. unfold enroll, mbind, DbM_bind, transaction at 1.
  destruct (fault n); [intros [= <- <- <-]; by left|].
  destruct (enroll_tx pubkey code_id name now d) as [[o d1]|] eqn:E; [|intros [= <- <- <-]; by left].
  pose proof (enroll_tx_wf _ _ _ _ _ _ _ W Hpk E) as W1.
  pose proof (enroll_tx_cases _ _ _ _ _ _ _ W Hnow E) as Hc.
  destruct o as [[id kind]|]; [|intros [= <- <- <-]; done].
  destruct Hc as (i & Hi & Hx & Hinv & Heff).
  assert (exists u, users d1 !! id = Some u /\ u_pubkey u = pubkey) as (u & Hu & Hupk).
  { destruct kind; cbn in Heff.
    - destruct Heff as (_ & _ & _ & ->). rewrite lookup_insert_eq. by eexists.
    - destruct Heff as (_ & _ & u & _ & ? & _ & ->). rewrite lookup_insert_eq. by eexists.
    - destruct Heff as (_ & -> & u & ? & ? & _). eauto. }
  pose proof (wf_user_seq d1 W1). destruct (wf_users d1 W1 id u Hu) as [Hid Hl _ _ _].
  destruct (ids_round_trip id ltac:(lia)) as [Ei Eu].
  destruct (user fault (as_u64 id) d1 (S n)) as [[r2 d2] n2] eqn:Er.
  apply user_result in Er as [-> [->|(row & -> & Hrow)]].
  { intros [= <- <- <-]. right. by exists i, id, kind. }
  rewrite Ei, Hu in Hrow. unfold user_row in Hrow. rewrite Hl in Hrow. cbn in Hrow. injection Hrow as <-.
  intros [= <- <- <-]. exists i, id, kind, u.
  repeat (split; [done|]). split; [|by destruct kind].
  unfold user_row. rewrite Hl. cbn. by destruct kind.
Qed.

Definition example_invite : Database :=
  set_invites <[lit "K7Q" := mkInviteRec (lit "SECRET") None 1000 0]> empty_database.

Lemma example_invite_wf : db_wf example_invite.
Proof.
  destruct empty_wf as []. split; try done. intros code i p Hi Hp.
  unfold example_invite, set_invites in Hi. cbn [invites] in Hi.
  by apply lookup_insert_Some in Hi as [[_ <-]|[_ Hi]].
Qed.

Lemma enroll_spends_its_invite_witness :
  let '(r, d', n') := enroll (fun _ => false) (repeat 7 32) (lit "K7Q") (lit "Ann") 5 example_invite 0%nat in
  match r with
  | inl (Some (Added row)) => ur_id row = 1 /\ ur_role row = Admin
  | _ => False
  end /\ invites d' !! lit "K7Q" = None.
Proof.
  destruct (enroll _ _ _ _ _ _ _) as [[r d'] n'] eqn:E.
  pose proof (enroll_spends_its_invite _ (repeat 7 32) (lit "K7Q") (lit "Ann") 5 example_invite d' 0 n' r
    example_invite_wf eq_refl ltac:(unfold i64_max; lia) E) as H.
  vm_compute in E. injection E as <- <- <-. destruct H as (i & id & kind & u & _ & _ & Hinv & _).
  split; [done|]. rewrite Hinv. apply lookup_delete_eq.
Defined.
