(* ===== verification/Floors.v ===== *)
(** * Epoch floors (throcc-client-core, floors.rs)

    The newest epoch this client took part in, per user of ours and room, on one server.
    The key managers share one value in memory; other processes hold their own, and all
    write the same file. *)
From S2P Require Import Prelude Ids.
Open Scope Z_scope.

Abbreviation floors_map := (gmap (UserId * RoomId) Epoch) (only parsing).

(** [fl_kept] tells whether [kept_in] names a file. *)
(* @src/crates/throcc-client-core/src/floors.rs 20-28 Floors *)
Record Floors := mkFloors { fl_kept : bool; fl_at : floors_map; fl_unsaved : bool; fl_finished : bool }.

Definition floors_default : Floors := mkFloors false ∅ false false.

(** [kept] are the server's floors in the file, keyed by user and room. *)
(* @src/crates/throcc-client-core/src/floors.rs 31-48 EpochFloors::load *)
Definition floors_load (kept : floors_map) : Floors := mkFloors true kept false false.

(* @src/crates/throcc-client-core/src/floors.rs 50-52 EpochFloors::get *)
Definition floors_get (f : Floors) (user : UserId) (room : RoomId) : option Epoch := fl_at f !! (user, room).

(* @src/crates/throcc-client-core/src/floors.rs 54-64 EpochFloors::raise *)
Definition floors_raise (user : UserId) (room : RoomId) (epoch : Epoch) (f : Floors) : Floors :=
  if match fl_at f !! (user, room) with None => true | Some floor => floor <? epoch end
  then mkFloors (fl_kept f) (<[(user, room) := epoch]> (fl_at f)) true (fl_finished f)
  else f.

(** The closure given to [Servers::update]: the higher of both floors, entry by entry. *)
(* @src/crates/throcc-client-core/src/floors.rs 80-85! EpochFloors::save *)
Definition merge_floors (kept at_ : floors_map) : floors_map := union_with (fun a b => Some (Z.max a b)) kept at_.

(** [written] tells whether the file could be read and written; the result is [is_ok]. *)
(* @src/crates/throcc-client-core/src/floors.rs 66-91 EpochFloors::save *)
Definition floors_save (written : bool) (f : Floors) (kept : floors_map) : bool * Floors * floors_map :=
  if negb (fl_kept f) then (true, f, kept)
  else if negb (fl_unsaved f) || fl_finished f then (true, f, kept)
  else if written then (true, mkFloors (fl_kept f) (fl_at f) false (fl_finished f), merge_floors kept (fl_at f))
  else (false, mkFloors (fl_kept f) (fl_at f) true (fl_finished f), kept).

(* @src/crates/throcc-client-core/src/floors.rs 93-99 EpochFloors::save_last *)
Definition floors_save_last (written : bool) (f : Floors) (kept : floors_map) : bool * Floors * floors_map :=
  let '(saved, f, kept) := floors_save written f kept in
  (saved, mkFloors (fl_kept f) (fl_at f) (fl_unsaved f) true, kept).

(* @src/crates/throcc-client-core/src/floors.rs 101-107 EpochFloors::forget *)
Definition floors_forget (user : UserId) (kept : floors_map) : floors_map := filter (fun '((u, _), _) => u <> user) kept.

(** ** Laws *)

(** [a] is at least as high as [b] everywhere. *)
Definition covers (a b : floors_map) : Prop := forall k e, b !! k = Some e -> exists e', a !! k = Some e' /\ e <= e'.

#[export] Instance covers_preorder : PreOrder covers.
Proof.
  split; [intros a k e H; exists e; split; [done|lia]|]. intros a b c Hab Hbc k e Hc.
  destruct (Hbc _ _ Hc) as (e1 & H1 & ?). destruct (Hab _ _ H1) as (e2 & H2 & ?). exists e2. split; [done|lia].
Qed.

Lemma merge_covers kept at_ : covers (merge_floors kept at_) kept /\ covers (merge_floors kept at_) at_.
Proof.
  split; intros k e H; unfold merge_floors; rewrite lookup_union_with, H.
  - destruct (at_ !! k) as [e'|]; cbn; eexists; (split; [done|lia]).
  - destruct (kept !! k) as [e'|]; cbn; eexists; (split; [done|lia]).
Qed.

Lemma raise_covers user room epoch f : covers (fl_at (floors_raise user room epoch f)) (fl_at f).
Proof.
  unfold floors_raise. destruct (fl_at f !! (user, room)) as [floor|] eqn:E; [destruct (Z.ltb_spec floor epoch)|]; cbn [fl_at]; [|done|];
    intros k e Hk; (destruct (decide (k = (user, room))) as [->|Hne]; [rewrite lookup_insert_eq; eexists; split; [done|]; simplify_eq; lia|
    rewrite lookup_insert_ne by done; exists e; split; [done|lia]]).
Qed.

Lemma raise_get user room epoch f : exists e, floors_get (floors_raise user room epoch f) user room = Some e /\ epoch <= e.
Proof.
  unfold floors_get, floors_raise. destruct (fl_at f !! (user, room)) as [floor|] eqn:E; [destruct (Z.ltb_spec floor epoch)|]; cbn [fl_at];
    rewrite ?lookup_insert_eq, ?E; eexists; (split; [done|lia]).
Qed.
#[export] Hint Resolve raise_covers : core.

(** ** Several processes and one file *)

(** What process [p] does: the last parameter is whether its write succeeds. *)
Inductive FloorsStep := FlRaise (p : nat) (user : UserId) (room : RoomId) (epoch : Epoch) | FlSave (p : nat) (written : bool)
  | FlSaveLast (p : nat) (written : bool) | FlLoad (p : nat).

Definition floors_step (s : FloorsStep) (w : gmap nat Floors * floors_map) : gmap nat Floors * floors_map :=
  let '(procs, kept) := w in
  let on p (f : Floors -> floors_map -> Floors * floors_map) :=
    match procs !! p with Some fl => let '(fl, kept) := f fl kept in (<[p := fl]> procs, kept) | None => (procs, kept) end in
  match s with
  | FlRaise p user room epoch => on p (fun fl kept => (floors_raise user room epoch fl, kept))
  | FlSave p written => on p (fun fl kept => let '(_, fl, kept) := floors_save written fl kept in (fl, kept))
  | FlSaveLast p written => on p (fun fl kept => let '(_, fl, kept) := floors_save_last written fl kept in (fl, kept))
  | FlLoad p => (<[p := floors_load kept]> procs, kept)
  end.

(** Before its last save, a process that has nothing unsaved has written all it knows. *)
Definition floors_inv (w : gmap nat Floors * floors_map) : Prop :=
  forall p fl, w.1 !! p = Some fl -> fl_kept fl = true -> fl_finished fl = false -> fl_unsaved fl = false -> covers w.2 (fl_at fl).

Lemma save_law written fl kept : (fl_kept fl = true -> fl_finished fl = false -> fl_unsaved fl = false -> covers kept (fl_at fl)) ->
  let '(saved, fl', kept') := floors_save written fl kept in
  fl_at fl' = fl_at fl /\ fl_finished fl' = fl_finished fl /\ covers kept' kept /\
  (fl_kept fl' = true -> fl_finished fl' = false -> fl_unsaved fl' = false -> covers kept' (fl_at fl')) /\
  (fl_kept fl = true -> fl_finished fl = false -> saved = true -> covers kept' (fl_at fl)).
Proof.
  intros Hinv. unfold floors_save. destruct (fl_kept fl) eqn:Ek; cbn [negb]; [|split_and!; (done || congruence)].
  destruct (fl_unsaved fl) eqn:Eu, (fl_finished fl) eqn:Ef; cbn [negb orb]; try (split_and!; (done || congruence || auto)).
  destruct written; cbn [fl_at fl_finished fl_kept fl_unsaved]; pose proof (merge_covers kept (fl_at fl)) as [? ?]; split_and!; (done || congruence || auto).
Qed.

Lemma floors_step_ok s w : floors_inv w -> floors_inv (floors_step s w) /\ covers (floors_step s w).2 w.2.
Proof.
  destruct w as [procs kept]. intros Hinv. unfold floors_inv in *. cbn [fst snd] in *.
  assert (forall p f, (forall fl, procs !! p = Some fl -> let '(fl', kept') := f fl kept in covers kept' kept /\
     (fl_kept fl' = true -> fl_finished fl' = false -> fl_unsaved fl' = false -> covers kept' (fl_at fl'))) ->
    let w' := match procs !! p with Some fl => let '(fl, kept) := f fl kept in (<[p := fl]> procs, kept) | None => (procs, kept) end in
    (forall q fl, w'.1 !! q = Some fl -> fl_kept fl = true -> fl_finished fl = false -> fl_unsaved fl = false -> covers w'.2 (fl_at fl)) /\
    covers w'.2 kept) as Hon.
  { intros p f Hf. cbv zeta. destruct (procs !! p) as [fl|] eqn:E; [|done]. specialize (Hf fl eq_refl). destruct (f fl kept) as [fl' kept'].
    destruct Hf as [Hc Hf]. cbn [fst snd]. split; [|done]. intros q fq [[<- <-]|[_ Hq]]%lookup_insert_Some ???; [by apply Hf|].
    transitivity kept; [done|]. by apply (Hinv q). }
  destruct s as [p user room epoch|p written|p written|p]; cbn [floors_step].
  - apply (Hon p (fun fl kept => (floors_raise user room epoch fl, kept))). intros fl E. split; [done|].
    unfold floors_raise. destruct (match _ with None => _ | Some _ => _ end); [done|]. by apply (Hinv p).
  - apply (Hon p (fun fl kept => let '(_, fl, kept) := floors_save written fl kept in (fl, kept))). intros fl E.
    pose proof (save_law written fl kept (Hinv p fl E)) as H. destruct (floors_save written fl kept) as [[saved fl'] kept']. tauto.
  - apply (Hon p (fun fl kept => let '(_, fl, kept) := floors_save_last written fl kept in (fl, kept))). intros fl E. unfold floors_save_last.
    pose proof (save_law written fl kept (Hinv p fl E)) as H. destruct (floors_save written fl kept) as [[saved fl'] kept']. cbn. split; [tauto|done].
  - cbn [fst snd]. split; [|done]. intros q fl [[<- <-]|[_ Hq]]%lookup_insert_Some ???; [done|]. by apply (Hinv q).
Qed.

(** However the processes that share the file interleave, raise, save, fail to write and
    load again, no floor in the file ever falls; and a save that succeeds, before a process's
    last one, leaves the file at least as high as every epoch that process took part in. *)
Theorem kept_floors_only_rise (kept : floors_map) (ss : list FloorsStep) (p : nat) (written : bool) :
  let w := foldl (fun w s => floors_step s w) (∅, kept) ss in
  covers w.2 kept /\
  forall fl, w.1 !! p = Some fl -> fl_finished fl = false -> fl_kept fl = true ->
    let '(saved, fl', kept') := floors_save written fl w.2 in
    covers kept' w.2 /\ fl_at fl' = fl_at fl /\ (saved = true -> covers kept' (fl_at fl)).
Proof.
  intros w. assert (floors_inv w /\ covers w.2 kept) as [Hinv Hc].
  { unfold w. assert (floors_inv (∅, kept) /\ covers (∅ : gmap nat Floors, kept).2 kept) as H by (split; [intros q fl Hq; cbn in Hq; by rewrite lookup_empty in Hq|done]).
    revert H. generalize ((∅ : gmap nat Floors, kept)). induction ss as [|s ss IH]; intros w0 [H1 H2]; [done|]. cbn [foldl]. apply IH.
    destruct (floors_step_ok s w0 H1) as [? ?]. split; [done|]. by etransitivity. }
  split; [done|]. intros fl E Ef Ek. pose proof (save_law written fl w.2 (Hinv p fl E)) as H.
  destruct (floors_save written fl w.2) as [[saved fl'] kept']. destruct H as (? & ? & ? & _ & ?). split_and!; auto.
Qed.

(** A process with older floors writes last, and lowers nothing. *)
Lemma kept_floors_only_rise_witness :
  let ss := [FlLoad 0; FlLoad 1; FlRaise 0 4 1 12; FlSave 0 true; FlRaise 1 4 1 3; FlRaise 1 4 2 7] in
  let w := foldl (fun w s => floors_step s w) (∅, {[(4, 1) := 9]}) ss in
  (snd (floors_save true (floors_load ∅) ∅) = ∅) /\
  exists fl, w.1 !! 1%nat = Some fl /\ (snd (floors_save true fl w.2)) !! (4, 1) = Some 12 /\
    covers (snd (floors_save true fl w.2)) w.2.
Proof.
  intros ss w. split; [vm_compute; reflexivity|]. destruct (kept_floors_only_rise {[(4, 1) := 9]} ss 1 true) as [_ H].
  exists (mkFloors true {[(4, 1) := 9; (4, 2) := 7]} true false). fold w in H.
  assert (w.1 !! 1%nat = Some (mkFloors true {[(4, 1) := 9; (4, 2) := 7]} true false)) as E by (vm_compute; reflexivity).
  split; [done|]. split; [vm_compute; reflexivity|]. specialize (H _ E eq_refl eq_refl).
  destruct (floors_save true _ w.2) as [[saved fl'] kept']. cbn [snd]. by destruct H as [H _].
Defined.
