(* ===== verification/Servers.v ===== *)
(** * What this computer keeps per server (throcc-client-core, servers.rs, known_servers.rs,
    server_look.rs)

    One JSON file: the key pinned for each address, and per key the server's look and the
    epochs our users took part in.  The file is a cell of [JsonFile]. *)
From S2P Require Import Prelude Ids Messages JsonFile Floors.
Open Scope Z_scope.

(** [ks_epochs] has the inner map's room next to the user. *)
(* @src/crates/throcc-client-core/src/servers.rs 22-30 Server *)
Record Server := mkServer { ks_name : option str; ks_avatar : option bytes; ks_epochs : gmap (UserId * RoomId) Epoch }.
Definition server_default : Server := mkServer None None ∅.

(* @src/crates/throcc-client-core/src/servers.rs 13-20 Servers *)
Record Servers := mkServers { ss_known : gmap str bytes; ss_servers : gmap bytes Server }.
Definition servers_default : Servers := mkServers ∅ ∅.

(* @src/crates/throcc-client-core/src/servers.rs 43-46 Servers::take *)
Definition servers_take (server : bytes) (s : Servers) : Server := default server_default (ss_servers s !! server).
(** The change [server_mut] is used for. *)
(* @src/crates/throcc-client-core/src/servers.rs 48-50 Servers::server_mut *)
Definition server_mut (server : bytes) (f : Server -> Server) (s : Servers) : Servers :=
  mkServers (ss_known s) (<[server := f (default server_default (ss_servers s !! server))]> (ss_servers s)).

(** ** The pins as one process holds them *)

(* @src/crates/throcc-client-core/src/known_servers.rs 9-13 KnownServers *)
Record KnownServers := mkKnown { kn_pins : gmap str bytes }.

(* @src/crates/throcc-client-core/src/known_servers.rs 16-26 KnownServers::load *)
Definition known_load (file : option Servers) : option KnownServers := (fun s => mkKnown (ss_known s)) <$> file.
(* @src/crates/throcc-client-core/src/known_servers.rs 28-30 KnownServers::get *)
Definition known_get (address : str) (k : KnownServers) : option bytes := kn_pins k !! address.

(* @src/crates/throcc-client-core/src/known_servers.rs 36-43 KnownServers::trust *)
Definition known_trust (written : bool) (address : str) (fingerprint : bytes) (k : KnownServers) (file : option Servers) : bool * KnownServers * option Servers :=
  let '(ok, file) := cell_update written (fun s => mkServers (<[address := fingerprint]> (ss_known s)) (ss_servers s)) file in
  (ok, mkKnown (<[address := fingerprint]> (kn_pins k)), file).
(* @src/crates/throcc-client-core/src/known_servers.rs 45-52 KnownServers::forget *)
Definition known_forget (written : bool) (address : str) (k : KnownServers) (file : option Servers) : bool * KnownServers * option Servers :=
  let '(ok, file) := cell_update written (fun s => mkServers (delete address (ss_known s)) (ss_servers s)) file in
  (ok, mkKnown (delete address (kn_pins k)), file).
(* @src/crates/throcc-client-core/src/known_servers.rs 54-59 KnownServers::forget_all *)
Definition known_forget_all (written : bool) (k : KnownServers) (file : option Servers) : bool * KnownServers * option Servers :=
  let '(ok, file) := cell_update written (fun s => mkServers ∅ (ss_servers s)) file in (ok, mkKnown ∅, file).

(** [s.known.values().any(..)]: another address is pinned to the key. *)
Definition in_use (key : bytes) (known : gmap str bytes) : bool := bool_decide (key ∈ (map_to_list known).*2).
Definition drop_address (address : str) (s : Servers) : Servers :=
  match ss_known s !! address with
  | Some key =>
      let known := delete address (ss_known s) in
      mkServers known (if in_use key known then ss_servers s else delete key (ss_servers s))
  | None => s
  end.
(* @src/crates/throcc-client-core/src/known_servers.rs 61-72 KnownServers::leave *)
Definition known_leave (written : bool) (address : str) (k : KnownServers) (file : option Servers) : bool * KnownServers * option Servers :=
  let '(ok, file) := cell_update written (drop_address address) file in (ok, mkKnown (delete address (kn_pins k)), file).

(** ** A server's look *)

(* @src/crates/throcc-client-core/src/server_look.rs 9-15 ServerLook *)
Record ServerLook := mkLook { lk_name : option str; lk_avatar : option bytes }.
(* @src/crates/throcc-client-core/src/server_look.rs 18-25 ServerLook::load *)
Definition look_load (server : bytes) (file : option Servers) : option ServerLook :=
  (fun s => let kept := servers_take server s in mkLook (ks_name kept) (ks_avatar kept)) <$> file.
(* @src/crates/throcc-client-core/src/server_look.rs 27-33 ServerLook::save *)
Definition look_save (written : bool) (look : ServerLook) (server : bytes) (file : option Servers) : bool * option Servers :=
  cell_update written (server_mut server (fun kept => mkServer (lk_name look) (lk_avatar look) (ks_epochs kept))) file.

(** What [EpochFloors::save] changes in the file. *)
Definition floors_change (server : bytes) (floors : gmap (UserId * RoomId) Epoch) : Servers -> Servers :=
  server_mut server (fun kept => mkServer (ks_name kept) (ks_avatar kept) (merge_floors (ks_epochs kept) floors)).

(** ** Several processes *)

Inductive ServersStep :=
| SvTrust (address : str) (fingerprint : bytes) | SvForget (address : str) | SvForgetAll | SvLeave (address : str)
| SvLook (server : bytes) (look : ServerLook) | SvFloors (server : bytes) (floors : gmap (UserId * RoomId) Epoch).

(** A step some process takes on the file; its own pins do not matter to it. *)
Definition servers_step (file : option Servers) (s : ServersStep * bool) : option Servers :=
  let '(s, written) := s in
  let pins := mkKnown ∅ in
  match s with
  | SvTrust address fingerprint => (known_trust written address fingerprint pins file).2
  | SvForget address => (known_forget written address pins file).2
  | SvForgetAll => (known_forget_all written pins file).2
  | SvLeave address => (known_leave written address pins file).2
  | SvLook server look => (look_save written look server file).2
  | SvFloors server floors => (cell_update written (floors_change server floors) file).2
  end.

Lemma in_use_spec key known : in_use key known = true <-> exists address, known !! address = Some key.
Proof.
  unfold in_use. rewrite bool_decide_eq_true, list_elem_of_fmap. split.
  - intros ([a k] & -> & H%elem_of_map_to_list). by exists a.
  - intros [a H]. exists (a, key). split; [done|]. by apply elem_of_map_to_list.
Qed.

Lemma cell_update_step written change (file : option Servers) :
  (cell_update written change file).2 = (fun s => if written : bool then change s else s) <$> file.
Proof. destruct file, written; done. Qed.

(** What is kept for a server's key, its look and our epoch floors, is dropped by nothing but
    leaving the last address pinned to that key, whatever the processes do and whichever of
    their writes fail. *)
Theorem servers_are_kept_until_left (kept : Servers) (ss : list (ServersStep * bool)) (key : bytes) :
  is_Some (ss_servers kept !! key) ->
  (forall pre address post s, ss = pre ++ (SvLeave address, true) :: post -> foldl servers_step (Some kept) pre = Some s ->
     ss_known s !! address = Some key -> exists other, other <> address /\ ss_known s !! other = Some key) ->
  exists s, foldl servers_step (Some kept) ss = Some s /\ is_Some (ss_servers s !! key).
Proof.
  intros Hk. induction ss as [|[s written] ss IH] using rev_ind; intros Hleave; [by exists kept|].
  destruct IH as (s0 & Es & Hs).
  { intros pre address post s1 -> Hpre Ha. apply (Hleave pre address (post ++ [(s, written)]) s1); [by rewrite <- app_assoc|done..]. }
  rewrite foldl_app. cbn [foldl]. rewrite Es.
  assert (forall change, (written = true -> is_Some (ss_servers (change s0) !! key)) ->
    exists s2, (cell_update written change (Some s0)).2 = Some s2 /\ is_Some (ss_servers s2 !! key)) as Hgo.
  { intros change Hc. rewrite cell_update_step. cbn. eexists. split; [done|]. destruct written; auto. }
  assert (forall server f, is_Some (ss_servers (server_mut server f s0) !! key)) as Hmut.
  { intros server f. cbn. rewrite lookup_insert. case_decide; [done|exact Hs]. }
  destruct s as [address fp|address| |address|server look|server floors]; cbn [servers_step].
  1-4: unfold known_trust, known_forget, known_forget_all, known_leave; rewrite (surjective_pairing (cell_update _ _ _)); cbn [snd].
  - apply Hgo. by intros _.
  - apply Hgo. by intros _.
  - apply Hgo. by intros _.
  - apply Hgo. intros ->. unfold drop_address. destruct (ss_known s0 !! address) as [k|] eqn:Ea; [|done]. cbn [ss_servers].
    destruct (in_use k _) eqn:Eu; [done|]. destruct (decide (k = key)) as [->|Hne]; [|by rewrite lookup_delete_ne].
    destruct (Hleave ss address [] s0 eq_refl Es Ea) as (other & Ho & Hko). exfalso.
    assert (in_use key (delete address (ss_known s0)) = true); [|congruence]. apply in_use_spec. exists other. by rewrite lookup_delete_ne.
  - apply Hgo. intros _. apply Hmut.
  - apply Hgo. intros _. apply Hmut.
Qed.
