(* ===== verification/KeysState.v ===== *)
(** * Sender keys: the key manager's state (throcc-client-core, keys.rs)

    The per-epoch sender secrets for one room: ours, wrapped to every trusted peer, and
    theirs.  [Private] stands for an HPKE key pair and [Key] for a track's AEAD key; times
    are milliseconds. *)
From S2P Require Import Prelude Ordered Ids Frame Messages Crypto Floors.
Open Scope Z_scope.

(* @src/crates/throcc-client-core/src/keys.rs 17-18 OLD_KEY_GRACE *)
Definition OLD_KEY_GRACE : Z := 2000.
(* @src/crates/throcc-client-core/src/keys.rs 19-20 RETIRED_ENCRYPTION_KEPT *)
Definition RETIRED_ENCRYPTION_KEPT : Z := OLD_KEY_GRACE * 5.
(* @src/crates/throcc-client-core/src/keys.rs 21-22 MAX_EARLY *)
Definition MAX_EARLY : Z := 2 * MAX_ROOM_MEMBERS.
(* @src/crates/throcc-client-core/src/keys.rs 23-25 WRAPPED_BYTES *)
Definition WRAPPED_BYTES : nat := 32 + 32 + 16.

(* @src/crates/throcc-client-core/src/keys.rs 27-42 KeyNotice *)
Inductive KeyNotice := BadEncryptionKey (user : UserId) | ClashingTracks | TooManyPeers | OldEpoch.

(* @src/crates/throcc-client-core/src/keys.rs 44-52 KeyError *)
Inductive KeyError := Stale | Length | Unwrap (e : HpkeError).

(* @src/crates/throcc-client-core/src/keys.rs 54-58 KeyPeer *)
Record KeyPeer := mkKeyPeer { kp_identity_key : PublicKey; kp_encryption_key : PublicKey; kp_tracks : Tracks }.

(* @src/crates/throcc-client-core/src/keys.rs 60-63 Received *)
Record Received := mkReceived { rc_secret : bytes; rc_retire_at : option Z }.

Section State.
Context {Private Key : Type}.

(* @src/crates/throcc-client-core/src/keys.rs 65-110 KeyManager *)
Record KeyManager := mkKeys {
  k_me : UserId;
  k_encryption : Private;
  k_retired_encryption : option (Private * Z);
  k_server : bytes;
  k_present : gmap Z Z;
  k_room_peers : list Peer;
  k_room : option RoomId;
  k_epoch : Epoch;
  k_epoch_since : Z;
  k_floors : Floors;
  k_floor : option Epoch;
  k_my_tracks : option Tracks;
  k_peers : gmap Z KeyPeer;
  k_owners : gmap Z Z;
  k_my_secret : option bytes;
  k_wrapped_to : gset (Z * bytes);
  k_unwrappable : gmap Z bytes;
  k_checked_signatures : gmap Z (bytes * SignedEncryptionKey * bool);
  k_send_keys : gmap Z Key;
  k_received : gmap (Z * Z) Received;
  k_recv_keys : gmap (Z * Z) (Z * Key);
  k_early : gmap (Z * Z) (Z * bytes);
  k_stashed : option (RoomId * Epoch * list Peer);
  k_generation : Z
}.

Definition set_encryption (x : Private) (k : KeyManager) : KeyManager :=
  mkKeys (k_me k) x (k_retired_encryption k) (k_server k) (k_present k) (k_room_peers k) (k_room k) (k_epoch k)
    (k_epoch_since k) (k_floors k) (k_floor k) (k_my_tracks k) (k_peers k) (k_owners k) (k_my_secret k) (k_wrapped_to
    k) (k_unwrappable k) (k_checked_signatures k) (k_send_keys k) (k_received k) (k_recv_keys k) (k_early k)
    (k_stashed k) (k_generation k).
Definition set_retired_encryption (x : option (Private * Z)) (k : KeyManager) : KeyManager :=
  mkKeys (k_me k) (k_encryption k) x (k_server k) (k_present k) (k_room_peers k) (k_room k) (k_epoch k) (k_epoch_since
    k) (k_floors k) (k_floor k) (k_my_tracks k) (k_peers k) (k_owners k) (k_my_secret k) (k_wrapped_to k)
    (k_unwrappable k) (k_checked_signatures k) (k_send_keys k) (k_received k) (k_recv_keys k) (k_early k) (k_stashed
    k) (k_generation k).
Definition set_present (x : gmap Z Z) (k : KeyManager) : KeyManager :=
  mkKeys (k_me k) (k_encryption k) (k_retired_encryption k) (k_server k) x (k_room_peers k) (k_room k) (k_epoch k)
    (k_epoch_since k) (k_floors k) (k_floor k) (k_my_tracks k) (k_peers k) (k_owners k) (k_my_secret k) (k_wrapped_to
    k) (k_unwrappable k) (k_checked_signatures k) (k_send_keys k) (k_received k) (k_recv_keys k) (k_early k)
    (k_stashed k) (k_generation k).
Definition set_room_peers (x : list Peer) (k : KeyManager) : KeyManager :=
  mkKeys (k_me k) (k_encryption k) (k_retired_encryption k) (k_server k) (k_present k) x (k_room k) (k_epoch k)
    (k_epoch_since k) (k_floors k) (k_floor k) (k_my_tracks k) (k_peers k) (k_owners k) (k_my_secret k) (k_wrapped_to
    k) (k_unwrappable k) (k_checked_signatures k) (k_send_keys k) (k_received k) (k_recv_keys k) (k_early k)
    (k_stashed k) (k_generation k).
Definition set_room (x : option RoomId) (k : KeyManager) : KeyManager :=
  mkKeys (k_me k) (k_encryption k) (k_retired_encryption k) (k_server k) (k_present k) (k_room_peers k) x (k_epoch k)
    (k_epoch_since k) (k_floors k) (k_floor k) (k_my_tracks k) (k_peers k) (k_owners k) (k_my_secret k) (k_wrapped_to
    k) (k_unwrappable k) (k_checked_signatures k) (k_send_keys k) (k_received k) (k_recv_keys k) (k_early k)
    (k_stashed k) (k_generation k).
Definition set_epoch (x : Epoch) (k : KeyManager) : KeyManager :=
  mkKeys (k_me k) (k_encryption k) (k_retired_encryption k) (k_server k) (k_present k) (k_room_peers k) (k_room k) x
    (k_epoch_since k) (k_floors k) (k_floor k) (k_my_tracks k) (k_peers k) (k_owners k) (k_my_secret k) (k_wrapped_to
    k) (k_unwrappable k) (k_checked_signatures k) (k_send_keys k) (k_received k) (k_recv_keys k) (k_early k)
    (k_stashed k) (k_generation k).
Definition set_epoch_since (x : Z) (k : KeyManager) : KeyManager :=
  mkKeys (k_me k) (k_encryption k) (k_retired_encryption k) (k_server k) (k_present k) (k_room_peers k) (k_room k)
    (k_epoch k) x (k_floors k) (k_floor k) (k_my_tracks k) (k_peers k) (k_owners k) (k_my_secret k) (k_wrapped_to k)
    (k_unwrappable k) (k_checked_signatures k) (k_send_keys k) (k_received k) (k_recv_keys k) (k_early k) (k_stashed
    k) (k_generation k).
Definition set_floors (x : Floors) (k : KeyManager) : KeyManager :=
  mkKeys (k_me k) (k_encryption k) (k_retired_encryption k) (k_server k) (k_present k) (k_room_peers k) (k_room k)
    (k_epoch k) (k_epoch_since k) x (k_floor k) (k_my_tracks k) (k_peers k) (k_owners k) (k_my_secret k) (k_wrapped_to
    k) (k_unwrappable k) (k_checked_signatures k) (k_send_keys k) (k_received k) (k_recv_keys k) (k_early k)
    (k_stashed k) (k_generation k).
Definition set_floor (x : option Epoch) (k : KeyManager) : KeyManager :=
  mkKeys (k_me k) (k_encryption k) (k_retired_encryption k) (k_server k) (k_present k) (k_room_peers k) (k_room k)
    (k_epoch k) (k_epoch_since k) (k_floors k) x (k_my_tracks k) (k_peers k) (k_owners k) (k_my_secret k)
    (k_wrapped_to k) (k_unwrappable k) (k_checked_signatures k) (k_send_keys k) (k_received k) (k_recv_keys k)
    (k_early k) (k_stashed k) (k_generation k).
Definition set_my_tracks (x : option Tracks) (k : KeyManager) : KeyManager :=
  mkKeys (k_me k) (k_encryption k) (k_retired_encryption k) (k_server k) (k_present k) (k_room_peers k) (k_room k)
    (k_epoch k) (k_epoch_since k) (k_floors k) (k_floor k) x (k_peers k) (k_owners k) (k_my_secret k) (k_wrapped_to k)
    (k_unwrappable k) (k_checked_signatures k) (k_send_keys k) (k_received k) (k_recv_keys k) (k_early k) (k_stashed
    k) (k_generation k).
Definition set_peers (x : gmap Z KeyPeer) (k : KeyManager) : KeyManager :=
  mkKeys (k_me k) (k_encryption k) (k_retired_encryption k) (k_server k) (k_present k) (k_room_peers k) (k_room k)
    (k_epoch k) (k_epoch_since k) (k_floors k) (k_floor k) (k_my_tracks k) x (k_owners k) (k_my_secret k)
    (k_wrapped_to k) (k_unwrappable k) (k_checked_signatures k) (k_send_keys k) (k_received k) (k_recv_keys k)
    (k_early k) (k_stashed k) (k_generation k).
Definition set_owners (x : gmap Z Z) (k : KeyManager) : KeyManager :=
  mkKeys (k_me k) (k_encryption k) (k_retired_encryption k) (k_server k) (k_present k) (k_room_peers k) (k_room k)
    (k_epoch k) (k_epoch_since k) (k_floors k) (k_floor k) (k_my_tracks k) (k_peers k) x (k_my_secret k) (k_wrapped_to
    k) (k_unwrappable k) (k_checked_signatures k) (k_send_keys k) (k_received k) (k_recv_keys k) (k_early k)
    (k_stashed k) (k_generation k).
Definition set_my_secret (x : option bytes) (k : KeyManager) : KeyManager :=
  mkKeys (k_me k) (k_encryption k) (k_retired_encryption k) (k_server k) (k_present k) (k_room_peers k) (k_room k)
    (k_epoch k) (k_epoch_since k) (k_floors k) (k_floor k) (k_my_tracks k) (k_peers k) (k_owners k) x (k_wrapped_to k)
    (k_unwrappable k) (k_checked_signatures k) (k_send_keys k) (k_received k) (k_recv_keys k) (k_early k) (k_stashed
    k) (k_generation k).
Definition set_wrapped_to (x : gset (Z * bytes)) (k : KeyManager) : KeyManager :=
  mkKeys (k_me k) (k_encryption k) (k_retired_encryption k) (k_server k) (k_present k) (k_room_peers k) (k_room k)
    (k_epoch k) (k_epoch_since k) (k_floors k) (k_floor k) (k_my_tracks k) (k_peers k) (k_owners k) (k_my_secret k) x
    (k_unwrappable k) (k_checked_signatures k) (k_send_keys k) (k_received k) (k_recv_keys k) (k_early k) (k_stashed
    k) (k_generation k).
Definition set_unwrappable (x : gmap Z bytes) (k : KeyManager) : KeyManager :=
  mkKeys (k_me k) (k_encryption k) (k_retired_encryption k) (k_server k) (k_present k) (k_room_peers k) (k_room k)
    (k_epoch k) (k_epoch_since k) (k_floors k) (k_floor k) (k_my_tracks k) (k_peers k) (k_owners k) (k_my_secret k)
    (k_wrapped_to k) x (k_checked_signatures k) (k_send_keys k) (k_received k) (k_recv_keys k) (k_early k) (k_stashed
    k) (k_generation k).
Definition set_checked_signatures (x : gmap Z (bytes * SignedEncryptionKey * bool)) (k : KeyManager) : KeyManager :=
  mkKeys (k_me k) (k_encryption k) (k_retired_encryption k) (k_server k) (k_present k) (k_room_peers k) (k_room k)
    (k_epoch k) (k_epoch_since k) (k_floors k) (k_floor k) (k_my_tracks k) (k_peers k) (k_owners k) (k_my_secret k)
    (k_wrapped_to k) (k_unwrappable k) x (k_send_keys k) (k_received k) (k_recv_keys k) (k_early k) (k_stashed k)
    (k_generation k).
Definition set_send_keys (x : gmap Z Key) (k : KeyManager) : KeyManager :=
  mkKeys (k_me k) (k_encryption k) (k_retired_encryption k) (k_server k) (k_present k) (k_room_peers k) (k_room k)
    (k_epoch k) (k_epoch_since k) (k_floors k) (k_floor k) (k_my_tracks k) (k_peers k) (k_owners k) (k_my_secret k)
    (k_wrapped_to k) (k_unwrappable k) (k_checked_signatures k) x (k_received k) (k_recv_keys k) (k_early k)
    (k_stashed k) (k_generation k).
Definition set_received (x : gmap (Z * Z) Received) (k : KeyManager) : KeyManager :=
  mkKeys (k_me k) (k_encryption k) (k_retired_encryption k) (k_server k) (k_present k) (k_room_peers k) (k_room k)
    (k_epoch k) (k_epoch_since k) (k_floors k) (k_floor k) (k_my_tracks k) (k_peers k) (k_owners k) (k_my_secret k)
    (k_wrapped_to k) (k_unwrappable k) (k_checked_signatures k) (k_send_keys k) x (k_recv_keys k) (k_early k)
    (k_stashed k) (k_generation k).
Definition set_recv_keys (x : gmap (Z * Z) (Z * Key)) (k : KeyManager) : KeyManager :=
  mkKeys (k_me k) (k_encryption k) (k_retired_encryption k) (k_server k) (k_present k) (k_room_peers k) (k_room k)
    (k_epoch k) (k_epoch_since k) (k_floors k) (k_floor k) (k_my_tracks k) (k_peers k) (k_owners k) (k_my_secret k)
    (k_wrapped_to k) (k_unwrappable k) (k_checked_signatures k) (k_send_keys k) (k_received k) x (k_early k)
    (k_stashed k) (k_generation k).
Definition set_early (x : gmap (Z * Z) (Z * bytes)) (k : KeyManager) : KeyManager :=
  mkKeys (k_me k) (k_encryption k) (k_retired_encryption k) (k_server k) (k_present k) (k_room_peers k) (k_room k)
    (k_epoch k) (k_epoch_since k) (k_floors k) (k_floor k) (k_my_tracks k) (k_peers k) (k_owners k) (k_my_secret k)
    (k_wrapped_to k) (k_unwrappable k) (k_checked_signatures k) (k_send_keys k) (k_received k) (k_recv_keys k) x
    (k_stashed k) (k_generation k).
Definition set_stashed (x : option (RoomId * Epoch * list Peer)) (k : KeyManager) : KeyManager :=
  mkKeys (k_me k) (k_encryption k) (k_retired_encryption k) (k_server k) (k_present k) (k_room_peers k) (k_room k)
    (k_epoch k) (k_epoch_since k) (k_floors k) (k_floor k) (k_my_tracks k) (k_peers k) (k_owners k) (k_my_secret k)
    (k_wrapped_to k) (k_unwrappable k) (k_checked_signatures k) (k_send_keys k) (k_received k) (k_recv_keys k)
    (k_early k) x (k_generation k).
Definition set_generation (x : Z) (k : KeyManager) : KeyManager :=
  mkKeys (k_me k) (k_encryption k) (k_retired_encryption k) (k_server k) (k_present k) (k_room_peers k) (k_room k)
    (k_epoch k) (k_epoch_since k) (k_floors k) (k_floor k) (k_my_tracks k) (k_peers k) (k_owners k) (k_my_secret k)
    (k_wrapped_to k) (k_unwrappable k) (k_checked_signatures k) (k_send_keys k) (k_received k) (k_recv_keys k)
    (k_early k) (k_stashed k) x.

(* @src/crates/throcc-client-core/src/keys.rs 113-147 KeyManager::new *)
Definition keys_new (me : UserId) (encryption : Private) (server : bytes) (floors : Floors) (now : Z) : KeyManager :=
  mkKeys me encryption None server ∅ [] None 0 now floors None None ∅ ∅ None ∅ ∅ ∅ ∅ ∅ ∅ ∅ None 0.
End State.
Arguments KeyManager : clear implicits.
