(* ===== verification/Keys.v ===== *)
(** * Sender keys: the key manager's operations (throcc-client-core, keys.rs)

    HPKE, Ed25519 and HKDF are the parameters of [Crypto].  What the code draws or reads
    around it is an argument: [secret] is [random::<32>()], [unix_now] the wall clock (none
    when it is before 1970), [now] the monotonic clock. *)
From S2P Require Import Prelude Ordered Ids Frame Messages Crypto Floors KeysState.
Open Scope Z_scope.

(* @src/crates/throcc-client-core/src/keys.rs 627-629 track_ids *)
Definition track_ids (t : Tracks) : list MediaId := tr_mic t :: concat ((fun s => [st_video s; st_audio s]) <$> tr_shares t).

Section Keys.
Context {Private Key : Type}.
Context (valid_key : bytes -> bool) (verify_strict : bytes -> bytes -> bytes -> bool).
Context (is_public is_encapped : bytes -> bool)
  (seal_auth : Private -> bytes -> bytes -> bytes -> option (bytes * bytes))
  (open_auth : Private -> bytes -> bytes -> bytes -> bytes -> option bytes).
Context (hkdf16 : bytes -> bytes -> Key).

Abbreviation KM := (KeyManager Private Key).

(** ** Presence *)

(* @src/crates/throcc-client-core/src/keys.rs 157-168 KeyManager::set_presence *)
Definition set_presence (user : UserId) (room : option RoomId) (k : KM) : bool * KM :=
  let shown before k := (bool_decide (user <> k_me k) && bool_decide (is_Some (k_room k))
                           && negb (Bool.eqb (bool_decide (before = k_room k)) (bool_decide (room = k_room k))), k) in
  match room with
  | Some r =>
      if (MAX_SIGNED_IN <=? Z.of_nat (size (k_present k))) && negb (bool_decide (is_Some (k_present k !! user)))
      then (false, k)
      else shown (k_present k !! user) (set_present (<[user := r]> (k_present k)) k)
  | None => shown (k_present k !! user) (set_present (delete user (k_present k)) k)
  end.

(* @src/crates/throcc-client-core/src/keys.rs 179-186 KeyManager::trusted_room_peers *)
Definition trusted_room_peers (k : KM) : list Peer := filter (fun p => is_Some (k_peers k !! pe_user p)) (k_room_peers k).

(* @src/crates/throcc-client-core/src/keys.rs 188-193 KeyManager::replace_encryption *)
Definition replace_encryption (encryption : Private) (now : Z) (k : KM) : KM :=
  set_retired_encryption (Some (k_encryption k, now + RETIRED_ENCRYPTION_KEPT)) (set_encryption encryption k).

(** ** Whom to trust *)

(* @src/crates/throcc-client-core/src/keys.rs 345-354 KeyManager::clashing_tracks *)
Definition clashing_tracks (peers : list Peer) (k : KM) : bool :=
  let others := filter (fun p => pe_user p <> k_me k) peers in
  let theirs := concat ((fun p => track_ids (pe_tracks p)) <$> others) in
  let mine := from_option track_ids [] (k_my_tracks k) in
  negb (bool_decide (NoDup (pe_user <$> others))) || negb (bool_decide (NoDup (mine ++ theirs))).

(** The message is rebuilt from the server and the user, and a check is remembered for the
    keys it was made with. *)
(* @src/crates/throcc-client-core/src/keys.rs 393-416 KeyManager::signed_by_identity *)
Definition signed_by_identity (peer : Peer) (k : KM) : bool * KM :=
  let check :=
    let signed := pe_encryption_key peer in
    let message := encryption_key_message (k_server k) (pe_user peer) (ek_not_after signed) (ek_key signed) in
    let holds := verify valid_key verify_strict (pe_identity_key peer) message (ek_sig signed) in
    (holds, set_checked_signatures (<[pe_user peer := (pe_identity_key peer, signed, holds)]> (k_checked_signatures k)) k) in
  match k_checked_signatures k !! pe_user peer with
  | Some (identity_key, encryption_key, holds) =>
      if decide ((identity_key, encryption_key) = (pe_identity_key peer, pe_encryption_key peer)) then (holds, k) else check
  | None => check
  end.

Definition shown_in (room : RoomId) (p : Peer) (k : KM) : Prop := pe_user p <> k_me k /\ k_present k !! pe_user p = Some room.
#[export] Instance shown_in_dec room p k : Decision (shown_in room p k).
Proof. unfold shown_in. apply _. Defined.

(** One turn of the loop over the peers shown. *)
(* @src/crates/throcc-client-core/src/keys.rs 372-391! KeyManager::trusted_peers *)
Definition trust_peer (unix_now : Z) (acc : gmap Z KeyPeer * list KeyNotice * KM) (peer : Peer) : gmap Z KeyPeer * list KeyNotice * KM :=
  let '(trusted, notices, k) := acc in
  let signed := pe_encryption_key peer in
  let bad := (trusted, notices ++ [BadEncryptionKey (pe_user peer)]) in
  if ek_not_after signed <=? unix_now then (bad, k)
  else
    let '(holds, k) := signed_by_identity peer k in
    if negb holds then (bad, k)
    else if bool_decide (k_unwrappable k !! pe_user peer = Some (ek_key signed)) then (trusted, notices, k)
    else (<[pe_user peer := mkKeyPeer (pe_identity_key peer) (ek_key signed) (pe_tracks peer)]> trusted, notices, k).

(* @src/crates/throcc-client-core/src/keys.rs 356-391 KeyManager::trusted_peers *)
Definition trusted_peers (unix_now : option Z) (room : RoomId) (peers : list Peer) (k : KM) : gmap Z KeyPeer * list KeyNotice * KM :=
  let listed (user : UserId) := user ∈ pe_user <$> peers in
  let k := set_checked_signatures (filter (fun '(user, _) => listed user) (k_checked_signatures k)) k in
  let k := set_unwrappable (filter (fun '(user, _) => listed user) (k_unwrappable k)) k in
  let shown := filter (fun p => shown_in room p k) peers in
  foldl (trust_peer (default 0 unix_now)) (∅, [], k) shown.

(** ** Epochs and our secret *)

(* @src/crates/throcc-client-core/src/keys.rs 565-572 KeyManager::retire_received *)
Definition retire_received (now : Z) (which : UserId -> Epoch -> bool) (k : KM) : KM :=
  set_received (map_imap (fun '(from, epoch) r =>
    Some (if which from epoch && bool_decide (rc_retire_at r = None) then mkReceived (rc_secret r) (Some (now + OLD_KEY_GRACE)) else r))
    (k_received k)) k.

(* @src/crates/throcc-client-core/src/keys.rs 418-436 KeyManager::start_epoch *)
Definition start_epoch (secret : bytes) (epoch : Epoch) (now : Z) (k : KM) : KM :=
  let k :=
    if decide (epoch <> k_epoch k) then
      let k := retire_received now (fun _ old => old <? epoch) k in
      let k := set_epoch_since now (set_epoch epoch k) in
      match k_room k with Some room => set_floors (floors_raise (k_me k) room epoch (k_floors k)) k | None => k end
    else k in
  let k := set_send_keys (collect_map ((fun id => (id, track_key hkdf16 secret id)) <$> from_option track_ids [] (k_my_tracks k))) k in
  set_wrapped_to ∅ (set_my_secret (Some secret) k).

(* @src/crates/throcc-client-core/src/keys.rs 438-446 KeyManager::context *)
Definition context (room : RoomId) (epoch : Epoch) (from to : UserId) (k : KM) : WrapContext :=
  mkWrapContext (k_server k) room epoch from to.

(* @src/crates/throcc-client-core/src/keys.rs 448-452 KeyManager::below_floor *)
Definition below_floor (epoch : Epoch) (k : KM) : bool :=
  match k_floor k with Some floor => epoch <=? floor | None => false end || (Z.min (epoch + 1) u32_max <? k_epoch k).

(** Each peer that lacks our secret, in the order of the users, with what HPKE makes of it. *)
(* @src/crates/throcc-client-core/src/keys.rs 462-478! KeyManager::wrap_for_new_peers *)
Definition wrap_attempts (room : RoomId) (secret : bytes) (k : KM) : list (UserId * PublicKey * (bytes + HpkeError)) :=
  omap (fun '(user, peer) =>
    if decide ((user, kp_encryption_key peer) ∈ k_wrapped_to k) then None
    else Some (user, kp_encryption_key peer,
               wrap is_public seal_auth (k_encryption k) (kp_encryption_key peer) (context room (k_epoch k) (k_me k) user k) secret))
    (in_key_order (k_peers k)).

Definition wrapped_in (attempts : list (UserId * PublicKey * (bytes + HpkeError))) : list (UserId * bytes) :=
  omap (fun '(user, _, r) => match r with inl blob => Some (user, blob) | inr _ => None end) attempts.
Definition refused_in (attempts : list (UserId * PublicKey * (bytes + HpkeError))) : list (UserId * PublicKey) :=
  omap (fun '(user, key, r) => match r with inl _ => None | inr _ => Some (user, key) end) attempts.
Definition leave_out (refused : list (UserId * PublicKey)) (k : KM) : KM :=
  foldl (fun k '(user, key) =>
    set_owners (filter (fun '(_, owner) => owner <> user) (k_owners k))
      (set_peers (delete user (k_peers k)) (set_unwrappable (<[user := key]> (k_unwrappable k)) k))) k refused.

(* @src/crates/throcc-client-core/src/keys.rs 454-494 KeyManager::wrap_for_new_peers *)
Definition wrap_for_new_peers (room : RoomId) (k : KM) : option Request * list UserId * KM :=
  match k_my_secret k with
  | None => (None, [], k)
  | Some secret =>
      let attempts := wrap_attempts room secret k in
      let wrapped := wrapped_in attempts in
      let refused := refused_in attempts in
      let k := leave_out refused k in
      let k := set_wrapped_to (k_wrapped_to k ∪
                 list_to_set (omap (fun '(user, _) => p ← k_peers k !! user; Some (user, kp_encryption_key p)) wrapped)) k in
      (match wrapped with [] => None | _ => Some (PublishSenderKey (k_epoch k) wrapped) end, refused.*1, k)
  end.

(** ** Their secrets *)

(** The arm for a sender or an epoch the room state has not named. *)
(* @src/crates/throcc-client-core/src/keys.rs 525-530! KeyManager::sender_key_at *)
Definition hold_early (from : UserId) (epoch : Epoch) (wrapped : bytes) (arrived : Z) (k : KM) : KM :=
  if (Z.of_nat (size (k_early k)) <? MAX_EARLY) || bool_decide (is_Some (k_early k !! (from, epoch)))
  then set_early (<[(from, epoch) := (arrived, wrapped)]> (k_early k)) k
  else k.

(* @src/crates/throcc-client-core/src/keys.rs 512-563 KeyManager::sender_key_at *)
Definition sender_key_at (from : UserId) (epoch : Epoch) (wrapped : bytes) (arrived now : Z) (k : KM) : (unit + KeyError) * KM :=
  if below_floor epoch k then (inr Stale, k) else
  match k_room k, k_peers k !! from with
  | Some room, Some peer =>
      if k_epoch k <? epoch then (inl tt, hold_early from epoch wrapped arrived k) else
      let ends := k_epoch_since k + OLD_KEY_GRACE in
      if (epoch <? k_epoch k) && (ends <=? now) then (inr Stale, k) else
      let retire_at := if epoch <? k_epoch k then Some ends else None in
      let ctx := context room epoch from (k_me k) k in
      let open_with key := unwrap is_public is_encapped open_auth key (kp_encryption_key peer) ctx wrapped in
      match match open_with (k_encryption k), k_retired_encryption k with
            | inr _, Some (retired, _) => open_with retired
            | result, _ => result
            end with
      | inr e => (inr (Unwrap e), k)
      | inl secret =>
          let k := retire_received now (fun user old => bool_decide (user = from) && (old <? epoch)) k in
          let k := set_received (<[(from, epoch) := mkReceived secret retire_at]> (k_received k)) k in
          let k := set_recv_keys (filter (fun '((_, e), (owner, _)) => ~ (owner = from /\ e = epoch)) (k_recv_keys k)) k in
          (inl tt, set_generation (wrap64 (k_generation k + 1)) k)
      end
  | _, _ => (inl tt, hold_early from epoch wrapped arrived k)
  end.

(** A wrapped key of the right length. *)
(* @src/crates/throcc-client-core/src/keys.rs 496-510 KeyManager::sender_key *)
Definition sender_key (from : UserId) (epoch : Epoch) (wrapped : bytes) (now : Z) (k : KM) : (unit + KeyError) * KM :=
  if decide (length wrapped <> WRAPPED_BYTES) then (inr Length, k) else sender_key_at from epoch wrapped now now k.

(** ** Room states *)

(** The sender keys that arrived early are tried, in any order ([early] is a [HashMap]); the
    ones still too early are held again. *)
Definition try_early (now : Z) (entries : list (UserId * Epoch * (Z * bytes))) (k : KM) : KM :=
  foldl (fun k '((from, epoch), (arrived, wrapped)) =>
    if sat_sub now arrived <? OLD_KEY_GRACE then snd (sender_key_at from epoch wrapped arrived now k) else k) k entries.

(** Why a room state is refused as a whole. *)
Definition invalid_state (peers : list Peer) (k : KM) : option KeyNotice :=
  if MAX_ROOM_MEMBERS <? Z.of_nat (length peers) then Some TooManyPeers
  else if clashing_tracks peers k then Some ClashingTracks
  else None.

(** The trusted set of a room state, and what it makes us tell the user. *)
Definition judge (unix_now : option Z) (room : RoomId) (peers : list Peer) (k : KM) : gmap Z KeyPeer * list KeyNotice * KM :=
  match invalid_state peers k with
  | Some notice => (∅, if decide (k_room_peers k = peers) then [] else [notice], k)
  | None => trusted_peers unix_now room peers k
  end.

(** The peers that are gone or show another identity key. *)
Definition same_identity (trusted : gmap Z KeyPeer) (user : UserId) (old : KeyPeer) : bool :=
  match trusted !! user with Some new => bool_decide (kp_identity_key new = kp_identity_key old) | None => false end.
Definition departed (trusted : gmap Z KeyPeer) (k : KM) : gmap Z KeyPeer :=
  filter (fun '(user, old) => same_identity trusted user old = false) (k_peers k).

Definition owners_of (peers : gmap Z KeyPeer) : gmap Z Z :=
  collect_map (concat ((fun '(user, peer) => (fun id => (id, user)) <$> track_ids (kp_tracks peer)) <$> in_key_order peers)).
Definition peer_set (peers : gmap Z KeyPeer) : gset (Z * bytes) :=
  list_to_set ((fun '(user, peer) => (user, kp_encryption_key peer)) <$> map_to_list peers).

Definition accept_peers (room : RoomId) (peers : list Peer) (unix_now : option Z) (now : Z) (k : KM) : list KeyNotice * KM :=
  let '(trusted, notices, k) := judge unix_now room peers k in
  let k := set_room_peers peers k in
  let gone := departed trusted k in
  let k := retire_received now (fun from _ => bool_decide (is_Some (gone !! from))) k in
  (notices, set_owners (owners_of trusted) (set_peers trusted k)).

(* @src/crates/throcc-client-core/src/keys.rs 254-343 KeyManager::peers_changed *)
Definition peers_changed (secret : bytes) (unix_now : option Z) (room : RoomId) (epoch : Epoch) (peers : list Peer) (now : Z) (k : KM)
  : option Request * list KeyNotice * KM :=
  if decide (Some room <> k_room k) then
    let newer := match k_stashed k with Some (r, e, _) => bool_decide (r <> room) || (e <? epoch) | None => true end in
    (None, [], if newer then set_stashed (Some (room, epoch, peers)) k else k)
  else if epoch <? k_epoch k then (None, [], k)
  else
    let '(notices, k) := accept_peers room peers unix_now now k in
    let k := if bool_decide (epoch <> k_epoch k) || bool_decide (k_my_secret k = None) || bool_decide (peer_set (k_peers k) <> k_wrapped_to k)
             then start_epoch secret epoch now k else k in
    let '(request, unwrappable, k) := wrap_for_new_peers room k in
    let k := try_early now (map_to_list (k_early k)) (set_early ∅ k) in
    (request, notices ++ (BadEncryptionKey <$> unwrappable), set_generation (wrap64 (k_generation k + 1)) k).

(* @src/crates/throcc-client-core/src/keys.rs 170-177 KeyManager::reapply_peers *)
Definition reapply_peers (secret : bytes) (unix_now : option Z) (now : Z) (k : KM) : option Request * list KeyNotice * KM :=
  match k_room k with
  | None => (None, [], k)
  | Some room => peers_changed secret unix_now room (k_epoch k) (k_room_peers k) now k
  end.

(** What another room forgets. *)
(* @src/crates/throcc-client-core/src/keys.rs 213-222! KeyManager::apply_placement *)
Definition leave_room (room : option RoomId) (k : KM) : KM :=
  let k := set_room_peers [] (set_owners ∅ (set_peers ∅ (set_recv_keys ∅ (set_received ∅ k)))) in
  let k := set_epoch 0 (set_unwrappable ∅ k) in
  set_floor (r ← room; floors_get (k_floors k) (k_me k) r) k.

Definition in_room (room : option RoomId) (tracks : option Tracks) (k : KM) : KM :=
  set_wrapped_to ∅ (set_send_keys ∅ (set_my_secret None (set_my_tracks tracks (set_room room k)))).

(** A newer room state that waited for the placement. *)
(* @src/crates/throcc-client-core/src/keys.rs 243-250! KeyManager::apply_placement *)
Definition apply_stashed (secret : bytes) (unix_now : option Z) (room : RoomId) (epoch : Epoch) (now : Z) (k : KM)
  : option Request * list KeyNotice * KM :=
  let without := set_stashed None k in
  match k_stashed k with
  | Some (stashed_room, stashed_epoch, stashed_peers) =>
      if bool_decide (stashed_room = room) && (epoch <? stashed_epoch)
      then peers_changed secret unix_now room stashed_epoch stashed_peers now without
      else (None, [], without)
  | None => (None, [], without)
  end.

(** [secret] is drawn for the placement, [secret'] for a newer room state that waited for it. *)
(* @src/crates/throcc-client-core/src/keys.rs 200-252 KeyManager::apply_placement *)
Definition apply_placement (secret secret' : bytes) (unix_now : option Z) (room : option RoomId) (epoch : Epoch) (tracks : option Tracks)
    (peers : list Peer) (now : Z) (k : KM) : list Request * list KeyNotice * KM :=
  if bool_decide (is_Some room) && bool_decide (room = k_room k) && (epoch <? k_epoch k) then ([], [], k) else
  let k := if decide (room <> k_room k) then leave_room room k else k in
  let notices := if bool_decide (is_Some room) && below_floor epoch k then [OldEpoch] else [] in
  let k := in_room room tracks k in
  match room with
  | None => ([], notices, set_stashed None k)
  | Some room =>
      let '(first, more, k) := peers_changed secret unix_now room epoch peers now k in
      let '(later, more', k) := apply_stashed secret' unix_now room epoch now k in
      (option_list first ++ option_list later, notices ++ more ++ more', k)
  end.

(** ** Using the keys *)

(* @src/crates/throcc-client-core/src/keys.rs 574-577 KeyManager::send_key *)
Definition send_key (media_id : MediaId) (k : KM) : option (Epoch * Key) := key ← k_send_keys k !! media_id; Some (k_epoch k, key).

(* @src/crates/throcc-client-core/src/keys.rs 579-582 KeyManager::owner *)
Definition owner_of (media_id : MediaId) (k : KM) : option UserId := k_owners k !! media_id.

(* @src/crates/throcc-client-core/src/keys.rs 584-586 KeyManager::peer_tracks *)
Definition peer_tracks (user : UserId) (k : KM) : option Tracks := kp_tracks <$> k_peers k !! user.

(* @src/crates/throcc-client-core/src/keys.rs 588-606 KeyManager::recv_key *)
Definition recv_key (media_id : MediaId) (epoch : Epoch) (k : KM) : option Key * KM :=
  if below_floor epoch k then (None, k) else
  match owner_of media_id k with
  | None => (None, k)
  | Some owner =>
      let derive :=
        match k_received k !! (owner, epoch) with
        | None => (None, k)
        | Some received =>
            let key := track_key hkdf16 (rc_secret received) media_id in
            (Some key, set_recv_keys (<[(media_id, epoch) := (owner, key)]> (k_recv_keys k)) k)
        end in
      match k_recv_keys k !! (media_id, epoch) with
      | Some (cached_for, key) => if decide (cached_for = owner) then (Some key, k) else derive
      | None => derive
      end
  end.

Definition usable (now : Z) (r : Received) : bool := match rc_retire_at r with None => true | Some at_ => now <? at_ end.

(* @src/crates/throcc-client-core/src/keys.rs 608-624 KeyManager::tick *)
Definition keys_tick (now : Z) (k : KM) : KM :=
  let k := match k_retired_encryption k with
           | Some (_, until) => if until <=? now then set_retired_encryption None k else k
           | None => k
           end in
  let k := set_received (filter (fun '(_, r) => usable now r = true) (k_received k)) k in
  let received := k_received k in
  let k := set_recv_keys (filter (fun '((_, epoch), (owner, _)) => is_Some (received !! (owner, epoch))) (k_recv_keys k)) k in
  set_early (filter (fun '(_, (arrived, _)) => sat_sub now arrived < OLD_KEY_GRACE) (k_early k)) k.
End Keys.
