(* ===== verification/KeysFacts.v ===== *)
(** * Sender keys: invariants of the key manager *)
From S2P Require Import Prelude Ordered Ids Frame Messages Crypto Floors KeysState Keys.
Open Scope Z_scope.

Section Facts.
Context {Private Key : Type}.
Context (valid_key : bytes -> bool) (verify_strict : bytes -> bytes -> bytes -> bool).
Context (is_public is_encapped : bytes -> bool)
  (seal_auth : Private -> bytes -> bytes -> bytes -> option (bytes * bytes))
  (open_auth : Private -> bytes -> bytes -> bytes -> bytes -> option bytes).
Context (hkdf16 : bytes -> bytes -> Key).

Abbreviation KM := (KeyManager Private Key).

(** ** What the parts of the state mean *)

(** The keys a user presents carry a signature that binds them to this server and user. *)
Definition bound (server : bytes) (user : UserId) (identity_key encryption_key : PublicKey) : Prop :=
  exists not_after sig, verify valid_key verify_strict identity_key (encryption_key_message server user not_after encryption_key) sig = true.

(** A secret that opened for us, as [from]'s for this room and epoch. *)
Definition opened (k : KM) (room : RoomId) (from : UserId) (epoch : Epoch) (secret : bytes) : Prop :=
  exists private sender wrapped,
    unwrap is_public is_encapped open_auth private sender (mkWrapContext (k_server k) room epoch from (k_me k)) wrapped = inl secret.

(** [clock] is the latest time an operation was given. *)
Record keys_base (clock : Z) (k : KM) : Prop := {
  ko_checked : forall u i s h, k_checked_signatures k !! u = Some (i, s, h) ->
    h = verify valid_key verify_strict i (encryption_key_message (k_server k) u (ek_not_after s) (ek_key s)) (ek_sig s);
  ko_peers : forall u p, k_peers k !! u = Some p ->
    is_Some (k_room k) /\ u <> k_me k /\ bound (k_server k) u (kp_identity_key p) (kp_encryption_key p);
  ko_owners : forall m u, k_owners k !! m = Some u -> exists p, k_peers k !! u = Some p /\ m ∈ track_ids (kp_tracks p);
  ko_received : forall o e r, k_received k !! (o, e) = Some r ->
    (exists room, k_room k = Some room /\ opened k room o e (rc_secret r)) /\
    (forall f, k_floor k = Some f -> f < e) /\ e <= k_epoch k;
  ko_retire : forall o e r, k_received k !! (o, e) = Some r ->
    match rc_retire_at r with None => e = k_epoch k | Some at_ => at_ <= clock + OLD_KEY_GRACE /\ (e < k_epoch k -> at_ <= k_epoch_since k + OLD_KEY_GRACE) end;
  ko_recv : forall m e o key, k_recv_keys k !! (m, e) = Some (o, key) ->
    exists r, k_received k !! (o, e) = Some r /\ key = track_key hkdf16 (rc_secret r) m;
  ko_send : forall m key, k_send_keys k !! m = Some key -> exists s t, k_my_secret k = Some s /\ k_my_tracks k = Some t /\
    m ∈ track_ids t /\ key = track_key hkdf16 s m;
  ko_floors : forall room, k_room k = Some room -> k_epoch k <> 0 -> exists f, floors_get (k_floors k) (k_me k) room = Some f /\ k_epoch k <= f;
  ko_since : k_epoch_since k <= clock;
  ko_bounds : Z.of_nat (size (k_present k)) <= MAX_SIGNED_IN /\ Z.of_nat (size (k_early k)) <= MAX_EARLY;
  ko_epoch : 0 <= k_epoch k
}.

(** Between operations, a secret is there exactly in a room, and wrapped to exactly the trusted. *)
Definition keys_ok (clock : Z) (k : KM) : Prop :=
  keys_base clock k /\ k_wrapped_to k = match k_my_secret k with Some _ => peer_set (k_peers k) | None => ∅ end /\
  (is_Some (k_room k) <-> is_Some (k_my_secret k)).

(** ** Lookups *)

Lemma lookup_retire now which (k : KM) o e : k_received (retire_received now which k) !! (o, e) =
  (fun r => if which o e && bool_decide (rc_retire_at r = None) then mkReceived (rc_secret r) (Some (now + OLD_KEY_GRACE)) else r) <$> k_received k !! (o, e).
Proof. unfold retire_received. cbn. rewrite map_lookup_imap. by destruct (k_received k !! (o, e)). Qed.

(** Every received secret survives retiring, with the same bytes. *)
Lemma retire_Some now which (k : KM) o e r : k_received (retire_received now which k) !! (o, e) = Some r ->
  exists r0, k_received k !! (o, e) = Some r0 /\ rc_secret r = rc_secret r0 /\
    ((rc_retire_at r = rc_retire_at r0 /\ (rc_retire_at r0 = None -> which o e = false)) \/
     (which o e = true /\ rc_retire_at r0 = None /\ rc_retire_at r = Some (now + OLD_KEY_GRACE))).
Proof.
  rewrite lookup_retire. destruct (k_received k !! (o, e)) as [r0|]; [|done]. cbn. intros [= <-]. exists r0. split; [done|].
  destruct (which o e); cbn; [case_bool_decide|]; cbn; (split; [done|]); [by right|left..]; split; try done.
Qed.
Lemma retire_back now which (k : KM) o e r0 : k_received k !! (o, e) = Some r0 ->
  exists r, k_received (retire_received now which k) !! (o, e) = Some r /\ rc_secret r = rc_secret r0.
Proof. intros H. rewrite lookup_retire, H. cbn. eexists. split; [done|]. by destruct (_ && _). Qed.

Lemma elem_of_peer_set peers u key : (u, key) ∈ peer_set peers <-> exists p, peers !! u = Some p /\ kp_encryption_key p = key.
Proof.
  unfold peer_set. rewrite elem_of_list_to_set, list_elem_of_fmap. split.
  - intros ([u' p] & [= -> ->] & H%elem_of_map_to_list). by exists p.
  - intros (p & H & <-). exists (u, p). split; [done|]. by apply elem_of_map_to_list.
Qed.

Lemma peer_set_empty peers : peer_set peers = ∅ -> peers = ∅.
Proof.
  intros E. apply map_empty. intros u. destruct (peers !! u) as [p|] eqn:Hp; [|done]. exfalso.
  assert ((u, kp_encryption_key p) ∈ peer_set peers) as H by (apply elem_of_peer_set; by exists p). rewrite E in H. set_solver.
Qed.

Lemma owners_of_Some peers m u : owners_of peers !! m = Some u -> exists p, peers !! u = Some p /\ m ∈ track_ids (kp_tracks p).
Proof.
  intros H%collect_map_Some%list_elem_of_In. unfold owners_of in H. apply in_concat in H as (l & Hl & Hm). apply list_elem_of_In in Hl, Hm.
  apply list_elem_of_fmap in Hl as ([u' p] & -> & Hp%elem_of_in_key_order). apply list_elem_of_fmap in Hm as (id & [= -> ->] & Hid). by exists p.
Qed.

(** ** Signatures and trust *)

(** A remembered check is the check. *)
Lemma signed_by_identity_spec clock peer (k : KM) : keys_base clock k ->
  let signed := pe_encryption_key peer in
  let '(holds, k') := signed_by_identity valid_key verify_strict peer k in
  holds = verify valid_key verify_strict (pe_identity_key peer)
            (encryption_key_message (k_server k) (pe_user peer) (ek_not_after signed) (ek_key signed)) (ek_sig signed) /\
  exists c, k' = set_checked_signatures c k /\ keys_base clock k'.
Proof.
  intros Hok. cbv zeta. unfold signed_by_identity. set (holds := verify _ _ _ _ _).
  assert (keys_base clock (set_checked_signatures (<[pe_user peer := (pe_identity_key peer, pe_encryption_key peer, holds)]> (k_checked_signatures k)) k)) as Hok'.
  { destruct Hok. split; cbn; try done. intros u i s h [[<- [= <- <- <-]]|[_ ?]]%lookup_insert_Some; [done|by apply ko_checked0]. }
  assert (set_checked_signatures (k_checked_signatures k) k = k) as Esame by (by destruct k).
  destruct (k_checked_signatures k !! pe_user peer) as [[[i s] h]|] eqn:E; [destruct (decide _) as [[= -> ->]|]|].
  - split; [by apply (ko_checked _ _ Hok) in E|]. exists (k_checked_signatures k). by rewrite Esame.
  - split; [done|]. by eexists.
  - split; [done|]. by eexists.
Qed.

(** Why a peer of a room state is trusted. *)
Definition trustworthy (unix_now : option Z) (room : RoomId) (peers : list Peer) (k : KM) (u : UserId) (kp : KeyPeer) : Prop :=
  exists p, p ∈ peers /\ pe_user p = u /\ u <> k_me k /\ k_present k !! u = Some room /\
    default 0 unix_now < ek_not_after (pe_encryption_key p) /\
    verify valid_key verify_strict (pe_identity_key p)
      (encryption_key_message (k_server k) u (ek_not_after (pe_encryption_key p)) (ek_key (pe_encryption_key p)))
      (ek_sig (pe_encryption_key p)) = true /\
    kp = mkKeyPeer (pe_identity_key p) (ek_key (pe_encryption_key p)) (pe_tracks p).

(** [k'] differs from [k] only in what is remembered of checks and refusals. *)
Definition same_but_memory (k k' : KM) : Prop := exists c u, k' = set_unwrappable u (set_checked_signatures c k).

Lemma memory_ok clock (k k' : KM) c u : keys_base clock k -> k' = set_unwrappable u (set_checked_signatures c k) ->
  (forall x i s h, c !! x = Some (i, s, h) -> h = verify valid_key verify_strict i (encryption_key_message (k_server k) x (ek_not_after s) (ek_key s)) (ek_sig s)) ->
  keys_base clock k'.
Proof. intros [] -> Hc. by split. Qed.

Lemma judge_spec clock unix_now room peers (k : KM) : keys_base clock k ->
  let '(trusted, notices, k') := judge valid_key verify_strict unix_now room peers k in
  (forall u kp, trusted !! u = Some kp -> trustworthy unix_now room peers k u kp) /\
  (is_Some (invalid_state peers k) -> trusted = ∅) /\ same_but_memory k k' /\ keys_base clock k'.
Proof.
  intros Hok. unfold judge. destruct (invalid_state peers k) as [notice|].
  { split; [by intros u kp ?%lookup_empty_Some|]. split; [done|]. split; [|done]. exists (k_checked_signatures k), (k_unwrappable k). by destruct k. }
  unfold trusted_peers. set (k1 := set_unwrappable _ _). set (shown := filter _ peers).
  assert (same_but_memory k k1) as Hsame by (by eexists _, _).
  assert (keys_base clock k1) as Hok1.
  { eapply memory_ok; [exact Hok|done|]. intros x i s h [H _]%map_lookup_filter_Some. by apply (ko_checked _ _ Hok) in H. }
  assert (forall p, p ∈ shown -> p ∈ peers /\ pe_user p <> k_me k /\ k_present k !! pe_user p = Some room) as Hshown.
  { intros p [[? ?] ?]%list_elem_of_filter. done. }
  clearbody k1 shown.
  assert (forall trusted notices k1, same_but_memory k k1 -> keys_base clock k1 -> (forall u kp, trusted !! u = Some kp -> trustworthy unix_now room peers k u kp) ->
    let '(trusted', _, k') := foldl (trust_peer valid_key verify_strict (default 0 unix_now)) (trusted, notices, k1) shown in
    (forall u kp, trusted' !! u = Some kp -> trustworthy unix_now room peers k u kp) /\ same_but_memory k k' /\ keys_base clock k') as Hfold.
  { clear k1 Hsame Hok1. induction shown as [|p shown IH]; intros trusted notices k1 Hsame Hok1 Ht; [done|]. cbn [foldl].
    destruct (Hshown p) as (Hp & Hme & Hpres); [set_solver|].
    assert (forall p, p ∈ shown -> p ∈ peers /\ pe_user p <> k_me k /\ k_present k !! pe_user p = Some room) as Hshown' by (intros; apply Hshown; set_solver).
    specialize (IH Hshown'). unfold trust_peer at 2. destruct (Z.leb_spec (ek_not_after (pe_encryption_key p)) (default 0 unix_now)); [by apply IH|].
    pose proof (signed_by_identity_spec clock p k1 Hok1) as Hs. cbv zeta in Hs. destruct (signed_by_identity _ _ p k1) as [holds k2].
    destruct Hs as (Hh & c & -> & Hok2). destruct Hsame as (c0 & u0 & ->).
    assert (same_but_memory k (set_checked_signatures c (set_unwrappable u0 (set_checked_signatures c0 k)))) as Hsame by (by exists c, u0).
    destruct holds; cbn [negb]; [|by apply IH]. case_bool_decide; [by apply IH|]. apply IH; [done..|].
    intros u kp [[<- <-]|[_ ?]]%lookup_insert_Some; [|by apply Ht]. exists p. by split_and!. }
  specialize (Hfold ∅ [] k1 Hsame Hok1 ltac:(by intros ? ? ?%lookup_empty_Some)). destruct (foldl _ _ shown) as [[trusted notices] k'].
  destruct Hfold as (? & ? & ?). split; [done|]. split; [by intros []|done].
Qed.

(** ** The steps of a room state *)

Lemma base_later clock now (k : KM) : keys_base clock k -> clock <= now -> keys_base now k.
Proof.
  intros [] Hle. split; try done; [|lia]. intros o e r Hr. specialize (ko_retire0 o e r Hr). destruct (rc_retire_at r); [|done]. split; [lia|tauto].
Qed.

Lemma retire_ok clock now which (k : KM) : keys_base clock k -> clock <= now ->
  keys_base now (retire_received now which k).
Proof.
  intros Hok Hle. apply (base_later _ now) in Hok; [|done]. destruct Hok. split; try done.
  - intros o e r (r0 & Hr & Es & _)%retire_Some. rewrite Es. destruct (ko_received0 o e r0 Hr) as ((room & ? & ?) & ? & ?). split; [by exists room|done].
  - intros o e r (r0 & Hr & _ & H)%retire_Some. specialize (ko_retire0 o e r0 Hr). destruct H as [[-> _]|(_ & En & ->)]; [done|]. rewrite En in ko_retire0.
    cbn. split; [lia|]. intros. lia.
  - intros m e o key H. destruct (ko_recv0 m e o key H) as (r0 & Hr & ->). destruct (retire_back now which k o e r0 Hr) as (r & ? & Es). exists r. by rewrite Es.
Qed.

Lemma accept_ok clock now unix_now room peers (k : KM) : keys_base clock k -> clock <= now -> k_room k = Some room ->
  let '(notices, k') := accept_peers valid_key verify_strict room peers unix_now now k in
  keys_base now k' /\ (forall u kp, k_peers k' !! u = Some kp -> trustworthy unix_now room peers k u kp) /\
  (is_Some (invalid_state peers k) -> k_peers k' = ∅) /\
  k_room k' = k_room k /\ k_epoch k' = k_epoch k /\ k_my_secret k' = k_my_secret k /\ k_wrapped_to k' = k_wrapped_to k /\
  k_me k' = k_me k /\ k_server k' = k_server k /\ k_encryption k' = k_encryption k /\ k_my_tracks k' = k_my_tracks k /\
  k_floor k' = k_floor k /\ k_present k' = k_present k /\ k_stashed k' = k_stashed k /\ k_floors k' = k_floors k.
Proof.
  intros Hok Hle Hroom. unfold accept_peers. pose proof (judge_spec clock unix_now room peers k Hok) as Hj.
  destruct (judge _ _ unix_now room peers k) as [[trusted notices] k1]. destruct Hj as (Ht & Hinv & (c & u & ->) & Hok1).
  set (k1 := set_unwrappable u (set_checked_signatures c k)) in *.
  pose proof (retire_ok clock now (fun from _ => bool_decide (is_Some (departed trusted (set_room_peers peers k1) !! from))) k1 Hok1 Hle) as Hok2.
  split; [|split_and!; try done].
  destruct Hok2. split; try done.
  - intros v p Hp. specialize (Ht v p Hp) as (q & _ & <- & ? & _ & _ & Hv & ->). split; [exists room; exact Hroom|]. split; [done|]. by eexists _, _.
  - intros m v Hm%owners_of_Some. done.
Qed.

Lemma start_epoch_ok clock secret epoch now (k : KM) : keys_base clock k -> clock <= now -> k_epoch k <= epoch ->
  let k' := start_epoch hkdf16 secret epoch now k in
  keys_base now k' /\ k_epoch k' = epoch /\ k_my_secret k' = Some secret /\ k_wrapped_to k' = ∅ /\ k_peers k' = k_peers k /\
  k_room k' = k_room k /\ k_me k' = k_me k /\ k_server k' = k_server k /\ k_encryption k' = k_encryption k /\
  k_present k' = k_present k /\ k_stashed k' = k_stashed k /\ covers (fl_at (k_floors k')) (fl_at (k_floors k)) /\ k_floor k' = k_floor k.
Proof.
  intros Hok Hle He. unfold start_epoch.
  set (k1 := if decide (epoch <> k_epoch k) then _ else k).
  assert (keys_base now k1 /\ k_epoch k1 = epoch /\ k_peers k1 = k_peers k /\ k_room k1 = k_room k /\ k_me k1 = k_me k /\ k_server k1 = k_server k /\
    k_encryption k1 = k_encryption k /\ k_present k1 = k_present k /\ k_stashed k1 = k_stashed k /\ covers (fl_at (k_floors k1)) (fl_at (k_floors k)) /\
    k_floor k1 = k_floor k) as H1.
  { unfold k1. destruct (decide (epoch <> k_epoch k)) as [Hne|Heq]; [|split; [by apply (base_later clock)|]; split_and!; (done || lia)].
    pose proof (retire_ok clock now (fun _ old => old <? epoch) k Hok Hle) as Hr.
    assert (forall o e r, k_received (retire_received now (fun _ old => old <? epoch) k) !! (o, e) = Some r ->
      e < epoch /\ exists at_, rc_retire_at r = Some at_ /\ at_ <= now + OLD_KEY_GRACE) as Hret.
    { intros o e r H. pose proof (ko_received _ _ Hr o e r H) as (_ & _ & Hle'). cbn in Hle'. split; [lia|].
      apply retire_Some in H as (r0 & H0 & _ & [[-> Hno]|(_ & _ & ->)]); [|eexists; split; [done|lia]].
      pose proof (ko_retire _ _ Hok o e r0 H0) as Hx. destruct (rc_retire_at r0) as [at_|]; [exists at_; split; [done|lia]|].
      specialize (Hno eq_refl). apply Z.ltb_ge in Hno. lia. }
    assert (forall k2 : KM, keys_base now k2 -> k_received k2 = k_received (retire_received now (fun _ old => old <? epoch) k) ->
      forall fl, (forall room, k_room k2 = Some room -> exists f, floors_get fl (k_me k2) room = Some f /\ epoch <= f) -> 0 <= epoch ->
      keys_base now (set_floors fl (set_epoch_since now (set_epoch epoch k2)))) as Hset.
    { intros k2 H2 E fl Hfl H0. destruct H2. rewrite <- E in Hret. split; try done; cbn [k_received k_epoch k_room k_floor k_epoch_since k_floors k_me set_floors set_epoch set_epoch_since].
      - intros o e r H. destruct (Hret o e r H) as [? _]. destruct (ko_received0 o e r H) as (? & ? & ?). split_and!; [done|done|lia].
      - intros o e r H. destruct (Hret o e r H) as (? & at_ & -> & ?). split; [done|]. intros. lia.
      - intros room Hroom _. by apply Hfl.
    }
    pose proof (ko_epoch _ _ Hok). destruct (k_room k) as [room|] eqn:Eroom.
    - cbn [k_room set_epoch_since set_epoch retire_received set_received]. rewrite Eroom.
      split; [|cbn; split_and!; try done].
      apply (Hset (retire_received now (fun _ old => old <? epoch) k) Hr eq_refl); [|lia].
      cbn. intros room' [= <-]%(eq_trans (eq_sym Eroom)). apply raise_get.
    - cbn [k_room set_epoch_since set_epoch retire_received set_received]. rewrite Eroom.
      split; [|cbn; split_and!; try done].
      replace (set_epoch_since now (set_epoch epoch (retire_received now (fun _ old => old <? epoch) k)))
        with (set_floors (k_floors k) (set_epoch_since now (set_epoch epoch (retire_received now (fun _ old => old <? epoch) k)))) by (by destruct k).
      apply (Hset (retire_received now (fun _ old => old <? epoch) k) Hr eq_refl); [|lia].
      cbn. intros room' Hr2. congruence. }
  destruct H1 as (Hb & E1 & E2 & E3 & E4 & E5 & E6 & E7 & E8 & E9 & E10). cbv zeta. split; [|cbn; split_and!; done].
  destruct Hb. split; try done. cbn [k_send_keys k_my_secret k_my_tracks set_wrapped_to set_my_secret set_send_keys].
  intros m key Hm%collect_map_Some. apply list_elem_of_fmap in Hm as (id & [= -> ->] & Hid).
  destruct (k_my_tracks k1) as [t|]; cbn in Hid; [|set_solver]. by exists secret, t.
Qed.

(** ** Wrapping *)

Abbreviation attempts := (wrap_attempts is_public seal_auth).
(** What HPKE makes of our secret for a peer. *)
Definition wrap_to (room : RoomId) (secret : bytes) (k : KM) (u : UserId) (p : KeyPeer) : bytes + HpkeError :=
  wrap is_public seal_auth (k_encryption k) (kp_encryption_key p) (context room (k_epoch k) (k_me k) u k) secret.

Lemma attempts_none room secret (k : KM) : k_wrapped_to k = peer_set (k_peers k) -> attempts room secret k = [].
Proof.
  intros Hw. unfold wrap_attempts. rewrite Hw. assert (forall q, q ∈ in_key_order (k_peers k) -> (q.1, kp_encryption_key q.2) ∈ peer_set (k_peers k)) as Hall.
  { intros [u p] Hq%elem_of_in_key_order. apply elem_of_peer_set. by exists p. }
  induction (in_key_order (k_peers k)) as [|[u p] l IH]; [done|]. cbn [omap list_omap]. specialize (Hall (u, p)) as Hu. rewrite decide_True by (apply Hu; set_solver).
  apply IH. intros q Hq. apply Hall. set_solver.
Qed.

Lemma attempts_all room secret (k : KM) : k_wrapped_to k = ∅ ->
  attempts room secret k = (fun '(u, p) => (u, kp_encryption_key p, wrap_to room secret k u p)) <$> in_key_order (k_peers k).
Proof.
  intros Hw. unfold wrap_attempts. rewrite Hw. induction (in_key_order (k_peers k)) as [|[u p] l IH]; [done|]. cbn [omap list_omap].
  rewrite decide_False by set_solver. rewrite fmap_cons. by f_equal.
Qed.

Lemma elem_of_wrapped room secret (k : KM) u blob : k_wrapped_to k = ∅ ->
  (u, blob) ∈ wrapped_in (attempts room secret k) <-> exists p, k_peers k !! u = Some p /\ wrap_to room secret k u p = inl blob.
Proof.
  intros Hw. rewrite attempts_all by done. unfold wrapped_in. rewrite list_elem_of_omap. split.
  - intros ([[u' key] r] & H & Hr). apply list_elem_of_fmap in H as ([u1 p] & [= -> -> ->] & Hp%elem_of_in_key_order).
    destruct (wrap_to room secret k u1 p) as [b|] eqn:E; [|done]. injection Hr as -> ->. by exists p.
  - intros (p & Hp & E). exists (u, kp_encryption_key p, inl blob). split; [|done]. apply list_elem_of_fmap. exists (u, p).
    rewrite E. split; [done|]. by apply elem_of_in_key_order.
Qed.
Lemma elem_of_refused room secret (k : KM) u : k_wrapped_to k = ∅ ->
  u ∈ (refused_in (attempts room secret k)).*1 <-> exists p e, k_peers k !! u = Some p /\ wrap_to room secret k u p = inr e.
Proof.
  intros Hw. rewrite attempts_all by done. unfold refused_in. rewrite list_elem_of_fmap. setoid_rewrite list_elem_of_omap. split.
  - intros ([u0 key0] & -> & [[u' key] r] & H & Hr). apply list_elem_of_fmap in H as ([u1 p] & [= -> -> ->] & Hp%elem_of_in_key_order).
    destruct (wrap_to room secret k u1 p) as [|e] eqn:E; [done|]. injection Hr as <- <-. by exists p, e.
  - intros (p & e & Hp & E). exists (u, kp_encryption_key p). split; [done|]. exists (u, kp_encryption_key p, inr e). split; [|done].
    apply list_elem_of_fmap. exists (u, p). rewrite E. split; [done|]. by apply elem_of_in_key_order.
Qed.

(** Leaving out the refused. *)
Lemma leave_out_all (l : list (UserId * bytes)) (k : KM) : exists unw, leave_out l k =
  set_owners (filter (fun '(_, owner) => owner ∉ l.*1) (k_owners k)) (set_peers (filter (fun '(user, _) => user ∉ l.*1) (k_peers k)) (set_unwrappable unw k)).
Proof.
  unfold leave_out.
  revert k. induction l as [|[u key] l IH]; intros k; cbn [foldl].
  { exists (k_unwrappable k). rewrite !map_filter_id by set_solver. by destruct k. }
  destruct (IH (set_owners (filter (fun '(_, owner) => owner <> u) (k_owners k))
           (set_peers (delete u (k_peers k)) (set_unwrappable (<[u := key]> (k_unwrappable k)) k)))) as [unw ->].
  exists unw. cbn [k_owners k_peers set_owners set_peers set_unwrappable].
  rewrite map_filter_filter. replace (filter (fun '(user, _) => user ∉ l.*1) (delete u (k_peers k))) with (filter (fun '(user, _) => user ∉ ((u, key) :: l).*1) (k_peers k)).
  2:{ apply map_eq. intros i. apply option_eq. intros v. rewrite !map_lookup_filter_Some, lookup_delete_Some, fmap_cons, not_elem_of_cons. cbn [fst]. naive_solver. }
  replace (filter (fun '(i, x) => (fun '(_, owner) => owner ∉ l.*1) (i, x) /\ (fun '(_, owner) => owner <> u) (i, x)) (k_owners k))
    with (filter (fun '(_, owner) => owner ∉ ((u, key) :: l).*1) (k_owners k)); [done|].
  apply map_eq. intros i. apply option_eq. intros v. rewrite !map_lookup_filter_Some, fmap_cons, not_elem_of_cons. cbn [fst]. naive_solver.
Qed.

Definition blobs_of (r : option Request) : list (UserId * bytes) := match r with Some (PublishSenderKey _ wrapped) => wrapped | _ => [] end.

Lemma wrap_ok now room secret (k : KM) : keys_base now k -> k_my_secret k = Some secret ->
  (k_wrapped_to k = ∅ \/ k_wrapped_to k = peer_set (k_peers k)) ->
  let '(request, refused, k') := wrap_for_new_peers is_public seal_auth room k in
  keys_base now k' /\ k_wrapped_to k' = peer_set (k_peers k') /\
  (forall u p, k_peers k' !! u = Some p -> k_peers k !! u = Some p) /\
  (k_wrapped_to k = peer_set (k_peers k) -> request = None /\ k_peers k' = k_peers k) /\
  (k_wrapped_to k = ∅ ->
     (forall u blob, (u, blob) ∈ blobs_of request <-> exists p, k_peers k' !! u = Some p /\ wrap_to room secret k u p = inl blob) /\
     (forall u p, k_peers k !! u = Some p -> k_peers k' !! u = Some p \/ exists e, wrap_to room secret k u p = inr e)) /\
  (forall r, request = Some r -> exists l, r = PublishSenderKey (k_epoch k) l) /\
  (exists o p w un, k' = set_wrapped_to w (set_owners o (set_peers p (set_unwrappable un k)))).
Proof.
  intros Hok Hs Hw. unfold wrap_for_new_peers. rewrite Hs.
  cbv zeta. destruct (leave_out_all (refused_in (attempts room secret k)) k) as [unw ->].
  set (wrapped := wrapped_in (attempts room secret k)). set (refused := refused_in (attempts room secret k)).
  set (peers' := filter (fun '(user, _) => user ∉ refused.*1) (k_peers k)).
  set (owners' := filter (fun '(_, owner) => owner ∉ refused.*1) (k_owners k)).
  set (w := k_wrapped_to _ ∪ _).
  assert (keys_base now (set_wrapped_to w (set_owners owners' (set_peers peers' (set_unwrappable unw k))))) as Hok'.
  { destruct Hok. split; try done.
    - intros u p [Hp _]%map_lookup_filter_Some. by apply ko_peers0.
    - intros m u [Hm Hu]%map_lookup_filter_Some. destruct (ko_owners0 m u Hm) as (p & Hp & ?). exists p. split; [|done].
      by apply map_lookup_filter_Some. }
  assert (forall u p, peers' !! u = Some p -> k_peers k !! u = Some p) as Hsub by (by intros u p [? _]%map_lookup_filter_Some).
  split; [done|]. destruct Hw as [Hw|Hw].
  - assert (forall u p, peers' !! u = Some p <-> k_peers k !! u = Some p /\ exists blob, wrap_to room secret k u p = inl blob) as Hp'.
    { intros u p. unfold peers', refused. rewrite map_lookup_filter_Some, elem_of_refused by done. split; intros [Hp H]; (split; [done|]).
      - destruct (wrap_to room secret k u p) as [b|e] eqn:E; [by exists b|]. destruct H. by exists p, e.
      - intros (p' & e & Hp2 & E). destruct H as [b Hb]. congruence. }
    split; [|split; [done|split; [|split; [|split]]]].
    + apply set_eq. intros [u key]. rewrite elem_of_peer_set. unfold w. cbn [k_wrapped_to k_peers set_wrapped_to set_owners set_peers set_unwrappable].
      rewrite Hw, union_empty_l_L, elem_of_list_to_set, list_elem_of_omap. split.
      * intros ([u' blob] & _ & H). destruct (peers' !! u') as [p|] eqn:E; [|done]. cbn in H. injection H as -> <-. by exists p.
      * intros (p & Hp & <-). pose proof Hp as [Hp0 [blob Hb]]%Hp'. exists (u, blob). split; [apply elem_of_wrapped; [done|by exists p]|].
        by rewrite Hp.
    + intros E. assert (peers' = k_peers k) as EP.
      { unfold peers'. rewrite (peer_set_empty (k_peers k)) by congruence. apply map_filter_empty. }
      split; [|done]. destruct wrapped as [|[u blob] l] eqn:El; [done|]. exfalso. assert ((u, blob) ∈ wrapped) as H by (rewrite El; set_solver).
      apply elem_of_wrapped in H as (p & Hp & _); [|done]. rewrite (peer_set_empty (k_peers k)) in Hp by congruence. by apply lookup_empty_Some in Hp.
    + intros _. split.
      * intros u blob. assert (blobs_of (match wrapped with [] => None | _ :: _ => Some (PublishSenderKey (k_epoch k) wrapped) end) = wrapped) as Eb by (by destruct wrapped).
        change (k_epoch (set_wrapped_to _ _)) with (k_epoch k). rewrite Eb. unfold wrapped. rewrite elem_of_wrapped by done.
        split; intros (p & Hp & Hb); exists p; (split; [|done]); [apply Hp'; split; [done|by exists blob]|by apply Hsub].
      * intros u p Hp. destruct (wrap_to room secret k u p) as [blob|e] eqn:E; [left|right; by exists e]. apply Hp'. split; [done|by exists blob].
    + intros r. destruct wrapped; [done|]. intros [= <-]. by eexists.
    + by eexists _, _, _, _.
  - assert (wrapped = [] /\ refused = []) as [Ew Er] by (unfold wrapped, refused; by rewrite attempts_none).
    assert (peers' = k_peers k) as EP by (unfold peers'; rewrite Er; apply map_filter_id; set_solver).
    assert (w = peer_set (k_peers k)) as EW by (unfold w; rewrite Ew; cbn [k_wrapped_to set_owners set_peers set_unwrappable]; rewrite Hw; set_solver).
    rewrite Ew. split; [cbn; by rewrite EP|]. split; [done|]. split; [done|]. split; [|split; [done|by eexists _, _, _, _]].
    intros E. assert (k_peers k = ∅) as E0 by (apply peer_set_empty; congruence).
    cbn [k_peers set_wrapped_to set_owners set_peers set_unwrappable blobs_of]. rewrite EP, E0. split; [|by intros u p ?%lookup_empty_Some].
    intros u blob. split; [set_solver|]. by intros (p & ?%lookup_empty_Some & _).
Qed.

(** ** Received secrets *)

(** What taking in a sender key leaves alone. *)
Definition same_room (k k' : KM) : Prop :=
  k_me k' = k_me k /\ k_server k' = k_server k /\ k_room k' = k_room k /\ k_epoch k' = k_epoch k /\ k_epoch_since k' = k_epoch_since k /\
  k_peers k' = k_peers k /\ k_owners k' = k_owners k /\ k_my_secret k' = k_my_secret k /\ k_wrapped_to k' = k_wrapped_to k /\
  k_encryption k' = k_encryption k /\ k_stashed k' = k_stashed k /\ k_floors k' = k_floors k /\ k_floor k' = k_floor k /\
  k_present k' = k_present k /\ k_my_tracks k' = k_my_tracks k /\ k_send_keys k' = k_send_keys k.
Lemma same_room_refl k : same_room k k.
Proof. by split_and!. Qed.
Lemma same_room_trans a b c : same_room a b -> same_room b c -> same_room a c.
Proof. unfold same_room. intros (?&?&?&?&?&?&?&?&?&?&?&?&?&?&?&?) (?&?&?&?&?&?&?&?&?&?&?&?&?&?&?&?). split_and!; congruence. Qed.

Lemma hold_early_ok now from epoch wrapped arrived (k : KM) : keys_base now k ->
  keys_base now (hold_early from epoch wrapped arrived k) /\ same_room k (hold_early from epoch wrapped arrived k).
Proof.
  intros Hok. unfold hold_early. destruct (_ || _) eqn:E; [|split; [done|apply same_room_refl]]. split; [|by split_and!].
  destruct Hok. split; try done. cbn [k_present k_early set_early]. split; [tauto|]. destruct ko_bounds0 as [_ Hb].
  destruct (k_early k !! (from, epoch)) as [v|] eqn:Ev; [rewrite map_size_insert_Some by (by eexists); done|].
  rewrite map_size_insert_None by done. rewrite (bool_decide_eq_false_2 (is_Some None)), orb_false_r in E by (by intros [? ?]).
  apply Z.ltb_lt in E. lia.
Qed.

Lemma sender_key_at_ok now from epoch wrapped arrived (k : KM) : keys_base now k ->
  let '(_, k') := sender_key_at is_public is_encapped open_auth from epoch wrapped arrived now k in
  keys_base now k' /\ same_room k k'.
Proof.
  intros Hok. unfold sender_key_at. destruct (below_floor epoch k) eqn:Ebelow; [split; [done|apply same_room_refl]|].
  destruct (k_room k) as [room|] eqn:Eroom; [|by apply hold_early_ok]. destruct (k_peers k !! from) as [peer|]; [|by apply hold_early_ok].
  destruct (Z.ltb_spec (k_epoch k) epoch) as [|Hepoch]; [by apply hold_early_ok|].
  destruct (_ && _); [split; [done|apply same_room_refl]|].
  set (opens := fun key => unwrap is_public is_encapped open_auth key (kp_encryption_key peer) (context room epoch from (k_me k) k) wrapped).
  change (unwrap is_public is_encapped open_auth (k_encryption k) _ _ _) with (opens (k_encryption k)).
  set (result := match opens (k_encryption k) with inl _ => _ | inr _ => _ end).
  assert (forall secret, result = inl secret -> opened k room from epoch secret) as Hopened.
  { intros secret Hr. unfold result, opens in Hr. unfold opened. destruct (unwrap _ _ _ (k_encryption k) _ _ _) as [s|] eqn:E1.
    - destruct (k_retired_encryption k) as [[? ?]|]; by eexists _, _, _; rewrite <- Hr.
    - destruct (k_retired_encryption k) as [[retired until]|]; [|done]. by eexists _, _, _. }
  clearbody result. destruct result as [secret|e]; [|split; [done|apply same_room_refl]]. specialize (Hopened _ eq_refl).
  split; [|by split_and!]. set (which := fun user old => bool_decide (user = from) && (old <? epoch)).
  pose proof (retire_ok now now which k Hok (Z.le_refl _)) as Hr.
  set (k1 := retire_received now which k) in *. set (rc := mkReceived secret _).
  unfold below_floor in Ebelow. apply orb_false_elim in Ebelow as [Efloor _].
  destruct Hr. split; try done; cbn [k_received k_recv_keys k_epoch k_epoch_since k_floor k_room set_received set_recv_keys set_generation].
  - intros o e r [[[= <- <-] <-]|[_ H]]%lookup_insert_Some; [|by apply (ko_received0 o e r)].
    split; [by exists room|]. split; [|done]. intros f Hf. change (k_floor k = Some f) in Hf. rewrite Hf in Efloor. by apply Z.leb_gt in Efloor.
  - intros o e r [[[= <- <-] <-]|[_ H]]%lookup_insert_Some; [|by apply (ko_retire0 o e r)].
    unfold rc. cbn [rc_retire_at]. change (k_epoch k1) with (k_epoch k). change (k_epoch_since k1) with (k_epoch_since k).
    destruct (Z.ltb_spec epoch (k_epoch k)); [|lia]. pose proof (ko_since _ _ Hok). split; lia.
  - intros m e o key [H Hno]%map_lookup_filter_Some. destruct (ko_recv0 m e o key H) as (r & Hr & ->). exists r. split; [|done].
    rewrite lookup_insert_ne; [done|]. intros [= <- <-]. by apply Hno.
Qed.

Lemma try_early_ok now entries (k : KM) : keys_base now k ->
  keys_base now (try_early is_public is_encapped open_auth now entries k) /\ same_room k (try_early is_public is_encapped open_auth now entries k).
Proof.
  revert k. induction entries as [|[[from epoch] [arrived wrapped]] entries IH]; intros k Hok; [split; [done|apply same_room_refl]|].
  unfold try_early. cbn [foldl]. destruct (_ <? _); [|by apply IH].
  pose proof (sender_key_at_ok now from epoch wrapped arrived k Hok) as H. destruct (sender_key_at _ _ _ _ _ _ _ _ k) as [res k1]. destruct H as [Hok1 Hs].
  destruct (IH k1 Hok1) as [? ?]. split; [done|]. by eapply same_room_trans.
Qed.

(** ** Room states *)

Definition holders_ok (k : KM) : Prop := k_wrapped_to k = match k_my_secret k with Some _ => peer_set (k_peers k) | None => ∅ end.

(** What a room state leads to: who is trusted, and either nothing is sent and our secret and
    all it was wrapped to stay, or [secret] is ours and goes to the trusted, each. *)
Definition settled (secret : bytes) (unix_now : option Z) (room : RoomId) (epoch : Epoch) (peers : list Peer) (k : KM)
    (request : option Request) (k' : KM) : Prop :=
  k_room k' = Some room /\ k_epoch k' = epoch /\
  (forall u p, k_peers k' !! u = Some p -> trustworthy unix_now room peers k u p) /\
  (is_Some (invalid_state peers k) -> k_peers k' = ∅) /\
  ((request = None /\ is_Some (k_my_secret k) /\ k_my_secret k' = k_my_secret k /\ epoch = k_epoch k /\ peer_set (k_peers k') = peer_set (k_peers k)) \/
   (k_my_secret k' = Some secret /\
    (forall u blob, (u, blob) ∈ blobs_of request <-> exists p, k_peers k' !! u = Some p /\
       wrap is_public seal_auth (k_encryption k) (kp_encryption_key p) (mkWrapContext (k_server k) room epoch (k_me k) u) secret = inl blob) /\
    (forall r, request = Some r -> exists l, r = PublishSenderKey epoch l))).

(** What no room state touches. *)
Definition same_self (k k' : KM) : Prop := k_me k' = k_me k /\ k_server k' = k_server k /\ k_present k' = k_present k /\
  k_stashed k' = k_stashed k /\ k_floor k' = k_floor k /\ k_room k' = k_room k /\ covers (fl_at (k_floors k')) (fl_at (k_floors k)) /\
  k_encryption k' = k_encryption k.

Lemma try_early_holders now entries (k : KM) : keys_base now k -> holders_ok k -> holders_ok (try_early is_public is_encapped open_auth now entries k).
Proof. intros Hok H. destruct (try_early_ok now entries k Hok) as (_ & Hs). unfold same_room in Hs. unfold holders_ok in *. destruct Hs as (_&_&_&_&_&->&_&->&->&_). done. Qed.

Lemma state_applied clock now secret unix_now room epoch peers (k : KM) :
  keys_base clock k -> holders_ok k -> clock <= now -> k_room k = Some room -> k_epoch k <= epoch ->
  let '(request, notices, k') := peers_changed valid_key verify_strict is_public is_encapped seal_auth open_auth hkdf16 secret unix_now room epoch peers now k in
  keys_ok now k' /\ settled secret unix_now room epoch peers k request k' /\ same_self k k'.
Proof.
  intros Hok Hw Hle Hroom He. unfold peers_changed. rewrite decide_False by congruence. rewrite (proj2 (Z.ltb_ge _ _)) by done.
  pose proof (accept_ok clock now unix_now room peers k Hok Hle Hroom) as Ha. destruct (accept_peers _ _ room peers unix_now now k) as [notices k1].
  destruct Ha as (Hok1 & Ht & Hinv & E1 & E2 & E3 & E4 & E5 & E6 & E7 & E8 & E9 & E10 & E11 & E12).
  set (fresh := bool_decide (epoch <> k_epoch k1) || bool_decide (k_my_secret k1 = None) || bool_decide (peer_set (k_peers k1) <> k_wrapped_to k1)).
  set (k2 := if fresh then start_epoch hkdf16 secret epoch now k1 else k1).
  assert (exists s, k_my_secret k2 = Some s) as [s Es].
  { unfold k2. destruct fresh eqn:Ef; [by eexists|]. apply orb_false_elim in Ef as [[_ Ef]%orb_false_elim _]. apply bool_decide_eq_false in Ef.
    by destruct (k_my_secret k1) as [s|]; [exists s|]. }
  assert (keys_base now k2 /\ k_epoch k2 = epoch /\ k_peers k2 = k_peers k1 /\ k_room k2 = k_room k1 /\ k_me k2 = k_me k1 /\ k_server k2 = k_server k1 /\
    k_encryption k2 = k_encryption k1 /\ k_present k2 = k_present k1 /\ k_stashed k2 = k_stashed k1 /\ covers (fl_at (k_floors k2)) (fl_at (k_floors k1)) /\ k_floor k2 = k_floor k1 /\
    (k_wrapped_to k2 = ∅ \/ k_wrapped_to k2 = peer_set (k_peers k2)) /\
    ((k_my_secret k1 = Some s /\ epoch = k_epoch k /\ peer_set (k_peers k1) = peer_set (k_peers k) /\ k_wrapped_to k2 = peer_set (k_peers k2)) \/ (s = secret /\ k_wrapped_to k2 = ∅)))
    as (Hok2 & F1 & F2 & F3 & F4 & F5 & F6 & F7 & F8 & F9 & F10 & Hw2 & Hcase).
  { unfold k2 in *. destruct fresh eqn:Ef.
    - destruct (start_epoch_ok now secret epoch now k1 Hok1 (Z.le_refl _) ltac:(lia)) as (? & ? & G3 & G4 & ? & ? & ? & ? & ? & ? & ? & ? & ?).
      split_and!; try done; [by left|]. right. split; [congruence|done].
    - unfold fresh in Ef. apply orb_false_elim in Ef as [[Ef1 Ef2]%orb_false_elim Ef3]. apply bool_decide_eq_false, dec_stable in Ef1, Ef3.
      split_and!; try done; [by right|]. left. split; [done|]. split; [congruence|]. split; [|done].
      unfold holders_ok in Hw. rewrite <- E3, Es in Hw. congruence. }
  clearbody k2. pose proof (wrap_ok now room s k2 Hok2 Es Hw2) as Hwrap. destruct (wrap_for_new_peers _ _ room k2) as [[request refused] k3].
  destruct Hwrap as (Hok3 & Hw3 & Hsub & Hkept & Hnew & Hreq & (o & p & w & un & Ek3)).
  assert (k_my_secret k3 = Some s) as Es3 by (by rewrite Ek3).
  assert (holders_ok (set_early ∅ k3) /\ keys_base now (set_early ∅ k3)) as [Hh4 Hok4].
  { split; [unfold holders_ok; cbn; by rewrite Es3|]. destruct Hok3. split; try done. cbn. split; [tauto|]. rewrite map_size_empty. unfold MAX_EARLY, MAX_ROOM_MEMBERS. lia. }
  pose proof (try_early_holders now (map_to_list (k_early k3)) _ Hok4 Hh4) as Hh5. destruct (try_early_ok now (map_to_list (k_early k3)) _ Hok4) as [Hok5 Hs5].
  set (k5 := try_early _ _ _ _ _ _) in *. unfold same_room in Hs5. cbn [k_me k_server k_room k_epoch k_epoch_since k_peers k_owners k_my_secret k_wrapped_to k_encryption k_stashed k_floors k_floor k_present k_my_tracks k_send_keys set_early] in Hs5.
  destruct Hs5 as (G1 & G2 & G3 & G4 & _ & G5 & _ & G6 & G7 & G8 & G9 & G10 & G11 & G12 & _).
  assert (k_me k3 = k_me k2 /\ k_server k3 = k_server k2 /\ k_room k3 = k_room k2 /\ k_epoch k3 = k_epoch k2 /\ k_encryption k3 = k_encryption k2 /\
    k_stashed k3 = k_stashed k2 /\ k_floors k3 = k_floors k2 /\ k_floor k3 = k_floor k2 /\ k_present k3 = k_present k2) as (J1 & J2 & J3 & J4 & J5 & J6 & J7 & J8 & J9)
    by (rewrite Ek3; done).
  set (k6 := set_generation _ k5). split; [|split].
  - split; [|split].
    + destruct Hok5. by split.
    + exact Hh5.
    + change (is_Some (k_room k5) <-> is_Some (k_my_secret k5)). rewrite G3, G6, Es3, J3, F3, E1, Hroom. done.
  - unfold settled. change (k_room k6) with (k_room k5). change (k_epoch k6) with (k_epoch k5). change (k_peers k6) with (k_peers k5). change (k_my_secret k6) with (k_my_secret k5).
    split; [congruence|]. split; [congruence|]. rewrite G5. split; [intros u q Hq%Hsub; rewrite F2 in Hq; by apply Ht|].
    split. { intros Hi. specialize (Hinv Hi). apply map_empty. intros u. destruct (k_peers k3 !! u) as [q|] eqn:Hq; [|done]. apply Hsub in Hq. rewrite F2, Hinv in Hq. by apply lookup_empty_Some in Hq. }
    destruct Hcase as [(C1 & C2 & C3 & C4)|[-> C2]].
    + left. destruct (Hkept C4) as [-> EP]. split; [done|]. rewrite G6, Es3, <- E3, C1. split; [by eexists|]. split; [done|]. split; [done|]. by rewrite EP, F2.
    + right. split; [congruence|]. destruct (Hnew C2) as [Hnew1 _]. split; [|intros r Hr; rewrite <- F1; by apply Hreq].
      intros u blob. rewrite Hnew1. unfold wrap_to, context. rewrite F1, F4, F5, F6, E5, E6, E7. done.
  - unfold same_self. cbn [k_me k_server k_present k_stashed k_floor k_room k_floors k_encryption k6 set_generation]. unfold k6.
    cbn [k_me k_server k_present k_stashed k_floor k_room k_floors k_encryption set_generation]. split_and!; try congruence. rewrite G10, J7, <- E12. done.
Qed.
End Facts.
