(* ===== verification/KeysTheorems.v ===== *)
(** * Sender keys: theorems over every run of the key manager

    A run is any sequence of what the engine and the server do to a key manager, at times
    that do not go back; another manager that shares the epoch floors may raise them. *)
From S2P Require Import Prelude Ordered Ids Frame Messages Crypto Floors KeysState Keys KeysFacts.
Open Scope Z_scope.

Section Theorems.
Context {Private Key : Type}.
Context (valid_key : bytes -> bool) (verify_strict : bytes -> bytes -> bytes -> bool).
Context (is_public is_encapped : bytes -> bool)
  (seal_auth : Private -> bytes -> bytes -> bytes -> option (bytes * bytes))
  (open_auth : Private -> bytes -> bytes -> bytes -> bytes -> option bytes).
Context (hkdf16 : bytes -> bytes -> Key).

Abbreviation KM := (KeyManager Private Key).
Abbreviation keys_ok := (@keys_ok Private Key valid_key verify_strict is_public is_encapped open_auth hkdf16).
Abbreviation keys_base := (@keys_base Private Key valid_key verify_strict is_public is_encapped open_auth hkdf16).
Abbreviation changed := (@peers_changed Private Key valid_key verify_strict is_public is_encapped seal_auth open_auth hkdf16).
Abbreviation placed := (@apply_placement Private Key valid_key verify_strict is_public is_encapped seal_auth open_auth hkdf16).

Abbreviation stashed := (@apply_stashed Private Key valid_key verify_strict is_public is_encapped seal_auth open_auth hkdf16).

(** ** Runs *)

Inductive KeysEvent :=
| EvPresence (user : UserId) (room : option RoomId)
| EvReapply (secret : bytes)
| EvPlacement (secret secret' : bytes) (room : option RoomId) (epoch : Epoch) (tracks : option Tracks) (peers : list Peer)
| EvPeers (secret : bytes) (room : RoomId) (epoch : Epoch) (peers : list Peer)
| EvSenderKey (from : UserId) (epoch : Epoch) (wrapped : bytes)
| EvRecvKey (media_id : MediaId) (epoch : Epoch)
| EvTick
| EvReplace (encryption : Private)
| EvFloor (user : UserId) (room : RoomId) (epoch : Epoch).

Definition keys_step (now : Z) (unix_now : option Z) (ev : KeysEvent) (k : KM) : list Request * KM :=
  match ev with
  | EvPresence user room => ([], snd (set_presence user room k))
  | EvReapply secret =>
      let '(request, _, k) := reapply_peers valid_key verify_strict is_public is_encapped seal_auth open_auth hkdf16 secret unix_now now k in
      (option_list request, k)
  | EvPlacement secret secret' room epoch tracks peers =>
      let '(requests, _, k) := placed secret secret' unix_now room epoch tracks peers now k in (requests, k)
  | EvPeers secret room epoch peers => let '(request, _, k) := changed secret unix_now room epoch peers now k in (option_list request, k)
  | EvSenderKey from epoch wrapped => ([], snd (sender_key is_public is_encapped open_auth from epoch wrapped now k))
  | EvRecvKey media_id epoch => ([], snd (recv_key hkdf16 media_id epoch k))
  | EvTick => ([], keys_tick now k)
  | EvReplace encryption => ([], replace_encryption encryption now k)
  | EvFloor user room epoch => ([], set_floors (floors_raise user room epoch (k_floors k)) k)
  end.

(** Epochs are [u32]s. *)
Definition event_ok (ev : KeysEvent) : Prop :=
  match ev with EvPlacement _ _ _ epoch _ _ => is_u32 epoch | _ => True end.

Definition keys_run (es : list (Z * option Z * KeysEvent)) (k : KM) : KM := foldl (fun k '(now, unix_now, ev) => snd (keys_step now unix_now ev k)) k es.

(** Times from [clock] on. *)
Fixpoint run_ok (clock : Z) (es : list (Z * option Z * KeysEvent)) : Prop :=
  match es with [] => True | (now, _, ev) :: es => clock <= now /\ event_ok ev /\ run_ok now es end.
Fixpoint run_clock (clock : Z) (es : list (Z * option Z * KeysEvent)) : Z :=
  match es with [] => clock | (now, _, _) :: es => run_clock now es end.

(** ** Every operation keeps the invariant *)

Lemma base_stash clock x (k : KM) : keys_base clock k -> keys_base clock (set_stashed x k).
Proof. intros []. by split. Qed.

(** A room state for another room or an older epoch changes nothing but what is stashed. *)
Lemma changed_ok clock now secret unix_now room epoch peers (k : KM) : keys_base clock k -> holders_ok k -> clock <= now ->
  let '(request, _, k') := changed secret unix_now room epoch peers now k in
  (k_room k = Some room /\ k_epoch k <= epoch /\ keys_ok now k' /\
     settled valid_key verify_strict is_public seal_auth secret unix_now room epoch peers k request k' /\ same_self k k') \/
  (~ (k_room k = Some room /\ k_epoch k <= epoch) /\ request = None /\ exists x, k' = set_stashed x k).
Proof.
  intros Hok Hh Hle. destruct (decide (k_room k = Some room /\ k_epoch k <= epoch)) as [[Hr He]|Hno].
  - pose proof (state_applied valid_key verify_strict is_public is_encapped seal_auth open_auth hkdf16 clock now secret unix_now room epoch peers k Hok Hh Hle Hr He) as H.
    destruct (changed _ _ _ _ _ _ k) as [[request notices] k']. left. tauto.
  - assert (exists x, k = set_stashed x k) as Hsame by (exists (k_stashed k); by destruct k).
    unfold peers_changed. destruct (decide (Some room <> k_room k)) as [Hne|Heq].
    + right. split; [done|]. split; [done|]. destruct (match k_stashed k with Some _ => _ | None => true end); [by eexists|done].
    + apply dec_stable in Heq. rewrite (proj2 (Z.ltb_lt _ _)); [right; done|]. destruct (Z.lt_ge_cases epoch (k_epoch k)); [done|]. by destruct Hno.
Qed.

Lemma ok_later clock now (k : KM) : keys_ok clock k -> clock <= now -> keys_ok now k.
Proof. intros (Hb & ? & ?) ?. split; [by eapply base_later|done]. Qed.


Lemma leave_ok clock room (k : KM) : keys_base clock k -> keys_base clock (leave_room room k).
Proof.
  intros []. unfold leave_room. split; cbn [k_checked_signatures k_peers k_owners k_received k_recv_keys k_send_keys k_room k_epoch k_floors k_me k_epoch_since k_present k_early
    set_room_peers set_owners set_peers set_recv_keys set_received set_unwrappable set_epoch set_floor]; try done.
Qed.

Lemma in_room_ok clock room tracks (k : KM) : keys_base clock k -> (room = k_room k \/ k_received k = ∅ /\ k_peers k = ∅ /\ k_epoch k = 0) ->
  keys_base clock (in_room room tracks k) /\ holders_ok (in_room room tracks k).
Proof.
  intros Hok Hroom. split; [|done]. destruct Hok. unfold in_room.
  split; cbn [k_checked_signatures k_peers k_owners k_received k_recv_keys k_send_keys k_room k_epoch k_floors k_me k_server k_epoch_since k_present k_early k_floor
    set_wrapped_to set_send_keys set_my_secret set_my_tracks set_room]; try done.
  - intros u p Hp. destruct Hroom as [->|(_ & E & _)]; [by apply ko_peers|]. by rewrite E in Hp.
  - intros o e r Hr. destruct Hroom as [->|(E & _ & _)]; [by apply (ko_received o e r)|]. by rewrite E in Hr.
  - intros r Hr Hne. destruct Hroom as [->|(_ & _ & E)]; [by apply ko_floors|]. done.
Qed.

(** What a placement, or the second half of one, keeps. *)
Definition placement_kept (k k' : KM) : Prop := k_room k' = k_room k /\ covers (fl_at (k_floors k')) (fl_at (k_floors k)) /\ k_me k' = k_me k /\ k_floor k' = k_floor k.

Lemma kept_of_self k k' : same_self k k' -> placement_kept k k'.
Proof. unfold same_self, placement_kept. tauto. Qed.

Lemma stashed_ok now secret unix_now room epoch (k : KM) : keys_ok now k -> k_room k = Some room -> k_epoch k = epoch ->
  let '(_, _, k') := stashed secret unix_now room epoch now k in keys_ok now k' /\ placement_kept k k'.
Proof.
  intros (Hb & Hh & Hsec) Hr He. unfold apply_stashed.
  assert (keys_ok now (set_stashed None k) /\ placement_kept k (set_stashed None k)) as [Hok0 Hk0] by (split; [split; [by apply base_stash|done]|done]).
  destruct (k_stashed k) as [[[sroom sepoch] speers]|]; [|done]. destruct (_ && _) eqn:E; [|done]. apply andb_prop in E as [_ Hlt%Z.ltb_lt].
  destruct Hok0 as (Hb0 & Hh0 & _).
  pose proof (changed_ok now now secret unix_now room sepoch speers (set_stashed None k) Hb0 Hh0 (Z.le_refl _)) as H.
  destruct (changed _ _ _ _ _ _ _) as [[request notices] k'].
  destruct H as [(_ & _ & Hok' & _ & Hs)|(Hno & _)]; [split; [done|]; by apply kept_of_self in Hs|]. exfalso. apply Hno. cbn. split; [done|lia].
Qed.

(** The state a placement starts from. *)
Definition entered (room : option RoomId) (k : KM) : KM := if decide (room <> k_room k) then leave_room room k else k.

Lemma entered_ok clock room epoch (k : KM) : keys_base clock k -> is_u32 epoch ->
  bool_decide (is_Some room) && bool_decide (room = k_room k) && (epoch <? k_epoch k) = false ->
  keys_base clock (entered room k) /\ (room = k_room (entered room k) \/ k_received (entered room k) = ∅ /\ k_peers (entered room k) = ∅ /\ k_epoch (entered room k) = 0) /\
  k_me (entered room k) = k_me k /\ k_floors (entered room k) = k_floors k /\
  k_floor (entered room k) = (if decide (room <> k_room k) then r ← room; floors_get (k_floors k) (k_me k) r else k_floor k) /\
  (is_Some room -> k_epoch (entered room k) <= epoch).
Proof.
  intros Hb Hu Eold. unfold entered. destruct (decide (room <> k_room k)) as [Hne|Heq].
  - split; [by apply leave_ok|]. split; [by right|]. split_and!; [done..|]. cbn. unfold is_u32 in Hu. lia.
  - apply dec_stable in Heq. split; [done|]. split; [by left|]. split_and!; [done..|]. intros Hs.
    destruct (Z.le_gt_cases (k_epoch k) epoch); [done|]. rewrite (bool_decide_eq_true_2 _ Hs), (bool_decide_eq_true_2 _ Heq), (proj2 (Z.ltb_lt _ _)) in Eold; done.
Qed.

Lemma in_room_fields room tracks (k : KM) : k_floors (in_room room tracks k) = k_floors k /\ k_me (in_room room tracks k) = k_me k /\
  k_floor (in_room room tracks k) = k_floor k /\ k_room (in_room room tracks k) = room /\ k_epoch (in_room room tracks k) = k_epoch k /\
  k_my_secret (in_room room tracks k) = None.
Proof. done. Qed.

Lemma placed_eq secret secret' unix_now room epoch tracks peers now (k : KM) :
  placed secret secret' unix_now room epoch tracks peers now k =
  if bool_decide (is_Some room) && bool_decide (room = k_room k) && (epoch <? k_epoch k) then ([], [], k) else
  let notices := if bool_decide (is_Some room) && below_floor epoch (entered room k) then [OldEpoch] else [] in
  match room with
  | None => ([], notices, set_stashed None (in_room None tracks (entered None k)))
  | Some room =>
      let '(first, more, k) := changed secret unix_now room epoch peers now (in_room (Some room) tracks (entered (Some room) k)) in
      let '(later, more', k) := stashed secret' unix_now room epoch now k in
      (option_list first ++ option_list later, notices ++ more ++ more', k)
  end.
Proof. by destruct room. Qed.

Lemma stash_kept x (k : KM) : k_room (set_stashed x k) = k_room k /\ k_floors (set_stashed x k) = k_floors k /\ k_me (set_stashed x k) = k_me k /\
  k_floor (set_stashed x k) = k_floor k.
Proof. done. Qed.

Lemma stash_holders x (k : KM) : holders_ok k -> holders_ok (set_stashed x k).
Proof. unfold holders_ok, set_stashed. cbn [k_wrapped_to k_my_secret k_peers]. done. Qed.

Lemma placed_ok clock now secret secret' unix_now room epoch tracks peers (k : KM) : keys_ok clock k -> clock <= now -> is_u32 epoch ->
  let '(requests, _, k') := placed secret secret' unix_now room epoch tracks peers now k in
  keys_ok now k' /\ k_room k' = room /\ covers (fl_at (k_floors k')) (fl_at (k_floors k)) /\ k_me k' = k_me k /\
  k_floor k' = (if decide (room <> k_room k) then r ← room; floors_get (k_floors k) (k_me k) r else k_floor k).
Proof.
  intros Hok Hle Hu. pose proof (ok_later clock now k Hok Hle) as Hok'. rewrite placed_eq.
  destruct (bool_decide (is_Some room) && bool_decide (room = k_room k) && (epoch <? k_epoch k)) eqn:Eold.
  { apply andb_prop in Eold as [[_ Er%bool_decide_eq_true]%andb_prop _]. split; [done|]. split; [done|]. split; [done|]. split; [done|].
    rewrite decide_False; [done|]. intros Hne. by apply Hne. }
  destruct Hok as (Hb & _). destruct (entered_ok clock room epoch k Hb Hu Eold) as (Hb1 & Hr1 & M1 & F1 & Fl1 & He1). rewrite <- Fl1.
  destruct (in_room_ok clock room tracks (entered room k) Hb1 Hr1) as [Hb2 Hh2]. clear Hr1 Hb1.
  destruct (in_room_fields room tracks (entered room k)) as (I1 & I2 & I3 & I4 & I5 & I6). destruct room as [room|]; cbv zeta.
  - set (k2 := in_room (Some room) tracks (entered (Some room) k)) in *. set (k1 := entered (Some room) k) in *. clearbody k2. clearbody k1.
    pose proof (changed_ok clock now secret unix_now room epoch peers k2 Hb2 Hh2 Hle) as H1.
    destruct (changed secret unix_now room epoch peers now k2) as [[first more] k3].
    destruct H1 as [(_ & _ & Hok3 & (R3 & E3 & _) & Hself3)|[Hno _]]; [|exfalso; apply Hno; split; [done|rewrite I5; apply He1; by eexists]].
    pose proof (stashed_ok now secret' unix_now room epoch k3 Hok3 R3 E3) as H2. destruct (stashed secret' unix_now room epoch now k3) as [[later more'] k4].
    destruct H2 as (Hok4 & R4 & C4 & M4 & F4). destruct (kept_of_self _ _ Hself3) as (_ & C3 & M3 & F3).
    split; [exact Hok4|]. split; [congruence|]. split; [etransitivity; [exact C4|]; by rewrite <- F1, <- I1|]. split; congruence.
  - set (k2 := in_room None tracks (entered None k)) in *. set (k1 := entered None k) in *. clearbody k2. clearbody k1.
    destruct (stash_kept None k2) as (J1 & J2 & J3 & J4). split; [|rewrite J1, J2, J3, J4, I1, I2, I3, F1; by rewrite M1].
    split; [apply base_stash; eapply base_later; [exact Hb2|exact Hle]|]. split; [by apply (stash_holders None)|].
    change (k_my_secret (set_stashed None k2)) with (k_my_secret k2). rewrite J1, I4, I6. split; by intros [].
Qed.

Lemma presence_ok clock user room (k : KM) : keys_ok clock k -> keys_ok clock (snd (set_presence user room k)).
Proof.
  intros (Hb & Hrest). unfold set_presence.
  assert (forall m, Z.of_nat (size m) <= MAX_SIGNED_IN -> keys_ok clock (set_present m k)) as Hset.
  { intros m Hm. split; [|done]. destruct Hb. split; try done. cbn. tauto. }
  pose proof (ko_bounds _ _ _ _ _ _ _ _ Hb) as [Hp _]. destruct room as [r|].
  - destruct (_ && _) eqn:E; [done|]. apply Hset. destruct (k_present k !! user) as [v|] eqn:Ev.
    + by rewrite map_size_insert_Some by (by eexists).
    + rewrite map_size_insert_None by done. rewrite (bool_decide_eq_false_2 (is_Some None)) in E by (by intros [? ?]).
      cbn [negb] in E. rewrite andb_true_r in E. apply Z.leb_gt in E. lia.
  - apply Hset. etransitivity; [|exact Hp]. apply inj_le. rewrite <- !size_dom, dom_delete_L. apply subseteq_size. set_solver.
Qed.

Lemma recv_key_ok clock m e (k : KM) : keys_ok clock k -> keys_ok clock (snd (recv_key hkdf16 m e k)).
Proof.
  intros (Hb & Hrest). unfold recv_key. destruct (below_floor e k); [done|]. destruct (owner_of m k) as [o|]; [|done].
  assert (keys_ok clock (snd (match k_received k !! (o, e) with None => (None, k) | Some received =>
    let key := track_key hkdf16 (rc_secret received) m in (Some key, set_recv_keys (<[(m, e) := (o, key)]> (k_recv_keys k)) k) end))) as Hderive.
  { destruct (k_received k !! (o, e)) as [r|] eqn:Er; [|done]. split; [|done]. destruct Hb. split; try done. cbn.
    intros m' e' o' key [[[= <- <-] [= <- <-]]|[_ H]]%lookup_insert_Some; [by exists r|by apply ko_recv]. }
  destruct (k_recv_keys k !! (m, e)) as [[c key]|]; [|done]. by destruct (decide (c = o)).
Qed.

Lemma keys_tick_ok clock now (k : KM) : keys_ok clock k -> clock <= now -> keys_ok now (keys_tick now k).
Proof.
  intros Hok Hle. apply (ok_later _ now) in Hok; [|done]. unfold keys_tick.
  set (k1 := match k_retired_encryption k with Some _ => _ | None => k end).
  assert (keys_ok now k1) as Hok1.
  { unfold k1. destruct (k_retired_encryption k) as [[? ?]|]; [|done]. destruct (_ <=? _); [|done]. destruct Hok as ([] & ?). split; [|done]. by split. }
  clearbody k1. destruct Hok1 as ([] & Hrest). split; [|done]. split; try done; cbn.
  - intros o e r [H _]%map_lookup_filter_Some. by apply (ko_received o e r).
  - intros o e r [H _]%map_lookup_filter_Some. by apply (ko_retire o e r).
  - intros m e o key [H [r Hr]]%map_lookup_filter_Some. exists r. split; [done|]. apply map_lookup_filter_Some in Hr as [Hr _].
    destruct (ko_recv m e o key H) as (r' & Hr' & ->). congruence.
  - split; [tauto|]. etransitivity; [|apply ko_bounds]. apply inj_le. rewrite <- !size_dom. apply subseteq_size, dom_filter_subseteq.
Qed.

Lemma sender_key_ok clock now from epoch wrapped (k : KM) : keys_ok clock k -> clock <= now ->
  keys_ok now (snd (sender_key is_public is_encapped open_auth from epoch wrapped now k)) /\
  same_room k (snd (sender_key is_public is_encapped open_auth from epoch wrapped now k)).
Proof.
  intros Hok Hle. apply (ok_later _ now) in Hok; [|done]. destruct Hok as (Hb & Hh & Hs). unfold sender_key.
  destruct (decide _); [split; [done|apply same_room_refl]|].
  pose proof (sender_key_at_ok valid_key verify_strict is_public is_encapped open_auth hkdf16 now from epoch wrapped now k Hb) as H.
  destruct (sender_key_at _ _ _ _ _ _ _ _ k) as [res k']. destruct H as [Hb' Hsame]. cbn [snd]. split; [|done]. split; [done|].
  unfold same_room in Hsame. destruct Hsame as (_ & _ & E1 & _ & _ & E2 & _ & E3 & E4 & _). rewrite E1, E2, E3, E4. done.
Qed.

(** ** Every step keeps the invariant *)

Lemma key_step_ok clock now unix_now ev (k : KM) : keys_ok clock k -> clock <= now -> event_ok ev ->
  let k' := snd (keys_step now unix_now ev k) in
  keys_ok now k' /\ k_me k' = k_me k /\ covers (fl_at (k_floors k')) (fl_at (k_floors k)) /\
  ((k_room k' = k_room k /\ k_floor k' = k_floor k) \/ (k_room k' <> k_room k /\ k_floor k' = (r ← k_room k'; floors_get (k_floors k) (k_me k) r))).
Proof.
  intros Hok Hle Hev. cbv zeta. pose proof (ok_later _ now _ Hok Hle) as Hok'. destruct Hok as (Hb & Hh & Hsec).
  assert (forall secret room epoch peers, let k' := snd (let '(request, _, k') := changed secret unix_now room epoch peers now k in (option_list request, k')) in
    keys_ok now k' /\ k_me k' = k_me k /\ covers (fl_at (k_floors k')) (fl_at (k_floors k)) /\ (k_room k' = k_room k /\ k_floor k' = k_floor k)) as Hch.
  { intros secret room epoch peers. pose proof (changed_ok clock now secret unix_now room epoch peers k Hb Hh Hle) as H.
    destruct (changed _ _ _ _ _ _ k) as [[request notices] k']. cbn [snd].
    destruct H as [(_ & _ & Hok2 & _ & (S1 & _ & _ & _ & S5 & S6 & S7 & _))|(_ & _ & x & ->)]; [done|].
    destruct Hok' as (Hb' & ?). split; [split; [by apply base_stash|done]|done]. }
  destruct ev as [user room|secret|secret secret' room epoch tracks peers|secret room epoch peers|from epoch wrapped|m e| |enc|user room epoch]; cbn [keys_step].
  - split; [by apply presence_ok|]. unfold set_presence. destruct room; [destruct (_ && _)|]; cbn; (split; [done|split; [done|by left]]).
  - unfold reapply_peers. destruct (k_room k) as [room|] eqn:Er; [|cbn; split; [done|split; [done|split; [done|by left; split]]]].
    destruct (Hch secret room (k_epoch k) (k_room_peers k)) as (? & ? & ? & ?). split; [done|]. split; [done|]. split; [done|by left].
  - pose proof (placed_ok clock now secret secret' unix_now room epoch tracks peers k (conj Hb (conj Hh Hsec)) Hle Hev) as H.
    destruct (placed _ _ _ _ _ _ _ _ k) as [[requests notices] k']. cbn [snd]. destruct H as (? & Er & ? & ? & Ef). split; [done|]. split; [done|]. split; [done|].
    destruct (decide (room <> k_room k)) as [Hne|Heq]; [right; by rewrite Er, Ef|]. apply dec_stable in Heq. left. split; congruence.
  - destruct (Hch secret room epoch peers) as (? & ? & ? & ?). split; [done|]. split; [done|]. split; [done|by left].
  - destruct (sender_key_ok clock now from epoch wrapped k (conj Hb (conj Hh Hsec)) Hle) as [? Hs]. unfold same_room in Hs.
    destruct Hs as (E1 & _ & E3 & _ & _ & _ & _ & _ & _ & _ & _ & E12 & E13 & _). split; [done|]. split; [done|]. cbn [snd]. rewrite E12. split; [done|by left].
  - split; [by apply recv_key_ok|]. cbn [snd]. unfold recv_key. destruct (below_floor e k), (owner_of m k) as [o|]; try (split; [done|split; [done|by left]]).
    destruct (k_recv_keys k !! (m, e)) as [[c key]|], (k_received k !! (o, e)); try (destruct (decide (c = o))); (split; [done|split; [done|by left]]).
  - split; [by apply (keys_tick_ok now)|]. cbn. destruct (k_retired_encryption k) as [[? until]|]; [destruct (until <=? now)|]; (split; [done|split; [done|by left]]).
  - split; [|split; [done|split; [done|by left]]]. destruct Hok' as ([] & ?). split; [|done]. by split.
  - split; [|split; [done|split; [apply raise_covers|by left]]]. destruct Hok' as ([] & ?). split; [|done]. split; try done. cbn.
    intros r Hr Hne. destruct (ko_floors r Hr Hne) as (f & Hf & ?). destruct (raise_covers user room epoch (k_floors k) (k_me k, r) f Hf) as (f' & ? & ?).
    exists f'. split; [done|lia].
Qed.
(** ** Runs keep it *)

Lemma keys_new_ok me encryption server floors now : keys_ok now (keys_new me encryption server floors now).
Proof.
  split; [|split; [done|cbn; split; by intros []]].
  split; try done.
Qed.

Lemma run_keeps clock es (k : KM) : keys_ok clock k -> run_ok clock es -> keys_ok (run_clock clock es) (keys_run es k) /\ k_me (keys_run es k) = k_me k /\
  covers (fl_at (k_floors (keys_run es k))) (fl_at (k_floors k)).
Proof.
  revert clock k. induction es as [|[[now unix_now] ev] es IH]; intros clock k Hok Hes; [done|]. destruct Hes as (Hle & Hev & Hes).
  destruct (key_step_ok clock now unix_now ev k Hok Hle Hev) as (Hok1 & M1 & C1 & _). cbn [run_clock keys_run foldl].
  destruct (IH now _ Hok1 Hes) as (? & M2 & C2). unfold keys_run in *. split; [done|]. split; [congruence|]. by etransitivity.
Qed.

(** Once the newest epoch we took part in is in the floors, no later stay goes below it. *)
Definition floor_above (room : RoomId) (epoch : Epoch) (k : KM) : Prop :=
  (exists f, floors_get (k_floors k) (k_me k) room = Some f /\ epoch <= f) /\ (k_room k = Some room -> exists f, k_floor k = Some f /\ epoch <= f).

Lemma floor_kept clock room epoch es (k : KM) : keys_ok clock k -> run_ok clock es -> floor_above room epoch k -> floor_above room epoch (keys_run es k).
Proof.
  revert clock k. induction es as [|[[now unix_now] ev] es IH]; intros clock k Hok Hes Hf; [done|]. destruct Hes as (Hle & Hev & Hes).
  destruct (key_step_ok clock now unix_now ev k Hok Hle Hev) as (Hok1 & M1 & C1 & Hroom). cbn [keys_run foldl]. apply (IH now); [done..|].
  destruct Hf as [(f & Hf & He) Hin]. split.
  - destruct (C1 _ _ Hf) as (f' & Hf' & ?). exists f'. unfold floors_get. rewrite M1. split; [done|lia].
  - intros Hr. destruct Hroom as [[Er Ef]|[_ Ef]]; [rewrite Ef; apply Hin; congruence|]. rewrite Ef, Hr. exists f. done.
Qed.

Lemma run_app es es' (k : KM) : keys_run (es ++ es') k = keys_run es' (keys_run es k).
Proof. apply foldl_app. Qed.

Lemma below_floor_refuses m e epoch (k : KM) : (exists f, k_floor k = Some f /\ epoch <= f) -> e <= epoch ->
  below_floor e k = true /\ fst (recv_key hkdf16 m e k) = None.
Proof.
  intros (f & Hf & ?) ?. assert (below_floor e k = true) as Hb by (unfold below_floor; by rewrite Hf, (proj2 (Z.leb_le _ _)) by lia).
  split; [done|]. unfold recv_key. by rewrite Hb.
Qed.

(** ** Theorems *)

Context (me : UserId) (encryption : Private) (server : bytes) (floors : Floors) (start : Z).
Definition reached (es : list (Z * option Z * KeysEvent)) : KM := keys_run es (keys_new me encryption server floors start).

(** C4: Our sender secret goes to nobody but the trusted.  After any run, applying a room
    state for our room trusts only peers it lists that are shown in the room, whose
    encryption key has not expired and is signed by the identity key they present for this
    server and user, and nobody when the state is too large or reuses a user or a media id;
    the secret we then hold has been wrapped to exactly those; and it is either the one we
    held, with nothing sent, the same epoch and the same trusted keys, or one drawn now and
    sent now, to each of them, so no peer added or gone ever holds one from before or after. *)
Theorem our_secret_reaches_only_the_trusted es now secret unix_now room epoch peers :
  run_ok start es -> run_clock start es <= now -> k_room (reached es) = Some room -> k_epoch (reached es) <= epoch ->
  let '(request, _, k') := changed secret unix_now room epoch peers now (reached es) in
  settled valid_key verify_strict is_public seal_auth secret unix_now room epoch peers (reached es) request k' /\
  k_wrapped_to k' = peer_set (k_peers k').
Proof.
  intros Hes Hle Hroom He. destruct (run_keeps start es _ (keys_new_ok me encryption server floors start) Hes) as ((Hb & Hh & _) & _).
  fold (reached es) in Hb, Hh. pose proof (changed_ok _ now secret unix_now room epoch peers _ Hb Hh Hle) as H.
  destruct (changed _ _ _ _ _ _ _) as [[request notices] k']. destruct H as [(_ & _ & (_ & Hh' & Hs') & Hset & _)|[[] _]]; [|done].
  split; [done|]. destruct Hset as (Er & _). rewrite Hh'. destruct (k_my_secret k'); [done|]. rewrite Er in Hs'. by destruct (proj1 Hs' ltac:(by eexists)).
Qed.

(** C6: A receive key is always the owner's.  After any run, a key handed out for a media id
    and an epoch is derived for that media id from a secret that opened, under the context of
    this server, this room and epoch, as sent to us by the trusted peer whose tracks list the
    media id, whose keys are bound to its user; and the epoch is the room's current one or
    the one before, above every epoch we took part in before we came to the room. *)
Theorem receive_keys_are_the_owners es media_id epoch key :
  run_ok start es -> fst (recv_key hkdf16 media_id epoch (reached es)) = Some key ->
  let k := reached es in
  exists room owner p secret, k_room k = Some room /\ k_peers k !! owner = Some p /\ media_id ∈ track_ids (kp_tracks p) /\
    bound valid_key verify_strict (k_server k) owner (kp_identity_key p) (kp_encryption_key p) /\
    opened is_public is_encapped open_auth k room owner epoch secret /\ key = track_key hkdf16 secret media_id /\
    k_epoch k - 1 <= epoch <= k_epoch k /\ (forall floor, k_floor k = Some floor -> floor < epoch).
Proof.
  intros Hes Hkey k. destruct (run_keeps start es _ (keys_new_ok me encryption server floors start) Hes) as ((Hb & _) & _). fold (reached es) in Hb. fold k in Hb, Hkey.
  clearbody k. destruct Hb. unfold recv_key in Hkey. destruct (below_floor epoch k) eqn:Ebelow; [done|]. unfold owner_of in Hkey. destruct (k_owners k !! media_id) as [owner|] eqn:Eo; [|done].
  destruct (ko_owners _ _ Eo) as (p & Hp & Hm). destruct (ko_peers _ _ Hp) as ([room Hroom] & _ & Hbound).
  assert (exists r, k_received k !! (owner, epoch) = Some r /\ key = track_key hkdf16 (rc_secret r) media_id) as (r & Hr & ->).
  { destruct (k_recv_keys k !! (media_id, epoch)) as [[c ckey]|] eqn:Ec; [destruct (decide (c = owner)) as [->|]|];
      [injection Hkey as <-; by apply ko_recv|destruct (k_received k !! (owner, epoch)) as [r|]; [injection Hkey as <-; by exists r|done]..]. }
  destruct (ko_received _ _ _ Hr) as ((room' & Hroom' & Hopened) & Hfl & Hle). assert (room' = room) as -> by congruence.
  exists room, owner, p, (rc_secret r). unfold below_floor in Ebelow. apply orb_false_elim in Ebelow as [_ Eb%Z.ltb_ge]. split_and!; try done. lia.
Qed.

(** Secrets are forgotten.  After any run, a tick [OLD_KEY_GRACE] after the epoch began
    leaves no secret of an earlier epoch and no key for one, and a tick that long after the
    last operation leaves only the secrets no peer's departure has retired. *)
Theorem old_secrets_are_forgotten es now :
  run_ok start es -> run_clock start es <= now -> k_epoch_since (reached es) + OLD_KEY_GRACE <= now ->
  let k := keys_tick now (reached es) in
  (forall from e, is_Some (k_received k !! (from, e)) -> e = k_epoch k) /\
  (forall media_id e, is_Some (fst (recv_key hkdf16 media_id e k)) -> e = k_epoch k) /\
  (run_clock start es + OLD_KEY_GRACE <= now -> forall from e r, k_received k !! (from, e) = Some r -> rc_retire_at r = None).
Proof.
  intros Hes Hle Hsince k. destruct (run_keeps start es _ (keys_new_ok me encryption server floors start) Hes) as (Hok & _). fold (reached es) in Hok.
  pose proof (keys_tick_ok _ now _ Hok Hle) as Hokt. fold k in Hokt.
  assert (k_epoch k = k_epoch (reached es)) as Ek by (unfold k, keys_tick; destruct (k_retired_encryption _) as [[? until]|]; [destruct (until <=? now)|]; done).
  assert (forall from e r, k_received k !! (from, e) = Some r -> k_received (reached es) !! (from, e) = Some r /\ usable now r = true) as Hrec.
  { intros from e r H. unfold k, keys_tick in H. apply map_lookup_filter_Some in H as [H Hu]. split; [|done].
    destruct (k_retired_encryption _) as [[? until]|]; [destruct (until <=? now)|]; done. }
  destruct Hok as (Hb & _).
  assert (forall from e, is_Some (k_received k !! (from, e)) -> e = k_epoch k) as Hcur.
  { intros from e [r [Hr Hu]%Hrec]. pose proof (ko_retire _ _ _ _ _ _ _ _ Hb _ _ _ Hr) as Ht. pose proof (ko_received _ _ _ _ _ _ _ _ Hb _ _ _ Hr) as (_ & _ & Hle').
    unfold usable in Hu. destruct (rc_retire_at r) as [at_|]; [|congruence]. apply Z.ltb_lt in Hu. destruct Ht as [_ Ht].
    destruct (Z.lt_ge_cases e (k_epoch (reached es))); [specialize (Ht ltac:(done)); lia|lia]. }
  split; [done|]. split.
  - intros m e [key Hkey]. destruct Hokt as (Hbt & _). unfold recv_key in Hkey. destruct (below_floor e k); [done|]. destruct (owner_of m k) as [o|]; [|done].
    destruct (k_recv_keys k !! (m, e)) as [[c ckey]|] eqn:Ec.
    + destruct (ko_recv _ _ _ _ _ _ _ _ Hbt _ _ _ _ Ec) as (r & Hr & _). apply (Hcur c). by exists r.
    + destruct (k_received k !! (o, e)) as [r|] eqn:Er; [|done]. apply (Hcur o). by exists r.
  - intros Hlate from e r [Hr Hu]%Hrec. pose proof (ko_retire _ _ _ _ _ _ _ _ Hb _ _ _ Hr) as Ht. unfold usable in Hu.
    destruct (rc_retire_at r) as [at_|]; [|done]. apply Z.ltb_lt in Hu. lia.
Qed.

(** C12: No old call can be replayed.  Once we took part in an epoch of a room, and were
    elsewhere since, then whenever we are in that room again, whatever the server sent
    meanwhile, no key is given out for that epoch or one before it, and a sender key for
    one is refused as stale. *)
Theorem no_epoch_is_replayed es es' es'' room epoch e media_id from wrapped now :
  run_ok start (es ++ es' ++ es'') ->
  k_room (reached es) = Some room -> k_epoch (reached es) = epoch -> epoch <> 0 ->
  k_room (reached (es ++ es')) <> Some room -> k_room (reached (es ++ es' ++ es'')) = Some room ->
  e <= epoch -> length wrapped = WRAPPED_BYTES ->
  let k := reached (es ++ es' ++ es'') in
  fst (recv_key hkdf16 media_id e k) = None /\
  sender_key is_public is_encapped open_auth from e wrapped now k = (inr Stale, k).
Proof.
  intros Hes Hroom He Hne Haway Hback Hle Hlen k.
  assert (forall l l' c, run_ok c (l ++ l') -> run_ok c l /\ run_ok (run_clock c l) l') as Hsplit.
  { induction l as [|[[n u] ev] l IH]; intros l' c H; [done|]. destruct H as (? & ? & H). destruct (IH l' n H). done. }
  destruct (Hsplit _ _ _ Hes) as [Hes1 Hes23]. destruct (Hsplit _ _ _ Hes23) as [Hes2 Hes3].
  destruct (run_keeps start es _ (keys_new_ok me encryption server floors start) Hes1) as (Hok1 & _). fold (reached es) in Hok1.
  destruct (run_keeps _ es' _ Hok1 Hes2) as (Hok2 & M2 & C2).
  assert (floor_above room epoch (keys_run es' (reached es))) as Hf.
  { destruct Hok1 as (Hb1 & _). destruct (ko_floors _ _ _ _ _ _ _ _ Hb1 room Hroom) as (f & Hf & Hfe); [by rewrite He|]. split.
    - destruct (C2 _ _ Hf) as (f' & Hf' & ?). exists f'. unfold floors_get. rewrite M2. split; [done|lia].
    - intros Hin. unfold reached in Haway. rewrite run_app in Haway. done. }
  apply (floor_kept _ _ _ es'' _ Hok2 Hes3) in Hf.
  assert (keys_run es'' (keys_run es' (reached es)) = k) as Ek by (unfold k, reached; by rewrite !run_app). rewrite Ek in Hf.
  destruct Hf as [_ Hf]. destruct (below_floor_refuses media_id e epoch k (Hf Hback) Hle) as [Hb ->]. split; [done|].
  unfold sender_key. rewrite decide_False by (intros Hn; by apply Hn). unfold sender_key_at. by rewrite Hb.
Qed.
End Theorems.

(** ** Examples *)

(** A transparent instance: a key pair is its public key, a signature is the signer and the
    message, and sealing adds nothing but length. *)
Module Toy.
Definition valid_key (_ : bytes) : bool := true.
Definition verify_strict (key message sig : bytes) : bool := bool_decide (sig = key ++ message).
Definition is_public (_ : bytes) : bool := true.
Definition seal_auth (_ _ _ secret : bytes) : option (bytes * bytes) := Some (replicate 32 1, secret ++ replicate 16 0).
Definition open_auth (_ _ _ _ ciphertext : bytes) : option bytes := Some (take 32 ciphertext).
Definition hkdf16 (secret info : bytes) : bytes := secret ++ info.

(** User [u]'s identity key is [[u]], its encryption key [[u; u]], its mic [10 * u]. *)
Definition peer (u : UserId) : Peer :=
  mkPeer u (mkTracks (10 * u) []) None [u] (mkSignedEncryptionKey [u; u] 1000 ([u] ++ encryption_key_message [5] u 1000 [u; u])).
Definition drawn (n : Z) : bytes := replicate 32 n.
Definition sealed (n : Z) : bytes := replicate 32 1 ++ drawn n ++ replicate 16 0.

(** User 1 joins room 9 at epoch 3 with user 2 there; user 2's key comes. *)
Definition joined : list (Z * option Z * KeysEvent (Private := bytes)) :=
  [(0, Some 5, EvPresence 2 (Some 9)); (10, Some 5, EvPlacement (drawn 7) [] (Some 9) 3 (Some (mkTracks 10 [])) [peer 2]);
   (20, Some 5, EvSenderKey 2 3 (sealed 8))].
Abbreviation reached_after := (reached valid_key verify_strict is_public is_public seal_auth open_auth hkdf16 1 [1; 1] [5] floors_default 0).
Definition k_joined : KeyManager bytes bytes := reached_after joined.
End Toy.

(** A third user comes: the secret drawn then goes to both, and a fourth, who shows nobody
    in the room, gets none. *)
Lemma our_secret_reaches_only_the_trusted_witness :
  let '(request, _, k') := peers_changed Toy.valid_key Toy.verify_strict Toy.is_public Toy.is_public Toy.seal_auth Toy.open_auth Toy.hkdf16
    (Toy.drawn 6) (Some 5) 9 4 [Toy.peer 2; Toy.peer 3; Toy.peer 4] 30 (Toy.reached_after (Toy.joined ++ [(25, Some 5, EvPresence 3 (Some 9))])) in
  request = Some (PublishSenderKey 4 [(2, Toy.sealed 6); (3, Toy.sealed 6)]) /\ k_wrapped_to k' = peer_set (k_peers k').
Proof.
  pose proof (our_secret_reaches_only_the_trusted Toy.valid_key Toy.verify_strict Toy.is_public Toy.is_public Toy.seal_auth Toy.open_auth Toy.hkdf16
    1 [1; 1] [5] floors_default 0 (Toy.joined ++ [(25, Some 5, EvPresence 3 (Some 9))]) 30 (Toy.drawn 6) (Some 5) 9 4 [Toy.peer 2; Toy.peer 3; Toy.peer 4]) as H.
  assert (fst (fst (peers_changed Toy.valid_key Toy.verify_strict Toy.is_public Toy.is_public Toy.seal_auth Toy.open_auth Toy.hkdf16
    (Toy.drawn 6) (Some 5) 9 4 [Toy.peer 2; Toy.peer 3; Toy.peer 4] 30 (Toy.reached_after (Toy.joined ++ [(25, Some 5, EvPresence 3 (Some 9))]))))
      = Some (PublishSenderKey 4 [(2, Toy.sealed 6); (3, Toy.sealed 6)])) as E by (vm_compute; reflexivity).
  destruct (peers_changed _ _ _ _ _ _ _ _ _ _ _ _ _ _) as [[request notices] k']. split; [exact E|]. apply H.
  - vm_compute. repeat split; discriminate.
  - vm_compute. discriminate.
  - vm_compute. reflexivity.
  - vm_compute. discriminate.
Defined.

Lemma receive_keys_are_the_owners_witness :
  fst (recv_key Toy.hkdf16 20 3 Toy.k_joined) = Some (track_key Toy.hkdf16 (Toy.drawn 8) 20) /\
  exists room owner secret, opened Toy.is_public Toy.is_public Toy.open_auth Toy.k_joined room owner 3 secret /\
    track_key Toy.hkdf16 (Toy.drawn 8) 20 = track_key Toy.hkdf16 secret 20.
Proof.
  assert (fst (recv_key Toy.hkdf16 20 3 Toy.k_joined) = Some (track_key Toy.hkdf16 (Toy.drawn 8) 20)) as E by (vm_compute; reflexivity).
  split; [exact E|].
  destruct (receive_keys_are_the_owners Toy.valid_key Toy.verify_strict Toy.is_public Toy.is_public Toy.seal_auth Toy.open_auth Toy.hkdf16
    1 [1; 1] [5] floors_default 0 Toy.joined 20 3 _ ltac:(vm_compute; repeat split; discriminate) E) as (room & owner & p & secret & _ & _ & _ & _ & Ho & Ek & _).
  exists room, owner, secret. split; [exact Ho|exact Ek].
Defined.

(** The epoch moves on at 30; the secret user 2 sent for epoch 3 is there at 2029, gone at 2030. *)
Lemma old_secrets_are_forgotten_witness :
  let es := Toy.joined ++ [(30, Some 5, EvPeers (Toy.drawn 6) 9 4 [Toy.peer 2])] in
  is_Some (fst (recv_key Toy.hkdf16 20 3 (keys_tick 2029 (Toy.reached_after es)))) /\
  forall from e, is_Some (k_received (keys_tick 2030 (Toy.reached_after es)) !! (from, e)) -> e = k_epoch (keys_tick 2030 (Toy.reached_after es)).
Proof.
  intros es. split; [vm_compute; by eexists|].
  apply (old_secrets_are_forgotten Toy.valid_key Toy.verify_strict Toy.is_public Toy.is_public Toy.seal_auth Toy.open_auth Toy.hkdf16 1 [1; 1] [5] floors_default 0 es 2030).
  - vm_compute. repeat split; discriminate.
  - vm_compute. discriminate.
  - vm_compute. discriminate.
Defined.

(** We leave, and the server places us in the same epoch again. *)
Lemma no_epoch_is_replayed_witness :
  let back := [(40, Some 5, EvPlacement (Toy.drawn 4) [] (Some 9) 3 (Some (mkTracks 10 [])) [Toy.peer 2])] in
  let away := [(35, Some 5, EvPlacement [] [] None 0 None [])] in
  let k := Toy.reached_after (Toy.joined ++ away ++ back) in
  k_epoch k = 3 /\ fst (recv_key Toy.hkdf16 20 3 k) = None /\
  sender_key Toy.is_public Toy.is_public Toy.open_auth 2 3 (Toy.sealed 8) 50 k = (inr Stale, k).
Proof.
  intros back away k. split; [vm_compute; reflexivity|].
  apply (no_epoch_is_replayed Toy.valid_key Toy.verify_strict Toy.is_public Toy.is_public Toy.seal_auth Toy.open_auth Toy.hkdf16
    1 [1; 1] [5] floors_default 0 Toy.joined away back 9 3).
  - vm_compute. repeat split; discriminate.
  - vm_compute. reflexivity.
  - vm_compute. reflexivity.
  - discriminate.
  - vm_compute. discriminate.
  - vm_compute. reflexivity.
  - lia.
  - vm_compute. reflexivity.
Defined.
