(* ===== verification/Engine.v ===== *)
(** * The media engine (throcc-client-core, media/engine.rs)

    Sealing our units into datagrams, and for a remote track decrypting, deduplicating,
    reassembling and reordering them into units for its consumer.  A channel is tokio's: what
    a [try_send] answers is an argument, what a channel took is a list. *)
From S2P Require Import Prelude Ordered Ids Frame Messages Crypto Fragment Reorder Floors KeysState Keys.
Open Scope Z_scope.

(* @src/crates/throcc-client-core/src/media/engine.rs 25-27 PENDING_KEY_WAIT *)
Definition PENDING_KEY_WAIT : Z := 500.
(* @src/crates/throcc-client-core/src/media/engine.rs 28-29 SEND_BUDGET *)
Definition SEND_BUDGET : Z := 100.
(* @src/crates/throcc-client-core/src/media/engine.rs 32-32 MAX_PENDING *)
Definition MAX_PENDING : Z := 512.
(* @src/crates/throcc-client-core/src/media/engine.rs 33-33 TICK *)
Definition TICK : Z := 20.
(* @src/crates/throcc-client-core/src/media/engine.rs 34-36 AUDIO_STRAGGLER_SEQS *)
Definition AUDIO_STRAGGLER_SEQS : Z := 64.

(* @src/crates/throcc-client-core/src/media/engine.rs 38-42 Kind *)
Inductive Kind := AudioKind | VideoKind.
#[export] Instance Kind_eq_dec : EqDecision Kind.
Proof. solve_decision. Defined.

(* @src/crates/throcc-client-core/src/media/engine.rs 44-50 Received *)
Record Received := mkReceivedUnit { rv_timestamp : Z; rv_flags : Z; rv_data : bytes }.
#[export] Instance Received_eq_dec : EqDecision Received.
Proof. solve_decision. Defined.
(* @src/crates/throcc-client-core/src/media/engine.rs 52-60! Received::from *)
Definition received_from (u : Unit) : Received := mkReceivedUnit (un_timestamp u) (un_flags u) (un_data u).

(* @src/crates/throcc-client-core/src/media/engine.rs 62-69 Outgoing *)
Record Outgoing := mkOutgoing { og_media_id : MediaId; og_data : bytes; og_timestamp : Z; og_keyframe : bool; og_enqueued : Z }.

(** The counters of [Stats], by the field they are. *)
(* @src/crates/throcc-client-core/src/media/engine.rs 84-99 Stats *)
Inductive Counter := Duplicates | TooOld | UnknownTrack | Malformed | DecryptFailures | TrackOverflow | LateUnits | AbandonedUnits
  | SendQueueFull | SendDroppedUnits | SentDatagrams.
#[export] Instance Counter_eq_dec : EqDecision Counter.
Proof. solve_decision. Defined.
Definition Stats : Type := Counter -> Z.
Definition stats_default : Stats := fun _ => 0.
Definition fetch_add (c : Counter) (n : Z) (s : Stats) : Stats := fun c' => if decide (c' = c) then wrap64 (s c' + n) else s c'.

(* @src/crates/throcc-client-core/src/media/engine.rs 384-394 Stats::count *)
Definition stats_count (seen : Seen) (s : Stats) : Stats :=
  match seen with SeenNew => s | SeenDuplicate => fetch_add Duplicates 1 s | SeenTooOld => fetch_add TooOld 1 s end.

(* @src/crates/throcc-client-core/src/media/engine.rs 101-108 Arrived *)
Record Arrived := mkArrived { av_datagrams : Z; av_lost : Z; av_bytes : Z }.

(** [sk_inbox] tells whether a track task is subscribed. *)
(* @src/crates/throcc-client-core/src/media/engine.rs 110-118 Sink *)
Record Sink := mkSink { sk_window : ReplayWindow; sk_inbox : bool; sk_bytes : Z }.
Definition sink_default : Sink := mkSink window_default false 0.

(* @src/crates/throcc-client-core/src/media/engine.rs 121-128 Sink::accept *)
Definition sink_accept (seq len : Z) (s : Sink) : Seen * Sink :=
  let '(seen, window) := window_check (sk_window s) seq in
  (seen, mkSink window (sk_inbox s) (match seen with SeenNew => wrap64 (sk_bytes s + len) | _ => sk_bytes s end)).

(** What a channel's [try_send] answers. *)
Inductive TrySend := TookIt | Full | Closed.

(** ** The receive loop *)

(** The datagram that goes to the track's inbox, if one does. *)
(* @src/crates/throcc-client-core/src/media/engine.rs 352-381 receive_loop *)
Definition receive_loop_step (answer : TrySend) (datagram : bytes) (sinks : gmap MediaId Sink) (stats : Stats) : option bytes * gmap MediaId Sink * Stats :=
  match header_parse_strict datagram with
  | inr _ => (None, sinks, fetch_add Malformed 1 stats)
  | inl header =>
      match sinks !! hdr_media_id header with
      | None => (None, sinks, fetch_add UnknownTrack 1 stats)
      | Some sink =>
          if negb (sk_inbox sink) then (None, sinks, fetch_add UnknownTrack 1 stats) else
          match window_peek (sk_window sink) (hdr_seq header) with
          | SeenNew =>
              match answer with
              | TookIt => (Some datagram, sinks, stats)
              | Full => (None, sinks, fetch_add TrackOverflow 1 stats)
              | Closed => (None, <[hdr_media_id header := mkSink (sk_window sink) false (sk_bytes sink)]> sinks, fetch_add UnknownTrack 1 stats)
              end
          | seen => (None, sinks, stats_count seen stats)
          end
      end
  end.

(* @src/crates/throcc-client-core/src/media/engine.rs 280-301 MediaEngine::subscribe *)
Definition subscribe (media_id : MediaId) (sinks : gmap MediaId Sink) : gmap MediaId Sink :=
  let sink := default sink_default (sinks !! media_id) in <[media_id := mkSink (sk_window sink) true (sk_bytes sink)]> sinks.
(* @src/crates/throcc-client-core/src/media/engine.rs 315-319 MediaEngine::unsubscribe *)
Definition unsubscribe (media_id : MediaId) (sinks : gmap MediaId Sink) : gmap MediaId Sink :=
  match sinks !! media_id with Some sink => <[media_id := mkSink (sk_window sink) false (sk_bytes sink)]> sinks | None => sinks end.
(* @src/crates/throcc-client-core/src/media/engine.rs 321-330 MediaEngine::arrived *)
Definition arrived_on (media_id : MediaId) (sinks : gmap MediaId Sink) : Arrived :=
  match sinks !! media_id with
  | None => mkArrived 0 0 0
  | Some s => mkArrived (rw_received (sk_window s)) (window_lost (sk_window s)) (sk_bytes s)
  end.

Section Engine.
Context {Private Key : Type}.
Context (valid_key : bytes -> bool) (verify_strict : bytes -> bytes -> bytes -> bool).
Context (is_public is_encapped : bytes -> bool)
  (seal_auth : Private -> bytes -> bytes -> bytes -> option (bytes * bytes))
  (open_auth : Private -> bytes -> bytes -> bytes -> bytes -> option bytes).
Context (hkdf16 : bytes -> bytes -> Key)
  (encrypt : Key -> bytes -> bytes -> bytes -> option (bytes * bytes))
  (decrypt : Key -> bytes -> bytes -> bytes -> bytes -> option bytes).

Abbreviation KM := (KeyManager Private Key).

(** ** Sealing *)

(* @src/crates/throcc-client-core/src/media/engine.rs 615-620 Sealer *)
Definition Sealer : Type := gmap MediaId Z.

(** The loop over a unit's fragments, from the track's [seq]. *)
(* @src/crates/throcc-client-core/src/media/engine.rs 627-649! Sealer::seal *)
Fixpoint seal_fragments (media_id : MediaId) (epoch : Epoch) (key : Key) (fragments : list Fragment) (seq : Z) : list bytes * Z :=
  match fragments with
  | [] => ([], seq)
  | fragment :: fragments =>
      match checked_add32 seq 1 with
      | None => ([], seq)
      | Some next =>
          let '(datagrams, seq') := seal_fragments media_id epoch key fragments next in
          (match Crypto.seal encrypt key (mkHeader media_id epoch seq (fr_flags fragment)) (plaintext_parts fragment) with
           | inl sealed => sealed :: datagrams
           | inr _ => datagrams
           end, seq')
      end
  end.

(* @src/crates/throcc-client-core/src/media/engine.rs 623-651 Sealer::seal *)
Definition sealer_seal (unit : Outgoing) (epoch : Epoch) (key : Key) (sealer : Sealer) : list bytes * Sealer :=
  let fragments := fragment (og_data unit) (og_timestamp unit) (og_keyframe unit) in
  let '(datagrams, seq) := seal_fragments (og_media_id unit) epoch key fragments (default 0 (sealer !! og_media_id unit)) in
  (datagrams, <[og_media_id unit := seq]> sealer).

(** What the send task keeps: the sealer and [Stats::sent_bytes]. *)
Record Sending := mkSending { sn_sealer : Sealer; sn_bytes : gmap MediaId Z; sn_stats : Stats }.

(* @src/crates/throcc-client-core/src/media/engine.rs 716-727! seal *)
Definition engine_seal (k : KM) (unit : Outgoing) (s : Sending) : option (list bytes) * Sending :=
  match send_key (og_media_id unit) k with
  | None => (None, s)
  | Some (epoch, key) =>
      let '(datagrams, sealer) := sealer_seal unit epoch key (sn_sealer s) in
      let n := Z.of_nat (length (concat datagrams)) in
      (Some datagrams, mkSending sealer (<[og_media_id unit := wrap64 (default 0 (sn_bytes s !! og_media_id unit) + n)]> (sn_bytes s)) (sn_stats s))
  end.

(* @src/crates/throcc-client-core/src/media/engine.rs 654-656 KEYFRAME_COPIES *)
Definition KEYFRAME_COPIES : nat := 2.

(** What a video datagram's turn finds: the voice units that wait, each with the keys of the
    moment, whether newer video waits, and the clock. *)
Record Turn := mkTurn { tn_voices : list (KM * Outgoing); tn_video_waits : bool; tn_now : Z }.

(* @src/crates/throcc-client-core/src/media/engine.rs 710-714 copy_would_delay *)
Definition copy_would_delay (unit : Outgoing) (turn : Turn) : bool :=
  tn_video_waits turn && (SEND_BUDGET / 2 <? sat_sub (tn_now turn) (og_enqueued unit)).

(** The datagrams that went out; the connection stays. *)
Definition send_datagram (datagram : bytes) (out : list bytes * Sending) : list bytes * Sending :=
  let '(sent, s) := out in (sent ++ [datagram], mkSending (sn_sealer s) (sn_bytes s) (fetch_add SentDatagrams 1 (sn_stats s))).
(* @src/crates/throcc-client-core/src/media/engine.rs 729-743 send_unit *)
Definition send_unit (k : KM) (unit : Outgoing) (out : list bytes * Sending) : list bytes * Sending :=
  let '(sent, s) := out in
  let '(datagrams, s) := engine_seal k unit s in
  foldl (fun out d => send_datagram d out) (sent, s) (default [] datagrams).

(** The loop over a video unit's datagrams and their copies. *)
(* @src/crates/throcc-client-core/src/media/engine.rs 687-706! send_loop *)
Fixpoint send_copies (unit : Outgoing) (originals sent : nat) (datagrams : list bytes) (turns : list Turn) (out : list bytes * Sending) : list bytes * Sending :=
  match datagrams, turns with
  | datagram :: datagrams, turn :: turns =>
      if (originals <=? sent)%nat && copy_would_delay unit turn then out else
      let out := foldl (fun out '(k, voice) => send_unit k voice out) out (tn_voices turn) in
      send_copies unit originals (S sent) datagrams turns (send_datagram datagram out)
  | _, _ => out
  end.

(** One round of the send loop: a voice unit, or a video unit at [now] with its turns; the
    last result tells that the encoder must recover. *)
Inductive SendRound := SendVoice (k : KM) (voice : Outgoing) | SendVideo (k : KM) (unit : Outgoing) (now : Z) (turns : list Turn).
(* @src/crates/throcc-client-core/src/media/engine.rs 658-708 send_loop *)
Definition send_round (r : SendRound) (out : list bytes * Sending) : list bytes * Sending * option MediaId :=
  match r with
  | SendVoice k voice => (send_unit k voice out, None)
  | SendVideo k unit now turns =>
      let '(sent, s) := out in
      if SEND_BUDGET <? sat_sub now (og_enqueued unit)
      then (sent, mkSending (sn_sealer s) (sn_bytes s) (fetch_add SendDroppedUnits 1 (sn_stats s)), Some (og_media_id unit))
      else
        match engine_seal k unit s with
        | (None, s) => (sent, s, None)
        | (Some datagrams, s) =>
            let copies := if og_keyframe unit then KEYFRAME_COPIES else 1%nat in
            (send_copies unit (length datagrams) 0 (concat (replicate copies datagrams)) turns (sent, s), None)
        end
  end.

(** ** Receiving a track *)

(** What a track task shares with the engine.  [sh_room] is what the consumer's channel
    answers next, [TookIt] when it has run out; [sh_out] is what it took. *)
Record Shared := mkShared {
  sh_keys : KM; sh_sinks : gmap MediaId Sink; sh_stats : Stats; sh_requests : list Request; sh_room : list TrySend; sh_out : list Received
}.
Definition on_stats (f : Stats -> Stats) (s : Shared) : Shared :=
  mkShared (sh_keys s) (sh_sinks s) (f (sh_stats s)) (sh_requests s) (sh_room s) (sh_out s).
Definition on_keys (k : KM) (s : Shared) : Shared := mkShared k (sh_sinks s) (sh_stats s) (sh_requests s) (sh_room s) (sh_out s).
Definition on_sinks (x : gmap MediaId Sink) (s : Shared) : Shared := mkShared (sh_keys s) x (sh_stats s) (sh_requests s) (sh_room s) (sh_out s).
Definition request (r : Request) (s : Shared) : Shared :=
  mkShared (sh_keys s) (sh_sinks s) (sh_stats s) (sh_requests s ++ [r]) (sh_room s) (sh_out s).
Definition try_send (r : Received) (s : Shared) : TrySend * Shared :=
  let answer := default TookIt (head (sh_room s)) in
  (answer, mkShared (sh_keys s) (sh_sinks s) (sh_stats s) (sh_requests s) (tail (sh_room s))
             (match answer with TookIt => sh_out s ++ [r] | _ => sh_out s end)).

(* @src/crates/throcc-client-core/src/media/engine.rs 397-416 Track *)
Record Track := mkTrack {
  tk_media_id : MediaId; tk_kind : Kind; tk_pending : list (Z * Epoch * bytes); tk_next_tick : option Z; tk_tried_generation : Z;
  tk_reassembler : Reassembler; tk_reorder : Reorder; tk_last_unit_overflowed : bool
}.
Definition with_pending (x : list (Z * Epoch * bytes)) (t : Track) : Track :=
  mkTrack (tk_media_id t) (tk_kind t) x (tk_next_tick t) (tk_tried_generation t) (tk_reassembler t) (tk_reorder t) (tk_last_unit_overflowed t).
Definition with_next_tick (x : option Z) (t : Track) : Track :=
  mkTrack (tk_media_id t) (tk_kind t) (tk_pending t) x (tk_tried_generation t) (tk_reassembler t) (tk_reorder t) (tk_last_unit_overflowed t).
Definition with_tried (x : Z) (t : Track) : Track :=
  mkTrack (tk_media_id t) (tk_kind t) (tk_pending t) (tk_next_tick t) x (tk_reassembler t) (tk_reorder t) (tk_last_unit_overflowed t).
Definition with_reassembler (x : Reassembler) (t : Track) : Track :=
  mkTrack (tk_media_id t) (tk_kind t) (tk_pending t) (tk_next_tick t) (tk_tried_generation t) x (tk_reorder t) (tk_last_unit_overflowed t).
Definition with_reorder (x : Reorder) (t : Track) : Track :=
  mkTrack (tk_media_id t) (tk_kind t) (tk_pending t) (tk_next_tick t) (tk_tried_generation t) (tk_reassembler t) x (tk_last_unit_overflowed t).
Definition with_overflowed (x : bool) (t : Track) : Track :=
  mkTrack (tk_media_id t) (tk_kind t) (tk_pending t) (tk_next_tick t) (tk_tried_generation t) (tk_reassembler t) (tk_reorder t) x.

(* @src/crates/throcc-client-core/src/media/engine.rs 419-447 Track::new *)
Definition track_new (media_id : MediaId) (kind : Kind) : Track :=
  mkTrack media_id kind [] None 0 (reassembler_new (match kind with AudioKind => MAX_AUDIO_UNIT_FRAGMENTS | VideoKind => MAX_VIDEO_UNIT_FRAGMENTS end))
    reorder_default false.

(* @src/crates/throcc-client-core/src/media/engine.rs 479-484 Track::next_wake *)
Definition next_wake (t : Track) : option Z :=
  match tk_next_tick t, reorder_deadline (tk_reorder t) with
  | Some a, Some b => Some (Z.min a b)
  | Some a, None => Some a
  | None, b => b
  end.

(* @src/crates/throcc-client-core/src/media/engine.rs 590-596 Track::ask_refresh *)
Definition ask_refresh (t : Track) (s : Shared) : Shared := request (RequestKeyframe (tk_media_id t) Refresh) s.

(* @src/crates/throcc-client-core/src/media/engine.rs 598-612 Track::deliver *)
Definition deliver (received : Received) (t : Track) (s : Shared) : Track * Shared :=
  let '(answer, s) := try_send received s in
  match answer with
  | TookIt => (with_overflowed false t, s)
  | refused =>
      let s := on_stats (fetch_add TrackOverflow 1) s in
      let full := match refused with Full => true | _ => false end in
      let s := if full && bool_decide (tk_kind t = VideoKind) && negb (tk_last_unit_overflowed t) then ask_refresh t s else s in
      (with_overflowed full t, s)
  end.

(* @src/crates/throcc-client-core/src/media/engine.rs 572-588 Track::emit *)
Definition emit (outputs : list Output) (t : Track) (s : Shared) : Track * Shared :=
  foldl (fun '(t, s) output =>
    match output with
    | OutUnit unit => deliver (received_from unit) (with_reassembler (forget_before (un_first_seq unit) (tk_reassembler t)) t) s
    | Abandoned _ => (t, ask_refresh t (on_stats (fetch_add AbandonedUnits 1) s))
    | Late => (t, on_stats (fetch_add LateUnits 1) s)
    end) (t, s) outputs.

(* @src/crates/throcc-client-core/src/media/engine.rs 563-570 Track::hold *)
Definition hold (arrived : Z) (epoch : Epoch) (datagram : bytes) (now : Z) (t : Track) (s : Shared) : Track * Shared :=
  if Z.of_nat (length (tk_pending t)) <? MAX_PENDING
  then (with_next_tick (Some (default (now + TICK) (tk_next_tick t))) (with_pending (tk_pending t ++ [(arrived, epoch, datagram)]) t), s)
  else (t, on_stats (fetch_add DecryptFailures 1) s).

(** A unit the reassembler gave back. *)
(* @src/crates/throcc-client-core/src/media/engine.rs 548-560! Track::handle *)
Definition pass_on (unit : Unit) (now : Z) (t : Track) (s : Shared) : Track * Shared :=
  match tk_kind t with
  | AudioKind =>
      let stragglers := sat_sub (un_first_seq unit) AUDIO_STRAGGLER_SEQS in
      deliver (received_from unit) (with_reassembler (forget_before stragglers (tk_reassembler t)) t) s
  | VideoKind =>
      let '(outputs, reorder) := reorder_push unit now (tk_reorder t) in
      emit outputs (with_reorder reorder t) s
  end.

(* @src/crates/throcc-client-core/src/media/engine.rs 518-561 Track::handle *)
Definition handle (epoch : Epoch) (datagram : bytes) (arrived now : Z) (t : Track) (s : Shared) : Track * Shared :=
  let '(key, k) := recv_key hkdf16 (tk_media_id t) epoch (sh_keys s) in
  let s := on_keys k s in
  match (fun key => Crypto.open decrypt key datagram) <$> key with
  | None | Some (inr AuthFailed) => hold arrived epoch datagram now t s
  | Some (inr _) => (t, on_stats (fetch_add DecryptFailures 1) s)
  | Some (inl (header, plaintext)) =>
      match sh_sinks s !! tk_media_id t with
      | None => (t, s)
      | Some sink =>
          let '(seen, sink) := sink_accept (hdr_seq header) (Z.of_nat (length datagram)) sink in
          let s := on_sinks (<[tk_media_id t := sink]> (sh_sinks s)) s in
          match seen with
          | SeenNew =>
              match ra_push (hdr_seq header) (hdr_flags header) plaintext (tk_reassembler t) with
              | (None, r) => (with_reassembler r t, s)
              | (Some unit, r) => pass_on unit now (with_reassembler r t) s
              end
          | seen => (t, on_stats (stats_count seen) s)
          end
      end
  end.

(* @src/crates/throcc-client-core/src/media/engine.rs 503-516 Track::retry_pending *)
Definition retry_pending (now : Z) (t : Track) (s : Shared) : Track * Shared :=
  match tk_pending t with
  | [] => (t, s)
  | pending =>
      let generation := k_generation (sh_keys s) in
      if generation =? tk_tried_generation t then (t, s) else
      foldl (fun '(t, s) '(arrived, epoch, datagram) => handle epoch datagram arrived now t s)
        (with_pending [] (with_tried generation t), s) pending
  end.

(* @src/crates/throcc-client-core/src/media/engine.rs 470-477 Track::receive *)
Definition track_receive (datagram : bytes) (now : Z) (t : Track) (s : Shared) : Track * Shared :=
  let '(t, s) := retry_pending now t s in
  match header_parse_strict datagram with
  | inl header => handle (hdr_epoch header) datagram now now t s
  | inr _ => (t, s)
  end.

(** The pending datagrams whose wait is over, from the oldest to the first that still waits. *)
Fixpoint expired (now : Z) (pending : list (Z * Epoch * bytes)) : nat :=
  match pending with
  | (arrived, _, _) :: pending => if PENDING_KEY_WAIT <=? sat_sub now arrived then S (expired now pending) else 0%nat
  | [] => 0%nat
  end.

(* @src/crates/throcc-client-core/src/media/engine.rs 486-501 Track::tick *)
Definition track_tick (now : Z) (t : Track) (s : Shared) : Track * Shared :=
  let n := expired now (tk_pending t) in
  let '(t, s) := retry_pending now (with_pending (drop n (tk_pending t)) t) (on_stats (fetch_add DecryptFailures (Z.of_nat n)) s) in
  let t := with_next_tick (match tk_pending t with [] => None | _ => Some (now + TICK) end) t in
  let '(outputs, reorder) := reorder_poll now (tk_reorder t) in
  emit outputs (with_reorder reorder t) s.

(** What wakes the task, and what other tasks do to the keys in between.  The task ends when
    the consumer has dropped its end. *)
Inductive TrackEvent := TkDatagram (datagram : bytes) (now : Z) | TkTimeout (now : Z) | TkKeys (k : KM).
(* @src/crates/throcc-client-core/src/media/engine.rs 449-468 Track::run *)
Definition track_step (e : TrackEvent) (ts : Track * Shared) : Track * Shared :=
  match e with
  | TkDatagram datagram now => track_receive datagram now ts.1 ts.2
  | TkTimeout now => track_tick now ts.1 ts.2
  | TkKeys k => (ts.1, on_keys k ts.2)
  end.
Definition track_run (es : list TrackEvent) (ts : Track * Shared) : Track * Shared := foldl (fun ts e => track_step e ts) ts es.

(** ** What control messages change *)

(** The secrets are drawn in the key manager, see [Keys]. *)
(* @src/crates/throcc-client-core/src/media/engine.rs 206-225 MediaEngine::apply_placement *)
Definition engine_apply_placement (secret secret' : bytes) (unix_now : option Z) (placement : Placement) (now : Z) (s : Shared) : list KeyNotice * Shared :=
  let room_changed := bool_decide (k_room (sh_keys s) <> pl_room placement) in
  let '(requests, notices, k) := apply_placement valid_key verify_strict is_public is_encapped seal_auth open_auth hkdf16 secret secret' unix_now
                                   (pl_room placement) (pl_epoch placement) (pl_tracks placement) (pl_peers placement) now (sh_keys s) in
  (notices, mkShared k (if room_changed then ∅ else sh_sinks s) (sh_stats s) (sh_requests s ++ requests) (sh_room s) (sh_out s)).

(* @src/crates/throcc-client-core/src/media/engine.rs 264-272 MediaEngine::rekey *)
Definition engine_rekey (f : KM -> option Request * list KeyNotice * KM) (s : Shared) : list KeyNotice * Shared :=
  let '(r, notices, k) := f (sh_keys s) in
  (notices, mkShared k (sh_sinks s) (sh_stats s) (sh_requests s ++ option_list r) (sh_room s) (sh_out s)).

(* @src/crates/throcc-client-core/src/media/engine.rs 252-262 MediaEngine::set_presence *)
Definition engine_set_presence (secret : bytes) (unix_now : option Z) (user : UserId) (room : option RoomId) (now : Z) (s : Shared) : list KeyNotice * Shared :=
  engine_rekey (fun k =>
    let '(moved, k) := set_presence user room k in
    if moved then reapply_peers valid_key verify_strict is_public is_encapped seal_auth open_auth hkdf16 secret unix_now now k
    else (None, [], k)) s.

(* @src/crates/throcc-client-core/src/media/engine.rs 227-250 MediaEngine::event *)
Definition engine_event (secret : bytes) (unix_now : option Z) (e : Event) (now : Z) (s : Shared) : list KeyNotice * Shared :=
  match e with
  | PeersChanged room epoch peers => engine_rekey (peers_changed valid_key verify_strict is_public is_encapped seal_auth open_auth hkdf16 secret unix_now room epoch peers now) s
  | SenderKeyPublished from epoch wrapped => ([], on_keys (snd (sender_key is_public is_encapped open_auth from epoch wrapped now (sh_keys s))) s)
  | PresenceChanged p => engine_set_presence secret unix_now (pr_user p) (pr_room p) now s
  | PresenceEnded user => engine_set_presence secret unix_now user None now s
  | _ => ([], s)
  end.
End Engine.
