(* ===== verification/EngineTrack.v ===== *)
(** * A track receives what was sealed on it

    From fragments laid out as their sender cut them, of which any subset arrives in any
    order, the reassembler, the reorder stage and the consumer's channel pass on whole units
    only, each once and video in order. *)
From S2P Require Import Prelude Ordered Ids Frame Messages Crypto Fragment FragmentWindow FragmentFacts FragmentRoundTrip Reorder Floors KeysState Keys Engine.
Open Scope Z_scope.

(** ** What the reassembler gives back *)

Section Reassembling.
Context (F : gmap Z (Z * bytes)) (L : list (Z * Z)) (bound : Z) (HF : laid_out F L bound).

Definition from_sender (m : gmap Z (Z * bytes)) : Prop := forall s v, m !! s = Some v -> F !! s = Some v.

Lemma from_sender_flagged m flag s : from_sender m -> s ∈ marked m flag -> s ∈ dom m /\ flagged F flag s.
Proof.
  intros Hm (f & d & H & Hf)%elem_of_marked. split; [apply elem_of_dom; by eexists|]. exists f, d. split; [by apply Hm|done].
Qed.
Lemma flagged_from_sender m flag s : from_sender m -> s ∈ dom m -> flagged F flag s -> s ∈ marked m flag.
Proof.
  intros Hm [w Hw]%elem_of_dom (f & d & H & Hf). apply elem_of_marked. exists f, d. split; [|done]. rewrite Hw. apply Hm in Hw. congruence.
Qed.
Lemma from_sender_cut a b m : from_sender m -> from_sender (cut a b m).
Proof. intros Hm s v. rewrite lookup_cut. destruct (decide _); [done|]. apply Hm. Qed.

(** The unit of [s], once it is whole: nothing else is given back. *)
Lemma settle_sound max s m u m' : from_sender m -> s ∈ dom m -> naive_settle max s m = (u, m') ->
  from_sender m' /\ (forall x, x ∈ dom m' -> x ∈ dom m) /\
  (forall un, u = Some un -> exists a b, (a, b) ∈ L /\ a <= s <= b /\ (forall x, a <= x <= b -> x ∈ dom m /\ x ∉ dom m') /\ unit_at F (a, b) = Some un).
Proof.
  intros Hm Hs. unfold naive_settle. destruct (run_of_spec (dom m) s Hs) as [Hr Hb]. destruct (run_of (dom m) s) as [lo hi]. cbn [fst snd] in *.
  assert (forall a b, from_sender (cut a b m) /\ (forall x, x ∈ dom (cut a b m) -> x ∈ dom m)) as Hcut.
  { intros a b. split; [by apply from_sender_cut|]. intros x [v Hv]%elem_of_dom. rewrite lookup_cut in Hv. destruct (decide _); [done|]. apply elem_of_dom. by eexists. }
  destruct (first_in s hi (marked m Flags.LAST)) as [last|] eqn:El.
  2:{ intros [= <- <-]. destruct (_ <=? _); (split; [apply Hcut || done|split; [apply Hcut || done|done]]). }
  destruct (last_in lo s (marked m Flags.FIRST)) as [first|] eqn:Ef.
  2:{ intros [= <- <-]. destruct (_ <=? _); (split; [apply Hcut || done|split; [apply Hcut || done|done]]). }
  intros [= <- <-]. destruct (Hcut first last) as [H1 H2]. split; [done|]. split; [done|]. intros un Hun. destruct (_ <? _); [|done].
  apply first_in_Some in El as (Hl & Hlm & Hlmin). apply last_in_Some in Ef as (Hf & Hfm & Hfmax).
  assert (forall x, lo <= x <= hi -> x ∈ dom m) as Hin by apply Hr.
  destruct (lo_cover _ _ _ HF s) as (a & b & Hab & Hsab). { apply elem_of_dom in Hs as [v Hv]. apply elem_of_dom. exists v. by apply Hm. }
  apply (from_sender_flagged m) in Hlm as [_ Hlm], Hfm as [_ Hfm]; [|done..].
  apply (lo_first _ _ _ HF) in Hfm as Hfm'. destruct Hfm' as [b' Hb']. apply (lo_last _ _ _ HF) in Hlm as Hlm'. destruct Hlm' as [a' Ha'].
  pose proof (lo_unit _ _ _ HF _ _ Hb'). pose proof (lo_unit _ _ _ HF _ _ Ha').
  assert (first = a) as ->.
  { assert (first <= a) as Hle. { destruct (Z.le_gt_cases first a) as [|Hgt]; [done|]. destruct (lo_disjoint _ _ _ HF a b first b' first); [done|done|lia|lia|lia]. }
    assert (a <= first) as Hge; [|lia]. apply Hfmax; [|lia]. apply (flagged_from_sender m); [done|apply Hin; lia|]. apply (lo_first _ _ _ HF). by exists b. }
  assert (last = b) as ->.
  { assert (b <= last) as Hle. { destruct (Z.le_gt_cases b last) as [|Hgt]; [done|]. destruct (lo_disjoint _ _ _ HF a b a' last last); [done|done|lia|lia|lia]. }
    assert (last <= b) as Hge; [|lia]. apply Hlmin; [|lia]. apply (flagged_from_sender m); [done|apply Hin; lia|]. apply (lo_last _ _ _ HF). by exists a. }
  exists a, b. split; [done|]. split; [done|]. split.
  - intros x Hx. split; [apply Hin; lia|]. rewrite not_elem_of_dom, lookup_cut. by rewrite decide_True by lia.
  - rewrite <- Hun. unfold unit_at. cbn [fst snd]. f_equal. apply list_omap_ext, Forall_Forall2_diag, Forall_lookup.
    intros i x Hx%list_elem_of_lookup_2%elem_of_seqZ_incl. assert (x ∈ dom m) as [w Hw]%elem_of_dom by (apply Hin; lia). rewrite Hw. by apply Hm.
Qed.

Lemma push_sound max max_buffered s v m u m' : from_sender m -> F !! s = Some v -> naive_push max max_buffered s v.1 v.2 m = (u, m') ->
  from_sender m' /\ (forall x, x ∈ dom m' -> x = s \/ x ∈ dom m) /\
  (forall un, u = Some un -> exists a b, (a, b) ∈ L /\ a <= s <= b /\ (forall x, a <= x <= b -> (x = s \/ x ∈ dom m) /\ x ∉ dom m') /\ unit_at F (a, b) = Some un).
Proof.
  intros Hm Hs. unfold naive_push. replace (v.1, v.2) with v by (by destruct v).
  assert (from_sender (naive_evict max_buffered s m) /\ forall x, x ∈ dom (naive_evict max_buffered s m) -> x ∈ dom m) as [He Hed].
  { unfold naive_evict. destruct (_ && _); [|done]. destruct (least (dom m)) as [o|]; [|done]. split; [by apply from_sender_cut|].
    intros x [w Hw]%elem_of_dom. rewrite lookup_cut in Hw. destruct (decide _); [done|]. apply elem_of_dom. by eexists. }
  set (m1 := naive_evict max_buffered s m) in *. clearbody m1. intros Hp.
  assert (from_sender (<[s := v]> m1)) as Hm2 by (intros x w [[<- <-]|[_ H]]%lookup_insert_Some; [done|by apply He]).
  assert (forall x, x ∈ dom (<[s := v]> m1) -> x = s \/ x ∈ dom m) as Hd2.
  { intros x. rewrite dom_insert_L, elem_of_union, elem_of_singleton. intros [->|Hx]; [by left|right; by apply Hed]. }
  destruct (settle_sound max s (<[s := v]> m1) u m' Hm2 ltac:(rewrite dom_insert_L; set_solver) Hp) as (H1 & H2 & H3).
  split; [done|]. split; [intros x Hx; by apply Hd2, H2|]. intros un Hun. destruct (H3 un Hun) as (a & b & Hab & Hsab & Hall & Hu).
  exists a, b. split; [done|]. split; [done|]. split; [|done]. intros x Hx. destruct (Hall x Hx). split; [by apply Hd2|done].
Qed.

(** Units of the sender, by their spans. *)
Lemma unit_at_span a b u : unit_at F (a, b) = Some u -> un_first_seq u = a /\ un_last_seq u = b.
Proof.
  unfold unit_at, unit_of. cbn [fst snd]. destruct (omap _ _) as [|[fl hd] l]; [done|]. destruct (_ <? _)%nat; [done|]. by intros [= <-].
Qed.
Lemma spans_apart a b a' b' u u' : (a, b) ∈ L -> (a', b') ∈ L -> (a, b) <> (a', b') -> unit_at F (a, b) = Some u -> unit_at F (a', b') = Some u' -> apart u u'.
Proof.
  intros H H' Hne [E1 E2]%unit_at_span [E1' E2']%unit_at_span. unfold apart. rewrite E1, E2, E1', E2'.
  pose proof (lo_unit _ _ _ HF _ _ H). pose proof (lo_unit _ _ _ HF _ _ H').
  destruct (Z.lt_ge_cases b a'); [by left|]. destruct (Z.lt_ge_cases b' a); [by right|]. exfalso. apply Hne.
  destruct (lo_disjoint _ _ _ HF a b a' b' (Z.max a a')) as [-> ->]; [done|done|lia|lia|done].
Qed.

(** ** The progress of a track *)

(** [A]: the datagrams accepted.  [done_]: the units given back, by their spans. *)
Record progress (A : gset Z) (done_ : list (Z * Z)) (r : Reassembler) : Prop := {
  pg_ok : ra_ok r;
  pg_from : from_sender (ra_fragments r);
  pg_held : forall s, s ∈ dom (ra_fragments r) -> s ∈ A;
  pg_spans : forall ab, ab ∈ done_ -> ab ∈ L /\ forall x, ab.1 <= x <= ab.2 -> x ∈ A /\ x ∉ dom (ra_fragments r);
  pg_once : NoDup done_
}.

Lemma progress_new max : progress ∅ [] (reassembler_new max).
Proof.
  split; [apply new_ok|..]; cbn.
  - intros s v. by rewrite lookup_empty.
  - intros s. set_solver.
  - set_solver.
  - constructor.
Qed.

Lemma progress_push A done_ r s v : progress A done_ r -> F !! s = Some v -> s ∉ A -> is_u32 s ->
  let '(u, r') := ra_push s v.1 v.2 r in
  match u with
  | None => progress ({[s]} ∪ A) done_ r'
  | Some un => exists a b, ((a, b) ∉ done_) /\ progress ({[s]} ∪ A) ((a, b) :: done_) r' /\ unit_at F (a, b) = Some un
  end.
Proof.
  intros [Hok Hfrom Hheld Hspans Honce] Hs Hnot Hu32. pose proof (push_ok r s v.1 v.2 Hok Hu32) as Hp. destruct (ra_push s v.1 v.2 r) as [u r'].
  destruct Hp as (Hn & Hok' & _). destruct (push_sound _ _ s v _ _ _ Hfrom Hs Hn) as (H1 & H2 & H3).
  assert (forall ab, ab ∈ done_ -> ab ∈ L /\ forall x, ab.1 <= x <= ab.2 -> x ∈ {[s]} ∪ A /\ x ∉ dom (ra_fragments r')) as Hsp.
  { intros ab [HL Hx]%Hspans. split; [done|]. intros x Hxab. destruct (Hx x Hxab) as [HA Hno]. split; [set_solver|]. intros [->|?]%H2; done. }
  assert (forall x, x ∈ dom (ra_fragments r') -> x ∈ {[s]} ∪ A) as Hh by (intros x [->|Hx%Hheld]%H2; set_solver).
  destruct u as [un|]; [|by split]. destruct (H3 un eq_refl) as (a & b & Hab & Hsab & Hall & Hu). exists a, b.
  assert ((a, b) ∉ done_) as Hnew. { intros [_ Hx]%Hspans. by destruct (Hx s Hsab). }
  split; [done|]. split; [|done]. split; try done.
  - intros ab [->|Hin]%elem_of_cons; [|by apply Hsp]. split; [done|]. intros x Hx. destruct (Hall x Hx) as [[->|Hd%Hheld] ?]; (split; [set_solver|done]).
  - by apply list.NoDup_cons.
Qed.

Lemma progress_forget A done_ r at_ : progress A done_ r -> progress A done_ (forget_before at_ r).
Proof.
  intros [Hok Hfrom Hheld Hspans Honce]. destruct (forget_ok r at_ Hok) as (Hok' & E & _). split; [done|..|done]; rewrite E.
  - intros s v [_ H]%lookup_map_from. by apply Hfrom.
  - intros s [v [_ H]%lookup_map_from]%elem_of_dom. apply Hheld, elem_of_dom. by eexists.
  - intros ab [HL Hx]%Hspans. split; [done|]. intros x Hxab. destruct (Hx x Hxab) as [? Hno]. split; [done|].
    intros [v [_ Hv]%lookup_map_from]%elem_of_dom. apply Hno, elem_of_dom. by eexists.
Qed.

(** The units still to come. *)
Definition to_come (done_ : list (Z * Z)) : list Unit := omap (unit_at F) (filter (fun ab => ab ∉ done_) L).
Lemma elem_of_to_come done_ u : u ∈ to_come done_ <-> exists a b, ((a, b) ∈ L) /\ ((a, b) ∉ done_) /\ unit_at F (a, b) = Some u.
Proof.
  unfold to_come. rewrite list_elem_of_omap. setoid_rewrite list_elem_of_filter. split; [intros ([a b] & [? ?] & ?); by exists a, b|].
  intros (a & b & ? & ? & ?). by exists (a, b).
Qed.
Lemma to_come_step a b done_ u : (a, b) ∈ L -> (a, b) ∉ done_ -> unit_at F (a, b) = Some u ->
  (forall w, w ∈ u :: to_come ((a, b) :: done_) -> w ∈ to_come done_) /\ Forall (apart u) (to_come ((a, b) :: done_)).
Proof.
  intros HL Hnot Hu. split.
  - intros w [->|(a' & b' & ? & Hn & ?)%elem_of_to_come]%elem_of_cons; apply elem_of_to_come; [by exists a, b|]. exists a', b'. set_solver.
  - apply Forall_forall. intros w (a' & b' & ? & Hn & ?)%list_elem_of_In%elem_of_to_come. apply (spans_apart a b a' b'); try done. intros E. apply Hn. rewrite <- E. set_solver.
Qed.
End Reassembling.

Lemma ro_ok_weaken emitted future future' r : ro_ok emitted future r -> (forall u, u ∈ future' -> u ∈ future) -> ro_ok emitted future' r.
Proof.
  intros [H1 H2 H3 H4 H5 H6 H7] Hsub. split; try done.
  - intros k w u Hw Hu. by apply (H4 k w u); [|apply Hsub].
  - intros n Hn. destruct (H5 n Hn) as (? & ? & H53). split; [done|]. split; [done|]. intros u Hu. by apply H53, Hsub.
Qed.

Lemma reorder_poll_ok emitted future r now : ro_ok emitted future r ->
  let '(out, r') := reorder_poll now r in
  ro_ok (emitted ++ units_in out) future r' /\ (forall w, w ∈ units_in out -> exists k, ro_waiting r !! k = Some w) /\
  (forall k w, ro_waiting r' !! k = Some w -> ro_waiting r !! k = Some w).
Proof. apply poll_order. Qed.

Lemma reorder_push_ok emitted u future r now : ro_ok emitted (u :: future) r -> unit_ok u -> Forall (apart u) future ->
  let '(out, r') := reorder_push u now r in
  ro_ok (emitted ++ units_in out) future r' /\ (forall w, w ∈ units_in out -> w = u \/ exists k, ro_waiting r !! k = Some w) /\
  (forall k w, ro_waiting r' !! k = Some w -> w = u \/ ro_waiting r !! k = Some w).
Proof.
  intros Hok Hu Hall. unfold reorder_push. destruct (match ro_next r with Some next => un_last_seq u <? next | None => false end) eqn:El.
  { rewrite app_nil_r. split; [apply (ro_ok_weaken emitted (u :: future)); [done|set_solver]|]. split; [set_solver|by right]. }
  set (waiting := if MAX_WAITING <=? _ then _ else _).
  assert (forall k w, waiting !! k = Some w -> ro_waiting r !! k = Some w) as Hsub by (intros k w; unfold waiting; destruct (_ <=? _); [apply drop_first_sub|done]).
  pose proof (insert_waiting_ok emitted u future r waiting Hok Hu Hall Hsub El) as H1.
  set (r1 := mkReorder _ _ _) in *. assert (forall k w, ro_waiting r1 !! k = Some w -> w = u \/ ro_waiting r !! k = Some w) as Hr1.
  { intros k w. unfold r1. cbn [ro_waiting]. intros [[_ <-]|[_ Hw%Hsub]]%lookup_insert_Some; [by left|by right]. }
  pose proof (reorder_poll_ok emitted future r1 now H1) as Hp. clearbody r1. destruct (reorder_poll now r1) as [out r']. destruct Hp as (H2 & H3 & H4).
  split; [done|]. split.
  - intros w [k [?|Hk]%Hr1]%H3; [by left|right; by exists k].
  - intros k w Hw%H4. by apply Hr1.
Qed.

(** ** The track task *)

Section Tracks.
Context {Private Key : Type} (hkdf16 : bytes -> bytes -> Key) (decrypt : Key -> bytes -> bytes -> bytes -> bytes -> option bytes).
Context (F : gmap Z (Z * bytes)) (L : list (Z * Z)) (bound : Z) (HF : laid_out F L bound).
Context (media : MediaId) (kind : Kind) (theirs : Key -> Prop).
Abbreviation KM := (KeyManager Private Key).
Abbreviation Shared := (@Shared Private Key).

(** What opens under the sender's keys is what the sender laid out; only such keys are held. *)
Definition genuine (d : bytes) : Prop := forall key h p, theirs key -> Crypto.open decrypt key d = inl (h, p) ->
  F !! hdr_seq h = Some (hdr_flags h, p) /\ 0 <= hdr_seq h < u32_max.
Definition only_theirs (k : KM) : Prop := forall epoch key, fst (recv_key hkdf16 media epoch k) = Some key -> theirs key.

(** Looking a key up caches it, and changes no answer. *)
Lemma recv_key_again epoch epoch' (k : KM) : fst (recv_key hkdf16 media epoch' (snd (recv_key hkdf16 media epoch k))) = fst (recv_key hkdf16 media epoch' k).
Proof.
  unfold recv_key at 2. destruct (below_floor epoch k); [done|]. destruct (owner_of media k) as [o|] eqn:Eo; [|done].
  assert (forall r, k_received k !! (o, epoch) = Some r -> (k_recv_keys k !! (media, epoch) = None \/ exists c key, k_recv_keys k !! (media, epoch) = Some (c, key) /\ c <> o) ->
    fst (recv_key hkdf16 media epoch' (set_recv_keys (<[(media, epoch) := (o, track_key hkdf16 (rc_secret r) media)]> (k_recv_keys k)) k)) = fst (recv_key hkdf16 media epoch' k)) as H.
  { intros r Hr Hc. unfold recv_key. change (below_floor epoch' (set_recv_keys _ k)) with (below_floor epoch' k). destruct (below_floor epoch' k); [done|].
    change (owner_of media (set_recv_keys _ k)) with (owner_of media k). rewrite Eo. cbn [k_recv_keys set_recv_keys k_received].
    destruct (decide (epoch' = epoch)) as [->|Hne].
    - rewrite lookup_insert_eq, decide_True, Hr by done. destruct Hc as [->|(c & key & -> & Hco)]; [done|]. by rewrite decide_False.
    - rewrite lookup_insert_ne by congruence. destruct (k_recv_keys k !! (media, epoch')) as [[c key]|]; [destruct (decide (c = o)); [done|]|]; by destruct (k_received k !! (o, epoch')). }
  destruct (k_recv_keys k !! (media, epoch)) as [[c key]|] eqn:Ec.
  - destruct (decide (c = o)); [done|]. destruct (k_received k !! (o, epoch)) as [r|] eqn:Er; [|done]. apply (H r eq_refl). right. by eexists _, _.
  - destruct (k_received k !! (o, epoch)) as [r|] eqn:Er; [|done]. apply (H r eq_refl). by left.
Qed.
Lemma only_theirs_again epoch (k : KM) : only_theirs k -> only_theirs (snd (recv_key hkdf16 media epoch k)).
Proof. intros H epoch' key. rewrite recv_key_again. apply H. Qed.

Definition from_units (u : Unit) : Prop := exists a b, ((a, b) ∈ L) /\ unit_at F (a, b) = Some u.

(** What holds of the stages of a track of each kind, given the units so far. *)
Definition stage_ok (done_ : list (Z * Z)) (emitted : list Unit) (t : Track) : Prop :=
  match tk_kind t with
  | AudioKind => emitted ≡ₚ omap (unit_at F) done_ /\ ro_waiting (tk_reorder t) = ∅
  | VideoKind => ro_ok emitted (to_come F L done_) (tk_reorder t) /\ (forall u, u ∈ emitted -> from_units u) /\
      (forall k u, ro_waiting (tk_reorder t) !! k = Some u -> from_units u)
  end.

Record track_base (A : gset Z) (done_ : list (Z * Z)) (t : Track) (s : Shared) : Prop := {
  tc_media : tk_media_id t = media;
  tc_kind : tk_kind t = kind;
  tc_sink : exists sink, sh_sinks s !! media = Some sink /\ window_ok (sk_window sink) A;
  tc_sent : forall x, x ∈ A -> x < u32_max;
  tc_progress : progress F L A done_ (tk_reassembler t);
  tc_keys : only_theirs (sh_keys s);
  tc_pending : forall arrived epoch d, (arrived, epoch, d) ∈ tk_pending t -> genuine d
}.
Record track_ok (A : gset Z) (done_ : list (Z * Z)) (emitted : list Unit) (t : Track) (s : Shared) : Prop := {
  tc_base : track_base A done_ t s;
  tc_stage : stage_ok done_ emitted t;
  tc_out : sh_out s `sublist_of` received_from <$> emitted
}.
Definition on_track (t : Track) (s : Shared) : Prop := exists A done_ emitted, track_ok A done_ emitted t s.

(** Passing units to the consumer touches nothing else. *)
Record passed_to (units : list Unit) (t : Track) (s : Shared) (t' : Track) (s' : Shared) : Prop := {
  pt_media : tk_media_id t' = tk_media_id t;
  pt_kind : tk_kind t' = tk_kind t;
  pt_pending : tk_pending t' = tk_pending t;
  pt_next_tick : tk_next_tick t' = tk_next_tick t;
  pt_reorder : tk_reorder t' = tk_reorder t;
  pt_progress : forall A done_, progress F L A done_ (tk_reassembler t) -> progress F L A done_ (tk_reassembler t');
  pt_sinks : sh_sinks s' = sh_sinks s;
  pt_keys : sh_keys s' = sh_keys s;
  pt_out : exists taken, sh_out s' = sh_out s ++ taken /\ taken `sublist_of` received_from <$> units
}.

Lemma deliver_ok u at_ t s : let '(t', s') := deliver (received_from u) (with_reassembler (forget_before at_ (tk_reassembler t)) t) s in passed_to [u] t s t' s'.
Proof.
  unfold deliver, try_send. destruct (default TookIt (head (sh_room s))).
  - split; try done; [intros; by apply progress_forget|]. exists [received_from u]. done.
  - destruct (_ && _ && _); (split; try done; [intros; by apply progress_forget|]); (exists []; rewrite app_nil_r; split; [done|apply sublist_nil_l]).
  - split; try done; [intros; by apply progress_forget|]. exists []. rewrite app_nil_r. split; [done|apply sublist_nil_l].
Qed.

Lemma passed_trans us vs t1 s1 t2 s2 t3 s3 : passed_to us t1 s1 t2 s2 -> passed_to vs t2 s2 t3 s3 -> passed_to (us ++ vs) t1 s1 t3 s3.
Proof.
  intros [] []. split; try congruence; [auto|]. destruct pt_out1 as (y & -> & Hy), pt_out0 as (x & -> & Hx). exists (x ++ y). rewrite <- app_assoc, fmap_app. split; [done|].
  by apply sublist_app.
Qed.

Lemma pass_emit_ok outputs t s : let '(t', s') := emit outputs t s in passed_to (units_in outputs) t s t' s'.
Proof.
  unfold emit. revert t s. induction outputs as [|o outputs IH]; intros t s.
  { split; try done. exists []. by rewrite app_nil_r. }
  cbn [foldl]. destruct o as [u|from|].
  - pose proof (deliver_ok u (un_first_seq u) t s) as H1. destruct (deliver _ _ s) as [t1 s1]. specialize (IH t1 s1). destruct (foldl _ (t1, s1) outputs) as [t' s'].
    change (units_in (OutUnit u :: outputs)) with ([u] ++ units_in outputs). by eapply passed_trans.
  - specialize (IH t (ask_refresh t (on_stats (fetch_add AbandonedUnits 1) s))). destruct (foldl _ _ outputs) as [t' s']. destruct IH. by split.
  - specialize (IH t (on_stats (fetch_add LateUnits 1) s)). destruct (foldl _ _ outputs) as [t' s']. destruct IH. by split.
Qed.

Lemma passed_ok units A done_ emitted t s t' s' : passed_to units t s t' s' -> track_base A done_ t s -> sh_out s `sublist_of` received_from <$> emitted ->
  stage_ok done_ (emitted ++ units) t' -> track_ok A done_ (emitted ++ units) t' s'.
Proof.
  intros [] [] Hout Hst. split; [|done|].
  - split; [congruence|congruence|by rewrite pt_sinks0|done|auto|by rewrite pt_keys0|by rewrite pt_pending0].
  - destruct pt_out0 as (x & -> & Hx). rewrite fmap_app. by apply sublist_app.
Qed.

Lemma sink_accept_ok A sink seq len : window_ok (sk_window sink) A -> is_u32 seq ->
  let '(seen, sink') := sink_accept seq len sink in
  match seen with
  | SeenNew => (seq ∉ A) /\ window_ok (sk_window sink') ({[seq]} ∪ A)
  | _ => window_ok (sk_window sink') A
  end.
Proof.
  intros Hw Hs. unfold sink_accept, window_check. rewrite (peek_spec _ A seq Hw). destruct (spec_seen A seq) eqn:E; cbn [sk_window]; [|done..].
  by apply record_ok.
Qed.

(** A unit the reassembler gave back goes on. *)
Lemma pass_on_ok A done_ emitted a b u now t s : track_base A ((a, b) :: done_) t s -> ((a, b) ∉ done_) -> unit_at F (a, b) = Some u ->
  stage_ok done_ emitted t -> sh_out s `sublist_of` received_from <$> emitted ->
  (let '(t', s') := pass_on u now t s in exists emitted', track_ok A ((a, b) :: done_) emitted' t' s').
Proof.
  intros Hb Hnot Hu Hst Hout. unfold pass_on. destruct (tk_kind t) eqn:Ek; unfold stage_ok in Hst; rewrite Ek in Hst.
  - pose proof (deliver_ok u (sat_sub (un_first_seq u) AUDIO_STRAGGLER_SEQS) t s) as Hp. destruct (deliver _ _ s) as [t' s'].
    exists (emitted ++ [u]). apply (passed_ok [u] A _ emitted t s); [done..|]. unfold stage_ok. rewrite (pt_kind _ _ _ _ _ Hp), (pt_reorder _ _ _ _ _ Hp), Ek. destruct Hst as [Hst ?]. split; [|done]. cbn. rewrite Hu, Hst. by rewrite Permutation_app_comm.
  - destruct Hst as (Hro & Hem & Hwait). destruct (pg_spans _ _ _ _ _ (tc_progress _ _ _ _ Hb) (a, b)) as [HL Hin]; [set_solver|].
    destruct (unit_at_span _ _ _ _ Hu) as [Ea Eb]. destruct (to_come_step F L bound HF a b done_ u HL Hnot Hu) as [Hsub Happ].
    destruct (tc_sink _ _ _ _ Hb) as (sink & _ & Hw). pose proof (lo_unit _ _ _ HF _ _ HL) as [Hab _].
    assert (unit_ok u) as Huo.
    { unfold unit_ok. rewrite Ea, Eb. destruct (Hin a) as [HA _]; [cbn; lia|]. destruct (Hin b) as [HB _]; [cbn; lia|].
      apply (wo_seqs _ _ Hw) in HA. apply (tc_sent _ _ _ _ Hb) in HB. unfold is_u32 in HA. lia. }
    pose proof (reorder_push_ok emitted u _ (tk_reorder t) now (ro_ok_weaken _ _ _ _ Hro Hsub) Huo Happ) as Hr.
    destruct (reorder_push u now (tk_reorder t)) as [out ro]. destruct Hr as (Hro' & H1 & H2).
    pose proof (pass_emit_ok out (with_reorder ro t) s) as Hp. destruct (emit out (with_reorder ro t) s) as [t' s']. exists (emitted ++ units_in out).
    apply (passed_ok _ A _ emitted (with_reorder ro t) s); [done| |done|].
    { destruct Hb. by split. }
    assert (from_units u) as Hfu by (exists a, b; done). unfold stage_ok. rewrite (pt_kind _ _ _ _ _ Hp), (pt_reorder _ _ _ _ _ Hp). cbn [tk_kind tk_reorder with_reorder]. rewrite Ek.
    split; [done|]. split.
    + intros v [?|[->|[k Hk]]%H1]%elem_of_app; [by apply Hem|done|by apply (Hwait k)].
    + intros k v [->|Hk]%H2; [done|by apply (Hwait k)].
Qed.

Lemma handle_ok epoch d arrived now t s : on_track t s -> genuine d -> let '(t', s') := handle hkdf16 decrypt epoch d arrived now t s in on_track t' s'.
Proof.
  intros (A & done_ & emitted & [Hb Hst Hout]) Hd. unfold handle. rewrite (tc_media _ _ _ _ Hb).
  pose proof (only_theirs_again epoch (sh_keys s) (tc_keys _ _ _ _ Hb)) as Hk. pose proof (tc_keys _ _ _ _ Hb epoch) as Hkey.
  destruct (recv_key hkdf16 media epoch (sh_keys s)) as [key k]. cbn [fst snd] in *.
  assert (track_base A done_ t (on_keys k s)) as Hb1 by (by destruct Hb).
  assert (forall f, on_track t (on_stats f (on_keys k s))) as Hstats by (intros f; exists A, done_, emitted; split; [by destruct Hb1|done..]).
  assert (let '(t', s') := hold arrived epoch d now t (on_keys k s) in on_track t' s') as Hhold.
  { unfold hold. destruct (_ <? _); [|apply Hstats]. exists A, done_, emitted. split; [|done..]. destruct Hb1. split; try done. cbn.
    intros ar ep x [Hx|[= _ _ ->]%list_elem_of_singleton]%elem_of_app; [by apply (tc_pending0 ar ep)|done]. }
  destruct key as [key|]; [|done]. cbn [fmap option_fmap option_map]. destruct (Crypto.open decrypt key d) as [[h p]|e] eqn:Eo; [|destruct e; done || apply Hstats].
  destruct (Hd key h p) as [HF1 Hseq]; [by apply Hkey|done|]. destruct (tc_sink _ _ _ _ Hb1) as (sink & Hs & Hw). rewrite Hs.
  assert (is_u32 (hdr_seq h)) as Hu32 by (unfold is_u32; lia).
  pose proof (sink_accept_ok A sink (hdr_seq h) (Z.of_nat (length d)) Hw Hu32) as Hacc. destruct (sink_accept _ _ sink) as [seen sink'].
  set (s2 := on_sinks _ (on_keys k s)).
  assert (forall A', (forall x, x ∈ A' -> x < u32_max) -> window_ok (sk_window sink') A' -> forall r', progress F L A' done_ r' -> track_base A' done_ (with_reassembler r' t) s2) as Hb2.
  { intros A' HA' Hw' r' Hpg. destruct Hb1. split; try done. exists sink'. split; [cbn; by rewrite lookup_insert_eq|done]. }
  destruct seen.
  2,3: exists A, done_, emitted; split; [|done..]; pose proof (Hb2 A (tc_sent _ _ _ _ Hb) Hacc _ (tc_progress _ _ _ _ Hb)) as [? ? ? ? ? ? ?]; by split.
  destruct Hacc as [Hnot Hw']. pose proof (progress_push F L bound HF A done_ _ _ _ (tc_progress _ _ _ _ Hb) HF1 Hnot Hu32) as Hpg. cbn [fst snd] in Hpg.
  assert (forall x, x ∈ {[hdr_seq h]} ∪ A -> x < u32_max) as HA'. { intros x [->%elem_of_singleton|Hx]%elem_of_union; [lia|by apply (tc_sent _ _ _ _ Hb)]. }
  destruct (ra_push _ _ p (tk_reassembler t)) as [[un|] r'].
  - destruct Hpg as (a & b & Hab & Hpg & Hun). assert (track_base ({[hdr_seq h]} ∪ A) ((a, b) :: done_) (with_reassembler r' t) s2) as Hb3.
    { destruct Hb1. split; try done. exists sink'. split; [cbn; by rewrite lookup_insert_eq|done]. }
    pose proof (pass_on_ok _ done_ emitted a b un now _ _ Hb3 Hab Hun Hst Hout) as Hp. destruct (pass_on un now _ s2) as [t' s'].
    destruct Hp as (em & Hok). by eexists _, _, em.
  - exists ({[hdr_seq h]} ∪ A), done_, emitted. split; [by apply Hb2|done..].
Qed.

Lemma handle_all_ok now l t s : on_track t s -> (forall arrived epoch d, (arrived, epoch, d) ∈ l -> genuine d) ->
  let '(t', s') := foldl (fun '(t, s) '(arrived, epoch, datagram) => handle hkdf16 decrypt epoch datagram arrived now t s) (t, s) l in on_track t' s'.
Proof.
  revert t s. induction l as [|[[arrived epoch] d] l IH]; intros t s Hok Hl; [done|]. cbn [foldl].
  pose proof (handle_ok epoch d arrived now t s Hok ltac:(apply (Hl arrived epoch); set_solver)) as H1. destruct (handle _ _ epoch d arrived now t s) as [t1 s1].
  apply IH; [done|]. intros ar ep x Hx. apply (Hl ar ep). set_solver.
Qed.

Lemma retry_ok now t s : on_track t s -> let '(t', s') := retry_pending hkdf16 decrypt now t s in on_track t' s'.
Proof.
  intros Hok. unfold retry_pending. destruct (tk_pending t) as [|x l] eqn:Ep; [done|]. destruct (_ =? _); [done|]. rewrite <- Ep.
  destruct Hok as (A & done_ & emitted & [Hb Hst Hout]). apply handle_all_ok; [|apply (tc_pending _ _ _ _ Hb)].
  exists A, done_, emitted. split; [|done..]. destruct Hb. split; try done. cbn. set_solver.
Qed.

Lemma receive_ok d now t s : on_track t s -> genuine d -> let '(t', s') := track_receive hkdf16 decrypt d now t s in on_track t' s'.
Proof.
  intros Hok Hd. unfold track_receive. pose proof (retry_ok now t s Hok) as H1. destruct (retry_pending _ _ now t s) as [t1 s1].
  destruct (header_parse_strict d); [by apply handle_ok|done].
Qed.

Lemma tick_ok now t s : on_track t s -> let '(t', s') := track_tick hkdf16 decrypt now t s in on_track t' s'.
Proof.
  intros (A & done_ & emitted & [Hb Hst Hout]). unfold track_tick. set (n := expired now (tk_pending t)). set (s0 := on_stats _ s).
  assert (on_track (with_pending (drop n (tk_pending t)) t) s0) as H0.
  { exists A, done_, emitted. split; [|done..]. destruct Hb. split; try done. cbn. intros ar ep x Hx. apply (tc_pending0 ar ep).
    rewrite <- (take_drop n (tk_pending t)). apply elem_of_app. by right. }
  pose proof (retry_ok now _ _ H0) as H1. destruct (retry_pending _ _ now _ s0) as [t1 s1]. destruct H1 as (A1 & done1 & em1 & [Hb1 Hst1 Hout1]).
  set (t2 := with_next_tick _ t1). assert (track_base A1 done1 t2 s1) as Hb2 by (by destruct Hb1).
  assert (stage_ok done1 em1 t2) as Hst2 by exact Hst1. clearbody t2. clear Hb1 Hst1 t1.
  assert (exists em2, (let '(out, ro) := reorder_poll now (tk_reorder t2) in em2 = em1 ++ units_in out /\ stage_ok done1 em2 (with_reorder ro t2))) as (em2 & Hpoll).
  { unfold stage_ok in *. cbn [tk_kind tk_reorder with_reorder]. destruct (tk_kind t2).
    - destruct Hst2 as [Hst2 Hemp]. unfold reorder_poll. cbn [poll_rounds]. rewrite Hemp, (proj2 (first_key_value_None (∅ : gmap Z Unit)) eq_refl).
      exists em1. by rewrite app_nil_r.
    - destruct Hst2 as (Hro & Hem & Hwait). pose proof (reorder_poll_ok em1 _ (tk_reorder t2) now Hro) as Hr. destruct (reorder_poll now (tk_reorder t2)) as [out ro].
      destruct Hr as (Hro' & H1 & H2). eexists. split; [done|]. split; [done|]. split.
      + intros v [?|[k Hk]%H1]%elem_of_app; [by apply Hem|by apply (Hwait k)].
      + intros k v Hk%H2. by apply (Hwait k). }
  destruct (reorder_poll now (tk_reorder t2)) as [out ro]. destruct Hpoll as [-> Hst3]. pose proof (pass_emit_ok out (with_reorder ro t2) s1) as Hp.
  destruct (emit out (with_reorder ro t2) s1) as [t' s']. exists A1, done1, (em1 ++ units_in out). apply (passed_ok _ A1 _ em1 (with_reorder ro t2) s1); [done| |done|].
  - destruct Hb2. by split.
  - unfold stage_ok in *. rewrite (pt_kind _ _ _ _ _ Hp), (pt_reorder _ _ _ _ _ Hp). exact Hst3.
Qed.

(** What a run is given: datagrams, and the key managers other tasks leave. *)
Definition datagrams_in (es : list (@TrackEvent Private Key)) : list bytes := omap (fun e => match e with TkDatagram d _ => Some d | _ => None end) es.
Definition managers_in (es : list (@TrackEvent Private Key)) : list KM := omap (fun e => match e with TkKeys k => Some k | _ => None end) es.

Lemma run_ok es t s : on_track t s -> (forall d, d ∈ datagrams_in es -> genuine d) -> (forall k, k ∈ managers_in es -> only_theirs k) ->
  let '(t', s') := track_run hkdf16 decrypt es (t, s) in on_track t' s'.
Proof.
  unfold track_run. revert t s. induction es as [|e es IH]; intros t s Hok Hd Hk; [done|]. cbn [foldl].
  assert (let '(t1, s1) := track_step hkdf16 decrypt e (t, s) in on_track t1 s1) as H1.
  { destruct e as [d now|now|k]; cbn [track_step fst snd].
    - apply receive_ok; [done|]. apply Hd. set_solver.
    - by apply tick_ok.
    - destruct Hok as (A & done_ & emitted & [Hb Hst Hout]). exists A, done_, emitted. split; [|done..]. destruct Hb. split; try done. cbn. apply Hk. set_solver. }
  destruct (track_step hkdf16 decrypt e (t, s)) as [t1 s1]. apply IH; [done|..].
  - intros d Hin. apply Hd. destruct e; set_solver.
  - intros k Hin. apply Hk. destruct e; set_solver.
Qed.


(** The end of a run of a fresh track, whose window may have seen [A] before. *)
Lemma run_new_ok es A sink s : sh_sinks s !! media = Some sink -> window_ok (sk_window sink) A -> (forall x, x ∈ A -> x < u32_max) -> sh_out s = [] ->
  only_theirs (sh_keys s) -> (forall d, d ∈ datagrams_in es -> genuine d) -> (forall k, k ∈ managers_in es -> only_theirs k) ->
  exists emitted, sh_out (snd (track_run hkdf16 decrypt es (track_new media kind, s))) `sublist_of` received_from <$> emitted /\
    (forall u, u ∈ emitted -> from_units u) /\
    match kind with VideoKind => StronglySorted precedes emitted | AudioKind => NoDup (un_first_seq <$> emitted) end.
Proof.
  intros Hs Hw HA Hout Hk Hd Hm. assert (on_track (track_new media kind) s) as H0.
  { exists A, [], []. split; [|..].
    - split; try done; [by exists sink|..]; [|cbn; set_solver]. split; try apply new_ok; cbn; [intros x v; by rewrite lookup_empty|set_solver|set_solver|constructor].
    - unfold stage_ok. cbn. destruct kind; [done|]. split; [|split; [set_solver|intros k u; by rewrite lookup_empty]].
      split; cbn; try done; [constructor|..]; intros; try (by rewrite lookup_empty in *); set_solver.
    - rewrite Hout. done. }
  pose proof (run_ok es _ s H0 Hd Hm) as H1. destruct (track_run hkdf16 decrypt es (track_new media kind, s)) as [t' s'].
  destruct H1 as (A' & done_ & emitted & [Hb Hst Ho]). exists emitted. split; [exact Ho|]. unfold stage_ok in Hst. rewrite (tc_kind _ _ _ _ Hb) in Hst.
  pose proof (tc_progress _ _ _ _ Hb) as Hpg. destruct kind.
  - destruct Hst as [Hperm _]. split.
    + intros u Hu. rewrite Hperm in Hu. apply list_elem_of_omap in Hu as ([a b] & Hin & Hu). exists a, b. split; [by apply (pg_spans _ _ _ _ _ Hpg)|done].
    + rewrite Hperm. pose proof (pg_once _ _ _ _ _ Hpg) as Hnd. pose proof (fun ab H => proj1 (pg_spans _ _ _ _ _ Hpg ab H)) as HL. clear - HF Hnd HL.
      induction done_ as [|[a b] l IH]; [constructor|]. apply list.NoDup_cons in Hnd as [Hnot Hnd]. specialize (IH Hnd ltac:(intros; apply HL; set_solver)). cbn [omap list_omap].
      destruct (unit_at F (a, b)) as [u|] eqn:Eu; [|done]. cbn [fmap list_fmap]. apply list.NoDup_cons. split; [|done].
      intros (u' & E & ([a' b'] & Hin & Hu')%list_elem_of_omap)%list_elem_of_fmap. destruct (unit_at_span _ _ _ _ Eu) as [E1 _], (unit_at_span _ _ _ _ Hu') as [E1' _].
      assert ((a, b) ∈ L) as H1 by (apply HL; set_solver). assert ((a', b') ∈ L) as H2 by (apply HL; set_solver).
      pose proof (lo_unit _ _ _ HF _ _ H1). pose proof (lo_unit _ _ _ HF _ _ H2). assert (a' = a) as -> by congruence.
      destruct (lo_disjoint _ _ _ HF a b a b' a) as [_ ->]; [done|done|lia|lia|done].
  - destruct Hst as (Hro & Hem & _). split; [done|]. apply (ro_sorted _ _ _ Hro).
Qed.
End Tracks.
