(* ===== verification/EngineTheorems.v ===== *)
(** * The media engine: theorems

    No nonce is used twice by the sealer; a track's consumer gets what was sealed on it; and
    what waits for a key waits for a bounded time. *)
From S2P Require Import Prelude Ordered Ids Frame Messages Crypto Fragment FragmentWindow FragmentFacts FragmentRoundTrip Reorder Floors KeysState Keys Engine EngineTrack.
Open Scope Z_scope.

(** ** Sealing *)

Section Sealing.
Context {Key : Type} (encrypt : Key -> bytes -> bytes -> bytes -> option (bytes * bytes))
  (decrypt : Key -> bytes -> bytes -> bytes -> bytes -> option bytes).
(** AES-128-GCM, as in [Crypto]. *)
Hypothesis (Hgcm : forall key nonce aad p c t,
  encrypt key nonce aad p = Some (c, t) ->
  length c = length p /\ length t = TAG_BYTES /\ decrypt key nonce aad c t = Some p).

(** The units sealed one after the other, each under the epoch and key then current. *)
Definition Sends : Type := list (Outgoing * Epoch * Key).
Definition send_wf (x : Outgoing * Epoch * Key) : Prop := is_u32 (og_media_id x.1.1) /\ is_u32 x.1.2 /\ is_u32 (og_timestamp x.1.1).

(** The datagrams they become, with their track and key. *)
Fixpoint sealed_log (sends : Sends) (sealer : Sealer) : list (MediaId * Key * bytes) :=
  match sends with
  | [] => []
  | (unit, epoch, key) :: sends =>
      let '(datagrams, sealer) := sealer_seal encrypt unit epoch key sealer in
      ((fun d => (og_media_id unit, key, d)) <$> datagrams) ++ sealed_log sends sealer
  end.

Lemma fragment_flags_ok unit ts kf f : f ∈ fragment unit ts kf -> is_u8 (fr_flags f) /\ Flags.has_reserved (fr_flags f) = false.
Proof.
  intros [i Hi]%list_elem_of_lookup. destruct (fragment_spec unit ts kf) as (_ & _ & _ & _ & Hfl). rewrite (Hfl i f Hi).
  generalize (length (fragment unit ts kf)). intros n. unfold flags_at. destruct kf, (decide (i = 0%nat)), (decide (S i = n)); (split; [unfold is_u8, u8_max; vm_compute; split; discriminate|vm_compute; reflexivity]).
Qed.

(** What one unit's fragments become, numbered from [q]. *)
Lemma seal_fragments_spec media epoch key fs q : 0 <= q <= u32_max ->
  let '(ds, q') := seal_fragments encrypt media epoch key fs q in
  q' = Z.min (q + Z.of_nat (length fs)) u32_max /\
  (forall d, d ∈ ds -> exists i f, fs !! i = Some f /\ q + Z.of_nat i < u32_max /\
     Crypto.seal encrypt key (mkHeader media epoch (q + Z.of_nat i) (fr_flags f)) (plaintext_parts f) = inl d).
Proof.
  revert q. induction fs as [|f fs IH]; intros q Hq; cbn [seal_fragments].
  { cbn. split; [lia|set_solver]. }
  unfold checked_add32. destruct (Z.leb_spec (q + 1) u32_max) as [Hle|Hgt].
  - specialize (IH (q + 1) ltac:(unfold u32_max in *; lia)). destruct (seal_fragments encrypt media epoch key fs (q + 1)) as [ds q']. destruct IH as [-> IH]. cbv beta iota.
    split; [cbn [length]; unfold u32_max in *; lia|].
    assert (forall d, d ∈ ds -> exists i f', (f :: fs) !! i = Some f' /\ q + Z.of_nat i < u32_max /\
      Crypto.seal encrypt key (mkHeader media epoch (q + Z.of_nat i) (fr_flags f')) (plaintext_parts f') = inl d) as Hrest.
    { intros d (i & f' & Hi & Hlt & Hs)%IH. exists (S i), f'. replace (q + Z.of_nat (S i)) with (q + 1 + Z.of_nat i) by lia. done. }
    destruct (Crypto.seal _ _ _ _) as [d0|] eqn:Es; [|done]. intros d [->|Hd]%elem_of_cons; [|by apply Hrest].
    exists 0%nat, f. change (Z.of_nat 0) with 0. rewrite Z.add_0_r. split; [done|]. split; [lia|done].
  - split; [cbn [length]; unfold u32_max in *; lia|set_solver].
Qed.

(** The units sealed on a track, and what its consumer should see of them. *)
Definition sent_of (u : Outgoing) : Sent := mkSent (og_data u) (og_timestamp u) (og_keyframe u).
Definition sent_on (media : MediaId) (sends : Sends) : list Sent :=
  sent_of <$> filter (fun u => og_media_id u = media) (sends.*1.*1).
Definition received_of (s : Sent) : Received :=
  mkReceivedUnit (sent_timestamp s) (Z.lor (Z.lor (Flags.with_flag 0 Flags.KEYFRAME (sent_keyframe s)) Flags.FIRST) Flags.LAST) (sent_unit s).

Lemma sent_on_cons media u epoch key sends :
  sent_on media ((u, epoch, key) :: sends) = (if decide (og_media_id u = media) then [sent_of u] else []) ++ sent_on media sends.
Proof. unfold sent_on. cbn [fmap list_fmap fst]. rewrite filter_cons. by destruct (decide _). Qed.

Lemma at_insert (media q : Z) (sealer : Sealer) : default 0 (<[media := q]> sealer !! media) = q.
Proof. exact (f_equal (default 0) (lookup_insert_eq (sealer : gmap Z Z) media q)). Qed.
Lemma at_insert_ne (media media' q : Z) (sealer : Sealer) : media' <> media -> default 0 (<[media' := q]> sealer !! media) = default 0 (sealer !! media).
Proof. intros H. exact (f_equal (default 0) (lookup_insert_ne (sealer : gmap Z Z) media' media q H)). Qed.

(** Every datagram of the log is the piece its [seq] says. *)
Lemma log_pieces sends media base sealer key d : Forall send_wf sends -> 0 <= base ->
  default 0 (sealer !! media) = Z.min base u32_max -> (media, key, d) ∈ sealed_log sends sealer ->
  exists epoch seq flags parts, Crypto.seal encrypt key (mkHeader media epoch seq flags) parts = inl d /\
    laid base (sent_pieces <$> sent_on media sends) !! seq = Some (flags, concat parts) /\ base <= seq < u32_max /\
    header_wf (mkHeader media epoch seq flags) /\ Flags.has_reserved flags = false.
Proof.
  intros Hwf. revert base sealer. induction Hwf as [|[[u epoch] k0] sends (Hm & He & Ht) _ IH]; intros base sealer Hbase Hs Hin; [set_solver|].
  cbn [fst snd] in Hm, He, Ht. cbn [sealed_log] in Hin. unfold sealer_seal in Hin. set (fs := fragment _ _ _) in *. rewrite sent_on_cons.
  pose proof (seal_fragments_spec (og_media_id u) epoch k0 fs (default 0 (sealer !! og_media_id u))) as Hspec.
  destruct (decide (og_media_id u = media)) as [Em|Hne].
  - rewrite Em in *. rewrite Hs in *. destruct (seal_fragments _ _ _ _ fs _) as [ds q']. destruct Hspec as [-> Hds]; [unfold u32_max; lia|].
    rewrite fmap_app. cbn [fmap list_fmap app].
    assert (length (sent_pieces (sent_of u)) = length fs) as Elen by (by rewrite pieces_length).
    apply elem_of_app in Hin as [(d' & [= <- <-] & Hd)%list_elem_of_fmap|Hin].
    + apply Hds in Hd as (i & f & Hi & Hlt & Hseal). assert (Z.min base u32_max = base) as E by lia. rewrite E in *.
      exists epoch, (base + Z.of_nat i), (fr_flags f), (plaintext_parts f). split; [done|]. destruct (fragment_flags_ok _ _ _ f ltac:(by eapply list_elem_of_lookup_2)) as [Hu8 Hres].
      split; [|split; [lia|split; [|done]]].
      * cbn [app]. rewrite laid_cons, Elen. apply lookup_lt_Some in Hi as Hlen. rewrite (proj2 (Z.ltb_lt _ _)) by lia. apply lookup_map_seqZ_Some. split; [lia|].
        replace (Z.to_nat (base + Z.of_nat i - base)) with i by lia. unfold sent_pieces, sent_fragments. cbn [sent_unit sent_timestamp sent_keyframe sent_of]. change (fragment _ _ _) with fs.
        by rewrite list_lookup_fmap, Hi.
      * unfold header_wf. cbn. unfold is_u32. split_and!; try apply Hm; try apply He; try apply Hu8; lia.
    + destruct (IH (base + Z.of_nat (length fs)) (<[media := Z.min (Z.min base u32_max + Z.of_nat (length fs)) u32_max]> sealer)) as (e & seq & flags & parts & H1 & H2 & H3 & H4); [lia|rewrite at_insert; lia|done|].
      exists e, seq, flags, parts. split; [done|]. split; [|split; [lia|done]]. cbn [app]. rewrite laid_cons, Elen. by rewrite (proj2 (Z.ltb_ge _ _)) by lia.
  - cbn [app]. destruct (seal_fragments _ _ _ _ fs _) as [ds q']. apply elem_of_app in Hin as [(d' & [= E _ _] & _)%list_elem_of_fmap|Hin]; [by destruct Hne|].
    apply (IH base (<[og_media_id u := q']> sealer)); [done|by rewrite at_insert_ne|done].
Qed.

(** The nonce a datagram was sealed with, and is opened with. *)
Definition nonce_of (datagram : bytes) : bytes := take NONCE_BYTES datagram.

Definition sealed_as (m seq : Z) (d : bytes) : Prop := exists key epoch flags parts,
  Crypto.seal encrypt key (mkHeader m epoch seq flags) parts = inl d /\ header_wf (mkHeader m epoch seq flags) /\ Flags.has_reserved flags = false.

Lemma nonces_differ m seq m' seq' d d' : sealed_as m seq d -> sealed_as m' seq' d' -> nonce_of d = nonce_of d' -> m = m' /\ seq = seq'.
Proof.
  intros (k & e & fl & ps & Hs & Hwf & Hr) (k' & e' & fl' & ps' & Hs' & Hwf' & Hr') E.
  destruct (sealed_opens encrypt decrypt Hgcm _ _ _ _ Hwf Hr Hs) as (_ & E1 & _). destruct (sealed_opens encrypt decrypt Hgcm _ _ _ _ Hwf' Hr' Hs') as (_ & E2 & _).
  assert (header_nonce (mkHeader m e seq fl) = header_nonce (mkHeader m' e' seq' fl')) as En.
  { unfold header_nonce. rewrite <- E1, <- E2, !take_take. change (NONCE_BYTES `min` HEADER_BYTES)%nat with NONCE_BYTES. exact E. }
  by destruct (header_nonce_inj _ _ Hwf Hwf' En) as (? & _ & ?).
Qed.

Lemma unit_nonces media epoch key ss fs q : (forall f, f ∈ fs -> f ∈ fragment (sent_unit ss) (sent_timestamp ss) (sent_keyframe ss)) -> is_u32 media -> is_u32 epoch -> 0 <= q <= u32_max ->
  let '(ds, q') := seal_fragments encrypt media epoch key fs q in
  q <= q' <= u32_max /\ NoDup (nonce_of <$> ds) /\ forall d, d ∈ ds -> exists seq, q <= seq < q' /\ sealed_as media seq d.
Proof.
  intros Hfs Hm He. revert q. induction fs as [|f fs IH]; intros q Hq; cbn [seal_fragments]; [split; [lia|split; [constructor|set_solver]]|].
  unfold checked_add32. destruct (Z.leb_spec (q + 1) u32_max) as [Hle|Hgt]; [|split; [lia|split; [constructor|set_solver]]].
  specialize (IH ltac:(set_solver) (q + 1) ltac:(lia)). destruct (seal_fragments encrypt media epoch key fs (q + 1)) as [ds q']. destruct IH as (Hq' & Hnd & Hds).
  split; [lia|]. assert (forall d, d ∈ ds -> exists seq, q <= seq < q' /\ sealed_as media seq d) as Hrest.
  { intros d (seq & ? & ?)%Hds. exists seq. split; [lia|done]. }
  destruct (Crypto.seal _ _ _ _) as [d0|] eqn:Es; [|done]. assert (sealed_as media q d0) as H0.
  { eexists key, epoch, _, _. split; [exact Es|]. destruct (fragment_flags_ok _ _ _ f (Hfs f ltac:(set_solver))). split; [|done]. split_and!; cbn; [done|done|unfold is_u32; lia|done]. }
  split.
  - cbn [fmap list_fmap]. apply list.NoDup_cons. split; [|done]. intros (d & E & (seq & Hseq & Hd)%Hds)%list_elem_of_fmap.
    destruct (nonces_differ _ _ _ _ _ _ H0 Hd E). lia.
  - intros d [->|Hd]%elem_of_cons; [exists q; split; [lia|done]|by apply Hrest].
Qed.

Lemma log_nonces sends sealer : Forall send_wf sends -> (forall m, 0 <= default 0 (sealer !! m) <= u32_max) -> NoDup (nonce_of <$> (sealed_log sends sealer).*2).
Proof.
  intros Hwf. revert sealer. induction Hwf as [|[[u epoch] key] sends (Hm & He & Ht) Hwf IH]; intros sealer Hs; [constructor|].
  cbn [fst snd] in Hm, He, Ht. cbn [sealed_log]. unfold sealer_seal. set (fs := fragment _ _ _).
  pose proof (unit_nonces (og_media_id u) epoch key (sent_of u) fs (default 0 (sealer !! og_media_id u)) ltac:(done) Hm He (Hs _)) as Hun.
  destruct (seal_fragments _ _ _ _ fs _) as [ds q']. destruct Hun as (Hq' & Hnd & Hds). specialize (Hs (og_media_id u)) as Hsu.
  assert (forall m, 0 <= default 0 (<[og_media_id u := q']> sealer !! m) <= u32_max) as Hs'.
  { intros m. destruct (decide (m = og_media_id u)) as [->|Hne]; [rewrite at_insert; lia|]. rewrite at_insert_ne by done. apply Hs. }
  rewrite fmap_app, fmap_app. apply list.NoDup_app. split; [|split; [|by apply IH]].
  - assert (((fun d => (og_media_id u, key, d)) <$> ds).*2 = ds) as -> by (rewrite <- list_fmap_compose; apply list_fmap_id). done.
  - intros n (d & -> & (x & -> & (d0 & -> & Hd)%list_elem_of_fmap)%list_elem_of_fmap)%list_elem_of_fmap. cbn [snd].
    intros (d' & E & ([[m k'] d''] & -> & Hin)%list_elem_of_fmap)%list_elem_of_fmap. cbn [snd] in E.
    destruct (log_pieces sends m _ (<[og_media_id u := q']> sealer) k' d'' Hwf (proj1 (Hs' m)) (eq_sym (Z.min_l _ _ (proj2 (Hs' m)))) Hin) as (e & seq & fl & ps & Hseal & _ & Hseq & Hwf' & Hres).
    destruct (Hds _ Hd) as (seq0 & Hseq0 & Hsa). destruct (nonces_differ _ _ _ _ _ _ Hsa (ex_intro _ k' (ex_intro _ e (ex_intro _ fl (ex_intro _ ps (conj Hseal (conj Hwf' Hres)))))) E) as [<- <-].
    rewrite at_insert in Hseq. lia.
Qed.

(** C11: No nonce is used twice: over any units sealed one after the other on any tracks,
    under any epochs and keys, the datagrams carry distinct nonces, so a key never seals two
    plaintexts under one.  The counter of a track that reaches its end stops it instead. *)
Theorem no_nonce_is_used_twice (sends : Sends) (Hwf : Forall send_wf sends) :
  NoDup (nonce_of <$> (sealed_log sends ∅).*2) /\
  (forall media key d, (media, key, d) ∈ sealed_log sends ∅ -> exists h, header_parse_strict d = inl h /\ hdr_media_id h = media /\ 0 <= hdr_seq h < u32_max /\ nonce_of d = header_nonce h).
Proof.
  split; [apply log_nonces; [done|]; intros m; change (0 <= 0 <= u32_max); unfold u32_max; lia|]. intros media key d Hin.
  assert (default 0 ((∅ : Sealer) !! media) = Z.min 0 u32_max) as E0 by (change (0 = Z.min 0 u32_max); done).
  destruct (log_pieces sends media 0 ∅ key d Hwf ltac:(lia) E0 Hin) as (e & seq & fl & ps & Hs & _ & Hseq & Hw & Hr).
  destruct (sealed_opens encrypt decrypt Hgcm _ _ _ _ Hw Hr Hs) as (_ & E & Hp & _). exists (mkHeader media e seq fl). split; [exact Hp|]. split; [done|]. split; [done|].
  unfold nonce_of, header_nonce. rewrite <- E, take_take. done.
Qed.
End Sealing.

(** ** Delivery *)

Lemma fragments_some s : (1 <= length (sent_fragments s))%nat.
Proof. rewrite <- pieces_length. destruct (pieces_whole s) as [Hne _]. destruct (sent_pieces s); [done|cbn; lia]. Qed.

Lemma units_sorted base ss : StronglySorted precedes (units_of base ss) /\ (forall u, u ∈ units_of base ss -> base <= un_first_seq u <= un_last_seq u).
Proof.
  revert base. induction ss as [|s ss IH]; intros base; cbn [units_of]; [split; [constructor|set_solver]|].
  pose proof (fragments_some s) as Hlen. destruct (IH (base + Z.of_nat (length (sent_fragments s)))) as [Hs Hge]. split.
  - constructor; [done|]. apply Forall_forall. intros u Hu%list_elem_of_In. specialize (Hge u Hu). unfold precedes. cbn [un_first_seq un_last_seq]. lia.
  - intros u [->|Hu]%elem_of_cons; cbn [un_first_seq un_last_seq]; [lia|]. specialize (Hge u Hu). lia.
Qed.

Lemma sorted_sublist l l' : StronglySorted precedes l -> StronglySorted precedes l' -> (forall u, u ∈ l -> u ∈ l' /\ un_first_seq u <= un_last_seq u) -> l `sublist_of` l'.
Proof.
  intros Hl Hl'. revert l Hl. induction Hl' as [|x l' Hl' IH Hx]; intros l Hl Hin.
  { destruct l as [|u l]; [done|]. destruct (Hin u) as [H _]; set_solver. }
  destruct l as [|e l]; [apply sublist_nil_l|]. apply StronglySorted_inv in Hl as Hl2. destruct Hl2 as [Hl2 He]. rewrite Forall_forall in He, Hx.
  destruct (decide (e = x)) as [->|Hne].
  - apply sublist_skip, IH; [done|]. intros u Hu. destruct (Hin u ltac:(set_solver)) as [Hu' Hle]. split; [|done].
    apply elem_of_cons in Hu' as [->|?]; [|done]. specialize (He x ltac:(by apply list_elem_of_In)). unfold precedes in He. lia.
  - apply sublist_cons, IH; [done|]. intros u Hu. destruct (Hin u Hu) as [Hu' Hle]. split; [|done].
    apply elem_of_cons in Hu' as [->|?]; [|done]. exfalso. destruct (Hin e ltac:(set_solver)) as [He' Hle']. apply elem_of_cons in He' as [->|He']; [done|].
    specialize (Hx e ltac:(by apply list_elem_of_In)). apply elem_of_cons in Hu as [->|Hu]; [done|]. specialize (He x ltac:(by apply list_elem_of_In)). unfold precedes in *. lia.
Qed.

Lemma units_received base ss : received_from <$> units_of base ss = received_of <$> ss.
Proof. revert base. induction ss as [|s ss IH]; intros base; [done|]. cbn [units_of fmap list_fmap]. by rewrite IH. Qed.

Section Delivery.
Context {Private Key : Type} (hkdf16 : bytes -> bytes -> Key) (encrypt : Key -> bytes -> bytes -> bytes -> option (bytes * bytes))
  (decrypt : Key -> bytes -> bytes -> bytes -> bytes -> option bytes).
Hypothesis (Hgcm : forall key nonce aad p c t,
  encrypt key nonce aad p = Some (c, t) ->
  length c = length p /\ length t = TAG_BYTES /\ decrypt key nonce aad c t = Some p).

(** The keys a key manager may hand out for a track. *)
Definition may_hand_out (media : MediaId) (managers : list (KeyManager Private Key)) (key : Key) : Prop :=
  exists k epoch, k ∈ managers /\ fst (recv_key hkdf16 media epoch k) = Some key.

(** Nobody else sealed what arrives: what opens under a key the receiver holds for the track
    is a datagram its sender sealed under that key. *)
Definition no_forgeries (media : MediaId) (managers : list (KeyManager Private Key)) (log : list (MediaId * Key * bytes)) (arriving : list bytes) : Prop :=
  forall key d h p, may_hand_out media managers key -> d ∈ arriving -> Crypto.open decrypt key d = inl (h, p) -> (media, key, d) ∈ log.

(** C2: A track delivers what was sealed on it.  Whatever arrives on a subscribed track, from
    a network that loses, repeats, reorders and adds datagrams but forges none, at whatever
    times, while keys come and go and units are refused by a full consumer, and whatever its
    window saw in earlier subscriptions: the units its consumer gets are units its sender
    sealed, byte for byte with their timestamps and flags, each at most once, and video in the
    order it was sealed. *)
Theorem a_track_delivers_what_was_sealed (media : MediaId) (kind : Kind) (sends : Sends) (es : list (@TrackEvent Private Key))
  (shared : @Shared Private Key) (sink : Sink) (earlier : list Z) (Hwf : Forall send_wf sends)
  (Hsink : sh_sinks shared !! media = Some sink) (Hwindow : sk_window sink = snd (checks window_default earlier)) (Hearlier : Forall (fun seq => 0 <= seq < u32_max) earlier)
  (Hout : sh_out shared = [])
  (Hauth : no_forgeries media (sh_keys shared :: managers_in es) (sealed_log encrypt sends ∅) (datagrams_in es)) :
  let delivered := sh_out (snd (track_run hkdf16 decrypt es (track_new media kind, shared))) in
  let sealed := received_of <$> sent_on media sends in
  match kind with VideoKind => delivered `sublist_of` sealed | AudioKind => delivered ⊆+ sealed end.
Proof.
  set (ss := sent_on media sends). set (F := laid 0 (sent_pieces <$> ss)). set (L := spread 0 (sent_pieces <$> ss)).
  set (bound := foldr Z.max 0 ((fun s => Z.of_nat (length (sent_pieces s))) <$> ss)).
  assert (laid_out F L bound) as HF.
  { apply spread_laid; apply Forall_fmap; [apply Forall_true; apply pieces_whole|]. unfold bound. clear. induction ss as [|s ss IH]; [constructor|]. constructor; cbn; [lia|].
    eapply Forall_impl; [|exact IH]. cbn. intros x Hx. lia. }
  set (theirs := may_hand_out media (sh_keys shared :: managers_in es)).
  assert (forall d, d ∈ datagrams_in es -> genuine decrypt F theirs d) as Hgen.
  { intros d Hd key h p Hkey Ho. pose proof (Hauth key d h p Hkey Hd Ho) as Hin.
    assert (default 0 ((∅ : Sealer) !! media) = Z.min 0 u32_max) as E0 by (change (0 = Z.min 0 u32_max); done).
    destruct (log_pieces encrypt decrypt Hgcm sends media 0 ∅ key d Hwf ltac:(lia) E0 Hin) as (e & seq & fl & ps & Hs & HFs & Hseq & Hw & Hr).
    destruct (sealed_opens encrypt decrypt Hgcm _ _ _ _ Hw Hr Hs) as (_ & _ & _ & Ho'). rewrite Ho' in Ho. injection Ho as <- <-. done. }
  assert (Forall is_u32 earlier) as He32. { eapply Forall_impl; [|exact Hearlier]. intros x [? ?]. unfold is_u32. lia. }
  pose proof (checks_spec earlier window_default ∅ window_ok_default He32) as Hc. destruct (checks window_default earlier) as [seen w] eqn:Ec.
  destruct (spec_checks ∅ earlier) as [seen' acc]. destruct Hc as (_ & Hw & _ & _ & Hacc). cbn [snd] in Hwindow.
  destruct (run_new_ok hkdf16 decrypt F L bound HF media kind theirs es acc sink shared) as (emitted & Hsub & Hfrom & Hkind).
  - done.
  - by rewrite Hwindow.
  - intros x Hx. rewrite Hacc in Hx. assert (x ∈ earlier) as Hxe.
    { apply elem_of_union in Hx as [Hx|Hx]; [by apply not_elem_of_empty in Hx|]. apply elem_of_list_to_set in Hx. apply list_elem_of_omap in Hx as ([q v] & Hin & Hq). apply elem_of_zip_l in Hin. destruct (decide _); [|done]. by injection Hq as <-. }
    by apply (proj1 (Forall_forall _ _) Hearlier), list_elem_of_In.
  - done.
  - intros epoch key Hk. exists (sh_keys shared), epoch. split; [apply elem_of_cons; by left|done].
  - done.
  - intros k Hk epoch key Hkey. exists k, epoch. split; [apply elem_of_cons; by right|done].
  - assert (omap (unit_at F) L = units_of 0 ss) as EU.
    { apply spread_units; [|intros i p Hi; apply lookup_laid; split; [lia|]; by replace (Z.to_nat (0 + Z.of_nat i - 0)) with i by lia].
      unfold ss, sent_on. apply Forall_fmap. clear - Hwf. induction Hwf as [|x sends Hx _ IH]; [constructor|]. cbn [fmap list_fmap]. rewrite filter_cons. destruct (decide _); [|done].
      constructor; [|done]. apply Hx. }
    assert (forall u, u ∈ emitted -> u ∈ units_of 0 ss) as Hem.
    { intros u (a & b & HL & Hu)%Hfrom. rewrite <- EU. apply list_elem_of_omap. by exists (a, b). }
    destruct (units_sorted 0 ss) as [Hsorted Hge]. cbn zeta. rewrite <- (units_received 0 ss). destruct kind.
    + etransitivity; [apply sublist_submseteq, Hsub|]. apply fmap_submseteq. apply NoDup_submseteq; [|done]. by eapply NoDup_fmap_1.
    + etransitivity; [exact Hsub|]. apply fmap_sublist. apply sorted_sublist; [done|done|]. intros u Hu. split; [by apply Hem|]. pose proof (Hge u (Hem u Hu)) as [_ ?]. done.
Qed.
End Delivery.

(** ** Waiting for a key *)

Section Waiting.
Context {Private Key : Type} (hkdf16 : bytes -> bytes -> Key) (decrypt : Key -> bytes -> bytes -> bytes -> bytes -> option bytes).
Abbreviation Shared := (@Shared Private Key).

Definition arrivals (pending : list (Z * Epoch * bytes)) : list Z := pending.*1.*1.

(** [clock] is the latest time the task was given. *)
Record waits_ok (clock : Z) (t : Track) : Prop := {
  wt_sorted : StronglySorted Z.le (arrivals (tk_pending t));
  wt_past : Forall (fun a => a <= clock) (arrivals (tk_pending t));
  wt_bound : Z.of_nat (length (tk_pending t)) <= MAX_PENDING;
  wt_tick : forall at_, tk_next_tick t = Some at_ -> at_ <= clock + TICK;
  wt_wakes : tk_pending t <> [] -> is_Some (tk_next_tick t)
}.

Lemma waits_later clock now t : waits_ok clock t -> clock <= now -> waits_ok now t.
Proof.
  intros [] Hle. split; try done; [eapply Forall_impl; [|exact wt_past0]; cbn; lia|]. intros at_ H. specialize (wt_tick0 at_ H). lia.
Qed.

Lemma pass_on_waits u now t (s : Shared) : let '(t', s') := pass_on u now t s in tk_pending t' = tk_pending t /\ tk_next_tick t' = tk_next_tick t.
Proof.
  unfold pass_on. destruct (tk_kind t).
  - pose proof (deliver_ok ∅ [] u (sat_sub (un_first_seq u) AUDIO_STRAGGLER_SEQS) t s) as Hp. destruct (deliver _ _ s) as [t' s']. by destruct Hp.
  - destruct (reorder_push u now (tk_reorder t)) as [out ro]. pose proof (pass_emit_ok ∅ [] out (with_reorder ro t) s) as Hp. destruct (emit out _ s) as [t' s']. by destruct Hp.
Qed.

(** A datagram is done with, or held after those that wait. *)
Lemma handle_waits epoch d arrived now t (s : Shared) : let '(t', s') := handle hkdf16 decrypt epoch d arrived now t s in
  (tk_pending t' = tk_pending t /\ tk_next_tick t' = tk_next_tick t) \/
  (tk_pending t' = tk_pending t ++ [(arrived, epoch, d)] /\ Z.of_nat (length (tk_pending t)) < MAX_PENDING /\ tk_next_tick t' = Some (default (now + TICK) (tk_next_tick t))).
Proof.
  unfold handle. destruct (recv_key hkdf16 (tk_media_id t) epoch (sh_keys s)) as [key k]. set (s1 := on_keys k s). clearbody s1.
  assert (let '(t', s') := hold arrived epoch d now t s1 in (tk_pending t' = tk_pending t /\ tk_next_tick t' = tk_next_tick t) \/
    (tk_pending t' = tk_pending t ++ [(arrived, epoch, d)] /\ Z.of_nat (length (tk_pending t)) < MAX_PENDING /\ tk_next_tick t' = Some (default (now + TICK) (tk_next_tick t)))) as Hhold.
  { unfold hold. destruct (Z.ltb_spec (Z.of_nat (length (tk_pending t))) MAX_PENDING); [by right|by left]. }
  destruct key as [key|]; [|exact Hhold]. cbn [fmap option_fmap option_map]. destruct (Crypto.open decrypt key d) as [[h p]|[]]; try exact Hhold; try by left.
  destruct (sh_sinks s1 !! tk_media_id t) as [sink|]; [|by left]. destruct (sink_accept _ _ sink) as [[] sink']; try by left.
  destruct (ra_push _ _ p (tk_reassembler t)) as [[u|] r]; [|by left]. set (s2 := on_sinks _ s1). clearbody s2.
  pose proof (pass_on_waits u now (with_reassembler r t) s2) as Hp. destruct (pass_on u now _ s2) as [t' s']. by left.
Qed.

Lemma sorted_snoc_le l a : StronglySorted Z.le l -> Forall (fun x => x <= a) l -> StronglySorted Z.le (l ++ [a]).
Proof.
  induction l as [|x l IH]; intros Hs Hall; [repeat constructor|]. apply StronglySorted_inv in Hs as [Hs Hx]. apply Forall_cons_1 in Hall as [Ha Hall].
  cbn [app]. constructor; [by apply IH|]. apply Forall_app. split; [done|]. by repeat constructor.
Qed.

Lemma handle_waits_ok epoch d arrived now t (s : Shared) : waits_ok now t -> arrived <= now -> Forall (fun a => a <= arrived) (arrivals (tk_pending t)) ->
  let '(t', s') := handle hkdf16 decrypt epoch d arrived now t s in
  waits_ok now t' /\ (forall x, x ∈ tk_pending t' -> x ∈ tk_pending t \/ x = (arrived, epoch, d)).
Proof.
  intros [] Ha Hall. pose proof (handle_waits epoch d arrived now t s) as H. destruct (handle _ _ epoch d arrived now t s) as [t' s'].
  destruct H as [(E1 & E2)|(E1 & Hlt & E2)].
  - split; [|rewrite E1; by left]. split; rewrite ?E1, ?E2; done.
  - split; [|rewrite E1; intros x [Hx|Hx%list_elem_of_singleton]%elem_of_app; [by left|by right]].
    assert (arrivals (tk_pending t') = arrivals (tk_pending t) ++ [arrived]) as Ea by (rewrite E1; unfold arrivals; by rewrite !fmap_app).
    split; rewrite ?Ea.
    + by apply sorted_snoc_le.
    + apply Forall_app. split; [done|]. by repeat constructor.
    + rewrite E1, length_app. cbn. lia.
    + rewrite E2. intros at_ [= <-]. destruct (tk_next_tick t) as [n|]; cbn; [by apply wt_tick0|lia].
    + rewrite E2. by eexists.
Qed.

Lemma handle_all_waits_ok now l t (s : Shared) : waits_ok now t -> StronglySorted Z.le (arrivals (tk_pending t) ++ arrivals l) -> Forall (fun a => a <= now) (arrivals l) ->
  let '(t', s') := foldl (fun '(t, s) '(arrived, epoch, datagram) => handle hkdf16 decrypt epoch datagram arrived now t s) (t, s) l in
  waits_ok now t' /\ (forall x, x ∈ tk_pending t' -> x ∈ tk_pending t \/ x ∈ l).
Proof.
  revert t s. induction l as [|[[a e] d] l IH]; intros t s Hok Hs Hpast; [split; [done|by left]|]. cbn [foldl].
  cbn [arrivals fmap list_fmap fst] in Hs, Hpast. apply Forall_cons_1 in Hpast as [Ha Hpast].
  assert (Forall (fun x => x <= a) (arrivals (tk_pending t))) as Hbefore.
  { clear - Hs. induction (arrivals (tk_pending t)) as [|x xs IH]; [constructor|]. apply StronglySorted_inv in Hs as [Hs Hx]. constructor; [|by apply IH].
    apply Forall_app in Hx as [_ Hx]. by apply Forall_cons_1 in Hx as [? _]. }
  pose proof (handle_waits_ok e d a now t s Hok Ha Hbefore) as H1. pose proof (handle_waits e d a now t s) as H2.
  destruct (handle _ _ e d a now t s) as [t1 s1]. destruct H1 as [Hok1 Hin1]. specialize (IH t1 s1 Hok1).
  destruct (foldl _ (t1, s1) l) as [t' s']. destruct IH as [Hok' Hin'].
  - destruct H2 as [[E _]|(E & _)]; rewrite E.
    + clear - Hs. induction (arrivals (tk_pending t)) as [|x xs IH]; [by apply StronglySorted_inv in Hs as []|]. apply StronglySorted_inv in Hs as [Hs Hx].
      constructor; [by apply IH|]. apply Forall_app in Hx as [Hx1 Hx2]. apply Forall_app. split; [done|]. by apply Forall_cons_1 in Hx2 as [_ ?].
    + unfold arrivals in *. rewrite !fmap_app, <- app_assoc. exact Hs.
  - done.
  - split; [done|]. intros x Hx. apply Hin' in Hx as [Hx|Hx]; [|right; apply elem_of_cons; by right].
    apply Hin1 in Hx as [Hx|Hx]; [by left|right; apply elem_of_cons; by left].
Qed.

Lemma retry_waits_ok now t (s : Shared) : waits_ok now t ->
  let '(t', s') := retry_pending hkdf16 decrypt now t s in waits_ok now t' /\ (forall x, x ∈ tk_pending t' -> x ∈ tk_pending t).
Proof.
  intros Hok. unfold retry_pending. destruct (tk_pending t) as [|x l] eqn:Ep; [rewrite Ep; done|]. destruct (_ =? _); [rewrite Ep; done|]. rewrite <- Ep.
  destruct Hok as [H1 H2 H3 H4 H5]. set (t0 := with_pending [] _).
  assert (waits_ok now t0) as H0 by (split; cbn; [constructor|constructor|unfold MAX_PENDING; lia|done|done]).
  pose proof (handle_all_waits_ok now (tk_pending t) t0 s H0 H1 H2) as H. destruct (foldl _ (t0, s) (tk_pending t)) as [t' s'].
  destruct H as [? Hin]. split; [done|]. intros y [Hy|?]%Hin; [by apply not_elem_of_nil in Hy|done].
Qed.

Lemma expired_spec now pending : StronglySorted Z.le (arrivals pending) -> Forall (fun a => now - a < PENDING_KEY_WAIT) (arrivals (drop (expired now pending) pending)).
Proof.
  induction pending as [|[[a e] d] l IH]; intros Hs; [constructor|]. cbn [expired]. apply StronglySorted_inv in Hs as [Hs Ha].
  destruct (Z.leb_spec PENDING_KEY_WAIT (sat_sub now a)) as [|Hlt]; [by apply IH|]. cbn [drop]. constructor; [unfold sat_sub in Hlt; cbn; lia|].
  eapply Forall_impl; [|exact Ha]. cbn. intros x Hx. unfold sat_sub in Hlt. lia.
Qed.

Lemma sorted_drop n (l : list Z) : StronglySorted Z.le l -> StronglySorted Z.le (drop n l).
Proof. revert n. induction l as [|x l IH]; intros [|n] Hs; [done..|]. cbn. apply IH. by apply StronglySorted_inv in Hs as []. Qed.

Lemma drop_waits_ok n now t : waits_ok now t -> waits_ok now (with_pending (drop n (tk_pending t)) t).
Proof.
  intros []. assert (arrivals (drop n (tk_pending t)) = drop n (arrivals (tk_pending t))) as E by (unfold arrivals; by rewrite !fmap_drop).
  split; cbn [tk_pending tk_next_tick with_pending]; rewrite ?E.
  - by apply sorted_drop.
  - by apply Forall_drop.
  - rewrite length_drop. lia.
  - done.
  - intros Hne. apply wt_wakes0. intros Hn. by rewrite Hn, drop_nil in Hne.
Qed.

(** After a wake-up only what is young waits, and the next wake-up is near. *)
Lemma tick_waits_ok now t (s : Shared) : waits_ok now t ->
  let '(t', s') := track_tick hkdf16 decrypt now t s in
  waits_ok now t' /\ Forall (fun a => now - a < PENDING_KEY_WAIT) (arrivals (tk_pending t')) /\
  (tk_pending t' <> [] -> exists at_, next_wake t' = Some at_ /\ at_ <= now + TICK).
Proof.
  intros Hok. unfold track_tick. pose proof (expired_spec now (tk_pending t) (wt_sorted _ _ Hok)) as Hyoung. set (n := expired now _) in *. set (s0 := on_stats _ s). clearbody s0.
  pose proof (retry_waits_ok now _ s0 (drop_waits_ok n now t Hok)) as H1. destruct (retry_pending _ _ now _ s0) as [t1 s1]. destruct H1 as [Hok1 Hin].
  cbn [tk_pending with_pending] in Hin. destruct (reorder_poll now _) as [out ro]. set (t2 := with_reorder ro _).
  pose proof (pass_emit_ok ∅ [] out t2 s1) as Hp. destruct (emit out t2 s1) as [t' s']. destruct Hp as [_ _ Ep En _ _ _ _ _]. cbn in Ep, En.
  assert (waits_ok now t') as Hok'.
  { destruct Hok1. split; rewrite ?Ep, ?En; try done.
    - destruct (tk_pending t1); [done|]. intros at_ [= <-]. lia.
    - destruct (tk_pending t1); [done|]. intros _. by eexists. }
  split; [done|]. split.
  - apply Forall_forall. intros a Ha%list_elem_of_In. rewrite Ep in Ha. unfold arrivals in Ha. apply list_elem_of_fmap in Ha as (y & -> & (x & -> & Hx%Hin)%list_elem_of_fmap).
    apply (proj1 (Forall_forall _ _) Hyoung), list_elem_of_In. unfold arrivals. apply list_elem_of_fmap. exists x.1. split; [done|]. apply list_elem_of_fmap. by exists x.
  - intros Hne. unfold next_wake. destruct (wt_wakes _ _ Hok' Hne) as [a Ha]. rewrite Ha. apply (wt_tick _ _ Hok') in Ha.
    destruct (reorder_deadline (tk_reorder t')); eexists; (split; [done|lia]).
Qed.

Lemma receive_waits_ok d now t (s : Shared) : waits_ok now t -> let '(t', s') := track_receive hkdf16 decrypt d now t s in waits_ok now t'.
Proof.
  intros Hok. unfold track_receive. pose proof (retry_waits_ok now t s Hok) as H1. destruct (retry_pending _ _ now t s) as [t1 s1]. destruct H1 as [Hok1 _].
  destruct (header_parse_strict d) as [h|]; [|done]. pose proof (handle_waits_ok (hdr_epoch h) d now now t1 s1 Hok1 ltac:(lia) (wt_past _ _ Hok1)) as H2.
  destruct (handle _ _ _ d now now t1 s1) as [t2 s2]. by destruct H2.
Qed.

(** The times of a run. *)
Definition track_times (es : list (@TrackEvent Private Key)) : list Z := omap (fun e => match e with TkDatagram _ now | TkTimeout now => Some now | TkKeys _ => None end) es.

Lemma run_waits_ok es clock t (s : Shared) : waits_ok clock t -> StronglySorted Z.le (clock :: track_times es) ->
  waits_ok (List.last (track_times es) clock) (fst (track_run hkdf16 decrypt es (t, s))).
Proof.
  unfold track_run. revert clock t s. induction es as [|e es IH]; intros clock t s Hok Hs; [done|]. cbn [foldl].
  destruct e as [d now|now|k]; cbn [track_times omap list_omap] in Hs |- *.
  - apply StronglySorted_inv in Hs as [Hs Hle]. apply Forall_cons_1 in Hle as [Hle _]. pose proof (receive_waits_ok d now t s (waits_later _ _ _ Hok Hle)) as H1.
    cbn [track_step fst snd]. destruct (track_receive _ _ d now t s) as [t1 s1]. specialize (IH now t1 s1 H1 Hs).
    change (omap _ es) with (track_times es). rewrite last_cons. exact IH.
  - apply StronglySorted_inv in Hs as [Hs Hle]. apply Forall_cons_1 in Hle as [Hle _]. pose proof (tick_waits_ok now t s (waits_later _ _ _ Hok Hle)) as H1.
    cbn [track_step fst snd]. destruct (track_tick _ _ now t s) as [t1 s1]. destruct H1 as [H1 _]. specialize (IH now t1 s1 H1 Hs).
    change (omap _ es) with (track_times es). rewrite last_cons. exact IH.
  - by apply IH.
Qed.

(** What no key opens yet waits, but not for ever and not without bound: after any run of
    a track whose clock does not go back, at most [MAX_PENDING] datagrams wait, oldest first,
    and while any waits the task has a wake-up set, at most [TICK] ahead; and once it is woken
    up, what still waits has waited less than [PENDING_KEY_WAIT]. *)
Theorem waiting_for_a_key_is_bounded (media : MediaId) (kind : Kind) (es : list (@TrackEvent Private Key)) (shared : Shared) (now : Z)
  (Htimes : StronglySorted Z.le (0 :: track_times es ++ [now])) :
  let '(t, s) := track_run hkdf16 decrypt es (track_new media kind, shared) in
  Z.of_nat (length (tk_pending t)) <= MAX_PENDING /\ StronglySorted Z.le (arrivals (tk_pending t)) /\
  (tk_pending t <> [] -> exists at_, next_wake t = Some at_ /\ at_ <= List.last (track_times es) 0 + TICK) /\
  let '(t', _) := track_tick hkdf16 decrypt now t s in
  Forall (fun arrived => now - arrived < PENDING_KEY_WAIT) (arrivals (tk_pending t')) /\
  (tk_pending t' <> [] -> exists at_, next_wake t' = Some at_ /\ at_ <= now + TICK).
Proof.
  assert (StronglySorted Z.le (0 :: track_times es) /\ List.last (track_times es) 0 <= now) as [Hs Hnow].
  { clear - Htimes. revert Htimes. generalize 0. induction (track_times es) as [|x xs IH]; intros z Hs; apply StronglySorted_inv in Hs as [Hs Hz].
    - apply Forall_cons_1 in Hz as [? _]. split; [repeat constructor|done].
    - destruct (IH x Hs) as [H1 H2]. cbn [app] in Hz. apply Forall_cons_1 in Hz as [Hzx Hz]. apply Forall_app in Hz as [Hz _]. split; [constructor; [done|by constructor]|].
      rewrite last_cons. exact H2. }
  assert (waits_ok 0 (track_new media kind)) as H0 by (split; cbn; [constructor|constructor|unfold MAX_PENDING; lia|done|done]).
  pose proof (run_waits_ok es 0 _ shared H0 Hs) as Hok. destruct (track_run hkdf16 decrypt es (track_new media kind, shared)) as [t s]. cbn [fst] in Hok.
  split; [apply (wt_bound _ _ Hok)|]. split; [apply (wt_sorted _ _ Hok)|]. split.
  - intros Hne. unfold next_wake. destruct (wt_wakes _ _ Hok Hne) as [a Ha]. rewrite Ha. apply (wt_tick _ _ Hok) in Ha.
    destruct (reorder_deadline (tk_reorder t)); eexists; (split; [done|lia]).
  - pose proof (tick_waits_ok now t s (waits_later _ _ _ Hok Hnow)) as Ht. destruct (track_tick hkdf16 decrypt now t s) as [t' s']. by destruct Ht.
Qed.
End Waiting.

(** ** Witnesses *)

Module Example.
(** A receiver that holds user 2's secret of epoch 1; user 2 owns track 5. *)
Definition hkdf16 (secret info : bytes) : Z := from_be_bytes (secret ++ info).
Definition manager : KeyManager unit Z :=
  set_generation 1 (set_received {[(2, 1) := mkReceived [1; 2] None]} (set_owners {[5 := 2]} (set_epoch 1 (keys_new 1 tt [9] floors_default 0)))).
Definition key : Z := track_key hkdf16 [1; 2] 5.
Definition without_key : KeyManager unit Z := set_generation 0 (set_received ∅ manager).

(** Three units on track 5, the first of two datagrams, and one on another track between. *)
Definition unit_on (media ts : Z) (keyframe : bool) (n : nat) : Outgoing * Epoch * Z := (mkOutgoing media (replicate n ts) ts keyframe 0, 1, key).
Definition sends : list (Outgoing * Epoch * Z) := [unit_on 5 11 true 1200; unit_on 6 12 false 3; unit_on 5 13 false 2; unit_on 5 14 false 1].
Definition log : list bytes := (sealed_log example_encrypt sends ∅).*2.
Definition datagram (i : nat) : bytes := nth i log [].
Definition shared (k : KeyManager unit Z) : @Shared unit Z := mkShared k {[5 := mkSink window_default true 0]} stats_default [] [TookIt; TookIt; Full] [].

(** Lost is nothing; the datagrams come out of order and twice, among noise, the first before
    its key, and the consumer refuses the third unit. *)
Definition arriving : list (@TrackEvent unit Z) :=
  [TkDatagram (datagram 1) 1; TkKeys manager; TkDatagram (datagram 0) 2; TkDatagram [1; 2; 3] 3; TkDatagram (datagram 4) 4; TkDatagram (datagram 0) 5; TkDatagram (datagram 3) 6; TkTimeout 40].

Lemma handed_out epoch k x : k ∈ [without_key; manager] -> fst (recv_key hkdf16 5 epoch k) = Some x -> x = key.
Proof.
  intros Hk. assert (k = without_key \/ k = manager) as Hk'.
  { apply elem_of_cons in Hk as [->|Hk]; [by left|right]. by apply list_elem_of_singleton in Hk. }
  clear Hk. assert (k_received k !! (2, epoch) = None \/ k_received k !! (2, epoch) = Some (mkReceived [1; 2] None)) as Hr.
  { destruct Hk' as [->| ->]; [by left|]. change (k_received manager) with ({[(2, 1) := mkReceived [1; 2] None]} : gmap (Z * Z) KeysState.Received).
    destruct (decide (epoch = 1)) as [->|Hne]; [by right|left]. apply lookup_singleton_ne. congruence. }
  assert (owner_of 5 k = Some 2 /\ k_recv_keys k = ∅) as [Ho Hc] by (destruct Hk' as [->| ->]; done).
  unfold recv_key. destruct (below_floor epoch k); [done|]. rewrite Ho, Hc, lookup_empty. destruct Hr as [->| ->]; [done|]. by intros [= <-].
Qed.

Lemma own_entries (l : list (MediaId * Z * bytes)) (k : Z) i : (fun x => (x.1.1 =? 5) && (x.1.2 =? k)) <$> l = [true; true; false; true; true] ->
  (i < 5)%nat -> i <> 2%nat -> (5, k, nth i l.*2 []) ∈ l.
Proof.
  intros E Hi Hne. destruct l as [|a [|b [|c [|d [|e [|? ?]]]]]]; try discriminate E. cbn in E. injection E as Ea Eb Ec Ed Ee.
  assert (forall x : MediaId * Z * bytes, (x.1.1 =? 5) && (x.1.2 =? k) = true -> x = (5, k, x.2)) as Hx.
  { intros [[m k'] y] [Em%Z.eqb_eq Ek%Z.eqb_eq]%andb_true_iff. cbn in *. by subst. }
  apply (list_elem_of_lookup_2 _ i). destruct i as [|[|[|[|[|i]]]]]; try lia; cbn; f_equal; by apply Hx.
Qed.
Lemma in_log i : (i < 5)%nat -> i <> 2%nat -> (5, key, datagram i) ∈ sealed_log example_encrypt sends ∅.
Proof. apply own_entries. vm_compute. reflexivity. Qed.
Lemma arriving_in_log d : d ∈ datagrams_in arriving -> d <> [1; 2; 3] -> (5, key, d) ∈ sealed_log example_encrypt sends ∅.
Proof.
  change (datagrams_in arriving) with [datagram 1; datagram 0; [1; 2; 3]; datagram 4; datagram 0; datagram 3]. rewrite !elem_of_cons.
  intros Hd Hne. destruct Hd as [->|[->|[Hd|[->|[->|[->|Hd]]]]]]; [apply in_log; lia|apply in_log; lia|done|apply in_log; lia|apply in_log; lia|apply in_log; lia|by apply not_elem_of_nil in Hd].
Qed.
End Example.

Lemma no_nonce_is_used_twice_witness :
  length (nonce_of <$> (sealed_log example_encrypt Example.sends ∅).*2) = 5%nat /\ NoDup (nonce_of <$> (sealed_log example_encrypt Example.sends ∅).*2).
Proof.
  split; [vm_compute; reflexivity|]. apply (no_nonce_is_used_twice example_encrypt example_decrypt example_gcm Example.sends).
  repeat constructor; vm_compute; discriminate.
Defined.

Lemma a_track_delivers_what_was_sealed_witness :
  rv_timestamp <$> sh_out (snd (track_run Example.hkdf16 example_decrypt Example.arriving (track_new 5 VideoKind, Example.shared Example.without_key))) = [11; 13] /\
  sh_out (snd (track_run Example.hkdf16 example_decrypt Example.arriving (track_new 5 VideoKind, Example.shared Example.without_key)))
    `sublist_of` received_of <$> sent_on 5 Example.sends.
Proof.
  split; [vm_compute; reflexivity|].
  refine (a_track_delivers_what_was_sealed Example.hkdf16 example_encrypt example_decrypt example_gcm 5 VideoKind Example.sends Example.arriving
    (Example.shared Example.without_key) (mkSink window_default true 0) [] _ eq_refl eq_refl (List.Forall_nil _) eq_refl _).
  - repeat constructor; vm_compute; discriminate.
  - intros key d h p (k & epoch & Hk & Hkey) Hd Ho. apply Example.handed_out in Hkey as ->; [|exact Hk]. apply (Example.arriving_in_log d Hd). intros ->. discriminate Ho.
Defined.

Lemma waiting_for_a_key_is_bounded_witness :
  let es := [TkDatagram (Example.datagram 1) 1; TkDatagram (Example.datagram 0) 2] in
  let '(t, s) := track_run Example.hkdf16 example_decrypt es (track_new 5 VideoKind, Example.shared Example.without_key) in
  length (tk_pending t) = 2%nat /\ next_wake t = Some 21 /\
  Forall (fun arrived => 501 - arrived < PENDING_KEY_WAIT) (arrivals (tk_pending (fst (track_tick Example.hkdf16 example_decrypt 501 t s)))).
Proof.
  intros es. pose proof (waiting_for_a_key_is_bounded Example.hkdf16 example_decrypt 5 VideoKind es (Example.shared Example.without_key) 501 ltac:(cbn; repeat constructor; lia)) as H.
  assert (length (tk_pending (fst (track_run Example.hkdf16 example_decrypt es (track_new 5 VideoKind, Example.shared Example.without_key)))) = 2%nat) as E1 by (vm_compute; reflexivity).
  assert (next_wake (fst (track_run Example.hkdf16 example_decrypt es (track_new 5 VideoKind, Example.shared Example.without_key))) = Some 21) as E2 by (vm_compute; reflexivity).
  destruct (track_run _ _ es _) as [t s]. split; [exact E1|]. split; [exact E2|]. destruct H as (_ & _ & _ & H). destruct (track_tick _ _ 501 t s) as [t' s']. apply H.
Defined.
