(* ===== verification/EngineDelivery.v ===== *)
(** * The media engine: a clean run loses nothing

    With its key there, a consumer with room and a network that keeps the order, a track
    delivers every unit sealed on it. *)
From S2P Require Import Prelude Ordered Ids Frame Messages Crypto Fragment FragmentWindow FragmentFacts FragmentRoundTrip Reorder Floors KeysState Keys Engine EngineTrack EngineTheorems.
Open Scope Z_scope.

Definition max_fragments_of (kind : Kind) : Z := match kind with AudioKind => MAX_AUDIO_UNIT_FRAGMENTS | VideoKind => MAX_VIDEO_UNIT_FRAGMENTS end.

Section Clean.
Context {Private Key : Type} (hkdf16 : bytes -> bytes -> Key) (encrypt : Key -> bytes -> bytes -> bytes -> option (bytes * bytes))
  (decrypt : Key -> bytes -> bytes -> bytes -> bytes -> option bytes).
Hypothesis (Hgcm : forall key nonce aad p c t,
  encrypt key nonce aad p = Some (c, t) ->
  length c = length p /\ length t = TAG_BYTES /\ decrypt key nonce aad c t = Some p).
(** AES-128-GCM encrypts any plaintext of a datagram's size. *)
Hypothesis (Hencrypts : forall key nonce aad p, Z.of_nat (length p) <= BODY_BYTES -> is_Some (encrypt key nonce aad p)).
Context (media : MediaId) (kind : Kind).
Abbreviation KM := (KeyManager Private Key).
Abbreviation Shared := (@Shared Private Key).

Definition hands_out (k : KM) (epoch : Epoch) (key : Key) : Prop := fst (recv_key hkdf16 media epoch k) = Some key.

(** Between two datagrams of a unit that starts at [a]: the first [i] of its pieces [ps] are
    in, and every datagram before. *)
Record mid (a : Z) (ps : list (Z * bytes)) (i : nat) (keys : list (Epoch * Key)) (out : list Received) (t : Track) (s : Shared) : Prop := {
  md_media : tk_media_id t = media;
  md_kind : tk_kind t = kind;
  md_pending : tk_pending t = [];
  md_ra : ra_ok (tk_reassembler t);
  md_max : ra_max_fragments (tk_reassembler t) = max_fragments_of kind;
  md_buffer : ra_max_buffered (tk_reassembler t) = ra_max_buffered (reassembler_new (max_fragments_of kind));
  md_held : held (laid a [ps]) (spread a [ps]) (list_to_set (seqZ a (Z.of_nat i))) (ra_fragments (tk_reassembler t));
  md_waiting : ro_waiting (tk_reorder t) = ∅;
  md_next : ro_next (tk_reorder t) = None \/ (kind = VideoKind /\ ro_next (tk_reorder t) = Some a);
  md_sink : exists sink acc, sh_sinks s !! media = Some sink /\ window_ok (sk_window sink) acc /\ forall x, x ∈ acc -> x < a + Z.of_nat i;
  md_room : sh_room s = [];
  md_out : sh_out s = out;
  md_keys : forall epoch key, (epoch, key) ∈ keys -> hands_out (sh_keys s) epoch key
}.

Lemma laid_size base (pss : list (list (Z * bytes))) : Z.of_nat (size (laid base pss)) <= Z.of_nat (length (concat pss)).
Proof.
  rewrite <- size_dom. assert (size (dom (laid base pss)) <= size (list_to_set (seqZ base (Z.of_nat (length (concat pss)))) : gset Z))%nat as H.
  { apply subseteq_size. intros x [v [Hb Hv%lookup_lt_Some]%lookup_laid]%elem_of_dom. apply elem_of_list_to_set, elem_of_seqZ. lia. }
  rewrite size_list_to_set, length_seqZ in H by apply NoDup_seqZ. lia.
Qed.

Lemma new_seq acc x (w : ReplayWindow) : window_ok w acc -> (forall y, y ∈ acc -> y < x) -> window_peek w x = SeenNew.
Proof.
  intros Hw Hlt. rewrite (peek_spec w acc x Hw). unfold spec_seen. pose proof (greatest_spec acc) as Hg. destruct (greatest acc) as [h|]; [|done].
  destruct Hg as [Hh _]. by rewrite (proj2 (Z.ltb_lt _ _)) by (by apply Hlt).
Qed.

Lemma accept_new acc x len sink : window_ok (sk_window sink) acc -> is_u32 x -> (forall y, y ∈ acc -> y < x) ->
  exists sink', sink_accept x len sink = (SeenNew, sink') /\ window_ok (sk_window sink') ({[x]} ∪ acc).
Proof.
  intros Hw Hx Hlt. unfold sink_accept, window_check. pose proof (new_seq acc x _ Hw Hlt) as Hp. rewrite Hp. eexists. split; [done|].
  cbn. apply record_ok; [done|done|]. by rewrite <- (peek_spec _ acc x Hw).
Qed.

Lemma prefix_step a i : ({[a + Z.of_nat i]} ∪ list_to_set (seqZ a (Z.of_nat i)) : gset Z) = list_to_set (seqZ a (Z.of_nat (S i))).
Proof. apply set_eq. intros x. rewrite elem_of_union, elem_of_singleton, !elem_of_list_to_set, !elem_of_seqZ. lia. Qed.

Lemma kind_limits : 1 <= max_fragments_of kind <= u32_max /\ max_fragments_of kind <= ra_max_buffered (reassembler_new (max_fragments_of kind)) /\
  ra_max_fragments (reassembler_new (max_fragments_of kind)) = max_fragments_of kind.
Proof. destruct kind; vm_compute; repeat split; discriminate. Qed.

(** The unit of all pieces of [ss]. *)
Definition whole_unit_of (a : Z) (ss : Sent) : Unit :=
  mkUnit a (a + Z.of_nat (length (sent_pieces ss)) - 1) (sent_timestamp ss)
    (Z.lor (Z.lor (Flags.with_flag 0 Flags.KEYFRAME (sent_keyframe ss)) Flags.FIRST) Flags.LAST) (sent_unit ss).

Lemma unit_layout a ss : sendable (max_fragments_of kind) ss -> laid_out (laid a [sent_pieces ss]) (spread a [sent_pieces ss]) (max_fragments_of kind).
Proof.
  intros Hs%sendable_length. apply spread_laid; apply Forall_singleton; [apply pieces_whole|]. by rewrite pieces_length.
Qed.

Lemma whole_complete a ss i : (0 < length (sent_pieces ss))%nat -> (i <= length (sent_pieces ss))%nat ->
  complete (list_to_set (seqZ a (Z.of_nat i))) (a, a + Z.of_nat (length (sent_pieces ss)) - 1) <-> i = length (sent_pieces ss).
Proof.
  intros Hpos Hi. rewrite complete_spec. split.
  - intros H. specialize (H (a + Z.of_nat (length (sent_pieces ss)) - 1) ltac:(lia)). apply elem_of_list_to_set, elem_of_seqZ in H. lia.
  - intros -> x Hx. apply elem_of_list_to_set, elem_of_seqZ. lia.
Qed.

Lemma piece_step a ss i p r : sendable (max_fragments_of kind) ss -> 0 <= a -> a + Z.of_nat (length (sent_pieces ss)) <= u32_max -> sent_pieces ss !! i = Some p ->
  ra_ok r -> ra_max_fragments r = max_fragments_of kind -> ra_max_buffered r = ra_max_buffered (reassembler_new (max_fragments_of kind)) ->
  held (laid a [sent_pieces ss]) (spread a [sent_pieces ss]) (list_to_set (seqZ a (Z.of_nat i))) (ra_fragments r) ->
  let '(u, r') := ra_push (a + Z.of_nat i) p.1 p.2 r in
  ra_ok r' /\ ra_max_fragments r' = max_fragments_of kind /\ ra_max_buffered r' = ra_max_buffered (reassembler_new (max_fragments_of kind)) /\
  held (laid a [sent_pieces ss]) (spread a [sent_pieces ss]) (list_to_set (seqZ a (Z.of_nat (S i)))) (ra_fragments r') /\
  u = (if decide (S i = length (sent_pieces ss)) then Some (whole_unit_of a ss) else None).
Proof.
  intros Hss Ha Hend Hp Hok Hmax Hbuf Hheld. apply lookup_lt_Some in Hp as Hi. destruct kind_limits as (Hk1 & Hk2 & _).
  pose proof (unit_layout a ss Hss) as HF. pose proof (laid_size a [sent_pieces ss]) as Hsize. cbn [concat] in Hsize. rewrite app_nil_r in Hsize.
  pose proof (sendable_length _ _ Hss) as Hlen. rewrite <- pieces_length in Hlen.
  pose proof (push_ok r (a + Z.of_nat i) p.1 p.2 Hok ltac:(unfold is_u32; lia)) as Hpush. destruct (ra_push (a + Z.of_nat i) p.1 p.2 r) as [u r'].
  destruct Hpush as (Hn & Hok' & E1 & E2). assert (laid a [sent_pieces ss] !! (a + Z.of_nat i) = Some p) as HFi.
  { apply lookup_laid. split; [lia|]. cbn [concat]. rewrite app_nil_r. by replace (Z.to_nat (a + Z.of_nat i - a)) with i by lia. }
  destruct (push_held (laid a [sent_pieces ss]) (spread a [sent_pieces ss]) (max_fragments_of kind) (ra_max_buffered r) HF ltac:(rewrite Hbuf; lia)
    (list_to_set (seqZ a (Z.of_nat i))) (ra_fragments r) (a + Z.of_nat i) a (a + Z.of_nat (length (sent_pieces ss)) - 1) p) as (m' & Hpm & Hm').
  - done.
  - done.
  - rewrite elem_of_list_to_set, elem_of_seqZ. lia.
  - cbn [spread]. by apply list_elem_of_singleton.
  - lia.
  - rewrite Hmax, Hpm in Hn. injection Hn as Hu ->. rewrite prefix_step in Hu, Hm'. split; [done|]. split; [congruence|]. split; [congruence|]. split; [done|].
    rewrite <- Hu. pose proof (whole_complete a ss (S i) ltac:(lia) Hi) as Hc. destruct (decide (complete _ _)) as [Hcc|Hcc], (decide (S i = _)) as [Ei|Ei]; try tauto.
    unfold unit_at. cbn [fst snd]. rewrite (run_of_pieces _ a (sent_pieces ss)); [apply unit_of_pieces; apply Hss|].
    intros j q Hj. apply lookup_laid. split; [lia|]. cbn [concat]. rewrite app_nil_r. by replace (Z.to_nat (a + Z.of_nat j - a)) with j by lia.
Qed.

Lemma all_in_empty a ss m : sendable (max_fragments_of kind) ss ->
  held (laid a [sent_pieces ss]) (spread a [sent_pieces ss]) (list_to_set (seqZ a (Z.of_nat (length (sent_pieces ss))))) m -> m = ∅.
Proof.
  intros Hss Hm. pose proof (unit_layout a ss Hss) as HF. assert (list_to_set (seqZ a (Z.of_nat (length (sent_pieces ss)))) = dom (laid a [sent_pieces ss])) as E.
  { apply set_eq. intros x. rewrite elem_of_list_to_set, elem_of_seqZ, elem_of_dom. split.
    - intros Hx. destruct (lookup_lt_is_Some_2 (sent_pieces ss) (Z.to_nat (x - a))) as [v Hv]; [lia|]. exists v. apply lookup_laid. split; [lia|]. cbn [concat]. by rewrite app_nil_r.
    - intros [v [Hx Hv]%lookup_laid]. cbn [concat] in Hv. rewrite app_nil_r in Hv. apply lookup_lt_Some in Hv. lia. }
  rewrite E in Hm. by destruct (all_arrived _ _ _ _ HF Hm).
Qed.
Lemma held_empty a ps : held (laid a [ps]) (spread a [ps]) (list_to_set (seqZ a (Z.of_nat 0))) ∅.
Proof. intros x v. rewrite lookup_empty. split; [done|]. intros (_ & Hx & _). apply elem_of_list_to_set, elem_of_seqZ in Hx. lia. Qed.

(** A whole unit goes straight to the consumer. *)
Lemma reorder_push_now u now r : un_first_seq u <= un_last_seq u < u32_max -> ro_waiting r = ∅ -> ro_next r = None \/ ro_next r = Some (un_first_seq u) ->
  reorder_push u now r = ([OutUnit u], mkReorder (Some (un_last_seq u + 1)) ∅ None).
Proof.
  intros Hu Hw Hn. unfold reorder_push.
  assert (match ro_next r with Some next => un_last_seq u <? next | None => false end = false) as ->.
  { destruct Hn as [-> | ->]; [done|]. apply Z.ltb_ge. lia. }
  assert (match ro_next r with None => Some (un_first_seq u) | some => some end = Some (un_first_seq u)) as -> by (by destruct Hn as [-> | ->]).
  rewrite Hw, map_size_empty. change (MAX_WAITING <=? Z.of_nat 0) with false. cbv iota. unfold reorder_poll. cbn [ro_waiting]. rewrite insert_empty, map_size_singleton.
  cbn [poll_rounds ro_waiting ro_next ro_gap_since].
  assert (first_key_value ({[un_first_seq u := u]} : gmap Z Unit) = Some (un_first_seq u, u)) as ->.
  { apply first_key_value_Some. rewrite lookup_singleton_eq. split; [done|]. intros j [w [<- _]%lookup_singleton_Some]. lia. }
  cbn [default from_option id]. change (default ?x (Some ?y)) with y. rewrite Z.ltb_irrefl. cbn [andb]. unfold checked_add32. rewrite (proj2 (Z.leb_le _ _)) by lia.
  rewrite delete_singleton_eq. by rewrite (proj2 (first_key_value_None (∅ : gmap Z Unit)) eq_refl).
Qed.

Lemma deliver_now u at_ t (s : Shared) : sh_room s = [] ->
  deliver (received_from u) (with_reassembler (forget_before at_ (tk_reassembler t)) t) s
  = (with_overflowed false (with_reassembler (forget_before at_ (tk_reassembler t)) t), mkShared (sh_keys s) (sh_sinks s) (sh_stats s) (sh_requests s) [] (sh_out s ++ [received_from u])).
Proof. intros Hroom. unfold deliver, try_send. by rewrite Hroom. Qed.

Lemma pass_on_now u t (s : Shared) now : un_first_seq u <= un_last_seq u < u32_max -> tk_kind t = kind -> ro_waiting (tk_reorder t) = ∅ ->
  (ro_next (tk_reorder t) = None \/ (kind = VideoKind /\ ro_next (tk_reorder t) = Some (un_first_seq u))) -> sh_room s = [] ->
  let '(t', s') := pass_on u now t s in
  tk_media_id t' = tk_media_id t /\ tk_kind t' = kind /\ tk_pending t' = tk_pending t /\ ro_waiting (tk_reorder t') = ∅ /\
  (ro_next (tk_reorder t') = None \/ (kind = VideoKind /\ ro_next (tk_reorder t') = Some (un_last_seq u + 1))) /\
  (exists at_, tk_reassembler t' = forget_before at_ (tk_reassembler t)) /\
  sh_sinks s' = sh_sinks s /\ sh_keys s' = sh_keys s /\ sh_room s' = [] /\ sh_out s' = sh_out s ++ [received_from u].
Proof.
  intros Hu Hk Hw Hnext Hroom. unfold pass_on. rewrite Hk. destruct kind.
  - rewrite deliver_now by done. cbn. split_and!; try done; [left; by destruct Hnext as [?|[? _]]|by eexists].
  - rewrite reorder_push_now; [|done|done|tauto]. cbn [emit foldl]. change (tk_reassembler t) with (tk_reassembler (with_reorder (mkReorder (Some (un_last_seq u + 1)) ∅ None) t)).
    unfold emit. cbn [foldl]. rewrite deliver_now by done. cbn. split_and!; try done; [by right|by eexists].
Qed.

Lemma receive_step a ss i p keys out t (s : Shared) d now key epoch parts :
  sendable (max_fragments_of kind) ss -> 0 <= a -> a + Z.of_nat (length (sent_pieces ss)) <= u32_max -> sent_pieces ss !! i = Some p ->
  mid a (sent_pieces ss) i keys out t s -> (epoch, key) ∈ keys ->
  Crypto.seal encrypt key (mkHeader media epoch (a + Z.of_nat i) p.1) parts = inl d -> concat parts = p.2 ->
  header_wf (mkHeader media epoch (a + Z.of_nat i) p.1) -> Flags.has_reserved p.1 = false ->
  let '(t', s') := track_receive hkdf16 decrypt d now t s in
  if decide (S i = length (sent_pieces ss))
  then forall ps, mid (a + Z.of_nat (length (sent_pieces ss))) ps 0 keys (out ++ [received_of ss]) t' s'
  else mid a (sent_pieces ss) (S i) keys out t' s'.
Proof.
  intros Hss Ha Hend Hp Hmid Hkey Hseal Hparts Hwf Hres. destruct (sealed_opens encrypt decrypt Hgcm _ _ _ _ Hwf Hres Hseal) as (_ & _ & Hparse & Hopen).
  pose proof (piece_step a ss i p (tk_reassembler t) Hss Ha Hend Hp (md_ra _ _ _ _ _ _ _ Hmid) (md_max _ _ _ _ _ _ _ Hmid) (md_buffer _ _ _ _ _ _ _ Hmid) (md_held _ _ _ _ _ _ _ Hmid)) as Hpiece.
  apply lookup_lt_Some in Hp as Hi. destruct (md_sink _ _ _ _ _ _ _ Hmid) as (sink & acc & Hs & Hw & Hacc).
  destruct (accept_new acc (a + Z.of_nat i) (Z.of_nat (length d)) sink Hw ltac:(unfold is_u32; lia) Hacc) as (sink' & Eacc & Hw').
  unfold track_receive, retry_pending. rewrite (md_pending _ _ _ _ _ _ _ Hmid), Hparse. cbn [hdr_epoch]. unfold handle.
  rewrite (md_media _ _ _ _ _ _ _ Hmid). pose proof (md_keys _ _ _ _ _ _ _ Hmid epoch key Hkey) as Hk. unfold hands_out in Hk.
  pose proof (fun e => recv_key_again hkdf16 media epoch e (sh_keys s)) as Hagain.
  destruct (recv_key hkdf16 media epoch (sh_keys s)) as [key' k]. cbn [fst snd] in *. subst key'. cbn [fmap option_fmap option_map]. rewrite Hopen. cbn [sh_sinks on_keys]. rewrite Hs.
  cbn [hdr_seq]. rewrite Eacc. cbn [hdr_flags]. rewrite Hparts. destruct (ra_push _ p.1 p.2 (tk_reassembler t)) as [u r']. destruct Hpiece as (R1 & R2 & R3 & R4 & ->).
  set (s1 := on_sinks _ (on_keys k s)). set (t1 := with_reassembler r' t).
  assert (forall x, x ∈ {[a + Z.of_nat i]} ∪ acc -> x < a + Z.of_nat (S i)) as Hacc'.
  { intros x [->%elem_of_singleton|Hx%Hacc]%elem_of_union; lia. }
  assert (sh_sinks s1 !! media = Some sink') as Hs1 by (cbn; by rewrite lookup_insert_eq).
  assert (forall e kk, (e, kk) ∈ keys -> hands_out (sh_keys s1) e kk) as Hkeys1.
  { intros e kk Hin. unfold hands_out. cbn. rewrite Hagain. by apply (md_keys _ _ _ _ _ _ _ Hmid). }
  destruct (decide (S i = length (sent_pieces ss))) as [El|El].
  - assert (ra_fragments r' = ∅) as Hemp by (apply (all_in_empty a ss); [done|]; by rewrite <- El).
    pose proof (pass_on_now (whole_unit_of a ss) t1 s1 now ltac:(cbn [un_first_seq un_last_seq whole_unit_of]; lia) (md_kind _ _ _ _ _ _ _ Hmid) (md_waiting _ _ _ _ _ _ _ Hmid)
      (md_next _ _ _ _ _ _ _ Hmid) (md_room _ _ _ _ _ _ _ Hmid)) as Hpass.
    destruct (pass_on _ now t1 s1) as [t' s']. destruct Hpass as (P1 & P2 & P3 & P4 & P5 & (at_ & P6) & P7 & P8 & P9 & P10). intros ps.
    destruct (forget_ok r' at_ R1) as (F1 & F2 & F3 & F4). cbn in P6. split; rewrite ?P6, ?P7, ?P8, ?P10, ?P1, ?P3.
    + apply (md_media _ _ _ _ _ _ _ Hmid).
    + done.
    + apply (md_pending _ _ _ _ _ _ _ Hmid).
    + done.
    + congruence.
    + congruence.
    + rewrite F2, Hemp. assert (map_from at_ (∅ : gmap Z (Z * bytes)) = ∅) as -> by (apply map_eq; intros x; apply eq_None_not_Some; intros [v [_ Hv]%lookup_map_from]; by rewrite lookup_empty in Hv).
      apply held_empty.
    + done.
    + destruct P5 as [?|[? P5]]; [by left|right]. split; [done|]. rewrite P5. cbn [un_last_seq whole_unit_of]. f_equal. lia.
    + exists sink', ({[a + Z.of_nat i]} ∪ acc). split; [done|]. split; [done|]. intros x Hx%Hacc'. lia.
    + done.
    + cbn. by rewrite (md_out _ _ _ _ _ _ _ Hmid).
    + done.
  - split; cbn; try done; try apply Hmid. exists sink', ({[a + Z.of_nat i]} ∪ acc). done.
Qed.

(** Sealing that fails nowhere. *)
Lemma seal_all epoch key fs q : Forall (fun f => (length (concat (plaintext_parts f)) <= BODY)%nat) fs -> q + Z.of_nat (length fs) <= u32_max ->
  let '(ds, q') := seal_fragments encrypt media epoch key fs q in
  q' = q + Z.of_nat (length fs) /\
  Forall2 (fun (jf : nat * Fragment) d => Crypto.seal encrypt key (mkHeader media epoch (q + Z.of_nat jf.1) (fr_flags jf.2)) (plaintext_parts jf.2) = inl d) (imap pair fs) ds.
Proof.
  intros Hfs. revert q. induction Hfs as [|f fs Hf _ IH]; intros q Hq; cbn [seal_fragments]; [split; [cbn; lia|constructor]|].
  cbn [length] in Hq. unfold checked_add32. rewrite (proj2 (Z.leb_le _ _)) by lia. specialize (IH (q + 1) ltac:(lia)).
  destruct (seal_fragments encrypt media epoch key fs (q + 1)) as [ds q']. destruct IH as [-> IH].
  assert (exists d, Crypto.seal encrypt key (mkHeader media epoch q (fr_flags f)) (plaintext_parts f) = inl d) as [d Ed].
  { unfold Crypto.seal. assert (BODY_BYTES = Z.of_nat BODY) as EB by (vm_compute; done). rewrite (proj2 (Z.ltb_ge _ _)) by lia.
    destruct (Hencrypts key (header_nonce (mkHeader media epoch q (fr_flags f))) (header_encode (mkHeader media epoch q (fr_flags f))) (concat (plaintext_parts f)) ltac:(lia)) as [[c tag] ->]. by eexists. }
  rewrite Ed. split; [cbn [length]; lia|]. rewrite imap_cons. constructor; [cbn [fst snd]; change (Z.of_nat 0) with 0; by rewrite Z.add_0_r|].
  rewrite (imap_ext _ (fun j f => (S j, f))) by done. replace (imap (fun j f => (S j, f)) fs) with ((fun jf : nat * Fragment => (S jf.1, jf.2)) <$> imap pair fs) by (rewrite fmap_imap; by apply imap_ext).
  apply Forall2_fmap_l. eapply Forall2_impl; [|exact IH]. intros [i g] d' H. unfold compose. cbn beta. cbn [fst snd] in *. by replace (q + Z.of_nat (S i)) with (q + 1 + Z.of_nat i) by lia.
Qed.

Definition receives (es : list (bytes * Z)) (ts : @Track * Shared) : @Track * Shared :=
  foldl (fun ts e => track_step hkdf16 decrypt (TkDatagram e.1 e.2) ts) ts es.

(** A unit's datagrams, one after the other. *)
Lemma unit_step a u epoch key keys out : is_u32 (og_media_id u) -> og_media_id u = media -> is_u32 epoch -> sendable (max_fragments_of kind) (sent_of u) -> 0 <= a ->
  a + Z.of_nat (length (sent_pieces (sent_of u))) <= u32_max -> (epoch, key) ∈ keys ->
  let fs := fragment (og_data u) (og_timestamp u) (og_keyframe u) in
  let ds := fst (seal_fragments encrypt media epoch key fs a) in
  length ds = length fs /\
  forall n i es t s, (n + i = length fs)%nat -> (0 < n)%nat -> mid a (sent_pieces (sent_of u)) i keys out t s -> es.*1 = drop i ds ->
  let '(t', s') := receives es (t, s) in forall ps, mid (a + Z.of_nat (length fs)) ps 0 keys (out ++ [received_of (sent_of u)]) t' s'.
Proof.
  intros Hm Em He Hss Ha Hend Hkey fs ds. assert (is_u32 media) as Hm' by (by rewrite <- Em). assert (length (sent_pieces (sent_of u)) = length fs) as Elen by (by rewrite pieces_length). rewrite Elen in Hend.
  destruct (fragment_spec (og_data u) (og_timestamp u) (og_keyframe u)) as (_ & _ & Hbody & _). pose proof (seal_all epoch key fs a Hbody Hend) as Hall. unfold ds.
  destruct (seal_fragments encrypt media epoch key fs a) as [ds0 q']. destruct Hall as [_ Hall]. cbn [fst].
  assert (length ds0 = length fs) as Eds by (apply Forall2_length in Hall; by rewrite length_imap in Hall). split; [done|].
  induction n as [|n IH]; intros i es t s Hn Hpos Hmid Hes; [lia|].
  destruct (lookup_lt_is_Some_2 fs i ltac:(lia)) as [f Hf]. destruct (lookup_lt_is_Some_2 ds0 i ltac:(lia)) as [d Hd].
  assert (Crypto.seal encrypt key (mkHeader media epoch (a + Z.of_nat i) (fr_flags f)) (plaintext_parts f) = inl d) as Hseal.
  { apply (Forall2_lookup_lr _ _ _ i (i, f) d Hall); [|done]. by rewrite list_lookup_imap, Hf. }
  rewrite (drop_S ds0 d i Hd) in Hes. destruct es as [|[d' now] es]; [done|]. rewrite fmap_cons in Hes. injection Hes as -> Hes. cbn [fst] in *.
  destruct (fragment_flags_ok _ _ _ f ltac:(by eapply list_elem_of_lookup_2)) as [Hu8 Hres].
  assert (sent_pieces (sent_of u) !! i = Some (fr_flags f, concat (plaintext_parts f))) as Hp.
  { unfold sent_pieces, sent_fragments. cbn [sent_unit sent_timestamp sent_keyframe sent_of]. change (fragment _ _ _) with fs. by rewrite list_lookup_fmap, Hf. }
  pose proof (receive_step a (sent_of u) i _ keys out t s d now key epoch (plaintext_parts f) Hss Ha ltac:(rewrite Elen; lia) Hp Hmid Hkey Hseal eq_refl) as Hstep.
  unfold receives. cbn [foldl fst snd track_step]. fold (receives es).
  destruct (track_receive hkdf16 decrypt d now t s) as [t1 s1]. rewrite Elen in Hstep. destruct (decide (S i = length fs)) as [El|El].
  - rewrite drop_ge in Hes by lia. apply fmap_nil_inv in Hes as ->. cbn. apply Hstep; [|done]. unfold header_wf. cbn. unfold is_u32. split_and!; try apply Hm'; try apply He; try apply Hu8; lia.
  - apply (IH (S i)); [lia|lia| |done]. apply Hstep; [|done]. unfold header_wf. cbn. unfold is_u32. split_and!; try apply Hm'; try apply He; try apply Hu8; lia.
Qed.

(** The datagrams of the track, in the order they were sealed. *)
Definition own (log : list (MediaId * Key * bytes)) : list bytes := omap (fun '(m, _, d) => if decide (m = media) then Some d else None) log.
Lemma own_app log log' : own (log ++ log') = own log ++ own log'.
Proof. apply omap_app. Qed.
Lemma own_unit m key ds : own ((fun d => (m, key, d)) <$> ds) = if decide (m = media) then ds else [].
Proof.
  unfold own. induction ds as [|d ds IH]; [by destruct (decide _)|]. cbn. rewrite IH. by destruct (decide _).
Qed.

Definition keys_of (sends : @Sends Key) : list (Epoch * Key) := (fun x => (x.1.2, x.2)) <$> filter (fun x => og_media_id x.1.1 = media) sends.

Lemma keys_of_cons u epoch key sends : keys_of ((u, epoch, key) :: sends) = (if decide (og_media_id u = media) then [(epoch, key)] else []) ++ keys_of sends.
Proof. unfold keys_of. change (@Sends Key) with (list (Outgoing * Epoch * Key)) in *. rewrite filter_cons. cbn [fst]. by destruct (decide _). Qed.

Lemma sends_step sends : Forall send_wf sends -> Forall (sendable (max_fragments_of kind)) (sent_on media sends) -> forall a sealer keys out es t s ps,
  0 <= a -> a + Z.of_nat (length (concat (sent_pieces <$> sent_on media sends))) <= u32_max -> default 0 (sealer !! media) = a ->
  (forall x, x ∈ keys_of sends -> x ∈ keys) -> mid a ps 0 keys out t s -> es.*1 = own (sealed_log encrypt sends sealer) ->
  sh_out (snd (receives es (t, s))) = out ++ (received_of <$> sent_on media sends).
Proof.
  intros Hwf. induction Hwf as [|[[u epoch] key] sends (Hm & He & Ht) Hwf IH]; intros Hss a sealer keys out es t s ps Ha Hend Hsealer Hkeys Hmid Hes.
  { cbn in Hes. apply fmap_nil_inv in Hes as ->. cbn. rewrite app_nil_r. apply (md_out _ _ _ _ _ _ _ Hmid). }
  cbn [fst snd] in *. rewrite sent_on_cons in *. cbn [sealed_log] in Hes. unfold sealer_seal in Hes. rewrite keys_of_cons in Hkeys.
  set (fs := fragment _ _ _) in *. revert Hss Hend Hkeys. destruct (decide (og_media_id u = media)) as [Em|Hne]; intros Hss Hend Hkeys.
  - change ([sent_of u] ++ sent_on media sends) with (sent_of u :: sent_on media sends) in *. change ([(epoch, key)] ++ keys_of sends) with ((epoch, key) :: keys_of sends) in *.
    rewrite !fmap_cons in *. cbn [concat] in Hend. rewrite length_app in Hend. apply Forall_cons_1 in Hss as [Hs1 Hss].
    assert (length (sent_pieces (sent_of u)) = length fs) as Elen by (by rewrite pieces_length).
    destruct (unit_step a u epoch key keys out Hm Em He Hs1 Ha ltac:(lia) ltac:(apply Hkeys; cbn; by apply elem_of_cons; left)) as [El Hunit]. fold fs in El, Hunit.
    rewrite Em, Hsealer in Hes. pose proof (seal_fragments_spec encrypt decrypt Hgcm media epoch key fs a ltac:(lia)) as Hspec.
    destruct (seal_fragments encrypt media epoch key fs a) as [ds q']. cbn [fst] in El, Hunit. destruct Hspec as [Eq _].
    rewrite own_app, own_unit, decide_True in Hes by done.
    assert (exists e1 e2, es = e1 ++ e2 /\ e1.*1 = ds /\ e2.*1 = own (sealed_log encrypt sends (<[media := q']> sealer))) as (e1 & e2 & -> & H1 & H2).
    { exists (take (length ds) es), (drop (length ds) es). rewrite take_drop, fmap_take, fmap_drop, Hes. split; [done|]. by rewrite take_app_length, drop_app_length. }
    unfold receives. rewrite foldl_app. fold (receives e1). pose proof (fragments_some (sent_of u)) as Hpos. change (sent_fragments (sent_of u)) with fs in Hpos.
    assert (mid a (sent_pieces (sent_of u)) 0 keys out t s) as Hmid0.
    { destruct Hmid. split; try done. assert (ra_fragments (tk_reassembler t) = ∅) as ->; [|apply held_empty]. apply map_eq. intros x. apply eq_None_not_Some. intros [v Hv].
      apply md_held0 in Hv as (_ & Hx & _). apply elem_of_list_to_set, elem_of_seqZ in Hx. lia. }
    pose proof (Hunit (length fs) 0%nat e1 t s ltac:(lia) ltac:(lia) Hmid0 H1) as Hnext. change (foldl _ (t, s) e1) with (receives e1 (t, s)). destruct (receives e1 (t, s)) as [t1 s1].
    change (foldl _ (t1, s1) e2) with (receives e2 (t1, s1)).
    rewrite (IH Hss (a + Z.of_nat (length fs)) (<[media := q']> sealer) keys (out ++ [received_of (sent_of u)]) e2 t1 s1 []); [by rewrite <- app_assoc|lia|lia|rewrite at_insert; lia| |apply Hnext|done].
    intros x Hx. apply Hkeys. apply elem_of_cons. by right.
  - change ([] ++ sent_on media sends) with (sent_on media sends) in *. change ([] ++ keys_of sends) with (keys_of sends) in *. destruct (seal_fragments encrypt (og_media_id u) epoch key fs _) as [ds q']. rewrite own_app, own_unit, decide_False in Hes by done.
    apply (IH Hss a (<[og_media_id u := q']> sealer) keys out es t s ps); try done. by rewrite at_insert_ne.
Qed.

(** C5: A clean run loses nothing: when a fresh track receives the datagrams sealed on it in
    the order they were sealed, holds the keys they were sealed under, and its consumer has
    room, the consumer gets every unit, in order and unchanged, as far as the track's sequence
    numbers go and the units are within the size limit of the track's kind. *)
Theorem a_clean_run_delivers_everything (sends : Sends) (es : list (bytes * Z)) (shared : Shared) (sink : Sink)
  (Hwf : Forall send_wf sends) (Hsizes : Forall (sendable (max_fragments_of kind)) (sent_on media sends))
  (Hseqs : Z.of_nat (length (concat (sent_pieces <$> sent_on media sends))) <= u32_max)
  (Hsink : sh_sinks shared !! media = Some sink) (Hwindow : sk_window sink = window_default) (Hroom : sh_room shared = []) (Hout : sh_out shared = [])
  (Hkeys : forall epoch key, (epoch, key) ∈ keys_of sends -> hands_out (sh_keys shared) epoch key)
  (Harriving : es.*1 = own (sealed_log encrypt sends ∅)) :
  sh_out (snd (receives es (track_new media kind, shared))) = received_of <$> sent_on media sends.
Proof.
  destruct kind_limits as (_ & _ & Hk). apply (sends_step sends Hwf Hsizes 0 ∅ (keys_of sends) [] es (track_new media kind) shared []); try done.
  split; try done; [apply new_ok|apply held_empty|by left|].
  exists sink, ∅. split; [done|]. split; [rewrite Hwindow; apply window_ok_default|set_solver].
Qed.
End Clean.

Lemma a_clean_run_delivers_everything_witness :
  let shared := mkShared Example.manager {[5 := mkSink window_default true 0]} stats_default [] [] [] in
  let es := (fun d => (d, 7)) <$> own 5 (sealed_log example_encrypt Example.sends ∅) in
  rv_timestamp <$> sh_out (snd (receives Example.hkdf16 example_decrypt es (track_new 5 VideoKind, shared))) = [11; 13; 14] /\
  sh_out (snd (receives Example.hkdf16 example_decrypt es (track_new 5 VideoKind, shared))) = received_of <$> sent_on 5 Example.sends.
Proof.
  intros shared es. assert (sh_out (snd (receives Example.hkdf16 example_decrypt es (track_new 5 VideoKind, shared))) = received_of <$> sent_on 5 Example.sends) as E.
  { apply (a_clean_run_delivers_everything Example.hkdf16 example_encrypt example_decrypt example_gcm ltac:(intros; eexists; reflexivity) 5 VideoKind Example.sends es shared (mkSink window_default true 0)).
    - repeat constructor; vm_compute; discriminate.
    - repeat constructor; vm_compute; discriminate.
    - vm_compute. discriminate.
    - reflexivity.
    - reflexivity.
    - reflexivity.
    - reflexivity.
    - change (keys_of 5 Example.sends) with [(1, Example.key); (1, Example.key); (1, Example.key)]. intros epoch key Hin.
      assert ((epoch, key) = (1, Example.key)) as [= -> ->] by (repeat (apply elem_of_cons in Hin as [Hin|Hin]; [exact Hin|]); by apply not_elem_of_nil in Hin). vm_compute. reflexivity.
    - unfold es. rewrite <- list_fmap_compose. apply list_fmap_id. }
  split; [|exact E]. rewrite E. vm_compute. reflexivity.
Defined.
