(* ===== verification/Video.v ===== *)
(** * Encoding and decoding pictures (throcc-client-core, media/video/encode.rs and decode.rs)

    The encoder ladder, the fitting of a picture into the encoder's size, the planes of the
    frames handed to FFmpeg and taken from it, the keyframe an encoder owes, and the decoder
    that falls back to software.  FFmpeg (rsmpeg) is not part of the repository: its codec
    contexts, its scaler and its errors are the members of the class [Ffmpeg], and each
    answer of it is a parameter.  The VA-API and VideoToolbox inputs are left out: this is
    the path of a picture in shared memory. *)
From stdpp Require Import strings.
From S2P Require Import Prelude Frame Messages Float64 Jitter Pictures.
Open Scope Z_scope.

(** ** Frames of FFmpeg

    A plane is its [linesize] and the bytes at its [data] pointer. *)
Record Plane := mkPlane { pl_linesize : Z; pl_data : bytes }.
Inductive PixelFormat := FmtNv12 | FmtYuv420p | FmtYuvj420p | FmtVaapi | FmtVideoToolbox | FmtOther (format : Z).
#[export] Instance PixelFormat_eq_dec : EqDecision PixelFormat.
Proof. solve_decision. Defined.
Record AVFrame := mkAVFrame { av_width : Z; av_height : Z; av_format : PixelFormat; av_planes : list Plane }.

(** [n] bytes at an offset of a plane, and bytes copied to an offset of it. *)
Definition bytes_at (from n : Z) (l : bytes) : bytes := take (Z.to_nat n) (drop (Z.to_nat from) l).
Definition put (at_ : Z) (bs l : bytes) : bytes := take (Z.to_nat at_) l ++ bs ++ drop (Z.to_nat at_ + length bs) l.
(** A change of one plane's bytes. *)
Definition on_plane (plane : nat) (change : Plane -> bytes) (f : AVFrame) : AVFrame :=
  mkAVFrame (av_width f) (av_height f) (av_format f) (alter (fun p => mkPlane (pl_linesize p) (change p)) plane (av_planes f)).
Definition div_ceil (a b : Z) : Z := (a + b - 1) / b.

(* @src/crates/throcc-client-core/src/media/video/encode.rs 62-66 Input *)
Inductive Input := Nv12 | Yuv420p.
#[export] Instance Input_eq_dec : EqDecision Input.
Proof. solve_decision. Defined.
(* @src/crates/throcc-client-core/src/media/video/encode.rs 715-720 pixel_format *)
Definition pixel_format (input : Input) : PixelFormat := match input with Nv12 => FmtNv12 | Yuv420p => FmtYuv420p end.

(** ** The ladder of encoders *)

(* @src/crates/throcc-client-core/src/media/video/encode.rs 68-79 Backend *)
Inductive Backend := Nvenc | MediaFoundation | Vaapi | VideoToolbox | Libvpx.
#[export] Instance Backend_eq_dec : EqDecision Backend.
Proof. solve_decision. Defined.

(* @src/crates/throcc-client-core/src/media/video/encode.rs 145-153 NVENC *)
Definition NVENC : list (string * string) := [("preset", "p1"); ("tune", "ull"); ("zerolatency", "1"); ("rc", "cbr"); ("delay", "0");
  ("intra-refresh", "1"); ("forced-idr", "1")]%string.
(* @src/crates/throcc-client-core/src/media/video/encode.rs 154-158 MEDIA_FOUNDATION *)
Definition MEDIA_FOUNDATION : list (string * string) := [("hw_encoding", "1"); ("scenario", "display_remoting"); ("rate_control", "cbr")]%string.
(* @src/crates/throcc-client-core/src/media/video/encode.rs 163-163 VAAPI *)
Definition VAAPI : list (string * string) := [("rc_mode", "CBR"); ("async_depth", "1")]%string.
(* @src/crates/throcc-client-core/src/media/video/encode.rs 164-171 LIBVPX *)
Definition LIBVPX : list (string * string) := [("deadline", "realtime"); ("cpu-used", "8"); ("lag-in-frames", "0"); ("row-mt", "1");
  ("tune-content", "screen"); ("threads", "auto")]%string.
(* @src/crates/throcc-client-core/src/media/video/encode.rs 172-172 VIDEOTOOLBOX *)
Definition VIDEOTOOLBOX : list (string * string) := [("realtime", "1"); ("allow_sw", "0")]%string.

(* @src/crates/throcc-client-core/src/media/video/encode.rs 82-90 Backend::options *)
Definition backend_options (b : Backend) : list (string * string) :=
  match b with
  | Nvenc => NVENC | MediaFoundation => MEDIA_FOUNDATION | Vaapi => VAAPI | VideoToolbox => VIDEOTOOLBOX | Libvpx => LIBVPX
  end.
(* @src/crates/throcc-client-core/src/media/video/encode.rs 92-97 Backend::input *)
Definition backend_input (b : Backend) : Input := match b with Libvpx => Yuv420p | _ => Nv12 end.
(* @src/crates/throcc-client-core/src/media/video/encode.rs 99-102 Backend::uploads *)
Definition uploads (b : Backend) : bool := match b with Vaapi | VideoToolbox => true | _ => false end.
(* @src/crates/throcc-client-core/src/media/video/encode.rs 104-113 Backend::engine *)
Definition backend_engine (b : Backend) : string :=
  match b with
  | Nvenc => "NVENC" | MediaFoundation => "Media Foundation" | Vaapi => "VA-API" | VideoToolbox => "VideoToolbox"
  | Libvpx => "libvpx (software)"
  end%string.

(* @src/crates/throcc-client-core/src/media/video/encode.rs 116-121 Candidate *)
Record Candidate := mkCandidate { cd_name : string; cd_codec : Codec; cd_backend : Backend }.
(* @src/crates/throcc-client-core/src/media/video/encode.rs 131-143 LADDER *)
Definition LADDER : list Candidate := [
  mkCandidate "av1_nvenc" Av1 Nvenc;
  mkCandidate "av1_vaapi" Av1 Vaapi;
  mkCandidate "hevc_nvenc" Hevc Nvenc;
  mkCandidate "hevc_mf" Hevc MediaFoundation;
  mkCandidate "hevc_vaapi" Hevc Vaapi;
  mkCandidate "hevc_videotoolbox" Hevc VideoToolbox;
  mkCandidate "h264_nvenc" H264 Nvenc;
  mkCandidate "h264_mf" H264 MediaFoundation;
  mkCandidate "h264_vaapi" H264 Vaapi;
  mkCandidate "h264_videotoolbox" H264 VideoToolbox;
  mkCandidate "libvpx-vp9" Vp9 Libvpx]%string.

(** [cuda]: whether NVIDIA's CUDA library loads. *)
(* @src/crates/throcc-client-core/src/media/video/encode.rs 652-656 has_driver *)
Definition has_driver (cuda : bool) (c : Candidate) : bool := negb (bool_decide (cd_backend c = Nvenc)) || cuda.
(* @src/crates/throcc-client-core/src/media/video/encode.rs 647-650 first_tried *)
Definition first_tried (available : Candidate -> bool) : option Candidate := List.find available LADDER.
(** [found]: the encoders this FFmpeg has by name. *)
(* @src/crates/throcc-client-core/src/media/video/encode.rs 637-645 tries_gpu_input_first *)
Definition tries_gpu_input_first (cuda : bool) (found : string -> bool) : bool :=
  match first_tried (fun c => has_driver cuda c && found (cd_name c)) with
  | Some c => bool_decide (cd_backend c = Vaapi)
  | None => false
  end.

(* @src/crates/throcc-client-core/src/media/video/encode.rs 54-60 EncoderConfig *)
Record EncoderConfig := mkEncoderConfig { ec_width : Z; ec_height : Z; ec_fps : Z; ec_kbps : Z }.

(** ** Fitting a picture into the encoder's size *)

(* @src/crates/throcc-client-core/src/media/video/encode.rs 675-686 fitted *)
Definition fitted_rectangle (source target : Z * Z) : Z * Z * Z * Z :=
  let '(width, height) := fit_within source target in
  (floor2 ((fst target - width) / 2), floor2 ((snd target - height) / 2), width, height).

(* @src/crates/throcc-client-core/src/media/video/encode.rs 583-594 PlaneArea *)
Record PlaneArea := mkArea {
  pa_plane : nat; pa_black : Z; pa_row_bytes : Z; pa_rows : Z; pa_x : Z; pa_y : Z; pa_width : Z; pa_height : Z
}.
(** Of a frame [frame_width] by [frame_height]. *)
(* @src/crates/throcc-client-core/src/media/video/encode.rs 596-635 plane_areas *)
Definition plane_areas (frame_width frame_height : Z) (input : Input) (rectangle : Z * Z * Z * Z) : list PlaneArea :=
  let '(x, y, width, height) := rectangle in
  let luma := mkArea 0 0 frame_width frame_height x y width height in
  let chroma plane row_bytes x width := mkArea plane 128 row_bytes (div_ceil frame_height 2) x (y / 2) width (height / 2) in
  match input with
  | Nv12 => [luma; chroma 1%nat (div_ceil frame_width 2 * 2) x width]
  | Yuv420p =>
      let half := div_ceil frame_width 2 in
      [luma; chroma 1%nat half (x / 2) (width / 2); chroma 2%nat half (x / 2) (width / 2)]
  end.

(** One row of an area: the black around it and the scaled row inside. *)
(* @src/crates/throcc-client-core/src/media/video/encode.rs 558-574! Fitter::fit *)
Definition fit_row (area : PlaneArea) (scaled : Plane) (to_stride row : Z) (l : bytes) : bytes :=
  let line := row * to_stride in
  if negb ((pa_y area <=? row) && (row <? pa_y area + pa_height area)) then
    put line (replicate (Z.to_nat (pa_row_bytes area)) (pa_black area)) l
  else
    let l := put line (replicate (Z.to_nat (pa_x area)) (pa_black area)) l in
    let l := put (line + pa_x area) (bytes_at ((row - pa_y area) * pl_linesize scaled) (pa_width area) (pl_data scaled)) l in
    let right := pa_x area + pa_width area in
    put (line + right) (replicate (Z.to_nat (pa_row_bytes area - right)) (pa_black area)) l.
(** The scaled picture copied into its rectangle of the frame, black around it. *)
(* @src/crates/throcc-client-core/src/media/video/encode.rs 553-577! Fitter::fit *)
Definition fit_frame (input : Input) (rectangle : Z * Z * Z * Z) (scaled frame : AVFrame) : AVFrame :=
  foldl (fun frame area =>
    match av_planes scaled !! pa_plane area with
    | Some from =>
        on_plane (pa_plane area) (fun to_ => foldl (fun l row => fit_row area from (pl_linesize to_) row l) (pl_data to_) (upto (pa_rows area))) frame
    | None => frame
    end) frame (plane_areas (av_width frame) (av_height frame) input rectangle).

(** ** The planes of a picture

    A row of the picture is copied as it is; the chroma of a planar frame is read byte by
    byte, out of bounds it panics ([None]). *)

(* @src/crates/throcc-client-core/src/media/video/encode.rs 885-897! copy_into *)
Definition copy_plane (width rows : Z) (from : bytes) (to_ : Plane) : bytes :=
  foldl (fun l row => put (row * pl_linesize to_) (bytes_at (row * width) width from) l) (pl_data to_) (upto rows).
(** The samples of one of the two interleaved channels, [offset] 0 or 1. *)
(* @src/crates/throcc-client-core/src/media/video/encode.rs 898-908! copy_into *)
Definition split_plane (width rows offset : Z) (from : bytes) (to_ : Plane) : option bytes :=
  foldl (fun l row => foldl (fun l col =>
    l ← l; let at_ := row * width + col * 2 in
    v ← from !! Z.to_nat (at_ + offset); Some (put (row * pl_linesize to_ + col) [v] l)) l (upto (div_ceil width 2)))
    (Some (pl_data to_)) (upto rows).
(* @src/crates/throcc-client-core/src/media/video/encode.rs 877-910 copy_into *)
Definition copy_into (f : AVFrame) (picture : VideoFrame) (input : Input) : option AVFrame :=
  let width := vf_width picture in let height := vf_height picture in
  let chroma_rows := div_ceil height 2 in
  let f := on_plane 0 (copy_plane width height (vf_y picture)) f in
  match input with
  | Nv12 => Some (on_plane 1 (copy_plane width chroma_rows (vf_uv picture)) f)
  | Yuv420p =>
      u ← av_planes f !! 1%nat; v ← av_planes f !! 2%nat;
      us ← split_plane width chroma_rows 0 (vf_uv picture) u; vs ← split_plane width chroma_rows 1 (vf_uv picture) v;
      Some (on_plane 2 (fun _ => vs) (on_plane 1 (fun _ => us) f))
  end.

(** Each plane its bytes, whole [linesize] rows of one value. *)
(* @src/crates/throcc-client-core/src/media/video/encode.rs 731-752 fill_black *)
Definition fill_black (f : AVFrame) (input : Input) : AVFrame :=
  let rows := div_ceil (av_height f) 2 in
  let planes := match input with
    | Nv12 => [(0%nat, 0, av_height f); (1%nat, 128, rows)]
    | Yuv420p => [(0%nat, 0, av_height f); (1%nat, 128, rows); (2%nat, 128, rows)]
    end in
  foldl (fun f '(plane, value, rows) => on_plane plane (fun p => fill 0 (rows * pl_linesize p) value (pl_data p)) f) f planes.

(** ** Pictures from the decoder *)

(* @src/crates/throcc-client-core/src/media/video/decode.rs 290-299! plane_row *)
Definition plane_row (f : AVFrame) (plane : nat) (row len : Z) : bytes :=
  match av_planes f !! plane with Some p => bytes_at (row * pl_linesize p) len (pl_data p) | None => [] end.
(* @src/crates/throcc-client-core/src/media/video/decode.rs 251-284 to_nv12 *)
Definition to_nv12 (f : AVFrame) (timestamp : Z) : option VideoFrame :=
  let width := floor2 (av_width f) in let height := floor2 (av_height f) in
  let planar := bool_decide (av_format f = FmtYuv420p) || bool_decide (av_format f = FmtYuvj420p) in
  if negb planar && negb (bool_decide (av_format f = FmtNv12)) then None else
  let y := mjoin ((fun row => plane_row f 0 row width) <$> upto height) in
  let uv := mjoin ((fun row =>
    if planar then mjoin (zip_with (fun u v => [u; v]) (plane_row f 1 row (width / 2)) (plane_row f 2 row (width / 2)))
    else plane_row f 1 row width) <$> upto (height / 2)) in
  Some (mkFrame width height y uv timestamp).

(* @src/crates/throcc-client-core/src/media/video/decode.rs 56-57 MAX_SIDE *)
Definition MAX_SIDE : Z := 4096.
(* @src/crates/throcc-client-core/src/media/video/decode.rs 59-64 MaxSize *)
Record MaxSize := mkMaxSize { mx_width : Z; mx_height : Z }.
(* @src/crates/throcc-client-core/src/media/video/decode.rs 73-78 MaxSize::new *)
Definition max_size_new (width height : Z) : MaxSize := mkMaxSize (Z.min width MAX_SIDE) (Z.min height MAX_SIDE).
(* @src/crates/throcc-client-core/src/media/video/decode.rs 80-82 MaxSize::pixels *)
Definition mx_pixels (m : MaxSize) : Z := mx_width m * mx_height m.
(** A side is an [i32]; a negative one is too large. *)
(* @src/crates/throcc-client-core/src/media/video/decode.rs 84-87 MaxSize::fits *)
Definition mx_fits (m : MaxSize) (f : AVFrame) : bool :=
  let side v := if v <? 0 then u64_max else v in
  (side (av_width f) <=? mx_width m) && (side (av_height f) <=? mx_height m).
