(* ===== verification/Codecs.v ===== *)
(** * The encoder and the decoder (throcc-client-core, media/video/encode.rs and decode.rs)

    [Encoder::open] and [Encoder::encode], [Decoder::new] and [Decoder::decode], on the
    frames of Video.v.  The calls of FFmpeg are the members of [Ffmpeg]; the two loops that
    empty a codec take fuel, which the number of outputs FFmpeg still holds bounds. *)
From stdpp Require Import strings.
From S2P Require Import Prelude Frame Messages Float64 Jitter ShareClock Pictures Video.
Open Scope Z_scope.

(** The errors of rsmpeg the code tells apart; the others by the code [raw_error] gives. *)
Inductive RsmpegError :=
  | SendFrameAgainError | EncoderDrainError | EncoderFlushedError | DecoderDrainError | DecoderFlushedError
  | OtherError (code : Z).
#[export] Instance RsmpegError_eq_dec : EqDecision RsmpegError.
Proof. solve_decision. Defined.

(** What is set on an encoder's context before its options. *)
(* @src/crates/throcc-client-core/src/media/video/encode.rs 801-834! open_candidate *)
Record Settings := mkSettings {
  st_width : Z; st_height : Z; st_time_base : Z; st_fps : Z; st_format : PixelFormat; st_bit_rate : Z; st_max_b_frames : Z;
  st_gop_size : Z; st_low_delay : bool
}.
(** A frame given to an encoder: its [pts], and whether it is asked to be a keyframe. *)
Record Submitted := mkSubmitted { sf_frame : AVFrame; sf_pts : Z; sf_intra : bool }.
Record Packet := mkPacket { pk_data : bytes; pk_key : bool; pk_pts : Z }.
Inductive Device := DeviceVideoToolbox | DeviceVaapi | DeviceCuda | DeviceD3d11va.
#[export] Instance Device_eq_dec : EqDecision Device.
Proof. solve_decision. Defined.

Class Ffmpeg (Ctx : Type) := {
  raw_error : RsmpegError -> option Z;
  AVERROR_INVALIDDATA : Z;
  (** Encoders. *)
  find_encoder : string -> bool;
  create_device : Device -> option RsmpegError;
  make_pool : Backend -> Z * Z -> option RsmpegError;
  encoder_context : string -> Settings -> Ctx;
  opt_set : string -> string -> Ctx -> option RsmpegError * Ctx;
  open_context : Ctx -> option RsmpegError * Ctx;
  alloc_buffer : Z -> Z -> PixelFormat -> RsmpegError + AVFrame;
  scaler_exists : Z * Z -> Z * Z -> Input -> bool;
  scale_frame : AVFrame -> AVFrame -> RsmpegError + AVFrame;
  (** A surface of the encoder's pool, [None] without a pool; a picture copied into one. *)
  get_surface : Ctx -> option (RsmpegError + AVFrame) * Ctx;
  hwframe_upload : AVFrame -> AVFrame -> RsmpegError + AVFrame;
  send_frame : Submitted -> Ctx -> option RsmpegError * Ctx;
  receive_packet : Ctx -> (RsmpegError + Packet) * Ctx;
  (** Decoders. *)
  find_decoder : string -> bool;
  hw_configs : string -> list (Device * bool);
  decoder_context : string -> option Device -> Z -> option RsmpegError * Ctx;
  new_packet : nat -> bool;
  send_packet : bytes -> Z -> Ctx -> option RsmpegError * Ctx;
  receive_frame : Ctx -> (RsmpegError + AVFrame) * Ctx;
  in_gpu_memory : AVFrame -> bool;
  hwframe_transfer : AVFrame -> RsmpegError + AVFrame
}.

(* @src/crates/throcc-client-core/src/media/video/encode.rs 28-52 EncodeError *)
Inductive EncodeError :=
  | NoEncoder | EncodeFfmpeg (e : RsmpegError) | Scaler | NoSurfaces | NoGpuInput | Import | Gpu | PreviewFormat (format : Z).
(* @src/crates/throcc-client-core/src/media/video/encode.rs 174-180 EncodedUnit *)
Record EncodedUnit := mkEncodedUnit { eu_data : bytes; eu_keyframe : bool; eu_timestamp : Z }.

Section with_ffmpeg.
Context {Ctx : Type} {ffmpeg : Ffmpeg Ctx}.

(** ** The encoder *)

(* @src/crates/throcc-client-core/src/media/video/encode.rs 498-511 Fitter *)
Record Fitter := mkFitter { ft_source_size : Z * Z; ft_input : Input; ft_rectangle : Z * Z * Z * Z; ft_source : AVFrame; ft_scaled : AVFrame }.
(* @src/crates/throcc-client-core/src/media/video/encode.rs 182-200 Encoder *)
Record Encoder := mkEncoder {
  en_ctx : Ctx; en_codec : Codec; en_name : string; en_backend : Backend; en_width : Z; en_height : Z;
  en_idr_next : bool; en_fitter : option Fitter
}.

(* @src/crates/throcc-client-core/src/media/video/encode.rs 25-26 GOP_SECONDS *)
Definition GOP_SECONDS : Z := 4.
(* @src/crates/throcc-client-core/src/media/video/encode.rs 859-860 OPTION_NOT_FOUND *)
Definition OPTION_NOT_FOUND : Z := -0x54504FF8.
(* @src/crates/throcc-client-core/src/media/video/encode.rs 862-871 set_option *)
Definition set_option (key value : string) (ctx : Ctx) : option RsmpegError * Ctx :=
  match opt_set key value ctx with
  | (Some (OtherError code), ctx) => (if code =? OPTION_NOT_FOUND then None else Some (OtherError code), ctx)
  | set => set
  end.
(** The steps that may fail, until one does. *)
Definition each_option (options : list (string * string)) (ctx : Ctx) : option RsmpegError * Ctx :=
  foldl (fun '(failed, ctx) '(key, value) => match failed with Some e => (Some e, ctx) | None => set_option key value ctx end) (None, ctx) options.
(** [n.to_string()] of a number. *)
Definition text (n : Z) : string := pretty.pretty n.
(* @src/crates/throcc-client-core/src/media/video/encode.rs 795-857 open_candidate *)
Definition open_candidate (c : Candidate) (config : EncoderConfig) : RsmpegError + Ctx :=
  let size := (ec_width config, ec_height config) in
  let opened := match cd_backend c with
    | Vaapi => match create_device DeviceVaapi with Some e => Some e | None => make_pool Vaapi size end
    | VideoToolbox => match create_device DeviceVideoToolbox with Some e => Some e | None => make_pool VideoToolbox size end
    | _ => None
    end in
  match opened with
  | Some e => inl e
  | None =>
      let bitrate := ec_kbps config * 1000 in
      let ctx := encoder_context (cd_name c) (mkSettings (ec_width config) (ec_height config) VIDEO_CLOCK_HZ (ec_fps config)
        (match cd_backend c with Vaapi => FmtVaapi | VideoToolbox => FmtVideoToolbox | b => pixel_format (backend_input b) end)
        bitrate 0 (ec_fps config * GOP_SECONDS)
        (negb (bool_decide (cd_backend c = VideoToolbox)) || (ec_height config mod 16 =? 0))) in
      let maxrate := text bitrate in
      let common := [("maxrate", maxrate); ("bufsize", text (bitrate * 2 / Z.max (ec_fps config) 1)); ("color_range", "pc"); ("colorspace", "bt709")]%string in
      let minrate := if bool_decide (cd_backend c = Libvpx) then [("minrate"%string, maxrate)] else [] in
      match each_option (common ++ backend_options (cd_backend c) ++ minrate) ctx with
      | (Some e, _) => inl e
      | (None, ctx) => match open_context ctx with (Some e, _) => inl e | (None, ctx) => inr ctx end
      end
  end.
(* @src/crates/throcc-client-core/src/media/video/encode.rs 268-297 Encoder::open_with *)
Definition open_with (config : EncoderConfig) (c : Candidate) : option Encoder :=
  if negb (find_encoder (cd_name c)) then None else
  match open_candidate c config with
  | inr ctx => Some (mkEncoder ctx (cd_codec c) (cd_name c) (cd_backend c) (ec_width config) (ec_height config) true None)
  | inl _ => None
  end.
(** [iter.find_map(f)]. *)
Fixpoint find_map {A B} (f : A -> option B) (l : list A) : option B :=
  match l with [] => None | x :: l => match f x with Some y => Some y | None => find_map f l end end.
(* @src/crates/throcc-client-core/src/media/video/encode.rs 258-266 Encoder::open *)
Definition encoder_open (cuda : bool) (config : EncoderConfig) : EncodeError + Encoder :=
  match find_map (open_with config) (List.filter (has_driver cuda) LADDER) with Some e => inr e | None => inl NoEncoder end.

(* @src/crates/throcc-client-core/src/media/video/encode.rs 312-318 Encoder::recover *)
Definition encoder_recover (kind : Recovery) (e : Encoder) : Encoder :=
  if bool_decide (kind = Idr) || negb (bool_decide (en_backend e = Nvenc)) then
    mkEncoder (en_ctx e) (en_codec e) (en_name e) (en_backend e) (en_width e) (en_height e) true (en_fitter e)
  else e.
Definition with_ctx (ctx : Ctx) (e : Encoder) : Encoder :=
  mkEncoder ctx (en_codec e) (en_name e) (en_backend e) (en_width e) (en_height e) (en_idr_next e) (en_fitter e).
(* @src/crates/throcc-client-core/src/media/video/encode.rs 722-729 new_frame *)
Definition new_frame (width height : Z) (input : Input) : RsmpegError + AVFrame := alloc_buffer width height (pixel_format input).

(** The units with the packets the encoder has ready, and the error that ended it early. *)
(* @src/crates/throcc-client-core/src/media/video/encode.rs 459-479 Encoder::drain *)
Fixpoint encoder_drain (fuel : nat) (units : list EncodedUnit) (ctx : Ctx) : option EncodeError * list EncodedUnit * Ctx :=
  match fuel with
  | O => (None, units, ctx)
  | S fuel =>
      match receive_packet ctx with
      | (inr packet, ctx) => encoder_drain fuel (units ++ [mkEncodedUnit (pk_data packet) (pk_key packet) (wrap32 (pk_pts packet))]) ctx
      | (inl EncoderDrainError, ctx) | (inl EncoderFlushedError, ctx) => (None, units, ctx)
      | (inl e, ctx) => (Some (EncodeFfmpeg e), units, ctx)
      end
  end.
(* @src/crates/throcc-client-core/src/media/video/encode.rs 334-353 Encoder::submit *)
Definition submit (fuel : nat) (frame : AVFrame) (timestamp : Z) (e : Encoder) : (EncodeError + list EncodedUnit) * Encoder :=
  let sent := mkSubmitted frame timestamp (en_idr_next e) in
  let e := mkEncoder (en_ctx e) (en_codec e) (en_name e) (en_backend e) (en_width e) (en_height e) false (en_fitter e) in
  let finish units ctx := match encoder_drain fuel units ctx with
    | (Some failed, _, ctx) => (inl failed, with_ctx ctx e)
    | (None, units, ctx) => (inr units, with_ctx ctx e)
    end in
  match send_frame sent (en_ctx e) with
  | (None, ctx) => finish [] ctx
  | (Some SendFrameAgainError, ctx) =>
      match encoder_drain fuel [] ctx with
      | (Some failed, _, ctx) => (inl failed, with_ctx ctx e)
      | (None, units, ctx) =>
          match send_frame sent ctx with
          | (None, ctx) => finish units ctx
          | (Some failed, ctx) => (inl (EncodeFfmpeg failed), with_ctx ctx e)
          end
      end
  | (Some failed, ctx) => (inl (EncodeFfmpeg failed), with_ctx ctx e)
  end.

(* @src/crates/throcc-client-core/src/media/video/encode.rs 362-370 Encoder::surface *)
Definition surface (e : Encoder) : (EncodeError + AVFrame) * Encoder :=
  match get_surface (en_ctx e) with
  | (None, ctx) => (inl NoSurfaces, with_ctx ctx e)
  | (Some (inl failed), ctx) => (inl (EncodeFfmpeg failed), with_ctx ctx e)
  | (Some (inr s), ctx) => (inr s, with_ctx ctx e)
  end.
(* @src/crates/throcc-client-core/src/media/video/encode.rs 355-360 Encoder::upload *)
Definition upload (frame : AVFrame) (e : Encoder) : (EncodeError + AVFrame) * Encoder :=
  let '(s, e) := surface e in
  (match s with
   | inl failed => inl failed
   | inr s => match hwframe_upload frame s with inl failed => inl (EncodeFfmpeg failed) | inr s => inr s end
   end, e).

(* @src/crates/throcc-client-core/src/media/video/encode.rs 514-545 Fitter::new *)
Definition fitter_new (source_size target_size : Z * Z) (input : Input) : EncodeError + Fitter :=
  let rectangle := fitted_rectangle source_size target_size in
  let '(_, _, width, height) := rectangle in
  if negb (scaler_exists source_size (width, height) input) then inl Scaler else
  match new_frame source_size.1 source_size.2 Nv12 with
  | inl e => inl (EncodeFfmpeg e)
  | inr source =>
      let source := fill_black source Nv12 in
      match new_frame width height input with
      | inl e => inl (EncodeFfmpeg e)
      | inr scaled => inr (mkFitter source_size input rectangle source scaled)
      end
  end.
(** [None] where a picture's chroma is read out of bounds. *)
(* @src/crates/throcc-client-core/src/media/video/encode.rs 547-580 Fitter::fit *)
Definition fitter_fit (picture : VideoFrame) (frame : AVFrame) (ft : Fitter) : option ((EncodeError + AVFrame) * Fitter) :=
  source ← copy_into (ft_source ft) picture Nv12;
  Some match scale_frame source (ft_scaled ft) with
  | inl e => (inl (EncodeFfmpeg e), mkFitter (ft_source_size ft) (ft_input ft) (ft_rectangle ft) source (ft_scaled ft))
  | inr scaled => (inr (fit_frame (ft_input ft) (ft_rectangle ft) scaled frame), mkFitter (ft_source_size ft) (ft_input ft) (ft_rectangle ft) source scaled)
  end.
Definition with_fitter (ft : option Fitter) (e : Encoder) : Encoder :=
  mkEncoder (en_ctx e) (en_codec e) (en_name e) (en_backend e) (en_width e) (en_height e) (en_idr_next e) ft.
(* @src/crates/throcc-client-core/src/media/video/encode.rs 483-495 Encoder::fit *)
Definition encoder_fit (picture : VideoFrame) (frame : AVFrame) (e : Encoder) : option ((EncodeError + AVFrame) * Encoder) :=
  let source_size := (vf_width picture, vf_height picture) in
  let made := fitter_new source_size (en_width e, en_height e) (backend_input (en_backend e)) in
  let fitter := match en_fitter e with
    | Some ft => if decide (ft_source_size ft = source_size) then inr ft else made
    | None => made
    end in
  match fitter with
  | inl failed => Some (inl failed, e)
  | inr ft => '(fitted, ft) ← fitter_fit picture frame ft; Some (fitted, with_fitter (Some ft) e)
  end.
(* @src/crates/throcc-client-core/src/media/video/encode.rs 320-332 Encoder::encode *)
Definition encode (fuel : nat) (picture : VideoFrame) (e : Encoder) : option ((EncodeError + list EncodedUnit) * Encoder) :=
  let input := backend_input (en_backend e) in
  match new_frame (en_width e) (en_height e) input with
  | inl failed => Some (inl (EncodeFfmpeg failed), e)
  | inr frame =>
      '(filled, e) ← (if decide ((vf_width picture, vf_height picture) = (en_width e, en_height e))
        then frame ← copy_into frame picture input; Some (inr frame, e)
        else encoder_fit picture frame e);
      Some match filled with
      | inl failed => (inl failed, e)
      | inr frame =>
          if uploads (en_backend e) then
            match upload frame e with
            | (inl failed, e) => (inl failed, e)
            | (inr s, e) => submit fuel s (vf_timestamp picture) e
            end
          else submit fuel frame (vf_timestamp picture) e
      end
  end.

(** ** The decoder *)

(* @src/crates/throcc-client-core/src/media/video/decode.rs 12-22 DecodeError *)
Inductive DecodeError := NoDecoder (codec : Codec) | BadFormat | TooLarge (width height : Z) | DecodeFfmpeg (e : RsmpegError).
(* @src/crates/throcc-client-core/src/media/video/decode.rs 24-32 native_decoder *)
Definition native_decoder (codec : Codec) : string :=
  match codec with Av1 => "av1" | Hevc => "hevc" | H264 => "h264" | Vp9 => "vp9" end%string.
(* @src/crates/throcc-client-core/src/media/video/decode.rs 34-41 software_decoder *)
Definition software_decoder (codec : Codec) : string := match codec with Av1 => "libdav1d"%string | other => native_decoder other end.
(** The platform the client is built for. *)
Inductive Platform := MacOs | Linux | Windows | OtherPlatform.
(* @src/crates/throcc-client-core/src/media/video/decode.rs 43-54 devices *)
Definition devices (p : Platform) : list Device :=
  match p with
  | MacOs => [DeviceVideoToolbox] | Linux => [DeviceVaapi; DeviceCuda] | Windows => [DeviceD3d11va; DeviceCuda] | OtherPlatform => []
  end.
(* @src/crates/throcc-client-core/src/media/video/decode.rs 232-240 device_name *)
Definition device_name (d : Device) : string :=
  match d with DeviceVideoToolbox => "VideoToolbox" | DeviceVaapi => "VA-API" | DeviceCuda => "NVDEC" | DeviceD3d11va => "D3D11VA" end%string.

(* @src/crates/throcc-client-core/src/media/video/decode.rs 90-98 Decoder *)
Record Decoder := mkDecoder { de_ctx : Ctx; de_codec : Codec; de_hardware : bool; de_engine : string; de_max_size : MaxSize }.
(* @src/crates/throcc-client-core/src/media/video/decode.rs 116-138 Decoder::on_hardware *)
Definition on_hardware (p : Platform) (codec : Codec) (max_size : MaxSize) : option Decoder :=
  let name := native_decoder codec in
  if negb (find_decoder name) then None else
  find_map (fun device =>
    if negb (existsb (fun '(d, by_context) => bool_decide (d = device) && by_context) (hw_configs name)) then None else
    match create_device device with
    | Some _ => None
    | None =>
        match decoder_context name (Some device) (mx_pixels max_size) with
        | (None, ctx) => Some (mkDecoder ctx codec true (device_name device) max_size)
        | (Some _, _) => None
        end
    end) (devices p).
(* @src/crates/throcc-client-core/src/media/video/decode.rs 140-157 Decoder::in_software *)
Definition in_software (codec : Codec) (max_size : MaxSize) : DecodeError + Decoder :=
  let name := software_decoder codec in
  if negb (find_decoder name) then inl (NoDecoder codec) else
  match decoder_context name None (mx_pixels max_size) with
  | (Some e, _) => inl (DecodeFfmpeg e)
  | (None, ctx) =>
      inr (mkDecoder ctx codec false (if decide (name = "libdav1d") then "dav1d (software)" else "FFmpeg (software)")%string max_size)
  end.
(* @src/crates/throcc-client-core/src/media/video/decode.rs 101-114 Decoder::new *)
Definition decoder_new (p : Platform) (codec : Codec) (max_size : MaxSize) : DecodeError + Decoder :=
  match on_hardware p codec max_size with Some d => inr d | None => in_software codec max_size end.

(** The newest of the frames the decoder gives, all within the size. *)
(* @src/crates/throcc-client-core/src/media/video/decode.rs 206-217! Decoder::decode_unit *)
Fixpoint receive_frames (fuel : nat) (max_size : MaxSize) (newest : option AVFrame) (ctx : Ctx) : (DecodeError + option AVFrame) * Ctx :=
  match fuel with
  | O => (inr newest, ctx)
  | S fuel =>
      match receive_frame ctx with
      | (inr frame, ctx) => if negb (mx_fits max_size frame) then (inl (TooLarge (av_width frame) (av_height frame)), ctx)
                            else receive_frames fuel max_size (Some frame) ctx
      | (inl DecoderDrainError, ctx) | (inl DecoderFlushedError, ctx) => (inr newest, ctx)
      | (inl e, ctx) => (inl (DecodeFfmpeg e), ctx)
      end
  end.
(* @src/crates/throcc-client-core/src/media/video/decode.rs 191-229 Decoder::decode_unit *)
Definition decode_unit (fuel : nat) (unit : bytes) (timestamp : Z) (d : Decoder) : (DecodeError + option VideoFrame) * Decoder :=
  let now ctx := mkDecoder ctx (de_codec d) (de_hardware d) (de_engine d) (de_max_size d) in
  if negb (new_packet (length unit)) then (inr None, d) else
  match send_packet unit timestamp (de_ctx d) with
  | (Some e, ctx) => (inl (DecodeFfmpeg e), now ctx)
  | (None, ctx) =>
      let '(received, ctx) := receive_frames fuel (de_max_size d) None ctx in
      (match received with
       | inl e => inl e
       | inr None => inr None
       | inr (Some frame) =>
           match (if in_gpu_memory frame then hwframe_transfer frame else inr frame) with
           | inl e => inl (DecodeFfmpeg e)
           | inr frame => match to_nv12 frame timestamp with Some picture => inr (Some picture) | None => inl BadFormat end
           end
       end, now ctx)
  end.
(* @src/crates/throcc-client-core/src/media/video/decode.rs 170-189 Decoder::decode *)
Definition decode (fuel : nat) (unit : bytes) (timestamp : Z) (d : Decoder) : (DecodeError + option VideoFrame) * Decoder :=
  let '(result, d) := decode_unit fuel unit timestamp d in
  match result with
  | inl (DecodeFfmpeg e) =>
      if de_hardware d && negb (bool_decide (raw_error e = Some AVERROR_INVALIDDATA)) then
        match in_software (de_codec d) (de_max_size d) with
        | inl failed => (inl failed, d)
        | inr d => decode_unit fuel unit timestamp d
        end
      else (result, d)
  | _ => (result, d)
  end.
End with_ffmpeg.
