(* ===== verification/VideoFacts.v ===== *)
(** * Pictures in the planes of FFmpeg's frames

    Rows written one under the other into a plane and read back, for the picture copied into
    an encoder's frame, the one fitted into it, and the one taken from a decoder's frame. *)
From S2P Require Import Prelude Float64 Jitter Pictures Video.
Open Scope Z_scope.

(** ** Bytes of a plane *)

Lemma bytes_at_lookup from n l j : bytes_at from n l !! j = if (j <? Z.to_nat n)%nat then l !! (Z.to_nat from + j)%nat else None.
Proof.
  unfold bytes_at. destruct (Nat.ltb_spec j (Z.to_nat n)); [by rewrite lookup_take_lt, lookup_drop|]. by rewrite lookup_take_ge.
Qed.
Lemma length_bytes_at from n l : 0 <= from -> from + n <= Z.of_nat (length l) -> length (bytes_at from n l) = Z.to_nat n.
Proof. intros. unfold bytes_at. rewrite length_take, length_drop. lia. Qed.
Lemma put_lookup at_ bs l j : (Z.to_nat at_ + length bs <= length l)%nat ->
  put at_ bs l !! j = if (j <? Z.to_nat at_)%nat then l !! j else if (j <? Z.to_nat at_ + length bs)%nat then bs !! (j - Z.to_nat at_)%nat else l !! j.
Proof.
  intros Hl. unfold put. destruct (Nat.ltb_spec j (Z.to_nat at_)) as [Hj|Hj].
  - rewrite lookup_app_l by (rewrite length_take; lia). by rewrite lookup_take_lt.
  - rewrite lookup_app_r by (rewrite length_take; lia). rewrite length_take, Nat.min_l by lia.
    destruct (Nat.ltb_spec j (Z.to_nat at_ + length bs)); [by rewrite lookup_app_l by lia|].
    rewrite lookup_app_r, lookup_drop by lia. f_equal. lia.
Qed.
Lemma length_put at_ bs l : (Z.to_nat at_ + length bs <= length l)%nat -> length (put at_ bs l) = length l.
Proof. intros. unfold put. rewrite !length_app, length_take, length_drop. lia. Qed.
Lemma bytes_at_put at_ n bs l : Z.of_nat (length bs) = n -> (Z.to_nat at_ + length bs <= length l)%nat -> bytes_at at_ n (put at_ bs l) = bs.
Proof.
  intros Hn Hl. apply list_eq. intros j. rewrite bytes_at_lookup. destruct (Nat.ltb_spec j (Z.to_nat n)) as [Hj|Hj].
  - rewrite put_lookup by done. rewrite (proj2 (Nat.ltb_ge _ _)), (proj2 (Nat.ltb_lt _ _)) by lia. f_equal. lia.
  - symmetry. apply lookup_ge_None_2. lia.
Qed.
Lemma bytes_at_put_ne from n at_ bs l : (Z.to_nat at_ + length bs <= length l)%nat ->
  (Z.to_nat from + Z.to_nat n <= Z.to_nat at_ \/ Z.to_nat at_ + length bs <= Z.to_nat from)%nat -> bytes_at from n (put at_ bs l) = bytes_at from n l.
Proof.
  intros Hl Hd. apply list_eq. intros j. rewrite !bytes_at_lookup. destruct (Nat.ltb_spec j (Z.to_nat n)); [|done]. rewrite put_lookup by done.
  destruct (Nat.ltb_spec (Z.to_nat from + j) (Z.to_nat at_)); [done|]. by rewrite (proj2 (Nat.ltb_ge _ _)) by lia.
Qed.
(** Bytes put one after the other. *)
Lemma put_put at_ at' bs bs' l : 0 <= at_ -> at' = at_ + Z.of_nat (length bs) -> (Z.to_nat at_ + length bs + length bs' <= length l)%nat ->
  put at' bs' (put at_ bs l) = put at_ (bs ++ bs') l.
Proof.
  intros H0 -> Hl. unfold put. replace (Z.to_nat (at_ + Z.of_nat (length bs))) with (Z.to_nat at_ + length bs)%nat by lia.
  assert (Hk : length (take (Z.to_nat at_) l) = Z.to_nat at_) by (rewrite length_take; lia).
  replace (take (Z.to_nat at_ + length bs) _) with (take (Z.to_nat at_) l ++ bs).
  - rewrite (app_assoc (take _ l)), drop_app_ge by (rewrite length_app; lia). rewrite length_app, Hk, drop_drop, <- !app_assoc, length_app. do 4 f_equal. lia.
  - symmetry. rewrite app_assoc. apply take_app_length'. rewrite length_app. lia.
Qed.

(** ** Rows of a plane *)

Lemma upto_S n : 0 <= n -> upto (n + 1) = upto n ++ [n].
Proof. intros. unfold upto. replace (Z.to_nat (n + 1)) with (S (Z.to_nat n)) by lia. rewrite seq_S, fmap_app. cbn. do 2 f_equal. lia. Qed.
Lemma elem_of_upto n x : x ∈ upto n <-> 0 <= x < n.
Proof.
  unfold upto. rewrite list_elem_of_fmap. split; [intros (k & -> & Hk%elem_of_seq); lia|]. intros. exists (Z.to_nat x). rewrite elem_of_seq. lia.
Qed.
(** Rows of [width] bytes put [stride] apart: each is what was put, and the plane keeps its length. *)
Lemma rows_put (g : Z -> bytes) stride width rows l : 0 <= width <= stride -> 0 <= rows -> rows * stride <= Z.of_nat (length l) ->
  (forall row, 0 <= row < rows -> Z.of_nat (length (g row)) = width) ->
  let l' := foldl (fun l row => put (row * stride) (g row) l) l (upto rows) in
  length l' = length l /\ forall row, 0 <= row < rows -> bytes_at (row * stride) width l' = g row.
Proof.
  intros Hw Hr. revert rows Hr. refine (natlike_ind _ _ _); [intros; split; [done|lia]|]. intros n Hn IH Hl Hg. unfold Z.succ. rewrite upto_S, foldl_snoc by done.
  destruct IH as [IH1 IH2]; [lia|intros; apply Hg; lia|]. pose proof (Hg n ltac:(lia)) as Hgn. set (l' := foldl _ l (upto n)) in *.
  assert (Hin : (Z.to_nat (n * stride) + length (g n) <= length l')%nat) by nia.
  split; [by rewrite length_put|]. intros row Hrow. destruct (decide (row = n)) as [->|]; [by apply bytes_at_put|].
  rewrite bytes_at_put_ne by (done || (left; nia)). apply IH2. lia.
Qed.
(** The rows of a picture, one after the other, are the picture. *)
Lemma rows_joined width rows l : 0 <= width -> 0 <= rows -> Z.of_nat (length l) = rows * width ->
  mjoin ((fun row => bytes_at (row * width) width l) <$> upto rows) = l.
Proof.
  intros Hw Hr Hl. cut (forall n, 0 <= n -> n <= rows -> mjoin ((fun row => bytes_at (row * width) width l) <$> upto n) = take (Z.to_nat (n * width)) l).
  { intros H. rewrite H by lia. apply take_ge. lia. }
  refine (natlike_ind _ _ _); [done|]. intros n Hn IH Hle. unfold Z.succ. rewrite upto_S, fmap_app, join_app, IH by lia. cbn. rewrite app_nil_r. unfold bytes_at.
  replace (Z.to_nat ((n + 1) * width)) with (Z.to_nat (n * width) + Z.to_nat width)%nat by nia. by rewrite take_take_drop.
Qed.

(** A plane with room for [rows] rows of [row_bytes]. *)
Definition has_room (p : Plane) (row_bytes rows : Z) : Prop :=
  row_bytes <= pl_linesize p /\ rows * pl_linesize p <= Z.of_nat (length (pl_data p)).
(** A frame as [alloc_buffer] makes one. *)
Definition allocated (f : AVFrame) (width height : Z) (input : Input) : Prop :=
  av_width f = width /\ av_height f = height /\ av_format f = pixel_format input /\
  match input with
  | Nv12 => exists p q, av_planes f = [p; q] /\ has_room p width height /\ has_room q (div_ceil width 2 * 2) (div_ceil height 2)
  | Yuv420p => exists p q r, av_planes f = [p; q; r] /\ has_room p width height /\
      has_room q (div_ceil width 2) (div_ceil height 2) /\ has_room r (div_ceil width 2) (div_ceil height 2)
  end.

(** ** Black bars *)

Lemma fit_row_put area scaled stride row l : 0 <= pa_x area -> 0 <= pa_width area -> pa_x area + pa_width area <= pa_row_bytes area <= stride ->
  0 <= pa_y area -> has_room scaled (pa_width area) (pa_height area) -> 0 <= row -> (row + 1) * stride <= Z.of_nat (length l) ->
  fit_row area scaled stride row l = put (row * stride)
    (if negb ((pa_y area <=? row) && (row <? pa_y area + pa_height area)) then replicate (Z.to_nat (pa_row_bytes area)) (pa_black area)
     else replicate (Z.to_nat (pa_x area)) (pa_black area) ++ bytes_at ((row - pa_y area) * pl_linesize scaled) (pa_width area) (pl_data scaled) ++
       replicate (Z.to_nat (pa_row_bytes area - (pa_x area + pa_width area))) (pa_black area)) l.
Proof.
  intros Hx Hw Hb Hy [Hs1 Hs2] Hrow Hl. unfold fit_row. destruct (negb _) eqn:E; [done|].
  apply negb_false_iff, andb_true_iff in E as [E1%Z.leb_le E2%Z.ltb_lt].
  assert (length (bytes_at ((row - pa_y area) * pl_linesize scaled) (pa_width area) (pl_data scaled)) = Z.to_nat (pa_width area)) as Hlen by (apply length_bytes_at; nia).
  rewrite (put_put (row * stride) (row * stride + pa_x area)) by (rewrite ?length_replicate; nia).
  rewrite (put_put (row * stride)) by (rewrite ?length_app, ?length_replicate, ?Hlen; nia). by rewrite <- app_assoc.
Qed.
Lemma div_ceil_2 n : 0 <= n -> n <= 2 * div_ceil n 2 <= n + 1.
Proof. intros. unfold div_ceil. pose proof (Z.mod_pos_bound (n + 2 - 1) 2 ltac:(lia)). pose proof (Z.div_mod (n + 2 - 1) 2 ltac:(lia)). lia. Qed.

(** The row of a fitted plane: the scaled picture between black, or only black. *)
Definition barred_row (area : PlaneArea) (scaled : bytes) (row : Z) : bytes :=
  if negb ((pa_y area <=? row) && (row <? pa_y area + pa_height area)) then replicate (Z.to_nat (pa_row_bytes area)) (pa_black area)
  else replicate (Z.to_nat (pa_x area)) (pa_black area) ++ scaled ++ replicate (Z.to_nat (pa_row_bytes area - (pa_x area + pa_width area))) (pa_black area).
Definition area_wf (area : PlaneArea) : Prop :=
  0 <= pa_x area /\ 0 <= pa_width area /\ pa_x area + pa_width area <= pa_row_bytes area /\ 0 <= pa_y area /\ 0 <= pa_rows area.
Definition fit_plane (area : PlaneArea) (from to_ : Plane) : bytes :=
  foldl (fun l row => fit_row area from (pl_linesize to_) row l) (pl_data to_) (upto (pa_rows area)).

Lemma foldl_put (step : bytes -> Z -> bytes) g stride rows l : 0 <= rows -> 0 <= stride ->
  (forall l' row, 0 <= row < rows -> length l' = length l -> step l' row = put (row * stride) (g row) l') ->
  (forall row, 0 <= row < rows -> (Z.to_nat (row * stride) + length (g row) <= length l)%nat) ->
  foldl step l (upto rows) = foldl (fun l row => put (row * stride) (g row) l) l (upto rows).
Proof.
  intros Hr Hs Hstep Hg. cut (forall n, 0 <= n -> n <= rows -> foldl step l (upto n) = foldl (fun l row => put (row * stride) (g row) l) l (upto n) /\ length (foldl step l (upto n)) = length l).
  { intros H. by apply H. }
  refine (natlike_ind _ _ _); [done|]. intros n Hn IH Hle. destruct IH as [IH1 IH2]; [lia|]. unfold Z.succ. rewrite upto_S, !foldl_snoc by done.
  rewrite Hstep by (lia || done). rewrite IH1 in *. split; [done|]. rewrite length_put; [done|]. rewrite IH2. apply Hg. lia.
Qed.
Lemma fit_plane_rows area from to_ : area_wf area -> has_room from (pa_width area) (pa_height area) -> has_room to_ (pa_row_bytes area) (pa_rows area) ->
  forall row, 0 <= row < pa_rows area -> bytes_at (row * pl_linesize to_) (pa_row_bytes area) (fit_plane area from to_) =
    barred_row area (bytes_at ((row - pa_y area) * pl_linesize from) (pa_width area) (pl_data from)) row.
Proof.
  intros (Hx & Hw & Hb & Hy & Hr) Hfrom [Ht1 Ht2] row Hrow. unfold fit_plane.
  set (g row := barred_row area (bytes_at ((row - pa_y area) * pl_linesize from) (pa_width area) (pl_data from)) row).
  assert (Hg : forall r, Z.of_nat (length (g r)) = pa_row_bytes area).
  { intros r. unfold g, barred_row. destruct (negb _) eqn:E; [rewrite length_replicate; lia|]. apply negb_false_iff, andb_true_iff in E as [E1%Z.leb_le E2%Z.ltb_lt].
    destruct Hfrom as [Hf1 Hf2]. rewrite !length_app, !length_replicate, length_bytes_at by nia. lia. }
  rewrite (foldl_put _ g (pl_linesize to_)).
  - destruct (rows_put g (pl_linesize to_) (pa_row_bytes area) (pa_rows area) (pl_data to_)) as [_ H]; [lia|lia|done|intros; apply Hg|]. by apply H.
  - lia.
  - lia.
  - intros l' r Hr' Hl'. apply fit_row_put; (done || lia || (rewrite Hl'; nia)).
  - intros r Hr'. pose proof (Hg r). nia.
Qed.

Lemma half_of_even z : Z.even z = true -> z = 2 * (z / 2).
Proof. intros (k & ->)%Z.even_spec. rewrite (Z.mul_comm 2 k), Z.div_mul by done. lia. Qed.
Lemma div_ceil_even z : Z.even z = true -> div_ceil z 2 = z / 2.
Proof. intros H%half_of_even. unfold div_ceil. rewrite H at 1. replace (2 * (z / 2) + 2 - 1) with (1 + (z / 2) * 2) by lia. rewrite Z.div_add by done. done. Qed.
Lemma centred size inner : inner <= size -> let at_ := floor2 ((size - inner) / 2) in Z.even at_ = true /\ 0 <= at_ /\ 0 <= size - inner - 2 * at_ <= 3.
Proof.
  intros H. cbn zeta. destruct (floor2_bounds ((size - inner) / 2)) as [H1 ->]. pose proof (floor2_mono 0 ((size - inner) / 2) ltac:(apply Z.div_pos; lia)).
  change (floor2 0) with 0 in *. pose proof (Z.mod_pos_bound (size - inner) 2 ltac:(lia)). pose proof (Z.div_mod (size - inner) 2 ltac:(lia)). split; [done|]. lia.
Qed.

(** A picture fitted into the encoder's frame stays within it, centred (the bars of the
    two sides differ by at most 3), and in every plane each row is the scaled picture's own
    row between black bars, or black where the picture does not reach. *)
Theorem a_fitted_picture_has_black_bars (input : Input) (source : Z * Z) (width height : Z) (scaled frame : AVFrame) :
  1 <= fst source -> 1 <= snd source -> 2 <= width -> 2 <= height ->
  let '(x, y, w, h) := fitted_rectangle source (width, height) in
  allocated frame width height input -> allocated scaled w h input ->
  0 <= x /\ 0 <= y /\ 0 <= width - w - 2 * x <= 3 /\ 0 <= height - h - 2 * y <= 3 /\
  forall area row, area ∈ plane_areas width height input (x, y, w, h) -> 0 <= row < pa_rows area ->
    plane_row (fit_frame input (x, y, w, h) scaled frame) (pa_plane area) row (pa_row_bytes area) =
      barred_row area (plane_row scaled (pa_plane area) (row - pa_y area) (pa_width area)) row.
Proof.
  intros Hsw Hsh Hw Hh. destruct source as [sw sh]. cbn [fst snd] in *. unfold fitted_rectangle. cbn [fst snd].
  pose proof (Pictures.fitted sw sh width height Hsw Hsh Hw Hh) as Hf. destruct (fit_within (sw, sh) (width, height)) as [w h].
  destruct Hf as (Ew & Eh & [Hw1 Hw2] & [Hh1 Hh2] & _). intros (F1 & F2 & _ & Fp) (_ & _ & _ & Sp).
  destruct (centred width w Hw2) as (Ex & Hx1 & Hx2), (centred height h Hh2) as (Ey & Hy1 & Hy2).
  set (x := floor2 ((width - w) / 2)) in *. set (y := floor2 ((height - h) / 2)) in *. clearbody x y.
  pose proof (half_of_even _ Ex) as Ex2. pose proof (half_of_even _ Ey) as Ey2. pose proof (half_of_even _ Ew) as Ew2. pose proof (half_of_even _ Eh) as Eh2.
  pose proof (div_ceil_2 width ltac:(lia)). pose proof (div_ceil_2 height ltac:(lia)). split_and!; [lia..|]. intros area row Harea Hrow.
  unfold fit_frame. rewrite F1, F2. unfold plane_areas in *. rewrite !div_ceil_even in Sp by done.
  destruct frame as [fw fh ff fps], scaled as [sw' sh' sf sps]. cbn [av_planes] in Fp, Sp.
  assert (0 <= h / 2 /\ 0 <= w / 2) by lia. destruct input.
  - destruct Fp as (p & q & -> & Hp & Hq), Sp as (sp & sq & -> & Hsp & Hsq). replace (w / 2 * 2) with w in Hsq by lia.
    apply elem_of_cons in Harea as [->|Harea%list_elem_of_singleton]; [|subst area].
    + pose proof (fun a b c => fit_plane_rows _ sp p a b c row Hrow) as X. apply X; unfold area_wf; cbn; (done || lia).
    + pose proof (fun a b c => fit_plane_rows _ sq q a b c row Hrow) as X. apply X; unfold area_wf; cbn; (done || lia).
  - destruct Fp as (p & q & r & -> & Hp & Hq & Hr), Sp as (sp & sq & sr & -> & Hsp & Hsq & Hsr).
    apply elem_of_cons in Harea as [->|[->|Harea%list_elem_of_singleton]%elem_of_cons]; [| |subst area].
    + pose proof (fun a b c => fit_plane_rows _ sp p a b c row Hrow) as X. apply X; unfold area_wf; cbn; (done || lia).
    + pose proof (fun a b c => fit_plane_rows _ sq q a b c row Hrow) as X. apply X; unfold area_wf; cbn; (done || lia).
    + pose proof (fun a b c => fit_plane_rows _ sr r a b c row Hrow) as X. apply X; unfold area_wf; cbn; (done || lia).
Qed.
Definition flat_frame (width height : Z) (input : Input) (v : Z) : AVFrame :=
  let plane width height := mkPlane (width + 3) (replicate (Z.to_nat ((width + 3) * height)) v) in
  let half n := div_ceil n 2 in
  mkAVFrame width height (pixel_format input) match input with
    | Nv12 => [plane width height; plane (half width * 2) (half height)]
    | Yuv420p => [plane width height; plane (half width) (half height); plane (half width) (half height)]
    end.
Lemma flat_frame_allocated width height input v : 0 <= width -> 0 <= height -> allocated (flat_frame width height input v) width height input.
Proof.
  intros Hw Hh. pose proof (div_ceil_2 width Hw). pose proof (div_ceil_2 height Hh).
  split_and!; [done..|]. destruct input; cbn; repeat eexists; unfold has_room; cbn; rewrite ?length_replicate; nia.
Qed.
Lemma a_fitted_picture_has_black_bars_witness : fitted_rectangle (2, 2) (8, 4) = (2, 0, 4, 4) /\
  plane_row (fit_frame Yuv420p (2, 0, 4, 4) (flat_frame 4 4 Yuv420p 7) (flat_frame 8 4 Yuv420p 9)) 1 1 4 = [128; 7; 7; 128].
Proof.
  pose proof (a_fitted_picture_has_black_bars Yuv420p (2, 2) 8 4 (flat_frame 4 4 Yuv420p 7) (flat_frame 8 4 Yuv420p 9) ltac:(done) ltac:(done) ltac:(done) ltac:(done)) as H.
  change (fitted_rectangle (2, 2) (8, 4)) with (2, 0, 4, 4) in *. split; [done|].
  destruct (H (flat_frame_allocated 8 4 Yuv420p 9 ltac:(done) ltac:(done)) (flat_frame_allocated 4 4 Yuv420p 7 ltac:(done) ltac:(done))) as (_ & _ & _ & _ & Hrows).
  etrans; [exact (Hrows (mkArea 1 128 4 2 1 0 2 2) 1 (list_elem_of_lookup_2 (plane_areas 8 4 Yuv420p (2, 0, 4, 4)) 1 (mkArea 1 128 4 2 1 0 2 2) eq_refl) ltac:(done))|by vm_compute].
Defined.

(** ** Into the encoder's planes and out of the decoder's *)

Lemma copy_plane_rows width rows from to_ : 0 <= width -> 0 <= rows -> rows * width <= Z.of_nat (length from) -> has_room to_ width rows ->
  forall row, 0 <= row < rows -> bytes_at (row * pl_linesize to_) width (copy_plane width rows from to_) = bytes_at (row * width) width from.
Proof.
  intros Hw Hr Hf [Ht1 Ht2]. apply (rows_put (fun row => bytes_at (row * width) width from) (pl_linesize to_) width rows (pl_data to_)); [lia|done|done|].
  intros row Hrow. rewrite length_bytes_at by nia. lia.
Qed.
(** Rows read from a plane are the picture they are the rows of. *)
Lemma rows_read width rows from (l : Z -> bytes) : 0 <= width -> 0 <= rows -> Z.of_nat (length from) = rows * width ->
  (forall row, 0 <= row < rows -> l row = bytes_at (row * width) width from) -> mjoin (l <$> upto rows) = from.
Proof.
  intros Hw Hr Hf Hl. etrans; [|by apply (rows_joined width rows)]. f_equal. apply list_fmap_ext. intros i row Hrow%list_elem_of_lookup_2%elem_of_upto. by apply Hl.
Qed.
(** The samples of one channel in a row of interleaved chroma. *)
Definition channel_row (width offset row : Z) (from : bytes) : bytes :=
  (fun col => default 0 (from !! Z.to_nat (row * width + col * 2 + offset))) <$> upto (width / 2).
Definition split_step (width offset row stride : Z) (from : bytes) (l : option bytes) (col : Z) : option bytes :=
  l ← l; let at_ := row * width + col * 2 in v ← from !! Z.to_nat (at_ + offset); Some (put (row * stride + col) [v] l).
Lemma split_row width offset row from l stride : 0 <= width -> Z.even width = true -> 0 <= offset <= 1 -> 0 <= row -> 0 <= stride ->
  (row + 1) * width <= Z.of_nat (length from) -> row * stride + width / 2 <= Z.of_nat (length l) ->
  foldl (split_step width offset row stride from) (Some l) (upto (div_ceil width 2)) = Some (put (row * stride) (channel_row width offset row from) l).
Proof.
  intros Hw He Ho Hr Hs Hf Hl. pose proof (half_of_even _ He) as Hh. rewrite div_ceil_even by done. unfold channel_row.
  set (g col := default 0 (from !! Z.to_nat (row * width + col * 2 + offset))).
  cut (forall n, 0 <= n -> n <= width / 2 -> foldl (split_step width offset row stride from) (Some l) (upto n) = Some (put (row * stride) (g <$> upto n) l)).
  { intros H. apply H; lia. }
  refine (natlike_ind _ _ _); [intros _; change (upto 0) with (@nil Z); unfold put; cbn [fmap list_fmap app foldl length]; by rewrite Nat.add_0_r, take_drop|].
  intros n Hn IH Hle. unfold Z.succ. rewrite upto_S, foldl_snoc, fmap_app, IH by lia. unfold split_step. cbn [mbind option_bind fmap list_fmap].
  destruct (lookup_lt_is_Some_2 from (Z.to_nat (row * width + n * 2 + offset))) as [v Hv]; [nia|]. rewrite Hv. cbn [mbind option_bind]. assert (g n = v) as -> by (unfold g; by rewrite Hv). f_equal.
  rewrite (put_put (row * stride)); [done|nia|..]; rewrite length_fmap; unfold upto; rewrite length_fmap, length_seq; cbn; nia.
Qed.
Lemma split_plane_rows width rows offset from to_ : 0 <= width -> Z.even width = true -> 0 <= rows -> 0 <= offset <= 1 ->
  rows * width <= Z.of_nat (length from) -> has_room to_ (width / 2) rows ->
  exists l, split_plane width rows offset from to_ = Some l /\
    forall row, 0 <= row < rows -> bytes_at (row * pl_linesize to_) (width / 2) l = channel_row width offset row from.
Proof.
  intros Hw He Hr Ho Hf [Ht1 Ht2]. pose proof (half_of_even _ He).
  assert (Hg : forall row, Z.of_nat (length (channel_row width offset row from)) = width / 2).
  { intros row. unfold channel_row, upto. rewrite !length_fmap, length_seq. lia. }
  exists (foldl (fun l row => put (row * pl_linesize to_) (channel_row width offset row from) l) (pl_data to_) (upto rows)). split.
  - change (split_plane width rows offset from to_) with
      (foldl (fun l row => foldl (split_step width offset row (pl_linesize to_) from) l (upto (div_ceil width 2))) (Some (pl_data to_)) (upto rows)).
    cut (forall n, 0 <= n -> n <= rows ->
      foldl (fun l row => foldl (split_step width offset row (pl_linesize to_) from) l (upto (div_ceil width 2))) (Some (pl_data to_)) (upto n) =
      Some (foldl (fun l row => put (row * pl_linesize to_) (channel_row width offset row from) l) (pl_data to_) (upto n))); [intros H'; by apply H'|].
    refine (natlike_ind _ _ _); [done|]. intros n Hn IH Hle. unfold Z.succ. rewrite upto_S, !foldl_snoc, IH by lia.
    destruct (rows_put (fun row => channel_row width offset row from) (pl_linesize to_) (width / 2) n (pl_data to_)) as [Hlen _]; [lia|lia|nia|intros; apply Hg|].
    apply split_row; try (done || lia); [nia|]. rewrite Hlen. nia.
  - apply (rows_put (fun row => channel_row width offset row from) (pl_linesize to_) (width / 2) rows (pl_data to_)); [lia|done|done|intros; apply Hg].
Qed.
Lemma upto_double n : 0 <= n -> upto (2 * n) = mjoin ((fun k => [2 * k; 2 * k + 1]) <$> upto n).
Proof.
  revert n. refine (natlike_ind _ _ _); [done|]. intros n Hn IH. replace (2 * Z.succ n) with (2 * n + 1 + 1) by lia. unfold Z.succ.
  rewrite !upto_S, IH, fmap_app, join_app by lia. cbn. by rewrite <- app_assoc.
Qed.
Lemma weave {A} (f g h : Z -> A) (l : list Z) : (forall k, f k = h (2 * k)) -> (forall k, g k = h (2 * k + 1)) ->
  mjoin (zip_with (fun u v => [u; v]) (f <$> l) (g <$> l)) = h <$> mjoin ((fun k => [2 * k; 2 * k + 1]) <$> l).
Proof. intros Hf Hg. induction l as [|k l IH]; [done|]. cbn. rewrite Hf, Hg. do 2 f_equal. exact IH. Qed.
(** The two channels of a row, woven together again. *)
Lemma weave_row width row from : 0 <= width -> Z.even width = true -> 0 <= row -> (row + 1) * width <= Z.of_nat (length from) ->
  mjoin (zip_with (fun u v => [u; v]) (channel_row width 0 row from) (channel_row width 1 row from)) = bytes_at (row * width) width from.
Proof.
  intros Hw He Hr Hf. pose proof (half_of_even _ He) as Hh. unfold channel_row.
  transitivity ((fun j => default 0 (from !! Z.to_nat (row * width + j))) <$> upto width).
  - replace (upto width) with (upto (2 * (width / 2))) by (f_equal; lia). rewrite upto_double by lia. generalize (upto (width / 2)). clear. intros l.
    apply weave; intros k; do 2 f_equal; f_equal; lia.
  - apply list_eq. intros j. rewrite bytes_at_lookup, list_lookup_fmap. unfold upto. rewrite list_lookup_fmap. destruct (Nat.ltb_spec j (Z.to_nat width)).
    + rewrite lookup_seq_lt by done. cbn. destruct (lookup_lt_is_Some_2 from (Z.to_nat (row * width) + j)) as [v Hv]; [nia|].
      replace (Z.to_nat (row * width + Z.of_nat j)) with (Z.to_nat (row * width) + j)%nat by nia. by rewrite Hv.
    + by rewrite lookup_seq_ge.
Qed.

(** C29: a picture of even sides copied into the planes of an encoder's frame, and read back
    from such a frame as the decoder's are, is the same picture, for NV12 frames and for
    planar ones, whatever the strides of the planes.  No sample is read out of bounds. *)
Theorem pictures_survive_the_planes (input : Input) (picture : VideoFrame) (frame : AVFrame) :
  0 <= vf_width picture -> Z.even (vf_width picture) = true -> 0 <= vf_height picture -> Z.even (vf_height picture) = true ->
  Z.of_nat (length (vf_y picture)) = vf_height picture * vf_width picture ->
  Z.of_nat (length (vf_uv picture)) = vf_height picture / 2 * vf_width picture ->
  allocated frame (vf_width picture) (vf_height picture) input ->
  exists filled, copy_into frame picture input = Some filled /\ to_nv12 filled (vf_timestamp picture) = Some picture.
Proof.
  destruct picture as [w h ys uvs ts]. cbn. intros Hw Ew Hh Eh Hy Huv (F1 & F2 & F3 & Fp). pose proof (half_of_even _ Ew) as Hw2. pose proof (half_of_even _ Eh) as Hh2.
  destruct frame as [fw fh ff fps]. cbn in F1, F2, F3, Fp. subst fw fh ff. rewrite !div_ceil_even in Fp by done. unfold copy_into. cbn [vf_width vf_height vf_y vf_uv]. rewrite div_ceil_even by done.
  assert (Hfw : floor2 w = w) by (unfold floor2; lia). assert (Hfh : floor2 h = h) by (unfold floor2; lia).
  assert (Hrows : forall p, has_room p w h -> mjoin ((fun row => bytes_at (row * pl_linesize p) w (copy_plane w h ys p)) <$> upto h) = ys).
  { intros p Hp. apply (rows_read w); [lia..|]. apply copy_plane_rows; (done || lia). }
  destruct input.
  - destruct Fp as (p & q & -> & Hp & Hq). replace (w / 2 * 2) with w in Hq by lia. eexists. split; [done|]. unfold to_nv12. cbn [av_width av_height av_format on_plane].
    rewrite Hfw, Hfh. cbn. do 2 f_equal; [by apply Hrows|]. apply (rows_read w); [lia..|]. apply copy_plane_rows; (done || lia).
  - destruct Fp as (p & q & r & -> & Hp & Hq & Hr). cbn [on_plane alter list_alter av_planes av_width av_height av_format lookup list_lookup mbind option_bind].
    destruct (split_plane_rows w (h / 2) 0 uvs q) as (us & Eu & Hu); [lia|done|lia|lia|lia|done|].
    destruct (split_plane_rows w (h / 2) 1 uvs r) as (vs & Ev & Hv); [lia|done|lia|lia|lia|done|].
    rewrite Eu. cbn. rewrite Ev. eexists. split; [done|]. unfold to_nv12. cbn [av_width av_height av_format on_plane].
    rewrite Hfw, Hfh. cbn. do 2 f_equal; [by apply Hrows|]. apply (rows_read w); [lia..|]. intros row Hrow. cbn. rewrite Hu, Hv by done. apply weave_row; (done || nia).
Qed.
Lemma pictures_survive_the_planes_witness : exists filled,
  copy_into (flat_frame 4 2 Yuv420p 9) (mkFrame 4 2 [1; 2; 3; 4; 5; 6; 7; 8] [11; 12; 13; 14] 90) Yuv420p = Some filled /\
  to_nv12 filled 90 = Some (mkFrame 4 2 [1; 2; 3; 4; 5; 6; 7; 8] [11; 12; 13; 14] 90).
Proof.
  exact (pictures_survive_the_planes Yuv420p (mkFrame 4 2 [1; 2; 3; 4; 5; 6; 7; 8] [11; 12; 13; 14] 90) (flat_frame 4 2 Yuv420p 9)
    ltac:(done) eq_refl ltac:(done) eq_refl eq_refl eq_refl (flat_frame_allocated 4 2 Yuv420p 9 ltac:(done) ltac:(done))).
Defined.
