(* ===== verification/CodecsFacts.v ===== *)
(** * What a decoder hands on, and that the codecs' loops end *)
From S2P Require Import Prelude Messages Float64 Jitter Pictures Video VideoFacts Codecs.
Open Scope Z_scope.

Section with_ffmpeg.
Context {Ctx : Type} {ffmpeg : Ffmpeg Ctx}.

(** ** The loops that empty a codec

    FFmpeg holds finitely many outputs: one taken is one fewer. *)
Section pending.
Context (pending : Ctx -> nat).
Hypothesis a_packet_less : forall ctx packet ctx', receive_packet ctx = (inr packet, ctx') -> (pending ctx' < pending ctx)%nat.
Hypothesis a_frame_less : forall ctx frame ctx', receive_frame ctx = (inr frame, ctx') -> (pending ctx' < pending ctx)%nat.

Lemma enough_packets fuel fuel' units ctx : (pending ctx < fuel)%nat -> (pending ctx < fuel')%nat -> encoder_drain fuel units ctx = encoder_drain fuel' units ctx.
Proof.
  revert fuel' units ctx. induction fuel as [|fuel IH]; intros [|fuel'] units ctx H H'; try lia. cbn. destruct (receive_packet ctx) as [[e|packet] ctx'] eqn:E; [done|].
  pose proof (a_packet_less _ _ _ E). apply IH; lia.
Qed.
Lemma enough_frames fuel fuel' m newest ctx : (pending ctx < fuel)%nat -> (pending ctx < fuel')%nat -> receive_frames fuel m newest ctx = receive_frames fuel' m newest ctx.
Proof.
  revert fuel' newest ctx. induction fuel as [|fuel IH]; intros [|fuel'] newest ctx H H'; try lia. cbn. destruct (receive_frame ctx) as [[e|frame] ctx'] eqn:E; [done|].
  destruct (negb _); [done|]. pose proof (a_frame_less _ _ _ E). apply IH; lia.
Qed.
(** The encoder is left with an answer other than a packet: all of them were taken. *)
Lemma drained fuel units ctx : (pending ctx < fuel)%nat ->
  exists ctx0 e, receive_packet ctx0 = (inl e, (encoder_drain fuel units ctx).2) /\
    ((encoder_drain fuel units ctx).1.1 = None <-> e = EncoderDrainError \/ e = EncoderFlushedError).
Proof.
  revert units ctx. induction fuel as [|fuel IH]; intros units ctx H; [lia|]. cbn. destruct (receive_packet ctx) as [[e|packet] ctx'] eqn:E.
  - exists ctx, e. rewrite E. destruct e; cbn; split; try done; intuition congruence.
  - apply IH. pose proof (a_packet_less _ _ _ E). lia.
Qed.
End pending.

(** ** The size of what is decoded *)

Lemma receive_frames_fit fuel m newest ctx frame ctx' : receive_frames fuel m newest ctx = (inr (Some frame), ctx') ->
  (forall f, newest = Some f -> mx_fits m f = true) -> mx_fits m frame = true.
Proof.
  revert newest ctx. induction fuel as [|fuel IH]; intros newest ctx; cbn; [intros [= -> _] Hn; by apply Hn|].
  destruct (receive_frame ctx) as [[e|f] c] eqn:E; [destruct e; intros [= -> _] Hn; by apply Hn|].
  destruct (mx_fits m f) eqn:Ef; cbn; [|done]. intros H _. eapply IH; [done|]. by intros ? [= <-].
Qed.
Lemma fits_sides m f : mx_width m <= MAX_SIDE -> mx_height m <= MAX_SIDE -> mx_fits m f = true ->
  0 <= av_width f <= mx_width m /\ 0 <= av_height f <= mx_height m.
Proof.
  unfold mx_fits, MAX_SIDE, u64_max. intros Hw Hh [H1%Z.leb_le H2%Z.leb_le]%andb_true_iff.
  destruct (Z.ltb_spec (av_width f) 0), (Z.ltb_spec (av_height f) 0); lia.
Qed.
Lemma length_joined {A} (f : Z -> list A) rows w : 0 <= rows -> 0 <= w -> (forall row, Z.of_nat (length (f row)) <= w) ->
  Z.of_nat (length (mjoin (f <$> upto rows))) <= rows * w.
Proof.
  intros Hr Hw Hf. revert rows Hr. refine (natlike_ind _ _ _); [done|]. intros n Hn IH. unfold Z.succ. rewrite upto_S, fmap_app, join_app, length_app by done. cbn.
  rewrite app_nil_r. pose proof (Hf n). lia.
Qed.
Lemma length_row f plane row len : 0 <= len -> Z.of_nat (length (plane_row f plane row len)) <= len.
Proof. intros. unfold plane_row. destruct (_ !! plane); [unfold bytes_at; rewrite length_take; lia|]. cbn. lia. Qed.

(** A picture of a size: even sides within it, and planes no longer than its sides ask for. *)
Definition picture_within (m : MaxSize) (p : VideoFrame) : Prop :=
  0 <= vf_width p <= mx_width m /\ 0 <= vf_height p <= mx_height m /\ Z.even (vf_width p) = true /\ Z.even (vf_height p) = true /\
  Z.of_nat (length (vf_y p)) <= vf_height p * vf_width p /\ Z.of_nat (length (vf_uv p)) <= vf_height p / 2 * vf_width p.
Lemma to_nv12_within m f ts p : 0 <= av_width f <= mx_width m -> 0 <= av_height f <= mx_height m -> to_nv12 f ts = Some p ->
  picture_within m p /\ vf_timestamp p = ts.
Proof.
  intros Hw Hh. unfold to_nv12. destruct (_ && _); [done|]. intros [= <-]. split; [|done]. unfold picture_within. cbn.
  destruct (floor2_bounds (av_width f)) as [Bw Ew], (floor2_bounds (av_height f)) as [Bh Eh].
  pose proof (floor2_mono 0 _ (proj1 Hw)) as Zw. pose proof (floor2_mono 0 _ (proj1 Hh)) as Zh. change (floor2 0) with 0 in *.
  pose proof (half_of_even _ Ew) as Ew2. pose proof (half_of_even _ Eh) as Eh2.
  split_and!; [lia..|done|done| |].
  - apply length_joined; [lia..|]. intros row. by apply length_row.
  - apply length_joined; [lia..|]. intros row. destruct (_ || _); [|by apply length_row].
    pose proof (length_row f 1 row (floor2 (av_width f) / 2) ltac:(lia)).
    transitivity (2 * Z.of_nat (length (plane_row f 1 row (floor2 (av_width f) / 2)))); [|lia]. clear.
    generalize (plane_row f 1 row (floor2 (av_width f) / 2)) as us, (plane_row f 2 row (floor2 (av_width f) / 2)) as vs.
    induction us as [|u us IH]; intros [|v vs]; cbn [zip_with length app]; try (cbn; lia). change (mjoin ([u; v] :: zip_with (fun u v => [u; v]) us vs)) with
      (u :: v :: mjoin (zip_with (fun u v => [u; v]) us vs)). cbn [length]. pose proof (IH vs). lia.
Qed.

(** A frame whose planes hold the rows and columns its format and its even sides ask for. *)
Definition plane_whole (f : AVFrame) (plane : nat) (rows len : Z) : bool :=
  match av_planes f !! plane with Some p => (len <=? pl_linesize p) && (rows * pl_linesize p <=? Z.of_nat (length (pl_data p))) | None => false end.
Definition frame_whole (f : AVFrame) : bool :=
  let width := floor2 (av_width f) in let height := floor2 (av_height f) in
  match av_format f with
  | FmtNv12 => plane_whole f 0 height width && plane_whole f 1 (height / 2) width
  | FmtYuv420p | FmtYuvj420p => plane_whole f 0 height width && plane_whole f 1 (height / 2) (width / 2) && plane_whole f 2 (height / 2) (width / 2)
  | _ => true
  end.
(** A picture whose planes are as long as its sides ask for. *)
Definition picture_whole (p : VideoFrame) : Prop :=
  Z.of_nat (length (vf_y p)) = vf_height p * vf_width p /\ Z.of_nat (length (vf_uv p)) = vf_height p / 2 * vf_width p.
Lemma length_joined_eq {A} (f : Z -> list A) rows w : 0 <= rows -> (forall row, 0 <= row < rows -> Z.of_nat (length (f row)) = w) ->
  Z.of_nat (length (mjoin (f <$> upto rows))) = rows * w.
Proof.
  intros Hr. revert rows Hr. refine (natlike_ind _ _ _); [done|]. intros n Hn IH Hf. unfold Z.succ. rewrite upto_S, fmap_app, join_app, length_app by done. cbn.
  rewrite app_nil_r, Nat2Z.inj_add, IH, Hf; [lia..|]. intros row Hrow. apply Hf. lia.
Qed.
Lemma length_row_whole f plane rows row len : plane_whole f plane rows len = true -> 0 <= len -> 0 <= row < rows ->
  length (plane_row f plane row len) = Z.to_nat len.
Proof.
  unfold plane_whole, plane_row. destruct (_ !! plane) as [p|]; [|done]. intros [H1%Z.leb_le H2%Z.leb_le]%andb_true_iff Hl Hr. apply length_bytes_at; nia.
Qed.
Lemma length_pairs {A} (us vs : list A) : length us = length vs -> length (mjoin (zip_with (fun u v => [u; v]) us vs)) = (2 * length us)%nat.
Proof.
  revert vs. induction us as [|u us IH]; intros [|v vs] H; try done. cbn [zip_with]. change (mjoin ([u; v] :: ?l)) with (u :: v :: mjoin l).
  cbn [length]. rewrite IH by (cbn in H; lia). lia.
Qed.
Lemma to_nv12_whole f ts p : 0 <= av_width f -> 0 <= av_height f -> frame_whole f = true -> to_nv12 f ts = Some p -> picture_whole p.
Proof.
  intros Zw%(floor2_mono 0) Zh%(floor2_mono 0) Hf. change (floor2 0) with 0 in *. unfold to_nv12. destruct (_ && _) eqn:Efmt; [done|]. intros [= <-].
  pose proof (half_of_even _ (proj2 (floor2_bounds (av_width f)))). pose proof (Z.div_pos _ 2 Zh ltac:(lia)). unfold picture_whole. cbn.
  assert (plane_whole f 0 (floor2 (av_height f)) (floor2 (av_width f)) = true) as Hy
    by (unfold frame_whole in Hf; destruct (av_format f); try done; by repeat (apply andb_true_iff in Hf as [Hf ?])).
  split; (apply length_joined_eq; [lia|]; intros row Hrow).
  - rewrite (length_row_whole _ _ (floor2 (av_height f))); lia || done.
  - destruct (_ || _) eqn:Ep.
    + assert (plane_whole f 1 (floor2 (av_height f) / 2) (floor2 (av_width f) / 2) = true /\ plane_whole f 2 (floor2 (av_height f) / 2) (floor2 (av_width f) / 2) = true) as [H1 H2]
        by (unfold frame_whole in Hf; destruct (av_format f); try done; by repeat (apply andb_true_iff in Hf as [Hf ?])).
      rewrite length_pairs; rewrite !(length_row_whole _ _ (floor2 (av_height f) / 2)) by (done || lia); lia.
    + assert (plane_whole f 1 (floor2 (av_height f) / 2) (floor2 (av_width f)) = true) as H1
        by (unfold frame_whole in Hf; destruct (av_format f); try done; by repeat (apply andb_true_iff in Hf as [Hf ?])).
      rewrite (length_row_whole _ _ (floor2 (av_height f) / 2)); lia || done.
Qed.
End with_ffmpeg.

(** A frame in memory that FFmpeg gives, decoded or transferred, has its planes allocated for
    its sides with the strides of [linesize]. *)
Class FramesAreWhole {Ctx : Type} (ffmpeg : Ffmpeg Ctx) : Prop := {
  decoded_whole ctx f ctx' : receive_frame ctx = (inr f, ctx') -> in_gpu_memory f = false -> frame_whole f = true;
  transferred_whole f g : hwframe_transfer f = inr g -> frame_whole g = true
}.

(** A transfer from GPU memory keeps the size of the picture. *)
Class TransferKeepsSize {Ctx : Type} (ffmpeg : Ffmpeg Ctx) : Prop :=
  transfer_size f g : hwframe_transfer f = inr g -> av_width g = av_width f /\ av_height g = av_height f.

Section decoding.
Context {Ctx : Type} {ffmpeg : Ffmpeg Ctx} {transfer : TransferKeepsSize ffmpeg}.

Definition bounded_size (m : MaxSize) : Prop := mx_width m <= MAX_SIDE /\ mx_height m <= MAX_SIDE.
Lemma decode_unit_kept fuel unit ts (d : @Decoder Ctx) : let d' := (decode_unit fuel unit ts d).2 in
  de_max_size d' = de_max_size d /\ de_codec d' = de_codec d /\ de_hardware d' = de_hardware d /\ de_engine d' = de_engine d.
Proof. unfold decode_unit. destruct (negb _); [done|]. destruct (send_packet _ _ _) as [[e|] c]; [done|]. by destruct (receive_frames _ _ _ _). Qed.
Lemma decode_unit_within fuel unit ts (d d' : @Decoder Ctx) p : bounded_size (de_max_size d) -> decode_unit fuel unit ts d = (inr (Some p), d') ->
  picture_within (de_max_size d) p /\ vf_timestamp p = ts.
Proof.
  intros [Bw Bh]. unfold decode_unit. destruct (negb _); [done|]. destruct (send_packet _ _ _) as [[e|] c]; [done|].
  destruct (receive_frames _ _ _ _) as [[e|[f|]] c'] eqn:E; [done| |done]. pose proof (receive_frames_fit _ _ _ _ _ _ E ltac:(done)) as Hfit.
  destruct (fits_sides _ _ Bw Bh Hfit) as [Hw Hh].
  destruct (in_gpu_memory f).
  - destruct (hwframe_transfer f) as [e|g] eqn:Et; [done|]. destruct (transfer_size f g Et) as [Gw Gh].
    destruct (to_nv12 g ts) as [q|] eqn:Eq; [|done]. intros [= <- _]. apply (to_nv12_within _ g); [lia|lia|done].
  - destruct (to_nv12 f ts) as [q|] eqn:Eq; [|done]. intros [= <- _]. by apply (to_nv12_within _ f).
Qed.
Lemma in_software_new codec m (d : @Decoder Ctx) : in_software codec m = inr d -> de_max_size d = m /\ de_hardware d = false /\ de_codec d = codec.
Proof. unfold in_software. destruct (negb _); [done|]. destruct (decoder_context _ _ _) as [[e|] c]; [done|]. by intros [= <-]. Qed.
Lemma decode_spec fuel unit ts (d d' : @Decoder Ctx) result : decode fuel unit ts d = (result, d') -> bounded_size (de_max_size d) ->
  de_max_size d' = de_max_size d /\ de_codec d' = de_codec d /\
  (d' = (decode_unit fuel unit ts d).2 \/ (de_hardware d = true /\ de_hardware d' = false)) /\
  forall p, result = inr (Some p) -> picture_within (de_max_size d) p /\ vf_timestamp p = ts.
Proof.
  intros E Hb. unfold decode in E. pose proof (decode_unit_kept fuel unit ts d) as Hk. destruct (decode_unit fuel unit ts d) as [res d1] eqn:E1. cbn in Hk. destruct Hk as (Hm & Hc & Hh & He).
  assert (forall p, res = inr (Some p) -> picture_within (de_max_size d) p /\ vf_timestamp p = ts) as Hres.
  { intros p ->. by apply (decode_unit_within fuel unit ts d d1). }
  assert ((res, d1) = (result, d') -> de_max_size d' = de_max_size d /\ de_codec d' = de_codec d /\ (d' = (res, d1).2 \/ (de_hardware d = true /\ de_hardware d' = false)) /\
    forall p, result = inr (Some p) -> picture_within (de_max_size d) p /\ vf_timestamp p = ts) as Hkeep.
  { intros [= <- <-]. split_and!; [done|done|by left|done]. }
  destruct res as [[codec| |w h|e]|picture]; try by apply Hkeep. destruct (de_hardware d1) eqn:Eh; cbn in E; [|by apply Hkeep].
  destruct (negb _); [|by apply Hkeep]. destruct (in_software (de_codec d1) (de_max_size d1)) as [failed|s] eqn:Es.
  - injection E as <- <-. split_and!; [done|done|by left|done].
  - destruct (in_software_new _ _ _ Es) as (Sm & Sh & Sc). pose proof (decode_unit_kept fuel unit ts s) as Sk. rewrite E in Sk. cbn in Sk. destruct Sk as (Km & Kc & Kh & _).
    split_and!; [congruence|congruence|right; split; congruence|]. intros p ->. rewrite <- Hm, <- Sm. eapply decode_unit_within; [|exact E]. by rewrite Sm, Hm.
Qed.

Lemma decoder_new_spec p codec m (d : @Decoder Ctx) : decoder_new p codec m = inr d -> de_max_size d = m /\ de_codec d = codec.
Proof.
  intros En. unfold decoder_new in En. destruct (on_hardware p codec m) as [h|] eqn:Eh; [|destruct (in_software_new _ _ _ En) as (? & ? & ?); done]. injection En as <-.
  unfold on_hardware in Eh. destruct (negb _); [done|]. induction (devices p) as [|device l IH]; cbn in Eh; [done|].
  destruct (negb _); [by apply IH|]. destruct (create_device device); [by apply IH|]. destruct (decoder_context _ _ _) as [[e|] c]; [by apply IH|]. by injection Eh as <-.
Qed.
(** A share's units decoded one after the other: the answers and the last decoder. *)
Fixpoint decode_all (fuel : nat) (units : list (bytes * Z)) (d : @Decoder Ctx) : list (DecodeError + option VideoFrame) * @Decoder Ctx :=
  match units with
  | [] => ([], d)
  | (unit, ts) :: units =>
      let '(answer, d) := decode fuel unit ts d in
      let '(answers, d) := decode_all fuel units d in (answer :: answers, d)
  end.
Lemma decode_all_spec fuel units (d d' : @Decoder Ctx) answers : bounded_size (de_max_size d) -> decode_all fuel units d = (answers, d') ->
  length answers = length units /\ de_codec d' = de_codec d /\ (de_hardware d = false -> de_hardware d' = false /\ de_engine d' = de_engine d) /\
  (de_hardware d = true -> de_hardware d' = true -> de_engine d' = de_engine d) /\
  forall i p unit ts, answers !! i = Some (inr (Some p)) -> units !! i = Some (unit, ts) -> picture_within (de_max_size d) p /\ vf_timestamp p = ts.
Proof.
  revert d answers. induction units as [|[unit ts] units IH]; intros d answers Hb E; cbn in E; [by injection E as <- <-|].
  destruct (decode fuel unit ts d) as [answer d1] eqn:E1, (decode_all fuel units d1) as [rest d2] eqn:E2. injection E as <- <-.
  destruct (decode_spec _ _ _ _ _ _ E1 Hb) as (Hm & Hc & Hd & Hp). destruct (IH d1 rest) as (H1 & H2 & H3 & H4 & H5); [by rewrite Hm|done|].
  pose proof (decode_unit_kept fuel unit ts d) as (_ & _ & Kh & Ke).
  split_and!; [cbn; congruence|congruence| | |].
  - intros Hh. destruct Hd as [->|[? _]]; [|congruence]. destruct H3 as [H3a H3b]; [congruence|]. split; congruence.
  - intros Hh Hh'. destruct Hd as [->|[_ Hs]]; [|destruct (H3 Hs); congruence]. rewrite <- Ke. apply H4; congruence.
  - intros [|i] p unit' ts' Hi Hu; cbn in Hi, Hu; [injection Hi as ->; injection Hu as <- <-; by apply Hp|]. rewrite <- Hm. by apply (H5 i p unit' ts').
Qed.
Lemma received_frame fuel m newest (ctx : Ctx) f ctx' : receive_frames fuel m newest ctx = (inr (Some f), ctx') ->
  newest = Some f \/ exists before after, receive_frame before = (inr f, after).
Proof.
  revert newest ctx. induction fuel as [|fuel IH]; intros newest ctx; cbn; [intros [= -> _]; by left|].
  destruct (receive_frame ctx) as [[e|g] c] eqn:E; [destruct e; intros [= -> _]; by left|]. destruct (negb _); [done|].
  intros [[= <-]|H]%IH; [right; by exists ctx, c|by right].
Qed.
Lemma decode_unit_whole {whole : FramesAreWhole ffmpeg} fuel unit ts (d d' : @Decoder Ctx) p : bounded_size (de_max_size d) ->
  decode_unit fuel unit ts d = (inr (Some p), d') -> picture_whole p.
Proof.
  intros [Bw Bh]. unfold decode_unit. destruct (negb _); [done|]. destruct (send_packet _ _ _) as [[e|] c]; [done|].
  destruct (receive_frames _ _ _ _) as [[e|[f|]] c'] eqn:E; [done| |done]. pose proof (receive_frames_fit _ _ _ _ _ _ E ltac:(done)) as Hfit.
  destruct (fits_sides _ _ Bw Bh Hfit) as [Hw Hh].
  destruct (in_gpu_memory f) eqn:Eg.
  - destruct (hwframe_transfer f) as [e|g] eqn:Et; [done|]. destruct (transfer_size f g Et) as [Gw Gh].
    destruct (to_nv12 g ts) as [q|] eqn:Eq; [|done]. intros [= <- _]. apply (to_nv12_whole g ts); [lia|lia|by apply (transferred_whole f)|done].
  - destruct (to_nv12 f ts) as [q|] eqn:Eq; [|done]. intros [= <- _]. apply received_frame in E as [[=]|(before & after & E)].
    apply (to_nv12_whole f ts); [lia|lia|by apply (decoded_whole before f after)|done].
Qed.
Lemma decode_whole {whole : FramesAreWhole ffmpeg} fuel unit ts (d d' : @Decoder Ctx) p : bounded_size (de_max_size d) ->
  decode fuel unit ts d = (inr (Some p), d') -> picture_whole p.
Proof.
  intros Hb E. unfold decode in E. pose proof (decode_unit_kept fuel unit ts d) as (Hm & _). destruct (decode_unit fuel unit ts d) as [res d1] eqn:E1. cbn in Hm.
  assert ((res, d1) = (inr (Some p), d') -> picture_whole p) as Hkeep by (intros [= -> ->]; by apply (decode_unit_whole _ _ _ _ _ _ Hb E1)).
  destruct res as [[codec| |w h|e]|picture]; try by apply Hkeep. destruct (_ && _); [|by apply Hkeep].
  destruct (in_software (de_codec d1) (de_max_size d1)) as [failed|s] eqn:Es; [done|].
  destruct (in_software_new _ _ _ Es) as (Sm & _). eapply decode_unit_whole; [|exact E]. by rewrite Sm, Hm.
Qed.
Lemma decode_all_whole {whole : FramesAreWhole ffmpeg} fuel units (d d' : @Decoder Ctx) answers i p : bounded_size (de_max_size d) ->
  decode_all fuel units d = (answers, d') -> answers !! i = Some (inr (Some p)) -> picture_whole p.
Proof.
  revert d answers i. induction units as [|[unit ts] units IH]; intros d answers i Hb; cbn [decode_all]; [by intros [= <- _]|].
  destruct (decode fuel unit ts d) as [answer d1] eqn:E1, (decode_all fuel units d1) as [rest d2] eqn:E2. intros [= <- ->].
  destruct (decode_spec _ _ _ _ _ _ E1 Hb) as (Hm & _). destruct i as [|i]; cbn; [intros [= ->]; by apply (decode_whole _ _ _ _ _ _ Hb E1)|].
  intros Hi. eapply IH; [by rewrite Hm|exact E2|done].
Qed.
End decoding.

(** C30: a decoder answers every unit of its share, and whatever the units hold, a picture it
    hands on has even sides within what the decoder was opened for (4096 at most), planes as
    long as those sides ask for and the timestamp of its unit.  Its engine changes once at
    most, from the device to the software decoder, never back. *)
Theorem a_share_decodes_within_its_size {Ctx : Type} {ffmpeg : Ffmpeg Ctx} {transfer : TransferKeepsSize ffmpeg} {whole : FramesAreWhole ffmpeg}
    (p : Platform) (codec : Codec) (width height : Z) (fuel : nat) (units : list (bytes * Z)) (d d' : @Decoder Ctx) answers :
  decoder_new p codec (max_size_new width height) = inr d -> decode_all fuel units d = (answers, d') ->
  length answers = length units /\
  (forall i picture unit ts, answers !! i = Some (inr (Some picture)) -> units !! i = Some (unit, ts) ->
     picture_within (max_size_new width height) picture /\ picture_whole picture /\ vf_width picture <= 4096 /\ vf_height picture <= 4096 /\ vf_timestamp picture = ts) /\
  de_codec d' = codec /\ (de_hardware d = false -> de_hardware d' = false) /\ (de_hardware d' = de_hardware d -> de_engine d' = de_engine d).
Proof.
  intros En Ed. destruct (decoder_new_spec _ _ _ _ En) as [Hm Hc].
  assert (bounded_size (de_max_size d)) as Hb by (rewrite Hm; unfold bounded_size, max_size_new; cbn; lia).
  destruct (decode_all_spec fuel units d d' answers Hb Ed) as (H1 & H2 & H3 & H4 & H5). rewrite Hm in H5. split_and!; [done| |congruence|intros H; by apply H3|].
  - intros i q unit ts Hi Hu. destruct (H5 i q unit ts Hi Hu) as [Hq Ht]. destruct Hb as [Bw Bh]. rewrite Hm in Bw, Bh. unfold MAX_SIDE in *. split_and!; [done| | | |done]; [|unfold picture_within in Hq; lia..].
    apply (decode_all_whole fuel units d d' answers i q); [|done..]. rewrite Hm. unfold bounded_size, max_size_new. cbn. unfold MAX_SIDE. lia.
  - intros Hh. destruct (de_hardware d) eqn:E; [by apply H4|by apply H3].
Qed.

(** A keyframe asked for is not owed any more once FFmpeg failed to take the frame. *)
Lemma a_failed_submit_owes_no_keyframe {Ctx : Type} {ffmpeg : Ffmpeg Ctx} fuel frame ts (e : @Encoder Ctx) failed e' :
  submit fuel frame ts e = (inl failed, e') -> en_idr_next e' = false.
Proof. unfold submit. intros H. repeat case_match; by simplify_eq. Qed.

(** Where FFmpeg holds fewer than [most] outputs at a time and each one taken is one
    fewer, the loops that empty a codec end: [most] turns are as good as any greater number,
    for a picture encoded, a frame submitted and a unit decoded. *)
Theorem the_codec_loops_end {Ctx : Type} {ffmpeg : Ffmpeg Ctx} (pending : Ctx -> nat) (most : nat) :
  (forall ctx, pending ctx < most)%nat ->
  (forall ctx packet ctx', receive_packet ctx = (inr packet, ctx') -> pending ctx' < pending ctx)%nat ->
  (forall ctx frame ctx', receive_frame ctx = (inr frame, ctx') -> pending ctx' < pending ctx)%nat ->
  forall more, (most <= more)%nat ->
    (forall picture (e : @Encoder Ctx), encode more picture e = encode most picture e) /\
    (forall unit ts (d : @Decoder Ctx), decode more unit ts d = decode most unit ts d).
Proof.
  intros Hmost Hpacket Hframe more Hmore.
  assert (forall units ctx, encoder_drain more units ctx = encoder_drain most units ctx) as Hd.
  { intros units ctx. pose proof (Hmost ctx). apply (enough_packets pending); (done || lia). }
  assert (forall m newest ctx, receive_frames more m newest ctx = receive_frames most m newest ctx) as Hr.
  { intros m newest ctx. pose proof (Hmost ctx). apply (enough_frames pending); (done || lia). }
  assert (forall frame ts (e : @Encoder Ctx), submit more frame ts e = submit most frame ts e) as Hs.
  { intros frame ts e. unfold submit. destruct (send_frame _ _) as [[[]|] c]; rewrite ?Hd; try done.
    destruct (encoder_drain most [] c) as [[[failed|] units] c']; [done|]. destruct (send_frame _ c') as [[failed|] c'']; by rewrite ?Hd. }
  assert (forall unit ts (d : @Decoder Ctx), decode_unit more unit ts d = decode_unit most unit ts d) as Hu.
  { intros unit ts d. unfold decode_unit. destruct (negb _); [done|]. destruct (send_packet _ _ _) as [[e|] c]; by rewrite ?Hr. }
  split.
  - intros picture e. unfold encode. destruct (new_frame _ _ _); [done|]. destruct (decide _); cbn.
    + destruct (copy_into _ _ _); cbn; [|done]. destruct (uploads _); [|by rewrite Hs]. destruct (upload _ e) as [[failed|s] e']; by rewrite ?Hs.
    + destruct (encoder_fit _ _ _) as [[[failed|f] e']|]; cbn; [done| |done]. destruct (uploads _); [|by rewrite Hs]. destruct (upload _ e') as [[failed|s] e'']; by rewrite ?Hs.
  - intros unit ts d. unfold decode. rewrite Hu. destruct (decode_unit most unit ts d) as [[[]|] d']; try done. destruct (_ && _); [|done].
    destruct (in_software _ _); by rewrite ?Hu.
Qed.

(** A codec with one slot: a unit is a picture of as many columns as its first byte says, and
    a device fails on an empty unit, as broken hardware does. *)
Record Slot := mkSlot { sl_hardware : bool; sl_frame : option AVFrame; sl_packet : option Packet }.
Definition slot_ffmpeg : Ffmpeg Slot := {|
  raw_error e := match e with OtherError code => Some code | _ => None end;
  AVERROR_INVALIDDATA := -1094995529;
  find_encoder name := bool_decide (name = "libvpx-vp9"%string);
  create_device _ := None;
  make_pool _ _ := None;
  encoder_context _ _ := mkSlot false None None;
  opt_set _ _ ctx := (None, ctx);
  open_context ctx := (None, ctx);
  alloc_buffer width height format := inr (flat_frame width height (if decide (format = FmtYuv420p) then Yuv420p else Nv12) 0);
  scaler_exists _ _ _ := true;
  scale_frame _ scaled := inr scaled;
  get_surface ctx := (None, ctx);
  hwframe_upload frame _ := inr frame;
  send_frame f ctx := (None, mkSlot (sl_hardware ctx) (sl_frame ctx) (Some (mkPacket [av_width (sf_frame f)] (sf_intra f) (sf_pts f))));
  receive_packet ctx := match sl_packet ctx with
    | Some p => (inr p, mkSlot (sl_hardware ctx) (sl_frame ctx) None) | None => (inl EncoderDrainError, ctx) end;
  find_decoder _ := true;
  hw_configs _ := [(DeviceVaapi, true)];
  decoder_context _ device _ := (None, mkSlot (bool_decide (is_Some device)) None None);
  new_packet _ := true;
  send_packet unit _ ctx := match unit with
    | [] => (if sl_hardware ctx then Some (OtherError (-5)) else None, ctx)
    | columns :: _ => (None, mkSlot (sl_hardware ctx) (Some (flat_frame columns 2 Nv12 7)) (sl_packet ctx))
    end;
  receive_frame ctx := match sl_frame ctx with
    | Some f => (if frame_whole f then inr f else inl (OtherError (-12)), mkSlot (sl_hardware ctx) None (sl_packet ctx))
    | None => (inl DecoderDrainError, ctx) end;
  in_gpu_memory _ := false;
  hwframe_transfer f := if frame_whole f then inr f else inl (OtherError (-12))
|}.
Lemma slot_transfer : TransferKeepsSize slot_ffmpeg.
Proof. intros f g. cbn. destruct (frame_whole f); [by intros [= <-]|done]. Qed.
Lemma slot_whole : FramesAreWhole slot_ffmpeg.
Proof.
  split; [intros [h [f|] k] g ctx'|intros f g]; cbn; [|done|]; (destruct (frame_whole f) eqn:E; [|done]); [by intros [= <- _]|by intros [= <-]].
Qed.
Definition slot_pending (s : Slot) : nat := length (option_list (sl_frame s)) + length (option_list (sl_packet s)).

Definition slot_decoder : @Decoder Slot := mkDecoder (mkSlot true None None) Vp9 true "VA-API"%string (max_size_new 8 8).
Definition slot_run := @decode_all Slot slot_ffmpeg 4 [([4], 10); ([9], 20); ([], 30)] slot_decoder.
Lemma slot_run_eq : slot_run = ([inr (Some (mkFrame 4 2 (replicate 8 7) (replicate 4 7) 10)); inl (TooLarge 9 2); inr None],
  mkDecoder (mkSlot false None None) Vp9 false "FFmpeg (software)"%string (max_size_new 8 8)).
Proof. by vm_compute. Qed.
Lemma a_share_decodes_within_its_size_witness : @decoder_new Slot slot_ffmpeg Linux Vp9 (max_size_new 8 8) = inr slot_decoder /\
  slot_run.1 !! 0%nat = Some (inr (Some (mkFrame 4 2 (replicate 8 7) (replicate 4 7) 10))) /\
  picture_within (max_size_new 8 8) (mkFrame 4 2 (replicate 8 7) (replicate 4 7) 10) /\ picture_whole (mkFrame 4 2 (replicate 8 7) (replicate 4 7) 10).
Proof.
  assert (@decoder_new Slot slot_ffmpeg Linux Vp9 (max_size_new 8 8) = inr slot_decoder) as En by done. split; [exact En|].
  split; [by rewrite slot_run_eq|].
  pose proof (@a_share_decodes_within_its_size Slot slot_ffmpeg slot_transfer slot_whole Linux Vp9 8 8 4 [([4], 10); ([9], 20); ([], 30)] _ _ _ En slot_run_eq) as (_ & H & _).
  destruct (H 0%nat _ _ _ eq_refl eq_refl) as (Hp & Hw & _). split; [exact Hp|exact Hw].
Defined.
Lemma the_codec_loops_end_witness : forall picture (e : @Encoder Slot), @encode Slot slot_ffmpeg 100 picture e = @encode Slot slot_ffmpeg 3 picture e.
Proof.
  apply (@the_codec_loops_end Slot slot_ffmpeg slot_pending 3).
  - intros [h [f|] [p|]]; cbn; lia.
  - intros [h [f|] [p|]] packet ctx' [= _ <-]; cbn; lia.
  - intros [h [f|] [p|]] frame ctx' [= _ <-]; cbn; lia.
  - lia.
Defined.
