(* ===== verification/Share.v ===== *)
(** * Sending and receiving a share (throcc-client-core, media/share.rs, share_audio.rs and video/mod.rs)

    The share thread, as built for a platform whose captures hand over pictures in shared
    memory (the inputs in GPU memory of Linux and macOS are left out), and the thread that
    decodes a share and holds its pictures back to the share's audio.  The capture is an
    interface with one implementation per platform: the class [Capture].  Opus is not part of
    the repository: its encoder is the class [OpusEncoder].  Instants are in milliseconds. *)
From stdpp Require Import strings.
From Stdlib Require Import SpecFloat.
From S2P Require Import Prelude Frame Messages Float64 People Jitter Engine ShareClock Pictures Video Codecs.
Open Scope Z_scope.

(** ** The share audio being heard *)

(* @src/crates/throcc-client-core/src/media/share_audio.rs 45-47 Playout *)
Definition Playout : Type := Z.
(* @src/crates/throcc-client-core/src/media/share_audio.rs 50-50! Playout::SILENT *)
Definition SILENT : Playout := u64_max.
(* @src/crates/throcc-client-core/src/media/share_audio.rs 56-59 Playout::set *)
Definition playout_set (heard : option Z) : Playout := default SILENT heard.
(* @src/crates/throcc-client-core/src/media/share_audio.rs 61-64 Playout::heard *)
Definition playout_heard (p : Playout) : option Z := if p <=? u32_max then Some p else None.

(* @src/crates/throcc-proto/src/frame.rs 13-13 AUDIO_CLOCK_HZ *)
Definition AUDIO_CLOCK_HZ : Z := 48000.
(* @src/crates/throcc-client-core/src/media/share_audio.rs 67-69 MAX_HOLD *)
Definition MAX_HOLD : Z := VIDEO_CLOCK_HZ / 2.
(* @src/crates/throcc-client-core/src/media/share_audio.rs 85-89 audio_to_video *)
Definition audio_to_video (timestamp : Z) : Z := wrap32 (timestamp * VIDEO_CLOCK_HZ / AUDIO_CLOCK_HZ).
(** Whether a frame is due while [heard], on the video clock, is heard. *)
(* @src/crates/throcc-client-core/src/media/share_audio.rs 78-81! due_frames *)
Definition frame_due (heard frame : Z) : bool :=
  let ahead := wrap32 (frame - heard) in
  negb (timestamp_before heard frame) || (MAX_HOLD <? ahead).
(** [iter.take_while(p).count()]. *)
Fixpoint count_while {A} (p : A -> bool) (l : list A) : nat :=
  match l with [] => O | x :: l => if p x then S (count_while p l) else O end.
(* @src/crates/throcc-client-core/src/media/share_audio.rs 71-83 due_frames *)
Definition due_frames (held : list Z) (heard : option Z) : nat :=
  match audio_to_video <$> heard with None => length held | Some heard => count_while (frame_due heard) held end.

(* @src/crates/throcc-client-core/src/media/share_audio.rs 9-10 KBPS *)
Definition KBPS : Z := 128.
(* @src/crates/throcc-client-core/src/media/share_audio.rs 11-11 EXPECTED_LOSS_PERCENT *)
Definition EXPECTED_LOSS_PERCENT : Z := 5.
(* @src/crates/throcc-client-core/src/media/share_audio.rs 12-13 MAX_PACKET *)
Definition SHARE_MAX_PACKET : Z := 4000.
Class OpusEncoder (Opus : Type) := {
  (** A 48 kHz stereo encoder of 20 ms frames for music, by bitrate and expected loss. *)
  opus_build : Z -> Z -> option Opus;
  (** The bytes one frame takes, with the size of the packet there is room for. *)
  opus_encode : list f32 -> Z -> Opus -> option bytes * Opus
}.
(* @src/crates/throcc-client-core/src/media/share_audio.rs 25-36 ShareAudioEncoder::new *)
Definition share_audio_new `{OpusEncoder Opus} : option Opus := opus_build (KBPS * 1000) EXPECTED_LOSS_PERCENT.
(* @src/crates/throcc-client-core/src/media/share_audio.rs 38-42 ShareAudioEncoder::encode *)
Definition share_audio_encode `{OpusEncoder Opus} (frame : list f32) (o : Opus) : option bytes * Opus := opus_encode frame SHARE_MAX_PACKET o.

(** ** The self-view's demand *)

(* @src/crates/throcc-client-core/src/media/video/mod.rs 16-17 PREVIEW_LINGER *)
Definition PREVIEW_LINGER : Z := 1000.
(* @src/crates/throcc-client-core/src/media/video/mod.rs 19-25 PreviewDemand *)
Record PreviewDemand := mkDemand { pd_since : Z; pd_drawn : Z }.
Definition demand_new (now : Z) : PreviewDemand := mkDemand now 0.
(* @src/crates/throcc-client-core/src/media/video/mod.rs 46-48 PreviewDemand::millis *)
Definition demand_millis (now : Z) (d : PreviewDemand) : Z := sat_sub now (pd_since d).
(* @src/crates/throcc-client-core/src/media/video/mod.rs 37-39 PreviewDemand::drawn *)
Definition demand_drawn (now : Z) (d : PreviewDemand) : PreviewDemand := mkDemand (pd_since d) (demand_millis now d + 1).
(* @src/crates/throcc-client-core/src/media/video/mod.rs 41-44 PreviewDemand::wanted *)
Definition demand_wanted (now : Z) (d : PreviewDemand) : bool :=
  negb (pd_drawn d =? 0) && (sat_sub (demand_millis now d + 1) (pd_drawn d) <? PREVIEW_LINGER).

(** ** Pacing *)

(* @src/crates/throcc-client-core/src/media/share.rs 29-31 RECOVERY_SPACING *)
Definition RECOVERY_SPACING : Z := 1000.
(* @src/crates/throcc-client-core/src/media/share.rs 84-89 RecoveryPacer *)
Record RecoveryPacer := mkPacer { rp_wanted : option Recovery; rp_last : option Z }.
Definition pacer_default : RecoveryPacer := mkPacer None None.
(** [self.max(Some(kind))]: [None] is least, [Idr] greater than [Refresh]. *)
(* @src/crates/throcc-client-core/src/media/share.rs 92-94 RecoveryPacer::ask *)
Definition pacer_ask (kind : Recovery) (p : RecoveryPacer) : RecoveryPacer :=
  mkPacer (Some match rp_wanted p with Some Idr => Idr | _ => kind end) (rp_last p).
(* @src/crates/throcc-client-core/src/media/share.rs 96-106 RecoveryPacer::due *)
Definition pacer_due (now : Z) (p : RecoveryPacer) : option Recovery * RecoveryPacer :=
  if match rp_last p with Some last => sat_sub now last <? RECOVERY_SPACING | None => false end then (None, p) else
  match rp_wanted p with
  | None => (None, p)
  | Some kind => (Some kind, mkPacer None (Some now))
  end.

(* @src/crates/throcc-client-core/src/media/share.rs 24-26 SELF_VIEW_EVERY *)
Definition SELF_VIEW_EVERY : Z := 2.
(* @src/crates/throcc-client-core/src/media/share.rs 27-27 SELF_VIEW_WIDTH *)
Definition SELF_VIEW_WIDTH : Z := 960.
(* @src/crates/throcc-client-core/src/media/share.rs 109-114 Admission *)
Record Admission := mkAdmission { ad_limiter : FrameLimiter; ad_sent : Z }.
(** [None]: the frame is skipped.  The preview is shared with the user interface. *)
(* @src/crates/throcc-client-core/src/media/share.rs 117-125 Admission::admit *)
Definition admit_frame (now : Z) (preview : PreviewDemand) (timestamp : Z) (a : Admission) : option bool * Admission :=
  let '(admitted, limiter) := admits timestamp (ad_limiter a) in
  if negb admitted then (None, mkAdmission limiter (ad_sent a)) else
  let sent := wrap32 (ad_sent a + 1) in
  (Some ((sent mod SELF_VIEW_EVERY =? 0) && demand_wanted now preview), mkAdmission limiter sent).

(** ** The share thread *)

(* @src/crates/throcc-client-core/src/media/capture/mod.rs 82-88 CaptureConfig *)
Record CaptureConfig := mkCaptureConfig { cc_width : Z; cc_height : Z; cc_fps : Z; cc_audio : bool }.
(* @src/crates/throcc-client-core/src/media/capture/mod.rs 91-98 CaptureConfig::for_share *)
Definition for_share (share : ShareConfig) : CaptureConfig := mkCaptureConfig (sc_width share) (sc_height share) (sc_fps share) (sc_audio share).
(* @src/crates/throcc-client-core/src/media/capture/mod.rs 102-138! Capture *)
Class Capture (Cap : Type) := {
  cap_ended : Cap -> bool;
  captures_audio : Cap -> bool;
  cap_next_frame : VideoFrame -> Cap -> bool * VideoFrame * Cap;
  cap_next_audio : Cap -> option (Z * list f32) * Cap
}.

(** Where the picture drops its oldest: the bounds of the pictures held. *)
(* @src/crates/throcc-client-core/src/media/share.rs 454-455 MAX_HELD *)
Definition MAX_HELD : nat := 32.
(* @src/crates/throcc-client-core/src/media/share.rs 456-457 MAX_HELD_BYTES *)
Definition MAX_HELD_BYTES : Z := 268435456.
(* @src/crates/throcc-client-core/src/media/share.rs 458-459 DECODER_PADDING *)
Definition DECODER_PADDING : Z := 64.
(* @src/crates/throcc-client-core/src/media/share.rs 461-465 max_size *)
Definition max_size (config : ShareConfig) : MaxSize :=
  let side announced := announced + DECODER_PADDING in max_size_new (side (sc_width config)) (side (sc_height config)).
(* @src/crates/throcc-client-core/src/media/share.rs 467-469 frame_bytes *)
Definition frame_bytes (f : VideoFrame) : Z := Z.of_nat (length (vf_y f) + length (vf_uv f)).
Definition held_bytes (held : list VideoFrame) : Z := foldr (fun f sum => frame_bytes f + sum) 0 held.
(** The loop that drops the oldest, [bytes] being those of [held]. *)
(* @src/crates/throcc-client-core/src/media/share.rs 471-481 make_room *)
Fixpoint make_room (held : list VideoFrame) (incoming bytes : Z) : list VideoFrame :=
  match held with
  | [] => []
  | oldest :: rest =>
      if (MAX_HELD <=? length held)%nat || (MAX_HELD_BYTES <? bytes + incoming) then make_room rest incoming (bytes - frame_bytes oldest)
      else held
  end.

Section with_codecs.
Context {Ctx Cap Opus : Type} {ffmpeg : Ffmpeg Ctx} {capture : Capture Cap} {opus : OpusEncoder Opus}.

(** [sd_out] holds what was given to the media engine, [sd_self_view] the newest thumbnail. *)
(* @src/crates/throcc-client-core/src/media/share.rs 241-259 Sending *)
Record Sending := mkSending {
  sd_capture : Cap; sd_encoder : @Encoder Ctx; sd_audio : option Opus; sd_tracks : ShareTracks; sd_frame : VideoFrame;
  sd_unsent : bool; sd_self_view : option VideoFrame; sd_admission : Admission; sd_pacer : RecoveryPacer; sd_out : list (Kind * Outgoing)
}.
Definition sd_set_capture (c : Cap) (s : Sending) : Sending :=
  mkSending c (sd_encoder s) (sd_audio s) (sd_tracks s) (sd_frame s) (sd_unsent s) (sd_self_view s) (sd_admission s) (sd_pacer s) (sd_out s).
Definition sd_set_encoder (e : @Encoder Ctx) (s : Sending) : Sending :=
  mkSending (sd_capture s) e (sd_audio s) (sd_tracks s) (sd_frame s) (sd_unsent s) (sd_self_view s) (sd_admission s) (sd_pacer s) (sd_out s).
Definition sd_set_pacer (p : RecoveryPacer) (s : Sending) : Sending :=
  mkSending (sd_capture s) (sd_encoder s) (sd_audio s) (sd_tracks s) (sd_frame s) (sd_unsent s) (sd_self_view s) (sd_admission s) p (sd_out s).
Definition sd_send (k : Kind) (unit : Outgoing) (s : Sending) : Sending :=
  mkSending (sd_capture s) (sd_encoder s) (sd_audio s) (sd_tracks s) (sd_frame s) (sd_unsent s) (sd_self_view s) (sd_admission s) (sd_pacer s) (sd_out s ++ [(k, unit)]).

(** [fuel] bounds the frames of audio the capture holds. *)
(* @src/crates/throcc-client-core/src/media/share.rs 365-376 Sending::send_audio *)
Fixpoint send_audio (fuel : nat) (now : Z) (s : Sending) : Sending :=
  match fuel, sd_audio s with
  | S fuel, Some encoder =>
      match cap_next_audio (sd_capture s) with
      | (None, c) => sd_set_capture c s
      | (Some (timestamp, sound), c) =>
          let s := sd_set_capture c s in
          let '(packet, encoder) := share_audio_encode sound encoder in
          let s := mkSending (sd_capture s) (sd_encoder s) (Some encoder) (sd_tracks s) (sd_frame s) (sd_unsent s) (sd_self_view s) (sd_admission s) (sd_pacer s) (sd_out s) in
          send_audio fuel now match packet with
            | Some data => sd_send AudioKind (mkOutgoing (st_audio (sd_tracks s)) data timestamp false now) s
            | None => s
            end
      end
  | _, _ => s
  end.
(* @src/crates/throcc-client-core/src/media/share.rs 385-392 Sending::send_units *)
Definition send_units (now : Z) (units : list EncodedUnit) (s : Sending) : Sending :=
  foldl (fun s unit => sd_send VideoKind (mkOutgoing (st_video (sd_tracks s)) (eu_data unit) (eu_timestamp unit) (eu_keyframe unit) now) s) s units.
(** [None] where encoding panics. *)
(* @src/crates/throcc-client-core/src/media/share.rs 378-383 Sending::send_video *)
Definition send_video (fuel : nat) (now : Z) (s : Sending) : option Sending :=
  '(encoded, e) ← encode fuel (sd_frame s) (sd_encoder s);
  let s := sd_set_encoder e s in
  Some match encoded with inr units => send_units now units s | inl _ => s end.
(** One turn of the loop, with the recoveries asked since the last; it ends when the share
    was stopped or the capture ended. *)
(* @src/crates/throcc-client-core/src/media/share.rs 262-298 Sending::run *)
Definition sending_turn (fuel : nat) (now : Z) (preview : PreviewDemand) (asked : list Recovery) (s : Sending) : option Sending :=
  let pacer := foldl (fun p kind => pacer_ask kind p) (sd_pacer s) asked in
  let '(due, pacer) := pacer_due now pacer in
  let s := sd_set_pacer pacer s in
  let s := match due with Some kind => sd_set_encoder (encoder_recover kind (sd_encoder s)) s | None => s end in
  let s := send_audio fuel now s in
  let '(fresh, frame, c) := if sd_unsent s then (true, sd_frame s, sd_capture s) else cap_next_frame (sd_frame s) (sd_capture s) in
  let s := mkSending c (sd_encoder s) (sd_audio s) (sd_tracks s) frame false (sd_self_view s) (sd_admission s) (sd_pacer s) (sd_out s) in
  if negb fresh then Some s else
  let '(self_view, admission) := admit_frame now preview (vf_timestamp frame) (sd_admission s) in
  let thumbnail := if decide (self_view = Some true) then Some (shrunk (vf_width frame / SELF_VIEW_WIDTH) frame) else sd_self_view s in
  let s := mkSending c (sd_encoder s) (sd_audio s) (sd_tracks s) frame false thumbnail admission (sd_pacer s) (sd_out s) in
  match self_view with None => Some s | Some _ => send_video fuel now s end.

(** [first]: whether the capture's first frame came, copied into [frame], within two
    seconds. *)
(* @src/crates/throcc-client-core/src/media/share.rs 142-220 ShareSender::start *)
Definition share_start (cuda : bool) (tracks : ShareTracks) (wanted : ShareConfig) (first : bool) (frame : VideoFrame) (c : Cap) : option (ShareConfig * Sending) :=
  let capture_config := for_share wanted in
  let bound := (cc_width capture_config, cc_height capture_config) in
  let '(width, height) := if first then share_size (vf_width frame, vf_height frame) bound else bound in
  match encoder_open cuda (mkEncoderConfig width height (cc_fps capture_config) (sc_kbps wanted)) with
  | inl _ => None
  | inr encoder =>
      audio ← (if sc_audio wanted && captures_audio c then e ← share_audio_new; Some (Some e) else Some None);
      let side v otherwise := if v <=? u16_max then v else otherwise in
      let config := mkShareConfig (bool_decide (is_Some audio)) (sc_kbps wanted) (en_codec encoder) (side width (sc_width wanted)) (side height (sc_height wanted)) (sc_fps wanted) in
      Some (config, mkSending c encoder audio tracks frame first None (mkAdmission (limiter_new (cc_fps capture_config)) 0) pacer_default [])
  end.

(** ** The thread that decodes a share *)

(** What the thread finds waiting: nothing, a unit, or that the share is over. *)
Inductive Polled := NoUnit | AUnit (unit : Received) | Disconnected.
(** [rc_shown] holds the pictures shown, the newest last, [rc_asks] how often an IDR was asked for. *)
(* @src/crates/throcc-client-core/src/media/share.rs 500-502! receive *)
Record Receiving := mkReceiving {
  rc_decoder : @Decoder Ctx; rc_held : list VideoFrame; rc_asked : bool; rc_oversized : Z; rc_engine : string;
  rc_shown : list VideoFrame; rc_asks : nat
}.
(* @src/crates/throcc-client-core/src/media/share.rs 488-502! receive *)
Definition receive_start (p : Platform) (config : ShareConfig) : DecodeError + Receiving :=
  match decoder_new p (sc_codec config) (max_size config) with
  | inl e => inl e
  | inr d => inr (mkReceiving d [] false 0 (de_engine d) [] 0)
  end.
(** A unit decoded: the picture held, the room made for it, an IDR asked for. *)
(* @src/crates/throcc-client-core/src/media/share.rs 519-551! receive *)
Definition receive_unit (fuel : nat) (unit : Received) (r : Receiving) : Receiving :=
  let '(decoded, d) := decode fuel (rv_data unit) (rv_timestamp unit) (rc_decoder r) in
  match decoded with
  | inr (Some frame) =>
      mkReceiving d (make_room (rc_held r) (frame_bytes frame) (held_bytes (rc_held r)) ++ [frame]) false (rc_oversized r) (de_engine d) (rc_shown r) (rc_asks r)
  | inr None => mkReceiving d (rc_held r) false (rc_oversized r) (de_engine d) (rc_shown r) (rc_asks r)
  | inl (TooLarge _ _) => mkReceiving d (rc_held r) (rc_asked r) (rc_oversized r + 1) (de_engine d) (rc_shown r) (rc_asks r)
  | inl _ =>
      if rc_asked r then mkReceiving d (rc_held r) true (rc_oversized r) (de_engine d) (rc_shown r) (rc_asks r)
      else mkReceiving d (rc_held r) true (rc_oversized r) (de_engine d) (rc_shown r) (S (rc_asks r))
  end.
(** The held frames that are due leave, the newest of them is shown; [None] when nobody
    watches it any more. *)
(* @src/crates/throcc-client-core/src/media/share.rs 552-558! receive *)
Definition show_due (playout : option Playout) (watched : bool) (r : Receiving) : option Receiving :=
  let heard := p ← playout; playout_heard p in
  let due := due_frames (vf_timestamp <$> rc_held r) heard in
  match list.last (take due (rc_held r)) with
  | None => Some (mkReceiving (rc_decoder r) (drop due (rc_held r)) (rc_asked r) (rc_oversized r) (rc_engine r) (rc_shown r) (rc_asks r))
  | Some newest =>
      if watched then Some (mkReceiving (rc_decoder r) (drop due (rc_held r)) (rc_asked r) (rc_oversized r) (rc_engine r) (rc_shown r ++ [newest]) (rc_asks r))
      else None
  end.
(** One turn of the loop; without held frames it waits for a unit. [None]: the thread ends. *)
(* @src/crates/throcc-client-core/src/media/share.rs 503-559! receive *)
Definition receive_turn (fuel : nat) (polled : Polled) (playout : option Playout) (watched : bool) (r : Receiving) : option Receiving :=
  match polled with
  | Disconnected => None
  | NoUnit => match rc_held r with [] => Some r | _ => show_due playout watched r end
  | AUnit unit => show_due playout watched (receive_unit fuel unit r)
  end.
End with_codecs.

Example frames_wait : (due_frames [90000; 91500; 93000] <$> [None; Some 47000; Some 48000; Some 48800; Some 60000],
  due_frames [200000] (Some 0), due_frames [40000] (Some 0)) = ([3; 0; 1; 2; 3]%nat, 1%nat, 0%nat).
Proof. by vm_compute. Qed.
Example recoveries_merge : let '(a, p) := pacer_due 0 pacer_default in let '(b, p) := pacer_due 0 (pacer_ask Refresh p) in
  let p := pacer_ask Refresh (pacer_ask Idr p) in let '(c, p) := pacer_due 500 p in let '(d, p) := pacer_due 1000 p in
  [a; b; c; d; fst (pacer_due 3000 p)] = [None; Some Refresh; None; Some Idr; None].
Proof. by vm_compute. Qed.
Example preview_is_brief : let d := demand_drawn 50 (demand_new 0) in
  (demand_wanted 9 (demand_new 0), demand_wanted 60 d, demand_wanted 1050 d) = (false, true, false).
Proof. by vm_compute. Qed.
