(* ===== verification/ShareFacts.v ===== *)
(** * What a receiver holds, shows and asks for, and how a sender paces its keyframes *)
From stdpp Require Import strings.
From S2P Require Import Prelude Frame Messages Float64 Jitter Engine ShareClock Pictures Video VideoFacts Codecs CodecsFacts Share.
Open Scope Z_scope.

(** ** Pacing recoveries *)

Inductive PacerOp := Ask (kind : Recovery) | Due (now : Z).
(** What a run of the pacer gave, and when. *)
Fixpoint pacer_run (ops : list PacerOp) (p : RecoveryPacer) : list (Z * Recovery) * RecoveryPacer :=
  match ops with
  | [] => ([], p)
  | Ask kind :: ops => pacer_run ops (pacer_ask kind p)
  | Due now :: ops =>
      let '(due, p) := pacer_due now p in
      let '(given, p) := pacer_run ops p in
      (match due with Some kind => (now, kind) :: given | None => given end, p)
  end.
Definition kind_le (a b : Recovery) : Prop := a = Idr -> b = Idr.

Lemma pacer_run_app ops ops' p : pacer_run (ops ++ ops') p =
  let '(given, p) := pacer_run ops p in let '(given', p) := pacer_run ops' p in (given ++ given', p).
Proof.
  revert p. induction ops as [|[kind|now] ops IH]; intros p; cbn; [by destruct (pacer_run ops' p)|apply IH|].
  destruct (pacer_due now p) as [due p']. rewrite IH. destruct (pacer_run ops p') as [g p'']. destruct (pacer_run ops' p''). by destruct due.
Qed.
(** The pacer remembers the last it gave. *)
Lemma pacer_last ops p : let '(given, p') := pacer_run ops p in rp_last p' = match list.last given with Some (t, _) => Some t | None => rp_last p end.
Proof.
  revert p. induction ops as [|[kind|now] ops IH]; intros p; cbn; [done|specialize (IH (pacer_ask kind p)); destruct (pacer_run _ _); done|].
  unfold pacer_due. destruct (match rp_last p with Some _ => _ | None => _ end).
  { specialize (IH p). by destruct (pacer_run ops p). }
  destruct (rp_wanted p) as [kind|]; [|specialize (IH p); by destruct (pacer_run ops p)].
  specialize (IH (mkPacer None (Some now))). destruct (pacer_run ops _) as [g p'']. rewrite IH. cbn. destruct g as [|x g]; [done|].
  change (list.last ((now, kind) :: x :: g)) with (list.last (x :: g)). destruct (list.last (x :: g)) as [[]|] eqn:E; [done|]. by apply last_None in E.
Qed.
Lemma pacer_spaced ops p : let '(given, _) := pacer_run ops p in
  (forall t kind, head given = Some (t, kind) -> forall last, rp_last p = Some last -> last + RECOVERY_SPACING <= t) /\
  (forall i t kind t' kind', given !! i = Some (t, kind) -> given !! S i = Some (t', kind') -> t + RECOVERY_SPACING <= t').
Proof.
  revert p. induction ops as [|[kind|now] ops IH]; intros p; cbn; [split; [done|]; by intros []|specialize (IH (pacer_ask kind p)); by destruct (pacer_run _ _)|].
  destruct (pacer_due now p) as [due p'] eqn:E. specialize (IH p'). destruct (pacer_run ops p') as [g p'']. destruct IH as [IH1 IH2]. unfold pacer_due in E.
  destruct (match rp_last p with Some _ => _ | None => _ end) eqn:Es; [by injection E as <- <-|].
  destruct (rp_wanted p) as [kind|]; [|by injection E as <- <-]. injection E as <- <-. split.
  - intros t k [= <- <-] last Hl. rewrite Hl in Es. unfold RECOVERY_SPACING, sat_sub in *. apply Z.ltb_ge in Es. lia.
  - intros [|i] t k t' k' Hi Hi'; cbn in Hi, Hi'; [|by apply (IH2 i t k t' k')]. injection Hi as <- <-. apply (IH1 t' k'); [by destruct g|done].
Qed.
(** While nothing is given, what was asked for stays wanted. *)
Lemma pacer_wanted ops p kind : rp_wanted p = Some kind -> (pacer_run ops p).1 = [] -> exists kind', rp_wanted (pacer_run ops p).2 = Some kind' /\ kind_le kind kind'.
Proof.
  revert p kind. induction ops as [|[k|now] ops IH]; intros p kind Hw; cbn; [intros _; exists kind; by unfold kind_le|..].
  - intros Hn. destruct (IH (pacer_ask k p) (match kind with Idr => Idr | _ => k end)) as (kind' & H1 & H2); [unfold pacer_ask; cbn; by rewrite Hw|done|].
    exists kind'. split; [done|]. intros ->. by apply H2.
  - unfold pacer_due. destruct (match rp_last p with Some _ => _ | None => _ end).
    + specialize (IH p kind Hw). by destruct (pacer_run ops p).
    + rewrite Hw. by destruct (pacer_run ops _).
Qed.

(** A sender's forced recoveries are at least a second apart, however many its viewers
    ask for and whenever the share thread looks.  And none is lost: as long as nothing was
    given since it was asked for, the first look a second after the last one given yields a
    recovery no weaker than it, an IDR if one was asked for. *)
Theorem recoveries_are_spaced_and_none_is_lost (before after : list PacerOp) (kind : Recovery) (now : Z) :
  let '(given, p) := pacer_run (before ++ Ask kind :: after) pacer_default in
  (forall i t k t' k', given !! i = Some (t, k) -> given !! S i = Some (t', k') -> t + 1000 <= t') /\
  (given = (pacer_run before pacer_default).1 -> (forall t k, list.last given = Some (t, k) -> t + 1000 <= now) ->
   exists stronger, pacer_due now p = (Some stronger, mkPacer None (Some now)) /\ (kind = Idr -> stronger = Idr)).
Proof.
  pose proof (pacer_spaced (before ++ Ask kind :: after) pacer_default) as Hs. pose proof (pacer_last (before ++ Ask kind :: after) pacer_default) as Hl.
  pose proof (pacer_run_app before (Ask kind :: after) pacer_default) as Happ. destruct (pacer_run (before ++ Ask kind :: after) pacer_default) as [given p].
  split; [apply Hs|]. intros Hg Hn. destruct (pacer_run before pacer_default) as [g0 p0]. cbn [pacer_run fst] in *.
  pose proof (pacer_wanted after (pacer_ask kind p0) (match rp_wanted p0 with Some Idr => Idr | _ => kind end) eq_refl) as Hw.
  destruct (pacer_run after (pacer_ask kind p0)) as [g1 p1]. injection Happ as -> ->. assert (g1 = []) as -> by (apply (app_inv_head g0); by rewrite app_nil_r).
  destruct (Hw eq_refl) as (stronger & Hstr & Hle). cbn in Hstr. exists stronger. split.
  - unfold pacer_due. rewrite Hstr, Hl. destruct (list.last (g0 ++ [])) as [[t k]|]; [|done].
    specialize (Hn t k eq_refl). rewrite (proj2 (Z.ltb_ge _ _)); [done|]. unfold sat_sub, RECOVERY_SPACING. lia.
  - intros ->. apply Hle. by destruct (rp_wanted p0) as [[]|].
Qed.

(** ** Holding pictures back *)

Lemma held_bytes_nonneg held : 0 <= held_bytes held.
Proof. unfold held_bytes, frame_bytes. induction held; cbn; lia. Qed.
Lemma held_bytes_cons f l : held_bytes (f :: l) = frame_bytes f + held_bytes l.
Proof. done. Qed.
Lemma held_bytes_app l l' : held_bytes (l ++ l') = held_bytes l + held_bytes l'.
Proof. unfold held_bytes. induction l as [|f l IH]; cbn; [done|]. rewrite IH. lia. Qed.
(** Room is made by dropping the oldest, and only until one more fits both bounds. *)
Lemma make_room_spec held incoming bytes : bytes = held_bytes held -> exists n, make_room held incoming bytes = drop n held /\
  (length (drop n held) < MAX_HELD)%nat /\ (drop n held = [] \/ held_bytes (drop n held) + incoming <= MAX_HELD_BYTES) /\
  forall k, (k < n)%nat -> (MAX_HELD <= length (drop k held))%nat \/ MAX_HELD_BYTES < held_bytes (drop k held) + incoming.
Proof.
  revert bytes. induction held as [|f held IH]; intros bytes ->.
  { exists 0%nat. cbn. unfold MAX_HELD. split_and!; [done|lia|by left|lia]. }
  cbn [make_room]. destruct (_ || _) eqn:E.
  - destruct (IH (held_bytes (f :: held) - frame_bytes f)) as (n & H1 & H2 & H3 & H4); [rewrite held_bytes_cons; lia|]. exists (S n). cbn [drop]. split_and!; [done..|].
    intros [|k] Hk; [|apply H4; lia]. cbn [drop]. apply orb_true_iff in E as [E%Nat.leb_le|E%Z.ltb_lt]; [by left|by right].
  - apply orb_false_iff in E as [E1%Nat.leb_gt E2%Z.ltb_ge]. exists 0%nat. cbn [drop]. split_and!; [done|done|right; lia|lia].
Qed.
Lemma count_while_spec {A} (p : A -> bool) l : Forall (fun x => p x = true) (take (count_while p l) l) /\
  (forall x, head (drop (count_while p l) l) = Some x -> p x = false) /\ (count_while p l <= length l)%nat.
Proof.
  induction l as [|x l (IH1 & IH2 & IH3)]; cbn; [split_and!; [constructor|done|done]|]. destruct (p x) eqn:E; cbn; split_and!; [by constructor|done|lia|constructor|by intros ? [= <-]|lia].
Qed.

(** ** The receiving thread *)

(** What came of a unit: a unit that decoded, with its picture if it gave one, a picture too
    large, or a failure. *)
Inductive Outcome := Decoded (picture : option VideoFrame) | Oversized | Failed.
Definition outcome_of (answer : DecodeError + option VideoFrame) : Outcome :=
  match answer with inr picture => Decoded picture | inl (TooLarge _ _) => Oversized | inl _ => Failed end.
Definition pictures (os : list Outcome) : list VideoFrame := omap (fun o => match o with Decoded p => p | _ => None end) os.

Section receiving.
Context {Ctx : Type} {ffmpeg : Ffmpeg Ctx} {transfer : TransferKeepsSize ffmpeg}.

Definition turn_outcomes (fuel : nat) (polled : Polled) (r : @Receiving Ctx) : list Outcome :=
  match polled with AUnit unit => [outcome_of (decode fuel (rv_data unit) (rv_timestamp unit) (rc_decoder r)).1] | _ => [] end.
(** The thread's turns until it ends, with what came of the units. *)
Fixpoint receive_run (fuel : nat) (turns : list (Polled * option Playout * bool)) (r : @Receiving Ctx) : list Outcome * @Receiving Ctx :=
  match turns with
  | [] => ([], r)
  | (polled, playout, watched) :: turns =>
      match receive_turn fuel polled playout watched r with
      | None => ([], r)
      | Some r' => let '(os, end_) := receive_run fuel turns r' in (turn_outcomes fuel polled r ++ os, end_)
      end
  end.
(** A property of the state and of what came of the units so far, kept by every turn. *)
Lemma receive_run_ind (P : list Outcome -> @Receiving Ctx -> Prop) fuel :
  (forall os r polled playout watched r', P os r -> receive_turn fuel polled playout watched r = Some r' -> P (os ++ turn_outcomes fuel polled r) r') ->
  forall turns os0 r os r', P os0 r -> receive_run fuel turns r = (os, r') -> P (os0 ++ os) r'.
Proof.
  intros Hstep. induction turns as [|[[polled playout] watched] turns IH]; intros os0 r os r' HP; cbn; [intros [= <- <-]; by rewrite app_nil_r|].
  destruct (receive_turn _ _ _ _ _) as [r1|] eqn:E; [|intros [= <- <-]; by rewrite app_nil_r].
  destruct (receive_run fuel turns r1) as [os1 r2] eqn:E2. intros [= <- <-]. rewrite app_assoc. eapply IH; [|exact E2]. by eapply Hstep.
Qed.

(** Showing only moves held pictures out. *)
Lemma show_due_spec playout watched (r r' : @Receiving Ctx) : show_due playout watched r = Some r' ->
  exists due, rc_held r' = drop due (rc_held r) /\ rc_decoder r' = rc_decoder r /\ rc_asked r' = rc_asked r /\ rc_asks r' = rc_asks r /\
    due = due_frames (vf_timestamp <$> rc_held r) (p ← playout; playout_heard p) /\
    rc_shown r' = rc_shown r ++ option_list (list.last (take due (rc_held r))).
Proof.
  unfold show_due. set (due := due_frames _ _). intros E. exists due.
  destruct (list.last (take due (rc_held r))) as [newest|]; [destruct watched; [|done]|]; injection E as <-; cbn; rewrite ?app_nil_r; by split_and!.
Qed.
Lemma receive_unit_spec fuel unit (r : @Receiving Ctx) :
  let '(answer, d) := decode fuel (rv_data unit) (rv_timestamp unit) (rc_decoder r) in let r' := receive_unit fuel unit r in
  rc_decoder r' = d /\ rc_shown r' = rc_shown r /\
  rc_held r' = match outcome_of answer with Decoded (Some p) => make_room (rc_held r) (frame_bytes p) (held_bytes (rc_held r)) ++ [p] | _ => rc_held r end /\
  rc_asked r' = match outcome_of answer with Decoded _ => false | Oversized => rc_asked r | Failed => true end /\
  rc_asks r' = match outcome_of answer with Failed => if rc_asked r then rc_asks r else S (rc_asks r) | _ => rc_asks r end.
Proof.
  unfold receive_unit. destruct (decode _ _ _ _) as [[[]|[]] d]; cbn; try by split_and!. all: destruct (rc_asked r) eqn:E; by cbn.
Qed.
(** The state before a turn shows what is due. *)
Definition before_show (fuel : nat) (polled : Polled) (r : @Receiving Ctx) : @Receiving Ctx :=
  match polled with AUnit unit => receive_unit fuel unit r | _ => r end.
Lemma receive_turn_show fuel polled playout watched (r r' : @Receiving Ctx) : receive_turn fuel polled playout watched r = Some r' ->
  show_due playout watched (before_show fuel polled r) = Some r' \/ (r' = r /\ rc_held r = [] /\ turn_outcomes fuel polled r = []).
Proof. destruct polled as [|unit|]; cbn; [|by left|done]. destruct (rc_held r) eqn:E; [|by left]. intros [= <-]. right. by split_and!. Qed.

(** *** In order, within bounds *)

Definition within_bounds (m : MaxSize) (held : list VideoFrame) : Prop :=
  (length held <= MAX_HELD)%nat /\ held_bytes held <= MAX_HELD_BYTES /\ Forall (picture_within m) held.
Lemma picture_bytes m p : bounded_size m -> picture_within m p -> frame_bytes p <= MAX_HELD_BYTES.
Proof.
  unfold bounded_size, picture_within, frame_bytes, MAX_SIDE, MAX_HELD_BYTES. intros [Bw Bh] (Hw & Hh & _ & Eh%half_of_even & Hy & Hu). rewrite Nat2Z.inj_add. nia.
Qed.
Lemma held_bytes_drop n l : held_bytes (drop n l) <= held_bytes l.
Proof. rewrite <- (take_drop n l) at 2. rewrite held_bytes_app. pose proof (held_bytes_nonneg (take n l)). lia. Qed.
Lemma within_bounds_drop m n held : within_bounds m held -> within_bounds m (drop n held).
Proof. intros (H1 & H2 & H3). split_and!; [rewrite length_drop; lia|pose proof (held_bytes_drop n held); lia|by apply Forall_drop]. Qed.
Lemma within_bounds_push m held p : bounded_size m -> within_bounds m held -> picture_within m p ->
  within_bounds m (make_room held (frame_bytes p) (held_bytes held) ++ [p]).
Proof.
  intros Hb (H1 & H2 & H3) Hp. destruct (make_room_spec held (frame_bytes p) _ eq_refl) as (n & -> & Hn1 & Hn2 & _). split_and!.
  - rewrite length_app. cbn. unfold MAX_HELD in *. lia.
  - rewrite held_bytes_app, held_bytes_cons. cbn. destruct Hn2 as [->|]; [|lia]. cbn. pose proof (picture_bytes m p Hb Hp). lia.
  - apply Forall_app. split; [by apply Forall_drop|by apply Forall_singleton].
Qed.

Definition in_order (m : MaxSize) (os : list Outcome) (r : @Receiving Ctx) : Prop :=
  de_max_size (rc_decoder r) = m /\ (rc_shown r ++ rc_held r) `sublist_of` (pictures os) /\ within_bounds m (rc_held r) /\ Forall (picture_within m) (pictures os).
Lemma last_sublist {A} (l : list A) : option_list (list.last l) `sublist_of` l.
Proof. destruct (list.last l) as [x|] eqn:E; [|by apply sublist_nil_l]. apply last_Some in E as (l' & ->). by apply sublist_inserts_l. Qed.
Lemma show_in_order m os playout watched r r' : in_order m os r -> show_due playout watched r = Some r' -> in_order m os r'.
Proof.
  intros (Hm & Hs & Hb & Hp) (due & Eh & Ed & _ & _ & _ & Esh)%show_due_spec. unfold in_order. rewrite Ed, Eh, Esh. split_and!; [done| |by apply within_bounds_drop|done].
  etrans; [|exact Hs]. rewrite <- (take_drop due (rc_held r)) at 3. rewrite <- app_assoc. apply sublist_app; [done|]. apply sublist_app; [apply last_sublist|done].
Qed.
Lemma unit_in_order m os fuel unit r : bounded_size m -> in_order m os r -> in_order m (os ++ turn_outcomes fuel (AUnit unit) r) (receive_unit fuel unit r).
Proof.
  intros Hb (Hm & Hs & Hw & Hp). pose proof (receive_unit_spec fuel unit r) as Hr. cbn. destruct (decode _ _ _ _) as [answer d] eqn:E.
  destruct (decode_spec _ _ _ _ _ _ E ltac:(by rewrite Hm)) as (Dm & _ & _ & Dp). destruct Hr as (Rd & Rs & Rh & _ & _). cbn [fst].
  unfold in_order, pictures. rewrite Rd, Rs, Rh, omap_app. cbn.
  assert (outcome_of answer = Decoded None \/ outcome_of answer = Oversized \/ outcome_of answer = Failed \/ exists p, answer = inr (Some p)) as [->|[->|[->|[p ->]]]]
    by (destruct answer as [[]|[]]; eauto).
  1-3: rewrite app_nil_r; split_and!; (done || congruence). cbn. destruct (Dp p eq_refl) as [Hpw _]. rewrite Hm in Hpw. split_and!; [congruence| |by apply within_bounds_push|].
  - destruct (make_room_spec (rc_held r) (frame_bytes p) _ eq_refl) as (n & -> & _). rewrite app_assoc. apply sublist_app; [|done]. etrans; [|exact Hs].
    apply sublist_app; [done|]. apply sublist_drop.
  - apply Forall_app. by split; [|apply Forall_singleton].
Qed.
Lemma turn_in_order m fuel : bounded_size m -> forall os r polled playout watched r', in_order m os r -> receive_turn fuel polled playout watched r = Some r' ->
  in_order m (os ++ turn_outcomes fuel polled r) r'.
Proof.
  intros Hb os r polled playout watched r' Hi Ht. destruct (receive_turn_show _ _ _ _ _ _ Ht) as [Hs|(-> & _ & ->)]; [|by rewrite app_nil_r].
  apply (show_in_order _ _ playout watched (before_show fuel polled r)); [|done]. destruct polled; cbn; [by rewrite app_nil_r|by apply unit_in_order|done].
Qed.
End receiving.

(** *** Asking for a keyframe *)

(** A failure that no decoded unit has followed. *)
Definition failing (os : list Outcome) : Prop :=
  exists j, os !! j = Some Failed /\ forall k p, (j < k)%nat -> os !! k <> Some (Decoded p).
(** The failures a keyframe is asked for: those not already failing. *)
Definition asked_at (os : list Outcome) (i : nat) : Prop := os !! i = Some Failed /\ ~ failing (take i os).

Lemma lookup_snoc_cases {A} (l : list A) x i y : (l ++ [x]) !! i = Some y <-> l !! i = Some y \/ (i = length l /\ x = y).
Proof.
  rewrite lookup_snoc_Some. split; [intros [[_ ?]|[? ?]]; [by left|by right]|].
  intros [H|[-> ->]]; [left; split; [by apply lookup_lt_Some in H|done]|by right].
Qed.
Lemma failing_nil : ~ failing [].
Proof. by intros (j & ? & _). Qed.
Lemma failing_snoc os o : failing (os ++ [o]) <-> match o with Decoded _ => False | Oversized => failing os | Failed => True end.
Proof.
  assert (forall p, ~ failing (os ++ [Decoded p])) as Hd.
  { intros p (j & [Hj|[_ [=]]]%lookup_snoc_cases & Hk). apply (Hk (length os) p); [by apply lookup_lt_Some in Hj|]. apply lookup_snoc_cases. by right. }
  destruct o; [split; [apply Hd|done]| |]; split.
  - intros (j & [Hj|[_ [=]]]%lookup_snoc_cases & Hk). exists j. split; [done|]. intros k p Hjk H. apply (Hk k p Hjk), lookup_snoc_cases. by left.
  - intros (j & Hj & Hk). exists j. split; [apply lookup_snoc_cases; by left|]. intros k p Hjk [H|[_ [=]]]%lookup_snoc_cases. by apply (Hk k p).
  - done.
  - intros _. exists (length os). split; [apply lookup_snoc_cases; by right|]. intros k p Hk [H%lookup_lt_Some|[_ [=]]]%lookup_snoc_cases. lia.
Qed.
Lemma asked_at_snoc os o i : asked_at (os ++ [o]) i <-> asked_at os i \/ (i = length os /\ o = Failed /\ ~ failing os).
Proof.
  unfold asked_at. rewrite lookup_snoc_cases. split.
  - intros [[H|[-> ->]] Hn]; [left|right]; [|by rewrite take_app_length in Hn]. pose proof (lookup_lt_Some _ _ _ H). rewrite take_app_le in Hn by lia. done.
  - intros [[H Hn]|(-> & -> & Hn)]; [|by rewrite take_app_length; split; [right|]]. pose proof (lookup_lt_Some _ _ _ H). rewrite take_app_le by lia. split; [by left|done].
Qed.

Section asking.
Context {Ctx : Type} {ffmpeg : Ffmpeg Ctx}.
Definition asks_ok (os : list Outcome) (r : @Receiving Ctx) : Prop :=
  (rc_asked r = true <-> failing os) /\ exists l, NoDup l /\ length l = rc_asks r /\ forall i, i ∈ l <-> asked_at os i.
Lemma unit_asks os fuel unit r : asks_ok os r -> asks_ok (os ++ turn_outcomes fuel (AUnit unit) r) (receive_unit fuel unit r).
Proof.
  intros (Ha & l & Hl1 & Hl2 & Hl3). pose proof (receive_unit_spec fuel unit r) as Hr. cbn. destruct (decode _ _ _ _) as [answer d]. destruct Hr as (_ & _ & _ & Ra & Rn). cbn [fst].
  unfold asks_ok. rewrite failing_snoc, Ra, Rn. destruct (outcome_of answer) eqn:Eo.
  - split; [done|]. exists l. split_and!; [done..|]. intros i. rewrite asked_at_snoc, Hl3. naive_solver.
  - split; [done|]. exists l. split_and!; [done..|]. intros i. rewrite asked_at_snoc, Hl3. naive_solver.
  - split; [done|]. destruct (rc_asked r).
    + exists l. split_and!; [done..|]. intros i. rewrite asked_at_snoc, Hl3. naive_solver.
    + exists (length os :: l). split_and!; [constructor; [|done]|cbn; congruence|].
      * rewrite Hl3. intros [H%lookup_lt_Some _]. lia.
      * intros i. rewrite elem_of_cons, asked_at_snoc, Hl3. naive_solver.
Qed.
Lemma turn_asks fuel os (r : @Receiving Ctx) polled playout watched r' : asks_ok os r -> receive_turn fuel polled playout watched r = Some r' ->
  asks_ok (os ++ turn_outcomes fuel polled r) r'.
Proof.
  intros Hi Ht. assert (asks_ok (os ++ turn_outcomes fuel polled r) (before_show fuel polled r)) as Hb.
  { destruct polled; cbn; [by rewrite app_nil_r|by apply unit_asks|by rewrite app_nil_r]. }
  destruct (receive_turn_show _ _ _ _ _ _ Ht) as [(due & _ & _ & Ea & En & _)%show_due_spec|(-> & _ & ->)]; [|by rewrite app_nil_r].
  unfold asks_ok. by rewrite Ea, En.
Qed.
End asking.

(** ** What is held has not been heard yet *)

Lemma frame_due_ahead heard frame : is_u32 heard -> is_u32 frame ->
  frame_due heard frame = false <-> exists ahead, 0 < ahead <= MAX_HOLD /\ frame = wrap32 (heard + ahead).
Proof.
  intros Hh Hf. unfold frame_due. rewrite orb_false_iff, negb_false_iff, (timestamp_before_spec heard frame) by done. change MAX_HOLD with 45000.
  unfold is_u32, u32_max, wrap32 in *. rewrite Z.ltb_ge. split.
  - intros [(d & Hd & ->) Hm]. exists d. split; [|done]. rewrite Zminus_mod_idemp_l in Hm. replace (heard + d - heard) with d in Hm by lia. rewrite Z.mod_small in Hm by lia. lia.
  - intros (d & Hd & ->). split; [exists d; lia|]. rewrite Zminus_mod_idemp_l. replace (heard + d - heard) with d by lia. rewrite Z.mod_small by lia. lia.
Qed.
Lemma due_frames_spec held heard : (forall h, heard = Some h -> is_u32 h) -> Forall is_u32 held ->
  match heard with
  | None => drop (due_frames held None) held = []
  | Some h => Forall (fun f => ~ exists ahead, 0 < ahead <= MAX_HOLD /\ f = wrap32 (audio_to_video h + ahead)) (take (due_frames held heard) held) /\
      forall f, head (drop (due_frames held heard) held) = Some f -> exists ahead, 0 < ahead <= MAX_HOLD /\ f = wrap32 (audio_to_video h + ahead)
  end.
Proof.
  intros Hh Hf. destruct heard as [h|]; [|by apply drop_ge]. unfold due_frames. cbn.
  assert (is_u32 (audio_to_video h)) as Hv. { unfold audio_to_video, wrap32, is_u32, u32_max. pose proof (Z.mod_pos_bound (h * VIDEO_CLOCK_HZ / AUDIO_CLOCK_HZ) 4294967296 ltac:(done)). lia. }
  destruct (count_while_spec (frame_due (audio_to_video h)) held) as (H1 & H2 & _). split.
  - rewrite list.Forall_forall in *. intros f Hin. rewrite <- frame_due_ahead; [by rewrite (H1 f Hin)|done|]. apply Hf.
    by apply (elem_of_sublist (take (count_while (frame_due (audio_to_video h)) held) held)); [|apply sublist_take].
  - intros f Hd. apply frame_due_ahead; [done| |by apply H2]. rewrite list.Forall_forall in Hf. apply Hf. apply head_Some_elem_of in Hd.
    by apply (elem_of_sublist (drop (count_while (frame_due (audio_to_video h)) held) held)); [|apply sublist_drop].
Qed.

Section waiting.
Context {Ctx : Type} {ffmpeg : Ffmpeg Ctx} {transfer : TransferKeepsSize ffmpeg}.
Definition stamped (polled : Polled) : Prop := match polled with AUnit unit => is_u32 (rv_timestamp unit) | _ => True end.
Definition held_stamped (r : @Receiving Ctx) : Prop := bounded_size (de_max_size (rc_decoder r)) /\ Forall (fun p => is_u32 (vf_timestamp p)) (rc_held r).
Lemma before_show_stamped fuel polled r : held_stamped r -> stamped polled -> held_stamped (before_show fuel polled r).
Proof.
  intros [Hb Hf] Hp. destruct polled as [|unit|]; cbn; [done| |done]. pose proof (receive_unit_spec fuel unit r) as Hr. destruct (decode _ _ _ _) as [answer d] eqn:E.
  destruct (decode_spec _ _ _ _ _ _ E Hb) as (Dm & _ & _ & Dp). destruct Hr as (Rd & _ & Rh & _). split; [by rewrite Rd, Dm|]. rewrite Rh.
  destruct answer as [[]|[p|]]; cbn; try done. apply Forall_app. split; [|apply Forall_singleton; destruct (Dp p eq_refl) as [_ ->]; exact Hp].
  destruct (make_room_spec (rc_held r) (frame_bytes p) _ eq_refl) as (n & -> & _). by apply Forall_drop.
Qed.
Lemma turn_stamped fuel polled playout watched r r' : held_stamped r -> stamped polled -> receive_turn fuel polled playout watched r = Some r' -> held_stamped r'.
Proof.
  intros Hr Hp Ht. pose proof (before_show_stamped fuel polled r Hr Hp) as [Bb Bf]. destruct (receive_turn_show _ _ _ _ _ _ Ht) as [(due & Eh & Ed & _)%show_due_spec|(-> & _)]; [|done].
  split; [by rewrite Ed|]. rewrite Eh. by apply Forall_drop.
Qed.
Lemma run_stamped fuel turns r os r' : held_stamped r -> Forall (fun '(polled, _, _) => stamped polled) turns -> receive_run fuel turns r = (os, r') -> held_stamped r'.
Proof.
  revert r os. induction turns as [|[[polled playout] watched] turns IH]; intros r os Hr Hf; cbn; [by intros [= _ <-]|]. inversion_clear Hf as [|? ? Hp Hf'].
  destruct (receive_turn _ _ _ _ _) as [r1|] eqn:E; [|by intros [= _ <-]]. destruct (receive_run fuel turns r1) as [os1 r2] eqn:E2. intros [= _ <-].
  eapply IH; [|done|exact E2]. by eapply turn_stamped.
Qed.
Lemma start_state p config r : receive_start p config = inr r ->
  de_max_size (rc_decoder r) = max_size config /\ rc_held r = [] /\ rc_shown r = [] /\ rc_asked r = false /\ rc_asks r = 0%nat.
Proof.
  unfold receive_start. destruct (decoder_new p (sc_codec config) (max_size config)) as [e|d] eqn:E; [done|]. intros [= <-]. cbn. split_and!; try done. by eapply (decoder_new_spec _ _ _ _ E).
Qed.
Lemma max_size_bounded config : bounded_size (max_size config).
Proof. unfold bounded_size, max_size, max_size_new. cbn. lia. Qed.
End waiting.

(** C27: a receiver shows the pictures its units decode to in their order, none twice, and
    holds back at most 32 of them and 256 MiB, all within the size the share announced plus
    the padding and 4096 a side, whatever the units and the audio are. *)
Theorem pictures_are_shown_in_order_and_held_within_bounds {Ctx : Type} {ffmpeg : Ffmpeg Ctx} {transfer : TransferKeepsSize ffmpeg}
    (p : Platform) (config : ShareConfig) (fuel : nat) (turns : list (Polled * option Playout * bool)) (start r : @Receiving Ctx) os :
  receive_start p config = inr start -> receive_run fuel turns start = (os, r) ->
  (rc_shown r ++ rc_held r) `sublist_of` (pictures os) /\ (length (rc_held r) <= 32)%nat /\ held_bytes (rc_held r) <= 268435456 /\
  forall picture, picture ∈ pictures os -> picture_within (max_size config) picture /\ vf_width picture <= Z.min (sc_width config + 64) 4096 /\
    vf_height picture <= Z.min (sc_height config + 64) 4096.
Proof.
  intros (Hm & Hh & Hs & _)%start_state Hrun.
  assert (in_order (max_size config) [] start) as Hi by (unfold in_order, within_bounds; rewrite Hh, Hs; split_and!; (done || (by apply Forall_nil) || (cbn; unfold MAX_HELD; lia))).
  destruct (receive_run_ind (in_order (max_size config)) fuel (turn_in_order _ fuel (max_size_bounded config)) turns [] start os r Hi Hrun) as (_ & H1 & (H2 & H3 & _) & H4).
  split_and!; [done|done|done|]. rewrite list.Forall_forall in H4. intros q Hq. specialize (H4 q Hq). split; [done|]. destruct H4 as (Hw & Hht & _). cbn in Hw, Hht. unfold MAX_SIDE, DECODER_PADDING in *. lia.
Qed.

(** A receiver asks for an IDR once for every run of failed units: exactly at the failures
    before which no failure is still unanswered by a decoded unit.  A picture too large is
    not one of them and ends none. *)
Theorem a_keyframe_is_asked_for_once_per_failure {Ctx : Type} {ffmpeg : Ffmpeg Ctx}
    (p : Platform) (config : ShareConfig) (fuel : nat) (turns : list (Polled * option Playout * bool)) (start r : @Receiving Ctx) os :
  receive_start p config = inr start -> receive_run fuel turns start = (os, r) ->
  exists asks, NoDup asks /\ length asks = rc_asks r /\ forall i, i ∈ asks <-> asked_at os i.
Proof.
  intros (_ & _ & _ & Ha & Hn)%start_state Hrun. assert (asks_ok [] start) as Hi.
  { split; [rewrite Ha; split; [done|by intros ?%failing_nil]|]. exists []. rewrite Hn. split_and!; [constructor|done|]. intros i. split; [by intros ?%not_elem_of_nil|by intros [? _]]. }
  destruct (receive_run_ind asks_ok fuel (fun os r polled playout watched r' => turn_asks fuel os r polled playout watched r') turns [] start os r Hi Hrun) as [_ H]. exact H.
Qed.

(** C28: a turn lets go of the oldest pictures held, among them the one its unit decoded to,
    and shows the newest of those.  While a share's sound is heard they are the longest run
    of which none is ahead of the sound by up to half a second: what is left begins with a
    picture that is, and those behind it wait for it.  Without sound no picture waits. *)
Theorem pictures_wait_for_their_sound {Ctx : Type} {ffmpeg : Ffmpeg Ctx} {transfer : TransferKeepsSize ffmpeg}
    (p : Platform) (config : ShareConfig) (fuel : nat) (turns : list (Polled * option Playout * bool)) (start r r' : @Receiving Ctx) os
    (polled : Polled) (heard : option Z) (watched : bool) :
  receive_start p config = inr start -> Forall (fun '(polled, _, _) => stamped polled) turns -> stamped polled -> (forall h, heard = Some h -> is_u32 h) ->
  receive_run fuel turns start = (os, r) -> receive_turn fuel polled (Some (playout_set heard)) watched r = Some r' ->
  let waits h picture := exists ahead, 0 < ahead <= 45000 /\ vf_timestamp picture = wrap32 (audio_to_video h + ahead) in
  let held := match polled with AUnit unit => rc_held (receive_unit fuel unit r) | _ => rc_held r end in
  exists gone, held = gone ++ rc_held r' /\ rc_shown r' = rc_shown r ++ option_list (list.last gone) /\
    match heard with
    | Some h => Forall (fun picture => ~ waits h picture) gone /\ forall oldest, head (rc_held r') = Some oldest -> waits h oldest
    | None => rc_held r' = []
    end.
Proof.
  intros (Hm & Hh & Hs & _)%start_state Hf Hp Hheard Hrun Ht. cbn zeta.
  assert (held_stamped start) as H0 by (unfold held_stamped; rewrite Hm, Hh; split; [apply max_size_bounded|constructor]).
  pose proof (before_show_stamped fuel polled r (run_stamped fuel turns start os r H0 Hf Hrun) Hp) as [_ Hb].
  assert (rc_shown (before_show fuel polled r) = rc_shown r) as Hsh.
  { destruct polled as [|unit|]; [done| |done]. pose proof (receive_unit_spec fuel unit r) as Hr. cbn. destruct (decode _ _ _ _). apply Hr. }
  assert (match polled with AUnit unit => rc_held (receive_unit fuel unit r) | _ => rc_held r end = rc_held (before_show fuel polled r)) as -> by (by destruct polled).
  destruct (receive_turn_show _ _ _ _ _ _ Ht) as [(due & Eh & _ & _ & _ & Edue & Esh)%show_due_spec|(-> & E & Eo)].
  2: { exists []. destruct polled; [|done..]. cbn. rewrite E. split_and!; [done|by rewrite app_nil_r|by destruct heard; [split|]]. }
  cbn in Edue. set (held := rc_held (before_show fuel polled r)) in *. clearbody held. exists (take due held).
  split; [by rewrite Eh, take_drop|]. split; [by rewrite Esh, Hsh|]. rewrite Eh. clear Ht Eh Esh.
  assert (playout_heard (playout_set heard) = heard) as Eheard.
  { destruct heard as [h|]; [|done]. unfold playout_heard, playout_set. cbn. rewrite (proj2 (Z.leb_le _ _)); [done|]. apply (Hheard h eq_refl). }
  rewrite Eheard in Edue. pose proof (due_frames_spec (vf_timestamp <$> held) heard Hheard ltac:(by apply Forall_fmap)) as Hd.
  destruct heard as [h|].
  - rewrite <- Edue in Hd. rewrite <- fmap_take, <- fmap_drop in Hd. destruct Hd as [Hd1 Hd2]. rewrite Forall_fmap in Hd1. split; [done|].
    intros q Hq. apply Hd2. by destruct (drop due held); [|injection Hq as ->].
  - rewrite <- Edue, <- fmap_drop in Hd. by destruct (drop due held).
Qed.

(** ** One share received *)

Definition a_share : ShareConfig := mkShareConfig true 4000 Vp9 4 2 30.
Definition a_start : @Receiving Slot := mkReceiving (mkDecoder (mkSlot true None None) Vp9 true "VA-API"%string (max_size a_share)) [] false 0 "VA-API"%string [] 0.
Definition a_unit (columns : list Z) (ts : Z) : Polled := AUnit (mkReceivedUnit ts 0 columns).
(** A picture that waits for its sound, one too large, and a bad format that asks for a keyframe once. *)
Definition some_turns : list (Polled * option Playout * bool) :=
  [(a_unit [4] 1000, Some (playout_set (Some 0)), true); (a_unit [100] 1001, Some (playout_set (Some 0)), true);
   (a_unit [4] 3000, Some (playout_set (Some 800)), true)].
Definition a_picture (ts : Z) : VideoFrame := mkFrame 4 2 (replicate 8 7) (replicate 4 7) ts.
Definition a_run := @receive_run Slot slot_ffmpeg 3 some_turns a_start.
Definition a_end : @Receiving Slot :=
  mkReceiving (rc_decoder a_start) [a_picture 3000] false 1 "VA-API"%string [a_picture 1000] 0.
Lemma a_start_eq : @receive_start Slot slot_ffmpeg Linux a_share = inr a_start.
Proof. by vm_compute. Qed.
Lemma a_run_eq : a_run = ([Decoded (Some (a_picture 1000)); Oversized; Decoded (Some (a_picture 3000))], a_end).
Proof. by vm_compute. Qed.
Lemma pictures_are_shown_in_order_and_held_within_bounds_witness : @receive_start Slot slot_ffmpeg Linux a_share = inr a_start /\
  rc_shown a_run.2 ++ rc_held a_run.2 = [a_picture 1000; a_picture 3000] /\ held_bytes (rc_held a_run.2) <= 268435456.
Proof.
  split; [exact a_start_eq|]. rewrite a_run_eq. split; [done|].
  by apply (@pictures_are_shown_in_order_and_held_within_bounds Slot slot_ffmpeg slot_transfer Linux a_share 3 some_turns _ _ _ a_start_eq a_run_eq).
Defined.
(** The device gives way to software, then units fail to be decoded for want of a format. *)
Definition odd_ffmpeg : Ffmpeg Slot := {|
  raw_error e := match e with OtherError code => Some code | _ => None end; AVERROR_INVALIDDATA := -5;
  find_encoder _ := false; create_device _ := None; make_pool _ _ := None; encoder_context _ _ := mkSlot false None None;
  opt_set _ _ ctx := (None, ctx); open_context ctx := (None, ctx); alloc_buffer _ _ _ := inl DecoderDrainError; scaler_exists _ _ _ := false;
  scale_frame _ scaled := inr scaled; get_surface ctx := (None, ctx); hwframe_upload frame _ := inr frame; send_frame _ ctx := (None, ctx);
  receive_packet ctx := (inl EncoderDrainError, ctx); find_decoder _ := true; hw_configs _ := []; decoder_context _ _ _ := (None, mkSlot false None None);
  new_packet _ := true; send_packet unit _ ctx := match unit with [] => (Some (OtherError (-5)), ctx) | _ => (None, ctx) end;
  receive_frame ctx := (inl DecoderDrainError, ctx); in_gpu_memory _ := false; hwframe_transfer f := inr f
|}.
Definition odd_start : @Receiving Slot := mkReceiving (mkDecoder (mkSlot false None None) Vp9 false "FFmpeg (software)"%string (max_size a_share)) [] false 0 "FFmpeg (software)"%string [] 0.
Definition odd_turns : list (Polled * option Playout * bool) :=
  (fun unit => (a_unit unit 5, None, true)) <$> [[]; []; [1]; []].
Lemma odd_start_eq : @receive_start Slot odd_ffmpeg Linux a_share = inr odd_start.
Proof. by vm_compute. Qed.
Lemma odd_run_eq : @receive_run Slot odd_ffmpeg 1 odd_turns odd_start =
  ([Failed; Failed; Decoded None; Failed], mkReceiving (rc_decoder odd_start) [] true 0 "FFmpeg (software)"%string [] 2).
Proof. by vm_compute. Qed.
Lemma a_keyframe_is_asked_for_once_per_failure_witness : exists asks : list nat, length asks = 2%nat /\
  forall i, i ∈ asks <-> asked_at [Failed; Failed; Decoded None; Failed] i.
Proof.
  destruct (@a_keyframe_is_asked_for_once_per_failure Slot odd_ffmpeg Linux a_share 1 odd_turns _ _ _ odd_start_eq odd_run_eq) as (asks & _ & H1 & H2).
  exists asks. split; [exact H1|exact H2].
Defined.
Lemma some_turns_stamped : Forall (fun '(polled, _, _) => stamped polled) some_turns.
Proof. repeat (constructor; [cbn; unfold is_u32, u32_max; lia|]). constructor. Qed.
Lemma a_turn_eq : @receive_turn Slot slot_ffmpeg 3 NoUnit (Some (playout_set (Some 1600))) true a_end =
  Some (mkReceiving (rc_decoder a_end) [] false 1 "VA-API"%string [a_picture 1000; a_picture 3000] 0).
Proof. by vm_compute. Qed.
Lemma pictures_wait_for_their_sound_witness : rc_held a_end = [a_picture 3000] /\ exists gone,
  [a_picture 3000] = gone ++ [] /\ [a_picture 1000; a_picture 3000] = [a_picture 1000] ++ option_list (list.last gone) /\
  Forall (fun picture => ~ exists ahead, 0 < ahead <= 45000 /\ vf_timestamp picture = wrap32 (audio_to_video 1600 + ahead)) gone.
Proof.
  split; [done|].
  destruct (@pictures_wait_for_their_sound Slot slot_ffmpeg slot_transfer Linux a_share 3 some_turns _ _ _ _ NoUnit (Some 1600) true a_start_eq
    some_turns_stamped I ltac:(by intros h [= <-]) a_run_eq a_turn_eq) as (gone & H1 & H2 & H3 & _).
  exists gone. split_and!; [exact H1|exact H2|exact H3].
Defined.
Lemma recoveries_are_spaced_and_none_is_lost_witness :
  pacer_run ([Ask Refresh; Due 0] ++ Ask Idr :: [Due 500; Ask Refresh]) pacer_default = ([(0, Refresh)], mkPacer (Some Idr) (Some 0)) /\
  exists stronger, pacer_due 1000 (mkPacer (Some Idr) (Some 0)) = (Some stronger, mkPacer None (Some 1000)) /\ stronger = Idr.
Proof.
  split; [done|]. pose proof (recoveries_are_spaced_and_none_is_lost [Ask Refresh; Due 0] [Due 500; Ask Refresh] Idr 1000) as H.
  change (pacer_run ([Ask Refresh; Due 0] ++ _) pacer_default) with ([(0, Refresh)], mkPacer (Some Idr) (Some 0)) in H. destruct H as [_ H].
  destruct (H eq_refl) as (stronger & H1 & H2); [intros t k [= <- <-]; lia|]. exists stronger. split; [exact H1|by apply H2].
Defined.
