(* ===== verification/SessionState.v ===== *)
(** * The state of a client's session (throcc-client-core, session.rs, client.rs, cues.rs, profile.rs)

    What the session task holds, what it tells the world around it, and its functions that
    hold no state.  The world's answers are the class [Outside]: a reading has a number, so no
    two readings have to agree.  What the session does to the engine, the audio thread, the
    windows and the server is appended to [se_out], in order. *)
From Stdlib Require Import SpecFloat.
From stdpp Require Import pretty.
From S2P Require Import Prelude Float64 Ids Messages Fingerprint JsonFile People Verified Trust Floors Servers KeysState Fragment Engine ClientState.
Open Scope Z_scope.

(** ** Cues, commands and events *)

(* @src/crates/throcc-client-core/src/media/cues.rs 6-21 Cue *)
Inductive Cue := CueJoin | CueLeave | CueMute | CueUnmute | CueDeafen | CueUndeafen | CueConnectionLost | CueReconnected
  | CueStreamStart | CueStreamStop | CueStreamJoin | CueStreamLeave.

(* @src/crates/throcc-client-core/src/profile.rs 6-12 Profile *)
Record Profile := mkProfile { my_name : str; my_picture : option bytes }.
(* @src/crates/throcc-client-core/src/profile.rs 15-17 Profile::avatar *)
Definition profile_avatar (sha256 : bytes -> bytes) (p : Profile) : option Hash := hash_of sha256 <$> my_picture p.

(* @src/crates/throcc-client-core/src/client.rs 29-89 UiCommand *)
Inductive UiCommand :=
| UiJoin (room : option RoomId)
| UiJoinWithPassword (room : RoomId) (password : str)
| UiSetMic (on : bool)
| UiSetDeafened (deafened : bool)
| UiStartShare (config : ShareConfig)
| UiStopShare
| UiWatch (user : UserId)
| UiUnwatch (user : UserId)
| UiSetSoundLevel (user : UserId) (sound : Sound) (level : SoundLevel)
| UiSetProfile (profile : Profile)
| UiSetServerProfile (name : option (option str)) (picture : option (option bytes))
| UiFetchAvatar (hash : Hash)
| UiCreateRoom (name : str) (password : option str)
| UiRenameRoom (room : RoomId) (name : str)
| UiSetRoomPassword (room : RoomId) (password : option str)
| UiDeleteRoom (room : RoomId)
| UiCreateInvite
| UiListUsers
| UiSetRole (user : UserId) (role : Role)
| UiKickFromRoom (user : UserId) (room : RoomId)
| UiRemoveUser (user : UserId) (cascade : bool)
| UiSetVerified (user : UserId) (key : bytes) (verified : bool)
| UiDismissKeyChange (user : UserId) (shown : option bytes)
| UiVerifiedChanged
| UiLeaveServer
| UiDisconnect.

(* @src/crates/throcc-client-core/src/client.rs 91-116 UiEvent *)
Inductive UiEvent :=
| EvState (s : State)
| EvInvite (code : str) (expires : Z)
| EvUsers (users : list UserEntry)
| EvNotice (text : str)
| EvRemovedFromServer (reason : str)
| EvAvatarReady (hash : Hash)
| EvProfileSaved
| EvProfileRefused (reason : str)
| EvServerProfileSaved
| EvServerProfileRefused (reason : str)
| EvPasswordRefused (reason : str)
| EvLeftServer.

(** The engine and the channels a command carries go without saying. *)
(* @src/crates/throcc-client-core/src/media/voice.rs 30-53 CallCommand *)
Inductive CallCommand :=
| CmSendOn (mic : option MediaId)
| CmMuted (muted : bool)
| CmDeafened (deafened : bool)
| CmVolume (user : UserId) (gain : f32)
| CmShareVolume (user : UserId) (gain : f32)
| CmListen (user : UserId)
| CmForget (user : UserId)
| CmListenShare (user : UserId)
| CmForgetShare (user : UserId)
| CmForgetAll.

(* @src/crates/throcc-client-core/src/call.rs 19-23 CallEvent *)
Inductive CallEvent := FromServer (e : Event) | FromKeys (n : KeyNotice).

(** What the session does: requests, commands to the call's audio, cues, what the windows are
    told, and calls into the engine, the files, the capture and the connection. *)
Inductive Out :=
| Asked (r : Request)
| Audio (c : CallCommand)
| Cued (c : Cue)
| Told (e : UiEvent)
| Subscribed (media_id : MediaId) (kind : Kind) (capacity : Z)
| Unsubscribed (media_id : MediaId)
| Placed (p : Placement)
| FloorsSaved
| CaptureStarted (number : Z) (wanted : ShareConfig)
| ShareDropped
| ShareRecovered (kind : Recovery)
| AvatarFetched (hash : Hash)
| EncryptionReplaced
| ConnectionClosed
| AudioRenewed
| Waiting (backoff : Z).

(** ** The world around a session *)

(** [os_room_peers] is what the engine's key manager answers, which another task changes, and
    [os_notices] what it has to say of a placement;
    [os_others] is what other sessions and processes did to the verified keys and the people's
    file since the last reading, [os_servers] to the servers' file; [os_written] tells whether a
    file can be written, [os_error] what the error says, [os_decodes] why no decoder starts. *)
Class Outside := {
  os_answer : nat -> Request -> Response + str;
  os_room_peers : nat -> list Peer;
  os_notices : nat -> list KeyNotice;
  os_others : nat -> VerifiedKeys * option People -> VerifiedKeys * option People;
  os_servers : nat -> option Servers -> option Servers;
  os_written : nat -> bool;
  os_note_written : nat -> UserId -> PublicKey -> bool;
  os_error : nat -> str;
  os_now : nat -> Z;
  os_arrived : nat -> MediaId -> Arrived;
  os_sent_bytes : nat -> MediaId -> Z;
  os_decodes : nat -> option str;
  os_decoder_name : nat -> str;
  os_closed : nat -> bool;
  os_removed : nat -> bool;
  sha256 : bytes -> bytes
}.

(** ** The session *)

#[export] Instance look_eq_dec : EqDecision ServerLook.
Proof. solve_decision. Defined.
#[export] Program Instance sound_countable : Countable Sound :=
  inj_countable' (fun s => bool_decide (s = Voice)) (fun b : bool => if b then Voice else Share) _.
Next Obligation. by intros []. Qed.

(** [dec] tells whether a decoder runs. *)
(* @src/crates/throcc-client-core/src/session.rs 188-196 Carries *)
Inductive Carries := CarriesMic | CarriesShareAudio | CarriesShareVideo (config : ShareConfig) (dec : bool).

(* @src/crates/throcc-client-core/src/session.rs 166-175 Watched *)
Record Watched := mkWatched {
  wd_user : UserId; wd_carries : Carries; wd_last_bytes : Z; wd_last_received : Z; wd_last_lost : Z;
  wd_dropped_this : bool; wd_dropped_last : bool
}.

(* @src/crates/throcc-client-core/src/session.rs 321-326 WatchedShare *)
Record WatchedShare := mkWatchedShare { ws_video : MediaId; ws_audio : option MediaId; ws_config : ShareConfig }.

(* @src/crates/throcc-client-core/src/session.rs 328-337 LastCounts *)
Record LastCounts := mkLast { lc_sent : Z; lc_lost_sent : Z; lc_local_drops : Z; lc_sent_bytes : gmap MediaId Z; lc_udp_received : Z; lc_udp_sent : Z }.
Definition last_default : LastCounts := mkLast 0 0 0 ∅ 0 0.

(** [Shared], the session task's [Session] with what its [call] says of us and the server, the
    stores it shares with others, its readings and its output.  [se_wanted] and [se_starts] are
    those of [ShareStarts], [se_sharing] the running sender's config and engine. *)
(* @src/crates/throcc-client-core/src/session.rs 227-264 Session *)
Record Session := mkSession {
  se_state : State; se_avatars : gmap bytes AvatarSlot; se_pictures : gset UserId; se_preview : option UserId;
  se_audio : bool; se_address : str; se_me : UserId; se_server : bytes;
  se_room : option RoomId; se_my_tracks : option Tracks; se_media : MediaState; se_server_share : option ShareConfig;
  se_peers : gmap UserId Peer; se_trust : Trust; se_watching : list UserId; se_audiences : Audiences;
  se_last_cue : option Z; se_watched : gmap UserId WatchedShare; se_mic_before : bool;
  se_profile : Profile; se_server_profile : UserProfile; se_saved : SavedPlayback; se_unkeyed : gmap (UserId * Sound) SoundLevel;
  se_look : ServerLook; se_sharing : option (ShareConfig * str); se_wanted : option Z; se_starts : Z;
  se_tracks : gmap MediaId Watched; se_dropped : Z; se_last : LastCounts;
  se_store : VerifiedKeys; se_people : option People; se_known : KnownServers; se_servers : option Servers;
  se_reads : nat; se_out : list Out
}.

Definition session_fields (s : Session) : Session :=
  mkSession (se_state s) (se_avatars s) (se_pictures s) (se_preview s) (se_audio s) (se_address s) (se_me s) (se_server s)
    (se_room s) (se_my_tracks s) (se_media s) (se_server_share s) (se_peers s) (se_trust s) (se_watching s) (se_audiences s)
    (se_last_cue s) (se_watched s) (se_mic_before s) (se_profile s) (se_server_profile s) (se_saved s) (se_unkeyed s)
    (se_look s) (se_sharing s) (se_wanted s) (se_starts s) (se_tracks s) (se_dropped s) (se_last s)
    (se_store s) (se_people s) (se_known s) (se_servers s) (se_reads s) (se_out s).

#[export] Instance fld_state : Setter se_state.
Proof. setter_of session_fields. Defined.
#[export] Instance fld_avatars : Setter se_avatars.
Proof. setter_of session_fields. Defined.
#[export] Instance fld_pictures : Setter se_pictures.
Proof. setter_of session_fields. Defined.
#[export] Instance fld_preview : Setter se_preview.
Proof. setter_of session_fields. Defined.
#[export] Instance fld_audio : Setter se_audio.
Proof. setter_of session_fields. Defined.
#[export] Instance fld_address : Setter se_address.
Proof. setter_of session_fields. Defined.
#[export] Instance fld_me : Setter se_me.
Proof. setter_of session_fields. Defined.
#[export] Instance fld_server : Setter se_server.
Proof. setter_of session_fields. Defined.
#[export] Instance fld_room : Setter se_room.
Proof. setter_of session_fields. Defined.
#[export] Instance fld_my_tracks : Setter se_my_tracks.
Proof. setter_of session_fields. Defined.
#[export] Instance fld_media : Setter se_media.
Proof. setter_of session_fields. Defined.
#[export] Instance fld_server_share : Setter se_server_share.
Proof. setter_of session_fields. Defined.
#[export] Instance fld_peers : Setter se_peers.
Proof. setter_of session_fields. Defined.
#[export] Instance fld_trust : Setter se_trust.
Proof. setter_of session_fields. Defined.
#[export] Instance fld_watching : Setter se_watching.
Proof. setter_of session_fields. Defined.
#[export] Instance fld_audiences : Setter se_audiences.
Proof. setter_of session_fields. Defined.
#[export] Instance fld_last_cue : Setter se_last_cue.
Proof. setter_of session_fields. Defined.
#[export] Instance fld_watched : Setter se_watched.
Proof. setter_of session_fields. Defined.
#[export] Instance fld_mic_before : Setter se_mic_before.
Proof. setter_of session_fields. Defined.
#[export] Instance fld_profile : Setter se_profile.
Proof. setter_of session_fields. Defined.
#[export] Instance fld_server_profile : Setter se_server_profile.
Proof. setter_of session_fields. Defined.
#[export] Instance fld_saved : Setter se_saved.
Proof. setter_of session_fields. Defined.
#[export] Instance fld_unkeyed : Setter se_unkeyed.
Proof. setter_of session_fields. Defined.
#[export] Instance fld_look : Setter se_look.
Proof. setter_of session_fields. Defined.
#[export] Instance fld_sharing : Setter se_sharing.
Proof. setter_of session_fields. Defined.
#[export] Instance fld_wanted : Setter se_wanted.
Proof. setter_of session_fields. Defined.
#[export] Instance fld_starts : Setter se_starts.
Proof. setter_of session_fields. Defined.
#[export] Instance fld_tracks : Setter se_tracks.
Proof. setter_of session_fields. Defined.
#[export] Instance fld_dropped : Setter se_dropped.
Proof. setter_of session_fields. Defined.
#[export] Instance fld_last : Setter se_last.
Proof. setter_of session_fields. Defined.
#[export] Instance fld_store : Setter se_store.
Proof. setter_of session_fields. Defined.
#[export] Instance fld_people : Setter se_people.
Proof. setter_of session_fields. Defined.
#[export] Instance fld_known : Setter se_known.
Proof. setter_of session_fields. Defined.
#[export] Instance fld_servers : Setter se_servers.
Proof. setter_of session_fields. Defined.
#[export] Instance fld_reads : Setter se_reads.
Proof. setter_of session_fields. Defined.
#[export] Instance fld_out : Setter se_out.
Proof. setter_of session_fields. Defined.

(** ** Constants *)

(** Durations are in milliseconds, the backoff in nanoseconds. *)
(* @src/crates/throcc-client-core/src/session.rs 44-44 HEALTH_EVERY *)
Definition HEALTH_EVERY : Z := 2000.
(* @src/crates/throcc-client-core/src/session.rs 45-46 AUDIENCE_CUE_GAP *)
Definition AUDIENCE_CUE_GAP : Z := 1000.
Definition ns : Z := 1000000000.
(* @src/crates/throcc-client-core/src/session.rs 47-47 MAX_BACKOFF *)
Definition MAX_BACKOFF : Z := 15 * ns.
(** The literal [0.3], correctly rounded like every quotient. *)
(* @src/crates/throcc-client-core/src/session.rs 48-50 BACKOFF_JITTER *)
Definition BACKOFF_JITTER : f64 := f64_div (f64_of_Z 3) (f64_of_Z 10).
(* @src/crates/throcc-client-core/src/session.rs 52-52 MAX_QUEUED_WHILE_RECONNECTING *)
Definition MAX_QUEUED_WHILE_RECONNECTING : Z := 64.

(** ** Functions that hold no state *)

(* @src/crates/throcc-client-core/src/session.rs 178-185 Watched::too_slow_this_refresh *)
Definition too_slow_this_refresh (w : Watched) : bool * Watched :=
  let dropped := wd_dropped_this w in
  (dropped && wd_dropped_last w, mkWatched (wd_user w) (wd_carries w) (wd_last_bytes w) (wd_last_received w) (wd_last_lost w) false dropped).

(* @src/crates/throcc-client-core/src/session.rs 199-205 Carries::label *)
Definition carries_label (c : Carries) : str := match c with CarriesMic => lit "mic" | CarriesShareAudio => lit "screen audio" | CarriesShareVideo _ _ => lit "screen" end.
(* @src/crates/throcc-client-core/src/session.rs 207-213 Carries::set_kbps *)
Definition carries_kbps (c : Carries) : Z := match c with CarriesMic => MIC_KBPS | CarriesShareAudio => SHARE_AUDIO_KBPS | CarriesShareVideo config _ => sc_kbps config end.
(** [name] is what the decoder says it is. *)
(* @src/crates/throcc-client-core/src/session.rs 215-224 Carries::detail *)
Definition carries_detail (name : str) (c : Carries) : str :=
  match c with
  | CarriesMic => VOICE_DETAIL
  | CarriesShareAudio => SHARE_AUDIO_DETAIL
  | CarriesShareVideo config dec => share_detail config (if dec then name else lit "not decoded")
  end.

(* @src/crates/throcc-client-core/src/session.rs 1919-1928 shown_users *)
Definition shown_users (users : list UserEntry) : list UserEntry :=
  (fun u => mkUserEntry (ue_id u) (person_name (ue_id u) (ue_name u)) (ue_role u) (ue_invited_by u) (ue_identity_key u) (ue_created_at u)) <$> users.

(* @src/crates/throcc-client-core/src/session.rs 1930-1946 person *)
Definition person (p : Presence) (playback : Playback) : Person :=
  mkPerson (person_name (pr_user p) (pr_name p)) (pr_avatar p) (pr_room p) (pr_mic p) (pr_deafened p) None 0 false playback false None (pr_role p).

(* @src/crates/throcc-client-core/src/control.rs 256-269 refusal *)
Definition control_refusal (response : Response) : str :=
  match response with
  | RespErr _ message => message
  | RespOk => lit "unexpected reply Ok"
  | RespPlacement _ => lit "unexpected reply Placement"
  | RespInvite _ _ => lit "unexpected reply Invite"
  | RespUsers _ => lit "unexpected reply Users"
  | RespAvatarHash _ => lit "unexpected reply AvatarHash"
  | RespAvatar _ => lit "unexpected reply Avatar"
  end.
(* @src/crates/throcc-client-core/src/session.rs 1948-1951 refusal *)
Definition refusal (response : Response + str) : str := match response with inl r => control_refusal r | inr e => e end.

(* @src/crates/throcc-client-core/src/session.rs 1953-1969 refuses_share_start *)
Definition refuses_share_start (response : Response + str) (sent on_server : option ShareConfig) : bool :=
  let refused := match response with inl (RespErr RateLimited _) | inl (RespErr Messages.Full _) => true | _ => false end in
  refused && bool_decide (is_Some sent) && bool_decide (sent <> on_server).

(** How far a counter moved since [last]; the counter is the next [last]. *)
(* @src/crates/throcc-client-core/src/session.rs 1971-1974 advance *)
Definition advance (last counter : Z) : Z * Z := (sat_sub counter last, counter).
(* @src/crates/throcc-client-core/src/session.rs 1976-1979 kbps *)
Definition kbps (bytes : Z) : Z := wrap32 (wrap64 (bytes * 8) / (HEALTH_EVERY / 1000) / 1000).
(* @src/crates/throcc-client-core/src/session.rs 1981-1987 percent *)
Definition percent (part whole : Z) : f32 :=
  if whole =? 0 then f32_of_Z 0 else SFdiv 24 128 (SFmul 24 128 (f32_of_Z part) (f32_of_Z 100)) (f32_of_Z whole).

(* @src/crates/throcc-client-core/src/session.rs 1989-1999 audience_cue *)
Definition audience_cue (before after : list UserId) : option Cue :=
  let arrived from to := existsb (fun u => negb (bool_decide (u ∈ from))) to in
  if arrived before after then Some CueStreamJoin else if arrived after before then Some CueStreamLeave else None.
(* @src/crates/throcc-client-core/src/session.rs 2001-2008 share_cue *)
Definition share_cue (was_sharing sharing : bool) : option Cue :=
  match was_sharing, sharing with false, true => Some CueStreamStart | true, false => Some CueStreamStop | _, _ => None end.
(* @src/crates/throcc-client-core/src/session.rs 2010-2018 mic_cue *)
Definition mic_cue (media : MediaState) (on : bool) : option Cue :=
  if Bool.eqb on (ms_mic media) then None
  else if on then Some (if ms_deafened media then CueUndeafen else CueUnmute) else Some CueMute.
(** The media state and what is kept of the mic. *)
(* @src/crates/throcc-client-core/src/session.rs 2020-2032 set_deafened *)
Definition set_deafened (media : MediaState) (mic_before : bool) (deafened : bool) : MediaState * bool :=
  if Bool.eqb deafened (ms_deafened media) then (media, mic_before)
  else if deafened then (mkMediaState false true (ms_share media), ms_mic media)
  else (mkMediaState mic_before false (ms_share media), mic_before).

(* @src/crates/throcc-client-core/src/session.rs 2034-2039 gain_command *)
Definition gain_command (user : UserId) (sound : Sound) (level : SoundLevel) : CallCommand :=
  match sound with Voice => CmVolume user (gain level) | Share => CmShareVolume user (gain level) end.

(* @src/crates/throcc-client-core/src/session.rs 2041-2053 supersedes *)
Definition supersedes (newer older : UiCommand) : bool :=
  match newer, older with
  | UiSetSoundLevel a sa _, UiSetSoundLevel b sb _ => (a =? b) && bool_decide (sa = sb)
  | UiSetMic _, UiSetMic _ | UiSetDeafened _, UiSetDeafened _ | UiSetProfile _, UiSetProfile _ => true
  | _, _ => false
  end.

(** [Duration::from_secs_f64] of what is not negative: the nearest nanosecond. *)
Definition ns_of_f64 (x : f64) : Z :=
  match x with
  | S754_finite false m e =>
      let n := Z.pos m * ns in
      if 0 <=? e then n * 2 ^ e else
      let d := 2 ^ (- e) in let q := n / d in let r := n mod d in
      if (2 * r <? d) || ((2 * r =? d) && Z.even q) then q else q + 1
  | _ => 0
  end.
(* @src/crates/throcc-client-core/src/session.rs 2055-2060 jittered *)
Definition jittered (backoff random : Z) : Z :=
  let unit := f64_div (f64_of_Z (Z.shiftr random 11)) (f64_of_Z (2 ^ 53)) in
  let factor := f64_add (f64_sub (f64_of_Z 1) BACKOFF_JITTER) (f64_mul (f64_mul (f64_of_Z 2) BACKOFF_JITTER) unit) in
  ns_of_f64 (f64_mul factor (f64_secs backoff)).

(* @src/crates/throcc-client-core/src/session.rs 2062-2073 newer_audiences *)
Definition newer_audiences (held new : Audiences) : option Audiences :=
  if as_seq new <? as_seq held then None else
  Some (mkAudiences (as_seq new)
    ((fun a => mkAudience (au_video a) (take (Z.to_nat MAX_ROOM_MEMBERS) (au_receivers a))) <$> take (Z.to_nat MAX_ROOM_SHARES) (as_shares new))).
(* @src/crates/throcc-client-core/src/session.rs 2075-2082 receivers_of *)
Definition receivers_of (audiences : Audiences) (video : MediaId) : option (list UserId) :=
  au_receivers <$> List.find (fun a => bool_decide (au_video a = video)) (as_shares audiences).

Example jittered_low : jittered ns 0 = 7 * (ns / 10). Proof. by vm_compute. Qed.
Example jittered_mean : jittered MAX_BACKOFF (2 ^ 63) = MAX_BACKOFF. Proof. by vm_compute. Qed.
