(* ===== verification/Session.v ===== *)
(** * A client's session (throcc-client-core, session.rs)

    One definition per method of [Session], each a function of the session's state; what it
    reads from the world and does to it is that of [SessionState]. *)
From Stdlib Require Import SpecFloat.
From stdpp Require Import pretty.
From S2P Require Import Prelude Ordered Float64 Ids Messages Crypto Fingerprint JsonFile People Verified Trust Floors Servers KeysState Fragment Engine ClientState SessionState.
Open Scope Z_scope.

Section Session.
Context {outside : Outside}.

(** ** Reading and telling *)

Definition emit (o : Out) (s : Session) : Session := s <| se_out ::= (fun l => l ++ [o]) |>.
Definition each {A} (f : A -> Session -> Session) (l : list A) (s : Session) : Session := foldl (fun s x => f x s) s l.

(** The number of the next reading. *)
Definition reading (s : Session) : nat * Session := (se_reads s, s <| se_reads ::= S |>).
(* @src/crates/throcc-client-core/src/call.rs 140-142 Call::request *)
Definition request (r : Request) (s : Session) : (Response + str) * Session :=
  let '(n, s) := reading s in (os_answer n r, emit (Asked r) s).

(* @src/crates/throcc-client-core/src/session.rs 157-159 Shared::emit *)
Definition tell (e : UiEvent) (s : Session) : Session := emit (Told e) s.
(* @src/crates/throcc-client-core/src/session.rs 161-163 Shared::notice *)
Definition notice (text : str) (s : Session) : Session := tell (EvNotice text) s.
(* @src/crates/throcc-client-core/src/session.rs 147-155 Shared::update *)
Definition update_state (change : State -> State) (s : Session) : Session :=
  let state := change (se_state s) in
  if state_eqb state (se_state s) then s else tell (EvState state) (s <| se_state := state |>).

(* @src/crates/throcc-client-core/src/session.rs 452-456 Session::audio *)
Definition audio (c : CallCommand) (s : Session) : Session := if se_audio s then emit (Audio c) s else s.
(* @src/crates/throcc-client-core/src/session.rs 458-462 Session::cue *)
Definition cue (c : Cue) (s : Session) : Session := if se_audio s then emit (Cued c) s else s.
Definition cue_if (c : option Cue) (s : Session) : Session := match c with Some c => cue c s | None => s end.

(* @src/crates/throcc-client-core/src/session.rs 135-141 Shared::set_picture *)
Definition set_picture (user : UserId) (picture : bool) (s : Session) : Session :=
  s <| se_pictures ::= (fun p => if picture then {[user]} ∪ p else p ∖ {[user]}) |>.

(** The verified keys and the people's file, as others left them. *)
Definition with_store {A} (f : nat -> VerifiedKeys -> option People -> A * VerifiedKeys * option People) (s : Session) : A * Session :=
  let '(n, s) := reading s in
  let '(v, file) := os_others n (se_store s, se_people s) in
  let '(a, v, file) := f n v file in
  (a, s <| se_store := v |> <| se_people := file |>).
(** [Trust::of] and [Trust::warning], which take the store's lock. *)
Definition read_store {A} (f : VerifiedKeys -> A) (s : Session) : A * Session := with_store (fun _ v file => (f v, v, file)) s.
(** The key a user presented this session: [trust.of(user).1], for which the store does not matter. *)
Definition presented_key (user : UserId) (s : Session) : option PublicKey := (trust_of user (se_trust s) (se_store s)).2.

(* @src/crates/throcc-client-core/src/session.rs 441-450 Session::sync_audio *)
Definition sync_audio (s : Session) : Session :=
  let s := audio (CmMuted (negb (ms_mic (se_media s)))) s in
  let s := audio (CmDeafened (ms_deafened (se_media s))) s in
  audio (CmSendOn (tr_mic <$> se_my_tracks s)) s.

(** ** Who shares, and who watches *)

(* @src/crates/throcc-client-core/src/session.rs 990-996 Session::sharing_of *)
Definition sharing_of (user : UserId) (s : Session) : option ShareConfig :=
  if decide (user = se_me s) then ms_share (se_media s) else p ← se_peers s !! user; pe_share p.
(* @src/crates/throcc-client-core/src/session.rs 998-1004 Session::tracks_of *)
Definition tracks_of (user : UserId) (s : Session) : option Tracks :=
  if decide (user = se_me s) then se_my_tracks s else pe_tracks <$> se_peers s !! user.
Definition first_share (t : option Tracks) : option ShareTracks := t ← t; hd_error (tr_shares t).
(* @src/crates/throcc-client-core/src/session.rs 1006-1011 Session::audience_of *)
Definition audience_of (user : UserId) (s : Session) : Z :=
  match share ← first_share (tracks_of user s); receivers_of (se_audiences s) (st_video share) with
  | Some receivers => Z.of_nat (length receivers)
  | None => 0
  end.

(* @src/crates/throcc-client-core/src/session.rs 980-988 Session::show_shares *)
Definition show_shares (s : Session) : Session :=
  update_state (on_people (map_imap (fun user p => Some (set_sharing (sharing_of user s) (audience_of user s) p)))) s.

(* @src/crates/throcc-client-core/src/session.rs 464-469 Session::stream_cue *)
Definition stream_cue (user : UserId) (c : Cue) (s : Session) : Session :=
  if negb (bool_decide (user = se_me s)) && bool_decide (is_Some (sharing_of user s)) then cue c s else s.
(* @src/crates/throcc-client-core/src/session.rs 471-482 Session::room_cue *)
Definition room_cue (user : UserId) (after : option RoomId) (s : Session) : Session :=
  let before := p ← person_of user (se_state s); pn_room p in
  if bool_decide (user = se_me s) || bool_decide (se_room s = None) || bool_decide (before = after) then s
  else if decide (after = se_room s) then cue CueJoin s
  else if decide (before = se_room s) then cue CueLeave s else s.

(* @src/crates/throcc-client-core/src/session.rs 1013-1020 Session::take_newer *)
Definition take_newer (audiences : Audiences) (s : Session) : bool * Session :=
  match newer_audiences (se_audiences s) audiences with
  | Some audiences => (true, s <| se_audiences := audiences |>)
  | None => (false, s)
  end.
Definition clear_audiences (s : Session) : Session := s <| se_audiences ::= (fun a => mkAudiences (as_seq a) []) |>.

(* @src/crates/throcc-client-core/src/session.rs 1022-1056 Session::audiences_changed *)
Definition audiences_changed (audiences : Audiences) (s : Session) : Session :=
  let ours := _ ← ms_share (se_media s); st_video <$> first_share (se_my_tracks s) in
  let before := default [] (video ← ours; receivers_of (se_audiences s) video) in
  let '(taken, s) := take_newer audiences s in
  if negb taken then s else
  let s := match ours with
    | Some video =>
        let still_here := filter (fun user => (p ← person_of user (se_state s); Some (pn_room p)) = Some (se_room s)) before in
        match audience_cue still_here (default [] (receivers_of (se_audiences s) video)) with
        | Some c =>
            let '(n, s) := reading s in
            if match se_last_cue s with Some at_ => AUDIENCE_CUE_GAP <=? sat_sub (os_now n) at_ | None => true end
            then let '(n, s) := reading s in cue c (s <| se_last_cue := Some (os_now n) |>)
            else s
        | None => s
        end
    | None => s
    end in
  show_shares s.

(** ** Shares watched *)

Definition subscribe_track (media_id : MediaId) (kind : Kind) (capacity : Z) (s : Session) : Session := emit (Subscribed media_id kind capacity) s.
Definition unsubscribe_track (media_id : MediaId) (s : Session) : Session := emit (Unsubscribed media_id) s.

(* @src/crates/throcc-client-core/src/session.rs 1454-1466 Session::watched *)
Definition watched (media_id : MediaId) (user : UserId) (carries : Carries) (s : Session) : Watched * Session :=
  let '(n, s) := reading s in
  let arrived := os_arrived n media_id in
  (mkWatched user carries (av_bytes arrived) (av_datagrams arrived) (av_lost arrived) false false, s).
Definition track (media_id : MediaId) (user : UserId) (carries : Carries) (s : Session) : Session :=
  let '(w, s) := watched media_id user carries s in s <| se_tracks ::= <[media_id := w]> |>.

(* @src/crates/throcc-client-core/src/session.rs 1468-1479 Session::stop_watching *)
Definition stop_watching (user : UserId) (s : Session) : Session :=
  let s := match se_watched s !! user with
    | Some w =>
        let s := s <| se_watched ::= delete user |> in
        let s := (unsubscribe_track (ws_video w) s) <| se_tracks ::= delete (ws_video w) |> in
        match ws_audio w with
        | Some media_id => audio (CmForgetShare user) ((unsubscribe_track media_id s) <| se_tracks ::= delete media_id |>)
        | None => s
        end
    | None => s
    end in
  set_picture user false s.
(* @src/crates/throcc-client-core/src/session.rs 1481-1486 Session::stop_watching_all *)
Definition stop_watching_all (s : Session) : Session := each stop_watching ((in_key_order (se_watched s)).*1) s.

(** The running shares of those we watch, by who shares. *)
(* @src/crates/throcc-client-core/src/session.rs 1376-1383! Session::sync_watching *)
Definition wanted_shares (s : Session) : gmap UserId (ShareTracks * ShareConfig) :=
  collect_map (omap (fun user =>
    peer ← se_peers s !! user; share ← hd_error (tr_shares (pe_tracks peer)); config ← pe_share peer; Some (user, (share, config))) (se_watching s)).
(* @src/crates/throcc-client-core/src/session.rs 1384-1397! Session::sync_watching *)
Definition is_stale (wanted : gmap UserId (ShareTracks * ShareConfig)) (user : UserId) (w : WatchedShare) : bool :=
  let old := ws_config w in
  match wanted !! user with
  | None => true
  | Some (share, config) =>
      negb (st_video share =? ws_video w) || negb (bool_decide (sc_codec config = sc_codec old)) || negb (Bool.eqb (sc_audio config) (sc_audio old)) ||
      negb ((sc_width config =? sc_width old) && (sc_height config =? sc_height old))
  end.
(** With ffmpeg: the decoder starts or says why not. *)
(* @src/crates/throcc-client-core/src/session.rs 1405-1450! Session::sync_watching *)
Definition start_watching (user : UserId) (share : ShareTracks) (config : ShareConfig) (s : Session) : Session :=
  let s := if sc_audio config
    then track (st_audio share) user CarriesShareAudio (audio (CmListenShare user) (subscribe_track (st_audio share) AudioKind 64 s)) else s in
  let s := subscribe_track (st_video share) VideoKind 64 s in
  let '(n, s) := reading s in
  let '(dec, s) := match os_decodes n with
    | None => (true, set_picture user true s)
    | Some e => (false, notice (lit "Can't show this share: " ++ e) s)
    end in
  let s := track (st_video share) user (CarriesShareVideo config dec) s in
  s <| se_watched ::= <[user := mkWatchedShare (st_video share) (if sc_audio config then Some (st_audio share) else None) config]> |>.
(* @src/crates/throcc-client-core/src/session.rs 1374-1452 Session::sync_watching *)
Definition sync_watching (s : Session) : Session :=
  let wanted := wanted_shares s in
  let stale := omap (fun p => if is_stale wanted p.1 p.2 then Some p.1 else None) (in_key_order (se_watched s)) in
  let s := each stop_watching stale s in
  each (fun p s => match se_watched s !! p.1 with Some _ => s | None => start_watching p.1 p.2.1 p.2.2 s end) (in_key_order wanted) s.

(* @src/crates/throcc-client-core/src/session.rs 1294-1296 Session::refused *)
Definition refused (response : Response + str) (s : Session) : Session := notice (refusal response) s.
Definition is_ok (response : Response + str) : bool := match response with inl RespOk => true | _ => false end.
(* @src/crates/throcc-client-core/src/session.rs 1262-1267 Session::simple *)
Definition simple (r : Request) (s : Session) : Session :=
  let '(response, s) := request r s in if is_ok response then s else refused response s.

(** The ids of the running shares we watch. *)
(* @src/crates/throcc-client-core/src/session.rs 1356-1363! Session::push_watching *)
Definition watched_ids (s : Session) : list MediaId :=
  concat (omap (fun user =>
    peer ← se_peers s !! user; _ ← pe_share peer; share ← hd_error (tr_shares (pe_tracks peer)); Some [st_video share; st_audio share]) (se_watching s)).
(* @src/crates/throcc-client-core/src/session.rs 1353-1372 Session::push_watching *)
Definition push_watching (s : Session) : Session :=
  let ids := watched_ids s in
  let s := update_state (on_current (fmap (fun c => mkCurrent (cr_room c) (cr_sharing c) (se_watching s)))) s in
  sync_watching (simple (SetWatched ids) s).

(** ** Our share *)

(* @src/crates/throcc-client-core/src/session.rs 1563-1575 Session::stop_share *)
Definition stop_share (s : Session) : Session :=
  let s := s <| se_media ::= (fun m => mkMediaState (ms_mic m) (ms_deafened m) None) |> <| se_wanted := None |> in
  match se_sharing s with
  | Some _ => (set_picture (se_me s) false (emit ShareDropped (s <| se_sharing := None |>))) <| se_preview := None |>
  | None => s
  end.

Definition show_current_share (share : option ShareConfig) : State -> State :=
  on_current (fmap (fun c => mkCurrent (cr_room c) share (cr_watching c))).

(** [push_media] and [undo_refused_share], which calls it again; [fuel] bounds the calls. *)
(* @src/crates/throcc-client-core/src/session.rs 1298-1350! Session::push_media, Session::undo_refused_share *)
Fixpoint push_media_with (fuel : nat) (s : Session) : Session :=
  match fuel with
  | O => s
  | S fuel =>
      let media := se_media s in
      let s := update_state (fun st => show_current_share (ms_share media) (set_switches (ms_mic media) (ms_deafened media) st)) s in
      match se_room s with
      | None => s
      | Some _ =>
          let s := audio (CmMuted (negb (ms_mic media))) s in
          let s := audio (CmDeafened (ms_deafened media)) s in
          let s := show_shares s in
          let '(response, s) := request (SetMedia media) s in
          if refuses_share_start response (ms_share media) (se_server_share s) then
            let s := update_state (show_current_share None) (stop_share s) in
            let s := show_shares s in
            let s := notice (match response with
              | inl (RespErr Messages.Full _) => lit "This room already has " ++ lit (pretty MAX_ROOM_SHARES) ++ lit " screen shares running."
              | _ => lit "Sharing was started too often. Try again in a moment."
              end) s in
            match se_server_share s with Some _ => push_media_with fuel s | None => s end
          else if is_ok response then s <| se_server_share := ms_share media |>
          else refused response s
      end
  end.
(* @src/crates/throcc-client-core/src/session.rs 1298-1329 Session::push_media *)
Definition push_media : Session -> Session := push_media_with 2.

(** The number of the start goes with its capture. *)
(* @src/crates/throcc-client-core/src/session.rs 1488-1526! Session::start_share *)
Definition start_share (wanted : ShareConfig) (s : Session) : Session :=
  match se_wanted s with
  | Some _ => notice (lit "Already choosing what to share. Finish in the picker that's open.") s
  | None =>
      match se_sharing s, first_share (se_my_tracks s) with
      | Some _, _ => s
      | None, None => notice (lit "Join a room before sharing.") s
      | None, Some _ =>
          let s := s <| se_starts ::= (fun n => wrap64 (n + 1)) |> in
          let s := s <| se_wanted := Some (se_starts s) |> in
          emit (CaptureStarted (se_starts s) wanted) s
      end
  end.

(** How a start ended: a sender with its config and engine, an error, or a panic. *)
Inductive Started := StartedWith (config : ShareConfig) (engine : str) | StartFailed (e : str) | StartPanicked.
(* @src/crates/throcc-client-core/src/session.rs 1528-1551! Session::share_started *)
Definition share_started (number : Z) (started : Started) (s : Session) : Session :=
  if decide (se_wanted s = Some number) then
    let s := s <| se_wanted := None |> in
    match started with
    | StartedWith config engine =>
        let s := s <| se_media ::= (fun m => mkMediaState (ms_mic m) (ms_deafened m) (Some config)) |> in
        let s := (set_picture (se_me s) true s) <| se_preview := Some (se_me s) |> <| se_sharing := Some (config, engine) |> in
        push_media (cue CueStreamStart s)
    | StartFailed e => notice (lit "Couldn't start sharing: " ++ e) s
    | StartPanicked => notice (lit "Couldn't start sharing.") s
    end
  else match started with StartedWith _ _ => emit ShareDropped s | _ => s end.

(* @src/crates/throcc-client-core/src/session.rs 1589-1596 Session::end_share *)
Definition end_share (s : Session) : Session :=
  let s := match ms_share (se_media s) with Some _ => cue CueStreamStop s | None => s end in
  push_media (stop_share s).
(** [ended] is what the sender says. *)
(* @src/crates/throcc-client-core/src/session.rs 1577-1587 Session::stop_ended_share *)
Definition stop_ended_share (ended : bool) (s : Session) : Session :=
  match se_sharing s with Some _ => if ended then end_share s else s | None => s end.
(* @src/crates/throcc-client-core/src/session.rs 1598-1607 Session::sharing_detail *)
Definition sharing_detail (s : Session) : option str := (fun p => share_detail p.1 p.2) <$> se_sharing s.
(* @src/crates/throcc-client-core/src/session.rs 1609-1616 Session::recover_share *)
Definition recover_share (kind : Recovery) (s : Session) : Session :=
  match se_sharing s with Some _ => emit (ShareRecovered kind) s | None => s end.

(** ** Trust and playback *)

Definition people_in_order (s : Session) : list UserId := (in_key_order (vw_people (se_state s))).*1.

(** A reading of the store for every user. *)
Definition read_each {A} (f : UserId -> VerifiedKeys -> A) (users : list UserId) (s : Session) : list (UserId * A) * Session :=
  foldl (fun '(l, s) user => let '(a, s) := read_store (f user) s in (l ++ [(user, a)], s)) ([], s) users.

(* @src/crates/throcc-client-core/src/session.rs 922-945 Session::refresh_trust *)
Definition refresh_trust (s : Session) : Session :=
  let users := people_in_order s in
  let '(trust, s) := read_each (fun user => trust_of user (se_trust s)) users s in
  let '(warnings, s) := read_each (fun user => trust_warning user (se_trust s)) (filter (fun user => user <> se_me s) users) s in
  update_state (fun st => set_warnings (omap snd warnings)
    (on_people (map_imap (fun user p => Some (match (list_to_map trust : gmap UserId _) !! user with Some t => set_trust t p | None => p end))) st)) s.

(* @src/crates/throcc-client-core/src/session.rs 879-893 Session::playback_of *)
Definition playback_of (user : UserId) (s : Session) : Playback :=
  let playback := match presented_key user s with Some key => saved_person key (se_saved s) | None => playback_default end in
  foldl (fun playback sound => match se_unkeyed s !! (user, sound) with Some set => playback_set playback sound set | None => playback end) playback all_sounds.

(* @src/crates/throcc-client-core/src/session.rs 895-913 Session::play_as_kept *)
Definition play_as_kept (users : list UserId) (s : Session) : Session :=
  let kept := (fun user => (user, playback_of user s)) <$> users in
  let s := each (fun p => each (fun sound => audio (gain_command p.1 sound (playback_get p.2 sound))) all_sounds) kept s in
  update_state (on_people (fun people => foldl (fun people p => alter (set_playback p.2) p.1 people) people kept)) s.

(** Playback set before a key was presented, kept under the key. *)
Definition key_playback (p : UserId * PublicKey) (s : Session) : Session :=
  each (fun sound s =>
    match se_unkeyed s !! (p.1, sound) with
    | Some playback => s <| se_unkeyed ::= delete (p.1, sound) |> <| se_saved ::= saved_set p.2 sound playback |>
    | None => s
    end) all_sounds s.
(* @src/crates/throcc-client-core/src/session.rs 859-877 Session::note_identities *)
Definition note_identities (peers : gmap UserId Peer) (s : Session) : Session :=
  let presented := (fun p => (p.1, pe_identity_key p.2)) <$> in_key_order peers in
  let '((noted, t), s) := with_store (fun n v file => let '(noted, (t, v, file)) := trust_note (os_note_written n) presented (se_trust s) v file in ((noted, t), v, file)) s in
  let s := s <| se_trust := t |> in
  let s := each key_playback presented s in
  if noted : bool then refresh_trust s else s.

(* @src/crates/throcc-client-core/src/session.rs 971-978 Session::after_trust_change *)
Definition after_trust_change (saved : bool) (s : Session) : Session :=
  let s := if saved then s else let '(n, s) := reading s in notice (lit "Couldn't save who you verified: " ++ os_error n) s in
  refresh_trust s.

Definition shown_as (user : UserId) (s : Session) : str := match person_of user (se_state s) with Some p => pn_name p | None => person_name user [] end.

(* @src/crates/throcc-client-core/src/session.rs 947-969 Session::set_verified *)
Definition session_set_verified (user : UserId) (key : PublicKey) (verified : bool) (s : Session) : Session :=
  let name := shown_as user s in
  let '(changed, s) := with_store (fun n v file => trust_set_verified (os_written n) user key verified name (se_trust s) v file) s in
  match changed with
  | Some false =>
      notice (match presented_key user s with
        | Some _ => name ++ lit "'s key changed before you confirmed, so nothing changed. Compare the new safety number."
        | None => name ++ lit " isn't presenting a key right now, so nothing changed. Compare the safety number again once they're in a room with you."
        end) s
  | Some true => after_trust_change true s
  | None => after_trust_change false s
  end.
(* @src/crates/throcc-client-core/src/session.rs 1166-1181! Session::command *)
Definition session_dismiss_change (user : UserId) (shown : option PublicKey) (s : Session) : Session :=
  let '(dismissed, s) := with_store (fun n v file => trust_dismiss (os_written n) user shown (se_trust s) v file) s in
  match dismissed with
  | Some false => notice (shown_as user s ++ lit "'s key changed before you dismissed the warning, so it stays. Compare the new safety number.") s
  | Some true => after_trust_change true s
  | None => after_trust_change false s
  end.

(** ** Rooms and their members *)

(* @src/crates/throcc-client-core/src/session.rs 720-732 Session::reset_room *)
Definition reset_room (s : Session) : Session :=
  let s := (stop_share s) <| se_server_share := None |> in
  let s := stop_watching_all s in
  show_shares (s <| se_room := None |> <| se_my_tracks := None |> <| se_peers := ∅ |> <| se_tracks := ∅ |>
    <| se_last ::= (fun l => mkLast (lc_sent l) (lc_lost_sent l) (lc_local_drops l) ∅ (lc_udp_received l) (lc_udp_sent l)) |> <| se_watching := [] |>).

(** Peers whose mic is no longer heard, and whose mic is from now on. *)
Definition drop_mic (current : gmap UserId Peer) (p : UserId * Peer) (s : Session) : Session :=
  let mic := tr_mic (pe_tracks p.2) in
  if match current !! p.1 with Some now => negb (tr_mic (pe_tracks now) =? mic) | None => true end
  then audio (CmForget p.1) ((unsubscribe_track mic s) <| se_tracks ::= delete mic |>) else s.
Definition hear_mic (before : gmap UserId Peer) (p : UserId * Peer) (s : Session) : Session :=
  let mic := tr_mic (pe_tracks p.2) in
  if match before !! p.1 with Some old => negb (tr_mic (pe_tracks old) =? mic) | None => true end
  then track mic p.1 CarriesMic (audio (CmListen p.1) (subscribe_track mic AudioKind 256 s)) else s.

(* @src/crates/throcc-client-core/src/session.rs 813-857 Session::sync_peers *)
Definition sync_peers (s : Session) : bool * Session :=
  let '(n, s) := reading s in
  let current := collect_map ((fun p => (pe_user p, p)) <$> os_room_peers n) in
  let changed := negb (bool_decide (current = se_peers s)) in
  let s := note_identities current s in
  let s := play_as_kept ((in_key_order current).*1) s in
  let s := each (drop_mic current) (in_key_order (se_peers s)) s in
  let s := each (hear_mic (se_peers s)) (in_key_order current) s in
  let share_change := hd_error (omap (fun p =>
    old ← se_peers s !! p.1; share_cue (bool_decide (is_Some (pe_share old))) (bool_decide (is_Some (pe_share p.2)))) (in_key_order current)) in
  let s := cue_if share_change s in
  (changed, show_shares (s <| se_peers := current |>)).

(* @src/crates/throcc-client-core/src/session.rs 915-920 Session::follow_room *)
Definition follow_room (s : Session) : Session :=
  let '(changed, s) := sync_peers s in
  if changed && negb (bool_decide (se_watching s = [])) then push_watching s else s.

(* @src/crates/throcc-client-core/src/session.rs 786-811 Session::after_join *)
Definition after_join (placement : Placement) (s : Session) : Session :=
  let s := reset_room (emit FloorsSaved s) in
  let s := s <| se_room := pl_room placement |> <| se_my_tracks := pl_tracks placement |> in
  let s := match pl_room placement with Some _ => (take_newer (pl_audiences placement) s).2 | None => clear_audiences s end in
  let s := sync_audio (audio CmForgetAll s) in
  let '(_, s) := sync_peers s in
  update_state (on_current (fun _ => (fun room => mkCurrent room None []) <$> pl_room placement)) s.

(* @src/crates/throcc-client-core/src/session.rs 1653-1673 Session::notices *)
Definition key_notice (n : KeyNotice) : Session -> Session :=
  notice (match n with
    | BadEncryptionKey user => lit "User " ++ lit (pretty user) ++ lit "'s encryption key failed its check; they can't hear you."
    | ClashingTracks => lit "The server described the room with two tracks under one id, so the call is paused until it sends a valid one."
    | TooManyPeers => lit "The server described the room with more than " ++ lit (pretty MAX_ROOM_MEMBERS) ++ lit " people, so the call is paused until it sends a valid one."
    | OldEpoch => lit "The server put this room back to keys older than ones you've used here, as a restored backup or a replayed call would. You won't hear anyone here until the room moves past them."
    end).

(** [notices] are those of applying the placement. *)
(* @src/crates/throcc-client-core/src/session.rs 775-784 Session::joined *)
Definition joined (placement : Placement) (notices : list KeyNotice) (s : Session) : Session :=
  let s := after_join placement s in
  let s := cue (match pl_room placement with Some _ => CueJoin | None => CueLeave end) s in
  push_media (each key_notice notices s).

(* @src/crates/throcc-client-core/src/session.rs 704-718 Session::put_out_of_room *)
Definition put_out_of_room (s : Session) : Session :=
  let s := emit (Placed (mkPlacement None 0 None [] Audiences_default)) s in
  let s := clear_audiences (reset_room s) in
  let s := audio (CmSendOn None) (audio CmForgetAll s) in
  update_state (on_current (fun _ => None)) s.

(* @src/crates/throcc-client-core/src/session.rs 1245-1260 Session::remember_server *)
Definition remember_server (name : option str) (avatar : option Hash) (s : Session) : Session :=
  let look := mkLook (name ← name; shown_name name) avatar in
  if decide (look = se_look s) then s else
  let '(n, s) := reading (s <| se_look := look |>) in
  s <| se_servers := (look_save (os_written n) look (se_server s) (os_servers n (se_servers s))).2 |>.

(* @src/crates/throcc-client-core/src/session.rs 734-773 Session::apply_welcome *)
Definition apply_welcome (w : Welcome) (s : Session) : Session :=
  let s := s <| se_audiences := Audiences_default |> <| se_server_profile := we_profile w |> in
  let s := remember_server (sp_name (we_server w)) (sp_avatar (we_server w)) s in
  let playbacks := (fun p => playback_of (pr_user p) s) <$> we_presence w in
  let server := mkServerView (se_address s) (se_server s) (name ← sp_name (we_server w); shown_name name) (sp_avatar (we_server w)) in
  let media := se_media s in
  let s := update_state (fun st =>
    let st := set_switches (ms_mic media) (ms_deafened media) st in
    let st := set_identity (Some (we_me w)) (Some (we_role w)) (set_connection Connected (on_server (fun _ => Some server) st)) in
    let st := foldl (fun st room => add_room (room_view room) st) (on_rooms (fun _ => []) st) (we_rooms w) in
    let st := foldl (fun st p => add_person (pr_user p.1) (person p.1 p.2) st) (on_people (fun _ => ∅) st) (zip (we_presence w) playbacks) in
    on_current (fun _ => None) st) s in
  let s := refresh_trust s in
  match pl_room (we_placement w) with Some _ => after_join (we_placement w) s | None => s end.

(** ** Profiles and pictures *)

(** [None], or why the server did not take the profile. *)
(* @src/crates/throcc-client-core/src/session.rs 408-439 Session::try_push_profile *)
Definition try_push_profile (s : Session) : option str * Session :=
  let wanted := mkUserProfile (my_name (se_profile s)) (profile_avatar sha256 (se_profile s)) in
  if decide (wanted = se_server_profile s) then (None, s) else
  let '(uploaded, s) := match my_picture (se_profile s) with
    | Some bs =>
        if decide (up_avatar wanted = up_avatar (se_server_profile s)) then (None, s) else
        let '(response, s) := request (UploadAvatar bs) s in
        (match response with inl (RespAvatarHash hash) => if decide (Some hash = up_avatar wanted) then None else Some (refusal response) | _ => Some (refusal response) end, s)
    | None => (None, s)
    end in
  match uploaded with
  | Some e => (Some e, s)
  | None =>
      let '(response, s) := request (SetProfile (up_name wanted) (up_avatar wanted)) s in
      if is_ok response then (None, s <| se_server_profile := wanted |>) else (Some (refusal response), s)
  end.
(* @src/crates/throcc-client-core/src/session.rs 396-406 Session::push_profile *)
Definition push_profile (s : Session) : Session :=
  let '(result, s) := try_push_profile s in
  match result with
  | None => tell EvProfileSaved s
  | Some reason => let '(n, s) := reading s in if os_closed n then s else tell (EvProfileRefused reason) s
  end.

(* @src/crates/throcc-client-core/src/session.rs 1269-1292 Session::set_server_profile *)
Definition set_server_profile (name : option (option str)) (picture : option (option bytes)) (s : Session) : (Response + str) * Session :=
  let finish s := match name with Some name => request (SetServerName name) s | None => (inl RespOk, s) end in
  let set_picture avatar s :=
    let '(answer, s) := request (SetServerAvatar avatar) s in if is_ok answer then finish s else (answer, s) in
  match picture with
  | Some (Some bs) =>
      let '(answer, s) := request (UploadAvatar bs) s in
      match answer with inl (RespAvatarHash hash) => set_picture (Some hash) s | _ => (answer, s) end
  | Some None => set_picture None s
  | None => finish s
  end.

(** The end of the task that [fetch_avatar] starts: the file of the cache, or what the server
    answered, if the task got its turn. *)
Inductive Fetched := FetchedFile (bs : bytes) | FetchedAnswer (answer : Response + str) | FetchedNothing.
(* @src/crates/throcc-client-core/src/avatars.rs 19-22 matches *)
Definition avatar_matches (bs : bytes) (hash : Hash) : bool := (Z.of_nat (length bs) <=? MAX_AVATAR_BYTES) && bool_decide (hash_of sha256 bs = hash).
(* @src/crates/throcc-client-core/src/avatars.rs 24-38 load *)
Definition avatar_load (file : option bytes) (hash : Hash) : option bytes := bs ← file; if avatar_matches bs hash then Some bs else None.
Definition keep_avatar (hash : Hash) (slot : AvatarSlot) (s : Session) : Session :=
  let '(ready, avatars) := set_avatar (se_state s) hash slot (se_avatars s) in
  let s := s <| se_avatars := avatars |> in if ready : bool then tell (EvAvatarReady hash) s else s.
(* @src/crates/throcc-client-core/src/session.rs 1204-1243 Session::fetch_avatar *)
Definition avatar_fetched (hash : Hash) (fetched : Fetched) (s : Session) : Session :=
  match fetched with
  | FetchedFile bs => match avatar_load (Some bs) hash with Some bs => keep_avatar hash (Ready bs) s | None => s end
  | FetchedAnswer (inl (RespAvatar bs)) => keep_avatar hash (if avatar_matches bs hash then Ready bs else Missing) s
  | FetchedAnswer (inl _) => keep_avatar hash Missing s
  | FetchedAnswer (inr _) => s <| se_avatars ::= forget_avatar hash |>
  | FetchedNothing => s
  end.

(** ** Commands *)

(* @src/crates/throcc-client-core/src/call.rs 144-162 Call::join *)
Definition call_join (room : option RoomId) (password : option str) (s : Session) : (Placement * list KeyNotice + str) * Session :=
  let '(response, s) := request (match room with Some room => JoinRoom room password | None => LeaveRoom end) s in
  match response with
  | inl (RespPlacement placement) => let '(n, s) := reading (emit (Placed placement) s) in (inl (placement, os_notices n), s)
  | _ => (inr (refusal response), s)
  end.

(* @src/crates/throcc-client-core/src/session.rs 1198-1202 Session::list_users *)
Definition list_users (s : Session) : Session :=
  let '(response, s) := request ListUsers s in match response with inl (RespUsers users) => tell (EvUsers (shown_users users)) s | _ => s end.

(** Saves the floors and says goodbye. *)
(* @src/crates/throcc-client-core/src/call.rs 124-130 Call::close *)
Definition call_close (s : Session) : Session := emit ConnectionClosed (emit FloorsSaved s).

(* @src/crates/throcc-client-core/src/session.rs 538-574 Session::leave_server *)
Definition leave_server (s : Session) : bool * Session :=
  let '(response, s) := request (RemoveUser (se_me s) false) s in
  let '(removed, s) := match response with
    | inl RespOk => (Some true, s)
    | inl (RespErr _ message) => (None, notice (lit "Couldn't leave this server: " ++ message) s)
    | _ => let '(n, s) := reading s in (Some (os_removed n), s)
    end in
  match removed with
  | None => (false, s)
  | Some false => (false, notice (lit "Couldn't leave this server: the connection dropped. Try again.") s)
  | Some true =>
      let '(n, s) := reading (emit FloorsSaved s) in
      let '(_, known, file) := known_leave (os_written n) (se_address s) (se_known s) (os_servers n (se_servers s)) in
      let s := call_close (s <| se_known := known |> <| se_servers := file |>) in
      (true, tell EvLeftServer (update_state (set_connection Disconnected) s))
  end.

(** The media switches changed, and the server told. *)
Definition set_media_switches (media : MediaState) (s : Session) : Session := push_media (s <| se_media := media |>).

(** Whether the session ends, and the session after. *)
(* @src/crates/throcc-client-core/src/session.rs 1058-1196 Session::command *)
Definition command (c : UiCommand) (s : Session) : bool * Session :=
  match c with
  | UiJoin room =>
      let '(result, s) := call_join room None s in
      (false, match result with inl (placement, notices) => joined placement notices s | inr e => notice (lit "Couldn't join: " ++ e) s end)
  | UiJoinWithPassword room password =>
      let '(result, s) := call_join (Some room) (Some password) s in
      (false, match result with inl (placement, notices) => joined placement notices s | inr e => tell (EvPasswordRefused e) s end)
  | UiSetMic on =>
      let media := se_media s in
      let s := cue_if (mic_cue media on) s in
      (false, set_media_switches (mkMediaState on (if on then false else ms_deafened media) (ms_share media)) s)
  | UiSetDeafened deafened =>
      let media := se_media s in
      let s := if Bool.eqb deafened (ms_deafened media) then s else cue (if deafened then CueDeafen else CueUndeafen) s in
      let '(media, mic_before) := set_deafened media (se_mic_before s) deafened in
      (false, set_media_switches media (s <| se_mic_before := mic_before |>))
  | UiStartShare config => (false, start_share config s)
  | UiStopShare => (false, end_share s)
  | UiWatch user =>
      let s := if decide (user ∈ se_watching s) then s else stream_cue user CueStreamJoin (s <| se_watching ::= (fun l => l ++ [user]) |>) in
      (false, push_watching s)
  | UiUnwatch user =>
      let s := if decide (user ∈ se_watching s) then stream_cue user CueStreamLeave (s <| se_watching ::= filter (fun u => u <> user) |>) else s in
      (false, push_watching s)
  | UiSetSoundLevel user sound level =>
      let s := audio (gain_command user sound level) s in
      let s := match presented_key user s with
        | Some key => s <| se_saved ::= saved_set key sound level |>
        | None => s <| se_unkeyed ::= <[(user, sound) := level]> |>
        end in
      (false, update_state (on_people (alter (fun p => set_playback (playback_set (pn_playback p) sound level) p) user)) s)
  | UiSetProfile profile => (false, push_profile (s <| se_profile := profile |>))
  | UiFetchAvatar hash => (false, emit (AvatarFetched hash) s)
  | UiSetServerProfile name picture =>
      let '(response, s) := set_server_profile name picture s in
      (false, tell (if is_ok response then EvServerProfileSaved else EvServerProfileRefused (refusal response)) s)
  | UiCreateRoom name password => (false, simple (CreateRoom name password) s)
  | UiRenameRoom room name => (false, simple (RenameRoom room name) s)
  | UiSetRoomPassword room password => (false, simple (SetRoomPassword room password) s)
  | UiDeleteRoom room => (false, simple (DeleteRoom room) s)
  | UiKickFromRoom user room => (false, simple (Messages.KickFromRoom user room) s)
  | UiCreateInvite =>
      let '(response, s) := request CreateInvite s in
      (false, match response with inl (RespInvite code expires) => tell (EvInvite code expires) s | _ => refused response s end)
  | UiListUsers =>
      let '(response, s) := request ListUsers s in
      (false, match response with inl (RespUsers users) => tell (EvUsers (shown_users users)) s | _ => refused response s end)
  | UiSetRole user role => (false, list_users (simple (SetRole user role) s))
  | UiRemoveUser user cascade => (false, list_users (simple (RemoveUser user cascade) s))
  | UiSetVerified user key verified => (false, session_set_verified user key verified s)
  | UiDismissKeyChange user shown => (false, session_dismiss_change user shown s)
  | UiVerifiedChanged => (false, refresh_trust s)
  | UiLeaveServer => leave_server s
  | UiDisconnect => (true, update_state (set_connection Disconnected) (call_close s))
  end.

(** ** Events of the server *)

(** One track of the server's counts of what it dropped for us. *)
(* @src/crates/throcc-client-core/src/session.rs 1746-1754! Session::server_event *)
Definition note_drops (t : TrackStats) (s : Session) : Session :=
  s <| se_dropped ::= (fun n => Z.min u32_max (n + ts_dropped_units t)) |>
    <| se_tracks ::= alter (fun w =>
         match wd_carries w with
         | CarriesShareVideo _ _ => mkWatched (wd_user w) (wd_carries w) (wd_last_bytes w) (wd_last_received w) (wd_last_lost w) (wd_dropped_this w || (0 <? ts_dropped_units t)) (wd_dropped_last w)
         | _ => w
         end) (ts_media_id t) |>.

(* @src/crates/throcc-client-core/src/session.rs 1682-1787 Session::server_event *)
Definition server_event (e : Event) (s : Session) : Session :=
  match e with
  | ServerProfileChanged profile =>
      let s := remember_server (sp_name profile) (sp_avatar profile) s in
      update_state (on_server (fmap (fun server => mkServerView (sv_address server) (sv_fingerprint server) (name ← sp_name profile; shown_name name) (sp_avatar profile)))) s
  | PresenceChanged p =>
      let s := room_cue (pr_user p) (pr_room p) s in
      let '(trust, s) := read_store (trust_of (pr_user p) (se_trust s)) s in
      let shown := set_sharing (sharing_of (pr_user p) s) (audience_of (pr_user p) s) (set_trust trust (person p (playback_of (pr_user p) s))) in
      let s := update_state (fun st =>
        let speaking := match vw_people st !! pr_user p with Some old => pn_speaking old | None => false end in
        add_person (pr_user p) (set_speaking speaking shown) st) s in
      follow_room (refresh_trust s)
  | PresenceEnded user =>
      let s := room_cue user None s in
      follow_room (update_state (on_people (delete user)) s)
  | RoomCreated room => update_state (add_room (room_view room)) s
  | RoomLockChanged room locked => update_state (on_rooms (room_mut room (fun r => mkRoomView (rv_id r) (rv_name r) locked))) s
  | RoomRenamed room name => update_state (on_rooms (room_mut room (fun r => mkRoomView (rv_id r) (room_name room name) (rv_locked r)))) s
  | RoomDeleted room =>
      let s := if decide (se_room s = Some room) then notice (lit "The room you were in was deleted.") (put_out_of_room s) else s in
      update_state (on_rooms (filter (fun r => rv_id r <> room))) s
  | PeersChanged room _ _ => if decide (Some room = se_room s) then follow_room s else s
  | AudiencesChanged changed => audiences_changed changed s
  | ReceiveStats tracks => each note_drops tracks s
  | RoleChanged user role => if decide (user = se_me s) then update_state (fun st => set_identity (vw_me st) (Some role) st) s else s
  | InviteSpent code_id => notice (lit "Invite " ++ code_id ++ [45; 8230] ++ lit " was used up by three wrong tries and no longer works.") s
  | RemovedFromServer reason => tell (EvRemovedFromServer reason) s
  | Messages.KickedFromRoom by_ room =>
      if decide (se_room s = Some room) then
        let s := put_out_of_room s in
        let by_ := match person_of by_ (se_state s) with Some p => pn_name p | None => lit "Someone" end in
        let room := match room_of room (se_state s) with Some r => rv_name r | None => lit "the room" end in
        notice (by_ ++ lit " moved you out of " ++ room ++ lit ".") s
      else s
  | UserAdded _ | UserRemoved _ => list_users s
  | KeyframeRequested media_id kind =>
      match first_share (se_my_tracks s) with
      | Some share => if st_video share =? media_id then recover_share kind s else s
      | None => s
      end
  | SenderKeyPublished _ _ _ => s
  end.

(* @src/crates/throcc-client-core/src/session.rs 1675-1680 Session::event *)
Definition call_event (e : CallEvent) (s : Session) : Session :=
  match e with FromKeys n => key_notice n s | FromServer e => server_event e s end.

(** ** What the clocks refresh *)

(** [transmitting] and [speaking] are the audio thread's levels. *)
(* @src/crates/throcc-client-core/src/session.rs 1789-1809 Session::refresh_levels *)
Definition refresh_levels (transmitting : bool) (speaking : gmap UserId bool) (s : Session) : Session :=
  if negb (se_audio s) then s else
  let speaks user := if decide (user = se_me s) then transmitting else default false (speaking !! user) in
  if forallb (fun p => Bool.eqb (pn_speaking p.2) (speaks p.1)) (map_to_list (vw_people (se_state s))) then s else
  update_state (on_people (map_imap (fun user p => Some (set_speaking (speaks user) p)))) s.

(** What the connection and the engine count, at a refresh. *)
Record ConnectionStats := mkConnectionStats { cs_rtt_ms : f32; cs_lost_packets : Z; cs_sent_packets : Z; cs_udp_rx : Z; cs_udp_tx : Z; cs_local_drops : Z }.

(** The rows, the slow shares, and what arrived and was lost, over the tracks so far. *)
Record Rows := mkRows { rw_rows : list TrackHealth; rw_slow : gset UserId; rw_received : Z; rw_lost : Z }.
(* @src/crates/throcc-client-core/src/session.rs 1830-1851! Session::refresh_health *)
Definition refresh_track (acc : Rows * Session) (p : MediaId * Watched) : Rows * Session :=
  let '(rows, s) := acc in
  let '(media_id, t) := p in
  let '(n, s) := reading s in
  let arrived := os_arrived n media_id in
  let '(new_bytes, last_bytes) := advance (wd_last_bytes t) (av_bytes arrived) in
  let '(new_received, last_received) := advance (wd_last_received t) (av_datagrams arrived) in
  let '(new_lost, last_lost) := advance (wd_last_lost t) (av_lost arrived) in
  let '(too_slow, t) := too_slow_this_refresh (mkWatched (wd_user t) (wd_carries t) last_bytes last_received last_lost (wd_dropped_this t) (wd_dropped_last t)) in
  let '(n, s) := reading s in
  let name := match person_of (wd_user t) (se_state s) with Some p => pn_name p | None => lit "someone" end in
  let counted := wrap64 (new_received + new_lost) in
  let row := mkTrackHealth (name ++ lit ", " ++ carries_label (wd_carries t)) (carries_detail (os_decoder_name n) (wd_carries t)) (Some (carries_kbps (wd_carries t)))
    (if 0 <? new_received then Some (kbps new_bytes) else None) (if 0 <? counted then Some (percent new_lost counted) else None) in
  (mkRows (rw_rows rows ++ [row]) (if too_slow : bool then {[wd_user t]} ∪ rw_slow rows else rw_slow rows)
     (wrap64 (rw_received rows + new_received)) (wrap64 (rw_lost rows + new_lost)), s <| se_tracks ::= <[media_id := t]> |>).

Definition label_le (a b : TrackHealth) : Prop := str_leb (th_label a) (th_label b) = true.
#[local] Instance label_le_dec : RelDecision label_le.
Proof. intros a b. unfold label_le. apply _. Defined.

(** A track of ours: its label, detail, id, rate and drops. *)
Definition sent_track (acc : list SentTrack * Session) (t : str * str * MediaId * Z * option Z) : list SentTrack * Session :=
  let '(l, s) := acc in
  let '(label, detail, media_id, set_kbps, dropped) := t in
  let '(n, s) := reading s in
  let bytes := os_sent_bytes n media_id in
  let '(moved, last) := advance (default bytes (lc_sent_bytes (se_last s) !! media_id)) bytes in
  (l ++ [mkSentTrack label detail set_kbps (kbps moved) dropped],
   s <| se_last ::= (fun l => mkLast (lc_sent l) (lc_lost_sent l) (lc_local_drops l) (<[media_id := last]> (lc_sent_bytes l)) (lc_udp_received l) (lc_udp_sent l)) |>).
(* @src/crates/throcc-client-core/src/session.rs 1869-1907 Session::sent_tracks *)
Definition sent_tracks (new_local_drops : Z) (s : Session) : list SentTrack * Session :=
  match se_my_tracks s with
  | None => ([], s)
  | Some tracks =>
      let mic := if ms_mic (se_media s) then [(lit "mic", VOICE_DETAIL, tr_mic tracks, MIC_KBPS, None)] else [] in
      let share := match ms_share (se_media s), hd_error (tr_shares tracks) with
        | Some config, Some share =>
            let detail := default (share_detail config (lit "no encoder")) (sharing_detail s) in
            (lit "screen", detail, st_video share, sc_kbps config, Some new_local_drops) ::
              (if sc_audio config then [(lit "screen audio", SHARE_AUDIO_DETAIL, st_audio share, SHARE_AUDIO_KBPS, None)] else [])
        | _, _ => []
        end in
      foldl sent_track ([], s) (mic ++ share)
  end.

(* @src/crates/throcc-client-core/src/session.rs 1811-1867 Session::refresh_health *)
Definition refresh_health (stats : ConnectionStats) (s : Session) : Session :=
  let last := se_last s in
  let '(lost, lost_sent) := advance (lc_lost_sent last) (cs_lost_packets stats) in
  let '(sent, last_sent) := advance (lc_sent last) (cs_sent_packets stats) in
  let '(new_local_drops, local_drops) := advance (lc_local_drops last) (cs_local_drops stats) in
  let s := s <| se_last := mkLast last_sent lost_sent local_drops (lc_sent_bytes last) (lc_udp_received last) (lc_udp_sent last) |> in
  let '(rows, s) := foldl refresh_track (mkRows [] ∅ 0 0, s) (in_key_order (se_tracks s)) in
  let dropped := se_dropped s in
  let s := s <| se_dropped := 0 |> in
  let '(down, udp_received) := advance (lc_udp_received (se_last s)) (cs_udp_rx stats) in
  let '(up, udp_sent) := advance (lc_udp_sent (se_last s)) (cs_udp_tx stats) in
  let s := s <| se_last ::= (fun l => mkLast (lc_sent l) (lc_lost_sent l) (lc_local_drops l) (lc_sent_bytes l) udp_received udp_sent) |> in
  let '(sending, s) := sent_tracks new_local_drops s in
  update_state (set_health (mkHealth (cs_rtt_ms stats) (kbps down) (kbps up) (percent lost sent) (percent (rw_lost rows) (wrap64 (rw_received rows + rw_lost rows)))
    dropped (rw_slow rows) (merge_sort label_le (rw_rows rows)) sending)) s.

(** A tick of the health clock also saves the floors and the playback. *)
(* @src/crates/throcc-client-core/src/session.rs 522-530! Session::run_until_done *)
Definition health_tick (stats : ConnectionStats) (s : Session) : Session :=
  let '(n, s) := reading (emit FloorsSaved (refresh_health stats s)) in
  let '(v, file) := os_others n (se_store s, se_people s) in
  let '(_, saved, file) := saved_save (os_written n) (se_saved s) file in
  s <| se_saved := saved |> <| se_store := v |> <| se_people := file |>.

(** What the keystore did about our encryption key: the new one, signed for this server, if it
    was due and is usable. *)
Inductive Renewal := NotDue | NotRenewed | Unusable | RenewedTo (signed : SignedEncryptionKey).
(* @src/crates/throcc-client-core/src/session.rs 1618-1651 Session::renew_encryption_key *)
Definition renew_encryption_key (renewal : Renewal) (s : Session) : Session :=
  match renewal with
  | RenewedTo signed =>
      let '(response, s) := request (SetEncryptionKey signed) (emit EncryptionReplaced s) in
      if is_ok response then s else emit ConnectionClosed s
  | _ => s
  end.

(** ** Connecting again *)

(** The variables of [reconnect], between its awaits. *)
(* @src/crates/throcc-client-core/src/session.rs 583-594! Session::reconnect *)
Record Lost := mkLost {
  ls_lost : str; ls_reason : str; ls_backoff : Z; ls_queued : list UiCommand; ls_dropped_any : bool;
  ls_want_room : option RoomId; ls_room_before : option RoomId; ls_watching_before : list UserId; ls_attempt : Z
}.

(** The head of the loop over attempts; [random] picks the wait. *)
(* @src/crates/throcc-client-core/src/session.rs 596-603! Session::reconnect *)
Definition reconnect_wait (random : Z) (l : Lost) (s : Session) : Session :=
  emit (Waiting (jittered (ls_backoff l) random)) (update_state (set_connection (Reconnecting (ls_attempt l) (ls_reason l))) s).
(** The connection is lost, for [lost]. *)
(* @src/crates/throcc-client-core/src/session.rs 583-602! Session::reconnect *)
Definition reconnect_start (lost : str) (random : Z) (s : Session) : Lost * Session :=
  let s := cue CueConnectionLost s in
  let l := mkLost lost lost ns [] false (se_room s) (se_room s) (se_watching s) 1 in
  (l, reconnect_wait random l s).

(** The queue with [c] in it, and whether it had room. *)
(* @src/crates/throcc-client-core/src/session.rs 616-623! Session::reconnect *)
Definition queue_command (c : UiCommand) (queued : list UiCommand) : bool * list UiCommand :=
  let queued := List.filter (fun older => negb (supersedes c older)) queued in
  if Z.of_nat (length queued) <? MAX_QUEUED_WHILE_RECONNECTING then (true, queued ++ [c]) else (false, queued).

(** A command that arrives while reconnecting; [None] tells the session to stop. *)
(* @src/crates/throcc-client-core/src/session.rs 604-627! Session::reconnect *)
Definition reconnect_command (c : UiCommand) (l : Lost) (s : Session) : option Lost * Session :=
  match c with
  | UiDisconnect => (None, update_state (set_connection Disconnected) s)
  | UiJoin room => (Some (mkLost (ls_lost l) (ls_reason l) (ls_backoff l) (ls_queued l) (ls_dropped_any l) room (ls_room_before l) (ls_watching_before l) (ls_attempt l)), s)
  | UiFetchAvatar hash => (Some l, s <| se_avatars ::= forget_avatar hash |>)
  | _ =>
      let '(took, queued) := queue_command c (ls_queued l) in
      let s := if took || ls_dropped_any l then s else notice (lit "Still reconnecting, so that was dropped. Try again once connected.") s in
      (Some (mkLost (ls_lost l) (ls_reason l) (ls_backoff l) queued (ls_dropped_any l || negb took) (ls_want_room l) (ls_room_before l) (ls_watching_before l) (ls_attempt l)), s)
  end.

(* @src/crates/throcc-proto/src/messages.rs 130-148! AuthError *)
Definition auth_error_text (e : AuthError) : str :=
  match e with
  | UnknownKey => lit "this server doesn't know your key; join with an invite code"
  | BadSignature => lit "the signature didn't verify"
  | BadInvite => lit "the invite code is wrong, expired or used up"
  | ProtocolMismatch => lit "the server speaks a different protocol version"
  | Banned => lit "you have been removed from this server"
  | RateLimitedAuth => lit "too many attempts; try again later"
  | ServerFull => lit "the server is full; try again later"
  | BadName => lit "the name is empty, too long or hides text"
  end.

(** How signing in once more and starting the call ended. *)
Inductive SignedIn := SignInRefused (e : AuthError) | PinMismatch (expected actual : bytes) | SignInFailed | RestartFailed
  | SignedIn_ (welcome : Welcome) (server : bytes).

(** Why no further attempt is made, if that is so. *)
(* @src/crates/throcc-client-core/src/session.rs 635-651! Session::reconnect *)
Definition fatal (result : SignedIn) : option str :=
  match result with
  | SignInRefused RateLimitedAuth | SignInRefused ServerFull => None
  | SignInRefused e => Some (lit "The server refused you: " ++ auth_error_text e)
  | PinMismatch expected actual => Some (lit "The server's key changed from " ++ Fingerprint.short expected ++ lit " to " ++ Fingerprint.short actual)
  | _ => None
  end.

(* @src/crates/throcc-client-core/src/session.rs 697-702 Session::room_name *)
Definition session_room_name (room : RoomId) (s : Session) : str := match room_of room (se_state s) with Some r => rv_name r | None => lit "your room" end.

(** Back on the server, in the room it put us in. *)
(* @src/crates/throcc-client-core/src/session.rs 669-689! Session::reconnect *)
Definition reconnected (welcome : Welcome) (server : bytes) (l : Lost) (s : Session) : Session :=
  let s := s <| se_me := we_me welcome |> <| se_server := server |> <| se_trust ::= forget_presented |> in
  let s := reset_room s in
  let s := if se_audio s then emit AudioRenewed s else s in
  let s := cue CueReconnected s in
  let wanted := (fun room => (room, session_room_name room s)) <$> ls_want_room l in
  let s := apply_welcome welcome s in
  let s := match wanted with
    | Some (room, name) =>
        if decide (pl_room (we_placement welcome) = Some room) then s
        else notice (lit "Reconnected, but not back into " ++ name ++ lit "; you're in the lobby.") s
    | None => s
    end in
  let s := push_media s in
  if bool_decide (is_Some (se_room s)) && bool_decide (se_room s = ls_room_before l)
  then push_watching (s <| se_watching := ls_watching_before l |>) else s.

(** The wait is over and one attempt was made: the loop goes on, or ends with the session
    reconnected or given up. *)
Inductive Attempt := TryAgain (l : Lost) | Back (queued : list UiCommand) | GaveUp.
(* @src/crates/throcc-client-core/src/session.rs 628-693! Session::reconnect *)
Definition reconnect_attempt (result : SignedIn) (random : Z) (l : Lost) (s : Session) : Attempt * Session :=
  let again reason s :=
    let l := mkLost (ls_lost l) reason (Z.min (ls_backoff l * 2) MAX_BACKOFF) (ls_queued l) (ls_dropped_any l) (ls_want_room l) (ls_room_before l) (ls_watching_before l) (ls_attempt l + 1) in
    (TryAgain l, reconnect_wait random l s) in
  match fatal result with
  | Some failed => (GaveUp, update_state (set_connection (Failed failed)) s)
  | None =>
      match result with
      | SignedIn_ welcome server => (Back (ls_queued l), reconnected welcome server l s)
      | SignInRefused ServerFull => again (lit "the server is full") s
      | RestartFailed => again (ls_reason l) s
      | _ => again (ls_lost l) s
      end
  end.

(** ** The session's life *)

(** A session over a call just started: [saved] and [look] are as loaded from the files. *)
(* @src/crates/throcc-client-core/src/session.rs 340-394 Session::new *)
Definition session_new (has_audio : bool) (address : str) (server : bytes) (profile : Profile) (welcome : Welcome)
  (store : VerifiedKeys) (people : option People) (known : KnownServers) (servers : option Servers) : Session :=
  let saved := default saved_empty (saved_load people) in
  let look := default (mkLook None None) (look_load server servers) in
  apply_welcome welcome
    (mkSession state_default ∅ ∅ None has_audio address (we_me welcome) server None None (mkMediaState true false None) None ∅ (trust_new server) []
       Audiences_default None ∅ false profile (we_profile welcome) saved ∅ look None None 0 ∅ 0 last_default store people known servers 0 []).

(** What the session task waits for, and the tasks it started. *)
Inductive Input :=
| InCommand (c : UiCommand)
| InEvent (e : CallEvent)
| InLost (lost : str) (random : Z)
| InAttempt (result : SignedIn) (random : Z)
| InLevels (transmitting : bool) (speaking : gmap UserId bool) (ended : bool)
| InHealth (stats : ConnectionStats)
| InRenewal (renewal : Renewal)
| InRecovery
| InStarted (number : Z) (started : Started)
| InAsked (hash : Hash)
| InFetched (hash : Hash) (fetched : Fetched).

Inductive Mode := Online | Offline (l : Lost) | Ended.

(** The commands queued, in order, until one ends the session. *)
(* @src/crates/throcc-client-core/src/session.rs 511-515! Session::run_until_done *)
Fixpoint run_queued (queued : list UiCommand) (s : Session) : bool * Session :=
  match queued with
  | [] => (false, s)
  | c :: queued => let '(ends, s) := command c s in if ends then (true, s) else run_queued queued s
  end.

(** What the windows ask of the pictures they draw. *)
(* @src/crates/throcc-client-core/src/client.rs 247-258 Client::avatar *)
Definition ask_avatar (took : bool) (hash : Hash) (s : Session) : Session :=
  let '(_, fetch, avatars) := shared_avatar hash (se_avatars s) in
  s <| se_avatars := if fetch && negb took then forget_avatar hash avatars else avatars |>.

(** [run] saves the floors as it ends.  Inputs that a mode does not wait for stay in their
    channels; they are no steps of it.  [took] tells whether the commands' channel took a
    picture's request. *)
(* @src/crates/throcc-client-core/src/session.rs 491-536 Session::run_until_done *)
Definition session_step (took : bool) (i : Input) (m : Mode * Session) : Mode * Session :=
  let '(mode, s) := m in
  let ended s := (Ended, emit FloorsSaved s) in
  match i, mode with
  | InAsked hash, _ => (mode, ask_avatar took hash s)
  | InFetched hash fetched, _ => (mode, avatar_fetched hash fetched s)
  | InCommand c, Online => let '(ends, s) := command c s in if ends then ended s else (Online, s)
  | InEvent e, Online => (Online, call_event e s)
  | InLost lost random, Online => let '(l, s) := reconnect_start lost random s in (Offline l, s)
  | InLevels transmitting speaking has_ended, Online => (Online, stop_ended_share has_ended (refresh_levels transmitting speaking s))
  | InHealth stats, Online => (Online, health_tick stats s)
  | InRenewal renewal, Online => (Online, renew_encryption_key renewal s)
  | InRecovery, Online => (Online, recover_share Idr s)
  | InStarted number started, Online => (Online, share_started number started s)
  | InCommand c, Offline l => let '(l, s) := reconnect_command c l s in match l with Some l => (Offline l, s) | None => ended s end
  | InAttempt result random, Offline l =>
      let '(next, s) := reconnect_attempt result random l s in
      match next with
      | TryAgain l => (Offline l, s)
      | GaveUp => ended s
      | Back queued => let '(ends, s) := run_queued queued s in if ends then ended s else (Online, push_profile s)
      end
  | _, _ => (mode, s)
  end.

(** The session pushes its profile before its first turn. *)
(* @src/crates/throcc-client-core/src/session.rs 484-489 Session::run *)
Definition session_run (inputs : list (bool * Input)) (s : Session) : Mode * Session :=
  foldl (fun m i => session_step i.1 i.2 m) (Online, push_profile s) inputs.
End Session.
