(* ===== verification/SessionFacts.v ===== *)
(** * What a session's operations leave alone

    [core] is what the theorems on sessions speak of: what is shown, but for sounds, levels
    and counts, and the session's room, media, members and keys.  Most of what a handler does
    leaves it as it is; the hints of [quiet] say so for each operation. *)
From Stdlib Require Import SpecFloat.
From S2P Require Import Prelude Ordered Float64 Ids Messages Crypto JsonFile People Verified Trust Floors Servers KeysState Fragment Engine ClientState SessionState Session.
Open Scope Z_scope.

(** ** What is shown *)

(** A person without their sounds and whether they speak. *)
Record Face := mkFace {
  fc_name : str; fc_avatar : option Hash; fc_room : option RoomId; fc_mic : bool; fc_deafened : bool;
  fc_sharing : option ShareConfig; fc_audience : Z; fc_verified : bool; fc_key : option PublicKey; fc_role : Role
}.
Definition blind (p : Person) : Face :=
  mkFace (pn_name p) (pn_avatar p) (pn_room p) (pn_mic p) (pn_deafened p) (pn_sharing p) (pn_audience p) (pn_verified p) (pn_identity_key p) (pn_role p).

(** The state without its health. *)
Record View := mkView {
  sh_server : option ServerView; sh_connection : ConnectionStatus; sh_me : option UserId; sh_role : option Role; sh_rooms : list RoomView;
  sh_people : gmap UserId Face; sh_current : option CurrentRoom; sh_mic : bool; sh_deafened : bool; sh_warnings : list KeyWarning
}.
Definition view (st : State) : View :=
  mkView (vw_server st) (vw_connection st) (vw_me st) (vw_role st) (vw_rooms st) (blind <$> vw_people st) (vw_current st) (vw_mic st) (vw_deafened st)
    (vw_key_warnings st).

Record Core := mkCore {
  co_view : View; co_address : str; co_server : bytes; co_me : UserId; co_room : option RoomId; co_tracks : option Tracks; co_media : MediaState; co_mic_before : bool;
  co_peers : gmap UserId Peer; co_watching : list UserId; co_audiences : Audiences; co_sharing : option ShareConfig; co_wanted : option Z;
  co_presented : gmap Z PublicKey
}.
Definition core (s : Session) : Core :=
  mkCore (view (se_state s)) (se_address s) (se_server s) (se_me s) (se_room s) (se_my_tracks s) (se_media s) (se_mic_before s) (se_peers s) (se_watching s) (se_audiences s)
    (fst <$> se_sharing s) (se_wanted s) (tr_presented (se_trust s)).

Lemma person_eqb_blind a b : person_eqb a b = true -> blind a = blind b.
Proof.
  unfold person_eqb. rewrite !andb_true_iff, !bool_decide_eq_true, !Bool.eqb_true_iff, Z.eqb_eq. intros H. unfold blind. naive_solver congruence.
Qed.
Lemma people_eqb_blind a b : people_eqb a b = true -> blind <$> a = blind <$> b.
Proof.
  unfold people_eqb. rewrite andb_true_iff, bool_decide_eq_true, forallb_forall. intros [Hd Hp]. apply map_eq. intros user. rewrite !lookup_fmap.
  destruct (a !! user) as [p|] eqn:Ea.
  - specialize (Hp (user, p)). cbn in Hp. rewrite <- list_elem_of_In, elem_of_map_to_list in Hp. specialize (Hp Ea).
    destruct (b !! user); [|done]. cbn. f_equal. by apply person_eqb_blind.
  - assert (user ∉ dom b) as Hb by (rewrite <- Hd; by apply not_elem_of_dom). apply not_elem_of_dom in Hb. by rewrite Hb.
Qed.
Lemma state_eqb_view a b : state_eqb a b = true -> view a = view b.
Proof.
  unfold state_eqb. rewrite !andb_true_iff, !bool_decide_eq_true, !Bool.eqb_true_iff. intros H. unfold view.
  repeat match goal with H : _ /\ _ |- _ => destruct H end. erewrite people_eqb_blind by done. congruence.
Qed.

Section Facts.
Context {outside : Outside}.

Lemma view_update f s : view (se_state (update_state f s)) = view (f (se_state s)).
Proof. unfold update_state. destruct (state_eqb _ _) eqn:E; [by apply state_eqb_view in E|done]. Qed.
Lemma update_state_rest f s : s <| se_state := se_state (update_state f s) |> <| se_out := se_out (update_state f s) |> = update_state f s.
Proof. unfold update_state. destruct s. by destruct (state_eqb _ _). Qed.

(** An update changes the view as its function does, and nothing else of the core. *)
Lemma core_update f s : core (update_state f s) = core (s <| se_state ::= f |>).
Proof. unfold core. rewrite view_update. unfold update_state. by destruct (state_eqb _ _). Qed.
Lemma quiet_update f s : (forall st, view (f st) = view st) -> core (update_state f s) = core s.
Proof. intros E. rewrite core_update. unfold core. cbn. by rewrite E. Qed.

Lemma quiet_each {A} (f : A -> Session -> Session) l s : (forall x s, core (f x s) = core s) -> core (each f l s) = core s.
Proof. intros H. unfold each. revert s. induction l as [|x l IH]; intros s; [done|]. cbn. by rewrite IH. Qed.
End Facts.

(** The parts of a handler one by one. *)
Ltac split_pair :=
  match goal with |- context [match ?x with (_, _) => _ end] =>
    lazymatch x with
    | (_, _) => fail
    | _ =>
        let a := fresh "a" in let s := fresh "s" in let E := fresh "E" in
        destruct x as [a s] eqn:E; apply (f_equal snd) in E; change (snd (a, s)) with s in E; subst s
    end
  end.
Create Rewrite HintDb quiet.
(** Fields outside the core do not count. *)
Ltac drop_field :=
  match goal with |- context [core (update ?p ?f ?s)] =>
    let E := fresh in assert (forall t, core (update p f t) = core t) as E by reflexivity; rewrite (E s); clear E
  end.
Ltac quiet := repeat first [progress cbn [fst snd] | split_pair | drop_field | progress (autorewrite with quiet) | rewrite quiet_each by (intros; quiet) | case_match]; try done.

Section Quiet.
Context {outside : Outside}.

Lemma quiet_emit o s : core (emit o s) = core s. Proof. done. Qed.
Lemma quiet_reading s : core (reading s).2 = core s. Proof. done. Qed.
Lemma quiet_request r s : core (request r s).2 = core s. Proof. done. Qed.
Lemma quiet_tell e s : core (tell e s) = core s. Proof. done. Qed.
Lemma quiet_notice t s : core (notice t s) = core s. Proof. done. Qed.
Lemma quiet_audio c s : core (audio c s) = core s. Proof. unfold audio. by destruct (se_audio s). Qed.
Lemma quiet_cue c s : core (cue c s) = core s. Proof. unfold cue. by destruct (se_audio s). Qed.
Lemma quiet_cue_if c s : core (cue_if c s) = core s. Proof. destruct c; [apply quiet_cue|done]. Qed.
Lemma quiet_set_picture user p s : core (set_picture user p s) = core s. Proof. done. Qed.
Lemma quiet_store {A} f s : core (with_store (A := A) f s).2 = core s.
Proof. unfold with_store, reading. destruct (os_others _ _) as [v file]. by destruct (f _ v file) as [[a v'] file']. Qed.
Lemma quiet_read {A} f s : core (read_store (A := A) f s).2 = core s. Proof. apply quiet_store. Qed.
Lemma quiet_sync_audio s : core (sync_audio s) = core s. Proof. unfold sync_audio. by rewrite !quiet_audio. Qed.
End Quiet.
#[export] Hint Rewrite @quiet_emit @quiet_reading @quiet_request @quiet_tell @quiet_notice @quiet_audio @quiet_cue @quiet_cue_if @quiet_set_picture
  @quiet_store @quiet_read @quiet_sync_audio : quiet.


Section Quieter.
Context {outside : Outside}.

Lemma quiet_stream_cue user c s : core (stream_cue user c s) = core s. Proof. unfold stream_cue. quiet. Qed.
Lemma quiet_room_cue user after s : core (room_cue user after s) = core s. Proof. unfold room_cue. quiet. Qed.
Lemma quiet_subscribe m k c s : core (subscribe_track m k c s) = core s. Proof. done. Qed.
Lemma quiet_unsubscribe m s : core (unsubscribe_track m s) = core s. Proof. done. Qed.
Lemma quiet_track m u c s : core (track m u c s) = core s. Proof. done. Qed.
Lemma quiet_stop_watching user s : core (stop_watching user s) = core s. Proof. unfold stop_watching. quiet. Qed.
Lemma quiet_refused r s : core (refused r s) = core s. Proof. done. Qed.
Lemma quiet_simple r s : core (simple r s) = core s. Proof. unfold simple. quiet. Qed.
Lemma quiet_key_notice n s : core (key_notice n s) = core s. Proof. done. Qed.
Lemma quiet_recover_share k s : core (recover_share k s) = core s. Proof. unfold recover_share. quiet. Qed.
Lemma quiet_remember_server name avatar s : core (remember_server name avatar s) = core s. Proof. unfold remember_server. quiet. Qed.
Lemma quiet_users_listed s : core (list_users s) = core s. Proof. unfold list_users. quiet. Qed.
Lemma quiet_call_close s : core (call_close s) = core s. Proof. done. Qed.
Lemma quiet_call_join room password s : core (call_join room password s).2 = core s. Proof. unfold call_join. quiet. Qed.
Lemma quiet_keep_avatar hash slot s : core (keep_avatar hash slot s) = core s. Proof. unfold keep_avatar. quiet. Qed.
Lemma quiet_renew r s : core (renew_encryption_key r s) = core s. Proof. unfold renew_encryption_key. quiet. Qed.
Lemma quiet_note_drops t s : core (note_drops t s) = core s. Proof. done. Qed.
Lemma quiet_ask_avatar took hash s : core (ask_avatar took hash s) = core s. Proof. unfold ask_avatar. quiet. Qed.
End Quieter.
#[export] Hint Rewrite @quiet_stream_cue @quiet_room_cue @quiet_subscribe @quiet_unsubscribe @quiet_track @quiet_stop_watching @quiet_refused @quiet_simple
  @quiet_key_notice @quiet_recover_share @quiet_remember_server @quiet_users_listed @quiet_call_close @quiet_call_join @quiet_keep_avatar @quiet_renew
  @quiet_note_drops @quiet_ask_avatar : quiet.

Section Quietest.
Context {outside : Outside}.

Lemma quiet_stop_watching_all s : core (stop_watching_all s) = core s. Proof. unfold stop_watching_all. quiet. Qed.
Lemma quiet_start_watching user share config s : core (start_watching user share config s) = core s. Proof. unfold start_watching. quiet. Qed.
Lemma quiet_avatar_fetched hash f s : core (avatar_fetched hash f s) = core s. Proof. unfold avatar_fetched. quiet. Qed.
Lemma quiet_try_push_profile s : core (try_push_profile s).2 = core s. Proof. unfold try_push_profile. quiet. Qed.
Lemma quiet_set_server_profile name picture s : core (set_server_profile name picture s).2 = core s. Proof. unfold set_server_profile. quiet. Qed.

Lemma quiet_levels t sp s : core (refresh_levels t sp s) = core s.
Proof.
  unfold refresh_levels. case_match; [done|]. case_match; [done|]. apply quiet_update. intros st. unfold view. cbn. f_equal.
  apply map_eq. intros user. rewrite !lookup_fmap, map_lookup_imap. by destruct (vw_people st !! user).
Qed.
Lemma playback_view users st :
  view (on_people (fun people => foldl (fun people (p : UserId * Playback) => alter (set_playback p.2) p.1 people) people users) st) = view st.
Proof.
  unfold view. cbn. f_equal. generalize (vw_people st). induction users as [|[user p] users IH]; intros people; [done|]. cbn. rewrite IH.
  apply map_eq. intros u. rewrite !lookup_fmap, lookup_alter. case_decide as E; [subst|done]. by destruct (people !! u).
Qed.
Lemma quiet_play_as_kept users s : core (play_as_kept users s) = core s.
Proof. unfold play_as_kept. rewrite quiet_update by (intros; apply playback_view). quiet. Qed.
Lemma quiet_key_playback p s : core (key_playback p s) = core s. Proof. unfold key_playback. quiet. Qed.

Lemma quiet_fold {A B} (f : A * Session -> B -> A * Session) l acc :
  (forall acc x, core (f acc x).2 = core acc.2) -> core (foldl f acc l).2 = core acc.2.
Proof. intros H. revert acc. induction l as [|x l IH]; intros acc; [done|]. cbn. by rewrite IH, H. Qed.
Lemma quiet_read_each {A} (f : UserId -> VerifiedKeys -> A) users s : core (read_each f users s).2 = core s.
Proof. unfold read_each. rewrite quiet_fold; [done|]. intros [l s'] user. quiet. Qed.
Lemma quiet_sent_tracks n s : core (sent_tracks n s).2 = core s.
Proof.
  unfold sent_tracks. destruct (se_my_tracks s); [|done]. rewrite quiet_fold; [done|]. intros [l s'] [[[[? ?] ?] ?] ?]. done.
Qed.
Lemma quiet_refresh_health stats s : core (refresh_health stats s) = core s.
Proof.
  unfold refresh_health. repeat (split_pair; cbn [fst snd]). rewrite quiet_update by done. rewrite quiet_sent_tracks.
  repeat drop_field. rewrite quiet_fold; [done|]. intros [rows s'] [m t]. done.
Qed.
End Quietest.
#[export] Hint Rewrite @quiet_stop_watching_all @quiet_start_watching @quiet_avatar_fetched @quiet_try_push_profile @quiet_set_server_profile @quiet_levels
  @quiet_play_as_kept @quiet_key_playback @quiet_read_each @quiet_refresh_health : quiet.

Section QuietTasks.
Context {outside : Outside}.

Lemma quiet_push_profile s : core (push_profile s) = core s. Proof. unfold push_profile. quiet. Qed.
Lemma quiet_sync_watching s : core (sync_watching s) = core s.
Proof.
  unfold sync_watching. rewrite quiet_each by (intros p s'; destruct (se_watched s' !! p.1); [done|apply quiet_start_watching]).
  apply quiet_each, quiet_stop_watching.
Qed.
Lemma quiet_health_tick stats s : core (health_tick stats s) = core s. Proof. unfold health_tick. quiet. Qed.
End QuietTasks.
#[export] Hint Rewrite @quiet_push_profile @quiet_sync_watching @quiet_health_tick : quiet.

(** ** What only the server's events and the user's commands change

    [kept] is the roster a session shows (the server, the rooms, and of each person what the
    server says of them), whether it shows itself connected, and its mic and deafen switches.
    Joining, following a room, sharing, watching and trusting leave it as it is. *)

(** Of a person, what a presence says. *)
Record Entry := mkEntryOf { en_name : str; en_avatar : option Hash; en_room : option RoomId; en_mic : bool; en_deafened : bool; en_role : Role }.
Definition entry (p : Face) : Entry := mkEntryOf (fc_name p) (fc_avatar p) (fc_room p) (fc_mic p) (fc_deafened p) (fc_role p).

Record Roster := mkRoster { ro_server : option ServerView; ro_me : option UserId; ro_role : option Role; ro_rooms : list RoomView; ro_people : gmap UserId Entry }.
Definition roster (v : View) : Roster := mkRoster (sh_server v) (sh_me v) (sh_role v) (sh_rooms v) (entry <$> sh_people v).

Record Kept := mkKept { kp_roster : Roster; kp_connection : ConnectionStatus; kp_address : str; kp_server : bytes; kp_me : UserId; kp_mic : bool; kp_deafened : bool; kp_mic_before : bool }.
Definition kept (c : Core) : Kept :=
  mkKept (roster (co_view c)) (sh_connection (co_view c)) (co_address c) (co_server c) (co_me c) (ms_mic (co_media c)) (ms_deafened (co_media c)) (co_mic_before c).

Lemma entry_imap (f : UserId -> Person -> Person) (m : gmap UserId Person) :
  (forall u p, entry (blind (f u p)) = entry (blind p)) -> entry <$> (blind <$> map_imap (fun u p => Some (f u p)) m) = entry <$> (blind <$> m).
Proof. intros H. apply map_eq. intros u. rewrite !lookup_fmap, map_lookup_imap. destruct (m !! u); cbn; [by rewrite H|done]. Qed.

Create Rewrite HintDb kept.
Ltac keep_field :=
  match goal with |- context [kept (core (update ?p ?f ?s))] =>
    let E := fresh in assert (forall t, kept (core (update p f t)) = kept (core t)) as E by reflexivity; rewrite (E s); clear E
  end.
Ltac stay := repeat first [progress cbn [fst snd] | split_pair | drop_field | keep_field | progress (autorewrite with kept quiet) | case_match]; try done.

Section Kept.
Context {outside : Outside}.

Lemma kept_update f s : (forall st, roster (view (f st)) = roster (view st) /\ vw_connection (f st) = vw_connection st) -> kept (core (update_state f s)) = kept (core s).
Proof. intros E. rewrite core_update. unfold kept, core. cbn. destruct (E (se_state s)) as [-> ->]. done. Qed.

Lemma kept_show_shares s : kept (core (show_shares s)) = kept (core s).
Proof. apply kept_update. intros st. split; [|done]. unfold roster. cbn. by rewrite entry_imap. Qed.
Lemma kept_stop_share s : kept (core (stop_share s)) = kept (core s).
Proof. unfold stop_share. destruct (se_sharing s); stay. Qed.
Lemma kept_push_watching s : kept (core (push_watching s)) = kept (core s).
Proof. unfold push_watching. rewrite quiet_sync_watching, quiet_simple. by apply kept_update. Qed.
Lemma kept_refresh_trust s : kept (core (refresh_trust s)) = kept (core s).
Proof.
  unfold refresh_trust. repeat split_pair. rewrite kept_update; [stay|]. intros st. split; [|done]. unfold roster. cbn. f_equal. rewrite entry_imap; [done|].
  intros u p. by case_match.
Qed.
End Kept.
#[export] Hint Rewrite @kept_show_shares @kept_stop_share @kept_push_watching @kept_refresh_trust : kept.

Section KeptMore.
Context {outside : Outside}.

Lemma kept_push_media_with fuel s : kept (core (push_media_with fuel s)) = kept (core s).
Proof.
  revert s. induction fuel as [|fuel IH]; intros s; [done|]. cbn [push_media_with]. set (st := fun x : State => _).
  assert (forall s, kept (core (update_state st s)) = kept (core s)) as Hst by (intros; by apply kept_update).
  case_match; [|apply Hst]. split_pair. case_match.
  - assert (forall x s', kept (core (notice x (show_shares (update_state (show_current_share None) (stop_share s'))))) = kept (core s')) as Hu.
    { intros x s'. rewrite quiet_notice, kept_show_shares, kept_update, kept_stop_share; done. }
    case_match; [rewrite IH|]; rewrite Hu; stay; apply Hst.
  - case_match; stay; apply Hst.
Qed.
Lemma kept_push_media s : kept (core (push_media s)) = kept (core s). Proof. apply kept_push_media_with. Qed.
Lemma kept_start_share w s : kept (core (start_share w s)) = kept (core s). Proof. unfold start_share. stay. Qed.
Lemma kept_take_newer a s : kept (core (take_newer a s).2) = kept (core s). Proof. unfold take_newer. stay. Qed.
Lemma kept_clear_audiences s : kept (core (clear_audiences s)) = kept (core s). Proof. unfold clear_audiences. stay. Qed.
End KeptMore.
#[export] Hint Rewrite @kept_push_media @kept_start_share @kept_take_newer @kept_clear_audiences : kept.

Section KeptMost.
Context {outside : Outside}.

Lemma kept_share_started n r s : kept (core (share_started n r s)) = kept (core s). Proof. unfold share_started. stay. Qed.
Lemma kept_end_share s : kept (core (end_share s)) = kept (core s). Proof. unfold end_share. stay. Qed.
Lemma kept_audiences_changed a s : kept (core (audiences_changed a s)) = kept (core s). Proof. unfold audiences_changed. stay. Qed.
Lemma kept_note_identities peers s : kept (core (note_identities peers s)) = kept (core s).
Proof. unfold note_identities. split_pair. destruct a as [noted t]. destruct noted; rewrite ?kept_refresh_trust, quiet_each by apply quiet_key_playback; stay. Qed.
Lemma kept_after_trust_change saved s : kept (core (after_trust_change saved s)) = kept (core s). Proof. unfold after_trust_change. stay. Qed.
Lemma kept_reset_room s : kept (core (reset_room s)) = kept (core s). Proof. unfold reset_room. stay. Qed.
End KeptMost.
#[export] Hint Rewrite @kept_share_started @kept_end_share @kept_audiences_changed @kept_note_identities @kept_after_trust_change @kept_reset_room : kept.

Section KeptRooms.
Context {outside : Outside}.

Lemma kept_set_verified user key verified s : kept (core (session_set_verified user key verified s)) = kept (core s).
Proof. unfold session_set_verified. stay. Qed.
Lemma kept_dismiss user shown s : kept (core (session_dismiss_change user shown s)) = kept (core s).
Proof. unfold session_dismiss_change. stay. Qed.
Lemma kept_sync_peers s : kept (core (sync_peers s).2) = kept (core s).
Proof.
  unfold sync_peers. split_pair. cbn [snd]. rewrite kept_show_shares. keep_field. rewrite quiet_cue_if.
  rewrite quiet_each by (intros p s'; unfold hear_mic; quiet). rewrite quiet_each by (intros p s'; unfold drop_mic; quiet). stay.
Qed.
End KeptRooms.
#[export] Hint Rewrite @kept_set_verified @kept_dismiss @kept_sync_peers : kept.

Section KeptHandlers.
Context {outside : Outside}.

Lemma kept_follow_room s : kept (core (follow_room s)) = kept (core s). Proof. unfold follow_room. stay. Qed.
Lemma kept_after_join p s : kept (core (after_join p s)) = kept (core s).
Proof. unfold after_join. split_pair. rewrite kept_update by done. rewrite kept_sync_peers, quiet_sync_audio, quiet_audio. stay. Qed.
Lemma kept_put_out s : kept (core (put_out_of_room s)) = kept (core s).
Proof. unfold put_out_of_room. rewrite kept_update by done. stay. Qed.
Lemma kept_joined p ns s : kept (core (joined p ns s)) = kept (core s).
Proof. unfold joined. rewrite kept_push_media, quiet_each by (intros; apply quiet_key_notice). rewrite quiet_cue. apply kept_after_join. Qed.
End KeptHandlers.
#[export] Hint Rewrite @kept_follow_room @kept_after_join @kept_put_out @kept_joined : kept.
