(* ===== verification/SessionShown.v ===== *)
(** * What a session shows of its call is what it holds

    The room, the share and the shares watched, the switches, and of every person what they
    share and who watches are kept twice: in the session and in the state the windows show.
    [deck] is both; [right] says that they agree, and every handler leaves them so. *)
From S2P Require Import Prelude Ordered Ids Messages Crypto JsonFile People Verified Trust Floors Servers KeysState Fragment Engine ClientState SessionState Session SessionFacts.
Open Scope Z_scope.

Record Deck := mkDeck {
  dk_people : gmap UserId (option ShareConfig * Z); dk_current : option CurrentRoom; dk_shown : bool * bool;
  dk_me : UserId; dk_room : option RoomId; dk_tracks : option Tracks; dk_media : MediaState;
  dk_peers : gmap UserId Peer; dk_watching : list UserId; dk_audiences : Audiences
}.
Definition shared (f : Face) : option ShareConfig * Z := (fc_sharing f, fc_audience f).
Definition deck (c : Core) : Deck :=
  mkDeck (shared <$> sh_people (co_view c)) (sh_current (co_view c)) (sh_mic (co_view c), sh_deafened (co_view c))
    (co_me c) (co_room c) (co_tracks c) (co_media c) (co_peers c) (co_watching c) (co_audiences c).

Definition deck_fields (d : Deck) : Deck :=
  mkDeck (dk_people d) (dk_current d) (dk_shown d) (dk_me d) (dk_room d) (dk_tracks d) (dk_media d) (dk_peers d) (dk_watching d) (dk_audiences d).
#[export] Instance fld_dk_people : Setter dk_people.
Proof. setter_of deck_fields. Defined.
#[export] Instance fld_dk_current : Setter dk_current.
Proof. setter_of deck_fields. Defined.
#[export] Instance fld_dk_shown : Setter dk_shown.
Proof. setter_of deck_fields. Defined.
#[export] Instance fld_dk_me : Setter dk_me.
Proof. setter_of deck_fields. Defined.
#[export] Instance fld_dk_room : Setter dk_room.
Proof. setter_of deck_fields. Defined.
#[export] Instance fld_dk_tracks : Setter dk_tracks.
Proof. setter_of deck_fields. Defined.
#[export] Instance fld_dk_media : Setter dk_media.
Proof. setter_of deck_fields. Defined.
#[export] Instance fld_dk_peers : Setter dk_peers.
Proof. setter_of deck_fields. Defined.
#[export] Instance fld_dk_watching : Setter dk_watching.
Proof. setter_of deck_fields. Defined.
#[export] Instance fld_dk_audiences : Setter dk_audiences.
Proof. setter_of deck_fields. Defined.

(** What [user] shares, and to how many. *)
Definition share_of (user : UserId) (d : Deck) : option ShareConfig * Z :=
  (if decide (user = dk_me d) then ms_share (dk_media d) else p ← dk_peers d !! user; pe_share p,
   match share ← first_share (if decide (user = dk_me d) then dk_tracks d else pe_tracks <$> dk_peers d !! user); receivers_of (dk_audiences d) (st_video share) with
   | Some receivers => Z.of_nat (length receivers)
   | None => 0
   end).
Definition shows_room (share : option ShareConfig) (d : Deck) : Prop := dk_current d = (fun room => mkCurrent room share (dk_watching d)) <$> dk_room d.
Definition shows_switches (d : Deck) : Prop := dk_shown d = (ms_mic (dk_media d), ms_deafened (dk_media d)).
Definition shows_others (d : Deck) : Prop := map_Forall (fun user shown => user <> dk_me d -> shown = share_of user d) (dk_people d).
Definition shows_all (d : Deck) : Prop := map_Forall (fun user shown => shown = share_of user d) (dk_people d).

(** Outside a room nobody is told what we share, so there our own entry does not count. *)
Record right (d : Deck) : Prop := {
  right_room : shows_room (ms_share (dk_media d)) d;
  right_switches : shows_switches d;
  right_others : shows_others d;
  right_me : is_Some (dk_room d) -> shows_all d
}.
(** What [push_media] makes right. *)
Record pushable (d : Deck) : Prop := { push_room : exists share, shows_room share d; push_others : shows_others d }.
Lemma right_pushable d : right d -> pushable d. Proof. intros [? _ ? _]. split; eauto. Qed.
Lemma pushable_media m d : pushable d -> pushable (d <| dk_media := m |>).
Proof.
  intros [[share Hr] Ho]. split; [by exists share|]. intros user shown Hs Hne. rewrite (Ho user shown Hs Hne). unfold share_of. cbn in *. by rewrite !decide_False by done.
Qed.

Definition deck_show (d : Deck) : Deck := d <| dk_people ::= map_imap (fun user _ => Some (share_of user d)) |>.
Lemma deck_show_all d : shows_all (deck_show d).
Proof.
  intros user shown. unfold deck_show, update. cbn. rewrite map_lookup_imap. destruct (dk_people d !! user); cbn; [|done]. by intros [= <-].
Qed.
Lemma all_others d : shows_all d -> shows_others d. Proof. intros H user shown Hs _. by apply H. Qed.
Lemma right_of_all d : shows_room (ms_share (dk_media d)) d -> shows_switches d -> shows_all d -> right d.
Proof. intros. split; [done..|by apply all_others|done]. Qed.
Lemma right_show d : shows_room (ms_share (dk_media d)) d -> shows_switches d -> right (deck_show d).
Proof. intros. apply right_of_all; [done..|apply deck_show_all]. Qed.

Lemma shared_imap (f : UserId -> Person -> Person) (m : gmap UserId Person) :
  (forall u p, shared (blind (f u p)) = shared (blind p)) -> shared <$> (blind <$> map_imap (fun u p => Some (f u p)) m) = shared <$> (blind <$> m).
Proof. intros H. apply map_eq. intros u. rewrite !lookup_fmap, map_lookup_imap. destruct (m !! u); cbn; [by rewrite H|done]. Qed.

Create Rewrite HintDb deck.
Ltac deck_field :=
  match goal with |- context [deck (core (update ?p ?f ?s))] =>
    let E := fresh in assert (forall t, deck (core (update p f t)) = deck (core t)) as E by reflexivity; rewrite (E s); clear E
  end.
Ltac same_deck := repeat first [progress cbn [fst snd] | split_pair | drop_field | deck_field | progress (autorewrite with deck quiet) | case_match]; try done.

Section Decks.
Context {outside : Outside}.

Lemma deck_update f g s :
  (forall st, shared <$> (blind <$> vw_people (f st)) = (dk_people (g (deck (core (s <| se_state := st |>)))))) ->
  (forall st, let d := g (deck (core (s <| se_state := st |>))) in (vw_current (f st), (vw_mic (f st), vw_deafened (f st))) = (dk_current d, dk_shown d)) ->
  (forall d, let d' := g d in (dk_me d', dk_room d', dk_tracks d', dk_media d', dk_peers d', dk_watching d', dk_audiences d') =
    (dk_me d, dk_room d, dk_tracks d, dk_media d, dk_peers d, dk_watching d, dk_audiences d)) ->
  deck (core (update_state f s)) = g (deck (core s)).
Proof.
  intros Hp Hv Hr. rewrite core_update. specialize (Hp (se_state s)). specialize (Hv (se_state s)). cbn zeta in Hv, Hr.
  change (core (s <| se_state := se_state s |>)) with (core s) in Hp, Hv. specialize (Hr (deck (core s))).
  destruct (g (deck (core s))) as [p c sw me room tr m pe w a]. cbn in *. injection Hv as Hc <-. injection Hr as -> -> -> -> -> -> ->.
  unfold deck, core. cbn. by rewrite Hp, Hc.
Qed.
Lemma deck_update_same f s : (forall st, shared <$> (blind <$> vw_people (f st)) = shared <$> (blind <$> vw_people st)) ->
  (forall st, (vw_current (f st), vw_mic (f st), vw_deafened (f st)) = (vw_current st, vw_mic st, vw_deafened st)) -> deck (core (update_state f s)) = deck (core s).
Proof. intros Hp Hv. apply (deck_update f (fun d => d)); [exact Hp|intros st; cbn; specialize (Hv st); congruence|done]. Qed.

Lemma deck_show_shares s : deck (core (show_shares s)) = deck_show (deck (core s)).
Proof.
  unfold show_shares. apply (deck_update _ deck_show); [|done|done]. intros st. unfold deck_show, update. cbn. apply map_eq. intros u.
  rewrite !lookup_fmap, map_lookup_imap, map_lookup_imap, !lookup_fmap. by destruct (vw_people st !! u).
Qed.
Lemma deck_stop_share s : deck (core (stop_share s)) = (deck (core s)) <| dk_media ::= (fun m => mkMediaState (ms_mic m) (ms_deafened m) None) |>.
Proof. unfold stop_share. by case_match. Qed.
Lemma deck_push_watching s : deck (core (push_watching s)) =
  (deck (core s)) <| dk_current ::= fmap (fun c => mkCurrent (cr_room c) (cr_sharing c) (se_watching s)) |>.
Proof.
  unfold push_watching. rewrite quiet_sync_watching, quiet_simple.
  by apply (deck_update _ (fun d => d <| dk_current ::= fmap (fun c => mkCurrent (cr_room c) (cr_sharing c) (se_watching s)) |>)).
Qed.
Lemma right_push_watching s : (exists ids, dk_current (deck (core s)) = (fun room => mkCurrent room (ms_share (se_media s)) ids) <$> se_room s) ->
  shows_switches (deck (core s)) -> shows_others (deck (core s)) -> (is_Some (se_room s) -> shows_all (deck (core s))) -> right (deck (core (push_watching s))).
Proof.
  intros [ids Hc] Hs Ho Ha. rewrite deck_push_watching. split; [|exact Hs|exact Ho|exact Ha].
  unfold shows_room, update. cbn in *. rewrite Hc. by destruct (se_room s).
Qed.
Lemma deck_refresh_trust s : deck (core (refresh_trust s)) = deck (core s).
Proof.
  unfold refresh_trust. repeat split_pair. rewrite deck_update_same; [same_deck| |done]. intros st. cbn. rewrite shared_imap; [done|]. intros u p. by case_match.
Qed.
End Decks.
#[export] Hint Rewrite @deck_show_shares @deck_stop_share @deck_refresh_trust : deck.

Section Deeper.
Context {outside : Outside}.

Lemma deck_note_identities peers s : deck (core (note_identities peers s)) = deck (core s).
Proof. unfold note_identities. split_pair. destruct a as [noted t]. destruct noted; rewrite ?deck_refresh_trust, quiet_each by apply quiet_key_playback; same_deck. Qed.
Lemma deck_after_trust_change saved s : deck (core (after_trust_change saved s)) = deck (core s). Proof. unfold after_trust_change. same_deck. Qed.
Lemma deck_set_verified user key verified s : deck (core (session_set_verified user key verified s)) = deck (core s).
Proof. unfold session_set_verified. split_pair. repeat case_match; rewrite ?quiet_notice, ?deck_after_trust_change; same_deck. Qed.
Lemma deck_dismiss user shown s : deck (core (session_dismiss_change user shown s)) = deck (core s).
Proof. unfold session_dismiss_change. split_pair. repeat case_match; rewrite ?quiet_notice, ?deck_after_trust_change; same_deck. Qed.

(** The members the keys' manager names at the session's next reading. *)
Definition members (s : Session) : gmap UserId Peer := collect_map ((fun p => (pe_user p, p)) <$> os_room_peers (se_reads s)).
Lemma deck_sync_peers s : deck (core (sync_peers s).2) = deck_show ((deck (core s)) <| dk_peers := members s |>).
Proof.
  unfold sync_peers. cbn [reading fst snd]. rewrite deck_show_shares. f_equal. fold (members s). set (s1 := cue_if _ _).
  assert (deck (core s1) = deck (core s)) as <-; [|done].
  unfold s1. rewrite quiet_cue_if. rewrite quiet_each by (intros p s'; unfold hear_mic; quiet). rewrite quiet_each by (intros p s'; unfold drop_mic; quiet).
  by rewrite quiet_play_as_kept, deck_note_identities.
Qed.
Definition empty_room (d : Deck) : Deck :=
  d <| dk_media ::= (fun m => mkMediaState (ms_mic m) (ms_deafened m) None) |> <| dk_room := None |> <| dk_tracks := None |> <| dk_peers := ∅ |> <| dk_watching := [] |>.
Lemma deck_reset_room s : deck (core (reset_room s)) = deck_show (empty_room (deck (core s))).
Proof.
  unfold reset_room. rewrite deck_show_shares. f_equal. set (s1 := stop_watching_all _).
  assert (deck (core s1) = (deck (core s)) <| dk_media ::= (fun m => mkMediaState (ms_mic m) (ms_deafened m) None) |>) as E by (unfold s1; rewrite quiet_stop_watching_all; drop_field; apply deck_stop_share).
  clearbody s1. unfold empty_room. by rewrite <- E.
Qed.
Lemma deck_take_newer a s : exists held, deck (core (take_newer a s).2) = (deck (core s)) <| dk_audiences := held |>.
Proof. unfold take_newer. case_match; cbn [snd]; eexists; [done|]. by instantiate (1 := se_audiences s). Qed.
Lemma take_newer_same a s : (take_newer a s).1 = false -> (take_newer a s).2 = s. Proof. unfold take_newer. by case_match. Qed.
End Deeper.
#[export] Hint Rewrite @deck_note_identities @deck_after_trust_change @deck_set_verified @deck_dismiss : deck.

Section Right.
Context {outside : Outside}.

Definition is_right (s : Session) : Prop := right (deck (core s)).
Lemma quiet_right s s' : core s' = core s -> is_right s -> is_right s'. Proof. unfold is_right. by intros ->. Qed.
Lemma same_right s s' : deck (core s') = deck (core s) -> is_right s -> is_right s'. Proof. unfold is_right. by intros ->. Qed.

(** ** Pushing what is to be shown *)

Definition shown_media (d : Deck) : Deck :=
  d <| dk_current ::= fmap (fun c => mkCurrent (cr_room c) (ms_share (dk_media d)) (cr_watching c)) |> <| dk_shown := (ms_mic (dk_media d), ms_deafened (dk_media d)) |>.
Lemma deck_show_media s :
  deck (core (update_state (fun st => show_current_share (ms_share (se_media s)) (set_switches (ms_mic (se_media s)) (ms_deafened (se_media s)) st)) s)) = shown_media (deck (core s)).
Proof. by apply (deck_update _ (fun d => d <| dk_current ::= _ |> <| dk_shown := _ |>)). Qed.
Lemma shown_media_room d : pushable d -> shows_room (ms_share (dk_media d)) (shown_media d).
Proof. intros [[share Hr] _]. unfold shows_room, shown_media, update in *. cbn. rewrite Hr. by destruct (dk_room d). Qed.
Lemma shown_media_right d : pushable d -> dk_room d = None -> right (shown_media d).
Proof. intros Hp E. split; [exact (shown_media_room d Hp)|done|exact (push_others d Hp)|cbn; rewrite E; by intros []]. Qed.

(** The share refused is dropped, and shown so. *)
Lemma deck_undo text s :
  let d := (deck (core s)) <| dk_media ::= (fun m => mkMediaState (ms_mic m) (ms_deafened m) None) |> in
  deck (core (notice text (show_shares (update_state (show_current_share None) (stop_share s))))) =
  deck_show (d <| dk_current ::= fmap (fun c => mkCurrent (cr_room c) None (cr_watching c)) |>).
Proof.
  cbn zeta. rewrite quiet_notice, deck_show_shares. f_equal. rewrite <- deck_stop_share. unfold show_current_share.
  by apply (deck_update _ (fun d => d <| dk_current ::= fmap (fun c => mkCurrent (cr_room c) None (cr_watching c)) |>)).
Qed.
Lemma right_undo text s : is_right s -> is_right (notice text (show_shares (update_state (show_current_share None) (stop_share s)))).
Proof.
  intros [Hr Hs _ _]. unfold is_right. rewrite deck_undo. set (d := deck (core s)) in *. clearbody d. apply right_show; [|exact Hs].
  unfold shows_room, update in *. cbn in *. rewrite Hr. by destruct (dk_room d).
Qed.
Lemma right_current d current : current = (fun room => mkCurrent room (ms_share (dk_media d)) (dk_watching d)) <$> dk_room d -> shows_switches d ->
  right ((deck_show d) <| dk_current := current |>).
Proof.
  intros -> Hs. split; [done|exact Hs| |].
  - intros user shown Hu _. exact (deck_show_all d user shown Hu).
  - intros _ user shown Hu. exact (deck_show_all d user shown Hu).
Qed.
Lemma right_push_media_with fuel s : (fuel <> O -> pushable (deck (core s))) -> (fuel = O -> is_right s) -> is_right (push_media_with fuel s).
Proof.
  revert s. induction fuel as [|fuel IH]; intros s Hp Hr; [by apply Hr|]. specialize (Hp ltac:(done)). clear Hr. cbn [push_media_with].
  set (s1 := update_state _ s). assert (deck (core s1) = shown_media (deck (core s))) as E1 by apply deck_show_media. clearbody s1.
  assert (se_room s1 = se_room s) as Er by exact (f_equal dk_room E1). rewrite Er.
  destruct (se_room s) as [room|] eqn:Eroom; [|unfold is_right; rewrite E1; by apply shown_media_right]. split_pair. set (s2 := show_shares _).
  assert (deck (core s2) = deck_show (shown_media (deck (core s)))) as E2 by (unfold s2; rewrite deck_show_shares, !quiet_audio; by rewrite E1). clearbody s2.
  assert (is_right s2) as H2 by (unfold is_right; rewrite E2; apply right_show; [exact (shown_media_room _ Hp)|done]).
  assert (forall r, core (request r s2).2 = core s2) as Hq by done. set (s3 := (request _ s2).2). assert (core s3 = core s2) as E3 by apply Hq. clearbody s3.
  case_match.
  - assert (forall text, is_right (notice text (show_shares (update_state (show_current_share None) (stop_share s3))))) as Hu.
    { intros text. apply right_undo. by apply (quiet_right s2). }
    case_match; [|apply Hu]. apply IH; [intros _; by apply right_pushable, Hu|intros _; apply Hu].
  - case_match; (apply (quiet_right s2); [|done]); [by drop_field|by rewrite quiet_refused].
Qed.
Lemma right_push_media s : pushable (deck (core s)) -> is_right (push_media s).
Proof. intros H. by apply right_push_media_with. Qed.
(** The second push has no share to be refused: a third never follows. *)
Lemma push_media_unshared more s : ms_share (se_media s) = None -> push_media_with (S more) s = push_media_with 1 s.
Proof.
  intros H. cbn [push_media_with]. case_match; [|done]. split_pair. unfold refuses_share_start. rewrite H.
  by rewrite (bool_decide_eq_false_2 (is_Some None)), andb_false_r by (by intros []).
Qed.
Lemma undone_shares_nothing text s : ms_share (se_media (notice text (show_shares (update_state (show_current_share None) (stop_share s))))) = None.
Proof.
  assert (forall x, se_media x = dk_media (deck (core x))) as -> by done. rewrite deck_undo. generalize (deck (core s)). intros d. done.
Qed.
Lemma push_media_twice more s : push_media_with (S (S more)) s = push_media s.
Proof.
  assert (forall s, ms_share (se_media s) = None -> push_media_with (S more) s = push_media_with 1 s) as H by (intros; by apply push_media_unshared).
  unfold push_media. revert H. generalize (S more), 1%nat. intros a b H. cbn [push_media_with]. set (s1 := update_state _ s). set (s2 := show_shares _). clearbody s1 s2.
  destruct (se_room s1); [|done]. split_pair. match goal with |- context [@snd _ _ (request ?r s2)] => set (s3 := (request r s2).2); clearbody s3 end.
  case_match; [|done]. case_match; [|done]. apply H, undone_shares_nothing.
Qed.
(** Another media state pushed. *)
Lemma right_push_changed s0 s m : is_right s0 -> deck (core s) = (deck (core s0)) <| dk_media := m |> -> is_right (push_media s).
Proof. intros H E. apply right_push_media. rewrite E. by apply pushable_media, right_pushable. Qed.

Lemma deck_media f s : deck (core (s <| se_media ::= f |>)) = (deck (core s)) <| dk_media ::= f |>. Proof. done. Qed.
Lemma right_end_share s : is_right s -> is_right (end_share s).
Proof.
  intros H. unfold end_share. set (s1 := match ms_share _ with Some _ => _ | None => s end). assert (core s1 = core s) as E by (unfold s1; case_match; [apply quiet_cue|done]).
  clearbody s1. eapply right_push_changed; [exact H|]. rewrite deck_stop_share, E. done.
Qed.
Lemma right_share_started n started s : is_right s -> is_right (share_started n started s).
Proof.
  intros H. unfold share_started. case_decide; [|by case_match]. destruct started; [|done..]. cbn zeta. set (s1 := cue _ _).
  eapply right_push_changed; [exact H|]. unfold s1. rewrite quiet_cue. repeat deck_field. rewrite quiet_set_picture, deck_media. deck_field. done.
Qed.
Lemma right_set_media m s : is_right s -> is_right (set_media_switches m s).
Proof. intros H. unfold set_media_switches. eapply right_push_changed; [exact H|]. by rewrite deck_media. Qed.

(** ** Into a room and out of it *)

Definition switched (s : Session) : Prop := shows_switches (deck (core s)).
Definition in_room (room : option RoomId) (tracks : option Tracks) (a : Audiences) (d : Deck) : Deck :=
  (empty_room d) <| dk_room := room |> <| dk_tracks := tracks |> <| dk_audiences := a |>.
Lemma show_people f d : deck_show (d <| dk_people ::= map_imap (fun user shown => Some (f user shown)) |>) = deck_show d.
Proof.
  destruct d as [people c sw me room tr m pe w a]. unfold deck_show, update. cbn. unfold fld_dk_people. cbn. f_equal. apply map_eq. intros u.
  rewrite !map_lookup_imap. by destruct (people !! u).
Qed.
Lemma show_in_room room tracks a peers d :
  deck_show ((deck_show (empty_room d)) <| dk_room := room |> <| dk_tracks := tracks |> <| dk_audiences := a |> <| dk_peers := peers |>) =
  deck_show ((in_room room tracks a d) <| dk_peers := peers |>).
Proof.
  rewrite <- (show_people (fun user _ => share_of user (empty_room d)) ((in_room room tracks a d) <| dk_peers := peers |>)). by destruct d.
Qed.
Lemma deck_enter room tracks s : deck (core (s <| se_room := room |> <| se_my_tracks := tracks |>)) = (deck (core s)) <| dk_room := room |> <| dk_tracks := tracks |>.
Proof. done. Qed.
Lemma deck_clear_audiences s : deck (core (clear_audiences s)) = (deck (core s)) <| dk_audiences := mkAudiences (as_seq (se_audiences s)) [] |>. Proof. done. Qed.
Lemma deck_entered p s : let s' := s <| se_room := pl_room p |> <| se_my_tracks := pl_tracks p |> in
  exists held, deck (core (match pl_room p with Some _ => (take_newer (pl_audiences p) s').2 | None => clear_audiences s' end)) =
    (deck (core s)) <| dk_room := pl_room p |> <| dk_tracks := pl_tracks p |> <| dk_audiences := held |>.
Proof.
  cbn zeta. rewrite <- deck_enter. set (s' := _ <| se_my_tracks := _ |>). clearbody s'. destruct (pl_room p); [apply deck_take_newer|]. eexists. apply deck_clear_audiences.
Qed.
Lemma deck_after_join p s : exists peers held, deck (core (after_join p s)) =
  (deck_show ((in_room (pl_room p) (pl_tracks p) held (deck (core s))) <| dk_peers := peers |>)) <| dk_current := (fun room => mkCurrent room None []) <$> pl_room p |>.
Proof.
  unfold after_join. set (s1 := reset_room _). assert (deck (core s1) = deck_show (empty_room (deck (core s)))) as E1 by (unfold s1; rewrite deck_reset_room; by rewrite quiet_emit).
  clearbody s1. destruct (deck_entered p s1) as [held E2]. cbn zeta in E2 |- *. set (s2 := match pl_room p with Some _ => _ | None => _ end) in *.
  clearbody s2. split_pair. set (s3 := sync_audio _). assert (core s3 = core s2) as E3 by (unfold s3; by rewrite quiet_sync_audio, quiet_audio). clearbody s3.
  exists (members s3), held. rewrite (deck_update _ (fun d => d <| dk_current := (fun room => mkCurrent room None []) <$> pl_room p |>)) by done.
  rewrite deck_sync_peers, E3, E2, E1. by rewrite show_in_room.
Qed.
Lemma right_after_join p s : switched s -> is_right (after_join p s).
Proof.
  intros Hs. unfold is_right. destruct (deck_after_join p s) as (peers & held & ->). unfold switched in Hs. set (d := deck (core s)) in *. clearbody d.
  set (d' := _ <| dk_peers := peers |>). assert (shows_switches d' /\ dk_room d' = pl_room p /\ dk_watching d' = [] /\ ms_share (dk_media d') = None) as (Hs' & Hr & Hw & Hsh) by (by destruct d).
  clearbody d'. apply right_current; [by rewrite Hr, Hw, Hsh|exact Hs'].
Qed.
Lemma right_switched s : is_right s -> switched s. Proof. intros H. apply H. Qed.
Lemma right_joined p ns s : switched s -> is_right (joined p ns s).
Proof.
  intros Hs. unfold joined. apply right_push_media. rewrite quiet_each by (intros; apply quiet_key_notice). rewrite quiet_cue. by apply right_pushable, right_after_join.
Qed.
Lemma right_put_out s : switched s -> is_right (put_out_of_room s).
Proof.
  intros Hs. unfold put_out_of_room, is_right. rewrite (deck_update _ (fun d => d <| dk_current := None |>)) by done. rewrite !quiet_audio.
  rewrite deck_clear_audiences. set (s0 := emit _ s). pose proof (deck_reset_room s0) as E. change (deck (core s0)) with (deck (core s)) in E.
  set (s1 := reset_room s0) in *. clearbody s1. unfold switched in Hs. set (d := deck (core s)) in *. clearbody d.
  rewrite E. split; [done|exact Hs| |by intros []]. intros user shown Hsh Hne. cbn in Hsh. rewrite map_lookup_imap in Hsh.
  destruct (dk_people d !! user); [|done]. injection Hsh as <-. cbn in Hne. unfold share_of. cbn. by rewrite !decide_False, !lookup_empty by done.
Qed.
Lemma right_sync_peers s : is_right s -> is_right (sync_peers s).2.
Proof. intros [Hr Hs _ _]. unfold is_right. rewrite deck_sync_peers. by apply right_show. Qed.
Lemma right_push_watching' s0 s : is_right s0 -> (exists ids, deck (core s) = (deck (core s0)) <| dk_watching := ids |>) -> is_right (push_watching s).
Proof.
  intros [Hr Hs Ho Ha] [ids E]. apply right_push_watching; rewrite ?E; [|exact Hs|exact Ho|].
  - exists (se_watching s0). change (dk_current (deck (core s0)) = (fun room => mkCurrent room (ms_share (se_media s)) (se_watching s0)) <$> se_room s).
    change (se_media s) with (dk_media (deck (core s))). change (se_room s) with (dk_room (deck (core s))). rewrite E. exact Hr.
  - change (se_room s) with (dk_room (deck (core s))). rewrite E. exact Ha.
Qed.
Lemma right_follow_room s : is_right s -> is_right (follow_room s).
Proof.
  intros H. unfold follow_room. pose proof (right_sync_peers s H) as H1. destruct (sync_peers s) as [changed s']. cbn [snd] in H1.
  case_match; [|done]. apply (right_push_watching' s'); [done|]. by exists (se_watching s').
Qed.
Lemma right_audiences_changed a s : is_right s -> is_right (audiences_changed a s).
Proof.
  intros H. unfold audiences_changed. pose proof (deck_take_newer a s) as E. pose proof (take_newer_same a s) as Es.
  destruct (take_newer a s) as [taken s']. cbn [fst snd] in *. destruct taken; cbn [negb]; [|by rewrite Es].
  unfold is_right. rewrite deck_show_shares. set (s1 := match _ with Some _ => _ | None => _ end). assert (core s1 = core s') as -> by (unfold s1; quiet).
  destruct E as [held ->]. destruct H as [Hr Hs _ _]. by apply right_show.
Qed.
End Right.

(** ** Handlers *)

Section Handlers.
Context {outside : Outside}.

Lemma right_call_joining room password s (refuse : str -> Session -> Session) : (forall e s, core (refuse e s) = core s) -> is_right s ->
  is_right (let '(result, s) := call_join room password s in match result with inl (p, ns) => joined p ns s | inr e => refuse e s end).
Proof.
  intros Hr H. split_pair. assert (is_right (call_join room password s).2) as H' by (by apply (quiet_right s); [apply quiet_call_join|]).
  destruct a as [[p ns]|e]; [by apply right_joined, right_switched|by apply (quiet_right _ _ (Hr _ _))].
Qed.
Lemma deck_connection c s : deck (core (update_state (set_connection c) s)) = deck (core s). Proof. by apply deck_update_same. Qed.
Lemma right_leave_server s : is_right s -> is_right (leave_server s).2.
Proof.
  intros H. unfold leave_server. split_pair. assert (is_right (request (RemoveUser (se_me s) false) s).2) as H1 by exact H. set (s1 := (request _ s).2) in *. clearbody s1.
  destruct (match a with inl RespOk => _ | _ => _ end) as [removed s2] eqn:E2.
  assert (core s2 = core s1) as E by (destruct a as [r|e]; [destruct r|]; by injection E2 as <- <-). clear E2.
  assert (is_right s2) as H2 by (by apply (quiet_right s1)). destruct removed as [[]|]; [|by apply (quiet_right s2)|done].
  cbn [reading]. destruct (known_leave _ _ _ _) as [[ok known] file]. cbn [snd]. apply (same_right s2); [|done]. unfold tell. rewrite quiet_emit, deck_connection.
  unfold call_close. rewrite !quiet_emit. repeat drop_field. by rewrite quiet_emit.
Qed.
Lemma right_sound user sound level s : is_right s ->
  is_right (update_state (on_people (alter (fun p => set_playback (playback_set (pn_playback p) sound level) p) user)) s).
Proof.
  apply same_right, deck_update_same; [|done]. intros st. cbn. apply map_eq. intros u. rewrite !lookup_fmap, lookup_alter. case_decide as E; [subst|done]. by destruct (vw_people st !! u).
Qed.
Lemma right_watching f s : is_right s -> is_right (push_watching (s <| se_watching ::= f |>)).
Proof. intros H. apply (right_push_watching' s); [done|]. by exists (f (se_watching s)). Qed.
Lemma right_push_watching_same s : is_right s -> is_right (push_watching s).
Proof. intros H. apply (right_push_watching' s); [done|]. by exists (se_watching s). Qed.

Lemma right_command c s : is_right s -> is_right (command c s).2.
Proof.
  intros H. assert (forall s', core s' = core s -> is_right s') as Hq by (intros s' E; by apply (quiet_right s)).
  destruct c; cbn [command].
  - pose proof (right_call_joining room None s (fun e s => notice (lit "Couldn't join: " ++ e) s) ltac:(done) H) as Hj. by destruct (call_join room None s).
  - pose proof (right_call_joining (Some room) (Some password) s (fun e s => tell (EvPasswordRefused e) s) ltac:(done) H) as Hj. by destruct (call_join _ _ s).
  - apply right_set_media, Hq. apply quiet_cue_if.
  - set (s1 := if Bool.eqb deafened _ then s else _). assert (core s1 = core s) as E1 by (unfold s1; case_match; [done|apply quiet_cue]). clearbody s1.
    destruct (set_deafened _ _ _) as [media mic_before]. cbn [snd]. apply right_set_media. apply (same_right s1); [by deck_field|]. by apply Hq.
  - cbn [snd]. apply (same_right s); [|done]. unfold start_share. repeat case_match; cbn zeta; rewrite ?quiet_emit; same_deck.
  - by apply right_end_share.
  - cbn [snd]. case_decide; [by apply right_push_watching_same|]. apply (right_push_watching' s); [done|]. rewrite quiet_stream_cue. by eexists.
  - cbn [snd]. case_decide; [|by apply right_push_watching_same]. apply (right_push_watching' s); [done|]. rewrite quiet_stream_cue. by eexists.
  - apply right_sound. case_match; apply Hq; drop_field; by rewrite quiet_audio.
  - apply Hq. cbn [snd]. rewrite quiet_push_profile. by drop_field.
  - pose proof (quiet_set_server_profile name picture s) as E. destruct (set_server_profile name picture s) as [response s']. by apply Hq.
  - done.
  - apply Hq, quiet_simple.
  - apply Hq, quiet_simple.
  - apply Hq, quiet_simple.
  - apply Hq, quiet_simple.
  - pose proof (quiet_request CreateInvite s) as E. destruct (request CreateInvite s) as [response s']. cbn [snd] in *. apply Hq. destruct response as [r|]; [destruct r|]; exact E.
  - pose proof (quiet_request ListUsers s) as E. destruct (request ListUsers s) as [response s']. cbn [snd] in *. apply Hq. destruct response as [r|]; [destruct r|]; exact E.
  - apply Hq. cbn [snd]. by rewrite quiet_users_listed, quiet_simple.
  - apply Hq, quiet_simple.
  - apply Hq. cbn [snd]. by rewrite quiet_users_listed, quiet_simple.
  - apply (same_right s); [apply deck_set_verified|done].
  - apply (same_right s); [apply deck_dismiss|done].
  - apply (same_right s); [apply deck_refresh_trust|done].
  - by apply right_leave_server.
  - apply (same_right s); [by cbn [snd]; rewrite deck_connection|done].
Qed.
End Handlers.

Section Welcome.
Context {outside : Outside}.

Definition plain (people : gmap UserId Person) : Prop := map_Forall (fun _ p => shared (blind p) = (None, 0)) people.
Lemma plain_people ps st : plain (vw_people st) -> plain (vw_people (foldl (fun st (p : Presence * Playback) => add_person (pr_user p.1) (person p.1 p.2) st) st ps)).
Proof.
  revert st. induction ps as [|[p playback] ps IH]; intros st H; [done|]. cbn [foldl]. apply IH. unfold add_person. case_match; [|done].
  by apply map_Forall_insert_2.
Qed.
Lemma switches_people ps st : let st' := foldl (fun st (p : Presence * Playback) => add_person (pr_user p.1) (person p.1 p.2) st) st ps in
  vw_mic st' = vw_mic st /\ vw_deafened st' = vw_deafened st.
Proof. cbn zeta. revert st. induction ps as [|p ps IH]; intros st; [done|]. cbn [foldl]. destruct (IH (add_person (pr_user p.1) (person p.1 p.2) st)) as [-> ->]. unfold add_person. by case_match. Qed.
Lemma switches_rooms rooms st : let st' := foldl (fun st room => add_room (room_view room) st) st rooms in vw_mic st' = vw_mic st /\ vw_deafened st' = vw_deafened st.
Proof. cbn zeta. revert st. induction rooms as [|r rooms IH]; intros st; [done|]. cbn [foldl]. by destruct (IH (add_room (room_view r) st)) as [-> ->]. Qed.
(** A session in no room, with nobody in it. *)
Definition outside_rooms (d : Deck) : Prop := dk_room d = None /\ dk_peers d = ∅.
Lemma right_apply_welcome w s : outside_rooms (deck (core s)) -> is_right (apply_welcome w s).
Proof.
  intros [Hroom Hpeers]. unfold apply_welcome. set (s0 := s <| se_audiences := _ |> <| se_server_profile := _ |>).
  assert (outside_rooms (deck (core s0))) as Ho by done. clearbody s0. set (s1 := remember_server _ _ s0).
  assert (core s1 = core s0) as E1 by apply quiet_remember_server. assert (outside_rooms (deck (core s1))) as Ho1 by (by rewrite E1). clearbody s1. clear Hroom Hpeers.
  set (change := fun st : State => _). set (s2 := update_state change s1).
  assert (is_right s2) as H2.
  { unfold is_right, s2. rewrite core_update. destruct Ho1 as [Hroom Hpeers].
    assert (forall st, vw_current (change st) = None /\ vw_mic (change st) = ms_mic (se_media s1) /\ vw_deafened (change st) = ms_deafened (se_media s1) /\ plain (vw_people (change st))) as Hc.
    { intros st. unfold change. set (st2 := on_people (fun _ => ∅) _). set (ps := zip _ _).
      assert (vw_mic st2 = ms_mic (se_media s1) /\ vw_deafened st2 = ms_deafened (se_media s1)) as [Hm Hd] by (unfold st2; cbn; split; apply switches_rooms).
      pose proof (plain_people ps st2 (map_Forall_empty _)) as Hp. destruct (switches_people ps st2) as [Hm' Hd']. split_and!; [done|exact (eq_trans Hm' Hm)|exact (eq_trans Hd' Hd)|exact Hp]. }
    destruct (Hc (se_state s1)) as (Hcur & Hm & Hd & Hp). clearbody change. clear Hc. split.
    - unfold shows_room. cbn in *. by rewrite Hcur, Hroom.
    - unfold shows_switches. cbn. by rewrite Hm, Hd.
    - intros user shown Hs Hne. cbn in Hs, Hne. rewrite !lookup_fmap in Hs. destruct (vw_people _ !! user) as [p|] eqn:Ep; [|done]. injection Hs as <-.
      rewrite (Hp user p Ep). unfold share_of. cbn in *. by rewrite !decide_False, Hpeers, lookup_empty by done.
    - intros [room Hr]. cbn in *. congruence. }
  clearbody s2. assert (is_right (refresh_trust s2)) as H3 by (apply (same_right s2); [apply deck_refresh_trust|done]).
  destruct (pl_room (we_placement w)); [|done]. by apply right_after_join, right_switched.
Qed.
End Welcome.

Section Steps.
Context {outside : Outside}.

Lemma right_list s f : (forall st, vw_people (f st) = vw_people st /\ vw_current (f st) = vw_current st /\ vw_mic (f st) = vw_mic st /\ vw_deafened (f st) = vw_deafened st) ->
  is_right s -> is_right (update_state f s).
Proof.
  intros E. apply same_right, deck_update_same; intros st; destruct (E st) as (Hp & Hc & Hm & Hd); [by rewrite Hp|congruence].
Qed.
(** One person's entry set to what it should be. *)
Lemma right_person user p s s' : is_right s -> core s' = core s -> shared (blind p) = share_of user (deck (core s)) ->
  is_right (update_state (fun st => add_person user (set_speaking (match vw_people st !! user with Some old => pn_speaking old | None => false end) p) st) s').
Proof.
  intros [Hr Hs Ho Ha] E Ep. unfold is_right. rewrite core_update. set (f := fun st : State => _).
  assert (forall st, vw_current (f st) = vw_current st /\ vw_mic (f st) = vw_mic st /\ vw_deafened (f st) = vw_deafened st /\
    (forall u q, vw_people (f st) !! u = Some q -> (u = user /\ shared (blind q) = shared (blind p)) \/ vw_people st !! u = Some q)) as Hf.
  { intros st. unfold f, add_person. case_match; [|by eauto]. split_and!; [done..|]. intros u q. cbn. rewrite lookup_insert_Some. intros [[<- <-]|[_ ?]]; [by left|by right]. }
  clearbody f. destruct (Hf (se_state s')) as (Hc & Hm & Hd & Hp). clear Hf.
  assert (deck (core (s' <| se_state ::= f |>)) = (deck (core s')) <| dk_people := shared <$> (blind <$> vw_people (f (se_state s'))) |>) as ->.
  { unfold deck, core, update. cbn. by rewrite Hc, Hm, Hd. }
  assert (forall u x, (shared <$> (blind <$> vw_people (f (se_state s')))) !! u = Some x -> (u = user /\ x = share_of user (deck (core s))) \/ dk_people (deck (core s)) !! u = Some x) as Hx.
  { intros u x. rewrite !lookup_fmap. destruct (vw_people _ !! u) as [q|] eqn:Eq; [|done]. intros [= <-]. destruct (Hp u q Eq) as [[-> Es]|Eq']; [left; by rewrite Es, Ep|right].
    rewrite <- E. cbn. by rewrite !lookup_fmap, Eq'. }
  rewrite E. set (d := deck (core s)) in *. clearbody d. split; [exact Hr|exact Hs| |].
  - intros u x Hu Hne. destruct (Hx u x Hu) as [[-> ->]|Hu']; [done|by apply Ho].
  - intros Hroom u x Hu. destruct (Hx u x Hu) as [[-> ->]|Hu']; [done|by apply (Ha Hroom)].
Qed.
Lemma right_removed user s : is_right s -> is_right (update_state (on_people (delete user)) s).
Proof.
  intros [Hr Hs Ho Ha]. unfold is_right. rewrite (deck_update _ (fun d => d <| dk_people ::= delete user |>)) by (intros; cbn; by rewrite ?fmap_delete).
  set (d := deck (core s)) in *. clearbody d. split; [exact Hr|exact Hs| |].
  - intros u x Hu. cbn in Hu. apply lookup_delete_Some in Hu as [_ Hu]. by apply Ho.
  - intros Hroom u x Hu. cbn in Hu. apply lookup_delete_Some in Hu as [_ Hu]. by apply (Ha Hroom).
Qed.

Lemma right_server_event e s : is_right s -> is_right (server_event e s).
Proof.
  intros H. assert (forall s', core s' = core s -> is_right s') as Hq by (intros s' E; by apply (quiet_right s)).
  assert (forall s', deck (core s') = deck (core s) -> is_right s') as Hd by (intros s' E; by apply (same_right s)).
  destruct e; cbn [server_event]; try done.
  - destruct (read_store _ _) as [trust s1] eqn:E1. assert (core s1 = core s) as Ek by (apply (f_equal snd) in E1; cbn [snd] in E1; subst s1; by rewrite quiet_read, quiet_room_cue).
    apply right_follow_room. eapply same_right; [apply deck_refresh_trust|]. apply (right_person _ _ s); [done|exact Ek|]. rewrite <- Ek. done.
  - apply right_follow_room, right_removed, Hq, quiet_room_cue.
  - by apply right_list.
  - by apply right_list.
  - apply right_list; [done|]. case_decide; [|done]. eapply quiet_right; [apply quiet_notice|]. by apply right_put_out, right_switched.
  - by apply right_list.
  - case_decide; [by apply right_follow_room|done].
  - case_match; [case_match|]; [apply Hq, quiet_recover_share|done..].
  - apply Hq, quiet_each. intros; apply quiet_note_drops.
  - apply Hq, quiet_users_listed.
  - case_decide; [by apply right_list|done].
  - apply Hq, quiet_users_listed.
  - apply right_list; [done|]. apply Hq, quiet_remember_server.
  - case_decide; [|done]. eapply quiet_right; [apply quiet_notice|]. by apply right_put_out, right_switched.
  - by apply right_audiences_changed.
Qed.

Lemma right_queued queued s : is_right s -> is_right (run_queued queued s).2.
Proof.
  revert s. induction queued as [|c queued IH]; intros s H; [done|]. cbn [run_queued]. pose proof (right_command c s H) as Hc. destruct (command c s) as [ends s'].
  destruct ends; [done|by apply IH].
Qed.
Lemma right_reconnected w server l s : is_right (reconnected w server l s).
Proof.
  unfold reconnected. set (s0 := s <| se_me := _ |> <| se_server := _ |> <| se_trust ::= _ |>). clearbody s0. set (r := reset_room s0).
  assert (outside_rooms (deck (core r))) as Hr by (unfold r; rewrite deck_reset_room; by destruct (deck (core s0))). clearbody r. set (s1 := cue _ _).
  assert (core s1 = core r) as E1 by (unfold s1; rewrite quiet_cue; by case_match).
  assert (outside_rooms (deck (core s1))) as Ho by (by rewrite E1). clearbody s1. pose proof (right_apply_welcome w s1 Ho) as H2.
  set (s2 := apply_welcome w s1) in *. clearbody s2. set (s3 := match _ with Some (room, name) => _ | None => s2 end).
  assert (core s3 = core s2) as E3 by (unfold s3; destruct (ls_want_room l); cbn; [by case_decide|done]). clearbody s3. set (s4 := push_media s3).
  assert (is_right s4) as H4 by (apply right_push_media; rewrite E3; by apply right_pushable). clearbody s4. case_match; [|done]. by apply right_watching.
Qed.

Lemma right_step took i m s : is_right s -> is_right (session_step took i (m, s)).2.
Proof.
  intros H. assert (forall s', core s' = core s -> is_right s') as Hq by (intros s' E; by apply (quiet_right s)).
  assert (forall c s', deck (core s') = deck (core s) -> is_right (update_state (set_connection c) s')) as Hc by (intros c s' E; apply (same_right s); [by rewrite deck_connection|done]).
  assert (forall random l s', deck (core s') = deck (core s) -> is_right (reconnect_wait random l s')) as Hw
    by (intros; unfold reconnect_wait; eapply quiet_right; [apply quiet_emit|]; by apply Hc).
  unfold session_step. destruct i.
  - destruct m; [| |done].
    + pose proof (right_command c s H) as H1. destruct (command c s) as [[] s']; exact H1.
    + assert (is_right (reconnect_command c l s).2) as H1.
      { destruct c; cbn [reconnect_command]; try (destruct (queue_command _ _) as [took' queued]; cbn [snd]; by destruct (took' || _)); [by cbn|by apply Hq|by apply Hc]. }
      destruct (reconnect_command c l s) as [[l'|] s']; exact H1.
  - destruct m; [|done..]. destruct e; [by apply right_server_event|by apply Hq, quiet_key_notice].
  - destruct m; [|done..]. cbn. apply Hw. by rewrite quiet_cue.
  - destruct m as [|l|]; [done| |done]. unfold reconnect_attempt. destruct (fatal result) as [failed|]; [by apply Hc|].
    destruct result as [e|expected actual| | |w server]; [destruct e; by apply Hw|by apply Hw..|].
    pose proof (right_queued (ls_queued l) _ (right_reconnected w server l s)) as H1. destruct (run_queued _ _) as [ends s']. cbn [snd] in H1.
    destruct ends; [exact H1|]. cbn [snd]. eapply quiet_right; [apply quiet_push_profile|done].
  - destruct m; [|done..]. cbn [snd]. assert (is_right (refresh_levels transmitting speaking s)) as H1 by apply Hq, quiet_levels.
    unfold stop_ended_share. case_match; [case_match|]; [by apply right_end_share|done..].
  - destruct m; [|done..]. apply Hq, quiet_health_tick.
  - destruct m; [|done..]. apply Hq, quiet_renew.
  - destruct m; [|done..]. apply Hq, quiet_recover_share.
  - destruct m; [|done..]. by apply right_share_started.
  - apply Hq, quiet_ask_avatar.
  - apply Hq, quiet_avatar_fetched.
Qed.
Lemma right_new has_audio address server profile w store people known servers : is_right (session_new has_audio address server profile w store people known servers).
Proof. by apply right_apply_welcome. Qed.
Lemma right_steps inputs m s : is_right s -> is_right (foldl (fun m i => session_step i.1 i.2 m) (m, s) inputs).2.
Proof.
  revert m s. induction inputs as [|[took i] inputs IH]; intros m s H; [done|]. cbn [foldl fst snd].
  pose proof (right_step took i m s H). destruct (session_step took i (m, s)) as [m' s']. by apply IH.
Qed.
Lemma right_run inputs s : is_right s -> is_right (session_run inputs s).2.
Proof. intros H. apply right_steps. eapply quiet_right; [apply quiet_push_profile|done]. Qed.
End Steps.
