(* ===== verification/SessionRoster.v ===== *)
(** * What a session shows of its server

    The roster of [SessionFacts] as a function of what the server said, and the mic and deafen
    switches as one of the user's commands: the reference a session's runs are compared with. *)
From S2P Require Import Prelude Ordered Ids Messages Crypto JsonFile People Verified Trust Floors Servers KeysState Fragment Engine ClientState SessionState Session SessionFacts.
Open Scope Z_scope.

(** ** The reference *)

Definition entry_of (p : Presence) : Entry := mkEntryOf (person_name (pr_user p) (pr_name p)) (pr_avatar p) (pr_room p) (pr_mic p) (pr_deafened p) (pr_role p).

(** A room listed anew at the end, while there is room for it, or in its place. *)
Definition change_room (id : RoomId) (f : RoomView -> RoomView) (rooms : list RoomView) : list RoomView := (fun r => if decide (rv_id r = id) then f r else r) <$> rooms.
Definition list_room (room : Room) (rooms : list RoomView) : list RoomView :=
  if decide (rm_id room ∈ rv_id <$> rooms) then change_room (rm_id room) (fun _ => room_view room) rooms
  else if Z.of_nat (length rooms) <? MAX_ROOMS then rooms ++ [room_view room] else rooms.
Definition list_person (p : Presence) (people : gmap UserId Entry) : gmap UserId Entry :=
  if decide (Z.of_nat (size people) < MAX_SIGNED_IN \/ is_Some (people !! pr_user p)) then <[pr_user p := entry_of p]> people else people.

Definition named_server (address : str) (fingerprint : bytes) (p : ServerProfile) : ServerView :=
  mkServerView address fingerprint (name ← sp_name p; valid_name name) (sp_avatar p).
Definition roster_welcome (address : str) (fingerprint : bytes) (w : Welcome) : Roster :=
  mkRoster (Some (named_server address fingerprint (we_server w))) (Some (we_me w)) (Some (we_role w))
    (foldl (fun rooms room => list_room room rooms) [] (we_rooms w)) (foldl (fun people p => list_person p people) ∅ (we_presence w)).
Definition roster_rooms (f : list RoomView -> list RoomView) (r : Roster) : Roster := mkRoster (ro_server r) (ro_me r) (ro_role r) (f (ro_rooms r)) (ro_people r).
Definition roster_people (f : gmap UserId Entry -> gmap UserId Entry) (r : Roster) : Roster := mkRoster (ro_server r) (ro_me r) (ro_role r) (ro_rooms r) (f (ro_people r)).

Definition roster_event (me : UserId) (e : Event) (r : Roster) : Roster :=
  match e with
  | ServerProfileChanged p => mkRoster ((fun s => named_server (sv_address s) (sv_fingerprint s) p) <$> ro_server r) (ro_me r) (ro_role r) (ro_rooms r) (ro_people r)
  | PresenceChanged p => roster_people (list_person p) r
  | PresenceEnded user => roster_people (delete user) r
  | RoomCreated room => roster_rooms (list_room room) r
  | RoomLockChanged room locked => roster_rooms (change_room room (fun r => mkRoomView (rv_id r) (rv_name r) locked)) r
  | RoomRenamed room name => roster_rooms (change_room room (fun r => mkRoomView (rv_id r) (room_name room name) (rv_locked r))) r
  | RoomDeleted room => roster_rooms (filter (fun r => rv_id r <> room)) r
  | RoleChanged user role => if decide (user = me) then mkRoster (ro_server r) (ro_me r) (Some role) (ro_rooms r) (ro_people r) else r
  | _ => r
  end.

(** What a server says: the welcome of a connection, and events over it. *)
Inductive Said := SaidWelcome (fingerprint : bytes) (w : Welcome) | SaidEvent (e : Event).
Definition roster_said (address : str) (r : Roster) (x : Said) : Roster :=
  match x with SaidWelcome fingerprint w => roster_welcome address fingerprint w | SaidEvent e => roster_event (default 0 (ro_me r)) e r end.

Definition set_kept_roster (f : Roster -> Roster) (k : Kept) : Kept := mkKept (f (kp_roster k)) (kp_connection k) (kp_address k) (kp_server k) (kp_me k) (kp_mic k) (kp_deafened k) (kp_mic_before k).
Definition set_kept_connection (c : ConnectionStatus) (k : Kept) : Kept := mkKept (kp_roster k) c (kp_address k) (kp_server k) (kp_me k) (kp_mic k) (kp_deafened k) (kp_mic_before k).
Definition set_kept_switches (mic deafened mic_before : bool) (k : Kept) : Kept := mkKept (kp_roster k) (kp_connection k) (kp_address k) (kp_server k) (kp_me k) mic deafened mic_before.

(** The switches after a command; [ends] tells whether it ended the session. *)
Definition kept_command (ends : bool) (c : UiCommand) (k : Kept) : Kept :=
  let k := match c with
    | UiSetMic on => set_kept_switches on (if on then false else kp_deafened k) (kp_mic_before k) k
    | UiSetDeafened true => if kp_deafened k then k else set_kept_switches false true (kp_mic k) k
    | UiSetDeafened false => if kp_deafened k then set_kept_switches (kp_mic_before k) false (kp_mic_before k) k else k
    | _ => k
    end in
  if ends then set_kept_connection Disconnected k else k.

(** ** The roster is well formed *)

(** No room twice, no more rooms and people than there can be, and every name one the checks
    let through or one made of an id. *)
Record roster_wf (r : Roster) : Prop := {
  wf_rooms : NoDup (rv_id <$> ro_rooms r);
  wf_few_rooms : Z.of_nat (length (ro_rooms r)) <= MAX_ROOMS;
  wf_few_people : Z.of_nat (size (ro_people r)) <= MAX_SIGNED_IN;
  wf_room_names : Forall (fun v => exists raw, rv_name v = room_name (rv_id v) raw) (ro_rooms r);
  wf_person_names : map_Forall (fun user e => exists raw, en_name e = person_name user raw) (ro_people r)
}.

Lemma change_room_ids id f rooms : (forall v, rv_id v = id -> rv_id (f v) = id) -> rv_id <$> change_room id f rooms = rv_id <$> rooms.
Proof.
  intros Hid. unfold change_room. rewrite <- list_fmap_compose. apply list_fmap_ext. intros i v _. cbn. case_decide as Ev; [|done]. by rewrite Hid.
Qed.
Lemma list_room_ids room rooms : NoDup (rv_id <$> rooms) -> NoDup (rv_id <$> list_room room rooms).
Proof.
  intros Hnd. unfold list_room. case_decide as Hin; [by rewrite change_room_ids|]. case_match; [|done].
  rewrite fmap_app. apply list.NoDup_app. split; [done|]. split; [|apply NoDup_singleton]. intros x Hx ->%list_elem_of_singleton. by apply Hin.
Qed.
Lemma change_room_wf id f r : (forall v, rv_id v = id -> rv_id (f v) = id) ->
  (forall v, rv_id v = id -> (exists raw, rv_name v = room_name id raw) -> exists raw, rv_name (f v) = room_name id raw) ->
  roster_wf r -> roster_wf (roster_rooms (change_room id f) r).
Proof.
  intros Hid Hn [H1 H2 H3 H4 H5].
  split; cbn; [by rewrite change_room_ids| |done| |done].
  - unfold change_room. by rewrite length_fmap.
  - unfold change_room. apply Forall_fmap. eapply list.Forall_impl; [exact H4|]. intros v Hv. cbn. case_decide as Ev; [|done].
    rewrite (Hid v Ev). apply Hn; [done|]. by rewrite <- Ev.
Qed.
Lemma list_room_wf room r : roster_wf r -> roster_wf (roster_rooms (list_room room) r).
Proof.
  intros [H1 H2 H3 H4 H5]. split; cbn; [by apply list_room_ids| |done| |done].
  - unfold list_room. case_decide; [unfold change_room; by rewrite length_fmap|].
    destruct (Z.ltb_spec (Z.of_nat (length (ro_rooms r))) MAX_ROOMS); [|done]. rewrite length_app. cbn. lia.
  - assert (exists raw, rv_name (room_view room) = room_name (rm_id room) raw) as Hn by (by exists (rm_name room)).
    unfold list_room. case_decide; [|case_match; [|done]; apply Forall_app_2; [done|by constructor]].
    unfold change_room. apply Forall_fmap. eapply list.Forall_impl; [exact H4|]. intros v Hv. cbn. by case_decide.
Qed.
Lemma list_person_wf p r : roster_wf r -> roster_wf (roster_people (list_person p) r).
Proof.
  intros [H1 H2 H3 H4 H5]. split; cbn; [done..| |done|].
  - unfold list_person. case_decide as Hd; [|done]. destruct (ro_people r !! pr_user p) as [e|] eqn:E.
    + rewrite map_size_insert_Some by done. done.
    + rewrite map_size_insert_None by done. destruct Hd as [?|[? ?]]; [lia|congruence].
  - unfold list_person. case_decide; [|done]. apply map_Forall_insert_2; [by exists (pr_name p)|done].
Qed.
Lemma event_wf me e r : roster_wf r -> roster_wf (roster_event me e r).
Proof.
  intros Hwf. destruct e; cbn [roster_event]; try done.
  - by apply list_person_wf.
  - destruct Hwf as [H1 H2 H3 H4 H5]. split; cbn; [done..| |done|by apply map_Forall_delete].
    etrans; [|exact H3]. apply inj_le. destruct (ro_people r !! user) eqn:E; [rewrite map_size_delete_Some by done; lia|]. by rewrite map_size_delete_None.
  - by apply list_room_wf.
  - apply change_room_wf; [done| |done]. intros v _ _. by exists name.
  - destruct Hwf as [H1 H2 H3 H4 H5]. split; cbn; [| |done| |done].
    + eapply sublist_NoDup; [exact H1|]. apply fmap_sublist, sublist_filter.
    + etrans; [|exact H2]. apply inj_le, length_filter.
    + apply list.Forall_forall. intros v [_ Hv]%list_elem_of_filter. exact (proj1 (list.Forall_forall _ _) H4 v Hv).
  - apply change_room_wf; [done| |done]. intros v <- Hv. exact Hv.
  - case_decide; [|done]. by destruct Hwf.
  - by destruct Hwf.
Qed.
Lemma welcome_wf address fingerprint w : roster_wf (roster_welcome address fingerprint w).
Proof.
  unfold roster_welcome.
  assert (forall rooms people, roster_wf (mkRoster None None None rooms people) ->
    roster_wf (mkRoster None None None (foldl (fun rooms room => list_room room rooms) rooms (we_rooms w)) people)) as Hr.
  { induction (we_rooms w) as [|room l IH]; intros rooms people Hwf; [done|]. cbn. apply IH. by apply (list_room_wf room) in Hwf. }
  assert (forall rooms people, roster_wf (mkRoster None None None rooms people) ->
    roster_wf (mkRoster None None None rooms (foldl (fun people p => list_person p people) people (we_presence w)))) as Hp.
  { induction (we_presence w) as [|p l IH]; intros rooms people Hwf; [done|]. cbn. apply IH. by apply (list_person_wf p) in Hwf. }
  assert (roster_wf (mkRoster None None None [] ∅)) as H0 by (split; cbn; [constructor|done|rewrite map_size_empty; done|constructor|apply map_Forall_empty]).
  apply (Hr [] ∅), Hp in H0. by destruct H0.
Qed.

(** ** The session against the reference *)

Lemma change_room_other id f rooms : id ∉ rv_id <$> rooms -> change_room id f rooms = rooms.
Proof.
  induction rooms as [|r rooms IH]; intros Hnot; [done|]. rewrite fmap_cons, elem_of_cons in Hnot. unfold change_room. cbn.
  rewrite decide_False by (intros <-; tauto). f_equal. apply IH. tauto.
Qed.
Lemma room_mut_change id f rooms : NoDup (rv_id <$> rooms) -> room_mut id f rooms = change_room id f rooms.
Proof.
  induction rooms as [|r rooms IH]; intros Hnd; [done|]. rewrite fmap_cons in Hnd. apply list.NoDup_cons in Hnd as [Hnot Hnd]. cbn. case_decide as E; [|by rewrite IH].
  f_equal. symmetry. apply change_room_other. congruence.
Qed.
Lemma room_of_listed id st : is_Some (room_of id st) <-> id ∈ rv_id <$> vw_rooms st.
Proof.
  unfold room_of. induction (vw_rooms st) as [|r rooms IH]; cbn; [split; [by intros []|by intros ?%not_elem_of_nil]|]. rewrite elem_of_cons.
  case_bool_decide as E; [split; [by left|by eexists]|]. rewrite IH. split; [by right|]. by intros [->|?].
Qed.
Lemma add_room_list room st : NoDup (rv_id <$> vw_rooms st) -> vw_rooms (add_room (room_view room) st) = list_room room (vw_rooms st).
Proof.
  intros Hnd. unfold add_room, list_room. cbn [on_rooms vw_rooms]. change (rv_id (room_view room)) with (rm_id room). pose proof (room_of_listed (rm_id room) st) as H.
  destruct (room_of (rm_id room) st); case_decide as Hd; [by apply room_mut_change|exfalso; apply Hd, H; eauto|apply H in Hd as [? [=]]|done].
Qed.
Lemma entry_person p sharing audience trust playback speaking :
  entry (blind (set_speaking speaking (set_sharing sharing audience (set_trust trust (person p playback))))) = entry_of p.
Proof. done. Qed.
Lemma add_person_list p q st : entry (blind q) = entry_of p ->
  entry <$> (blind <$> vw_people (add_person (pr_user p) q st)) = list_person p (entry <$> (blind <$> vw_people st)).
Proof.
  intros E. unfold add_person, list_person. rewrite !map_size_fmap, !lookup_fmap. destruct (Z.ltb_spec (Z.of_nat (size (vw_people st))) MAX_SIGNED_IN) as [Hlt|Hge]; cbn [orb].
  - rewrite decide_True by (by left). cbn. by rewrite !fmap_insert, E.
  - case_bool_decide as Hs.
    + rewrite decide_True by (right; by destruct Hs as [? ->]). cbn. by rewrite !fmap_insert, E.
    + rewrite decide_False; [done|]. intros [?|Hs']; [lia|]. apply Hs. destruct (vw_people st !! pr_user p); [eauto|by destruct Hs'].
Qed.
Lemma roster_add_person p q st : entry (blind q) = entry_of p -> roster (view (add_person (pr_user p) q st)) = roster_people (list_person p) (roster (view st)).
Proof.
  intros E. unfold roster_people, roster. cbn [view sh_server sh_me sh_role sh_rooms sh_people ro_server ro_me ro_role ro_rooms ro_people]. rewrite <- (add_person_list p q) by done.
  unfold add_person. by case_match.
Qed.
Lemma roster_add_room room st : NoDup (rv_id <$> vw_rooms st) -> roster (view (add_room (room_view room) st)) = roster_rooms (list_room room) (roster (view st)).
Proof. intros Hnd. unfold roster_rooms, roster. cbn [view sh_server sh_me sh_role sh_rooms sh_people ro_server ro_me ro_role ro_rooms ro_people]. by rewrite <- add_room_list. Qed.
Definition add_rooms (rooms : list Room) (st : State) : State := foldl (fun st room => add_room (room_view room) st) st rooms.
Lemma roster_add_rooms rooms st : NoDup (rv_id <$> vw_rooms st) ->
  roster (view (add_rooms rooms st)) = roster_rooms (fun l => foldl (fun l room => list_room room l) l rooms) (roster (view st)) /\ vw_connection (add_rooms rooms st) = vw_connection st.
Proof.
  unfold add_rooms. revert st. induction rooms as [|room rooms IH]; intros st Hnd; [done|]. cbn [foldl].
  destruct (IH (add_room (room_view room) st)) as [-> ->]; [rewrite add_room_list by done; by apply list_room_ids|]. by rewrite roster_add_room.
Qed.
Definition add_people (ps : list (Presence * Playback)) (st : State) : State := foldl (fun st p => add_person (pr_user p.1) (person p.1 p.2) st) st ps.
Lemma roster_add_people ps st :
  roster (view (add_people ps st)) = roster_people (fun m => foldl (fun m p => list_person p m) m ps.*1) (roster (view st)) /\ vw_connection (add_people ps st) = vw_connection st.
Proof.
  unfold add_people. revert st. induction ps as [|[p playback] ps IH]; intros st; [done|]. cbn [foldl fst snd].
  destruct (IH (add_person (pr_user p) (person p playback) st)) as [-> ->]. rewrite roster_add_person by done. split; [done|]. unfold add_person. by case_match.
Qed.

Section Reference.
Context {outside : Outside}.

Lemma kept_update_roster f g s : roster (view (f (se_state s))) = g (roster (view (se_state s))) -> vw_connection (f (se_state s)) = vw_connection (se_state s) ->
  kept (core (update_state f s)) = set_kept_roster g (kept (core s)).
Proof. intros E1 E2. rewrite core_update. unfold kept, core, set_kept_roster. cbn. by rewrite E1, E2. Qed.
Lemma kept_on_rooms f s : kept (core (update_state (on_rooms f) s)) = set_kept_roster (roster_rooms f) (kept (core s)).
Proof. by apply kept_update_roster. Qed.
Lemma same_roster g k : g (kp_roster k) = kp_roster k -> set_kept_roster g k = k. Proof. unfold set_kept_roster. intros ->. by destruct k. Qed.

Lemma kept_event e s : roster_wf (roster (view (se_state s))) -> kept (core (server_event e s)) = set_kept_roster (roster_event (se_me s) e) (kept (core s)).
Proof.
  intros Hwf.
  assert (forall s', kept (core s') = kept (core s) -> roster (view (se_state s')) = roster (view (se_state s))) as Hr by (intros s' E; exact (f_equal kp_roster E)).
  destruct e; cbn [server_event]; try (rewrite same_roster by done).
  - destruct (read_store _ _) as [trust s1] eqn:E1. assert (kept (core s1) = kept (core s)) as Ek.
    { apply (f_equal snd) in E1. cbn [snd] in E1. subst s1. stay. }
    rewrite kept_follow_room, kept_refresh_trust, <- Ek. apply kept_update_roster; [by apply roster_add_person|by unfold add_person; case_match].
  - rewrite kept_follow_room. rewrite <- (quiet_room_cue user None s). apply kept_update_roster; [|done]. unfold roster, roster_people. cbn. by rewrite !fmap_delete.
  - apply kept_update_roster; [apply roster_add_room, Hwf|done].
  - apply kept_update_roster; [|done]. unfold roster, roster_rooms. cbn. rewrite room_mut_change by apply Hwf. done.
  - rewrite kept_on_rooms. case_decide; [by rewrite quiet_notice, kept_put_out|done].
  - apply kept_update_roster; [|done]. unfold roster, roster_rooms. cbn. rewrite room_mut_change by apply Hwf. done.
  - stay.
  - done.
  - stay.
  - rewrite quiet_each by (intros; apply quiet_note_drops). done.
  - stay.
  - case_decide as E; [apply kept_update_roster; [|done]|rewrite same_roster; [done|]]; cbn; by rewrite ?decide_True, ?decide_False by done.
  - stay.
  - done.
  - done.
  - rewrite <- (quiet_remember_server (sp_name profile) (sp_avatar profile) s). by apply kept_update_roster.
  - stay.
  - stay.
Qed.

Lemma kept_welcome w s : kept (core (apply_welcome w s)) =
  mkKept (roster_welcome (se_address s) (se_server s) w) Connected (se_address s) (se_server s) (se_me s) (ms_mic (se_media s)) (ms_deafened (se_media s)) (se_mic_before s).
Proof.
  unfold apply_welcome. set (s1 := remember_server _ _ _). set (change := fun st : State => _).
  assert (kept (core s1) = kept (core s)) as E1 by (unfold s1; rewrite quiet_remember_server; done).
  assert (forall s', kept (core (match pl_room (we_placement w) with Some _ => after_join (we_placement w) (refresh_trust s') | None => refresh_trust s' end)) = kept (core s')) as ->.
  { intros s'. case_match; rewrite ?kept_after_join; apply kept_refresh_trust. }
  assert (forall st, roster (view (change st)) = roster_welcome (se_address s) (se_server s) w /\ vw_connection (change st) = Connected) as Hc.
  { intros st. unfold change. set (st0 := on_rooms _ _). fold (add_rooms (we_rooms w) st0). set (st1 := add_rooms _ _).
    set (st2 := on_people _ st1). set (ps := zip _ _). fold (add_people ps st2).
    destruct (roster_add_rooms (we_rooms w) st0 ltac:(constructor)) as [Er Ec]. fold st1 in Er, Ec. destruct (roster_add_people ps st2) as [Ep Epc].
    assert (ps.*1 = we_presence w) as Eps by (unfold ps; apply fst_zip; by rewrite length_fmap).
    split; [|cbn; rewrite Epc; cbn; by rewrite Ec].
    change (roster (view (on_current (fun _ => None) (add_people ps st2)))) with (roster (view (add_people ps st2))). rewrite Ep, Eps.
    change (roster (view st2)) with (roster_people (fun _ => entry <$> (blind <$> ∅)) (roster (view st1))). rewrite Er, !fmap_empty.
    unfold roster_welcome, roster_people, roster_rooms, roster, named_server, st0. cbn.
    change (se_address s1) with (kp_address (kept (core s1))). change (se_server s1) with (kp_server (kept (core s1))). by rewrite E1. }
  rewrite core_update. unfold kept, core in *. cbn in *. destruct (Hc (se_state s1)) as [-> ->]. congruence.
Qed.
End Reference.
