(* ===== verification/SessionRuns.v ===== *)
(** * A session's runs: the roster, the switches, the queue

    What a session shows of its server is what the server said, whatever else happens; the
    mic and deafen switches are the user's; and a setting made while reconnecting is kept. *)
From S2P Require Import Prelude Ordered Ids Messages Crypto JsonFile People Verified Trust Floors Servers KeysState Fragment Engine ClientState SessionState Session SessionFacts SessionRoster.
Open Scope Z_scope.

Section Runs.
Context {outside : Outside}.

Lemma kept_media m s : kept (core (s <| se_media := m |>)) = set_kept_switches (ms_mic m) (ms_deafened m) (se_mic_before s) (kept (core s)).
Proof. done. Qed.
Lemma kept_connection c s : kept (core (update_state (set_connection c) s)) = set_kept_connection c (kept (core s)).
Proof. by rewrite core_update. Qed.

Lemma kept_mic_before b s : kept (core (s <| se_mic_before := b |>)) = set_kept_switches (kp_mic (kept (core s))) (kp_deafened (kept (core s))) b (kept (core s)).
Proof. done. Qed.

(** ** One command, one attempt, one step *)

Lemma kept_set_mic on s : kept (core (command (UiSetMic on) s).2) = kept_command false (UiSetMic on) (kept (core s)).
Proof.
  cbn [command snd]. unfold set_media_switches. rewrite kept_push_media, kept_media. change (se_mic_before ?x) with (co_mic_before (core x)).
  by rewrite quiet_cue_if.
Qed.
Lemma kept_set_deafened deafened s : kept (core (command (UiSetDeafened deafened) s).2) = kept_command false (UiSetDeafened deafened) (kept (core s)).
Proof.
  cbn [command]. set (s1 := if Bool.eqb deafened _ then s else _). assert (core s1 = core s) as E1 by (unfold s1; case_match; [done|apply quiet_cue]).
  clearbody s1. change (se_mic_before s1) with (co_mic_before (core s1)). rewrite E1. cbn [co_mic_before core].
  unfold set_deafened, set_media_switches. destruct (Bool.eqb deafened (ms_deafened (se_media s))) eqn:Ed; cbn [snd].
  - rewrite kept_push_media, kept_media, kept_mic_before, E1. cbn. destruct deafened, (ms_deafened (se_media s)) eqn:E; try done; unfold kept, core, set_kept_switches; cbn; by rewrite ?E.
  - destruct deafened; cbn [snd]; rewrite kept_push_media, kept_media, kept_mic_before, E1; cbn; destruct (ms_deafened (se_media s)) eqn:E; done.
Qed.
Lemma kept_leave_server s : let '(ends, s') := leave_server s in kept (core s') = kept_command ends UiLeaveServer (kept (core s)).
Proof.
  unfold leave_server. destruct (request _ s) as [response s1] eqn:E1. assert (core s1 = core s) as <- by (apply (f_equal snd) in E1; cbn [snd] in E1; subst; done). clear E1.
  destruct (match response with inl RespOk => _ | _ => _ end) as [removed s2] eqn:E2.
  assert (core s2 = core s1) as <- by (destruct response as [r|e]; [destruct r|]; injection E2 as <- <-; done). clear E2.
  destruct removed as [[]|]; [|done|done]. unfold reading. destruct (known_leave _ _ _ _) as [[ok known] file]. unfold tell. rewrite quiet_emit, kept_connection. stay.
Qed.
Lemma kept_joining room password (refuse : str -> Session -> Session) s : (forall e s, core (refuse e s) = core s) ->
  kept (core (let '(result, s) := call_join room password s in match result with inl (p, ns) => joined p ns s | inr e => refuse e s end)) = kept (core s).
Proof. intros Hr. split_pair. destruct a as [[p n]|e]; [rewrite kept_joined|rewrite Hr]; by rewrite quiet_call_join. Qed.

Lemma kept_of_command c s : kept (core (command c s).2) = kept_command (command c s).1 c (kept (core s)).
Proof.
  destruct c; cbn [command].
  - rewrite <- (kept_joining room None (fun e s => notice (lit "Couldn't join: " ++ e) s) s) by done. by split_pair.
  - rewrite <- (kept_joining (Some room) (Some password) (fun e s => tell (EvPasswordRefused e) s) s) by done. by split_pair.
  - apply kept_set_mic.
  - pose proof (kept_set_deafened deafened s) as E. cbn [command] in E. by destruct (set_deafened _ _ _).
  - apply kept_start_share.
  - apply kept_end_share.
  - cbn [fst snd]. rewrite kept_push_watching. case_decide; [done|]. by rewrite quiet_stream_cue.
  - cbn [fst snd]. rewrite kept_push_watching. case_decide; [|done]. by rewrite quiet_stream_cue.
  - cbn [fst snd]. rewrite kept_update.
    + case_match; drop_field; by rewrite quiet_audio.
    + intros st. split; [|done]. unfold roster. cbn. f_equal. apply map_eq. intros u. rewrite !lookup_fmap, lookup_alter. case_decide as E; [subst|done]. by destruct (vw_people st !! _).
  - cbn [fst snd]. by rewrite quiet_push_profile.
  - rewrite <- (quiet_set_server_profile name picture s). by destruct (set_server_profile name picture s) as [response s'].
  - done.
  - cbn [fst snd]. by rewrite quiet_simple.
  - cbn [fst snd]. by rewrite quiet_simple.
  - cbn [fst snd]. by rewrite quiet_simple.
  - cbn [fst snd]. by rewrite quiet_simple.
  - rewrite <- (quiet_request CreateInvite s). destruct (request CreateInvite s) as [response s']. cbn [fst snd]. destruct response as [r|]; [destruct r|]; done.
  - rewrite <- (quiet_request ListUsers s). destruct (request ListUsers s) as [response s']. cbn [fst snd]. destruct response as [r|]; [destruct r|]; done.
  - cbn [fst snd]. by rewrite quiet_users_listed, quiet_simple.
  - cbn [fst snd]. by rewrite quiet_simple.
  - cbn [fst snd]. by rewrite quiet_users_listed, quiet_simple.
  - apply kept_set_verified.
  - apply kept_dismiss.
  - apply kept_refresh_trust.
  - pose proof (kept_leave_server s) as E. by destruct (leave_server s).
  - cbn [fst snd]. by rewrite kept_connection.
Qed.

Definition kept_welcomed (w : Welcome) (k : Kept) : Kept :=
  mkKept (roster_welcome (kp_address k) (kp_server k) w) Connected (kp_address k) (kp_server k) (kp_me k) (kp_mic k) (kp_deafened k) (kp_mic_before k).
Lemma kept_apply_welcome w s : kept (core (apply_welcome w s)) = kept_welcomed w (kept (core s)).
Proof. rewrite kept_welcome. done. Qed.
Definition kept_back (w : Welcome) (server : bytes) (k : Kept) : Kept :=
  kept_welcomed w (mkKept (kp_roster k) (kp_connection k) (kp_address k) server (we_me w) (kp_mic k) (kp_deafened k) (kp_mic_before k)).
Lemma kept_reconnected w server l s : kept (core (reconnected w server l s)) = kept_back w server (kept (core s)).
Proof.
  unfold reconnected. set (s0 := s <| se_me := _ |> <| se_server := _ |> <| se_trust ::= _ |>). set (s1 := cue _ _).
  assert (kept (core s1) = kept (core s0)) as E1 by (unfold s1; rewrite quiet_cue; destruct (se_audio _); rewrite ?quiet_emit; apply kept_reset_room).
  clearbody s1. set (s3 := push_media _). assert (kept (core s3) = kept_welcomed w (kept (core s1))) as E3.
  { unfold s3. rewrite kept_push_media, <- kept_apply_welcome. destruct (ls_want_room l) as [room|]; [|done]. cbn. by case_decide. }
  clearbody s3. unfold kept_back. case_match; [rewrite kept_push_watching; keep_field|]; rewrite E3, E1; done.
Qed.

(** ** The roster *)

Definition said (m : Mode) (i : Input) : list Said :=
  match i, m with
  | InEvent (FromServer e), Online => [SaidEvent e]
  | InAttempt (SignedIn_ w server) _, Offline _ => [SaidWelcome server w]
  | _, _ => []
  end.
(** What a run hears of the server. *)
Fixpoint heard (inputs : list (bool * Input)) (m : Mode * Session) : list Said :=
  match inputs with [] => [] | (took, i) :: inputs => said m.1 i ++ heard inputs (session_step took i m) end.

Definition roster_shown (s : Session) : Roster := roster (view (se_state s)).
(** A well formed roster that names the user the call is for. *)
Definition roster_ok (k : Kept) : Prop := roster_wf (kp_roster k) /\ ro_me (kp_roster k) = Some (kp_me k).

Lemma welcomed_ok w k : kp_me k = we_me w -> roster_ok (kept_welcomed w k).
Proof. intros E. split; [apply welcome_wf|]. cbn. by rewrite E. Qed.
Lemma event_me me e r : ro_me (roster_event me e r) = ro_me r.
Proof. destruct e; try done. cbn. by case_decide. Qed.
Lemma command_roster ends c k : kp_roster (kept_command ends c k) = kp_roster k /\ kp_me (kept_command ends c k) = kp_me k /\ kp_address (kept_command ends c k) = kp_address k.
Proof. unfold kept_command. destruct c; repeat case_match; done. Qed.

(** A step keeps the roster of [k], the user and the address, whatever else it does. *)
Definition same_company (k k' : Kept) : Prop := kp_roster k' = kp_roster k /\ kp_me k' = kp_me k /\ kp_address k' = kp_address k.
Lemma same_refl k : same_company k k. Proof. done. Qed.
Lemma command_company c s : same_company (kept (core s)) (kept (core (command c s).2)).
Proof. rewrite kept_of_command. apply command_roster. Qed.
Lemma same_trans k k' k'' : same_company k k' -> same_company k' k'' -> same_company k k''.
Proof. intros (? & ? & ?) (? & ? & ?). split_and!; congruence. Qed.
Lemma queued_company queued s : same_company (kept (core s)) (kept (core (run_queued queued s).2)).
Proof.
  revert s. induction queued as [|c queued IH]; intros s; [done|]. cbn [run_queued]. pose proof (command_company c s) as H. destruct (command c s) as [ends s'] eqn:E.
  destruct ends; [done|]. eapply same_trans; [exact H|apply IH].
Qed.

Lemma company_ok k k' : roster_ok k -> same_company k k' -> roster_ok k'.
Proof. intros [Hwf Hme] (E1 & E2 & _). split; [by rewrite E1|congruence]. Qed.

Lemma kept_reconnect_wait random l s : kept (core (reconnect_wait random l s)) = set_kept_connection (Reconnecting (ls_attempt l) (ls_reason l)) (kept (core s)).
Proof. unfold reconnect_wait. by rewrite quiet_emit, kept_connection. Qed.
Lemma reconnect_command_company c l s : same_company (kept (core s)) (kept (core (reconnect_command c l s).2)).
Proof.
  assert (forall c, same_company (kept (core s)) (kept (core (let '(took, queued) := queue_command c (ls_queued l) in
    if took || ls_dropped_any l then s else notice (lit "Still reconnecting, so that was dropped. Try again once connected.") s)))) as Hq.
  { intros c'. destruct (queue_command c' _) as [took queued]. by destruct (took || _). }
  destruct c; cbn [reconnect_command]; try (match goal with |- context [queue_command ?c _] => specialize (Hq c); destruct (queue_command c _) as [took queued]; exact Hq end).
  - done.
  - done.
  - cbn [snd]. by rewrite kept_connection.
Qed.

(** One step: the roster is what the server said, the rest of [roster_ok] stays. *)
Lemma step_roster took i m s : roster_ok (kept (core s)) ->
  let '(m', s') := session_step took i (m, s) in
  kp_roster (kept (core s')) = foldl (roster_said (se_address s)) (roster_shown s) (said m i) /\ roster_ok (kept (core s')) /\ se_address s' = se_address s.
Proof.
  intros Hok.
  assert (forall s', same_company (kept (core s)) (kept (core s')) ->
    kp_roster (kept (core s')) = roster_shown s /\ roster_ok (kept (core s')) /\ se_address s' = se_address s) as Hsame.
  { intros s' Hs. split_and!; [apply Hs|by eapply company_ok|apply Hs]. }
  assert (forall s', kept (core s') = kept (core s) -> kp_roster (kept (core s')) = roster_shown s /\ roster_ok (kept (core s')) /\ se_address s' = se_address s) as Hkept.
  { intros s' E. apply Hsame. by rewrite E. }
  assert (forall s', kept (core (emit FloorsSaved s')) = kept (core s')) as He by done.
  unfold session_step. destruct i; cbn [said foldl].
  - destruct m; cbn [foldl]; [| |by apply Hkept].
    + pose proof (command_company c s) as H. destruct (command c s) as [[] s']; by apply Hsame.
    + pose proof (reconnect_command_company c l s) as H. destruct (reconnect_command c l s) as [[] s']; by apply Hsame.
  - destruct m; cbn [foldl]; [|by destruct e; apply Hkept..]. destruct e as [e|n]; cbn [foldl call_event]; [|by apply Hkept; rewrite quiet_key_notice].
    rewrite kept_event by apply Hok. cbn [roster_said]. destruct Hok as [Hwf Hme]. change (ro_me (roster_shown s)) with (ro_me (kp_roster (kept (core s)))). rewrite Hme.
    split_and!; [done| |exact (f_equal kp_address (kept_event e s Hwf))]. split; [by apply event_wf|]. cbn. by rewrite event_me.
  - destruct m; [|by apply Hkept..]. unfold reconnect_start. apply Hsame. by rewrite kept_reconnect_wait, quiet_cue.
  - destruct m as [|l|]; [by destruct result; apply Hkept| |by destruct result; apply Hkept].
    unfold reconnect_attempt. destruct (fatal result) as [failed|] eqn:Ef.
    + assert (said (Offline l) (InAttempt result random) = []) as Es by (by destruct result). cbn [said] in Es. rewrite Es. apply Hsame. by rewrite quiet_emit, kept_connection.
    + destruct result as [e|expected actual| | |w server];
        [destruct e; apply Hsame; by rewrite kept_reconnect_wait|apply Hsame; by rewrite kept_reconnect_wait..|cbn [foldl]].
      pose proof (queued_company (ls_queued l) (reconnected w server l s)) as Hq. destruct (run_queued _ _) as [ends s']. cbn [snd] in Hq. rewrite kept_reconnected in Hq.
      assert (forall s'', kept (core s'') = kept (core s') ->
        kp_roster (kept (core s'')) = roster_said (se_address s) (roster_shown s) (SaidWelcome server w) /\ roster_ok (kept (core s'')) /\ se_address s'' = se_address s) as Hb.
      { destruct Hq as (H1 & H2 & H3). intros s'' E. unfold roster_ok. rewrite E, H1, H2.
        split_and!; [done|apply welcome_wf|done|]. change (kp_address (kept (core s'')) = se_address s). by rewrite E. }
      destruct ends; apply Hb; [done|by rewrite quiet_push_profile].
  - destruct m; [|by apply Hkept..]. apply Hkept. unfold stop_ended_share. case_match; [case_match|]; rewrite ?kept_end_share; by rewrite quiet_levels.
  - destruct m; [|by apply Hkept..]. apply Hkept. by rewrite quiet_health_tick.
  - destruct m; [|by apply Hkept..]. apply Hkept. by rewrite quiet_renew.
  - destruct m; [|by apply Hkept..]. apply Hkept. by rewrite quiet_recover_share.
  - destruct m; [|by apply Hkept..]. apply Hkept. by rewrite kept_share_started.
  - apply Hkept. by rewrite quiet_ask_avatar.
  - apply Hkept. by rewrite quiet_avatar_fetched.
Qed.
End Runs.
