(* ===== verification/SessionTheorems.v ===== *)
(** * What a session's runs show

    Over any inputs: the roster is what the server said, the connection shown is the state of
    the reconnecting, the switches are those of the commands carried out, and the commands
    queued while reconnecting are the ones still wanted. *)
From S2P Require Import Prelude Ordered Ids Messages Crypto JsonFile People Verified Trust Floors Servers KeysState Fragment Engine ClientState SessionState Session SessionFacts SessionShown SessionRoster SessionRuns.
Open Scope Z_scope.

(** ** The queue *)

(** Of a list of commands, those that none after them supersedes. *)
Fixpoint still_wanted (cs : list UiCommand) : list UiCommand :=
  match cs with
  | [] => []
  | c :: cs => if existsb (fun newer => supersedes newer c) cs then still_wanted cs else c :: still_wanted cs
  end.
(** The queue after the commands, oldest first. *)
Definition queue_all (cs queued : list UiCommand) : list UiCommand := foldl (fun queued c => (queue_command c queued).2) queued cs.

(** The older command stays. *)
Definition outlives (newer older : UiCommand) : bool := negb (supersedes newer older).
Lemma still_wanted_snoc cs c : still_wanted (cs ++ [c]) = List.filter (outlives c) (still_wanted cs) ++ [c].
Proof.
  induction cs as [|c' cs IH]; [done|]. cbn. rewrite existsb_app, IH. cbn. rewrite orb_false_r.
  destruct (existsb _ cs); cbn; [done|]. change (outlives c c') with (negb (supersedes c c')). by destruct (supersedes c c').
Qed.
Lemma still_wanted_length cs : (length (still_wanted cs) <= length cs)%nat.
Proof. induction cs as [|c cs IH]; cbn; [done|]. case_match; cbn; lia. Qed.
Lemma filter_shorter {A} (f : A -> bool) l : (length (List.filter f l) <= length l)%nat.
Proof. induction l as [|x l IH]; cbn; [done|]. case_match; cbn; lia. Qed.
Lemma filter_sub {A} (f : A -> bool) l : List.filter f l `sublist_of` l.
Proof. induction l as [|x l IH]; cbn; [done|]. case_match; by constructor. Qed.

Lemma queue_command_short c queued : Z.of_nat (length queued) <= MAX_QUEUED_WHILE_RECONNECTING ->
  Z.of_nat (length (queue_command c queued).2) <= MAX_QUEUED_WHILE_RECONNECTING.
Proof.
  intros Hl. unfold queue_command. pose proof (filter_shorter (outlives c) queued). unfold outlives in *.
  destruct (Z.ltb_spec (Z.of_nat (length (List.filter (fun older => negb (supersedes c older)) queued))) MAX_QUEUED_WHILE_RECONNECTING); cbn [snd]; rewrite ?length_app; cbn; lia.
Qed.
Lemma queue_command_room c queued : Z.of_nat (length queued) < MAX_QUEUED_WHILE_RECONNECTING -> queue_command c queued = (true, List.filter (outlives c) queued ++ [c]).
Proof.
  intros Hl. unfold queue_command. pose proof (filter_shorter (outlives c) queued). unfold outlives in *. rewrite (proj2 (Z.ltb_lt _ _)) by lia. done.
Qed.
(** A command that replaces another always has room. *)
Lemma queue_command_replaces c older queued : Z.of_nat (length queued) <= MAX_QUEUED_WHILE_RECONNECTING -> older ∈ queued -> supersedes c older = true ->
  queue_command c queued = (true, List.filter (outlives c) queued ++ [c]).
Proof.
  intros Hl Hin Hs. unfold queue_command. assert (length (List.filter (outlives c) queued) < length queued)%nat as Hlt.
  { clear Hl. induction Hin as [x q|x y q Hin IH]; cbn; unfold outlives at 1; [rewrite Hs; cbn; pose proof (filter_shorter (outlives c) q); lia|].
    specialize (IH Hs); case_match; cbn; lia. }
  unfold outlives in *. rewrite (proj2 (Z.ltb_lt _ _)) by lia. done.
Qed.

(** While reconnecting, the queue never holds more than 64 commands, no command in it is
    superseded by one after it, they are in the order given, and a command that supersedes a
    queued one takes its place even in a full queue; as long as no more than 64 commands came,
    the queue is exactly those that no later one superseded, and none was dropped. *)
Theorem the_queue_is_what_is_still_wanted (cs : list UiCommand) :
  let queued := queue_all cs [] in
  Z.of_nat (length queued) <= MAX_QUEUED_WHILE_RECONNECTING /\
  queued `sublist_of` cs /\
  still_wanted queued = queued /\
  (forall newer older, older ∈ queued -> supersedes newer older = true -> (queue_command newer queued).1 = true) /\
  (Z.of_nat (length cs) <= MAX_QUEUED_WHILE_RECONNECTING -> queued = still_wanted cs).
Proof.
  cbn zeta.
  assert (Z.of_nat (length (queue_all cs [])) <= MAX_QUEUED_WHILE_RECONNECTING /\ queue_all cs [] `sublist_of` cs /\
    still_wanted (queue_all cs []) = queue_all cs [] /\ (Z.of_nat (length cs) <= MAX_QUEUED_WHILE_RECONNECTING -> queue_all cs [] = still_wanted cs)) as (H1 & H2 & H3 & H4).
  { induction cs as [|c cs (H1 & H2 & H3 & H4)] using rev_ind; [done|]. unfold queue_all in *. rewrite foldl_snoc. set (q := foldl _ _ cs) in *. split_and!.
    - by apply queue_command_short.
    - unfold queue_command. case_match; cbn [snd]; [apply sublist_app; [|done]|apply sublist_inserts_r]; (etrans; [apply filter_sub|done]).
    - unfold queue_command. assert (still_wanted (List.filter (outlives c) q) = List.filter (outlives c) q) as Hf.
      { clear -H3. clearbody q. induction q as [|x q IH]; [done|]. cbn in H3. pose proof (still_wanted_length q) as Hl.
        destruct (existsb _ q) eqn:E; [rewrite H3 in Hl; cbn in Hl; lia|]. injection H3 as H3. cbn. destruct (outlives c x); [|by apply IH]. cbn.
        replace (existsb (fun newer => supersedes newer x) (List.filter (outlives c) q)) with false; [by rewrite IH|].
        symmetry. apply not_true_iff_false. intros (y & Hy & Hs)%existsb_exists. apply filter_In in Hy as [Hy _].
        apply not_true_iff_false in E. apply E, existsb_exists. eauto. }
      unfold outlives in *. case_match; cbn [snd]; [|done]. rewrite still_wanted_snoc, Hf. unfold outlives. f_equal. clear. induction q as [|x q IH]; [done|]. cbn.
      destruct (negb (supersedes c x)) eqn:E; cbn; [rewrite E; by f_equal|done].
    - rewrite length_app. cbn. intros Hl. rewrite still_wanted_snoc, <- H4 by lia. rewrite queue_command_room; [done|].
      pose proof (still_wanted_length cs). rewrite H4 by lia. lia. }
  split_and!; try done. intros newer older Hin Hs. by rewrite (queue_command_replaces newer older).
Qed.
Definition renames (n : nat) : list UiCommand := (fun k => UiRenameRoom (Z.of_nat k) []) <$> seq 0 n.
Lemma the_queue_is_what_is_still_wanted_witness :
  let cs := UiSetMic true :: renames 63 in
  queue_all cs [] = still_wanted cs /\ (queue_command (UiSetMic false) (queue_all cs [])).1 = true /\ (queue_command UiCreateInvite (queue_all cs [])).1 = false.
Proof.
  destruct (the_queue_is_what_is_still_wanted (UiSetMic true :: renames 63)) as (_ & _ & _ & H & H').
  split_and!; [apply H'; vm_compute; discriminate|apply (H _ (UiSetMic true)); [vm_compute; left|reflexivity]|by vm_compute].
Defined.

Section Runs.
Context {outside : Outside}.

(** ** Where a run starts *)

(** What holds of a session's mode and of the session, over every run. *)
Lemma session_keeps (P : Mode -> Session -> Prop) inputs m s :
  (forall took i m s, P m s -> let '(m', s') := session_step took i (m, s) in P m' s') -> P m s ->
  let '(m', s') := foldl (fun m i => session_step i.1 i.2 m) (m, s) inputs in P m' s'.
Proof.
  intros Hstep. revert m s. induction inputs as [|[took i] inputs IH]; intros m s Hp; [done|]. cbn [foldl fst snd].
  specialize (Hstep took i m s Hp). destruct (session_step took i (m, s)) as [m' s']. by apply IH.
Qed.
Lemma kept_new has_audio address server profile w store people known servers :
  kept (core (session_new has_audio address server profile w store people known servers)) =
  mkKept (roster_welcome address server w) Connected address server (we_me w) true false false.
Proof. unfold session_new. by rewrite kept_apply_welcome. Qed.

(** ** The roster *)

Lemma run_roster inputs m s : roster_ok (kept (core s)) ->
  let '(_, s') := foldl (fun m i => session_step i.1 i.2 m) (m, s) inputs in
  roster_shown s' = foldl (roster_said (se_address s)) (roster_shown s) (heard inputs (m, s)) /\ roster_ok (kept (core s')).
Proof.
  revert m s. induction inputs as [|[took i] inputs IH]; intros m s Hok; [done|]. cbn [foldl fst snd heard]. pose proof (step_roster took i m s Hok) as H.
  destruct (session_step took i (m, s)) as [m' s']. destruct H as (Hr & Hok' & Ha). specialize (IH m' s' Hok'). destruct (foldl _ _ _) as [m'' s''].
  destruct IH as [IH ?]. split; [|done]. rewrite foldl_app. rewrite IH, Ha. unfold roster_shown at 1. change (roster (view (se_state s'))) with (kp_roster (kept (core s'))). by rewrite Hr.
Qed.

(** Names shown for ids a server can give out. *)
Definition clean_names (r : Roster) : Prop :=
  Forall (fun v => is_u64 (rv_id v) -> valid_name (rv_name v) = Some (rv_name v)) (ro_rooms r) /\
  map_Forall (fun user e => is_u64 user -> valid_name (en_name e) = Some (en_name e)) (ro_people r).
Lemma wf_clean r : roster_wf r -> clean_names r.
Proof.
  intros [_ _ _ Hr Hp]. split.
  - eapply list.Forall_impl; [exact Hr|]. intros v [raw E] Hid. rewrite E. by apply room_name_clean.
  - intros user e He Hid. destruct (Hp user e He) as [raw E]. rewrite E. by apply person_name_clean.
Qed.

(** C16: over any run of a session (commands, events, lost connections, attempts to come back,
    refreshes and the ends of its tasks), the server, the rooms and the people it shows are
    exactly what the server's welcomes and the events it heard since say, in order, as a
    function that knows nothing of calls, shares or trust; no room is shown twice, there are at
    most as many rooms and people as a server may have, and every name shown passes the checks
    on names, whatever the server sent. *)
Theorem the_roster_is_what_the_server_said has_audio address server profile w store people known servers inputs :
  let s := session_new has_audio address server profile w store people known servers in
  let '(_, s') := session_run inputs s in
  roster_shown s' = foldl (roster_said address) (roster_welcome address server w) (heard inputs (Online, push_profile s)) /\
  roster_wf (roster_shown s') /\ clean_names (roster_shown s').
Proof.
  cbn zeta. set (s := session_new _ _ _ _ _ _ _ _ _). unfold session_run.
  assert (kept (core (push_profile s)) = kept (core s)) as Ep by (by rewrite quiet_push_profile).
  assert (kp_roster (kept (core s)) = roster_welcome address server w /\ roster_ok (kept (core s)) /\ se_address s = address) as (Er & Hok & Ea).
  { change (se_address s) with (kp_address (kept (core s))). unfold s. rewrite kept_new. split_and!; [done|split; [apply welcome_wf|done]|done]. }
  pose proof (run_roster inputs Online (push_profile s)) as H. rewrite Ep in H. specialize (H Hok). destruct (foldl _ _ _) as [m s'].
  change (se_address (push_profile s)) with (kp_address (kept (core (push_profile s)))) in H. rewrite Ep in H. change (kp_address (kept (core s))) with (se_address s) in H. rewrite Ea in H.
  change (roster_shown (push_profile s)) with (kp_roster (kept (core (push_profile s)))) in H. rewrite Ep, Er in H. destruct H as [H [Hwf _]].
  split; [exact H|]. split; [exact Hwf|by apply wf_clean].
Qed.

(** ** The connection shown *)

Definition shows (m : Mode) (c : ConnectionStatus) : Prop :=
  match m with
  | Online => c = Connected
  | Offline l => c = Reconnecting (ls_attempt l) (ls_reason l)
  | Ended => c = Disconnected \/ exists why, c = Failed why
  end.
(** The wait doubles with each attempt, up to its cap. *)
Definition backs_off (m : Mode) : Prop :=
  match m with
  | Offline l => 1 <= ls_attempt l /\ ls_backoff l = Z.min (2 ^ (ls_attempt l - 1) * ns) MAX_BACKOFF /\ Z.of_nat (length (ls_queued l)) <= MAX_QUEUED_WHILE_RECONNECTING
  | _ => True
  end.
Definition conn (s : Session) : ConnectionStatus := kp_connection (kept (core s)).

Lemma conn_command c s : conn (command c s).2 = if (command c s).1 then Disconnected else conn s.
Proof. unfold conn. rewrite kept_of_command. unfold kept_command. destruct c; repeat case_match; done. Qed.
Lemma conn_queued queued s : conn (run_queued queued s).2 = if (run_queued queued s).1 then Disconnected else conn s.
Proof.
  revert s. induction queued as [|c queued IH]; intros s; [done|]. cbn [run_queued]. pose proof (conn_command c s) as H. destruct (command c s) as [ends s'].
  cbn [fst snd] in H. destruct ends; [done|]. by rewrite IH, H.
Qed.

Lemma conn_reconnect_command c l s :
  match reconnect_command c l s with
  | (Some l', s') => conn s' = conn s /\ ls_attempt l' = ls_attempt l /\ ls_reason l' = ls_reason l /\ ls_backoff l' = ls_backoff l /\
      (ls_queued l' = ls_queued l \/ ls_queued l' = (queue_command c (ls_queued l)).2)
  | (None, s') => conn s' = Disconnected
  end.
Proof.
  destruct c; cbn [reconnect_command];
    try (destruct (queue_command _ (ls_queued l)) as [took queued] eqn:E; cbn; split_and!; [by case_match|done..|by right]); try (split_and!; [done..|by left]).
  unfold conn. by rewrite kept_connection.
Qed.
Lemma backoff_doubles attempt : 1 <= attempt -> Z.min (Z.min (2 ^ (attempt - 1) * ns) MAX_BACKOFF * 2) MAX_BACKOFF = Z.min (2 ^ (attempt + 1 - 1) * ns) MAX_BACKOFF.
Proof.
  intros Ha. replace (attempt + 1 - 1) with (Z.succ (attempt - 1)) by lia. rewrite Z.pow_succ_r by lia. unfold MAX_BACKOFF, ns.
  assert (0 < 2 ^ (attempt - 1)) by (apply Z.pow_pos_nonneg; lia). lia.
Qed.

Lemma again_backs_off l reason : backs_off (Offline l) ->
  backs_off (Offline (mkLost (ls_lost l) reason (Z.min (ls_backoff l * 2) MAX_BACKOFF) (ls_queued l) (ls_dropped_any l) (ls_want_room l) (ls_room_before l) (ls_watching_before l) (ls_attempt l + 1))).
Proof. cbn. intros (Ha & -> & Hq). split_and!; [lia|by apply backoff_doubles|done]. Qed.

Lemma step_connection took i m s : roster_ok (kept (core s)) -> shows m (conn s) -> backs_off m ->
  let '(m', s') := session_step took i (m, s) in shows m' (conn s') /\ backs_off m'.
Proof.
  intros Hok Hm Hb.
  assert (forall s', kept (core s') = kept (core s) -> shows m (conn s') /\ backs_off m) as Hkept by (intros s' E; unfold conn; by rewrite E).
  assert (forall l random s', conn (reconnect_wait random l s') = Reconnecting (ls_attempt l) (ls_reason l)) as Hw by (intros; unfold conn; by rewrite kept_reconnect_wait).
  unfold session_step. destruct i.
  - destruct m; [| |by apply Hkept].
    + pose proof (conn_command c s) as H. destruct (command c s) as [[] s']; cbn [fst snd] in H; (split; [|done]); [by left|]. exact (eq_trans H Hm).
    + pose proof (conn_reconnect_command c l s) as H. destruct (reconnect_command c l s) as [[l'|] s'].
      * destruct H as (Hc & Ha & Hr & Hbo & Hq). destruct Hb as (Hb1 & Hb2 & Hb3). split; [cbn [shows] in *; rewrite Ha, Hr; exact (eq_trans Hc Hm)|]. cbn. rewrite Ha, Hbo. split_and!; [done..|].
        destruct Hq as [-> | ->]; [done|by apply queue_command_short].
      * split; [by left|done].
  - destruct m; [|by apply Hkept..]. split; [|done]. destruct e as [e|n]; cbn [call_event shows] in *; [|exact Hm].
    unfold conn. rewrite kept_event by apply Hok. exact Hm.
  - destruct m; [|by apply Hkept..]. unfold reconnect_start. split; [apply Hw|]. by cbn.
  - destruct m as [|l|]; [by apply Hkept| |by apply Hkept]. unfold reconnect_attempt. destruct (fatal result) as [failed|] eqn:Ef.
    { split; [|done]. right. exists failed. unfold conn. by rewrite quiet_emit, kept_connection. }
    destruct result as [e|expected actual| | |w server];
      [destruct e; (split; [apply Hw|by apply again_backs_off])|split; [apply Hw|by apply again_backs_off]..|].
    pose proof (conn_queued (ls_queued l) (reconnected w server l s)) as H. destruct (run_queued _ _) as [ends s']. cbn [fst snd] in H.
    destruct ends; (split; [|done]); [by left|]. cbn [shows]. unfold conn in *. by rewrite quiet_push_profile, H, kept_reconnected.
  - destruct m; [|by apply Hkept..]. apply Hkept. unfold stop_ended_share. case_match; [case_match|]; rewrite ?kept_end_share; by rewrite quiet_levels.
  - destruct m; [|by apply Hkept..]. apply Hkept. by rewrite quiet_health_tick.
  - destruct m; [|by apply Hkept..]. apply Hkept. by rewrite quiet_renew.
  - destruct m; [|by apply Hkept..]. apply Hkept. by rewrite quiet_recover_share.
  - destruct m; [|by apply Hkept..]. apply Hkept. by rewrite kept_share_started.
  - apply Hkept. by rewrite quiet_ask_avatar.
  - apply Hkept. by rewrite quiet_avatar_fetched.
Qed.

(** The wait started last, and the random number an input brings for one. *)
Definition wait_of (o : Out) : option Z := match o with Waiting wait => Some wait | _ => None end.
Definition last_wait (s : Session) : option Z := list.last (omap wait_of (se_out s)).
Definition random_of (i : Input) : option Z := match i with InLost _ random | InAttempt _ random => Some random | _ => None end.
(** While reconnecting, the wait that runs is the backoff scaled by one of the numbers drawn. *)
Definition waits (drawn : Z -> Prop) (m : Mode) (s : Session) : Prop :=
  match m with Offline l => exists random, drawn random /\ last_wait s = Some (jittered (ls_backoff l) random) | _ => True end.
Lemma wait_emit o s : last_wait (emit o s) = match wait_of o with Some wait => Some wait | None => last_wait s end.
Proof. unfold last_wait, emit. cbn. rewrite omap_app. cbn. destruct (wait_of o); [apply last_snoc|by rewrite app_nil_r]. Qed.
Lemma wait_update f s : last_wait (update_state f s) = last_wait s.
Proof. unfold update_state. cbv zeta. destruct (state_eqb _ _); [done|]. unfold tell. by rewrite wait_emit. Qed.
Lemma wait_reconnect random l s : last_wait (reconnect_wait random l s) = Some (jittered (ls_backoff l) random).
Proof. unfold reconnect_wait. by rewrite wait_emit. Qed.
Lemma wait_reconnect_command c l s : match reconnect_command c l s with (Some l', s') => ls_backoff l' = ls_backoff l /\ last_wait s' = last_wait s | _ => True end.
Proof.
  destruct c; cbn [reconnect_command]; try done; destruct (queue_command _ (ls_queued l)) as [took queued]; (split; [done|]);
    (case_match; [done|]); unfold notice, tell; by rewrite wait_emit.
Qed.
Lemma step_waits drawn took i m s : (forall random, random_of i = Some random -> drawn random) -> waits drawn m s ->
  let '(m', s') := session_step took i (m, s) in waits drawn m' s'.
Proof.
  intros Hd Hw. unfold session_step. destruct i.
  - destruct m as [|l|]; [by destruct (command c s) as [[] s']| |done]. pose proof (wait_reconnect_command c l s) as H.
    destruct (reconnect_command c l s) as [[l'|] s']; [|done]. cbn in *. destruct H as [-> ->]. exact Hw.
  - by destruct m.
  - destruct m; [|done..]. unfold reconnect_start. cbn [waits]. exists random. split; [by apply Hd|apply wait_reconnect].
  - destruct m as [|l|]; [done| |done]. specialize (Hd random eq_refl). unfold reconnect_attempt. destruct (fatal result); [done|].
    assert (forall l' s', waits drawn (Offline l') (reconnect_wait random l' s')) as Hgo by (intros l' s'; exists random; split; [done|apply wait_reconnect]).
    destruct result as [e|expected actual| | |w server]; [destruct e; apply Hgo|apply Hgo..|]. by destruct (run_queued _ _) as [[] s'].
  - by destruct m.
  - by destruct m.
  - by destruct m.
  - by destruct m.
  - by destruct m.
  - destruct m as [|l|]; [done| |done]. cbn in *. unfold ask_avatar. by destruct (shared_avatar _ _) as [[? ?] ?].
  - destruct m as [|l|]; [done| |done]. cbn in *. destruct Hw as (random & Hr & Hw). exists random. split; [done|]. rewrite <- Hw.
    unfold avatar_fetched, keep_avatar. repeat case_match; try done; unfold tell; by rewrite wait_emit.
Qed.

(** C18: over any run the connection a session shows is the state of its connecting: connected
    while it is on the server, the attempt and its reason while it is not, and disconnected or
    why it failed once it ended.  Before its [k]th attempt the wait it started is a second
    doubled [k - 1] times, but at most 15 seconds, scaled by the jitter of the number drawn
    for it, and never more than 64 commands wait with it. *)
Theorem the_connection_shown_is_the_connection has_audio address server profile w store people known servers inputs :
  let '(m, s) := session_run inputs (session_new has_audio address server profile w store people known servers) in
  shows m (vw_connection (se_state s)) /\ backs_off m /\
  waits (fun random => exists i, i ∈ inputs.*2 /\ random_of i = Some random) m s.
Proof.
  set (s0 := session_new _ _ _ _ _ _ _ _ _). unfold session_run. set (drawn := fun random => exists i, i ∈ inputs.*2 /\ random_of i = Some random).
  assert (forall ins : list (bool * Input), (forall i, i ∈ ins.*2 -> i ∈ inputs.*2) -> forall m s, (shows m (conn s) /\ backs_off m) /\ roster_ok (kept (core s)) /\ waits drawn m s ->
    let '(m', s') := foldl (fun m i => session_step i.1 i.2 m) (m, s) ins in (shows m' (conn s') /\ backs_off m') /\ waits drawn m' s') as H.
  { induction ins as [|[took i] ins IH]; intros Hin m s (Hm & Hok & Hw); [by split|]. cbn [foldl fst snd].
    pose proof (step_connection took i m s Hok (proj1 Hm) (proj2 Hm)) as H1. pose proof (step_roster took i m s Hok) as H2.
    pose proof (step_waits drawn took i m s) as H3. destruct (session_step took i (m, s)) as [m' s'].
    apply IH; [intros j Hj; apply Hin; by right|]. split_and!; [apply H1..|apply H2|]. apply H3; [|done]. intros random Hr. exists i. split; [apply Hin; by left|done]. }
  specialize (H inputs ltac:(done) Online (push_profile s0)). destruct (foldl _ _ _) as [m s]. destruct H as [[H1 H2] H3]; [|done].
  unfold conn. rewrite quiet_push_profile. unfold s0. rewrite kept_new. split; [done|]. split; [split; [apply welcome_wf|done]|done].
Qed.
(** The first waits, at the ends of the jitter: a second less or more three tenths, and 15. *)
Example waits_at_the_ends : (jittered ns 0, jittered ns (2 ^ 64 - 1), jittered MAX_BACKOFF 0, jittered MAX_BACKOFF (2 ^ 64 - 1)) =
  (700000000, 1300000000, 10500000000, 19500000000).
Proof. by vm_compute. Qed.

(** ** What is shown is what is held *)

(** C15: over any run of a session, what its windows show is what the session holds: the room
    it is in with its own share and the shares it watches, the mic and deafen switches, and of
    every person the share they announce and how many watch it, as the members and audiences
    say, whatever order the server's placements, members, audiences and refusals come in. Only
    our own entry is not kept up to date while we are in no room. *)
Theorem what_is_shown_is_what_is_held has_audio address server profile w store people known servers inputs :
  let '(_, s) := session_run inputs (session_new has_audio address server profile w store people known servers) in
  vw_current (se_state s) = (fun room => mkCurrent room (ms_share (se_media s)) (se_watching s)) <$> se_room s /\
  vw_mic (se_state s) = ms_mic (se_media s) /\ vw_deafened (se_state s) = ms_deafened (se_media s) /\
  map_Forall (fun user p => (user = se_me s /\ se_room s = None) \/ (pn_sharing p = sharing_of user s /\ pn_audience p = audience_of user s)) (vw_people (se_state s)).
Proof.
  pose proof (right_run inputs _ (right_new has_audio address server profile w store people known servers)) as H.
  destruct (session_run inputs _) as [m s]. cbn [snd] in H. destruct H as [Hr Hs Ho Ha]. unfold shows_switches in Hs. injection Hs as Hm Hd.
  split_and!; [exact Hr|exact Hm|exact Hd|]. intros user p Hp.
  assert (dk_people (deck (core s)) !! user = Some (shared (blind p))) as Hu by (cbn; by rewrite !lookup_fmap, Hp).
  destruct (decide (user = se_me s)) as [->|Hne].
  - destruct (se_room s) as [room|] eqn:E; [|by left]. right. specialize (Ha ltac:(cbn; rewrite E; eauto) _ _ Hu). by injection Ha as H1 H2.
  - right. specialize (Ho _ _ Hu Hne). by injection Ho as H1 H2.
Qed.

(** ** The switches *)

Definition is_switch (c : UiCommand) : bool := match c with UiSetMic _ | UiSetDeafened _ => true | _ => false end.
(** The commands a step carries out, or would if none of them ended the session. *)
Definition carried (i : Input) (m : Mode) : list UiCommand :=
  match i, m with InCommand c, Online => [c] | InAttempt (SignedIn_ _ _) _, Offline l => ls_queued l | _, _ => [] end.
(** A run in which no command carried out is for a switch. *)
Fixpoint leaves_switches (inputs : list (bool * Input)) (m : Mode * Session) : bool :=
  match inputs with
  | [] => true
  | (took, i) :: inputs => forallb (fun c => negb (is_switch c)) (carried i m.1) && leaves_switches inputs (session_step took i m)
  end.
Definition switches (k : Kept) : bool * bool * bool := (kp_mic k, kp_deafened k, kp_mic_before k).
Definition switches_of (s : Session) : bool * bool * bool := switches (kept (core s)).

Lemma command_switches c s : is_switch c = false -> switches_of (command c s).2 = switches_of s.
Proof. intros Hc. unfold switches_of. rewrite kept_of_command. unfold kept_command. by destruct c, (command _ _).1. Qed.
Lemma queued_switches queued s : forallb (fun c => negb (is_switch c)) queued = true -> switches_of (run_queued queued s).2 = switches_of s.
Proof.
  revert s. induction queued as [|c queued IH]; intros s; [done|]. cbn. intros [Hc%negb_true_iff Hq]%andb_true_iff. pose proof (command_switches c s Hc) as H.
  destruct (command c s) as [ends s']. cbn [snd] in H. destruct ends; [done|]. by rewrite IH.
Qed.
Lemma step_switches took i m s : roster_ok (kept (core s)) -> forallb (fun c => negb (is_switch c)) (carried i m) = true ->
  switches_of (session_step took i (m, s)).2 = switches_of s.
Proof.
  intros Hok Hc.
  assert (forall s', kept (core s') = kept (core s) -> switches_of s' = switches_of s) as Hkept by (intros s' E; unfold switches_of; by rewrite E).
  assert (forall c s', core s' = core s -> switches_of (update_state (set_connection c) s') = switches_of s) as Hco
    by (intros c s' E; unfold switches_of; by rewrite kept_connection, E).
  assert (forall random l s', core s' = core s -> switches_of (reconnect_wait random l s') = switches_of s) as Hw
    by (intros random l s' E; unfold switches_of; by rewrite kept_reconnect_wait, E).
  unfold session_step. destruct i.
  - destruct m; [| |done].
    + cbn in Hc. rewrite andb_true_r in Hc. pose proof (command_switches c s (proj1 (negb_true_iff _) Hc)) as H. by destruct (command c s) as [[] s'].
    + assert (switches_of (reconnect_command c l s).2 = switches_of s) as H.
      { destruct c; cbn [reconnect_command]; try (destruct (queue_command _ _) as [took' queued]; cbn [snd]; by destruct (took' || _)); [done|done|by apply Hco]. }
      by destruct (reconnect_command c l s) as [[l'|] s'].
  - destruct m; [|done..]. destruct e as [e|n]; cbn [call_event snd]; [|done]. unfold switches_of. by rewrite kept_event by apply Hok.
  - destruct m; [|done..]. cbn. apply Hw, quiet_cue.
  - destruct m as [|l|]; [done| |done]. unfold reconnect_attempt. destruct (fatal result) as [failed|]; [by apply Hco|].
    destruct result as [e|expected actual| | |w server]; [destruct e; by apply Hw|by apply Hw..|]. cbn in Hc.
    pose proof (queued_switches (ls_queued l) (reconnected w server l s) Hc) as H. destruct (run_queued _ _) as [ends s']. cbn [snd] in H.
    unfold switches_of at 2 in H. rewrite kept_reconnected in H. destruct ends; [exact H|]. cbn [snd]. unfold switches_of. rewrite quiet_push_profile. exact H.
  - destruct m; [|done..]. apply Hkept. cbn [snd]. unfold stop_ended_share. case_match; [case_match|]; rewrite ?kept_end_share; by rewrite quiet_levels.
  - destruct m; [|done..]. apply Hkept. cbn [snd]. by rewrite quiet_health_tick.
  - destruct m; [|done..]. apply Hkept. cbn [snd]. by rewrite quiet_renew.
  - destruct m; [|done..]. apply Hkept. cbn [snd]. by rewrite quiet_recover_share.
  - destruct m; [|done..]. apply Hkept. cbn [snd]. by rewrite kept_share_started.
  - apply Hkept. cbn [snd]. by rewrite quiet_ask_avatar.
  - apply Hkept. cbn [snd]. by rewrite quiet_avatar_fetched.
Qed.
Lemma run_switches inputs m s : roster_ok (kept (core s)) -> leaves_switches inputs (m, s) = true ->
  switches_of (foldl (fun m i => session_step i.1 i.2 m) (m, s) inputs).2 = switches_of s.
Proof.
  revert m s. induction inputs as [|[took i] inputs IH]; intros m s Hok; [done|]. cbn [leaves_switches foldl fst snd]. intros [Hc Hl]%andb_true_iff.
  pose proof (step_switches took i m s Hok Hc) as H1. pose proof (step_roster took i m s Hok) as H2. destruct (session_step took i (m, s)) as [m' s'].
  cbn [snd] in H1. rewrite IH; [done|apply H2|done].
Qed.

Lemma deafening s : switches_of (command (UiSetDeafened true) s).2 =
  if kp_deafened (kept (core s)) then switches_of s else (false, true, kp_mic (kept (core s))).
Proof. unfold switches_of. rewrite kept_of_command. unfold kept_command. destruct (command _ s).1, (kp_deafened (kept (core s))); done. Qed.
Lemma undeafening s : switches_of (command (UiSetDeafened false) s).2 =
  if kp_deafened (kept (core s)) then (kp_mic_before (kept (core s)), false, kp_mic_before (kept (core s))) else switches_of s.
Proof. unfold switches_of. rewrite kept_of_command. unfold kept_command. destruct (command _ s).1, (kp_deafened (kept (core s))); done. Qed.

Lemma session_reached inputs has_audio address server profile w store people known servers :
  let '(_, s) := session_run inputs (session_new has_audio address server profile w store people known servers) in roster_ok (kept (core s)) /\ is_right s.
Proof.
  set (s0 := session_new _ _ _ _ _ _ _ _ _). pose proof (right_run inputs s0 (right_new _ _ _ _ _ _ _ _ _)) as H. unfold session_run in *.
  pose proof (run_roster inputs Online (push_profile s0)) as Hr. destruct (foldl _ _ _) as [m s]. split; [|exact H]. apply Hr. rewrite quiet_push_profile.
  unfold s0. rewrite kept_new. split; [apply welcome_wf|done].
Qed.

(** C17: deafening mutes the mic, and undeafening brings back the mic as it was, whatever
    happens in between but a command for one of the two switches: the server's events, joins,
    shares, and connections lost and found again with the commands queued meanwhile. *)
Theorem undeafening_restores_the_mic has_audio address server profile w store people known servers before between s s' :
  session_run before (session_new has_audio address server profile w store people known servers) = (Online, s) ->
  vw_deafened (se_state s) = false ->
  let deaf := (command (UiSetDeafened true) s).2 in
  leaves_switches between (Online, deaf) = true ->
  foldl (fun m i => session_step i.1 i.2 m) (Online, deaf) between = (Online, s') ->
  let back := (command (UiSetDeafened false) s').2 in
  (vw_mic (se_state s'), vw_deafened (se_state s')) = (false, true) /\ (vw_mic (se_state back), vw_deafened (se_state back)) = (vw_mic (se_state s), false).
Proof.
  intros Hrun Hd deaf Hl Hb back. pose proof (session_reached before has_audio address server profile w store people known servers) as H. rewrite Hrun in H.
  destruct H as [Hok H]. assert (is_right deaf) as Hr1 by by apply right_command.
  assert (roster_ok (kept (core deaf))) as Hok1 by (eapply company_ok; [exact Hok|apply command_company]).
  assert (is_right s') as Hr2 by (change s' with (Online, s').2; rewrite <- Hb; by apply right_steps).
  assert (is_right back) as Hr3 by by apply right_command. pose proof (run_switches between Online deaf Hok1 Hl) as Hs. rewrite Hb in Hs. cbn [snd] in Hs.
  assert (forall s, is_right s -> (vw_mic (se_state s), vw_deafened (se_state s)) = (kp_mic (kept (core s)), kp_deafened (kept (core s)))) as Hv by (intros x [_ Hx _ _]; exact Hx).
  pose proof (Hv _ H) as Hv0. rewrite Hd in Hv0. injection Hv0 as -> Hd0. rewrite (Hv _ Hr2), (Hv _ Hr3). clear Hv.
  change (switches_of deaf) with (switches_of (command (UiSetDeafened true) s).2) in Hs. rewrite deafening in Hs. unfold switches_of in Hs. change (ms_deafened (se_media s)) with (kp_deafened (kept (core s))) in Hd0. rewrite <- Hd0 in Hs.
  assert (forall k a b c, switches k = (a, b, c) -> kp_mic k = a /\ kp_deafened k = b /\ kp_mic_before k = c) as Hsw by (by intros k a b c [= <- <- <-]).
  apply Hsw in Hs as (Hm' & Hd' & Hb'). pose proof (undeafening s') as Hu. unfold switches_of in Hu. rewrite Hd' in Hu. apply Hsw in Hu as (Hm & Hde & _).
  split; [by rewrite Hm', Hd'|]. unfold back. by rewrite Hm, Hde, Hb'.
Qed.
End Runs.

(** ** A session among others *)

(** A server that agrees to everything and puts whoever joins room 7 into it, and files that
    nobody else writes. *)
Definition calm : Outside := {|
  os_answer _ r := match r with JoinRoom room _ => inl (RespPlacement (mkPlacement (Some room) 1 (Some (mkTracks 1 [])) [] Audiences_default)) | _ => inl RespOk end;
  os_room_peers _ := []; os_notices _ := []; os_others _ x := x; os_servers _ x := x; os_written _ := true; os_note_written _ _ _ := true; os_error _ := [];
  os_now _ := 0; os_arrived _ _ := mkArrived 0 0 0; os_sent_bytes _ _ := 0; os_decodes _ := None; os_decoder_name _ := []; os_closed _ := false;
  os_removed _ := false; sha256 b := b
|}.
Definition a_welcome : Welcome := mkWelcome 1 User [mkRoom 7 (lit "Den") false] [mkPresence 1 (lit "Ann") None None true false false User]
  (mkPlacement None 0 None [] Audiences_default) (mkServerProfile None None) (mkUserProfile (lit "Ann") None).
Definition a_session : Session := session_new (outside := calm) true (lit "host") [1] (mkProfile (lit "Ann") None) a_welcome verified_empty None (mkKnown ∅) None.
(** Into a room, cut off, a rename queued, and back, with someone new there. *)
Definition some_days : list (bool * Input) :=
  [(true, InCommand (UiJoin (Some 7))); (true, InLost (lit "gone") 0); (true, InCommand (UiRenameRoom 7 (lit "Lair"))); (true, InAttempt SignInFailed 0);
   (true, InAttempt (SignedIn_ a_welcome [1]) 0); (true, InEvent (FromServer (PresenceChanged (mkPresence 2 (lit "Bo") None (Some 7) true false false User))))].

Lemma still_online (m : Mode * Session) : m.1 = Online -> m = (Online, m.2). Proof. destruct m. by intros [= ->]. Qed.

Lemma undeafening_restores_the_mic_witness :
  let s := (session_run (outside := calm) [] a_session).2 in
  let deaf := (command (outside := calm) (UiSetDeafened true) s).2 in
  let s' := (foldl (fun m i => session_step (outside := calm) i.1 i.2 m) (Online, deaf) some_days).2 in
  let back := (command (outside := calm) (UiSetDeafened false) s').2 in
  vw_mic (se_state s) = true /\ (vw_mic (se_state s'), vw_deafened (se_state s')) = (false, true) /\ (vw_mic (se_state back), vw_deafened (se_state back)) = (vw_mic (se_state s), false).
Proof.
  split; [by vm_compute|].
  apply (undeafening_restores_the_mic (outside := calm) true (lit "host") [1] (mkProfile (lit "Ann") None) a_welcome verified_empty None (mkKnown ∅) None [] some_days);
    [reflexivity|by vm_compute|by vm_compute|].
  apply still_online. by vm_compute.
Defined.

(** The queue is not what was asked: a mic muted while deafened comes back with undeafening,
    but of the three commands the first is dropped, and the mic stays muted. *)
Lemma replaying_the_queue_may_differ {outside : Outside} (s : Session) :
  let asked := [UiSetDeafened true; UiSetMic false; UiSetDeafened false] in
  ms_mic (se_media s) = true -> ms_deafened (se_media s) = false ->
  ms_mic (se_media (run_queued asked s).2) = true /\ ms_mic (se_media (run_queued (queue_all asked []) s).2) = false.
Proof.
  cbn zeta. intros Hm Hd. change (queue_all _ []) with [UiSetMic false; UiSetDeafened false].
  assert (forall cs s, forallb is_switch cs = true -> kept (core (run_queued cs s).2) = foldl (fun k c => kept_command false c k) (kept (core s)) cs) as Hr.
  { induction cs as [|c cs IH]; intros s'; [done|]. cbn [forallb run_queued]. intros [Hs Hc]%andb_true_iff. pose proof (kept_of_command c s') as E.
    destruct (command c s') as [ends s''] eqn:Ec. cbn [fst snd] in E. assert (ends = false) as ->.
    { destruct c; try done; cbn [command] in Ec; [by injection Ec as <- _|]. destruct (set_deafened _ _ _). by injection Ec as <- _. }
    cbn [foldl]. rewrite IH by done. by rewrite E. }
  assert (forall x, ms_mic (se_media x) = kp_mic (kept (core x))) as Hk by done. rewrite !Hk, !Hr by done. clear Hr Hk.
  cbn. rewrite Hd. cbn. by rewrite Hm.
Qed.
