(* ===== verification/Settings.v ===== *)
(** * Settings (throcc-client-core, settings.rs)

    What the user sets for the app, kept in one of the files of [JsonFile].  What serde writes
    of a setting is the class [Format] there. *)
From Stdlib Require Import SpecFloat.
From S2P Require Import Prelude Messages JsonFile People.
Open Scope Z_scope.

(** [f32] literals and arithmetic; a literal is a quotient of integers below [2 ^ 24]. *)
Definition f32_add : f32 -> f32 -> f32 := SFadd 24 128.
Definition f32_sub : f32 -> f32 -> f32 := SFsub 24 128.
Definition f32_mul : f32 -> f32 -> f32 := SFmul 24 128.
Definition f32_div : f32 -> f32 -> f32 := SFdiv 24 128.
Definition f32_lit (n d : Z) : f32 := f32_div (f32_of_Z n) (f32_of_Z d).
Definition f32_zero : f32 := S754_zero false.
Definition f32_one : f32 := f32_of_Z 1.
Definition NEG_INFINITY : f32 := S754_infinity true.

(* @src/crates/throcc-client-core/src/profile.rs 6-12 Profile *)
Record Profile := mkProfile { pr_name : str; pr_picture : option bytes }.
(* @src/crates/throcc-client-core/src/settings.rs 25-34 Appearance *)
Record Appearance := mkAppearance { ap_theme : option str; ap_palette : option (list str); ap_translucent_sidebar : option bool }.
(* @src/crates/throcc-client-core/src/settings.rs 46-51 Transmit *)
Inductive Transmit := VoiceActivity (threshold_dbfs : f32) | PushToTalk.
(* @src/crates/throcc-client-core/src/settings.rs 53-59 NoiseSuppression *)
Inductive NoiseSuppression := Low | Moderate | High.
#[export] Instance NoiseSuppression_eq_dec : EqDecision NoiseSuppression.
Proof. solve_decision. Defined.
(* @src/crates/throcc-client-core/src/settings.rs 61-76 VoiceSettings *)
Record VoiceSettings := mkVoiceSettings {
  vs_echo_cancellation : bool; vs_noise_suppression : option NoiseSuppression; vs_automatic_gain : bool; vs_transmit : Transmit;
  vs_speech_only : bool; vs_input_volume : f32; vs_output_volume : f32; vs_cue_volume : f32
}.
(* @src/crates/throcc-client-core/src/settings.rs 36-44 AudioSettings *)
Record AudioSettings := mkAudioSettings { as_input_device : option str; as_output_device : option str; as_voice : VoiceSettings }.
(* @src/crates/throcc-client-core/src/settings.rs 15-23 Settings *)
Record Settings := mkSettings { st_profile : option Profile; st_appearance : Appearance; st_audio : AudioSettings }.

(* @src/crates/throcc-client-core/src/settings.rs 12-13 DEFAULT_GATE_DBFS *)
Definition DEFAULT_GATE_DBFS : f32 := f32_of_Z (-50).
(* @src/crates/throcc-client-core/src/settings.rs 79-92 VoiceSettings::default *)
Definition voice_settings_default : VoiceSettings :=
  mkVoiceSettings true (Some Moderate) true (VoiceActivity DEFAULT_GATE_DBFS) false f32_one f32_one f32_one.
Definition settings_default : Settings := mkSettings None (mkAppearance None None None) (mkAudioSettings None None voice_settings_default).

(** The closure on the profile, and the loop on the volumes. *)
(* @src/crates/throcc-client-core/src/settings.rs 102-107! Settings::load *)
Definition checked_profile (p : option Profile) : option Profile :=
  p ← p; name ← valid_name (pr_name p); Some (mkProfile name (pr_picture p)).
(* @src/crates/throcc-client-core/src/settings.rs 108-115! Settings::load *)
Definition checked_voice (v : VoiceSettings) : VoiceSettings :=
  let checked volume := f32_clamp volume (f32_of_Z 0) MAX_VOLUME in
  mkVoiceSettings (vs_echo_cancellation v) (vs_noise_suppression v) (vs_automatic_gain v) (vs_transmit v) (vs_speech_only v)
    (checked (vs_input_volume v)) (checked (vs_output_volume v)) (checked (vs_cue_volume v)).
Definition checked_settings (s : Settings) : Settings :=
  mkSettings (checked_profile (st_profile s)) (st_appearance s)
    (mkAudioSettings (as_input_device (st_audio s)) (as_output_device (st_audio s)) (checked_voice (as_voice (st_audio s)))).

Section File.
Context {Value : Type} `{!Json Value, !JsonLaws Value} `{!Format Value Settings, !FormatLaws Value Settings}.

(* @src/crates/throcc-client-core/src/settings.rs 98-117 Settings::load *)
Definition settings_load (readable : bool) (file : option bytes) : Settings + JsonError :=
  match json_load readable file with inl settings => inl (checked_settings settings) | inr e => inr e end.
(* @src/crates/throcc-client-core/src/settings.rs 119-123 Settings::save *)
Definition settings_save (io : FileAnswers) (s : Settings) (file : option bytes) : (Settings + JsonError) * option bytes :=
  json_update io (fun _ => s) file.
End File.
