(* ===== verification/Cues.v ===== *)
(** * Cues (throcc-client-core, media/cues.rs)

    The short sounds the app plays: how each is rendered, and the one playing.  [f32::sin] and
    its like are the platform's, whose precision Rust leaves open: the class [Libm]. *)
From Stdlib Require Import SpecFloat.
From S2P Require Import Prelude People Jitter SessionState Settings.
Open Scope Z_scope.

Class Libm := { f32_sin : f32 -> f32; f32_cos : f32 -> f32; f32_exp : f32 -> f32; f32_tanh : f32 -> f32; f32_log10 : f32 -> f32 }.

#[export] Instance Cue_eq_dec : EqDecision Cue.
Proof. solve_decision. Defined.

(** [f32::max] and [f32::min] pass over NaN; [x as usize] is towards zero and saturates. *)
Definition is_nan (x : f32) : bool := match x with S754_nan => true | _ => false end.
Definition f32_max (a b : f32) : f32 := if is_nan a then b else if SFltb a b then b else a.
Definition f32_min (a b : f32) : f32 := if is_nan a then b else if SFltb b a then b else a.
Definition f32_to_usize (x : f32) : Z :=
  match x with
  | S754_nan | S754_zero _ | S754_infinity true | S754_finite true _ _ => 0
  | S754_infinity false => u64_max
  | S754_finite false m e => Z.min u64_max (if 0 <=? e then Z.pos m * 2 ^ e else Z.pos m / 2 ^ (- e))
  end.
Definition f32_sum (xs : list f32) : f32 := foldl f32_add f32_zero xs.
(** [for (o, s) in out.iter_mut().zip(from) { *o += s * gain }]. *)
Fixpoint add_into (gain : f32) (out from : list f32) : list f32 :=
  match out, from with
  | o :: out, s :: from => f32_add o (f32_mul s gain) :: add_into gain out from
  | _, _ => out
  end.

(* @src/crates/throcc-client-core/src/media/cues.rs 23-36 CUES *)
Definition CUES : list Cue :=
  [CueJoin; CueLeave; CueMute; CueUnmute; CueDeafen; CueUndeafen; CueConnectionLost; CueReconnected; CueStreamStart; CueStreamStop; CueStreamJoin; CueStreamLeave].
(* @src/crates/throcc-client-core/src/media/cues.rs 38-38! A4 *)
Definition A4 : f32 := f32_of_Z 440.
(* @src/crates/throcc-client-core/src/media/cues.rs 39-39! D5 *)
Definition D5 : f32 := f32_lit 58733 100.
(* @src/crates/throcc-client-core/src/media/cues.rs 40-40! F4 *)
Definition F4 : f32 := f32_lit 34923 100.
(* @src/crates/throcc-client-core/src/media/cues.rs 41-41! FS4 *)
Definition FS4 : f32 := f32_lit 36999 100.
(* @src/crates/throcc-client-core/src/media/cues.rs 42-42! D4 *)
Definition D4 : f32 := f32_lit 29366 100.
(* @src/crates/throcc-client-core/src/media/cues.rs 43-43! B3 *)
Definition B3 : f32 := f32_lit 24694 100.
(* @src/crates/throcc-client-core/src/media/cues.rs 44-45! PARTIALS *)
Definition PARTIALS : list (f32 * f32) := [(f32_one, f32_one); (f32_of_Z 2, f32_lit 18 100); (f32_of_Z 3, f32_lit 6 100)].
(* @src/crates/throcc-client-core/src/media/cues.rs 46-47! SOFT_PARTIALS *)
Definition SOFT_PARTIALS : list (f32 * f32) := [(f32_one, f32_one); (f32_of_Z 2, f32_lit 6 100)].
(* @src/crates/throcc-client-core/src/media/cues.rs 48-49! PEAK *)
Definition PEAK : f32 := f32_lit 1 10.
(* @src/crates/throcc-client-core/src/media/cues.rs 50-51! SOFT_PEAK *)
Definition SOFT_PEAK : f32 := f32_lit 89 1000.
(* @src/crates/throcc-client-core/src/media/cues.rs 52-52! ATTACK *)
Definition ATTACK : f32 := f32_lit 5 1000.
(* @src/crates/throcc-client-core/src/media/cues.rs 53-53! FADE_OUT *)
Definition FADE_OUT : f32 := f32_lit 1 100.
(** [std::f32::consts::PI]. *)
Definition PI : f32 := S754_finite false 13176795 (-22).

(* @src/crates/throcc-client-core/src/media/cues.rs 55-65 Shape *)
Record Shape := mkShape { sp_notes : list f32; sp_partials : list (f32 * f32); sp_gap : f32; sp_attack : f32; sp_length : f32; sp_decay : f32; sp_peak : f32 }.
(* @src/crates/throcc-client-core/src/media/cues.rs 68-127 Cue::shape *)
Definition shape (c : Cue) : Shape :=
  let chime notes := mkShape notes PARTIALS (f32_lit 8 100) ATTACK (f32_lit 2 10) (f32_lit 4 100) PEAK in
  let tap notes := mkShape notes PARTIALS (f32_lit 85 1000) ATTACK (f32_lit 12 100) (f32_lit 35 1000) PEAK in
  let switch notes := mkShape notes PARTIALS f32_zero ATTACK (f32_lit 16 100) (f32_lit 5 100) PEAK in
  let soft notes := mkShape notes SOFT_PARTIALS (f32_lit 13 100) (f32_lit 25 1000) (f32_lit 34 100) (f32_lit 1 10) SOFT_PEAK in
  let swell notes := mkShape notes SOFT_PARTIALS f32_zero (f32_lit 4 100) (f32_lit 3 10) (f32_lit 9 100) SOFT_PEAK in
  match c with
  | CueJoin | CueReconnected => chime [A4; D5]
  | CueLeave => chime [D5; A4]
  | CueMute => switch [A4]
  | CueUnmute => switch [D5]
  | CueDeafen => tap [A4; A4]
  | CueUndeafen => tap [D5; D5]
  | CueConnectionLost => chime [D5; A4; F4]
  | CueStreamStart => soft [FS4; D5]
  | CueStreamStop => soft [D5; FS4]
  | CueStreamJoin => swell [D4; FS4]
  | CueStreamLeave => swell [B3; D4]
  end.

Section with_libm.
Context {libm : Libm}.

(** What a note of frequency [freq] adds to its [i]th sample. *)
(* @src/crates/throcc-client-core/src/media/cues.rs 145-156! Cue::render *)
Definition note_sample (s : Shape) (note_len : Z) (freq : f32) (i : Z) : f32 :=
  let rate := f32_of_Z SAMPLE_RATE in
  let t := f32_div (f32_of_Z i) rate in
  let half := f32_lit 1 2 in
  let envelope :=
    if SFltb t (sp_attack s) then f32_sub half (f32_mul half (f32_cos (f32_div (f32_mul PI t) (sp_attack s))))
    else f32_exp (f32_div (SFopp (f32_sub t (sp_attack s))) (sp_decay s)) in
  let fade_out := f32_min (f32_div (f32_of_Z (note_len - i)) (f32_mul FADE_OUT rate)) f32_one in
  let wave := f32_sum ((fun '(ratio, amplitude) =>
    f32_mul amplitude (f32_sin (f32_mul (f32_mul (f32_mul (f32_mul (f32_of_Z 2) PI) freq) ratio) t))) <$> sp_partials s) in
  f32_mul (f32_mul wave envelope) fade_out.
(* @src/crates/throcc-client-core/src/media/cues.rs 129-166 Cue::render *)
Definition render (c : Cue) : list f32 :=
  let s := shape c in
  let rate := f32_of_Z SAMPLE_RATE in
  let note_len := f32_to_usize (f32_mul (sp_length s) rate) in
  let offset := f32_to_usize (f32_mul (sp_gap s) rate) in
  let strike out '(k, freq) :=
    imap (fun j sample => let i := Z.of_nat j - Z.of_nat k * offset in
      if (0 <=? i) && (i <? note_len) then f32_add sample (note_sample s note_len freq i) else sample) out in
  let out := foldl strike (replicate (Z.to_nat (offset * Z.of_nat (pred (length (sp_notes s))) + note_len)) f32_zero) (imap pair (sp_notes s)) in
  let peak := foldl (fun m x => f32_max m (SFabs x)) f32_zero out in
  if SFltb f32_zero peak then (fun x => f32_mul x (f32_div (sp_peak s) peak)) <$> out else out.

(* @src/crates/throcc-client-core/src/media/cues.rs 175-179 Playing *)
Record Playing := mkPlaying { pl_cue : Cue; pl_position : nat; pl_gain : f32 }.
(* @src/crates/throcc-client-core/src/media/cues.rs 169-173 CuePlayer *)
Record CuePlayer := mkCuePlayer { cu_sounds : list (Cue * list f32); cu_playing : option Playing }.
(* @src/crates/throcc-client-core/src/media/cues.rs 182-187 CuePlayer::default *)
Definition cue_player_default : CuePlayer := mkCuePlayer ((fun c => (c, render c)) <$> CUES) None.
(* @src/crates/throcc-client-core/src/media/cues.rs 191-202 CuePlayer::play *)
Definition cues_play (c : Cue) (gain : f32) (p : CuePlayer) : CuePlayer :=
  if match cu_playing p with Some playing => bool_decide (pl_cue playing = c) | None => false end then p
  else mkCuePlayer (cu_sounds p) (Some (mkPlaying c 0 (f32_clamp gain (f32_of_Z 0) MAX_VOLUME))).
(** [out] with the samples added. *)
(* @src/crates/throcc-client-core/src/media/cues.rs 204-220 CuePlayer::mix *)
Definition cues_mix (out : list f32) (p : CuePlayer) : list f32 * CuePlayer :=
  match cu_playing p with
  | None => (out, p)
  | Some playing =>
      match List.find (fun '(c, _) => bool_decide (c = pl_cue playing)) (cu_sounds p) with
      | None => (out, p)
      | Some (_, samples) =>
          let position := (pl_position playing + length out)%nat in
          (add_into (pl_gain playing) out (drop (pl_position playing) samples),
           mkCuePlayer (cu_sounds p) (if (length samples <=? position)%nat then None else Some (mkPlaying (pl_cue playing) position (pl_gain playing))))
      end
  end.
End with_libm.
