(* ===== verification/Voice.v ===== *)
(** * The audio thread (throcc-client-core, media/audio.rs and media/voice.rs)

    The mic's chain to Opus packets, the mix of what is heard, and the worker that plays and
    captures for the newest call.  The processing of the mic (sonora), its speech detector,
    the Opus codecs and the resamplers are not part of the repository: the classes
    [AudioProcessing], [SpeechDetector], [VoipEncoder], [Resampler] and the jitter buffer's
    decoder.  The open devices are two rings of samples, which other threads fill and empty. *)
From Stdlib Require Import SpecFloat.
From S2P Require Import Prelude Ordered Ids Float64 People Jitter Engine ClientState SessionState Settings Cues Share.
Open Scope Z_scope.

(** ** The mic (audio.rs) *)

(* @src/crates/throcc-client-core/src/media/audio.rs 23-24 HANGOVER_PULLS *)
Definition HANGOVER_PULLS : Z := 30.
(* @src/crates/throcc-client-core/src/media/audio.rs 25-25 MAX_PACKET *)
Definition MAX_PACKET : Z := 1500.
(* @src/crates/throcc-client-core/src/media/audio.rs 26-27 SPEECH_PROBABILITY *)
Definition SPEECH_PROBABILITY : f32 := f32_lit 1 2.
(* @src/crates/throcc-client-core/src/media/audio.rs 28-29 SPEAKING_DBFS *)
Definition SPEAKING_DBFS : f32 := f32_of_Z (-60).

Definition Processing : Type := bool * option NoiseSuppression * bool.
Class AudioProcessing (Apm : Type) := {
  (** A mono 48 kHz processor, set to echo cancellation, noise suppression and gain control. *)
  apm_new : Apm;
  apply_config : Processing -> Apm -> Apm;
  (** Whether it worked; the mic's pull is written over the buffer given. *)
  process_render : list f32 -> Apm -> bool * Apm;
  process_capture : list f32 -> list f32 -> Apm -> bool * list f32 * Apm
}.
Class SpeechDetector (Vad : Type) := { vad_new : Vad; vad_analyze : list f32 -> Vad -> f32 * Vad }.
Class VoipEncoder (Voip : Type) := {
  (** A 48 kHz mono encoder of 20 ms frames with FEC and DTX, by bitrate and expected loss. *)
  voip_build : Z -> Z -> option Voip;
  voip_encode : list f32 -> Z -> Voip -> option bytes * Voip
}.

(* @src/crates/throcc-client-core/src/media/audio.rs 31-39 AudioError *)
Inductive AudioError := ErrProcessing | ErrEncoder | ErrDecoder.

Section with_libm.
Context {libm : Libm}.

(** The literal 1e-12. *)
Definition least_mean : f32 := S754_finite false 9223372 (-63).
(* @src/crates/throcc-client-core/src/media/audio.rs 372-375 dbfs *)
Definition dbfs (samples : list f32) : f32 :=
  let mean := f32_div (f32_sum ((fun s => f32_mul s s) <$> samples)) (f32_of_Z (Z.max (Z.of_nat (length samples)) 1)) in
  f32_mul (f32_of_Z 10) (f32_log10 (f32_max mean least_mean)).
(** [f32::signum]. *)
Definition f32_signum (x : f32) : f32 :=
  match x with S754_nan => S754_nan | S754_zero s | S754_infinity s | S754_finite s _ _ => if s then SFopp f32_one else f32_one end.
(* @src/crates/throcc-client-core/src/media/audio.rs 361-370 soft_clip *)
Definition soft_clip (x : f32) : f32 :=
  let knee := f32_lit 1 2 in
  if SFleb (SFabs x) knee then x else
  let over := f32_div (f32_sub (SFabs x) knee) (f32_sub f32_one knee) in
  f32_mul (f32_signum x) (f32_add knee (f32_mul (f32_sub f32_one knee) (f32_tanh over))).

(** The new count, which is also whether it runs. *)
(* @src/crates/throcc-client-core/src/media/audio.rs 257-265 hold *)
Definition hold (active : bool) (hangover : Z) : bool * Z :=
  let hangover := if active then HANGOVER_PULLS else sat_sub hangover 1 in (0 <? hangover, hangover).

(** ** Gains *)

(* @src/crates/throcc-client-core/src/media/audio.rs 267-269 Gains *)
Definition Gains : Type := gmap UserId f32.
(* @src/crates/throcc-client-core/src/media/audio.rs 272-274 Gains::set *)
Definition gains_set (user : UserId) (gain : f32) (g : Gains) : Gains := <[user := f32_clamp gain (f32_of_Z 0) MAX_VOLUME]> g.
(* @src/crates/throcc-client-core/src/media/audio.rs 276-278 Gains::get *)
Definition gains_get (user : UserId) (g : Gains) : f32 := default f32_one (g !! user).

Section chain.
Context {Apm Vad Voip : Type} {apm : AudioProcessing Apm} {vad : SpeechDetector Vad} {voip : VoipEncoder Voip}.

(** [cn_frame] is the 20 ms buffer, the first [cn_frame_len] samples of it filled. *)
(* @src/crates/throcc-client-core/src/media/audio.rs 47-71 CaptureChain *)
Record CaptureChain := mkChain {
  cn_apm : Apm; cn_encoder : Voip; cn_transmit : Transmit; cn_speech_only : bool; cn_speech : Vad; cn_input_volume : f32;
  cn_processing : Processing; cn_processed : list f32; cn_frame : list f32; cn_frame_len : Z; cn_frame_open : bool; cn_clock : Z;
  cn_hangover : Z; cn_muted : bool; cn_transmitting : bool; cn_level_dbfs : f32; cn_gate_open : bool
}.
(* @src/crates/throcc-client-core/src/media/audio.rs 223-229 processing_choice *)
Definition processing_choice (s : VoiceSettings) : Processing := (vs_echo_cancellation s, vs_noise_suppression s, vs_automatic_gain s).
(* @src/crates/throcc-client-core/src/media/audio.rs 74-111 CaptureChain::new *)
Definition chain_new (s : VoiceSettings) : AudioError + CaptureChain :=
  let a := apply_config (processing_choice s) apm_new in
  match voip_build (MIC_KBPS * 1000) 5 with
  | None => inl ErrEncoder
  | Some encoder =>
      inr (mkChain a encoder (vs_transmit s) (vs_speech_only s) vad_new (vs_input_volume s) (processing_choice s) (silence PULL) (silence FRAME)
        0 false 0 0 false false NEG_INFINITY false)
  end.
(* @src/crates/throcc-client-core/src/media/audio.rs 113-122 CaptureChain::apply *)
Definition chain_apply (s : VoiceSettings) (c : CaptureChain) : CaptureChain :=
  let processing := processing_choice s in
  let '(a, processing) := if decide (processing = cn_processing c) then (cn_apm c, cn_processing c) else (apply_config processing (cn_apm c), processing) in
  mkChain a (cn_encoder c) (vs_transmit s) (vs_speech_only s) (cn_speech c) (vs_input_volume s) processing (cn_processed c) (cn_frame c)
    (cn_frame_len c) (cn_frame_open c) (cn_clock c) (cn_hangover c) (cn_muted c) (cn_transmitting c) (cn_level_dbfs c) (cn_gate_open c).
(* @src/crates/throcc-client-core/src/media/audio.rs 124-127 CaptureChain::set_muted *)
Definition chain_set_muted (muted : bool) (c : CaptureChain) : CaptureChain :=
  mkChain (cn_apm c) (cn_encoder c) (cn_transmit c) (cn_speech_only c) (cn_speech c) (cn_input_volume c) (cn_processing c) (cn_processed c) (cn_frame c)
    (cn_frame_len c) (cn_frame_open c) (cn_clock c) (cn_hangover c) muted (cn_transmitting c) (cn_level_dbfs c) (cn_gate_open c).
(* @src/crates/throcc-client-core/src/media/audio.rs 129-134 CaptureChain::reset_clock *)
Definition reset_clock (c : CaptureChain) : CaptureChain :=
  mkChain (cn_apm c) (cn_encoder c) (cn_transmit c) (cn_speech_only c) (cn_speech c) (cn_input_volume c) (cn_processing c) (cn_processed c) (cn_frame c)
    0 false 0 (cn_hangover c) (cn_muted c) (cn_transmitting c) (cn_level_dbfs c) (cn_gate_open c).
(* @src/crates/throcc-client-core/src/media/audio.rs 151-156 CaptureChain::reset_levels *)
Definition reset_levels (c : CaptureChain) : CaptureChain :=
  mkChain (cn_apm c) (cn_encoder c) (cn_transmit c) (cn_speech_only c) (cn_speech c) (cn_input_volume c) (cn_processing c) (cn_processed c) (cn_frame c)
    (cn_frame_len c) (cn_frame_open c) (cn_clock c) (cn_hangover c) (cn_muted c) false NEG_INFINITY false.
Definition chain_with_apm (a : Apm) (processed : list f32) (c : CaptureChain) : CaptureChain :=
  mkChain a (cn_encoder c) (cn_transmit c) (cn_speech_only c) (cn_speech c) (cn_input_volume c) (cn_processing c) processed (cn_frame c)
    (cn_frame_len c) (cn_frame_open c) (cn_clock c) (cn_hangover c) (cn_muted c) (cn_transmitting c) (cn_level_dbfs c) (cn_gate_open c).
(** Whether it worked. *)
(* @src/crates/throcc-client-core/src/media/audio.rs 158-164 CaptureChain::render *)
Definition chain_render (played : list f32) (c : CaptureChain) : bool * CaptureChain :=
  let '(ok, a) := process_render played (cn_apm c) in (ok, chain_with_apm a (cn_processed c) c).

(* @src/crates/throcc-client-core/src/media/audio.rs 217-220 CaptureChain::hears_speech *)
Definition hears_speech (processed : list f32) (v : Vad) : bool * Vad :=
  let '(probability, v) := vad_analyze ((fun s => f32_mul s (f32_of_Z 32768)) <$> processed) v in (SFltb SPEECH_PROBABILITY probability, v).
(** The gate after 10 ms of this level, the detector and the hangover. *)
(* @src/crates/throcc-client-core/src/media/audio.rs 178-187! CaptureChain::capture *)
Definition gate (push_to_talk : bool) (processed : list f32) (level : f32) (c : CaptureChain) : bool * Vad * Z :=
  match cn_transmit c with
  | PushToTalk => (push_to_talk, cn_speech c, cn_hangover c)
  | VoiceActivity threshold =>
      let '(speech, v) := if negb (cn_speech_only c) then (true, cn_speech c) else hears_speech processed (cn_speech c) in
      let '(open, hangover) := hold (speech && SFltb threshold level) (cn_hangover c) in
      (open, v, hangover)
  end.
(** [buffer[at..at + with.len()].copy_from_slice(with)]. *)
Definition copied (at_ : Z) (with_ buffer : list f32) : list f32 :=
  take (Z.to_nat at_) buffer ++ with_ ++ drop (Z.to_nat at_ + length with_) buffer.
(** A packet is its timestamp and its bytes. *)
(* @src/crates/throcc-client-core/src/media/audio.rs 166-210 CaptureChain::capture *)
Definition chain_capture (input : list f32) (push_to_talk : bool) (c : CaptureChain) : (AudioError + option (Z * bytes)) * CaptureChain :=
  let input := (fun s => f32_mul s (cn_input_volume c)) <$> input in
  let '(ok, processed, a) := process_capture input (cn_processed c) (cn_apm c) in
  if negb ok then (inl ErrProcessing, chain_with_apm a processed c) else
  let level := dbfs processed in
  let '(open, v, hangover) := gate push_to_talk processed level c in
  let frame_open := cn_frame_open c || (open && negb (cn_muted c)) in
  let frame := copied (cn_frame_len c) processed (cn_frame c) in
  let frame_len := cn_frame_len c + PULL in
  let after encoder frame_len frame_open clock transmitting :=
    mkChain a encoder (cn_transmit c) (cn_speech_only c) v (cn_input_volume c) (cn_processing c) processed frame
      frame_len frame_open clock hangover (cn_muted c) transmitting level open in
  if frame_len <? FRAME then (inr None, after (cn_encoder c) frame_len frame_open (cn_clock c) (cn_transmitting c)) else
  let timestamp := cn_clock c in
  let clock := wrap32 (cn_clock c + FRAME) in
  if negb frame_open then (inr None, after (cn_encoder c) 0 false clock false) else
  let '(packet, encoder) := voip_encode frame MAX_PACKET (cn_encoder c) in
  (match packet with Some data => inr (Some (timestamp, data)) | None => inl ErrEncoder end, after encoder 0 false clock true).
End chain.

(** ** The voices (audio.rs) *)

Section voices.
Context {order : HashOrder} {Decoder : Type} (new_decoder : Z -> option Decoder) (decode_float : Decoder -> bytes -> list f32 -> DecodeMode -> bool * list f32 * Decoder).

(* @src/crates/throcc-client-core/src/media/audio.rs 281-285 Stream *)
Record Stream := mkStream { sm_jitter : JitterBuffer Decoder; sm_speaking_pulls : Z }.
(* @src/crates/throcc-client-core/src/media/audio.rs 287-293 Mixer *)
Record Mixer := mkMixer { mx_streams : gmap UserId Stream; mx_volumes : Gains }.
Definition mixer_default : Mixer := mkMixer ∅ ∅.
(* @src/crates/throcc-client-core/src/media/audio.rs 306-323 Mixer::insert *)
Definition mixer_insert (user : UserId) (timestamp : Z) (payload : bytes) (arrival : Z) (m : Mixer) : Mixer :=
  let put s := mkMixer (<[user := mkStream (jitter_insert timestamp payload arrival (sm_jitter s)) (sm_speaking_pulls s)]> (mx_streams m)) (mx_volumes m) in
  match mx_streams m !! user with
  | Some s => put s
  | None => match new_decoder 1 with None => m | Some decoder => put (mkStream (jitter_new decoder 1) 0) end
  end.
(* @src/crates/throcc-client-core/src/media/audio.rs 325-327 Mixer::remove *)
Definition mixer_remove (user : UserId) (m : Mixer) : Mixer := mkMixer (delete user (mx_streams m)) (mx_volumes m).
(* @src/crates/throcc-client-core/src/media/audio.rs 329-331 Mixer::clear *)
Definition mixer_clear (m : Mixer) : Mixer := mkMixer ∅ (mx_volumes m).
(* @src/crates/throcc-client-core/src/media/audio.rs 333-336 Mixer::set_volume *)
Definition mixer_set_volume (user : UserId) (volume : f32) (m : Mixer) : Mixer := mkMixer (mx_streams m) (gains_set user volume (mx_volumes m)).
(* @src/crates/throcc-client-core/src/media/audio.rs 341-348! Mixer::mix *)
Definition mix_stream (volumes : Gains) (acc : list f32 * list (UserId * Stream)) (entry : UserId * Stream) : list f32 * list (UserId * Stream) :=
  let '(user, s) := entry in
  let '(pull, jitter) := jitter_pull decode_float (sm_jitter s) in
  let '(_, speaking_pulls) := hold (SFltb SPEAKING_DBFS (dbfs pull)) (sm_speaking_pulls s) in
  (add_into (gains_get user volumes) acc.1 pull, acc.2 ++ [(user, mkStream jitter speaking_pulls)]).
(* @src/crates/throcc-client-core/src/media/audio.rs 338-352 Mixer::mix *)
Definition mixer_mix (m : Mixer) : list f32 * Mixer :=
  let '(out, streams) := foldl (mix_stream (mx_volumes m)) (silence PULL, []) (hash_order (mx_streams m)) in
  (soft_clip <$> out, mkMixer (collect_map streams) (mx_volumes m)).
(* @src/crates/throcc-client-core/src/media/audio.rs 354-358 Mixer::speaking *)
Definition mixer_speaking (m : Mixer) : gmap UserId bool := (fun s => 0 <? sm_speaking_pulls s) <$> mx_streams m.
End voices.
End with_libm.

(** ** The open devices (voice.rs) *)

(* @src/crates/throcc-client-core/src/media/voice.rs 23-25 PLAYBACK_AHEAD *)
Definition PLAYBACK_AHEAD : Z := 4.
(* @src/crates/throcc-client-core/src/media/voice.rs 27-27 LEVELS_EVERY *)
Definition LEVELS_EVERY : Z := 100.
(** A resampler from pulls of one length to pulls of another. *)
Class Resampler (Rs : Type) := { resampler_new : Z -> Z -> Rs; resample : list f32 -> Z -> Rs -> list f32 * Rs }.

(** The devices opened: their rates, and the rings: the samples captured and not yet taken,
    and those queued for playback with the room there is for them. *)
(* @src/crates/throcc-client-core/src/media/devices.rs 50-60 Devices *)
Record Devices := mkDevices { dv_input_rate : Z; dv_output_rate : Z; dv_capture : list f32; dv_playback : list f32; dv_capacity : Z }.
Definition playback_slots (d : Devices) : Z := dv_capacity d - Z.of_nat (length (dv_playback d)).

Section devices.
Context {Rs : Type} {resampler : Resampler Rs}.

(* @src/crates/throcc-client-core/src/media/voice.rs 256-269 DeviceIo *)
Record DeviceIo := mkDeviceIo { io_devices : Devices; io_to_device : option (Rs * Rs); io_from_device : option Rs; io_in : Z; io_out : Z }.
(** [io_in] and [io_out] are the lengths of [device_in] and [device_out]. *)
(* @src/crates/throcc-client-core/src/media/voice.rs 272-287 DeviceIo::new *)
Definition device_io_new (d : Devices) : DeviceIo :=
  let per_pull rate := rate / 100 in
  let out_pull := per_pull (dv_output_rate d) in
  mkDeviceIo d
    (if negb (dv_output_rate d =? SAMPLE_RATE) then Some (resampler_new PULL out_pull, resampler_new PULL out_pull) else None)
    (if negb (dv_input_rate d =? SAMPLE_RATE) then Some (resampler_new (per_pull (dv_input_rate d)) PULL) else None)
    (per_pull (dv_input_rate d)) (out_pull * 2).
(* @src/crates/throcc-client-core/src/media/voice.rs 289-292 DeviceIo::queued_playback *)
Definition queued_playback (io : DeviceIo) : Z := (dv_capacity (io_devices io) - playback_slots (io_devices io)) / Z.max (io_out io) 1.
(* @src/crates/throcc-client-core/src/media/voice.rs 294-297 DeviceIo::wants_playback *)
Definition wants_playback (io : DeviceIo) : bool := (io_out io * 2 <=? playback_slots (io_devices io)) && (queued_playback io <? PLAYBACK_AHEAD).
(* @src/crates/throcc-client-core/src/media/voice.rs 299-301 DeviceIo::has_capture *)
Definition has_capture (io : DeviceIo) : bool := io_in io <=? Z.of_nat (length (dv_capture (io_devices io))).
(** A pop of an empty ring gives 0. *)
(* @src/crates/throcc-client-core/src/media/voice.rs 303-316 DeviceIo::capture *)
Definition io_capture (io : DeviceIo) : list f32 * DeviceIo :=
  let d := io_devices io in
  let n := Z.to_nat (io_in io) in
  let device_in := take n (dv_capture d) ++ replicate (n - length (dv_capture d)) f32_zero in
  let '(input, from) := match io_from_device io with
    | Some r => let '(input, r) := resample device_in PULL r in (input, Some r)
    | None => (take (Z.to_nat PULL) device_in, None)
    end in
  (input, mkDeviceIo (mkDevices (dv_input_rate d) (dv_output_rate d) (drop n (dv_capture d)) (dv_playback d) (dv_capacity d)) (io_to_device io) from (io_in io) (io_out io)).
(** The samples of one channel of two, and two channels as one. *)
Fixpoint channel_of (second : bool) (stereo : list f32) : list f32 :=
  match stereo with l :: r :: stereo => (if second then r else l) :: channel_of second stereo | _ => [] end.
Fixpoint interleaved (ls rs : list f32) : list f32 :=
  match ls, rs with l :: ls, r :: rs => l :: r :: interleaved ls rs | _, _ => [] end.
(* @src/crates/throcc-client-core/src/media/voice.rs 318-351 DeviceIo::play *)
Definition io_play (stereo : list f32) (io : DeviceIo) : DeviceIo :=
  let d := io_devices io in
  let '(out, to_) := match io_to_device io with
    | Some (l, r) =>
        let '(ls, l) := resample (channel_of false stereo) (io_out io / 2) l in
        let '(rs, r) := resample (channel_of true stereo) (io_out io / 2) r in
        (interleaved ls rs, Some (l, r))
    | None => (stereo, None)
    end in
  let playback := if playback_slots d <? Z.of_nat (length out) then dv_playback d else dv_playback d ++ out in
  mkDeviceIo (mkDevices (dv_input_rate d) (dv_output_rate d) (dv_capture d) playback (dv_capacity d)) to_ (io_from_device io) (io_in io) (io_out io).
End devices.

(** ** The worker (voice.rs) *)

(* @src/crates/throcc-client-core/src/media/voice.rs 72-77 MicLevel *)
Record MicLevel := mkMicLevel { ml_dbfs : f32; ml_gate_open : bool }.
Definition mic_level_default : MicLevel := mkMicLevel NEG_INFINITY false.
(* @src/crates/throcc-client-core/src/media/voice.rs 88-94 CallLevels *)
Record CallLevels := mkCallLevels { cl_transmitting : bool; cl_speaking : gmap UserId bool }.
(* @src/crates/throcc-client-core/src/media/voice.rs 96-100 Levels *)
Record Levels := mkLevels { lv_mic : MicLevel; lv_call : CallLevels }.

(** What the worker does: units handed to a media engine for a call, and what of a share is
    heard.  An engine is a number: the [Arc] of one. *)
Inductive WorkerOut := Sent (call engine : Z) (unit : Outgoing) | Heard (user : UserId) (timestamp : option Z).

(** The call commands are those of [SessionState], whose [CmSendOn] names the track alone: a
    command comes with the engine its session has then, the other half of [SendOn]'s pair. *)
(* @src/crates/throcc-client-core/src/media/voice.rs 55-70! Command *)
Inductive WorkerCommand :=
| WkSettings (s : VoiceSettings)
| WkOpenDevices (opened : option Devices)
| WkMicTest (on : bool)
| WkPushToTalk (down : bool)
| WkCue (c : Cue)
| WkCall (id engine : Z) (c : CallCommand)
| WkEndCall (id : Z).

Section worker.
Context {libm : Libm} {order : HashOrder} {Apm Vad Voip Decoder Rs : Type} {apm : AudioProcessing Apm} {vad : SpeechDetector Vad} {voip : VoipEncoder Voip} {resampler : Resampler Rs}.
Context (new_decoder : Z -> option Decoder) (decode_float : Decoder -> bytes -> list f32 -> DecodeMode -> bool * list f32 * Decoder).

(** A share heard, with its playout at the worker's last setting of it.  The receivers of
    units are what they hold when asked. *)
(* @src/crates/throcc-client-core/src/media/voice.rs 229-239 CallState *)
Record CallState := mkCall {
  ca_id : Z; ca_mic : option (Z * MediaId); ca_muted : bool; ca_deafened : bool; ca_remotes : gset UserId; ca_mixer : Mixer (Decoder := Decoder);
  ca_shares : gmap UserId (JitterBuffer Decoder); ca_share_volumes : Gains
}.
(* @src/crates/throcc-client-core/src/media/voice.rs 242-253 CallState::new *)
Definition call_new (id : Z) : CallState := mkCall id None true false ∅ mixer_default ∅ ∅.
Definition ca_set_mic (mic : option (Z * MediaId)) (c : CallState) : CallState :=
  mkCall (ca_id c) mic (ca_muted c) (ca_deafened c) (ca_remotes c) (ca_mixer c) (ca_shares c) (ca_share_volumes c).
Definition ca_set_switches (muted deafened : bool) (c : CallState) : CallState :=
  mkCall (ca_id c) (ca_mic c) muted deafened (ca_remotes c) (ca_mixer c) (ca_shares c) (ca_share_volumes c).
Definition ca_set_voices (remotes : gset UserId) (mixer : Mixer) (c : CallState) : CallState :=
  mkCall (ca_id c) (ca_mic c) (ca_muted c) (ca_deafened c) remotes mixer (ca_shares c) (ca_share_volumes c).
Definition ca_set_shares (shares : gmap UserId (JitterBuffer Decoder)) (volumes : Gains) (c : CallState) : CallState :=
  mkCall (ca_id c) (ca_mic c) (ca_muted c) (ca_deafened c) (ca_remotes c) (ca_mixer c) shares volumes.

Definition mic_track (c : CallState) : option MediaId := snd <$> ca_mic c.

(** [wk_log] is what it did, newest last. *)
(* @src/crates/throcc-client-core/src/media/voice.rs 381-395 Worker *)
Record Worker := mkWorker {
  wk_io : option (DeviceIo (Rs := Rs)); wk_chain : CaptureChain (Apm := Apm) (Vad := Vad) (Voip := Voip); wk_settings : VoiceSettings; wk_cues : CuePlayer;
  wk_call : CallState; wk_levels : Levels; wk_levels_at : Z; wk_push_to_talk : bool; wk_mic_test : bool; wk_last_capture : list f32; wk_played : Z;
  wk_log : list WorkerOut
}.
(* @src/crates/throcc-client-core/src/media/voice.rs 398-412 Worker::new *)
Definition worker_new (now : Z) (c : CaptureChain) (s : VoiceSettings) : Worker :=
  mkWorker None c s cue_player_default (call_new 0) (mkLevels mic_level_default (mkCallLevels false ∅)) now false false (silence PULL) 0 [].
Definition wk_set_io (io : option DeviceIo) (w : Worker) : Worker :=
  mkWorker io (wk_chain w) (wk_settings w) (wk_cues w) (wk_call w) (wk_levels w) (wk_levels_at w) (wk_push_to_talk w) (wk_mic_test w) (wk_last_capture w) (wk_played w) (wk_log w).
Definition wk_set_chain (c : CaptureChain) (w : Worker) : Worker :=
  mkWorker (wk_io w) c (wk_settings w) (wk_cues w) (wk_call w) (wk_levels w) (wk_levels_at w) (wk_push_to_talk w) (wk_mic_test w) (wk_last_capture w) (wk_played w) (wk_log w).
Definition wk_set_settings (s : VoiceSettings) (w : Worker) : Worker :=
  mkWorker (wk_io w) (wk_chain w) s (wk_cues w) (wk_call w) (wk_levels w) (wk_levels_at w) (wk_push_to_talk w) (wk_mic_test w) (wk_last_capture w) (wk_played w) (wk_log w).
Definition wk_set_cues (c : CuePlayer) (w : Worker) : Worker :=
  mkWorker (wk_io w) (wk_chain w) (wk_settings w) c (wk_call w) (wk_levels w) (wk_levels_at w) (wk_push_to_talk w) (wk_mic_test w) (wk_last_capture w) (wk_played w) (wk_log w).
Definition wk_set_call (c : CallState) (w : Worker) : Worker :=
  mkWorker (wk_io w) (wk_chain w) (wk_settings w) (wk_cues w) c (wk_levels w) (wk_levels_at w) (wk_push_to_talk w) (wk_mic_test w) (wk_last_capture w) (wk_played w) (wk_log w).
Definition wk_set_levels (l : Levels) (at_ : Z) (w : Worker) : Worker :=
  mkWorker (wk_io w) (wk_chain w) (wk_settings w) (wk_cues w) (wk_call w) l at_ (wk_push_to_talk w) (wk_mic_test w) (wk_last_capture w) (wk_played w) (wk_log w).
Definition wk_set_buttons (push_to_talk mic_test : bool) (w : Worker) : Worker :=
  mkWorker (wk_io w) (wk_chain w) (wk_settings w) (wk_cues w) (wk_call w) (wk_levels w) (wk_levels_at w) push_to_talk mic_test (wk_last_capture w) (wk_played w) (wk_log w).
Definition wk_set_last_capture (c : list f32) (w : Worker) : Worker :=
  mkWorker (wk_io w) (wk_chain w) (wk_settings w) (wk_cues w) (wk_call w) (wk_levels w) (wk_levels_at w) (wk_push_to_talk w) (wk_mic_test w) c (wk_played w) (wk_log w).
Definition wk_set_played (played : Z) (w : Worker) : Worker :=
  mkWorker (wk_io w) (wk_chain w) (wk_settings w) (wk_cues w) (wk_call w) (wk_levels w) (wk_levels_at w) (wk_push_to_talk w) (wk_mic_test w) (wk_last_capture w) played (wk_log w).
Definition wk_emit (o : list WorkerOut) (w : Worker) : Worker :=
  mkWorker (wk_io w) (wk_chain w) (wk_settings w) (wk_cues w) (wk_call w) (wk_levels w) (wk_levels_at w) (wk_push_to_talk w) (wk_mic_test w) (wk_last_capture w) (wk_played w) (wk_log w ++ o).

(** A dropped [ShareAudio] leaves its playout silent. *)
(* @src/crates/throcc-client-core/src/media/voice.rs 223-227! ShareAudio::drop *)
Definition drop_shares (users : list UserId) (w : Worker) : Worker := wk_emit ((fun user => Heard user None) <$> users) w.
Definition share_users (c : CallState) : list UserId := (hash_order (ca_shares c)).*1.
(** [self.call = CallState::new(id)]. *)
Definition replace_call (id : Z) (w : Worker) : Worker := drop_shares (share_users (wk_call w)) (wk_set_call (call_new id) w).

(* @src/crates/throcc-client-core/src/media/voice.rs 487-534 Worker::apply_call *)
Definition apply_call (engine : Z) (command : CallCommand) (w : Worker) : Worker :=
  let call := wk_call w in
  match command with
  | CmSendOn mic =>
      let w := if decide (mic = mic_track call) then w else wk_set_chain (reset_clock (wk_chain w)) w in
      wk_set_call (ca_set_mic (pair engine <$> mic) call) w
  | CmMuted muted => wk_set_call (ca_set_switches muted (ca_deafened call) call) w
  | CmDeafened deafened => wk_set_call (ca_set_switches (ca_muted call) deafened call) w
  | CmVolume user volume => wk_set_call (ca_set_voices (ca_remotes call) (mixer_set_volume user volume (ca_mixer call)) call) w
  | CmShareVolume user volume => wk_set_call (ca_set_shares (ca_shares call) (gains_set user volume (ca_share_volumes call)) call) w
  | CmListen user => wk_set_call (ca_set_voices ({[user]} ∪ ca_remotes call) (ca_mixer call) call) w
  | CmForget user => wk_set_call (ca_set_voices (ca_remotes call ∖ {[user]}) (mixer_remove user (ca_mixer call)) call) w
  | CmListenShare user =>
      match new_decoder 2 with
      | None => w
      | Some decoder =>
          drop_shares (match ca_shares call !! user with Some _ => [user] | None => [] end)
            (wk_set_call (ca_set_shares (<[user := jitter_new decoder 2]> (ca_shares call)) (ca_share_volumes call) call) w)
      end
  | CmForgetShare user =>
      drop_shares (match ca_shares call !! user with Some _ => [user] | None => [] end)
        (wk_set_call (ca_set_shares (delete user (ca_shares call)) (ca_share_volumes call) call) w)
  | CmForgetAll =>
      drop_shares (share_users call) (wk_set_call (ca_set_shares ∅ (ca_share_volumes call) (ca_set_voices ∅ (mixer_clear (ca_mixer call)) call)) w)
  end.

(* @src/crates/throcc-client-core/src/media/voice.rs 445-485 Worker::apply *)
Definition worker_apply (command : WorkerCommand) (w : Worker) : Worker :=
  match command with
  | WkSettings s => wk_set_settings s (wk_set_chain (chain_apply s (wk_chain w)) w)
  | WkOpenDevices opened =>
      wk_set_io (device_io_new <$> opened) (wk_set_last_capture (silence PULL) (wk_set_chain (reset_levels (wk_chain w)) w))
  | WkMicTest on => wk_set_buttons (wk_push_to_talk w) on w
  | WkPushToTalk down => wk_set_buttons down (wk_mic_test w) w
  | WkCue c => if SFltb f32_zero (vs_cue_volume (wk_settings w)) then wk_set_cues (cues_play c (vs_cue_volume (wk_settings w)) (wk_cues w)) w else w
  | WkCall id engine c =>
      if id <? ca_id (wk_call w) then w else
      apply_call engine c (if ca_id (wk_call w) <? id then replace_call id w else w)
  | WkEndCall id => if ca_id (wk_call w) <=? id then replace_call id w else w
  end.

(** The units a person's receiver held, put in by their arrival. *)
Definition receive_voice (held : UserId -> list Received) (played : Z) (m : Mixer) (user : UserId) : Mixer :=
  foldl (fun m unit => mixer_insert new_decoder user (rv_timestamp unit) (rv_data unit) played m) m (held user).
(* @src/crates/throcc-client-core/src/media/voice.rs 536-553 Worker::receive *)
Definition worker_receive (voices shares : UserId -> list Received) (w : Worker) : Worker :=
  let call := wk_call w in
  let mixer := foldl (receive_voice voices (wk_played w)) (ca_mixer call) (elements (ca_remotes call)) in
  let call := ca_set_voices (ca_remotes call) mixer call in
  let jitters := map_imap (fun user j => Some (foldl (fun j unit => jitter_insert (rv_timestamp unit) (rv_data unit) (wk_played w) j) j (shares user))) (ca_shares call) in
  wk_set_call (ca_set_shares jitters (ca_share_volumes call) call) w.

(* @src/crates/throcc-client-core/src/media/voice.rs 608-619! Worker::mix_shares *)
Definition mix_share (queued : Z) (volumes : Gains) (acc : list f32 * list (UserId * JitterBuffer Decoder) * list WorkerOut)
    (entry : UserId * JitterBuffer Decoder) : list f32 * list (UserId * JitterBuffer Decoder) * list WorkerOut :=
  let '(out, jitters, log) := acc in
  let '(user, j) := entry in
  let '(pull, j) := jitter_pull decode_float j in
  let heard := (fun ts => wrap32 (ts - queued)) <$> playout_timestamp j in
  (add_into (gains_get user volumes) out pull, jitters ++ [(user, j)], log ++ [Heard user heard]).
(* @src/crates/throcc-client-core/src/media/voice.rs 603-620 Worker::mix_shares *)
Definition mix_shares (queued : Z) (w : Worker) : list f32 * Worker :=
  let call := wk_call w in
  let queued := wrap32 (queued * PULL) in
  let '(out, jitters, log) := foldl (mix_share queued (ca_share_volumes call)) (silence (PULL * 2), [], []) (hash_order (ca_shares call)) in
  (out, wk_emit log (wk_set_call (ca_set_shares (collect_map jitters) (ca_share_volumes call) call) w)).

(** A voice's samples added to both channels of [stereo], at the output volume, clamped. *)
Fixpoint mixed_down (volume : f32) (stereo voices : list f32) : list f32 :=
  match stereo, voices with
  | l :: r :: stereo, v :: voices =>
      let out x := f32_clamp (f32_mul (f32_add x v) volume) (f32_of_Z (-1)) f32_one in
      out l :: out r :: mixed_down volume stereo voices
  | _, _ => []
  end.
(** The mic test: [m + l] clamped. *)
Definition test_mix (voices last : list f32) : list f32 :=
  zip_with (fun m l => f32_clamp (f32_add m l) (f32_of_Z (-1)) f32_one) voices last.
(** What is played, and [io] and the worker after. *)
(* @src/crates/throcc-client-core/src/media/voice.rs 569-601 Worker::play *)
Definition worker_play (io : DeviceIo (Rs := Rs)) (w : Worker) : list f32 * DeviceIo (Rs := Rs) * Worker :=
  let '(stereo, w) := mix_shares (queued_playback io) w in
  let '(voices, mixer) := mixer_mix decode_float (ca_mixer (wk_call w)) in
  let w := wk_set_call (ca_set_voices (ca_remotes (wk_call w)) mixer (wk_call w)) w in
  let '(stereo, voices) := if ca_deafened (wk_call w) then (silence (PULL * 2), silence PULL) else (stereo, voices) in
  let voices := if wk_mic_test w then test_mix voices (wk_last_capture w) else voices in
  let '(voices, cues) := cues_mix voices (wk_cues w) in
  let w := wk_set_cues cues w in
  let stereo := mixed_down (vs_output_volume (wk_settings w)) stereo voices in
  let reference := zip_with (fun l r => f32_mul (f32_add l r) (f32_lit 1 2)) (channel_of false stereo) (channel_of true stereo) in
  let '(_, chain) := chain_render reference (wk_chain w) in
  (stereo, io_play stereo io, wk_set_played (wrap64 (wk_played w + PULL)) (wk_set_chain chain w)).

(** The processed audio.  The unit a packet becomes is enqueued with the clock of its track. *)
(* @src/crates/throcc-client-core/src/media/voice.rs 622-638 Worker::capture *)
Definition worker_capture (now : Z) (input : list f32) (w : Worker) : list f32 * Worker :=
  let transmit := negb (ca_muted (wk_call w)) && bool_decide (is_Some (ca_mic (wk_call w))) in
  let '(packet, chain) := chain_capture input (wk_push_to_talk w) (chain_set_muted (negb transmit) (wk_chain w)) in
  let w := wk_set_chain chain w in
  (cn_processed chain,
   match packet, ca_mic (wk_call w) with
   | inr (Some (timestamp, data)), Some (engine, media_id) => wk_emit [Sent (ca_id (wk_call w)) engine (mkOutgoing media_id data timestamp false now)] w
   | _, _ => w
   end).

(* @src/crates/throcc-client-core/src/media/voice.rs 555-567 Worker::play_and_capture *)
Definition play_and_capture (now : Z) (io : DeviceIo (Rs := Rs)) (w : Worker) : bool * DeviceIo (Rs := Rs) * Worker :=
  let playing := wants_playback io in
  let '(io, w) := if playing then let '(_, io, w) := worker_play io w in (io, w) else (io, w) in
  let capturing := has_capture io in
  if capturing then
    let '(input, io) := io_capture io in
    let '(processed, w) := worker_capture now input w in
    (true, io, wk_set_last_capture processed w)
  else (playing, io, w).

(* @src/crates/throcc-client-core/src/media/voice.rs 640-649 Worker::publish_levels *)
Definition publish_levels (now : Z) (w : Worker) : Worker :=
  let c := wk_chain w in
  wk_set_levels (mkLevels (mkMicLevel (cn_level_dbfs c) (cn_gate_open c)) (mkCallLevels (cn_transmitting c) (mixer_speaking (ca_mixer (wk_call w))))) now w.

(** A turn of [run]: whether it was busy, and the worker after. *)
(* @src/crates/throcc-client-core/src/media/voice.rs 414-443! Worker::run *)
Definition worker_turn (now : Z) (commands : list WorkerCommand) (voices shares : UserId -> list Received) (w : Worker) : bool * Worker :=
  let w := foldl (fun w c => worker_apply c w) w commands in
  let w := worker_receive voices shares w in
  let '(busy, w) := match wk_io w with
    | Some io => let '(busy, io, w) := play_and_capture now io w in (busy, wk_set_io (Some io) w)
    | None => (false, w)
    end in
  (busy, if LEVELS_EVERY <=? sat_sub now (wk_levels_at w) then publish_levels now w else w).
End worker.

(** [AudioEngine::call]: the number of a new call, from the calls so far. *)
(* @src/crates/throcc-client-core/src/media/voice.rs 162-168 AudioEngine::call *)
Definition audio_engine_call (calls : Z) : Z * Z := (wrap64 (calls + 1), wrap64 (calls + 1)).
