(* ===== verification/VoiceFacts.v ===== *)
(** * The audio thread: the newest call has it, and the mic is heard on its own track only *)
From Stdlib Require Import SpecFloat.
From S2P Require Import Prelude Ordered Ids Float64 People Jitter JitterFacts Engine ClientState SessionState Settings Cues Share Voice.
Open Scope Z_scope.

(** ** Sound levels *)

Lemma SFcompare_swap a b : SFcompare b a = CompOpp <$> SFcompare a b.
Proof.
  destruct a as [[]|[]| |[] ma ea], b as [[]|[]| |[] mb eb]; try done; cbn; f_equal; rewrite (Z.compare_antisym ea eb); destruct (ea ?= eb)%Z; cbn; try done;
    rewrite ?(Pos.compare_cont_antisym ma mb); cbn; change (Pos.compare_cont Eq mb ma) with (mb ?= ma)%positive; change (Pos.compare_cont Eq ma mb) with (ma ?= mb)%positive;
    rewrite (Pos.compare_antisym ma mb); by destruct (ma ?= mb)%positive.
Qed.
Lemma not_ltb a b : SFltb a b = false -> is_nan a = false -> is_nan b = false -> SFleb b a = true.
Proof. unfold SFltb, SFleb. rewrite (SFcompare_swap a b). destruct (SFcompare a b) as [[]|] eqn:E; try done. by destruct a as [[]|[]| |[]], b as [[]|[]| |[]]. Qed.
Lemma SFleb_same a : is_nan a = false -> SFleb a a = true.
Proof. intros Ha. destruct (SFltb a a) eqn:E; [|by apply not_ltb]. unfold SFltb, SFleb in *. by destruct (SFcompare a a) as [[]|]. Qed.

(** Between the two, or NaN. *)
Definition within (low high x : f32) : Prop := is_nan x = true \/ (SFleb low x = true /\ SFleb x high = true).
Lemma clamp_within low high x : SFleb low high = true -> within low high (f32_clamp x low high).
Proof.
  intros Hlh. assert (is_nan low = false /\ is_nan high = false) as [Hl Hh] by (split; [by destruct low|by destruct high, low as [[]|[]| |[]]]).
  unfold within, f32_clamp. destruct (SFltb x low) eqn:E1.
  - destruct (SFltb high low) eqn:E2; [right; split; [done|by apply SFleb_same]|]. right. split; [by apply SFleb_same|done].
  - destruct (is_nan x) eqn:Ex; [left; destruct x; try done; by destruct high as [[]|[]| |[]]|]. right.
    destruct (SFltb high x) eqn:E2; [split; [done|by apply SFleb_same]|]. split; by apply not_ltb.
Qed.
Lemma clamp_again low high x : SFleb low high = true -> f32_clamp (f32_clamp x low high) low high = f32_clamp x low high.
Proof.
  intros Hlh. destruct (clamp_within low high x Hlh) as [Hn|[H1 H2]].
  - destruct (f32_clamp x low high); try done. unfold f32_clamp. cbn. by destruct high as [[]|[]| |[]].
  - assert (forall a b, SFleb a b = true -> SFltb b a = false) as Hle.
    { intros a b. unfold SFltb, SFleb. rewrite (SFcompare_swap a b). by destruct (SFcompare a b) as [[]|]. }
    unfold f32_clamp at 1. by rewrite (Hle _ _ H1), (Hle _ _ H2).
Qed.

(** ** Steps of the worker *)

Section worker.
Context {libm : Libm} {order : HashOrder} {Apm Vad Voip Decoder Rs : Type} {apm : AudioProcessing Apm} {vad : SpeechDetector Vad} {voip : VoipEncoder Voip} {resampler : Resampler Rs}.
Context (new_decoder : Z -> option Decoder) (decode_float : Decoder -> bytes -> list f32 -> DecodeMode -> bool * list f32 * Decoder).
Abbreviation Worker := (Worker (Apm := Apm) (Vad := Vad) (Voip := Voip) (Decoder := Decoder) (Rs := Rs)).
Abbreviation CallState := (CallState (Decoder := Decoder)).
Abbreviation DeviceIo := (DeviceIo (Rs := Rs)).

(** A turn is made of these; what the devices are is what [play] and [capture] are given. *)
Inductive WorkerOp :=
| OpCommand (c : WorkerCommand)
| OpReceive (voices shares : UserId -> list Received)
| OpPlay (io : DeviceIo)
| OpCapture (now : Z) (input : list f32)
| OpKeep (processed : list f32)
| OpLevels (now : Z).
Definition worker_op (op : WorkerOp) (w : Worker) : Worker :=
  match op with
  | OpCommand c => worker_apply new_decoder c w
  | OpReceive voices shares => worker_receive new_decoder voices shares w
  | OpPlay io => (worker_play decode_float io w).2
  | OpCapture now input => (worker_capture now input w).2
  | OpKeep processed => wk_set_last_capture processed w
  | OpLevels now => publish_levels now w
  end.
Definition worker_run (ops : list WorkerOp) (w : Worker) : Worker := foldl (fun w op => worker_op op w) w ops.

Lemma worker_run_app a b w : worker_run (a ++ b) w = worker_run b (worker_run a w).
Proof. apply foldl_app. Qed.

(** The worker but for its devices. *)
Lemma wk_set_io_twice a b (w : Worker) : wk_set_io a (wk_set_io b w) = wk_set_io a w.
Proof. done. Qed.

Lemma commands_run commands w : foldl (fun w c => worker_apply new_decoder c w) w commands = worker_run (OpCommand <$> commands) w.
Proof. revert w. induction commands as [|c commands IH]; intros w; [done|apply IH]. Qed.

Lemma a_turn_is_ops now commands voices shares w : exists ops,
  wk_set_io None (worker_turn new_decoder decode_float now commands voices shares w).2 = wk_set_io None (worker_run ops w).
Proof.
  unfold worker_turn. rewrite commands_run. set (w1 := worker_run _ w).
  assert (exists ops, wk_set_io None (match wk_io (worker_receive new_decoder voices shares w1) with
      | Some io => let '(busy, io, w) := play_and_capture decode_float now io (worker_receive new_decoder voices shares w1) in (busy, wk_set_io (Some io) w)
      | None => (false, worker_receive new_decoder voices shares w1) end).2 = wk_set_io None (worker_run ops w)) as [ops Hops].
  { set (w2 := worker_receive _ _ _ w1). assert (w2 = worker_run ((OpCommand <$> commands) ++ [OpReceive voices shares]) w) as Hw2 by (by rewrite worker_run_app).
    destruct (wk_io w2) as [io|]; [|by exists ((OpCommand <$> commands) ++ [OpReceive voices shares]); rewrite <- Hw2].
    unfold play_and_capture.
    assert (exists ops, (if wants_playback io then let '(_, io, w) := worker_play decode_float io w2 in (io, w) else (io, w2)).2 = worker_run ops w2) as [played Hp].
    { destruct (wants_playback io); [|by exists []]. exists [OpPlay io]. cbn. by destruct (worker_play decode_float io w2) as [[out io'] w3]. }
    destruct (if wants_playback io then _ else _) as [io' w3]. cbn in Hp. subst w3.
    destruct (has_capture io').
    - destruct (io_capture io') as [input io2] eqn:Ei. destruct (worker_capture now input (worker_run played w2)) as [processed w4] eqn:Ec.
      exists ((OpCommand <$> commands) ++ [OpReceive voices shares] ++ played ++ [OpCapture now input; OpKeep processed]).
      rewrite app_assoc, worker_run_app, <- Hw2, worker_run_app. cbn. by rewrite Ec.
    - exists ((OpCommand <$> commands) ++ [OpReceive voices shares] ++ played). by rewrite app_assoc, worker_run_app, <- Hw2. }
  destruct (match wk_io _ with Some io => _ | None => _ end) as [busy w2]. cbn in Hops. cbn.
  destruct (LEVELS_EVERY <=? _); [|by exists ops].
  exists (ops ++ [OpLevels now]). rewrite worker_run_app. cbn.
  change (wk_set_io None (publish_levels now w2)) with (publish_levels now (wk_set_io None w2)). by rewrite Hops.
Qed.

(** ** The call, apart from the rest *)

Definition call_command (engine : Z) (command : CallCommand) (c : CallState) : CallState :=
  match command with
  | CmSendOn mic => ca_set_mic (pair engine <$> mic) c
  | CmMuted muted => ca_set_switches muted (ca_deafened c) c
  | CmDeafened deafened => ca_set_switches (ca_muted c) deafened c
  | CmVolume user volume => ca_set_voices (ca_remotes c) (mixer_set_volume user volume (ca_mixer c)) c
  | CmShareVolume user volume => ca_set_shares (ca_shares c) (gains_set user volume (ca_share_volumes c)) c
  | CmListen user => ca_set_voices ({[user]} ∪ ca_remotes c) (ca_mixer c) c
  | CmForget user => ca_set_voices (ca_remotes c ∖ {[user]}) (mixer_remove user (ca_mixer c)) c
  | CmListenShare user =>
      match new_decoder 2 with
      | None => c
      | Some decoder => ca_set_shares (<[user := jitter_new decoder 2]> (ca_shares c)) (ca_share_volumes c) c
      end
  | CmForgetShare user => ca_set_shares (delete user (ca_shares c)) (ca_share_volumes c) c
  | CmForgetAll => ca_set_shares ∅ (ca_share_volumes c) (ca_set_voices ∅ (mixer_clear (ca_mixer c)) c)
  end.
Lemma call_of_apply engine command (w : Worker) : wk_call (apply_call new_decoder engine command w) = call_command engine command (wk_call w).
Proof. destruct command; cbn; try done; by repeat case_match. Qed.
Lemma played_of_apply engine command (w : Worker) : wk_played (apply_call new_decoder engine command w) = wk_played w.
Proof. destruct command; cbn; try done; by repeat case_match. Qed.

(** What a pull of every voice and every share leaves of the call. *)
Definition call_pulled (c : CallState) : CallState :=
  ca_set_voices (ca_remotes c) (mixer_mix decode_float (ca_mixer c)).2
    (ca_set_shares (collect_map ((fun '(user, j) => (user, (jitter_pull decode_float j).2)) <$> hash_order (ca_shares c))) (ca_share_volumes c) c).
Lemma mix_share_jitters queued volumes l out jitters log :
  (foldl (mix_share decode_float queued volumes) (out, jitters, log) l).1.2 = jitters ++ ((fun '(user, j) => (user, (jitter_pull decode_float j).2)) <$> l).
Proof.
  revert out jitters log. induction l as [|[user j] l IH]; intros out jitters log; [by rewrite app_nil_r|].
  rewrite fmap_cons. cbn [foldl mix_share]. destruct (jitter_pull decode_float j) as [pull j']. rewrite IH. cbn. by rewrite <- app_assoc.
Qed.
Lemma play_call io (w : Worker) : wk_call (worker_play decode_float io w).2 = call_pulled (wk_call w) /\
  wk_played (worker_play decode_float io w).2 = wrap64 (wk_played w + PULL).
Proof.
  unfold worker_play, mix_shares, call_pulled.
  pose proof (mix_share_jitters (wrap32 (queued_playback io * PULL)) (ca_share_volumes (wk_call w)) (hash_order (ca_shares (wk_call w))) (silence (PULL * 2)) [] []) as Hj.
  destruct (foldl _ _ _) as [[out jitters] log]. cbn in Hj. subst jitters. cbn [wk_call wk_emit wk_set_call ca_mixer ca_set_shares].
  destruct (mixer_mix decode_float (ca_mixer (wk_call w))) as [voices mixer]. cbn [ca_deafened ca_set_voices wk_call wk_set_call].
  destruct (if ca_deafened _ then _ else _) as [stereo voices']. destruct (cues_mix _ _) as [voices'' cues]. destruct (chain_render _ _) as [ok chain]. by split.
Qed.
Lemma capture_call now input (w : Worker) : wk_call (worker_capture now input w).2 = wk_call w /\ wk_played (worker_capture now input w).2 = wk_played w.
Proof. unfold worker_capture. destruct (chain_capture _ _ _) as [[e|[[ts data]|]] chain]; cbn; try done. by destruct (ca_mic (wk_call w)) as [[]|]. Qed.

(** What each step makes of the call, from the call and the samples played alone. *)
Definition call_op (op : WorkerOp) (played : Z) (c : CallState) : CallState :=
  match op with
  | OpCommand (WkCall id engine command) => if id <? ca_id c then c else call_command engine command (if ca_id c <? id then call_new id else c)
  | OpCommand (WkEndCall id) => if ca_id c <=? id then call_new id else c
  | OpReceive voices shares =>
      let c := ca_set_voices (ca_remotes c) (foldl (receive_voice new_decoder voices played) (ca_mixer c) (elements (ca_remotes c))) c in
      ca_set_shares (map_imap (fun user j => Some (foldl (fun j unit => jitter_insert (rv_timestamp unit) (rv_data unit) played j) j (shares user))) (ca_shares c)) (ca_share_volumes c) c
  | OpPlay _ => call_pulled c
  | _ => c
  end.
Definition played_op (op : WorkerOp) (played : Z) : Z := match op with OpPlay _ => wrap64 (played + PULL) | _ => played end.
Lemma worker_op_call op (w : Worker) : wk_call (worker_op op w) = call_op op (wk_played w) (wk_call w) /\ wk_played (worker_op op w) = played_op op (wk_played w).
Proof.
  destruct op as [[]|voices shares|io|now input|processed|now]; cbn [worker_op call_op played_op worker_apply]; try done.
  - by destruct (SFltb _ _).
  - destruct (id <? _); [done|]. rewrite call_of_apply, played_of_apply. by destruct (_ <? id).
  - by destruct (_ <=? id).
  - apply play_call.
  - apply capture_call.
Qed.
Lemma pulled_new id : call_pulled (call_new id) = call_new id.
Proof. unfold call_pulled, mixer_mix. cbn. by rewrite !hash_order_empty. Qed.
Lemma ca_id_command engine command c : ca_id (call_command engine command c) = ca_id c.
Proof. destruct command; cbn; try done. by destruct (new_decoder 2). Qed.

Definition concerns (id : Z) (op : WorkerOp) : bool :=
  match op with OpCommand (WkCall i _ _) | OpCommand (WkEndCall i) => i =? id | _ => true end.
(** The worker that heard everything and the one that heard of call [id] only. *)
Definition same_call (id : Z) (w w' : Worker) : Prop :=
  wk_played w = wk_played w' /\ 0 <= ca_id (wk_call w) /\
  (ca_id (wk_call w) = id -> wk_call w' = wk_call w) /\ (ca_id (wk_call w) < id -> wk_call w' = call_new 0).
Lemma same_call_op id op (w w' : Worker) : same_call id w w' -> same_call id (worker_op op w) (if concerns id op then worker_op op w' else w').
Proof.
  intros (Hp & H0 & Heq & Hlt). destruct (worker_op_call op w) as [Hc Hw], (worker_op_call op w') as [Hc' Hw'].
  destruct (concerns id op) eqn:Ec.
  - unfold same_call. rewrite Hc, Hw, Hc', Hw', <- Hp. split; [done|].
    destruct op as [[]|voices shares|io|now input|processed|now]; cbn [call_op concerns] in *; try (split_and!; [done..]).
    + apply Z.eqb_eq in Ec as ->. destruct (Z.ltb_spec id (ca_id (wk_call w))) as [Hgt|Hge]; [split_and!; [done|lia..]|].
      rewrite ca_id_command. destruct (Z.ltb_spec (ca_id (wk_call w)) id) as [Hl|Hn]; cbn [ca_id call_new].
      * rewrite (Hlt Hl). cbn [ca_id call_new]. destruct (Z.ltb_spec id 0); [lia|]. destruct (Z.ltb_spec 0 id); [|lia]. split_and!; [lia|done|lia].
      * assert (ca_id (wk_call w) = id) as Hid by lia. rewrite (Heq Hid), Hid. destruct (Z.ltb_spec id id); [lia|]. split_and!; [lia|done|lia].
    + apply Z.eqb_eq in Ec as ->. destruct (Z.leb_spec (ca_id (wk_call w)) id) as [Hle|Hgt]; [|split_and!; [done|lia..]]. cbn [ca_id call_new].
      assert ((ca_id (wk_call w') <=? id) = true) as ->.
      { destruct (Z.eq_dec (ca_id (wk_call w)) id) as [Hid|Hne]; [rewrite (Heq Hid); lia|rewrite Hlt by lia; cbn; lia]. }
      split_and!; [lia|done|lia].
    + split_and!; [done|intros Hid; by rewrite (Heq Hid)|intros Hl; by rewrite (Hlt Hl)].
    + split_and!; [done|intros Hid; by rewrite (Heq Hid)|intros Hl; rewrite (Hlt Hl); apply pulled_new].
  - unfold same_call. rewrite Hc, Hw, <- Hp. destruct op as [[]|voices shares|io|now input|processed|now]; cbn [call_op concerns played_op] in *; try done; apply Z.eqb_neq in Ec.
    + split; [done|]. destruct (Z.ltb_spec id0 (ca_id (wk_call w))) as [Hgt|Hge]; [done|]. rewrite ca_id_command.
      destruct (Z.ltb_spec (ca_id (wk_call w)) id0) as [Hl|Hn]; cbn [ca_id call_new]; split_and!; try lia; intros; try (apply Hlt; lia).
    + split; [done|]. destruct (Z.leb_spec (ca_id (wk_call w)) id0) as [Hle|Hgt]; [|done]. cbn [ca_id call_new]. split_and!; try lia; intros; apply Hlt; lia.
Qed.
Lemma same_call_run id ops (w w' : Worker) : same_call id w w' -> same_call id (worker_run ops w) (worker_run (List.filter (concerns id) ops) w').
Proof.
  revert w w'. induction ops as [|op ops IH]; intros w w' H; [done|]. cbn [List.filter]. apply (same_call_op id op) in H. destruct (concerns id op); by apply IH.
Qed.

(** ** What the mic sends *)

(** 10 ms of the mic that the chain processed: the track it was for, and whether the gate let
    it through while the call was not muted. *)
Record Pulled := mkPulled { pu_samples : list f32; pu_mic : option MediaId; pu_allowed : bool }.
Definition transmits (c : CallState) : bool := negb (ca_muted c) && bool_decide (is_Some (ca_mic c)).
Definition processed_ok (packet : AudioError + option (Z * bytes)) : bool := match packet with inl ErrProcessing => false | _ => true end.
(** The pulls since the clock of the track started. *)
Definition pulls_op (op : WorkerOp) (w : Worker) (pulls : list Pulled) : list Pulled :=
  match op with
  | OpCommand (WkCall id _ (CmSendOn mic)) =>
      if id <? ca_id (wk_call w) then pulls else
      if decide (mic = if ca_id (wk_call w) <? id then None else mic_track (wk_call w)) then pulls else []
  | OpCapture now input =>
      let '(packet, chain) := chain_capture input (wk_push_to_talk w) (chain_set_muted (negb (transmits (wk_call w))) (wk_chain w)) in
      if processed_ok packet then pulls ++ [mkPulled (cn_processed chain) (mic_track (wk_call w)) (cn_gate_open chain && transmits (wk_call w))] else pulls
  | _ => pulls
  end.
Fixpoint pulls_of (ops : list WorkerOp) (w : Worker) (pulls : list Pulled) : list Pulled :=
  match ops with [] => pulls | op :: ops => pulls_of ops (worker_op op w) (pulls_op op w pulls) end.
Lemma pulls_of_app a b w pulls : pulls_of (a ++ b) w pulls = pulls_of b (worker_run a w) (pulls_of a w pulls).
Proof. revert w pulls. induction a as [|op a IH]; intros w pulls; [done|apply IH]. Qed.

(** The processor writes over the buffer it is given. *)
Definition keeps_length : Prop := forall input buffer a, length (process_capture input buffer a).1.2 = length buffer.

(** The chain holds the pull that waits for the other half of its frame. *)
Record chain_at (mic : option MediaId) (pulls : list Pulled) (c : CaptureChain (Apm := Apm) (Vad := Vad) (Voip := Voip)) : Prop := {
  at_lengths : length (cn_frame c) = Z.to_nat FRAME /\ length (cn_processed c) = Z.to_nat PULL;
  at_clock : cn_clock c = wrap32 (FRAME * Z.of_nat (length pulls / 2));
  at_waiting : if Nat.even (length pulls) then cn_frame_len c = 0 /\ cn_frame_open c = false
    else cn_frame_len c = PULL /\ exists before p, pulls = before ++ [p] /\ take (Z.to_nat PULL) (cn_frame c) = pu_samples p /\
      cn_frame_open c = pu_allowed p /\ (is_Some mic -> pu_mic p = mic)
}.
Lemma chain_at_new s c mic : chain_new s = inr c -> chain_at mic [] c.
Proof. unfold chain_new. destruct (voip_build _ _); [|done]. intros [= <-]. by split. Qed.
Lemma chain_at_same mic mic' pulls c c' : chain_at mic pulls c ->
  cn_frame c' = cn_frame c -> length (cn_processed c') = length (cn_processed c) -> cn_clock c' = cn_clock c -> cn_frame_len c' = cn_frame_len c -> cn_frame_open c' = cn_frame_open c ->
  (is_Some mic' -> mic' = mic) -> chain_at mic' pulls c'.
Proof.
  intros [Hl Hc Hw] E1 E2 E3 E4 E5 Hm. split; [by rewrite E1, E2|by rewrite E3|]. rewrite E1, E4, E5. destruct (Nat.even _); [done|].
  destruct Hw as (-> & before & p & -> & Ht & Ho & Hp). split; [done|]. exists before, p. split_and!; [done..|]. intros Hs. rewrite (Hm Hs). apply Hp. by rewrite <- (Hm Hs).
Qed.
Lemma half_of_pair n : Nat.even n = true -> (S n / 2 = n / 2)%nat /\ Nat.even (S n) = false.
Proof. intros H. split; [|by rewrite Nat.even_succ, <- Nat.negb_even, H]. apply Nat.even_spec in H as [k ->]. rewrite <- Nat.add_1_r, Nat.mul_comm, Nat.div_add_l by lia. rewrite Nat.div_mul by lia. cbn. lia. Qed.
Lemma pair_of_half n : Nat.even n = false -> (S n / 2 = S (n / 2))%nat /\ Nat.even (S n) = true.
Proof.
  intros H. split; [|by rewrite Nat.even_succ, <- Nat.negb_even, H]. assert (Nat.odd n = true) as Ho by (by rewrite <- Nat.negb_even, H). apply Nat.odd_spec in Ho as [k ->].
  replace (S (2 * k + 1)) with ((k + 1) * 2)%nat by lia. rewrite Nat.div_mul by lia. replace (2 * k + 1)%nat with (k * 2 + 1)%nat by lia. rewrite Nat.div_add_l by lia. cbn. lia.
Qed.
Lemma copied_first with_ buffer : length buffer = Z.to_nat FRAME -> length with_ = Z.to_nat PULL ->
  length (copied 0 with_ buffer) = Z.to_nat FRAME /\ take (Z.to_nat PULL) (copied 0 with_ buffer) = with_.
Proof.
  intros Hb Hw. unfold copied. change (Z.to_nat 0) with 0%nat. rewrite take_0, app_nil_l. cbn [Nat.add]. rewrite Hw. split.
  - rewrite length_app, length_drop, Hb, Hw. vm_compute. lia.
  - rewrite take_app_le by lia. by rewrite take_ge by lia.
Qed.
Lemma copied_second with_ buffer : length buffer = Z.to_nat FRAME -> length with_ = Z.to_nat PULL ->
  copied PULL with_ buffer = take (Z.to_nat PULL) buffer ++ with_.
Proof. intros Hb Hw. unfold copied. rewrite drop_ge; [by rewrite app_nil_r|]. rewrite Hb, Hw. vm_compute. lia. Qed.

(** One capture: the frame begun, or one finished, sent where a half of it was allowed. *)
Lemma chain_capture_at mic pulls c input ptt (H : keeps_length) :
  chain_at mic pulls c ->
  let '(packet, c') := chain_capture input ptt c in
  if processed_ok packet then
    let p := mkPulled (cn_processed c') mic (cn_gate_open c' && negb (cn_muted c)) in
    chain_at mic (pulls ++ [p]) c' /\
    match list.last pulls with
    | Some first =>
        if Nat.even (length pulls) then packet = inr None else
        if pu_allowed first || pu_allowed p then exists encoder,
          match (voip_encode (pu_samples first ++ pu_samples p) MAX_PACKET encoder).1 with
          | Some data => packet = inr (Some (wrap32 (FRAME * Z.of_nat (length pulls / 2)), data))
          | None => packet = inl ErrEncoder
          end
        else packet = inr None
    | None => packet = inr None
    end
  else chain_at mic pulls c'.
Proof.
  intros Hat. pose proof Hat as [[Hf Hp] Hc Hw]. unfold chain_capture.
  destruct (process_capture _ _ _) as [[ok processed] a] eqn:E. assert (length processed = Z.to_nat PULL) as Hl by (pose proof (H ((fun s => f32_mul s (cn_input_volume c)) <$> input) (cn_processed c) (cn_apm c)) as Hk; rewrite E in Hk; cbn in Hk; by rewrite Hk).
  destruct ok; cbn [negb]; [|cbn [processed_ok]; apply (chain_at_same mic mic pulls c); cbn; rewrite ?Hl, ?Hp; done].
  destruct (gate ptt processed (dbfs processed) c) as [[open v] hangover].
  destruct (Nat.even (length pulls)) eqn:Ev.
  - destruct Hw as [-> ->]. change (0 + PULL <? FRAME) with true. cbn [processed_ok cn_processed cn_gate_open cn_muted cn_frame].
    destruct (copied_first processed (cn_frame c) Hf Hl) as [Hcl Hct]. destruct (half_of_pair _ Ev) as [Hhalf Hodd]. split; [|by destruct (list.last pulls)].
    split; cbn [cn_frame cn_processed cn_clock cn_frame_len cn_frame_open]; rewrite ?length_app, ?Nat.add_1_r.
    + by split.
    + by rewrite Hhalf.
    + rewrite Hodd. split; [done|]. exists pulls, (mkPulled processed mic (open && negb (cn_muted c))). by split_and!.
  - destruct Hw as (-> & before & first & -> & Ht & -> & Hm). change (PULL + PULL <? FRAME) with false. rewrite last_snoc, (copied_second processed (cn_frame c) Hf Hl), Ht.
    destruct (pair_of_half _ Ev) as [Hhalf Heven].
    assert (forall encoder (clock : Z) transmitting, clock = wrap32 (cn_clock c + FRAME) -> chain_at mic ((before ++ [first]) ++ [mkPulled processed mic (open && negb (cn_muted c))])
      (mkChain a encoder (cn_transmit c) (cn_speech_only c) v (cn_input_volume c) (cn_processing c) processed (pu_samples first ++ processed) 0 false clock hangover (cn_muted c) transmitting (dbfs processed) open)) as Hafter.
    { intros encoder clock transmitting ->. split; cbn [cn_frame cn_processed cn_clock cn_frame_len cn_frame_open]; rewrite ?(length_app (_ ++ _)); cbn [length]; rewrite ?Nat.add_1_r.
      - split; [|done]. rewrite <- Ht, length_app, length_take, Hf, Hl. vm_compute. lia.
      - rewrite Hhalf, Hc. unfold wrap32. rewrite Zplus_mod_idemp_l. f_equal. lia.
      - by rewrite Heven. }
    cbn [pu_allowed pu_samples]. destruct (pu_allowed first || open && negb (cn_muted c)) eqn:Eo; cbn [negb].
    + destruct (voip_encode _ _ _) as [packet encoder] eqn:En. destruct packet as [data|]; cbn [processed_ok cn_processed cn_gate_open cn_muted]; rewrite ?Eo.
      all: split; [by apply Hafter|]; exists (cn_encoder c); rewrite En; cbn [fst]; by rewrite ?Hc.
    + cbn [processed_ok cn_processed cn_gate_open cn_muted]. rewrite Eo. split; [by apply Hafter|done].
Qed.

(** What a step adds to the log: what is heard of shares, and for a capture the unit sent. *)
Definition is_heard (o : WorkerOut) : Prop := match o with Heard _ _ => True | Sent _ _ _ => False end.
Definition hears (w w' : Worker) : Prop := exists new, wk_log w' = wk_log w ++ new /\ Forall is_heard new.
Lemma hears_refl w w' : wk_log w' = wk_log w -> hears w w'.
Proof. intros E. exists []. by rewrite app_nil_r. Qed.
Lemma hears_drop users w w' : wk_log w' = wk_log w -> hears w (drop_shares users w').
Proof. intros E. eexists. cbn. rewrite E. split; [done|]. by apply Forall_fmap, Forall_true. Qed.
Lemma hears_trans w1 w2 w3 : hears w1 w2 -> hears w2 w3 -> hears w1 w3.
Proof. intros (a & E1 & H1) (b & E2 & H2). exists (a ++ b). rewrite E2, E1, app_assoc. split; [done|]. by apply Forall_app. Qed.
Lemma apply_call_hears engine command (w : Worker) : hears w (apply_call new_decoder engine command w).
Proof. destruct command; cbn [apply_call]; repeat case_match; first [by apply hears_refl|by apply hears_drop]. Qed.
Lemma mix_share_heard queued volumes l out jitters log : Forall is_heard log -> Forall is_heard (foldl (mix_share decode_float queued volumes) (out, jitters, log) l).2.
Proof.
  revert out jitters log. induction l as [|[user j] l IH]; intros out jitters log H; [done|]. cbn [foldl mix_share].
  destruct (jitter_pull decode_float j) as [pull j']. apply IH. apply Forall_app. by split; [|apply Forall_singleton].
Qed.
(** A play's pulls and the chain it leaves. *)
Lemma play_log io (w : Worker) : hears w (worker_play decode_float io w).2 /\
  exists reference, wk_chain (worker_play decode_float io w).2 = (chain_render reference (wk_chain w)).2.
Proof.
  unfold worker_play, mix_shares.
  pose proof (mix_share_heard (wrap32 (queued_playback io * PULL)) (ca_share_volumes (wk_call w)) (hash_order (ca_shares (wk_call w))) (silence (PULL * 2)) [] []) as Hj.
  destruct (foldl _ _ _) as [[out jitters] log]. destruct (mixer_mix _ _) as [voices mixer]. destruct (if ca_deafened _ then _ else _) as [stereo voices'].
  destruct (cues_mix _ _) as [voices'' cues]. cbn [wk_chain wk_set_cues wk_set_call wk_emit wk_settings].
  destruct (chain_render _ _) as [ok chain] eqn:E. split; [by exists log; split; [|apply Hj]|]. eexists. cbn. by rewrite E.
Qed.
Lemma worker_op_hears op (w : Worker) : match op with OpCapture _ _ => True | _ => hears w (worker_op op w) end.
Proof.
  destruct op as [[]|voices shares|io|now input|processed|now]; cbn [worker_op worker_apply]; try done; try by apply hears_refl.
  - case_match; by apply hears_refl.
  - case_match; [by apply hears_refl|]. eapply hears_trans; [|apply apply_call_hears]. case_match; [by apply hears_drop|by apply hears_refl].
  - case_match; [by apply hears_drop|by apply hears_refl].
  - apply play_log.
Qed.

Lemma chain_at_reset mic mic' pulls c : chain_at mic pulls c -> chain_at mic' [] (reset_clock c).
Proof. intros [Hl _ _]. by split. Qed.
Definition mic_at (w : Worker) (pulls : list Pulled) : Prop := chain_at (mic_track (wk_call w)) pulls (wk_chain w).
Lemma mic_at_same w w' pulls : mic_at w pulls -> wk_chain w' = wk_chain w -> (is_Some (mic_track (wk_call w')) -> mic_track (wk_call w') = mic_track (wk_call w)) -> mic_at w' pulls.
Proof. unfold mic_at. intros H E Hm. rewrite E. by apply (chain_at_same _ _ _ _ _ H). Qed.
Lemma mic_track_set engine mic (c : CallState) : mic_track (ca_set_mic (pair engine <$> mic) c) = mic.
Proof. by destruct mic. Qed.
Lemma mic_at_command engine command (w : Worker) pulls : mic_at w pulls ->
  mic_at (apply_call new_decoder engine command w) (match command with CmSendOn mic => if decide (mic = mic_track (wk_call w)) then pulls else [] | _ => pulls end).
Proof.
  intros H. destruct command; cbn [apply_call]; try (by apply (mic_at_same w)); try (repeat case_match; by apply (mic_at_same w)).
  case_decide as Hd; [apply (mic_at_same w); [done|done|intros _; etransitivity; [apply mic_track_set|done]]|]. by apply (chain_at_reset (mic_track (wk_call w)) _ pulls).
Qed.
Lemma capture_eq now input (w : Worker) : let '(packet, chain) := chain_capture input (wk_push_to_talk w) (chain_set_muted (negb (transmits (wk_call w))) (wk_chain w)) in
  (worker_capture now input w).2 = match packet, ca_mic (wk_call w) with
    | inr (Some (timestamp, data)), Some (engine, media_id) => wk_emit [Sent (ca_id (wk_call w)) engine (mkOutgoing media_id data timestamp false now)] (wk_set_chain chain w)
    | _, _ => wk_set_chain chain w
    end.
Proof. unfold worker_capture, transmits. by destruct (chain_capture _ _ _) as [packet chain]. Qed.
Lemma mic_at_op op (w : Worker) pulls (H : keeps_length) : mic_at w pulls -> mic_at (worker_op op w) (pulls_op op w pulls).
Proof.
  intros Hat. destruct op as [[]|voices shares|io|now input|processed|now]; cbn [worker_op worker_apply pulls_op]; try by apply (mic_at_same w).
  - unfold mic_at, chain_apply. cbn. destruct (decide _); by apply (chain_at_same _ _ _ _ _ Hat).
  - by apply (chain_at_same _ _ _ _ _ Hat).
  - case_match; by apply (mic_at_same w).
  - destruct (id <? ca_id (wk_call w)) eqn:E1; [by destruct c|]. set (w1 := if ca_id (wk_call w) <? id then replace_call id w else w).
    assert (mic_at w1 pulls) as Hat1 by (unfold w1; case_match; [apply (mic_at_same w); [done|done|by intros []]|done]).
    assert (mic_track (wk_call w1) = if ca_id (wk_call w) <? id then None else mic_track (wk_call w)) as Hm by (unfold w1; by case_match).
    apply (mic_at_command engine c) in Hat1. destruct c; try done. by rewrite Hm in Hat1.
  - case_match; [|done]. apply (mic_at_same w); [done|done|by intros []].
  - destruct (play_log io w) as [_ [reference Hc]], (play_call io w) as [Hcall _]. unfold mic_at. rewrite Hc, Hcall. unfold chain_render.
    destruct (process_render _ _) as [ok a]. by apply (chain_at_same _ _ _ _ _ Hat).
  - assert (chain_at (mic_track (wk_call w)) pulls (chain_set_muted (negb (transmits (wk_call w))) (wk_chain w))) as Hset by (by apply (chain_at_same _ _ _ _ _ Hat)).
    pose proof (capture_eq now input w) as Hw. pose proof (chain_capture_at _ _ _ input (wk_push_to_talk w) H Hset) as Hc.
    destruct (chain_capture _ _ _) as [packet chain]. cbn [chain_set_muted cn_muted] in Hc. rewrite negb_involutive in Hc.
    assert (wk_chain (worker_capture now input w).2 = chain /\ wk_call (worker_capture now input w).2 = wk_call w) as [Ec Ew] by (rewrite Hw; by repeat case_match).
    unfold mic_at. rewrite Ec, Ew. destruct (processed_ok packet); [apply Hc|done].
Qed.
Lemma mic_at_run ops (w : Worker) pulls (H : keeps_length) : mic_at w pulls -> mic_at (worker_run ops w) (pulls_of ops w pulls).
Proof. revert w pulls. induction ops as [|op ops IH]; intros w pulls Hat; [done|]. apply IH. by apply mic_at_op. Qed.
End worker.
