(* ===== verification/VoiceTheorems.v ===== *)
(** * What the audio thread promises *)
From Stdlib Require Import SpecFloat.
From S2P Require Import Prelude Ordered Ids Float64 Messages JsonFile People Jitter JitterFacts Engine ClientState SessionState Settings Cues Share Voice VoiceFacts.
Open Scope Z_scope.

Section worker.
Context {libm : Libm} {order : HashOrder} {Apm Vad Voip Decoder Rs : Type} {apm : AudioProcessing Apm} {vad : SpeechDetector Vad} {voip : VoipEncoder Voip} {resampler : Resampler Rs}.
Context (new_decoder : Z -> option Decoder) (decode_float : Decoder -> bytes -> list f32 -> DecodeMode -> bool * list f32 * Decoder).
Abbreviation worker_op := (worker_op (Rs := Rs) (Apm := Apm) (Vad := Vad) (Voip := Voip) new_decoder decode_float).
Abbreviation worker_run := (worker_run (Rs := Rs) (Apm := Apm) (Vad := Vad) (Voip := Voip) new_decoder decode_float).
Abbreviation pulls_of := (pulls_of (Rs := Rs) (Apm := Apm) (Vad := Vad) (Voip := Voip) new_decoder decode_float).
Abbreviation Worker := (Worker (Apm := Apm) (Vad := Vad) (Voip := Voip) (Decoder := Decoder) (Rs := Rs)).
Abbreviation DeviceIo := (DeviceIo (Rs := Rs)).
Abbreviation WorkerOp := (WorkerOp (Rs := Rs)).

Definition call_number (op : WorkerOp) : option Z := match op with OpCommand (WkCall i _ _) | OpCommand (WkEndCall i) => Some i | _ => None end.
Lemma ca_id_op op w : ca_id (wk_call (worker_op op w)) = match call_number op with Some i => Z.max i (ca_id (wk_call w)) | None => ca_id (wk_call w) end.
Proof.
  destruct (worker_op_call new_decoder decode_float op w) as [-> _]. destruct op as [[]|voices shares|io|now input|processed|now]; cbn; try done.
  - destruct (Z.ltb_spec id (ca_id (wk_call w))); [lia|]. rewrite ca_id_command. destruct (Z.ltb_spec (ca_id (wk_call w)) id); cbn; lia.
  - destruct (Z.leb_spec (ca_id (wk_call w)) id); cbn; lia.
Qed.
Lemma ca_id_run ops w : ca_id (wk_call (worker_run ops w)) = foldl Z.max (ca_id (wk_call w)) (omap call_number ops).
Proof.
  revert w. induction ops as [|op ops IH]; intros w; [done|]. cbn [foldl VoiceFacts.worker_run omap list_omap]. etransitivity; [apply IH|]. rewrite ca_id_op.
  destruct (call_number op); cbn; [by rewrite Z.max_comm|done].
Qed.

(** C32: after any run of the audio thread, whatever was played, captured and received in
    between, its call is the one of the highest number that commanded it or ended, in the
    state it would be in had no other call been there.  Older calls can neither change nor
    end a newer one. *)
Theorem the_newest_call_has_the_audio (now : Z) (c : CaptureChain) (settings : VoiceSettings) (ops : list WorkerOp) :
  let w := worker_run ops (worker_new now c settings) in
  let newest := foldl Z.max 0 (omap call_number ops) in
  ca_id (wk_call w) = newest /\ wk_call w = wk_call (worker_run (List.filter (concerns newest) ops) (worker_new now c settings)).
Proof.
  intros w newest. assert (ca_id (wk_call w) = newest) as Hid by apply ca_id_run. split; [done|].
  assert (same_call newest (worker_new now c settings) (worker_new (Rs := Rs) (Decoder := Decoder) now c settings)) as H by (by split_and!).
  apply (same_call_run new_decoder decode_float newest ops) in H. destruct H as (_ & _ & H & _). symmetry. by apply H.
Qed.

(** The unit is the packet of the last two pulls, a frame that began on an even one. *)
Definition packet_of (pulls : list Pulled) (unit : Outgoing) : Prop := exists earlier first second encoder,
  pulls = earlier ++ [first; second] /\ Nat.even (length earlier) = true /\
  pu_mic first = Some (og_media_id unit) /\ pu_mic second = Some (og_media_id unit) /\ pu_allowed first || pu_allowed second = true /\
  og_timestamp unit = wrap32 (FRAME * Z.of_nat (length earlier / 2)) /\
  (voip_encode (pu_samples first ++ pu_samples second) MAX_PACKET encoder).1 = Some (og_data unit).
Lemma capture_sends at_ input w pulls (H : keeps_length) : mic_at w pulls ->
  let op : WorkerOp := OpCapture at_ input in
  exists sent, wk_log (worker_op op w) = wk_log w ++ sent /\ forall o, o ∈ sent -> exists engine unit, o = Sent (ca_id (wk_call w)) engine unit /\
    ca_mic (wk_call w) = Some (engine, og_media_id unit) /\ og_keyframe unit = false /\ og_enqueued unit = at_ /\ packet_of (pulls_op op w pulls) unit.
Proof.
  intros Hat op. cbn [VoiceFacts.worker_op pulls_op op]. pose proof (capture_eq at_ input w) as Hw.
  assert (chain_at (mic_track (wk_call w)) pulls (chain_set_muted (negb (transmits (wk_call w))) (wk_chain w))) as Hset by (by apply (chain_at_same _ _ _ _ _ Hat)).
  pose proof (chain_capture_at _ _ _ input (wk_push_to_talk w) H Hset) as Hc. destruct (chain_capture _ _ _) as [packet chain].
  cbn [chain_set_muted cn_muted] in Hc. rewrite negb_involutive in Hc. rewrite Hw. clear Hw.
  destruct packet as [e|[[ts data]|]]; [exists []; by rewrite app_nil_r; split; [|intros ? ?%elem_of_nil]| |exists []; by rewrite app_nil_r; split; [|intros ? ?%elem_of_nil]].
  destruct (ca_mic (wk_call w)) as [[engine media]|] eqn:Em; [|exists []; by rewrite app_nil_r; split; [|intros ? ?%elem_of_nil]].
  assert (mic_track (wk_call w) = Some media) as Et by (unfold mic_track; by rewrite Em). rewrite ?Et in *.
  cbn [processed_ok] in *. eexists. split; [done|]. intros o ->%list_elem_of_singleton. eexists _, _. split_and!; [done..|]. cbn [og_media_id og_keyframe og_enqueued].
  destruct Hc as [_ Hc]. destruct (list.last pulls) as [first|] eqn:El; [|done]. destruct (Nat.even (length pulls)) eqn:Ev; [done|].
  apply last_Some in El as [earlier ->]. destruct (pu_allowed first || _) eqn:Ea; [|done]. destruct Hc as [encoder Hc].
  destruct (voip_encode _ _ _).1 as [data'|] eqn:En; [|done]. injection Hc as Hts <-.
  pose proof (at_waiting _ _ _ Hset) as Hwait. rewrite Ev in Hwait. destruct Hwait as (_ & before & p & Heq & _ & _ & Hp). apply app_inj_tail in Heq as [-> ->].
  rewrite length_app in Ev, Hts. cbn [length] in Ev, Hts. rewrite Nat.add_1_r in Ev, Hts. assert (Nat.even (length before) = true) as Hev by (rewrite Nat.even_succ, <- Nat.negb_even in Ev; by apply negb_false_iff in Ev).
  exists before, p, (mkPulled (cn_processed chain) (Some media) (cn_gate_open chain && transmits (wk_call w))), encoder. rewrite <- app_assoc.
  split_and!; [done|done|by apply Hp|done|done| |done]. cbn [og_timestamp]. rewrite Hts. exact (f_equal (fun k => wrap32 (FRAME * Z.of_nat k)) (proj1 (half_of_pair _ Hev))).
Qed.

(** C33: a unit of the mic is sent only by a capture, for the call of the moment, and is the
    Opus packet of two pulls in a row, both captured while its track was that call's mic and
    one of them let through by the gate while the call was not muted.  Its timestamp counts
    the samples processed since the track's clock started, sent or not.  A frame begun before
    the call was muted may so end 10 ms after. *)
Theorem the_mic_is_heard_only_on_its_track (now : Z) (c : CaptureChain) (settings settings' : VoiceSettings) (ops : list WorkerOp) (call engine : Z) (unit : Outgoing) :
  keeps_length -> chain_new settings = inr c ->
  let start := worker_new now c settings' in
  Sent call engine unit ∈ wk_log (worker_run ops start) ->
  exists before at_ input after, ops = before ++ OpCapture at_ input :: after /\
    let w := worker_run before start in
    call = ca_id (wk_call w) /\ ca_mic (wk_call w) = Some (engine, og_media_id unit) /\ og_keyframe unit = false /\ og_enqueued unit = at_ /\
    packet_of (pulls_of (before ++ [OpCapture at_ input]) start []) unit.
Proof.
  intros Hk Hnew start. induction ops as [|op ops IH] using rev_ind; [intros H; by apply elem_of_nil in H|].
  rewrite worker_run_app. set (w := worker_run ops start) in *. intros Hin.
  assert (Sent call engine unit ∈ wk_log w \/ exists at_ input, op = OpCapture at_ input) as [Hold|(at_ & input & ->)].
  { destruct op as [cm|v sh|io|at_ input|p|l]; [..|by right; exists at_, input| |]; left.
    all: match type of Hin with context [VoiceFacts.worker_run _ _ [?o] _] => destruct (worker_op_hears new_decoder decode_float o w) as (new & E & Hnew') end.
    all: cbn [VoiceFacts.worker_run foldl] in Hin; rewrite E in Hin; apply elem_of_app in Hin as [|Hin]; [done|].
    all: exfalso; by apply (proj1 (list.Forall_forall _ _) Hnew') in Hin. }
  { destruct (IH Hold) as (before & at_ & input & after & -> & Hrest). exists before, at_, input, (after ++ [op]). split; [by rewrite <- app_assoc|done]. }
  assert (mic_at w (pulls_of ops start [])) as Hat by (apply mic_at_run; [done|]; by apply (chain_at_new settings)).
  destruct (capture_sends at_ input w _ Hk Hat) as (sent & E & Hsent). cbn [VoiceFacts.worker_run foldl] in Hin. rewrite E in Hin.
  apply elem_of_app in Hin as [Hold|Hin].
  { destruct (IH Hold) as (before & at' & input' & after & -> & Hrest). exists before, at', input', (after ++ [OpCapture at_ input]). split; [by rewrite <- app_assoc|done]. }
  apply Hsent in Hin as (e & u & [= -> -> ->] & H1 & H2 & H3 & H4). exists ops, at_, input, []. split; [done|]. rewrite pulls_of_app. by split_and!.
Qed.

(** ** What is played *)

Lemma add_into_length gain out from : length (add_into gain out from) = length out.
Proof. revert from. induction out as [|o out IH]; intros [|s from]; cbn; [done..|by rewrite IH]. Qed.
Lemma mixed_down_within volume stereo voices : Forall (within (f32_of_Z (-1)) f32_one) (mixed_down volume stereo voices).
Proof.
  revert stereo. induction voices as [|v voices IH]; intros [|l [|r stereo]]; cbn [mixed_down]; try done.
  repeat apply Forall_cons_2; [by apply clamp_within..|apply IH].
Qed.
Lemma mixed_down_length volume n stereo voices : length stereo = (2 * n)%nat -> length voices = n -> length (mixed_down volume stereo voices) = (2 * n)%nat.
Proof.
  revert stereo voices. induction n as [|n IH]; intros stereo voices Hs Hv; [by destruct stereo, voices|].
  destruct stereo as [|l [|r stereo]]; [cbn in Hs; lia..|]. destruct voices as [|v voices]; [done|]. cbn in *. rewrite IH; lia.
Qed.
Definition is_zero (x : f32) : bool := match x with S754_zero _ => true | _ => false end.
Definition is_finite (x : f32) : bool := match x with S754_zero _ | S754_finite _ _ _ => true | _ => false end.
Lemma mixed_down_silent volume n stereo voices : is_finite volume = true -> Forall (fun x => x = zero) stereo -> Forall (fun x => x = zero) voices ->
  length voices = n -> Forall (fun x => is_zero x = true) (mixed_down volume stereo voices).
Proof.
  intros Hf. revert stereo voices. induction n as [|n IH]; intros stereo voices Hs Hv Hn; [by destruct voices, stereo as [|? [|]]|].
  destruct voices as [|v voices]; [done|]. destruct stereo as [|l [|r stereo]]; cbn [mixed_down]; [done..|].
  apply list.Forall_cons in Hs as [-> Hs]. apply list.Forall_cons in Hs as [-> Hs]. apply list.Forall_cons in Hv as [-> Hv].
  repeat apply Forall_cons_2; [by destruct volume as [[]| | |[]]..|]. apply IH; [done..|]. by injection Hn.
Qed.
Lemma mix_share_length queued volumes l out jitters log : length (foldl (mix_share decode_float queued volumes) (out, jitters, log) l).1.1 = length out.
Proof.
  revert out jitters log. induction l as [|[user j] l IH]; intros out jitters log; [done|]. cbn [foldl mix_share].
  destruct (jitter_pull decode_float j) as [pull j']. by rewrite IH, add_into_length.
Qed.
Lemma mixer_mix_length m : length (mixer_mix decode_float m).1 = Z.to_nat PULL.
Proof.
  unfold mixer_mix. assert (forall l acc, length (foldl (mix_stream decode_float (mx_volumes m)) acc l).1 = length acc.1) as H.
  { induction l as [|[user s] l IH]; intros [out streams]; [done|]. cbn [foldl mix_stream]. destruct (jitter_pull _ _) as [pull j]. destruct (hold _ _) as [o n]. etransitivity; [apply IH|apply add_into_length]. }
  specialize (H (hash_order (mx_streams m)) (silence PULL, [])). destruct (foldl _ _ _) as [out streams]. cbn in *. by rewrite length_fmap, H.
Qed.
Lemma cues_mix_length out p : length (cues_mix out p).1 = length out.
Proof. unfold cues_mix. destruct (cu_playing p) as [playing|]; [|done]. destruct (List.find _ _) as [[c samples]|]; [|done]. apply add_into_length. Qed.

(** A pull played is 10 ms of stereo, and every sample of it is between -1 and 1 whatever
    the voices, the shares and the volumes (or not a number, where a codec or a volume gave
    one).  Deafened, without mic test and cue, it is silence. *)
Theorem what_is_played_is_in_range (io : DeviceIo) (w : Worker) : length (wk_last_capture w) = Z.to_nat PULL ->
  let '(out, _, w') := worker_play decode_float io w in
  length out = Z.to_nat (PULL * 2) /\ Forall (within (f32_of_Z (-1)) f32_one) out /\ wk_played w' = wrap64 (wk_played w + PULL) /\
  (ca_deafened (wk_call w) = true -> wk_mic_test w = false -> cu_playing (wk_cues w) = None -> is_finite (vs_output_volume (wk_settings w)) = true ->
    Forall (fun x => is_zero x = true) out).
Proof.
  intros Hlast. pose proof (play_call decode_float io w) as [_ Hplayed]. revert Hplayed. unfold worker_play, mix_shares.
  pose proof (mix_share_length (wrap32 (queued_playback io * PULL)) (ca_share_volumes (wk_call w)) (hash_order (ca_shares (wk_call w))) (silence (PULL * 2)) [] []) as Hs.
  destruct (foldl _ _ _) as [[out jitters] log]. cbn [wk_call wk_emit wk_set_call ca_mixer ca_set_shares].
  pose proof (mixer_mix_length (ca_mixer (wk_call w))) as Hm. destruct (mixer_mix decode_float (ca_mixer (wk_call w))) as [voices mixer].
  cbn [ca_deafened ca_set_voices wk_call wk_set_call ca_set_shares wk_mic_test wk_cues wk_settings wk_last_capture wk_emit]. cbn [fst] in Hs, Hm.
  destruct (if ca_deafened (wk_call w) then (silence (PULL * 2), silence PULL) else (out, voices)) as [stereo voices1] eqn:E1.
  assert (length stereo = Z.to_nat (PULL * 2) /\ length voices1 = Z.to_nat PULL) as [Hst Hv1].
  { destruct (ca_deafened _); injection E1 as <- <-; [by unfold silence; rewrite !length_replicate|]. rewrite Hs, Hm. by unfold silence; rewrite length_replicate. }
  set (voices2 := if wk_mic_test w then test_mix voices1 (wk_last_capture w) else voices1).
  assert (length voices2 = Z.to_nat PULL) as Hv2 by (unfold voices2, test_mix; destruct (wk_mic_test w); rewrite ?length_zip_with; lia).
  pose proof (cues_mix_length voices2 (wk_cues w)) as Hc. destruct (cues_mix voices2 (wk_cues w)) as [voices3 cues] eqn:E3. cbn [fst] in Hc.
  cbn [wk_settings wk_set_cues wk_set_call wk_emit wk_chain]. destruct (chain_render _ _) as [ok chain]. cbn [snd]. intros Hplayed.
  split_and!; [|apply mixed_down_within|done|].
  - change (Z.to_nat (PULL * 2)) with (2 * Z.to_nat PULL)%nat in *. apply mixed_down_length; [done|lia].
  - intros Hd Ht Hq Hf. rewrite Hd in E1. injection E1 as <- <-. unfold voices2, cues_mix in E3. rewrite Ht, Hq in E3. injection E3 as <- <-.
    apply (mixed_down_silent _ (Z.to_nat PULL)); [done|by apply Forall_replicate..|by unfold silence; rewrite length_replicate].
Qed.

(** ** What is heard of a share *)

(** What a person's playout was last set to. *)
Definition hear (user : UserId) (before : option Z) (o : WorkerOut) : option Z := match o with Heard u t => if decide (u = user) then t else before | Sent _ _ _ => before end.
Definition heard_of (user : UserId) (log : list WorkerOut) : option Z := foldl (hear user) None log.
Lemma heard_of_app user a b : heard_of user (a ++ b) = foldl (hear user) (heard_of user a) b.
Proof. apply foldl_app. Qed.
Lemma hear_dropped user users before : foldl (hear user) before ((fun u => Heard u None) <$> users) = if decide (user ∈ users) then None else before.
Proof.
  revert before. induction users as [|u users IH]; intros before; [by rewrite decide_False by (by intros ?%elem_of_nil)|]. rewrite fmap_cons. cbn [foldl]. rewrite IH. unfold hear.
  destruct (decide (user ∈ users)) as [Hin|Hout]; [by rewrite decide_True by (by right)|].
  destruct (decide (u = user)) as [->|Hne]; [by rewrite decide_True by left|]. by rewrite decide_False by (by intros [Heq|]%elem_of_cons).
Qed.
Definition heard_now (queued : Z) (j : JitterBuffer Decoder) : option Z := (fun ts => wrap32 (ts - queued)) <$> playout_timestamp j.
Lemma mix_share_log queued volumes l out jitters log :
  (foldl (mix_share decode_float queued volumes) (out, jitters, log) l).2 = log ++ ((fun '(user, j) => Heard user (heard_now queued (jitter_pull decode_float j).2)) <$> l).
Proof.
  revert out jitters log. induction l as [|[user j] l IH]; intros out jitters log; [by rewrite app_nil_r|].
  rewrite fmap_cons. cbn [foldl mix_share]. destruct (jitter_pull decode_float j) as [pull j']. rewrite IH. by rewrite <- app_assoc.
Qed.
Lemma hear_pulled (f : JitterBuffer Decoder -> option Z) user l before : NoDup l.*1 ->
  (user ∉ l.*1 -> foldl (hear user) before ((fun '(user, j) => Heard user (f j)) <$> l) = before) /\
  (forall j, (user, j) ∈ l -> foldl (hear user) before ((fun '(user, j) => Heard user (f j)) <$> l) = f j).
Proof.
  revert before. induction l as [|[u j] l IH]; intros before; [by split; [|intros ? ?%elem_of_nil]|]. rewrite !fmap_cons. cbn [fst foldl hear].
  intros [Hu Hl]%list.NoDup_cons. destruct (IH (if decide (u = user) then f j else before) Hl) as [Hout Hin]. split.
  - intros [Hne Hn]%not_elem_of_cons. rewrite Hout by done. by rewrite decide_False.
  - intros j' [[= -> ->]|Hj]%elem_of_cons; [|by apply Hin]. rewrite Hout by done. by rewrite decide_True.
Qed.
(** The play's log and shares. *)
Lemma play_shares io (w : Worker) :
  let queued := wrap32 (queued_playback io * PULL) in let w' := (worker_play decode_float io w).2 in
  wk_log w' = wk_log w ++ ((fun '(user, j) => Heard user (heard_now queued (jitter_pull decode_float j).2)) <$> hash_order (ca_shares (wk_call w))) /\
  ca_shares (wk_call w') = collect_map ((fun '(user, j) => (user, (jitter_pull decode_float j).2)) <$> hash_order (ca_shares (wk_call w))).
Proof.
  intros queued w'. split; [|by unfold w'; destruct (play_call decode_float io w) as [-> _]]. subst w'. unfold worker_play, mix_shares.
  pose proof (mix_share_log queued (ca_share_volumes (wk_call w)) (hash_order (ca_shares (wk_call w))) (silence (PULL * 2)) [] []) as Hl. fold queued.
  destruct (foldl _ _ _) as [[out jitters] log]. cbn [snd app] in Hl. subst log. destruct (mixer_mix _ _) as [voices mixer].
  destruct (if ca_deafened _ then _ else _) as [stereo voices']. destruct (cues_mix _ _) as [voices'' cues]. by destruct (chain_render _ _).
Qed.
Lemma keys_pulled {A B} (f : A -> B) (l : list (Z * A)) : ((fun '(k, a) => (k, f a)) <$> l).*1 = l.*1.
Proof. induction l as [|[k a] l IH]; [done|]. by rewrite !fmap_cons, IH. Qed.

Definition silent_elsewhere (w : Worker) : Prop := forall user, ca_shares (wk_call w) !! user = None -> heard_of user (wk_log w) = None.
Lemma silent_same w w' : silent_elsewhere w -> wk_log w' = wk_log w -> (forall user, ca_shares (wk_call w') !! user = None -> ca_shares (wk_call w) !! user = None) -> silent_elsewhere w'.
Proof. intros H E Hs user Hu. rewrite E. by apply H, Hs. Qed.
Lemma silent_drop users w w' : silent_elsewhere w -> wk_log w' = wk_log w ->
  (forall user, ca_shares (wk_call w') !! user = None -> ca_shares (wk_call w) !! user = None \/ user ∈ users) -> silent_elsewhere (drop_shares users w').
Proof.
  intros H E Hs user Hu. cbn [drop_shares wk_emit wk_log]. rewrite heard_of_app, hear_dropped. case_decide; [done|]. rewrite E. apply H. by destruct (Hs user Hu).
Qed.
Lemma in_share_users c user : user ∈ share_users (Decoder := Decoder) c <-> is_Some (ca_shares c !! user).
Proof.
  unfold share_users. rewrite list_elem_of_fmap. split.
  - intros ([u j] & -> & Hj%elem_of_hash_order). by exists j.
  - intros [j Hj]. exists (user, j). split; [done|]. by apply elem_of_hash_order.
Qed.
Lemma silent_all w w' : silent_elsewhere w -> wk_log w' = wk_log w -> silent_elsewhere (drop_shares (share_users (wk_call w)) w').
Proof.
  intros H E. apply (silent_drop _ w); [done..|]. intros user _. rewrite in_share_users. destruct (ca_shares (wk_call w) !! user) eqn:Eu; [right; by exists j|by left].
Qed.
Lemma silent_command engine command (w : Worker) : silent_elsewhere w -> silent_elsewhere (apply_call new_decoder engine command w).
Proof.
  intros H. destruct command; cbn [apply_call]; try by apply (silent_same w).
  - case_decide; by apply (silent_same w).
  - case_match; [|done]. apply (silent_drop _ w); [done..|]. cbn. intros u [Hu _]%lookup_insert_None. by left.
  - apply (silent_drop _ w); [done..|]. cbn. intros u. rewrite lookup_delete_None. intros [->|Hu]; [|by left].
    destruct (ca_shares (wk_call w) !! u); [right; by left|by left].
  - by apply silent_all.
Qed.
Lemma silent_op op (w : Worker) : silent_elsewhere w -> silent_elsewhere (worker_op op w).
Proof.
  intros H. destruct op as [[]|voices shares|io|now input|processed|now]; cbn [VoiceFacts.worker_op worker_apply]; try by apply (silent_same w).
  - case_match; by apply (silent_same w).
  - case_match; [done|]. apply silent_command. case_match; [by apply silent_all|done].
  - case_match; [by apply silent_all|done].
  - apply (silent_same w); [done..|]. cbn. intros user. rewrite map_lookup_imap. by destruct (ca_shares (wk_call w) !! user).
  - destruct (play_shares io w) as [El Es]. intros user Hu. rewrite El, heard_of_app. rewrite Es in Hu.
    assert (user ∉ (hash_order (ca_shares (wk_call w))).*1) as Hn.
    { intros Hin. rewrite <- (keys_pulled (fun j => (jitter_pull decode_float j).2)) in Hin. apply collect_map_is_Some in Hin as [j Hj]. congruence. }
    rewrite (proj1 (hear_pulled _ user _ _ (hash_order_keys _))) by done. apply H.
    destruct (ca_shares (wk_call w) !! user) as [j|] eqn:Ej; [|done]. destruct Hn. apply list_elem_of_fmap. exists (user, j). split; [done|]. by apply elem_of_hash_order.
  - pose proof (capture_eq now input w) as Hw. destruct (chain_capture _ _ _) as [packet chain]. rewrite Hw.
    repeat case_match; try by apply (silent_same w). intros user Hu. cbn [wk_log wk_emit wk_set_chain]. rewrite heard_of_app. by apply H.
Qed.

(** A share not listened to any more, or of a call that is over, is not said to be heard,
    so nobody's pictures wait for it; and after every pull played each share listened to is
    said to be heard where its sound is once the pulls queued before it have played. *)
Theorem only_what_plays_is_heard (now : Z) (c : CaptureChain) (settings : VoiceSettings) (ops : list WorkerOp) :
  let w := worker_run ops (worker_new now c settings) in
  silent_elsewhere w /\
  forall io user j, let w' := worker_op (OpPlay io) w in ca_shares (wk_call w') !! user = Some j ->
    heard_of user (wk_log w') = heard_now (wrap32 (queued_playback io * PULL)) j.
Proof.
  assert (forall ops (w : Worker), silent_elsewhere w -> silent_elsewhere (worker_run ops w)) as Hrun.
  { clear. induction ops as [|op ops IH]; intros w H; [done|]. by apply IH, silent_op. }
  intros w. split; [by apply Hrun|]. intros io user j w'. subst w'. cbn [VoiceFacts.worker_op]. destruct (play_shares io w) as [El Es]. rewrite El, Es, heard_of_app.
  intros Hj%collect_map_Some. apply list_elem_of_fmap in Hj as ([u j0] & [= -> ->] & Hin).
  by rewrite (proj2 (hear_pulled (fun j => heard_now (wrap32 (queued_playback io * PULL)) (jitter_pull decode_float j).2) u _ _ (hash_order_keys _)) j0 Hin).
Qed.
End worker.

(** ** Cues and devices *)

Lemma add_into_app gain a b from : add_into gain (a ++ b) from = add_into gain a from ++ add_into gain b (drop (length a) from).
Proof. revert from. induction a as [|x a IH]; intros [|s from]; cbn; [by destruct b|done|by destruct b; rewrite ?app_nil_r|by rewrite IH]. Qed.
Lemma add_into_nil gain out : add_into gain out [] = out.
Proof. by destruct out. Qed.

(** What a player mixes into one buffer after another. *)
Fixpoint cues_mixed (outs : list (list f32)) (p : CuePlayer) : list f32 * CuePlayer :=
  match outs with
  | [] => ([], p)
  | out :: outs => let '(mixed, p) := cues_mix out p in let '(rest, p) := cues_mixed outs p in (mixed ++ rest, p)
  end.
Lemma cues_idle outs p : cu_playing p = None -> cues_mixed outs p = (mjoin outs, p).
Proof. intros H. induction outs as [|out outs IH]; [done|]. cbn [cues_mixed]. unfold cues_mix at 1. rewrite H, IH. done. Qed.
Lemma cues_from outs p c gain position samples : cu_playing p = Some (mkPlaying c position gain) ->
  List.find (fun '(c', _) => bool_decide (c' = c)) (cu_sounds p) = Some (c, samples) ->
  (cues_mixed outs p).1 = add_into gain (mjoin outs) (drop position samples) /\
  (outs <> [] -> cu_playing (cues_mixed outs p).2 =
    let position := (position + length (mjoin outs))%nat in if (length samples <=? position)%nat then None else Some (mkPlaying c position gain)) /\
  cu_sounds (cues_mixed outs p).2 = cu_sounds p.
Proof.
  revert p position. induction outs as [|out outs IH]; intros p position Hp Hs; [by destruct (drop position samples)|].
  cbn [cues_mixed mjoin list_join]. destruct (cues_mix out p) as [mixed p'] eqn:E. unfold cues_mix in E. rewrite Hp in E. cbn [pl_cue] in E. rewrite Hs in E. cbn [pl_position pl_gain] in E.
  injection E as <- <-. rewrite length_app, add_into_app, drop_drop.
  destruct (length samples <=? position + length out)%nat eqn:El.
  - rewrite cues_idle by done. cbn [fst snd cu_playing cu_sounds]. apply Nat.leb_le in El. split_and!; [|intros _|done].
    + by rewrite (drop_ge samples (position + length out)), add_into_nil by done.
    + cbv zeta. by rewrite (proj2 (Nat.leb_le _ _)) by lia.
  - destruct (IH (mkCuePlayer (cu_sounds p) (Some (mkPlaying c (position + length out) gain))) (position + length out)%nat eq_refl Hs) as (H1 & H2 & H3).
    destruct (cues_mixed outs _) as [rest p''] eqn:Em. cbn [fst snd] in *. split_and!; [by rewrite H1| |done].
    intros _. destruct outs as [|o outs]; [|by rewrite H2, Nat.add_assoc by done]. cbn in Em. injection Em as <- <-. cbn. rewrite Nat.add_0_r. cbv zeta. by rewrite El.
Qed.

(** A cue that starts is added whole and once, sample by sample at its gain, into what is
    played next, however that is cut into pulls, and leaves the player idle at its end; the
    same cue again while it plays changes nothing, and its gain is kept in range. *)
Theorem a_cue_plays_once_to_its_end {libm : Libm} (p : CuePlayer) (c : Cue) (gain gain' : f32) (samples : list f32) (outs outs' : list (list f32)) :
  cu_sounds p = cu_sounds cue_player_default -> cu_playing p = None -> samples = render c ->
  let started := cues_play c gain p in
  let level := f32_clamp gain (f32_of_Z 0) MAX_VOLUME in
  let '(first, p1) := cues_mixed outs started in
  first = add_into level (mjoin outs) samples /\ within (f32_of_Z 0) MAX_VOLUME level /\
  (outs <> [] -> (length samples <= length (mjoin outs))%nat -> cu_playing p1 = None /\ cues_mixed outs' p1 = (mjoin outs', p1)) /\
  ((length (mjoin outs) < length samples)%nat -> cues_play c gain' p1 = p1 /\ (cues_mixed outs' p1).1 = add_into level (mjoin outs') (drop (length (mjoin outs)) samples)).
Proof.
  intros Hs Hp -> started level. assert (cu_playing started = Some (mkPlaying c 0 level)) as Hst by (unfold started, cues_play; by rewrite Hp).
  assert (cu_sounds started = cu_sounds cue_player_default) as Hso by (unfold started, cues_play; by rewrite Hp).
  assert (List.find (fun '(c', _) => bool_decide (c' = c)) (cu_sounds started) = Some (c, render c)) as Hf by (rewrite Hso; by destruct c).
  destruct (cues_from outs _ _ _ _ _ Hst Hf) as (H1 & H2 & H3). destruct (cues_mixed outs started) as [first p1] eqn:Em. cbn [fst snd] in *. rewrite drop_0 in H1.
  split_and!; [done|by apply clamp_within| |].
  - intros Hne Hlen. assert (cu_playing p1 = None) as Hidle by (rewrite (H2 Hne); cbv zeta; by rewrite (proj2 (Nat.leb_le _ _)) by done). split; [done|by apply cues_idle].
  - intros Hlen. assert (cu_playing p1 = Some (mkPlaying c (length (mjoin outs)) level)) as Hpl.
    { destruct outs as [|o outs]; [by injection Em as _ <-|]. rewrite (H2 ltac:(done)). cbv zeta. rewrite (proj2 (Nat.leb_gt _ _)) by done. done. }
    split; [unfold cues_play; rewrite Hpl; cbn [pl_cue]; by rewrite bool_decide_eq_true_2|].
    rewrite <- H3 in Hf. by destruct (cues_from outs' _ _ _ _ _ Hpl Hf) as [-> _].
Qed.

Section devices.
Context {libm : Libm} {order : HashOrder} {Apm Vad Voip Decoder Rs : Type} {apm : AudioProcessing Apm} {vad : SpeechDetector Vad} {voip : VoipEncoder Voip} {resampler : Resampler Rs}.
Context (decode_float : Decoder -> bytes -> list f32 -> DecodeMode -> bool * list f32 * Decoder).
Abbreviation Worker := (Worker (Apm := Apm) (Vad := Vad) (Voip := Voip) (Decoder := Decoder) (Rs := Rs)).
Abbreviation DeviceIo := (DeviceIo (Rs := Rs)).

(** A turn of the worker, or of the devices' own threads. *)
Inductive IoOp := IoTurn (now : Z) (w : Worker) | IoDevice (captured : list f32) (taken : nat).
Definition io_op (op : IoOp) (io : DeviceIo) : DeviceIo :=
  match op with
  | IoTurn now w => (play_and_capture decode_float now io w).1.2
  | IoDevice captured taken =>
      let d := io_devices io in
      mkDeviceIo (mkDevices (dv_input_rate d) (dv_output_rate d) (dv_capture d ++ captured) (drop taken (dv_playback d)) (dv_capacity d)) (io_to_device io) (io_from_device io) (io_in io) (io_out io)
  end.
Definition fills : Prop := forall input n (r : Rs), length (resample input n r).1 = Z.to_nat n.

Record io_fits (io : DeviceIo) : Prop := {
  fits_out : 0 < io_out io /\ Z.even (io_out io) = true /\ (io_to_device io = None -> io_out io = PULL * 2);
  fits_queue : Z.of_nat (length (dv_playback (io_devices io))) < (PLAYBACK_AHEAD + 1) * io_out io;
  fits_ring : Z.of_nat (length (dv_playback (io_devices io))) <= dv_capacity (io_devices io)
}.
Lemma channel_length second n stereo : length stereo = (2 * n)%nat -> length (channel_of second stereo) = n.
Proof. revert stereo. induction n as [|n IH]; intros [|l [|r stereo]] H; cbn in *; try lia. rewrite IH; lia. Qed.
Lemma interleaved_length n ls rs : length ls = n -> length rs = n -> length (interleaved ls rs) = (2 * n)%nat.
Proof. revert ls rs. induction n as [|n IH]; intros [|l ls] [|r rs] H1 H2; cbn in *; try lia. rewrite IH; lia. Qed.
(** A pull played where the device wants one is queued whole. *)
Lemma io_play_queues stereo io : fills -> io_fits io -> length stereo = Z.to_nat (PULL * 2) -> wants_playback io = true ->
  exists out, length out = Z.to_nat (io_out io) /\ dv_playback (io_devices (io_play stereo io)) = dv_playback (io_devices io) ++ out /\ io_fits (io_play stereo io).
Proof.
  intros Hfill [[Hpos [Hev Hnone]] Hq Hr] Hs [Hslots%Z.leb_le Hahead%Z.ltb_lt]%andb_true_iff. unfold queued_playback, playback_slots in *.
  assert (exists out to_, match io_to_device io with
    | Some (l, r) => let '(ls, l) := resample (channel_of false stereo) (io_out io / 2) l in let '(rs, r) := resample (channel_of true stereo) (io_out io / 2) r in (interleaved ls rs, Some (l, r))
    | None => (stereo, None) end = (out, to_) /\ length out = Z.to_nat (io_out io) /\ (to_ = None -> io_to_device io = None)) as (out & to_ & E & Hlen & Hto).
  { destruct (io_to_device io) as [[l r]|]; [|exists stereo, None; by rewrite Hnone].
    pose proof (Hfill (channel_of false stereo) (io_out io / 2) l) as Hl. pose proof (Hfill (channel_of true stereo) (io_out io / 2) r) as Hrr.
    destruct (resample _ _ l) as [ls l'], (resample _ _ r) as [rs r']. cbn in Hl, Hrr. exists (interleaved ls rs), (Some (l', r')). split_and!; [done| |done].
    rewrite (interleaved_length _ _ _ Hl Hrr). apply Z.even_spec in Hev as [k Hk]. rewrite Hk, Z.mul_comm, Z.div_mul by lia. lia. }
  assert (queued_le : Z.of_nat (length (dv_playback (io_devices io))) < PLAYBACK_AHEAD * io_out io).
  { rewrite Z.max_l in Hahead by lia. replace (dv_capacity (io_devices io) - (dv_capacity (io_devices io) - Z.of_nat (length (dv_playback (io_devices io)))))
      with (Z.of_nat (length (dv_playback (io_devices io)))) in Hahead by lia.
    pose proof (Z.mul_succ_div_gt (Z.of_nat (length (dv_playback (io_devices io)))) (io_out io) Hpos). nia. }
  exists out. unfold io_play, playback_slots. rewrite E. destruct (Z.ltb_spec (dv_capacity (io_devices io) - Z.of_nat (length (dv_playback (io_devices io)))) (Z.of_nat (length out))); [lia|].
  cbn [io_devices dv_playback]. split_and!; [done|done|]. split; cbn [io_out io_to_device io_devices dv_playback dv_capacity]; rewrite ?length_app; [|lia|lia]. split_and!; [done..|]. intros Hn. by apply Hnone, Hto.
Qed.
Lemma io_fits_same io io' : io_fits io -> io_out io' = io_out io -> io_to_device io' = io_to_device io -> dv_capacity (io_devices io') = dv_capacity (io_devices io) ->
  (length (dv_playback (io_devices io')) <= length (dv_playback (io_devices io)))%nat -> io_fits io'.
Proof. intros [H1 H2 H3] E1 E2 E3 E4. split; rewrite ?E1, ?E2, ?E3; [done|lia..]. Qed.
Lemma io_capture_fits io : io_fits io -> io_fits (io_capture io).2.
Proof. intros H. unfold io_capture. destruct (match io_from_device io with Some r => _ | None => _ end) as [input from]. by apply (io_fits_same io). Qed.

(** However the worker's turns and the devices' own threads alternate, the playback queued
    is less than five pulls, and never more than its ring holds; a pull the worker plays is
    queued whole, none of it dropped. *)
Theorem playback_stays_just_ahead (d : Devices) (ops : list IoOp) :
  fills -> dv_playback d = [] -> 0 <= dv_capacity d -> 100 <= dv_output_rate d ->
  Forall (fun op => match op with IoTurn _ w => length (wk_last_capture w) = Z.to_nat PULL | IoDevice _ _ => True end) ops ->
  let io := foldl (fun io op => io_op op io) (device_io_new d) ops in
  Z.of_nat (length (dv_playback (io_devices io))) < 5 * io_out io /\ Z.of_nat (length (dv_playback (io_devices io))) <= dv_capacity (io_devices io) /\
  forall w : Worker, length (wk_last_capture w) = Z.to_nat PULL -> wants_playback io = true ->
    exists out, length out = Z.to_nat (io_out io) /\ dv_playback (io_devices (worker_play decode_float io w).1.2) = dv_playback (io_devices io) ++ out.
Proof.
  intros Hfill Hd Hc Hr Hops.
  assert (forall io (w : Worker), length (wk_last_capture w) = Z.to_nat PULL -> exists out, length out = Z.to_nat (PULL * 2) /\ (worker_play decode_float io w).1.2 = io_play out io) as Hplay.
  { intros io w Hl. pose proof (what_is_played_is_in_range decode_float io w Hl) as H. exists (worker_play decode_float io w).1.1.
    destruct (worker_play decode_float io w) as [[out io'] w'] eqn:E. split; [apply H|]. cbn. revert E. unfold worker_play. destruct (mix_shares _ _ _) as [s0 w0]. destruct (mixer_mix _ _) as [v0 m0].
    destruct (if ca_deafened _ then _ else _) as [s1 v1]. destruct (cues_mix _ _) as [v2 c2]. destruct (chain_render _ _) as [ok chain]. by intros [= <- <- _]. }
  assert (io_fits (device_io_new d)) as H0.
  { split; cbn [device_io_new io_out io_devices io_to_device]; rewrite ?Hd; cbn [length]; pose proof (Z.div_le_mono 100 (dv_output_rate d) 100 ltac:(lia) Hr) as Hdiv; change (100 / 100) with 1 in Hdiv; [|unfold PLAYBACK_AHEAD; lia|lia].
    split_and!; [lia|by rewrite Z.even_mul, orb_true_r|]. destruct (Z.eqb_spec (dv_output_rate d) SAMPLE_RATE) as [->|]; [done|done]. }
  assert (forall io, io_fits io -> io_fits (foldl (fun io op => io_op op io) io ops)) as Hrun.
  { clear H0. induction Hops as [|op ops Hop Hops IH]; intros io Hio; [done|]. cbn [foldl]. apply IH. destruct op as [now w|captured taken]; cbn [io_op].
    - unfold play_and_capture. destruct (wants_playback io) eqn:Ew.
      + destruct (Hplay io w Hop) as (out & Hout & E). destruct (worker_play decode_float io w) as [[o io'] w']. cbn in E. subst io'.
        destruct (io_play_queues out io Hfill Hio Hout Ew) as (_ & _ & _ & Hfit). destruct (has_capture _); [|done].
        pose proof (io_capture_fits _ Hfit) as Hcap. destruct (io_capture _) as [input io2]. by destruct (worker_capture _ _ _).
      + destruct (has_capture io); [|done]. pose proof (io_capture_fits _ Hio) as Hcap. destruct (io_capture _) as [input io2]. by destruct (worker_capture _ _ _).
    - apply (io_fits_same io); [done..|]. cbn. rewrite length_drop. lia. }
  intros io. specialize (Hrun _ H0). fold io in Hrun. pose proof Hrun as [_ Hq Hring]. unfold PLAYBACK_AHEAD in Hq. split_and!; [done|done|].
  intros w Hw Hwants. destruct (Hplay io w Hw) as (out & Hout & ->). destruct (io_play_queues out io Hfill Hrun Hout Hwants) as (out' & H1 & H2 & _). by exists out'.
Qed.
End devices.

(** ** Settings *)

Lemma checked_again s : checked_settings (checked_settings s) = checked_settings s.
Proof.
  destruct s as [profile appearance [input output v]]. unfold checked_settings, checked_voice. cbn. rewrite !clamp_again by done. f_equal.
  unfold checked_profile. destruct profile as [[name picture]|]; [|done]. cbn. destruct (valid_name name) as [name'|] eqn:E; [|done]. cbn.
  assert (valid_name name' = Some name') as -> by (by apply (proj1 (proj2 valid_name_keeps_names_clean)) in E). done.
Qed.

(** Settings saved are those loaded again, but for a name no server would take, which is
    no profile, and volumes, which are kept in range; loading what was loaded changes nothing
    more; and a file that cannot be read, or is of a newer version, is left as it is. *)
Theorem settings_load_back_in_range {Value : Type} `{!Json Value, !JsonLaws Value} `{!Format Value Settings, !FormatLaws Value Settings}
    (io : FileAnswers) (s : Settings) (file : option bytes) :
  let '(result, file') := settings_save io s file in
  match result with
  | inl _ => settings_load true file' = inl (checked_settings s) /\ checked_settings (checked_settings s) = checked_settings s
  | inr _ => file' = file
  end /\
  (forall e, json_load (T := Settings) true file = inr e -> exists e', result = inr e') /\
  let v := as_voice (st_audio (checked_settings s)) in
  Forall (within (f32_of_Z 0) MAX_VOLUME) [vs_input_volume v; vs_output_volume v; vs_cue_volume v].
Proof.
  assert (Forall (within (f32_of_Z 0) MAX_VOLUME) (let v := as_voice (st_audio (checked_settings s)) in [vs_input_volume v; vs_output_volume v; vs_cue_volume v])) as Hin
    by (repeat apply Forall_cons_2; try apply Forall_nil_2; by apply clamp_within).
  unfold settings_save, json_update. destruct (fa_locked io); cbn [negb]; [|by split_and!; [|eexists|]].
  destruct (json_load (fa_readable io) file) as [contents|bad] eqn:E; [|by split_and!; [|eexists|]].
  assert (forall e, json_load (T := Settings) true file <> inr e) as Hgood by (intros e Hb; destruct (fa_readable io); [by rewrite E in Hb|done]).
  destruct (fa_replaced io); (split; [|split; [by intros e He; destruct (Hgood e)|done]]); [|done].
  split; [|by apply checked_again]. unfold settings_load. by rewrite written_loads.
Qed.

(** ** Concrete audio threads *)

Definition plain_order : HashOrder.
Proof. refine (Build_HashOrder (fun A m => in_key_order m) _). intros A m. apply merge_sort_Permutation. Defined.
#[local] Existing Instance plain_order.

Definition plain_libm : Libm := Build_Libm (fun x => x) (fun x => x) (fun x => x) (fun x => x) (fun x => x).
Definition plain_apm : AudioProcessing unit := Build_AudioProcessing unit tt (fun _ a => a) (fun _ a => (true, a))
  (fun input buffer a => (true, zip_with (fun x _ => x) input buffer ++ drop (length input) buffer, a)).
Definition plain_vad : SpeechDetector unit := Build_SpeechDetector unit tt (fun _ v => (f32_one, v)).
Definition plain_voip : VoipEncoder unit := Build_VoipEncoder unit (fun _ _ => Some tt) (fun frame _ e => (Some [Z.of_nat (length frame)], e)).
Definition plain_resampler : Resampler unit := Build_Resampler unit (fun _ _ => tt) (fun _ n r => (replicate (Z.to_nat n) f32_zero, r)).
Definition plain_decode : unit -> bytes -> list f32 -> DecodeMode -> bool * list f32 * unit := fun d _ frame _ => (true, frame, d).
Lemma plain_keeps : keeps_length (apm := plain_apm).
Proof. intros input buffer a. cbn. rewrite length_app, length_zip_with, length_drop. lia. Qed.
Definition by_button : VoiceSettings := mkVoiceSettings true None false PushToTalk false f32_one f32_one f32_one.
Definition a_chain : CaptureChain (Apm := unit) (Vad := unit) (Voip := unit) :=
  mkChain tt tt PushToTalk false tt f32_one (true, None, false) (silence PULL) (silence FRAME) 0 false 0 0 false false NEG_INFINITY false.
Definition two_pulls_held : list (WorkerOp (Rs := unit)) :=
  [OpCommand (WkCall 1 5 (CmSendOn (Some 7))); OpCommand (WkCall 1 5 (CmMuted false)); OpCommand (WkPushToTalk true);
   OpCapture 10 (silence PULL); OpCapture 20 (silence PULL)].
Definition plain_start : Worker (Apm := unit) (Vad := unit) (Voip := unit) (Decoder := unit) (Rs := unit) := worker_new (libm := plain_libm) 0 a_chain by_button.
Lemma two_pulls_sent : wk_log (worker_run (libm := plain_libm) (apm := plain_apm) (vad := plain_vad) (voip := plain_voip) (resampler := plain_resampler)
  (fun _ => Some tt) plain_decode two_pulls_held plain_start) = [Sent 1 5 (mkOutgoing 7 [960] 0 false 20)].
Proof. by lazy. Qed.
Lemma the_mic_is_heard_only_on_its_track_witness : exists before at_ input after, two_pulls_held = before ++ OpCapture at_ input :: after /\ at_ = 20 /\
  exists encoder earlier first second, pu_mic first = Some 7 /\ pu_mic second = Some 7 /\ 0 = wrap32 (FRAME * Z.of_nat (length (earlier : list Pulled) / 2)) /\
    (voip_encode (VoipEncoder := plain_voip) (pu_samples first ++ pu_samples second) MAX_PACKET encoder).1 = Some [960].
Proof.
  assert (Sent 1 5 (mkOutgoing 7 [960] 0 false 20) ∈ wk_log (worker_run (libm := plain_libm) (apm := plain_apm) (vad := plain_vad) (voip := plain_voip) (resampler := plain_resampler)
    (fun _ => Some tt) plain_decode two_pulls_held plain_start)) as H by (rewrite two_pulls_sent; by left).
  apply (the_mic_is_heard_only_on_its_track (libm := plain_libm) (apm := plain_apm) (vad := plain_vad) (voip := plain_voip) (resampler := plain_resampler) _ _ 0 a_chain by_button by_button two_pulls_held 1 5 _ plain_keeps eq_refl) in H as
    (before & at_ & input & after & E & _ & _ & _ & Hat & earlier & first & second & encoder & _ & _ & H1 & H2 & _ & H3 & H4).
  exists before, at_, input, after. split_and!; [exact E|by rewrite <- Hat|]. by exists encoder, earlier, first, second.
Defined.

Definition a_device : Devices := mkDevices 44100 44100 [] [] 88200.
Lemma plain_fills : fills (resampler := plain_resampler).
Proof. intros input n r. apply length_replicate. Qed.
Lemma what_is_played_is_in_range_witness : Forall (within (f32_of_Z (-1)) f32_one)
  (worker_play (libm := plain_libm) (apm := plain_apm) (resampler := plain_resampler) plain_decode (device_io_new (resampler := plain_resampler) a_device) plain_start).1.1.
Proof.
  pose proof (what_is_played_is_in_range (libm := plain_libm) (apm := plain_apm) (resampler := plain_resampler) plain_decode
    (device_io_new (resampler := plain_resampler) a_device) plain_start eq_refl) as H.
  destruct (worker_play _ _ _) as [[out io] w]. apply H.
Defined.
Lemma playback_stays_just_ahead_witness :
  let io := foldl (fun io op => io_op (libm := plain_libm) (apm := plain_apm) (vad := plain_vad) (voip := plain_voip) (resampler := plain_resampler) plain_decode op io)
    (device_io_new (resampler := plain_resampler) a_device) [IoTurn 0 plain_start; IoDevice [] 100; IoTurn 5 plain_start] in
  Z.of_nat (length (dv_playback (io_devices io))) < 5 * io_out io.
Proof.
  apply (playback_stays_just_ahead (libm := plain_libm) (apm := plain_apm) (vad := plain_vad) (voip := plain_voip) (resampler := plain_resampler) plain_decode a_device _ plain_fills eq_refl); [done..|].
  by repeat apply Forall_cons_2.
Defined.
