(* ===== verification/HubState.v ===== *)
(** * The hub's state and its effects (throcc-server, rooms.rs)

    [Hub] is the record the one lock guards: sessions, rooms, rate limits, the published
    routes and the database.  Handlers are computations of [M E], which thread the hub and
    stop at the first refusal, keeping what was done before it.  What a handler reads from
    the outside (clocks, random bytes, whether a channel takes a message, whether a
    transaction fails) comes from [Env], one reading per tick; what it sends or closes is
    appended to [h_out].  Log lines are not modelled. *)
From S2P Require Import Prelude Float64 Buckets Ids Frame Invite Messages RoomPassword Sfu Crypto Database.
From stdpp Require Import pretty.
Open Scope Z_scope.

(** ** The environment *)

Class Env := {
  (** [Instant::now()], [unix_now()], the outcome of a transaction, [random()], and whether a
      connection's control queue takes a message, at the [n]-th reading. *)
  instant : nat -> Z;
  unix_clock : nat -> Z;
  db_fault : nat -> bool;
  random_bytes : nat -> bytes;
  accepts : nat -> bool;
  (** SHA-256, Ed25519 and Argon2id. *)
  sha256 : bytes -> bytes;
  ed25519_ok : bytes -> bytes -> bytes -> bool;
  argon2_hash : str -> bytes -> option str;
  argon2_verify : str -> str -> bool
}.

(** An environment to evaluate handlers in: a second per reading, no failures, every queue
    open, and stand-ins for the hash, the signatures and Argon2. *)
Definition example_env : Env := {|
  instant := fun n => Z.of_nat n * second;
  unix_clock := fun n => 1700000000 + Z.of_nat n;
  db_fault := fun _ => false;
  random_bytes := fun n => repeat (Z.of_nat n mod 32) 8;
  accepts := fun _ => true;
  sha256 := fun b => take 32 (b ++ repeat 0 32);
  ed25519_ok := fun _ _ _ => true;
  argon2_hash := fun password salt => Some password;
  argon2_verify := fun password hash => bool_decide (password = hash)
|}.

(** ** Constants *)

(* @src/crates/throcc-server/src/rooms.rs 32-32 INVITE_LIFETIME *)
Definition INVITE_LIFETIME : Z := 24 * 60 * 60.
(* @src/crates/throcc-server/src/rooms.rs 33-34 INACTIVE_ACCOUNT_LIFETIME *)
Definition INACTIVE_ACCOUNT_LIFETIME : Z := 365 * 24 * 60 * 60.
(* @src/crates/throcc-server/src/rooms.rs 35-35 PROFILE_INTERVAL *)
Definition PROFILE_INTERVAL : Z := 10 * second.
(* @src/crates/throcc-server/src/rooms.rs 36-36 TRACKS_PER_MEMBERSHIP *)
Definition TRACKS_PER_MEMBERSHIP : Z := 3.
(* @src/crates/throcc-server/src/rooms.rs 37-37 MINT_ATTEMPTS *)
Definition MINT_ATTEMPTS : nat := 64.
(* @src/crates/throcc-server/src/rooms.rs 38-39 MAX_ENCRYPTION_KEY_LIFETIME *)
Definition MAX_ENCRYPTION_KEY_LIFETIME : Z := 31 * 24 * 60 * 60.
(* @src/crates/throcc-server/src/rooms.rs 40-40 MAX_WRAPPED_BYTES *)
Definition MAX_WRAPPED_BYTES : Z := 256.
(* @src/crates/throcc-server/src/rooms.rs 41-41 REQUEST_BURST *)
Definition REQUEST_BURST : f64 := f64_of_Z 100.
(* @src/crates/throcc-server/src/rooms.rs 42-42 REQUESTS_PER_SECOND *)
Definition REQUESTS_PER_SECOND : f64 := f64_of_Z 20.
(* @src/crates/throcc-server/src/rooms.rs 43-45 CHEAP_REQUEST_BURST *)
Definition CHEAP_REQUEST_BURST : f64 := f64_of_Z 1000.
(* @src/crates/throcc-server/src/rooms.rs 46-46 CHEAP_REQUESTS_PER_SECOND *)
Definition CHEAP_REQUESTS_PER_SECOND : f64 := f64_of_Z 500.
(* @src/crates/throcc-server/src/rooms.rs 47-47 UPLOAD_BURST_BYTES *)
Definition UPLOAD_BURST_BYTES : f64 := f64_mul (f64_of_Z 1024) (f64_of_Z 1024).
(* @src/crates/throcc-server/src/rooms.rs 48-49 UPLOAD_BYTES_PER_SECOND *)
Definition UPLOAD_BYTES_PER_SECOND : f64 := f64_div (f64_of_Z MAX_AVATAR_BYTES) (f64_of_Z 10).
(* @src/crates/throcc-server/src/rooms.rs 50-51 MIN_UPLOAD_COST *)
Definition MIN_UPLOAD_COST : Z := 4096.
(* @src/crates/throcc-server/src/rooms.rs 52-53 UNUSED_BLOB_GRACE *)
Definition UNUSED_BLOB_GRACE : Z := 10 * 60.
(* @src/crates/throcc-server/src/rooms.rs 54-54 PASSWORD_BURST *)
Definition PASSWORD_BURST : f64 := f64_of_Z 5.
(** The literal [0.2], correctly rounded like every quotient. *)
(* @src/crates/throcc-server/src/rooms.rs 55-56 PASSWORDS_PER_SECOND *)
Definition PASSWORDS_PER_SECOND : f64 := f64_div (f64_of_Z 1) (f64_of_Z 5).
(* @src/crates/throcc-server/src/rooms.rs 57-59 ROOM_CHANGE_BURST *)
Definition ROOM_CHANGE_BURST : f64 := f64_of_Z 5.
(* @src/crates/throcc-server/src/rooms.rs 60-60 ROOM_CHANGES_PER_SECOND *)
Definition ROOM_CHANGES_PER_SECOND : f64 := f64_div (f64_of_Z 1) (f64_of_Z 2).
(* @src/crates/throcc-server/src/rooms.rs 61-64 REJOIN_BURST *)
Definition REJOIN_BURST : f64 := f64_of_Z 10.
(* @src/crates/throcc-server/src/rooms.rs 65-65 REJOINS_PER_SECOND *)
Definition REJOINS_PER_SECOND : f64 := f64_div (f64_of_Z 1) (f64_of_Z 10).
(* @src/crates/throcc-server/src/rooms.rs 66-67 ENCRYPTION_KEY_CHANGE_BURST *)
Definition ENCRYPTION_KEY_CHANGE_BURST : f64 := f64_of_Z 3.
(* @src/crates/throcc-server/src/rooms.rs 68-68 ENCRYPTION_KEY_CHANGES_PER_SECOND *)
Definition ENCRYPTION_KEY_CHANGES_PER_SECOND : f64 := f64_div (f64_of_Z 1) (f64_of_Z 60).
(* @src/crates/throcc-server/src/rooms.rs 69-70 SHARE_CHANGE_BURST *)
Definition SHARE_CHANGE_BURST : f64 := f64_of_Z 5.
(* @src/crates/throcc-server/src/rooms.rs 71-71 SHARE_CHANGES_PER_SECOND *)
Definition SHARE_CHANGES_PER_SECOND : f64 := f64_of_Z 1.
(* @src/crates/throcc-server/src/rooms.rs 72-75 FREE_KEY_PUBLISHES *)
Definition FREE_KEY_PUBLISHES : Z := 2.

(** ** Refusals, messages and connections *)

(* @src/crates/throcc-server/src/rooms.rs 77-77 Refusal *)
Inductive Refusal := Refuse (code : ErrorCode) (message : str).

(* @src/crates/throcc-server/src/rooms.rs 84-87 Refusal::internal *)
Definition internal : Refusal := Refuse Internal (lit "internal server error").

(* @src/crates/throcc-server/src/rooms.rs 91-93 Response::from *)
Definition refusal_response (r : Refusal) : Response :=
  match r with Refuse code message => RespErr code message end.

(* @src/crates/throcc-server/src/rooms.rs 106-121 PasswordWork *)
Inductive PasswordWork :=
  | WorkJoin (room : RoomId) (password hash : str)
  | WorkCreateRoom (name password : str)
  | WorkSetRoomPassword (room : RoomId) (password : str).

(** [None] for a hash is an error of Argon2. *)
(* @src/crates/throcc-server/src/rooms.rs 147-163 PasswordDone *)
Inductive PasswordDone :=
  | DoneJoin (room : RoomId) (hash : str) (matched : bool)
  | DoneCreateRoom (name : str) (hash : option str)
  | DoneSetRoomPassword (room : RoomId) (hash : option str).

(* @src/crates/throcc-server/src/rooms.rs 124-144 PasswordWork::run *)
Definition run_work `{!Env} (salt : bytes) (w : PasswordWork) : PasswordDone :=
  match w with
  | WorkJoin room password hash => DoneJoin room hash (matches argon2_verify password hash)
  | WorkCreateRoom name password => DoneCreateRoom name (RoomPassword.hash argon2_hash salt password)
  | WorkSetRoomPassword room password => DoneSetRoomPassword room (RoomPassword.hash argon2_hash salt password)
  end.

(* @src/crates/throcc-server/src/rooms.rs 98-104 Handled *)
Inductive Handled := Done (r : Response) | Pending (w : PasswordWork).

(* @src/crates/throcc-server/src/rooms.rs 165-175 Outbound *)
Inductive Outbound :=
  | OutMessage (m : ServerMessage)
  | OutBudgeted (m : ServerMessage) (permits : Z)
  | OutKick (reason : str) (code : Z).

(** The channel, connection and egress of one live connection. *)
(* @src/crates/throcc-server/src/rooms.rs 177-182 ConnectionHandle *)
Abbreviation handle := Z (only parsing).

(** What the hub does to a connection. *)
Inductive effect :=
  (** The control queue took it. *)
  | Queued (to : handle) (o : Outbound)
  (** Closed now, or in a spawned task after [LINGER]. *)
  | Close (conn : handle) (code : Z) (reason : str)
  | CloseLater (conn : handle) (code : Z) (reason : str).

(** ** Sessions and rooms *)

(* @src/crates/throcc-server/src/rooms.rs 203-217 Session *)
Record Session := mkSession {
  s_conn_id : Z;
  s_handle : handle;
  s_row : UserRow;
  s_room : option RoomId;
  s_tracks : option Tracks;
  s_media : MediaState;
  s_watching : list MediaId;
  s_last_profile : option Z;
  s_key_publishes : option (RoomId * Epoch * Z);
  s_audience_seq : Z
}.

(* @src/crates/throcc-server/src/rooms.rs 219-224 RoomEntry *)
Record RoomEntry := mkRoomEntry {
  e_name : str;
  e_epoch : Epoch;
  e_password_hash : option str;
  e_members : gset Z
}.

Definition with_row (row : UserRow) (s : Session) : Session :=
  mkSession (s_conn_id s) (s_handle s) row (s_room s) (s_tracks s) (s_media s) (s_watching s)
    (s_last_profile s) (s_key_publishes s) (s_audience_seq s).
Definition with_room (room : option RoomId) (s : Session) : Session :=
  mkSession (s_conn_id s) (s_handle s) (s_row s) room (s_tracks s) (s_media s) (s_watching s)
    (s_last_profile s) (s_key_publishes s) (s_audience_seq s).
Definition with_tracks (tracks : option Tracks) (s : Session) : Session :=
  mkSession (s_conn_id s) (s_handle s) (s_row s) (s_room s) tracks (s_media s) (s_watching s)
    (s_last_profile s) (s_key_publishes s) (s_audience_seq s).
Definition with_media (media : MediaState) (s : Session) : Session :=
  mkSession (s_conn_id s) (s_handle s) (s_row s) (s_room s) (s_tracks s) media (s_watching s)
    (s_last_profile s) (s_key_publishes s) (s_audience_seq s).
Definition with_watching (watching : list MediaId) (s : Session) : Session :=
  mkSession (s_conn_id s) (s_handle s) (s_row s) (s_room s) (s_tracks s) (s_media s) watching
    (s_last_profile s) (s_key_publishes s) (s_audience_seq s).
Definition with_last_profile (t : option Z) (s : Session) : Session :=
  mkSession (s_conn_id s) (s_handle s) (s_row s) (s_room s) (s_tracks s) (s_media s) (s_watching s)
    t (s_key_publishes s) (s_audience_seq s).
Definition with_key_publishes (k : option (RoomId * Epoch * Z)) (s : Session) : Session :=
  mkSession (s_conn_id s) (s_handle s) (s_row s) (s_room s) (s_tracks s) (s_media s) (s_watching s)
    (s_last_profile s) k (s_audience_seq s).
Definition with_audience_seq (n : Z) (s : Session) : Session :=
  mkSession (s_conn_id s) (s_handle s) (s_row s) (s_room s) (s_tracks s) (s_media s) (s_watching s)
    (s_last_profile s) (s_key_publishes s) n.

Definition row_with_role (role : Role) (r : UserRow) : UserRow :=
  mkUserRow (ur_id r) (ur_pubkey r) (ur_encryption_key r) (ur_name r) (ur_avatar r) role (ur_invited_by r) (ur_created_at r).
Definition row_with_profile (name : str) (avatar : option Hash) (r : UserRow) : UserRow :=
  mkUserRow (ur_id r) (ur_pubkey r) (ur_encryption_key r) name avatar (ur_role r) (ur_invited_by r) (ur_created_at r).
Definition row_with_key (k : SignedEncryptionKey) (r : UserRow) : UserRow :=
  mkUserRow (ur_id r) (ur_pubkey r) (Some k) (ur_name r) (ur_avatar r) (ur_role r) (ur_invited_by r) (ur_created_at r).

Definition with_name (name : str) (e : RoomEntry) : RoomEntry :=
  mkRoomEntry name (e_epoch e) (e_password_hash e) (e_members e).
Definition with_epoch (epoch : Epoch) (e : RoomEntry) : RoomEntry :=
  mkRoomEntry (e_name e) epoch (e_password_hash e) (e_members e).
Definition with_password_hash (hash : option str) (e : RoomEntry) : RoomEntry :=
  mkRoomEntry (e_name e) (e_epoch e) hash (e_members e).
Definition with_members (f : gset Z -> gset Z) (e : RoomEntry) : RoomEntry :=
  mkRoomEntry (e_name e) (e_epoch e) (e_password_hash e) (f (e_members e)).

(** ** The hub *)

(** [h_table] is what [sfu.table] holds. *)
(* @src/crates/throcc-server/src/rooms.rs 226-250 Hub *)
Record Hub := mkHub {
  h_db : Database;
  h_fingerprint : bytes;
  h_table : gmap Z (Route handle);
  h_keyframes : KeyframeAggregator;
  h_sessions : gmap Z Session;
  h_rooms : gmap Z RoomEntry;
  h_next_conn : Z;
  h_requests : Buckets f64 Z;
  h_cheap_requests : Buckets f64 Z;
  h_uploads : Buckets f64 Z;
  h_password_tries : Buckets f64 Z;
  h_guesses : Guesses f64;
  h_room_changes : Buckets f64 Z;
  h_rejoins : Buckets f64 Z;
  h_encryption_key_changes : Buckets f64 Z;
  h_share_changes : Buckets f64 Z;
  h_last_joined : gmap Z RoomId;
  h_audiences : gmap Z (list Audience);
  h_invite_runs : gmap (list Z) Z;
  h_tick : nat;
  h_out : list effect
}.

Definition upd_db (f : Database -> Database) (h : Hub) : Hub :=
  mkHub (f (h_db h)) (h_fingerprint h) (h_table h) (h_keyframes h) (h_sessions h) (h_rooms h)
    (h_next_conn h) (h_requests h) (h_cheap_requests h) (h_uploads h) (h_password_tries h)
    (h_guesses h) (h_room_changes h) (h_rejoins h) (h_encryption_key_changes h) (h_share_changes h)
    (h_last_joined h) (h_audiences h) (h_invite_runs h) (h_tick h) (h_out h).
Definition upd_fingerprint (f : bytes -> bytes) (h : Hub) : Hub :=
  mkHub (h_db h) (f (h_fingerprint h)) (h_table h) (h_keyframes h) (h_sessions h) (h_rooms h)
    (h_next_conn h) (h_requests h) (h_cheap_requests h) (h_uploads h) (h_password_tries h)
    (h_guesses h) (h_room_changes h) (h_rejoins h) (h_encryption_key_changes h) (h_share_changes h)
    (h_last_joined h) (h_audiences h) (h_invite_runs h) (h_tick h) (h_out h).
Definition upd_table (f : gmap Z (Route handle) -> gmap Z (Route handle)) (h : Hub) : Hub :=
  mkHub (h_db h) (h_fingerprint h) (f (h_table h)) (h_keyframes h) (h_sessions h) (h_rooms h)
    (h_next_conn h) (h_requests h) (h_cheap_requests h) (h_uploads h) (h_password_tries h)
    (h_guesses h) (h_room_changes h) (h_rejoins h) (h_encryption_key_changes h) (h_share_changes h)
    (h_last_joined h) (h_audiences h) (h_invite_runs h) (h_tick h) (h_out h).
Definition upd_keyframes (f : KeyframeAggregator -> KeyframeAggregator) (h : Hub) : Hub :=
  mkHub (h_db h) (h_fingerprint h) (h_table h) (f (h_keyframes h)) (h_sessions h) (h_rooms h)
    (h_next_conn h) (h_requests h) (h_cheap_requests h) (h_uploads h) (h_password_tries h)
    (h_guesses h) (h_room_changes h) (h_rejoins h) (h_encryption_key_changes h) (h_share_changes h)
    (h_last_joined h) (h_audiences h) (h_invite_runs h) (h_tick h) (h_out h).
Definition upd_sessions (f : gmap Z Session -> gmap Z Session) (h : Hub) : Hub :=
  mkHub (h_db h) (h_fingerprint h) (h_table h) (h_keyframes h) (f (h_sessions h)) (h_rooms h)
    (h_next_conn h) (h_requests h) (h_cheap_requests h) (h_uploads h) (h_password_tries h)
    (h_guesses h) (h_room_changes h) (h_rejoins h) (h_encryption_key_changes h) (h_share_changes h)
    (h_last_joined h) (h_audiences h) (h_invite_runs h) (h_tick h) (h_out h).
Definition upd_rooms (f : gmap Z RoomEntry -> gmap Z RoomEntry) (h : Hub) : Hub :=
  mkHub (h_db h) (h_fingerprint h) (h_table h) (h_keyframes h) (h_sessions h) (f (h_rooms h))
    (h_next_conn h) (h_requests h) (h_cheap_requests h) (h_uploads h) (h_password_tries h)
    (h_guesses h) (h_room_changes h) (h_rejoins h) (h_encryption_key_changes h) (h_share_changes h)
    (h_last_joined h) (h_audiences h) (h_invite_runs h) (h_tick h) (h_out h).
Definition upd_next_conn (f : Z -> Z) (h : Hub) : Hub :=
  mkHub (h_db h) (h_fingerprint h) (h_table h) (h_keyframes h) (h_sessions h) (h_rooms h) (f
    (h_next_conn h)) (h_requests h) (h_cheap_requests h) (h_uploads h) (h_password_tries h)
    (h_guesses h) (h_room_changes h) (h_rejoins h) (h_encryption_key_changes h) (h_share_changes h)
    (h_last_joined h) (h_audiences h) (h_invite_runs h) (h_tick h) (h_out h).
Definition upd_requests (f : Buckets f64 Z -> Buckets f64 Z) (h : Hub) : Hub :=
  mkHub (h_db h) (h_fingerprint h) (h_table h) (h_keyframes h) (h_sessions h) (h_rooms h)
    (h_next_conn h) (f (h_requests h)) (h_cheap_requests h) (h_uploads h) (h_password_tries h)
    (h_guesses h) (h_room_changes h) (h_rejoins h) (h_encryption_key_changes h) (h_share_changes h)
    (h_last_joined h) (h_audiences h) (h_invite_runs h) (h_tick h) (h_out h).
Definition upd_cheap_requests (f : Buckets f64 Z -> Buckets f64 Z) (h : Hub) : Hub :=
  mkHub (h_db h) (h_fingerprint h) (h_table h) (h_keyframes h) (h_sessions h) (h_rooms h)
    (h_next_conn h) (h_requests h) (f (h_cheap_requests h)) (h_uploads h) (h_password_tries h)
    (h_guesses h) (h_room_changes h) (h_rejoins h) (h_encryption_key_changes h) (h_share_changes h)
    (h_last_joined h) (h_audiences h) (h_invite_runs h) (h_tick h) (h_out h).
Definition upd_uploads (f : Buckets f64 Z -> Buckets f64 Z) (h : Hub) : Hub :=
  mkHub (h_db h) (h_fingerprint h) (h_table h) (h_keyframes h) (h_sessions h) (h_rooms h)
    (h_next_conn h) (h_requests h) (h_cheap_requests h) (f (h_uploads h)) (h_password_tries h)
    (h_guesses h) (h_room_changes h) (h_rejoins h) (h_encryption_key_changes h) (h_share_changes h)
    (h_last_joined h) (h_audiences h) (h_invite_runs h) (h_tick h) (h_out h).
Definition upd_password_tries (f : Buckets f64 Z -> Buckets f64 Z) (h : Hub) : Hub :=
  mkHub (h_db h) (h_fingerprint h) (h_table h) (h_keyframes h) (h_sessions h) (h_rooms h)
    (h_next_conn h) (h_requests h) (h_cheap_requests h) (h_uploads h) (f (h_password_tries h))
    (h_guesses h) (h_room_changes h) (h_rejoins h) (h_encryption_key_changes h) (h_share_changes h)
    (h_last_joined h) (h_audiences h) (h_invite_runs h) (h_tick h) (h_out h).
Definition upd_guesses (f : Guesses f64 -> Guesses f64) (h : Hub) : Hub :=
  mkHub (h_db h) (h_fingerprint h) (h_table h) (h_keyframes h) (h_sessions h) (h_rooms h)
    (h_next_conn h) (h_requests h) (h_cheap_requests h) (h_uploads h) (h_password_tries h) (f
    (h_guesses h)) (h_room_changes h) (h_rejoins h) (h_encryption_key_changes h) (h_share_changes h)
    (h_last_joined h) (h_audiences h) (h_invite_runs h) (h_tick h) (h_out h).
Definition upd_room_changes (f : Buckets f64 Z -> Buckets f64 Z) (h : Hub) : Hub :=
  mkHub (h_db h) (h_fingerprint h) (h_table h) (h_keyframes h) (h_sessions h) (h_rooms h)
    (h_next_conn h) (h_requests h) (h_cheap_requests h) (h_uploads h) (h_password_tries h)
    (h_guesses h) (f (h_room_changes h)) (h_rejoins h) (h_encryption_key_changes h) (h_share_changes
    h) (h_last_joined h) (h_audiences h) (h_invite_runs h) (h_tick h) (h_out h).
Definition upd_rejoins (f : Buckets f64 Z -> Buckets f64 Z) (h : Hub) : Hub :=
  mkHub (h_db h) (h_fingerprint h) (h_table h) (h_keyframes h) (h_sessions h) (h_rooms h)
    (h_next_conn h) (h_requests h) (h_cheap_requests h) (h_uploads h) (h_password_tries h)
    (h_guesses h) (h_room_changes h) (f (h_rejoins h)) (h_encryption_key_changes h) (h_share_changes
    h) (h_last_joined h) (h_audiences h) (h_invite_runs h) (h_tick h) (h_out h).
Definition upd_encryption_key_changes (f : Buckets f64 Z -> Buckets f64 Z) (h : Hub) : Hub :=
  mkHub (h_db h) (h_fingerprint h) (h_table h) (h_keyframes h) (h_sessions h) (h_rooms h)
    (h_next_conn h) (h_requests h) (h_cheap_requests h) (h_uploads h) (h_password_tries h)
    (h_guesses h) (h_room_changes h) (h_rejoins h) (f (h_encryption_key_changes h)) (h_share_changes
    h) (h_last_joined h) (h_audiences h) (h_invite_runs h) (h_tick h) (h_out h).
Definition upd_share_changes (f : Buckets f64 Z -> Buckets f64 Z) (h : Hub) : Hub :=
  mkHub (h_db h) (h_fingerprint h) (h_table h) (h_keyframes h) (h_sessions h) (h_rooms h)
    (h_next_conn h) (h_requests h) (h_cheap_requests h) (h_uploads h) (h_password_tries h)
    (h_guesses h) (h_room_changes h) (h_rejoins h) (h_encryption_key_changes h) (f (h_share_changes
    h)) (h_last_joined h) (h_audiences h) (h_invite_runs h) (h_tick h) (h_out h).
Definition upd_last_joined (f : gmap Z RoomId -> gmap Z RoomId) (h : Hub) : Hub :=
  mkHub (h_db h) (h_fingerprint h) (h_table h) (h_keyframes h) (h_sessions h) (h_rooms h)
    (h_next_conn h) (h_requests h) (h_cheap_requests h) (h_uploads h) (h_password_tries h)
    (h_guesses h) (h_room_changes h) (h_rejoins h) (h_encryption_key_changes h) (h_share_changes h)
    (f (h_last_joined h)) (h_audiences h) (h_invite_runs h) (h_tick h) (h_out h).
Definition upd_audiences (f : gmap Z (list Audience) -> gmap Z (list Audience)) (h : Hub) : Hub :=
  mkHub (h_db h) (h_fingerprint h) (h_table h) (h_keyframes h) (h_sessions h) (h_rooms h)
    (h_next_conn h) (h_requests h) (h_cheap_requests h) (h_uploads h) (h_password_tries h)
    (h_guesses h) (h_room_changes h) (h_rejoins h) (h_encryption_key_changes h) (h_share_changes h)
    (h_last_joined h) (f (h_audiences h)) (h_invite_runs h) (h_tick h) (h_out h).
Definition upd_invite_runs (f : gmap (list Z) Z -> gmap (list Z) Z) (h : Hub) : Hub :=
  mkHub (h_db h) (h_fingerprint h) (h_table h) (h_keyframes h) (h_sessions h) (h_rooms h)
    (h_next_conn h) (h_requests h) (h_cheap_requests h) (h_uploads h) (h_password_tries h)
    (h_guesses h) (h_room_changes h) (h_rejoins h) (h_encryption_key_changes h) (h_share_changes h)
    (h_last_joined h) (h_audiences h) (f (h_invite_runs h)) (h_tick h) (h_out h).
Definition upd_tick (f : nat -> nat) (h : Hub) : Hub :=
  mkHub (h_db h) (h_fingerprint h) (h_table h) (h_keyframes h) (h_sessions h) (h_rooms h)
    (h_next_conn h) (h_requests h) (h_cheap_requests h) (h_uploads h) (h_password_tries h)
    (h_guesses h) (h_room_changes h) (h_rejoins h) (h_encryption_key_changes h) (h_share_changes h)
    (h_last_joined h) (h_audiences h) (h_invite_runs h) (f (h_tick h)) (h_out h).
Definition upd_out (f : list effect -> list effect) (h : Hub) : Hub :=
  mkHub (h_db h) (h_fingerprint h) (h_table h) (h_keyframes h) (h_sessions h) (h_rooms h)
    (h_next_conn h) (h_requests h) (h_cheap_requests h) (h_uploads h) (h_password_tries h)
    (h_guesses h) (h_room_changes h) (h_rejoins h) (h_encryption_key_changes h) (h_share_changes h)
    (h_last_joined h) (h_audiences h) (h_invite_runs h) (h_tick h) (f (h_out h)).

(** ** Computations on the hub *)

Definition M (E A : Type) : Type := Hub -> (A + E) * Hub.

#[export] Instance M_ret {E} : MRet (M E) := fun A a h => (inl a, h).
#[export] Instance M_bind {E} : MBind (M E) := fun A B k m h =>
  match m h with (inl a, h) => k a h | (inr e, h) => (inr e, h) end.

Definition throw {E A} (e : E) : M E A := fun h => (inr e, h).
Definition gets {E A} (f : Hub -> A) : M E A := fun h => (inl (f h), h).
Definition modify {E} (f : Hub -> Hub) : M E unit := fun h => (inl (), f h).
Definition when {E} (b : bool) (m : M E unit) : M E unit := if b then m else mret ().
Definition ok_or {E A} (o : option A) (e : E) : M E A :=
  match o with Some a => mret a | None => throw e end.
Definition map_err {E E' A} (f : E -> E') (m : M E A) : M E' A := fun h =>
  match m h with (inl a, h) => (inl a, h) | (inr e, h) => (inr (f e), h) end.
(** The result as a value. *)
Definition attempt {E E' A} (m : M E A) : M E' (A + E) := fun h => let '(r, h) := m h in (inl r, h).

Fixpoint for_ {E A} (l : list A) (f : A -> M E unit) : M E unit :=
  match l with [] => mret () | a :: l => _ ← f a; for_ l f end.

(** [iter().map(..).collect::<Result<Vec<_>, _>>()]. *)
Fixpoint mapM_ {E A B} (l : list A) (f : A -> M E B) : M E (list B) :=
  match l with [] => mret [] | a :: l => b ← f a; bs ← mapM_ l f; mret (b :: bs) end.

Section Effects.
Context `{!Env}.

Definition next_tick (h : Hub) : Hub := upd_tick S h.

Definition now {E} : M E Z := fun h => (inl (instant (h_tick h)), next_tick h).
Definition unix_now {E} : M E Z := fun h => (inl (unix_clock (h_tick h)), next_tick h).
Definition random {E} : M E bytes := fun h => (inl (random_bytes (h_tick h)), next_tick h).

(** A database method; its error as [anyhow] has it, and as a refusal. *)
Definition db_call {A} (m : DbM A) : M DbError A := fun h =>
  let '(r, d, n) := m (h_db h) (h_tick h) in (r, upd_tick (fun _ => n) (upd_db (fun _ => d) h)).
Definition db {A} (m : DbM A) : M Refusal A := map_err (fun _ => internal) (db_call m).

(** [bucket.take(user, cost, now)] and [holds] on one of the hub's allowances. *)
Definition meter_take {E} (get : Hub -> Buckets f64 Z) (upd : (Buckets f64 Z -> Buckets f64 Z) -> Hub -> Hub)
    (user : UserId) (cost : f64) (at_ : Z) : M E bool := fun h =>
  let '(ok, b) := buckets_take (get h) user cost at_ in (inl ok, upd (fun _ => b) h).
Definition meter_holds {E} (get : Hub -> Buckets f64 Z) (upd : (Buckets f64 Z -> Buckets f64 Z) -> Hub -> Hub)
    (user : UserId) (cost : f64) (at_ : Z) : M E bool := fun h =>
  let '(ok, b) := buckets_holds (get h) user cost at_ in (inl ok, upd (fun _ => b) h).

Definition one : f64 := f64_of_Z 1.

(** ** Reaching connections *)

Definition output {E} (e : effect) : M E unit := modify (upd_out (fun out => out ++ [e])).

(** [try_send]: whether the queue took it. *)
Definition try_send {E} (to : handle) (o : Outbound) : M E bool := fun h =>
  if accepts (h_tick h)
  then (inl true, upd_out (fun out => out ++ [Queued to o]) (next_tick h))
  else (inl false, next_tick h).

(* @src/crates/throcc-server/src/rooms.rs 185-200 ConnectionHandle::kick *)
Definition kick {E} (conn : handle) (reason : str) (code : Z) : M E unit :=
  sent ← try_send conn (OutKick reason code);
  if negb sent then output (Close conn code reason) else output (CloseLater conn code reason).

(* @src/crates/throcc-server/src/rooms.rs 1648-1657 send *)
Definition send {E} (s : Session) (event : Event) : M E unit :=
  sent ← try_send (s_handle s) (OutMessage (SmEvent event));
  when (negb sent) (output (Close (s_handle s) close.PROTOCOL_ERROR (lit "control queue full"))).

(** [sessions.values()]; a [HashMap] has no order of its own. *)
Definition session_values (h : Hub) : list Session := (map_to_list (h_sessions h)).*2.

(** The members of a [BTreeSet], in order. *)
Definition in_order (s : gset Z) : list Z := merge_sort Z.le (elements s).

(** [members.iter().filter_map(|m| self.sessions.get(m))]. *)
Definition member_sessions (sessions : gmap Z Session) (e : RoomEntry) : list Session :=
  omap (fun m => sessions !! m) (in_order (e_members e)).

(* @src/crates/throcc-server/src/rooms.rs 523-527 Hub::emit_to *)
Definition emit_to {E} (user : UserId) (event : Event) : M E unit :=
  s ← gets (fun h => h_sessions h !! user);
  match s with Some s => send s event | None => mret () end.

(* @src/crates/throcc-server/src/rooms.rs 529-535 Hub::emit_user_list_change *)
Definition emit_user_list_change {E} (event : Event) : M E unit :=
  l ← gets session_values;
  for_ (filter (fun s => can_list_users (ur_role (s_row s)) = true) l) (fun s => send s event).

(* @src/crates/throcc-server/src/rooms.rs 537-541 Hub::emit_all *)
Definition emit_all {E} (event : Event) : M E unit :=
  l ← gets session_values; for_ l (fun s => send s event).

(* @src/crates/throcc-server/src/rooms.rs 543-550 Hub::emit_room *)
Definition emit_room {E} (room : RoomId) (event : Event) (except : option UserId) : M E unit :=
  entry ← gets (fun h => h_rooms h !! room);
  match entry with
  | None => mret ()
  | Some entry => for_ (filter (fun m => Some m <> except) (in_order (e_members entry))) (fun m => emit_to m event)
  end.

(** ** Lookups *)

Definition no_session : Refusal := Refuse Internal (lit "no session").
Definition forbidden (message : str) : Refusal := Refuse Forbidden message.
(* @src/crates/throcc-server/src/rooms.rs 1615-1617 no_such_room *)
Definition no_such_room : Refusal := Refuse NotFound (lit "no such room").
(* @src/crates/throcc-server/src/rooms.rs 1608-1613 room_full *)
Definition room_full : Refusal :=
  Refuse Full (lit "this room is full; it holds " ++ lit (pretty MAX_ROOM_MEMBERS) ++ lit " people").
(* @src/crates/throcc-server/src/rooms.rs 1601-1606 changing_rooms_too_fast *)
Definition changing_rooms_too_fast : Refusal :=
  Refuse RateLimited (lit "you are changing rooms too fast; wait a moment").

(* @src/crates/throcc-server/src/rooms.rs 1593-1599 require *)
Definition require (allowed : bool) : M Refusal unit :=
  if allowed then mret () else throw (forbidden (lit "you can't do that")).

(* @src/crates/throcc-server/src/rooms.rs 552-556 Hub::session *)
Definition session (user : UserId) : M Refusal Session :=
  s ← gets (fun h => h_sessions h !! user); ok_or s no_session.

(* @src/crates/throcc-server/src/rooms.rs 558-562 Hub::session_mut *)
Definition session_mut (user : UserId) (f : Session -> Session) : M Refusal unit :=
  _ ← session user; modify (upd_sessions (alter f user)).

(* @src/crates/throcc-server/src/rooms.rs 564-566 Hub::role *)
Definition role (user : UserId) : M Refusal Role := s ← session user; mret (ur_role (s_row s)).

(* @src/crates/throcc-server/src/rooms.rs 568-572 Hub::current_room *)
Definition current_room (user : UserId) : M Refusal RoomId :=
  s ← session user; ok_or (s_room s) (Refuse Invalid (lit "join a room first")).

(* @src/crates/throcc-server/src/rooms.rs 574-576 Hub::room_entry *)
Definition room_entry (room : RoomId) : M Refusal RoomEntry :=
  e ← gets (fun h => h_rooms h !! room); ok_or e no_such_room.

(* @src/crates/throcc-server/src/rooms.rs 578-583 Hub::stored_user *)
Definition stored_user (user : UserId) : M Refusal UserRow :=
  row ← db (Database.user db_fault user); ok_or row (Refuse NotFound (lit "no such user")).

(* @src/crates/throcc-server/src/rooms.rs 585-593 Hub::require_picture *)
Definition require_picture (avatar : option Hash) : M Refusal unit :=
  match avatar with
  | Some hash =>
      has ← db (has_blob db_fault hash);
      if negb has then throw (Refuse NotFound (lit "no such picture")) else mret ()
  | None => mret ()
  end.

(* @src/crates/throcc-server/src/rooms.rs 386-389 Hub::conn_id *)
Definition conn_id (h : Hub) (user : UserId) : option Z := s_conn_id <$> h_sessions h !! user.

(* @src/crates/throcc-server/src/rooms.rs 391-395 Hub::is_current *)
Definition is_current (h : Hub) (user : UserId) (conn : Z) : bool :=
  match h_sessions h !! user with Some s => s_conn_id s =? conn | None => false end.

(* @src/crates/throcc-server/src/rooms.rs 397-406 Hub::require_current *)
Definition require_current (user : UserId) (conn : Z) : M Refusal unit :=
  current ← gets (fun h => is_current h user conn);
  if current : bool then mret () else throw (forbidden (lit "this connection was replaced")).

(* @src/crates/throcc-server/src/rooms.rs 1114-1117 Hub::is_full *)
Definition is_full (h : Hub) : bool := MAX_ONLINE <=? Z.of_nat (size (h_sessions h)).

(* @src/crates/throcc-server/src/rooms.rs 1704-1711 checked_name *)
Definition checked_name (name : str) : M Refusal str :=
  ok_or (valid_name name)
    (Refuse Invalid (lit "names are 1 to " ++ lit (pretty MAX_NAME_CHARS) ++ lit " characters, with nothing hidden or reversed")).

(* @src/crates/throcc-server/src/rooms.rs 1713-1722 check_password_length *)
Definition check_password_length (password : str) : M Refusal unit :=
  if valid_password password then mret ()
  else throw (Refuse Invalid (lit "passwords are 1 to " ++ lit (pretty MAX_PASSWORD_CHARS) ++ lit " characters")).

(** ** What others see of a session *)

(* @src/crates/throcc-server/src/rooms.rs 1671-1682 presence *)
Definition presence (s : Session) : option Presence :=
  room ← s_room s;
  Some {| pr_user := ur_id (s_row s); pr_name := ur_name (s_row s); pr_avatar := ur_avatar (s_row s);
          pr_room := Some room; pr_mic := ms_mic (s_media s); pr_deafened := ms_deafened (s_media s);
          pr_sharing := bool_decide (is_Some (ms_share (s_media s))); pr_role := ur_role (s_row s) |}.

(* @src/crates/throcc-server/src/rooms.rs 1684-1692 peer *)
Definition peer (s : Session) : option Peer :=
  tracks ← s_tracks s;
  key ← ur_encryption_key (s_row s);
  Some {| pe_user := ur_id (s_row s); pe_tracks := tracks; pe_share := ms_share (s_media s);
          pe_identity_key := ur_pubkey (s_row s); pe_encryption_key := key |}.

(* @src/crates/throcc-server/src/rooms.rs 1694-1702 lobby *)
Definition lobby : Placement :=
  {| pl_room := None; pl_epoch := 0; pl_tracks := None; pl_peers := []; pl_audiences := Audiences_default |}.

(* @src/crates/throcc-server/src/rooms.rs 595-599 Hub::announce_presence *)
Definition announce_presence {E} (user : UserId) : M E unit :=
  p ← gets (fun h => h_sessions h !! user ≫= presence);
  match p with Some p => emit_all (PresenceChanged p) | None => mret () end.

(* @src/crates/throcc-server/src/rooms.rs 601-610 Hub::room_list *)
Definition room_list (h : Hub) : list Room :=
  omap (fun id => (fun e => {| rm_id := id; rm_name := e_name e; rm_locked := bool_decide (is_Some (e_password_hash e)) |})
                  <$> h_rooms h !! id) (ids (h_rooms h)).

(* @src/crates/throcc-server/src/rooms.rs 612-622 Hub::peers *)
Definition peers (h : Hub) (room : RoomId) : list Peer :=
  match h_rooms h !! room with
  | None => []
  | Some entry => omap peer (member_sessions (h_sessions h) entry)
  end.

(* @src/crates/throcc-server/src/rooms.rs 644-654 Hub::broadcast_peers *)
Definition broadcast_peers {E} (room : RoomId) (except : option UserId) : M E unit :=
  entry ← gets (fun h => h_rooms h !! room);
  match entry with
  | None => mret ()
  | Some entry =>
      ps ← gets (fun h => peers h room);
      emit_room room (PeersChanged room (e_epoch entry) ps) except
  end.

(** The owner and kind of a share track. *)
(* @src/crates/throcc-server/src/rooms.rs 1489-1505 Hub::share_track *)
Definition share_track (h : Hub) (media_id : MediaId) : option (UserId * TrackKind) :=
  head (omap (fun s =>
    tracks ← s_tracks s;
    share ← head (filter (fun sh => st_video sh = media_id \/ st_audio sh = media_id) (tr_shares tracks));
    Some (ur_id (s_row s), if decide (st_video share = media_id) then VideoTrack else AudioTrack))
    (session_values h)).

(* @src/crates/throcc-server/src/rooms.rs 1119-1129 Hub::shares_in *)
Definition shares_in (h : Hub) (room : RoomId) : Z :=
  match h_rooms h !! room with
  | None => 0
  | Some entry =>
      Z.of_nat (length (filter (fun s => is_Some (ms_share (s_media s))) (member_sessions (h_sessions h) entry)))
  end.

End Effects.
