(* ===== verification/Keystore.v ===== *)
(** * The install's keys (throcc-client-core, keystore.rs)

    Opening the keystore reads and writes the OS keychain and three files: the identity kept
    without a keychain, the encryption key and the pinned servers.  Every write may be the
    last thing the process does, whether it was refused or interrupted: [writes] counts those
    that still succeed, and the next one stops the run.  A file is replaced in one step, so a
    write either happened or did not.  The keychain may be locked, which reads as empty; what
    the two reads see is in [Opening].  An identity key is its seed, an encryption key its
    secret. *)
From S2P Require Import Prelude Ids Messages Crypto JsonFile Servers HubState.
Open Scope Z_scope.

(* @src/crates/throcc-client-core/src/keystore.rs 22-22 ENCRYPTION_KEY_LIFETIME *)
Definition ENCRYPTION_KEY_LIFETIME : Z := 30 * 24 * 60 * 60.
(* @src/crates/throcc-client-core/src/keystore.rs 23-24 ENCRYPTION_KEY_RENEW_BEFORE *)
Definition ENCRYPTION_KEY_RENEW_BEFORE : Z := 7 * 24 * 60 * 60.
(* @src/crates/throcc-client-core/src/keystore.rs 25-27 ENCRYPTION_KEY_CLOCK_SKEW *)
Definition ENCRYPTION_KEY_CLOCK_SKEW : Z := 24 * 60 * 60.

(** What outlives the process: the keychain's seed, the identity file, the encryption key
    file and the servers file, which may be unreadable. *)
Record Kept := mkKept { kp_keychain : option bytes; kp_identity : option bytes; kp_encryption : option bytes; kp_servers : option Servers }.
(** What an opening meets: the time, the keys it would generate, whether this platform has a
    keychain, and whether each of its reads sees what the keychain holds ([None]: it fails). *)
Record Opening := mkOpening { op_now : Z; op_seed : bytes; op_secret : bytes; op_keychain : bool; op_first : option bool; op_second : option bool }.

(* @src/crates/throcc-client-core/src/keystore.rs 38-38 IdentityMissing *)
Inductive KeystoreError := IdentityMissing | NoDefaultStore | KeychainUnreachable | CorruptIdentity | CorruptEncryptionKey | BadServers | Stopped.
#[export] Instance KeystoreError_eq_dec : EqDecision KeystoreError.
Proof. solve_decision. Defined.

(** A computation on what is kept, with the writes left before the process stops. *)
Definition K (A : Type) : Type := Kept * nat -> (KeystoreError + A) * (Kept * nat).
#[export] Instance K_ret : MRet K := fun _ a s => (inr a, s).
#[export] Instance K_bind : MBind K := fun _ _ f m s => match m s with (inl e, s) => (inl e, s) | (inr a, s) => f a s end.
Definition fail {A} (e : KeystoreError) : K A := fun s => (inl e, s).
Definition kept {A} (f : Kept -> A) : K A := fun s => (inr (f s.1), s).
Definition write (f : Kept -> Kept) : K unit := fun '(k, n) => match n with O => (inl Stopped, (k, O)) | S n => (inr tt, (f k, n)) end.
Definition write_keychain (seed : bytes) : K unit := write (fun k => mkKept (Some seed) (kp_identity k) (kp_encryption k) (kp_servers k)).
Definition write_identity (seed : bytes) : K unit := write (fun k => mkKept (kp_keychain k) (Some seed) (kp_encryption k) (kp_servers k)).
Definition write_encryption (contents : bytes) : K unit := write (fun k => mkKept (kp_keychain k) (kp_identity k) (Some contents) (kp_servers k)).

(** ** The encryption key *)

(* @src/crates/throcc-client-core/src/keystore.rs 190-194 renewal_due *)
Definition renewal_due (created now : Z) : bool :=
  (now + ENCRYPTION_KEY_CLOCK_SKEW <? created) || (ENCRYPTION_KEY_LIFETIME <=? sat_sub now created + ENCRYPTION_KEY_RENEW_BEFORE).

Section with_crypto.
(** Whether the 32 bytes are an X25519 key, and its public key; an identity's public key and
    its signatures. *)
Context (valid_secret : bytes -> bool) (secret_public : bytes -> PublicKey) (sign : bytes -> bytes -> Signature).

(* @src/crates/throcc-client-core/src/keystore.rs 212-218 new_encryption_key *)
Definition new_encryption_key (o : Opening) : K (bytes * Z) :=
  _ ← write_encryption (op_secret o ++ to_be_bytes 8 (op_now o)); mret (op_secret o, op_now o).
(** The key in the file, if it holds one that is not due. *)
Definition stored_encryption_key (now : Z) (file : option bytes) : option (bytes * Z) :=
  contents ← file;
  if (length contents <? 32)%nat then None else
  let created := drop 32 contents in
  if negb (length created =? 8)%nat then None else
  if renewal_due (from_be_bytes created) now then None else Some (take 32 contents, from_be_bytes created).
(* @src/crates/throcc-client-core/src/keystore.rs 196-210 load_encryption_key *)
Definition load_encryption_key (o : Opening) : K (bytes * Z) :=
  file ← kept kp_encryption;
  match stored_encryption_key (op_now o) file with
  | Some (secret, created) => if valid_secret secret then mret (secret, created) else fail CorruptEncryptionKey
  | None => new_encryption_key o
  end.

(** ** The identity *)

(* @src/crates/throcc-client-core/src/keystore.rs 343-348 seed_to_key *)
Definition seed_to_key (seed : bytes) : K bytes := if (length seed =? 32)%nat then mret seed else fail CorruptIdentity.
(* @src/crates/throcc-client-core/src/keystore.rs 327-329 knows_servers *)
Definition knows_servers : K bool :=
  file ← kept kp_servers;
  match known_load file with None => fail BadServers | Some known => mret (negb (bool_decide (kn_pins known = ∅))) end.
(* @src/crates/throcc-client-core/src/keystore.rs 331-341 file_identity *)
Definition file_identity (o : Opening) : K bytes :=
  file ← kept kp_identity;
  match file with
  | Some seed => seed_to_key seed
  | None => _ ← write_identity (op_seed o); mret (op_seed o)
  end.
(* @src/crates/throcc-client-core/src/keystore.rs 316-325 fallback_identity *)
Definition fallback_identity (o : Opening) : K bytes :=
  known ← knows_servers; file ← kept kp_identity;
  if known && bool_decide (file = None) then fail KeychainUnreachable else file_identity o.

(* @src/crates/throcc-client-core/src/keystore.rs 220-227 WhenMissing *)
Inductive WhenMissing := Refuse | StartOver.
#[export] Instance WhenMissing_eq_dec : EqDecision WhenMissing.
Proof. solve_decision. Defined.
(* @src/crates/throcc-client-core/src/keystore.rs 229-233 Found *)
Record Found := mkFound { fd_key : bytes; fd_new : bool }.
(* @src/crates/throcc-client-core/src/keystore.rs 236-238 Found::kept *)
Definition found_kept (key : bytes) : Found := mkFound key false.

(** [sees]: whether this read sees what the keychain holds. *)
(* @src/crates/throcc-client-core/src/keystore.rs 249-255! read *)
Definition read_keychain (sees : option bool) : K (option bytes) :=
  match sees with None => fail KeychainUnreachable | Some true => kept kp_keychain | Some false => mret None end.
(* @src/crates/throcc-client-core/src/known_servers.rs 54-59 forget_all *)
Definition forget_servers (known : KnownServers) : K unit :=
  fun '(k, n) =>
    let '(ok, _, file) := known_forget_all (negb (n =? 0)%nat) known (kp_servers k) in
    (if ok then inr tt else inl match kp_servers k with Some _ => Stopped | None => BadServers end, (mkKept (kp_keychain k) (kp_identity k) (kp_encryption k) file, pred n)).
(** The rest of [first_keychain_identity], once the identity to put there is [found]. *)
(* @src/crates/throcc-client-core/src/keystore.rs 297-313! first_keychain_identity *)
Definition put_in_keychain (o : Opening) (when_missing : WhenMissing) (found : Found) : K Found :=
  again ← read_keychain (op_second o);
  match again with
  | Some seed => key ← seed_to_key seed; mret (found_kept key)
  | None =>
      if negb (fd_new found && bool_decide (when_missing = StartOver)) then _ ← write_keychain (fd_key found); mret found else
      servers ← kept kp_servers;
      match known_load servers with
      | None => fail BadServers
      | Some known =>
          _ ← new_encryption_key o;
          _ ← write_keychain (fd_key found);
          _ ← forget_servers known;
          mret found
      end
  end.
(* @src/crates/throcc-client-core/src/keystore.rs 275-314 first_keychain_identity *)
Definition first_keychain_identity (o : Opening) (when_missing : WhenMissing) : K Found :=
  file ← kept kp_identity;
  found ← match file with
    | Some contents => key ← seed_to_key contents; mret (found_kept key)
    | None =>
        known ← (if decide (when_missing = Refuse) then knows_servers else mret false);
        if (known : bool) then fail IdentityMissing else mret (mkFound (op_seed o) true)
    end;
  put_in_keychain o when_missing found.
(* @src/crates/throcc-client-core/src/keystore.rs 268-273 identity_in *)
Definition identity_in (o : Opening) (when_missing : WhenMissing) : K Found :=
  held ← read_keychain (op_first o);
  match held with
  | Some seed => key ← seed_to_key seed; mret (found_kept key)
  | None => first_keychain_identity o when_missing
  end.
(** A platform without a keychain answers [NoDefaultStore]. *)
(* @src/crates/throcc-client-core/src/keystore.rs 262-266 keychain_identity *)
Definition keychain_identity (o : Opening) (when_missing : WhenMissing) : K Found :=
  if op_keychain o then identity_in o when_missing else fail NoDefaultStore.

(** ** The keystore *)

(* @src/crates/throcc-client-core/src/keystore.rs 49-57 Keystore *)
Record Keystore := mkKeystore { kt_identity : bytes; kt_encryption : bytes; kt_created : Z; kt_known : KnownServers }.
(* @src/crates/throcc-client-core/src/keystore.rs 108-120 Keystore::assemble *)
Definition assemble (o : Opening) (identity : bytes) : K Keystore :=
  servers ← kept kp_servers;
  match known_load servers with
  | None => fail BadServers
  | Some known => '(key, created) ← load_encryption_key o; mret (mkKeystore identity key created known)
  end.
(* @src/crates/throcc-client-core/src/keystore.rs 86-98 Keystore::open_platform *)
Definition open_platform (o : Opening) (when_missing : WhenMissing) : K (Keystore * bool) :=
  found ← (fun s => match keychain_identity o when_missing s with
    | (inl NoDefaultStore, s) => (key ← fallback_identity o; mret (found_kept key)) s
    | other => other
    end);
  store ← assemble o (fd_key found); mret (store, fd_new found).
(* @src/crates/throcc-client-core/src/keystore.rs 65-71 Keystore::open_default *)
Definition open_default (o : Opening) : K Keystore := '(store, _) ← open_platform o Refuse; mret store.
(* @src/crates/throcc-client-core/src/keystore.rs 40-47 StartedOver *)
Inductive StartedOver := Recovered | NewIdentity.
(* @src/crates/throcc-client-core/src/keystore.rs 73-84 Keystore::start_over *)
Definition start_over (o : Opening) : K (Keystore * StartedOver) :=
  '(store, new) ← open_platform o StartOver; mret (store, if (new : bool) then NewIdentity else Recovered).
(* @src/crates/throcc-client-core/src/keystore.rs 100-106 Keystore::open_in *)
Definition open_in (o : Opening) : K Keystore := identity ← file_identity o; assemble o identity.

(* @src/crates/throcc-client-core/src/keystore.rs 146-151 Keystore::renew_encryption_key *)
Definition renew_encryption_key (o : Opening) (store : Keystore) : K Keystore :=
  '(key, created) ← new_encryption_key o; mret (mkKeystore (kt_identity store) key created (kt_known store)).
(* @src/crates/throcc-client-core/src/keystore.rs 137-144 Keystore::renew_encryption_key_if_due *)
Definition renew_encryption_key_if_due (o : Opening) (store : Keystore) : K (Keystore * bool) :=
  if negb (renewal_due (kt_created store) (op_now o)) then mret (store, false) else
  store ← renew_encryption_key o store; mret (store, true).
(* @src/crates/throcc-client-core/src/keystore.rs 153-163 Keystore::signed_encryption_key *)
Definition signed_encryption_key (server : bytes) (user : UserId) (store : Keystore) : SignedEncryptionKey :=
  let key := secret_public (kt_encryption store) in
  let not_after := kt_created store + ENCRYPTION_KEY_LIFETIME in
  mkSignedEncryptionKey key not_after (sign (kt_identity store) (encryption_key_message server user not_after key)).
End with_crypto.

(** ** Opening the keystore keeps the identity, whatever stops it *)

(** A run of writes, computed. *)
Ltac run_writes := unfold new_encryption_key, write_encryption, write_keychain, write_identity, write, forget_servers, fail, mbind, K_bind, mret, K_ret; cbn.

Section with_crypto.
Context (valid_secret : bytes -> bool).

(** ** What a computation may change *)

(** Only the encryption key, and only to the opening's. *)
Definition only_encryption (o : Opening) (k k' : Kept) : Prop :=
  kp_keychain k' = kp_keychain k /\ kp_identity k' = kp_identity k /\ kp_servers k' = kp_servers k /\
  (kp_encryption k' = kp_encryption k \/ kp_encryption k' = Some (op_secret o ++ to_be_bytes 8 (op_now o))).
Lemma new_encryption_key_spec o k n :
  new_encryption_key o (k, n) = match n with
    | O => (inl Stopped, (k, O))
    | S n => (inr (op_secret o, op_now o), (mkKept (kp_keychain k) (kp_identity k) (Some (op_secret o ++ to_be_bytes 8 (op_now o))) (kp_servers k), n))
    end.
Proof. by destruct n. Qed.
Lemma load_encryption_key_only o k n : only_encryption o k (load_encryption_key valid_secret o (k, n)).2.1.
Proof.
  unfold load_encryption_key, only_encryption, kept, mbind, K_bind. cbn [fst]. destruct (stored_encryption_key _ _) as [[secret created]|]; [by destruct (valid_secret secret); cbn; split_and!; auto|].
  rewrite new_encryption_key_spec. destruct n; cbn; split_and!; auto.
Qed.
Lemma assemble_only o id k n : only_encryption o k (assemble valid_secret o id (k, n)).2.1.
Proof.
  unfold assemble, kept, mbind at 1, K_bind at 1. cbn [fst]. destruct (known_load _); [|by unfold only_encryption; cbn; split_and!; auto].
  pose proof (load_encryption_key_only o k n) as H. unfold mbind, K_bind. destruct (load_encryption_key valid_secret o (k, n)) as [[e|[key created]] [k' n']]; exact H.
Qed.

Definition pins (k : Kept) : option (gmap str bytes) := ss_known <$> kp_servers k.
Definition fresh_key (o : Opening) : bytes := op_secret o ++ to_be_bytes 8 (op_now o).

(** How finding the identity may leave what is kept. *)
Inductive identity_step (o : Opening) (when : WhenMissing) (k k' : Kept) : Prop :=
  | NothingWritten : k' = k -> identity_step o when k k'
  | TakenFromFile seed : op_keychain o = true -> op_first o <> Some true \/ kp_keychain k = None -> op_second o <> Some true \/ kp_keychain k = None ->
      kp_identity k = Some seed -> k' = mkKept (Some seed) (kp_identity k) (kp_encryption k) (kp_servers k) -> identity_step o when k k'
  | FirstIdentity : op_keychain o = true -> op_first o <> Some true \/ kp_keychain k = None -> op_second o <> Some true \/ kp_keychain k = None ->
      kp_identity k = None -> when = Refuse -> pins k = Some ∅ ->
      k' = mkKept (Some (op_seed o)) None (kp_encryption k) (kp_servers k) -> identity_step o when k k'
  | OnlyTheKey : op_keychain o = true -> when = StartOver -> kp_identity k = None ->
      k' = mkKept (kp_keychain k) None (Some (fresh_key o)) (kp_servers k) -> identity_step o when k k'
  | ThenTheIdentity : op_keychain o = true -> op_first o <> Some true \/ kp_keychain k = None -> op_second o <> Some true \/ kp_keychain k = None ->
      when = StartOver -> kp_identity k = None ->
      k' = mkKept (Some (op_seed o)) None (Some (fresh_key o)) (kp_servers k) -> identity_step o when k k'
  | ThenTheServers s : op_keychain o = true -> op_first o <> Some true \/ kp_keychain k = None -> op_second o <> Some true \/ kp_keychain k = None ->
      when = StartOver -> kp_identity k = None -> kp_servers k = Some s ->
      k' = mkKept (Some (op_seed o)) None (Some (fresh_key o)) (Some (mkServers ∅ (ss_servers s))) -> identity_step o when k k'
  | WithoutKeychain : op_keychain o = false -> kp_identity k = None -> pins k = Some ∅ ->
      k' = mkKept (kp_keychain k) (Some (op_seed o)) (kp_encryption k) (kp_servers k) -> identity_step o when k k'.

Lemma read_keychain_spec sees k n :
  read_keychain sees (k, n) = (inl KeychainUnreachable, (k, n)) \/
  (exists seed, read_keychain sees (k, n) = (inr (Some seed), (k, n)) /\ sees = Some true /\ kp_keychain k = Some seed) \/
  (read_keychain sees (k, n) = (inr None, (k, n)) /\ (sees <> Some true \/ kp_keychain k = None)).
Proof.
  destruct sees as [[]|]; cbn; [|right; right; split; [done|by left]|by left]. unfold kept. cbn. destruct (kp_keychain k) as [seed|] eqn:E.
  - right; left. by exists seed.
  - right; right. split; [done|by right].
Qed.
Lemma seed_to_key_spec seed s : seed_to_key seed s = if (length seed =? 32)%nat then (inr seed, s) else (inl CorruptIdentity, s).
Proof. unfold seed_to_key. by destruct (_ =? _)%nat. Qed.

(** Where the identity to put in the keychain comes from. *)
Definition to_put (o : Opening) (when : WhenMissing) (k : Kept) (found : Found) : Prop :=
  (fd_new found = false /\ kp_identity k = Some (fd_key found)) \/
  (found = mkFound (op_seed o) true /\ kp_identity k = None /\ (when = Refuse -> pins k = Some ∅)).
Lemma put_in_keychain_step o when k n found : op_keychain o = true -> op_first o <> Some true \/ kp_keychain k = None -> to_put o when k found ->
  identity_step o when k (put_in_keychain o when found (k, n)).2.1.
Proof.
  intros Hk Hf Hfound. unfold put_in_keychain, mbind at 1, K_bind at 1.
  destruct (read_keychain_spec (op_second o) k n) as [->|[(seed & -> & _)|[-> Hs]]]; [by apply NothingWritten| |].
  { unfold mbind, K_bind. rewrite seed_to_key_spec. destruct (_ =? _)%nat; by apply NothingWritten. }
  destruct (negb _) eqn:Enew.
  - destruct n as [|n]; [by apply NothingWritten|]. destruct Hfound as [[Hold Hid]|(-> & Hid & Hpins)]; cbn in *.
    + by apply (TakenFromFile _ _ _ _ (fd_key found)).
    + destruct when; [|done]. apply FirstIdentity; try done; [by apply Hpins|unfold mbind, K_bind, write_keychain, write; cbn; by rewrite Hid].
  - destruct Hfound as [[Hold _]|(-> & Hid & _)]; [by rewrite Hold in Enew|]. cbn in Enew. apply negb_false_iff, bool_decide_eq_true in Enew.
    unfold mbind at 1, K_bind at 1, kept. cbn [fst]. destruct (known_load (kp_servers k)) as [known|] eqn:El; [|by apply NothingWritten].
    unfold known_load in El. destruct (kp_servers k) as [s|] eqn:Es; [|done]. injection El as <-.
    destruct n as [|[|[|n]]]; run_writes; [by apply NothingWritten|apply OnlyTheKey; try done; by rewrite Hid, ?Es| |].
    + apply ThenTheIdentity; try done. by rewrite Hid, ?Es.
    + eapply (ThenTheServers _ _ _ _ s); try done. by rewrite Hid, ?Es.
Qed.
Lemma knows_servers_spec k n : knows_servers (k, n) = match pins k with None => (inl BadServers, (k, n)) | Some p => (inr (negb (bool_decide (p = ∅))), (k, n)) end.
Proof. unfold knows_servers, pins, mbind, K_bind, kept, known_load. cbn [fst]. by destruct (kp_servers k). Qed.
Lemma first_keychain_identity_step o when k n : op_keychain o = true -> op_first o <> Some true \/ kp_keychain k = None ->
  identity_step o when k (first_keychain_identity o when (k, n)).2.1.
Proof.
  intros Hk Hf. unfold first_keychain_identity, kept. unfold mbind at 1, K_bind at 1. cbn [fst].
  destruct (kp_identity k) as [contents|] eqn:Hid.
  - unfold mbind, K_bind. rewrite seed_to_key_spec. destruct (_ =? _)%nat; [|by apply NothingWritten]. apply put_in_keychain_step; [done|done|]. left. by split.
  - unfold mbind, K_bind. destruct (decide (when = Refuse)) as [->|Hw].
    + rewrite knows_servers_spec. destruct (pins k) as [p|] eqn:Ep; [|by apply NothingWritten]. case_bool_decide; cbn [negb]; [|by apply NothingWritten].
      apply put_in_keychain_step; [done|done|]. right. subst p. by split_and!.
    + apply put_in_keychain_step; [done|done|]. right. by split_and!.
Qed.
(** Finding the identity, in an opening. *)
Definition find_identity (o : Opening) (when : WhenMissing) : K Found := fun s =>
  match keychain_identity o when s with
  | (inl NoDefaultStore, s) => (key ← fallback_identity o; mret (found_kept key)) s
  | other => other
  end.
Lemma put_not_missing o when found k n s : put_in_keychain o when found (k, n) <> (inl NoDefaultStore, s).
Proof.
  unfold put_in_keychain, mbind at 1, K_bind at 1. destruct (read_keychain_spec (op_second o) k n) as [->|[(seed & -> & _)|[-> _]]]; [done| |].
  { unfold mbind, K_bind. rewrite seed_to_key_spec. by destruct (_ =? _)%nat. }
  destruct (negb _); [by destruct n|]. unfold mbind at 1, K_bind at 1, kept. cbn [fst]. destruct (known_load (kp_servers k)) as [known|] eqn:El; [|done].
  unfold known_load in El. destruct (kp_servers k) as [sv|] eqn:E; [|done]. destruct n as [|[|[|n]]]; run_writes; by rewrite ?E.
Qed.
Lemma identity_in_spec o when k n :
  ((identity_in o when (k, n)).2 = (k, n) /\ forall s, identity_in o when (k, n) <> (inl NoDefaultStore, s)) \/
  (identity_in o when (k, n) = first_keychain_identity o when (k, n) /\ (op_first o <> Some true \/ kp_keychain k = None) /\
   forall s, first_keychain_identity o when (k, n) <> (inl NoDefaultStore, s)).
Proof.
  assert (identity_in o when (k, n) = match read_keychain (op_first o) (k, n) with
    | (inl e, s) => (inl e, s)
    | (inr (Some seed), s) => (key ← seed_to_key seed; mret (found_kept key)) s
    | (inr None, s) => first_keychain_identity o when s
    end) as -> by (unfold identity_in; unfold mbind at 1, K_bind at 1; by destruct (read_keychain _ _) as [[|[]] ?]).
  destruct (read_keychain_spec (op_first o) k n) as [->|[(seed & -> & _)|[-> Hs]]]; [by left| |].
  { left. unfold mbind, K_bind. rewrite seed_to_key_spec. by destruct (_ =? _)%nat. }
  right. split_and!; [done|done|]. intros s. unfold first_keychain_identity, kept, mbind, K_bind. cbn [fst]. destruct (kp_identity k) as [c|].
  - rewrite seed_to_key_spec. destruct (_ =? _)%nat; [apply put_not_missing|done].
  - destruct (decide _); [|apply put_not_missing]. rewrite knows_servers_spec. destruct (pins k); [|done]. destruct (negb _); [done|apply put_not_missing].
Qed.
Lemma find_identity_step o when k n : identity_step o when k (find_identity o when (k, n)).2.1.
Proof.
  unfold find_identity, keychain_identity. destruct (op_keychain o) eqn:Hk.
  - destruct (identity_in_spec o when k n) as [[E Hn]|(-> & Hf & Hn)].
    + destruct (identity_in o when (k, n)) as [[e|found] s]; cbn in E; subst s; [|by apply NothingWritten]. specialize (Hn (k, n)). destruct e; try done; by apply NothingWritten.
    + pose proof (first_keychain_identity_step o when k n Hk Hf) as Hs. destruct (first_keychain_identity o when (k, n)) as [[e|found] s]; [|exact Hs].
      specialize (Hn s). by destruct e.
  - cbn. unfold fallback_identity, mbind at 1 2, K_bind at 1 2. rewrite knows_servers_spec. destruct (pins k) as [p|] eqn:Ep; [|by apply NothingWritten].
    unfold mbind at 1, K_bind at 1, kept. cbn [fst]. destruct (kp_identity k) as [seed|] eqn:Hid.
    + rewrite andb_false_r by done. unfold file_identity, mbind, K_bind, kept. cbn [fst]. rewrite Hid, seed_to_key_spec. destruct (_ =? _)%nat; by apply NothingWritten.
    + case_bool_decide; cbn [negb andb]; [|by apply NothingWritten]. unfold file_identity, mbind, K_bind, kept. cbn [fst]. rewrite Hid.
      destruct n; [by apply NothingWritten|]. subst p. by apply WithoutKeychain.
Qed.
Lemma open_platform_step o when k n : exists k1, identity_step o when k k1 /\
  (exists r s1, find_identity o when (k, n) = (r, s1) /\ s1.1 = k1) /\ only_encryption o k1 (open_platform valid_secret o when (k, n)).2.1.
Proof.
  exists (find_identity o when (k, n)).2.1. split; [apply find_identity_step|]. split; [by destruct (find_identity o when (k, n)) as [r s]; exists r, s|].
  change (open_platform valid_secret o when) with (found ← find_identity o when; store ← assemble valid_secret o (fd_key found); mret (store, fd_new found)).
  unfold mbind at 1, K_bind at 1. destruct (find_identity o when (k, n)) as [[e|found] [k1 n1]]; cbn [fst snd]; [by unfold only_encryption; split_and!; auto|].
  pose proof (assemble_only o (fd_key found) k1 n1) as H. unfold mbind, K_bind. by destruct (assemble valid_secret o (fd_key found) (k1, n1)) as [[e|store] [k2 n2]].
Qed.

(** ** What a finished opening leaves *)

(** The identity is where the next opening looks for it. *)
Definition identity_kept (o : Opening) (k : Kept) (key : bytes) : Prop :=
  length key = 32%nat /\ if op_keychain o then kp_keychain k = Some key else kp_identity k = Some key.
Lemma seed_to_key_inr seed s key s' : seed_to_key seed s = (inr key, s') -> seed = key /\ s = s' /\ length key = 32%nat.
Proof. rewrite seed_to_key_spec. destruct (Nat.eqb_spec (length seed) 32); [|done]. by intros [= <- <-]. Qed.
Lemma put_in_keychain_kept o when found k n found' k1 n1 : op_keychain o = true -> length (fd_key found) = 32%nat ->
  put_in_keychain o when found (k, n) = (inr found', (k1, n1)) -> identity_kept o k1 (fd_key found').
Proof.
  intros Hk Hl. unfold put_in_keychain, identity_kept. rewrite Hk. unfold mbind at 1, K_bind at 1.
  destruct (read_keychain_spec (op_second o) k n) as [->|[(seed & -> & _ & Es)|[-> _]]]; [done| |].
  { unfold mbind, K_bind. destruct (seed_to_key seed (k, n)) as [[e|key] s] eqn:E; [done|]. destruct (seed_to_key_inr _ _ _ _ E) as (-> & <- & Hlen). by intros [= <- <- _]. }
  destruct (negb _).
  - destruct n; run_writes; [done|]. by intros [= <- <- _].
  - unfold mbind at 1, K_bind at 1, kept. cbn [fst]. destruct (known_load (kp_servers k)) as [known|] eqn:El; [|done]. unfold known_load in El.
    destruct (kp_servers k) as [sv|] eqn:Es; [|done]. destruct n as [|[|[|n]]]; run_writes; rewrite ?Es; try done. by intros [= <- <- _].
Qed.
Lemma find_identity_kept o when k n found k1 n1 : length (op_seed o) = 32%nat ->
  find_identity o when (k, n) = (inr found, (k1, n1)) -> identity_kept o k1 (fd_key found).
Proof.
  intros Hseed. unfold find_identity, keychain_identity. destruct (op_keychain o) eqn:Hk.
  - destruct (identity_in o when (k, n)) as [[e|f] s] eqn:E.
    { destruct (identity_in_spec o when k n) as [[Hs Hn]|(Hi & _ & Hn)]; [rewrite E in Hn|rewrite <- Hi, E in Hn]; specialize (Hn s); by destruct e. }
    intros [= -> ->]. revert E. unfold identity_in. unfold mbind at 1, K_bind at 1.
    destruct (read_keychain_spec (op_first o) k n) as [->|[(seed & -> & _ & Es)|[-> _]]]; [done| |].
    { unfold mbind, K_bind. destruct (seed_to_key seed (k, n)) as [[e|key] s] eqn:E; [done|]. destruct (seed_to_key_inr _ _ _ _ E) as (-> & <- & Hlen).
      intros [= <- <- _]. unfold identity_kept. by rewrite Hk. }
    unfold first_keychain_identity, kept, mbind at 1, K_bind at 1. cbn [fst]. destruct (kp_identity k) as [c|].
    + unfold mbind, K_bind. destruct (seed_to_key c (k, n)) as [[e|key] s] eqn:E; [done|]. destruct (seed_to_key_inr _ _ _ _ E) as (-> & <- & Hlen). by apply put_in_keychain_kept.
    + unfold mbind, K_bind. destruct (decide _).
      * rewrite knows_servers_spec. destruct (pins k); [|done]. destruct (negb _); [done|]. by apply put_in_keychain_kept.
      * by apply put_in_keychain_kept.
  - cbn. unfold fallback_identity, mbind at 1 2, K_bind at 1 2. rewrite knows_servers_spec. destruct (pins k) as [p|]; [|done].
    unfold mbind at 1, K_bind at 1, kept. cbn [fst]. destruct (_ && _); [done|]. unfold file_identity, mbind, K_bind, kept, identity_kept. rewrite Hk. cbn [fst].
    destruct (kp_identity k) as [c|] eqn:Hid.
    + destruct (seed_to_key c (k, n)) as [[e|key] s] eqn:E; [done|]. destruct (seed_to_key_inr _ _ _ _ E) as (-> & <- & Hlen). by intros [= <- <- _].
    + destruct n; run_writes; [done|]. by intros [= <- <- _].
Qed.
Lemma stored_fresh o now : length (op_secret o) = 32%nat -> is_u64 (op_now o) -> renewal_due (op_now o) now = false ->
  stored_encryption_key now (Some (fresh_key o)) = Some (op_secret o, op_now o).
Proof.
  intros Hl Hu Hd. unfold stored_encryption_key, fresh_key. cbn [mbind option_bind]. rewrite length_app, length_to_be_bytes, Hl. cbn [Nat.ltb Nat.leb Nat.add].
  rewrite drop_app_length', take_app_length' by done. rewrite length_to_be_bytes. cbn [Nat.eqb negb]. unfold is_u64, u64_max in Hu. rewrite from_to_be_bytes by (cbn; lia). by rewrite Hd.
Qed.
(** The encryption key an opening ends with is in the file and not due. *)
Lemma load_encryption_key_kept o k n key created k1 n1 : valid_secret (op_secret o) = true -> length (op_secret o) = 32%nat -> is_u64 (op_now o) ->
  load_encryption_key valid_secret o (k, n) = (inr (key, created), (k1, n1)) ->
  valid_secret key = true /\ renewal_due created (op_now o) = false /\ kp_servers k1 = kp_servers k /\
  forall now, renewal_due created now = false -> stored_encryption_key now (kp_encryption k1) = Some (key, created).
Proof.
  intros Hv Hl Hu. unfold load_encryption_key, kept, mbind at 1, K_bind at 1. cbn [fst].
  destruct (stored_encryption_key (op_now o) (kp_encryption k)) as [[secret c]|] eqn:E.
  - destruct (valid_secret secret) eqn:Ev; [|done]. intros [= <- <- <- _]. unfold stored_encryption_key in E.
    destruct (kp_encryption k) as [file|] eqn:Ef; [|done]. cbn in E. destruct (length file <=? 31)%nat eqn:E1; [done|]. destruct (negb (_ =? _)%nat) eqn:E2; [done|].
    destruct (renewal_due _ _) eqn:E3; [done|]. injection E as <- <-. split_and!; [done|done|done|]. intros now Hd. unfold stored_encryption_key. cbn. by rewrite E1, E2, Hd.
  - rewrite new_encryption_key_spec. destruct n; [done|]. intros [= <- <- <- _]. cbn. split_and!; [done| |done|intros now Hd; by apply stored_fresh].
    unfold renewal_due, ENCRYPTION_KEY_CLOCK_SKEW, ENCRYPTION_KEY_LIFETIME, ENCRYPTION_KEY_RENEW_BEFORE, sat_sub. rewrite orb_false_iff, Z.ltb_ge, Z.leb_gt. lia.
Qed.
End with_crypto.

(** C19: wherever an opening of the keystore is stopped, by a refused write or by the process
    dying, what it leaves is safe.  An identity either read of the keychain sees is never
    overwritten, nor the servers that know it forgotten.  A new identity is put in the
    keychain only where no identity was kept in a file, and then either no server was known
    or, as the user chose, the old encryption key is gone already.  The servers are forgotten
    only once the new identity is in the keychain, and with them nothing kept per server.
    And an identity kept in a file stays there. *)
Theorem opening_is_safe_wherever_it_stops (valid_secret : bytes -> bool) (o : Opening) (when : WhenMissing) (k : Kept) (writes : nat) :
  let k' := (open_platform valid_secret o when (k, writes)).2.1 in
  (forall seed, kp_keychain k = Some seed -> op_keychain o = false \/ op_first o = Some true \/ op_second o = Some true ->
     kp_keychain k' = Some seed /\ pins k' = pins k) /\
  (kp_keychain k' = kp_keychain k \/ (exists seed, kp_identity k = Some seed /\ kp_keychain k' = Some seed) \/
   (kp_identity k = None /\ kp_keychain k' = Some (op_seed o) /\
    (when = Refuse /\ pins k = Some ∅ \/ when = StartOver /\ kp_encryption k' = Some (fresh_key o)))) /\
  (pins k' <> pins k -> when = StartOver /\ pins k' = Some ∅ /\ kp_keychain k' = Some (op_seed o) /\ kp_encryption k' = Some (fresh_key o) /\
     ss_servers <$> kp_servers k' = ss_servers <$> kp_servers k) /\
  (forall seed, kp_identity k = Some seed -> kp_identity k' = Some seed).
Proof.
  cbn zeta. destruct (open_platform_step valid_secret o when k writes) as (k1 & Hs & _ & (E1 & E2 & E3 & E4)).
  set (k' := (open_platform valid_secret o when (k, writes)).2.1) in *. clearbody k'. unfold pins. rewrite E1, E2, E3. clear E1 E2 E3.
  change (op_secret o ++ to_be_bytes 8 (op_now o)) with (fresh_key o) in E4.
  assert (forall seed, op_first o <> Some true \/ kp_keychain k = None -> op_second o <> Some true \/ kp_keychain k = None -> op_keychain o = true ->
    kp_keychain k = Some seed -> op_keychain o = false \/ op_first o = Some true \/ op_second o = Some true -> False) as Hunseen.
  { intros seed [?|?] [?|?] ? ? [?|[?|?]]; congruence. }
  destruct Hs as [->|seed Hk H1 H2 Hid ->|Hk H1 H2 Hid Hw Hp ->|Hk Hw Hid ->|Hk H1 H2 Hw Hid ->|s Hk H1 H2 Hw Hid Hs ->|Hk Hid Hp ->]; cbn [kp_keychain kp_identity kp_encryption kp_servers] in *.
  - split_and!; [done|by left|done|done].
  - split_and!; [intros; exfalso; by eapply Hunseen|right; left; eauto|done|done].
  - split_and!; [intros; exfalso; by eapply Hunseen|right; right; split_and!; auto|done|intros; congruence].
  - split_and!; [done|by left|done|intros; congruence].
  - assert (kp_encryption k' = Some (fresh_key o)) by (by destruct E4).
    split_and!; [intros; exfalso; by eapply Hunseen|right; right; split_and!; auto|done|intros; congruence].
  - assert (kp_encryption k' = Some (fresh_key o)) by (by destruct E4).
    split_and!; [intros; exfalso; by eapply Hunseen|right; right; split_and!; auto|intros _; rewrite Hs; by split_and!|intros; congruence].
  - split_and!; [done|by left|done|intros; congruence].
Qed.

(** An opening that succeeds finds its own keys again: the next one, while it sees the
    keychain and the encryption key is not due, gives the same identity, encryption key and
    servers, starts nothing new and writes nothing. *)
Theorem reopening_finds_the_same_keys (valid_secret : bytes -> bool) (o : Opening) (when : WhenMissing) (k k1 : Kept) (n n1 : nat) (store : Keystore) (new : bool) :
  length (op_seed o) = 32%nat -> length (op_secret o) = 32%nat -> valid_secret (op_secret o) = true -> is_u64 (op_now o) ->
  open_platform valid_secret o when (k, n) = (inr (store, new), (k1, n1)) ->
  forall o' when' writes, op_keychain o' = op_keychain o -> op_first o' = Some true -> renewal_due (kt_created store) (op_now o') = false ->
  open_platform valid_secret o' when' (k1, writes) = (inr (store, false), (k1, writes)).
Proof.
  intros Hseed Hsec Hv Hu E o' when' writes Hkc Hfirst Hdue.
  change (open_platform valid_secret o when) with (found ← find_identity o when; store ← assemble valid_secret o (fd_key found); mret (store, fd_new found)) in E.
  unfold mbind at 1, K_bind at 1 in E. destruct (find_identity o when (k, n)) as [[e|found] [k2 n2]] eqn:Ef; [done|].
  destruct (find_identity_kept _ _ _ _ _ _ _ Hseed Ef) as [Hlen Hid]. unfold mbind at 1, K_bind at 1 in E. unfold assemble, kept in E. unfold mbind at 1, K_bind at 1 in E. cbn [fst] in E.
  destruct (known_load (kp_servers k2)) as [known|] eqn:El; [|done]. unfold mbind at 1, K_bind at 1 in E.
  pose proof (load_encryption_key_only valid_secret o k2 n2) as (O1 & O2 & O3 & _).
  destruct (load_encryption_key valid_secret o (k2, n2)) as [[e|[key created]] [k3 n3]] eqn:Ek; [done|]. injection E as <- _ <- _. cbn in Hdue, O1, O2, O3.
  destruct (load_encryption_key_kept valid_secret o k2 n2 key created k3 n3 Hv Hsec Hu Ek) as (Kv & _ & Ks & Kf).
  assert (find_identity o' when' (k3, writes) = (inr (found_kept (fd_key found)), (k3, writes))) as Hfind.
  { unfold find_identity, keychain_identity. rewrite Hkc. destruct (op_keychain o).
    - unfold identity_in. rewrite Hfirst. unfold mbind at 1, K_bind at 1, read_keychain, kept. cbn [fst]. rewrite O1, Hid. unfold mbind, K_bind. by rewrite seed_to_key_spec, Hlen.
    - cbn. unfold fallback_identity, mbind at 1 2, K_bind at 1 2. rewrite knows_servers_spec. unfold pins. rewrite O3. unfold known_load in El.
      destruct (kp_servers k2) as [s|]; [|done]. cbn [fmap option_fmap option_map]. unfold kept, mbind at 1, K_bind at 1. cbn [fst]. rewrite O2, Hid.
      rewrite (bool_decide_eq_false_2 (Some (fd_key found) = None)), andb_false_r by done.
      unfold file_identity, kept, mbind, K_bind. cbn [fst]. by rewrite O2, Hid, seed_to_key_spec, Hlen. }
  change (open_platform valid_secret o' when') with (found ← find_identity o' when'; store ← assemble valid_secret o' (fd_key found); mret (store, fd_new found)).
  unfold mbind at 1, K_bind at 1. rewrite Hfind. unfold mbind at 1, K_bind at 1, assemble, kept. unfold mbind at 1, K_bind at 1. cbn [fst]. rewrite O3, El.
  unfold mbind at 1, K_bind at 1, load_encryption_key, kept. unfold mbind at 1, K_bind at 1. cbn [fst]. by rewrite (Kf _ Hdue), Kv.
Qed.

(** The encryption key of an opened keystore, signed for a server and a user, expires
    more than a week from now and within what the server takes, 31 days; and so does that of
    a running one each time it was renewed if due. *)
Theorem a_keystore_signs_what_the_hub_takes (valid_secret : bytes -> bool) (secret_public : bytes -> PublicKey) (sign : bytes -> bytes -> Signature)
    (o later : Opening) (when : WhenMissing) (k k1 k2 k3 : Kept) (n n1 n2 n3 : nat) (store store' : Keystore) (new renewed : bool) (server : bytes) (user : UserId) :
  valid_secret (op_secret o) = true -> length (op_secret o) = 32%nat -> is_u64 (op_now o) ->
  open_platform valid_secret o when (k, n) = (inr (store, new), (k1, n1)) ->
  renew_encryption_key_if_due later store (k2, n2) = (inr (store', renewed), (k3, n3)) ->
  let taken now key := 7 * 24 * 60 * 60 < ek_not_after key - now <= MAX_ENCRYPTION_KEY_LIFETIME in
  taken (op_now o) (signed_encryption_key secret_public sign server user store) /\
  taken (op_now later) (signed_encryption_key secret_public sign server user store') /\ kt_identity store' = kt_identity store.
Proof.
  intros Hv Hl Hu E Er. cbn zeta.
  assert (forall now s, renewal_due (kt_created s) now = false ->
    7 * 24 * 60 * 60 < ek_not_after (signed_encryption_key secret_public sign server user s) - now <= MAX_ENCRYPTION_KEY_LIFETIME) as Htaken.
  { intros now s. unfold renewal_due, sat_sub, ENCRYPTION_KEY_CLOCK_SKEW, ENCRYPTION_KEY_LIFETIME, ENCRYPTION_KEY_RENEW_BEFORE, MAX_ENCRYPTION_KEY_LIFETIME.
    rewrite orb_false_iff, Z.ltb_ge, Z.leb_gt. unfold signed_encryption_key, ENCRYPTION_KEY_LIFETIME. cbn [ek_not_after]. lia. }
  assert (renewal_due (kt_created store) (op_now o) = false) as Hd.
  { change (open_platform valid_secret o when) with (found ← find_identity o when; store ← assemble valid_secret o (fd_key found); mret (store, fd_new found)) in E.
    unfold mbind at 1, K_bind at 1 in E. destruct (find_identity o when (k, n)) as [[e|found] [k0 n0]]; [done|]. unfold mbind at 1, K_bind at 1 in E.
    unfold assemble, kept in E. unfold mbind at 1, K_bind at 1 in E. cbn [fst] in E. destruct (known_load (kp_servers k0)) as [known|]; [|done]. unfold mbind at 1, K_bind at 1 in E.
    destruct (load_encryption_key valid_secret o (k0, n0)) as [[e|[key created]] [k4 n4]] eqn:Ek; [done|]. injection E as <- _ _ _.
    by destruct (load_encryption_key_kept valid_secret o k0 n0 key created k4 n4 Hv Hl Hu Ek) as (_ & Kd & _). }
  split; [by apply Htaken|]. unfold renew_encryption_key_if_due, renew_encryption_key in Er. destruct (renewal_due (kt_created store) (op_now later)) eqn:Edue; cbn [negb] in Er.
  - destruct n2; [done|]. revert Er. run_writes. intros [= <- _ _ _]. split; [|done]. apply Htaken. cbn.
    unfold renewal_due, sat_sub, ENCRYPTION_KEY_CLOCK_SKEW, ENCRYPTION_KEY_LIFETIME, ENCRYPTION_KEY_RENEW_BEFORE. rewrite orb_false_iff, Z.ltb_ge, Z.leb_gt. lia.
  - injection Er as <- _ _ _. split; [by apply Htaken|done].
Qed.

(** ** Starting over, stopped before the servers are forgotten *)

Definition an_opening : Opening := mkOpening 1000000 (replicate 32 5) (replicate 32 6) true (Some false) (Some false).
Definition an_install : Kept := mkKept (Some (replicate 32 1)) None (Some (replicate 40 2)) (Some (mkServers {[ lit "voice.example.net" := replicate 32 3 ]} ∅)).
Definition any_secret (secret : bytes) : bool := true.
Definition started_over := open_platform any_secret an_opening StartOver (an_install, 3%nat).
Lemma started_over_eq : started_over = (inr (mkKeystore (replicate 32 5) (replicate 32 6) 1000000 (mkKnown ∅), true),
  (mkKept (Some (replicate 32 5)) None (Some (fresh_key an_opening)) (Some (mkServers ∅ ∅)), 0%nat)).
Proof. by vm_compute. Qed.
Lemma opening_is_safe_wherever_it_stops_witness :
  let k' := (open_platform any_secret (mkOpening 1000000 (replicate 32 5) (replicate 32 6) true (Some false) (Some true)) StartOver (an_install, 3%nat)).2.1 in
  kp_keychain k' = Some (replicate 32 1) /\ pins k' = pins an_install.
Proof.
  destruct (opening_is_safe_wherever_it_stops any_secret (mkOpening 1000000 (replicate 32 5) (replicate 32 6) true (Some false) (Some true)) StartOver an_install 3) as (H & _).
  apply (H (replicate 32 1)); [done|by right; right].
Defined.
Lemma reopening_finds_the_same_keys_witness :
  open_platform any_secret (mkOpening 2000000 (replicate 32 7) (replicate 32 8) true (Some true) (Some true)) Refuse (started_over.2.1, 0%nat) =
  (inr (mkKeystore (replicate 32 5) (replicate 32 6) 1000000 (mkKnown ∅), false), (started_over.2.1, 0%nat)).
Proof.
  rewrite started_over_eq. by apply (reopening_finds_the_same_keys any_secret an_opening StartOver an_install _ 3 0 _ true eq_refl eq_refl eq_refl ltac:(by unfold is_u64) started_over_eq).
Defined.
Lemma a_keystore_signs_what_the_hub_takes_witness : started_over = (inr (mkKeystore (replicate 32 5) (replicate 32 6) 1000000 (mkKnown ∅), true),
    (mkKept (Some (replicate 32 5)) None (Some (fresh_key an_opening)) (Some (mkServers ∅ ∅)), 0%nat)) /\
  7 * 24 * 60 * 60 < ek_not_after (signed_encryption_key (fun s => s) (fun _ m => m) [] 4 (mkKeystore (replicate 32 5) (replicate 32 6) 1000000 (mkKnown ∅))) - 1000000.
Proof.
  split; [exact started_over_eq|].
  destruct (a_keystore_signs_what_the_hub_takes any_secret (fun s => s) (fun _ m => m) an_opening an_opening StartOver an_install _ an_install an_install 3 0 1 1 _
    (mkKeystore (replicate 32 5) (replicate 32 6) 1000000 (mkKnown ∅)) true false [] 4 eq_refl eq_refl ltac:(by unfold is_u64) started_over_eq eq_refl) as [H _]. apply H.
Defined.
