(* ===== verification/Link.v ===== *)
(** * Reaching a server (throcc-client-core, connection.rs, control.rs and account.rs)

    Checking the server's key, logging in or enrolling on the control stream it opens, and
    the requests and replies on that stream afterwards.  QUIC, TLS and tokio are not part of
    the repository: what the network answers is an argument of each step, and a read yields
    the message, [None] where the stream closed or nothing came in time, or the framing
    error.  The stream's writer, its reader and the callers are tasks of their own: a
    [link_step] is one step of one of them. *)
From S2P Require Import Prelude Ids Frame Fingerprint Invite Messages Crypto JsonFile Floors Servers Keystore.
Open Scope Z_scope.

(** ** The connection (connection.rs) *)

(* @src/crates/throcc-client-core/src/connection.rs 23-29 Connected *)
Record Connected := mkConnected { cn_fingerprint : bytes; cn_exporter : bytes }.
(* @src/crates/throcc-client-core/src/connection.rs 43-58 ConnectError *)
Inductive ConnectError := Resolve | PinMismatch (expected actual : bytes) | ConnectDatagrams (e : DatagramError) | ConnectionFailed | Setup.

(** [sha256] of a key's info; a certificate is its key's info, [None] in a bad encoding.
    Whether it is taken, and the fingerprint seen. *)
(* @src/crates/throcc-client-core/src/connection.rs 194-213 verify_server_cert *)
Definition verify_server_cert (sha256 : bytes -> bytes) (expected : option bytes) (end_entity : option bytes) : bool * option bytes :=
  match end_entity with
  | None => (false, None)
  | Some spki =>
      let actual := of_spki sha256 spki in
      (match expected with Some expected => bool_decide (expected = actual) | None => true end, Some actual)
  end.
(** What the network answers: an address, whether an endpoint and a connection could be set
    up, the server's certificate if it sent one, whether the rest of the handshake held, and
    the connection's datagram size and exporter. *)
Record Network := mkNetwork {
  nw_resolved : bool; nw_setup : bool; nw_certificate : option (option bytes); nw_handshake : bool; nw_max_datagram : option Z; nw_exporter : option bytes
}.
(* @src/crates/throcc-client-core/src/connection.rs 67-111 connect_with *)
Definition connect (sha256 : bytes -> bytes) (nw : Network) (pin : option bytes) : ConnectError + Connected :=
  if negb (nw_resolved nw) then inl Resolve else
  if negb (nw_setup nw) then inl Setup else
  let '(taken, seen) := match nw_certificate nw with Some cert => verify_server_cert sha256 pin cert | None => (false, None) end in
  if negb (taken && nw_handshake nw) then
    inl match pin, seen with
        | Some expected, Some actual => if decide (expected = actual) then ConnectionFailed else PinMismatch expected actual
        | _, _ => ConnectionFailed
        end
  else
    match check_datagrams (nw_max_datagram nw) with
    | inr e => inl (ConnectDatagrams e)
    | inl _ =>
        match seen, nw_exporter nw with
        | Some fingerprint, Some exporter => inr (mkConnected fingerprint exporter)
        | _, _ => inl Setup
        end
    end.

(** ** Logging in (control.rs) *)

(* @src/crates/throcc-client-core/src/control.rs 30-42 LoginError *)
Inductive LoginError := Refused (e : AuthError) | LoginPake (e : PakeError) | BadProtocol (protocol : Z) | LoginClosed | LoginMalformed (e : FrameError).
Definition Read (T : Type) : Type := option (T + FrameError).
(* @src/crates/throcc-client-core/src/control.rs 175-183 read *)
Definition read {T} (r : Read T) : LoginError + T :=
  match r with None => inl LoginClosed | Some (inr e) => inl (LoginMalformed e) | Some (inl t) => inr t end.
(** The error that ends a login, with the code it closes the connection with, if any. *)
Definition Login (A : Type) : Type := (LoginError * option Z) + A.
Definition reading {T} (r : Read T) : Login T := match read r with inl e => inl (e, None) | inr t => inr t end.
Definition wrote (written : bool) : Login unit := if written then inr tt else inl (LoginClosed, None).
#[export] Instance Login_bind : MBind Login := fun _ _ f m => match m with inl e => inl e | inr a => f a end.

(* @src/crates/throcc-client-core/src/control.rs 133-151 greet *)
Definition greet (hello : Read ServerHello) : Login ServerHello :=
  hello ← reading hello;
  if decide (sh_protocol hello = PROTOCOL) then inr hello else inl (BadProtocol (sh_protocol hello), Some close.PROTOCOL_ERROR).
(* @src/crates/throcc-client-core/src/control.rs 153-173 finish_login *)
Definition finish_login (result : Read AuthResult) : Login Welcome :=
  result ← reading result;
  match result with AuthOk welcome => inr welcome | AuthErr e => inl (Refused e, Some close.NORMAL) end.

Section with_crypto.
Context (sha256 : bytes -> bytes) (seed_public : bytes -> PublicKey) (sign : bytes -> bytes -> Signature).
Context {State : Type} (start_a : bytes -> bytes -> bytes -> bytes -> State * bytes) (spake2_finish : State -> bytes -> option bytes)
  (hkdf : bytes -> bytes -> bytes -> bytes) (hmac : bytes -> bytes -> bytes).

(** The hello [login] answers the server's with. *)
(* @src/crates/throcc-client-core/src/control.rs 71-78! login *)
Definition login_hello (connected : Connected) (identity client_nonce : bytes) (want_room : option RoomId) (hello : ServerHello) : ClientHello :=
  HelloAuth (seed_public identity) client_nonce want_room (sign identity (auth_message (sh_nonce hello) client_nonce (cn_exporter connected))).
(** The hello sent, if it came to that, and the outcome. *)
(* @src/crates/throcc-client-core/src/control.rs 64-81 login *)
Definition login (connected : Connected) (identity client_nonce : bytes) (want_room : option RoomId)
    (hello : Read ServerHello) (written : bool) (result : Read AuthResult) : option ClientHello * Login Welcome :=
  match greet hello with
  | inl e => (None, inl e)
  | inr hello => (Some (login_hello connected identity client_nonce want_room hello), _ ← wrote written; finish_login result)
  end.

(** What an enrollment meets: our nonce and the PAKE's coin, the server's hello, whether our
    two messages could be written, the server's PAKE step and its result. *)
Record EnrollAnswers := mkEnrollAnswers {
  ea_nonce : bytes; ea_coin : bytes; ea_hello : Read ServerHello; ea_wrote_hello : bool; ea_step : Read PakeStep;
  ea_wrote_finish : bool; ea_result : Read AuthResult
}.
(* @src/crates/throcc-client-core/src/control.rs 106-115! enroll *)
Definition enroll_transcript (connected : Connected) (identity : bytes) (code : InviteCode) (hello : ServerHello) (client_nonce pake_a pake_b : bytes) : Transcript :=
  {| tp_server_nonce := sh_nonce hello; tp_client_nonce := client_nonce; tp_code_id := code_id code; tp_pubkey := seed_public identity;
     tp_spki_hash := cn_fingerprint connected; tp_exporter := cn_exporter connected; tp_pake_a := pake_a; tp_pake_b := pake_b |}.
(** The hello and the finish sent, as far as it came, and the outcome. *)
(* @src/crates/throcc-client-core/src/control.rs 83-131 enroll *)
Definition enroll (connected : Connected) (identity : bytes) (code : InviteCode) (name : str) (a : EnrollAnswers)
  : option ClientHello * option PakeFinish * Login Welcome :=
  match greet (ea_hello a) with
  | inl e => (None, None, inl e)
  | inr hello =>
      let '(pake, pake_a) := client_start start_a (ea_coin a) (code_id code) (code_secret code) in
      let sent := HelloEnroll (code_id code) (seed_public identity) (ea_nonce a) pake_a name in
      match _ ← wrote (ea_wrote_hello a); reading (ea_step a) with
      | inl e => (Some sent, None, inl e)
      | inr (inr e) => (Some sent, None, inl (Refused e, None))
      | inr (inl reply) =>
          let transcript := enroll_transcript connected identity code hello (ea_nonce a) pake_a (pk_b reply) in
          match client_finish spake2_finish sha256 hkdf hmac pake transcript (pk_confirm_b reply) with
          | inr e => (Some sent, None, inl (LoginPake e, Some close.AUTH_FAILED))
          | inl confirm_a =>
              (Some sent, Some (mkPakeFinish confirm_a (sign identity (transcript_bytes transcript))),
               _ ← wrote (ea_wrote_finish a); finish_login (ea_result a))
          end
      end
  end.

End with_crypto.

(** ** Requests and replies *)

(* @src/crates/throcc-client-core/src/control.rs 44-54 LinkError *)
Inductive LinkError := Closed | IdsExhausted | Unsendable (e : FrameError) | TimedOut.
(** A waiter is the caller whose reply it is. *)
(* @src/crates/throcc-client-core/src/control.rs 222-227 Pending *)
Record Pending := mkPending { pn_next_id : Z; pn_waiting : gmap Z nat; pn_closed : bool }.
Definition pending_default : Pending := mkPending 0 ∅ false.
(* @src/crates/throcc-client-core/src/control.rs 230-239 Pending::register *)
Definition register (waiter : nat) (p : Pending) : (LinkError + Z) * Pending :=
  if pn_closed p then (inl Closed, p) else
  let id := pn_next_id p in
  match checked_add32 id 1 with
  | None => (inl IdsExhausted, p)
  | Some next => (inr id, mkPending next (<[id := waiter]> (pn_waiting p)) (pn_closed p))
  end.
(* @src/crates/throcc-client-core/src/control.rs 241-245 Pending::close *)
Definition pending_close (p : Pending) : Pending := mkPending (pn_next_id p) ∅ true.

(* @src/crates/throcc-client-core/src/control.rs 256-269 refusal *)
Definition refusal (response : Response) : str :=
  let unexpected kind := lit "unexpected reply " ++ lit kind in
  match response with
  | RespErr _ message => message
  | RespOk => unexpected "Ok"%string | RespPlacement _ => unexpected "Placement"%string | RespInvite _ _ => unexpected "Invite"%string
  | RespUsers _ => unexpected "Users"%string | RespAvatarHash _ => unexpected "AvatarHash"%string | RespAvatar _ => unexpected "Avatar"%string
  end.
(* @src/crates/throcc-client-core/src/control.rs 248-254 expect_ok *)
Definition expect_ok (response : Response) : option str := match response with RespOk => None | other => Some (refusal other) end.

(* @src/crates/throcc-client-core/src/control.rs 28-28 OUTGOING_QUEUE *)
Definition OUTGOING_QUEUE : nat := 256.
(** The link: the requests waiting for replies, those a caller has yet to queue, the frames
    queued and written, whether the two tasks still run, the answers callers got, what the
    channels of callers that still queue their frame hold ([inl Closed]: dropped), the events
    handed on and why we closed the connection. *)
Record Link := mkLink {
  ln_pending : Pending; ln_sending : gmap nat (Z * Request); ln_outgoing : list (Z * Request); ln_written : list (Z * Request);
  ln_writing : bool; ln_reading : bool; ln_answers : gmap nat (LinkError + Response); ln_early : gmap nat (LinkError + Response); ln_events : list Event; ln_close : option Z
}.
Definition link_new : Link := mkLink pending_default ∅ [] [] true true ∅ ∅ [] None.
Definition ln_set_pending (p : Pending) (l : Link) : Link :=
  mkLink p (ln_sending l) (ln_outgoing l) (ln_written l) (ln_writing l) (ln_reading l) (ln_answers l) (ln_early l) (ln_events l) (ln_close l).
Definition ln_set_sending (sending : gmap nat (Z * Request)) (l : Link) : Link :=
  mkLink (ln_pending l) sending (ln_outgoing l) (ln_written l) (ln_writing l) (ln_reading l) (ln_answers l) (ln_early l) (ln_events l) (ln_close l).
Definition ln_set_frames (outgoing written : list (Z * Request)) (l : Link) : Link :=
  mkLink (ln_pending l) (ln_sending l) outgoing written (ln_writing l) (ln_reading l) (ln_answers l) (ln_early l) (ln_events l) (ln_close l).
Definition ln_set_tasks (writing reading : bool) (l : Link) : Link :=
  mkLink (ln_pending l) (ln_sending l) (ln_outgoing l) (ln_written l) writing reading (ln_answers l) (ln_early l) (ln_events l) (ln_close l).
Definition ln_add_event (e : Event) (l : Link) : Link :=
  mkLink (ln_pending l) (ln_sending l) (ln_outgoing l) (ln_written l) (ln_writing l) (ln_reading l) (ln_answers l) (ln_early l) (ln_events l ++ [e]) (ln_close l).
(** The first close is the one that counts. *)
Definition close_with (code : Z) (l : Link) : Link :=
  mkLink (ln_pending l) (ln_sending l) (ln_outgoing l) (ln_written l) (ln_writing l) (ln_reading l) (ln_answers l) (ln_early l) (ln_events l) (Some (default code (ln_close l))).
(** A caller takes the first answer it gets; later ones find nobody. *)
Definition add_answer (caller : nat) (a : LinkError + Response) (answers : gmap nat (LinkError + Response)) : gmap nat (LinkError + Response) :=
  match answers !! caller with Some _ => answers | None => <[caller := a]> answers end.
Definition answer (caller : nat) (a : LinkError + Response) (l : Link) : Link :=
  mkLink (ln_pending l) (ln_sending l) (ln_outgoing l) (ln_written l) (ln_writing l) (ln_reading l) (add_answer caller a (ln_answers l)) (ln_early l) (ln_events l) (ln_close l).
Definition ln_set_early (early : gmap nat (LinkError + Response)) (l : Link) : Link :=
  mkLink (ln_pending l) (ln_sending l) (ln_outgoing l) (ln_written l) (ln_writing l) (ln_reading l) (ln_answers l) early (ln_events l) (ln_close l).
(** What a caller's channel is sent, or dropped for: its answer, but for a caller that still
    queues its frame, which looks at its channel only after that. *)
(* @src/crates/throcc-client-core/src/control.rs 341-347! spawn_link *)
Definition resolve (caller : nat) (a : LinkError + Response) (l : Link) : Link :=
  match ln_sending l !! caller with
  | Some _ => ln_set_early (add_answer caller a (ln_early l)) l
  | None => answer caller a l
  end.
(** [Pending::close] drops the callers' channels, which fails those that wait. *)
Definition close_pending (l : Link) : Link :=
  ln_set_pending (pending_close (ln_pending l)) (foldr (fun '(_, caller) => resolve caller (inl Closed)) l (map_to_list (pn_waiting (ln_pending l)))).

(** A request up to where it queues its frame, [None] where it can be encoded. *)
(* @src/crates/throcc-client-core/src/control.rs 282-295! Requester::request *)
Definition request_start (caller : nat) (req : Request) (unsendable : option FrameError) (l : Link) : Link :=
  let '(registered, pending) := register caller (ln_pending l) in
  let l := ln_set_pending pending l in
  match registered with
  | inl IdsExhausted => answer caller (inl IdsExhausted) (close_with close.PROTOCOL_ERROR l)
  | inl e => answer caller (inl e) l
  | inr id =>
      match unsendable with
      | Some e => answer caller (inl (Unsendable e)) (ln_set_pending (mkPending (pn_next_id pending) (delete id (pn_waiting pending)) (pn_closed pending)) l)
      | None => ln_set_sending (<[caller := (id, req)]> (ln_sending l)) l
      end
  end.
(** Queueing the frame, once there is room; without the writer it fails.  Once it is queued
    the caller finds what its channel holds already, if anything. *)
(* @src/crates/throcc-client-core/src/control.rs 296-299! Requester::request *)
Definition request_queue (caller : nat) (l : Link) : Link :=
  match ln_sending l !! caller with
  | None => l
  | Some frame =>
      let arrived := ln_early l !! caller in
      let sent := ln_set_early (delete caller (ln_early l)) (ln_set_sending (delete caller (ln_sending l)) l) in
      if negb (ln_writing l) then answer caller (inl Closed) sent else
      if (OUTGOING_QUEUE <=? length (ln_outgoing l))%nat then l else
      let queued := ln_set_frames (ln_outgoing l ++ [frame]) (ln_written l) sent in
      match arrived with Some a => answer caller a queued | None => queued end
  end.
(** The callers whose reply is awaited. *)
Definition waiting_callers (l : Link) : list nat := (map_to_list (pn_waiting (ln_pending l))).*2.
(** A caller that awaits its reply stops waiting; its request stays registered. *)
(* @src/crates/throcc-client-core/src/control.rs 300-305! Requester::request *)
Definition request_timeout (caller : nat) (l : Link) : Link :=
  if bool_decide (caller ∈ waiting_callers l) && bool_decide (ln_sending l !! caller = None) then answer caller (inl TimedOut) l else l.

(* @src/crates/throcc-client-core/src/control.rs 320-325! spawn_link *)
Definition writer_turn (written : bool) (l : Link) : Link :=
  if negb (ln_writing l) then l else
  match ln_outgoing l with
  | [] => l
  | frame :: outgoing =>
      if written then ln_set_frames outgoing (ln_written l ++ [frame]) l
      else close_pending (ln_set_tasks false (ln_reading l) (ln_set_frames [] (ln_written l) l))
  end.
(* @src/crates/throcc-client-core/src/control.rs 331-361! spawn_link *)
Definition reader_turn (message : Read ServerMessage) (l : Link) : Link :=
  if negb (ln_reading l) then l else
  let stop l := close_pending (ln_set_tasks (ln_writing l) false l) in
  match message with
  | None => stop l
  | Some (inr _) => stop (close_with close.PROTOCOL_ERROR l)
  | Some (inl (SmResponse id response)) =>
      let pending := ln_pending l in
      match pn_waiting pending !! id with
      | Some caller => resolve caller (inr response) (ln_set_pending (mkPending (pn_next_id pending) (delete id (pn_waiting pending)) (pn_closed pending)) l)
      | None => stop (close_with close.PROTOCOL_ERROR l)
      end
  | Some (inl (SmEvent e)) => ln_add_event e l
  end.

(** One step of one of the tasks. *)
Inductive LinkOp :=
  | OpRequest (caller : nat) (req : Request) (unsendable : option FrameError)
  | OpQueue (caller : nat)
  | OpTimeout (caller : nat)
  | OpWrite (written : bool)
  | OpRead (message : Read ServerMessage).
Definition link_step (l : Link) (op : LinkOp) : Link :=
  match op with
  | OpRequest caller req unsendable => request_start caller req unsendable l
  | OpQueue caller => request_queue caller l
  | OpTimeout caller => request_timeout caller l
  | OpWrite written => writer_turn written l
  | OpRead message => reader_turn message l
  end.

(** ** Replies reach their requests, and nobody waits on a closed link *)

(** ** What happened on a link

    The requests registered, each with its caller and its frame (id and request), and the
    replies taken, in order. *)
Record History := mkHistory { hi_asked : list (nat * (Z * Request)); hi_got : list (Z * Response) }.
Definition asked_by (l : Link) (op : LinkOp) : list (nat * (Z * Request)) :=
  match op with
  | OpRequest caller req _ => match (register caller (ln_pending l)).1 with inr id => [(caller, (id, req))] | inl _ => [] end
  | _ => []
  end.
Definition got_by (l : Link) (op : LinkOp) : list (Z * Response) :=
  match op with
  | OpRead (Some (inl (SmResponse id response))) =>
      if ln_reading l then match pn_waiting (ln_pending l) !! id with Some _ => [(id, response)] | None => [] end else []
  | _ => []
  end.
Definition history_step (s : Link * History) (op : LinkOp) : Link * History :=
  (link_step s.1 op, mkHistory (hi_asked s.2 ++ asked_by s.1 op) (hi_got s.2 ++ got_by s.1 op)).
Definition link_run (ops : list LinkOp) : Link * History := foldl history_step (link_new, mkHistory [] []) ops.
Definition callers (ops : list LinkOp) : list nat := omap (fun op => match op with OpRequest caller _ _ => Some caller | _ => None end) ops.

(** What a caller has or will find in its channel. *)
Definition settled (l : Link) (caller : nat) : option (LinkError + Response) :=
  match ln_answers l !! caller with Some a => Some a | None => ln_early l !! caller end.
Record link_ok (cs : list nat) (l : Link) (h : History) : Prop := {
  ok_ids : NoDup ((hi_asked h).*2.*1);
  ok_below frame caller : (caller, frame) ∈ hi_asked h -> frame.1 < pn_next_id (ln_pending l);
  ok_callers caller frame : (caller, frame) ∈ hi_asked h -> caller ∈ cs;
  ok_once : NoDup ((hi_asked h).*1);
  ok_waiting id caller : pn_waiting (ln_pending l) !! id = Some caller -> (exists req, (caller, (id, req)) ∈ hi_asked h) /\ id ∉ (hi_got h).*1;
  ok_got : NoDup ((hi_got h).*1);
  ok_got_asked id response : (id, response) ∈ hi_got h -> exists caller req, (caller, (id, req)) ∈ hi_asked h;
  ok_reply caller response : settled l caller = Some (inr response) -> exists id req, (caller, (id, req)) ∈ hi_asked h /\ (id, response) ∈ hi_got h;
  ok_sending caller frame : ln_sending l !! caller = Some frame -> (caller, frame) ∈ hi_asked h /\ frame ∉ ln_written l ++ ln_outgoing l;
  ok_frames : NoDup (ln_written l ++ ln_outgoing l);
  ok_framed frame : frame ∈ ln_written l ++ ln_outgoing l -> exists caller, (caller, frame) ∈ hi_asked h;
  ok_open caller : caller ∈ cs -> is_Some (settled l caller) \/ exists id, pn_waiting (ln_pending l) !! id = Some caller;
  ok_fresh caller : is_Some (settled l caller) \/ is_Some (ln_sending l !! caller) -> caller ∈ cs;
  ok_early caller : is_Some (ln_early l !! caller) -> is_Some (ln_sending l !! caller);
  ok_unsent caller : is_Some (ln_sending l !! caller) -> ln_answers l !! caller = None;
  ok_closed : pn_closed (ln_pending l) = true -> pn_waiting (ln_pending l) = ∅;
  ok_tasks : ln_writing l = false \/ ln_reading l = false -> pn_closed (ln_pending l) = true
}.
Lemma link_new_ok : link_ok [] link_new (mkHistory [] []).
Proof. constructor; cbn; intros; try (by constructor); try done; try set_solver. all: try (by destruct H as [[]|[]]). all: destruct H; done. Qed.

(** ** Answers *)

Definition ln_set_settled (answers early : gmap nat (LinkError + Response)) (l : Link) : Link :=
  mkLink (ln_pending l) (ln_sending l) (ln_outgoing l) (ln_written l) (ln_writing l) (ln_reading l) answers early (ln_events l) (ln_close l).
Lemma add_answer_lookup caller a answers c :
  add_answer caller a answers !! c = match answers !! c with Some b => Some b | None => if decide (c = caller) then Some a else None end.
Proof.
  unfold add_answer. destruct (answers !! caller) as [b|] eqn:E.
  - destruct (answers !! c) eqn:Ec; [done|]. destruct (decide (c = caller)); congruence.
  - destruct (decide (c = caller)) as [->|]; [by rewrite lookup_insert_eq, E|]. rewrite lookup_insert_ne by done. by destruct (answers !! c).
Qed.
(** The callers a closing fails. *)
Lemma elem_of_waiting l c : c ∈ waiting_callers l <-> exists id, pn_waiting (ln_pending l) !! id = Some c.
Proof.
  unfold waiting_callers. rewrite list_elem_of_fmap. split; [intros ([id caller] & -> & Hin%elem_of_map_to_list); by exists id|].
  intros [id Hid]. exists (id, c). split; [done|]. by apply elem_of_map_to_list.
Qed.
(** Only what callers find changes, by [f] where nothing was found before. *)
Record settles (f : nat -> option (LinkError + Response)) (l l' : Link) : Prop := {
  st_rest : exists answers early, l' = ln_set_settled answers early l;
  st_found c : settled l' c = match settled l c with Some a => Some a | None => f c end;
  st_early c : is_Some (ln_early l' !! c) -> is_Some (ln_sending l !! c);
  st_unsent c : is_Some (ln_sending l !! c) -> ln_answers l' !! c = None
}.
Definition sane (l : Link) : Prop :=
  (forall c, is_Some (ln_early l !! c) -> is_Some (ln_sending l !! c)) /\ forall c, is_Some (ln_sending l !! c) -> ln_answers l !! c = None.
Lemma resolve_settles caller a l : sane l -> settles (fun c => if decide (c = caller) then Some a else None) l (resolve caller a l).
Proof.
  intros [He Hu]. unfold resolve. destruct (ln_sending l !! caller) as [frame|] eqn:Es.
  - split; cbn; [by eexists _, _| | |done].
    + intros c. unfold settled. cbn. rewrite add_answer_lookup. by destruct (ln_answers l !! c), (ln_early l !! c).
    + intros c. rewrite add_answer_lookup. destruct (ln_early l !! c) eqn:Ec; [intros _; by apply He; rewrite Ec|]. case_decide; [subst; by rewrite Es|by intros []].
  - assert (ln_early l !! caller = None) as Hn by (apply eq_None_not_Some; intros H%He; rewrite Es in H; by destruct H).
    split; cbn; [by eexists _, _| |done|].
    + intros c. unfold settled. cbn. rewrite add_answer_lookup. destruct (ln_answers l !! c); [done|]. case_decide; [subst; by rewrite Hn|by destruct (ln_early l !! c)].
    + intros c Hc. rewrite add_answer_lookup, Hu by done. rewrite decide_False; [done|]. intros ->. rewrite Es in Hc. by destruct Hc.
Qed.
Lemma resolve_answer caller a l : ln_sending l !! caller = None -> resolve caller a l = answer caller a l.
Proof. intros E. unfold resolve. by rewrite E. Qed.
Lemma settles_sane f l l' : settles f l l' -> sane l'.
Proof. intros [(answers & early & ->) F H U]. split; [exact H|exact U]. Qed.
Lemma close_pending_spec l : sane l -> exists answers early, close_pending l = ln_set_pending (pending_close (ln_pending l)) (ln_set_settled answers early l) /\
  settles (fun c => if decide (c ∈ waiting_callers l) then Some (inl Closed) else None) l (ln_set_settled answers early l).
Proof.
  intros Hl. unfold close_pending, waiting_callers.
  enough (settles (fun c => if decide (c ∈ (map_to_list (pn_waiting (ln_pending l))).*2) then Some (inl Closed) else None) l
    (foldr (fun '(_, caller) => resolve caller (inl Closed)) l (map_to_list (pn_waiting (ln_pending l))))) as H.
  { destruct (st_rest _ _ _ H) as (answers & early & E). exists answers, early. rewrite <- E. split; [done|exact H]. }
  induction (map_to_list (pn_waiting (ln_pending l))) as [|[id caller] waiting IH]; cbn.
  { split; [exists (ln_answers l), (ln_early l); by destruct l|intros c; by destruct (settled l c)|apply Hl|apply Hl]. }
  pose proof (resolve_settles caller (inl Closed) _ (settles_sane _ _ _ IH)) as [R F H U]. destruct IH as [(answers & early & E) F0 _ _].
  rewrite E in *. split; [destruct R as (answers' & early' & ->); by eexists _, _| |exact H|exact U].
  intros c. rewrite F, F0. destruct (settled l c); [done|]. repeat case_decide; try done; set_solver.
Qed.
Lemma ok_sane cs l h : link_ok cs l h -> sane l.
Proof. intros H. split; [apply (ok_early _ _ _ H)|apply (ok_unsent _ _ _ H)]. Qed.
(** Closing answers all who wait. *)
Lemma close_pending_ok cs l h (writing reading : bool) outgoing : link_ok cs l h -> outgoing = ln_outgoing l \/ outgoing = [] ->
  link_ok cs (close_pending (ln_set_tasks writing reading (ln_set_frames outgoing (ln_written l) l))) h.
Proof.
  intros H Hout. set (l0 := ln_set_tasks _ _ _).
  destruct (close_pending_spec l0 (ok_sane _ _ _ H)) as (answers & early & -> & [_ F He Hu]). change (settled l0) with (settled l) in F.
  assert (forall frame, frame ∈ ln_written l ++ outgoing -> frame ∈ ln_written l ++ ln_outgoing l) as Hf by (intros frame; destruct Hout as [->| ->]; [done|set_solver]).
  assert (forall c, c ∈ waiting_callers l0 <-> exists id, pn_waiting (ln_pending l) !! id = Some c) as Hwait by (intros c; exact (elem_of_waiting l0 c)).
  assert (forall c, settled (ln_set_pending (pending_close (ln_pending l0)) (ln_set_settled answers early l0)) c =
    match settled l c with Some a => Some a | None => if decide (c ∈ waiting_callers l0) then Some (inl Closed) else None end) as F' by exact F.
  destruct H; constructor; try done; cbn in He, Hu.
  - intros caller response E. rewrite F' in E. destruct (settled l caller) eqn:Ec; [apply ok_reply0; congruence|]. by case_decide.
  - cbn. intros caller frame E. destruct (ok_sending0 caller frame E) as [H1 H2]. split; [done|]. intros Hin. by apply H2, Hf.
  - cbn. destruct Hout as [->| ->]; [done|]. rewrite app_nil_r. by apply list.NoDup_app in ok_frames0 as [? _].
  - cbn. intros frame Hin. by apply ok_framed0, Hf.
  - intros caller Hc. left. rewrite F'. destruct (ok_open0 caller Hc) as [[a ->]|Hw]; [by eexists|]. destruct (settled l caller); [by eexists|].
    rewrite decide_True by (by apply Hwait). by eexists.
  - intros caller [[a E]|E]; [|apply ok_fresh0; by right]. rewrite F' in E. destruct (settled l caller) eqn:Ec; [apply ok_fresh0; left; by rewrite Ec|].
    case_decide as Hw; [|done]. apply Hwait in Hw as [id Hid]. destruct (ok_waiting0 id caller Hid) as [[req Hreq] _]. by apply ok_callers0 in Hreq.
Qed.
(** An answer for a caller, and for one whose request stops waiting. *)
Lemma settles_ok cs l l' h f : (forall c a, f c = Some a -> c ∈ cs /\ exists e, a = inl e) -> link_ok cs l h -> settles f l l' -> link_ok cs l' h.
Proof.
  intros Hf H [(answers & early & ->) F He Hu]. destruct H; constructor; cbn in *; try done.
  - intros c response E. rewrite F in E. destruct (settled l c) eqn:Ec; [apply ok_reply0; congruence|]. by destruct (Hf c _ E) as [_ [e [=]]].
  - intros c Hin. rewrite F. destruct (ok_open0 c Hin) as [[a ->]|Hw]; [left; by eexists|by right].
  - intros c [[a E]|E]; [|apply ok_fresh0; by right]. rewrite F in E. destruct (settled l c) eqn:Ec; [apply ok_fresh0; left; by rewrite Ec|]. by apply (Hf c a).
Qed.
Lemma answer_ok cs l h caller e : caller ∈ cs -> ln_sending l !! caller = None -> link_ok cs l h -> link_ok cs (answer caller (inl e) l) h.
Proof.
  intros Hc Hn H. rewrite <- resolve_answer by done. eapply settles_ok; [|exact H|apply resolve_settles; by eapply ok_sane].
  intros c a. cbn. case_decide; [|done]. subst. intros [= <-]. split; [done|by eexists].
Qed.
Lemma resolve_ok cs l asked got caller id a got' : pn_waiting (ln_pending l) !! id = Some caller ->
  (forall response, a = inr response -> got' = [(id, response)]) -> (forall e, a = inl e -> got' = []) ->
  link_ok cs l (mkHistory asked got) ->
  link_ok cs (resolve caller a (ln_set_pending (mkPending (pn_next_id (ln_pending l)) (delete id (pn_waiting (ln_pending l))) (pn_closed (ln_pending l))) l)) (mkHistory asked (got ++ got')).
Proof.
  intros Hid Hr Hl H. set (l0 := ln_set_pending _ l). destruct (resolve_settles caller a l0 (ok_sane _ _ _ H)) as [(answers & early & E) F He Hu].
  rewrite E in *. change (settled l0) with (settled l) in F. clear E. destruct H; constructor; cbn in *; try done.
  - intros i c [Hne Hi]%lookup_delete_Some. destruct (ok_waiting0 i c Hi) as [H1 H2]. split; [done|]. rewrite fmap_app, not_elem_of_app. split; [done|].
    destruct a as [e|response]; [by rewrite (Hl e eq_refl); apply not_elem_of_nil|]. rewrite (Hr response eq_refl). cbn. by intros ->%list_elem_of_singleton.
  - rewrite fmap_app. destruct a as [e|response]; [rewrite (Hl e eq_refl); cbn; by rewrite app_nil_r|]. rewrite (Hr response eq_refl). cbn. apply list.NoDup_app. split_and!; [done| |by apply NoDup_singleton].
    intros i Hi ->%list_elem_of_singleton. by destruct (ok_waiting0 id caller Hid).
  - intros i response [Hin|Hin]%elem_of_app; [by apply (ok_got_asked0 i response)|]. destruct a as [e|r]; [rewrite (Hl e eq_refl) in Hin; by apply not_elem_of_nil in Hin|].
    rewrite (Hr r eq_refl) in Hin. apply list_elem_of_singleton in Hin as [= -> ->]. destruct (ok_waiting0 id caller Hid) as [[req Hreq] _]. by exists caller, req.
  - intros c response E. rewrite F in E. destruct (settled l c) eqn:Ec.
    + destruct (ok_reply0 c response) as (i & req & H1 & H2); [congruence|]. exists i, req. split; [done|]. apply elem_of_app. by left.
    + case_decide as Hc; [|done]. subst c. injection E as ->. destruct (ok_waiting0 id caller Hid) as [[req Hreq] _]. exists id, req. split; [done|]. rewrite (Hr response eq_refl). set_solver.
  - intros c Hin. rewrite F. destruct (ok_open0 c Hin) as [[b ->]|[i Hi]]; [left; by eexists|]. destruct (decide (i = id)) as [->|Hne].
    + left. assert (c = caller) as -> by congruence. destruct (settled l caller); [by eexists|]. rewrite decide_True by done. by eexists.
    + right. exists i. by rewrite lookup_delete_ne.
  - intros c [[b E]|E]; [|apply ok_fresh0; by right]. rewrite F in E. destruct (settled l c) eqn:Ec; [apply ok_fresh0; left; by rewrite Ec|].
    case_decide; [|done]. subst c. destruct (ok_waiting0 id caller Hid) as [[req Hreq] _]. by apply ok_callers0 in Hreq.
  - intros Hcl. by rewrite (ok_closed0 Hcl), delete_empty.
Qed.

(** ** The steps *)

Lemma close_with_ok cs l h code : link_ok cs l h -> link_ok cs (close_with code l) h.
Proof. intros H. by destruct H; constructor. Qed.
Lemma stop_reading_ok cs l h : link_ok cs l h -> link_ok cs (close_pending (ln_set_tasks (ln_writing l) false l)) h.
Proof. intros H. pose proof (close_pending_ok cs l h (ln_writing l) false (ln_outgoing l) H (or_introl eq_refl)) as Hc. by destruct l. Qed.
Lemma read_ok cs l asked got message : link_ok cs l (mkHistory asked got) ->
  link_ok cs (reader_turn message l) (mkHistory asked (got ++ got_by l (OpRead message))).
Proof.
  intros H. unfold reader_turn. cbn [got_by]. destruct (ln_reading l) eqn:Er; cbn [negb]; [|by destruct message as [[[]|]|]; rewrite app_nil_r].
  destruct message as [[[id response|e]|e]|]; rewrite ?app_nil_r; [| |by apply stop_reading_ok, close_with_ok|by apply stop_reading_ok].
  - destruct (pn_waiting (ln_pending l) !! id) as [caller|] eqn:Ew.
    + apply resolve_ok; [done| |done|done]. by intros response' [= ->].
    + rewrite app_nil_r. by apply (stop_reading_ok cs (close_with close.PROTOCOL_ERROR l)), close_with_ok.
  - by destruct H; constructor.
Qed.
Lemma write_ok cs l h written : link_ok cs l h -> link_ok cs (writer_turn written l) h.
Proof.
  intros H. unfold writer_turn. destruct (ln_writing l) eqn:Ew; cbn [negb]; [|done]. destruct (ln_outgoing l) as [|frame outgoing] eqn:Eo; [done|]. destruct written.
  - assert ((ln_written l ++ [frame]) ++ outgoing = ln_written l ++ ln_outgoing l) as E by (by rewrite <- app_assoc, Eo).
    destruct H; constructor; cbn; rewrite ?E; done.
  - apply close_pending_ok; [done|by right].
Qed.
Lemma timeout_ok cs l h caller : link_ok cs l h -> link_ok cs (request_timeout caller l) h.
Proof.
  intros H. unfold request_timeout. destruct (_ && _) eqn:E; [|done].
  apply andb_true_iff in E as [[id Hid]%bool_decide_eq_true%elem_of_waiting Hn%bool_decide_eq_true].
  apply answer_ok; [|done|done]. destruct (ok_waiting _ _ _ H id caller Hid) as [[req Hreq] _]. by apply (ok_callers _ _ _ H) in Hreq.
Qed.
(** The frame left the caller's hands: its channel is what it looks at now. *)
Lemma unsend_ok cs l h caller a : link_ok cs l h -> is_Some (ln_sending l !! caller) -> a = ln_early l !! caller \/ (exists e, a = Some (inl e)) ->
  let sent := ln_set_early (delete caller (ln_early l)) (ln_set_sending (delete caller (ln_sending l)) l) in
  link_ok cs (match a with Some a => answer caller a sent | None => sent end) h.
Proof.
  intros H Hs Ha. cbn zeta. set (l1 := match a with Some a => _ | None => _ end).
  assert (exists answers, l1 = ln_set_settled answers (delete caller (ln_early l)) (ln_set_sending (delete caller (ln_sending l)) l) /\
    forall c, answers !! c = match ln_answers l !! c with Some b => Some b | None => if decide (c = caller) then a else None end) as (answers & -> & Hans).
  { destruct a as [a|]; [exists (add_answer caller a (ln_answers l))|exists (ln_answers l)]; (split; [done|]); intros c; [apply add_answer_lookup|].
    by destruct (ln_answers l !! c), (decide (c = caller)). }
  pose proof (ok_unsent _ _ _ H caller Hs) as Hnone.
  assert (forall c, settled (ln_set_settled answers (delete caller (ln_early l)) (ln_set_sending (delete caller (ln_sending l)) l)) c =
    if decide (c = caller) then a else settled l c) as F.
  { intros c. unfold settled. cbn. rewrite Hans. case_decide; [subst; rewrite Hnone, lookup_delete_eq; by destruct a|].
    rewrite lookup_delete_ne by done. by destruct (ln_answers l !! c). }
  assert (settled l caller = ln_early l !! caller) as Hset by (unfold settled; by rewrite Hnone).
  destruct H; constructor; cbn in *; try done.
  - intros c response. rewrite F. case_decide; [subst c|apply ok_reply0]. intros ->. destruct Ha as [Ha|[e [=]]]. apply ok_reply0. by rewrite Hset, <- Ha.
  - intros c frame [_ E]%lookup_delete_Some. by apply ok_sending0.
  - intros c Hin. rewrite F. case_decide; [subst c|by apply ok_open0]. destruct Ha as [->|[e ->]]; [rewrite <- Hset; by apply ok_open0|left; by eexists].
  - intros c [E|[frame [_ E]%lookup_delete_Some]]; [|apply ok_fresh0; right; by eexists]. rewrite F in E. case_decide; [subst; apply ok_fresh0; by right|]. apply ok_fresh0. by left.
  - intros c [b [Hne Hb]%lookup_delete_Some]. rewrite lookup_delete_ne by done. apply ok_early0. by eexists.
  - intros c [f [Hne Hf]%lookup_delete_Some]. rewrite Hans, ok_unsent0 by (by eexists). by rewrite decide_False.
Qed.
Lemma queue_ok cs l h caller : link_ok cs l h -> link_ok cs (request_queue caller l) h.
Proof.
  intros H. unfold request_queue. destruct (ln_sending l !! caller) as [frame|] eqn:Es; [|done]. cbv zeta.
  destruct (ln_writing l) eqn:Ew; cbn [negb].
  - destruct (_ <=? _)%nat; [done|]. pose proof (ok_sending _ _ _ H caller frame Es) as [Ha Hn].
    pose proof (unsend_ok cs l h caller (ln_early l !! caller) H ltac:(by rewrite Es) ltac:(by left)) as H'. cbn zeta in H'.
    assert (forall c f, delete caller (ln_sending l) !! c = Some f -> f <> frame) as Hother.
    { intros c f [Hne E]%lookup_delete_Some ->. destruct (ok_sending _ _ _ H c frame E) as [Hc _]. pose proof (ok_ids _ _ _ H) as Hnd. pose proof (ok_once _ _ _ H) as Hn1.
      rewrite <- list_fmap_compose in Hnd. apply Hne. apply list_elem_of_lookup in Ha as [i Hi]. apply list_elem_of_lookup in Hc as [j Hj].
      assert (i = j) as -> by (eapply (NoDup_lookup _ i j frame.1 Hnd); rewrite list_lookup_fmap, ?Hi, ?Hj; done). congruence. }
    set (l1 := match ln_early l !! caller with Some a => answer _ _ (ln_set_early _ _) | None => _ end) in H'.
    assert (match ln_early l !! caller with
      | Some a => answer caller a (ln_set_frames (ln_outgoing l ++ [frame]) (ln_written l) (ln_set_early (delete caller (ln_early l)) (ln_set_sending (delete caller (ln_sending l)) l)))
      | None => ln_set_frames (ln_outgoing l ++ [frame]) (ln_written l) (ln_set_early (delete caller (ln_early l)) (ln_set_sending (delete caller (ln_sending l)) l))
      end = ln_set_frames (ln_outgoing l ++ [frame]) (ln_written l) l1) as -> by (unfold l1; by destruct (ln_early l !! caller)).
    assert (ln_written l1 = ln_written l /\ ln_outgoing l1 = ln_outgoing l /\ ln_sending l1 = delete caller (ln_sending l)) as (E1 & E2 & E3) by (unfold l1; by destruct (ln_early l !! caller)).
    clearbody l1. rewrite <- E1, <- E2. destruct H'; constructor; cbn in *; try done.
    + intros c f E. destruct (ok_sending0 c f E) as [H1 H2]. split; [done|]. rewrite app_assoc, not_elem_of_app. split; [done|]. intros ->%list_elem_of_singleton. apply (Hother c frame); [by rewrite <- E3|done].
    + rewrite app_assoc. apply list.NoDup_app. split_and!; [done| |by apply NoDup_singleton]. rewrite E1, E2. by intros f Hf ->%list_elem_of_singleton.
    + intros f. rewrite app_assoc. intros [Hf| ->%list_elem_of_singleton]%elem_of_app; [by apply ok_framed0|by exists caller].
  - apply (unsend_ok cs l h caller (Some (inl Closed)) H); [by rewrite Es|right; by eexists].
Qed.
Lemma register_spec caller p : match register caller p with
  | (inl e, p') => p' = p /\ (forall f, e <> Unsendable f)
  | (inr id, p') => pn_closed p = false /\ id = pn_next_id p /\ p' = mkPending (pn_next_id p + 1) (<[pn_next_id p := caller]> (pn_waiting p)) false
  end.
Proof. unfold register, checked_add32. destruct (pn_closed p) eqn:E; [done|]. destruct (_ <=? _); [done|done]. Qed.
Lemma turned_away_ok cs l h caller e : caller ∉ cs -> link_ok cs l h -> link_ok (cs ++ [caller]) (answer caller (inl e) l) h.
Proof.
  intros Hc H. assert (ln_sending l !! caller = None) as Hs by (apply eq_None_not_Some; intros Hs; apply Hc, (ok_fresh _ _ _ H); by right).
  rewrite <- resolve_answer by done. destruct (resolve_settles caller (inl e) l (ok_sane _ _ _ H)) as [(answers & early & E) F He Hu]. rewrite E in *. clear E.
  destruct H; constructor; cbn in *; try done.
  - intros c frame Hin. apply elem_of_app. left. by eapply ok_callers0.
  - intros c response E. rewrite F in E. destruct (settled l c) eqn:Ec; [apply ok_reply0; congruence|]. by case_decide.
  - intros c Hin. rewrite F. apply elem_of_app in Hin as [Hin| ->%list_elem_of_singleton].
    + destruct (ok_open0 c Hin) as [[a ->]|Hw]; [left; by eexists|by right].
    + left. destruct (settled l caller); [by eexists|]. rewrite decide_True by done. by eexists.
  - intros c [[a E]|E]; [|apply elem_of_app; left; apply ok_fresh0; by right]. rewrite F in E.
    destruct (settled l c) eqn:Ec; [apply elem_of_app; left; apply ok_fresh0; left; by rewrite Ec|]. case_decide; [|done]. subst c. set_solver.
Qed.
Lemma registered_ok cs l asked got caller req : caller ∉ cs -> pn_closed (ln_pending l) = false -> link_ok cs l (mkHistory asked got) ->
  let id := pn_next_id (ln_pending l) in
  link_ok (cs ++ [caller]) (ln_set_pending (mkPending (id + 1) (<[id := caller]> (pn_waiting (ln_pending l))) false) l) (mkHistory (asked ++ [(caller, (id, req))]) got) /\
  forall frame, frame ∈ ln_written l ++ ln_outgoing l -> frame.1 < id.
Proof.
  intros Hc Hcl H. cbn zeta. set (id := pn_next_id (ln_pending l)).
  assert (forall frame, frame ∈ ln_written l ++ ln_outgoing l -> frame.1 < id) as Hframes.
  { intros frame Hin. destruct (ok_framed _ _ _ H frame Hin) as [c Ha]. by apply (ok_below _ _ _ H frame c). }
  split; [|done]. destruct H; constructor; cbn in *; try done.
  - rewrite !fmap_app. apply list.NoDup_app. split_and!; [done| |by apply NoDup_singleton]. cbn. intros i Hi ->%list_elem_of_singleton.
    apply list_elem_of_fmap in Hi as (frame & E & [[c f] [-> Hin]]%list_elem_of_fmap). specialize (ok_below0 f c Hin). cbn in E. unfold id in E. lia.
  - intros frame c [Hin|[= -> ->]%list_elem_of_singleton]%elem_of_app; [|cbn; lia]. specialize (ok_below0 frame c Hin). fold id in ok_below0. lia.
  - intros c frame [Hin|[= -> ->]%list_elem_of_singleton]%elem_of_app; apply elem_of_app; [left; by eapply ok_callers0|right; set_solver].
  - rewrite fmap_app. apply list.NoDup_app. split_and!; [done| |by apply NoDup_singleton]. cbn. intros c Hi ->%list_elem_of_singleton. apply Hc.
    apply list_elem_of_fmap in Hi as ([c f] & -> & Hin). by apply (ok_callers0 c f).
  - intros i c. destruct (decide (i = id)) as [->|Hne].
    + rewrite lookup_insert_eq. intros [= <-]. split; [exists req; set_solver|]. intros Hin. apply list_elem_of_fmap in Hin as ([i response] & E & Hin). cbn in E. subst i.
      destruct (ok_got_asked0 id response Hin) as (c & r & Ha). specialize (ok_below0 _ _ Ha). cbn in ok_below0. unfold id in ok_below0. lia.
    + rewrite lookup_insert_ne by done. intros E. destruct (ok_waiting0 i c E) as [[r Hr] Hn]. split; [exists r; set_solver|done].
  - intros i response Hin. destruct (ok_got_asked0 i response Hin) as (c & r & Ha). exists c, r. set_solver.
  - intros c response E. destruct (ok_reply0 c response E) as (i & r & Ha & Hg). exists i, r. set_solver.
  - intros c frame E. destruct (ok_sending0 c frame E) as [Ha Hn]. split; [set_solver|done].
  - intros frame Hin. destruct (ok_framed0 frame Hin) as [c Ha]. exists c. set_solver.
  - intros c [Hin| ->%list_elem_of_singleton]%elem_of_app.
    + destruct (ok_open0 c Hin) as [Ha|[i Hi]]; [by left|right]. exists i. rewrite lookup_insert_ne; [done|]. intros <-. destruct (ok_waiting0 id c Hi) as [[r Hr] _].
      specialize (ok_below0 _ _ Hr). cbn in ok_below0. unfold id in ok_below0. lia.
    + right. exists id. by rewrite lookup_insert_eq.
  - intros c Hin. apply elem_of_app. left. by apply ok_fresh0.
  - intros Ht. specialize (ok_tasks0 Ht). congruence.
Qed.
Lemma request_ok cs l asked got caller req unsendable : caller ∉ cs -> link_ok cs l (mkHistory asked got) ->
  link_ok (cs ++ [caller]) (request_start caller req unsendable l) (mkHistory (asked ++ asked_by l (OpRequest caller req unsendable)) got).
Proof.
  intros Hc H. unfold request_start, asked_by. pose proof (register_spec caller (ln_pending l)) as Hr. destruct (register caller (ln_pending l)) as [[e|id] p]; cbn [fst].
  - destruct Hr as [-> _]. rewrite app_nil_r. assert (ln_set_pending (ln_pending l) l = l) as -> by by destruct l.
    destruct e; apply turned_away_ok; try done. by apply close_with_ok.
  - assert (ln_sending l !! caller = None) as Hn by (apply eq_None_not_Some; intros Hs; apply Hc, (ok_fresh _ _ _ H); by right).
    destruct Hr as (Hcl & -> & ->). destruct (registered_ok cs l asked got caller req Hc Hcl H) as [Hreg Hframes]. destruct unsendable as [e|].
    + cbn [pn_waiting pn_next_id pn_closed]. pose proof (resolve_ok (cs ++ [caller]) _ _ got caller (pn_next_id (ln_pending l)) (inl (Unsendable e)) [] (lookup_insert_eq _ _ _) ltac:(done) ltac:(done) Hreg) as Hres.
      rewrite resolve_answer in Hres by done. cbn in Hres. rewrite app_nil_r in Hres. exact Hres.
    + assert (settled l caller = None) as Hset by (apply eq_None_not_Some; intros Hs; apply Hc, (ok_fresh _ _ _ H); by left).
      destruct Hreg; constructor; cbn in *; try done.
      * intros c frame. destruct (decide (c = caller)) as [->|Hne]; [rewrite lookup_insert_eq; intros [= <-]|rewrite lookup_insert_ne by done; apply ok_sending0].
        split; [set_solver|]. intros Hin. specialize (Hframes _ Hin). cbn in Hframes. lia.
      * intros c [Ha|Hs]; [apply ok_fresh0; by left|]. destruct (decide (c = caller)) as [->|Hne]; [set_solver|]. rewrite lookup_insert_ne in Hs by done. apply ok_fresh0. by right.
      * intros c Hc'. rewrite lookup_insert. case_decide; [by eexists|by apply ok_early0].
      * intros c Hc'. rewrite lookup_insert in Hc'. case_decide as Hd; [subst c|by apply ok_unsent0]. unfold settled in Hset. by destruct (ln_answers l !! caller).
Qed.

Lemma link_run_snoc ops op : link_run (ops ++ [op]) = history_step (link_run ops) op.
Proof. unfold link_run. by rewrite foldl_snoc. Qed.
Lemma link_run_ok ops : NoDup (callers ops) -> link_ok (callers ops) (link_run ops).1 (link_run ops).2.
Proof.
  induction ops as [|op ops IH] using rev_ind; intros Hnd; [apply link_new_ok|]. rewrite link_run_snoc. unfold callers in *. rewrite omap_app in *.
  apply list.NoDup_app in Hnd as (Hnd & Hdis & _). specialize (IH Hnd). destruct (link_run ops) as [l [asked got]]. unfold history_step. cbn [fst snd hi_asked hi_got] in *.
  destruct op as [caller req unsendable|caller|caller|written|message]; cbn in *; rewrite ?app_nil_r.
  - apply request_ok; [|done]. intros Hin. apply (Hdis caller Hin). by left.
  - by apply queue_ok.
  - by apply timeout_ok.
  - by apply write_ok.
  - by apply read_ok.
Qed.

(** C20: however the tasks of a control link interleave, and whatever the server sends, the
    reply a caller gets was taken for its own request: for the one id its frame carries,
    which no other caller's does and which takes one reply at most.  Frames are queued and
    written once each, and each is some caller's request under that caller's id. *)
Theorem replies_reach_their_own_request (ops : list LinkOp) : NoDup (callers ops) ->
  let '(l, h) := link_run ops in
  (forall caller response, ln_answers l !! caller = Some (inr response) -> exists id req,
     (caller, (id, req)) ∈ hi_asked h /\ (id, response) ∈ hi_got h /\
     (forall other req', (other, (id, req')) ∈ hi_asked h -> other = caller /\ req' = req) /\
     (forall response', (id, response') ∈ hi_got h -> response' = response)) /\
  NoDup (ln_written l ++ ln_outgoing l).*1 /\
  (forall frame, frame ∈ ln_written l ++ ln_outgoing l -> exists caller, (caller, frame) ∈ hi_asked h).
Proof.
  intros Hnd. pose proof (link_run_ok ops Hnd) as H. destruct (link_run ops) as [l h]. cbn [fst snd] in H.
  assert (forall c c' f f', (c, f) ∈ hi_asked h -> (c', f') ∈ hi_asked h -> f.1 = f'.1 -> c = c' /\ f = f') as Hinj.
  { intros c c' f f' Hc Hc' E. pose proof (ok_ids _ _ _ H) as Hids. rewrite <- list_fmap_compose in Hids. apply list_elem_of_lookup in Hc as [i Hi]. apply list_elem_of_lookup in Hc' as [j Hj].
    assert (i = j) as -> by (eapply (NoDup_lookup _ i j f.1 Hids); rewrite list_lookup_fmap, ?Hi, ?Hj; cbn; congruence). split; congruence. }
  split_and!.
  - intros caller response E. destruct (ok_reply _ _ _ H caller response) as (id & req & Ha & Hg); [unfold settled; by rewrite E|]. exists id, req. split_and!; [done|done| |].
    + intros other req' Ho. destruct (Hinj _ _ _ _ Ho Ha eq_refl) as [-> E']. split; [done|]. congruence.
    + intros response' Hg'. pose proof (ok_got _ _ _ H) as Hgot. apply list_elem_of_lookup in Hg as [i Hi]. apply list_elem_of_lookup in Hg' as [j Hj].
      assert (i = j) as -> by (eapply (NoDup_lookup _ i j id Hgot); rewrite list_lookup_fmap, ?Hi, ?Hj; done). congruence.
  - apply NoDup_fmap_2_strong; [|apply (ok_frames _ _ _ H)]. intros f f' Hf Hf' E. destruct (ok_framed _ _ _ H f Hf) as [c Hc], (ok_framed _ _ _ H f' Hf') as [c' Hc'].
    by destruct (Hinj c c' f f' Hc Hc' E).
  - apply (ok_framed _ _ _ H).
Qed.

(** C26: while a link is open, each caller has an answer or will be found by one: it is still
    registered for its reply, or the reply is in its channel already and it has yet to queue
    its frame.  Once the stream closed, was refused a write or said something it must not,
    nobody is registered: every caller has an answer but those that still wait for room in the
    queue of frames, and those are answered as soon as the writer is gone or has made room,
    with [Closed] where it is gone.  Later requests fail at once. *)
Theorem nobody_waits_on_a_closed_link (ops : list LinkOp) : NoDup (callers ops) ->
  let '(l, h) := link_run ops in
  (forall caller, caller ∈ callers ops -> is_Some (ln_answers l !! caller) \/ caller ∈ waiting_callers l \/ (is_Some (ln_sending l !! caller) /\ is_Some (ln_early l !! caller))) /\
  (ln_writing l = false \/ ln_reading l = false ->
   waiting_callers l = [] /\
   (forall caller, caller ∈ callers ops -> is_Some (ln_answers l !! caller) \/ is_Some (ln_sending l !! caller)) /\
   (forall caller, is_Some (ln_sending l !! caller) ->
      (ln_writing l = false -> ln_answers (request_queue caller l) !! caller = Some (inl Closed)) /\
      ((length (ln_outgoing l) < OUTGOING_QUEUE)%nat -> is_Some (ln_answers (request_queue caller l) !! caller))) /\
   forall caller req unsendable, caller ∉ callers ops -> ln_answers (request_start caller req unsendable l) !! caller = Some (inl Closed)).
Proof.
  intros Hnd. pose proof (link_run_ok ops Hnd) as H. destruct (link_run ops) as [l h]. cbn [fst snd] in H.
  assert (forall c, is_Some (settled l c) -> is_Some (ln_answers l !! c) \/ (is_Some (ln_sending l !! c) /\ is_Some (ln_early l !! c))) as Hset.
  { intros c Hs. unfold settled in Hs. destruct (ln_answers l !! c); [by left|right]. split; [by apply (ok_early _ _ _ H)|done]. }
  split; [intros caller Hc; destruct (ok_open _ _ _ H caller Hc) as [[|]%Hset|Hw]; [by left|by right; right|right; left; by apply elem_of_waiting]|].
  intros Ht. pose proof (ok_tasks _ _ _ H Ht) as Hcl. pose proof (ok_closed _ _ _ H Hcl) as Hw. split_and!.
  - unfold waiting_callers. by rewrite Hw, map_to_list_empty.
  - intros caller Hc. destruct (ok_open _ _ _ H caller Hc) as [[|[]]%Hset|[id Hid]]; [by left|by right|by rewrite Hw, lookup_empty in Hid].
  - intros caller Hs. pose proof (ok_unsent _ _ _ H caller Hs) as Hn.
    assert (is_Some (ln_early l !! caller)) as [a Ha].
    { assert (caller ∈ callers ops) as Hc by (apply (ok_fresh _ _ _ H); by right).
      destruct (ok_open _ _ _ H caller Hc) as [[[a E]|[]]%Hset|[id Hid]]; [by rewrite Hn in E|done|by rewrite Hw, lookup_empty in Hid]. }
    unfold request_queue. destruct Hs as [frame ->]. cbv zeta. split.
    + intros ->. cbn. by rewrite add_answer_lookup, Hn, decide_True.
    + intros Hroom. rewrite Ha. destruct (ln_writing l); cbn [negb].
      * rewrite (proj2 (Nat.leb_gt _ _) Hroom). cbn. rewrite add_answer_lookup, Hn, decide_True by done. by eexists.
      * cbn. rewrite add_answer_lookup, Hn, decide_True by done. by eexists.
  - intros caller req unsendable Hc. unfold request_start, register. rewrite Hcl. cbn. rewrite add_answer_lookup.
    destruct (ln_answers l !! caller) eqn:E; [exfalso; apply Hc, (ok_fresh _ _ _ H); left; unfold settled; rewrite E; by eexists|]. by rewrite decide_True.
Qed.

(** Two requests, answered out of order, one late; then a reply nobody waits for. *)
Definition broken_ops : list LinkOp :=
  [OpRequest 0 LeaveRoom None; OpRequest 1 ListUsers None; OpQueue 1; OpQueue 0; OpWrite true; OpWrite true;
   OpRead (Some (inl (SmResponse 1 (RespUsers [])))); OpTimeout 0; OpRead (Some (inl (SmResponse 0 RespOk))); OpRequest 2 CreateInvite None;
   OpRead (Some (inl (SmResponse 0 RespOk)))].
(** The last request queues its frame only then. *)
Definition some_ops : list LinkOp := broken_ops ++ [OpQueue 2].
Lemma some_callers : NoDup (callers some_ops) /\ NoDup (callers broken_ops).
Proof. change (callers some_ops) with [0%nat; 1%nat; 2%nat]. change (callers broken_ops) with [0%nat; 1%nat; 2%nat]. split; repeat constructor; set_solver. Qed.
Lemma replies_reach_their_own_request_witness :
  (fun caller => ln_answers (link_run some_ops).1 !! caller) <$> [0%nat; 1%nat; 2%nat] = [Some (inl TimedOut); Some (inr (RespUsers [])); Some (inl Closed)] /\
  exists id req, (1%nat, (id, req)) ∈ hi_asked (link_run some_ops).2 /\ (id, RespUsers []) ∈ hi_got (link_run some_ops).2.
Proof.
  split; [by vm_compute|]. pose proof (replies_reach_their_own_request some_ops (proj1 some_callers)) as H. destruct (link_run some_ops) as [l h] eqn:E.
  destruct H as (H & _). destruct (H 1%nat (RespUsers [])) as (id & req & H1 & H2 & _); [|exists id, req; split; [exact H1|exact H2]].
  change l with (l, h).1. rewrite <- E. by vm_compute.
Defined.
Lemma nobody_waits_on_a_closed_link_witness : ln_reading (link_run broken_ops).1 = false /\ waiting_callers (link_run broken_ops).1 = [] /\
  ln_answers (link_run broken_ops).1 !! 2%nat = None /\ is_Some (ln_answers (request_queue 2 (link_run broken_ops).1) !! 2%nat).
Proof.
  split; [by vm_compute|]. pose proof (nobody_waits_on_a_closed_link broken_ops (proj2 some_callers)) as H. destruct (link_run broken_ops) as [l h] eqn:E.
  destruct H as (_ & H). destruct H as (H1 & _ & H2 & _); [right; change l with (l, h).1; rewrite <- E; by vm_compute|]. cbn [fst].
  assert (ln_answers l !! 2%nat = None /\ is_Some (ln_sending l !! 2%nat) /\ length (ln_outgoing l) = 0%nat) as (H3 & H4 & H5)
    by (change l with (l, h).1; rewrite <- E; split_and!; [by vm_compute|vm_compute; by eexists|by vm_compute]).
  split; [exact H1|]. split; [exact H3|]. apply (H2 2%nat H4). rewrite H5. unfold OUTGOING_QUEUE. lia.
Defined.
