(* ===== verification/Account.v ===== *)
(** * Signing in and enrolling (throcc-client-core, account.rs)

    An account's way in: the pin, the connection, the login of Link.v and the encryption key
    of Keystore.v published afterwards.  What the network answers is in [Network] and in the
    answers of each step. *)
From S2P Require Import Prelude Ids Frame Fingerprint Invite Messages Crypto JsonFile Floors Servers Keystore Link.
Open Scope Z_scope.

(* @src/crates/throcc-client-core/src/account.rs 12-26 SignInError *)
Inductive SignInError := NotEnrolled (address : str) | SignInConnect (e : ConnectError) | SignInLogin (e : LoginError) | SignInLink (e : LinkError)
  | SignInKey (why : str) | SignInStore (e : KeystoreError).
(* @src/crates/throcc-client-core/src/account.rs 29-37 SignInError::pin_mismatch *)
Definition pin_mismatch (e : SignInError) : option (bytes * bytes) :=
  match e with SignInConnect (PinMismatch expected actual) => Some (expected, actual) | _ => None end.
(* @src/crates/throcc-client-core/src/account.rs 39-42 SignInError::identity_missing *)
Definition identity_missing (e : SignInError) : bool := match e with SignInStore IdentityMissing => true | _ => false end.

Section with_crypto.
Context (sha256 : bytes -> bytes) (seed_public secret_public : bytes -> PublicKey) (sign : bytes -> bytes -> Signature).
Context {State : Type} (start_a : bytes -> bytes -> bytes -> bytes -> State * bytes) (spake2_finish : State -> bytes -> option bytes)
  (hkdf : bytes -> bytes -> bytes -> bytes) (hmac : bytes -> bytes -> bytes).

(** The key sent, and why it was not taken; [reply] is what the request came to. *)
(* @src/crates/throcc-client-core/src/account.rs 88-98 publish_encryption_key *)
Definition publish_encryption_key (store : Keystore) (server : bytes) (me : UserId) (reply : LinkError + Response) : SignedEncryptionKey * (SignInError + unit) :=
  (signed_encryption_key secret_public sign server me store,
   match reply with
   | inl e => inl (SignInLink e)
   | inr response => match expect_ok response with None => inr tt | Some why => inl (SignInKey why) end
   end).

(** What a sign-in meets: the network, our nonce, the server's hello, whether our message
    could be written, the server's result and its reply to the key. *)
Record SignInAnswers := mkSignInAnswers {
  sa_network : Network; sa_nonce : bytes; sa_hello : Read ServerHello; sa_written : bool; sa_result : Read AuthResult; sa_published : LinkError + Response
}.
(** What was sent of it, as far as it came. *)
Record Sent := mkSent { sn_hello : option ClientHello; sn_finish : option PakeFinish; sn_key : option SignedEncryptionKey }.
(* @src/crates/throcc-client-core/src/account.rs 45-60 sign_in *)
Definition sign_in (store : Keystore) (address : str) (want_room : option RoomId) (a : SignInAnswers) : Sent * (SignInError + Welcome) :=
  match known_get address (kt_known store) with
  | None => (mkSent None None None, inl (NotEnrolled address))
  | Some pin =>
      match connect sha256 (sa_network a) (Some pin) with
      | inl e => (mkSent None None None, inl (SignInConnect e))
      | inr connected =>
          let '(hello, welcome) := login seed_public sign connected (kt_identity store) (sa_nonce a) want_room (sa_hello a) (sa_written a) (sa_result a) in
          match welcome with
          | inl (e, _) => (mkSent hello None None, inl (SignInLogin e))
          | inr welcome =>
              let '(key, published) := publish_encryption_key store (cn_fingerprint connected) (we_me welcome) (sa_published a) in
              (mkSent hello None (Some key), match published with inl e => inl e | inr _ => inr welcome end)
          end
      end
  end.

(** The change [KnownServers::trust] makes, and [EpochFloors::forget]'s, whose failure is
    only logged. *)
(* @src/crates/throcc-client-core/src/known_servers.rs 36-43 trust *)
Definition trust_server (address : str) (fingerprint : bytes) (store : Keystore) : K Keystore :=
  fun '(k, n) =>
    let '(ok, known, file) := known_trust (negb (n =? 0)%nat) address fingerprint (kt_known store) (kp_servers k) in
    (if ok then inr (mkKeystore (kt_identity store) (kt_encryption store) (kt_created store) known)
     else inl match kp_servers k with Some _ => Stopped | None => BadServers end,
     (mkKept (kp_keychain k) (kp_identity k) (kp_encryption k) file, pred n)).
(* @src/crates/throcc-client-core/src/floors.rs 101-107 EpochFloors::forget *)
Definition forget_floors (server : bytes) (me : UserId) : K unit :=
  fun '(k, n) =>
    let '(_, file) := cell_update (negb (n =? 0)%nat) (server_mut server (fun kept => mkServer (ks_name kept) (ks_avatar kept) (floors_forget me (ks_epochs kept)))) (kp_servers k) in
    (inr tt, (mkKept (kp_keychain k) (kp_identity k) (kp_encryption k) file, pred n)).
(** The store afterwards, or the one at hand when it failed. *)
(* @src/crates/throcc-client-core/src/account.rs 62-86 enroll *)
Definition account_enroll (o : Opening) (store : Keystore) (address : str) (code : InviteCode) (name : str)
    (nw : Network) (a : EnrollAnswers) (published : LinkError + Response) (k : Kept * nat) : Sent * (SignInError + Welcome) * Keystore * (Kept * nat) :=
  match renew_encryption_key o store k with
  | (inl e, k) => (mkSent None None None, inl (SignInStore e), store, k)
  | (inr store, k) =>
      match connect sha256 nw None with
      | inl e => (mkSent None None None, inl (SignInConnect e), store, k)
      | inr connected =>
          let '(hello, finish, welcome) := enroll sha256 seed_public sign start_a spake2_finish hkdf hmac connected (kt_identity store) code name a in
          match welcome with
          | inl (e, _) => (mkSent hello finish None, inl (SignInLogin e), store, k)
          | inr welcome =>
              match trust_server address (cn_fingerprint connected) store k with
              | (inl e, k) => (mkSent hello finish None, inl (SignInStore e), store, k)
              | (inr store, k) =>
                  let k := (forget_floors (cn_fingerprint connected) (we_me welcome) k).2 in
                  let '(key, taken) := publish_encryption_key store (cn_fingerprint connected) (we_me welcome) published in
                  (mkSent hello finish (Some key), match taken with inl e => inl e | inr _ => inr welcome end, store, k)
              end
          end
      end
  end.
End with_crypto.

(** ** The identity signs only for the pinned server, and an enrollment pins the proved one *)

Section connecting.
Context (sha256 : bytes -> bytes).
Lemma connect_spec nw pin c : connect sha256 nw pin = inr c -> exists spki exporter,
  nw_certificate nw = Some (Some spki) /\ nw_exporter nw = Some exporter /\ c = mkConnected (of_spki sha256 spki) exporter /\
  match pin with Some fp => fp = of_spki sha256 spki | None => True end.
Proof.
  unfold connect. destruct (negb (nw_resolved nw)); [done|]. destruct (negb (nw_setup nw)); [done|].
  destruct (nw_certificate nw) as [[spki|]|]; cbn; [|done..]. destruct (negb _) eqn:E; [done|]. apply negb_false_iff, andb_true_iff in E as [Ep _].
  destruct (check_datagrams _); [|done]. destruct (nw_exporter nw) as [exporter|]; [|done]. intros [= <-]. exists spki, exporter. split_and!; [done..|].
  destruct pin as [fp|]; [|done]. by apply bool_decide_eq_true in Ep.
Qed.
End connecting.

Lemma greet_ok r sh : greet r = inr sh -> r = Some (inl sh) /\ sh_protocol sh = PROTOCOL.
Proof.
  unfold greet, reading, read, mbind, Login_bind. destruct r as [[hello|bad]|]; [|done..]. destruct (decide _) as [Hp|]; [|done]. by intros [= <-].
Qed.

Section with_crypto.
Context (sha256 : bytes -> bytes) (seed_public secret_public : bytes -> PublicKey) (sign : bytes -> bytes -> Signature).
Context {State : Type} (start_a : bytes -> bytes -> bytes -> bytes -> State * bytes) (spake2_finish : State -> bytes -> option bytes)
  (hkdf : bytes -> bytes -> bytes -> bytes) (hmac : bytes -> bytes -> bytes).

(** An enrollment that was welcomed proved the server: its confirmation of the transcript
    that names the fingerprint we saw was right. *)
Lemma enroll_welcomed connected identity code name a hello finish welcome :
  enroll sha256 seed_public sign start_a spake2_finish hkdf hmac connected identity code name a = (hello, finish, inr welcome) ->
  exists server_hello reply confirm_a, ea_hello a = Some (inl server_hello) /\ ea_step a = Some (inl (inl reply)) /\
    let '(pake, pake_a) := client_start start_a (ea_coin a) (code_id code) (code_secret code) in
    let transcript := enroll_transcript seed_public connected identity code server_hello (ea_nonce a) pake_a (pk_b reply) in
    client_finish spake2_finish sha256 hkdf hmac pake transcript (pk_confirm_b reply) = inl confirm_a /\
    finish = Some (mkPakeFinish confirm_a (sign identity (transcript_bytes transcript))).
Proof.
  unfold enroll. destruct (greet (ea_hello a)) as [gone|sh] eqn:Eg; [done|]. apply greet_ok in Eg as [Eh _].
  destruct (client_start start_a _ _ _) as [pake pake_a]. unfold mbind at 1, Login_bind at 1. destruct (wrote _); [done|].
  unfold reading, read. destruct (ea_step a) as [[[reply|refused]|bad]|]; [|done..].
  destruct (client_finish _ _ _ _ _ _ _) as [confirm_a|wrong] eqn:Ef; [|done].
  intros [= _ <- _]. exists sh, reply, confirm_a. by split_and!.
Qed.
End with_crypto.

(** Signing in, the identity key signs nothing for a server other than the pinned one:
    where a hello was sent at all, the certificate seen has the pinned fingerprint, and what
    is signed is that server's nonce, ours and this connection's exporter.  To a known server
    whose key changed nothing is sent, and the error names both fingerprints. *)
Theorem the_identity_signs_only_for_the_pinned_server (sha256 : bytes -> bytes) (seed_public secret_public : bytes -> PublicKey) (sign : bytes -> bytes -> Signature)
    (store : Keystore) (address : str) (want_room : option RoomId) (a : SignInAnswers) (spki : bytes) :
  nw_certificate (sa_network a) = Some (Some spki) -> nw_resolved (sa_network a) = true -> nw_setup (sa_network a) = true ->
  let '(sent, outcome) := sign_in sha256 seed_public secret_public sign store address want_room a in
  let seen := of_spki sha256 spki in
  (forall hello, sn_hello sent = Some hello -> known_get address (kt_known store) = Some seen /\ exists server_hello exporter,
     sa_hello a = Some (inl server_hello) /\ nw_exporter (sa_network a) = Some exporter /\
     hello = HelloAuth (seed_public (kt_identity store)) (sa_nonce a) want_room
       (sign (kt_identity store) (auth_message (sh_nonce server_hello) (sa_nonce a) exporter))) /\
  (forall pin, known_get address (kt_known store) = Some pin -> pin <> seen ->
     sent = mkSent None None None /\ exists e, outcome = inl e /\ pin_mismatch e = Some (pin, seen)).
Proof.
  intros Hcert Hres Hset. unfold sign_in. destruct (known_get address (kt_known store)) as [pin|] eqn:Epin; [|by split].
  destruct (connect sha256 (sa_network a) (Some pin)) as [e|connected] eqn:Ec.
  - split; [done|]. intros pin' [= <-] Hne. split; [done|]. exists (SignInConnect e). split; [done|]. unfold connect in Ec. rewrite Hres, Hset, Hcert in Ec. cbn in Ec.
    rewrite bool_decide_eq_false_2 in Ec by done. cbn in Ec. rewrite decide_False in Ec by done. by injection Ec as <-.
  - destruct (connect_spec sha256 _ _ _ Ec) as (spki' & exporter & Hc' & Hx & -> & Hpin). rewrite Hcert in Hc'. injection Hc' as <-.
    assert (forall pin', Some pin = Some pin' -> pin' <> of_spki sha256 spki -> False) as Hsame by congruence.
    unfold login. destruct (greet (sa_hello a)) as [[gone code]|sh] eqn:Eg; [split; [done|intros pin' H1 H2; by destruct (Hsame pin' H1 H2)]|].
    apply greet_ok in Eg as [Eh _]. destruct (_ ≫= _) as [[gone code]|welcome].
    all: split; [intros hello [= <-]; split; [by subst pin|by exists sh, exporter]|intros pin' H1 H2; by destruct (Hsame pin' H1 H2)].
Qed.

(** C21: an enrollment that succeeds pins, for its address, the fingerprint the server showed
    and proved by the PAKE over the code's secret; the encryption key the server gets is one
    made for this enrollment, in the file before anything was sent.  One that fails before
    the server's proof was checked pins nothing. *)
Theorem enrolling_pins_the_proved_server (sha256 : bytes -> bytes) (seed_public secret_public : bytes -> PublicKey) (sign : bytes -> bytes -> Signature)
    {State : Type} (start_a : bytes -> bytes -> bytes -> bytes -> State * bytes) (spake2_finish : State -> bytes -> option bytes)
    (hkdf : bytes -> bytes -> bytes -> bytes) (hmac : bytes -> bytes -> bytes)
    (o : Opening) (store : Keystore) (address : str) (code : InviteCode) (name : str) (nw : Network) (a : EnrollAnswers) (published : LinkError + Response) (k : Kept) (n : nat) :
  let '(sent, outcome, store', (k', _)) := account_enroll sha256 seed_public secret_public sign start_a spake2_finish hkdf hmac o store address code name nw a published (k, n) in
  (is_Some (sn_hello sent) -> kp_encryption k' = Some (fresh_key o) /\ kt_encryption store' = op_secret o) /\
  (forall key, sn_key sent = Some key -> ek_key key = secret_public (op_secret o)) /\
  (sn_finish sent = None -> pins k' = pins k /\ kt_known store' = kt_known store) /\
  (forall welcome, outcome = inr welcome -> exists spki,
     nw_certificate nw = Some (Some spki) /\ (forall p, pins k = Some p -> pins k' = Some (<[address := of_spki sha256 spki]> p)) /\
     known_get address (kt_known store') = Some (of_spki sha256 spki) /\
     exists server_hello reply confirm_a exporter, ea_step a = Some (inl (inl reply)) /\
       let '(pake, pake_a) := client_start start_a (ea_coin a) (code_id code) (code_secret code) in
       let transcript := enroll_transcript seed_public (mkConnected (of_spki sha256 spki) exporter) (kt_identity store) code server_hello (ea_nonce a) pake_a (pk_b reply) in
       client_finish spake2_finish sha256 hkdf hmac pake transcript (pk_confirm_b reply) = inl confirm_a).
Proof.
  unfold account_enroll. destruct n as [|n]; unfold renew_encryption_key; run_writes; [by split_and!; try (intros [? ?])|].
  destruct (connect sha256 nw None) as [e|connected] eqn:Ec; [by split_and!; try (intros [? ?])|].
  destruct (connect_spec sha256 _ _ _ Ec) as (spki & exporter & Hcert & Hx & -> & _).
  destruct (enroll _ _ _ _ _ _ _ _ _ _ _ _) as [[hello finish] [[e c]|welcome]] eqn:Ee; [by split_and!|].
  destruct (enroll_welcomed _ _ _ _ _ _ _ _ _ _ _ _ _ _ _ Ee) as (sh & reply & confirm_a & Hsh & Hstep & Hproof).
  destruct (client_start start_a _ _ _) as [pake pake_a] eqn:Ep. destruct Hproof as [Hproof ->].
  unfold trust_server. cbn [kp_servers kt_known kt_identity kt_encryption kt_created]. unfold known_trust, cell_update, pins. destruct (kp_servers k) as [s|] eqn:Es; [|by split_and!].
  destruct n as [|n]; cbn [Nat.eqb negb]; [by split_and!|]. cbn.
  assert (known_get address (mkKnown (<[address := of_spki sha256 spki]> (kn_pins (kt_known store)))) = Some (of_spki sha256 spki)) as Hget by apply lookup_insert_eq.
  destruct n as [|n]; cbn.
  all: split_and!; [by intros _|by intros key [= <-]|done|].
  all: intros w Hw; exists spki; split_and!; [done|by intros p [= <-]|done|exists sh, reply, confirm_a, exporter; by split].
Qed.

Definition a_store : Keystore := mkKeystore [5] [6] 1000 (mkKnown {[lit "hub" := [1; 1]]}).
Lemma the_identity_signs_only_for_the_pinned_server_witness :
  let answers := mkSignInAnswers (mkNetwork true true (Some (Some [2])) true (Some 1400) (Some [4])) [7] (Some (inl (mkServerHello [3] PROTOCOL))) true None (inl Closed) in
  let '(sent, outcome) := sign_in (fun spki => spki) (fun s => s) (fun s => s) (fun _ m => m) a_store (lit "hub") None answers in
  sent = mkSent None None None /\ exists e, outcome = inl e /\ pin_mismatch e = Some ([1; 1], [2]).
Proof.
  intros answers. pose proof (the_identity_signs_only_for_the_pinned_server (fun spki => spki) (fun s => s) (fun s => s) (fun _ m => m) a_store (lit "hub") None
    answers [2] eq_refl eq_refl eq_refl) as H.
  destruct (sign_in _ _ _ _ _ _ _ _) as [sent outcome]. destruct H as [_ H]. by apply (H [1; 1]).
Defined.
Definition an_opening := mkOpening 1000000 (replicate 32 5) (replicate 32 6) true (Some false) (Some true).
Definition a_network := mkNetwork true true (Some (Some [2])) true (Some 1400) (Some [4]).
Definition some_answers := mkEnrollAnswers [7] [8] (Some (inl (mkServerHello [3] PROTOCOL))) true (Some (inl (inl (mkPakeReply [9] (lit "throcc/confirm-b"))))) true
    (Some (inl (AuthOk (mkWelcome 4 Admin [] [] (mkPlacement None 0 None [] Audiences_default) (mkServerProfile (Some (lit "hub")) None) (mkUserProfile (lit "anna") None))))).
Definition kept_keys := mkKept (Some (replicate 32 5)) None None (Some (mkServers {[lit "hub" := [1; 1]]} ∅)).
Definition an_enrollment := account_enroll (fun spki => spki) (fun s => s) (fun s => s) (fun _ m => m) (fun _ secret _ _ => (secret, secret)) (fun s _ => Some s)
  (fun _ _ info => info) (fun key _ => key) an_opening a_store (lit "new") (mkInviteCode [1] [2]) (lit "anna") a_network some_answers (inr RespOk) (kept_keys, 9%nat).
Lemma enrolling_pins_the_proved_server_witness : let '(sent, outcome, store, (k, _)) := an_enrollment in
  is_Some (sn_finish sent) /\ kt_encryption store = replicate 32 6 /\ pins k = Some {[lit "new" := [2]; lit "hub" := [1; 1]]}.
Proof.
  pose proof (enrolling_pins_the_proved_server (fun spki => spki) (fun s => s) (fun s => s) (fun _ m => m) (fun _ secret _ _ => (secret, secret)) (fun s _ => Some s)
    (fun _ _ info => info) (fun key _ => key) an_opening a_store (lit "new") (mkInviteCode [1] [2]) (lit "anna") a_network some_answers (inr RespOk) kept_keys 9) as H.
  fold an_enrollment in H. assert (exists hello finish key welcome store k n, an_enrollment = (mkSent (Some hello) (Some finish) key, inr welcome, store, (k, n))) as
    (hello & finish & key & welcome & store & k & n & E) by (vm_compute; by do 7 eexists).
  rewrite E in *. destruct H as (Hsent & _ & _ & Hpinned). destruct (Hpinned welcome eq_refl) as (spki & [= <-] & Hpins & _).
  split_and!; [done|by apply Hsent|by apply (Hpins {[lit "hub" := [1; 1]]})].
Defined.
