(* ===== verification/Hub.v ===== *)
(** * The hub's handlers (throcc-server, rooms.rs)

    Routes and audiences, moving users between rooms, and every request a session makes. *)
From S2P Require Import Prelude Float64 Buckets Ids Frame Invite Messages RoomPassword Sfu Crypto Database HubState.
From stdpp Require Import pretty.
Open Scope Z_scope.

(** ** Who receives what *)

(* @src/crates/throcc-server/src/rooms.rs 1659-1669 route *)
Definition route (owner : Z) (kind : TrackKind) (subscribers : list Session) : Route handle :=
  {| rt_owner := owner; rt_kind := kind; rt_subscribers := s_handle <$> subscribers |}.

(* @src/crates/throcc-server/src/rooms.rs 1535-1535! Hub::rebuild_routes *)
Definition others (members : list Session) (sender : Session) : list Session :=
  filter (fun m => ur_id (s_row m) <> ur_id (s_row sender)) members.

(* @src/crates/throcc-server/src/rooms.rs 1541-1541! Hub::rebuild_routes *)
Definition sees (share : ShareTracks) (m : Session) : Prop := st_video share ∈ s_watching m.
(* @src/crates/throcc-server/src/rooms.rs 1542-1543! Hub::rebuild_routes *)
Definition hears (share : ShareTracks) (m : Session) : Prop :=
  st_audio share ∈ s_watching m /\ ms_deafened (s_media m) = false.
#[export] Instance sees_dec share m : Decision (sees share m) := ltac:(unfold sees; apply _).
#[export] Instance hears_dec share m : Decision (hears share m) := ltac:(unfold hears; apply _).

(** The routes of one sender's tracks, in the order they are inserted. *)
(* @src/crates/throcc-server/src/rooms.rs 1530-1555! Hub::rebuild_routes *)
Definition sender_routes (members : list Session) (sender : Session) : list (MediaId * Route handle) :=
  match s_tracks sender with
  | None => []
  | Some tracks =>
      let owner := s_conn_id sender in
      let os := others members sender in
      (tr_mic tracks, route owner AudioTrack (filter (fun m => ms_deafened (s_media m) = false) os)) ::
      concat ((fun share =>
        [(st_video share, route owner VideoTrack (filter (fun m => sees share m) os));
         (st_audio share, route owner AudioTrack (filter (fun m => hears share m) os))]) <$> tr_shares tracks)
  end.

(** The audiences of one sender's running shares. *)
(* @src/crates/throcc-server/src/rooms.rs 1537-1563! Hub::rebuild_routes *)
Definition sender_audiences (members : list Session) (sender : Session) : list Audience :=
  match s_tracks sender with
  | None => []
  | Some tracks =>
      omap (fun share =>
        let receivers := (fun m => ur_id (s_row m)) <$>
          filter (fun m => sees share m \/ hears share m) (others members sender) in
        if bool_decide (is_Some (ms_share (s_media sender))) && negb (bool_decide (receivers = []))
        then Some {| au_video := st_video share; au_receivers := receivers |} else None)
        (tr_shares tracks)
  end.

(* @src/crates/throcc-server/src/rooms.rs 1523-1565! Hub::rebuild_routes *)
Definition room_routes (sessions : gmap Z Session) (e : RoomEntry) : list (MediaId * Route handle) :=
  let members := member_sessions sessions e in concat (sender_routes members <$> members).
(* @src/crates/throcc-server/src/rooms.rs 1523-1565! Hub::rebuild_routes *)
Definition room_audiences (sessions : gmap Z Session) (e : RoomEntry) : list Audience :=
  let members := member_sessions sessions e in concat (sender_audiences members <$> members).

(** The table and the audiences the hub's state calls for. *)
(* @src/crates/throcc-server/src/rooms.rs 1520-1572! Hub::rebuild_routes *)
Definition routes_of (sessions : gmap Z Session) (rooms : gmap Z RoomEntry) : gmap Z (Route handle) :=
  foldl (fun t '(id, r) => <[id := r]> t) ∅
    (concat ((fun room => from_option (room_routes sessions) [] (rooms !! room)) <$> ids rooms)).
(* @src/crates/throcc-server/src/rooms.rs 1521-1572! Hub::rebuild_routes *)
Definition audiences_of (sessions : gmap Z Session) (rooms : gmap Z RoomEntry) : gmap Z (list Audience) :=
  omap (fun e => match room_audiences sessions e with [] => None | l => Some l end) rooms.

Section Hub.
Context `{!Env}.

(** Under the session's next [seq]. *)
(* @src/crates/throcc-server/src/rooms.rs 1507-1515 Hub::audiences_in *)
Definition audiences_in {E} (room : RoomId) (user : UserId) : M E Audiences :=
  s ← gets (fun h => h_sessions h !! user);
  let seq := wrap64 (from_option s_audience_seq 0 s + 1) in
  _ ← modify (upd_sessions (alter (with_audience_seq seq) user));
  shares ← gets (fun h => default [] (h_audiences h !! room));
  mret {| as_seq := seq; as_shares := shares |}.

(* @src/crates/throcc-server/src/rooms.rs 1517-1590 Hub::rebuild_routes *)
Definition rebuild_routes {E} : M E unit :=
  table ← gets (fun h => routes_of (h_sessions h) (h_rooms h));
  audiences ← gets (fun h => audiences_of (h_sessions h) (h_rooms h));
  changed ← gets (fun h => filter (fun room =>
    default [] (audiences !! room) <> default [] (h_audiences h !! room)) (ids (h_rooms h)));
  _ ← modify (upd_table (fun _ => table));
  _ ← modify (upd_audiences (fun _ => audiences));
  for_ changed (fun room =>
    entry ← gets (fun h => h_rooms h !! room);
    for_ (from_option (fun e => in_order (e_members e)) [] entry) (fun m =>
      s ← gets (fun h => h_sessions h !! m);
      match s with
      | Some s => a ← audiences_in room m; send s (AudiencesChanged a)
      | None => mret ()
      end)).

(** ** Moving between rooms *)

(* @src/crates/throcc-server/src/rooms.rs 901-915 Hub::placement *)
Definition placement {E} (user : UserId) : M E Placement :=
  s ← gets (fun h => h_sessions h !! user);
  match s with
  | None => mret lobby
  | Some s =>
      match s_room s with
      | None => mret lobby
      | Some room =>
          epoch ← gets (fun h => from_option e_epoch 0 (h_rooms h !! room));
          ps ← gets (fun h => peers h room);
          audiences ← audiences_in room user;
          mret {| pl_room := Some room; pl_epoch := epoch; pl_tracks := s_tracks s; pl_peers := ps;
                  pl_audiences := audiences |}
      end
  end.

(* @src/crates/throcc-server/src/rooms.rs 624-642 Hub::bump_epochs *)
Definition bump_epochs (rooms : list RoomId) : M Refusal unit :=
  epochs ← mapM_ rooms (fun room =>
    entry ← room_entry room;
    next ← ok_or (checked_add32 (e_epoch entry) 1) (Refuse Internal (lit "room epoch exhausted"));
    mret (room, next));
  _ ← db (set_epochs db_fault epochs);
  for_ epochs (fun '(room, epoch) => modify (upd_rooms (alter (with_epoch epoch) room))).

(* @src/crates/throcc-server/src/rooms.rs 917-934 Hub::allocate_tracks *)
Definition allocate_tracks : M Refusal Tracks :=
  first ← db (allocate_media_ids db_fault TRACKS_PER_MEMBERSHIP);
  first ← ok_or first (Refuse Internal (lit "this server has run out of media ids"));
  mret {| tr_mic := first; tr_shares := [{| st_video := first + 1; st_audio := first + 2 |}] |}.

(** Ends what the session sent and watched. *)
(* @src/crates/throcc-server/src/rooms.rs 892-895! Hub::set_membership *)
Definition moved_session (room : option RoomId) (tracks : option Tracks) (s : Session) : Session :=
  with_tracks tracks (with_watching []
    (with_media {| ms_mic := ms_mic (s_media s); ms_deafened := ms_deafened (s_media s); ms_share := None |}
      (with_room room s))).

(* @src/crates/throcc-server/src/rooms.rs 887-899 Hub::set_membership *)
Definition set_membership {E} (user : UserId) (room : option RoomId) (tracks : option Tracks) : M E unit :=
  s ← gets (fun h => h_sessions h !! user);
  match s with
  | None => mret ()
  | Some s =>
      _ ← modify (upd_sessions <[user := moved_session room tracks s]>);
      for_ (from_option tr_shares [] (s_tracks s)) (fun share =>
        modify (upd_keyframes (fun k => keyframe_forget k (st_video share))))
  end.

(* @src/crates/throcc-server/src/rooms.rs 817-864 Hub::place *)
Definition place (user : UserId) (target : option RoomId) : M Refusal Placement :=
  s ← session user;
  let current := s_room s in
  if decide (current = target) then placement user else
  _ ← match target with
      | None => mret ()
      | Some room =>
          entry ← room_entry room;
          if MAX_ROOM_MEMBERS <=? Z.of_nat (size (e_members entry)) then throw room_full else
          now ← unix_now;
          if match ur_encryption_key (s_row s) with None => true | Some key => ek_not_after key <=? now end
          then throw (Refuse Invalid (lit "set an encryption key before joining a room")) else mret ()
      end;
  tracks ← match target with
           | None => mret None
           | Some _ => tracks ← allocate_tracks; mret (Some tracks)
           end;
  _ ← bump_epochs (option_list current ++ option_list target);
  _ ← match current with
      | Some old => modify (upd_rooms (alter (with_members (.∖ {[user]})) old))
      | None => mret ()
      end;
  _ ← match target with
      | Some new => modify (upd_rooms (alter (with_members ({[user]} ∪.)) new))
      | None => mret ()
      end;
  _ ← set_membership user target tracks;
  _ ← match current with Some old => broadcast_peers old None | None => mret () end;
  _ ← match target with Some new => broadcast_peers new (Some user) | None => mret () end;
  p ← gets (fun h => h_sessions h !! user ≫= presence);
  _ ← match p with Some p => emit_all (PresenceChanged p) | None => emit_all (PresenceEnded user) end;
  _ ← rebuild_routes;
  placement user.

(** Takes [user] out of their room even when the room's epoch can't be bumped. *)
(* @src/crates/throcc-server/src/rooms.rs 866-885 Hub::leave_room *)
Definition leave_room {E} (user : UserId) : M E unit :=
  known ← gets (fun h => bool_decide (is_Some (h_sessions h !! user)));
  if negb known then mret () else
  placed ← attempt (place user None);
  match placed with
  | inl _ => mret ()
  | inr _ =>
      room ← gets (fun h => h_sessions h !! user ≫= s_room);
      match room with
      | None => mret ()
      | Some room =>
          _ ← modify (upd_rooms (alter (with_members (.∖ {[user]})) room));
          _ ← set_membership user None None;
          _ ← broadcast_peers room None;
          _ ← emit_all (PresenceEnded user);
          rebuild_routes
      end
  end.

(* @src/crates/throcc-server/src/rooms.rs 516-521 Hub::evict *)
Definition evict {E} (user : UserId) (reason : str) : M E unit :=
  _ ← leave_room user;
  s ← gets (fun h => h_sessions h !! user);
  match s with
  | None => mret ()
  | Some s =>
      _ ← modify (upd_sessions (delete user));
      kick (s_handle s) reason close.REMOVED
  end.

(* @src/crates/throcc-server/src/rooms.rs 763-768 Hub::enters_another_room *)
Definition enters_another_room (user : UserId) (target : option RoomId) : M Refusal bool :=
  match target with
  | None => mret false
  | Some _ => s ← session user; mret (bool_decide (s_room s <> target))
  end.

(* @src/crates/throcc-server/src/rooms.rs 770-781 Hub::password_to_enter *)
Definition password_to_enter (user : UserId) (room : RoomId) : M Refusal (option str) :=
  entry ← room_entry room;
  match e_password_hash entry with
  | None => mret None
  | Some hash =>
      s ← session user;
      if decide (s_room s = Some room) then mret None else
      r ← role user;
      if can_manage_rooms r then mret None else mret (Some hash)
  end.

(* @src/crates/throcc-server/src/rooms.rs 750-761 Hub::enter *)
Definition enter (user : UserId) (target : option RoomId) : M Refusal Response :=
  moving ← enters_another_room user target;
  taken ← (if moving : bool then t ← now; meter_take h_room_changes upd_room_changes user one t else mret true);
  if negb taken then throw changing_rooms_too_fast else
  p ← place user target;
  _ ← modify (upd_last_joined (fun m => match target with
                                        | Some room => <[user := room]> m
                                        | None => delete user m
                                        end));
  mret (RespPlacement p).

(* @src/crates/throcc-server/src/rooms.rs 656-716 Hub::join *)
Definition join (user : UserId) (target : option RoomId) (password : option str) : M Refusal Handled :=
  t ← now;
  moving ← enters_another_room user target;
  held ← (if moving : bool then meter_holds h_room_changes upd_room_changes user one t else mret true);
  if negb held then throw changing_rooms_too_fast else
  _ ← match target with
      | None => mret ()
      | Some room =>
          s ← session user;
          if decide (s_room s <> target)
          then entry ← room_entry room;
               if MAX_ROOM_MEMBERS <=? Z.of_nat (size (e_members entry)) then throw room_full else mret ()
          else mret ()
      end;
  needed ← match target with
           | None => mret None
           | Some room => hash ← password_to_enter user room; mret ((fun hash => (room, hash)) <$> hash)
           end;
  match needed with
  | None => r ← enter user target; mret (Done r)
  | Some (room, hash) =>
      password ← ok_or password (Refuse WrongPassword (lit "this room needs a password"));
      checked ← gets (fun h => guesses_check (h_guesses h) user room t);
      _ ← modify (upd_guesses (fun _ => snd checked));
      _ ← match fst checked with
          | None => mret ()
          | Some (WaitUser wait) =>
              throw (Refuse RateLimited (lit "too many wrong passwords; try again in " ++
                                         lit (pretty (Z.max 1 (wait / second))) ++ lit " seconds"))
          | Some WaitRoom =>
              throw (Refuse RateLimited (lit "this room has had too many wrong passwords; try again later"))
          end;
      taken ← meter_take h_password_tries upd_password_tries user one t;
      if negb taken then throw (Refuse RateLimited (lit "too many password attempts; wait a few seconds")) else
      mret (Pending (WorkJoin room password hash))
  end.

(* @src/crates/throcc-server/src/rooms.rs 718-748 Hub::finish_join *)
Definition finish_join (user : UserId) (room : RoomId) (hash : str) (matched : bool) : M Refusal Response :=
  if negb matched then
    t ← now;
    _ ← modify (upd_guesses (fun g => snd (guesses_failed g user room t)));
    throw (Refuse WrongPassword (lit "wrong password"))
  else
    _ ← modify (upd_guesses (fun g => guesses_succeeded g user room));
    current ← password_to_enter user room;
    if match current with Some current => bool_decide (current <> hash) | None => false end
    then throw (Refuse WrongPassword (lit "the room's password has just changed"))
    else enter user (Some room).

(** ** Reconnecting *)

(* @src/crates/throcc-server/src/rooms.rs 805-815 Hub::may_rejoin *)
Definition may_rejoin (h : Hub) (user : UserId) (room : RoomId) : bool :=
  match h_rooms h !! room with Some entry => bool_decide (e_password_hash entry = None) | None => false end
  || match h_sessions h !! user with Some s => can_manage_rooms (ur_role (s_row s)) | None => false end
  || bool_decide (h_last_joined h !! user = Some room).

(* @src/crates/throcc-server/src/rooms.rs 797-803 Hub::rejoin_allowance *)
Definition rejoin_get (returning : bool) : Hub -> Buckets f64 Z := if returning then h_rejoins else h_room_changes.
(* @src/crates/throcc-server/src/rooms.rs 797-803! Hub::rejoin_allowance *)
Definition rejoin_upd (returning : bool) : (Buckets f64 Z -> Buckets f64 Z) -> Hub -> Hub :=
  if returning then upd_rejoins else upd_room_changes.

(* @src/crates/throcc-server/src/rooms.rs 783-795 Hub::rejoin *)
Definition rejoin {E} (user : UserId) (room : RoomId) : M E (option Placement) :=
  returning ← gets (fun h => bool_decide (h_last_joined h !! user = Some room));
  t ← now;
  held ← meter_holds (rejoin_get returning) (rejoin_upd returning) user one t;
  if negb held then mret None else
  placed ← attempt (place user (Some room));
  match placed with
  | inr _ => mret None
  | inl p => _ ← meter_take (rejoin_get returning) (rejoin_upd returning) user one t; mret (Some p)
  end.

(* @src/crates/throcc-server/src/rooms.rs 296-362 Hub::connect *)
Definition connect (row : UserRow) (conn : handle) (want_room : option RoomId) : M DbError ((Z * Welcome) + AuthError) :=
  let user := ur_id row in
  found ← db_call (Database.user db_fault user);
  match (current ← found; if decide (ur_pubkey current = ur_pubkey row) then Some current else None) with
  | None => mret (inr UnknownKey)
  | Some row =>
      seen ← unix_now;
      _ ← db_call (mark_seen db_fault user seen);
      full ← gets (fun h => (MAX_SIGNED_IN <=? Z.of_nat (size (h_sessions h))) ||
                            (bool_decide (ur_role row <> Admin) && is_full h));
      known ← gets (fun h => bool_decide (is_Some (h_sessions h !! user)));
      if full && negb known then mret (inr ServerFull) else
      _ ← evict user (lit "you signed in from somewhere else");
      _ ← modify (upd_next_conn (fun n => wrap64 (n + 1)));
      conn_id ← gets h_next_conn;
      _ ← modify (upd_sessions <[user := mkSession conn_id conn row None None MediaState_default [] None None 0]>);
      allowed ← gets (fun h => room ← want_room; if may_rejoin h user room then Some room else None);
      rejoined ← match allowed with Some room => rejoin user room | None => mret None end;
      server ← attempt (db_call (server_profile db_fault));
      welcome ← gets (fun h =>
        {| we_me := user; we_role := ur_role row; we_rooms := room_list h;
           we_presence := omap presence (session_values h);
           we_placement := default lobby rejoined;
           we_server := match server with inl p => p | inr _ => ServerProfile_default end;
           we_profile := {| up_name := ur_name row; up_avatar := ur_avatar row |} |});
      mret (inl (conn_id, welcome))
  end.

(* @src/crates/throcc-server/src/rooms.rs 364-370 Hub::disconnect *)
Definition disconnect {E} (user : UserId) (conn : Z) : M E unit :=
  current ← gets (fun h => is_current h user conn);
  if current : bool then _ ← leave_room user; modify (upd_sessions (delete user)) else mret ().

(** ** Profiles, pictures and keys *)

(* @src/crates/throcc-server/src/rooms.rs 936-961 Hub::set_profile *)
Definition hub_set_profile (user : UserId) (name : str) (avatar : option Hash) : M Refusal Response :=
  name ← checked_name name;
  _ ← require_picture avatar;
  s ← session user;
  limited ← match s_last_profile s with
            | None => mret false
            | Some t => n ← now; mret (since n t <? PROFILE_INTERVAL)
            end;
  if limited : bool
  then throw (Refuse RateLimited (lit "one profile change per " ++ lit (pretty (PROFILE_INTERVAL / second)) ++ lit " seconds"))
  else
  _ ← db (Database.set_profile db_fault user name avatar);
  _ ← session_mut user (fun s => with_row (row_with_profile name avatar (s_row s)) s);
  t ← now;
  _ ← session_mut user (with_last_profile (Some t));
  _ ← announce_presence user;
  mret RespOk.

(* @src/crates/throcc-server/src/rooms.rs 984-988 Hub::announce_server_profile *)
Definition announce_server_profile : M Refusal Response :=
  p ← db (server_profile db_fault);
  _ ← emit_all (ServerProfileChanged p);
  mret RespOk.

(* @src/crates/throcc-server/src/rooms.rs 963-973 Hub::set_server_name *)
Definition hub_set_server_name (user : UserId) (name : option str) : M Refusal Response :=
  r ← role user;
  _ ← require (can_edit_server r);
  name ← match trim <$> name with
         | None | Some [] => mret None
         | Some name => name ← checked_name name; mret (Some name)
         end;
  _ ← db (Database.set_server_name db_fault name);
  announce_server_profile.

(* @src/crates/throcc-server/src/rooms.rs 975-982 Hub::set_server_avatar *)
Definition hub_set_server_avatar (user : UserId) (avatar : option Hash) : M Refusal Response :=
  r ← role user;
  _ ← require (can_edit_server r);
  _ ← require_picture avatar;
  _ ← db (Database.set_server_avatar db_fault avatar);
  announce_server_profile.

(* @src/crates/throcc-server/src/rooms.rs 1619-1621 delete_unused_blobs *)
Definition collect_blobs (now : Z) : DbM Z := Database.delete_unused_blobs db_fault (sat_sub now UNUSED_BLOB_GRACE).

(* @src/crates/throcc-server/src/rooms.rs 990-1011 Hub::set_avatar *)
Definition set_avatar (user : UserId) (bs : bytes) : M Refusal Response :=
  if MAX_AVATAR_BYTES <? Z.of_nat (length bs)
  then throw (Refuse FrameTooLarge (lit "avatars are at most " ++ lit (pretty (MAX_AVATAR_BYTES / 1024)) ++ lit " KiB"))
  else
  t ← now;
  taken ← meter_take h_uploads upd_uploads user (f64_of_Z (Z.max (Z.of_nat (length bs)) MIN_UPLOAD_COST)) t;
  if negb taken then throw (Refuse RateLimited (lit "too many pictures; try again in a minute")) else
  n ← unix_now;
  _ ← db (collect_blobs n);
  let hash := sha256 bs in
  _ ← db (put_blob db_fault hash bs n);
  mret (RespAvatarHash hash).

(* @src/crates/throcc-server/src/rooms.rs 1013-1018 Hub::get_avatar *)
Definition get_avatar (hash : Hash) : M Refusal Response :=
  found ← db (blob db_fault hash);
  match found with
  | Some bs => mret (RespAvatar bs)
  | None => throw (Refuse NotFound (lit "no such avatar"))
  end.

(* @src/crates/throcc-server/src/rooms.rs 1020-1068 Hub::set_encryption_key *)
Definition hub_set_encryption_key (user : UserId) (key : SignedEncryptionKey) : M Refusal Response :=
  s ← session user;
  n ← unix_now;
  if (ek_not_after key <=? n) || (n + MAX_ENCRYPTION_KEY_LIFETIME <? ek_not_after key)
  then throw (Refuse Invalid (lit "the encryption key's expiry is out of range")) else
  let stored := ur_encryption_key (s_row s) in
  if decide (stored = Some key) then mret RespOk else
  fp ← gets h_fingerprint;
  let message := encryption_key_message fp user (ek_not_after key) (ek_key key) in
  if negb (ed25519_ok (ur_pubkey (s_row s)) message (ek_sig key))
  then throw (Refuse Invalid (lit "the encryption key's signature is wrong")) else
  taken ← match stored with
          | Some _ => t ← now; meter_take h_encryption_key_changes upd_encryption_key_changes user one t
          | None => mret true
          end;
  if negb taken then throw (Refuse RateLimited (lit "the encryption key changes too often")) else
  _ ← db (Database.set_encryption_key db_fault user key);
  _ ← session_mut user (fun s => with_row (row_with_key key (s_row s)) s);
  s ← session user;
  match s_room s with
  | None => mret RespOk
  | Some room =>
      _ ← (if match stored with None => true | Some stored => bool_decide (ek_key stored <> ek_key key) end
           then bump_epochs [room] else mret ());
      _ ← broadcast_peers room None;
      mret RespOk
  end.

(* @src/crates/throcc-server/src/rooms.rs 1070-1112 Hub::set_media *)
Definition set_media (user : UserId) (media : MediaState) : M Refusal Response :=
  room ← current_room user;
  s ← session user;
  let stored := s_media s in
  let starting := bool_decide (is_Some (ms_share media)) && bool_decide (ms_share stored = None) in
  crowded ← gets (fun h => MAX_ROOM_SHARES <=? shares_in h room);
  let full := starting && crowded in
  limited ← (if bool_decide (is_Some (ms_share media)) && bool_decide (ms_share media <> ms_share stored) && negb full
             then t ← now; taken ← meter_take h_share_changes upd_share_changes user one t; mret (negb taken)
             else mret false);
  let refused := full || limited in
  let applied := {| ms_mic := ms_mic media; ms_deafened := ms_deafened media;
                    ms_share := if refused then ms_share stored else ms_share media |} in
  _ ← session_mut user (with_media applied);
  _ ← when (bool_decide (ms_share applied <> ms_share stored)) (broadcast_peers room None);
  _ ← when (negb (Bool.eqb (ms_deafened applied) (ms_deafened stored)) ||
            negb (Bool.eqb (bool_decide (is_Some (ms_share applied))) (bool_decide (is_Some (ms_share stored)))))
        rebuild_routes;
  _ ← announce_presence user;
  if full : bool
  then throw (Refuse Full (lit "this room already has " ++ lit (pretty MAX_ROOM_SHARES) ++ lit " screen shares running"))
  else if limited : bool
  then throw (Refuse RateLimited (lit "too many share starts; the share stays as it was, try again in a moment"))
  else mret RespOk.

(** ** Rooms *)

(* @src/crates/throcc-server/src/rooms.rs 1150-1161 Hub::room_to_create *)
Definition room_to_create (user : UserId) (name : str) : M Refusal str :=
  r ← role user;
  _ ← require (can_manage_rooms r);
  name ← checked_name name;
  full ← gets (fun h => MAX_ROOMS <=? Z.of_nat (size (h_rooms h)));
  if full : bool
  then throw (Refuse FrameTooLarge (lit "a server holds at most " ++ lit (pretty MAX_ROOMS) ++ lit " rooms"))
  else mret name.

(* @src/crates/throcc-server/src/rooms.rs 1163-1180 Hub::add_room *)
Definition add_room (name : str) (password_hash : option str) : M Refusal Response :=
  id ← db (Database.create_room db_fault name password_hash);
  _ ← modify (upd_rooms <[id := mkRoomEntry name 0 password_hash ∅]>);
  _ ← emit_all (RoomCreated {| rm_id := id; rm_name := name; rm_locked := bool_decide (is_Some password_hash) |});
  mret RespOk.

(* @src/crates/throcc-server/src/rooms.rs 1131-1148 Hub::create_room *)
Definition hub_create_room (user : UserId) (name : str) (password : option str) : M Refusal Handled :=
  name ← room_to_create user name;
  match password with
  | Some password =>
      _ ← check_password_length password;
      mret (Pending (WorkCreateRoom name password))
  | None => r ← add_room name None; mret (Done r)
  end.

(* @src/crates/throcc-server/src/rooms.rs 1182-1192 Hub::rename_room *)
Definition hub_rename_room (user : UserId) (room : RoomId) (name : str) : M Refusal Response :=
  r ← role user;
  _ ← require (can_manage_rooms r);
  name ← checked_name name;
  _ ← room_entry room;
  _ ← db (Database.rename_room db_fault room name);
  _ ← modify (upd_rooms (alter (with_name name) room));
  _ ← emit_all (RoomRenamed room name);
  mret RespOk.

(* @src/crates/throcc-server/src/rooms.rs 1213-1216 Hub::may_manage_room *)
Definition may_manage_room (user : UserId) (room : RoomId) : M Refusal unit :=
  r ← role user;
  _ ← require (can_manage_rooms r);
  _ ← room_entry room;
  mret ().

(* @src/crates/throcc-server/src/rooms.rs 1218-1230 Hub::store_room_password *)
Definition store_room_password (room : RoomId) (hash : option str) : M Refusal Response :=
  entry ← room_entry room;
  _ ← db (set_room_password_hash db_fault room hash);
  _ ← modify (upd_rooms (alter (with_password_hash hash) room));
  _ ← modify (upd_last_joined (filter (fun '(user, joined) => joined <> room \/ user ∈ e_members entry)));
  _ ← emit_all (RoomLockChanged room (bool_decide (is_Some hash)));
  mret RespOk.

(* @src/crates/throcc-server/src/rooms.rs 1194-1211 Hub::set_room_password *)
Definition set_room_password (user : UserId) (room : RoomId) (password : option str) : M Refusal Handled :=
  _ ← may_manage_room user room;
  match password with
  | Some password =>
      _ ← check_password_length password;
      mret (Pending (WorkSetRoomPassword room password))
  | None => r ← store_room_password room None; mret (Done r)
  end.

(* @src/crates/throcc-server/src/rooms.rs 1232-1257 Hub::delete_room *)
Definition hub_delete_room (user : UserId) (room : RoomId) : M Refusal Response :=
  actor ← role user;
  _ ← require (can_manage_rooms actor);
  entry ← room_entry room;
  let members := in_order (e_members entry) in
  outranked ← gets (fun h => existsb (fun s => negb (can_kick_from_room actor (ur_role (s_row s))))
    (omap (fun m => h_sessions h !! m) (filter (fun m => m <> user) members)));
  if bool_decide (actor <> Admin) && outranked
  then throw (forbidden (lit "someone in this room outranks you; it can be deleted once they leave")) else
  _ ← for_ members (fun m => _ ← place m None; mret ());
  _ ← db (Database.delete_room db_fault room);
  _ ← modify (upd_rooms (delete room));
  _ ← modify (upd_last_joined (filter (fun '(_, joined) => joined <> room)));
  _ ← emit_all (RoomDeleted room);
  mret RespOk.

(** ** Invites and accounts *)

(* @src/crates/throcc-server/src/rooms.rs 1632-1645! mint_invite *)
Fixpoint mint_attempts (fuel : nat) (minted_by : option UserId) (expires_at : Z) : M DbError (InviteCode * Z) :=
  match fuel with
  | O => throw DbFailed
  | S fuel =>
      bs ← random;
      let code := Invite.from_random bs in
      stored ← db_call (insert_invite db_fault
        {| ir_code_id := Invite.code_id code; ir_secret := code_secret code; ir_minted_by := minted_by;
           ir_expires_at := expires_at; ir_failures := 0 |});
      if stored : bool then mret (code, expires_at) else mint_attempts fuel minted_by expires_at
  end.

(* @src/crates/throcc-server/src/rooms.rs 1623-1646 mint_invite *)
Definition mint_invite (minted_by : option UserId) (now : Z) : M DbError (InviteCode * Z) :=
  _ ← db_call (purge_expired_invites db_fault now);
  mint_attempts MINT_ATTEMPTS minted_by (wrap64 (now + INVITE_LIFETIME)).

(* @src/crates/throcc-server/src/rooms.rs 1259-1279 Hub::create_invite *)
Definition create_invite (user : UserId) : M Refusal Response :=
  n ← unix_now;
  r ← role user;
  _ ← match invite_cap r with
      | None => mret ()
      | Some cap =>
          used ← db (invites_used db_fault user n (sat_sub n INVITE_LIFETIME));
          if cap <=? used then throw (Refuse RateLimited (lit (pretty cap) ++ lit " invites per day")) else mret ()
      end;
  '(code, expires) ← map_err (fun _ => internal) (mint_invite (Some user) n);
  mret (RespInvite (Invite.display code) expires).

(* @src/crates/throcc-server/src/rooms.rs 1281-1287 Hub::list_users *)
Definition list_users (user : UserId) : M Refusal Response :=
  r ← role user;
  _ ← require (can_list_users r);
  l ← db (all_users db_fault);
  mret (RespUsers (to_user <$> l)).

(* @src/crates/throcc-server/src/rooms.rs 1300-1323 Hub::role_changed *)
Definition role_changed {E} (target : UserId) (role : Role) : M E unit :=
  _ ← modify (upd_sessions (alter (fun s => with_row (row_with_role role (s_row s)) s) target));
  locked ← gets (fun h => match h_last_joined h !! target ≫= (fun room => h_rooms h !! room) with
                          | Some entry => bool_decide (is_Some (e_password_hash entry))
                          | None => false
                          end);
  _ ← when (negb (can_manage_rooms role) && locked) (modify (upd_last_joined (delete target)));
  _ ← announce_presence target;
  _ ← emit_user_list_change (RoleChanged target role);
  when (negb (can_list_users role)) (emit_to target (RoleChanged target role)).

(* @src/crates/throcc-server/src/rooms.rs 1289-1298 Hub::set_role *)
Definition hub_set_role (user target : UserId) (new : Role) : M Refusal Response :=
  actor ← role user;
  _ ← require (can_set_role actor User new);
  row ← stored_user target;
  _ ← require (can_set_role actor (ur_role row) new);
  _ ← db (Database.set_role db_fault target new);
  _ ← role_changed target new;
  mret RespOk.

(* @src/crates/throcc-server/src/rooms.rs 1325-1338 Hub::kick_from_room *)
Definition kick_from_room (user target : UserId) (room : RoomId) : M Refusal Response :=
  actor ← role user;
  found ← gets (fun h => s ← h_sessions h !! target; if decide (s_room s = Some room) then Some s else None);
  s ← ok_or found (Refuse NotFound (lit "they aren't in that room"));
  _ ← require (can_kick_from_room actor (ur_role (s_row s)));
  _ ← modify (upd_last_joined (delete target));
  _ ← leave_room target;
  _ ← emit_to target (KickedFromRoom user room);
  mret RespOk.

(** Forgets, signs out and announces each of [removed]. *)
(* @src/crates/throcc-server/src/rooms.rs 1362-1366! Hub::remove_user *)
Definition drop_users {E} (removed : list UserId) : M E unit :=
  for_ removed (fun id =>
    _ ← modify (upd_last_joined (delete id));
    _ ← evict id (lit "you were removed from this server");
    emit_user_list_change (UserRemoved id)).

(* @src/crates/throcc-server/src/rooms.rs 1340-1369 Hub::remove_user *)
Definition remove_user (user target : UserId) (cascade : bool) : M Refusal Response :=
  actor ← role user;
  let leaving := (target =? user) && negb cascade in
  last_admin ← (if leaving && bool_decide (actor = Admin)
                then n ← db (admin_count db_fault); mret (n =? 1) else mret false);
  if last_admin : bool then throw (forbidden (lit "you are the server's only admin, so you can't leave it")) else
  _ ← require (leaving || can_remove actor User);
  removed ← (if cascade then db (invite_tree db_fault target) else mret [target]);
  _ ← for_ removed (fun id => row ← stored_user id; require (leaving || can_remove actor (ur_role row)));
  _ ← db (remove_users db_fault removed);
  _ ← drop_users removed;
  mret RespOk.

(* @src/crates/throcc-server/src/rooms.rs 1371-1386 Hub::remove_inactive *)
Definition remove_inactive (now : Z) : M DbError unit :=
  inactive ← db_call (unseen_since db_fault (sat_sub now INACTIVE_ACCOUNT_LIFETIME));
  match inactive with
  | [] => mret ()
  | _ => _ ← db_call (remove_users db_fault inactive); drop_users inactive
  end.

(** ** Watching and keys *)

(* @src/crates/throcc-server/src/rooms.rs 1388-1421 Hub::set_watched *)
Definition set_watched (user : UserId) (media_ids : list MediaId) : M Refusal Response :=
  if MAX_WATCHED <? Z.of_nat (length media_ids)
  then throw (Refuse FrameTooLarge (lit "watching too many tracks")) else
  room ← current_room user;
  _ ← for_ media_ids (fun id =>
        ok ← gets (fun h => match share_track h id with
                            | Some (owner, _) => bool_decide (owner <> user) &&
                                bool_decide (h_sessions h !! owner ≫= s_room = Some room)
                            | None => false
                            end);
        if ok : bool then mret () else throw (Refuse Invalid (lit "not a share in your room")));
  s ← session user;
  let started := filter (fun id => id ∉ s_watching s) media_ids in
  _ ← session_mut user (with_watching media_ids);
  _ ← rebuild_routes;
  t ← now;
  _ ← for_ started (fun id =>
        owner ← gets (fun h => share_track h id);
        match owner with
        | Some (owner, VideoTrack) =>
            asked ← gets (fun h => keyframe_request (h_keyframes h) id Idr t);
            _ ← modify (upd_keyframes (fun _ => snd asked));
            match fst asked with
            | Some kind => emit_to owner (KeyframeRequested id kind)
            | None => mret ()
            end
        | _ => mret ()
        end);
  mret RespOk.

(* @src/crates/throcc-server/src/rooms.rs 1423-1437 Hub::request_keyframe *)
Definition request_keyframe (user : UserId) (media_id : MediaId) (kind : Recovery) : M Refusal Response :=
  s ← session user;
  if bool_decide (media_id ∉ s_watching s) then throw (Refuse Invalid (lit "you aren't watching that track")) else
  owner ← gets (fun h => share_track h media_id);
  match owner with
  | Some (owner, VideoTrack) =>
      t ← now;
      asked ← gets (fun h => keyframe_request (h_keyframes h) media_id kind t);
      _ ← modify (upd_keyframes (fun _ => snd asked));
      _ ← match fst asked with
          | Some kind => emit_to owner (KeyframeRequested media_id kind)
          | None => mret ()
          end;
      mret RespOk
  | _ => throw (Refuse Invalid (lit "not a video track"))
  end.

(* @src/crates/throcc-server/src/rooms.rs 1439-1449 Hub::flush_keyframes *)
Definition flush_keyframes {E} : M E unit :=
  t ← now;
  due ← gets (fun h => keyframe_due (h_keyframes h) t);
  _ ← modify (upd_keyframes (fun _ => snd due));
  for_ (fst due) (fun '(media_id, kind) =>
    owner ← gets (fun h => share_track h media_id);
    match owner with
    | Some (owner, _) => emit_to owner (KeyframeRequested media_id kind)
    | None => modify (upd_keyframes (fun k => keyframe_forget k media_id))
    end).

(** The check of a publish's recipients, in order: each another member, once. *)
(* @src/crates/throcc-server/src/rooms.rs 1464-1475! Hub::publish_key *)
Fixpoint check_recipients (user : UserId) (members : gset Z) (wrapped : list (UserId * bytes)) (recipients : gset Z)
  : option Refusal :=
  match wrapped with
  | [] => None
  | (to, blob) :: wrapped =>
      if bool_decide (to = user) || bool_decide (to ∉ members) || bool_decide (to ∈ recipients)
      then Some (Refuse Invalid (lit "every recipient must be another member of the room, once"))
      else if MAX_WRAPPED_BYTES <? Z.of_nat (length blob)
      then Some (Refuse FrameTooLarge (lit "wrapped key too large"))
      else check_recipients user members wrapped ({[to]} ∪ recipients)
  end.

(* @src/crates/throcc-server/src/rooms.rs 1451-1487 Hub::publish_key *)
Definition publish_key (user : UserId) (epoch : Epoch) (wrapped : list (UserId * bytes)) : M Refusal Response :=
  room ← current_room user;
  entry ← room_entry room;
  if negb (epoch =? e_epoch entry)
  then throw (Refuse StaleEpoch (lit "the room has moved to a newer epoch")) else
  _ ← match check_recipients user (e_members entry) wrapped ∅ with Some r => throw r | None => mret () end;
  _ ← for_ wrapped (fun '(to, blob) => emit_to to (SenderKeyPublished user epoch blob));
  mret RespOk.

(* @src/crates/throcc-server/src/rooms.rs 471-493 Hub::free_key_publish *)
Definition free_key_publish {E} (user : UserId) (epoch : Epoch) : M E bool :=
  s ← gets (fun h => h_sessions h !! user);
  match s with
  | None => mret false
  | Some s =>
      match s_room s with
      | None => mret false
      | Some room =>
          current ← gets (fun h => match h_rooms h !! room with
                                   | Some entry => e_epoch entry =? epoch
                                   | None => false
                                   end);
          if negb current then mret false else
          let published := match s_key_publishes s with
                           | Some (r, e, count) => if (r =? room) && (e =? epoch) then count else 0
                           | None => 0
                           end in
          let count := wrap32 (published + 1) in
          _ ← modify (upd_sessions (alter (with_key_publishes (Some (room, epoch, count))) user));
          mret (count <=? FREE_KEY_PUBLISHES)
      end
  end.

(** ** Requests *)

Definition done (m : M Refusal Response) : M Refusal Handled := r ← m; mret (Done r).

(* @src/crates/throcc-server/src/rooms.rs 408-469 Hub::dispatch *)
Definition dispatch (user : UserId) (conn : Z) (request : Request) : M Refusal Handled :=
  _ ← require_current user conn;
  free ← match request with
         | PublishSenderKey epoch _ => free_key_publish user epoch
         | _ => mret false
         end;
  let cheap := match request with RequestKeyframe _ _ | FetchAvatar _ => true | _ => false end in
  allowed ← (if free : bool then mret true else
             t ← now;
             if cheap then meter_take h_cheap_requests upd_cheap_requests user one t
             else meter_take h_requests upd_requests user one t);
  if negb allowed then throw (Refuse RateLimited (lit "too many requests; slow down")) else
  match request with
  | JoinRoom room password => join user (Some room) password
  | LeaveRoom => join user None None
  | CreateRoom name password => hub_create_room user name password
  | SetRoomPassword room password => set_room_password user room password
  | SetProfile name avatar => done (hub_set_profile user name avatar)
  | UploadAvatar bs => done (set_avatar user bs)
  | FetchAvatar hash => done (get_avatar hash)
  | SetEncryptionKey key => done (hub_set_encryption_key user key)
  | SetMedia media => done (set_media user media)
  | RenameRoom room name => done (hub_rename_room user room name)
  | DeleteRoom room => done (hub_delete_room user room)
  | CreateInvite => done (create_invite user)
  | ListUsers => done (list_users user)
  | SetRole target new => done (hub_set_role user target new)
  | RemoveUser target cascade => done (remove_user user target cascade)
  | SetWatched media_ids => done (set_watched user media_ids)
  | RequestKeyframe media_id kind => done (request_keyframe user media_id kind)
  | PublishSenderKey epoch wrapped => done (publish_key user epoch wrapped)
  | SetServerName name => done (hub_set_server_name user name)
  | SetServerAvatar avatar => done (hub_set_server_avatar user avatar)
  | KickFromRoom target room => done (kick_from_room user target room)
  end.

(* @src/crates/throcc-server/src/rooms.rs 372-377 Hub::handle *)
Definition handle_request (user : UserId) (conn : Z) (request : Request) (h : Hub) : Handled * Hub :=
  match dispatch user conn request h with
  | (inl r, h) => (r, h)
  | (inr refusal, h) => (Done (refusal_response refusal), h)
  end.

(* @src/crates/throcc-server/src/rooms.rs 495-514 Hub::finish *)
Definition finish (user : UserId) (conn : Z) (d : PasswordDone) : M Refusal Response :=
  _ ← require_current user conn;
  match d with
  | DoneJoin room hash matched => finish_join user room hash matched
  | DoneCreateRoom name hash =>
      hash ← ok_or hash internal;
      name ← room_to_create user name;
      add_room name (Some hash)
  | DoneSetRoomPassword room hash =>
      hash ← ok_or hash internal;
      _ ← may_manage_room user room;
      store_room_password room (Some hash)
  end.

(* @src/crates/throcc-server/src/rooms.rs 379-384 Hub::resume *)
Definition resume (user : UserId) (conn : Z) (d : PasswordDone) (h : Hub) : Response * Hub :=
  match finish user conn d h with
  | (inl r, h) => (r, h)
  | (inr refusal, h) => (refusal_response refusal, h)
  end.

(** ** Starting *)

(* @src/crates/throcc-server/src/rooms.rs 270-293! Hub::new *)
Definition hub_empty (d : Database) (fingerprint : bytes) : Hub :=
  {| h_db := d; h_fingerprint := fingerprint; h_table := ∅; h_keyframes := {| ka_tracks := ∅ |};
     h_sessions := ∅; h_rooms := ∅; h_next_conn := 0;
     h_requests := buckets_new REQUEST_BURST REQUESTS_PER_SECOND;
     h_cheap_requests := buckets_new CHEAP_REQUEST_BURST CHEAP_REQUESTS_PER_SECOND;
     h_uploads := buckets_new UPLOAD_BURST_BYTES UPLOAD_BYTES_PER_SECOND;
     h_password_tries := buckets_new PASSWORD_BURST PASSWORDS_PER_SECOND;
     h_guesses := guesses_default;
     h_room_changes := buckets_new ROOM_CHANGE_BURST ROOM_CHANGES_PER_SECOND;
     h_rejoins := buckets_new REJOIN_BURST REJOINS_PER_SECOND;
     h_encryption_key_changes := buckets_new ENCRYPTION_KEY_CHANGE_BURST ENCRYPTION_KEY_CHANGES_PER_SECOND;
     h_share_changes := buckets_new SHARE_CHANGE_BURST SHARE_CHANGES_PER_SECOND;
     h_last_joined := ∅; h_audiences := ∅; h_invite_runs := ∅; h_tick := 0; h_out := [] |}.

(** The hub the server starts with, run on [hub_empty] of its database. *)
(* @src/crates/throcc-server/src/rooms.rs 253-294 Hub::new *)
Definition hub_new : M DbError unit :=
  rows ← db_call (all_rooms db_fault);
  _ ← modify (upd_rooms (fun _ => list_to_map ((fun r =>
        (rr_id r, mkRoomEntry (rr_name r) (rr_epoch r) (rr_password_hash r) ∅)) <$> rows)));
  n ← unix_now;
  _ ← db_call (collect_blobs n);
  mret ().

End Hub.
