(* ===== verification/Auth.v ===== *)
(** * Signing in and enrolling (throcc-server, auth.rs)

    Signing in checks a signature over the connection's nonces; enrolling runs a PAKE over an
    invite's secret.  A run takes the hub's lock three times (to claim a try of the invite, to
    enroll, and when the run is dropped), with other work in between, so it is three
    operations here. *)
From S2P Require Import Prelude Float64 Buckets Ids Frame Invite Messages Limits RoomPassword Sfu Crypto Database HubState Hub.
Open Scope Z_scope.

(* @src/crates/throcc-server/src/auth.rs 18-18 INVITE_TRIES *)
Definition INVITE_TRIES : Z := 3.

(* @src/crates/throcc-server/src/auth.rs 24-31 AuthRefusal *)
Inductive AuthRefusal := RefuseAuth (e : AuthError) | RefuseEnroll (e : AuthError) | RefuseInternal.

(* @src/crates/throcc-server/src/auth.rs 33-36 Authenticated *)
Record Authenticated := { an_row : UserRow; an_want_room : option RoomId }.

(** ** Runs in flight *)

(* @src/crates/throcc-server/src/auth.rs 282-284 InviteRuns::start *)
Definition start_run (runs : gmap (list Z) Z) (code_id : str) : gmap (list Z) Z :=
  <[code_id := wrap32 (default 0 (runs !! code_id) + 1)]> runs.

(* @src/crates/throcc-server/src/auth.rs 286-297 InviteRuns::finish *)
Definition finish_run (runs : gmap (list Z) Z) (code_id : str) : bool * gmap (list Z) Z :=
  match runs !! code_id with
  | None => (true, runs)
  | Some n =>
      let n := wrap32 (n - 1) in
      if 0 <? n then (false, <[code_id := n]> runs) else (true, delete code_id runs)
  end.

(** ** The server's state *)

(** The parts of [ServerState] signing in uses; [lib.rs] has each behind its own lock. *)
(* @src/crates/throcc-server/src/lib.rs 85-97 ServerState *)
Record ServerState := mkServer {
  sv_hub : Hub;
  sv_limiter : SourceLimiter;
  sv_refusals : gmap string Z
}.

Definition with_hub (h : Hub) (st : ServerState) : ServerState := mkServer h (sv_limiter st) (sv_refusals st).
Definition with_limiter (l : SourceLimiter) (st : ServerState) : ServerState := mkServer (sv_hub st) l (sv_refusals st).
Definition count_refusal (reason : string) (st : ServerState) : ServerState :=
  mkServer (sv_hub st) (sv_limiter st) (refusal_count (sv_refusals st) reason).

Section Auth.
Context `{!Env}.

(* @src/crates/throcc-server/src/auth.rs 258-261 internal *)
Definition internal_refusal (e : DbError) : AuthRefusal := RefuseInternal.

(** An account of [hello]'s key, which must have signed both nonces and the exporter. *)
(* @src/crates/throcc-server/src/auth.rs 38-63! authenticate *)
Definition sign_in (valid_key : bytes -> bool) (server_nonce exporter : bytes)
    (pubkey : PublicKey) (client_nonce : bytes) (want_room : option RoomId) (signature : Signature)
  : M AuthRefusal Authenticated :=
  let message := auth_message server_nonce client_nonce exporter in
  if negb (verify valid_key ed25519_ok pubkey message signature) then throw (RefuseAuth BadSignature) else
  row ← map_err internal_refusal (db_call (user_by_pubkey db_fault pubkey));
  row ← ok_or row (RefuseAuth UnknownKey);
  mret {| an_row := row; an_want_room := want_room |}.

(** What is checked of an enrollment before its run. *)
(* @src/crates/throcc-server/src/auth.rs 64-91! authenticate *)
Definition enroll_hello (code_id name : str) : (str * str) + AuthRefusal :=
  match valid_name name with
  | None => inr (RefuseEnroll BadName)
  | Some name => inl (normalize code_id, name)
  end.

(* @src/crates/throcc-server/src/auth.rs 163-186 Enrollment::claim_try *)
Definition claim_try (code_id : str) (now : Z) : M AuthRefusal (option InviteRow) :=
  invite ← (if (length code_id =? ID_CHARS)%nat
            then i ← map_err internal_refusal (db_call (Database.invite db_fault code_id));
                 mret (i ← i; if (now <? ir_expires_at i) && (ir_failures i <? INVITE_TRIES) then Some i else None)
            else mret None);
  match invite with
  | Some i =>
      _ ← map_err internal_refusal (db_call (consume_invite_try db_fault code_id));
      _ ← modify (upd_invite_runs (fun runs => start_run runs code_id));
      mret (Some i)
  | None => mret None
  end.

(** The run up to its PAKE: the invite it may use, and the time it started. *)
(* @src/crates/throcc-server/src/auth.rs 105-130! Enrollment::run *)
Definition begin_run (source : SourceKey) (code_id : str) (st : ServerState)
  : (option InviteRow * Z + AuthRefusal) * ServerState :=
  if is_full (sv_hub st) then (inr (RefuseEnroll ServerFull), st) else
  let at_ := instant (h_tick (sv_hub st)) in
  let st := with_hub (next_tick (sv_hub st)) st in
  let '(ok, limiter) := begin (sv_limiter st) source at_ in
  let st := with_limiter limiter st in
  if negb ok
  then (inr (RefuseEnroll RateLimitedAuth),
        count_refusal "enrollment refused: too many from its source or network" st)
  else
    let now := unix_clock (h_tick (sv_hub st)) in
    let st := with_hub (next_tick (sv_hub st)) st in
    match claim_try code_id now (sv_hub st) with
    | (inl (Some i), h) => (inl (Some i, now), with_hub h st)
    | (inl None, h) => (inl (None, now), count_refusal "enrollment with an unknown invite id" (with_hub h st))
    | (inr e, h) => (inr e, with_hub h st)
    end.

(** A random secret for unknown invite ids. *)
(* @src/crates/throcc-server/src/auth.rs 271-275 decoy_secret *)
Definition decoy_secret (random : bytes) : str := code_secret (Invite.from_random random).

(** The secret the PAKE runs over: the invite's, or a decoy. *)
(* @src/crates/throcc-server/src/auth.rs 122-125! Enrollment::run *)
Definition run_secret (invite : option InviteRow) (random : bytes) : str :=
  match invite with Some i => ir_secret i | None => decoy_secret random end.

(** Whether the client proved the secret and signed the transcript.  [finish] is its last
    message, [None] when a write or the read failed or timed out; the reply it answers is
    [pk_b] and [pk_confirm_b] of the first component. *)
(* @src/crates/throcc-server/src/auth.rs 188-219 Enrollment::exchange *)
Definition exchange {State : Type} (start_b : bytes -> bytes -> bytes -> bytes -> State * bytes)
    (spake2_finish : State -> bytes -> option bytes) (hkdf : bytes -> bytes -> bytes -> bytes)
    (hmac : bytes -> bytes -> bytes) (valid_key : bytes -> bool)
    (coin code_id secret pake_a pubkey server_nonce client_nonce spki_hash exporter : bytes)
    (finish : option PakeFinish) : option PakeReply * bool :=
  match server_respond start_b spake2_finish coin code_id secret pake_a with
  | inr _ => (None, false)
  | inl pake =>
      let transcript := {| tp_server_nonce := server_nonce; tp_client_nonce := client_nonce; tp_code_id := code_id;
                           tp_pubkey := pubkey; tp_spki_hash := spki_hash; tp_exporter := exporter;
                           tp_pake_a := pake_a; tp_pake_b := sv_pake_b pake |} in
      let confirm := server_confirm sha256 hkdf hmac pake transcript in
      (Some (mkPakeReply (sv_pake_b pake) (sf_confirm_b confirm)),
       match finish with
       | None => false
       | Some f => check_confirm_a hmac confirm (pf_confirm_a f) &&
                   verify valid_key ed25519_ok pubkey (transcript_bytes transcript) (pf_signature f)
       end)
  end.

(** The run after its PAKE. *)
(* @src/crates/throcc-server/src/auth.rs 132-161! Enrollment::run *)
Definition complete_run (source : SourceKey) (pubkey : PublicKey) (code_id name : str) (now : Z)
    (invite : option InviteRow) (exchanged : bool) (st : ServerState) : (UserRow + AuthRefusal) * ServerState :=
  if negb exchanged || bool_decide (invite = None) then (inr (RefuseAuth BadInvite), st) else
  match db_call (Database.enroll db_fault pubkey code_id name now) (sv_hub st) with
  | (inr e, h) => (inr (internal_refusal e), with_hub h st)
  | (inl None, h) => (inr (RefuseAuth BadInvite), with_hub h st)
  | (inl (Some enrolled), h) =>
      let row := into_row enrolled in
      let announce : M AuthRefusal unit :=
        match enrolled with
        | Added row => emit_user_list_change (UserAdded (to_user row))
        | Promoted row => role_changed (ur_id row) (ur_role row)
        | Returning _ => mret ()
        end in
      (inl row, with_limiter (forgive (sv_limiter st) source) (with_hub (snd (announce h)) st))
  end.

(** The end of a claimed run, however it ended. *)
(* @src/crates/throcc-server/src/auth.rs 231-255! InviteRun::drop *)
Definition drop_run (code_id : str) (minted_by : option UserId) : M AuthRefusal unit :=
  last ← gets (fun h => finish_run (h_invite_runs h) code_id);
  _ ← modify (upd_invite_runs (fun _ => snd last));
  if negb (fst last) then mret () else
  found ← attempt (db_call (Database.invite db_fault code_id));
  let spent := match found with inl (Some i) => INVITE_TRIES <=? ir_failures i | _ => false end in
  if negb spent then mret () else
  _ ← attempt (E := DbError) (db_call (delete_invite db_fault code_id));
  match minted_by with
  | Some minter => emit_to minter (InviteSpent code_id)
  | None => mret ()
  end.

End Auth.

(** ** An honest client *)

Section Honest.
Context `{!Env} {State : Type} (start_a start_b : bytes -> bytes -> bytes -> bytes -> State * bytes)
  (spake2_finish : State -> bytes -> option bytes) (hkdf : bytes -> bytes -> bytes -> bytes) (hmac : bytes -> bytes -> bytes)
  (valid_key : bytes -> bool).

(** SPAKE2: two sides with the same password and identities reach the same key. *)
Definition spake2_agrees : Prop := forall coin_a coin_b secret ida idb,
  exists key, spake2_finish (fst (start_a coin_a secret ida idb)) (snd (start_b coin_b secret ida idb)) = Some key /\
              spake2_finish (fst (start_b coin_b secret ida idb)) (snd (start_a coin_a secret ida idb)) = Some key.

(** A client that knows the invite's secret and signs the transcript with the key it
    enrolls completes the exchange: the server's reply passes the client's check, and the
    client's answer passes the server's, so the run goes on to enroll. *)
Theorem honest_clients_complete_the_exchange
    (coin_a coin_b code_id secret pubkey server_nonce client_nonce spki_hash exporter : bytes) (sign : bytes -> bytes)
    (Hspake : spake2_agrees)
    (Hsign : forall message, verify valid_key ed25519_ok pubkey message (sign message) = true) :
  let '(state, pake_a) := client_start start_a coin_a code_id secret in
  exists reply confirm_a transcript,
    client_finish spake2_finish sha256 hkdf hmac state transcript (pk_confirm_b reply) = inl confirm_a /\
    tp_pake_a transcript = pake_a /\ tp_pake_b transcript = pk_b reply /\ tp_code_id transcript = code_id /\
    exchange start_b spake2_finish hkdf hmac valid_key coin_b code_id secret pake_a pubkey server_nonce client_nonce
      spki_hash exporter (Some {| pf_confirm_a := confirm_a; pf_signature := sign (transcript_bytes transcript) |})
    = (Some reply, true).
Proof.
  unfold client_start, spake2_start. set (ida := _ ++ code_id). set (idb := _ ++ code_id).
  destruct (start_a coin_a secret ida idb) as [sa ma] eqn:Ea.
  destruct (start_b coin_b secret ida idb) as [sb mb] eqn:Eb.
  destruct (Hspake coin_a coin_b secret ida idb) as (key & Ka & Kb). rewrite Ea, Eb in Ka, Kb. cbn [fst snd] in Ka, Kb.
  set (t := {| tp_server_nonce := server_nonce; tp_client_nonce := client_nonce; tp_code_id := code_id; tp_pubkey := pubkey;
               tp_spki_hash := spki_hash; tp_exporter := exporter; tp_pake_a := ma; tp_pake_b := mb |}).
  set (c := server_confirm sha256 hkdf hmac {| sv_key := key; sv_pake_b := mb |} t).
  exists (mkPakeReply mb (sf_confirm_b c)), (mac hmac (sf_key_a c) (sf_transcript c)), t. split; [|split; [done|split; [done|split; [done|]]]].
  - unfold client_finish. cbn [tp_pake_b t]. rewrite Ka. unfold verify_mac. cbn [pk_confirm_b].
    rewrite bool_decide_true by done. done.
  - unfold exchange, server_respond, spake2_start. fold ida idb. rewrite Eb, Kb. cbv zeta. cbn [sv_pake_b sv_key pf_confirm_a pf_signature].
    fold t. fold c. unfold check_confirm_a, verify_mac. rewrite bool_decide_true by done. by rewrite Hsign.
Qed.

End Honest.

(** An exchange with stand-ins for the primitives: a PAKE whose sides end with the secret
    itself, and signatures that are always right. *)
Lemma honest_clients_complete_the_exchange_witness :
  spake2_agrees (fun _ secret _ _ => (secret, secret)) (fun _ secret _ _ => (secret, secret)) (fun s _ => Some s) /\
  exists reply confirm_a signature,
    @exchange example_env _ (fun _ secret _ _ => (secret, secret)) (fun s _ => Some s) (fun salt key info => salt ++ key ++ info)
      (fun key message => key ++ message) (fun _ => true) [5] [1; 2] [7; 8] [7; 8] [9] [3] [4] [6] [10]
      (Some {| pf_confirm_a := confirm_a; pf_signature := signature |}) = (Some reply, true).
Proof.
  assert (Hspake : spake2_agrees (fun _ secret _ _ => (secret, secret)) (fun _ secret _ _ => (secret, secret)) (fun s _ => Some s : option bytes)).
  { intros coin_a coin_b secret ida idb. by exists secret. }
  split; [exact Hspake|].
  destruct (@honest_clients_complete_the_exchange example_env bytes (fun _ secret _ _ => (secret, secret)) (fun _ secret _ _ => (secret, secret))
    (fun s _ => Some s) (fun salt key info => salt ++ key ++ info) (fun key message => key ++ message) (fun _ => true)
    [0] [5] [1; 2] [7; 8] [9] [3] [4] [6] [10] (fun message => message) Hspake (fun _ => eq_refl))
    as (reply & confirm_a & transcript & _ & _ & _ & _ & H).
  exists reply, confirm_a, (transcript_bytes transcript). exact H.
Defined.
