(* ===== verification/HubLogic.v ===== *)
(** * Reasoning about computations on the hub

    [keeps R m]: running [m] from any hub relates the hub before to the hub after, whatever
    [m] returns.  For a preorder [R] this composes along [bind], loops and branches, so a
    handler keeps [R] when its primitive steps do; [kept] does the walk. *)
From S2P Require Import Prelude Float64 Buckets Ids Messages Sfu Database HubState Hub.
Open Scope Z_scope.

Definition keeps {E A} (R : Hub -> Hub -> Prop) (m : M E A) : Prop := forall h, R h (snd (m h)).

(** What running a bind does, one step at a time. *)
Lemma run_bind {E A B} (m : M E A) (k : A -> M E B) h :
  (m ≫= k) h = match m h with (inl a, h') => k a h' | (inr e, h') => (inr e, h') end.
Proof. reflexivity. Qed.

(** Its result is [keeps]'s, its hub [keeps]'s second. *)
Lemma keeps_run {E A} R (m : M E A) h r h' : keeps R m -> m h = (r, h') -> R h h'.
Proof. intros Hk Hm. specialize (Hk h). by rewrite Hm in Hk. Qed.

Section Keeps.
Context (R : Hub -> Hub -> Prop) `{!PreOrder R}.

Lemma keeps_ret {E A} (a : A) : keeps (E := E) R (mret a).
Proof. intros h. cbn. reflexivity. Qed.

Lemma keeps_throw {E A} (e : E) : keeps (A := A) R (throw e).
Proof. intros h. cbn. reflexivity. Qed.

Lemma keeps_gets {E A} (f : Hub -> A) : keeps (E := E) R (gets f).
Proof. intros h. cbn. reflexivity. Qed.

Lemma keeps_ok_or {E A} (o : option A) (e : E) : keeps R (ok_or o e).
Proof. intros h. destruct o; cbn; reflexivity. Qed.

Lemma keeps_bind {E A B} (m : M E A) (k : A -> M E B) :
  keeps R m -> (forall a, keeps R (k a)) -> keeps R (m ≫= k).
Proof.
  intros Hm Hk h. specialize (Hm h). unfold mbind, M_bind.
  destruct (m h) as [[a|e] h']; cbn in *; [|done]. etrans; [done|apply Hk].
Qed.

Lemma keeps_map_err {E E' A} (f : E -> E') (m : M E A) : keeps R m -> keeps R (map_err f m).
Proof. intros Hm h. specialize (Hm h). unfold map_err. by destruct (m h) as [[] h']. Qed.

Lemma keeps_attempt {E E' A} (m : M E A) : keeps R m -> keeps (E := E') R (attempt m).
Proof. intros Hm h. specialize (Hm h). unfold attempt. by destruct (m h) as [r h']. Qed.

Lemma keeps_for {E A} (l : list A) (f : A -> M E unit) :
  (forall a, a ∈ l -> keeps R (f a)) -> keeps R (for_ l f).
Proof.
  induction l as [|a l IH]; intros Hf; cbn [for_]; [apply keeps_ret|].
  apply keeps_bind; [apply Hf; left|]. intros _. apply IH. intros b Hb. apply Hf. by right.
Qed.

Lemma keeps_mapM {E A B} (l : list A) (f : A -> M E B) : (forall a, keeps R (f a)) -> keeps R (mapM_ l f).
Proof.
  intros Hf. induction l as [|a l IH]; cbn [mapM_]; [apply keeps_ret|].
  apply keeps_bind; [done|]. intros b. apply keeps_bind; [done|]. intros bs. apply keeps_ret.
Qed.

Lemma keeps_when {E} (b : bool) (m : M E unit) : keeps R m -> keeps R (when b m).
Proof. destruct b; [done|]. intros _. apply keeps_ret. Qed.

Lemma keeps_modify {E} (f : Hub -> Hub) : (forall h, R h (f h)) -> keeps (E := E) R (modify f).
Proof. intros Hf h. apply Hf. Qed.

(** The error case decides nothing new. *)
Lemma keeps_let {A E} (o : option A) (m : M E unit) (f : A -> M E unit) :
  keeps R m -> (forall a, keeps R (f a)) -> keeps R (match o with Some a => f a | None => m end).
Proof. intros. by destruct o. Qed.

End Keeps.

Create HintDb hub discriminated.

(** Splits a handler at its binds, branches and loops; primitive steps come from the [hub]
    hints. *)
Ltac kept_step :=
  match goal with
  | |- keeps _ (_ ≫= _) => apply keeps_bind; [apply _| |intros ?]
  | |- keeps _ (mret _) => apply keeps_ret; apply _
  | |- keeps _ (throw _) => apply keeps_throw; apply _
  | |- keeps _ (gets _) => apply keeps_gets; apply _
  | |- keeps _ (ok_or _ _) => apply keeps_ok_or; apply _
  | |- keeps _ (map_err _ _) => apply keeps_map_err
  | |- keeps _ (attempt _) => apply keeps_attempt
  | |- keeps _ (for_ _ _) => apply keeps_for; [apply _|intros ? ?]
  | |- keeps _ (mapM_ _ _) => apply keeps_mapM; [apply _|intros ?]
  | |- keeps _ (when _ _) => apply keeps_when; [apply _|]
  | |- keeps _ (if ?b then _ else _) => destruct b
  | |- keeps _ (match ?x with _ => _ end) => destruct x
  | |- keeps _ (let '(_, _) := ?x in _) => destruct x
  end.
Ltac kept := repeat first [solve [eauto 3 with hub nocore] | kept_step].

(** ** Hubs that differ only in what nobody routes by *)

(** What routes and membership depend on of a session. *)
Record view := mkView {
  v_conn : Z; v_handle : Z; v_user : Z; v_room : option RoomId; v_tracks : option Tracks;
  v_deafened : bool; v_sharing : bool; v_watching : list MediaId
}.
Definition session_view (s : Session) : view :=
  mkView (s_conn_id s) (s_handle s) (ur_id (s_row s)) (s_room s) (s_tracks s)
    (ms_deafened (s_media s)) (bool_decide (is_Some (ms_share (s_media s)))) (s_watching s).

Record quiet (h h' : Hub) : Prop := {
  q_sessions : session_view <$> h_sessions h' = session_view <$> h_sessions h;
  q_members : e_members <$> h_rooms h' = e_members <$> h_rooms h;
  q_table : h_table h' = h_table h;
  q_audiences : h_audiences h' = h_audiences h;
  q_next_conn : h_next_conn h' = h_next_conn h;
  q_room_seq : room_seq (h_db h) <= room_seq (h_db h');
  q_media : next_media_id (h_db h) <= next_media_id (h_db h');
  q_tick : (h_tick h <= h_tick h')%nat;
  q_epochs : forall r e', h_rooms h' !! r = Some e' -> exists e, h_rooms h !! r = Some e /\ e_epoch e <= e_epoch e'
}.

#[export] Instance quiet_preorder : PreOrder quiet.
Proof.
  split.
  - intros h. split; try done. intros r e He. by exists e.
  - intros h1 h2 h3 [] []. split; try congruence; try lia. intros r e3 H3.
    destruct (q_epochs1 r e3 H3) as (e2 & H2 & ?). destruct (q_epochs0 r e2 H2) as (e1 & H1 & ?).
    exists e1. split; [done|lia].
Qed.

(** A step that leaves all of those fields alone. *)
Lemma quiet_same h h' :
  h_sessions h' = h_sessions h -> h_rooms h' = h_rooms h -> h_table h' = h_table h ->
  h_audiences h' = h_audiences h -> h_next_conn h' = h_next_conn h -> h_db h' = h_db h ->
  (h_tick h <= h_tick h')%nat -> quiet h h'.
Proof.
  intros E1 E2 E3 E4 E5 E6 E7. split; rewrite ?E1, ?E2, ?E3, ?E4, ?E5, ?E6; try done.
  intros r e He. by exists e.
Qed.

Lemma fmap_alter_same {A B} (f : A -> B) (g : A -> A) k (m : gmap Z A) :
  (forall x, m !! k = Some x -> f (g x) = f x) -> f <$> alter g k m = f <$> m.
Proof.
  intros H. apply map_eq. intros k'. rewrite !lookup_fmap. destruct (decide (k = k')) as [<-|].
  - rewrite lookup_alter_eq. destruct (m !! k) as [x|] eqn:E; cbn; [|done]. by rewrite H.
  - by rewrite lookup_alter_ne.
Qed.

Lemma quiet_alter_session f u h :
  (forall s, session_view (f s) = session_view s) -> quiet h (upd_sessions (alter f u) h).
Proof.
  intros Hf. split; try done; cbn; [apply fmap_alter_same; auto|]. intros r e He. by exists e.
Qed.

Lemma quiet_alter_room f r h :
  (forall e, e_members (f e) = e_members e) ->
  (forall e, h_rooms h !! r = Some e -> e_epoch e <= e_epoch (f e)) -> quiet h (upd_rooms (alter f r) h).
Proof.
  intros Hf He. split; try done; cbn; [apply fmap_alter_same; auto|]. intros r' e'. destruct (decide (r = r')) as [<-|].
  - rewrite lookup_alter_eq. destruct (h_rooms h !! r) as [e|] eqn:E; cbn; [|done]. intros [= <-]. exists e. auto.
  - rewrite lookup_alter_ne by done. intros E. by exists e'.
Qed.

(** Methods that give no room id and no media id back. *)
Record db_grows (d : Database) (n : nat) (d' : Database) (n' : nat) : Prop := {
  g_room_seq : room_seq d <= room_seq d';
  g_media : next_media_id d <= next_media_id d';
  g_tick : (n <= n')%nat
}.
Definition grows {A} (m : DbM A) : Prop := forall d n, db_grows d n (snd (fst (m d n))) (snd (m d n)).

Lemma grows_transaction fault {A} (f : Database -> option (A * Database)) :
  (forall d a d', f d = Some (a, d') -> room_seq d <= room_seq d' /\ next_media_id d <= next_media_id d') ->
  grows (transaction fault f).
Proof.
  intros Hf d n. unfold transaction. destruct (fault n); cbn; [split; lia|].
  destruct (f d) as [[a d']|] eqn:E; cbn; [|split; lia]. destruct (Hf _ _ _ E). split; cbn; lia.
Qed.

Lemma grows_query fault {A} (f : Database -> option A) : grows (query fault f).
Proof. apply grows_transaction. intros d a d'. destruct (f d); cbn; [|done]. intros [= _ <-]. lia. Qed.

Lemma grows_execute fault f :
  (forall d, room_seq (f d) = room_seq d /\ media_counter (f d) = media_counter d) -> grows (execute fault f).
Proof.
  intros Hf. apply grows_transaction. intros d a d' [= _ <-]. destruct (Hf d) as [-> E].
  unfold next_media_id. rewrite E. lia.
Qed.

Lemma grows_bind {A B} (m : DbM A) (k : A -> DbM B) : grows m -> (forall a, grows (k a)) -> grows (m ≫= k).
Proof.
  intros Hm Hk d n. specialize (Hm d n). unfold mbind, DbM_bind.
  destruct (m d n) as [[[a|e] d'] n']; cbn in *; [|done]. specialize (Hk a d' n'). destruct Hm, Hk. split; lia.
Qed.

Lemma grows_ret {A} (a : A) : grows (mret a).
Proof. intros d n. split; cbn; lia. Qed.

Lemma foldl_same {A B} (p : Database -> B) (f : Database -> A -> Database) l d :
  (forall d a, p (f d a) = p d) -> p (foldl f d l) = p d.
Proof. intros Hf. revert d. induction l as [|a l IH]; intros d; cbn; [done|]. by rewrite IH. Qed.

Lemma quiet_db {A} (m : DbM A) : grows m -> keeps quiet (db_call m).
Proof.
  intros Hm h. specialize (Hm (h_db h) (h_tick h)). unfold db_call.
  destruct (m (h_db h) (h_tick h)) as [[r d] n]; cbn in *. destruct Hm. split; try done.
  cbn. intros r' e He. by exists e.
Qed.

(** ** What is quiet *)

Section Quiet.
Context `{!Env}.

Local Ltac quiet_field := apply quiet_same; try reflexivity; cbn; lia.

Lemma quiet_now {E} : keeps quiet (now (E := E)).
Proof. intros h. quiet_field. Qed.
Lemma quiet_unix {E} : keeps quiet (unix_now (E := E)).
Proof. intros h. quiet_field. Qed.
Lemma quiet_random {E} : keeps quiet (random (E := E)).
Proof. intros h. quiet_field. Qed.
Lemma quiet_output {E} e : keeps quiet (output (E := E) e).
Proof. intros h. quiet_field. Qed.
Lemma quiet_try_send {E} to o : keeps quiet (try_send (E := E) to o).
Proof. intros h. unfold try_send. destruct (accepts _); quiet_field. Qed.

Lemma quiet_guesses {E} f : keeps quiet (modify (E := E) (upd_guesses f)).
Proof. intros h. quiet_field. Qed.
Lemma quiet_keyframes {E} f : keeps quiet (modify (E := E) (upd_keyframes f)).
Proof. intros h. quiet_field. Qed.
Lemma quiet_last_joined {E} f : keeps quiet (modify (E := E) (upd_last_joined f)).
Proof. intros h. quiet_field. Qed.

Definition meter (get : Hub -> Buckets f64 Z) (upd : (Buckets f64 Z -> Buckets f64 Z) -> Hub -> Hub) : Prop :=
  forall f h, quiet h (upd f h).

Lemma quiet_take {E} get upd u c t : meter get upd -> keeps quiet (meter_take (E := E) get upd u c t).
Proof. intros Hm h. unfold meter_take. destruct (buckets_take _ _ _ _). apply Hm. Qed.
Lemma quiet_holds {E} get upd u c t : meter get upd -> keeps quiet (meter_holds (E := E) get upd u c t).
Proof. intros Hm h. unfold meter_holds. destruct (buckets_holds _ _ _ _). apply Hm. Qed.

Lemma meter_requests : meter h_requests upd_requests. Proof. intros f h. quiet_field. Qed.
Lemma meter_cheap_requests : meter h_cheap_requests upd_cheap_requests. Proof. intros f h. quiet_field. Qed.
Lemma meter_uploads : meter h_uploads upd_uploads. Proof. intros f h. quiet_field. Qed.
Lemma meter_password_tries : meter h_password_tries upd_password_tries. Proof. intros f h. quiet_field. Qed.
Lemma meter_room_changes : meter h_room_changes upd_room_changes. Proof. intros f h. quiet_field. Qed.
Lemma meter_rejoins returning : meter (rejoin_get returning) (rejoin_upd returning).
Proof. intros f h. destruct returning; quiet_field. Qed.
Lemma meter_key_changes : meter h_encryption_key_changes upd_encryption_key_changes. Proof. intros f h. quiet_field. Qed.
Lemma meter_share_changes : meter h_share_changes upd_share_changes. Proof. intros f h. quiet_field. Qed.

Lemma quiet_row {E} f u :
  (forall r, ur_id (f r) = ur_id r) ->
  keeps quiet (modify (E := E) (upd_sessions (alter (fun s => with_row (f (s_row s)) s) u))).
Proof. intros Hf h. apply quiet_alter_session. intros s. unfold session_view. cbn. by rewrite Hf. Qed.
Lemma quiet_audience_seq {E} n u : keeps quiet (modify (E := E) (upd_sessions (alter (with_audience_seq n) u))).
Proof. intros h. by apply quiet_alter_session. Qed.
Lemma quiet_key_publishes {E} k u : keeps quiet (modify (E := E) (upd_sessions (alter (with_key_publishes k) u))).
Proof. intros h. by apply quiet_alter_session. Qed.
Lemma quiet_last_profile {E} t u : keeps quiet (modify (E := E) (upd_sessions (alter (with_last_profile t) u))).
Proof. intros h. by apply quiet_alter_session. Qed.

Lemma quiet_name {E} name r : keeps quiet (modify (E := E) (upd_rooms (alter (with_name name) r))).
Proof. intros h. apply quiet_alter_room; [done|]. intros e _. cbn. lia. Qed.
Lemma quiet_password_hash {E} hash r : keeps quiet (modify (E := E) (upd_rooms (alter (with_password_hash hash) r))).
Proof. intros h. apply quiet_alter_room; [done|]. intros e _. cbn. lia. Qed.

End Quiet.

#[export] Hint Resolve quiet_now quiet_unix quiet_random quiet_output quiet_try_send quiet_guesses quiet_keyframes
  quiet_last_joined quiet_take quiet_holds meter_requests meter_cheap_requests meter_uploads meter_password_tries
  meter_room_changes meter_rejoins meter_key_changes meter_share_changes quiet_audience_seq quiet_key_publishes
  quiet_last_profile quiet_name quiet_password_hash quiet_db : hub.

(** ** Database methods that give no room id back *)

Section Grows.
Context (fault : nat -> bool).

Local Ltac grown := intros [= _ <-]; unfold next_media_id; cbn; lia.

Lemma grows_enroll pk c n t : grows (enroll fault pk c n t).
Proof.
  apply grows_bind.
  - apply grows_transaction. intros d a d'. unfold enroll_tx. destruct (invites d !! c); [|grown].
    case_match; [grown|]. destruct (find_pubkey _ pk) as [id|].
    + destruct (users _ !! id); cbn; [|done]. case_match; grown.
    + unfold insert_user. case_match; cbn; [|done]. grown.
  - intros [[id kind]|]; [|apply grows_ret]. apply grows_bind; [apply grows_query|]. intros row. apply grows_ret.
Qed.
Lemma grows_create_room name hash : grows (create_room fault name hash).
Proof.
  apply grows_transaction. intros d a d'. unfold insert_room. case_match; cbn; [|done]. grown.
Qed.
Lemma grows_set_epochs epochs : grows (set_epochs fault epochs).
Proof. apply grows_execute. intros d. by split; apply foldl_same; intros ? []. Qed.
Lemma grows_remove_users l : grows (remove_users fault l).
Proof. apply grows_execute. intros d. by split; apply foldl_same. Qed.
Lemma grows_allocate n : 0 <= n -> grows (allocate_media_ids fault n).
Proof. intros Hn. apply grows_transaction. intros d a d'. cbv zeta. case_match; grown. Qed.
Lemma grows_insert_invite i : grows (insert_invite fault i).
Proof. apply grows_transaction. intros d a d'. destruct (invites d !! _); grown. Qed.
Lemma grows_gc t : grows (delete_unused_blobs fault t).
Proof. apply grows_transaction. intros d a d'. grown. Qed.
Lemma grows_invites_used id n t : grows (invites_used fault id n t).
Proof.
  apply grows_bind; [apply grows_query|]. intros a. apply grows_bind; [apply grows_query|]. intros b. apply grows_ret.
Qed.

Lemma grows_user id : grows (Database.user fault id). Proof. apply grows_query. Qed.
Lemma grows_users : grows (all_users fault). Proof. apply grows_query. Qed.
Lemma grows_rooms : grows (all_rooms fault). Proof. apply grows_query. Qed.
Lemma grows_admin_count : grows (admin_count fault). Proof. apply grows_query. Qed.
Lemma grows_unseen t : grows (unseen_since fault t). Proof. apply grows_query. Qed.
Lemma grows_tree id : grows (invite_tree fault id). Proof. apply grows_query. Qed.
Lemma grows_server_profile : grows (server_profile fault). Proof. apply grows_query. Qed.
Lemma grows_has_blob h : grows (has_blob fault h). Proof. apply grows_query. Qed.
Lemma grows_blob h : grows (blob fault h). Proof. apply grows_query. Qed.
Lemma grows_invite c : grows (invite fault c). Proof. apply grows_query. Qed.
Lemma grows_by_pubkey k : grows (user_by_pubkey fault k). Proof. apply grows_query. Qed.
Lemma grows_consume c : grows (consume_invite_try fault c). Proof. by apply grows_execute. Qed.
Lemma grows_delete_invite c : grows (delete_invite fault c). Proof. by apply grows_execute. Qed.
Lemma grows_mark_seen id t : grows (mark_seen fault id t). Proof. by apply grows_execute. Qed.
Lemma grows_set_profile id n a : grows (Database.set_profile fault id n a). Proof. by apply grows_execute. Qed.
Lemma grows_set_role id r : grows (Database.set_role fault id r). Proof. by apply grows_execute. Qed.
Lemma grows_set_key id k : grows (Database.set_encryption_key fault id k). Proof. by apply grows_execute. Qed.
Lemma grows_rename r n : grows (Database.rename_room fault r n). Proof. by apply grows_execute. Qed.
Lemma grows_password r h : grows (set_room_password_hash fault r h). Proof. by apply grows_execute. Qed.
Lemma grows_delete_room r : grows (Database.delete_room fault r). Proof. by apply grows_execute. Qed.
Lemma grows_purge t : grows (purge_expired_invites fault t). Proof. by apply grows_execute. Qed.
Lemma grows_put_blob h b t : grows (put_blob fault h b t). Proof. by apply grows_execute. Qed.
Lemma grows_server_name n : grows (Database.set_server_name fault n). Proof. by apply grows_execute. Qed.
Lemma grows_server_avatar a : grows (Database.set_server_avatar fault a). Proof. by apply grows_execute. Qed.

End Grows.

#[export] Hint Resolve grows_enroll grows_create_room grows_set_epochs grows_remove_users grows_allocate grows_invite grows_by_pubkey grows_consume grows_delete_invite
  grows_insert_invite grows_gc grows_invites_used grows_user grows_users grows_rooms grows_admin_count grows_unseen
  grows_tree grows_server_profile grows_has_blob grows_blob grows_mark_seen grows_set_profile grows_set_role
  grows_set_key grows_rename grows_password grows_delete_room grows_purge grows_put_blob grows_server_name
  grows_server_avatar : hub.

(** ** Handlers that move nobody *)

Section QuietHandlers.
Context `{!Env}.

Lemma quiet_dbr {A} (m : DbM A) : grows m -> keeps quiet (db m).
Proof. intros Hm. apply keeps_map_err. by apply quiet_db. Qed.
#[local] Hint Resolve quiet_dbr : hub.

Lemma quiet_send {E} s e : keeps quiet (send (E := E) s e).
Proof. unfold send. kept. Qed.
Lemma quiet_kick {E} c r n : keeps quiet (kick (E := E) c r n).
Proof. unfold kick. kept. Qed.
#[local] Hint Resolve quiet_send quiet_kick : hub.
Lemma quiet_emit_to {E} u e : keeps quiet (emit_to (E := E) u e).
Proof. unfold emit_to. kept. Qed.
#[local] Hint Resolve quiet_emit_to : hub.
Lemma quiet_emit_all {E} e : keeps quiet (emit_all (E := E) e).
Proof. unfold emit_all. kept. Qed.
Lemma quiet_emit_listers {E} e : keeps quiet (emit_user_list_change (E := E) e).
Proof. unfold emit_user_list_change. kept. Qed.
Lemma quiet_emit_room {E} r e x : keeps quiet (emit_room (E := E) r e x).
Proof. unfold emit_room. kept. Qed.
#[local] Hint Resolve quiet_emit_all quiet_emit_listers quiet_emit_room : hub.
Lemma quiet_announce {E} u : keeps quiet (announce_presence (E := E) u).
Proof. unfold announce_presence. kept. Qed.
Lemma quiet_broadcast {E} r x : keeps quiet (broadcast_peers (E := E) r x).
Proof. unfold broadcast_peers. kept. Qed.
#[local] Hint Resolve quiet_announce quiet_broadcast : hub.

Lemma quiet_session u : keeps quiet (session u).
Proof. unfold session. kept. Qed.
#[local] Hint Resolve quiet_session : hub.
Lemma quiet_role u : keeps quiet (role u).
Proof. unfold role. kept. Qed.
Lemma quiet_current_room u : keeps quiet (current_room u).
Proof. unfold current_room. kept. Qed.
Lemma quiet_room_entry r : keeps quiet (room_entry r).
Proof. unfold room_entry. kept. Qed.
Lemma quiet_stored_user u : keeps quiet (stored_user u).
Proof. unfold stored_user. kept. Qed.
Lemma quiet_require b : keeps quiet (require b).
Proof. unfold require. kept. Qed.
Lemma quiet_picture a : keeps quiet (require_picture a).
Proof. unfold require_picture. kept. Qed.
Lemma quiet_require_current u c : keeps quiet (require_current u c).
Proof. unfold require_current. kept. Qed.
Lemma quiet_checked_name n : keeps quiet (checked_name n).
Proof. unfold checked_name. kept. Qed.
Lemma quiet_password_length p : keeps quiet (check_password_length p).
Proof. unfold check_password_length. kept. Qed.
#[local] Hint Resolve quiet_role quiet_current_room quiet_room_entry quiet_stored_user quiet_require quiet_picture
  quiet_require_current quiet_checked_name quiet_password_length : hub.

(** ** Bumping epochs *)

Definition bumped (rooms : list RoomId) (r : RoomId) (e : RoomEntry) : RoomEntry :=
  if decide (r ∈ rooms) then with_epoch (e_epoch e + 1) e else e.

(** Some transaction failed between two hubs. *)
Definition db_failed (h h' : Hub) : Prop := exists n, (h_tick h <= n < h_tick h')%nat /\ db_fault n = true.

Lemma next_epochs_run rooms h r h' :
  mapM_ rooms (fun room =>
    entry ← room_entry room;
    next ← ok_or (checked_add32 (e_epoch entry) 1) (Refuse Internal (lit "room epoch exhausted"));
    mret (room, next)) h = (r, h') ->
  h' = h /\
  match r with
  | inl epochs => Forall2 (fun room re => re.1 = room /\
      exists e, h_rooms h !! room = Some e /\ re.2 = e_epoch e + 1 /\ e_epoch e < u32_max) rooms epochs
  | inr _ => exists room, room ∈ rooms /\
      forall e, h_rooms h !! room = Some e -> u32_max <= e_epoch e
  end.
Proof.
  revert r h'. induction rooms as [|room rooms IH]; intros r h'; cbn [mapM_].
  { intros [= <- <-]. split; [done|constructor]. }
  rewrite run_bind. unfold room_entry at 1. rewrite !run_bind. cbn [gets].
  destruct (h_rooms h !! room) as [e|] eqn:Ee; cbn [ok_or].
  2:{ intros [= <- <-]. split; [done|]. exists room. split; [left|]. rewrite Ee. done. }
  unfold mret at 1, M_ret at 1. rewrite run_bind. unfold checked_add32.
  destruct (Z.leb_spec (e_epoch e + 1) u32_max); cbn [ok_or].
  2:{ intros [= <- <-]. split; [done|]. exists room. split; [left|]. rewrite Ee. intros ? [= <-]. lia. }
  unfold mret at 1 2, M_ret at 1 2. cbv beta iota. rewrite run_bind.
  destruct (mapM_ _ _ h) as [[epochs|x] h1] eqn:E1; destruct (IH _ _ eq_refl) as [-> H1]; cbn.
  - intros [= <- <-]. split; [done|]. constructor; [|done]. split; [done|]. exists e. repeat split; [done|lia].
  - intros [= <- <-]. split; [done|]. destruct H1 as (room' & ? & ?). exists room'. split; [by right|done].
Qed.

Lemma store_epochs_run (epochs : list (RoomId * Epoch)) rooms h :
  Forall2 (fun room re => re.1 = room /\
      exists e, h_rooms h !! room = Some e /\ re.2 = e_epoch e + 1 /\ e_epoch e < u32_max) rooms epochs ->
  forall done h1, (forall r, h_rooms h1 !! r = bumped done r <$> h_rooms h !! r) ->
  exists h2, for_ (E := Refusal) epochs (fun '(room, epoch) => modify (upd_rooms (alter (with_epoch epoch) room))) h1 = (inl (), h2) /\
    h2 = upd_rooms (fun _ => h_rooms h2) h1 /\
    forall r, h_rooms h2 !! r = bumped (rooms ++ done) r <$> h_rooms h !! r.
Proof.
  induction 1 as [|room [id next] rooms epochs (Hid & e & He & Hnext & _) _ IH]; intros fin h1 H1; cbn [for_].
  { exists h1. split; [done|]. split; [by destruct h1|done]. }
  cbn in Hid, Hnext. subst id next. rewrite run_bind. cbn [modify].
  destruct (IH (room :: fin) (upd_rooms (alter (with_epoch (e_epoch e + 1)) room) h1)) as (h2 & E2 & E3 & H2).
  - intros r. cbn. destruct (decide (room = r)) as [<-|].
    + rewrite lookup_alter_eq, H1, He. cbn. f_equal. unfold bumped. rewrite (decide_True _ _ (P := room ∈ room :: fin)) by left.
      by destruct (decide (room ∈ fin)).
    + rewrite lookup_alter_ne, H1 by done. destruct (h_rooms h !! r) as [e'|]; cbn; [|done]. f_equal. unfold bumped.
      destruct (decide (r ∈ fin)), (decide (r ∈ room :: fin)); try done; set_solver.
  - exists h2. split; [done|]. split; [by rewrite E3|]. intros r. rewrite H2.
    destruct (h_rooms h !! r) as [e'|]; cbn; [|done]. f_equal. unfold bumped.
    destruct (decide (r ∈ rooms ++ room :: fin)), (decide (r ∈ room :: rooms ++ fin)); try done; set_solver.
Qed.

Lemma bump_spec rooms h r h' :
  bump_epochs rooms h = (r, h') ->
  quiet h h' /\ h_sessions h' = h_sessions h /\
  match r with
  | inl _ =>
      (forall r, h_rooms h' !! r = bumped rooms r <$> h_rooms h !! r) /\
      (forall room, room ∈ rooms -> exists e, h_rooms h !! room = Some e /\ e_epoch e < u32_max)
  | inr _ => h_rooms h' = h_rooms h /\
      (db_failed h h' \/ exists room, room ∈ rooms /\ forall e, h_rooms h !! room = Some e -> u32_max <= e_epoch e)
  end.
Proof.
  unfold bump_epochs. rewrite run_bind. destruct (mapM_ _ _ h) as [[epochs|x] h1] eqn:E1; apply next_epochs_run in E1 as [-> H1].
  2:{ intros [= <- <-]. split; [done|]. split; [done|]. split; [done|]. by right. }
  rewrite run_bind. pose proof (quiet_dbr _ (grows_set_epochs db_fault epochs) h) as Hq. revert Hq.
  unfold db, map_err, db_call, set_epochs, execute, transaction. destruct (db_fault (h_tick h)) eqn:Ef; cbn.
  { intros Hq [= <- <-]. split; [done|]. split; [done|]. split; [done|]. left. exists (h_tick h). split; [cbn; lia|done]. }
  set (h1 := upd_tick _ _). intros Hq.
  destruct (store_epochs_run epochs rooms h H1 [] h1) as (h2 & E2 & E3 & H2).
  { intros r'. unfold h1. cbn. by destruct (h_rooms h !! r'). }
  rewrite E2. intros [= <- <-]. rewrite app_nil_r in H2.
  assert (forall room, room ∈ rooms -> exists e, h_rooms h !! room = Some e /\ e_epoch e < u32_max) as Hr.
  { intros room Hroom. apply list_elem_of_lookup in Hroom as [i Hi].
    destruct (Forall2_lookup_l _ _ _ _ _ H1 Hi) as (? & _ & _ & e & ? & _ & ?). by exists e. }
  split; [|split; [by rewrite E3|split; done]].
  etrans; [exact Hq|]. rewrite E3. split; try done; cbn.
  - apply map_eq. intros r'. rewrite !lookup_fmap, H2. destruct (h_rooms h !! r') as [e|]; cbn; [|done].
    f_equal. unfold bumped. by case_decide.
  - intros r' e'. rewrite H2. intros (e & He & ->)%fmap_Some. exists e. split; [done|]. unfold bumped. case_decide; cbn; lia.
Qed.

Lemma quiet_session_mut u f : (forall s, session_view (f s) = session_view s) -> keeps quiet (session_mut u f).
Proof. intros Hf. unfold session_mut. kept. intros h. by apply quiet_alter_session. Qed.

Lemma quiet_audiences_in {E} r u : keeps quiet (audiences_in (E := E) r u).
Proof. unfold audiences_in. kept. Qed.
#[local] Hint Resolve quiet_audiences_in : hub.
Lemma quiet_placement {E} u : keeps quiet (placement (E := E) u).
Proof. unfold placement. kept. Qed.
Lemma quiet_bump l : keeps quiet (bump_epochs l).
Proof. intros h. destruct (bump_epochs l h) as [r h'] eqn:E. by apply bump_spec in E as []. Qed.
Lemma quiet_allocate : keeps quiet allocate_tracks.
Proof. unfold allocate_tracks. kept. by apply quiet_dbr, grows_allocate. Qed.
Lemma quiet_enters u t : keeps quiet (enters_another_room u t).
Proof. unfold enters_another_room. kept. Qed.
Lemma quiet_password_to_enter u r : keeps quiet (password_to_enter u r).
Proof. unfold password_to_enter. kept. Qed.
#[local] Hint Resolve quiet_placement quiet_bump quiet_allocate quiet_enters quiet_password_to_enter : hub.

Lemma quiet_set_profile u n a : keeps quiet (hub_set_profile u n a).
Proof. unfold hub_set_profile. kept; by apply quiet_session_mut. Qed.
Lemma quiet_announce_server : keeps quiet announce_server_profile.
Proof. unfold announce_server_profile. kept. Qed.
#[local] Hint Resolve quiet_announce_server : hub.
Lemma quiet_set_server_name u n : keeps quiet (hub_set_server_name u n).
Proof. unfold hub_set_server_name. kept. Qed.
Lemma quiet_set_server_avatar u a : keeps quiet (hub_set_server_avatar u a).
Proof. unfold hub_set_server_avatar. kept. Qed.
Lemma grows_collect n : grows (collect_blobs n).
Proof. apply grows_gc. Qed.
#[local] Hint Resolve grows_collect : hub.
Lemma quiet_set_avatar u b : keeps quiet (set_avatar u b).
Proof. unfold set_avatar. kept. Qed.
Lemma quiet_get_avatar h : keeps quiet (get_avatar h).
Proof. unfold get_avatar. kept. Qed.
Lemma quiet_set_encryption_key u k : keeps quiet (hub_set_encryption_key u k).
Proof. unfold hub_set_encryption_key. cbv zeta. kept; by apply quiet_session_mut. Qed.
Lemma quiet_room_to_create u n : keeps quiet (room_to_create u n).
Proof. unfold room_to_create. kept. Qed.
#[local] Hint Resolve quiet_room_to_create : hub.
Lemma quiet_rename u r n : keeps quiet (hub_rename_room u r n).
Proof. unfold hub_rename_room. kept. Qed.
Lemma quiet_may_manage u r : keeps quiet (may_manage_room u r).
Proof. unfold may_manage_room. kept. Qed.
Lemma quiet_store_password r p : keeps quiet (store_room_password r p).
Proof. unfold store_room_password. kept. Qed.
#[local] Hint Resolve quiet_may_manage quiet_store_password : hub.
Lemma quiet_set_room_password u r p : keeps quiet (set_room_password u r p).
Proof. unfold set_room_password. kept. Qed.
Lemma quiet_mint_attempts n u t : keeps quiet (mint_attempts n u t).
Proof. induction n; cbn [mint_attempts]; kept. Qed.
#[local] Hint Resolve quiet_mint_attempts : hub.
Lemma quiet_mint u t : keeps quiet (mint_invite u t).
Proof. unfold mint_invite. kept. Qed.
#[local] Hint Resolve quiet_mint : hub.
Lemma quiet_create_invite u : keeps quiet (create_invite u).
Proof. unfold create_invite. kept. Qed.
Lemma quiet_list_users u : keeps quiet (list_users u).
Proof. unfold list_users. kept. Qed.
Lemma quiet_role_changed {E} u r : keeps quiet (role_changed (E := E) u r).
Proof. unfold role_changed. kept; by apply quiet_row. Qed.
#[local] Hint Resolve quiet_role_changed : hub.
Lemma quiet_set_role u v r : keeps quiet (hub_set_role u v r).
Proof. unfold hub_set_role. kept. Qed.
Lemma quiet_request_keyframe u m k : keeps quiet (request_keyframe u m k).
Proof. unfold request_keyframe. kept. Qed.
Lemma quiet_flush {E} : keeps quiet (flush_keyframes (E := E)).
Proof. unfold flush_keyframes. kept. Qed.
Lemma quiet_publish u e w : keeps quiet (publish_key u e w).
Proof. unfold publish_key. kept. Qed.
Lemma quiet_free_publish {E} u e : keeps quiet (free_key_publish (E := E) u e).
Proof. unfold free_key_publish. cbv zeta. kept. Qed.

End QuietHandlers.

#[export] Hint Resolve quiet_dbr quiet_send quiet_kick quiet_emit_to quiet_emit_all quiet_emit_listers
  quiet_emit_room quiet_announce quiet_broadcast quiet_session quiet_role quiet_current_room quiet_room_entry
  quiet_stored_user quiet_require quiet_picture quiet_require_current quiet_checked_name quiet_password_length
  quiet_audiences_in quiet_placement quiet_bump quiet_allocate quiet_enters quiet_password_to_enter
  quiet_set_profile quiet_announce_server quiet_set_server_name quiet_set_server_avatar grows_collect
  quiet_set_avatar quiet_get_avatar quiet_set_encryption_key quiet_room_to_create quiet_rename quiet_may_manage
  quiet_store_password quiet_set_room_password quiet_mint quiet_create_invite quiet_list_users quiet_role_changed
  quiet_set_role quiet_request_keyframe quiet_flush quiet_publish quiet_free_publish : hub.

(** ** Computations that cannot refuse *)

Definition safe {E A} (m : M E A) : Prop := forall h, exists a, fst (m h) = inl a.

Lemma safe_ret {E A} (a : A) : safe (E := E) (mret a).
Proof. intros h. by exists a. Qed.
Lemma safe_gets {E A} (f : Hub -> A) : safe (E := E) (gets f).
Proof. intros h. by eexists. Qed.
Lemma safe_modify {E} f : safe (E := E) (modify f).
Proof. intros h. by eexists. Qed.
Lemma safe_bind {E A B} (m : M E A) (k : A -> M E B) : safe m -> (forall a, safe (k a)) -> safe (m ≫= k).
Proof.
  intros Hm Hk h. destruct (Hm h) as [a Ha]. unfold mbind, M_bind.
  destruct (m h) as [r h'] eqn:E1. cbn in Ha. subst r. apply Hk.
Qed.
Lemma safe_for {E A} (l : list A) (f : A -> M E unit) : (forall a, safe (f a)) -> safe (for_ l f).
Proof. intros Hf. induction l; cbn [for_]; [apply safe_ret|]. by apply safe_bind. Qed.
Lemma safe_when {E} b (m : M E unit) : safe m -> safe (when b m).
Proof. destruct b; [done|]. intros _. apply safe_ret. Qed.
Lemma safe_attempt {E E' A} (m : M E A) : safe (E := E') (attempt m).
Proof. intros h. unfold attempt. destruct (m h) as [r h']. by eexists. Qed.

Ltac safe_step :=
  match goal with
  | |- safe (_ ≫= _) => apply safe_bind; [|intros ?]
  | |- safe (mret _) => apply safe_ret
  | |- safe (gets _) => apply safe_gets
  | |- safe (modify _) => apply safe_modify
  | |- safe (attempt _) => apply safe_attempt
  | |- safe (for_ _ _) => apply safe_for; intros ?
  | |- safe (when _ _) => apply safe_when
  | |- safe (if ?b then _ else _) => destruct b
  | |- safe (match ?x with _ => _ end) => destruct x
  end.
Ltac safely := repeat first [solve [eauto 2 with hub nocore] | safe_step].

Section Safe.
Context `{!Env}.
Lemma safe_now {E} : safe (now (E := E)).
Proof. intros h. by eexists. Qed.
Lemma safe_try_send {E} to o : safe (try_send (E := E) to o).
Proof. intros h. unfold try_send. destruct (accepts _); by eexists. Qed.
Lemma safe_take {E} get upd u c t : safe (meter_take (E := E) get upd u c t).
Proof. intros h. unfold meter_take. destruct (buckets_take _ _ _ _). by eexists. Qed.
Lemma safe_holds {E} get upd u c t : safe (meter_holds (E := E) get upd u c t).
Proof. intros h. unfold meter_holds. destruct (buckets_holds _ _ _ _). by eexists. Qed.
#[local] Hint Resolve safe_now safe_try_send safe_take safe_holds : hub.
Lemma safe_send {E} s e : safe (send (E := E) s e).
Proof. unfold send, output. safely. Qed.
Lemma safe_kick {E} c r n : safe (kick (E := E) c r n).
Proof. unfold kick, output. safely. Qed.
#[local] Hint Resolve safe_send safe_kick : hub.
Lemma safe_emit_to {E} u e : safe (emit_to (E := E) u e).
Proof. unfold emit_to. safely. Qed.
#[local] Hint Resolve safe_emit_to : hub.
Lemma safe_emit_all {E} e : safe (emit_all (E := E) e).
Proof. unfold emit_all. safely. Qed.
Lemma safe_emit_listers {E} e : safe (emit_user_list_change (E := E) e).
Proof. unfold emit_user_list_change. safely. Qed.
Lemma safe_emit_room {E} r e x : safe (emit_room (E := E) r e x).
Proof. unfold emit_room. safely. Qed.
#[local] Hint Resolve safe_emit_all safe_emit_listers safe_emit_room : hub.
Lemma safe_announce {E} u : safe (announce_presence (E := E) u).
Proof. unfold announce_presence. safely. Qed.
Lemma safe_broadcast {E} r x : safe (broadcast_peers (E := E) r x).
Proof. unfold broadcast_peers. safely. Qed.
Lemma safe_audiences_in {E} r u : safe (audiences_in (E := E) r u).
Proof. unfold audiences_in. safely. Qed.
#[local] Hint Resolve safe_announce safe_broadcast safe_audiences_in : hub.
Lemma safe_placement {E} u : safe (placement (E := E) u).
Proof. unfold placement. safely. Qed.
Lemma safe_rebuild {E} : safe (rebuild_routes (E := E)).
Proof. unfold rebuild_routes. safely. Qed.
Lemma safe_set_membership {E} u r t : safe (set_membership (E := E) u r t).
Proof. unfold set_membership. safely. Qed.
#[local] Hint Resolve safe_placement safe_rebuild safe_set_membership : hub.
Lemma safe_leave_room {E} u : safe (leave_room (E := E) u).
Proof. unfold leave_room. safely. Qed.
#[local] Hint Resolve safe_leave_room : hub.
Lemma safe_evict {E} u r : safe (evict (E := E) u r).
Proof. unfold evict. safely. Qed.
#[local] Hint Resolve safe_evict : hub.
Lemma safe_drop_users {E} l : safe (drop_users (E := E) l).
Proof. unfold drop_users. safely. Qed.
Lemma safe_rejoin {E} u r : safe (rejoin (E := E) u r).
Proof. unfold rejoin. safely. Qed.
End Safe.

#[export] Hint Resolve safe_now safe_try_send safe_take safe_holds safe_send safe_kick safe_emit_to safe_emit_all
  safe_emit_listers safe_emit_room safe_announce safe_broadcast safe_audiences_in safe_placement safe_rebuild
  safe_set_membership safe_leave_room safe_evict safe_drop_users safe_rejoin : hub.

(** The first step of a safe computation. *)
Lemma run_safe {E A B} (m : M E A) (k : A -> M E B) h :
  safe m -> exists a h', m h = (inl a, h') /\ (m ≫= k) h = k a h'.
Proof.
  intros Hm. destruct (Hm h) as [a Ha]. destruct (m h) as [r h'] eqn:E1. cbn in Ha. subst r.
  exists a, h'. split; [done|]. rewrite run_bind. by rewrite E1.
Qed.

