(* ===== verification/HubFacts.v ===== *)
(** * What holds of the hub between requests

    [placed]: sessions and rooms agree on who is where, rooms and shares keep within their
    caps, and no two memberships send under the same media id.  [hub_ok] adds that the
    published table and the audiences are the ones the sessions call for. *)
From S2P Require Import Prelude Float64 Buckets Ids Frame Messages Sfu Database DatabaseFacts HubState Hub HubLogic.
Open Scope Z_scope.

(** ** Sessions as routes see them *)

Definition views (h : Hub) : gmap Z view := session_view <$> h_sessions h.
Definition members (h : Hub) : gmap Z (gset Z) := e_members <$> h_rooms h.

(** The tracks [allocate_tracks] makes from its first id. *)
Definition tracks_at (m : MediaId) : Tracks :=
  {| tr_mic := m; tr_shares := [{| st_video := m + 1; st_audio := m + 2 |}] |}.

#[export] Instance tracks_at_inj : Inj (=) (=) tracks_at.
Proof. intros m m'. unfold tracks_at. by intros [= ->]. Qed.

(** The members of [ms] with a share running. *)
Definition sharers (vs : gmap Z view) (ms : gset Z) : gset Z :=
  filter (fun u => from_option v_sharing false (vs !! u) = true) ms.

Record placed (h : Hub) : Prop := {
  (** Sessions are kept under their user, and have a connection of their own. *)
  pl_user : forall u v, views h !! u = Some v -> v_user v = u;
  pl_conn : forall u v, views h !! u = Some v -> 1 <= v_conn v <= h_next_conn h;
  pl_conns : forall u u' v v', views h !! u = Some v -> views h !! u' = Some v' -> v_conn v = v_conn v' -> u = u';
  (** A session is in at most one room, and both sides agree. *)
  pl_in : forall u v r, views h !! u = Some v -> v_room v = Some r -> exists ms, members h !! r = Some ms /\ u ∈ ms;
  pl_member : forall r ms u, members h !! r = Some ms -> u ∈ ms -> exists v, views h !! u = Some v /\ v_room v = Some r;
  (** In the lobby nothing is sent or watched; in a room a session has tracks. *)
  pl_lobby : forall u v, views h !! u = Some v -> v_room v = None ->
    v_tracks v = None /\ v_sharing v = false /\ v_watching v = [];
  pl_tracks : forall u v r, views h !! u = Some v -> v_room v = Some r ->
    exists m, v_tracks v = Some (tracks_at m) /\ 1 <= m /\ m + 2 <= u32_max /\ m + 3 <= next_media_id (h_db h);
  pl_apart : forall u u' v v' m m', views h !! u = Some v -> views h !! u' = Some v' -> u <> u' ->
    v_tracks v = Some (tracks_at m) -> v_tracks v' = Some (tracks_at m') -> m + 3 <= m' \/ m' + 3 <= m;
  (** The caps. *)
  pl_size : forall r ms, members h !! r = Some ms -> Z.of_nat (size ms) <= MAX_ROOM_MEMBERS;
  pl_shares : forall r ms, members h !! r = Some ms -> Z.of_nat (size (sharers (views h) ms)) <= MAX_ROOM_SHARES;
  pl_watched : forall u v, views h !! u = Some v -> Z.of_nat (length (v_watching v)) <= MAX_WATCHED;
  (** Ids given out. *)
  pl_rooms : forall r, is_Some (members h !! r) -> 1 <= r <= room_seq (h_db h);
  pl_seq : 0 <= room_seq (h_db h);
  pl_media : 1 <= next_media_id (h_db h);
  pl_next_conn : 0 <= h_next_conn h <= u64_max
}.

(** The fields of [placed] that carry over as they are. *)
Ltac placed_same Hp :=
  try first [exact (pl_user _ Hp)
    | exact (pl_conn _ Hp)
    | exact (pl_conns _ Hp)
    | exact (pl_in _ Hp)
    | exact (pl_member _ Hp)
    | exact (pl_lobby _ Hp)
    | exact (pl_tracks _ Hp)
    | exact (pl_apart _ Hp)
    | exact (pl_size _ Hp)
    | exact (pl_shares _ Hp)
    | exact (pl_watched _ Hp)
    | exact (pl_rooms _ Hp)
    | exact (pl_seq _ Hp)
    | exact (pl_media _ Hp)
    | exact (pl_next_conn _ Hp)].

Definition fresh (h : Hub) : Prop :=
  h_table h = routes_of (h_sessions h) (h_rooms h) /\ h_audiences h = audiences_of (h_sessions h) (h_rooms h).

Record hub_ok (h : Hub) : Prop := { ok_placed : placed h; ok_fresh : fresh h }.

Lemma lookup_views h u s : h_sessions h !! u = Some s -> views h !! u = Some (session_view s).
Proof. intros Hs. unfold views. by rewrite lookup_fmap, Hs. Qed.
Lemma lookup_views_inv h u v : views h !! u = Some v -> exists s, h_sessions h !! u = Some s /\ v = session_view s.
Proof. unfold views. rewrite lookup_fmap. intros (s & ? & ?)%fmap_Some. by exists s. Qed.
Lemma lookup_members h r e : h_rooms h !! r = Some e -> members h !! r = Some (e_members e).
Proof. intros He. unfold members. by rewrite lookup_fmap, He. Qed.
Lemma lookup_members_inv h r ms : members h !! r = Some ms -> exists e, h_rooms h !! r = Some e /\ ms = e_members e.
Proof. unfold members. rewrite lookup_fmap. intros (e & ? & ?)%fmap_Some. by exists e. Qed.

Lemma lookup_members_none h r : h_rooms h !! r = None -> members h !! r = None.
Proof. intros He. unfold members. by rewrite lookup_fmap, He. Qed.

(** ** Routes depend only on views of members *)

Lemma Forall2_filter {A} (R : A -> A -> Prop) (P Q : A -> Prop) `{forall x, Decision (P x)} `{forall x, Decision (Q x)} l l' :
  Forall2 R l l' -> (forall x y, R x y -> P x <-> Q y) -> Forall2 R (filter P l) (filter Q l').
Proof.
  intros HF HPQ. induction HF as [|x y l l' Hxy _ IH]; [constructor|]. rewrite !filter_cons.
  specialize (HPQ _ _ Hxy). case_decide; case_decide; try tauto. by constructor.
Qed.

Lemma Forall2_fmap_eq {A B} (R : A -> A -> Prop) (f g : A -> B) l l' :
  Forall2 R l l' -> (forall x y, R x y -> f x = g y) -> f <$> l = g <$> l'.
Proof. intros HF Hfg. induction HF as [|x y l l' Hxy _ IH]; csimpl; [done|]. by rewrite (Hfg _ _ Hxy), IH. Qed.

Definition same_view (s s' : Session) : Prop := session_view s = session_view s'.

(** The eight facts [same_view] is made of. *)
Lemma same_view_inv s s' : same_view s s' ->
  s_conn_id s = s_conn_id s' /\ s_handle s = s_handle s' /\ ur_id (s_row s) = ur_id (s_row s') /\
  s_room s = s_room s' /\ s_tracks s = s_tracks s' /\ ms_deafened (s_media s) = ms_deafened (s_media s') /\
  bool_decide (is_Some (ms_share (s_media s))) = bool_decide (is_Some (ms_share (s_media s'))) /\ s_watching s = s_watching s'.
Proof. unfold same_view, session_view. intros [=]. tauto. Qed.

Lemma others_same ml ml' s s' : Forall2 same_view ml ml' -> same_view s s' -> Forall2 same_view (others ml s) (others ml' s').
Proof.
  intros Hm Hs. apply Forall2_filter; [done|]. intros x y Hxy.
  apply same_view_inv in Hs, Hxy. destruct Hs as (_ & _ & -> & _), Hxy as (_ & _ & -> & _). done.
Qed.

Lemma sees_same share x y : same_view x y -> sees share x <-> sees share y.
Proof. intros H%same_view_inv. unfold sees. by destruct H as (_ & _ & _ & _ & _ & _ & _ & ->). Qed.
Lemma hears_same share x y : same_view x y -> hears share x <-> hears share y.
Proof. intros H%same_view_inv. unfold hears. by destruct H as (_ & _ & _ & _ & _ & -> & _ & ->). Qed.

Lemma route_same owner kind l l' : Forall2 same_view l l' -> route owner kind l = route owner kind l'.
Proof.
  intros H. unfold route. f_equal. eapply Forall2_fmap_eq; [done|]. intros x y Hxy%same_view_inv. tauto.
Qed.

Lemma sender_routes_same ml ml' s s' :
  Forall2 same_view ml ml' -> same_view s s' -> sender_routes ml s = sender_routes ml' s'.
Proof.
  intros Hm Hs. pose proof (others_same _ _ _ _ Hm Hs) as Ho.
  destruct (same_view_inv _ _ Hs) as (Hc & _ & _ & _ & Ht & _). unfold sender_routes. rewrite Hc, Ht.
  destruct (s_tracks s') as [t|]; [|done]. cbv zeta. f_equal.
  - f_equal. apply route_same, Forall2_filter; [done|]. intros x y Hxy%same_view_inv.
    by destruct Hxy as (_ & _ & _ & _ & _ & -> & _).
  - f_equal. apply list_fmap_ext. intros _ share _.
    rewrite (route_same _ _ _ _ (Forall2_filter _ _ _ _ _ Ho (sees_same share))).
    by rewrite (route_same _ _ _ _ (Forall2_filter _ _ _ _ _ Ho (hears_same share))).
Qed.

Lemma sender_audiences_same ml ml' s s' :
  Forall2 same_view ml ml' -> same_view s s' -> sender_audiences ml s = sender_audiences ml' s'.
Proof.
  intros Hm Hs. pose proof (others_same _ _ _ _ Hm Hs) as Ho.
  destruct (same_view_inv _ _ Hs) as (_ & _ & _ & _ & Ht & _ & Hsh & _). unfold sender_audiences. rewrite Ht.
  destruct (s_tracks s') as [t|]; [|done]. apply list_omap_ext, Forall2_same_length_lookup_2; [done|].
  intros i share share' E1 E2. rewrite E1 in E2. simplify_eq. cbv zeta. rewrite Hsh.
  erewrite (Forall2_fmap_eq same_view _ (fun m => ur_id (s_row m))); [done| |].
  - apply (Forall2_filter same_view _ (fun m => sees share' m \/ hears share' m)); [exact Ho|]. intros x y Hxy.
    by rewrite (sees_same _ _ _ Hxy), (hears_same _ _ _ Hxy).
  - intros x y Hxy%same_view_inv. tauto.
Qed.

Definition agree_on (ss ss' : gmap Z Session) (ms : gset Z) : Prop :=
  forall u, u ∈ ms -> session_view <$> ss !! u = session_view <$> ss' !! u.

Lemma elem_of_in_order ms u : u ∈ in_order ms <-> u ∈ ms.
Proof. unfold in_order. by rewrite merge_sort_Permutation, elem_of_elements. Qed.

Lemma NoDup_in_order ms : NoDup (in_order ms).
Proof. unfold in_order. rewrite merge_sort_Permutation. apply NoDup_elements. Qed.

Lemma omap_lookup_same (ss ss' : gmap Z Session) l :
  (forall u, u ∈ l -> session_view <$> ss !! u = session_view <$> ss' !! u) ->
  Forall2 same_view (omap (fun u => ss !! u) l) (omap (fun u => ss' !! u) l).
Proof.
  induction l as [|u l IH]; intros H; csimpl; [constructor|].
  assert (Forall2 same_view (omap (fun u => ss !! u) l) (omap (fun u => ss' !! u) l)) by (apply IH; intros; apply H; by right).
  specialize (H u (list_elem_of_here _ _)).
  destruct (ss !! u), (ss' !! u); cbn in H; try done. constructor; [|done]. unfold same_view. congruence.
Qed.

Lemma member_sessions_same ss ss' e e' :
  e_members e = e_members e' -> agree_on ss ss' (e_members e) ->
  Forall2 same_view (member_sessions ss e) (member_sessions ss' e').
Proof.
  intros He H. unfold member_sessions. rewrite <- He. apply omap_lookup_same. intros u Hu.
  apply H. by apply elem_of_in_order.
Qed.

Lemma room_routes_same ss ss' e e' :
  e_members e = e_members e' -> agree_on ss ss' (e_members e) -> room_routes ss e = room_routes ss' e'.
Proof.
  intros He H. pose proof (member_sessions_same _ _ _ _ He H) as HF. unfold room_routes. cbv zeta. f_equal.
  eapply Forall2_fmap_eq; [done|]. intros x y Hxy. by apply sender_routes_same.
Qed.

Lemma room_audiences_same ss ss' e e' :
  e_members e = e_members e' -> agree_on ss ss' (e_members e) -> room_audiences ss e = room_audiences ss' e'.
Proof.
  intros He H. pose proof (member_sessions_same _ _ _ _ He H) as HF. unfold room_audiences. cbv zeta. f_equal.
  eapply Forall2_fmap_eq; [done|]. intros x y Hxy. by apply sender_audiences_same.
Qed.

(** ** The table, looked up *)

Definition all_routes (ss : gmap Z Session) (rs : gmap Z RoomEntry) : list (MediaId * Route handle) :=
  concat ((fun room => from_option (room_routes ss) [] (rs !! room)) <$> ids rs).

Lemma concat_bind {A B} (f : A -> list B) l : concat (f <$> l) = l ≫= f.
Proof. induction l; csimpl; [done|]. by f_equal. Qed.

Lemma foldl_insert_lookup {A} (l : list (Z * A)) i x :
  NoDup l.*1 -> foldl (fun t '(id, r) => <[id := r]> t) (∅ : gmap Z A) l !! i = Some x <-> (i, x) ∈ l.
Proof.
  induction l as [|[k y] l IH] using rev_ind; intros Hl; cbn.
  { rewrite lookup_empty. split; [done|]. by intros ?%not_elem_of_nil. }
  rewrite fmap_app in Hl. apply list.NoDup_app in Hl as (Hl & Hnot & _).
  rewrite foldl_snoc, elem_of_app, list_elem_of_singleton. destruct (decide (k = i)) as [->|].
  - rewrite lookup_insert_eq. split; [intros [= ->]; by right|]. intros [Hin|[= ->]]; [|done].
    exfalso. apply (Hnot i); [|left]. apply list_elem_of_fmap. by exists (i, x).
  - rewrite lookup_insert_ne by done. rewrite (IH Hl). split; [by left|]. intros [?|[=]]; [done|congruence].
Qed.

Definition track_ids (t : Tracks) : list MediaId :=
  tr_mic t :: concat ((fun share => [st_video share; st_audio share]) <$> tr_shares t).

Lemma sender_route_ids ml s : (sender_routes ml s).*1 = from_option track_ids [] (s_tracks s).
Proof.
  unfold sender_routes. destruct (s_tracks s) as [t|]; [|done]. cbv zeta. csimpl. unfold track_ids. f_equal.
  induction (tr_shares t) as [|share l IH]; csimpl; [done|]. by rewrite IH.
Qed.

Section Placed.
Context (h : Hub) (Hp : placed h).

Lemma placed_session u s : h_sessions h !! u = Some s -> ur_id (s_row s) = u.
Proof. intros Hs. by apply (pl_user h Hp u (session_view s)), lookup_views. Qed.

Lemma placed_member r e u : h_rooms h !! r = Some e -> u ∈ e_members e ->
  exists s, h_sessions h !! u = Some s /\ s_room s = Some r.
Proof.
  intros He Hu. destruct (pl_member h Hp r (e_members e) u) as (v & Hv & Hr); [by apply lookup_members|done|].
  apply lookup_views_inv in Hv as (s & Hs & ->). by exists s.
Qed.

Lemma placed_in u s r : h_sessions h !! u = Some s -> s_room s = Some r ->
  exists e, h_rooms h !! r = Some e /\ u ∈ e_members e.
Proof.
  intros Hs Hr. destruct (pl_in h Hp u (session_view s) r) as (ms & Hms & Hu); [by apply lookup_views|done|].
  apply lookup_members_inv in Hms as (e & He & ->). by exists e.
Qed.

Lemma placed_tracks u s r : h_sessions h !! u = Some s -> s_room s = Some r ->
  exists m, s_tracks s = Some (tracks_at m) /\ 1 <= m /\ m + 2 <= u32_max.
Proof.
  intros Hs Hr. destruct (pl_tracks h Hp u (session_view s) r) as (m & Hm & ? & ? & _); [by apply lookup_views|done|].
  by exists m.
Qed.

(** Everyone in a room has a session that says so. *)
Lemma elem_of_member_sessions r e s : h_rooms h !! r = Some e ->
  s ∈ member_sessions (h_sessions h) e <-> h_sessions h !! ur_id (s_row s) = Some s /\ s_room s = Some r.
Proof.
  intros He. unfold member_sessions. rewrite list_elem_of_omap. split.
  - intros (u & Hu%elem_of_in_order & Hs). destruct (placed_member _ _ _ He Hu) as (s' & Hs' & Hr).
    rewrite Hs in Hs'. injection Hs' as <-. by rewrite (placed_session _ _ Hs).
  - intros [Hs Hr]. exists (ur_id (s_row s)). split; [|done]. apply elem_of_in_order.
    destruct (placed_in _ _ _ Hs Hr) as (e' & He' & Hu). congruence.
Qed.

Lemma member_session_ids r e : h_rooms h !! r = Some e ->
  (fun s => ur_id (s_row s)) <$> member_sessions (h_sessions h) e = in_order (e_members e).
Proof.
  intros He. unfold member_sessions.
  assert (forall u, u ∈ in_order (e_members e) -> u ∈ e_members e) as H by (intros u; apply elem_of_in_order).
  induction (in_order (e_members e)) as [|u l IH]; csimpl; [done|].
  destruct (placed_member _ _ _ He (H u ltac:(left))) as (s & Hs & _). rewrite Hs. csimpl.
  rewrite (placed_session _ _ Hs), IH; [done|]. intros v Hv. apply H. by right.
Qed.

Lemma NoDup_member_sessions r e : h_rooms h !! r = Some e -> NoDup (member_sessions (h_sessions h) e).
Proof.
  intros He. eapply (NoDup_fmap_1 (fun s => ur_id (s_row s))). rewrite (member_session_ids _ _ He). apply NoDup_in_order.
Qed.

(** A media id is one session's. *)
Lemma track_owner s s' t t' i :
  h_sessions h !! ur_id (s_row s) = Some s -> h_sessions h !! ur_id (s_row s') = Some s' ->
  s_tracks s = Some t -> s_tracks s' = Some t' -> i ∈ track_ids t -> i ∈ track_ids t' -> s = s'.
Proof.
  intros Hs Hs' Ht Ht' Hi Hi'. destruct (decide (ur_id (s_row s) = ur_id (s_row s'))) as [Heq|Hne]; [congruence|].
  assert (forall s t, h_sessions h !! ur_id (s_row s) = Some s -> s_tracks s = Some t ->
            exists m, t = tracks_at m) as Hat.
  { intros s0 t0 H0 H1. destruct (s_room s0) as [r|] eqn:Hr.
    - destruct (placed_tracks _ _ _ H0 Hr) as (m & ? & _). exists m. congruence.
    - destruct (pl_lobby h Hp _ _ (lookup_views _ _ _ H0) Hr) as [? _]. cbn in *. congruence. }
  destruct (Hat _ _ Hs Ht) as [m ->], (Hat _ _ Hs' Ht') as [m' ->].
  pose proof (pl_apart h Hp _ _ _ _ m m' (lookup_views _ _ _ Hs) (lookup_views _ _ _ Hs') Hne Ht Ht') as Hm.
  unfold track_ids in Hi, Hi'. cbn in Hi, Hi'. rewrite !elem_of_cons, elem_of_nil in Hi, Hi'. lia.
Qed.

Lemma all_routes_elem i rt : (i, rt) ∈ all_routes (h_sessions h) (h_rooms h) <->
  exists r e s, h_rooms h !! r = Some e /\ s ∈ member_sessions (h_sessions h) e /\
    (i, rt) ∈ sender_routes (member_sessions (h_sessions h) e) s.
Proof.
  unfold all_routes. rewrite concat_bind, list_elem_of_bind. split.
  - intros (r & Hin & _). destruct (h_rooms h !! r) as [e|] eqn:He; cbn in Hin; [|by apply not_elem_of_nil in Hin].
    unfold room_routes in Hin. cbv zeta in Hin. rewrite concat_bind, list_elem_of_bind in Hin.
    destruct Hin as (s & ? & ?). by exists r, e, s.
  - intros (r & e & s & He & Hs & Hin). exists r. rewrite He. cbn. split; [|apply elem_of_ids; by eexists].
    unfold room_routes. cbv zeta. rewrite concat_bind, list_elem_of_bind. by exists s.
Qed.

Lemma member_track_ids r e s i : h_rooms h !! r = Some e -> s ∈ member_sessions (h_sessions h) e ->
  i ∈ (sender_routes (member_sessions (h_sessions h) e) s).*1 ->
  h_sessions h !! ur_id (s_row s) = Some s /\ s_room s = Some r /\ exists t, s_tracks s = Some t /\ i ∈ track_ids t.
Proof.
  intros He Hs Hi. apply (elem_of_member_sessions _ _ _ He) in Hs as [Hs Hr]. split; [done|]. split; [done|].
  rewrite sender_route_ids in Hi. destruct (s_tracks s) as [t|]; [by exists t|by apply not_elem_of_nil in Hi].
Qed.

Lemma fmap_bind {A B C} (f : B -> C) (g : A -> list B) l : f <$> (l ≫= g) = l ≫= (fun a => f <$> g a).
Proof. induction l; csimpl; [done|]. rewrite fmap_app. by f_equal. Qed.

Lemma NoDup_room_routes r e : h_rooms h !! r = Some e -> NoDup (room_routes (h_sessions h) e).*1.
Proof.
  intros He. unfold room_routes. cbv zeta. rewrite concat_bind, fmap_bind. apply NoDup_bind.
  - intros s s' i Hs Hs' Hi Hi'.
    destruct (member_track_ids _ _ _ _ He Hs Hi) as (? & _ & t & ? & ?).
    destruct (member_track_ids _ _ _ _ He Hs' Hi') as (? & _ & t' & ? & ?). by eapply track_owner.
  - intros s Hs. rewrite sender_route_ids. apply (elem_of_member_sessions _ _ _ He) in Hs as [Hs Hr].
    destruct (placed_tracks _ _ _ Hs Hr) as (m & -> & _). cbn. unfold track_ids. cbn.
    rewrite !list.NoDup_cons, !elem_of_cons, !elem_of_nil. split; [lia|]. split; [lia|]. split; [tauto|]. constructor.
  - by eapply NoDup_member_sessions.
Qed.

Lemma NoDup_all_routes : NoDup (all_routes (h_sessions h) (h_rooms h)).*1.
Proof.
  unfold all_routes. rewrite concat_bind, fmap_bind. apply NoDup_bind; [| |apply NoDup_ids].
  - intros r r' i _ _ Hi Hi'.
    destruct (h_rooms h !! r) as [e|] eqn:He; cbn in Hi; [|by apply not_elem_of_nil in Hi].
    destruct (h_rooms h !! r') as [e'|] eqn:He'; cbn in Hi'; [|by apply not_elem_of_nil in Hi'].
    unfold room_routes in Hi, Hi'. cbv zeta in Hi, Hi'. rewrite concat_bind, fmap_bind, list_elem_of_bind in Hi, Hi'.
    destruct Hi as (s & Hi & Hs), Hi' as (s' & Hi' & Hs').
    destruct (member_track_ids _ _ _ _ He Hs Hi) as (? & ? & t & ? & ?).
    destruct (member_track_ids _ _ _ _ He' Hs' Hi') as (? & ? & t' & ? & ?).
    assert (s = s') by (by eapply track_owner). congruence.
  - intros r _. destruct (h_rooms h !! r) as [e|] eqn:He; cbn; [by eapply NoDup_room_routes|constructor].
Qed.

(** The table holds a route exactly when a member's session sends it. *)
Lemma lookup_routes i rt : routes_of (h_sessions h) (h_rooms h) !! i = Some rt <->
  exists r e s, h_rooms h !! r = Some e /\ s ∈ member_sessions (h_sessions h) e /\
    (i, rt) ∈ sender_routes (member_sessions (h_sessions h) e) s.
Proof. rewrite <- all_routes_elem. apply foldl_insert_lookup. apply NoDup_all_routes. Qed.

End Placed.

(** Two hubs whose rooms have the same members, seen alike, but for rooms nobody is in. *)
Definition same_rooms (h h' : Hub) : Prop :=
  forall r, agree_on (h_sessions h) (h_sessions h') (default ∅ (members h !! r)) /\
    default ∅ (members h !! r) = default ∅ (members h' !! r).

Lemma routes_same h h' : placed h -> placed h' -> same_rooms h h' ->
  routes_of (h_sessions h) (h_rooms h) = routes_of (h_sessions h') (h_rooms h').
Proof.
  assert (forall h h', placed h -> placed h' -> same_rooms h h' -> forall i rt,
    routes_of (h_sessions h) (h_rooms h) !! i = Some rt -> routes_of (h_sessions h') (h_rooms h') !! i = Some rt) as Hle.
  { clear h h'. intros h h' Hp Hp' Hsame i rt. rewrite (lookup_routes h Hp), (lookup_routes h' Hp').
    intros (r & e & s & He & Hs & Hin). destruct (Hsame r) as [Hag Hms].
    rewrite (lookup_members _ _ _ He) in Hag, Hms. cbn in Hag, Hms.
    assert (exists u, u ∈ e_members e /\ h_sessions h !! u = Some s) as (u & Hu & Hsu).
    { apply list_elem_of_omap in Hs as (u & Hu%elem_of_in_order & ?). by exists u. }
    destruct (h_rooms h' !! r) as [e'|] eqn:He'.
    2:{ unfold members in Hms. rewrite lookup_fmap, He' in Hms. cbn in Hms. set_solver. }
    rewrite (lookup_members _ _ _ He') in Hms. cbn in Hms.
    pose proof (Hag u Hu) as Hv. rewrite Hsu in Hv. destruct (h_sessions h' !! u) as [s'|] eqn:Hsu'; [|done].
    assert (same_view s s') as Hss by (unfold same_view; cbn in *; congruence).
    exists r, e', s'. split; [done|]. split.
    - unfold member_sessions. apply list_elem_of_omap. exists u. split; [|done]. apply elem_of_in_order. by rewrite <- Hms.
    - erewrite <- sender_routes_same; [exact Hin|by apply member_sessions_same|done]. }
  intros Hp Hp' Hsame. apply map_eq. intros i. apply option_eq. intros rt. split; [by apply Hle|]. apply Hle; [done..|].
  intros r. destruct (Hsame r) as [Hag <-]. split; [|done]. intros u Hu. by rewrite (Hag u Hu).
Qed.

Lemma room_audiences_empty ss e : e_members e = ∅ -> room_audiences ss e = [].
Proof. intros He. unfold room_audiences, member_sessions, in_order. by rewrite He, elements_empty. Qed.

Lemma audiences_same h h' : same_rooms h h' ->
  audiences_of (h_sessions h) (h_rooms h) = audiences_of (h_sessions h') (h_rooms h').
Proof.
  intros Hsame. apply map_eq. intros r. unfold audiences_of. rewrite !lookup_omap. destruct (Hsame r) as [Hag Hms].
  destruct (h_rooms h !! r) as [e|] eqn:He, (h_rooms h' !! r) as [e'|] eqn:He';
    rewrite ?(lookup_members _ _ _ He), ?(lookup_members _ _ _ He'), ?(lookup_members_none _ _ He),
      ?(lookup_members_none _ _ He') in Hms; rewrite ?(lookup_members _ _ _ He) in Hag; cbn in *.
  - by rewrite (room_audiences_same _ _ _ _ Hms Hag).
  - by rewrite room_audiences_empty.
  - by rewrite room_audiences_empty.
  - done.
Qed.

Lemma fresh_same h h' : placed h -> placed h' -> same_rooms h h' ->
  h_table h' = h_table h -> h_audiences h' = h_audiences h -> fresh h -> fresh h'.
Proof.
  intros Hp Hp' Hs Ht Ha [Hft Hfa]. split.
  - by rewrite Ht, Hft, (routes_same h h').
  - by rewrite Ha, Hfa, (audiences_same h h').
Qed.

(** ** Quiet steps keep it *)

Lemma quiet_placed h h' : quiet h h' -> placed h -> placed h'.
Proof.
  intros [Es Em _ _ En Hr Hm _ _] []. fold (views h) (views h') in Es. fold (members h) (members h') in Em.
  split; rewrite ?Es, ?Em, ?En; try done; try lia.
  - intros u v r Hv Hrm. destruct (pl_tracks0 u v r Hv Hrm) as (m & ? & ? & ? & ?). exists m. repeat split; try done. lia.
  - intros r Hin. specialize (pl_rooms0 r Hin). lia.
Qed.

Lemma views_agree h h' : views h' = views h -> members h' = members h -> same_rooms h h'.
Proof.
  intros Es Em r. rewrite Em. split; [|done]. intros u _. rewrite <- !lookup_fmap. fold (views h) (views h'). by rewrite Es.
Qed.

Lemma quiet_ok h h' : quiet h h' -> hub_ok h -> hub_ok h'.
Proof.
  intros Hq [Hp Hf]. assert (placed h') by (by eapply quiet_placed). split; [done|].
  destruct Hq. apply (fresh_same h); try done. by apply views_agree.
Qed.

(** [R] for a hub known to satisfy [P]. *)
Definition keeping (P : Hub -> Prop) (h h' : Hub) : Prop := P h -> P h'.
#[export] Instance keeping_preorder P : PreOrder (keeping P).
Proof. split; unfold keeping; [intros ?; auto|intros ? ? ?; auto]. Qed.

Lemma quiet_keeping {E A} (m : M E A) : keeps quiet m -> keeps (keeping hub_ok) m.
Proof. intros Hm h. unfold keeping. apply quiet_ok, Hm. Qed.

Lemma bind_inv {E A B} (m : M E A) (k : A -> M E B) h r h' :
  (m ≫= k) h = (r, h') ->
  (exists a h1, m h = (inl a, h1) /\ k a h1 = (r, h')) \/ (exists e, m h = (inr e, h') /\ r = inr e).
Proof.
  rewrite run_bind. destruct (m h) as [[a|e] h1]; [intros H; left; by exists a, h1|].
  intros [= <- <-]. right. by exists e.
Qed.

(** A step that cannot refuse, and one that is quiet as well. *)
Lemma step_safe {E A B} (m : M E A) (k : A -> M E B) h r h' :
  (m ≫= k) h = (r, h') -> safe m -> exists a h1, m h = (inl a, h1) /\ k a h1 = (r, h').
Proof.
  intros H Hm. apply bind_inv in H as [H|(e & H & _)]; [done|]. destruct (Hm h) as [a Ha]. by rewrite H in Ha.
Qed.

Lemma step_quiet {E A B} (m : M E A) (k : A -> M E B) h r h' :
  (m ≫= k) h = (r, h') -> safe m -> keeps quiet m -> exists a h1, quiet h h1 /\ m h = (inl a, h1) /\ k a h1 = (r, h').
Proof.
  intros H Hm Hk. apply step_safe in H as (a & h1 & E1 & H); [|done]. exists a, h1. split; [|done]. by eapply keeps_run.
Qed.

Ltac quiet_step H h1 := apply step_quiet in H as (? & h1 & ? & ? & H).

(** Runs the next step of [H : (m ≫= k) h = (r, h')]: the success in the first goal, the
    refusal in the second. *)
Ltac run_step H :=
  apply bind_inv in H as [(? & ? & ? & H)|(? & ? & ->)].

(** ** Rebuilding and moving *)

Definition rebuilt (h : Hub) : Hub :=
  upd_audiences (fun _ => audiences_of (h_sessions h) (h_rooms h))
    (upd_table (fun _ => routes_of (h_sessions h) (h_rooms h)) h).

Definition left_old (user : UserId) (current : option RoomId) (h : Hub) : Hub :=
  match current with Some old => upd_rooms (alter (with_members (.∖ {[user]})) old) h | None => h end.
Definition in_new (user : UserId) (target : option RoomId) (h : Hub) : Hub :=
  match target with Some new => upd_rooms (alter (with_members ({[user]} ∪.)) new) h | None => h end.
Definition moved (user : UserId) (current target : option RoomId) (tracks : option Tracks) (h : Hub) : Hub :=
  upd_sessions (alter (moved_session target tracks) user) (in_new user target (left_old user current h)).

Section Moving.
Context {env : Env}.

Lemma rebuild_run {E} h : quiet (rebuilt h) (snd (rebuild_routes (E := E) h)).
Proof.
  unfold rebuild_routes. rewrite run_bind. cbn [gets]. rewrite run_bind. cbn [gets]. rewrite run_bind. cbn [gets].
  rewrite run_bind. cbn [modify]. rewrite run_bind. cbn [modify]. fold (rebuilt h).
  match goal with |- quiet _ (snd (?m _)) => assert (keeps quiet m) as Hk; [|apply Hk] end. kept.
Qed.

Lemma rebuilt_ok h : placed h -> hub_ok (rebuilt h).
Proof. intros Hp. split; [|by split]. by destruct Hp. Qed.

Lemma rebuild_ok {E} h : placed h -> hub_ok (snd (rebuild_routes (E := E) h)).
Proof. intros Hp. eapply quiet_ok; [apply rebuild_run|]. by apply rebuilt_ok. Qed.

Lemma set_membership_run {E} u room tracks h :
  quiet (upd_sessions (alter (moved_session room tracks) u) h) (snd (set_membership (E := E) u room tracks h)).
Proof.
  unfold set_membership. rewrite run_bind. cbn [gets]. destruct (h_sessions h !! u) as [s|] eqn:Hs.
  - rewrite run_bind. cbn [modify].
    replace (upd_sessions <[u:=moved_session room tracks s]> h) with (upd_sessions (alter (moved_session room tracks) u) h).
    2:{ unfold upd_sessions. by rewrite (alter_as_insert _ _ _ _ Hs). }
    match goal with |- quiet _ (snd (?m _)) => assert (keeps quiet m) as Hk; [|apply Hk] end. kept.
  - cbn. replace (upd_sessions (alter (moved_session room tracks) u) h) with h; [done|].
    unfold upd_sessions. replace (alter _ _ _) with (h_sessions h); [by destruct h|].
    apply map_eq. intros k. destruct (decide (u = k)) as [<-|]; [by rewrite lookup_alter_eq, Hs|by rewrite lookup_alter_ne].
Qed.

(** Every room of [l] moved to a later epoch. *)
Definition raised (l : list RoomId) (h h1 : Hub) : Prop := forall r, r ∈ l ->
  exists e e1, h_rooms h !! r = Some e /\ h_rooms h1 !! r = Some e1 /\ e_epoch e < e_epoch e1.

(** The tracks a session gets in [target]: new ones, if there is room. *)
Definition room_ready (target : option RoomId) (tracks : option Tracks) (h h1 : Hub) : Prop :=
  match target with
  | None => tracks = None
  | Some r => exists e, h_rooms h !! r = Some e /\ Z.of_nat (size (e_members e)) < MAX_ROOM_MEMBERS /\
      exists first, tracks = Some (tracks_at (wrap32 first)) /\ next_media_id (h_db h) = first /\
        first + 2 <= u32_max /\ first + 3 <= next_media_id (h_db h1)
  end.

Lemma allocate_run h r h' : allocate_tracks h = (r, h') ->
  match r with
  | inl t => exists first, t = tracks_at (wrap32 first) /\ next_media_id (h_db h) = first /\
      first + 2 <= u32_max /\ first + 3 <= next_media_id (h_db h')
  | inr _ => True
  end.
Proof.
  unfold allocate_tracks. intros H. apply bind_inv in H as [(first & h1 & H1 & H)|(? & _ & ->)]; [|done].
  unfold db, map_err, db_call, allocate_media_ids, transaction in H1.
  destruct (db_fault (h_tick h)); [done|]. revert H1. unfold TRACKS_PER_MEMBERSHIP. cbv zeta.
  destruct (Z.ltb_spec u32_max (next_media_id (h_db h) + 3 - 1)); cbn [fst snd]; intros [= <- <-]; [by injection H as <- _|].
  cbn [ok_or] in H. rewrite run_bind in H. unfold mret, M_ret in H. injection H as <- <-.
  exists (next_media_id (h_db h)). split; [done|]. split; [done|]. unfold next_media_id at 3. cbn. lia.
Qed.

Definition place_moves (u : UserId) (s : Session) (target : option RoomId) (h h' : Hub) : Prop :=
  exists h1 h2 tracks, quiet h h1 /\ raised (option_list (s_room s) ++ option_list target) h h1 /\
    room_ready target tracks h h1 /\ quiet (moved u (s_room s) target tracks h1) h2 /\ quiet (rebuilt h2) h'.

(** Why a move can be refused once the target has been checked. *)
Definition stuck (h h' : Hub) (l : list RoomId) : Prop :=
  db_failed h h' \/ exists r, r ∈ l /\ forall e, h_rooms h !! r = Some e -> u32_max <= e_epoch e.

(** Telling the rooms and everyone, then rebuilding. *)
Lemma move_tail u current target h r h' :
  (_ ← match current with Some old => broadcast_peers old None | None => mret () end;
   _ ← match target with Some new => broadcast_peers new (Some u) | None => mret () end;
   p ← gets (fun h => h_sessions h !! u ≫= presence);
   _ ← match p with Some p => emit_all (PresenceChanged p) | None => emit_all (PresenceEnded u) end;
   _ ← rebuild_routes;
   placement u) h = (r, h') ->
  exists (p : Placement) h5, r = inl (B := Refusal) p /\ quiet h h5 /\ quiet (rebuilt h5) h'.
Proof.
  intros H. quiet_step H h1; [|destruct current; safely|destruct current; kept].
  quiet_step H h2; [|destruct target; safely|destruct target; kept].
  quiet_step H h3; [|safely|kept]. quiet_step H h4; [|safely|kept].
  apply step_safe in H as (done_ & h5 & E5 & H); [|safely].
  destruct (safe_placement (E := Refusal) u h5) as [p Hp]. rewrite H in Hp. cbn in Hp. subst r.
  exists p, h4. split; [done|]. split; [by repeat (etrans; [eassumption|])|].
  etrans; [apply (rebuild_run (E := Refusal))|]. rewrite E5. by eapply keeps_run; [apply quiet_placement|].
Qed.

(** The checks before a move touch nothing but the clock and the id counter. *)
Lemma place_run u target h r h' s : h_sessions h !! u = Some s -> place u target h = (r, h') ->
  match r with
  | inr _ => quiet h h' /\ (target = None -> stuck h h' (option_list (s_room s)))
  | inl _ => if decide (s_room s = target) then quiet h h' else place_moves u s target h h'
  end.
Proof.
  intros Hs. unfold place, session. rewrite run_bind, run_bind. cbn [gets]. rewrite Hs. cbn [ok_or]. unfold mret at 1, M_ret at 1.
  cbv zeta. destruct (decide (s_room s = target)) as [Heq|Hne].
  { intros H. pose proof (keeps_run _ _ _ _ _ (quiet_placement u) H). destruct (safe_placement (E := Refusal) u h) as [p Hpl].
    rewrite H in Hpl. cbn in Hpl. by subst r. }
  intros H. apply bind_inv in H as [([] & ha & Hcheck & H)|(x & Hcheck & ->)].
  2:{ destruct target as [new|]; [|done]. split; [|done]. revert Hcheck. apply keeps_run. kept. }
  assert (quiet h ha /\ match target with
          | Some r => exists e, h_rooms h !! r = Some e /\ Z.of_nat (size (e_members e)) < MAX_ROOM_MEMBERS /\ h_db ha = h_db h
          | None => True end) as [Hqa Hroom].
  { split; [revert Hcheck; apply keeps_run; destruct target; kept|]. destruct target as [new|]; [|done].
    unfold room_entry in Hcheck. rewrite run_bind, run_bind in Hcheck. cbn [gets] in Hcheck.
    destruct (h_rooms h !! new) as [e|]; cbn [ok_or] in Hcheck; [|done]. exists e. split; [done|].
    unfold mret at 1, M_ret at 1 in Hcheck.
    destruct (Z.leb_spec MAX_ROOM_MEMBERS (Z.of_nat (size (e_members e)))); [done|]. split; [done|].
    rewrite run_bind in Hcheck. cbn in Hcheck.
    destruct (match ur_encryption_key (s_row s) with None => true | Some _ => _ end); [done|]. by injection Hcheck as <-. }
  apply bind_inv in H as [(tracks & hb & Htracks & H)|(x & Htracks & ->)].
  2:{ destruct target as [new|]; [|done]. split; [|done]. etrans; [exact Hqa|]. revert Htracks. apply keeps_run. kept. }
  assert (quiet h hb /\ room_ready target tracks h hb) as [Hqb Hready].
  { split; [etrans; [exact Hqa|]; revert Htracks; apply keeps_run; destruct target; kept|].
    destruct target as [new|]; [|by injection Htracks as <- <-]. destruct Hroom as (e & He & Hsz & Hdb). exists e.
    split; [done|]. split; [done|]. apply bind_inv in Htracks as [(t & hc & Ht & [= <- <-])|(? & _ & ?)]; [|done].
    apply allocate_run in Ht as (first & -> & Hf & ? & ?). exists first. by rewrite <- Hdb. }
  apply bind_inv in H as [([] & h1 & Hbump & H)|(x & Hbump & ->)]; apply bump_spec in Hbump as (Hq1 & _ & Hb).
  2:{ split; [by etrans|]. intros ->. cbn in Hroom, Hready, Hb. injection Hcheck as <-. injection Htracks as _ <-.
    rewrite app_nil_r in Hb. apply Hb. }
  destruct Hb as [Hrooms Hlow]. unfold place_moves.
  assert (raised (option_list (s_room s) ++ option_list target) h h1) as Hraised.
  { intros room Hr. destruct (Hlow room Hr) as (eb & Heb & _). destruct (q_epochs _ _ Hqb room eb Heb) as (e & He & ?).
    exists e, (bumped (option_list (s_room s) ++ option_list target) room eb). rewrite Hrooms, Heb. split; [done|]. split; [done|].
    unfold bumped. rewrite decide_True by done. cbn. lia. }
  assert (room_ready target tracks h h1) as Hready1.
  { destruct target as [new|]; [|done]. destruct Hready as (e & ? & ? & first & ? & ? & ? & ?). exists e. split; [done|].
    split; [done|]. exists first. pose proof (q_media _ _ Hq1). repeat split; try done. lia. }
  assert (quiet h h1) as Hqh1 by (by etrans). clear Hcheck Htracks Hroom Hready Hrooms Hlow Hqa Hqb Hq1.
  apply bind_inv in H as [([] & h2 & E2 & H)|(x & E2 & _)]; [|by destruct (s_room s)].
  assert (h2 = left_old u (s_room s) h1) as -> by (by destruct (s_room s); injection E2).
  apply bind_inv in H as [([] & h3 & E3 & H)|(x & E3 & _)]; [|by destruct target].
  assert (h3 = in_new u target (left_old u (s_room s) h1)) as -> by (by destruct target; injection E3).
  pose proof (set_membership_run (E := Refusal) u target tracks (in_new u target (left_old u (s_room s) h1))) as Hq4.
  fold (moved u (s_room s) target tracks h1) in Hq4. rewrite run_bind in H.
  destruct (safe_set_membership (E := Refusal) u target tracks (in_new u target (left_old u (s_room s) h1))) as [? Hsafe].
  destruct (set_membership u target tracks _) as [rr h4]. cbn in Hsafe, Hq4. subst rr. clear E2 E3.
  apply move_tail in H as (p & h5 & -> & Hq5 & Hq6). cbv iota. destruct (decide (s_room s = target)) as [?|_]; [done|].
  exists h1, h5, tracks. do 3 (split; [done|]). split; [by etrans|done].
Qed.

End Moving.

(** ** Moving keeps sessions and rooms in agreement *)

Definition moved_view (room : option RoomId) (tracks : option Tracks) (v : view) : view :=
  mkView (v_conn v) (v_handle v) (v_user v) room tracks (v_deafened v) false [].

Lemma views_alter f g u h : (forall s, session_view (f s) = g (session_view s)) ->
  views (upd_sessions (alter f u) h) = alter g u (views h).
Proof.
  intros Hf. apply map_eq. intros k. unfold views. cbn. destruct (decide (u = k)) as [<-|].
  - rewrite lookup_fmap, !lookup_alter_eq, lookup_fmap. destruct (h_sessions h !! u); cbn; [|done]. by rewrite <- Hf.
  - by rewrite lookup_fmap, !lookup_alter_ne, lookup_fmap by done.
Qed.

Definition moved_members (u : UserId) (current target : option RoomId) (r : RoomId) (ms : gset Z) : gset Z :=
  let ms := if decide (current = Some r) then ms ∖ {[u]} else ms in
  if decide (target = Some r) then {[u]} ∪ ms else ms.

Lemma members_alter f r h r' :
  members (upd_rooms (alter (with_members f) r) h) !! r' = (fun ms => if decide (r = r') then f ms else ms) <$> members h !! r'.
Proof.
  unfold members. cbn. rewrite !lookup_fmap. destruct (decide (r = r')) as [<-|].
  - rewrite lookup_alter_eq. by destruct (h_rooms h !! r).
  - rewrite lookup_alter_ne by done. by destruct (h_rooms h !! r').
Qed.

Lemma views_moved u c t tr h : views (moved u c t tr h) = alter (moved_view t tr) u (views h).
Proof. unfold moved. rewrite (views_alter _ (moved_view t tr)) by done. by destruct c, t. Qed.

Lemma members_moved u c t tr h r : members (moved u c t tr h) !! r = moved_members u c t r <$> members h !! r.
Proof.
  unfold moved, in_new, left_old, moved_members.
  change (members (upd_sessions ?f ?h)) with (members h).
  destruct t as [t|], c as [c|]; rewrite ?members_alter; destruct (members h !! r) as [ms|]; cbn; try done; f_equal;
    repeat case_decide; simplify_eq; try done; congruence.
Qed.

Lemma moved_db u c t tr h : h_db (moved u c t tr h) = h_db h /\ h_next_conn (moved u c t tr h) = h_next_conn h.
Proof. by destruct c, t. Qed.

(** What the target must offer. *)
Definition target_ready (target : option RoomId) (tracks : option Tracks) (h : Hub) : Prop :=
  match target with
  | None => tracks = None
  | Some r => exists ms m, members h !! r = Some ms /\ Z.of_nat (size ms) < MAX_ROOM_MEMBERS /\
      tracks = Some (tracks_at m) /\ 1 <= m /\ m + 2 <= u32_max /\ m + 3 <= next_media_id (h_db h) /\
      forall u v m', views h !! u = Some v -> v_tracks v = Some (tracks_at m') -> m' + 3 <= m
  end.

Lemma elem_of_sharers vs ms u : u ∈ sharers vs ms <-> u ∈ ms /\ exists v, vs !! u = Some v /\ v_sharing v = true.
Proof.
  unfold sharers. rewrite elem_of_filter. destruct (vs !! u) as [v|]; cbn; split.
  - intros []. split; [done|]. by exists v.
  - intros [? (v' & [= <-] & ?)]. done.
  - by intros [].
  - by intros [? (? & ? & ?)].
Qed.

Section MovePlaced.
Context (h : Hub) (Hp : placed h) (u : UserId) (v : view) (Hv : views h !! u = Some v)
  (target : option RoomId) (tracks : option Tracks) (Hne : v_room v <> target) (Ht : target_ready target tracks h).

Local Abbreviation h' := (moved u (v_room v) target tracks h).

Lemma moved_lookup u' v' : views h' !! u' = Some v' ->
  (u' = u /\ v' = moved_view target tracks v) \/ (u' <> u /\ views h !! u' = Some v').
Proof.
  rewrite views_moved. destruct (decide (u = u')) as [<-|].
  - rewrite lookup_alter_eq, Hv. cbn. intros [= <-]. by left.
  - rewrite lookup_alter_ne by done. by right.
Qed.

Lemma moved_member r ms' : members h' !! r = Some ms' ->
  exists ms, members h !! r = Some ms /\ ms' = moved_members u (v_room v) target r ms.
Proof. rewrite members_moved. intros (ms & ? & ?)%fmap_Some. by exists ms. Qed.

(** Others stay where they were; [u] is in the target. *)
Lemma elem_of_moved r ms u' : members h !! r = Some ms ->
  u' ∈ moved_members u (v_room v) target r ms <-> (u' = u /\ target = Some r) \/ (u' <> u /\ u' ∈ ms).
Proof using Hp Hv Hne.
  clear Ht. intros Hms. unfold moved_members. cbv zeta.
  assert (u ∈ ms -> v_room v = Some r) as Hu.
  { intros Hin. destruct (pl_member h Hp _ _ _ Hms Hin) as (v' & ? & ?). congruence. }
  repeat case_decide; set_solver.
Qed.

(** The new tracks come after all others. *)
Lemma ready_tracks m m' : (exists u v, views h !! u = Some v /\ v_tracks v = Some (tracks_at m')) ->
  tracks = Some (tracks_at m) -> m' + 3 <= m.
Proof using Hne Ht.
  intros (u' & v' & Hv' & Hm') E. unfold target_ready in Ht. destruct target; [|congruence].
  destruct Ht as (ms & m0 & _ & _ & E' & _ & _ & _ & Hm). rewrite E in E'. apply (inj Some), (inj tracks_at) in E' as <-. by eapply Hm.
Qed.

Lemma moved_placed : placed h'.
Proof.
  destruct (moved_db u (v_room v) target tracks h) as [Ed En].
  split; rewrite ?Ed, ?En.
  - intros u' v' [[-> ->]|[_ H]]%moved_lookup; [exact (pl_user h Hp _ _ Hv)|by eapply (pl_user h Hp)].
  - intros u' v' [[-> ->]|[_ H]]%moved_lookup; [exact (pl_conn h Hp _ _ Hv)|by eapply (pl_conn h Hp)].
  - intros u1 u2 v1 v2 [[-> ->]|[? H1]]%moved_lookup [[-> ->]|[? H2]]%moved_lookup; [done|..].
    + exact (pl_conns h Hp _ _ _ _ Hv H2).
    + exact (pl_conns h Hp _ _ _ _ H1 Hv).
    + exact (pl_conns h Hp _ _ _ _ H1 H2).
  - intros u' v' r [[-> ->]|[Hn H]]%moved_lookup; intros Hr.
    + cbn in Hr. pose proof Ht as Hready. rewrite Hr in Hready. destruct Hready as (ms & m & Hms & _). eexists. rewrite members_moved, Hms. split; [done|].
      apply (elem_of_moved _ _ _ Hms). by left.
    + destruct (pl_in h Hp _ _ _ H Hr) as (ms & Hms & ?). eexists. rewrite members_moved, Hms. split; [done|].
      apply (elem_of_moved _ _ _ Hms). by right.
  - intros r ms' u' (ms & Hms & ->)%moved_member [[-> ->]|[Hn Hin]]%(elem_of_moved _ _ _ Hms); rewrite views_moved.
    + exists (moved_view (Some r) tracks v). by rewrite lookup_alter_eq, Hv.
    + rewrite lookup_alter_ne by done. by eapply (pl_member h Hp).
  - intros u' v' [[-> ->]|[Hn H]]%moved_lookup; [|exact (pl_lobby h Hp _ _ H)]. cbn. intros Hr.
    pose proof Ht as Hready. by rewrite Hr in Hready.
  - intros u' v' r [[-> ->]|[Hn H]]%moved_lookup; [|exact (pl_tracks h Hp _ _ _ H)]. cbn. intros Hr.
    pose proof Ht as Hready. rewrite Hr in Hready. destruct Hready as (ms & m & _ & _ & -> & ? & ? & ? & _). by exists m.
  - intros u1 u2 v1 v2 m1 m2 [[-> ->]|[? H1]]%moved_lookup [[-> ->]|[? H2]]%moved_lookup Hne' T1 T2; [done|..].
    + right. cbn in T1. revert T1. apply ready_tracks. by exists u2, v2.
    + left. cbn in T2. revert T2. apply ready_tracks. by exists u1, v1.
    + exact (pl_apart h Hp _ _ _ _ _ _ H1 H2 Hne' T1 T2).
  - intros r ms' (ms & Hms & ->)%moved_member. pose proof (pl_size h Hp _ _ Hms). unfold moved_members. cbv zeta.
    assert (size (ms ∖ {[u]}) <= size ms)%nat by (apply subseteq_size; set_solver).
    destruct (decide (target = Some r)) as [Hr|]; [|case_decide; lia].
    pose proof Ht as Hready. rewrite Hr in Hready. destruct Hready as (ms0 & m & Hms0 & ? & _).
    assert (ms0 = ms) as -> by congruence. rewrite decide_False by congruence.
    pose proof (size_union_alt {[u]} ms). assert (size (ms ∖ {[u]}) <= size ms)%nat by (apply subseteq_size; set_solver).
    rewrite size_singleton in *. lia.
  - intros r ms' (ms & Hms & ->)%moved_member. pose proof (pl_shares h Hp _ _ Hms).
    assert (size (sharers (views h') (moved_members u (v_room v) target r ms)) <= size (sharers (views h) ms))%nat; [|lia].
    apply subseteq_size. intros u' (Hin & v' & Hv' & Hsh)%elem_of_sharers. apply elem_of_sharers.
    apply moved_lookup in Hv' as [[-> ->]|[Hn Hv']]; [done|]. apply (elem_of_moved _ _ _ Hms) in Hin as [[]|[]]; [done|].
    split; [done|]. by exists v'.
  - intros u' v' [[-> ->]|[_ H]]%moved_lookup; [done|by eapply (pl_watched h Hp)].
  - intros r [ms' (ms & Hms & _)%moved_member]. apply (pl_rooms h Hp). by eexists.
  - apply (pl_seq h Hp).
  - apply (pl_media h Hp).
  - apply (pl_next_conn h Hp).
Qed.

End MovePlaced.

(** ** How the hub evolves *)

(** A room's epoch never goes back.  While it stays the same nobody has entered, and nobody
    has left unless a transaction failed or the epoch was the last one.  A room that is gone
    does not come back. *)
Record epochs_follow `{!Env} (h h' : Hub) : Prop := {
  ef_seq : room_seq (h_db h) <= room_seq (h_db h');
  ef_tick : (h_tick h <= h_tick h')%nat;
  ef_gone : forall r, r <= room_seq (h_db h) -> h_rooms h !! r = None -> h_rooms h' !! r = None;
  ef_room : forall r e e', r <= room_seq (h_db h) -> h_rooms h !! r = Some e -> h_rooms h' !! r = Some e' ->
    e_epoch e <= e_epoch e' /\
    (e_epoch e = e_epoch e' -> e_members e' ⊆ e_members e) /\
    (e_epoch e = e_epoch e' -> e_members e' <> e_members e -> db_failed h h' \/ u32_max <= e_epoch e)
}.

(** Nobody is in a room they were not in before, but for those [A] allows. *)
Definition enters (A : UserId -> RoomId -> Prop) (h h' : Hub) : Prop := forall u v' r,
  views h' !! u = Some v' -> v_room v' = Some r -> (exists v, views h !! u = Some v /\ v_room v = Some r) \/ A u r.

Definition steady `{!Env} (A : UserId -> RoomId -> Prop) (h h' : Hub) : Prop :=
  hub_ok h -> hub_ok h' /\ epochs_follow h h' /\ enters A h h'.

Definition nobody (u : UserId) (r : RoomId) : Prop := False.

Section Steady.
Context {env : Env}.

Lemma db_failed_mono h1 h2 h3 h4 : (h_tick h1 <= h_tick h2)%nat -> (h_tick h3 <= h_tick h4)%nat ->
  db_failed h2 h3 -> db_failed h1 h4.
Proof. intros ? ? (n & ? & ?). exists n. split; [lia|done]. Qed.

#[export] Instance epochs_follow_preorder : PreOrder epochs_follow.
Proof.
  split.
  - intros h. split; try done. intros r e e' _ He He'. assert (e' = e) as -> by congruence. done.
  - intros h1 h2 h3 [s1 t1 g1 r1] [s2 t2 g2 r2]. split; [lia|lia|..].
    + intros r Hr H1. apply g2; [lia|]. by apply g1.
    + intros r e1 e3 Hr H1 H3. destruct (h_rooms h2 !! r) as [e2|] eqn:H2.
      2:{ rewrite g2 in H3; [done|lia|done]. }
      destruct (r1 r e1 e2) as (? & Hs1 & Hf1); [done..|]. destruct (r2 r e2 e3) as (? & Hs2 & Hf2); [lia|done..|].
      split; [lia|]. split.
      * intros He. etrans; [apply Hs2; lia|apply Hs1; lia].
      * intros He Hm. destruct (decide (e_members e2 = e_members e1)) as [Heq|Hne].
        -- destruct Hf2 as [Hf|?]; [lia|congruence|left|right; lia]. revert Hf. by apply db_failed_mono.
        -- destruct Hf1 as [Hf|?]; [lia|done|left|by right]. revert Hf. by apply db_failed_mono.
Qed.

#[export] Instance enters_preorder A : PreOrder (enters A).
Proof.
  split.
  - intros h u v r Hv Hr. left. by exists v.
  - intros h1 h2 h3 H1 H2 u v3 r Hv Hr. destruct (H2 u v3 r Hv Hr) as [(v2 & Hv2 & Hr2)|?]; [|by right]. by eapply H1.
Qed.

#[export] Instance steady_preorder A : PreOrder (steady A).
Proof.
  split.
  - intros h Hok. split; [done|]. split; reflexivity.
  - intros h1 h2 h3 H1 H2 Hok. destruct (H1 Hok) as (Hok2 & He1 & Hn1). destruct (H2 Hok2) as (Hok3 & He2 & Hn2).
    split; [done|]. split; by etrans.
Qed.

Lemma steady_weaken A B h h' : (forall u r, A u r -> B u r) -> steady A h h' -> steady B h h'.
Proof.
  intros HAB H Hok. destruct (H Hok) as (? & ? & Hn). split; [done|]. split; [done|].
  intros u v r Hv Hr. destruct (Hn u v r Hv Hr); [by left|right; auto].
Qed.

Lemma enters_views A h h' : views h' = views h -> enters A h h'.
Proof. intros E u v r Hv Hr. rewrite E in Hv. left. by exists v. Qed.

Lemma quiet_follow h h' : quiet h h' -> epochs_follow h h'.
Proof.
  intros Hq. split; try apply Hq.
  - intros r _ Hr. apply lookup_members_none in Hr. unfold members in Hr. rewrite <- (q_members _ _ Hq), lookup_fmap in Hr.
    by apply fmap_None in Hr.
  - intros r e e' _ He He'. destruct (q_epochs _ _ Hq r e' He') as (e0 & He0 & ?). assert (e0 = e) as -> by congruence.
    assert (e_members e' = e_members e) as Hm.
    { apply lookup_members in He, He'. unfold members in He, He'. rewrite (q_members _ _ Hq) in He'. congruence. }
    rewrite Hm. done.
Qed.

Lemma quiet_steady_rel A h h' : quiet h h' -> steady A h h'.
Proof.
  intros Hq Hok. split; [by eapply quiet_ok|]. split; [by apply quiet_follow|]. apply enters_views, Hq.
Qed.

Lemma quiet_steady A {E B} (m : M E B) : keeps quiet m -> keeps (steady A) m.
Proof. intros Hm h. apply quiet_steady_rel, Hm. Qed.

(** ** What a move does *)

Definition epochs_le (h h' : Hub) : Prop := forall r e', h_rooms h' !! r = Some e' ->
  exists e, h_rooms h !! r = Some e /\ e_epoch e <= e_epoch e'.

Lemma moved_epochs u c t tr h : epochs_le h (moved u c t tr h).
Proof.
  intros r e'. unfold moved, in_new, left_old. change (h_rooms (upd_sessions ?f ?h)) with (h_rooms h).
  assert (forall f r0 (m : gmap Z RoomEntry) e', alter (with_members f) r0 m !! r = Some e' ->
            exists e, m !! r = Some e /\ e_epoch e = e_epoch e') as Ha.
  { clear e'. intros f r0 m e'. destruct (decide (r0 = r)) as [<-|]; [|rewrite lookup_alter_ne by done; intros; by exists e'].
    rewrite lookup_alter_eq. intros (e & He & ->)%fmap_Some. by exists e. }
  destruct t as [t|], c as [c|]; cbn; intros H.
  - apply Ha in H as (e1 & H & <-). apply Ha in H as (e & H & <-). by exists e.
  - apply Ha in H as (e & H & <-). by exists e.
  - apply Ha in H as (e & H & <-). by exists e.
  - by exists e'.
Qed.

Record effect_of (u : UserId) (c t : option RoomId) (tr : option Tracks) (h1 h' : Hub) : Prop := {
  eo_views : views h' = alter (moved_view t tr) u (views h1);
  eo_members : forall r, members h' !! r = moved_members u c t r <$> members h1 !! r;
  eo_epochs : epochs_le h1 h';
  eo_seq : room_seq (h_db h1) <= room_seq (h_db h');
  eo_tick : (h_tick h1 <= h_tick h')%nat
}.

Lemma move_effect u c t tr h1 h2 h' : quiet (moved u c t tr h1) h2 -> quiet (rebuilt h2) h' -> effect_of u c t tr h1 h'.
Proof.
  intros Q1 Q2. destruct (moved_db u c t tr h1) as [Ed _]. split.
  - rewrite <- (views_moved u c). transitivity (views h2); [apply (q_sessions _ _ Q2)|apply (q_sessions _ _ Q1)].
  - intros r. rewrite <- (members_moved u c t tr). transitivity (members h2 !! r).
    + pose proof (q_members _ _ Q2) as E. unfold members. by rewrite E.
    + pose proof (q_members _ _ Q1) as E. unfold members. by rewrite E.
  - intros r e' H. destruct (q_epochs _ _ Q2 r e' H) as (e2 & H2 & ?). destruct (q_epochs _ _ Q1 r e2 H2) as (e1 & H1 & ?).
    destruct (moved_epochs _ _ _ _ _ _ _ H1) as (e & He & ?). exists e. split; [done|lia].
  - pose proof (q_room_seq _ _ Q1) as S1. pose proof (q_room_seq _ _ Q2) as S2. rewrite Ed in S1. cbn in S2. lia.
  - pose proof (q_tick _ _ Q1) as T1. pose proof (q_tick _ _ Q2) as T2. cbn in T2.
    assert (h_tick (moved u c t tr h1) = h_tick h1) by (by destruct c, t). lia.
Qed.

Definition only (u : UserId) (target : option RoomId) (w : UserId) (r : RoomId) : Prop := w = u /\ target = Some r.

Lemma ready_target target tracks h h1 : placed h -> quiet h h1 -> room_ready target tracks h h1 -> target_ready target tracks h1.
Proof.
  intros Hp Hq Hready. destruct target as [r|]; [|done]. destruct Hready as (e & He & Hsz & first & -> & Hf & ? & ?).
  exists (e_members e), (wrap32 first). pose proof (pl_media h Hp).
  assert (wrap32 first = first) as -> by (unfold wrap32, u32_max in *; apply Z.mod_small; lia).
  split. { unfold members. rewrite (q_members _ _ Hq). by apply lookup_members. }
  do 2 (split; [done|]). split; [lia|]. split; [done|]. split; [done|].
  intros u v m' Hv Hm'. unfold views in Hv. rewrite (q_sessions _ _ Hq) in Hv. fold (views h) in Hv.
  destruct (v_room v) as [r'|] eqn:Hr.
  - destruct (pl_tracks h Hp _ _ _ Hv Hr) as (m & Hm & _ & _ & ?). rewrite Hm in Hm'. apply (inj Some), (inj tracks_at) in Hm' as ->. lia.
  - destruct (pl_lobby h Hp _ _ Hv Hr) as [? _]. congruence.
Qed.

Lemma move_epochs u c t tr h h1 h' : hub_ok h -> quiet h h1 -> c <> t ->
  raised (option_list c ++ option_list t) h h1 \/ (t = None /\ stuck h h1 (option_list c)) ->
  effect_of u c t tr h1 h' -> epochs_follow h h'.
Proof.
  intros [Hp _] Hq Hct Hwhy He. pose proof (q_room_seq _ _ Hq). pose proof (q_tick _ _ Hq).
  pose proof (eo_seq _ _ _ _ _ _ He). pose proof (eo_tick _ _ _ _ _ _ He).
  assert (forall r, members h1 !! r = members h !! r) as Hm by (intros r; unfold members; by rewrite (q_members _ _ Hq)).
  split; [lia|lia|..].
  - intros r _ Hr%lookup_members_none. rewrite <- Hm in Hr. pose proof (eo_members _ _ _ _ _ _ He r) as E. rewrite Hr in E.
    unfold members in E. rewrite lookup_fmap in E. by apply fmap_None in E.
  - intros r e e' _ Hr Hr'. destruct (eo_epochs _ _ _ _ _ _ He r e' Hr') as (e1 & Hr1 & ?).
    destruct (q_epochs _ _ Hq r e1 Hr1) as (e0 & Hr0 & ?). assert (e0 = e) as -> by congruence.
    assert (e_members e' = moved_members u c t r (e_members e)) as Hmm.
    { pose proof (eo_members _ _ _ _ _ _ He r) as E. rewrite Hm, (lookup_members _ _ _ Hr), (lookup_members _ _ _ Hr') in E.
      cbn in E. congruence. }
    split; [lia|]. destruct Hwhy as [Hraised|[-> Hstuck]].
    + assert (r ∈ option_list c ++ option_list t -> e_epoch e < e_epoch e') as Hlt.
      { intros Hin. destruct (Hraised r Hin) as (e2 & e3 & ? & ? & ?). assert (e2 = e) as -> by congruence.
        assert (e3 = e1) as -> by congruence. lia. }
      assert (e_epoch e = e_epoch e' -> e_members e' = e_members e) as Hsame.
      { intros Heq. rewrite Hmm. unfold moved_members. cbv zeta.
        destruct (decide (c = Some r)) as [->|]; [exfalso; enough (e_epoch e < e_epoch e') by lia; apply Hlt; cbn; left|].
        destruct (decide (t = Some r)) as [->|]; [|done].
        exfalso. enough (e_epoch e < e_epoch e') by lia. apply Hlt. apply elem_of_app. right. cbn. left. }
      split; intros Heq; rewrite (Hsame Heq); done.
    + rewrite Hmm. unfold moved_members. cbv zeta. rewrite (decide_False (P := None = Some r)) by done. split.
      * intros _. case_decide; set_solver.
      * intros _ Hne. destruct (decide (c = Some r)) as [->|]; [|done]. destruct Hstuck as [Hf|(r' & Hin & Hmax)].
        -- left. revert Hf. by apply db_failed_mono.
        -- cbn in Hin. apply list_elem_of_singleton in Hin as ->. right. by apply Hmax.
Qed.

Lemma move_steady u v c t tr h h1 h2 h' : views h !! u = Some v -> v_room v = c -> c <> t ->
  quiet h h1 -> room_ready t tr h h1 ->
  raised (option_list c ++ option_list t) h h1 \/ (t = None /\ stuck h h1 (option_list c)) ->
  quiet (moved u c t tr h1) h2 -> quiet (rebuilt h2) h' -> steady (only u t) h h'.
Proof.
  intros Hv Hc Hct Hq Hready Hwhy Q1 Q2 Hok. pose proof (move_effect _ _ _ _ _ _ _ Q1 Q2) as He.
  assert (views h1 = views h) as Ev by apply (q_sessions _ _ Hq). pose proof (ok_placed _ Hok) as Hp.
  pose proof (quiet_placed _ _ Hq Hp) as Hp1. split.
  - eapply quiet_ok; [exact Q2|]. apply rebuilt_ok. eapply quiet_placed; [exact Q1|]. subst c.
    apply moved_placed; [done|by rewrite Ev|done|]. exact (ready_target _ _ _ _ Hp Hq Hready).
  - split; [exact (move_epochs _ _ _ _ _ _ _ Hok Hq Hct Hwhy He)|]. intros w v' r Hw Hr. rewrite (eo_views _ _ _ _ _ _ He), Ev in Hw.
    destruct (decide (u = w)) as [<-|].
    + rewrite lookup_alter_eq, Hv in Hw. injection Hw as <-. cbn in Hr. right. by split.
    + rewrite lookup_alter_ne in Hw by done. left. by exists v'.
Qed.

Lemma place_steady u target : keeps (steady (only u target)) (place u target).
Proof.
  intros h. destruct (h_sessions h !! u) as [s|] eqn:Hs.
  2:{ unfold place, session. rewrite run_bind, run_bind. cbn [gets]. rewrite Hs. cbn. reflexivity. }
  destruct (place u target h) as [r h'] eqn:E. cbn. apply (place_run u target h r h' s Hs) in E. destruct r as [p|x].
  - destruct (decide (s_room s = target)); [by apply quiet_steady_rel|].
    destruct E as (h1 & h2 & tracks & Hq & Hr & Hready & Q1 & Q2).
    eapply (move_steady u (session_view s)); try done; [by apply lookup_views|]. by left.
  - apply quiet_steady_rel, E.
Qed.

(** ** Leaving a room, whatever happens *)

Definition leaves (u : UserId) (s : Session) (h h' : Hub) : Prop :=
  match s_room s with
  | None => quiet h h'
  | Some old => exists h1 h2, quiet h h1 /\ (raised [old] h h1 \/ stuck h h1 [old]) /\
      quiet (moved u (Some old) None None h1) h2 /\ quiet (rebuilt h2) h'
  end.

Lemma leave_room_run {E} u h s : h_sessions h !! u = Some s -> leaves u s h (snd (leave_room (E := E) u h)).
Proof.
  intros Hs. unfold leave_room. rewrite run_bind. cbn [gets]. rewrite bool_decide_true by by rewrite Hs. cbn [negb].
  rewrite run_bind. unfold attempt. destruct (place u None h) as [r ha] eqn:Epl. apply (place_run _ _ _ _ _ _ Hs) in Epl.
  unfold leaves. destruct r as [p|x].
  - cbn. unfold place_moves in Epl. destruct (s_room s) as [old|]; [|by destruct (decide (None = None))].
    destruct (decide (Some old = None)); [done|]. destruct Epl as (h1 & h2 & tracks & Hq & Hr & Hready & Q1 & Q2).
    cbn in Hready. subst tracks. exists h1, h2. split; [done|]. split; [left; exact Hr|done].
  - destruct Epl as [Hq Hstuck]. rewrite run_bind. cbn [gets].
    assert (h_sessions ha !! u ≫= s_room = s_room s) as ->.
    { pose proof (q_sessions _ _ Hq) as E1. apply (f_equal (.!! u)) in E1. rewrite !lookup_fmap, Hs in E1.
      destruct (h_sessions ha !! u) as [sa|]; cbn in *; [|done]. by injection E1. }
    destruct (s_room s) as [old|] eqn:Hr; [|done]. rewrite run_bind. cbn [modify].
    change (upd_rooms _ ha) with (left_old u (Some old) ha).
    pose proof (set_membership_run (E := E) u None None (left_old u (Some old) ha)) as Hq2.
    change (upd_sessions (alter (moved_session None None) u) (left_old u (Some old) ha)) with (moved u (Some old) None None ha) in Hq2.
    match goal with |- context [snd (?m (left_old u (Some old) ha))] => destruct (m (left_old u (Some old) ha)) as [rr h'] eqn:Erun end.
    apply step_safe in Erun as ([] & hb & E1 & Erun); [|safely]. rewrite E1 in Hq2. cbn in Hq2.
    quiet_step Erun hc; [|safely|kept]. quiet_step Erun hk; [|safely|kept].
    exists ha, hk. split; [done|]. split; [right; by apply Hstuck|]. split; [by repeat (etrans; [eassumption|])|].
    pose proof (rebuild_run (E := E) hk) as Hq5. by rewrite Erun in Hq5.
Qed.

Lemma leave_room_absent {E} u h : h_sessions h !! u = None -> snd (leave_room (E := E) u h) = h.
Proof.
  intros Hs. unfold leave_room. rewrite run_bind. cbn [gets]. rewrite bool_decide_false by (rewrite Hs; by intros []). done.
Qed.

Lemma leaves_steady u s h h' : h_sessions h !! u = Some s -> leaves u s h h' -> steady nobody h h'.
Proof.
  intros Hs. unfold leaves. destruct (s_room s) as [old|] eqn:Hr; [|by intros; apply quiet_steady_rel].
  intros (h1 & h2 & Hq & Hwhy & Q1 & Q2). eapply steady_weaken; cycle 1.
  - eapply (move_steady u (session_view s) (Some old) None); try done; [by apply lookup_views|].
    destruct Hwhy as [?|?]; [left|by right]. by rewrite app_nil_r.
  - by intros w r [].
Qed.

Lemma leave_room_steady {E} u : keeps (steady nobody) (leave_room (E := E) u).
Proof.
  intros h. destruct (h_sessions h !! u) as [s|] eqn:Hs; [|by rewrite leave_room_absent].
  eapply leaves_steady; [done|by apply leave_room_run].
Qed.

End Steady.
