(* ===== verification/HubSteps.v ===== *)
(** * Every handler keeps the hub well formed

    [steady A] of [HubFacts] for the handlers that move users, change who sends or hears, or
    make and delete rooms; the handlers that move nobody are quiet ([HubLogic]). *)
From S2P Require Import Prelude Float64 Buckets Ids Frame Messages Sfu Database DatabaseFacts HubState Hub HubLogic HubFacts.
Open Scope Z_scope.

#[export] Hint Resolve quiet_steady : hub.

Section Basics.
Context {env : Env}.

Lemma follow_same h h' : h_rooms h' = h_rooms h -> h_db h' = h_db h -> (h_tick h <= h_tick h')%nat -> epochs_follow h h'.
Proof.
  intros Er Ed Et. split; rewrite ?Er, ?Ed; try done. intros r e e' _ He He'. assert (e' = e) as -> by congruence. done.
Qed.

(** ** Sessions come and go in the lobby *)

Lemma views_delete u h : views (upd_sessions (delete u) h) = delete u (views h).
Proof. unfold views. cbn. by rewrite fmap_delete. Qed.

Lemma views_insert u s h : views (upd_sessions <[u := s]> h) = <[u := session_view s]> (views h).
Proof. unfold views. cbn. by rewrite fmap_insert. Qed.

(** Nobody in a room sees [u] come or go. *)
Lemma rooms_without u h h' : placed h -> members h' = members h ->
  (forall v, views h !! u = Some v -> v_room v = None) ->
  (forall w, w <> u -> views h' !! w = views h !! w) -> same_rooms h h'.
Proof.
  intros Hp Hm Hu Hv r. rewrite Hm. split; [|done]. intros w Hw. rewrite <- !lookup_fmap. fold (views h) (views h').
  symmetry. apply Hv. intros ->. destruct (members h !! r) as [ms|] eqn:E; cbn in Hw; [|set_solver].
  destruct (pl_member h Hp _ _ _ E Hw) as (v & Hvu & Hr). rewrite (Hu _ Hvu) in Hr. done.
Qed.

Lemma sharers_same vs vs' ms : (forall u, u ∈ ms -> vs' !! u = vs !! u) -> sharers vs' ms = sharers vs ms.
Proof.
  intros H. apply set_eq. intros u. rewrite !elem_of_sharers. split; intros (? & v & ? & ?); (split; [done|]); exists v.
  - by rewrite <- H.
  - by rewrite H.
Qed.

Lemma delete_session_steady u h : (forall s, h_sessions h !! u = Some s -> s_room s = None) ->
  steady nobody h (upd_sessions (delete u) h).
Proof.
  intros Hlob [Hp Hf]. set (h' := upd_sessions (delete u) h).
  assert (forall w v, views h' !! w = Some v -> w <> u /\ views h !! w = Some v) as Hv.
  { unfold h'. intros w v. rewrite views_delete. by intros [? ?]%lookup_delete_Some. }
  assert (forall v, views h !! u = Some v -> v_room v = None) as Hvu.
  { intros v (s & Hs & ->)%lookup_views_inv. by apply Hlob. }
  assert (forall w, w <> u -> views h' !! w = views h !! w) as Hw.
  { unfold h'. intros w Hne. by rewrite views_delete, lookup_delete_ne. }
  assert (members h' = members h) as Hm by done.
  assert (forall r ms w, members h !! r = Some ms -> w ∈ ms -> w <> u) as Hnot.
  { intros r ms w Hr Hin ->. destruct (pl_member h Hp _ _ _ Hr Hin) as (v & E1 & E2). rewrite (Hvu _ E1) in E2. done. }
  assert (placed h') as Hp'.
  { destruct Hp. split; rewrite ?Hm; try done.
    - intros w v []%Hv. eauto.
    - intros w v []%Hv. eauto.
    - intros w w' v v' []%Hv []%Hv. eauto.
    - intros w v r []%Hv. eauto.
    - intros r ms w Hr Hin. rewrite Hw by eauto. eauto.
    - intros w v []%Hv. eauto.
    - intros w v r []%Hv. eauto.
    - intros w w' v v' m m' []%Hv []%Hv. eauto.
    - intros r ms Hr. rewrite (sharers_same (views h)); [eauto|]. intros w Hin. apply Hw. eauto.
    - intros w v []%Hv. eauto. }
  split; [split; [done|]|].
  - apply (fresh_same h); try done. by eapply rooms_without.
  - split; [by apply follow_same|]. intros w v r []%Hv Hr. left. by exists v.
Qed.

(** The session [connect] starts. *)
Definition fresh_session (conn : Z) (c : handle) (row : UserRow) : Session :=
  mkSession conn c row None None MediaState_default [] None None 0.

Lemma insert_session_steady u c row h : h_sessions h !! u = None -> ur_id row = u -> h_next_conn h < u64_max ->
  steady nobody h
    (upd_sessions <[u := fresh_session (wrap64 (h_next_conn h + 1)) c row]> (upd_next_conn (fun n => wrap64 (n + 1)) h)).
Proof.
  intros Hnone Hid Hlt [Hp Hf]. set (s := fresh_session _ _ _). set (h' := upd_sessions _ _).
  pose proof (pl_next_conn h Hp) as Hn.
  assert (wrap64 (h_next_conn h + 1) = h_next_conn h + 1) as Ew by (unfold wrap64, u64_max in *; apply Z.mod_small; lia).
  assert (forall w v, views h' !! w = Some v -> (w = u /\ v = session_view s) \/ (w <> u /\ views h !! w = Some v)) as Hv.
  { unfold h'. intros w v. rewrite views_insert. by intros [[-> <-]|[? ?]]%lookup_insert_Some; [left|right]. }
  assert (forall v, views h !! u = Some v -> v_room v = None) as Hvu.
  { intros v (s' & Hs & ->)%lookup_views_inv. congruence. }
  assert (forall w, w <> u -> views h' !! w = views h !! w) as Hw.
  { unfold h'. intros w Hne. by rewrite views_insert, lookup_insert_ne. }
  assert (members h' = members h) as Hm by done.
  assert (forall r ms w, members h !! r = Some ms -> w ∈ ms -> w <> u) as Hnot.
  { intros r ms w Hr Hin ->. destruct (pl_member h Hp _ _ _ Hr Hin) as (v & E1 & E2). rewrite (Hvu _ E1) in E2. done. }
  assert (h_next_conn h' = h_next_conn h + 1) as En by (unfold h'; cbn; done).
  assert (placed h') as Hp'.
  { destruct Hp. split; rewrite ?Hm, ?En; try done.
    - intros w v [[-> ->]|[]]%Hv; [done|]. eauto.
    - intros w v [[-> ->]|[? Hwv]]%Hv; [cbn; lia|]. specialize (pl_conn w v Hwv). lia.
    - intros w w' v v' [[-> ->]|[? Hwv]]%Hv [[-> ->]|[? Hwv']]%Hv; [done|..|by eauto]; cbn; intros Hc;
        [specialize (pl_conn _ _ Hwv')|specialize (pl_conn _ _ Hwv)]; lia.
    - intros w v r [[-> ->]|[]]%Hv; [done|]. eauto.
    - intros r ms w Hr Hin. rewrite Hw by eauto. eauto.
    - intros w v [[-> ->]|[]]%Hv; [done|]. eauto.
    - intros w v r [[-> ->]|[]]%Hv; [done|]. eauto.
    - intros w w' v v' m m' [[-> ->]|[]]%Hv [[-> ->]|[]]%Hv; [done..|]. eauto.
    - intros r ms Hr. rewrite (sharers_same (views h)); [eauto|]. intros w Hin. apply Hw. eauto.
    - intros w v [[-> ->]|[]]%Hv; [done|]. eauto.
    - lia. }
  split; [split; [done|]|].
  - apply (fresh_same h); try done. by eapply rooms_without.
  - split; [by apply follow_same|]. intros w v r [[-> ->]|[]]%Hv Hr; [done|]. left. by exists v.
Qed.

End Basics.

Section Leaving.
Context {env : Env}.

Lemma quiet_session_room h h' u : quiet h h' -> (forall s, h_sessions h !! u = Some s -> s_room s = None) ->
  forall s, h_sessions h' !! u = Some s -> s_room s = None.
Proof.
  intros Hq H s' Hs'. apply lookup_views in Hs'. unfold views in Hs'. rewrite (q_sessions _ _ Hq), lookup_fmap in Hs'.
  apply fmap_Some in Hs' as (s & Hs & E). change (v_room (session_view s') = None). rewrite E. by apply H.
Qed.

Lemma left_in_lobby {E} u h s : h_sessions (snd (leave_room (E := E) u h)) !! u = Some s -> s_room s = None.
Proof.
  destruct (h_sessions h !! u) as [s0|] eqn:Hs; [|rewrite leave_room_absent by done; congruence].
  pose proof (leave_room_run (E := E) u h s0 Hs) as Hl. unfold leaves in Hl. destruct (s_room s0) as [old|] eqn:Hr.
  - destruct Hl as (h1 & h2 & Hq & _ & Q1 & Q2). intros Hs'%lookup_views.
    rewrite (eo_views _ _ _ _ _ _ (move_effect _ _ _ _ _ _ _ Q1 Q2)), lookup_alter_eq in Hs'.
    apply fmap_Some in Hs' as (v & _ & Hv'). change (v_room (session_view s) = None). by rewrite Hv'.
  - apply (quiet_session_room h); [done|]. congruence.
Qed.

Lemma steady_then A h h' h'' : steady A h h' -> (hub_ok h' -> steady A h' h'') -> steady A h h''.
Proof. intros H1 H2 Hok. apply (transitivity (y := h') (R := steady A)); [done|apply H2, H1, Hok|done]. Qed.

Lemma evict_steady {E} u reason : keeps (steady nobody) (evict (E := E) u reason).
Proof.
  intros h. unfold evict. destruct (run_safe (E := E) (leave_room u) (fun _ =>
    s ← gets (fun h => h_sessions h !! u);
    match s with
    | None => mret ()
    | Some s => _ ← modify (upd_sessions (delete u)); kick (s_handle s) reason close.REMOVED
    end) h) as ([] & h1 & E1 & ->); [safely|].
  etrans; [eapply keeps_run; [apply leave_room_steady|exact E1]|].
  rewrite run_bind. cbn [gets]. destruct (h_sessions h1 !! u) as [s|] eqn:Hs; [|cbn; reflexivity].
  rewrite run_bind. cbn [modify]. etrans; [apply (delete_session_steady u)|].
  - intros s' Hs'. apply (left_in_lobby (E := E) u h). by rewrite E1.
  - apply quiet_steady_rel, quiet_kick.
Qed.

(** After [evict] there is no session, and the others are untouched. *)
Lemma evict_gone {E} u reason h : h_sessions (snd (evict (E := E) u reason h)) !! u = None.
Proof.
  unfold evict. destruct (run_safe (E := E) (leave_room u) (fun _ =>
    s ← gets (fun h => h_sessions h !! u);
    match s with
    | None => mret ()
    | Some s => _ ← modify (upd_sessions (delete u)); kick (s_handle s) reason close.REMOVED
    end) h) as ([] & h1 & E1 & ->); [safely|].
  rewrite run_bind. cbn [gets]. destruct (h_sessions h1 !! u) as [s|] eqn:Hs; [|done].
  rewrite run_bind. cbn [modify].
  pose proof (q_sessions _ _ (quiet_kick (E := E) (s_handle s) reason close.REMOVED (upd_sessions (delete u) h1))) as Eq.
  apply (f_equal (.!! u)) in Eq. rewrite !lookup_fmap in Eq. cbn in Eq. rewrite lookup_delete_eq in Eq.
  by apply fmap_None in Eq.
Qed.

Lemma disconnect_steady {E} u c : keeps (steady nobody) (disconnect (E := E) u c).
Proof.
  intros h. unfold disconnect. rewrite run_bind. cbn [gets]. destruct (is_current h u c); [|cbn; reflexivity].
  destruct (run_safe (E := E) (leave_room u) (fun _ => modify (upd_sessions (delete u))) h) as ([] & h1 & E1 & ->); [safely|].
  etrans; [eapply keeps_run; [apply leave_room_steady|exact E1]|]. cbn. apply delete_session_steady.
  intros s' Hs'. apply (left_in_lobby (E := E) u h). by rewrite E1.
Qed.

#[local] Hint Resolve leave_room_steady evict_steady disconnect_steady : hub.

Lemma drop_users_steady {E} l : keeps (steady nobody) (drop_users (E := E) l).
Proof. unfold drop_users. kept. Qed.
#[local] Hint Resolve drop_users_steady : hub.

Lemma kick_from_room_steady u w r : keeps (steady nobody) (kick_from_room u w r).
Proof. unfold kick_from_room. kept. Qed.

Lemma remove_user_steady u w b : keeps (steady nobody) (remove_user u w b).
Proof. unfold remove_user. cbv zeta. kept. Qed.

Lemma remove_inactive_steady t : keeps (steady nobody) (remove_inactive t).
Proof. unfold remove_inactive. kept. Qed.

End Leaving.

#[export] Hint Resolve leave_room_steady evict_steady disconnect_steady drop_users_steady kick_from_room_steady
  remove_user_steady remove_inactive_steady : hub.

(** ** Sessions change in their room *)

Section Changing.
Context {env : Env}.

Lemma size_filter_elements (P : Z -> Prop) `{forall x, Decision (P x)} (X : gset Z) :
  size (filter P X) = length (filter P (elements X)).
Proof.
  unfold size, set_size. cbn. apply Permutation_length, NoDup_Permutation.
  - apply NoDup_elements.
  - apply list.NoDup_filter, NoDup_elements.
  - intros x. by rewrite elem_of_elements, elem_of_filter, list_elem_of_filter, elem_of_elements.
Qed.

Lemma shares_in_sharers h r e : h_rooms h !! r = Some e ->
  shares_in h r = Z.of_nat (size (sharers (views h) (e_members e))).
Proof.
  intros He. unfold shares_in. rewrite He. f_equal. unfold sharers. rewrite size_filter_elements.
  unfold member_sessions, in_order.
  rewrite <- (Permutation_length (filter_Permutation _ _ _ (merge_sort_Permutation Z.le (elements (e_members e))))).
  induction (merge_sort Z.le (elements (e_members e))) as [|u l IH]; csimpl; [done|].
  rewrite (filter_cons _ u). assert (views h !! u = session_view <$> h_sessions h !! u) as -> by apply lookup_fmap.
  destruct (h_sessions h !! u) as [s|]; csimpl; [|done].
  rewrite filter_cons. destruct (ms_share (s_media s)) as [sh|] eqn:Hsh; cbn; rewrite ?Hsh.
  - destruct (decide (is_Some (Some sh))) as [|[]]; [|by eexists]. cbn. by rewrite IH.
  - destruct (decide (is_Some None)) as [[? ?]|_]; [done|]. cbn. by rewrite IH.
Qed.

(** What a session may change about itself without moving. *)
Record stays (h : Hub) (v v' : view) : Prop := {
  st_same : v_conn v' = v_conn v /\ v_handle v' = v_handle v /\ v_user v' = v_user v /\ v_room v' = v_room v /\ v_tracks v' = v_tracks v;
  st_room : is_Some (v_room v);
  st_watched : Z.of_nat (length (v_watching v')) <= MAX_WATCHED;
  st_shares : v_sharing v' = true -> v_sharing v = true \/
    forall r, v_room v = Some r -> shares_in h r < MAX_ROOM_SHARES
}.

Lemma alter_view_placed u f g v h : (forall s, session_view (f s) = g (session_view s)) ->
  views h !! u = Some v -> stays h v (g v) -> placed h -> placed (upd_sessions (alter f u) h).
Proof.
  intros Hfg Hu [(Ec & Eh & Eu & Er & Et) [r0 Hr0] Hw Hsh] Hp. set (h' := upd_sessions (alter f u) h).
  assert (forall w v', views h' !! w = Some v' -> exists v0, views h !! w = Some v0 /\ v_conn v' = v_conn v0 /\
    v_user v' = v_user v0 /\ v_room v' = v_room v0 /\ v_tracks v' = v_tracks v0 /\ (w = u /\ v' = g v0 \/ v' = v0)) as Hv.
  { intros w v'. unfold h'. rewrite (views_alter _ _ _ _ Hfg). destruct (decide (u = w)) as [<-|].
    - rewrite lookup_alter_eq, Hu. cbn. intros [= <-]. exists v. repeat split; try done. by left.
    - rewrite lookup_alter_ne by done. intros Hv'. exists v'. repeat split; try done. by right. }
  assert (forall w v0, views h !! w = Some v0 -> exists v', views h' !! w = Some v' /\ v_room v' = v_room v0) as Hback.
  { intros w v0 Hv0. unfold h'. rewrite (views_alter _ _ _ _ Hfg). destruct (decide (u = w)) as [<-|].
    - rewrite lookup_alter_eq, Hu. cbn. exists (g v). split; [done|]. congruence.
    - rewrite lookup_alter_ne by done. by exists v0. }
  assert (members h' = members h) as Hm by done.
  assert (h_db h' = h_db h) as Hd by done. assert (h_next_conn h' = h_next_conn h) as Hn by done.
  split; rewrite ?Hm, ?Hd, ?Hn.
  - intros w v' (v0 & Hy & _ & -> & _)%Hv. by apply (pl_user h Hp).
  - intros w v' (v0 & Hy & -> & _)%Hv. by apply (pl_conn h Hp w).
  - intros w w' v1 v2 (v1' & H1 & -> & _)%Hv (v2' & H2 & -> & _)%Hv. by apply (pl_conns h Hp).
  - intros w v' r (v0 & Hy & _ & _ & -> & _)%Hv. by apply (pl_in h Hp).
  - intros r ms w Hr Hin. destruct (pl_member h Hp _ _ _ Hr Hin) as (v0 & Hv0 & Hr'). destruct (Hback _ _ Hv0) as (v' & ? & E).
    exists v'. split; [done|]. congruence.
  - intros w v' (v0 & Hy & _ & _ & Er' & Et' & [[-> ->]| ->])%Hv; [|by apply (pl_lobby h Hp w)].
    assert (v0 = v) as -> by congruence. congruence.
  - intros w v' r (v0 & Hy & _ & _ & -> & -> & _)%Hv. by apply (pl_tracks h Hp w).
  - intros w w' v1 v2 m m' (v1' & H1 & _ & _ & _ & -> & _)%Hv (v2' & H2 & _ & _ & _ & -> & _)%Hv. by apply (pl_apart h Hp w w').
  - exact (pl_size h Hp).
  - intros r ms Hr. pose proof (pl_shares h Hp r ms Hr) as Hle.
    assert (sharers (views h') ms ⊆ sharers (views h) ms \/
            (u ∈ ms /\ v_sharing (g v) = true /\ v_sharing v = false /\ sharers (views h') ms ⊆ {[u]} ∪ sharers (views h) ms)) as Hsub.
    { destruct (decide (u ∈ ms /\ v_sharing (g v) = true /\ v_sharing v = false)) as [(?&?&?)|Hnot]; [right|left].
      - do 3 (split; [done|]). intros w (Hin & v' & (v0 & Hy & _ & _ & _ & _ & Hc)%Hv & Hs)%elem_of_sharers.
        destruct Hc as [[-> ->]| ->]; [set_solver|]. apply elem_of_union. right. apply elem_of_sharers. eauto.
      - intros w (Hin & v' & (v0 & Hy & _ & _ & _ & _ & Hc)%Hv & Hs)%elem_of_sharers. apply elem_of_sharers. split; [done|].
        exists v0. split; [done|]. destruct Hc as [[-> ->]| ->]; [|done]. assert (v0 = v) as -> by congruence.
        destruct (v_sharing v) eqn:?; [done|]. exfalso. by apply Hnot. }
    destruct Hsub as [Hsub|(Hin & H1 & H2 & Hsub)]; [apply subseteq_size in Hsub; lia|].
    destruct (Hsh H1) as [?|Hlt]; [congruence|]. destruct (pl_member h Hp _ _ _ Hr Hin) as (v0 & Hv0 & Hr').
    assert (v0 = v) as -> by congruence. specialize (Hlt _ Hr'). apply lookup_members_inv in Hr as (e & He & ->).
    rewrite (shares_in_sharers _ _ _ He) in Hlt. apply subseteq_size in Hsub.
    pose proof (size_union_alt {[u]} (sharers (views h) (e_members e))).
    assert (size (sharers (views h) (e_members e) ∖ {[u]}) <= size (sharers (views h) (e_members e)))%nat by (apply subseteq_size; set_solver).
    rewrite size_singleton in *. lia.
  - intros w v' (v0 & Hy & _ & _ & _ & _ & [[-> ->]| ->])%Hv; [|by apply (pl_watched h Hp w)].
    assert (v0 = v) as -> by congruence. done.
  - exact (pl_rooms h Hp).
  - exact (pl_seq h Hp).
  - exact (pl_media h Hp).
  - exact (pl_next_conn h Hp).
Qed.

(** A change to itself, then the routes rebuilt. *)
Lemma alter_view_steady u f g v h h2 h' : (forall s, session_view (f s) = g (session_view s)) ->
  views h !! u = Some v -> stays h v (g v) -> quiet (upd_sessions (alter f u) h) h2 -> quiet (rebuilt h2) h' ->
  steady nobody h h'.
Proof.
  intros Hfg Hu Hst Hq2 Hq [Hp Hf]. split; [|split].
  - eapply quiet_ok; [exact Hq|]. apply rebuilt_ok. eapply quiet_placed; [exact Hq2|]. by eapply alter_view_placed.
  - transitivity h2; [|etrans; [|apply quiet_follow; exact Hq]; by apply follow_same].
    etrans; [|apply quiet_follow; exact Hq2]. by apply follow_same.
  - intros w v' r Hv Hr.
    assert (views h' = alter g u (views h)) as E 
      by (rewrite <- (views_alter _ _ _ _ Hfg); etrans; [apply (q_sessions _ _ Hq)|apply (q_sessions _ _ Hq2)]).
    rewrite E in Hv. left.
    destruct (decide (u = w)) as [<-|].
    + rewrite lookup_alter_eq, Hu in Hv. injection Hv as <-. exists v. split; [done|].
      destruct (st_same _ _ _ Hst) as (_ & _ & _ & <- & _). done.
    + rewrite lookup_alter_ne in Hv by done. by exists v'.
Qed.

Lemma quiet_shares_in h h' r : quiet h h' -> shares_in h' r = shares_in h r.
Proof.
  intros Hq. pose proof (q_members _ _ Hq) as Em. fold (members h) (members h') in Em.
  assert (members h' !! r = members h !! r) as E by (by rewrite Em).
  destruct (h_rooms h !! r) as [e|] eqn:He; [rewrite (lookup_members _ _ _ He) in E|rewrite (lookup_members_none _ _ He) in E].
  - apply lookup_members_inv in E as (e' & He' & Hm). rewrite (shares_in_sharers _ _ _ He), (shares_in_sharers _ _ _ He').
    rewrite <- Hm. unfold views. by rewrite (q_sessions _ _ Hq).
  - unfold shares_in. rewrite He. unfold members in E. rewrite lookup_fmap in E. apply fmap_None in E. by rewrite E.
Qed.

(** The session and the room a handler starts from. *)
Lemma current_room_inv u h r h' : current_room u h = (r, h') ->
  h' = h /\ match r with
            | inl room => exists s, h_sessions h !! u = Some s /\ s_room s = Some room
            | inr _ => True
            end.
Proof.
  unfold current_room, session. rewrite !run_bind. cbn [gets]. destruct (h_sessions h !! u) as [s|]; cbn [ok_or]; [|by intros [= <- <-]].
  unfold mret, M_ret. destruct (s_room s) as [room|] eqn:Hr; cbn [ok_or]; [|by intros [= <- <-]].
  intros [= <- <-]. split; [done|]. by exists s.
Qed.

Lemma session_inv u h r h' : session u h = (r, h') ->
  h' = h /\ match r with inl s => h_sessions h !! u = Some s | inr _ => True end.
Proof.
  unfold session. rewrite run_bind. cbn [gets]. destruct (h_sessions h !! u) as [s|]; cbn [ok_or]; by intros [= <- <-].
Qed.

Lemma session_mut_run u f h s : h_sessions h !! u = Some s -> session_mut u f h = (inl (), upd_sessions (alter f u) h).
Proof. intros Hs. unfold session_mut, session. rewrite !run_bind. cbn [gets]. rewrite Hs. done. Qed.

Lemma quiet_session_some h h' u s : quiet h h' -> h_sessions h !! u = Some s ->
  exists s', h_sessions h' !! u = Some s' /\ session_view s' = session_view s.
Proof.
  intros Hq Hs. pose proof (q_sessions _ _ Hq) as E. apply (f_equal (.!! u)) in E. rewrite !lookup_fmap, Hs in E.
  apply fmap_Some in E as (s' & ? & ?). by exists s'.
Qed.

Lemma steady_ok A h h' : (hub_ok h -> steady A h h') -> steady A h h'.
Proof. intros H Hok. by apply H. Qed.

Definition media_view (media : MediaState) (v : view) : view :=
  mkView (v_conn v) (v_handle v) (v_user v) (v_room v) (v_tracks v) (ms_deafened media)
    (bool_decide (is_Some (ms_share media))) (v_watching v).

(** What the rest of [set_media] does once the change is decided. *)
Lemma media_tail_steady {A} (k : M Refusal A) u room s media h r h' : keeps quiet k -> h_sessions h !! u = Some s -> s_room s = Some room ->
  (is_Some (ms_share media) -> is_Some (ms_share (s_media s)) \/ shares_in h room < MAX_ROOM_SHARES) ->
  (_ ← session_mut u (with_media media);
   _ ← when (bool_decide (ms_share media <> ms_share (s_media s))) (broadcast_peers room None);
   _ ← when (negb (Bool.eqb (ms_deafened media) (ms_deafened (s_media s))) ||
             negb (Bool.eqb (bool_decide (is_Some (ms_share media))) (bool_decide (is_Some (ms_share (s_media s))))))
         rebuild_routes;
   _ ← announce_presence u;
   k) h = (r, h') -> steady nobody h h'.
Proof.
  intros Hk Hs Hr Hsh H. apply steady_ok. intros [Hp _].
  rewrite run_bind, (session_mut_run _ _ _ _ Hs) in H. set (h1 := upd_sessions _ _) in *.
  quiet_step H h2; [|safely|kept].
  assert (forall s0, session_view (with_media media s0) = media_view media (session_view s0)) as Hf by done.
  destruct (negb _ || negb _) eqn:Hflags; cbn [when] in H.
  - apply bind_inv in H as [([] & h3 & Hreb & H)|(err & Hreb & ->)].
    2:{ destruct (safe_rebuild (E := Refusal) h2) as [? E]. by rewrite Hreb in E. }
    apply (alter_view_steady u (with_media media) (media_view media) (session_view s) h h2); try done; [by apply lookup_views|..].
    + split; [done|by eexists|exact (pl_watched h Hp u _ (lookup_views _ _ _ Hs))|]. cbn. intros Hm%bool_decide_eq_true.
      destruct (Hsh Hm) as [?|?]; [left; by apply bool_decide_eq_true|right]. intros ? [= <-]%(eq_trans (eq_sym Hr)). done.
    + etrans; [apply (rebuild_run (E := Refusal))|]. rewrite Hreb. eapply keeps_run; [|exact H]. kept.
  - apply quiet_steady_rel. rewrite run_bind in H. cbn [mret M_ret] in H. unfold mret, M_ret in H.
    apply orb_false_iff in Hflags as [Hd%negb_false_iff%Bool.eqb_prop Hb%negb_false_iff%Bool.eqb_prop].
    assert (quiet h h1) as Hq.
    { split; try done; [|intros r0 e He; by exists e]. unfold h1. cbn. apply fmap_alter_same. intros s1 Hs1.
      assert (s1 = s) as -> by congruence. unfold session_view. cbn. by rewrite Hd, Hb. }
    etrans; [exact Hq|]. etrans; [eassumption|]. eapply keeps_run; [|exact H]. kept.
Qed.

Lemma set_media_steady u media : keeps (steady nobody) (set_media u media).
Proof.
  intros h. unfold set_media. rewrite run_bind. destruct (current_room u h) as [[room|x] h0] eqn:Ec;
    apply current_room_inv in Ec as [-> Hc]; [|by cbn].
  destruct Hc as (s & Hs & Hr). rewrite run_bind. destruct (session u h) as [[s0|x] h0] eqn:Es;
    apply session_inv in Es as [-> Hs0]; [|by cbn].
  assert (s0 = s) as -> by congruence. cbv zeta. rewrite run_bind. cbn [gets].
  set (starting := bool_decide (is_Some (ms_share media)) && bool_decide (ms_share (s_media s) = None)).
  set (full := starting && (MAX_ROOM_SHARES <=? shares_in h room)).
  match goal with |- steady _ _ (snd (?m h)) => destruct (m h) as [r h'] eqn:H end. cbn [snd].
  quiet_step H h1; [|destruct (_ && _ && _); safely|destruct (_ && _ && _); kept].
  assert (h_sessions h1 = h_sessions h) as Es.
  { revert H1. destruct (_ && _ && _); [|by intros [= _ <-]]. unfold now, meter_take. rewrite !run_bind.
    destruct (buckets_take _ _ _ _). by intros [= _ <-]. }
  etrans; [by apply quiet_steady_rel|].
  eapply (media_tail_steady _ u room s); [| |done| |exact H].
  - destruct full; [kept|destruct x; kept].
  - by rewrite Es.
  - cbn [ms_share]. rewrite (quiet_shares_in h h1) by done. unfold full, starting. intros Hsh.
    destruct (ms_share (s_media s)) as [sh|] eqn:Hold; [left; by eexists|right].
    destruct (Z.leb_spec MAX_ROOM_SHARES (shares_in h room)); [|done]. exfalso. revert Hsh.
    destruct (ms_share media) as [sh|] eqn:Hnew; cbn; [|by destruct x; intros []]. by intros [].
Qed.

Definition watching_view (l : list MediaId) (v : view) : view :=
  mkView (v_conn v) (v_handle v) (v_user v) (v_room v) (v_tracks v) (v_deafened v) (v_sharing v) l.

Lemma for_checks {E A} (l : list A) (f : A -> M E unit) h r h' :
  (forall a r h', a ∈ l -> f a h = (r, h') -> h' = h) -> for_ l f h = (r, h') -> h' = h.
Proof.
  revert r h'. induction l as [|a l IH]; intros r h' Hf; cbn [for_]; [by intros [= _ <-]|].
  intros H. apply bind_inv in H as [([] & h1 & H1 & H)|(e & H1 & _)];
    pose proof (Hf a _ _ (list_elem_of_here _ _) H1) as ->; [|done].
  eapply IH; [|done]. intros b r0 h0 Hb. apply Hf. by right.
Qed.

Lemma set_watched_steady u l : keeps (steady nobody) (set_watched u l).
Proof.
  intros h. unfold set_watched. destruct (Z.ltb_spec MAX_WATCHED (Z.of_nat (length l))) as [|Hlen]; [cbn; reflexivity|].
  match goal with |- steady _ _ (snd (?m h)) => destruct (m h) as [r h'] eqn:H end. cbn [snd].
  apply bind_inv in H as [(room & h1 & Hc & H)|(x & Hc & ->)]; apply current_room_inv in Hc as [-> Hc]; [|reflexivity].
  destruct Hc as (s & Hs & Hr).
  assert (forall r h', for_ l (fun id =>
        ok ← gets (fun h => match share_track h id with
                            | Some (owner, _) => bool_decide (owner <> u) &&
                                bool_decide (h_sessions h !! owner ≫= s_room = Some room)
                            | None => false
                            end);
        if ok : bool then mret () else throw (Refuse Invalid (lit "not a share in your room"))) h = (r, h') -> h' = h) as Hpure.
  { intros r0 h0. apply for_checks. intros id r1 h1 _. rewrite run_bind. cbn [gets].
    destruct (match share_track h id with Some _ => _ | None => _ end); cbn; by intros [= _ <-]. }
  apply bind_inv in H as [([] & h1 & Hl & H)|(x & Hl & ->)]; apply Hpure in Hl as ->; [|reflexivity].
  apply bind_inv in H as [(s0 & h1 & He & H)|(x & He & ->)]; apply session_inv in He as [-> He]; [|reflexivity].
  assert (s0 = s) as -> by congruence. cbv zeta in H. rewrite run_bind, (session_mut_run _ _ _ _ Hs) in H.
  apply step_safe in H as ([] & h2 & Hreb & H); [|safely].
  apply steady_ok. intros [Hp _].
  apply (alter_view_steady u (with_watching l) (watching_view l) (session_view s) h (upd_sessions (alter (with_watching l) u) h)); try done.
  - by apply lookup_views.
  - split; [done|by eexists|exact Hlen|by left].
  - etrans; [apply (rebuild_run (E := Refusal))|]. rewrite Hreb. eapply keeps_run; [|exact H]. kept.
Qed.

(** ** Rooms come and go *)

Lemma create_room_run name hash h r h' : 0 <= room_seq (h_db h) ->
  db (Database.create_room db_fault name hash) h = (r, h') ->
  quiet h h' /\ match r with
                | inl id => room_seq (h_db h) < id /\ id <= room_seq (h_db h')
                | inr _ => True
                end.
Proof.
  intros Hpos H. split; [eapply keeps_run; [|exact H]; kept|]. revert H.
  unfold db, map_err, db_call, Database.create_room, transaction. destruct (db_fault (h_tick h)); cbn; [by intros [= <- <-]|].
  unfold insert_room. destruct (Z.leb_spec (room_seq (h_db h) + 1) i64_max) as [Hle|]; cbn; [|by intros [= <- <-]].
  unfold as_u64, wrap64. intros [= <- <-]. cbn. unfold i64_max in Hle. rewrite Z.mod_small by lia. lia.
Qed.

Lemma add_room_steady name hash : keeps (steady nobody) (add_room name hash).
Proof.
  intros h. apply steady_ok. intros [Hp Hf]. unfold add_room.
  match goal with |- steady _ _ (snd (?m h)) => destruct (m h) as [r h'] eqn:H end. cbn [snd].
  apply bind_inv in H as [(id & h1 & Hc & H)|(x & Hc & ->)]; apply (create_room_run _ _ _ _ _ (pl_seq h Hp)) in Hc as [Hq Hid].
  2: by apply quiet_steady_rel.
  rewrite run_bind in H. cbn [modify] in H. set (h2 := upd_rooms _ h1) in *.
  transitivity h2; [|apply quiet_steady_rel; eapply keeps_run; [|exact H]; kept].
  pose proof (quiet_ok _ _ Hq (Build_hub_ok _ Hp Hf)) as [Hp1 Hf1]. intros _.
  assert (members h1 !! id = None) as Hnone.
  { destruct (members h1 !! id) as [ms|] eqn:E; [|done]. exfalso. pose proof (q_members _ _ Hq) as Em.
    fold (members h) (members h1) in Em. rewrite Em in E. pose proof (pl_rooms h Hp id ltac:(by eexists)). lia. }
  assert (members h2 = <[id := ∅]> (members h1)) as Hm by (unfold members, h2; cbn; by rewrite fmap_insert).
  assert (forall r ms, members h2 !! r = Some ms -> (r = id /\ ms = ∅) \/ members h1 !! r = Some ms) as Hcase.
  { intros r0 ms. rewrite Hm. intros [[<- <-]|[_ ?]]%lookup_insert_Some; [by left|by right]. }
  assert (placed h2) as Hp2.
  { split; placed_same Hp1.
    - intros u v r0 Hv Hr. destruct (pl_in h1 Hp1 u v r0 Hv Hr) as (ms & Hms & Hin). exists ms. split; [|done].
      rewrite Hm, lookup_insert_ne; congruence.
    - intros r0 ms u [[-> ->]|Hr]%Hcase Hin; [set_solver|]. by apply (pl_member h1 Hp1 r0 ms).
    - intros r0 ms [[-> ->]|Hr]%Hcase; [rewrite size_empty; unfold MAX_ROOM_MEMBERS; lia|]. by apply (pl_size h1 Hp1 r0).
    - intros r0 ms [[-> ->]|Hr]%Hcase; [|by apply (pl_shares h1 Hp1 r0)].
      assert (sharers (views h2) ∅ = ∅) as -> by (apply set_eq; intros w; rewrite elem_of_sharers; set_solver).
      rewrite size_empty. unfold MAX_ROOM_SHARES. lia.
    - intros r0 [ms [[-> ->]|Hr]%Hcase]; [cbn; pose proof (pl_seq h Hp); lia|]. apply (pl_rooms h1 Hp1). by eexists. }
  split; [split; [done|]|split].
  - apply (fresh_same h1); try done. intros r0. destruct (decide (r0 = id)) as [->|].
    + rewrite Hnone, Hm, lookup_insert_eq. cbn. split; [|done]. intros u. set_solver.
    + rewrite Hm, lookup_insert_ne by done. split; [|done]. by intros u _.
  - assert (forall r0, r0 <= room_seq (h_db h) -> h_rooms h2 !! r0 = h_rooms h1 !! r0) as Hsame.
    { intros r0 Hr0. unfold h2. cbn. rewrite lookup_insert_ne by lia. done. }
    pose proof (quiet_follow _ _ Hq) as [? ? Hgone Hroom]. split; try done.
    + intros r0 Hr0 Hn. rewrite Hsame by done. by apply Hgone.
    + intros r0 e e' Hr0 He He'. rewrite Hsame in He' by done. by apply (Hroom r0).
  - apply enters_views. change (views h2) with (views h1). apply (q_sessions _ _ Hq).
Qed.

(** A room nobody is in. *)
Lemma drop_room_steady r h : default ∅ (members h !! r) = ∅ -> steady nobody h (upd_rooms (delete r) h).
Proof.
  intros Hempty [Hp Hf]. set (h' := upd_rooms (delete r) h).
  assert (members h' = delete r (members h)) as Hm by (unfold members, h'; cbn; by rewrite fmap_delete).
  assert (forall r0 ms, members h' !! r0 = Some ms -> r0 <> r /\ members h !! r0 = Some ms) as Hcase.
  { intros r0 ms. rewrite Hm. by intros [? ?]%lookup_delete_Some. }
  assert (placed h') as Hp'.
  { split; placed_same Hp.
    - intros u v r0 Hv Hr. destruct (pl_in h Hp u v r0 Hv Hr) as (ms & Hms & Hin). exists ms. split; [|done].
      rewrite Hm, lookup_delete_ne; [done|]. intros ->. rewrite Hms in Hempty. cbn in Hempty. set_solver.
    - intros r0 ms u [_ Hr]%Hcase Hin. by apply (pl_member h Hp r0 ms).
    - intros r0 ms [_ Hr]%Hcase. by apply (pl_size h Hp r0).
    - intros r0 ms [_ Hr]%Hcase. by apply (pl_shares h Hp r0).
    - intros r0 [ms [_ Hr]%Hcase]. apply (pl_rooms h Hp). by eexists. }
  split; [split; [done|]|split].
  - apply (fresh_same h); try done. intros r0. destruct (decide (r0 = r)) as [->|].
    + rewrite Hm, lookup_delete_eq, Hempty. cbn. split; [|done]. intros u. set_solver.
    + rewrite Hm, lookup_delete_ne by done. split; [|done]. by intros u _.
  - split; try done.
    + intros r0 _ Hn. cbn. apply lookup_delete_None. by right.
    + intros r0 e e' _ He He'. cbn in He'. apply lookup_delete_Some in He' as [_ He']. assert (e' = e) as -> by congruence. done.
  - by apply enters_views.
Qed.

Lemma placed_nowhere m h p h' : place m None h = (inl p, h') -> forall v, views h' !! m = Some v -> v_room v = None.
Proof.
  intros H v Hv. destruct (h_sessions h !! m) as [s|] eqn:Hs.
  2:{ unfold place, session in H. rewrite !run_bind in H. cbn [gets] in H. by rewrite Hs in H. }
  apply (place_run _ _ _ _ _ _ Hs) in H. cbv iota in H. destruct (decide (s_room s = None)) as [Hn|].
  - apply lookup_views_inv in Hv as (s' & Hs' & ->). apply (quiet_session_room h h' m); [done| |done]. congruence.
  - destruct H as (h1 & h2 & tr & _ & _ & _ & Q1 & Q2).
    rewrite (eo_views _ _ _ _ _ _ (move_effect _ _ _ _ _ _ _ Q1 Q2)), lookup_alter_eq in Hv.
    apply fmap_Some in Hv as (v0 & _ & ->). done.
Qed.

Lemma only_none u : forall w r, only u None w r -> nobody w r.
Proof. by intros w r []. Qed.

Lemma place_none_steady u : keeps (steady nobody) (place u None).
Proof. intros h. eapply steady_weaken; [apply only_none|apply place_steady]. Qed.

Lemma empty_room_run l h h' : hub_ok h -> for_ (E := Refusal) l (fun m => _ ← place m None; mret ()) h = (inl (), h') ->
  steady nobody h h' /\ forall m v, m ∈ l -> views h' !! m = Some v -> v_room v = None.
Proof.
  assert (forall l, keeps (steady nobody) (for_ (E := Refusal) l (fun m => _ ← place m None; mret ()))) as Hk.
  { intros l0. kept. apply place_none_steady. }
  revert h. induction l as [|m l IH]; intros h Hok H.
  { injection H as <-. split; [reflexivity|]. by intros m v ?%not_elem_of_nil. }
  split; [by eapply keeps_run; [apply Hk|]|].
  cbn [for_] in H. apply bind_inv in H as [([] & h1 & H1 & H)|(e & _ & ?)]; [|done].
  apply bind_inv in H1 as [(p & h2 & H1 & [= <-])|(e & _ & ?)]; [|done].
  assert (hub_ok h2) as Hok2 by (apply (keeps_run _ _ _ _ _ (place_none_steady m) H1 Hok)).
  destruct (IH h2 Hok2 H) as [Hst Hl]. intros w v [->|Hw]%elem_of_cons Hv; [|by eapply Hl].
  destruct (v_room v) as [r|] eqn:Hr; [|done]. exfalso. destruct (Hst Hok2) as (_ & _ & Hen).
  destruct (Hen m v r Hv Hr) as [(v0 & Hv0 & Hr0)|[]]. by rewrite (placed_nowhere _ _ _ _ H1 _ Hv0) in Hr0.
Qed.

Lemma role_inv u h r h' : role u h = (r, h') ->
  h' = h /\ match r with inl x => exists s, h_sessions h !! u = Some s /\ ur_role (s_row s) = x | inr _ => True end.
Proof.
  unfold role, session. rewrite !run_bind. cbn [gets]. destruct (h_sessions h !! u) as [s|]; cbn [ok_or]; [|by intros [= <- <-]].
  intros [= <- <-]. split; [done|]. by exists s.
Qed.

Lemma require_inv b h r h' : require b h = (r, h') -> h' = h /\ match r with inl _ => b = true | inr _ => b = false end.
Proof. unfold require. destruct b; by intros [= <- <-]. Qed.

Lemma room_entry_inv room h r h' : room_entry room h = (r, h') ->
  h' = h /\ match r with inl e => h_rooms h !! room = Some e | inr _ => h_rooms h !! room = None end.
Proof. unfold room_entry. rewrite run_bind. cbn [gets]. destruct (h_rooms h !! room) as [e|]; cbn [ok_or]; by intros [= <- <-]. Qed.

(** Once everyone listed has left, a room with no other members is empty. *)
Lemma emptied h h' room e : hub_ok h' -> h_rooms h !! room = Some e -> epochs_follow h h' -> enters nobody h h' -> placed h ->
  (forall m v, m ∈ in_order (e_members e) -> views h' !! m = Some v -> v_room v = None) ->
  default ∅ (members h' !! room) = ∅.
Proof.
  intros [Hp' _] He _ Hen Hp Hl. destruct (members h' !! room) as [ms|] eqn:Hms; [|done]. cbn.
  apply set_eq. intros w. split; [|set_solver]. intros Hw. destruct (pl_member h' Hp' _ _ _ Hms Hw) as (v' & Hv' & Hr').
  destruct (Hen w v' room Hv' Hr') as [(v & Hv & Hr)|[]]. destruct (pl_in h Hp w v room Hv Hr) as (ms0 & Hms0 & Hw0).
  rewrite (lookup_members _ _ _ He) in Hms0. injection Hms0 as <-.
  rewrite (Hl w v') in Hr'; [done|by apply elem_of_in_order|done].
Qed.

Lemma delete_room_steady u room : keeps (steady nobody) (hub_delete_room u room).
Proof.
  intros h. apply steady_ok. intros Hok. unfold hub_delete_room.
  match goal with |- steady _ _ (snd (?m h)) => destruct (m h) as [r h'] eqn:H end. cbn [snd].
  apply bind_inv in H as [(actor & h1 & Ha & H)|(x & Ha & ->)]; apply role_inv in Ha as [-> _]; [|reflexivity].
  apply bind_inv in H as [([] & h1 & Ha & H)|(x & Ha & ->)]; apply require_inv in Ha as [-> _]; [|reflexivity].
  apply bind_inv in H as [(e & h1 & He & H)|(x & He & ->)]; apply room_entry_inv in He as [-> He]; [|reflexivity].
  cbv zeta in H. rewrite run_bind in H. cbn [gets] in H.
  destruct (_ && _); [injection H as _ <-; reflexivity|].
  pose proof (empty_room_run (in_order (e_members e)) h) as Hloop.
  apply bind_inv in H as [([] & h1 & Hl & H)|(x & Hl & ->)].
  2:{ revert Hl. apply keeps_run. kept. apply place_none_steady. }
  destruct (Hloop h1 Hok Hl) as [Hst Hgone]. destruct (Hst Hok) as (Hok1 & Hf1 & Hn1).
  transitivity h1; [exact Hst|].
  apply bind_inv in H as [([] & h2 & Hd & H)|(x & Hd & ->)]; pose proof (keeps_run quiet _ _ _ _ (quiet_dbr _ (grows_delete_room db_fault room)) Hd) as Q2.
  2: by apply quiet_steady_rel.
  etrans; [by apply quiet_steady_rel|]. rewrite run_bind in H. cbn [modify] in H.
  etrans; [apply (drop_room_steady room)|apply quiet_steady_rel; eapply keeps_run; [|exact H]; kept].
  pose proof (q_members _ _ Q2) as Em. fold (members h1) (members h2) in Em. rewrite Em.
  by apply (emptied h h1 room e); [..|apply Hok|].
Qed.

End Changing.

#[export] Hint Resolve set_media_steady set_watched_steady add_room_steady place_none_steady delete_room_steady : hub.
