(* ===== verification/HubEntry.v ===== *)
(** * Entering rooms: by right or by password

    What moving users leaves alone ([unmoved]), and who a handler may let into a room. *)
From S2P Require Import Prelude Float64 Buckets Ids Frame Messages RoomPassword Sfu Database DatabaseFacts HubState Hub HubLogic.
From S2P Require Import HubFacts HubSteps.
Open Scope Z_scope.

(** ** What moving leaves alone *)

(** A relation that the steps of a move keep: they touch what is sent, the clock, the table,
    the sessions but not their rows and connections, the rooms' epochs and members, and of the database only
    the epochs and the counter of media ids. *)
Record unmoved (R : Hub -> Hub -> Prop) : Prop := {
  um_order : PreOrder R;
  um_out : forall f h, R h (upd_out f h);
  um_tick : forall f h, R h (upd_tick f h);
  um_table : forall f h, R h (upd_table f h);
  um_audiences : forall f h, R h (upd_audiences f h);
  um_keyframes : forall f h, R h (upd_keyframes f h);
  um_session : forall u f h, (forall s, s_row (f s) = s_row s /\ s_conn_id (f s) = s_conn_id s) -> R h (upd_sessions (alter f u) h);
  um_room : forall r f h, (forall e, e_name (f e) = e_name e /\ e_password_hash (f e) = e_password_hash e) ->
    R h (upd_rooms (alter f r) h);
  um_db : forall d h, users d = users (h_db h) -> user_seq d = user_seq (h_db h) -> invites d = invites (h_db h) -> blobs d = blobs (h_db h) ->
    profile d = profile (h_db h) -> R h (upd_db (fun _ => d) h)
}.

Section Unmoved.
Context {env : Env} (R : Hub -> Hub -> Prop) (HR : unmoved R).
Local Instance R_order : PreOrder R := um_order R HR.

Lemma unmoved_tick {E} : keeps R (now (E := E)).
Proof using HR. intros h. apply (um_tick R HR). Qed.
Lemma unmoved_unix {E} : keeps R (unix_now (E := E)).
Proof using HR. intros h. apply (um_tick R HR). Qed.
Lemma unmoved_output {E} e : keeps R (output (E := E) e).
Proof using HR. intros h. apply (um_out R HR). Qed.
Lemma unmoved_try_send {E} to o : keeps R (try_send (E := E) to o).
Proof using HR.
  intros h. unfold try_send, next_tick. destruct (accepts _); cbn; [|apply (um_tick R HR)].
  etrans; [apply (um_tick R HR)|apply (um_out R HR)].
Qed.
Lemma unmoved_keyframes {E} f : keeps R (modify (E := E) (upd_keyframes f)).
Proof using HR. intros h. apply (um_keyframes R HR). Qed.
Lemma unmoved_table {E} f : keeps R (modify (E := E) (upd_table f)).
Proof using HR. intros h. apply (um_table R HR). Qed.
Lemma unmoved_audiences {E} f : keeps R (modify (E := E) (upd_audiences f)).
Proof using HR. intros h. apply (um_audiences R HR). Qed.
Lemma unmoved_seq {E} n u : keeps R (modify (E := E) (upd_sessions (alter (with_audience_seq n) u))).
Proof using HR. apply keeps_modify. intros h. by apply (um_session R HR). Qed.
Lemma unmoved_members {E} f r : keeps R (modify (E := E) (upd_rooms (alter (with_members f) r))).
Proof using HR. apply keeps_modify. intros h. by apply (um_room R HR). Qed.
Lemma unmoved_epoch {E} n r : keeps R (modify (E := E) (upd_rooms (alter (with_epoch n) r))).
Proof using HR. apply keeps_modify. intros h. by apply (um_room R HR). Qed.

Lemma unmoved_dbr {A} (m : DbM A) :
  (forall d n, users (snd (fst (m d n))) = users d /\ user_seq (snd (fst (m d n))) = user_seq d /\ invites (snd (fst (m d n))) = invites d /\
     blobs (snd (fst (m d n))) = blobs d /\ profile (snd (fst (m d n))) = profile d) -> keeps R (db m).
Proof using HR.
  intros Hm. apply keeps_map_err. intros h. specialize (Hm (h_db h) (h_tick h)). unfold db_call.
  destruct (m (h_db h) (h_tick h)) as [[r d] n]; cbn in *. etrans; [|apply (um_tick R HR)]. destruct Hm as (? & ? & ? & ? & ?). by apply (um_db R HR).
Qed.

Lemma unmoved_set_epochs l : keeps R (db (set_epochs db_fault l)).
Proof using HR.
  apply unmoved_dbr. intros d n. unfold set_epochs, execute, transaction. destruct (db_fault n); cbn; [done|].
  repeat split; apply (foldl_same _ _ l d); by intros ? [].
Qed.
Lemma unmoved_allocate n : keeps R (db (allocate_media_ids db_fault n)).
Proof using HR.
  apply unmoved_dbr. intros d k. unfold allocate_media_ids, transaction. destruct (db_fault k); [done|]. cbv zeta. by destruct (u32_max <? _).
Qed.

#[local] Hint Resolve unmoved_tick unmoved_unix unmoved_output unmoved_try_send unmoved_keyframes unmoved_table
  unmoved_audiences unmoved_seq unmoved_members unmoved_epoch unmoved_set_epochs unmoved_allocate : hub.

Lemma unmoved_send {E} s e : keeps R (send (E := E) s e).
Proof using HR. unfold send. kept. Qed.
Lemma unmoved_kick {E} c r n : keeps R (kick (E := E) c r n).
Proof using HR. unfold kick. kept. Qed.
#[local] Hint Resolve unmoved_send unmoved_kick : hub.
Lemma unmoved_emit_to {E} u e : keeps R (emit_to (E := E) u e).
Proof using HR. unfold emit_to. kept. Qed.
Lemma unmoved_emit_all {E} e : keeps R (emit_all (E := E) e).
Proof using HR. unfold emit_all. kept. Qed.
Lemma unmoved_listers {E} e : keeps R (emit_user_list_change (E := E) e).
Proof using HR. unfold emit_user_list_change. kept. Qed.
#[local] Hint Resolve unmoved_emit_to unmoved_emit_all unmoved_listers : hub.
Lemma unmoved_emit_room {E} r e x : keeps R (emit_room (E := E) r e x).
Proof using HR. unfold emit_room. kept. Qed.
#[local] Hint Resolve unmoved_emit_room : hub.
Lemma unmoved_broadcast {E} r x : keeps R (broadcast_peers (E := E) r x).
Proof using HR. unfold broadcast_peers. kept. Qed.
Lemma unmoved_audiences_in {E} r u : keeps R (audiences_in (E := E) r u).
Proof using HR. unfold audiences_in. kept. Qed.
#[local] Hint Resolve unmoved_broadcast unmoved_audiences_in : hub.
Lemma unmoved_placement {E} u : keeps R (placement (E := E) u).
Proof using HR. unfold placement. kept. Qed.
Lemma unmoved_rebuild {E} : keeps R (rebuild_routes (E := E)).
Proof using HR. unfold rebuild_routes. kept. Qed.
Lemma unmoved_bump l : keeps R (bump_epochs l).
Proof using HR. unfold bump_epochs, room_entry. kept. Qed.
Lemma unmoved_tracks : keeps R allocate_tracks.
Proof using HR. unfold allocate_tracks. kept. Qed.
Lemma unmoved_set_membership {E} u r t : keeps R (set_membership (E := E) u r t).
Proof using HR.
  intros h. unfold set_membership. rewrite run_bind. cbn [gets].
  destruct (h_sessions h !! u) as [s|] eqn:Hs; [|cbn; reflexivity]. rewrite run_bind. cbn [modify].
  etrans; [apply (um_session R HR u (moved_session r t)); done|]. unfold upd_sessions at 1. rewrite (alter_as_insert _ _ _ _ Hs).
  match goal with |- R _ (snd (?m _)) => assert (keeps R m) as Hk; [|apply Hk] end. kept.
Qed.
#[local] Hint Resolve unmoved_placement unmoved_rebuild unmoved_bump unmoved_tracks unmoved_set_membership : hub.

Lemma unmoved_place u t : keeps R (place u t).
Proof using HR. unfold place, session, room_entry. cbv zeta. kept. Qed.
#[local] Hint Resolve unmoved_place : hub.
Lemma unmoved_leave {E} u : keeps R (leave_room (E := E) u).
Proof using HR. unfold leave_room. kept. Qed.

End Unmoved.

Section UnmovedEvict.
Context {env : Env} (R : Hub -> Hub -> Prop) (HR : unmoved R) (Hdel : forall u h, R h (upd_sessions (delete u) h)).
Local Instance R_order' : PreOrder R := um_order R HR.

Lemma unmoved_evict {E} u reason : keeps R (evict (E := E) u reason).
Proof using HR Hdel.
  unfold evict. kept; try (by apply unmoved_leave); try (by apply unmoved_kick). apply keeps_modify. apply Hdel.
Qed.

End UnmovedEvict.

(** ** Locks *)

(** The rooms' passwords, who was last where, and the counter of connections. *)
Record same_locks (h h' : Hub) : Prop := {
  sl_hash : e_password_hash <$> h_rooms h' = e_password_hash <$> h_rooms h;
  sl_joined : h_last_joined h' = h_last_joined h;
  sl_next : h_next_conn h' = h_next_conn h
}.

Lemma same_locks_unmoved : unmoved same_locks.
Proof.
  split; try (by split).
  - split; [by split|]. intros ? ? ? [] []. split; congruence.
  - intros r f h Hf. split; [|done..]. cbn. apply fmap_alter_same. intros e _. apply Hf.
Qed.

#[export] Instance same_locks_order : PreOrder same_locks := um_order _ same_locks_unmoved.

Definition locked_with (h : Hub) (room : RoomId) (hash : option str) : Prop :=
  exists e, h_rooms h !! room = Some e /\ e_password_hash e = hash.
Definition manages (h : Hub) (u : UserId) : Prop :=
  exists s, h_sessions h !! u = Some s /\ can_manage_rooms (ur_role (s_row s)) = true.
(** Who needs no password. *)
Definition free_to_enter (h : Hub) (u : UserId) (room : RoomId) : Prop :=
  locked_with h room None \/ manages h u.

Lemma same_locked h h' room hash : same_locks h h' -> locked_with h' room hash -> locked_with h room hash.
Proof.
  intros [E _ _] (e' & He' & Hh). apply (f_equal (.!! room)) in E. rewrite !lookup_fmap, He' in E.
  destruct (h_rooms h !! room) as [e|] eqn:He; [|done]. exists e. split; [done|]. cbn in E. congruence.
Qed.

(** ** What a handler reads before it moves anyone *)

Record same_core (h h' : Hub) : Prop := {
  sc_sessions : h_sessions h' = h_sessions h;
  sc_rooms : h_rooms h' = h_rooms h;
  sc_joined : h_last_joined h' = h_last_joined h
}.
#[export] Instance same_core_order : PreOrder same_core.
Proof. split; [by split|]. intros ? ? ? [] []. split; congruence. Qed.

Section Core.
Context {env : Env}.

Definition core_meter (upd : (Buckets f64 Z -> Buckets f64 Z) -> Hub -> Hub) : Prop := forall f h, same_core h (upd f h).
Lemma core_now {E} : keeps same_core (now (E := E)). Proof. by intros h. Qed.
Lemma core_unix {E} : keeps same_core (unix_now (E := E)). Proof. by intros h. Qed.
Lemma core_guesses {E} f : keeps same_core (modify (E := E) (upd_guesses f)). Proof. by intros h. Qed.
Lemma core_take {E} get upd u c t : core_meter upd -> keeps same_core (meter_take (E := E) get upd u c t).
Proof. intros Hm h. unfold meter_take. destruct (buckets_take _ _ _ _). apply Hm. Qed.
Lemma core_holds {E} get upd u c t : core_meter upd -> keeps same_core (meter_holds (E := E) get upd u c t).
Proof. intros Hm h. unfold meter_holds. destruct (buckets_holds _ _ _ _). apply Hm. Qed.
Lemma core_room_changes : core_meter upd_room_changes. Proof. by intros f h. Qed.
Lemma core_tries : core_meter upd_password_tries. Proof. by intros f h. Qed.
Lemma core_requests : core_meter upd_requests. Proof. by intros f h. Qed.
Lemma core_cheap : core_meter upd_cheap_requests. Proof. by intros f h. Qed.
Lemma core_rejoins b : core_meter (rejoin_upd b). Proof. intros f h. by destruct b. Qed.
Lemma core_db {A} (m : DbM A) : keeps same_core (db_call m).
Proof. intros h. unfold db_call. by destruct (m _ _) as [[r d] n]. Qed.
#[local] Hint Resolve core_now core_unix core_guesses core_take core_holds core_room_changes core_tries core_requests
  core_cheap core_rejoins core_db : hub.

Lemma core_session u : keeps same_core (session u). Proof. unfold session. kept. Qed.
#[local] Hint Resolve core_session : hub.
Lemma core_role u : keeps same_core (role u). Proof. unfold role. kept. Qed.
Lemma core_room_entry r : keeps same_core (room_entry r). Proof. unfold room_entry. kept. Qed.
Lemma core_enters u t : keeps same_core (enters_another_room u t). Proof. unfold enters_another_room. kept. Qed.
#[local] Hint Resolve core_role core_room_entry core_enters : hub.
Lemma core_password u r : keeps same_core (password_to_enter u r).
Proof. unfold password_to_enter. kept. Qed.

(** No password asked: the room is unlocked, the user is in it or manages rooms. *)
Lemma password_to_enter_inv u room h r h' : password_to_enter u room h = (r, h') ->
  h' = h /\ match r with
            | inl None => free_to_enter h u room \/ exists v, views h !! u = Some v /\ v_room v = Some room
            | inl (Some hash) => locked_with h room (Some hash)
            | inr _ => True
            end.
Proof.
  unfold password_to_enter. intros H.
  apply bind_inv in H as [(e & h1 & He & H)|(x & He & ->)]; apply room_entry_inv in He as [-> He]; [|done].
  destruct (e_password_hash e) as [hash|] eqn:Hh.
  2:{ injection H as <- <-. split; [done|]. left. left. by exists e. }
  apply bind_inv in H as [(s & h1 & Hs & H)|(x & Hs & ->)]; apply session_inv in Hs as [-> Hs]; [|done].
  destruct (decide (s_room s = Some room)) as [Hr|_].
  { injection H as <- <-. split; [done|]. right. exists (session_view s). split; [by apply lookup_views|done]. }
  apply bind_inv in H as [(ro & h1 & Hro & H)|(x & Hro & ->)]; apply role_inv in Hro as [-> Hro]; [|done].
  destruct Hro as (s' & Hs' & Hro). destruct (can_manage_rooms ro) eqn:Hm; injection H as <- <-; (split; [done|]).
  - left. right. exists s'. by rewrite Hro.
  - by exists e.
Qed.

Lemma core_free h h' u r : same_core h h' -> free_to_enter h' u r -> free_to_enter h u r.
Proof. intros [Es Er _]. unfold free_to_enter, locked_with, manages. by rewrite Es, Er. Qed.
Lemma core_in h h' u r : same_core h h' -> (exists v, views h' !! u = Some v /\ v_room v = Some r) ->
  exists v, views h !! u = Some v /\ v_room v = Some r.
Proof. intros [Es _ _]. unfold views. by rewrite Es. Qed.

(** Users already in the room do not enter it. *)
Lemma steady_refine A B h h' :
  (forall w r, A w r -> (exists v, views h !! w = Some v /\ v_room v = Some r) \/ B w r) -> steady A h h' -> steady B h h'.
Proof.
  intros HAB H Hok. destruct (H Hok) as (? & ? & Hn). split; [done|]. split; [done|].
  intros u v r Hv Hr. destruct (Hn u v r Hv Hr) as [|HA]; [by left|by apply HAB].
Qed.

#[local] Hint Resolve place_steady : hub.
Lemma enter_steady u target : keeps (steady (only u target)) (enter u target).
Proof. unfold enter. kept. Qed.
#[local] Hint Resolve enter_steady : hub.

Definition calm (h h' : Hub) : Prop := quiet h h' /\ same_core h h'.
#[export] Instance calm_order : PreOrder calm.
Proof. split; [by split; reflexivity|]. intros ? ? ? [] []. split; by etrans. Qed.

Lemma calm_keeps {E A} (m : M E A) : keeps quiet m -> keeps same_core m -> keeps calm m.
Proof. intros Hq Hc h. by split. Qed.

Lemma calm_step {E A B} (m : M E A) (k : A -> M E B) h0 h r h' : keeps calm m -> calm h0 h -> (m ≫= k) h = (r, h') ->
  (exists a h1, calm h0 h1 /\ m h = (inl a, h1) /\ k a h1 = (r, h')) \/ (calm h0 h' /\ exists e, r = inr e).
Proof.
  intros Hm H0 [(a & h1 & E1 & H)|(e & E1 & ->)]%bind_inv; [left|right].
  - exists a, h1. split; [|done]. etrans; [done|by eapply keeps_run].
  - split; [|by eexists]. etrans; [done|by eapply keeps_run].
Qed.

#[local] Hint Resolve core_password : hub.
Lemma calm_steady A h h' : calm h h' -> steady A h h'.
Proof. intros [Hq _]. by apply quiet_steady_rel. Qed.

(** A move allowed from an unchanged hub. *)
Lemma calm_then_only B u t h h1 h' : calm h h1 -> steady (only u t) h1 h' ->
  (forall r, t = Some r -> (exists v, views h !! u = Some v /\ v_room v = Some r) \/ B u r) -> steady B h h'.
Proof.
  intros Hc Hst HB. eapply steady_refine; [|etrans; [by apply calm_steady|exact Hst]].
  intros w r [-> ->]. by apply HB.
Qed.

(** Runs the next step of [H], which is calm, from a hub that is calm since [h0]. *)
Ltac calm_next H h0 a h1 Hc E :=
  apply (calm_step _ _ h0) in H as [(a & h1 & Hc & E & H)|[? _]];
    [|by apply calm_steady|apply calm_keeps; kept|first [reflexivity|assumption]].

Lemma join_steady u target password h :
  steady (fun w r => only u target w r /\ free_to_enter h u r) h (snd (join u target password h)).
Proof.
  destruct (join u target password h) as [r h'] eqn:H. cbn [snd]. unfold join in H.
  calm_next H h t h1 Hc1 E1. calm_next H h moving h2 Hc2 E2. calm_next H h held h3 Hc3 E3.
  destruct held; cbn [negb] in H; [|by apply calm_steady; injection H as _ <-].
  calm_next H h checked h4 Hc4 E4.
  destruct target as [room|].
  - rewrite run_bind in H. destruct (password_to_enter u room h4) as [[hash|x] h5] eqn:Ep; rewrite run_bind in H; rewrite Ep in H;
      apply password_to_enter_inv in Ep as [-> Hp]; [|injection H as _ <-; by apply calm_steady].
    unfold mret at 1, M_ret at 1 in H. destruct hash as [hash|]; cbn [fmap option_fmap option_map] in H.
    + (* password work: nobody moves yet *)
      apply calm_steady. transitivity h4; [done|]. eapply keeps_run; [|exact H].
      apply calm_keeps; kept.
    + apply bind_inv in H as [(resp & h5 & He & [= _ <-])|(x & He & _)].
      all: apply (keeps_run _ _ _ _ _ (enter_steady u (Some room))) in He;
        eapply calm_then_only; [done|done|]; intros room' [= <-].
      all: destruct Hp as [Hf|Hin]; [right; split; [done|eapply core_free; [apply Hc4|done]]|left; eapply core_in; [apply Hc4|done]].
  - rewrite run_bind in H. cbn [mret M_ret] in H. unfold mret at 1, M_ret at 1 in H.
    apply (calm_then_only _ u None h h4 h'); [done| |done].
    apply bind_inv in H as [(resp & h5 & He & [= _ <-])|(x & He & _)]; by eapply keeps_run; [apply enter_steady|].
Qed.

Lemma finish_join_steady u room hash matched h :
  steady (fun w r => w = u /\ r = room /\ matched = true /\ (free_to_enter h u r \/ locked_with h r (Some hash))) h
    (snd (finish_join u room hash matched h)).
Proof.
  destruct (finish_join u room hash matched h) as [r h'] eqn:H. cbn [snd]. unfold finish_join in H.
  destruct matched; cbn [negb] in H.
  2:{ apply calm_steady. eapply keeps_run; [|exact H]. apply calm_keeps; kept. }
  calm_next H h done_ h1 Hc1 E1. apply bind_inv in H as [(current & h2 & Ep & H)|(x & Ep & ->)];
    apply password_to_enter_inv in Ep as [-> Hp]; [|by apply calm_steady].
  destruct (match current with Some current => bool_decide (current <> hash) | None => false end) eqn:Hd;
    [injection H as _ <-; by apply calm_steady|].
  apply (keeps_run _ _ _ _ _ (enter_steady u (Some room))) in H. eapply calm_then_only; [done|done|].
  intros room' [= <-]. destruct current as [current|].
  - apply bool_decide_eq_false in Hd. apply dec_stable in Hd as ->. right. do 3 (split; [done|]). right.
    destruct Hp as (e & He & Hh). exists e. split; [|done]. by rewrite <- (sc_rooms _ _ (proj2 Hc1)).
  - destruct Hp as [Hf|Hin]; [right|left; eapply core_in; [apply Hc1|done]]. do 3 (split; [done|]). left.
    eapply core_free; [apply Hc1|done].
Qed.

(** ** Reconnecting *)

Lemma rejoin_steady {E} u room : keeps (steady (only u (Some room))) (rejoin (E := E) u room).
Proof. unfold rejoin. kept. Qed.

Lemma evict_locks {E} u reason : keeps same_locks (evict (E := E) u reason).
Proof. apply unmoved_evict; [apply same_locks_unmoved|by intros]. Qed.

(** The role in the database. *)
Definition row_manages (h : Hub) (u : UserId) : Prop :=
  exists r, users (h_db h) !! as_i64 u = Some r /\ can_manage_rooms (default User (from_rank (u_role r))) = true.

(** Who is let back into [r]: it is unlocked, they were last in it, or they manage rooms. *)
Definition let_back (h : Hub) (u : UserId) (r : RoomId) : Prop :=
  locked_with h r None \/ row_manages h u \/ h_last_joined h !! u = Some r.

Lemma db_user_run u h a h' : db_call (Database.user db_fault u) h = (inl a, h') ->
  match a with
  | Some row => exists r, users (h_db h) !! as_i64 u = Some r /\ user_row (as_i64 u) r = Some row
  | None => True
  end.
Proof.
  unfold db_call, Database.user, query, transaction. destruct (db_fault (h_tick h)); [done|].
  destruct (users (h_db h) !! as_i64 u) as [r|] eqn:Hr; cbn; [|by intros [= <- _]].
  destruct (user_row (as_i64 u) r) as [row|] eqn:Hrow; cbn; intros [= <- _]. by exists r.
Qed.

Lemma user_row_role id r row : user_row id r = Some row ->
  ur_role row = default User (from_rank (u_role r)) /\ ur_id row = as_u64 id.
Proof. unfold user_row. cbv zeta. destruct (length (u_pubkey r) =? 32)%nat; [|done]. by intros [= <-]. Qed.

Lemma as_u64_as_i64 u : is_u64 u -> as_u64 (as_i64 u) = u.
Proof.
  unfold is_u64, u64_max, as_u64, as_i64, wrap64. intros Hu. destruct (Z.leb_spec u i64_max); unfold i64_max in *.
  - apply Z.mod_small. lia.
  - replace (u - 18446744073709551616) with (u + (-1) * 18446744073709551616) by lia.
    rewrite Z.mod_add by lia. apply Z.mod_small. lia.
Qed.

Lemma may_rejoin_let_back h h5 u row : e_password_hash <$> h_rooms h5 = e_password_hash <$> h_rooms h ->
  h_last_joined h5 = h_last_joined h -> (exists s, h_sessions h5 !! u = Some s /\ s_row s = row) ->
  (can_manage_rooms (ur_role row) = true -> row_manages h u) -> forall r, may_rejoin h5 u r = true -> let_back h u r.
Proof.
  intros El Ej (s & Hs & Hsr) Hman r. unfold may_rejoin. rewrite Hs, Hsr, Ej, !orb_true_iff. intros [[H|H]|H].
  - left. apply (f_equal (.!! r)) in El. rewrite !lookup_fmap in El. destruct (h_rooms h5 !! r) as [e5|]; [|done].
    apply bool_decide_eq_true in H. cbn in El. rewrite H in El. symmetry in El. apply fmap_Some in El as (e & ? & ?). by exists e.
  - right. left. auto.
  - right. right. by apply bool_decide_eq_true in H.
Qed.

Lemma connect_steady row c want h : is_u64 (ur_id row) -> h_next_conn h < u64_max ->
  steady (fun w r => w = ur_id row /\ want = Some r /\ let_back h w r) h (snd (connect row c want h)).
Proof.
  intros Hid Hnext. apply steady_ok. intros _. destruct (connect row c want h) as [res h'] eqn:H. cbn [snd]. unfold connect in H. cbv zeta in H.
  set (u := ur_id row) in *.
  calm_next H h found h1 Hc1 E1. apply db_user_run in E1.
  destruct (current ← found; if decide (ur_pubkey current = ur_pubkey row) then Some current else None) as [row'|] eqn:Hcur;
    [|injection H as _ <-; by apply calm_steady].
  destruct found as [row0|]; [|done]. cbn in Hcur. destruct (decide (ur_pubkey row0 = ur_pubkey row)); [|done]. injection Hcur as ->.
  destruct E1 as (rec & Hrec & Hrow). apply user_row_role in Hrow as [Hrole Hid']. rewrite as_u64_as_i64 in Hid' by done.
  calm_next H h seen h2 Hc2 E2. calm_next H h unit_ h3 Hc3 E3. rewrite run_bind in H. cbn [gets] in H.
  rewrite run_bind in H. cbn [gets] in H. destruct (_ && _); [injection H as _ <-; by apply calm_steady|].
  apply step_safe in H as ([] & h4 & Hev & H); [|safely].
  rewrite run_bind in H. cbn [modify] in H. rewrite run_bind in H. cbn [gets] in H. rewrite run_bind in H. cbn [modify] in H.
  set (h5 := upd_sessions _ _) in *.
  assert (steady nobody h h4) as Hst4.
  { etrans; [by apply calm_steady|]. by eapply keeps_run; [apply evict_steady|]. }
  pose proof (evict_gone (E := DbError) u (lit "you signed in from somewhere else") h3) as Hgone. rewrite Hev in Hgone. cbn [snd] in Hgone.
  pose proof (keeps_run _ _ _ _ _ (evict_locks u _) Hev) as Hlocks.
  assert (h_next_conn h4 = h_next_conn h) as En.
  { rewrite (sl_next _ _ Hlocks). apply (q_next_conn _ _ (proj1 Hc3)). }
  assert (steady nobody h h5) as Hst5.
  { etrans; [exact Hst4|]. apply insert_session_steady; [done|done|by rewrite En]. }
  rewrite run_bind in H. cbn [gets] in H.
  assert (forall r, may_rejoin h5 u r = true -> let_back h u r) as Hmay.
  { apply (may_rejoin_let_back h h5 u row').
    - etrans; [apply (sl_hash _ _ Hlocks)|]. by rewrite (sc_rooms _ _ (proj2 Hc3)).
    - etrans; [apply (sl_joined _ _ Hlocks)|]. by rewrite (sc_joined _ _ (proj2 Hc3)).
    - eexists. unfold h5. cbn. rewrite lookup_insert_eq. done.
    - intros Hm. exists rec. split; [done|]. by rewrite <- Hrole. }
  assert (forall rr h6, (match (room ← want; if may_rejoin h5 u room then Some room else None) with
      | Some room => rejoin (E := DbError) u room | None => mret None end) h5 = (rr, h6) ->
      steady (fun w r => w = u /\ want = Some r /\ let_back h w r) h h6) as Hst6.
  { intros rr h6 Hre. etrans; [eapply steady_weaken; [|exact Hst5]; by intros ? ? []|].
    destruct want as [room|]; cbn in Hre; [|by injection Hre as _ <-].
    destruct (may_rejoin h5 u room) eqn:Hok; [|by injection Hre as _ <-].
    apply (keeps_run _ _ _ _ _ (rejoin_steady u room)) in Hre. eapply steady_weaken; [|exact Hre].
    intros w r0 [-> [= <-]]. auto. }
  apply bind_inv in H as [(rejoined & h6 & Hre & H)|(x & Hre & ->)]; apply Hst6 in Hre; [|done].
  etrans; [exact Hre|]. apply quiet_steady_rel. eapply keeps_run; [|exact H]. kept.
Qed.

(** ** Requests *)

(** Who a request may let in. *)
Definition request_enters (h : Hub) (u : UserId) (request : Request) (w : UserId) (r : RoomId) : Prop :=
  w = u /\ (exists password, request = JoinRoom r password) /\ free_to_enter h u r.
Definition done_enters (h : Hub) (u : UserId) (d : PasswordDone) (w : UserId) (r : RoomId) : Prop :=
  w = u /\ exists hash, d = DoneJoin r hash true /\ (free_to_enter h u r \/ locked_with h r (Some hash)).

Lemma core_require_current u c : keeps same_core (require_current u c).
Proof. unfold require_current. kept. Qed.
#[local] Hint Resolve core_require_current : hub.

Lemma create_room_steady u name password : keeps (steady nobody) (hub_create_room u name password).
Proof. unfold hub_create_room. kept. Qed.
#[local] Hint Resolve create_room_steady : hub.

Lemma weaken_keeps A B {E C} (m : M E C) : (forall u r, A u r -> B u r) -> keeps (steady A) m -> keeps (steady B) m.
Proof. intros HAB Hm h. by eapply steady_weaken. Qed.

Lemma steady_done A m : keeps (steady A) m -> keeps (steady A) (done m).
Proof. intros Hm. unfold done. kept. Qed.

Lemma leave_steady u : keeps (steady nobody) (join u None None).
Proof. intros h. eapply steady_weaken; [|apply join_steady]. by intros w r [[-> ?] _]. Qed.
#[local] Hint Resolve leave_steady : hub.

(** Everything but joining moves nobody into a room. *)
Lemma other_request_steady u c request : (forall r password, request <> JoinRoom r password) ->
  keeps (steady nobody) (dispatch u c request).
Proof.
  intros Hno. unfold dispatch. cbv zeta.
  apply keeps_bind; [apply _|kept|intros []].
  apply keeps_bind; [apply _|destruct request; kept|intros free].
  apply keeps_bind; [apply _|kept|intros allowed]. destruct allowed; cbn [negb]; [|kept].
  destruct request as [room password| | | | | | | | | | | | | | | | | | | | ]; [by destruct (Hno room password)|..];
    try (match goal with |- keeps _ (done _) => apply steady_done end); solve [eauto 4 with hub nocore].
Qed.

Lemma dispatch_steady u c request h : steady (request_enters h u request) h (snd (dispatch u c request h)).
Proof.
  assert ((exists r password, request = JoinRoom r password) \/ forall r password, request <> JoinRoom r password) as [(room & password & ->)|Hno]
    by (destruct request; try (right; intros ? ? ?; discriminate); left; by eexists _, _).
  2:{ eapply steady_weaken; [|by apply other_request_steady]. by intros ? ? []. }
  destruct (dispatch u c (JoinRoom room password) h) as [r h'] eqn:H. cbn [snd]. unfold dispatch in H. cbv zeta in H.
  calm_next H h unit_ h1 Hc1 E1. calm_next H h free h2 Hc2 E2. calm_next H h allowed h3 Hc3 E3.
  destruct allowed; cbn [negb] in H; [|injection H as _ <-; by apply calm_steady].
  pose proof (join_steady u (Some room) password h3) as Hj. rewrite H in Hj. cbn [snd] in Hj.
  eapply steady_weaken; [|etrans; [by apply calm_steady|exact Hj]].
  intros w r0 [[-> [= <-]] Hf]. split; [done|]. split; [by eexists|]. eapply core_free; [apply Hc3|done].
Qed.

Lemma finish_steady u c d h : steady (done_enters h u d) h (snd (finish u c d h)).
Proof.
  destruct (finish u c d h) as [r h'] eqn:H. cbn [snd]. unfold finish in H. calm_next H h unit_ h1 Hc1 E1.
  destruct d as [room hash matched|name hash|room hash].
  - pose proof (finish_join_steady u room hash matched h1) as Hj. rewrite H in Hj. cbn [snd] in Hj.
    eapply steady_weaken; [|etrans; [by apply calm_steady|exact Hj]].
    intros w r0 (-> & -> & -> & Hf). split; [done|]. exists hash. split; [done|].
    destruct Hf as [Hf|(e & He & ?)]; [left; eapply core_free; [apply Hc1|done]|right].
    exists e. split; [|done]. by rewrite <- (sc_rooms _ _ (proj2 Hc1)).
  - apply (steady_weaken nobody); [by intros ? ? []|]. etrans; [by apply calm_steady|]. eapply keeps_run; [|exact H]. kept.
  - apply quiet_steady_rel. etrans; [apply Hc1|]. eapply keeps_run; [|exact H]. kept.
Qed.

End Core.
