(* ===== verification/AuthFacts.v ===== *)
(** * Enrollment runs and the tries of an invite

    The tasks of enrolling connections interleave at the hub's lock; whatever they do in
    whatever order, an invite's secret is tried at most [INVITE_TRIES] times, and the last run
    of a spent invite burns it. *)
From S2P Require Import Prelude Float64 Buckets Ids Frame Invite Messages Limits RoomPassword Sfu Crypto Database DatabaseFacts.
From S2P Require Import HubState Hub Auth HubLogic HubFacts HubSteps HubEntry.
Open Scope Z_scope.

(** ** Tries *)

Section Tries.
Context {env : Env}.

(** What the tasks of enrolling connections do, in any order. *)
Inductive run_op :=
  | OpBegin (source : SourceKey) (code_id : str)
  | OpComplete (source : SourceKey) (pubkey : PublicKey) (code_id name : str) (now : Z) (invite : option InviteRow) (exchanged : bool)
  | OpDrop (code_id : str) (minted_by : option UserId).

Definition run_one (op : run_op) (st : ServerState) : ServerState :=
  match op with
  | OpBegin source code_id => snd (begin_run source code_id st)
  | OpComplete source pubkey code_id name now invite exchanged =>
      snd (complete_run source pubkey code_id name now invite exchanged st)
  | OpDrop code_id minted_by => with_hub (snd (drop_run code_id minted_by (sv_hub st))) st
  end.

(** Whether [op] lets a client try the secret of [code]. *)
Definition grants (code : str) (op : run_op) (st : ServerState) : bool :=
  match op with
  | OpBegin source code_id =>
      match fst (begin_run source code_id st) with inl (Some _, _) => bool_decide (code_id = code) | _ => false end
  | _ => false
  end.

Fixpoint granted (code : str) (ops : list run_op) (st : ServerState) : Z :=
  match ops with
  | [] => 0
  | op :: ops => (if grants code op st then 1 else 0) + granted code ops (run_one op st)
  end.

(** The tries an invite has left. *)
Definition tries_left (code : str) (h : Hub) : Z :=
  match invites (h_db h) !! code with Some i => Z.max 0 (INVITE_TRIES - i_failures i) | None => 0 end.

(** A step that gives no invite a try back. *)
Definition no_more (code : str) (h h' : Hub) : Prop := tries_left code h' <= tries_left code h.

#[export] Instance no_more_order code : PreOrder (no_more code).
Proof. split; unfold no_more; [intros ?; lia|intros ? ? ? ? ?; lia]. Qed.

Lemma same_invites_no_more code h h' : invites (h_db h') = invites (h_db h) -> no_more code h h'.
Proof. intros E. unfold no_more, tries_left. rewrite E. lia. Qed.

(** The invites are left alone. *)
Definition same_invites (h h' : Hub) : Prop := invites (h_db h') = invites (h_db h).
Lemma same_invites_unmoved : unmoved same_invites.
Proof. split; try done. split; [done|]. intros ? ? ? ? ?. unfold same_invites in *. congruence. Qed.
Definition same_runs (h h' : Hub) : Prop := h_invite_runs h' = h_invite_runs h.
Lemma same_runs_unmoved : unmoved same_runs.
Proof. split; try done. split; [done|]. intros ? ? ? ? ?. unfold same_runs in *. congruence. Qed.
Local Instance same_invites_order : PreOrder same_invites := um_order _ same_invites_unmoved.

Lemma invites_last_joined {E} f : keeps same_invites (modify (E := E) (upd_last_joined f)). Proof. by intros h. Qed.
Lemma invites_alter {E} f u : keeps same_invites (modify (E := E) (upd_sessions (alter f u))). Proof. by intros h. Qed.

Lemma invites_role_changed {E} u r : keeps same_invites (role_changed (E := E) u r).
Proof.
  unfold role_changed, announce_presence.
  kept; first [apply invites_last_joined|apply invites_alter|apply unmoved_emit_all|apply unmoved_emit_to|apply unmoved_listers];
    apply same_invites_unmoved.
Qed.

Lemma db_invites {A} (m : DbM A) h r h' : db_call m h = (r, h') ->
  exists n, m (h_db h) (h_tick h) = (r, h_db h', n) /\ h_tick h' = n /\ h_invite_runs h' = h_invite_runs h.
Proof. unfold db_call. destruct (m (h_db h) (h_tick h)) as [[r0 d] n]. intros [= <- <-]. by exists n. Qed.

(** Reading changes nothing. *)
Lemma query_run {A} (f : Database -> option A) h r h' : db_call (query db_fault f) h = (r, h') ->
  h_db h' = h_db h /\ (forall a, r = inl a -> f (h_db h) = Some a).
Proof.
  unfold db_call, query, transaction. destruct (db_fault (h_tick h)); [by intros [= <- <-]|].
  destruct (f (h_db h)) as [a|]; cbn; intros [= <- <-]; (split; [done|]); [by intros ? [= <-]|done].
Qed.

(** A live invite is one [claim_try] would claim. *)
Definition live (i : invite_rec) (now : Z) : Prop := now < as_u64 (i_expires_at i) /\ i_failures i < INVITE_TRIES.
Definition one_failure (i : invite_rec) : invite_rec :=
  mkInviteRec (i_secret i) (i_minted_by i) (i_expires_at i) (i_failures i + 1).

Lemma claim_try_run code now h r h' : claim_try code now h = (r, h') ->
  match r with
  | inl (Some i) => exists rec, invites (h_db h) !! code = Some rec /\ live rec now /\ ir_secret i = i_secret rec /\
      invites (h_db h') = alter one_failure code (invites (h_db h)) /\
      h_invite_runs h' = start_run (h_invite_runs h) code
  | _ => same_invites h h' /\ h_invite_runs h' = h_invite_runs h
  end.
Proof.
  unfold claim_try. intros H.
  assert (forall r1 h1, (if (length code =? ID_CHARS)%nat
      then i ← map_err internal_refusal (db_call (Database.invite db_fault code));
           mret (i ← i; if (now <? ir_expires_at i) && (ir_failures i <? INVITE_TRIES) then Some i else None)
      else mret None) h = (r1, h1) ->
    same_invites h h1 /\ h_invite_runs h1 = h_invite_runs h /\
    forall i, r1 = inl (Some i) -> exists rec, invites (h_db h) !! code = Some rec /\ live rec now /\ ir_secret i = i_secret rec) as Hread.
  { intros r1 h1. destruct (_ =? _)%nat; [|by intros [= <- <-]]. intros H1.
    apply bind_inv in H1 as [(found & h2 & H1 & [= <- <-])|(e & H1 & ->)]; unfold map_err in H1;
      destruct (db_call (Database.invite db_fault code) h) as [[f|x] h3] eqn:Ed; simplify_eq;
      pose proof (query_run _ _ _ _ Ed) as [Edb Hf]; apply db_invites in Ed as (n & _ & _ & Eruns).
    2: { split; [unfold same_invites; congruence|]. by split. }
    split; [unfold same_invites; congruence|]. split; [done|]. intros i [= Hi].
    specialize (Hf _ eq_refl). injection Hf as Hf. destruct (invites (h_db h) !! code) as [rec|]; cbn in Hf; subst found; [|done].
    cbn in Hi. destruct (Z.ltb_spec now (as_u64 (i_expires_at rec))); [|done].
    destruct (Z.ltb_spec (i_failures rec) INVITE_TRIES); [|done]. injection Hi as <-. exists rec. by repeat split. }
  apply bind_inv in H as [([i|] & h1 & H1 & H)|(e & H1 & ->)]; destruct (Hread _ _ H1) as (Es & Er & Hi); [| |done].
  2: { injection H as <- <-. done. }
  destruct (Hi i eq_refl) as (rec & Hrec & Hlive & Hsec). clear Hread H1.
  apply bind_inv in H as [([] & h2 & H2 & H)|(e & H2 & ->)]; unfold map_err in H2;
    destruct (db_call (consume_invite_try db_fault code) h1) as [[u|x] h3] eqn:Ed; simplify_eq;
    pose proof (db_invites _ _ _ _ Ed) as (n & Hn & _ & Eruns); unfold consume_invite_try, execute, transaction in Hn;
    destruct (db_fault (h_tick h1)); cbn in Hn; simplify_eq.
  2: { split; [unfold same_invites in *; congruence|congruence]. }
  rewrite run_bind in H. cbn [modify] in H. injection H as <- <-. exists rec. do 3 (split; [done|]). split.
  - cbn. rewrite <- H0. cbn. unfold one_failure. by rewrite Es.
  - cbn. by rewrite Eruns, Er.
Qed.

Lemma tries_left_le code h h' : (forall i', invites (h_db h') !! code = Some i' -> invites (h_db h) !! code = Some i') ->
  no_more code h h'.
Proof.
  intros H. unfold no_more, tries_left. destruct (invites (h_db h') !! code) as [i'|]; [by rewrite (H i')|].
  destruct (invites (h_db h) !! code); lia.
Qed.

Lemma begin_tries code source code_id st :
  (if grants code (OpBegin source code_id) st then 1 else 0) + tries_left code (sv_hub (snd (begin_run source code_id st)))
  <= tries_left code (sv_hub st).
Proof.
  unfold grants, begin_run. destruct (is_full (sv_hub st)); [cbn; lia|]. cbv zeta.
  destruct (begin _ _ _) as [[] limiter]; cbn [negb fst snd]; [|unfold tries_left; cbn; lia].
  destruct (claim_try _ _ _) as [[[i|]|e] h] eqn:E; apply claim_try_run in E; cbn [fst snd sv_hub with_hub count_refusal].
  - destruct E as (rec & Hrec & [_ Hlive] & _ & Hinv & _). cbn in Hrec, Hinv. unfold tries_left. cbn. rewrite Hinv.
    case_bool_decide as Hc; [subst code_id|].
    + rewrite lookup_alter_eq, Hrec. cbn. lia.
    + rewrite lookup_alter_ne by done. destruct (invites _ !! code); lia.
  - destruct E as [E _]. cbn. apply (same_invites_no_more code) in E. exact E.
  - destruct E as [E _]. cbn. apply (same_invites_no_more code) in E. exact E.
Qed.

Lemma enroll_invites pubkey code_id name now d n r d' n' c i :
  enroll db_fault pubkey code_id name now d n = (r, d', n') -> invites d' !! c = Some i -> invites d !! c = Some i.
Proof.
  intros He. assert (d' = (after (enroll db_fault pubkey code_id name now) d n).1) as -> by (unfold after; by rewrite He).
  clear He. rewrite enroll_after.
  destruct (transaction_after db_fault (enroll_tx pubkey code_id name now) d n) as [->|(a & d1 & H & ->)]; [done|].
  assert (invites d1 = invites d \/ invites d1 = delete code_id (invites d)) as [->| ->]; [|done|by intros [_ ?]%lookup_delete_Some].
  revert H. unfold enroll_tx. destruct (invites d !! code_id) as [rec|]; [|intros [= _ <-]; by left].
  destruct (negb _); [intros [= _ <-]; by left|]. right. revert H. destruct (find_pubkey _ pubkey) as [id|].
  - destruct (users _ !! id); cbn; [|done]. case_match; by intros [= _ <-].
  - unfold insert_user. case_match; cbn; [|done]. by intros [= _ <-].
Qed.

Lemma complete_tries code source pubkey code_id name now invite exchanged st :
  no_more code (sv_hub st) (sv_hub (snd (complete_run source pubkey code_id name now invite exchanged st))).
Proof.
  unfold complete_run. destruct (_ || _); [cbn; reflexivity|].
  destruct (db_call _ _) as [[[enrolled|]|e] h] eqn:E; apply db_invites in E as (n & En & _);
    assert (no_more code (sv_hub st) h) as Hle by (apply tries_left_le; intros i'; by eapply enroll_invites); [|done..].
  cbn. etrans; [exact Hle|]. apply same_invites_no_more.
  match goal with |- invites (h_db (snd (?m h))) = _ => assert (keeps same_invites m) as Hk; [|apply Hk] end.
  destruct enrolled; [apply unmoved_listers, same_invites_unmoved|apply invites_role_changed|by intros h0].
Qed.

Lemma drop_tries code code_id minted_by h : no_more code h (snd (drop_run code_id minted_by h)).
Proof.
  match goal with |- no_more _ _ (snd (?m h)) => assert (keeps (no_more code) m) as Hk; [|apply Hk] end.
  unfold drop_run. cbv zeta. kept.
  - intros h0. apply same_invites_no_more. done.
  - intros h0. destruct (db_call _ h0) as [r h1] eqn:E. apply query_run in E as [E _]. apply same_invites_no_more. cbn. by rewrite E.
  - intros h0. destruct (db_call _ h0) as [r h1] eqn:E. cbn. apply db_invites in E as (n & E & _).
    apply tries_left_le. intros i'. revert E. unfold delete_invite, execute, transaction. destruct (db_fault _); intros [= _ <-]; [done|].
    cbn. by intros [_ ?]%lookup_delete_Some.
  - intros h0. apply same_invites_no_more. apply unmoved_emit_to, same_invites_unmoved.
Qed.

(** C37: Whatever the tasks of enrolling connections do, in whatever order, with however many
    connections and sources at once and whichever transactions fail, an invite's secret is
    offered for trying at most as often as it has tries left, so a client that does not know
    it makes at most [INVITE_TRIES] guesses over the invite's life. *)
Theorem invite_secrets_are_tried_at_most_thrice (ops : list run_op) (code : str) (st : ServerState) :
  granted code ops st <= tries_left code (sv_hub st) /\
  (forall i, invites (h_db (sv_hub st)) !! code = Some i -> 0 <= i_failures i -> tries_left code (sv_hub st) <= INVITE_TRIES).
Proof.
  split.
  - assert (0 <= tries_left code (sv_hub (foldl (fun st op => run_one op st) st ops))) as Hpos
      by (unfold tries_left; case_match; lia).
    assert (granted code ops st + tries_left code (sv_hub (foldl (fun st op => run_one op st) st ops)) <= tries_left code (sv_hub st)); [|lia].
    clear Hpos. revert st. induction ops as [|op ops IH]; intros st; cbn [granted foldl]; [lia|]. specialize (IH (run_one op st)).
    assert ((if grants code op st then 1 else 0) + tries_left code (sv_hub (run_one op st)) <= tries_left code (sv_hub st)); [|lia].
    destruct op as [source code_id|source pubkey code_id name now invite exchanged|code_id minted_by].
    + apply begin_tries.
    + cbn [grants run_one]. pose proof (complete_tries code source pubkey code_id name now invite exchanged st) as H. unfold no_more in H. lia.
    + cbn [grants run_one with_hub sv_hub]. pose proof (drop_tries code code_id minted_by (sv_hub st)) as H. unfold no_more in H. lia.
  - intros i Hi Hf. unfold tries_left, INVITE_TRIES. rewrite Hi. lia.
Qed.

(** An invite without a try left. *)
Definition spent (i : invite_rec) : Prop := INVITE_TRIES <= i_failures i.

(** When a run ends, the invite is burned exactly if its tries are used up and no other
    run of it is in flight, unless a transaction fails; its minter is then told. *)
Theorem the_last_run_burns_a_spent_invite (code : str) (minted_by : option UserId) (h h' : Hub) (i : invite_rec) :
  drop_run code minted_by h = (inl (), h') -> (forall n, (h_tick h <= n)%nat -> db_fault n = false) ->
  invites (h_db h) !! code = Some i ->
  h_invite_runs h' = snd (finish_run (h_invite_runs h) code) /\
  (invites (h_db h') !! code = None <->
     spent i /\ fst (finish_run (h_invite_runs h) code) = true).
Proof.
  intros H Hok Hi. unfold spent. unfold drop_run in H. cbv zeta in H. rewrite run_bind in H. cbn [gets] in H. rewrite run_bind in H. cbn [modify] in H.
  destruct (finish_run (h_invite_runs h) code) as [last runs]. cbn [fst snd] in *. set (h1 := upd_invite_runs _ h) in *.
  destruct last; cbn [negb] in H; [|injection H as <-; split; [done|]; cbn; rewrite Hi; split; [done|by intros []]].
  rewrite run_bind in H. unfold attempt at 1 in H.
  destruct (db_call (Database.invite db_fault code) h1) as [found h2] eqn:Ed. pose proof (query_run _ _ _ _ Ed) as [Edb Hf].
  assert (found = inl (Some (mkInviteRow code (i_secret i) (as_u64 <$> i_minted_by i) (as_u64 (i_expires_at i)) (i_failures i)))) as ->.
  { revert Ed. unfold db_call, Database.invite, query, transaction. rewrite Hok by done. cbn. rewrite Hi. by intros [= <- _]. }
  pose proof (q_tick _ _ (keeps_run _ _ _ _ _ (quiet_db _ (grows_invite db_fault code)) Ed)) as Htick.
  apply db_invites in Ed as (n & _ & _ & Eruns). cbn in H.
  destruct (Z.leb_spec INVITE_TRIES (i_failures i)) as [Hge|Hlt]; cbn [negb] in H.
  2:{ injection H as <-. split; [done|]. rewrite Edb. cbn. rewrite Hi. split; [done|]. intros []. lia. }
  rewrite run_bind in H. unfold attempt, db_call, delete_invite, execute, transaction in H.
  rewrite (Hok (h_tick h2)) in H by (cbn in Htick; lia). cbn in H. set (h3 := upd_tick _ _) in H.
  assert (same_invites h3 h' /\ h_invite_runs h' = h_invite_runs h3) as [E1 E2].
  { destruct minted_by as [m|]; [|by injection H as <-].
    split; [eapply keeps_run; [|exact H]; apply unmoved_emit_to, same_invites_unmoved|].
    exact (keeps_run _ _ _ _ _ (unmoved_emit_to _ same_runs_unmoved m (InviteSpent code)) H). }
  rewrite E1, E2. unfold h3. cbn. rewrite lookup_delete_eq. split; [done|]. by split.
Qed.

End Tries.

(** A hub where the third run of an invite ends, and one whose invite has never been tried. *)
Definition a_code : str := replicate ID_CHARS 7.
Definition example_invite_hub (failures : Z) (runs : gmap (list Z) Z) : Hub :=
  upd_invite_runs (fun _ => runs)
    (hub_empty (mkDb ∅ 0 ∅ 0 (<[a_code := mkInviteRec [8] (Some 1) 1800000000 failures]> ∅) ∅ None None) []).

(** Four runs of one invite from four sources, two of them at once, none with the secret; the
    first three try it, with which its row is at its limit and the last to end burns it. *)
Definition a_source (n : Z) : SourceKey := V4 n.
Definition four_runs : list run_op :=
  [OpBegin (a_source 1) a_code; OpBegin (a_source 2) a_code; OpComplete (a_source 1) [1] a_code [65] 0 None false; OpDrop a_code (Some 1);
   OpBegin (a_source 3) a_code; OpComplete (a_source 2) [2] a_code [66] 0 None false; OpBegin (a_source 4) a_code; OpDrop a_code (Some 1); OpDrop a_code (Some 1)].
Definition an_invite_server : ServerState := mkServer (example_invite_hub 0 ∅) limiter_default ∅.
Lemma invite_secrets_are_tried_at_most_thrice_witness :
  @granted example_env a_code four_runs an_invite_server = 3 /\
  @granted example_env a_code four_runs an_invite_server <= tries_left a_code (example_invite_hub 0 ∅) /\ tries_left a_code (example_invite_hub 0 ∅) <= INVITE_TRIES.
Proof.
  split; [vm_compute; reflexivity|].
  destruct (@invite_secrets_are_tried_at_most_thrice example_env four_runs a_code an_invite_server) as [H1 H2]. split; [exact H1|].
  apply (H2 (mkInviteRec [8] (Some 1) 1800000000 0)); [vm_compute; reflexivity|cbn; lia].
Defined.

Lemma the_last_run_burns_a_spent_invite_witness :
  invites (h_db (snd (@drop_run example_env a_code (Some 1) (example_invite_hub 3 {[a_code := 1]})))) !! a_code = None.
Proof.
  apply (@the_last_run_burns_a_spent_invite example_env a_code (Some 1) (example_invite_hub 3 {[a_code := 1]})
    (snd (@drop_run example_env a_code (Some 1) (example_invite_hub 3 {[a_code := 1]}))) (mkInviteRec [8] (Some 1) 1800000000 3)).
  - vm_compute. reflexivity.
  - intros n _. reflexivity.
  - vm_compute. reflexivity.
  - split; [cbn; unfold spent, INVITE_TRIES; cbn; lia|vm_compute; reflexivity].
Defined.
