(* ===== verification/HubSessions.v ===== *)
(** * What the hub's handlers do to its sessions and rooms

    No handler but [Hub::connect] makes a session, gives one another connection or changes
    whose it is, and none makes more rooms than the server's cap: [fewer], kept by every
    handler and run.  What [Hub::connect] makes of the sessions, and how many it admits. *)
From S2P Require Import Prelude Float64 Buckets Ids Frame Invite Messages Limits RoomPassword Sfu Crypto Database DatabaseFacts.
From S2P Require Import HubState Hub Auth HubLogic HubFacts HubSteps HubEntry AuthFacts.
Open Scope Z_scope.

(** ** Sessions stay or go *)

Definition same_owner (s s' : Session) : Prop :=
  s_conn_id s' = s_conn_id s /\ ur_id (s_row s') = ur_id (s_row s) /\ ur_pubkey (s_row s') = ur_pubkey (s_row s).
(** Ids are those [AUTOINCREMENT] gives, which a cast to [u64] and back leaves as they are. *)
Definition fit (d : Database) : Prop := 0 <= user_seq d <= i64_max /\ forall id u, users d !! id = Some u -> 1 <= id <= user_seq d.
Lemma wf_fit d : db_wf d -> fit d.
Proof. intros W. pose proof (wf_user_seq d W). split; [done|]. intros id u Hu. by destruct (wf_users d W id u Hu). Qed.
Record fewer (h h' : Hub) : Prop := {
  fw_sessions u s' : h_sessions h' !! u = Some s' -> exists s, h_sessions h !! u = Some s /\ same_owner s s';
  fw_fit : fit (h_db h) -> fit (h_db h');
  fw_next : h_next_conn h' = h_next_conn h;
  fw_rooms : Z.of_nat (size (h_rooms h')) <= Z.max MAX_ROOMS (Z.of_nat (size (h_rooms h)))
}.

Lemma smaller_fewer h h' : h_sessions h' = h_sessions h -> h_db h' = h_db h -> h_next_conn h' = h_next_conn h ->
  (size (h_rooms h') <= size (h_rooms h))%nat -> fewer h h'.
Proof. intros E Ed En Er. split; [|by rewrite Ed|done|lia]. intros u s Hs. exists s. rewrite <- E. by split. Qed.
Lemma same_fewer h h' : h_sessions h' = h_sessions h -> h_db h' = h_db h -> h_next_conn h' = h_next_conn h -> h_rooms h' = h_rooms h -> fewer h h'.
Proof. intros ? ? ? E. apply smaller_fewer; try done. by rewrite E. Qed.
Lemma size_altered {V} (f : V -> V) r (m : gmap Z V) : size (alter f r m) = size m.
Proof. by rewrite <- !size_dom, dom_alter_L. Qed.
Lemma size_deleted {V} r (m : gmap Z V) : (size (delete r m) <= size m)%nat.
Proof. rewrite <- !size_dom, dom_delete_L. apply subseteq_size. set_solver. Qed.
Lemma size_inserted {V} r (v : V) (m : gmap Z V) : (size (<[r := v]> m) <= S (size m))%nat.
Proof. rewrite <- !size_dom, dom_insert_L, size_union_alt, size_singleton. pose proof (subseteq_size (dom m ∖ {[r]}) (dom m) ltac:(set_solver)). lia. Qed.
Lemma size_listed {V} (l : list (Z * V)) : (size (list_to_map (M := gmap Z V) l) <= length l)%nat.
Proof. induction l as [|[k v] l IH]; [done|]. cbn [list_to_map foldr length]. etrans; [apply size_inserted|]. cbn in *. lia. Qed.
Lemma fewer_alter u f h : (forall s, same_owner s (f s)) -> fewer h (upd_sessions (alter f u) h).
Proof.
  intros Hf. split; [|done|done|cbn; lia]. intros w s. cbn. destruct (decide (u = w)) as [->|Hne]; [|rewrite lookup_alter_ne by done; exists s; by split].
  rewrite lookup_alter_eq. destruct (h_sessions h !! w) as [s0|]; [|done]. intros [= <-]. by exists s0.
Qed.
Lemma fewer_delete u h : fewer h (upd_sessions (delete u) h).
Proof. split; [|done|done|cbn; lia]. intros w s. cbn. intros [_ Hs]%lookup_delete_Some. by exists s. Qed.
Lemma fewer_unmoved : unmoved fewer.
Proof.
  split; try (intros; by apply same_fewer).
  - split; [intros h; by apply same_fewer|]. intros a b c [Hab Fab Nab Rab] [Hbc Fbc Nbc Rbc]. split; [|tauto|congruence|lia]. intros u s Hs. destruct (Hbc u s Hs) as (t & Ht & ? & ? & ?).
    destruct (Hab u t Ht) as (r & Hr & ? & ? & ?). exists r. split; [done|]. split_and!; congruence.
  - intros u f h Hf. apply fewer_alter. intros s. destruct (Hf s) as [Er Ec]. unfold same_owner. by rewrite Er, Ec.
  - intros r f h _. apply smaller_fewer; try done. cbn. by rewrite size_altered.
  - intros d h Eu Es _ _ _. split; [intros u s Hs; by exists s| |done|cbn; lia]. unfold fit. cbn. by rewrite Eu, Es.
Qed.
#[export] Instance fewer_order : PreOrder fewer := um_order _ fewer_unmoved.

Lemma fewer_size h h' : fewer h h' -> (size (h_sessions h') <= size (h_sessions h))%nat.
Proof.
  intros Hf. rewrite <- !size_dom. apply subseteq_size. intros u [s Hs]%elem_of_dom. apply elem_of_dom. destruct (fw_sessions _ _ Hf u s Hs) as (s0 & ? & _). eauto.
Qed.

Section Fewer.
Context {env : Env}.

Lemma fewer_field {E} f : (forall h, h_sessions (f h) = h_sessions h /\ h_db (f h) = h_db h /\ h_next_conn (f h) = h_next_conn h /\ (size (h_rooms (f h)) <= size (h_rooms h))%nat) ->
  keeps fewer (modify (E := E) f).
Proof. intros Hf h. by apply smaller_fewer; apply Hf. Qed.

(** Database methods that leave ids fitting. *)
Definition fit_db {A} (m : DbM A) : Prop := forall d n, fit d -> fit (snd (fst (m d n))).
Lemma fit_transaction {A} (f : Database -> option (A * Database)) : (forall d a d', f d = Some (a, d') -> fit d -> fit d') -> fit_db (transaction db_fault f).
Proof. intros Hf d n Hd. unfold transaction. destruct (db_fault n); [done|]. destruct (f d) as [[a d']|] eqn:E; cbn; [by eapply Hf|done]. Qed.
Lemma fit_query {A} (f : Database -> option A) : fit_db (query db_fault f).
Proof. apply fit_transaction. intros d a d'. destruct (f d); cbn; [|done]. by intros [= _ <-]. Qed.
Lemma fit_execute f : (forall d, fit d -> fit (f d)) -> fit_db (execute db_fault f).
Proof. intros Hf. apply fit_transaction. intros d a d' [= _ <-]. apply Hf. Qed.
Lemma fit_bind {A B} (m : DbM A) (k : A -> DbM B) : fit_db m -> (forall a, fit_db (k a)) -> fit_db (m ≫= k).
Proof.
  intros Hm Hk d n Hd. specialize (Hm d n Hd). unfold mbind, DbM_bind. destruct (m d n) as [[[a|e] d'] n']; cbn in *; [|done]. by apply Hk.
Qed.
Lemma fit_alter f id d : fit d -> fit (set_users (alter f id) d).
Proof.
  intros [Hs Hu]. split; [done|]. intros k u. cbn. destruct (decide (id = k)) as [->|]; [|rewrite lookup_alter_ne by done; apply Hu].
  rewrite lookup_alter_eq. destruct (users d !! k) as [u0|] eqn:E; [|done]. intros _. by eapply Hu.
Qed.
Lemma fit_update id f : fit_db (execute db_fault (update_user id f)).
Proof. apply fit_execute. intros d. apply fit_alter. Qed.
#[local] Hint Extern 1 (fit_db _) => first [by apply fit_query | by apply fit_update | by apply fit_execute] : hub.
Lemma fit_allocated n : fit_db (allocate_media_ids db_fault n).
Proof. apply fit_transaction. intros d a d'. cbv zeta. case_match; by intros [= _ <-]. Qed.
Lemma fit_created name hash : fit_db (Database.create_room db_fault name hash).
Proof. apply fit_transaction. intros d a d'. unfold insert_room. case_match; cbn; [|done]. by intros [= _ <-]. Qed.
Lemma fit_minted i : fit_db (insert_invite db_fault i).
Proof. apply fit_transaction. intros d a d'. destruct (invites d !! _); by intros [= _ <-]. Qed.
Lemma fit_collected t : fit_db (delete_unused_blobs db_fault t).
Proof. apply fit_transaction. by intros d a d' [= _ <-]. Qed.
Lemma fit_used id n t : fit_db (invites_used db_fault id n t).
Proof. apply fit_bind; [apply fit_query|]. intros a. apply fit_bind; [apply fit_query|]. by intros b d k. Qed.
Lemma fit_removed l : fit_db (remove_users db_fault l).
Proof.
  apply fit_execute. induction l as [|id l IH]; intros d Hd; [done|]. cbn [foldl]. apply IH. destruct Hd as [Hs Hu]. split; [done|].
  intros k u. unfold remove_one. cbn. intros [_ Hk]%lookup_delete_Some.
  rewrite lookup_fmap in Hk. destruct (users d !! k) as [u0|] eqn:E; [|done]. by eapply Hu.
Qed.
Lemma fit_enrolled pubkey code name at_ : fit_db (Database.enroll db_fault pubkey code name at_).
Proof.
  apply fit_bind; [|intros [[id kind]|]; [apply fit_bind; [apply fit_query|]; by intros a d k|by intros d k]].
  apply fit_transaction. intros d a d'. unfold enroll_tx. destruct (invites d !! code) as [i|]; [|by intros [= _ <-]].
  destruct (negb _); [by intros [= _ <-]|]. intros H [Hs Hu]. cbv zeta in H. destruct (find_pubkey _ _) as [id|].
  - cbn in H. destruct (users d !! id) as [u|] eqn:E; [|done]. cbn in H. destruct (u_role u <? _); injection H as _ <-; [|done].
    split; [done|]. intros k w. cbn. intros [[<- _]|[_ Hk]]%lookup_insert_Some; [by eapply Hu|by eapply Hu].
  - unfold insert_user in H. cbn in H. destruct (Z.leb_spec (user_seq d + 1) i64_max); [|done]. injection H as _ <-.
    split; [cbn; lia|]. intros k w. cbn. intros [[<- _]|[_ Hk%Hu]]%lookup_insert_Some; lia.
Qed.
#[local] Hint Resolve fit_allocated fit_created fit_minted fit_collected fit_used fit_removed fit_enrolled : hub.

Lemma fewer_call {A} (m : DbM A) : fit_db m -> keeps fewer (db_call m).
Proof. intros Hm h. specialize (Hm (h_db h) (h_tick h)). unfold db_call. destruct (m _ _) as [[r d] n]. split; [|done|done|cbn; lia]. intros u s Hs. by exists s. Qed.
Lemma fewer_dbr {A} (m : DbM A) : fit_db m -> keeps fewer (db m). Proof. intros. by apply keeps_map_err, fewer_call. Qed.
Lemma fewer_now {E} : keeps fewer (now (E := E)). Proof. apply unmoved_tick, fewer_unmoved. Qed.
Lemma fewer_unix {E} : keeps fewer (unix_now (E := E)). Proof. apply unmoved_unix, fewer_unmoved. Qed.
Lemma fewer_random {E} : keeps fewer (random (E := E)). Proof. by intros h; apply same_fewer. Qed.
Lemma fewer_emit_to {E} u e : keeps fewer (emit_to (E := E) u e). Proof. apply unmoved_emit_to, fewer_unmoved. Qed.
Lemma fewer_emit_all {E} e : keeps fewer (emit_all (E := E) e). Proof. apply unmoved_emit_all, fewer_unmoved. Qed.
Lemma fewer_listers {E} e : keeps fewer (emit_user_list_change (E := E) e). Proof. apply unmoved_listers, fewer_unmoved. Qed.
Lemma fewer_broadcast {E} r x : keeps fewer (broadcast_peers (E := E) r x). Proof. apply unmoved_broadcast, fewer_unmoved. Qed.
Lemma fewer_rebuild {E} : keeps fewer (rebuild_routes (E := E)). Proof. apply unmoved_rebuild, fewer_unmoved. Qed.
Lemma fewer_bump l : keeps fewer (bump_epochs l). Proof. apply unmoved_bump, fewer_unmoved. Qed.
Lemma fewer_place u t : keeps fewer (place u t). Proof. apply unmoved_place, fewer_unmoved. Qed.
Lemma fewer_leave {E} u : keeps fewer (leave_room (E := E) u). Proof. apply unmoved_leave, fewer_unmoved. Qed.
Lemma fewer_evict {E} u r : keeps fewer (evict (E := E) u r).
Proof. apply unmoved_evict; [apply fewer_unmoved|apply fewer_delete]. Qed.
Lemma fewer_send {E} s e : keeps fewer (send (E := E) s e). Proof. apply unmoved_send, fewer_unmoved. Qed.
Lemma fewer_output {E} e : keeps fewer (output (E := E) e). Proof. apply unmoved_output, fewer_unmoved. Qed.
Lemma fewer_gone {E} u : keeps fewer (modify (E := E) (upd_sessions (delete u))). Proof. intros h. apply fewer_delete. Qed.
Lemma fewer_changed {E} f u : (forall s, same_owner s (f s)) -> keeps fewer (modify (E := E) (upd_sessions (alter f u))).
Proof. intros Hf h. by apply fewer_alter. Qed.
Lemma fewer_announce {E} u : keeps fewer (announce_presence (E := E) u).
Proof. unfold announce_presence. kept. apply fewer_emit_all. Qed.

Definition beside (upd : (Buckets f64 Z -> Buckets f64 Z) -> Hub -> Hub) : Prop := forall f h, h_sessions (upd f h) = h_sessions h /\ h_db (upd f h) = h_db h /\ h_next_conn (upd f h) = h_next_conn h /\ h_rooms (upd f h) = h_rooms h.
Lemma fewer_take {E} get upd u c t : beside upd -> keeps fewer (meter_take (E := E) get upd u c t).
Proof. intros Hm h. unfold meter_take. destruct (buckets_take _ _ _ _). by apply same_fewer; apply Hm. Qed.
Lemma fewer_holds {E} get upd u c t : beside upd -> keeps fewer (meter_holds (E := E) get upd u c t).
Proof. intros Hm h. unfold meter_holds. destruct (buckets_holds _ _ _ _). by apply same_fewer; apply Hm. Qed.

#[local] Hint Extern 1 (keeps fewer (modify (upd_sessions (alter _ _)))) => (apply fewer_changed; by intros) : hub.
#[local] Hint Extern 2 (keeps fewer (modify _)) => (apply fewer_field; intros; split_and!; first [done|by apply Nat.eq_le_incl, size_altered|apply size_deleted]) : hub.
#[local] Hint Extern 1 (beside _) => (intros ? ?; by split_and!) : hub.
#[local] Hint Resolve fewer_call fewer_dbr fewer_now fewer_unix fewer_random fewer_emit_to fewer_emit_all fewer_listers fewer_broadcast
  fewer_rebuild fewer_bump fewer_place fewer_leave fewer_evict fewer_send fewer_output fewer_gone fewer_announce fewer_take fewer_holds : hub.
Ltac fewer_by := cbv zeta; kept.

Lemma fewer_session u : keeps fewer (session u). Proof. unfold session. fewer_by. Qed.
#[local] Hint Resolve fewer_session : hub.
Lemma fewer_session_mut u f : (forall s, same_owner s (f s)) -> keeps fewer (session_mut u f).
Proof. intros Hf. unfold session_mut. kept. Qed.
#[local] Hint Extern 1 (keeps fewer (session_mut _ _)) => (apply fewer_session_mut; by intros) : hub.
Lemma fewer_role u : keeps fewer (role u). Proof. unfold role. fewer_by. Qed.
Lemma fewer_current u : keeps fewer (current_room u). Proof. unfold current_room. fewer_by. Qed.
Lemma fewer_entry r : keeps fewer (room_entry r). Proof. unfold room_entry. fewer_by. Qed.
Lemma fewer_stored u : keeps fewer (stored_user u). Proof. unfold stored_user. fewer_by. Qed.
Lemma fewer_require b : keeps fewer (require b). Proof. unfold require. fewer_by. Qed.
Lemma fewer_picture a : keeps fewer (require_picture a). Proof. unfold require_picture. fewer_by. Qed.
Lemma fewer_require_current u c : keeps fewer (require_current u c). Proof. unfold require_current. fewer_by. Qed.
Lemma fewer_name n : keeps fewer (checked_name n). Proof. unfold checked_name. fewer_by. Qed.
Lemma fewer_password p : keeps fewer (check_password_length p). Proof. unfold check_password_length. fewer_by. Qed.
#[local] Hint Resolve fewer_role fewer_current fewer_entry fewer_stored fewer_require fewer_picture fewer_require_current fewer_name fewer_password : hub.
Lemma fewer_enters u t : keeps fewer (enters_another_room u t). Proof. unfold enters_another_room. fewer_by. Qed.
Lemma fewer_to_enter u r : keeps fewer (password_to_enter u r). Proof. unfold password_to_enter. fewer_by. Qed.
#[local] Hint Resolve fewer_enters fewer_to_enter : hub.
Lemma fewer_enter u t : keeps fewer (enter u t). Proof. unfold enter. fewer_by. Qed.
#[local] Hint Resolve fewer_enter : hub.
Lemma fewer_join u t p : keeps fewer (join u t p). Proof. unfold join. fewer_by. Qed.
Lemma fewer_finish_join u r x m : keeps fewer (finish_join u r x m). Proof. unfold finish_join. fewer_by. Qed.
Lemma fewer_rejoin {E} u r : keeps fewer (rejoin (E := E) u r).
Proof. unfold rejoin. fewer_by; (apply fewer_holds || apply fewer_take); intros f h; by destruct a. Qed.
Lemma fewer_server_profile : keeps fewer announce_server_profile. Proof. unfold announce_server_profile. fewer_by. Qed.
Lemma fewer_may_manage u r : keeps fewer (may_manage_room u r). Proof. unfold may_manage_room. fewer_by. Qed.
Lemma fewer_store r p : keeps fewer (store_room_password r p). Proof. unfold store_room_password. fewer_by. Qed.
Lemma fewer_attempts n u t : keeps fewer (mint_attempts n u t). Proof. induction n; cbn [mint_attempts]; fewer_by. Qed.
#[local] Hint Resolve fewer_join fewer_finish_join fewer_rejoin fewer_server_profile fewer_may_manage fewer_store fewer_attempts : hub.
Lemma fewer_mint u t : keeps fewer (mint_invite u t). Proof. unfold mint_invite. fewer_by. Qed.
Lemma fewer_to_create u n : keeps fewer (room_to_create u n). Proof. unfold room_to_create. fewer_by. Qed.

(** A room is added only where there was place for one. *)
Lemma keeps_bind_post {E A B} (R : Hub -> Hub -> Prop) `{!PreOrder R} (m : M E A) (k : A -> M E B) :
  keeps R m -> (forall h a h', m h = (inl a, h') -> R h' (snd (k a h'))) -> keeps R (m ≫= k).
Proof.
  intros Hm Hk h. specialize (Hm h). rewrite run_bind. destruct (m h) as [[a|e] h'] eqn:E1; [|exact Hm]. etrans; [exact Hm|by eapply Hk].
Qed.
Lemma to_create_room u n h name h' : room_to_create u n h = (inl name, h') -> Z.of_nat (size (h_rooms h')) < MAX_ROOMS.
Proof.
  unfold room_to_create. intros H. do 3 (apply bind_inv in H as [(? & ? & _ & H)|(? & _ & ?)]; [|done]).
  rewrite run_bind in H. cbn [gets] in H. destruct (Z.leb_spec MAX_ROOMS (Z.of_nat (size (h_rooms x4)))); [done|]. by injection H as _ <-.
Qed.
Lemma fewer_add n x h : Z.of_nat (size (h_rooms h)) < MAX_ROOMS -> fewer h (snd (add_room n x h)).
Proof.
  intros Hs. unfold add_room. rewrite run_bind. destruct (db _ h) as [[id|e] h1] eqn:E1.
  2: by apply (keeps_run fewer) in E1; [|apply fewer_dbr, fit_created].
  assert (h_rooms h1 = h_rooms h) as Er.
  { revert E1. unfold db, map_err, db_call. destruct (Database.create_room _ _ _ _ _) as [[[?|?] ?] ?]; by intros [= _ <-]. }
  apply (keeps_run fewer) in E1; [|apply fewer_dbr, fit_created]. etrans; [exact E1|].
  rewrite run_bind. cbn [modify]. set (h2 := upd_rooms _ h1). transitivity h2.
  - split; [intros u s Hu; exists s; by split|done|done|]. cbn. pose proof (size_inserted id (mkRoomEntry n 0 x ∅) (h_rooms h1)). rewrite Er in *. lia.
  - match goal with |- fewer _ (snd (?m _)) => assert (keeps fewer m) as Hk; [|apply Hk] end. fewer_by.
Qed.
Lemma fewer_role_changed {E} u r : keeps fewer (role_changed (E := E) u r). Proof. unfold role_changed. fewer_by. Qed.
Lemma fewer_drop {E} l : keeps fewer (drop_users (E := E) l). Proof. unfold drop_users. fewer_by. Qed.
#[local] Hint Resolve fewer_mint fewer_to_create fewer_role_changed fewer_drop : hub.

(** ** Each request *)

Lemma fewer_set_profile u n a : keeps fewer (hub_set_profile u n a). Proof. unfold hub_set_profile. fewer_by. Qed.
Lemma fewer_server_name u n : keeps fewer (hub_set_server_name u n). Proof. unfold hub_set_server_name. fewer_by. Qed.
Lemma fewer_server_avatar u a : keeps fewer (hub_set_server_avatar u a). Proof. unfold hub_set_server_avatar. fewer_by. Qed.
Lemma fewer_set_avatar u b : keeps fewer (set_avatar u b). Proof. unfold set_avatar, collect_blobs. fewer_by. Qed.
Lemma fewer_get_avatar x : keeps fewer (get_avatar x). Proof. unfold get_avatar. fewer_by. Qed.
Lemma fewer_set_key u k : keeps fewer (hub_set_encryption_key u k). Proof. unfold hub_set_encryption_key. fewer_by. Qed.
Lemma fewer_set_media u m : keeps fewer (set_media u m). Proof. unfold set_media. fewer_by. Qed.
Lemma fewer_create u n p : keeps fewer (hub_create_room u n p). 
Proof.
  unfold hub_create_room. destruct p; [fewer_by|]. apply keeps_bind_post; [apply _|apply fewer_to_create|]. intros h a h' E. apply to_create_room in E.
  rewrite run_bind. pose proof (fewer_add a None h' E). by destruct (add_room a None h') as [[]].
Qed.
Lemma fewer_rename u r n : keeps fewer (hub_rename_room u r n). Proof. unfold hub_rename_room. fewer_by. Qed.
Lemma fewer_room_password u r p : keeps fewer (set_room_password u r p). Proof. unfold set_room_password. fewer_by. Qed.
Lemma fewer_delete_room u r : keeps fewer (hub_delete_room u r). Proof. unfold hub_delete_room. fewer_by. Qed.
Lemma fewer_create_invite u : keeps fewer (create_invite u). Proof. unfold create_invite. fewer_by. Qed.
Lemma fewer_list u : keeps fewer (list_users u). Proof. unfold list_users. fewer_by. Qed.
Lemma fewer_set_role u w r : keeps fewer (hub_set_role u w r). Proof. unfold hub_set_role. fewer_by. Qed.
Lemma fewer_remove u w c : keeps fewer (remove_user u w c). Proof. unfold remove_user. fewer_by. Qed.
Lemma fewer_kick u w r : keeps fewer (kick_from_room u w r). Proof. unfold kick_from_room. fewer_by. Qed.
Lemma fewer_watched u l : keeps fewer (set_watched u l). Proof. unfold set_watched. fewer_by. Qed.
Lemma fewer_keyframe u m k : keeps fewer (request_keyframe u m k). Proof. unfold request_keyframe. fewer_by. Qed.
Lemma fewer_publish u e w : keeps fewer (publish_key u e w). Proof. unfold publish_key. fewer_by. Qed.
Lemma fewer_free {E} u e : keeps fewer (free_key_publish (E := E) u e). Proof. unfold free_key_publish. fewer_by. Qed.
Lemma fewer_done m : keeps fewer m -> keeps fewer (done m). Proof. intros Hm. unfold done. kept. Qed.
#[local] Hint Resolve fewer_set_profile fewer_server_name fewer_server_avatar fewer_set_avatar fewer_get_avatar fewer_set_key fewer_set_media
  fewer_create fewer_rename fewer_room_password fewer_delete_room fewer_create_invite fewer_list fewer_set_role fewer_remove fewer_kick
  fewer_watched fewer_keyframe fewer_publish fewer_free fewer_done : hub.

Lemma fewer_request user conn request h : fewer h (snd (handle_request user conn request h)).
Proof.
  assert (keeps fewer (dispatch user conn request)) as Hk.
  { unfold dispatch. cbv zeta. apply keeps_bind; [apply _|kept|intros []]. apply keeps_bind; [apply _|destruct request; kept|intros free].
    apply keeps_bind; [apply _| |intros allowed].
    { destruct free; [kept|]. apply keeps_bind; [apply _|kept|intros t]. case_match; apply fewer_take; by intros. }
    destruct allowed; cbn [negb]; [|kept]. destruct request; kept. }
  specialize (Hk h). unfold handle_request. by destruct (dispatch user conn request h) as [[r|x] h'].
Qed.
Lemma fewer_resume user conn d h : fewer h (snd (resume user conn d h)).
Proof.
  assert (keeps fewer (finish user conn d)) as Hk.
  { unfold finish. apply keeps_bind; [apply _|kept|intros []]. destruct d as [r x m|n x|r x]; [kept| |kept].
    apply keeps_bind; [apply _|kept|intros x']. apply keeps_bind_post; [apply _|apply fewer_to_create|].
    intros h0 a h1 E. by eapply fewer_add, to_create_room. }
  specialize (Hk h). unfold resume. by destruct (finish user conn d h) as [[r|x] h'].
Qed.
Lemma fewer_inactive at_ : keeps fewer (remove_inactive at_). Proof. unfold remove_inactive. fewer_by. Qed.
Lemma fewer_flush {E} : keeps fewer (flush_keyframes (E := E)). Proof. unfold flush_keyframes. fewer_by. Qed.
Lemma fewer_disconnect {E} user conn : keeps fewer (disconnect (E := E) user conn). Proof. unfold disconnect. fewer_by. Qed.
Lemma fewer_run op st : fewer (sv_hub st) (sv_hub (run_one op st)).
Proof.
  assert (forall code at_, keeps fewer (claim_try code at_)) as Hc by (intros; unfold claim_try; kept).
  destruct op as [source code|source pubkey code name at_ invite exchanged|code minted_by]; cbn [run_one].
  - unfold begin_run. destruct (is_full (sv_hub st)); [cbn; reflexivity|]. cbv zeta.
    assert (forall h, fewer h (next_tick h)) as Htick by (intros h; by apply same_fewer).
    destruct (begin _ _ _) as [[] limiter]; cbn [negb snd sv_hub with_hub with_limiter count_refusal]; [|apply Htick].
    destruct (claim_try _ _ _) as [r h] eqn:E. apply (keeps_run _ _ _ _ _ (Hc code _)) in E.
    assert (fewer (sv_hub st) h) as Hq by (etrans; [apply Htick|]; etrans; [apply Htick|exact E]). destruct r as [[i|]|e]; exact Hq.
  - unfold complete_run. destruct (_ || _); [cbn; reflexivity|].
    destruct (db_call _ _) as [[[enrolled|]|e] h] eqn:E; apply (keeps_run _ _ _ _ _ (fewer_call _ (fit_enrolled _ _ _ _))) in E; [|exact E..].
    cbn [snd sv_hub with_hub with_limiter]. etrans; [exact E|].
    match goal with |- fewer _ (snd (?m _)) => assert (keeps fewer m) as Hk; [|apply Hk] end. destruct enrolled; kept.
  - cbn. assert (keeps fewer (drop_run code minted_by)) as Hk by (unfold drop_run; fewer_by). apply Hk.
Qed.

(** ** Coming and going *)

Lemma disconnect_gone {E} user conn h : is_current (snd (disconnect (E := E) user conn h)) user conn = false.
Proof.
  unfold disconnect. rewrite run_bind. cbn [gets]. destruct (is_current h user conn) eqn:Ec; [|done].
  destruct ((_ ← leave_room user; modify (upd_sessions (delete user))) h) as [r h'] eqn:H.
  apply step_safe in H as ([] & h1 & _ & H); [|safely]. injection H as _ <-. unfold is_current. cbn. by rewrite lookup_delete_eq.
Qed.

(** There is place for one more, who is an admin if [MAX_ONLINE] are signed in. *)
Definition place_for (u : UserId) (h : Hub) : Prop :=
  Z.of_nat (size (h_sessions h)) < MAX_SIGNED_IN /\
  (Z.of_nat (size (h_sessions h)) < MAX_ONLINE \/ exists rec, users (h_db h) !! as_i64 u = Some rec /\ from_rank (u_role rec) = Some Admin).

Lemma db_call_sessions {A} (m : DbM A) h r h' : db_call m h = (r, h') -> h_sessions h' = h_sessions h.
Proof. unfold db_call. destruct (m _ _) as [[? ?] ?]. by intros [= _ <-]. Qed.
Lemma unix_sessions {E} h (r : Z + E) h' : unix_now (E := E) h = (r, h') -> h_sessions h' = h_sessions h.
Proof. by intros [= _ <-]. Qed.

(** Signing in makes one session, of the row's key, where there is place. *)
Lemma connect_sessions row c want h r h' : connect row c want h = (r, h') ->
  match r with
  | inl (inl (conn, _)) => (is_Some (h_sessions h !! ur_id row) \/ place_for (ur_id row) h) /\ Z.of_nat (size (h_rooms h')) <= Z.max MAX_ROOMS (Z.of_nat (size (h_rooms h))) /\ (fit (h_db h) -> fit (h_db h')) /\ h_next_conn h' = wrap64 (h_next_conn h + 1) /\
      forall u s, h_sessions h' !! u = Some s -> (u = ur_id row /\ s_conn_id s = conn /\ ur_pubkey (s_row s) = ur_pubkey row) \/
        exists s0, h_sessions h !! u = Some s0 /\ same_owner s0 s
  | _ => fewer h h'
  end.
Proof.
  unfold connect. cbv zeta. set (u := ur_id row). intros H.
  apply bind_inv in H as [(found & h1 & E1 & H)|(x & E1 & ->)]; [pose proof (db_user_run _ _ _ _ E1) as Hfound; pose proof (db_call_sessions _ _ _ _ E1) as S1|]; apply (keeps_run fewer) in E1; [|by apply fewer_call, fit_query|exact E1|by apply fewer_call, fit_query].
  destruct (current ← found; _) as [row'|] eqn:Er; [|by injection H as <- <-].
  assert (ur_pubkey row' = ur_pubkey row) as Hkey by (destruct found as [f|]; [|done]; cbn in Er; case_decide; [|done]; by injection Er as <-).
  assert (match found with Some f => f = row' | None => False end) as Hf by (destruct found as [f|]; [|done]; cbn in Er; case_decide; [|done]; by injection Er as <-).
  destruct found as [f|]; [|done]. subst f. destruct Hfound as (rec & Hrec & [Hrole _]%user_row_role). clear Er.
  apply bind_inv in H as [(seen & h2 & E2 & H)|(x & E2 & ->)]; [pose proof (unix_sessions _ _ _ E2) as S2|]; apply (keeps_run fewer) in E2; [|apply fewer_unix|by etrans|apply fewer_unix].
  apply bind_inv in H as [(seen' & h3 & E3 & H)|(x & E3 & ->)]; [pose proof (db_call_sessions _ _ _ _ E3) as S3|]; apply (keeps_run fewer) in E3; [|by apply fewer_call, fit_update|by do 2 (etrans; [eassumption|])|by apply fewer_call, fit_update].
  assert (fewer h h3) as H3 by (by do 2 (etrans; [eassumption|])). clear E1 E2 E3.
  rewrite run_bind in H. cbn [gets] in H. rewrite run_bind in H. cbn [gets] in H. destruct (_ && _) eqn:Hfull; [by injection H as <- <-|].
  assert (is_Some (h_sessions h !! u) \/ place_for u h) as Hadm.
  { rewrite S3, S2, S1, andb_false_iff, orb_false_iff, andb_false_iff, negb_false_iff, bool_decide_eq_true, bool_decide_eq_false, Z.leb_gt in Hfull.
    unfold is_full in Hfull. rewrite S3, S2, S1, Z.leb_gt in Hfull. destruct Hfull as [[? Hfull]|?]; [right; split; [done|]|by left].
    destruct Hfull as [Hadmin|?]; [right; exists rec|by left]. split; [done|]. apply dec_stable in Hadmin. rewrite Hrole in Hadmin.
    destruct (from_rank (u_role rec)) as [[]|]; done. }
  apply step_safe in H as ([] & h4 & Hev & H); [|safely]. apply (keeps_run fewer) in Hev; [|apply fewer_evict].
  assert (fewer h h4) as H4 by (by etrans). clear H3 Hev.
  rewrite run_bind in H. cbn [modify] in H. rewrite run_bind in H. cbn [gets] in H. rewrite run_bind in H. cbn [modify] in H.
  set (h5 := upd_sessions _ _) in *. rewrite run_bind in H. cbn [gets] in H.
  apply step_safe in H as (rejoined & h6 & Hre & H); [|destruct (room ← want; _); [apply safe_rejoin|safely]].
  assert (fewer h5 h6) as H6 by (destruct (room ← want; _); [by apply (keeps_run fewer) in Hre; [|apply fewer_rejoin]|by injection Hre as _ <-]).
  apply step_safe in H as (server & h7 & Hs & H); [|apply safe_attempt].
  apply (keeps_run fewer) in Hs; [|by apply keeps_attempt, fewer_call, fit_query]. rewrite run_bind in H. cbn [gets] in H. injection H as <- <-.
  assert (fewer h5 h7) as [Hsess Hfit Hnext Hrooms] by (by etrans). split_and!.
  - done.
  - pose proof (fw_rooms _ _ H4). unfold h5 in Hrooms. cbn in Hrooms. lia.
  - intros Hf. apply Hfit. unfold h5. cbn. by apply (fw_fit _ _ H4).
  - rewrite Hnext. unfold h5. cbn. by rewrite (fw_next _ _ H4).
  - intros w s Hw. destruct (Hsess w s Hw) as (s5 & H5 & Hc & Hi & Hp). unfold h5 in H5. cbn in H5.
    apply lookup_insert_Some in H5 as [[<- <-]|[_ H5]]; [left; cbn in *; by rewrite Hc, Hp|right].
    destruct (fw_sessions _ _ H4 w s5 H5) as (s0 & H0 & ? & ? & ?). exists s0. split; [done|]. split_and!; congruence.
Qed.
End Fewer.

(** ** Whose row it is *)

Lemma user_row_key id r row : user_row id r = Some row -> ur_pubkey row = u_pubkey r /\ ur_id row = as_u64 id.
Proof. unfold user_row. cbv zeta. destruct (length (u_pubkey r) =? 32)%nat; [|done]. by intros [= <-]. Qed.
Lemma as_u64_is_u64 z : is_u64 (as_u64 z).
Proof. unfold as_u64, wrap64, is_u64, u64_max. pose proof (Z.mod_pos_bound z 18446744073709551616 ltac:(lia)). lia. Qed.
Lemma find_pubkey_key d pubkey id : find_pubkey d pubkey = Some id -> u_pubkey <$> users d !! id = Some pubkey.
Proof.
  unfold find_pubkey. intros H. assert (id ∈ filter (fun id => u_pubkey <$> users d !! id = Some pubkey) (ids (users d))) as Hin.
  { destruct (filter _ _) as [|x l]; [done|]. injection H as ->. left. }
  by apply list_elem_of_filter in Hin as [H' _].
Qed.
Section Rows.
Context {env : Env}.
Lemma looked_up pubkey h row h' : db_call (user_by_pubkey db_fault pubkey) h = (inl (Some row), h') -> ur_pubkey row = pubkey /\ is_u64 (ur_id row).
Proof.
  unfold db_call, user_by_pubkey, query, transaction. destruct (db_fault (h_tick h)); [done|]. destruct (find_pubkey (h_db h) pubkey) as [id|] eqn:Ef; cbn; [|done].
  apply find_pubkey_key in Ef. destruct (users (h_db h) !! id) as [u|]; [|done]. injection Ef as Ef. cbn. destruct (user_row id u) as [row'|] eqn:Er; [|done].
  cbn. intros [= -> _]. apply user_row_key in Er as [-> ->]. split; [done|apply as_u64_is_u64].
Qed.
Lemma enrolled_row pubkey code name at_ h e h' : fit (h_db h) -> db_call (Database.enroll db_fault pubkey code name at_) h = (inl (Some e), h') ->
  ur_pubkey (into_row e) = pubkey /\ is_u64 (ur_id (into_row e)).
Proof.
  intros [Hs Hu]. unfold db_call, Database.enroll, mbind, DbM_bind, transaction at 1. destruct (db_fault (h_tick h)); [done|].
  destruct (enroll_tx pubkey code name at_ (h_db h)) as [[o d1]|] eqn:E; [|done]. destruct o as [[id kind]|]; [|done].
  assert (1 <= id <= i64_max /\ u_pubkey <$> users d1 !! id = Some pubkey) as [Hid Hkey].
  { revert E. unfold enroll_tx. destruct (invites (h_db h) !! code) as [i|]; [|done]. destruct (negb _); [done|]. cbv zeta.
    destruct (find_pubkey _ _) as [id'|] eqn:Ef; cbn [mbind option_bind].
    - apply find_pubkey_key in Ef. cbn in *. destruct (users (h_db h) !! id') as [u|] eqn:Eu; [|done]. cbn. injection Ef as Ef.
      destruct (_ <? _); intros [= <- <- <-]; cbn; (split; [apply Hu in Eu; lia|]); [by rewrite lookup_insert_eq; cbn; f_equal|by rewrite Eu; cbn; f_equal].
    - unfold insert_user. cbn. destruct (Z.leb_spec (user_seq (h_db h) + 1) i64_max); [|done]. intros [= <- <- <-]. cbn. rewrite lookup_insert_eq. split; [lia|done]. }
  unfold Database.user, query, transaction. destruct (db_fault _); [done|]. destruct (ids_round_trip id ltac:(lia)) as [Ei _]. rewrite Ei.
  destruct (users d1 !! id) as [u|] eqn:Eu; [|done]. injection Hkey as Hkey. destruct (user_row id u) as [row|] eqn:Er; cbn; [|done].
  apply user_row_key in Er as [Hk Hi]. intros [= <- _]. assert (into_row (match kind with KAdded => Added | KPromoted => Promoted | KReturning => Returning end row) = row) as -> by (by destruct kind).
  rewrite Hi. split; [congruence|apply as_u64_is_u64].
Qed.

End Rows.
