(* ===== verification/HubTheorems.v ===== *)
(** * The server as a state machine

    What can happen to the server, one lock at a time ([action]), the states it reaches from
    a database, and what holds in all of them. *)
From S2P Require Import Prelude Float64 Buckets Ids Frame Invite Messages Limits RoomPassword Sfu Crypto Database DatabaseFacts.
From S2P Require Import HubState Hub Auth HubLogic HubFacts HubSteps HubEntry AuthFacts HubSessions.
Open Scope Z_scope.

(** ** Actions *)

Inductive action :=
  (** A session's request, and the end of the password work it asked for. *)
  | ActRequest (user : UserId) (conn : Z) (request : Request)
  | ActResume (user : UserId) (conn : Z) (d : PasswordDone)
  (** A connection that has signed in, and its end. *)
  | ActConnect (row : UserRow) (conn : handle) (want_room : option RoomId)
  | ActDisconnect (user : UserId) (conn : Z)
  (** The tickers. *)
  | ActFlush
  | ActInactive (now : Z)
  (** Signing in: the account of a key is looked up. *)
  | ActLookUp (pubkey : PublicKey)
  (** Enrollment runs. *)
  | ActRun (op : run_op).

Section Server.
Context {env : Env}.

Definition act (a : action) (st : ServerState) : ServerState :=
  let h := sv_hub st in
  match a with
  | ActRequest user conn request => with_hub (snd (handle_request user conn request h)) st
  | ActResume user conn d => with_hub (snd (resume user conn d h)) st
  | ActConnect row conn want_room => with_hub (snd (connect row conn want_room h)) st
  | ActDisconnect user conn => with_hub (snd (disconnect (E := Refusal) user conn h)) st
  | ActFlush => with_hub (snd (flush_keyframes (E := Refusal) h)) st
  | ActInactive now => with_hub (snd (remove_inactive now h)) st
  | ActLookUp pubkey => with_hub (snd (db_call (user_by_pubkey db_fault pubkey) h)) st
  | ActRun op => run_one op st
  end.

(** A row is read from the database, so its id is a [u64]; connections do not wrap around. *)
Definition act_ok (a : action) (st : ServerState) : Prop :=
  match a with
  | ActConnect row _ _ => is_u64 (ur_id row) /\ h_next_conn (sv_hub st) < u64_max
  | _ => True
  end.

(** What [Server::bind] does to the hub. *)
(* @src/crates/throcc-server/src/lib.rs 116-127! Server::bind *)
Definition bind_hub : M DbError unit :=
  _ ← hub_new;
  db_call (delete_spent_invites db_fault INVITE_TRIES).

Inductive reachable (d : Database) (fingerprint : bytes) : ServerState -> Prop :=
  | reach_start h : bind_hub (hub_empty d fingerprint) = (inl (), h) ->
      reachable d fingerprint (mkServer h limiter_default ∅)
  | reach_act a st : reachable d fingerprint st -> act_ok a st -> reachable d fingerprint (act a st).

(** ** Runs move nobody *)

Lemma quiet_runs {E} f : keeps quiet (modify (E := E) (upd_invite_runs f)).
Proof. intros h. apply quiet_same; try reflexivity; cbn; lia. Qed.
#[local] Hint Resolve quiet_runs : hub.
Lemma quiet_claim code now : keeps quiet (claim_try code now).
Proof. unfold claim_try. kept. Qed.
Lemma quiet_drop code m : keeps quiet (drop_run code m).
Proof. unfold drop_run. cbv zeta. kept. Qed.

Lemma quiet_run op st : quiet (sv_hub st) (sv_hub (run_one op st)).
Proof.
  destruct op as [source code|source pubkey code name now invite exchanged|code minted_by]; cbn [run_one].
  - unfold begin_run. destruct (is_full (sv_hub st)); [cbn; reflexivity|]. cbv zeta.
    assert (forall h, quiet h (next_tick h)) as Htick by (intros h; apply quiet_same; try reflexivity; cbn; lia).
    destruct (begin _ _ _) as [[] limiter]; cbn [negb snd sv_hub with_hub with_limiter count_refusal]; [|apply Htick].
    destruct (claim_try _ _ _) as [r h] eqn:E. apply (keeps_run _ _ _ _ _ (quiet_claim code _)) in E.
    assert (quiet (sv_hub st) h) as Hq by (etrans; [apply Htick|]; etrans; [apply Htick|exact E]).
    destruct r as [[i|]|e]; exact Hq.
  - unfold complete_run. destruct (_ || _); [cbn; reflexivity|].
    destruct (db_call _ _) as [[[enrolled|]|e] h] eqn:E;
      apply (keeps_run _ _ _ _ _ (quiet_db _ (grows_enroll db_fault pubkey code name now))) in E; [|exact E..].
    cbn [snd sv_hub with_hub with_limiter]. etrans; [exact E|].
    match goal with |- quiet _ (snd (?m _)) => assert (keeps quiet m) as Hk; [|apply Hk] end. destruct enrolled; kept.
  - cbn. apply quiet_drop.
Qed.

(** ** What an action may do *)

(** Who an action may let into which room. *)
Definition may_enter (a : action) (h : Hub) (w : UserId) (r : RoomId) : Prop :=
  match a with
  | ActRequest user _ request => request_enters h user request w r
  | ActResume user _ d => done_enters h user d w r
  | ActConnect row _ want_room => w = ur_id row /\ want_room = Some r /\ let_back h w r
  | _ => False
  end.

Lemma act_steady a st : act_ok a st -> steady (may_enter a (sv_hub st)) (sv_hub st) (sv_hub (act a st)).
Proof.
  intros Hok. destruct a as [user conn request|user conn d|row conn want|user conn| |now|pubkey|op]; cbn [act sv_hub with_hub may_enter].
  - unfold handle_request. pose proof (dispatch_steady user conn request (sv_hub st)) as H.
    destruct (dispatch _ _ _ _) as [[r|x] h]; exact H.
  - unfold resume. pose proof (finish_steady user conn d (sv_hub st)) as H. destruct (finish _ _ _ _) as [[r|x] h]; exact H.
  - destruct Hok. by apply connect_steady.
  - apply disconnect_steady.
  - apply quiet_steady_rel, quiet_flush.
  - apply remove_inactive_steady.
  - apply quiet_steady_rel, (keeps_run _ (db_call (user_by_pubkey db_fault pubkey)) _ (db_call (user_by_pubkey db_fault pubkey) (sv_hub st)).1); [|by destruct (db_call _ _)].
    apply quiet_db, grows_by_pubkey.
  - apply quiet_steady_rel, quiet_run.
Qed.

(** ** The start *)

(** Nobody connected, rooms empty. *)
Lemma deserted_placed h : h_sessions h = ∅ ->
  (forall r ms, members h !! r = Some ms -> ms = ∅ /\ 1 <= r <= room_seq (h_db h)) ->
  0 <= room_seq (h_db h) -> 1 <= next_media_id (h_db h) -> 0 <= h_next_conn h <= u64_max -> placed h.
Proof.
  intros Hs Hm Hr Hmed Hc.
  assert (forall u v, views h !! u = Some v -> False) as Hv by (intros u v; unfold views; rewrite Hs; by rewrite fmap_empty, lookup_empty).
  split; try done; try (intros; exfalso; eauto; fail).
  - intros r ms u [-> _]%Hm. set_solver.
  - intros r ms [-> _]%Hm. rewrite size_empty. unfold MAX_ROOM_MEMBERS. lia.
  - intros r ms [-> _]%Hm. assert (sharers (views h) ∅ = ∅) as -> by (apply set_eq; intros w; rewrite elem_of_sharers; set_solver).
    rewrite size_empty. unfold MAX_ROOM_SHARES. lia.
  - intros r [ms [_ ?]%Hm]. done.
Qed.

Lemma empty_ok d fingerprint : db_wf d -> hub_ok (hub_empty d fingerprint).
Proof.
  intros W. pose proof (wf_room_seq d W). pose proof (wf_media d W). split; [|split; vm_compute; done].
  apply deserted_placed; cbn; [done| |lia|lia|unfold u64_max; lia]. intros r ms. unfold members. cbn. by rewrite fmap_empty, lookup_empty.
Qed.

Lemma all_rooms_run h l h' : db_call (all_rooms db_fault) h = (inl l, h') -> db_wf (h_db h) ->
  forall r, r ∈ l -> 1 <= rr_id r <= room_seq (h_db h).
Proof.
  intros H W r Hr. apply query_run in H as [_ H]. specialize (H _ eq_refl). apply collect_option_Some in H.
  apply list_elem_of_lookup in Hr as [i Hi]. destruct (Forall2_lookup_r _ _ _ _ _ H Hi) as (id & _ & Hid). cbn in Hid.
  destruct (rooms (h_db h) !! id) as [rec|] eqn:Hrec; cbn in Hid; [|done]. injection Hid as <-. cbn.
  destruct (wf_rooms _ W _ _ Hrec) as [? _]. pose proof (wf_room_seq _ W). unfold i64_max in *. unfold as_u64, wrap64. rewrite Z.mod_small by lia. lia.
Qed.

Lemma start_ok d fingerprint h : db_wf d -> bind_hub (hub_empty d fingerprint) = (inl (), h) -> hub_ok h.
Proof.
  intros W H. pose proof (empty_ok d fingerprint W) as Hok. unfold bind_hub, hub_new in H.
  apply bind_inv in H as [([] & h1 & H & Hspent)|(e & _ & ?)]; [|done].
  assert (keeps quiet (db_call (delete_spent_invites db_fault INVITE_TRIES))) as Hk by (apply quiet_db; by apply grows_execute).
  apply (quiet_ok h1); [by eapply keeps_run|]. clear Hspent Hk h.
  apply bind_inv in H as [(rows & h0 & Hrows & H)|(e & _ & ?)]; [|done].
  pose proof (all_rooms_run _ _ _ Hrows W) as Hids. pose proof (keeps_run quiet _ _ _ _ (quiet_db _ (grows_rooms db_fault)) Hrows) as Hq.
  rewrite run_bind in H. cbn [modify] in H. set (h2 := upd_rooms _ h0) in H.
  apply (quiet_ok h2); [eapply keeps_run; [|exact H]; kept|]. clear H.
  pose proof (quiet_ok _ _ Hq Hok) as [Hp0 Hf0].
  assert (forall u, views h0 !! u = None) as Hnone.
  { intros u. pose proof (q_sessions _ _ Hq) as E. fold (views h0) in E. rewrite E. cbn. by rewrite fmap_empty, lookup_empty. }
  assert (h_sessions h0 = ∅) as Hs0.
  { apply map_eq. intros u. specialize (Hnone u). unfold views in Hnone. rewrite lookup_fmap in Hnone. apply fmap_None in Hnone. by rewrite Hnone. }
  assert (members h0 = ∅) as Hm0.
  { pose proof (q_members _ _ Hq) as E. fold (members h0) in E. rewrite E. cbn. by rewrite fmap_empty. }
  assert (forall r ms, members h2 !! r = Some ms -> ms = ∅ /\ 1 <= r <= room_seq (h_db h2)) as Hm.
  { intros r ms (e & He & ->)%lookup_members_inv. cbn in He. apply elem_of_list_to_map_2 in He.
    apply list_elem_of_fmap in He as (row & [= -> ->] & Hrow). split; [done|]. pose proof (q_room_seq _ _ Hq). specialize (Hids row Hrow). cbn in *. lia. }
  assert (placed h2) as Hp2.
  { apply deserted_placed; [done|done|apply (pl_seq _ Hp0)|apply (pl_media _ Hp0)|apply (pl_next_conn _ Hp0)]. }
  split; [done|]. apply (fresh_same h0); try done. intros r. rewrite Hm0, lookup_empty. split; [intros u; cbn; set_solver|].
  destruct (members h2 !! r) as [ms|] eqn:E; [|done]. symmetry. by apply (Hm r).
Qed.

Lemma reachable_ok d fingerprint st : db_wf d -> reachable d fingerprint st -> hub_ok (sv_hub st).
Proof.
  intros W. induction 1 as [h Hh|a st _ IH Hok]; [by eapply start_ok|]. by apply (act_steady a st Hok).
Qed.

(** ** How many are signed in, and how many rooms there are *)

(** A hub just bound: nobody is signed in, and its rooms are the database's. *)
Lemma bound_hub d fp h : bind_hub (hub_empty d fp) = (inl (), h) ->
  (fit d -> fit (h_db h)) /\ h_sessions h = ∅ /\ h_next_conn h = 0 /\ Z.of_nat (size (h_rooms h)) <= Z.max MAX_ROOMS (Z.of_nat (size (rooms d))).
Proof.
  intros H. unfold bind_hub, hub_new in H. apply bind_inv in H as [([] & h1 & H & Hspent)|(e & _ & ?)]; [|done].
  apply (keeps_run fewer) in Hspent; [|by apply fewer_call, fit_execute].
  apply bind_inv in H as [(rows & h0 & Hrows & H)|(e & _ & ?)]; [|done].
  pose proof (query_run _ _ _ _ Hrows) as [_ Hlist]. specialize (Hlist _ eq_refl). apply collect_option_Some, Forall2_length in Hlist.
  rewrite length_ids in Hlist. assert (fewer (hub_empty d fp) h0) as Hq by (by apply (keeps_run fewer) in Hrows; [|by apply fewer_call, fit_query]).
  rewrite run_bind in H. cbn [modify] in H. set (h2 := upd_rooms _ h0) in H.
  assert (fewer h2 h1) as H1.
  { apply bind_inv in H as [(n & h3 & H3 & H)|(e & _ & ?)]; [|done]. apply (keeps_run fewer) in H3; [|apply fewer_unix].
    apply bind_inv in H as [(x & h4 & H4 & [= <-])|(e & _ & ?)]; [|done].
    unfold collect_blobs in H4. apply (keeps_run fewer) in H4; [|apply fewer_call, fit_collected]. by etrans. }
  assert (fewer h2 h) as [Hs Hf Hn Hr] by (by etrans). destruct Hq as [Qs Qf Qn _]. cbn [snd] in *. split_and!.
  - intros Hd. apply Hf. unfold h2. cbn. by apply Qf.
  - apply map_empty. intros u. destruct (h_sessions h !! u) as [s|] eqn:E; [|done]. apply Hs in E as (s0 & E & _). unfold h2 in E. cbn in E.
    by apply Qs in E as (s1 & ? & _).
  - rewrite Hn. unfold h2. cbn. by rewrite Qn.
  - etrans; [exact Hr|]. unfold h2. cbn. apply Z.max_lub; [lia|]. etrans; [|apply Z.le_max_r]. apply inj_le.
    etrans; [apply size_listed|]. rewrite length_fmap, <- Hlist. cbn. lia.
Qed.

(** No action signs anybody in but [ActConnect], which does where there is place. *)
Lemma act_fewer a st : fewer (sv_hub st) (sv_hub (act a st)) \/
  exists row conn want, a = ActConnect row conn want /\
    (is_Some (h_sessions (sv_hub st) !! ur_id row) \/ place_for (ur_id row) (sv_hub st)) /\
    Z.of_nat (size (h_rooms (sv_hub (act a st)))) <= Z.max MAX_ROOMS (Z.of_nat (size (h_rooms (sv_hub st)))) /\
    (forall u, is_Some (h_sessions (sv_hub (act a st)) !! u) -> u = ur_id row \/ is_Some (h_sessions (sv_hub st) !! u)) /\
    (fit (h_db (sv_hub st)) -> fit (h_db (sv_hub (act a st)))).
Proof.
  destruct a as [user conn request|user conn d|row conn want|user conn| |t|pubkey|op]; cbn [act sv_hub with_hub].
  - left. apply fewer_request.
  - left. apply fewer_resume.
  - destruct (connect row conn want (sv_hub st)) as [r h] eqn:E. apply connect_sessions in E. cbn [snd].
    destruct r as [[[id welcome]|x]|x]; [right|left; exact E..]. destruct E as (Hp & Hr & Hfit & _ & Hs).
    exists row, conn, want. do 3 (split; [done|]). split; [|done]. intros u [s Hu]. destruct (Hs u s Hu) as [[-> _]|(s0 & ? & _)]; eauto.
  - left. apply fewer_disconnect.
  - left. apply fewer_flush.
  - left. apply fewer_inactive.
  - left. apply fewer_call, fit_query.
  - left. apply fewer_run.
Qed.

(** The people signed in are no more than may be, and rooms no more than may be or there were. *)
Definition within_caps (d : Database) (h : Hub) : Prop :=
  Z.of_nat (size (h_sessions h)) <= MAX_SIGNED_IN /\ Z.of_nat (size (h_rooms h)) <= Z.max MAX_ROOMS (Z.of_nat (size (rooms d))).

Lemma reachable_caps d fingerprint st : reachable d fingerprint st -> within_caps d (sv_hub st).
Proof.
  induction 1 as [h (_ & Es & _ & Hr)%bound_hub|a st _ [Hs Hr] _]; [split; [cbn [sv_hub]; rewrite Es, map_size_empty; vm_compute; discriminate|exact Hr]|].
  destruct (act_fewer a st) as [Hf|(row & conn & want & -> & Hp & Hr' & Hsub & _)]; [pose proof (fewer_size _ _ Hf); pose proof (fw_rooms _ _ Hf); split; lia|].
  split; [|lia]. revert Hs Hp Hsub. rewrite <- !size_dom. set (h := sv_hub st). set (h' := sv_hub _). intros Hs Hp Hsub.
  assert (dom (h_sessions h') ⊆ {[ur_id row]} ∪ dom (h_sessions h)) as Hd.
  { intros u Hu. rewrite elem_of_union, elem_of_singleton, elem_of_dom. by apply Hsub, elem_of_dom. }
  apply subseteq_size in Hd. destruct Hp as [Hin|[Hlt _]].
  - assert ({[ur_id row]} ∪ dom (h_sessions h) = dom (h_sessions h)) as Eq by (apply elem_of_dom in Hin; set_solver). rewrite Eq in Hd. lia.
  - rewrite size_union_alt, size_singleton in Hd. pose proof (subseteq_size (dom (h_sessions h) ∖ {[ur_id row]}) (dom (h_sessions h)) ltac:(set_solver)).
    rewrite <- size_dom in Hlt. lia.
Qed.

Lemma reachable_fit d fingerprint st : db_wf d -> reachable d fingerprint st -> fit (h_db (sv_hub st)).
Proof.
  intros W. induction 1 as [h (Hf & _)%bound_hub|a st _ IH _]; [by apply Hf, wf_fit|].
  destruct (act_fewer a st) as [Hf|(? & ? & ? & _ & _ & _ & _ & Hf)]; [by apply (fw_fit _ _ Hf)|by apply Hf].
Qed.

(** ** What holds in every state *)

(** C1: In every state the server reaches, sessions and rooms agree on who is where, every
    connection is one session's, a session sends and watches nothing outside a room, no two
    memberships share a media id, and the published table and audiences are the ones the
    sessions call for.  And every cap holds: a room holds at most [MAX_ROOM_MEMBERS] people and
    [MAX_ROOM_SHARES] shares, a session watches at most [MAX_WATCHED] tracks, at most
    [MAX_SIGNED_IN] people are signed in, there are at most [MAX_ROOMS] rooms (or as many as the
    database had), and who signs in while [MAX_ONLINE] already are is an admin.  All of it
    whatever is requested in whatever order, and whichever transactions fail. *)
Theorem the_hub_stays_well_formed (d : Database) (fingerprint : bytes) (st : ServerState) :
  db_wf d -> reachable d fingerprint st ->
  hub_ok (sv_hub st) /\ within_caps d (sv_hub st) /\
  (forall a u, h_sessions (sv_hub st) !! u = None -> is_Some (h_sessions (sv_hub (act a st)) !! u) -> place_for u (sv_hub st)).
Proof.
  intros W H. split_and!; [by eapply reachable_ok|by eapply reachable_caps|]. intros a u Hnone [s Hu].
  destruct (act_fewer a st) as [Hf|(row & conn & want & -> & Hp & _ & Hsub & _)].
  - destruct (fw_sessions _ _ Hf u s Hu) as (s0 & ? & _). congruence.
  - destruct (Hsub u ltac:(eauto)) as [->|[? ?]]; [|congruence]. destruct Hp as [[? ?]|?]; [congruence|done].
Qed.

(** Whether a session takes part in a track of a sender with [tracks]. *)
Definition receives (tracks : Tracks) (id : MediaId) (s : Session) : Prop :=
  (id = tr_mic tracks /\ ms_deafened (s_media s) = false) \/
  exists share, share ∈ tr_shares tracks /\
    ((id = st_video share /\ sees share s) \/ (id = st_audio share /\ hears share s)).

(** A route of [h]: who sends it and who gets it. *)
Definition right_route (h : Hub) (id : MediaId) (rt : Route handle) : Prop :=
  exists r e u s t, h_rooms h !! r = Some e /\ u ∈ e_members e /\ h_sessions h !! u = Some s /\
    s_tracks s = Some t /\ id ∈ track_ids t /\ rt_owner rt = s_conn_id s /\
    (rt_kind rt = VideoTrack <-> exists share, share ∈ tr_shares t /\ id = st_video share) /\
    forall c, c ∈ rt_subscribers rt <->
      exists w sw, w ∈ e_members e /\ w <> u /\ h_sessions h !! w = Some sw /\ s_handle sw = c /\ receives t id sw.

Lemma elem_of_members_of (ss : gmap Z Session) e s :
  s ∈ member_sessions ss e <-> exists w, w ∈ e_members e /\ ss !! w = Some s.
Proof.
  unfold member_sessions. rewrite list_elem_of_omap. split; intros (w & Hw & ?); exists w; (split; [|done]); by apply elem_of_in_order.
Qed.

Lemma elem_of_subscribers h e s (P : Session -> Prop) `{forall s, Decision (P s)} owner kind c : placed h ->
  c ∈ rt_subscribers (route owner kind (filter P (others (member_sessions (h_sessions h) e) s))) <->
  exists w sw, w ∈ e_members e /\ w <> ur_id (s_row s) /\ h_sessions h !! w = Some sw /\ s_handle sw = c /\ P sw.
Proof.
  intros Hp. unfold route, others. cbn. rewrite list_elem_of_fmap. split.
  - intros (sw & -> & Hin). rewrite !list_elem_of_filter in Hin. destruct Hin as (HP & Hne & (w & Hw & Hsw)%elem_of_members_of).
    rewrite (placed_session h Hp _ _ Hsw) in Hne. by exists w, sw.
  - intros (w & sw & Hw & Hne & Hsw & <- & HP). exists sw. split; [done|]. rewrite !list_elem_of_filter.
    split; [done|]. rewrite (placed_session h Hp _ _ Hsw). split; [done|]. apply elem_of_members_of. by exists w.
Qed.

Lemma sender_route_right h r e s id rt : placed h -> h_rooms h !! r = Some e -> s ∈ member_sessions (h_sessions h) e ->
  (id, rt) ∈ sender_routes (member_sessions (h_sessions h) e) s -> right_route h id rt.
Proof.
  intros Hp He Hs Hin. pose proof (proj1 (elem_of_members_of _ _ _) Hs) as (u & Hu & Hsu).
  destruct (placed_member h Hp _ _ _ He Hu) as (s' & Hsu' & Hroom). assert (s' = s) as -> by congruence.
  destruct (placed_tracks h Hp _ _ _ Hsu Hroom) as (m & Ht & _). pose proof (placed_session h Hp _ _ Hsu) as Hid.
  unfold sender_routes in Hin. rewrite Ht in Hin. cbn in Hin. rewrite !elem_of_cons, elem_of_nil in Hin.
  assert (forall P `{forall s, Decision (P s)} owner kind,
    (forall sw, P sw <-> receives (tracks_at m) id sw) -> owner = s_conn_id s -> id ∈ track_ids (tracks_at m) -> (kind = VideoTrack <-> id = m + 1) ->
    rt = route owner kind (filter P (others (member_sessions (h_sessions h) e) s)) -> right_route h id rt) as Hright.
  { intros P ? owner kind HP -> Hids Hkind ->. exists r, e, u, s, (tracks_at m). do 6 (split; [done|]).
    split; [cbn; rewrite Hkind; split; [intros ->; eexists; split; [by left|done]|by intros (? & ->%list_elem_of_singleton & ->)]|]. intros c.
    rewrite (elem_of_subscribers h e s P) by done. rewrite Hid. by setoid_rewrite HP. }
  unfold track_ids in Hright. cbn in Hright.
  destruct Hin as [[= -> ->]|[[= -> ->]|[[= -> ->]|[]]]].
  - eapply Hright; [|done|by left| |done]; [|split; [done|lia]]. intros sw. unfold receives. cbn. split; [by left|].
    intros [[_ ?]|(share & ->%list_elem_of_singleton & [[? _]|[? _]])]; cbn in *; [done|lia..].
  - eapply Hright; [|done|by right; left| |done]; [|split; [lia|done]]. intros sw. unfold receives. cbn. split.
    + intros ?. right. eexists. split; [by left|]. by left.
    + intros [[? _]|(share & ->%list_elem_of_singleton & [[_ ?]|[? _]])]; cbn in *; [lia|done|lia].
  - eapply Hright; [|done|by right; right; left| |done]; [|split; [done|lia]]. intros sw. unfold receives. cbn. split.
    + intros ?. right. eexists. split; [by left|]. by right.
    + intros [[? _]|(share & ->%list_elem_of_singleton & [[? _]|[_ ?]])]; cbn in *; [lia|lia|done].
Qed.

(** C3: In every state the server reaches, the table that forwards media holds a route for
    exactly the tracks of the people in rooms, owned by their sender's connection, and each
    route's subscribers are exactly the other members of the sender's room who take part: for
    the microphone those not deafened, for a share's video those watching it, for its audio
    those watching it and not deafened. *)
Theorem media_reaches_exactly_its_receivers (d : Database) (fingerprint : bytes) (st : ServerState) :
  db_wf d -> reachable d fingerprint st ->
  let h := sv_hub st in
  (forall id rt, h_table h !! id = Some rt -> right_route h id rt) /\
  (forall r e u s t id, h_rooms h !! r = Some e -> u ∈ e_members e -> h_sessions h !! u = Some s ->
     s_tracks s = Some t -> id ∈ track_ids t -> is_Some (h_table h !! id)).
Proof.
  intros W Hr h. destruct (reachable_ok _ _ _ W Hr) as [Hp [Ht _]]. fold h in Hp, Ht. rewrite Ht. split.
  - intros id rt (r & e & s & He & Hs & Hin)%(lookup_routes h Hp). by eapply sender_route_right.
  - intros r e u s t id He Hu Hs Htr Hid.
    assert (s ∈ member_sessions (h_sessions h) e) as Hms by (apply elem_of_members_of; by exists u).
    assert (id ∈ (sender_routes (member_sessions (h_sessions h) e) s).*1) as Hin by (by rewrite sender_route_ids, Htr).
    apply list_elem_of_fmap in Hin as ([id' rt] & -> & Hin). exists rt. apply (lookup_routes h Hp). by exists r, e, s.
Qed.

(** C7: Whatever happens next in a state the server reaches, a room's epoch never goes back,
    and nobody enters a room at an epoch that was current before: whoever joins gets a new
    epoch, whose keys the ones before them did not have.  Whoever leaves is also followed by a
    new epoch, unless a transaction failed or the room's epochs are used up.  A room that is
    gone does not come back. *)
Theorem epochs_follow_membership (d : Database) (fingerprint : bytes) (a : action) (st : ServerState) :
  db_wf d -> reachable d fingerprint st -> act_ok a st ->
  epochs_follow (sv_hub st) (sv_hub (act a st)).
Proof. intros W Hr Hok. by apply (act_steady a st Hok), (reachable_ok d fingerprint). Qed.

(** C8: Nobody enters a room but by their own request to join it, and then only if it has no
    password, they manage rooms, or the password they gave was found to match the hash the
    room has now; or by signing in again to a room they ask for, if it has no password, they
    manage rooms, or it is the room they were last in. *)
Theorem rooms_are_entered_by_right (d : Database) (fingerprint : bytes) (a : action) (st : ServerState)
    (w : UserId) (r : RoomId) (s' : Session) :
  db_wf d -> reachable d fingerprint st -> act_ok a st ->
  h_sessions (sv_hub (act a st)) !! w = Some s' -> s_room s' = Some r ->
  (exists s, h_sessions (sv_hub st) !! w = Some s /\ s_room s = Some r) \/ may_enter a (sv_hub st) w r.
Proof.
  intros W Hr Hok Hs Hroom. destruct (act_steady a st Hok) as (_ & _ & Hen); [by apply (reachable_ok d fingerprint)|].
  destruct (Hen w (session_view s') r (lookup_views _ _ _ Hs) Hroom) as [(v & Hv & Hvr)|?]; [left|by right].
  apply lookup_views_inv in Hv as (s & Hs0 & ->). by exists s.
Qed.

End Server.

(** ** A server in use

    Two people sign in and join a room; one shares, the other watches. *)

Definition example_row (key : Z) (role : Role) : user_rec :=
  mkUserRec (repeat key 32) (Some (repeat key 32)) (Some (repeat key 64)) (Some 1800000000) [key] None (rank role) None 1 1.
Definition example_db : Database :=
  mkDb (<[1 := example_row 97 Admin]> (<[2 := example_row 98 User]> ∅)) 2
    (<[1 := mkRoomRec [65] 0 None]> (<[2 := mkRoomRec [66] 0 (Some [120])]> ∅)) 2 ∅ ∅ None None.

Lemma example_db_wf : db_wf example_db.
Proof.
  split; cbn; try done.
  - intros id u Hu. repeat (apply lookup_insert_Some in Hu as [[<- <-]|[_ Hu]]; [split; cbn; [lia|done|by eexists|done|done]|]).
    by rewrite lookup_empty in Hu.
  - intros id id' u u' Hu Hu' E.
    repeat (apply lookup_insert_Some in Hu as [[<- <-]|[_ Hu]]); repeat (apply lookup_insert_Some in Hu' as [[<- <-]|[_ Hu']]);
      try done; by rewrite lookup_empty in *.
  - intros id r Hr. repeat (apply lookup_insert_Some in Hr as [[<- <-]|[_ Hr]]; [cbn; unfold is_u32, u32_max; lia|]).
    by rewrite lookup_empty in Hr.
Qed.

Definition example_user_row (id key : Z) (role : Role) : UserRow :=
  mkUserRow id (repeat key 32) None [key] None role None 1.

Definition example_share : ShareConfig := mkShareConfig true 4000 H264 1920 1080 60.
Definition example_actions : list action :=
  [ActConnect (example_user_row 1 97 Admin) 101 None; ActConnect (example_user_row 2 98 User) 102 None;
   ActRequest 1 1 (JoinRoom 1 None); ActRequest 2 2 (JoinRoom 1 None);
   ActRequest 1 1 (SetMedia (mkMediaState true false (Some example_share))); ActRequest 2 2 (SetWatched [2; 3])].

Definition example_start : ServerState :=
  mkServer (snd (bind_hub (env := example_env) (hub_empty example_db []))) limiter_default ∅.
Definition example_server (n : nat) : ServerState :=
  foldl (fun st a => act (env := example_env) a st) example_start (take n example_actions).

Fixpoint all_ok (l : list action) (st : ServerState) : bool :=
  match l with
  | [] => true
  | a :: l =>
      match a with
      | ActConnect row _ _ => (0 <=? ur_id row) && (ur_id row <=? u64_max) && (h_next_conn (sv_hub st) <? u64_max)
      | _ => true
      end && all_ok l (act (env := example_env) a st)
  end.

Lemma all_ok_reachable d fp l st : reachable (env := example_env) d fp st -> all_ok l st = true ->
  reachable (env := example_env) d fp (foldl (fun st a => act (env := example_env) a st) st l).
Proof.
  revert st. induction l as [|a l IH]; intros st Hr H; [done|]. cbn [all_ok foldl] in *.
  apply andb_true_iff in H as [Ha H]. apply IH; [|done]. apply reach_act; [done|].
  destruct a; try done. rewrite !andb_true_iff, !Z.leb_le, Z.ltb_lt in Ha. cbn. unfold is_u64. lia.
Qed.

Lemma example_reachable (n : nat) : reachable (env := example_env) example_db [] (example_server n).
Proof.
  apply all_ok_reachable.
  - apply reach_start. vm_compute. reflexivity.
  - destruct (decide (n < 6)%nat); [|rewrite take_ge by (cbn; lia); vm_compute; reflexivity].
    do 6 (destruct n as [|n]; [vm_compute; reflexivity|]). lia.
Qed.

Lemma the_hub_stays_well_formed_witness :
  size (h_sessions (sv_hub (example_server 6))) = 2%nat /\ hub_ok (sv_hub (example_server 6)) /\
  within_caps example_db (sv_hub (example_server 6)) /\
  (forall a u, h_sessions (sv_hub (example_server 6)) !! u = None ->
    is_Some (h_sessions (sv_hub (act (env := example_env) a (example_server 6))) !! u) -> place_for u (sv_hub (example_server 6))).
Proof.
  split; [vm_compute; reflexivity|].
  exact (the_hub_stays_well_formed (env := example_env) example_db [] (example_server 6) example_db_wf (example_reachable 6)).
Defined.

Lemma media_reaches_exactly_its_receivers_witness :
  (rt_subscribers <$> h_table (sv_hub (example_server 6)) !! 2 = Some [102]) /\
  (rt_subscribers <$> h_table (sv_hub (example_server 6)) !! 4 = Some [101]) /\
  exists rt, h_table (sv_hub (example_server 6)) !! 2 = Some rt /\ right_route (sv_hub (example_server 6)) 2 rt.
Proof.
  split; [vm_compute; reflexivity|]. split; [vm_compute; reflexivity|]. eexists. split; [vm_compute; reflexivity|].
  apply (media_reaches_exactly_its_receivers (env := example_env) example_db [] (example_server 6) example_db_wf (example_reachable 6)).
  vm_compute. reflexivity.
Defined.

(** The second to join raises the epoch from 1 to 2. *)
Lemma epochs_follow_membership_witness :
  (e_epoch <$> h_rooms (sv_hub (example_server 3)) !! 1 = Some 1) /\ (e_epoch <$> h_rooms (sv_hub (example_server 4)) !! 1 = Some 2) /\
  @epochs_follow example_env (sv_hub (example_server 3))
    (sv_hub (act (env := example_env) (ActRequest 2 2 (JoinRoom 1 None)) (example_server 3))).
Proof.
  split; [vm_compute; reflexivity|]. split; [vm_compute; reflexivity|].
  exact (epochs_follow_membership (env := example_env) example_db [] (ActRequest 2 2 (JoinRoom 1 None)) (example_server 3)
    example_db_wf (example_reachable 3) I).
Defined.

(** The second joins an unlocked room; the locked one would not have let them in. *)
Lemma rooms_are_entered_by_right_witness :
  may_enter (ActRequest 2 2 (JoinRoom 1 None)) (sv_hub (example_server 3)) 2 1 /\
  fst (@handle_request example_env 2 2 (JoinRoom 2 None) (sv_hub (example_server 3))) =
    Done (RespErr WrongPassword (lit "this room needs a password")).
Proof.
  split; [|vm_compute; reflexivity].
  destruct (h_sessions (sv_hub (act (env := example_env) (ActRequest 2 2 (JoinRoom 1 None)) (example_server 3))) !! 2) as [s|] eqn:E.
  - destruct (rooms_are_entered_by_right (env := example_env) example_db [] (ActRequest 2 2 (JoinRoom 1 None)) (example_server 3) 2 1 s)
      as [(s0 & H & Hr)|H]; [exact example_db_wf|exact (example_reachable 3)|exact I|exact E|..|exact H].
    + vm_compute in E. by injection E as <-.
    + exfalso. vm_compute in H. by injection H as <-.
  - exfalso. by vm_compute in E.
Defined.
