(* ===== verification/Serving.v ===== *)
(** * Serving connections (throcc-server, lib.rs and session.rs)

    What the server does with a connection from its first packet until it is gone: the gates
    it passes, its hello, signing in or enrolling, the requests it sends and how it ends.
    Each connection is a task of its own ([Task]); a [TaskEvent] is what happens to it between
    two of its awaits, so tasks may take turns in any order.  What a task holds it gives back
    when it goes out of scope, which is when its phase no longer holds it ([release]).  QUIC
    and TLS are what they answer: the arguments of the events.  A connection's [handle] at
    the hub is the number of its task. *)
From S2P Require Import Prelude Float64 Buckets Ids Frame Invite Messages Limits RoomPassword Sfu Crypto Database HubState Hub Auth.
Open Scope Z_scope.

(** ** Limits *)

(* @src/crates/throcc-server/src/lib.rs 52-56 HANDSHAKES *)
Definition HANDSHAKES : Caps := {| per_source := 4; per_network := 16; total := 128 |}.
(* @src/crates/throcc-server/src/lib.rs 37-43 CONNECTIONS *)
Definition CONNECTIONS : Caps := {| per_source := 32; per_network := 128; total := MAX_SIGNED_IN + total HANDSHAKES |}.
(* @src/crates/throcc-server/src/lib.rs 44-51 UNAUTHENTICATED *)
Definition UNAUTHENTICATED : Caps := {| per_source := 32; per_network := 32; total := 512 |}.
(* @src/crates/throcc-server/src/lib.rs 59-60 PASSWORD_WORKERS *)
Definition PASSWORD_WORKERS : Z := 2.
(* @src/crates/throcc-server/src/session.rs 27-27 HANDSHAKE_FRAME_BYTES *)
Definition HANDSHAKE_FRAME_BYTES : Z := 4096.
(* @src/crates/throcc-server/src/session.rs 28-28 EVENT_QUEUE *)
Definition EVENT_QUEUE : nat := 1024.
(* @src/crates/throcc-server/src/session.rs 29-30 QUEUED_PICTURE_BYTES *)
Definition QUEUED_PICTURE_BYTES : Z := 256 * 1024.

(** ** Reading frames *)

(* @src/crates/throcc-server/src/session.rs 39-45 ReadError *)
Inductive ReadError := Closed | BadFrame (e : FrameError).

Section Reading.
Context {T : Type} (take_from_bytes : bytes -> option (T * bytes)).

(** One frame of the bytes that arrive before the stream closes, and the bytes after it. *)
(* @src/crates/throcc-server/src/session.rs 59-76 read_capped *)
Definition read_capped (cap : Z) (arriving : bytes) : (T * bytes) + ReadError :=
  if (length arriving <? LEN_BYTES)%nat then inr Closed else
  match body_len (take LEN_BYTES arriving) with
  | inr e => inr (BadFrame e)
  | inl len =>
      if cap <? len then inr (BadFrame (TooLarge len)) else
      match split_at_checked (drop LEN_BYTES arriving) len with
      | None => inr Closed
      | Some (body, rest) => match decode take_from_bytes body with inl message => inl (message, rest) | inr e => inr (BadFrame e) end
      end
  end.
(* @src/crates/throcc-server/src/session.rs 47-50 read_frame *)
Definition read_frame : bytes -> (T * bytes) + ReadError := read_capped MAX_FRAME_BYTES.
(* @src/crates/throcc-server/src/session.rs 52-57 read_handshake *)
Definition read_handshake : bytes -> (T * bytes) + ReadError := read_capped HANDSHAKE_FRAME_BYTES.
End Reading.

(** ** A connection's task *)

(** An enrollment between its hello and the end of its PAKE. *)
(* @src/crates/throcc-server/src/auth.rs 93-102 Enrollment *)
Record Enrollment := mkEnrollment {
  eo_server_nonce : bytes; eo_client_nonce : bytes; eo_exporter : bytes; eo_pubkey : PublicKey;
  eo_code_id : str; eo_name : str; eo_pake_a : bytes; eo_now : Z; eo_invite : option InviteRow
}.

(** How [auth::authenticate] ended, or that it did not in time. *)
Inductive SignInEnd := EndedSigned (a : Authenticated) | EndedRefused (r : AuthRefusal) | EndedLate.

(** Where [read_loop] is: before it, waiting for a request, for a turn of the password
    workers, for the work, for the hub, for room in the queue, or past it. *)
(* @src/crates/throcc-server/src/session.rs 243-279! read_loop *)
Inductive Loop :=
  | LoopWelcome (welcome : Welcome)
  | LoopReading
  | LoopQueued (id : Z) (work : PasswordWork)
  | LoopHashing (id : Z) (work : PasswordWork)
  | LoopHashed (id : Z) (d : PasswordDone)
  | LoopAnswer (id : Z) (response : Response)
  | LoopStopping (e : ReadError).

(** The claimed run of an invite, with who minted it. *)
Definition InviteRun : Type := str * option UserId.

(* @src/crates/throcc-server/src/session.rs 105-208! serve *)
Inductive Phase :=
  | PhHandshake
  | PhSlot
  | PhGreeting
  | PhHello (server_nonce : bytes) (hello : ClientHello)
  | PhExchange (e : Enrollment)
  (** [authenticate] is over, but for the drop of its run. *)
  | PhEnding (run : option InviteRun) (e : SignInEnd)
  | PhSigned (a : Authenticated)
  | PhRefusing (r : AuthRefusal)
  | PhServing (user : UserId) (conn : Z) (loop : Loop)
  (** Out of the hub, and about to return. *)
  | PhParting.

(** The passes in scope: [unauthenticated] and [permit] until the session is connected,
    [_signed_in] from the hello on. *)
Definition holds_unauthenticated (p : Phase) : bool := match p with PhServing _ _ _ | PhParting => false | _ => true end.
Definition holds_handshake (p : Phase) : bool :=
  match p with PhHandshake | PhSlot | PhServing _ _ _ | PhParting => false | _ => true end.
Definition holds_connection (p : Phase) : bool := match p with PhHandshake | PhSlot | PhGreeting => false | _ => true end.
Definition hashing (p : Phase) : bool := match p with PhServing _ _ (LoopHashing _ _) => true | _ => false end.

Record Task := mkTask { tk_source : SourceKey; tk_phase : Phase }.

(** What is written on a connection's stream, given to its writer, or its close. *)
Inductive ServeOut :=
  | OutPakeStep (task : Z) (step : PakeStep)
  | OutAuthResult (task : Z) (result : AuthResult)
  | OutQueued (task : Z) (o : Outbound)
  | OutClosed (task : Z) (code : Z).

(** [ServerState] with the connections' tasks: the numbers of the tasks so far, and what they
    sent. *)
(* @src/crates/throcc-server/src/lib.rs 85-97 ServerState *)
Record Served := mkServed {
  sd_state : ServerState;
  sd_arrivals : ArrivalLimiter f64;
  sd_unauthenticated : Counts;
  sd_connections : Counts;
  sd_handshakes : Counts;
  sd_password_work : Z;
  sd_tasks : gmap Z Task;
  sd_next : Z;
  sd_log : list ServeOut
}.
Definition served_fields (s : Served) : Served :=
  mkServed (sd_state s) (sd_arrivals s) (sd_unauthenticated s) (sd_connections s) (sd_handshakes s) (sd_password_work s)
    (sd_tasks s) (sd_next s) (sd_log s).
#[export] Instance fld_sd_state : Setter sd_state.
Proof. setter_of served_fields. Defined.
#[export] Instance fld_sd_arrivals : Setter sd_arrivals.
Proof. setter_of served_fields. Defined.
#[export] Instance fld_sd_unauthenticated : Setter sd_unauthenticated.
Proof. setter_of served_fields. Defined.
#[export] Instance fld_sd_connections : Setter sd_connections.
Proof. setter_of served_fields. Defined.
#[export] Instance fld_sd_handshakes : Setter sd_handshakes.
Proof. setter_of served_fields. Defined.
#[export] Instance fld_sd_password_work : Setter sd_password_work.
Proof. setter_of served_fields. Defined.
#[export] Instance fld_sd_tasks : Setter sd_tasks.
Proof. setter_of served_fields. Defined.
#[export] Instance fld_sd_next : Setter sd_next.
Proof. setter_of served_fields. Defined.
#[export] Instance fld_sd_log : Setter sd_log.
Proof. setter_of served_fields. Defined.

Section Passes.
Implicit Types (st : Served) (t : Task).

(** A pass whose scope ends is dropped. *)
Definition release (holds : Phase -> bool) (old : Phase) (new : option Phase) (source : SourceKey) (counts : Counts) : Counts :=
  if holds old && negb (from_option holds false new) then leave counts source else counts.

(** The task goes on in another phase, or returns. *)
Definition move (task : Z) t (new : option Phase) st : Served :=
  st <| sd_unauthenticated ::= release holds_unauthenticated (tk_phase t) new (tk_source t) |>
     <| sd_handshakes ::= release holds_handshake (tk_phase t) new (tk_source t) |>
     <| sd_connections ::= release holds_connection (tk_phase t) new (tk_source t) |>
     <| sd_tasks ::= match new with Some phase => <[task := mkTask (tk_source t) phase]> | None => delete task end |>.
Definition count (reason : string) : Served -> Served := update sd_state (count_refusal reason).
Definition out (o : list ServeOut) : Served -> Served := update sd_log (fun l => l ++ o).
Definition set_hub (h : Hub) : Served -> Served := update sd_state (with_hub h).
Definition hub_of st : Hub := sv_hub (sd_state st).
(** [connection.close] and the end of the task. *)
Definition close_task (task : Z) t (code : Z) st : Served := move task t None (out [OutClosed task code] st).

(** ** Before the hello *)

(** A packet of a new connection. *)
(* @src/crates/throcc-server/src/lib.rs 198-226! Server::run *)
Definition incoming (peer : IpAddr) (validated : bool) (now : Z) st : Served :=
  if negb validated then st else
  let source := source_of peer in
  match try_enter UNAUTHENTICATED (sd_unauthenticated st) source with
  | None => count "refused: too many from its network are signing in" st
  | Some (pass, counts) =>
      let '(admitted, arrivals) := arrival_admit (sd_arrivals st) source now in
      let st := st <| sd_arrivals := arrivals |> in
      if negb admitted
      then count "ignored: its source or network connects too often" (st <| sd_unauthenticated := leave counts pass |>)
      else st <| sd_unauthenticated := counts |> <| sd_tasks ::= <[sd_next st := mkTask pass PhHandshake]> |> <| sd_next ::= Z.succ |>
  end.

Inductive TlsHandshake := TlsTimedOut | TlsFailed | TlsDone (max_datagram_size : option Z).
(* @src/crates/throcc-server/src/lib.rs 301-311! handle *)
Definition handshake_done (task : Z) t (h : TlsHandshake) st : Served :=
  match h with
  | TlsTimedOut => move task t None (count "TLS handshake timed out" st)
  | TlsFailed => move task t None (count "TLS handshake failed" st)
  | TlsDone max_datagram_size =>
      match check_datagrams max_datagram_size with
      | inr _ => close_task task t close.DATAGRAMS_REQUIRED (count "refused: no QUIC datagrams" st)
      | inl _ => move task t (Some PhSlot) st
      end
  end.

(** [handshakes.enter]: a place when there is one, within [HELLO_TIMEOUT]. *)
(* @src/crates/throcc-server/src/session.rs 115-124! serve *)
Definition take_slot (task : Z) t (in_time : bool) st : Served :=
  if in_time then
    match try_enter HANDSHAKES (sd_handshakes st) (tk_source t) with
    | None => st
    | Some (_, counts) => move task t (Some PhGreeting) (st <| sd_handshakes := counts |>)
    end
  else close_task task t close.SERVER_BUSY (count "refused: no sign-in slot in time" st).

(** [greet]: the nonce it drew and the hello it read, unless the time ran out ([None]). *)
(* @src/crates/throcc-server/src/session.rs 125-142! serve *)
Definition greeted (task : Z) t (answer : option (bytes * ClientHello + ReadError)) st : Served :=
  match answer with
  | None => close_task task t close.PROTOCOL_ERROR (count "no hello in time" st)
  | Some (inr Closed) => move task t None (count "closed before signing in" st)
  | Some (inr (BadFrame _)) => close_task task t close.PROTOCOL_ERROR (count "protocol error before signing in" st)
  | Some (inl (server_nonce, hello)) =>
      match try_enter CONNECTIONS (sd_connections st) (tk_source t) with
      | None => close_task task t close.SERVER_BUSY (count "refused sign-in: too many signed in from its network" st)
      | Some (_, counts) => move task t (Some (PhHello server_nonce hello)) (st <| sd_connections := counts |>)
      end
  end.
End Passes.

(** ** Signing in *)

Section Serving.
Context {env : Env} {State : Type} (start_b : bytes -> bytes -> bytes -> bytes -> State * bytes)
  (spake2_finish : State -> bytes -> option bytes) (hkdf : bytes -> bytes -> bytes -> bytes) (hmac : bytes -> bytes -> bytes)
  (valid_key : bytes -> bool).
Implicit Types (st : Served) (t : Task).

Definition end_sign_in (task : Z) t (run : option InviteRun) (e : Authenticated + AuthRefusal) : Served -> Served :=
  move task t (Some (PhEnding run match e with inl a => EndedSigned a | inr r => EndedRefused r end)).

(** [exporter] is [None] where TLS gives none. *)
(* @src/crates/throcc-server/src/auth.rs 38-91 authenticate *)
Definition authenticate (task : Z) t (server_nonce : bytes) (hello : ClientHello) (exporter : option bytes) st : Served :=
  match exporter with
  | None => end_sign_in task t None (inr (RefuseAuth ProtocolMismatch)) st
  | Some exporter =>
      match hello with
      | HelloAuth pubkey client_nonce want_room signature =>
          let '(signed, h) := sign_in valid_key server_nonce exporter pubkey client_nonce want_room signature (hub_of st) in
          end_sign_in task t None signed (set_hub h st)
      | HelloEnroll code_id pubkey client_nonce pake_a name =>
          match enroll_hello code_id name with
          | inr refused => end_sign_in task t None (inr refused) st
          | inl (code_id, name) =>
              let '(begun, state) := begin_run (tk_source t) code_id (sd_state st) in
              let st := st <| sd_state := state |> in
              match begun with
              | inr refused => end_sign_in task t None (inr refused) st
              | inl (invite, now) =>
                  move task t (Some (PhExchange (mkEnrollment server_nonce client_nonce exporter pubkey code_id name pake_a now invite))) st
              end
          end
      end
  end.

Definition run_of (e : Enrollment) : option InviteRun := (fun i => (eo_code_id e, ir_minted_by i)) <$> eo_invite e.
(** The client's last message is [None] when a write or the read failed or timed out. *)
Definition exchanged (e : Enrollment) (spki_hash coin decoy : bytes) (finish : option PakeFinish) : option PakeReply * bool :=
  exchange start_b spake2_finish hkdf hmac valid_key coin (eo_code_id e) (run_secret (eo_invite e) decoy) (eo_pake_a e) (eo_pubkey e)
    (eo_server_nonce e) (eo_client_nonce e) spki_hash (eo_exporter e) finish.
(* @src/crates/throcc-server/src/auth.rs 132-161! Enrollment::run *)
Definition finish_exchange (task : Z) t (e : Enrollment) (coin decoy : bytes) (finish : option PakeFinish) st : Served :=
  let '(reply, ok) := exchanged e (h_fingerprint (hub_of st)) coin decoy finish in
  let '(enrolled, state) := complete_run (tk_source t) (eo_pubkey e) (eo_code_id e) (eo_name e) (eo_now e) (eo_invite e) ok (sd_state st) in
  end_sign_in task t (run_of e) match enrolled with inl row => inl {| an_row := row; an_want_room := None |} | inr r => inr r end
    (out ((fun r => OutPakeStep task (inl r)) <$> option_list reply) (st <| sd_state := state |>)).

(** [SIGN_IN_TIMEOUT] ran out: the run is dropped with what waited for it. *)
Definition sign_in_late (task : Z) t (e : Enrollment) : Served -> Served := move task t (Some (PhEnding (run_of e) EndedLate)).

(** The run is dropped, and what came of signing in is looked at. *)
(* @src/crates/throcc-server/src/session.rs 144-159! serve *)
Definition signing_in_ended (task : Z) t (run : option InviteRun) (e : SignInEnd) st : Served :=
  let st := match run with Some (code_id, minted_by) => set_hub (snd (drop_run code_id minted_by (hub_of st))) st | None => st end in
  match e with
  | EndedSigned a => move task t (Some (PhSigned a)) st
  | EndedRefused refused => move task t (Some (PhRefusing refused)) (count "authentication failed" st)
  | EndedLate => close_task task t close.PROTOCOL_ERROR (count "signing in took too long" st)
  end.

(* @src/crates/throcc-server/src/session.rs 161-188! serve *)
Definition connect_signed (task : Z) t (a : Authenticated) st : Served :=
  let '(connected, h) := connect (an_row a) task (an_want_room a) (hub_of st) in
  move task t (Some match connected with
    | inl (inl (conn, welcome)) => PhServing (ur_id (an_row a)) conn (LoopWelcome welcome)
    | inl (inr refused) => PhRefusing (RefuseAuth refused)
    | inr _ => PhRefusing RefuseInternal
    end) (set_hub h st).

(** The refusal is sent, if it is [written], and the client lets close first. *)
(* @src/crates/throcc-server/src/session.rs 349-364 refuse *)
Definition refuse (task : Z) t (refused : AuthRefusal) (written : bool) st : Served :=
  match refused with
  | RefuseInternal => close_task task t close.SERVER_BUSY st
  | RefuseAuth e => close_task task t close.AUTH_FAILED (out (if written then [OutAuthResult task (AuthErr e)] else []) st)
  | RefuseEnroll e => close_task task t close.AUTH_FAILED (out (if written then [OutPakeStep task (inr e)] else []) st)
  end.

(** ** Being served *)

Definition loop_on (task : Z) t (user : UserId) (conn : Z) (loop : Loop) : Served -> Served := move task t (Some (PhServing user conn loop)).

(* @src/crates/throcc-server/src/session.rs 190-196! serve *)
Definition welcomed (task : Z) t user conn (welcome : Welcome) (written : bool) st : Served :=
  if written then loop_on task t user conn LoopReading (out [OutAuthResult task (AuthOk welcome)] st)
  else loop_on task t user conn (LoopStopping Closed) st.
(* @src/crates/throcc-server/src/session.rs 251-264! read_loop *)
Definition read_request (task : Z) t user conn (message : Z * Request + ReadError) st : Served :=
  match message with
  | inr e => loop_on task t user conn (LoopStopping e) st
  | inl (id, request) =>
      let '(handled, h) := handle_request user conn request (hub_of st) in
      loop_on task t user conn match handled with Done response => LoopAnswer id response | Pending work => LoopQueued id work end (set_hub h st)
  end.
(** A turn of the password workers, if one is free. *)
(* @src/crates/throcc-server/src/session.rs 283-284! run_password_work *)
Definition take_turn (task : Z) t user conn (id : Z) (work : PasswordWork) st : Served :=
  if 0 <? sd_password_work st then loop_on task t user conn (LoopHashing id work) (st <| sd_password_work ::= Z.pred |>) else st.
(** The work with a [salt], or its failure. *)
(* @src/crates/throcc-server/src/session.rs 285-291! run_password_work *)
Definition work_done (task : Z) t user conn (id : Z) (work : PasswordWork) (salt : option bytes) st : Served :=
  loop_on task t user conn match salt with
    | Some salt => LoopHashed id (run_work salt work)
    | None => LoopAnswer id (RespErr Internal (lit "internal server error"))
    end (st <| sd_password_work ::= Z.succ |>).
(* @src/crates/throcc-server/src/session.rs 257-263! read_loop *)
Definition resume_request (task : Z) t user conn (id : Z) (d : PasswordDone) st : Served :=
  let '(response, h) := resume user conn d (hub_of st) in loop_on task t user conn (LoopAnswer id response) (set_hub h st).
(** A picture takes from its connection's budget of them until it is written. *)
(* @src/crates/throcc-server/src/session.rs 265-274! read_loop *)
Definition outbound (id : Z) (response : Response) : Outbound :=
  match response with
  | RespAvatar bs => OutBudgeted (SmResponse id response) (Z.min (Z.of_nat (length bs)) QUEUED_PICTURE_BYTES)
  | _ => OutMessage (SmResponse id response)
  end.
(* @src/crates/throcc-server/src/session.rs 275-277! read_loop *)
Definition answered (task : Z) t user conn (id : Z) (response : Response) (sent : bool) st : Served :=
  if sent then loop_on task t user conn LoopReading (out [OutQueued task (outbound id response)] st)
  else loop_on task t user conn (LoopStopping Closed) st.
(* @src/crates/throcc-server/src/session.rs 197-207! serve *)
Definition stop_serving (task : Z) t user conn (e : ReadError) st : Served :=
  let st := set_hub (snd (disconnect (E := Refusal) user conn (hub_of st))) st in
  move task t (Some PhParting) (out match e with BadFrame _ => [OutClosed task close.PROTOCOL_ERROR] | Closed => [] end st).

(** ** The server *)

Inductive TaskEvent :=
  | TeHandshake (h : TlsHandshake)
  | TeSlot (in_time : bool)
  | TeGreeted (answer : option (bytes * ClientHello + ReadError))
  | TeAuthenticate (exporter : option bytes)
  | TeExchange (coin decoy : bytes) (finish : option PakeFinish)
  | TeLate
  | TeEnded
  | TeConnect
  | TeRefuse (written : bool)
  | TeWelcomed (written : bool)
  | TeRead (message : Z * Request + ReadError)
  | TeTurn
  | TeWorked (salt : option bytes)
  | TeResume
  | TeAnswered (sent : bool)
  | TeStop
  | TePart.

(** What a task does next; what cannot happen in its phase does nothing. *)
(* @src/crates/throcc-server/src/session.rs 105-208! serve *)
Definition task_step (task : Z) (e : TaskEvent) t st : Served :=
  match tk_phase t, e with
  | PhHandshake, TeHandshake h => handshake_done task t h st
  | PhSlot, TeSlot in_time => take_slot task t in_time st
  | PhGreeting, TeGreeted answer => greeted task t answer st
  | PhHello server_nonce hello, TeAuthenticate exporter => authenticate task t server_nonce hello exporter st
  | PhExchange e, TeExchange coin decoy finish => finish_exchange task t e coin decoy finish st
  | PhExchange e, TeLate => sign_in_late task t e st
  | PhEnding run e, TeEnded => signing_in_ended task t run e st
  | PhSigned a, TeConnect => connect_signed task t a st
  | PhRefusing r, TeRefuse written => refuse task t r written st
  | PhServing user conn (LoopWelcome welcome), TeWelcomed written => welcomed task t user conn welcome written st
  | PhServing user conn LoopReading, TeRead message => read_request task t user conn message st
  | PhServing user conn (LoopQueued id work), TeTurn => take_turn task t user conn id work st
  | PhServing user conn (LoopHashing id work), TeWorked salt => work_done task t user conn id work salt st
  | PhServing user conn (LoopHashed id d), TeResume => resume_request task t user conn id d st
  | PhServing user conn (LoopAnswer id response), TeAnswered sent => answered task t user conn id response sent st
  | PhServing user conn (LoopStopping e), TeStop => stop_serving task t user conn e st
  | PhParting, TePart => move task t None st
  | _, _ => st
  end.

Inductive ServeEvent :=
  | SvIncoming (peer : IpAddr) (validated : bool) (now : Z)
  | SvTask (task : Z) (e : TaskEvent)
  (** The tickers. *)
  | SvKeyframes
  | SvInactive (now : Z)
  | SvReport.

(* @src/crates/throcc-server/src/lib.rs 161-241! Server::run *)
Definition serve_step (e : ServeEvent) st : Served :=
  match e with
  | SvIncoming peer validated now => incoming peer validated now st
  | SvTask task e => match sd_tasks st !! task with Some t => task_step task e t st | None => st end
  | SvKeyframes => set_hub (snd (flush_keyframes (E := Refusal) (hub_of st))) st
  | SvInactive now => set_hub (snd (remove_inactive now (hub_of st))) st
  | SvReport => st <| sd_state ::= (fun s => mkServer (sv_hub s) (sv_limiter s) (snd (refusal_report (sv_refusals s)))) |>
  end.
Definition serve_run (es : list ServeEvent) st : Served := foldl (fun st e => serve_step e st) st es.

(** What [Server::bind] makes around its hub. *)
(* @src/crates/throcc-server/src/lib.rs 133-145! Server::bind *)
Definition served_new (h : Hub) : Served :=
  mkServed (mkServer h limiter_default ∅) arrival_default no_counts no_counts no_counts PASSWORD_WORKERS ∅ 0 [].
End Serving.

(** ** The writer of a connection

    The queue its events and answers wait in, the picture bytes its [Semaphore] still has,
    the answer [read_loop] waits to send, what is being written, and whether the loop runs. *)
Record Writer := mkWriter { wr_queue : list Outbound; wr_free : Z; wr_hand : option Outbound; wr_writing : option Outbound; wr_open : bool }.
(* @src/crates/throcc-server/src/session.rs 250-250! read_loop *)
Definition writer_new : Writer := mkWriter [] QUEUED_PICTURE_BYTES None None true.
Definition permits (o : Outbound) : Z := match o with OutBudgeted _ n => n | _ => 0 end.
Definition permits_in (l : list Outbound) : Z := foldr (fun o n => permits o + n) 0 l.

Inductive WriterOp :=
  (** [acquire_many_owned], and [outgoing.send]: each waits until it can. *)
  | WrAcquire (id : Z) (response : Response)
  | WrSend
  (** The hub's [try_send] of an event or of a kick. *)
  | WrHub (e : Event + str * Z)
  (** [write_loop]'s next, and its end: whether writing it succeeded. *)
  | WrTake
  | WrWritten (written : bool).

(* @src/crates/throcc-server/src/session.rs 265-274! read_loop *)
Definition writer_acquire (id : Z) (response : Response) (w : Writer) : Writer :=
  let o := outbound id response in
  if bool_decide (wr_hand w = None) && (permits o <=? wr_free w)
  then mkWriter (wr_queue w) (wr_free w - permits o) (Some o) (wr_writing w) (wr_open w) else w.
(** Sending to a queue nobody reads fails, and the message is dropped with its permits. *)
(* @src/crates/throcc-server/src/session.rs 275-277! read_loop *)
Definition writer_send (w : Writer) : Writer :=
  match wr_hand w with
  | None => w
  | Some o =>
      if negb (wr_open w) then mkWriter (wr_queue w) (wr_free w + permits o) None (wr_writing w) false
      else if (length (wr_queue w) <? EVENT_QUEUE)%nat then mkWriter (wr_queue w ++ [o]) (wr_free w) None (wr_writing w) true else w
  end.
Definition hub_outbound (e : Event + str * Z) : Outbound :=
  match e with inl e => OutMessage (SmEvent e) | inr (reason, code) => OutKick reason code end.
Definition writer_hub (e : Event + str * Z) (w : Writer) : Writer :=
  if wr_open w && (length (wr_queue w) <? EVENT_QUEUE)%nat
  then mkWriter (wr_queue w ++ [hub_outbound e]) (wr_free w) (wr_hand w) (wr_writing w) true else w.
(* @src/crates/throcc-server/src/session.rs 327-327! write_loop *)
Definition writer_take (w : Writer) : Writer :=
  match wr_queue w, wr_writing w with
  | o :: queue, None => if wr_open w then mkWriter queue (wr_free w) (wr_hand w) (Some o) true else w
  | _, _ => w
  end.
(** A kick ends the loop, and so does a write that fails; the queue is dropped with it. *)
(* @src/crates/throcc-server/src/session.rs 328-346! write_loop *)
Definition writer_written (written : bool) (w : Writer) : Writer :=
  match wr_writing w with
  | None => w
  | Some o =>
      match o, written with
      | OutKick _ _, _ | _, false => mkWriter [] (wr_free w + permits o + permits_in (wr_queue w)) (wr_hand w) None false
      | _, true => mkWriter (wr_queue w) (wr_free w + permits o) (wr_hand w) None (wr_open w)
      end
  end.
Definition writer_op (op : WriterOp) (w : Writer) : Writer :=
  match op with
  | WrAcquire id response => writer_acquire id response w
  | WrSend => writer_send w
  | WrHub e => writer_hub e w
  | WrTake => writer_take w
  | WrWritten written => writer_written written w
  end.
