(* ===== verification/ServingTheorems.v ===== *)
(** * What serving connections promises

    Over any turns of the connections' tasks: the gates count exactly the places their tasks
    hold and give all of them back, the hub is driven as its own theorems assume, and whoever
    has a session has signed for its account on the connection that is served. *)
From S2P Require Import Prelude Float64 Buckets Ids Frame Invite Messages Limits RoomPassword Sfu Crypto Database DatabaseFacts.
From S2P Require Import HubState Hub Auth HubLogic HubFacts HubSteps HubEntry AuthFacts HubSessions HubTheorems.
From S2P Require Import Serving.
Open Scope Z_scope.

(** ** A gate's counts, over the passes held *)

Abbreviation members := Limits.members.

Record gate_holds (caps : Caps) (counts : Counts) (ps : list SourceKey) : Prop := {
  gh_total : cn_total counts = Z.of_nat (length ps);
  gh_sources : represents (cn_sources counts) (fun k => members id k ps);
  gh_networks : represents (cn_networks counts) (fun k => members network k ps);
  gh_caps k : cn_total counts <= total caps /\ members id k ps <= per_source caps /\ members network k ps <= per_network caps
}.
Definition one (holds : Phase -> bool) (t : Task) : list SourceKey := if holds (tk_phase t) then [tk_source t] else [].
Definition held (holds : Phase -> bool) (tasks : gmap Z Task) : list SourceKey := mjoin ((fun '(_, t) => one holds t) <$> map_to_list tasks).

Lemma members_perm g k ps ps' : ps ≡ₚ ps' -> members g k ps = members g k ps'.
Proof. intros E. unfold members. by rewrite E. Qed.
Lemma gate_perm caps c ps ps' : ps ≡ₚ ps' -> gate_holds caps c ps -> gate_holds caps c ps'.
Proof.
  intros E [Ht Hs Hn Hc]. split; [by rewrite <- E|..].
  - eapply represents_ext; [exact Hs|]. intros k. by apply members_perm.
  - eapply represents_ext; [exact Hn|]. intros k. by apply members_perm.
  - intros k. rewrite <- !(members_perm _ _ _ _ E). apply Hc.
Qed.
Lemma members_grow g k p ps : members g k (p :: ps) = members g k ps + if decide (g p = k) then 1 else 0.
Proof. change (p :: ps) with ([p] ++ ps). rewrite members_app, members_one. lia. Qed.
Lemma gate_enter caps c ps s p c' : gate_holds caps c ps -> try_enter caps c s = Some (p, c') -> p = s /\ gate_holds caps c' (s :: ps).
Proof.
  intros [Ht Hs Hn Hc] (-> & H1 & H2 & H3 & ->)%try_enter_Some. split; [done|].
  rewrite (represents_default _ _ _ Hs) in H2. rewrite (represents_default _ _ _ Hn) in H3. split; cbn [cn_total cn_sources cn_networks].
  - cbn [length]. lia.
  - eapply represents_ext; [apply represents_increment; [exact Hs|unfold members; lia]|]. intros k. by rewrite members_grow.
  - eapply represents_ext; [apply represents_increment; [exact Hn|unfold members; lia]|]. intros k. by rewrite members_grow.
  - intros k. rewrite !members_grow. destruct (Hc k) as (? & ? & ?). change (id s) with s.
    destruct (decide (network s = k)) as [En|], (decide (s = k)) as [Es|]; rewrite ?En, ?Es in *; lia.
Qed.
Lemma gate_leave caps c p ps : gate_holds caps c (p :: ps) -> gate_holds caps (leave c p) ps.
Proof.
  intros [Ht Hs Hn Hc]. assert (forall g, 0 < members g (g p) (p :: ps)) as Hpos.
  { intros g. rewrite members_grow, decide_True by done. unfold members. lia. }
  split; cbn [cn_total cn_sources cn_networks leave].
  - cbn [length] in Ht. lia.
  - eapply represents_ext; [apply represents_decrement; [exact Hs|apply (Hpos id)]|]. intros k. cbn beta. rewrite members_grow. change (id p) with p. lia.
  - eapply represents_ext; [apply represents_decrement; [exact Hn|apply Hpos]|]. intros k. cbn beta. rewrite members_grow. lia.
  - intros k. destruct (Hc k) as (? & ? & ?). rewrite !members_grow in *. repeat case_decide; lia.
Qed.

Lemma held_split holds tasks i t : tasks !! i = Some t -> held holds tasks ≡ₚ one holds t ++ held holds (delete i tasks).
Proof. intros Hi. unfold held. by rewrite <- (map_to_list_delete tasks i t Hi). Qed.
Lemma held_fresh holds tasks i t : tasks !! i = None -> held holds (<[i := t]> tasks) ≡ₚ one holds t ++ held holds tasks.
Proof. intros Hi. unfold held. by rewrite map_to_list_insert. Qed.
Lemma held_replaced holds tasks i t : held holds (<[i := t]> tasks) ≡ₚ one holds t ++ held holds (delete i tasks).
Proof. rewrite <- (insert_delete_eq tasks i t). apply held_fresh. apply lookup_delete_eq. Qed.
Definition next_tasks (task : Z) (t : Task) (new : option Phase) : gmap Z Task -> gmap Z Task :=
  match new with Some phase => <[task := mkTask (tk_source t) phase]> | None => delete task end.
Lemma held_next holds tasks task t new :
  held holds (next_tasks task t new tasks) ≡ₚ (if from_option holds false new then [tk_source t] else []) ++ held holds (delete task tasks).
Proof. destruct new as [p|]; cbn [next_tasks from_option]; [apply held_replaced|done]. Qed.

(** A task that goes on: a pass it no longer holds is dropped, and one it has just got was
    counted. *)
Lemma gate_next caps holds c tasks task t new : tasks !! task = Some t ->
  gate_holds caps c ((if negb (holds (tk_phase t)) && from_option holds false new then [tk_source t] else []) ++ held holds tasks) ->
  gate_holds caps (release holds (tk_phase t) new (tk_source t) c) (held holds (next_tasks task t new tasks)).
Proof.
  intros Ht Hc. eapply gate_perm; [symmetry; apply held_next|]. unfold release.
  apply (gate_perm _ _ _ ((if negb (holds (tk_phase t)) && from_option holds false new then [tk_source t] else []) ++ one holds t ++ held holds (delete task tasks))) in Hc;
    [|by rewrite (held_split _ _ _ _ Ht)].
  unfold one in Hc. destruct (holds (tk_phase t)), (from_option holds false new); cbn [negb andb app] in *; [done|by apply gate_leave|done|done].
Qed.

(** ** The places *)

Record places_ok (st : Served) : Prop := {
  po_unauthenticated : gate_holds UNAUTHENTICATED (sd_unauthenticated st) (held holds_unauthenticated (sd_tasks st));
  po_handshakes : gate_holds HANDSHAKES (sd_handshakes st) (held holds_handshake (sd_tasks st));
  po_connections : gate_holds CONNECTIONS (sd_connections st) (held holds_connection (sd_tasks st));
  po_work : 0 <= sd_password_work st /\ sd_password_work st + Z.of_nat (length (held hashing (sd_tasks st))) = PASSWORD_WORKERS;
  po_next task : is_Some (sd_tasks st !! task) -> task < sd_next st
}.
Definition holds_new (holds : Phase -> bool) (t : Task) (new : option Phase) : list SourceKey :=
  if negb (holds (tk_phase t)) && from_option holds false new then [tk_source t] else [].
Definition work_of (p : option Phase) : Z := if from_option hashing false p then 1 else 0.

Lemma places_move st task t new : sd_tasks st !! task = Some t ->
  gate_holds UNAUTHENTICATED (sd_unauthenticated st) (holds_new holds_unauthenticated t new ++ held holds_unauthenticated (sd_tasks st)) ->
  gate_holds HANDSHAKES (sd_handshakes st) (holds_new holds_handshake t new ++ held holds_handshake (sd_tasks st)) ->
  gate_holds CONNECTIONS (sd_connections st) (holds_new holds_connection t new ++ held holds_connection (sd_tasks st)) ->
  0 <= sd_password_work st /\
  sd_password_work st + Z.of_nat (length (held hashing (sd_tasks st))) + work_of new - work_of (Some (tk_phase t)) = PASSWORD_WORKERS ->
  (forall i, is_Some (sd_tasks st !! i) -> i < sd_next st) -> places_ok (move task t new st).
Proof.
  intros Ht Hu Hh Hc [Hw0 Hw] Hn. assert (sd_tasks (move task t new st) = next_tasks task t new (sd_tasks st)) as E by (by destruct new).
  split; rewrite ?E; [by apply gate_next..| |].
  - split; [done|]. rewrite <- Hw. rewrite (Permutation_length (held_next hashing (sd_tasks st) task t new)).
    rewrite (Permutation_length (held_split hashing _ _ _ Ht)), !length_app. unfold one, work_of. cbn [from_option].
    change (sd_password_work (move task t new st)) with (sd_password_work st).
    destruct (hashing (tk_phase t)), (from_option hashing false new); cbn [length]; lia.
  - intros i Hi. change (sd_next (move task t new st)) with (sd_next st). apply Hn.
    destruct new as [p|]; cbn in Hi; [apply lookup_insert_is_Some in Hi as [<-|[_ Hi]]; [by eexists|done]|]. by apply lookup_delete_is_Some in Hi as [_ Hi].
Qed.
(** A task that gets no place and no worker. *)
Definition keeps_places (p : Phase) (new : option Phase) : bool :=
  match new with
  | None => negb (hashing p)
  | Some q => implb (holds_unauthenticated q) (holds_unauthenticated p) && implb (holds_handshake q) (holds_handshake p) &&
      implb (holds_connection q) (holds_connection p) && Bool.eqb (hashing p) (hashing q)
  end.
Lemma places_on st task t new : places_ok st -> sd_tasks st !! task = Some t -> keeps_places (tk_phase t) new = true -> places_ok (move task t new st).
Proof.
  intros [Hu Hh Hc Hw Hn] Ht Hk. unfold keeps_places in Hk.
  assert (forall holds, (holds = holds_unauthenticated \/ holds = holds_handshake \/ holds = holds_connection) -> holds_new holds t new = []) as He.
  { unfold holds_new. destruct new as [q|]; [|intros; by rewrite andb_false_r]. cbn [from_option].
    intros holds [->|[->| ->]]; destruct (holds_unauthenticated q), (holds_unauthenticated (tk_phase t)), (holds_handshake q), (holds_handshake (tk_phase t)),
      (holds_connection q), (holds_connection (tk_phase t)); done. }
  apply places_move; [done|rewrite He by tauto; done..| |done]. unfold work_of. cbn [from_option].
  destruct new as [q|]; cbn [from_option]; [apply andb_true_iff in Hk as [_ Hk]; apply Bool.eqb_prop in Hk as ->|apply negb_true_iff in Hk; rewrite Hk]; lia.
Qed.
Lemma places_same st st' : places_ok st -> sd_unauthenticated st' = sd_unauthenticated st -> sd_handshakes st' = sd_handshakes st ->
  sd_connections st' = sd_connections st -> sd_password_work st' = sd_password_work st -> sd_tasks st' = sd_tasks st -> sd_next st' = sd_next st -> places_ok st'.
Proof. intros [Hu Hh Hc Hw Hn] E1 E2 E3 E4 E5 E6. split; rewrite ?E1, ?E2, ?E3, ?E4, ?E5, ?E6; done. Qed.

Lemma places_new h : places_ok (served_new h).
Proof. split; cbn; [split; cbn; try done; intros k; vm_compute; done..|done|by intros ? []]. Qed.
Lemma places_incoming peer validated at_ st : places_ok st -> places_ok (incoming peer validated at_ st).
Proof.
  intros H. unfold incoming. destruct validated; cbn [negb]; [|done]. destruct (try_enter _ _ _) as [[pass counts]|] eqn:E; [|by apply (places_same st)].
  destruct (arrival_admit _ _ _) as [admitted arrivals]. destruct H as [Hu Hh Hc Hw Hn].
  destruct (gate_enter _ _ _ _ _ _ Hu E) as [-> Hu']. destruct admitted; cbn [negb].
  - assert (sd_tasks st !! sd_next st = None) as Hfresh.
    { destruct (sd_tasks st !! sd_next st) eqn:En; [|done]. specialize (Hn (sd_next st) ltac:(by eexists)). lia. }
    split; cbn.
    + eapply gate_perm; [symmetry; by apply held_fresh|]. exact Hu'.
    + eapply gate_perm; [symmetry; by apply held_fresh|]. exact Hh.
    + eapply gate_perm; [symmetry; by apply held_fresh|]. exact Hc.
    + by rewrite (Permutation_length (held_fresh hashing (sd_tasks st) (sd_next st) (mkTask (source_of peer) PhHandshake) Hfresh)).
    + intros i [<-|[_ Hi]]%lookup_insert_is_Some; [lia|]. specialize (Hn i Hi). lia.
  - split; cbn; try done. by apply gate_leave.
Qed.

Section Run.
Context {env : Env} {State : Type} (start_b : bytes -> bytes -> bytes -> bytes -> State * bytes)
  (spake2_finish : State -> bytes -> option bytes) (hkdf : bytes -> bytes -> bytes -> bytes) (hmac : bytes -> bytes -> bytes)
  (valid_key : bytes -> bool).
Abbreviation task_step := (task_step start_b spake2_finish hkdf hmac valid_key).
Abbreviation serve_step := (serve_step start_b spake2_finish hkdf hmac valid_key).
Abbreviation serve_run := (serve_run start_b spake2_finish hkdf hmac valid_key).

Lemma places_task task e t st : places_ok st -> sd_tasks st !! task = Some t -> places_ok (task_step task e t st).
Proof.
  intros H Ht. destruct t as [source phase]. cbn [Serving.task_step tk_phase].
  destruct phase as [| | |nonce hello|x|run x|a|r|user conn loop|]; [..|destruct loop|]; destruct e; try exact H; cbn [Serving.task_step tk_phase].
  all: unfold handshake_done, take_slot, greeted, close_task, authenticate, end_sign_in, finish_exchange, sign_in_late, signing_in_ended, connect_signed,
    refuse, welcomed, read_request, take_turn, work_done, resume_request, answered, stop_serving, loop_on, count, out, set_hub.
  all: try (repeat case_match; (apply places_on; [by apply (places_same st)|done|done])).
  - destruct in_time; [|apply places_on; [by apply (places_same st)|done|done]]. destruct (try_enter _ _ _) as [[pass counts]|] eqn:E; [|exact H].
    destruct H as [Hu Hh Hc Hw Hn]. apply (gate_enter _ _ _ _ _ _ Hh) in E as [_ Hh']. apply places_move; try done. unfold work_of. cbn in *. lia.
  - repeat case_match; try (apply places_on; [by apply (places_same st)|done|done]). subst.
    match goal with E : try_enter _ _ _ = Some _ |- _ => rename E into Een end.
    destruct H as [Hu Hh Hc Hw Hn]. apply (gate_enter _ _ _ _ _ _ Hc) in Een as [_ Hc']. apply places_move; try done. unfold work_of. cbn in *. lia.
  - destruct (Z.ltb_spec 0 (sd_password_work st)); [|exact H]. destruct H as [Hu Hh Hc Hw Hn]. apply places_move; try done. unfold work_of. cbn in *. lia.
  - destruct H as [Hu Hh Hc Hw Hn]. destruct salt; (apply places_move; try done; unfold work_of; cbn in *; lia).
Qed.
Lemma places_step e st : places_ok st -> places_ok (serve_step e st).
Proof.
  intros H. destruct e as [peer validated at_|task e| |at_|]; cbn [Serving.serve_step]; [by apply places_incoming| |by apply (places_same st)..].
  destruct (sd_tasks st !! task) as [t|] eqn:Et; [by apply places_task|done].
Qed.
Lemma serve_run_app a b st : serve_run (a ++ b) st = serve_run b (serve_run a st).
Proof. apply foldl_app. Qed.

Lemma none_held holds : held holds ∅ = []. Proof. unfold held. by rewrite map_to_list_empty. Qed.
Lemma gate_empty caps c : gate_holds caps c [] -> c = no_counts.
Proof.
  intros [Ht Hs Hn _]. destruct c as [n s w]. cbn in *. unfold no_counts. subst n. f_equal; apply map_empty; intros k; [rewrite (Hs k)|rewrite (Hn k)]; done.
Qed.

(** C0: however connections come, wait, sign in, are refused, fail, are served and end, each
    of the three gates counts exactly the places held by connections in the phases that hold
    one: never more than its caps allow for a source, a network or in all, and no more room
    passwords are hashed at once than there are workers.  Once all connections are gone,
    every place and worker is free again. *)
Theorem the_gates_count_their_connections (h : Hub) (es : list ServeEvent) :
  let st := serve_run es (served_new h) in
  gate_holds UNAUTHENTICATED (sd_unauthenticated st) (held holds_unauthenticated (sd_tasks st)) /\
  gate_holds HANDSHAKES (sd_handshakes st) (held holds_handshake (sd_tasks st)) /\
  gate_holds CONNECTIONS (sd_connections st) (held holds_connection (sd_tasks st)) /\
  0 <= sd_password_work st /\ sd_password_work st + Z.of_nat (length (held hashing (sd_tasks st))) = PASSWORD_WORKERS /\
  (sd_tasks st = ∅ -> sd_unauthenticated st = no_counts /\ sd_handshakes st = no_counts /\ sd_connections st = no_counts /\
    sd_password_work st = PASSWORD_WORKERS).
Proof.
  intros st. assert (places_ok st) as [Hu Hh Hc [Hw0 Hw] _].
  { unfold st. generalize (places_new h). generalize (served_new h). induction es as [|e es IH]; intros s Hs; [done|]. by apply IH, places_step. }
  split_and!; [done..|]. intros E. rewrite E, none_held in *. split_and!; [by eapply gate_empty..|cbn in Hw; lia].
Qed.

(** ** Who is signed in *)

(** The client signs with its [key] what this connection's nonce and its TLS session made of
    it, or, enrolling, the transcript of a PAKE over an invite's secret. *)
Definition signs (st : Served) (e : TaskEvent) (p : Phase) (key : PublicKey) : Prop :=
  match p, e with
  | PhHello server_nonce (HelloAuth pubkey client_nonce _ signature), TeAuthenticate (Some exporter) =>
      pubkey = key /\ verify valid_key ed25519_ok key (auth_message server_nonce client_nonce exporter) signature = true
  | PhExchange x, TeExchange coin decoy (Some f) =>
      eo_pubkey x = key /\ is_Some (eo_invite x) /\
      (exchanged start_b spake2_finish hkdf hmac valid_key x (h_fingerprint (hub_of st)) coin decoy (Some f)).2 = true /\
      exists transcript, tp_server_nonce transcript = eo_server_nonce x /\ tp_exporter transcript = eo_exporter x /\
        verify valid_key ed25519_ok key (transcript_bytes transcript) (pf_signature f) = true
  | _, _ => False
  end.
(** A task's client did so at some point of a run. *)
Definition signed_for (start : Served) (es : list ServeEvent) (task : Z) (key : PublicKey) : Prop :=
  exists before e after t, es = before ++ SvTask task e :: after /\
    sd_tasks (serve_run before start) !! task = Some t /\ signs (serve_run before start) e (tk_phase t) key.
Lemma signed_later start es more task key : signed_for start es task key -> signed_for start (es ++ more) task key.
Proof. intros (before & e & after & t & -> & Ht & Hs). exists before, e, (after ++ more), t. split; [by rewrite <- app_assoc|done]. Qed.
Lemma signed_now start es task e t key : sd_tasks (serve_run es start) !! task = Some t -> signs (serve_run es start) e (tk_phase t) key ->
  signed_for start (es ++ [SvTask task e]) task key.
Proof. intros Ht Hs. by exists es, e, [], t. Qed.

Lemma sign_in_run nonce exporter pubkey client_nonce want signature h r h' :
  sign_in valid_key nonce exporter pubkey client_nonce want signature h = (r, h') ->
  (h' = h \/ h' = (db_call (user_by_pubkey db_fault pubkey) h).2) /\
  forall a, r = inl a -> verify valid_key ed25519_ok pubkey (auth_message nonce client_nonce exporter) signature = true /\
    ur_pubkey (an_row a) = pubkey /\ is_u64 (ur_id (an_row a)).
Proof.
  unfold sign_in. destruct (verify _ _ _ _ _) eqn:Ev; cbn [negb]; [|intros [= <- <-]; split; [by left|done]].
  intros H. unfold map_err in H. rewrite run_bind in H. destruct (db_call (user_by_pubkey db_fault pubkey) h) as [[[row|]|x] h1] eqn:E.
  - apply looked_up in E as [Hk Hi]. cbn in H. injection H as <- <-. split; [by right|]. by intros a [= <-].
  - cbn in H. injection H as <- <-. split; [by right|done].
  - injection H as <- <-. split; [by right|done].
Qed.
Lemma exchanged_signed x spki coin decoy finish : (exchanged start_b spake2_finish hkdf hmac valid_key x spki coin decoy finish).2 = true ->
  exists f transcript, finish = Some f /\ tp_server_nonce transcript = eo_server_nonce x /\ tp_exporter transcript = eo_exporter x /\
    verify valid_key ed25519_ok (eo_pubkey x) (transcript_bytes transcript) (pf_signature f) = true.
Proof.
  unfold exchanged, exchange. destruct (server_respond _ _ _ _ _ _) as [pake|]; [|done]. destruct finish as [f|]; [|done]. cbn [snd].
  intros [_ Hv]%andb_true_iff. eexists f, _. split_and!; [done| | |exact Hv]; done.
Qed.
Lemma completed source pubkey code name at_ invite ok st row st' : fit (h_db (sv_hub st)) ->
  complete_run source pubkey code name at_ invite ok st = (inl row, st') -> ok = true /\ is_Some invite /\ ur_pubkey row = pubkey /\ is_u64 (ur_id row).
Proof.
  intros Hf. unfold complete_run. destruct ok; cbn [negb orb]; [|done]. destruct invite as [i|]; [|done]. rewrite bool_decide_eq_false_2 by done.
  destruct (db_call _ _) as [[[e|]|x] h] eqn:E; [|done..]. apply enrolled_row in E as [? ?]; [|done]. intros [= <- _]. by split_and!.
Qed.

(** ** The hub of a serving run *)

Section Hub.
Context (d : Database) (fingerprint : bytes).

(** What the state machine of the hub reaches, but for the counts of refusals. *)
Definition driven (st : ServerState) : Prop :=
  exists s0, reachable d fingerprint s0 /\ sv_hub s0 = sv_hub st /\ sv_limiter s0 = sv_limiter st.
Lemma act_same a s s' : sv_hub s = sv_hub s' -> sv_limiter s = sv_limiter s' ->
  sv_hub (act a s) = sv_hub (act a s') /\ sv_limiter (act a s) = sv_limiter (act a s').
Proof.
  destruct s as [h l c], s' as [h' l' c']. cbn. intros <- <-. destruct a as [user conn request|user conn x|row conn want|user conn| |at_|pubkey|op]; try done.
  destruct op as [source code|source pubkey code name at_ invite exchanged|code minted_by]; try done; cbn [act run_one].
  - unfold begin_run. cbn. destruct (is_full h); [done|]. destruct (begin _ _ _) as [[] limiter]; [|done]. cbn.
    by destruct (claim_try _ _ _) as [[[i|]|e] h1].
  - unfold complete_run. cbn. destruct (_ || _); [done|]. by destruct (db_call _ _) as [[[e|]|x] h1].
Qed.
Lemma driven_act a st st' : driven st -> act_ok a st -> sv_hub st' = sv_hub (act a st) -> sv_limiter st' = sv_limiter (act a st) -> driven st'.
Proof.
  intros (s0 & Hr & Eh & El) Hok Eh' El'. destruct (act_same a s0 st Eh El) as [Ea Eb]. exists (act a s0). split; [|split; congruence].
  apply reach_act; [done|]. destruct a; try done. cbn in *. by rewrite Eh.
Qed.
Lemma driven_same st st' : driven st -> sv_hub st' = sv_hub st -> sv_limiter st' = sv_limiter st -> driven st'.
Proof. intros (s0 & Hr & Eh & El) Eh' El'. exists s0. split; [done|]. split; congruence. Qed.

Context (start : Served).
Abbreviation signed_for := (signed_for start).

(** What the phase of a task says of its client. *)
Definition claims (es : list ServeEvent) (task : Z) (p : Phase) : Prop :=
  match p with
  | PhEnding _ (EndedSigned a) | PhSigned a => is_u64 (ur_id (an_row a)) /\ signed_for es task (ur_pubkey (an_row a))
  | _ => True
  end.
(** A session's task is being served, and its client signed with the session's key. *)
Definition belongs (es : list ServeEvent) (tasks : gmap Z Task) (u : UserId) (s : Session) : Prop :=
  exists task t loop, tasks !! task = Some t /\ tk_phase t = PhServing u (s_conn_id s) loop /\ signed_for es task (ur_pubkey (s_row s)).
Record served_ok (es : list ServeEvent) (st : Served) : Prop := {
  so_run : st = serve_run es start;
  so_places : places_ok st;
  so_driven : driven (sd_state st);
  so_fit : fit (h_db (hub_of st));
  so_next : 0 <= h_next_conn (hub_of st) <= Z.of_nat (length es);
  so_claims task t : sd_tasks st !! task = Some t -> claims es task (tk_phase t);
  so_sessions u s : h_sessions (hub_of st) !! u = Some s -> belongs es (sd_tasks st) u s
}.
Lemma claims_later es more task p : claims es task p -> claims (es ++ more) task p.
Proof. destruct p as [| | | | |run [a|r|]|a| | |]; cbn; try done; intros [? ?]; (split; [done|by apply signed_later]). Qed.

(** Nothing happened to the tasks; the hub did what made no session. *)
Lemma ok_hub es e st st' : served_ok es st -> st' = serve_step e st -> sd_tasks st' = sd_tasks st -> driven (sd_state st') ->
  fewer (hub_of st) (hub_of st') -> served_ok (es ++ [e]) st'.
Proof.
  intros H -> Et Hd Hf. destruct H as [Hrun Hp _ Hfit Hn Hc Hs]. split.
  - by rewrite serve_run_app, <- Hrun.
  - by apply places_step.
  - done.
  - by apply (fw_fit _ _ Hf).
  - rewrite (fw_next _ _ Hf), length_app. cbn [length]. lia.
  - intros task t. rewrite Et. intros Ht. by apply claims_later, Hc.
  - intros u s Hu. destruct (fw_sessions _ _ Hf u s Hu) as (s0 & Hs0 & Ec & _ & Ep). destruct (Hs u s0 Hs0) as (task & t & loop & Ht & Eph & Hsig).
    exists task, t, loop. rewrite Et, Ec, Ep. split_and!; [done..|]. by apply signed_later.
Qed.

(** One task goes on. *)
Lemma ok_move es e st st1 task t new : served_ok es st -> sd_tasks st !! task = Some t -> sd_tasks st1 = sd_tasks st ->
  serve_step e st = move task t new st1 -> driven (sd_state st1) -> fewer (hub_of st) (hub_of st1) ->
  (match new with Some p => claims (es ++ [e]) task p | None => True end) ->
  (forall u c loop, tk_phase t = PhServing u c loop -> (exists loop', new = Some (PhServing u c loop')) \/ is_current (hub_of st1) u c = false) ->
  served_ok (es ++ [e]) (serve_step e st).
Proof.
  intros H Ht Et Est Hd Hf Hnew Hserving. pose proof H as [Hrun Hp _ Hfit Hn Hc Hs].
  assert (sd_tasks (serve_step e st) = next_tasks task t new (sd_tasks st)) as Etasks by (rewrite Est, <- Et; by destruct new).
  assert (sd_state (serve_step e st) = sd_state st1) as Estate by (by rewrite Est).
  assert (hub_of (serve_step e st) = hub_of st1) as Ehub by (unfold hub_of; by rewrite Estate).
  split.
  - by rewrite serve_run_app, <- Hrun.
  - by apply places_step.
  - by rewrite Estate.
  - rewrite Ehub. by apply (fw_fit _ _ Hf).
  - rewrite Ehub, (fw_next _ _ Hf), length_app. cbn [length]. lia.
  - intros i t'. rewrite Etasks. destruct new as [p|]; cbn [next_tasks].
    + intros [[<- <-]|[_ Hi]]%lookup_insert_Some; [exact Hnew|by apply claims_later, Hc].
    + intros [_ Hi]%lookup_delete_Some. by apply claims_later, Hc.
  - intros u s Hu. rewrite Ehub in Hu. destruct (fw_sessions _ _ Hf u s Hu) as (s0 & Hs0 & Ec & _ & Ep).
    destruct (Hs u s0 Hs0) as (i & t' & loop & Hi & Eph & Hsig). unfold belongs. rewrite Etasks, Ec, Ep.
    destruct (decide (i = task)) as [->|Hne].
    + rewrite Ht in Hi. injection Hi as <-. destruct (Hserving _ _ _ Eph) as [[loop' ->]|Hgone].
      * exists task, (mkTask (tk_source t) (PhServing u (s_conn_id s0) loop')), loop'. cbn [next_tasks]. rewrite lookup_insert_eq. split_and!; [done..|]. by apply signed_later.
      * exfalso. unfold is_current in Hgone. rewrite Hu, Ec, Z.eqb_refl in Hgone. done.
    + exists i, t', loop. split_and!; [|done|by apply signed_later]. destruct new; cbn [next_tasks]; by rewrite ?lookup_insert_ne, ?lookup_delete_ne by done.
Qed.

(** The same, where the hub did nothing or one of its actions. *)
Lemma ok_idle es e st st1 task t new : served_ok es st -> sd_tasks st !! task = Some t -> sd_tasks st1 = sd_tasks st ->
  serve_step e st = move task t new st1 -> hub_of st1 = hub_of st -> sv_limiter (sd_state st1) = sv_limiter (sd_state st) ->
  (match new with Some p => claims (es ++ [e]) task p | None => True end) ->
  (forall u c loop, tk_phase t = PhServing u c loop -> exists loop', new = Some (PhServing u c loop')) ->
  served_ok (es ++ [e]) (serve_step e st).
Proof.
  intros H Ht Et Est Eh El Hnew Hserving. eapply ok_move; try done.
  - by apply (driven_same _ _ (so_driven _ _ H)).
  - rewrite Eh. reflexivity.
  - intros u c loop Hp. left. by eapply Hserving.
Qed.
Lemma ok_act a es e st st1 task t new : served_ok es st -> sd_tasks st !! task = Some t -> sd_tasks st1 = sd_tasks st ->
  serve_step e st = move task t new st1 -> act_ok a (sd_state st) -> hub_of st1 = sv_hub (act a (sd_state st)) ->
  sv_limiter (sd_state st1) = sv_limiter (act a (sd_state st)) -> fewer (hub_of st) (hub_of st1) ->
  (match new with Some p => claims (es ++ [e]) task p | None => True end) ->
  (forall u c loop, tk_phase t = PhServing u c loop -> (exists loop', new = Some (PhServing u c loop')) \/ is_current (hub_of st1) u c = false) ->
  served_ok (es ++ [e]) (serve_step e st).
Proof.
  intros H Ht Et Est Hok Eh El Hf Hnew Hserving. eapply ok_move; try done. by apply (driven_act a _ _ (so_driven _ _ H)).
Qed.

(** The step is what [E] says, by one of the lemmas above. *)
Ltac goes_on lemma E := eapply lemma; [eassumption|eassumption| |exact E|..]; try done.

Lemma ok_incoming es peer validated at_ st : served_ok es st -> served_ok (es ++ [SvIncoming peer validated at_]) (incoming peer validated at_ st).
Proof.
  intros H. pose proof (so_places _ _ H) as Hp. pose proof (places_incoming peer validated at_ st Hp) as Hp'.
  set (e := SvIncoming peer validated at_). change (incoming peer validated at_ st) with (serve_step e st) in *.
  assert (hub_of (serve_step e st) = hub_of st /\ sv_limiter (sd_state (serve_step e st)) = sv_limiter (sd_state st)) as [Eh El].
  { unfold e. cbn [Serving.serve_step]. unfold incoming. by repeat case_match. }
  assert (sd_tasks (serve_step e st) = sd_tasks st \/ exists source, sd_tasks (serve_step e st) = <[sd_next st := mkTask source PhHandshake]> (sd_tasks st)) as [Et|[source Et]].
  { unfold e. cbn [Serving.serve_step]. unfold incoming. repeat case_match; try (by left). right. by eexists. }
  - apply (ok_hub es e st); [done..| |rewrite Eh; reflexivity]. by apply (driven_same _ _ (so_driven _ _ H)).
  - destruct H as [Hrun _ Hd Hfit Hn Hc Hs]. split.
    + by rewrite serve_run_app, <- Hrun.
    + done.
    + by apply (driven_same _ _ Hd).
    + by rewrite Eh.
    + rewrite Eh, length_app. lia.
    + intros task t. rewrite Et. intros [[<- <-]|[_ Ht]]%lookup_insert_Some; [done|by apply claims_later, Hc].
    + intros u s. rewrite Eh, Et. intros Hu. destruct (Hs u s Hu) as (task & t & loop & Ht & Eph & Hsig). exists task, t, loop.
      pose proof (po_next _ Hp task ltac:(by eexists)). rewrite lookup_insert_ne by lia. split_and!; [done..|]. by apply signed_later.
Qed.

Lemma ok_authenticate es task t st nonce hello exporter : served_ok es st -> sd_tasks st !! task = Some t -> tk_phase t = PhHello nonce hello ->
  served_ok (es ++ [SvTask task (TeAuthenticate exporter)]) (serve_step (SvTask task (TeAuthenticate exporter)) st).
Proof.
  intros H Ht Ep. set (e := SvTask task (TeAuthenticate exporter)).
  assert (serve_step e st = authenticate valid_key task t nonce hello exporter st) as Est.
  { unfold e. cbn [Serving.serve_step]. rewrite Ht. unfold Serving.task_step. by rewrite Ep. }
  assert (forall u c loop, tk_phase t = PhServing u c loop -> False) as Hno by (intros u c loop; by rewrite Ep).
  unfold authenticate, end_sign_in in Est. destruct exporter as [exporter|]; [|goes_on ok_idle Est; by intros ??? ?%Hno].
  destruct hello as [pubkey client_nonce want signature|code pubkey client_nonce pake_a name].
  - destruct (sign_in _ _ _ _ _ _ _ _) as [signed h] eqn:E. apply sign_in_run in E as [Eh Hsigned].
    assert (claims (es ++ [e]) task (PhEnding None match signed with inl a => EndedSigned a | inr r => EndedRefused r end)) as Hclaims.
    { destruct signed as [a|r]; [|done]. destruct (Hsigned a eq_refl) as (Hv & Hk & Hi). split; [done|]. apply (signed_now _ _ _ _ t); rewrite <- (so_run _ _ H); [done|].
      rewrite Ep. cbn. rewrite Hk. by split. }
    destruct Eh as [-> | ->].
    + goes_on ok_idle Est. by intros ??? ?%Hno.
    + goes_on (ok_act (ActLookUp pubkey)) Est; [|by intros ??? ?%Hno]. apply fewer_call, fit_query.
  - destruct (enroll_hello code name) as [[code' name']|refused]; [|goes_on ok_idle Est; by intros ??? ?%Hno].
    destruct (begin_run _ _ _) as [begun state] eqn:E. assert (state = run_one (OpBegin (tk_source t) code') (sd_state st)) as Estate by (cbn [run_one]; by rewrite E).
    assert (forall new, serve_step e st = move task t (Some new) (st <| sd_state := state |>) -> claims (es ++ [e]) task new -> served_ok (es ++ [e]) (serve_step e st)) as Hgo.
    { intros new Enew Hclaims. goes_on (ok_act (ActRun (OpBegin (tk_source t) code'))) Enew; [by cbn [act]; rewrite <- Estate..| |by intros ??? ?%Hno].
      change (hub_of (st <| sd_state := state |>)) with (sv_hub state). rewrite Estate. apply fewer_run. }
    destruct begun as [[invite at_]|refused]; by eapply Hgo.
Qed.

Lemma ok_exchange es task t st x coin decoy finish : served_ok es st -> sd_tasks st !! task = Some t -> tk_phase t = PhExchange x ->
  served_ok (es ++ [SvTask task (TeExchange coin decoy finish)]) (serve_step (SvTask task (TeExchange coin decoy finish)) st).
Proof.
  intros H Ht Ep. set (e := SvTask task (TeExchange coin decoy finish)).
  assert (serve_step e st = finish_exchange start_b spake2_finish hkdf hmac valid_key task t x coin decoy finish st) as Est.
  { unfold e. cbn [Serving.serve_step]. rewrite Ht. unfold Serving.task_step. by rewrite Ep. }
  unfold finish_exchange, end_sign_in in Est. pose proof (exchanged_signed x (h_fingerprint (hub_of st)) coin decoy finish) as Hx.
  destruct (exchanged _ _ _ _ _ x _ coin decoy finish) as [reply ok] eqn:Ex. cbn [snd] in Hx.
  destruct (complete_run _ _ _ _ _ _ _ _) as [enrolled state] eqn:E.
  assert (state = run_one (OpComplete (tk_source t) (eo_pubkey x) (eo_code_id x) (eo_name x) (eo_now x) (eo_invite x) ok) (sd_state st)) as Estate
    by (cbn [run_one]; by rewrite E).
  goes_on (ok_act (ActRun (OpComplete (tk_source t) (eo_pubkey x) (eo_code_id x) (eo_name x) (eo_now x) (eo_invite x) ok))) Est.
  - cbn [act]. by rewrite <- Estate.
  - cbn [act]. by rewrite <- Estate.
  - match goal with |- fewer _ (hub_of ?s) => change (hub_of s) with (sv_hub state) end. rewrite Estate. apply fewer_run.
  - destruct enrolled as [row|r]; [|done]. apply completed in E as (-> & Hinv & Hk & Hi); [|exact (so_fit _ _ H)]. cbn [claims an_row]. split; [done|].
    destruct (Hx eq_refl) as (f & transcript & -> & Hn & He & Hv). apply (signed_now _ _ _ _ t); rewrite <- (so_run _ _ H); [done|].
    rewrite Ep. cbn [signs]. rewrite Hk. split_and!; [done|done|by rewrite Ex|]. by exists transcript.
  - intros ???. by rewrite Ep.
Qed.

Lemma ok_ended es task t st run end_ : served_ok es st -> sd_tasks st !! task = Some t -> tk_phase t = PhEnding run end_ ->
  served_ok (es ++ [SvTask task TeEnded]) (serve_step (SvTask task TeEnded) st).
Proof.
  intros H Ht Ep. set (e := SvTask task TeEnded). assert (serve_step e st = signing_in_ended task t run end_ st) as Est.
  { unfold e. cbn [Serving.serve_step]. rewrite Ht. unfold Serving.task_step. by rewrite Ep. }
  assert (forall u c loop, tk_phase t = PhServing u c loop -> False) as Hno by (intros u c loop; by rewrite Ep).
  assert (match end_ with EndedSigned a => claims (es ++ [e]) task (PhSigned a) | _ => True end) as Hclaims.
  { destruct end_ as [a|r|]; [|done..]. apply (claims_later es [e] task (PhSigned a)). pose proof (so_claims _ _ H task t Ht) as Hc. by rewrite Ep in Hc. }
  unfold signing_in_ended, close_task in Est. destruct run as [[code minted]|].
  - pose proof (fewer_run (OpDrop code minted) (sd_state st)) as Hf.
    destruct end_ as [a|r|]; (goes_on (ok_act (ActRun (OpDrop code minted))) Est; by intros ??? ?%Hno).
  - destruct end_ as [a|r|]; (goes_on ok_idle Est; by intros ??? ?%Hno).
Qed.

(** The one step that makes a session. *)
Lemma ok_connect es task t st a : Z.of_nat (length es) < u64_max -> served_ok es st -> sd_tasks st !! task = Some t -> tk_phase t = PhSigned a ->
  served_ok (es ++ [SvTask task TeConnect]) (serve_step (SvTask task TeConnect) st).
Proof.
  intros Hlen H Ht Ep. set (e := SvTask task TeConnect). assert (serve_step e st = connect_signed task t a st) as Est.
  { unfold e. cbn [Serving.serve_step]. rewrite Ht. unfold Serving.task_step. by rewrite Ep. }
  assert (forall u c loop, tk_phase t = PhServing u c loop -> False) as Hno by (intros u c loop; by rewrite Ep).
  pose proof (so_claims _ _ H task t Ht) as Hclaims. rewrite Ep in Hclaims. destruct Hclaims as [Hid Hsigned].
  pose proof (so_next _ _ H) as Hn. assert (act_ok (ActConnect (an_row a) task (an_want_room a)) (sd_state st)) as Hok.
  { split; [done|]. unfold hub_of in Hn. lia. }
  unfold connect_signed in Est. destruct (connect _ _ _ _) as [connected h] eqn:E. pose proof (connect_sessions _ _ _ _ _ _ E) as Hc.
  assert (h = sv_hub (act (ActConnect (an_row a) task (an_want_room a)) (sd_state st))) as Eh by (cbn; unfold hub_of in E; by rewrite E).
  assert (fewer (hub_of st) h -> (forall conn welcome, connected <> inl (inl (conn, welcome))) -> served_ok (es ++ [e]) (serve_step e st)) as Hrefused.
  { intros Hf Hr. goes_on (ok_act (ActConnect (an_row a) task (an_want_room a))) Est; [|by intros ??? ?%Hno].
    destruct connected as [[[conn welcome]|refused]|x]; [by destruct (Hr conn welcome)|done..]. }
  destruct connected as [[[conn welcome]|refused]|x]; [|by apply Hrefused..]. clear Hrefused.
  destruct Hc as (_ & _ & Hfit & Hnext & Hsess). pose proof H as [Hrun Hp Hd Hf _ Hcl Hs].
  assert (hub_of (serve_step e st) = h) as Ehub by (by rewrite Est). split.
  - by rewrite serve_run_app, <- Hrun.
  - by apply places_step.
  - apply (driven_act (ActConnect (an_row a) task (an_want_room a)) (sd_state st)); [done|done| |by rewrite Est]. rewrite <- Eh. exact Ehub.
  - rewrite Ehub. by apply Hfit.
  - rewrite Ehub, Hnext, length_app. cbn [length]. unfold wrap64, u64_max in *. rewrite Z.mod_small by lia. lia.
  - intros i t'. rewrite Est. cbn. intros [[<- <-]|[_ Hi]]%lookup_insert_Some; [done|by apply claims_later, Hcl].
  - intros u s. rewrite Ehub. intros Hu. apply Hsess in Hu as [(-> & Ec & Ek)|(s0 & Hu & Ec & _ & Ek)].
    + exists task, (mkTask (tk_source t) (PhServing (ur_id (an_row a)) conn (LoopWelcome welcome))), (LoopWelcome welcome).
      rewrite Est, Ec, Ek. cbn. rewrite lookup_insert_eq. split_and!; [done..|]. by apply signed_later.
    + destruct (Hs u s0 Hu) as (i & t' & loop & Hi & Eph & Hsig). exists i, t', loop. rewrite Est, Ec, Ek. cbn.
      rewrite lookup_insert_ne by (intros <-; rewrite Ht in Hi; injection Hi as <-; by apply Hno in Eph). split_and!; [done..|]. by apply signed_later.
Qed.

(** ** Every step *)

Lemma ok_serving es e task t st user conn loop : served_ok es st -> sd_tasks st !! task = Some t -> tk_phase t = PhServing user conn loop ->
  served_ok (es ++ [SvTask task e]) (serve_step (SvTask task e) st).
Proof.
  intros H Ht Ep. assert (serve_step (SvTask task e) st = task_step task e t st) as Est by (cbn [Serving.serve_step]; by rewrite Ht).
  assert (forall new loop', new = Some (PhServing user conn loop') -> forall st1 u c l, tk_phase t = PhServing u c l ->
    (exists loop', new = Some (PhServing u c loop')) \/ is_current (hub_of st1) u c = false) as Hon.
  { intros new loop' -> st1 u c l. rewrite Ep. intros [= -> -> _]. left. by eexists. }
  assert (task_step task e t st = st -> served_ok (es ++ [SvTask task e]) (serve_step (SvTask task e) st)) as Hidle.
  { intros Es. rewrite Est, Es. eapply ok_hub; [exact H|by rewrite Est, Es|done|exact (so_driven _ _ H)|reflexivity]. }
  unfold Serving.task_step in Est, Hidle. rewrite Ep in Est, Hidle.
  destruct loop as [welcome| |id work|id work|id x|id response|failed]; destruct e; try (by apply Hidle).
  - unfold welcomed, loop_on in Est. destruct written; (goes_on ok_idle Est; intros u c l; rewrite Ep; intros [= -> -> _]; by eexists).
  - unfold read_request, loop_on in Est. destruct message as [[id request]|failed].
    + pose proof (fewer_request user conn request (hub_of st)) as Hf. destruct (handle_request _ _ _ _) as [handled h] eqn:E.
      assert (h = sv_hub (act (ActRequest user conn request) (sd_state st))) as Eh by (cbn; unfold hub_of in E; by rewrite E).
      goes_on (ok_act (ActRequest user conn request)) Est. by eapply Hon.
    + goes_on ok_idle Est. intros u c l. rewrite Ep. intros [= -> -> _]. by eexists.
  - unfold take_turn, loop_on in Est, Hidle. destruct (0 <? sd_password_work st); [|by apply Hidle].
    goes_on ok_idle Est. intros u c l. rewrite Ep. intros [= -> -> _]. by eexists.
  - unfold work_done, loop_on in Est. goes_on ok_idle Est. intros u c l. rewrite Ep. intros [= -> -> _]. by eexists.
  - unfold resume_request, loop_on in Est. pose proof (fewer_resume user conn x (hub_of st)) as Hf. destruct (resume _ _ _ _) as [response h] eqn:E.
    assert (h = sv_hub (act (ActResume user conn x) (sd_state st))) as Eh by (cbn; unfold hub_of in E; by rewrite E).
    goes_on (ok_act (ActResume user conn x)) Est. by eapply Hon.
  - unfold answered, loop_on in Est. destruct sent; (goes_on ok_idle Est; intros u c l; rewrite Ep; intros [= -> -> _]; by eexists).
  - unfold stop_serving in Est. goes_on (ok_act (ActDisconnect user conn)) Est; [apply fewer_disconnect|].
    intros u c l. rewrite Ep. intros [= -> -> _]. right. apply disconnect_gone.
Qed.

Lemma ok_step es e st : Z.of_nat (length es) < u64_max -> served_ok es st -> served_ok (es ++ [e]) (serve_step e st).
Proof.
  intros Hlen H. assert (forall st', serve_step e st = st' -> sd_tasks st' = sd_tasks st -> driven (sd_state st') -> fewer (hub_of st) (hub_of st') ->
    served_ok (es ++ [e]) (serve_step e st)) as Hhub by (intros st' <- ? ? ?; by eapply ok_hub).
  destruct e as [peer validated at_|task e| |at_|].
  - by apply ok_incoming.
  - destruct (sd_tasks st !! task) as [t|] eqn:Et.
    2:{ assert (serve_step (SvTask task e) st = st) as Es by (cbn [Serving.serve_step]; by rewrite Et). apply (Hhub st); try done. exact (so_driven _ _ H). }
    assert (serve_step (SvTask task e) st = task_step task e t st) as Est by (cbn [Serving.serve_step]; by rewrite Et).
    assert (task_step task e t st = st -> served_ok (es ++ [SvTask task e]) (serve_step (SvTask task e) st)) as Hidle.
    { intros Es. rewrite Es in Est. apply (Hhub st); try done. exact (so_driven _ _ H). }
    assert ((forall u c loop, tk_phase t = PhServing u c loop -> False) -> forall new st1, task_step task e t st = move task t new st1 ->
      sd_tasks st1 = sd_tasks st -> hub_of st1 = hub_of st -> sv_limiter (sd_state st1) = sv_limiter (sd_state st) ->
      (match new with Some p => claims (es ++ [SvTask task e]) task p | None => True end) ->
      served_ok (es ++ [SvTask task e]) (serve_step (SvTask task e) st)) as Hmove.
    { intros Hno new st1 Em ? ? ? ?. rewrite Em in Est. goes_on ok_idle Est. by intros ??? ?%Hno. }
    destruct (tk_phase t) as [| | |nonce hello|x|run end_|a|r|user conn loop|] eqn:Ep; [..|by eapply ok_serving|].
    all: destruct e; try (apply Hidle; unfold Serving.task_step; by rewrite Ep).
    + unfold Serving.task_step in Hmove. rewrite Ep in Hmove. unfold handshake_done, close_task in Hmove.
      destruct h as [| |size]; [..|destruct (check_datagrams size)]; (eapply Hmove; [done|reflexivity|done..]).
    + unfold Serving.task_step in Hmove, Hidle. rewrite Ep in Hmove, Hidle. unfold take_slot, close_task in Hmove, Hidle.
      destruct in_time; [destruct (try_enter _ _ _) as [[pass counts]|]; [|by apply Hidle]|]; (eapply Hmove; [done|reflexivity|done..]).
    + unfold Serving.task_step in Hmove. rewrite Ep in Hmove. unfold greeted, close_task in Hmove.
      destruct answer as [[[nonce hello]|[|x]]|]; [destruct (try_enter _ _ _) as [[pass counts]|]|..]; (eapply Hmove; [done|reflexivity|done..]).
    + by eapply ok_authenticate.
    + by eapply ok_exchange.
    + unfold Serving.task_step in Hmove. rewrite Ep in Hmove. eapply Hmove; [done|reflexivity|done..].
    + by eapply ok_ended.
    + by eapply ok_connect.
    + unfold Serving.task_step in Hmove. rewrite Ep in Hmove. unfold refuse, close_task in Hmove. destruct r; (eapply Hmove; [done|reflexivity|done..]).
    + unfold Serving.task_step in Hmove. rewrite Ep in Hmove. eapply Hmove; [done|reflexivity|done..].
  - eapply Hhub; [reflexivity|done|by apply (driven_act ActFlush _ _ (so_driven _ _ H))|apply fewer_flush].
  - eapply Hhub; [reflexivity|done|by apply (driven_act (ActInactive at_) _ _ (so_driven _ _ H))|apply fewer_inactive].
  - eapply Hhub; [reflexivity|done|by apply (driven_same _ _ (so_driven _ _ H))|reflexivity].
Qed.

Lemma ok_run es : db_wf d -> (exists h, bind_hub (hub_empty d fingerprint) = (inl (), h) /\ start = served_new h) ->
  Z.of_nat (length es) < u64_max -> served_ok es (serve_run es start).
Proof.
  intros W (h & Hbind & Hstart). induction es as [|e es IH] using rev_ind; intros Hlen.
  - destruct (bound_hub d fingerprint h Hbind) as (Hf & Hs & Hn & _). specialize (Hf (wf_fit d W)). rewrite Hstart. split; cbn; try done.
    + apply places_new.
    + exists (mkServer h limiter_default ∅). by split; [apply reach_start|].
    + unfold hub_of. cbn. lia.
    + intros u s. unfold hub_of. cbn. by rewrite Hs.
  - rewrite length_app in Hlen. cbn [length] in Hlen. rewrite serve_run_app. cbn [Serving.serve_run foldl]. apply ok_step; [lia|]. apply IH. lia.
Qed.
End Hub.

(** C9: after any run of the server from its start, everyone who has a session at the hub is
    being served on an open connection of their own, the one their session names, and at its
    other end is a client that signed with the account's key what only this connection could
    have asked for: its server nonce and its TLS exporter, or an invite's PAKE over them. *)
Theorem every_session_is_signed_for (d : Database) (fingerprint : bytes) (h : Hub) (es : list ServeEvent) :
  db_wf d -> bind_hub (hub_empty d fingerprint) = (inl (), h) -> Z.of_nat (length es) < u64_max ->
  forall u s, h_sessions (hub_of (serve_run es (served_new h))) !! u = Some s ->
    exists task t loop, sd_tasks (serve_run es (served_new h)) !! task = Some t /\ tk_phase t = PhServing u (s_conn_id s) loop /\
      signed_for (served_new h) es task (ur_pubkey (s_row s)).
Proof.
  intros W Hb Hlen u s Hu. apply (so_sessions _ _ _ _ _ (ok_run d fingerprint (served_new h) es W ltac:(by exists h) Hlen) u s Hu).
Qed.

(** C0: serving only ever drives the hub through the actions its own theorems speak of: its
    hub is one their state machine reaches, whatever connections come and however their tasks
    take turns.  So it is well formed, and nobody is left in it once all connections are gone. *)
Theorem serving_drives_the_hub (d : Database) (fingerprint : bytes) (h : Hub) (es : list ServeEvent) :
  db_wf d -> bind_hub (hub_empty d fingerprint) = (inl (), h) -> Z.of_nat (length es) < u64_max ->
  let st := serve_run es (served_new h) in
  (exists s0, reachable d fingerprint s0 /\ sv_hub s0 = hub_of st /\ sv_limiter s0 = sv_limiter (sd_state st)) /\ hub_ok (hub_of st) /\
  (sd_tasks st = ∅ -> h_sessions (hub_of st) = ∅).
Proof.
  intros W Hb Hlen st. destruct (ok_run d fingerprint (served_new h) es W ltac:(by exists h) Hlen) as [_ _ (s0 & Hr & Eh & El) _ _ _ Hs].
  fold st in Eh, El, Hs. split_and!; [by exists s0|pose proof (reachable_ok _ _ _ W Hr) as Hok; by rewrite Eh in Hok|]. intros E. apply map_empty. intros u.
  destruct (h_sessions (hub_of st) !! u) as [s|] eqn:Eu; [|done]. destruct (Hs u s Eu) as (task & t & _ & Ht & _). by rewrite E in Ht.
Qed.
End Run.

(** ** What waits for a connection's client *)

Definition permits_held (o : option Outbound) : Z := from_option permits 0 o.
(** The picture bytes handed out are those of the answer that waits to be queued, of what is
    queued and of what is being written; the queue never outgrows its channel, and is empty
    once nobody reads it. *)
Record writer_ok (w : Writer) : Prop := {
  wo_permits : wr_free w + permits_held (wr_hand w) + permits_held (wr_writing w) + permits_in (wr_queue w) = QUEUED_PICTURE_BYTES;
  wo_free : 0 <= wr_free w;
  wo_hand : 0 <= permits_held (wr_hand w);
  wo_waiting o : o ∈ option_list (wr_writing w) ++ wr_queue w -> 0 <= permits o;
  wo_queue : (length (wr_queue w) <= EVENT_QUEUE)%nat;
  wo_closed : wr_open w = false -> wr_queue w = [] /\ wr_writing w = None
}.
Lemma permits_outbound id response : 0 <= permits (outbound id response).
Proof. destruct response; cbn; unfold QUEUED_PICTURE_BYTES; lia. Qed.
Lemma permits_app a b : permits_in (a ++ b) = permits_in a + permits_in b.
Proof. induction a as [|o a IH]; [done|]. unfold permits_in in *. cbn [app foldr]. lia. Qed.
Lemma permits_in_pos l : (forall o, o ∈ l -> 0 <= permits o) -> 0 <= permits_in l.
Proof.
  induction l as [|o l IH]; intros H; [done|]. unfold permits_in in *. cbn [foldr].
  pose proof (H o ltac:(left)). specialize (IH (fun p Hp => H p ltac:(by right))). lia.
Qed.

Lemma writer_step op w : writer_ok w -> writer_ok (writer_op op w).
Proof.
  intros [Hp Hf Hh Hw Hq Hc]. assert (writer_ok w) as Hid by done. destruct w as [queue free hand writing open]. unfold permits_held in *. cbn [wr_queue wr_free wr_hand wr_writing wr_open] in Hp, Hf, Hh, Hw, Hq, Hc.
  destruct op as [id response| |e| |written]; cbn [writer_op].
  - unfold writer_acquire. cbn [wr_queue wr_free wr_hand wr_writing wr_open]. destruct hand as [o|]; [rewrite bool_decide_false by done; done|]. rewrite bool_decide_true by done. cbn [andb].
    destruct (Z.leb_spec (permits (outbound id response)) free); [|done]. pose proof (permits_outbound id response).
    split; unfold permits_held in *; cbn [wr_queue wr_free wr_hand wr_writing wr_open from_option option_list app length] in *; [lia|lia|lia|done..].
  - unfold writer_send. cbn [wr_queue wr_free wr_hand wr_writing wr_open]. destruct hand as [o|]; [|done]. cbn [from_option] in Hh, Hp. destruct open; cbn [negb].
    + destruct (Nat.ltb_spec (length queue) EVENT_QUEUE); [|done]. split; unfold permits_held in *; cbn [wr_queue wr_free wr_hand wr_writing wr_open from_option option_list app length]; [rewrite permits_app; cbn [permits_in foldr]; lia|lia|lia| |rewrite length_app; cbn [length]; lia|done].
      intros p [Hp'|[Hp'|Hp']%elem_of_app]%elem_of_app; [apply Hw, elem_of_app; by left|apply Hw, elem_of_app; by right|].
      by apply list_elem_of_singleton in Hp' as ->.
    + split; unfold permits_held in *; cbn [wr_queue wr_free wr_hand wr_writing wr_open from_option option_list app length]; [lia|lia|lia|done..].
  - unfold writer_hub. cbn [wr_queue wr_free wr_hand wr_writing wr_open]. destruct (open && _) eqn:E; [|done]. apply andb_true_iff in E as [-> E%Nat.ltb_lt].
    assert (permits (hub_outbound e) = 0) as E0 by (by destruct e as [|[]]).
    split; unfold permits_held in *; cbn [wr_queue wr_free wr_hand wr_writing wr_open from_option option_list app length]; [rewrite permits_app; cbn [permits_in foldr]; lia|lia|lia| |rewrite length_app; cbn [length]; lia|done].
    intros p [Hp'|[Hp'|Hp']%elem_of_app]%elem_of_app; [apply Hw, elem_of_app; by left|apply Hw, elem_of_app; by right|].
    apply list_elem_of_singleton in Hp' as ->. lia.
  - unfold writer_take. cbn [wr_queue wr_free wr_hand wr_writing wr_open]. destruct queue as [|o queue]; [done|]. destruct writing as [x|]; [done|]. destruct open; [|done].
    change (permits_in (o :: queue)) with (permits o + permits_in queue) in Hp.
    split; unfold permits_held in *; cbn [wr_queue wr_free wr_hand wr_writing wr_open from_option option_list app length] in *; [lia|lia|lia| |lia|done]. intros p Hp'. by apply Hw.
  - unfold writer_written. cbn [wr_queue wr_free wr_hand wr_writing wr_open]. destruct writing as [o|]; [|done]. cbn [from_option] in Hp. pose proof (Hw o ltac:(left)) as Ho.
    assert (0 <= permits_in queue) as Hpos by (apply permits_in_pos; intros p Hin; apply Hw; by right).
    assert (forall h', writer_ok {| wr_queue := []; wr_free := free + permits o + permits_in queue; wr_hand := h'; wr_writing := None; wr_open := false |} <->
      free + permits o + permits_in queue + permits_held h' = QUEUED_PICTURE_BYTES /\ 0 <= permits_held h') as Hend.
    { intros h'. split; [intros [H ? ? _ _ _]; cbn [wr_queue wr_free wr_hand wr_writing wr_open] in *; change (permits_in []) with 0 in H; change (permits_held None) with 0 in H; lia|].
      intros [H ?]. split; cbn [wr_queue wr_free wr_hand wr_writing wr_open option_list app]; [change (permits_in []) with 0; change (permits_held None) with 0; lia|lia|done|..]; try done; [|cbn; lia].
      intros p Hin. by apply not_elem_of_nil in Hin. }
    assert (writer_ok {| wr_queue := queue; wr_free := free + permits o; wr_hand := hand; wr_writing := None; wr_open := open |}) as Hgo.
    { split; unfold permits_held in *; cbn [wr_queue wr_free wr_hand wr_writing wr_open from_option option_list app] in *; [lia|lia|done| |done|].
      - intros p Hin. apply Hw. by right.
      - intros E. by destruct (Hc E). }
    destruct o, written; first [exact Hgo|apply Hend; unfold permits_held in *; lia].
Qed.

(** A client that does not read makes the server keep no more than [QUEUED_PICTURE_BYTES] of
    picture bytes (a picture counting for at most that) and [EVENT_QUEUE] messages for it, and
    every byte counted is given back: with nothing waiting, all of them are free. *)
Theorem unread_messages_are_bounded (ops : list WriterOp) :
  let w := foldl (fun w op => writer_op op w) writer_new ops in
  permits_held (wr_hand w) + permits_held (wr_writing w) + permits_in (wr_queue w) <= QUEUED_PICTURE_BYTES /\
  (length (wr_queue w) <= EVENT_QUEUE)%nat /\
  (wr_hand w = None -> wr_writing w = None -> wr_queue w = [] -> wr_free w = QUEUED_PICTURE_BYTES).
Proof.
  intros w. assert (writer_ok w) as [Hp Hf _ _ Hq _].
  { unfold w. assert (writer_ok writer_new) as H0 by (split; cbn [writer_new wr_queue wr_free wr_hand wr_writing wr_open option_list app length]; try done; [intros o Ho; by apply not_elem_of_nil in Ho|apply Nat.le_0_l]).
    revert H0. generalize writer_new. induction ops as [|op ops IH]; intros w0 H0; [done|]. by apply IH, writer_step. }
  split_and!; [lia|done|]. intros Eh Ew Eq. rewrite Eh, Ew, Eq in Hp. cbn in Hp. lia.
Qed.

(** ** Concretely *)

Section Example.
#[local] Existing Instance example_env.
(** An environment whose SPAKE2 never agrees: nobody enrolls. *)
Abbreviation example_serve := (serve_run (fun _ _ _ _ => ((), [])) (fun _ _ => None) (fun _ _ _ => []) (fun _ _ => []) (fun _ => true)).
Definition example_bound : Hub := snd (bind_hub (hub_empty example_db [])).

(** The admin connects, signs in and joins a room; a stranger's signature is of no account. *)
Definition example_hello (key : Z) : option (bytes * ClientHello + ReadError) :=
  Some (inl (repeat 9 32, HelloAuth (repeat key 32) (repeat 8 32) None (repeat 7 64))).
Definition example_signing (task key : Z) : list ServeEvent :=
  SvIncoming (IpV4 (16909060 + task)) true (task * second) ::
  (SvTask task <$> [TeHandshake (TlsDone (Some 1200)); TeSlot true; TeGreeted (example_hello key); TeAuthenticate (Some (repeat 6 32)); TeEnded]).
Definition example_events : list ServeEvent :=
  example_signing 0 97 ++ (SvTask 0 <$> [TeConnect; TeWelcomed true; TeRead (inl (5, JoinRoom 1 None)); TeAnswered true]) ++ example_signing 1 99.
Definition example_goodbyes : list ServeEvent :=
  (SvTask 0 <$> [TeRead (inr Closed); TeStop; TePart]) ++ [SvTask 1 (TeRefuse true)].

Lemma every_session_is_signed_for_witness :
  (s_conn_id <$> h_sessions (hub_of (example_serve example_events (served_new example_bound))) !! 1 = Some 1) /\
  exists task t loop, sd_tasks (example_serve example_events (served_new example_bound)) !! task = Some t /\ tk_phase t = PhServing 1 1 loop /\
    signed_for (fun _ _ _ _ => ((), [])) (fun _ _ => None) (fun _ _ _ => []) (fun _ _ => []) (fun _ => true)
      (served_new example_bound) example_events task (repeat 97 32).
Proof.
  split; [vm_compute; reflexivity|].
  assert (exists s, h_sessions (hub_of (example_serve example_events (served_new example_bound))) !! 1 = Some s /\ s_conn_id s = 1 /\ ur_pubkey (s_row s) = repeat 97 32)
    as (s & E & Ec & Ek) by (eexists; split; [vm_compute; reflexivity|split; reflexivity]).
  assert (bind_hub (hub_empty example_db []) = (inl (), example_bound)) as Hb by (vm_compute; reflexivity).
  assert (Z.of_nat (length example_events) < u64_max) as Hl by (vm_compute; reflexivity).
  pose proof (every_session_is_signed_for (fun _ _ _ _ => ((), [])) (fun _ _ => None) (fun _ _ _ => []) (fun _ _ => []) (fun _ => true)
    example_db [] example_bound example_events example_db_wf Hb Hl 1 s E) as H.
  rewrite Ec, Ek in H. exact H.
Defined.

Abbreviation example_gone := (example_serve (example_events ++ example_goodbyes) (served_new example_bound)).
Lemma serving_drives_the_hub_witness :
  sd_tasks example_gone = ∅ /\
  (exists s0, reachable example_db [] s0 /\ sv_hub s0 = hub_of example_gone /\ sv_limiter s0 = sv_limiter (sd_state example_gone)) /\
  hub_ok (hub_of example_gone) /\ (sd_tasks example_gone = ∅ -> h_sessions (hub_of example_gone) = ∅).
Proof.
  split; [vm_compute; reflexivity|].
  assert (bind_hub (hub_empty example_db []) = (inl (), example_bound)) as Hb by (vm_compute; reflexivity).
  assert (Z.of_nat (length (example_events ++ example_goodbyes)) < u64_max) as Hl by (vm_compute; reflexivity).
  exact (serving_drives_the_hub (fun _ _ _ _ => ((), [])) (fun _ _ => None) (fun _ _ _ => []) (fun _ _ => []) (fun _ => true)
    example_db [] example_bound (example_events ++ example_goodbyes) example_db_wf Hb Hl).
Defined.
End Example.
