(* ===== verification/HubRoles.v ===== *)
(** * Accounts change only from above

    Nothing that happens to the server gives an account another role, makes one or takes one
    away, but a role change or a removal by someone who outranks it, a user leaving on their
    own, an enrollment by a live invite, and the sweep of accounts long unseen. *)
From S2P Require Import Prelude Float64 Buckets Ids Frame Invite Messages Limits RoomPassword Sfu Crypto Database DatabaseFacts.
From S2P Require Import HubState Hub Auth HubLogic HubFacts HubSteps HubEntry AuthFacts HubSessions HubTheorems.
Open Scope Z_scope.

(** Every account is there with its role, and no account is new. *)
Definition roles (h : Hub) : gmap Z Z := u_role <$> users (h_db h).
Definition same_roles (h h' : Hub) : Prop := roles h' = roles h.

Lemma same_roles_unmoved : unmoved same_roles.
Proof.
  split; try done.
  - split; [done|]. intros ? ? ? ? ?. unfold same_roles in *. congruence.
  - intros d h E _ _ _ _. unfold same_roles, roles. cbn. by rewrite E.
Qed.
#[export] Instance same_roles_order : PreOrder same_roles := um_order _ same_roles_unmoved.

Section Roles.
Context {env : Env}.

Lemma roles_field {E} f : (forall h, h_db (f h) = h_db h) -> keeps same_roles (modify (E := E) f).
Proof. intros Hf h. unfold same_roles, roles. cbn. by rewrite Hf. Qed.
Lemma roles_now {E} : keeps same_roles (now (E := E)). Proof. apply unmoved_tick, same_roles_unmoved. Qed.
Lemma roles_unix {E} : keeps same_roles (unix_now (E := E)). Proof. apply unmoved_unix, same_roles_unmoved. Qed.
Lemma roles_random {E} : keeps same_roles (random (E := E)). Proof. by intros h. Qed.
Lemma roles_emit_to {E} u e : keeps same_roles (emit_to (E := E) u e). Proof. apply unmoved_emit_to, same_roles_unmoved. Qed.
Lemma roles_emit_all {E} e : keeps same_roles (emit_all (E := E) e). Proof. apply unmoved_emit_all, same_roles_unmoved. Qed.
Lemma roles_listers {E} e : keeps same_roles (emit_user_list_change (E := E) e). Proof. apply unmoved_listers, same_roles_unmoved. Qed.
Lemma roles_broadcast {E} r x : keeps same_roles (broadcast_peers (E := E) r x). Proof. apply unmoved_broadcast, same_roles_unmoved. Qed.
Lemma roles_rebuild {E} : keeps same_roles (rebuild_routes (E := E)). Proof. apply unmoved_rebuild, same_roles_unmoved. Qed.
Lemma roles_bump l : keeps same_roles (bump_epochs l). Proof. apply unmoved_bump, same_roles_unmoved. Qed.
Lemma roles_place u t : keeps same_roles (place u t). Proof. apply unmoved_place, same_roles_unmoved. Qed.
Lemma roles_leave {E} u : keeps same_roles (leave_room (E := E) u). Proof. apply unmoved_leave, same_roles_unmoved. Qed.
Lemma roles_evict {E} u r : keeps same_roles (evict (E := E) u r). Proof. apply unmoved_evict; [apply same_roles_unmoved|by intros]. Qed.
Lemma roles_announce {E} u : keeps same_roles (announce_presence (E := E) u).
Proof. unfold announce_presence. kept. apply roles_emit_all. Qed.

Definition roles_meter (upd : (Buckets f64 Z -> Buckets f64 Z) -> Hub -> Hub) : Prop := forall f h, h_db (upd f h) = h_db h.
Lemma roles_take {E} get upd u c t : roles_meter upd -> keeps same_roles (meter_take (E := E) get upd u c t).
Proof. intros Hm h. unfold meter_take. destruct (buckets_take _ _ _ _). unfold same_roles, roles. cbn. by rewrite Hm. Qed.
Lemma roles_holds {E} get upd u c t : roles_meter upd -> keeps same_roles (meter_holds (E := E) get upd u c t).
Proof. intros Hm h. unfold meter_holds. destruct (buckets_holds _ _ _ _). unfold same_roles, roles. cbn. by rewrite Hm. Qed.

(** Database methods that give no account another role. *)
Definition roles_db {A} (m : DbM A) : Prop := forall d n, u_role <$> users (snd (fst (m d n))) = u_role <$> users d.
Lemma roles_transaction {A} (f : Database -> option (A * Database)) :
  (forall d a d', f d = Some (a, d') -> u_role <$> users d' = u_role <$> users d) -> roles_db (transaction db_fault f).
Proof.
  intros Hf d n. unfold transaction. destruct (db_fault n); [done|]. destruct (f d) as [[a d']|] eqn:E; cbn; [by eapply Hf|done].
Qed.
Lemma roles_query {A} (f : Database -> option A) : roles_db (query db_fault f).
Proof. apply roles_transaction. intros d a d'. destruct (f d); cbn; [|done]. by intros [= _ <-]. Qed.
Lemma roles_execute f : (forall d, u_role <$> users (f d) = u_role <$> users d) -> roles_db (execute db_fault f).
Proof. intros Hf. apply roles_transaction. intros d a d' [= _ <-]. apply Hf. Qed.
Lemma roles_db_bind {A B} (m : DbM A) (k : A -> DbM B) : roles_db m -> (forall a, roles_db (k a)) -> roles_db (m ≫= k).
Proof.
  intros Hm Hk d n. specialize (Hm d n). unfold mbind, DbM_bind. destruct (m d n) as [[[a|e] d'] n']; cbn in *; [|done].
  specialize (Hk a d' n'). by rewrite Hk.
Qed.
Lemma roles_db_ret {A} (a : A) : roles_db (mret a). Proof. done. Qed.
Lemma roles_call {A} (m : DbM A) : roles_db m -> keeps same_roles (db_call m).
Proof.
  intros Hm h. specialize (Hm (h_db h) (h_tick h)). unfold db_call, same_roles, roles.
  destruct (m _ _) as [[r d] n]. exact Hm.
Qed.
Lemma roles_dbr {A} (m : DbM A) : roles_db m -> keeps same_roles (db m).
Proof. intros Hm. apply keeps_map_err. by apply roles_call. Qed.
Lemma roles_update id f : (forall u, u_role (f u) = u_role u) -> roles_db (execute db_fault (update_user id f)).
Proof. intros Hf. apply roles_execute. intros d. cbn. apply fmap_alter_same. auto. Qed.

#[local] Hint Extern 1 (keeps same_roles (modify _)) => (apply roles_field; reflexivity) : hub.
#[local] Hint Extern 1 (roles_meter _) => (intros ? ?; reflexivity) : hub.
#[local] Hint Extern 1 (roles_db _) =>
  first [by apply roles_query | by apply roles_update | by apply roles_execute] : hub.
#[local] Hint Resolve roles_now roles_unix roles_random roles_emit_to roles_emit_all roles_listers roles_broadcast
  roles_rebuild roles_bump roles_place roles_leave roles_evict roles_announce roles_take roles_holds roles_call roles_dbr : hub.

Lemma roles_allocated n : roles_db (allocate_media_ids db_fault n).
Proof. apply roles_transaction. intros d a d'. cbv zeta. case_match; by intros [= _ <-]. Qed.
Lemma roles_created name hash : roles_db (Database.create_room db_fault name hash).
Proof. apply roles_transaction. intros d a d'. unfold insert_room. case_match; cbn; [|done]. by intros [= _ <-]. Qed.
Lemma roles_minted i : roles_db (insert_invite db_fault i).
Proof. apply roles_transaction. intros d a d'. destruct (invites d !! _); by intros [= _ <-]. Qed.
Lemma roles_collected t : roles_db (delete_unused_blobs db_fault t).
Proof. apply roles_transaction. by intros d a d' [= _ <-]. Qed.
Lemma roles_used id n t : roles_db (invites_used db_fault id n t).
Proof. apply roles_db_bind; [apply roles_query|]. intros a. apply roles_db_bind; [apply roles_query|]. by intros b. Qed.
#[local] Hint Resolve roles_allocated roles_created roles_minted roles_collected roles_used : hub.

Lemma roles_session u : keeps same_roles (session u). Proof. unfold session. kept. Qed.
#[local] Hint Resolve roles_session : hub.
Lemma roles_session_mut u f : keeps same_roles (session_mut u f). Proof. unfold session_mut. kept. Qed.
Lemma roles_role u : keeps same_roles (role u). Proof. unfold role. kept. Qed.
Lemma roles_current u : keeps same_roles (current_room u). Proof. unfold current_room. kept. Qed.
Lemma roles_entry r : keeps same_roles (room_entry r). Proof. unfold room_entry. kept. Qed.
Lemma roles_stored u : keeps same_roles (stored_user u). Proof. unfold stored_user. kept. Qed.
Lemma roles_require b : keeps same_roles (require b). Proof. unfold require. kept. Qed.
Lemma roles_picture a : keeps same_roles (require_picture a). Proof. unfold require_picture. kept. Qed.
Lemma roles_require_current u c : keeps same_roles (require_current u c). Proof. unfold require_current. kept. Qed.
Lemma roles_name n : keeps same_roles (checked_name n). Proof. unfold checked_name. kept. Qed.
Lemma roles_password p : keeps same_roles (check_password_length p). Proof. unfold check_password_length. kept. Qed.
#[local] Hint Resolve roles_session_mut roles_role roles_current roles_entry roles_stored roles_require roles_picture
  roles_require_current roles_name roles_password : hub.
Lemma roles_enters u t : keeps same_roles (enters_another_room u t). Proof. unfold enters_another_room. kept. Qed.
Lemma roles_to_enter u r : keeps same_roles (password_to_enter u r). Proof. unfold password_to_enter. kept. Qed.
#[local] Hint Resolve roles_enters roles_to_enter : hub.
Lemma roles_enter u t : keeps same_roles (enter u t). Proof. unfold enter. kept.
Qed.
#[local] Hint Resolve roles_enter : hub.
Lemma roles_join u t p : keeps same_roles (join u t p). Proof. unfold join. kept. Qed.
Lemma roles_set_profile u n a : keeps same_roles (hub_set_profile u n a). Proof. unfold hub_set_profile. kept. Qed.
Lemma roles_server_profile : keeps same_roles announce_server_profile. Proof. unfold announce_server_profile. kept. Qed.
#[local] Hint Resolve roles_server_profile : hub.
Lemma roles_server_name u n : keeps same_roles (hub_set_server_name u n). Proof. unfold hub_set_server_name. kept. Qed.
Lemma roles_server_avatar u a : keeps same_roles (hub_set_server_avatar u a). Proof. unfold hub_set_server_avatar. kept. Qed.
Lemma roles_set_avatar u b : keeps same_roles (set_avatar u b). Proof. unfold set_avatar, collect_blobs. kept. Qed.
Lemma roles_get_avatar h : keeps same_roles (get_avatar h). Proof. unfold get_avatar. kept. Qed.
Lemma roles_set_key u k : keeps same_roles (hub_set_encryption_key u k).
Proof. unfold hub_set_encryption_key. cbv zeta. kept. Qed.
Lemma roles_set_media u m : keeps same_roles (set_media u m). Proof. unfold set_media. cbv zeta. kept. Qed.
Lemma roles_to_create u n : keeps same_roles (room_to_create u n). Proof. unfold room_to_create. kept. Qed.
Lemma roles_add n h : keeps same_roles (add_room n h). Proof. unfold add_room. kept. Qed.
#[local] Hint Resolve roles_to_create roles_add : hub.
Lemma roles_create u n p : keeps same_roles (hub_create_room u n p). Proof. unfold hub_create_room. kept. Qed.
Lemma roles_rename u r n : keeps same_roles (hub_rename_room u r n). Proof. unfold hub_rename_room. kept. Qed.
Lemma roles_may_manage u r : keeps same_roles (may_manage_room u r). Proof. unfold may_manage_room. kept. Qed.
Lemma roles_store r p : keeps same_roles (store_room_password r p). Proof. unfold store_room_password. kept. Qed.
#[local] Hint Resolve roles_may_manage roles_store : hub.
Lemma roles_room_password u r p : keeps same_roles (set_room_password u r p). Proof. unfold set_room_password. kept. Qed.
Lemma roles_delete_room u r : keeps same_roles (hub_delete_room u r). Proof. unfold hub_delete_room. kept. Qed.
Lemma roles_attempts n u t : keeps same_roles (mint_attempts n u t). Proof. induction n; cbn [mint_attempts]; kept. Qed.
#[local] Hint Resolve roles_attempts : hub.
Lemma roles_mint u t : keeps same_roles (mint_invite u t). Proof. unfold mint_invite. kept. Qed.
#[local] Hint Resolve roles_mint : hub.
Lemma roles_create_invite u : keeps same_roles (create_invite u). Proof. unfold create_invite. kept. Qed.
Lemma roles_list u : keeps same_roles (list_users u). Proof. unfold list_users. kept. Qed.
Lemma roles_changed {E} u r : keeps same_roles (role_changed (E := E) u r). Proof. unfold role_changed. kept. Qed.
Lemma roles_kick u w r : keeps same_roles (kick_from_room u w r). Proof. unfold kick_from_room. kept. Qed.
Lemma roles_drop {E} l : keeps same_roles (drop_users (E := E) l). Proof. unfold drop_users. kept. Qed.
Lemma roles_watched u l : keeps same_roles (set_watched u l). Proof. unfold set_watched. cbv zeta. kept. Qed.
Lemma roles_keyframe u m k : keeps same_roles (request_keyframe u m k). Proof. unfold request_keyframe. kept. Qed.
Lemma roles_publish u e w : keeps same_roles (publish_key u e w). Proof. unfold publish_key. kept. Qed.
Lemma roles_free {E} u e : keeps same_roles (free_key_publish (E := E) u e). Proof. unfold free_key_publish. cbv zeta. kept. Qed.
Lemma roles_finish_join u r x m : keeps same_roles (finish_join u r x m). Proof. unfold finish_join. kept. Qed.
Lemma roles_rejoin {E} u r : keeps same_roles (rejoin (E := E) u r).
Proof. unfold rejoin. kept; (apply roles_holds || apply roles_take); intros f h; by destruct a. Qed.
#[local] Hint Resolve roles_finish_join roles_rejoin : hub.
Lemma roles_finish u c d : keeps same_roles (finish u c d). Proof. unfold finish. kept. Qed.
Lemma roles_seen id t : roles_db (mark_seen db_fault id t). Proof. by apply roles_update. Qed.
#[local] Hint Resolve roles_seen : hub.
Lemma roles_connect row c want : keeps same_roles (connect row c want). Proof. unfold connect. cbv zeta. kept. Qed.
Lemma roles_disconnect {E} u c : keeps same_roles (disconnect (E := E) u c). Proof. unfold disconnect. kept. Qed.
Lemma roles_flush {E} : keeps same_roles (flush_keyframes (E := E)). Proof. unfold flush_keyframes. kept. Qed.
Lemma roles_claim code t : keeps same_roles (claim_try code t). Proof. unfold claim_try. kept. Qed.
Lemma roles_drop_run code m : keeps same_roles (drop_run code m). Proof. unfold drop_run. cbv zeta. kept. Qed.
Lemma roles_done m : keeps same_roles m -> keeps same_roles (done m). Proof. intros Hm. unfold done. kept. Qed.

End Roles.

#[export] Hint Resolve roles_join roles_set_profile roles_server_name roles_server_avatar roles_set_avatar roles_get_avatar
  roles_set_key roles_set_media roles_create roles_rename roles_room_password roles_delete_room roles_create_invite roles_list
  roles_changed roles_kick roles_drop roles_watched roles_keyframe roles_publish roles_free roles_dbr roles_call
  roles_role roles_require roles_stored roles_take roles_now roles_require_current : hub.

Section Changes.
Context {env : Env}.

(** The role a stored account has. *)
Definition role_of (r : user_rec) : Role := default User (from_rank (u_role r)).

Lemma stored_user_run u h r h' : stored_user u h = (r, h') ->
  h_db h' = h_db h /\ match r with
    | inl row => exists rec, users (h_db h) !! as_i64 u = Some rec /\ ur_role row = role_of rec
    | inr _ => True
    end.
Proof.
  unfold stored_user, db, map_err. intros H.
  apply bind_inv in H as [(row & h1 & H1 & H)|(e & H1 & ->)];
    destruct (db_call (Database.user db_fault u) h) as [[f|x] h2] eqn:Ed; simplify_eq;
    pose proof (query_run _ _ _ _ Ed) as [Edb _]; [|done].
  apply db_user_run in Ed. destruct row as [row|]; cbn [ok_or] in H; injection H as <- <-; [|done].
  split; [done|]. destruct Ed as (rec & Hrec & [Hrow _]%user_row_role). by exists rec.
Qed.

Lemma check_removals_run (ok : user_rec -> bool) (chk : Role -> bool) l h r h' :
  (forall rec, chk (role_of rec) = ok rec) ->
  for_ l (fun id => row ← stored_user id; require (chk (ur_role row))) h = (r, h') ->
  h_db h' = h_db h /\ match r with
    | inl _ => forall id, id ∈ l -> exists rec, users (h_db h) !! as_i64 id = Some rec /\ ok rec = true
    | inr _ => True
    end.
Proof.
  intros Hok. revert h r h'. induction l as [|id l IH]; intros h r h'; cbn [for_].
  { intros [= <- <-]. split; [done|]. by intros ? ?%not_elem_of_nil. }
  intros H. apply bind_inv in H as [([] & h1 & H1 & H)|(e & H1 & ->)].
  - apply bind_inv in H1 as [(row & h2 & H1 & H2)|(e & _ & ?)]; [|done].
    apply stored_user_run in H1 as [E1 (rec & Hrec & Hrole)]. apply require_inv in H2 as [-> Hchk].
    apply IH in H as [E2 Hl]. split; [congruence|]. destruct r as [[]|x]; [|done]. intros id' [->|Hin]%elem_of_cons.
    + exists rec. split; [done|]. rewrite <- Hok. by rewrite <- Hrole.
    + rewrite <- E1. by apply Hl.
  - split; [|done]. apply bind_inv in H1 as [(row & h2 & H1 & H2)|(e' & H1 & _)]; apply stored_user_run in H1 as [E1 _]; [|done].
    by apply require_inv in H2 as [-> _].
Qed.

Lemma remove_users_roles l d k :
  (u_role <$> users (foldl (fun d id => remove_one (as_i64 id) d) d l)) !! k =
  if decide (k ∈ as_i64 <$> l) then None else (u_role <$> users d) !! k.
Proof.
  revert d. induction l as [|id l IH]; intros d; cbn [foldl]; [done|]. rewrite IH.
  assert ((u_role <$> users (remove_one (as_i64 id) d)) = delete (as_i64 id) (u_role <$> users d)) as E.
  { unfold remove_one. cbn. rewrite fmap_delete. f_equal. rewrite <- map_fmap_compose. apply map_fmap_ext.
    intros i x _. cbn. by destruct (decide (u_invited_by x = Some (as_i64 id))). }
  rewrite E, fmap_cons. destruct (decide (k = as_i64 id)) as [->|Hne].
  - rewrite lookup_delete_eq. destruct (decide (as_i64 id ∈ as_i64 id :: (as_i64 <$> l))) as [|Hn]; [by case_decide|].
    destruct Hn. left.
  - rewrite lookup_delete_ne by done. apply decide_ext. rewrite elem_of_cons. tauto.
Qed.

(** Who [u] is who asks it over [conn], and what [target] is. *)
Definition asked_by (h : Hub) (u : UserId) (conn : Z) (k : Z) (P : Role -> user_rec -> Prop) : Prop :=
  exists su rec, h_sessions h !! u = Some su /\ s_conn_id su = conn /\ users (h_db h) !! k = Some rec /\ P (ur_role (s_row su)) rec.

(** What a request may do to the account [k]. *)
Definition may_change (h : Hub) (u : UserId) (conn : Z) (request : Request) (k : Z) (new : option Z) : Prop :=
  match request with
  | SetRole target role =>
      k = as_i64 target /\ new = Some (rank role) /\ asked_by h u conn k (fun actor rec => can_set_role actor (role_of rec) role = true)
  | RemoveUser target cascade =>
      (if cascade : bool then rtc (invited (h_db h)) (as_i64 target) k else k = as_i64 target) /\ new = None /\
      asked_by h u conn k (fun actor rec => can_remove actor (role_of rec) = true \/ (target = u /\ cascade = false))
  | _ => False
  end.

(** What anything may do to it. *)
Definition may_happen (a : action) (h : Hub) (k : Z) (new : option Z) : Prop :=
  match a with
  | ActRequest u conn request => may_change h u conn request k new
  | ActInactive t =>
      new = None /\ exists rec, users (h_db h) !! k = Some rec /\ u_last_seen rec < as_i64 (sat_sub t INACTIVE_ACCOUNT_LIFETIME)
  | ActRun (OpComplete _ pubkey code _ t invite exchanged) =>
      exchanged = true /\ is_Some invite /\ exists i, invites (h_db h) !! code = Some i /\ as_i64 t < i_expires_at i /\
        let role := match i_minted_by i with None => Admin | Some _ => User end in
        new = Some (rank role) /\
        match roles h !! k with
        | None => k = user_seq (h_db h) + 1 /\ find_pubkey (h_db h) pubkey = None
        | Some old => find_pubkey (h_db h) pubkey = Some k /\ old < rank role
        end
  | _ => False
  end.

Definition roles_change (may : Z -> option Z -> Prop) (h h' : Hub) : Prop :=
  forall k, roles h' !! k = roles h !! k \/ may k (roles h' !! k).
Definition roles_follow (h : Hub) (u : UserId) (conn : Z) (request : Request) : Hub -> Prop := roles_change (may_change h u conn request) h.

Lemma same_roles_change may h h' : same_roles h h' -> roles_change may h h'.
Proof. intros E k. left. by rewrite E. Qed.
Lemma same_roles_follow h u conn request h' : same_roles h h' -> roles_follow h u conn request h'.
Proof. intros E k. left. by rewrite E. Qed.

Lemma current_conn h u conn s : is_current h u conn = true -> h_sessions h !! u = Some s -> s_conn_id s = conn.
Proof. unfold is_current. intros H E. rewrite E in H. by apply Z.eqb_eq. Qed.

Lemma set_role_roles u conn w new h : is_current h u conn = true -> roles_follow h u conn (SetRole w new) (snd (hub_set_role u w new h)).
Proof.
  intros Hcur. destruct (hub_set_role u w new h) as [r h'] eqn:H. cbn [snd]. unfold hub_set_role in H.
  apply bind_inv in H as [(actor & h1 & Ha & H)|(x & Ha & ->)]; apply role_inv in Ha as [-> Ha]; [|by apply same_roles_follow].
  destruct Ha as (su & Hsu & Hactor).
  apply bind_inv in H as [([] & h1 & Hc & H)|(x & Hc & ->)]; apply require_inv in Hc as [-> _]; [|by apply same_roles_follow].
  apply bind_inv in H as [(row & h1 & Hs & H)|(x & Hs & ->)]; apply stored_user_run in Hs as [Edb Hs].
  2:{ apply same_roles_follow. unfold same_roles, roles. by rewrite Edb. }
  destruct Hs as (rec & Hrec & Hrole).
  apply bind_inv in H as [([] & h2 & Hc & H)|(x & Hc & ->)]; apply require_inv in Hc as [-> Hc].
  2:{ apply same_roles_follow. unfold same_roles, roles. by rewrite Edb. }
  assert (forall r h2, db (Database.set_role db_fault w new) h1 = (r, h2) ->
    match r with inl _ => roles h2 = <[as_i64 w := rank new]> (roles h) | inr _ => roles h2 = roles h end) as Hdb.
  { intros r0 h0. unfold db, map_err, db_call, Database.set_role, execute, transaction.
    destruct (db_fault (h_tick h1)); intros [= <- <-]; unfold roles; cbn; rewrite Edb; [done|].
    apply map_eq. intros k. rewrite lookup_fmap. destruct (decide (as_i64 w = k)) as [<-|].
    - by rewrite lookup_alter_eq, Hrec, lookup_insert_eq.
    - by rewrite lookup_alter_ne, lookup_insert_ne, lookup_fmap. }
  apply bind_inv in H as [([] & h2 & Hd & H)|(x & Hd & ->)]; apply Hdb in Hd; [|by apply same_roles_follow].
  assert (same_roles h2 h') as Es by (eapply keeps_run; [|exact H]; kept). intros k. rewrite Es, Hd.
  destruct (decide (as_i64 w = k)) as [<-|]; [right|left; by rewrite lookup_insert_ne].
  rewrite lookup_insert_eq. do 2 (split; [done|]). exists su, rec. rewrite Hactor, <- Hrole. split_and!; [done|by eapply current_conn|done..].
Qed.

Lemma query_dbr {A} (f : Database -> option A) h r h' : db (query db_fault f) h = (r, h') -> h_db h' = h_db h.
Proof.
  unfold db, map_err. destruct (db_call (query db_fault f) h) as [[a|e] h1] eqn:E; intros [= <- <-]; by apply query_run in E as [-> _].
Qed.

Lemma same_db_follow h u conn request h' : h_db h' = h_db h -> roles_follow h u conn request h'.
Proof. intros E. apply same_roles_follow. unfold same_roles, roles. by rewrite E. Qed.

(** The ids [invite_tree] returns are those of the target and of whom it invited, through others. *)
Lemma invite_tree_ids w d n l d' n' : is_u64 w -> fit d -> invite_tree db_fault w d n = (inl l, d', n') -> forall k, k ∈ as_i64 <$> l <-> rtc (invited d) (as_i64 w) k.
Proof.
  intros Hw [Hseq Hu] H k. unfold invite_tree, query, transaction in H. destruct (db_fault n); [done|].
  destruct (tree_query_closure d (as_i64 w)) as [_ Hx]. remember (S (size (users d))) as fuel. injection H as <- _ _. rewrite <- Hx.
  rewrite <- list_fmap_compose, list_elem_of_fmap.
  assert (forall x, x ∈ tree_query fuel d [as_i64 w] [as_i64 w] -> as_i64 (as_u64 x) = x) as Hb.
  { intros x [<-|(y & _ & u & Hy%Hu & _)]%Hx%rtc_inv_r; [by rewrite as_u64_as_i64|]. apply ids_round_trip. lia. }
  split; [intros (x & -> & Hin); cbn; by rewrite Hb|]. intros Hin. exists k. cbn. by rewrite Hb.
Qed.

Lemma remove_user_roles u conn w cascade h : is_u64 w -> fit (h_db h) -> is_current h u conn = true ->
  roles_follow h u conn (RemoveUser w cascade) (snd (remove_user u w cascade h)).
Proof.
  intros Hw Hfit Hcur.
  destruct (remove_user u w cascade h) as [r h'] eqn:H. cbn [snd]. unfold remove_user in H. cbv zeta in H.
  apply bind_inv in H as [(actor & h1 & Ha & H)|(x & Ha & ->)]; apply role_inv in Ha as [-> Ha]; [|by apply same_roles_follow].
  destruct Ha as (su & Hsu & Hactor). set (leaving := (w =? u) && negb cascade) in *.
  apply bind_inv in H as [(last & h1 & Hlast & H)|(x & Hlast & ->)].
  2:{ destruct (leaving && _); [|done]. apply bind_inv in Hlast as [(n & h1 & _ & ?)|(e & Hn & _)]; [done|]. apply same_db_follow. by eapply query_dbr. }
  assert (h_db h1 = h_db h) as E1.
  { destruct (leaving && _); [|by injection Hlast as _ <-].
    apply bind_inv in Hlast as [(n & h2 & Hn & [= _ <-])|(e & _ & ?)]; [|done]. by eapply query_dbr. }
  destruct last; [injection H as _ <-; by apply same_db_follow|].
  apply bind_inv in H as [([] & h2 & Hc & H)|(x & Hc & ->)]; apply require_inv in Hc as [-> _]; [|by apply same_db_follow].
  apply bind_inv in H as [(removed & h2 & Hrem & H)|(x & Hrem & ->)].
  2:{ destruct cascade; [|done]. apply same_db_follow. rewrite <- E1. by eapply query_dbr. }
  assert (h_db h2 = h_db h /\ forall k, k ∈ as_i64 <$> removed -> if cascade then rtc (invited (h_db h)) (as_i64 w) k else k = as_i64 w) as [E2 Hone].
  { destruct cascade; [|injection Hrem as <- <-; split; [done|]; intros k; cbn; by intros ->%list_elem_of_singleton].
    split; [rewrite <- E1; by eapply query_dbr|]. intros k. unfold db, map_err, db_call in Hrem. rewrite E1 in Hrem.
    destruct (invite_tree db_fault w (h_db h) (h_tick h1)) as [[[l|x] d'] n'] eqn:Et; [|done]. injection Hrem as <- _.
    by apply (invite_tree_ids w _ _ _ _ _ Hw Hfit Et). }
  pose proof (check_removals_run (fun rec => leaving || can_remove actor (role_of rec)) (fun role => leaving || can_remove actor role) removed h2) as Hrun.
  apply bind_inv in H as [([] & h3 & Hchk & H)|(x & Hchk & ->)]; apply Hrun in Hchk as [E3 Hchk]; try done.
  2:{ apply same_db_follow. congruence. }
  assert (forall r h4, db (Database.remove_users db_fault removed) h3 = (r, h4) ->
    match r with inl _ => h_db h4 = foldl (fun d id => remove_one (as_i64 id) d) (h_db h) removed | inr _ => h_db h4 = h_db h end) as Hdb.
  { intros r0 h0. unfold db, map_err, db_call, Database.remove_users, execute, transaction.
    destruct (db_fault (h_tick h3)); intros [= <- <-]; cbn; congruence. }
  apply bind_inv in H as [([] & h4 & Hd & H)|(x & Hd & ->)]; apply Hdb in Hd; [|by apply same_db_follow].
  assert (same_roles h4 h') as Es by (eapply keeps_run; [|exact H]; kept). intros k. rewrite Es. unfold roles at 1 3. rewrite Hd, remove_users_roles.
  destruct (decide (k ∈ as_i64 <$> removed)) as [Hin|]; [right|by left].
  pose proof (Hone k Hin) as Hk. apply list_elem_of_fmap in Hin as (id & -> & Hin). destruct (Hchk id Hin) as (rec & Hrec & Hallowed). rewrite E2 in Hrec.
  do 2 (split; [done|]). exists su, rec. split_and!; [done|by eapply current_conn|done|]. rewrite Hactor.
  apply orb_true_iff in Hallowed as [Hl|?]; [right|by left]. unfold leaving in Hl. by apply andb_true_iff in Hl as [Hself%Z.eqb_eq Hcas%negb_true_iff].
Qed.

Lemma session_core h h' u : h_sessions h' = h_sessions h -> h_db h' = h_db h ->
  forall conn request h'', roles_follow h' u conn request h'' -> roles_follow h u conn request h''.
Proof.
  intros Es Ed conn request h'' Hf k. specialize (Hf k). unfold roles, may_change, asked_by in *. by rewrite Es, Ed in Hf.
Qed.

(** Requests that name no account to change. *)
Lemma other_request_roles u conn request :
  match request with SetRole _ _ | RemoveUser _ _ => False | _ => True end -> keeps same_roles (dispatch u conn request).
Proof.
  intros Hno. unfold dispatch. cbv zeta.
  apply keeps_bind; [apply _|kept|intros []].
  apply keeps_bind; [apply _|destruct request; kept|intros free].
  apply keeps_bind; [apply _| |intros allowed].
  { destruct free; [kept|]. apply keeps_bind; [apply _|kept|intros t].
    destruct (match request with RequestKeyframe _ _ | FetchAvatar _ => true | _ => false end); apply roles_take; by intros. }
  destruct allowed; cbn [negb]; [|kept].
  destruct request; try done; try (match goal with |- keeps _ (done _) => apply roles_done end); solve [eauto 3 with hub nocore].
Qed.

Lemma run_ret {E A B} (a : A) (k : A -> M E B) h : (mret a ≫= k) h = k a h.
Proof. reflexivity. Qed.

Lemma require_current_run u conn h r h' : require_current u conn h = (r, h') -> h' = h /\ (r = inl () -> is_current h u conn = true).
Proof. unfold require_current. rewrite run_bind. cbn [gets]. destruct (is_current h u conn); by intros [= <- <-]. Qed.

(** What is done before a role change or a removal is looked at. *)
Lemma dispatch_prefix u conn request h r h' (m : M Refusal Response) :
  match request with SetRole target new => m = hub_set_role u target new
                   | RemoveUser target cascade => m = remove_user u target cascade | _ => False end ->
  dispatch u conn request h = (r, h') ->
  exists h1, h_sessions h1 = h_sessions h /\ h_db h1 = h_db h /\ (h' = h1 \/ (is_current h1 u conn = true /\ h' = snd (m h1))).
Proof.
  intros Hm H. unfold dispatch in H. cbv zeta in H.
  apply bind_inv in H as [([] & h0 & Hc & H)|(x & Hc & ->)]; apply require_current_run in Hc as [-> Hc]; [|by exists h; repeat split; left]. specialize (Hc eq_refl).
  assert ((match request with PublishSenderKey epoch _ => free_key_publish u epoch | _ => mret false end) = mret (M := M Refusal) false) as Ef
    by (by destruct request).
  rewrite Ef, run_ret in H.
  rewrite run_bind in H. unfold now, meter_take in H. rewrite run_bind in H.
  assert (exists ok h1, h_sessions h1 = h_sessions h /\ h_db h1 = h_db h /\
    (if negb ok then throw (Refuse RateLimited (lit "too many requests; slow down")) else done m) h1 = (r, h')) as (ok & h1 & E1 & E2 & H1).
  { destruct request; try done; subst m; cbv iota beta in H; destruct (buckets_take _ _ _ _) as [ok b]; exists ok; eexists;
      (split; [|split; [|exact H]]); done. }
  assert (is_current h1 u conn = true) as Hc1 by (unfold is_current in *; by rewrite E1).
  clear H. exists h1. do 2 (split; [done|]). destruct ok; cbn [negb] in H1; [right|left; by injection H1].
  unfold done in H1. rewrite run_bind in H1. by destruct (m h1) as [[resp|x] h2]; injection H1 as _ <-.
Qed.

Lemma request_roles u conn request h : match request with RemoveUser target _ => is_u64 target | _ => True end -> fit (h_db h) ->
  roles_follow h u conn request (snd (handle_request u conn request h)).
Proof.
  intros Hid Hfit. assert (snd (handle_request u conn request h) = snd (dispatch u conn request h)) as ->.
  { unfold handle_request. by destruct (dispatch u conn request h) as [[r|x] h']. }
  assert ((exists target new, request = SetRole target new) \/ (exists target cascade, request = RemoveUser target cascade) \/
          match request with SetRole _ _ | RemoveUser _ _ => False | _ => True end) as [(target & new & ->)|[(target & cascade & ->)|Hno]]
    by (destruct request; eauto 6).
  - destruct (dispatch u conn (SetRole target new) h) as [r h'] eqn:H.
    destruct (dispatch_prefix u conn (SetRole target new) h r h' _ eq_refl H) as (h1 & Es & Ed & [->|[Hc ->]]); [by apply same_db_follow|].
    eapply session_core; [done|done|by apply set_role_roles].
  - destruct (dispatch u conn (RemoveUser target cascade) h) as [r h'] eqn:H.
    destruct (dispatch_prefix u conn (RemoveUser target cascade) h r h' _ eq_refl H) as (h1 & Es & Ed & [->|[Hc ->]]); [by apply same_db_follow|].
    eapply session_core; [done|done|apply remove_user_roles; [done|by rewrite Ed|done]].
  - apply same_roles_follow. by apply other_request_roles.
Qed.

(** ** Sweeps and enrollments *)

Lemma inactive_roles t h : fit (h_db h) -> roles_change (may_happen (ActInactive t) h) h (snd (remove_inactive t h)).
Proof.
  intros [Hseq Hu]. destruct (remove_inactive t h) as [r h'] eqn:H. unfold remove_inactive in H. cbn [snd].
  set (before := sat_sub t INACTIVE_ACCOUNT_LIFETIME) in *.
  apply bind_inv in H as [(l & h1 & Hl & H)|(x & Hl & ->)]; pose proof (query_run _ _ _ _ Hl) as [E1 Hl']; [|by apply same_roles_change; unfold same_roles, roles; rewrite E1].
  specialize (Hl' l eq_refl). injection Hl' as Hl'.
  assert (forall k, k ∈ as_i64 <$> l -> exists rec, users (h_db h) !! k = Some rec /\ u_last_seen rec < as_i64 before) as Hold.
  { intros k. rewrite <- Hl', <- list_fmap_compose, list_elem_of_fmap. intros (x & -> & [rec [Hx Hlt]%map_lookup_filter_Some]%elem_of_ids).
    exists rec. cbn. pose proof (Hu x rec Hx). by destruct (ids_round_trip x) as [-> _]; [lia|]. }
  clear Hl Hl'. destruct l as [|id l]; [injection H as _ <-; apply same_roles_change; unfold same_roles, roles; by rewrite E1|].
  assert (forall r h2, db_call (Database.remove_users db_fault (id :: l)) h1 = (r, h2) ->
    match r with inl _ => h_db h2 = foldl (fun d id => remove_one (as_i64 id) d) (h_db h) (id :: l) | inr _ => h_db h2 = h_db h end) as Hdb.
  { intros r0 h0. unfold db_call, Database.remove_users, execute, transaction. destruct (db_fault (h_tick h1)); intros [= <- <-]; cbn; congruence. }
  apply bind_inv in H as [([] & h4 & Hd & H)|(x & Hd & ->)]; apply Hdb in Hd; [|by apply same_roles_change; unfold same_roles, roles; rewrite Hd].
  assert (same_roles h4 h') as Es by (eapply keeps_run; [|exact H]; kept). intros k. rewrite Es. unfold roles at 1 3. rewrite Hd, remove_users_roles.
  destruct (decide (k ∈ as_i64 <$> id :: l)) as [Hin|]; [right|by left]. split; [done|by apply Hold].
Qed.

Lemma enroll_roles pubkey code name t d n r d' n' : Database.enroll db_fault pubkey code name t d n = (r, d', n') ->
  exists o d1, enroll_tx pubkey code name t d = Some (o, d1) /\ users d' = users d1 \/ users d' = users d.
Proof.
  unfold Database.enroll, mbind, DbM_bind, transaction at 1. destruct (db_fault n); [intros [= _ <- _]; exists None, d; by right|].
  destruct (enroll_tx pubkey code name t d) as [[o d1]|]; [|intros [= _ <- _]; exists None, d; by right].
  intros H. exists o, d1. left. split; [done|]. destruct o as [[id kind]|]; [|by injection H as _ <- _].
  unfold Database.user, query, transaction in H. destruct (db_fault _); [by injection H as _ <- _|].
  destruct (users d1 !! _) as [u|]; cbn in H; [destruct (user_row _ u); cbn in H|]; by injection H as _ <- _.
Qed.

Lemma enrolled_roles source pubkey code name t invite exchanged st :
  let op := OpComplete source pubkey code name t invite exchanged in fit (h_db (sv_hub st)) ->
  roles_change (may_happen (ActRun op) (sv_hub st)) (sv_hub st) (sv_hub (run_one op st)).
Proof.
  intros op [_ Hu]. subst op. cbn [run_one]. unfold complete_run. destruct exchanged; [|by apply same_roles_change]. cbn [negb orb].
  case_bool_decide as Hinv; [by apply same_roles_change|]. destruct (db_call _ _) as [r h] eqn:E.
  assert (roles_change (may_happen (ActRun (OpComplete source pubkey code name t invite true)) (sv_hub st)) (sv_hub st) h) as Hh.
  { unfold db_call in E. destruct (Database.enroll _ _ _ _ _ _ _) as [[r' d'] n'] eqn:Ed. injection E as _ <-.
    apply enroll_roles in Ed as (o & d1 & [[Etx Eu]|Eu]); [|apply same_roles_change; unfold same_roles, roles; cbn; by rewrite Eu].
    intros k. unfold roles at 1 3. cbn [h_db upd_db upd_tick]. cbn. rewrite Eu. clear Eu. unfold enroll_tx in Etx.
    destruct (invites (h_db (sv_hub st)) !! code) as [i|] eqn:Ei; [|injection Etx as _ <-; by left].
    destruct (Z.ltb_spec (as_i64 t) (i_expires_at i)) as [Hlive|]; [|injection Etx as _ <-; by left]. cbn [negb] in Etx. cbv zeta in Etx.
    change (find_pubkey (set_invites _ _) pubkey) with (find_pubkey (h_db (sv_hub st)) pubkey) in Etx.
    destruct (find_pubkey (h_db (sv_hub st)) pubkey) as [id|] eqn:Ef.
    - cbn in Etx. destruct (users (h_db (sv_hub st)) !! id) as [u|] eqn:Eu; [|done]. cbn in Etx.
      destruct (Z.ltb_spec (u_role u) (rank (match i_minted_by i with None => Admin | Some _ => User end))) as [Hlt|]; injection Etx as _ <-; [|by left].
      cbn. rewrite fmap_insert. cbn. destruct (decide (id = k)) as [<-|]; [right|left; by rewrite lookup_insert_ne].
      rewrite lookup_insert_eq. split; [done|]. split; [by destruct invite|]. exists i. do 2 (split; [done|]). cbv zeta. split; [done|].
      unfold roles. by rewrite lookup_fmap, Eu.
    - unfold insert_user in Etx. cbn in Etx. destruct (_ <=? i64_max); [|done]. injection Etx as _ <-. cbn. rewrite fmap_insert. cbn.
      set (k0 := user_seq (h_db (sv_hub st)) + 1). destruct (decide (k0 = k)) as [<-|]; [|left; by rewrite lookup_insert_ne].
      destruct (roles (sv_hub st) !! k0) as [old|] eqn:Eo. 2: { right. rewrite lookup_insert_eq. split; [done|]. split; [by destruct invite|].
        by exists i. }
      unfold roles in Eo. rewrite lookup_fmap in Eo. destruct (users (h_db (sv_hub st)) !! k0) as [u|] eqn:Eu; [|done]. apply Hu in Eu. lia. }
  destruct r as [[enrolled|]|e]; [|exact Hh..]. cbn [snd sv_hub with_hub with_limiter]. intros k.
  match goal with |- context [snd (?m h)] => assert (keeps same_roles m) as Hk by (destruct enrolled; [apply roles_listers|apply roles_changed|by intros ?]) end.
  specialize (Hk h). rewrite Hk. apply Hh.
Qed.

(** A target is named by a [u64]. *)
Definition names_ids (a : action) : Prop := match a with ActRequest _ _ (RemoveUser target _) => is_u64 target | _ => True end.

(** C22: Whatever happens to the server in any state it reaches, every account keeps its role,
    no account goes and none is new, but: the account a [SetRole] names, whose role an admin may
    change below their own and to one below their own; the account a [RemoveUser] names, and with
    [cascade] those it invited, directly or not, each of which must be outranked by who asks, or
    be their own and asked for alone; both only over the asker's current connection; an account
    not seen for [INACTIVE_ACCOUNT_LIFETIME], when the inactive are swept; and the account of the
    key that enrolls by an invite still live, after the exchange, which is new or rises to the
    invite's role: an admin's if the server minted it, a user's otherwise. *)
Theorem accounts_change_only_from_above (d : Database) (fingerprint : bytes) (a : action) (st : ServerState) :
  db_wf d -> reachable d fingerprint st -> names_ids a ->
  roles_change (may_happen a (sv_hub st)) (sv_hub st) (sv_hub (act a st)).
Proof.
  intros W Hr Hids. pose proof (reachable_fit _ _ _ W Hr) as Hfit.
  destruct a as [u conn request|u conn x|row conn want|u conn| |t|pubkey|op]; cbn [act sv_hub with_hub].
  - apply request_roles; [by destruct request|done].
  - apply same_roles_change. unfold resume. pose proof (roles_finish u conn x (sv_hub st)) as Hk. by destruct (finish u conn x (sv_hub st)) as [[]].
  - apply same_roles_change, roles_connect.
  - apply same_roles_change, roles_disconnect.
  - apply same_roles_change, roles_flush.
  - by apply inactive_roles.
  - by apply same_roles_change, roles_call, roles_query.
  - destruct op as [source code|source pubkey code name t invite exchanged|code m]; [|by apply enrolled_roles|apply same_roles_change, roles_drop_run].
    apply same_roles_change. cbn [run_one]. unfold begin_run. destruct (is_full (sv_hub st)); [done|]. cbv zeta.
    destruct (begin _ _ _) as [[] limiter]; cbn [negb snd sv_hub with_hub with_limiter count_refusal]; [|done].
    destruct (claim_try _ _ _) as [r h] eqn:E. apply (keeps_run _ _ _ _ _ (roles_claim code _)) in E. by destruct r as [[i|]|e].
Qed.

End Changes.

(** ** Concretely *)

(** An admin, a user they did not invite, and two whom that one and the first of them invited. *)
Definition example_invited : Database :=
  mkDb (<[1 := mkUserRec (repeat 97 32) None None None [65] None (rank Admin) None 1 1]> (<[2 := example_user None 98]>
    (<[3 := example_user (Some 2) 99]> (<[4 := example_user (Some 3) 100]> (<[5 := example_user (Some 1) 101]> ∅))))) 5 ∅ 0 ∅ ∅ None None.

Lemma example_invited_wf : db_wf example_invited.
Proof.
  split; cbn; try done.
  - intros id u Hu. repeat (apply lookup_insert_Some in Hu as [[<- <-]|[_ Hu]];
      [split; try done; try (by eexists); cbn; try lia; intros ? [= <-]; by eexists|]).
    by rewrite lookup_empty in Hu.
  - intros id id' u u' Hu Hu' E.
    repeat (apply lookup_insert_Some in Hu as [[<- <-]|[_ Hu]]); repeat (apply lookup_insert_Some in Hu' as [[<- <-]|[_ Hu']]);
      try done; by rewrite lookup_empty in *.
Qed.

Definition example_removal : action := ActRequest 1 1 (RemoveUser 2 true).
Definition example_signed_in : ServerState :=
  act (env := example_env) (ActConnect (example_user_row 1 97 Admin) 101 None)
    (mkServer (snd (bind_hub (env := example_env) (hub_empty example_invited []))) limiter_default ∅).

(** The admin removes one and the two that came through them; the others stay. *)
Lemma accounts_change_only_from_above_witness :
  map_to_list (roles (sv_hub (act (env := example_env) example_removal example_signed_in))) = [(5, rank User); (1, rank Admin)] /\
  rtc (invited (h_db (sv_hub example_signed_in))) 2 4 /\
  roles_change (may_happen example_removal (sv_hub example_signed_in)) (sv_hub example_signed_in)
    (sv_hub (act (env := example_env) example_removal example_signed_in)).
Proof.
  assert (reachable (env := example_env) example_invited [] example_signed_in) as Hr.
  { apply reach_act; [apply reach_start; vm_compute; reflexivity|]. vm_compute. split; [split|]; done. }
  assert (roles_change (may_happen example_removal (sv_hub example_signed_in)) (sv_hub example_signed_in)
    (sv_hub (act (env := example_env) example_removal example_signed_in))) as H.
  { apply (accounts_change_only_from_above (env := example_env) example_invited []); [exact example_invited_wf|exact Hr|].
    vm_compute. split; discriminate. }
  split; [vm_compute; reflexivity|]. split; [|exact H].
  assert (roles (sv_hub (act (env := example_env) example_removal example_signed_in)) !! 4 = None) as E1 by (vm_compute; reflexivity).
  assert (roles (sv_hub example_signed_in) !! 4 = Some 0) as E2 by (vm_compute; reflexivity).
  destruct (H 4) as [E|[E _]]; [rewrite E1, E2 in E; discriminate|]. exact E.
Defined.
