(* ===== verification/HubKeys.v ===== *)
(** * Sender keys, and connections that were replaced

    What a publish of sender keys delivers, and that a connection another has replaced can
    neither see nor change anything any more. *)
From S2P Require Import Prelude Float64 Buckets Ids Frame Invite Messages Limits RoomPassword Sfu Crypto Database DatabaseFacts.
From S2P Require Import HubState Hub Auth HubLogic HubFacts HubSteps HubEntry AuthFacts HubTheorems.
Open Scope Z_scope.

Section Keys.
Context {env : Env}.

(** What [try_send] to [s] does: the queue takes [o], or the connection is closed. *)
Definition delivery (s : Session) (event : Event) (e : effect) : Prop :=
  e = Queued (s_handle s) (OutMessage (SmEvent event)) \/
  e = Close (s_handle s) close.PROTOCOL_ERROR (lit "control queue full").

Definition sent (n : nat) (es : list effect) (h : Hub) : Hub := upd_out (fun out => out ++ es) (upd_tick (fun _ => n) h).

Lemma upd_out_id h : upd_out (fun out => out ++ []) h = h.
Proof. destruct h. unfold upd_out. cbn. by rewrite app_nil_r. Qed.

Lemma sent_nil h : sent (h_tick h) [] h = h.
Proof. unfold sent. destruct h. unfold upd_tick, upd_out. cbn. by rewrite app_nil_r. Qed.

Lemma sent_sent n es n' es' h : sent n' es' (sent n es h) = sent n' (es ++ es') h.
Proof. destruct h. unfold sent, upd_tick, upd_out. cbn. by rewrite app_assoc. Qed.

Lemma emit_to_run {E} u event s h : h_sessions h !! u = Some s ->
  exists n e, emit_to (E := E) u event h = (inl (), sent n [e] h) /\ delivery s event e.
Proof.
  intros Hs. unfold emit_to. rewrite run_bind. cbn [gets]. rewrite Hs. unfold send. rewrite run_bind. unfold try_send.
  destruct (accepts (h_tick h)).
  - exists (S (h_tick h)). eexists. split; [|by left]. reflexivity.
  - exists (S (h_tick h)). eexists. split; [|by right]. reflexivity.
Qed.

(** Each recipient's event, in order. *)
Lemma publish_loop_run user epoch wrapped h :
  (forall to blob, (to, blob) ∈ wrapped -> is_Some (h_sessions h !! to)) ->
  exists n es, for_ (E := Refusal) wrapped (fun '(to, blob) => emit_to to (SenderKeyPublished user epoch blob)) h = (inl (), sent n es h) /\
    Forall2 (fun '(to, blob) e => exists s, h_sessions h !! to = Some s /\ delivery s (SenderKeyPublished user epoch blob) e) wrapped es.
Proof.
  assert (forall h0, h_sessions h0 = h_sessions h -> (forall to blob, (to, blob) ∈ wrapped -> is_Some (h_sessions h !! to)) ->
    exists n es, for_ (E := Refusal) wrapped (fun '(to, blob) => emit_to to (SenderKeyPublished user epoch blob)) h0 = (inl (), sent n es h0) /\
    Forall2 (fun '(to, blob) e => exists s, h_sessions h !! to = Some s /\ delivery s (SenderKeyPublished user epoch blob) e) wrapped es) as Hg;
    [|by apply Hg].
  induction wrapped as [|[to blob] wrapped IH]; intros h0 Hh Hall; cbn [for_].
  { exists (h_tick h0), []. split; [by rewrite sent_nil|constructor]. }
  destruct (Hall to blob) as [s Hs]; [left|]. rewrite run_bind.
  destruct (emit_to_run (E := Refusal) to (SenderKeyPublished user epoch blob) s h0) as (n & e & He & Hd); [by rewrite Hh|].
  rewrite He. destruct (IH (sent n [e] h0)) as (n' & es & Hes & HF); [done|intros; apply (Hall _ blob0); by right|].
  rewrite Hes. exists n', (e :: es). split; [by rewrite sent_sent|]. constructor; [by exists s|done].
Qed.

Lemma check_recipients_ok user members wrapped seen :
  check_recipients user members wrapped seen = None ->
  NoDup (wrapped.*1) /\ forall to blob, (to, blob) ∈ wrapped ->
    to <> user /\ to ∈ members /\ (to ∉ seen) /\ Z.of_nat (length blob) <= MAX_WRAPPED_BYTES.
Proof.
  revert seen. induction wrapped as [|[to blob] wrapped IH]; intros seen; cbn [check_recipients].
  { intros _. split; [constructor|]. by intros ? ? ?%not_elem_of_nil. }
  destruct (bool_decide (to = user) || bool_decide (to ∉ members) || bool_decide (to ∈ seen)) eqn:Hc; [done|].
  apply orb_false_iff in Hc as [Hc Hs%bool_decide_eq_false].
  apply orb_false_iff in Hc as [Hu%bool_decide_eq_false Hm%bool_decide_eq_false%dec_stable].
  destruct (Z.ltb_spec MAX_WRAPPED_BYTES (Z.of_nat (length blob))); [done|]. intros [Hnd Hall]%IH. split.
  - csimpl. apply list.NoDup_cons. split; [|done]. intros ([to' blob'] & -> & Hin)%list_elem_of_fmap.
    destruct (Hall _ _ Hin) as (_ & _ & Hnot & _). set_solver.
  - intros to' blob' [[= -> ->]|Hin]%elem_of_cons; [done|]. destruct (Hall _ _ Hin) as (? & ? & ? & ?). set_solver.
Qed.

(** C25: Publishing sender keys either is refused and does nothing at all, or: the sender is in
    a room whose epoch is the one the keys are for, every recipient is another member of that
    room and named once, no wrapped key is over the limit, and the server sends exactly one
    event per key, in order, to its recipient's connection (closing it if its queue is full)
    and changes nothing else. *)
Theorem sender_keys_reach_their_recipients_once (d : Database) (fingerprint : bytes) (st : ServerState)
    (user : UserId) (epoch : Epoch) (wrapped : list (UserId * bytes)) :
  db_wf d -> reachable d fingerprint st ->
  let h := sv_hub st in
  match publish_key user epoch wrapped h with
  | (inr _, h') => h' = h
  | (inl response, h') =>
      response = RespOk /\
      exists room s e, h_sessions h !! user = Some s /\ s_room s = Some room /\ h_rooms h !! room = Some e /\ e_epoch e = epoch /\
        NoDup (wrapped.*1) /\
        (forall to blob, (to, blob) ∈ wrapped -> to ∈ e_members e /\ to <> user /\ Z.of_nat (length blob) <= MAX_WRAPPED_BYTES) /\
        exists n es, h' = sent n es h /\
          Forall2 (fun '(to, blob) eff => exists t, h_sessions h !! to = Some t /\ s_room t = Some room /\
            delivery t (SenderKeyPublished user epoch blob) eff) wrapped es
  end.
Proof.
  intros W Hr h. pose proof (ok_placed _ (reachable_ok _ _ _ W Hr)) as Hp. fold h in Hp.
  destruct (publish_key user epoch wrapped h) as [r h'] eqn:H. unfold publish_key in H.
  apply bind_inv in H as [(room & h1 & Hc & H)|(x & Hc & ->)]; apply current_room_inv in Hc as [-> Hc]; [|done].
  destruct Hc as (s & Hs & Hroom).
  apply bind_inv in H as [(e & h1 & He & H)|(x & He & ->)]; apply room_entry_inv in He as [-> He]; [|done].
  destruct (Z.eqb_spec epoch (e_epoch e)) as [Hepoch|]; cbn [negb] in H; [|by injection H as <- <-].
  destruct (check_recipients user (e_members e) wrapped ∅) as [x|] eqn:Hchk; [by injection H as <- <-|].
  apply check_recipients_ok in Hchk as [Hnd Hall]. rewrite run_bind in H. cbn [mret M_ret] in H. unfold mret at 1, M_ret at 1 in H.
  assert (forall to blob, (to, blob) ∈ wrapped -> exists t, h_sessions h !! to = Some t /\ s_room t = Some room) as Hin.
  { intros to blob Hin. destruct (Hall to blob Hin) as (_ & Hm & _). by apply (placed_member h Hp _ _ _ He Hm). }
  destruct (publish_loop_run user epoch wrapped h) as (n & es & Hrun & HF).
  { intros to blob Hw. destruct (Hin to blob Hw) as (t & ? & _). by exists t. }
  rewrite run_bind, Hrun in H. injection H as <- <-. split; [done|]. exists room, s, e. do 4 (split; [done|]). split; [done|]. split.
  - intros to blob Hw. destruct (Hall to blob Hw) as (? & ? & _ & ?). done.
  - exists n, es. split; [done|]. clear -HF Hin. induction HF as [|[to blob] eff wrapped es (t & Ht & Hd) HF IH]; constructor.
    + destruct (Hin to blob) as (t' & Ht' & Hr); [left|]. exists t. split; [done|]. split; [congruence|done].
    + apply IH. intros to' blob' Hw. apply (Hin to' blob'). by right.
Qed.

(** ** Replaced connections *)

Definition same_conns (h h' : Hub) : Prop := s_conn_id <$> h_sessions h' = s_conn_id <$> h_sessions h.
Lemma same_conns_unmoved : unmoved same_conns.
Proof.
  split; try done.
  - split; [done|]. intros ? ? ? ? ?. unfold same_conns in *. congruence.
  - intros u f h Hf. unfold same_conns. cbn. apply fmap_alter_same. intros s _. apply Hf.
Qed.
Local Instance same_conns_order : PreOrder same_conns := um_order _ same_conns_unmoved.

Lemma conns_rejoin {E} u room : keeps same_conns (rejoin (E := E) u room).
Proof.
  unfold rejoin. kept; first [apply unmoved_tick|apply unmoved_place|idtac]; try apply same_conns_unmoved;
    intros h; unfold meter_holds, meter_take; [destruct (buckets_holds _ _ _ _)|destruct (buckets_take _ _ _ _)];
    by destruct a.
Qed.
(** The connection a sign-in ends with. *)
Lemma connect_conn row c want h conn welcome h' : h_next_conn h < u64_max -> 0 <= h_next_conn h ->
  connect row c want h = (inl (inl (conn, welcome)), h') ->
  conn = h_next_conn h + 1 /\ is_current h' (ur_id row) conn = true.
Proof.
  intros Hlt Hpos H. unfold connect in H. cbv zeta in H. set (u := ur_id row) in *.
  apply bind_inv in H as [(found & h1 & E1 & H)|(x & _ & ?)]; [|done].
  pose proof (keeps_run calm _ _ _ _ (calm_keeps _ (quiet_db _ (grows_user db_fault u)) (core_db _)) E1) as Q1.
  destruct (current ← found; _) as [row'|]; [|done].
  apply bind_inv in H as [(seen & h2 & E2 & H)|(x & _ & ?)]; [|done]. apply (keeps_run calm) in E2 as Q2; [|by apply calm_keeps; [kept|apply core_unix]].
  apply bind_inv in H as [(x & h3 & E3 & H)|(x & _ & ?)]; [|done].
  pose proof (keeps_run calm _ _ _ _ (calm_keeps _ (quiet_db _ (grows_mark_seen db_fault u seen)) (core_db _)) E3) as Q3.
  rewrite run_bind in H. cbn [gets] in H. rewrite run_bind in H. cbn [gets] in H. destruct (_ && _); [done|].
  apply step_safe in H as ([] & h4 & Hev & H); [|safely].
  rewrite run_bind in H. cbn [modify] in H. rewrite run_bind in H. cbn [gets] in H. rewrite run_bind in H. cbn [modify] in H.
  set (h5 := upd_sessions _ _) in *.
  assert (h_next_conn h4 = h_next_conn h) as En.
  { rewrite (sl_next _ _ (keeps_run _ _ _ _ _ (evict_locks u _) Hev)).
    by rewrite (q_next_conn _ _ (proj1 Q3)), (q_next_conn _ _ (proj1 Q2)), (q_next_conn _ _ (proj1 Q1)). }
  rewrite run_bind in H. cbn [gets] in H.
  apply bind_inv in H as [(rejoined & h6 & Hre & H)|(y & _ & ?)]; [|done].
  assert (same_conns h5 h6) as Hc1.
  { destruct (room ← want; _) as [room|]; [by apply (keeps_run _ _ _ _ _ (conns_rejoin u room)) in Hre|by injection Hre as _ <-]. }
  apply bind_inv in H as [(server & h7 & Hs & H)|(y & _ & ?)]; [|done]. rewrite run_bind in H. cbn [gets] in H. injection H as <- _ <-.
  assert (h_sessions h7 = h_sessions h6) as E7.
  { unfold attempt in Hs. destruct (db_call _ h6) as [rr h8] eqn:Edb. injection Hs as _ <-. by apply (keeps_run _ _ _ _ _ (core_db _)) in Edb as []. }
  assert (wrap64 (h_next_conn h4 + 1) = h_next_conn h + 1) as Ew.
  { rewrite En. unfold wrap64, u64_max in *. apply Z.mod_small. lia. }
  cbn [h_next_conn upd_next_conn]. split; [exact Ew|].
  unfold same_conns in Hc1. apply (f_equal (.!! u)) in Hc1. rewrite !lookup_fmap in Hc1. unfold h5 in Hc1. cbn in Hc1.
  rewrite lookup_insert_eq in Hc1. apply fmap_Some in Hc1 as (s & Hs6 & Hconn). unfold is_current. rewrite E7, Hs6, <- Hconn. cbn.
  apply Z.eqb_refl.
Qed.

(** Nothing a connection asks of the hub is heard: its requests and finished password checks
    are answered with [Forbidden] and its end is ignored. *)
Definition turned_away (h : Hub) (user : UserId) (conn : Z) : Prop :=
  (forall request, handle_request user conn request h =
     (Done (RespErr Forbidden (lit "this connection was replaced")), h)) /\
  (forall d, resume user conn d h = (RespErr Forbidden (lit "this connection was replaced"), h)) /\
  disconnect (E := Refusal) user conn h = (inl (), h).

Lemma not_current_turned_away h user conn : is_current h user conn = false -> turned_away h user conn.
Proof.
  intros Hno. unfold turned_away, handle_request, dispatch, resume, finish, disconnect, require_current.
  split; [|split]; [intros d|intros d|]; rewrite !run_bind; cbn [gets]; by rewrite Hno.
Qed.

(** Signing in ends the user's other connection for good: it gets an id no connection had
    before, and from then on a request, a finished password check or the end of any other
    connection of theirs is turned away without changing anything. *)
Theorem replaced_connections_are_dead (d : Database) (fingerprint : bytes) (st : ServerState)
    (row : UserRow) (c : handle) (want_room : option RoomId) (conn : Z) (welcome : Welcome) (h' : Hub) :
  db_wf d -> reachable d fingerprint st -> act_ok (ActConnect row c want_room) st ->
  connect row c want_room (sv_hub st) = (inl (inl (conn, welcome)), h') ->
  (forall u s, h_sessions (sv_hub st) !! u = Some s -> s_conn_id s <> conn) /\
  is_current h' (ur_id row) conn = true /\
  forall old, old <> conn -> turned_away h' (ur_id row) old.
Proof.
  intros W Hr [Hid Hlt] H. pose proof (ok_placed _ (reachable_ok _ _ _ W Hr)) as Hp.
  destruct (connect_conn _ _ _ _ _ _ _ Hlt (proj1 (pl_next_conn _ Hp)) H) as [-> Hcur]. split; [|split; [done|]].
  - intros u s Hs. pose proof (pl_conn _ Hp u _ (lookup_views _ _ _ Hs)). cbn in *. lia.
  - intros old Hold. apply not_current_turned_away. unfold is_current in *.
    destruct (h_sessions h' !! ur_id row) as [s|]; [|done]. lia.
Qed.

End Keys.

(** The first publishes their key at the room's epoch to the second. *)
Lemma sender_keys_reach_their_recipients_once_witness :
  exists h', @publish_key example_env 1 2 [(2, [42])] (sv_hub (example_server 4)) = (inl RespOk, h') /\
    exists n es, h' = sent n es (sv_hub (example_server 4)) /\ length es = 1%nat.
Proof.
  pose proof (sender_keys_reach_their_recipients_once (env := example_env) example_db [] (example_server 4) 1 2 [(2, [42])]
    example_db_wf (example_reachable 4)) as H. cbv zeta in H.
  destruct (@publish_key example_env 1 2 [(2, [42])] (sv_hub (example_server 4))) as [[response|x] h'] eqn:E.
  - destruct H as (-> & room & s & e & _ & _ & _ & _ & _ & _ & n & es & Hh & HF). exists h'. split; [done|].
    exists n, es. split; [exact Hh|]. by apply Forall2_length in HF.
  - exfalso. apply (f_equal (fun p => match fst p with inl _ => true | inr _ => false end)) in E. vm_compute in E. discriminate E.
Defined.

(** The second signs in again: their connection 2 is dead. *)
Lemma replaced_connections_are_dead_witness :
  exists welcome h', @connect example_env (example_user_row 2 98 User) 103 None (sv_hub (example_server 6)) = (inl (inl (3, welcome)), h') /\
    @handle_request example_env 2 2 LeaveRoom h' = (Done (RespErr Forbidden (lit "this connection was replaced")), h').
Proof.
  destruct (@connect example_env (example_user_row 2 98 User) 103 None (sv_hub (example_server 6))) as [[[[conn welcome]|x]|x] h'] eqn:E.
  - assert (conn = 3) as ->.
    { apply (f_equal (fun p => match fst p with inl (inl (c, _)) => c | _ => 0 end)) in E. vm_compute in E. by symmetry. }
    exists welcome, h'. split; [done|].
    destruct (replaced_connections_are_dead (env := example_env) example_db [] (example_server 6) (example_user_row 2 98 User) 103 None 3 welcome h'
      example_db_wf (example_reachable 6)) as (_ & _ & H); [|exact E|].
    + split; [cbn; unfold is_u64, u64_max; lia|vm_compute; reflexivity].
    + by apply (H 2).
  - exfalso. apply (f_equal (fun p => match fst p with inl (inl _) => true | _ => false end)) in E. vm_compute in E. discriminate E.
  - exfalso. apply (f_equal (fun p => match fst p with inl (inl _) => true | _ => false end)) in E. vm_compute in E. discriminate E.
Defined.

(** ** A new encryption key

    What storing a user's encryption key does to their room, and what it leaves when the
    room's epoch cannot be raised. *)

Section Encryption.
Context {env : Env}.

(** A key may be set until it expires, and expires within [MAX_ENCRYPTION_KEY_LIFETIME]. *)
Definition in_range (now : Z) (key : SignedEncryptionKey) : Prop :=
  now < ek_not_after key <= now + MAX_ENCRYPTION_KEY_LIFETIME.

Definition key_of (h : Hub) (user : UserId) : option SignedEncryptionKey :=
  s ← h_sessions h !! user; ur_encryption_key (s_row s).
Definition epochs (h : Hub) : gmap Z Epoch := e_epoch <$> h_rooms h.

(** Whether peers must wrap their sender keys anew: the key itself is another. *)
Definition another_key (stored : option SignedEncryptionKey) (key : SignedEncryptionKey) : bool :=
  match stored with None => true | Some stored => bool_decide (ek_key stored <> ek_key key) end.

Lemma core_broadcast {E} room x : keeps same_core (broadcast_peers (E := E) room x).
Proof.
  assert (forall (E0 : Type) u e, keeps same_core (emit_to (E := E0) u e)) as Hemit.
  { intros E' u e. unfold emit_to, send, try_send, output. kept; intros h; [by destruct (accepts _)|done]. }
  unfold broadcast_peers, emit_room. kept.
Qed.

Lemma same_core_key h h' u : same_core h h' -> key_of h' u = key_of h u.
Proof. intros []. unfold key_of. congruence. Qed.
Lemma same_core_epochs h h' : same_core h h' -> epochs h' = epochs h.
Proof. intros []. unfold epochs. congruence. Qed.

(** The end of [hub_set_encryption_key], after the key is stored in the session. *)
Lemma rekey_run (room : option RoomId) (another : bool) h r h' :
  match room with
  | None => mret RespOk
  | Some room =>
      _ ← (if another then bump_epochs [room] else mret ());
      _ ← broadcast_peers room None;
      mret RespOk
  end h = (r, h') ->
  h_sessions h' = h_sessions h /\
  match r with
  | inl resp => resp = RespOk /\
      forall r0, epochs h' !! r0 = (fun e => if bool_decide (room = Some r0) && another then e + 1 else e) <$> epochs h !! r0
  | inr _ => epochs h' = epochs h
  end.
Proof.
  destruct room as [room|].
  2:{ intros [= <- <-]. split; [done|]. split; [done|]. intros r0. by destruct (epochs h !! r0). }
  intros H. apply bind_inv in H as [([] & h1 & H1 & H)|(x & H1 & ->)].
  - apply step_safe in H as ([] & h2 & H2 & H); [|by apply safe_broadcast]. injection H as <- <-.
    pose proof (keeps_run _ _ _ _ _ (core_broadcast room None) H2) as Hc.
    destruct another; [|injection H1 as <-].
    + apply bump_spec in H1 as (_ & Es & Hr & _). split; [rewrite (sc_sessions _ _ Hc); done|]. split; [done|]. intros r0.
      rewrite (same_core_epochs _ _ Hc). unfold epochs. rewrite !lookup_fmap, Hr, <- option_fmap_compose, <- option_fmap_compose.
      destruct (h_rooms h !! r0) as [e|]; cbn; [|done]. f_equal. unfold bumped. rewrite andb_true_r.
      destruct (decide (r0 ∈ [room])) as [->%list_elem_of_singleton|Hne]; [by rewrite bool_decide_true|].
      rewrite bool_decide_false; [done|]. intros [= ->]. apply Hne. by left.
    + split; [apply Hc|]. split; [done|]. intros r0. rewrite andb_false_r, (same_core_epochs _ _ Hc). by destruct (epochs h !! r0).
  - destruct another; [|done]. apply bump_spec in H1 as (_ & Es & Hr & _). split; [done|]. unfold epochs. by rewrite Hr.
Qed.

(** Setting an encryption key succeeds only for a session, within the key's range, and with
    a signature of the account's key unless the key is the stored one, which changes nothing;
    it then stores the key, and raises the epoch of exactly the user's room, and exactly if
    the key itself is another than the one before.  A refusal raises no epoch. *)
Theorem another_key_raises_the_epoch (user : UserId) (key : SignedEncryptionKey) (h : Hub) :
  let '(r, h') := hub_set_encryption_key user key h in
  match r with
  | inr _ => epochs h' = epochs h
  | inl response => response = RespOk /\ key_of h' user = Some key /\ in_range (unix_clock (h_tick h)) key /\
      exists s, h_sessions h !! user = Some s /\
        ((ur_encryption_key (s_row s) = Some key /\ h' = next_tick h) \/
         (ur_encryption_key (s_row s) <> Some key /\
          ed25519_ok (ur_pubkey (s_row s))
            (encryption_key_message (h_fingerprint h) user (ek_not_after key) (ek_key key)) (ek_sig key) = true /\
          forall room, epochs h' !! room =
            (fun e => if bool_decide (s_room s = Some room) && another_key (ur_encryption_key (s_row s)) key then e + 1 else e)
              <$> epochs h !! room))
  end.
Proof.
  destruct (hub_set_encryption_key user key h) as [r h'] eqn:H. unfold hub_set_encryption_key in H.
  apply bind_inv in H as [(s & h1 & Hs & H)|(x & Hs & ->)]; apply session_inv in Hs as [-> Hs]; [|done].
  rewrite run_bind in H. cbn [unix_now] in H.
  destruct (Z.leb_spec (ek_not_after key) (unix_clock (h_tick h))) as [?|Hlo]; [by injection H as <- <-|].
  destruct (Z.ltb_spec (unix_clock (h_tick h) + MAX_ENCRYPTION_KEY_LIFETIME) (ek_not_after key)) as [?|Hhi]; [by injection H as <- <-|].
  cbn [orb] in H. assert (in_range (unix_clock (h_tick h)) key) as Hrange by (unfold in_range; lia).
  cbv zeta in H. destruct (decide (ur_encryption_key (s_row s) = Some key)) as [Hsame|Hdiff].
  { injection H as <- <-. split; [done|]. split; [unfold key_of; cbn; by rewrite Hs|]. split; [done|]. exists s. split; [done|]. by left. }
  rewrite run_bind in H. cbn [gets] in H. destruct (ed25519_ok _ _ _) eqn:Hsig; cbn [negb] in H; [|by injection H as <- <-].
  apply bind_inv in H as [(taken & h1 & H1 & H)|(x & H1 & ->)];
    (apply (keeps_run same_core) in H1 as Hc1;
      [|destruct (ur_encryption_key _); kept; [apply core_now|apply core_take; by intros f ?]]); [|by apply (same_core_epochs _ _ Hc1)].
  destruct taken; cbn [negb] in H; [|injection H as <- <-; by apply (same_core_epochs _ _ Hc1)].
  apply bind_inv in H as [([] & h2 & H2 & H)|(x & H2 & ->)];
    (apply (keeps_run same_core) in H2 as Hc2; [|apply keeps_map_err, core_db]); pose proof (transitivity Hc1 Hc2) as Hc;
    [|by apply (same_core_epochs _ _ Hc)].
  assert (h_sessions h2 !! user = Some s) as Hs2 by (by rewrite (sc_sessions _ _ Hc)).
  rewrite run_bind, (session_mut_run _ _ _ _ Hs2) in H. set (h3 := upd_sessions _ _) in *.
  assert (h_sessions h3 !! user = Some (with_row (row_with_key key (s_row s)) s)) as Hs3 by (cbn; by rewrite lookup_alter_eq, Hs2).
  apply bind_inv in H as [(s' & h4 & Hs' & H)|(x & Hs' & ->)]; apply session_inv in Hs' as [-> Hs'].
  2:{ exact (same_core_epochs _ _ Hc). }
  assert (s' = with_row (row_with_key key (s_row s)) s) as -> by congruence. cbn [s_room with_row] in H.
  change (match ur_encryption_key (s_row s) with None => true | Some stored => bool_decide (ek_key stored <> ek_key key) end)
    with (another_key (ur_encryption_key (s_row s)) key) in H.
  apply rekey_run in H as [Es H]. assert (epochs h3 = epochs h) as E3 by exact (same_core_epochs _ _ Hc).
  destruct r as [response|x]; [|by rewrite H]. destruct H as [-> H]. split; [done|].
  split; [unfold key_of; by rewrite Es, Hs3|]. split; [done|]. exists s. split; [done|]. right. split; [done|]. split; [done|].
  by rewrite <- E3.
Qed.

End Encryption.

(** ** What a failed transaction leaves

    [hub_set_encryption_key] stores the key before it raises the epoch, so when the epoch's
    transaction fails the key stays, the peers are not told of it and the user is answered
    with an error; the same request made again then finds the key stored and is answered
    [RespOk], though the room still has the epoch and the peers the key they had. *)

(** [example_env] with the transaction at one reading failing. *)
Definition failing_at (n : nat) : Env := {|
  instant := @instant example_env; unix_clock := @unix_clock example_env; db_fault := fun k => (k =? n)%nat;
  random_bytes := @random_bytes example_env; accepts := @accepts example_env; sha256 := @sha256 example_env;
  ed25519_ok := @ed25519_ok example_env; argon2_hash := @argon2_hash example_env; argon2_verify := @argon2_verify example_env
|}.

Definition example_key : SignedEncryptionKey := {| ek_key := repeat 5 32; ek_not_after := 1700600000; ek_sig := repeat 6 64 |}.

Lemma a_failed_rekey_is_not_made_up_for :
  let h := sv_hub (example_server 4) in
  let e := failing_at (3 + h_tick h) in
  let '(r1, h1) := @hub_set_encryption_key e 1 example_key h in
  let '(r2, h2) := @hub_set_encryption_key e 1 example_key h1 in
  r1 = inr internal /\ r2 = inl RespOk /\ key_of h 1 <> Some example_key /\ key_of h2 1 = Some example_key /\
  epochs h2 = epochs h /\ h_out h2 = h_out h.
Proof. vm_compute. repeat split; discriminate. Qed.

(** A leaver's room keeps its epoch when the epoch's transaction fails. *)
Lemma a_leaver_may_leave_the_epoch :
  let h := sv_hub (example_server 4) in
  let h' := snd (@disconnect (failing_at (h_tick h)) Refusal 2 2 h) in
  e_members <$> h_rooms h !! 1 = Some {[1; 2]} /\ e_members <$> h_rooms h' !! 1 = Some {[1]} /\ epochs h' = epochs h.
Proof. vm_compute. repeat split; reflexivity. Qed.
